(* ===== verification/_CoqProject ===== *)
-Q . S2P
Prelude.v
GoText.v
GoBinary.v
GoJson.v
Errors.v
GoOS.v
Keyed.v
KeyedStorage.v
KeyedRecovery.v
KeyedCommit.v
KeyedDurability.v
KeyedGroup.v
KeyedSystem.v
KeyedScenario.v
KeyedTheorems.v
Catalog.v
CatalogStorage.v
Query.v
CatalogTheorems.v
CatalogRecovery.v
CatalogSafety.v
CatalogDurability.v
CoreTypes.v
CoreEngine.v
CoreWal.v
CoreSnapshot.v
Core.v
CoreSpec.v
CoreRefinement.v
CoreHistory.v
CoreSerial.v
CoreCodec.v
CoreWide.v
CoreRestore.v
CoreMoney.v
CoreTheorems.v
CoreDurability.v
OctetDB.v
OctetDBTheorems.v
Scheduled.v
ScheduledObserver.v
ScheduledDispatch.v
ScheduledPolicy.v
ScheduledSelect.v
ScheduledSystem.v
ScheduledTheorems.v
ScheduledPlain.v
GoVarint.v
AccountAgent.v
AgentLemmas.v
AgentDelta.v
AgentDeltaLemmas.v
AgentTheorems.v
Research.v
ResearchLemmas.v
ResearchEngine.v
ResearchSystem.v
ResearchLanes.v
ResearchTheorems.v
ResearchDedupe.v
ResearchWal.v
ResearchWalLemmas.v
ResearchStorage.v
ResearchStorageLemmas.v
ResearchStorageSystem.v
ResearchStorageTheorems.v
ResearchSnapshot.v
ResearchRestore.v
ResearchRuns.v
ResearchSnapshotStorage.v
ResearchLife.v
ResearchLifeTheorems.v
M5.v
M5Theorems.v
BsoPolicy.v
BsoAuthority.v
BsoSystem.v
BsoTheorems.v
Golden.v
GoldenTheorems.v
