(* ===== verification/Prelude.v ===== *)
(** * OctetDB: a verification development

    OctetDB is an embedded, durable, in-memory database in Go.  Its parts, from
    the caller down:

    - the public account database ([octetdb.go], [errors.go]): options, the FORMAT
      marker, conversion of commands, results and errors, an admission token;
    - the account engine below it ([internal/core/types.go],
      [internal/core/core.go]): dense account slots, the decision function of the
      account domain, batches evaluated against staged effects, a bounded window
      of retained results, a binary write-ahead log with one frame and one
      synchronization per batch, and binary snapshots;
    - the keyed engine ([keyed.go], [keyed_storage.go]): a map from keys to
      values changed by idempotent commands with callbacks, group commit by a
      coordinator, a JSON log with checksummed frames, and snapshots;
    - the catalog over the keyed engine ([catalog.go], [catalog_storage.go]) with
      buckets, datasets, transactions and bounds, and ordered scans ([query.go]);
    - a scheduler for requests that conflict ([internal/scheduled/]);
    - the research engine ([internal/researchengine/]), an earlier account engine
      with one agent per account, generated from a model ([internal/model/]), a
      hand-written control, a commit authority and a log in segments.

    ** Files

    Foundations.  [Prelude.v]: results as a sum with its notation, loops with
    early return, sorting, machine-width integers, generic lemmas, automation.
    [GoText.v], [GoBinary.v], [GoJson.v]: what the program uses of Go's strings,
    [encoding/binary], CRC-32, SHA-256, hexadecimal and [encoding/json], with the
    round trips.  [Errors.v]: errors as a tree and [wrapError].  [GoOS.v]: the
    file model, an I/O monad over a world with inodes, unsynchronized
    modifications, a directory with its unsynchronized states and a schedule of
    faults; [crash] relates a world to every world a power failure can leave; and
    a small Hoare logic.

    Keyed engine.  [Keyed.v] models [keyed.go] (options, transactions, callbacks,
    [executeKeyed], [applyKeyed]); [KeyedStorage.v] models [keyed_storage.go];
    [KeyedCommit.v] models group commit, the coordinator and the operations of a
    handle.  [KeyedRecovery.v], [KeyedDurability.v], [KeyedGroup.v] and
    [KeyedSystem.v] hold the invariants of log, disk, groups and the whole system
    as a step relation; [KeyedScenario.v] a concrete database; [KeyedTheorems.v]
    the claims: from the first snapshot on, acknowledged decisions of requests
    the log can hold survive any faults, crashes and openings; groups are serial
    executions, the coordinator is fair and terminates, retries are exact, commits
    are atomic, torn logs and overlapping snapshots recover; and executions that
    show what happens outside of these conditions.

    Catalog.  [Catalog.v], [CatalogStorage.v] and [Query.v] model [catalog.go],
    [catalog_storage.go] and [query.go]; [CatalogTheorems.v],
    [CatalogRecovery.v], [CatalogSafety.v] and [CatalogDurability.v] prove that
    [Mutate] is a transaction over a map of maps, that datasets stay in their
    bounds, that scans are complete and ordered, that the catalog stays well
    formed, that its file decodes to it where names are UTF-8, and that the file
    is replaced atomically.

    Account engine.  [CoreTypes.v] models [types.go]; [CoreEngine.v] the part of
    [core.go] that lives in memory, [CoreWal.v] the log, [CoreSnapshot.v] the
    snapshot, [Core.v] the operations.  [CoreSpec.v] is the abstract ledger;
    [CoreRefinement.v], [CoreHistory.v] and [CoreSerial.v] show
    that slots, marks, epochs and the ring of identities implement it;
    [CoreCodec.v], [CoreWide.v] and [CoreRestore.v] are the round trips of log and
    snapshot; [CoreMoney.v] counts balances; [CoreTheorems.v] holds the claims
    about decisions, batches, retries, recovery and money, and at its end
    executions that reach states the code's comments exclude;
    [CoreDurability.v] has the one about runs with faults and crashes that start
    with the opening of a new directory, and that before the first snapshot a
    crash may lose the log.  [OctetDB.v] models [octetdb.go], and
    [OctetDBTheorems.v] states what its callers see: durability, the meaning of
    errors and of reasons.

    Scheduler.  [Scheduled.v] models the plans, the generated admission flow and
    controllers and the conventional policy of [internal/scheduled/],
    [ScheduledObserver.v] its predictor, [ScheduledDispatch.v] the
    conflict-aware dispatcher of [conflict.go] with one function per case of its
    loop, and [ScheduledPlain.v] the plain loop of [scheduled.go] with the claim
    that it keeps the order.  [ScheduledPolicy.v] shows that plans and policies
    written by hand agree with the generated ones; [ScheduledSelect.v] what one
    selection and one round do; [ScheduledSystem.v] is the step relation of
    submitters, dispatcher and workers with its invariant; and
    [ScheduledTheorems.v] states the claims about runs: conflicting writes never
    run at once, every request is answered once, nothing exceeds its bounds, the
    dispatcher never panics, idles or starves a request.

    Agent.  [GoVarint.v] is the rest of [encoding/binary].  [AccountAgent.v]
    models the generated agent of [account_agent.generated.go] and
    [AgentDelta.v] the durable agent of [account_agent_delta.go];
    [AgentLemmas.v] and [AgentDeltaLemmas.v] are their invariants and codecs;
    [AgentTheorems.v] shows that turns end, that checkpoints resume the agent and
    that its deltas rebuild it.

    Research engine.  [Research.v] models the store, the commands and the
    hand-written decisions, [ResearchEngine.v] the two lanes, the commit
    authority and the replay of [engine.go], [ResearchDedupe.v] the compact form
    of remembered results, [ResearchWal.v] records, frames, segments and their
    scan, [ResearchStorage.v] the operations on the directory.
    [ResearchLemmas.v], [ResearchSystem.v] and [ResearchLanes.v] hold the
    invariants of runs; [ResearchTheorems.v] shows that the
    log recovers the engine, that the lanes agree, what is refused and what is
    remembered, and that every request of a group is answered once.
    [ResearchWalLemmas.v] and [ResearchStorageLemmas.v] read segments back;
    [ResearchStorageSystem.v] holds the invariant of
    the directory, and [ResearchStorageTheorems.v] shows that acknowledged
    records survive any number of sessions, with the one assumption the
    experiment's notes make, that the names of the files survive a crash.
    [ResearchSnapshot.v] models the engine's snapshots, the periodic one at the
    end of a group and [openM1Engine];
    [ResearchRestore.v] and [ResearchRuns.v] show
    that the snapshot of any run restores it, [ResearchSnapshotStorage.v] that
    snapshots are installed, retire the log and load; [ResearchLife.v] is the
    life of an engine with its directory and [ResearchLifeTheorems.v] shows that
    restored engines answer alike, that an engine survives crashes as long as its
    snapshots and closes succeed, and what a failed snapshot destroys.

    Product catalogs.  [M5.v] models [internal/m5], the lanes of
    [internal/m5compiled] and the indexes of [cmd/m5gen], whose tables are derived
    from the rows; [M5Theorems.v] says what
    cursors, groups and price indexes give, states the interface a lane keeps,
    and shows that the three lanes keep it and that the files of a catalog read
    back.

    Financial authorities.  [BsoPolicy.v] and [BsoAuthority.v] model the policies
    and the authorities of [experiments/BSOTrust/M3], an application of the
    database, with the JSON their state goes through; [BsoSystem.v] has the step
    relation of authorities that settle with each other, with the agreement their
    clients keep, and the invariant of their books, which every step keeps;
    [BsoTheorems.v] shows that money is conserved, that limits hold and what
    changes of policies allow.

    Golden services.  [Golden.v] models the stores and services of
    [integration/golden]: inventory, orders, jobs and webhooks, whose closures are
    mutations of the catalog; [GoldenTheorems.v] shows that the dataset of a service
    holds the map after the commands that were applied, and from it that items are
    never oversold, that orders keep to their life cycle, that only its owner completes a job and that
    an event is kept once, and what the listings show.

    ** Conventions

    A struct is a record, a method a function that takes and returns the value it
    changes; an error return is [Err]; a Go [int] is 64 bits wide and sums wrap
    where the code lets them.  Every definition computes, and the witnesses run
    them.  Loops that are not structural carry fuel that is a bound of the data
    they walk (the length of the log, of the queue or of the text), and the
    theorems show that it suffices.  Mutexes and the coordinator make operations
    atomic, so an interleaving is a sequence of operations.  The theorems about
    the account engine assume fewer than 2^32 decisions and account slots, which
    the 32-bit slot numbers of the code need.  In the scheduler a request carries
    the number that stands for its pointer, times are nanoseconds read by the
    events, the rounds of a dispatch are bounded by the free workers, and its
    counters do not wrap.

    ** Not modelled

    Durations, memory sizes and metrics of time; goroutine scheduling below the
    granularity above; the scheduler's execution against PostgreSQL, its wait for
    goroutines in [Close] and the loading of workloads; the
    single-file mode, traces and statistics of [internal/researchengine], its
    [c2.go], a predecessor of [internal/core], and its PostgreSQL control; the
    flow [AmountAdmission] of the agent model; the text of the artifact [cmd/m5gen]
    writes and the literal tables generated from it; the PostgreSQL experiments,
    benchmarks, commands, examples and the remaining
    simulations, which the database does not use. *)

From Stdlib Require Import ZArith Lia Strings.Byte Sorted.
From stdpp Require Import base decidable countable list gmap.

Declare Scope go_scope.
Delimit Scope go_scope with go.

(** ** Results: Go's [(value, error)] pairs as a sum *)

Inductive res (E A : Type) : Type :=
| Ok (a : A)
| Err (e : E).
Arguments Ok {E A} a.
Arguments Err {E A} e.

Definition res_bind {E A B} (m : res E A) (f : A → res E B) : res E B :=
  match m with Ok a => f a | Err e => Err e end.

(** [if cond { return err }]: an early return. *)
Definition guard_err {E} (fails : bool) (e : E) : res E unit :=
  if fails then Err e else Ok tt.

Notation "'let!' x := m 'in' k" := (res_bind m (fun x => k))
  (at level 10, x pattern, m at level 100, k at level 200,
   format "'let!'  x  :=  m  'in' '//' k") : go_scope.
Notation "'fail_if' c 'with' e ; k" := (res_bind (guard_err c e) (fun _ => k))
  (at level 10, c at level 100, e at level 100, k at level 200,
   format "'fail_if'  c  'with'  e ; '//' k") : go_scope.

Fixpoint res_fold {E A S} (f : S → A → res E S) (s : S) (l : list A) : res E S :=
  match l with
  | [] => Ok s
  | a :: l => res_bind (f s a) (fun s' => res_fold f s' l)
  end.

Definition is_ok {E A} (r : res E A) : bool :=
  match r with Ok _ => true | Err _ => false end.

(** [sort.Slice] with the comparison [lt]. *)
Fixpoint insert_by {A} (lt : A → A → bool) (x : A) (l : list A) : list A :=
  match l with
  | [] => [x]
  | y :: l' => if lt y x then y :: insert_by lt x l' else x :: l
  end.
Definition sort_by {A} (lt : A → A → bool) (l : list A) : list A := foldr (insert_by lt) [] l.

Lemma res_bind_ok {E A B} (m : res E A) (f : A → res E B) b :
  res_bind m f = Ok b ↔ ∃ a, m = Ok a ∧ f a = Ok b.
Proof. destruct m; simpl; naive_solver. Qed.

Lemma guard_err_ok {E} c (e : E) u : guard_err c e = Ok u ↔ c = false.
Proof. destruct c, u; simpl; naive_solver. Qed.

Lemma res_fold_app {E A S} (f : S → A → res E S) s l1 l2 :
  res_fold f s (l1 ++ l2) = res_bind (res_fold f s l1) (fun s' => res_fold f s' l2).
Proof.
  revert s. induction l1 as [|a l1 IH]; intros s; simpl; [done|].
  destruct (f s a); simpl; auto.
Qed.

(** ** Bytes: Go's [byte], [string] and [[]byte] *)

#[export] Instance byte_eq_dec : EqDecision byte.
Proof. intros x y. destruct (Byte.byte_eq_dec x y); [left|right]; done. Defined.

#[export] Instance byte_countable : Countable byte :=
  inj_countable Byte.to_N Byte.of_N Byte.of_to_N.

Abbreviation bytes := (list byte).

Definition bval (b : byte) : Z := Z.of_N (Byte.to_N b).

(** [byte(v)]: the conversion keeps the low eight bits. *)
Definition byte_of (v : Z) : byte :=
  match Byte.of_N (Z.to_N (v mod 256)) with Some b => b | None => x00 end.

Definition zlen {A} (l : list A) : Z := Z.of_nat (length l).

(** ** Machine integers: the wrap-around of Go's fixed-width types *)

Definition u32 (v : Z) : Z := v mod 2 ^ 32.
Definition u64 (v : Z) : Z := v mod 2 ^ 64.
Definition i64 (v : Z) : Z := (v + 2 ^ 63) mod 2 ^ 64 - 2 ^ 63.

Definition u32_range (v : Z) : Prop := (0 ≤ v < 2 ^ 32)%Z.
Definition u64_range (v : Z) : Prop := (0 ≤ v < 2 ^ 64)%Z.
Definition i64_range (v : Z) : Prop := (- 2 ^ 63 ≤ v < 2 ^ 63)%Z.

#[export] Instance u64_range_dec v : Decision (u64_range v).
Proof. unfold u64_range. apply _. Defined.
#[export] Instance i64_range_dec v : Decision (i64_range v).
Proof. unfold i64_range. apply _. Defined.

Create HintDb go.
Create Rewrite HintDb go.

(** Splits the success of a chain of early returns into its conditions. *)
Ltac inv_ok :=
  repeat match goal with
  | H : res_bind _ _ = Ok _ |- _ => apply res_bind_ok in H; destruct H as (?&?&H)
  | H : guard_err _ _ = Ok _ |- _ => apply guard_err_ok in H
  | H : Ok _ = Ok _ |- _ => injection H as H
  | H : Err _ = Ok _ |- _ => discriminate H
  | H : Ok _ = Err _ |- _ => discriminate H
  end; simplify_eq.

Ltac bool_to_prop :=
  repeat match goal with
  | H : _ || _ = false |- _ => apply orb_false_iff in H; destruct H
  | H : _ && _ = true |- _ => apply andb_true_iff in H; destruct H
  | H : negb _ = true |- _ => apply negb_true_iff in H
  | H : negb _ = false |- _ => apply negb_false_iff in H
  | H : (_ <? _)%Z = true |- _ => apply Z.ltb_lt in H
  | H : (_ <? _)%Z = false |- _ => apply Z.ltb_ge in H
  | H : (_ <=? _)%Z = true |- _ => apply Z.leb_le in H
  | H : (_ <=? _)%Z = false |- _ => apply Z.leb_gt in H
  | H : (_ =? _)%Z = true |- _ => apply Z.eqb_eq in H
  | H : (_ =? _)%Z = false |- _ => apply Z.eqb_neq in H
  | H : bool_decide _ = true |- _ => apply bool_decide_eq_true in H
  | H : bool_decide _ = false |- _ => apply bool_decide_eq_false in H
  end.

(** ** Lemmas on bytes and machine integers *)

Lemma bval_range b : (0 ≤ bval b < 256)%Z.
Proof. unfold bval. pose proof (Byte.to_N_bounded b). lia. Qed.

Lemma byte_of_bval b : byte_of (bval b) = b.
Proof.
  unfold byte_of. rewrite Z.mod_small by apply bval_range.
  unfold bval. rewrite N2Z.id, Byte.of_to_N. done.
Qed.

Lemma bval_byte_of v : bval (byte_of v) = (v mod 256)%Z.
Proof.
  unfold byte_of, bval. pose proof (Z.mod_pos_bound v 256 ltac:(lia)).
  destruct (Byte.of_N _) as [b|] eqn:E.
  - apply Byte.to_of_N in E. rewrite E. lia.
  - apply Byte.of_N_None_iff in E. lia.
Qed.

Lemma bval_inj a b : bval a = bval b → a = b.
Proof. intros H. rewrite <- (byte_of_bval a), <- (byte_of_bval b), H. done. Qed.

Lemma zlen_app {A} (l k : list A) : zlen (l ++ k) = (zlen l + zlen k)%Z.
Proof. unfold zlen. rewrite length_app. lia. Qed.

Lemma zlen_nonneg {A} (l : list A) : (0 ≤ zlen l)%Z.
Proof. unfold zlen. lia. Qed.

Lemma u64_id v : u64_range v → u64 v = v.
Proof. unfold u64, u64_range. intros. by apply Z.mod_small. Qed.

Lemma u32_id v : u32_range v → u32 v = v.
Proof. unfold u32, u32_range. intros. by apply Z.mod_small. Qed.

Lemma i64_id v : i64_range v → i64 v = v.
Proof. unfold i64, i64_range. intros. rewrite Z.mod_small by lia. lia. Qed.

Lemma u64_bound v : u64_range (u64 v).
Proof. unfold u64, u64_range. apply Z.mod_pos_bound. lia. Qed.

Lemma i64_bound v : i64_range (i64 v).
Proof.
  unfold i64, i64_range. pose proof (Z.mod_pos_bound (v + 2 ^ 63) (2 ^ 64) ltac:(lia)). lia.
Qed.

(** ** Lemmas on sorted lists and prefixes *)

Lemma sorted_snoc {A} (R : relation A) l x :
  StronglySorted R l → Forall (λ y, R y x) l → StronglySorted R (l ++ [x]).
Proof.
  induction 1 as [|y l Hl IH Hy]; intros Hf; simpl; [repeat constructor|].
  inversion Hf; subst. constructor; [auto|]. apply Forall_app. split; [done|]. by constructor.
Qed.

Lemma sorted_drop {A} (R : relation A) n l : StronglySorted R l → StronglySorted R (drop n l).
Proof.
  intros H. revert n. induction H as [|y l Hl IH Hy]; intros [|n]; simpl; try constructor; auto.
Qed.

Lemma sorted_le_last l x : StronglySorted Z.lt l → x ∈ l → (x ≤ default 0 (last l))%Z.
Proof.
  intros Hs. revert x. induction Hs as [|y l Hl IH Hy]; intros x Hx; [by apply not_elem_of_nil in Hx|].
  destruct l as [|z l].
  { apply list_elem_of_singleton in Hx as ->. done. }
  rewrite last_cons_cons. apply elem_of_cons in Hx as [->|Hx]; [|by apply IH].
  pose proof (IH z ltac:(left)). apply Forall_cons in Hy as [Hyz _]. lia.
Qed.

Lemma last_drop_snoc {A} n (l : list A) x : (n ≤ length l)%nat → last (drop n (l ++ [x])) = Some x.
Proof. intros H. rewrite drop_app_le by done. apply last_snoc. Qed.

#[export] Hint Resolve bval_range zlen_nonneg u64_bound i64_bound : go.
#[export] Hint Rewrite @zlen_app byte_of_bval bval_byte_of : go.
