(* ===== verification/GoText.v ===== *)
(** * Go strings: literals, byte order, sorting and UTF-8

    Go's [string] is an immutable byte sequence, so strings and [[]byte] are
    both [bytes].  This file holds what the program uses of the [strings],
    [sort] and [unicode/utf8] packages: the byte-wise order of [<] on strings,
    [sort.Strings], [sort.SearchStrings], rune segmentation, [strings.TrimSpace]
    and [strings.ContainsAny]. *)

From Stdlib Require Import ZArith Lia Strings.Byte Strings.String Sorted.
From stdpp Require Import base decidable countable list gmap sorting.
From S2P Require Import Prelude.

(** ** Literals *)

Definition bs (s : string) : bytes := list_byte_of_string s.
Arguments bs _%_string.

(** ** The order of strings *)

Fixpoint bltb (a b : bytes) : bool :=
  match a, b with
  | _, [] => false
  | [], _ :: _ => true
  | x :: a, y :: b =>
      if (bval x <? bval y)%Z then true
      else if (bval y <? bval x)%Z then false
      else bltb a b
  end.

Definition blt (a b : bytes) : Prop := bltb a b = true.
Definition ble (a b : bytes) : Prop := bltb b a = false.

(** Strictly ascending: what [sort.Strings] yields on distinct strings. *)
Abbreviation ascending := (StronglySorted blt).

(** [sort.Strings]. *)
Fixpoint sort_insert (x : bytes) (l : list bytes) : list bytes :=
  match l with
  | [] => [x]
  | y :: l => if bltb y x then y :: sort_insert x l else x :: y :: l
  end.
Definition sort_strings (l : list bytes) : list bytes := foldr sort_insert [] l.

(** [sort.Search]: the binary search over [f], with [fuel] a bound on the
    number of halvings; [sort.SearchStrings] instantiates it with the
    comparison [keys[h] >= x]. *)
Fixpoint sort_search (fuel : nat) (f : nat → bool) (i j : nat) : nat :=
  match fuel with
  | O => i
  | S fuel =>
      if (i <? j)%nat then
        let h := ((i + j) / 2)%nat in
        if f h then sort_search fuel f i h else sort_search fuel f (S h) j
      else i
  end.
Definition search_strings (l : list bytes) (x : bytes) : nat :=
  sort_search (length l)
    (fun h => match l !! h with Some y => negb (bltb y x) | None => true end)
    0 (length l).

(** ** UTF-8 *)

(** One step of [utf8.DecodeRuneInString]: a well-formed rune with its
    encoding, or one byte that does not start a well-formed rune. *)
Inductive chunk :=
| Rune (cp : Z) (enc : bytes)
| Bad (b : byte).

Definition cont (b : byte) : bool := (128 <=? bval b)%Z && (bval b <=? 191)%Z.

(** The accepted range of the second byte after a three- or four-byte lead. *)
Definition second_ok (lead b : byte) : bool :=
  let lo := match lead with xe0 => 160 | xf0 => 144 | _ => 128 end%Z in
  let hi := match lead with xed => 159 | xf4 => 143 | _ => 191 end%Z in
  (lo <=? bval b)%Z && (bval b <=? hi)%Z.

Definition in_range (lo hi : Z) (b : byte) : bool := (lo <=? bval b)%Z && (bval b <=? hi)%Z.

(** The code point and the number of continuation bytes of a well-formed rune
    that starts with [b0] and goes on in [s]. *)
Definition utf8_head (b0 : byte) (s : bytes) : option (Z * nat) :=
  if (bval b0 <? 128)%Z then Some (bval b0, 0)
  else if in_range 194 223 b0 then
    match s with
    | b1 :: _ =>
        if cont b1 then Some (((bval b0 - 192) * 64 + (bval b1 - 128))%Z, 1) else None
    | _ => None
    end
  else if in_range 224 239 b0 then
    match s with
    | b1 :: b2 :: _ =>
        if second_ok b0 b1 && cont b2
        then Some (((bval b0 - 224) * 4096 + (bval b1 - 128) * 64 + (bval b2 - 128))%Z, 2)
        else None
    | _ => None
    end
  else if in_range 240 244 b0 then
    match s with
    | b1 :: b2 :: b3 :: _ =>
        if second_ok b0 b1 && cont b2 && cont b3
        then Some (((bval b0 - 240) * 262144 + (bval b1 - 128) * 4096
                    + (bval b2 - 128) * 64 + (bval b3 - 128))%Z, 3)
        else None
    | _ => None
    end
  else None.

(** [skip] counts the continuation bytes of the current rune still to pass. *)
Fixpoint utf8_from (skip : nat) (s : bytes) : list chunk :=
  match s with
  | [] => []
  | b :: s' =>
      match skip with
      | S k => utf8_from k s'
      | O =>
          match utf8_head b s' with
          | Some (cp, k) => Rune cp (b :: take k s') :: utf8_from k s'
          | None => Bad b :: utf8_from 0 s'
          end
      end
  end.

Definition utf8_chunks (s : bytes) : list chunk := utf8_from 0 s.

Definition chunk_bytes (c : chunk) : bytes :=
  match c with Rune _ e => e | Bad b => [b] end.
Definition chunk_valid (c : chunk) : bool :=
  match c with Rune _ _ => true | Bad _ => false end.

(** The UTF-8 encoding of U+FFFD, what an invalid byte becomes. *)
Definition replacement : bytes := [xef; xbf; xbd].
Definition chunk_coerced (c : chunk) : bytes :=
  match c with Rune _ e => e | Bad _ => replacement end.

Definition utf8_valid (s : bytes) : bool := forallb chunk_valid (utf8_chunks s).
Definition utf8_coerce (s : bytes) : bytes := concat (map chunk_coerced (utf8_chunks s)).

(** ** [strings.TrimSpace] and [strings.ContainsAny] *)

(** [unicode.IsSpace]. *)
Definition is_space (cp : Z) : bool :=
  ((9 <=? cp) && (cp <=? 13) || (cp =? 32) || (cp =? 133) || (cp =? 160) || (cp =? 5760)
   || (8192 <=? cp) && (cp <=? 8202) || (cp =? 8232) || (cp =? 8233) || (cp =? 8239)
   || (cp =? 8287) || (cp =? 12288))%Z.
Definition chunk_space (c : chunk) : bool :=
  match c with Rune cp _ => is_space cp | Bad _ => false end.

Fixpoint drop_while {A} (p : A → bool) (l : list A) : list A :=
  match l with
  | [] => []
  | x :: r => if p x then drop_while p r else l
  end.

Definition trim_space (s : bytes) : bytes :=
  concat (map chunk_bytes
    (reverse (drop_while chunk_space (reverse (drop_while chunk_space (utf8_chunks s)))))).

(** [strings.TrimSpace(s) == ""]. *)
Definition blank (s : bytes) : bool := bool_decide (trim_space s = []).

(** [strings.ContainsAny(s, chars)] for ASCII [chars]. *)
Definition contains_any (s chars : bytes) : bool :=
  existsb (fun b => bool_decide (b ∈ chars)) s.

(** ** The order is a strict total order *)

Lemma bltb_irrefl a : bltb a a = false.
Proof. induction a as [|x a IH]; simpl; [done|]. by rewrite Z.ltb_irrefl. Qed.

Lemma blt_trans a b c : blt a b → blt b c → blt a c.
Proof.
  unfold blt. revert b c. induction a as [|x a IH]; intros [|y b] [|z c]; simpl; try done.
  repeat case_match; bool_to_prop; try done; try lia. eauto.
Qed.

Lemma bltb_total a b : bltb a b = false → bltb b a = false → a = b.
Proof.
  revert b. induction a as [|x a IH]; intros [|y b]; simpl; try done.
  repeat case_match; bool_to_prop; try done; intros.
  f_equal; [apply bval_inj; lia | auto].
Qed.

Lemma bltb_asym a b : bltb a b = true → bltb b a = false.
Proof.
  intros H. destruct (bltb b a) eqn:E; [|done].
  pose proof (blt_trans a b a H E) as H'. unfold blt in H'. by rewrite bltb_irrefl in H'.
Qed.

Lemma blt_ne a b : blt a b → a ≠ b.
Proof. intros H ->. unfold blt in H. by rewrite bltb_irrefl in H. Qed.

Lemma bltb_false_trans a b c : bltb b a = false → bltb c b = false → bltb c a = false.
Proof.
  intros H1 H2. destruct (bltb c a) eqn:E; [|done]. exfalso.
  destruct (decide (a = b)) as [->|Hn]; [congruence|].
  assert (blt a b) as Hab.
  { unfold blt. destruct (bltb a b) eqn:E2; [done|]. exfalso. apply Hn. by apply bltb_total. }
  pose proof (blt_trans c a b E Hab) as H. unfold blt in H. congruence.
Qed.

#[export] Instance blt_transitive : Transitive blt.
Proof. intros a b c. apply blt_trans. Qed.
#[export] Instance blt_irreflexive : Irreflexive blt.
Proof. intros a H. by apply blt_ne in H. Qed.

#[export] Hint Resolve bltb_irrefl blt_trans bltb_asym : go.

(** ** Sorting *)

Lemma sort_insert_perm x l : sort_insert x l ≡ₚ x :: l.
Proof.
  induction l as [|y l IH]; simpl; [done|]. case_match; [|done].
  rewrite IH. apply Permutation_swap.
Qed.

Lemma sort_strings_perm l : sort_strings l ≡ₚ l.
Proof.
  induction l as [|x l IH]; simpl; [done|]. rewrite sort_insert_perm. by f_equiv.
Qed.

Lemma sort_insert_ascending x l :
  x ∉ l → ascending l → ascending (sort_insert x l).
Proof.
  induction l as [|y l IH]; simpl; intros Hx Hs.
  - repeat constructor.
  - inversion Hs as [|? ? Hl Hall]; subst. apply not_elem_of_cons in Hx as [Hxy Hx].
    destruct (bltb y x) eqn:E.
    + constructor; [by apply IH|]. rewrite sort_insert_perm. by constructor.
    + assert (blt x y) as Hlt.
      { unfold blt. destruct (bltb x y) eqn:E2; [done|]. by destruct Hxy; apply bltb_total. }
      constructor; [done|]. constructor; [done|].
      eapply Forall_impl; [exact Hall|]. intros z Hz. by apply (blt_trans x y z).
Qed.

Lemma sort_strings_ascending l : NoDup l → ascending (sort_strings l).
Proof.
  induction 1 as [|x l Hx Hl IH]; simpl; [constructor|].
  apply sort_insert_ascending; [|done]. by rewrite sort_strings_perm.
Qed.

Lemma ascending_nodup l : ascending l → NoDup l.
Proof.
  induction 1 as [|x l Hl IH Hall]; constructor; [|done].
  intros Hin. rewrite Forall_forall in Hall. apply Hall in Hin. by apply blt_ne in Hin.
Qed.

Lemma ascending_perm_eq l1 l2 : ascending l1 → ascending l2 → l1 ≡ₚ l2 → l1 = l2.
Proof.
  intros H1 H2. revert l2 H2. induction H1 as [|x l1 Hl1 IH Hx]; intros l2 H2 Hp.
  - by apply Permutation_nil_l in Hp.
  - destruct H2 as [|y l2 Hl2 Hy]; [by apply Permutation_nil_r in Hp|].
    assert (x = y) as ->.
    { assert (x ∈ y :: l2) as Hxin by (rewrite <- Hp; left).
      assert (y ∈ x :: l1) as Hyin by (rewrite Hp; left).
      apply elem_of_cons in Hxin as [|Hxin]; [done|].
      apply elem_of_cons in Hyin as [|Hyin]; [done|].
      rewrite Forall_forall in Hx, Hy. specialize (Hx y Hyin). specialize (Hy x Hxin).
      unfold blt in *. apply bltb_asym in Hx. congruence. }
    f_equal. apply IH; [done|]. by apply Permutation_cons_inv in Hp.
Qed.

(** ** Binary search on an ascending list finds the insertion point *)

Lemma sort_search_spec fuel f i j p :
  (j - i ≤ fuel)%nat → (i ≤ p ≤ j)%nat →
  (∀ h, (i ≤ h < p)%nat → f h = false) → (∀ h, (p ≤ h < j)%nat → f h = true) →
  sort_search fuel f i j = p.
Proof.
  revert i j. induction fuel as [|fuel IH]; intros i j Hf Hp Hlo Hhi; cbn [sort_search]; [lia|].
  destruct (Nat.ltb_spec i j) as [Hij|Hij]; [|lia].
  pose proof (Nat.div_mod (i + j) 2 ltac:(lia)) as Hd.
  pose proof (Nat.mod_upper_bound (i + j) 2 ltac:(lia)) as Hm.
  set (h := ((i + j) / 2)%nat) in *. cbn zeta.
  destruct (f h) eqn:E.
  - assert (¬ (h < p)%nat) by (intros Hlt; rewrite Hlo in E by lia; done).
    apply IH; [lia..| |]; intros k Hk; [apply Hlo|apply Hhi]; lia.
  - assert (h < p)%nat.
    { destruct (decide (h < p)%nat); [done|]. rewrite Hhi in E by lia. done. }
    apply IH; [lia..| |]; intros k Hk; [apply Hlo|apply Hhi]; lia.
Qed.

Lemma search_strings_split l1 l2 x :
  Forall (λ y, blt y x) l1 → Forall (λ y, bltb y x = false) l2 →
  search_strings (l1 ++ l2) x = length l1.
Proof.
  intros H1 H2. unfold search_strings. apply sort_search_spec; rewrite ?length_app; try lia.
  - intros h Hh. rewrite lookup_app_l by lia.
    destruct (lookup_lt_is_Some_2 l1 h) as [y Hy]; [lia|]. rewrite Hy.
    rewrite Forall_lookup in H1. rewrite (H1 _ _ Hy). done.
  - intros h Hh. destruct ((l1 ++ l2) !! h) as [y|] eqn:Hy; [|done].
    rewrite lookup_app_r in Hy by lia. rewrite Forall_lookup in H2. by rewrite (H2 _ _ Hy).
Qed.

Lemma ascending_split l x :
  ascending l → ∃ l1 l2, l = l1 ++ l2 ∧ Forall (λ y, blt y x) l1 ∧ Forall (λ y, bltb y x = false) l2.
Proof.
  induction 1 as [|y l Hl (l1&l2&->&H1&H2) Hy].
  - by exists [], [].
  - destruct (bltb y x) eqn:E.
    + exists (y :: l1), l2. repeat split; [|done]. by constructor.
    + exists [], (y :: l1 ++ l2). repeat split; [constructor|]. constructor; [done|].
      eapply Forall_impl; [exact Hy|]. intros z Hz.
      destruct (bltb z x) eqn:E2; [|done].
      pose proof (blt_trans y z x Hz E2) as Hc. unfold blt in Hc. congruence.
Qed.

(** ** UTF-8 *)

Lemma utf8_ind (P : bytes → Prop) :
  P [] → (∀ b s, (∀ t, length t ≤ length s → P t) → P (b :: s)) → ∀ s, P s.
Proof.
  intros H0 HS s. remember (length s) as n eqn:Hn. revert s Hn.
  induction (lt_wf n) as [n _ IH]. intros [|b s] Hn; [done|].
  apply HS. intros t Ht. apply (IH (length t)); simpl in Hn; [lia|done].
Qed.

Lemma utf8_from_drop k s : utf8_from k s = utf8_chunks (drop k s).
Proof.
  revert s. induction k as [|k IH]; intros [|b s]; simpl; try done; apply IH.
Qed.

(** One decoding step and what it leaves. *)
Definition utf8_step (b : byte) (s : bytes) : chunk * bytes :=
  match utf8_head b s with
  | Some (cp, k) => (Rune cp (b :: take k s), drop k s)
  | None => (Bad b, s)
  end.

Lemma utf8_chunks_cons b s :
  utf8_chunks (b :: s) = (utf8_step b s).1 :: utf8_chunks (utf8_step b s).2.
Proof.
  unfold utf8_step, utf8_chunks at 1. simpl.
  destruct (utf8_head b s) as [[cp k]|]; simpl; by rewrite utf8_from_drop.
Qed.

Lemma utf8_step_bytes b s : chunk_bytes (utf8_step b s).1 ++ (utf8_step b s).2 = b :: s.
Proof.
  unfold utf8_step. destruct (utf8_head b s) as [[cp k]|]; simpl; [|done].
  by rewrite take_drop.
Qed.

Lemma utf8_step_length b s : (length (utf8_step b s).2 ≤ length s)%nat.
Proof.
  unfold utf8_step. destruct (utf8_head b s) as [[cp k]|]; simpl; rewrite ?length_drop; lia.
Qed.

Lemma utf8_chunks_bytes s : concat (map chunk_bytes (utf8_chunks s)) = s.
Proof.
  induction s as [|b s IH] using utf8_ind; [done|].
  rewrite utf8_chunks_cons. cbn [map concat]. rewrite IH by apply utf8_step_length.
  apply utf8_step_bytes.
Qed.

Lemma utf8_coerce_valid s : utf8_valid s = true → utf8_coerce s = s.
Proof.
  intros H. unfold utf8_coerce. rewrite <- (utf8_chunks_bytes s) at 2. unfold utf8_valid in H.
  induction (utf8_chunks s) as [|[cp e|b] l IH]; simpl in *; [done| |done]. f_equal. auto.
Qed.
