(* ===== verification/GoBinary.v ===== *)
(** * Go binary encodings and digests

    What the program uses of [encoding/binary], [hash/crc32], [crypto/sha256]
    and [encoding/hex]: fixed-width little- and big-endian integers, the IEEE
    CRC-32, SHA-256 and lower-case hexadecimal. *)

From Stdlib Require Import ZArith NArith Lia Strings.Byte Strings.String.
From stdpp Require Import base list.
From S2P Require Import Prelude GoText.

(** ** Fixed-width integers *)

Fixpoint le_put (n : nat) (v : Z) : bytes :=
  match n with
  | O => []
  | S n => byte_of v :: le_put n (v / 256)
  end.

Fixpoint le_get (l : bytes) : Z :=
  match l with
  | [] => 0
  | b :: l => bval b + 256 * le_get l
  end.

(** [binary.LittleEndian.PutUint32/Uint32/PutUint64/Uint64] and the big-endian
    [PutUint64/Uint64]. *)
Definition put_u32 (v : Z) : bytes := le_put 4 v.
Definition get_u32 (l : bytes) : Z := le_get l.
Definition put_u64 (v : Z) : bytes := le_put 8 v.
Definition get_u64 (l : bytes) : Z := le_get l.
Definition put_u64_be (v : Z) : bytes := reverse (le_put 8 v).
Definition get_u64_be (l : bytes) : Z := le_get (reverse l).

(** ** CRC-32 (IEEE) *)

Definition crc_poly : N := 0xEDB88320.

Fixpoint crc_shift (n : nat) (c : N) : N :=
  match n with
  | O => c
  | S n => crc_shift n (if N.odd c then N.lxor (N.shiftr c 1) crc_poly else N.shiftr c 1)
  end.

Definition crc_byte (c : N) (b : byte) : N := crc_shift 8 (N.lxor c (Byte.to_N b)).

Definition crc32 (l : bytes) : Z :=
  Z.of_N (N.lxor (foldl crc_byte 0xFFFFFFFF%N l) 0xFFFFFFFF).

(** ** SHA-256 *)

Module Sha256.

Definition mask : N := 0xFFFFFFFF.
Definition add (a b : N) : N := N.land (a + b) mask.
Definition rotr (n : N) (x : N) : N :=
  N.lor (N.shiftr x n) (N.land (N.shiftl x (32 - n)) mask).

(** The constants of FIPS 180-4: the first thirty-two bits of the fractional parts of the roots of
    the first primes, cube roots for the rounds and square roots for the initial state. *)
Definition prime (n : N) : bool :=
  (1 <? n)%N && forallb (fun d => negb (n mod d =? 0)%N) (map N.of_nat (seq 2 (N.to_nat n - 2))).
Definition primes : list N := filter (fun n => prime n = true) (map N.of_nat (seq 2 310)).

(** The largest [r] with [f r <= n], below [2 ^ bits], bit by bit. *)
Fixpoint root (bits : nat) (f : N → N) (n r : N) : N :=
  match bits with
  | O => r
  | S bits => let r' := N.setbit r (N.of_nat bits) in root bits f n (if (f r' <=? n)%N then r' else r)
  end.

Definition K : list N := Eval vm_compute in
  map (fun p => N.land (root 36 (fun r => r * r * r) (N.shiftl p 96) 0) mask)%N primes.
Definition H0 : list N := Eval vm_compute in
  map (fun p => N.land (root 40 (fun r => r * r) (N.shiftl p 64) 0) mask)%N (take 8 primes).

Definition at_ (l : list N) (i : nat) : N := default 0%N (l !! i).

(** The message schedule, kept newest first. *)
Fixpoint extend (n : nat) (w : list N) : list N :=
  match n with
  | O => w
  | S n =>
      let w15 := at_ w 14 in
      let w2 := at_ w 1 in
      let s0 := N.lxor (N.lxor (rotr 7 w15) (rotr 18 w15)) (N.shiftr w15 3) in
      let s1 := N.lxor (N.lxor (rotr 17 w2) (rotr 19 w2)) (N.shiftr w2 10) in
      extend n (add (add (at_ w 15) s0) (add (at_ w 6) s1) :: w)
  end.

Definition round (st : list N) (kw : N * N) : list N :=
  match st with
  | [a; b; c; d; e; f; g; h] =>
      let s1 := N.lxor (N.lxor (rotr 6 e) (rotr 11 e)) (rotr 25 e) in
      let ch := N.lxor (N.land e f) (N.land (N.lxor e mask) g) in
      let t1 := add (add h s1) (add ch (add kw.1 kw.2)) in
      let s0 := N.lxor (N.lxor (rotr 2 a) (rotr 13 a)) (rotr 22 a) in
      let maj := N.lxor (N.lxor (N.land a b) (N.land a c)) (N.land b c) in
      [add t1 (add s0 maj); a; b; c; add d t1; e; f; g]
  | _ => st
  end.

Definition word (l : bytes) : N := foldl (fun a b => a * 256 + Byte.to_N b)%N 0%N l.

Fixpoint words (n : nat) (l : bytes) : list N :=
  match n with O => [] | S n => word (take 4 l) :: words n (drop 4 l) end.

Definition block (st : list N) (l : bytes) : list N :=
  let w := reverse (extend 48 (reverse (words 16 l))) in
  zip_with add st (foldl round st (zip K w)).

Fixpoint blocks (n : nat) (st : list N) (l : bytes) : list N :=
  match n with O => st | S n => blocks n (block st (take 64 l)) (drop 64 l) end.

Definition pad (l : bytes) : bytes :=
  let n := length l in
  let z := ((119 - n mod 64) mod 64)%nat in
  l ++ x80 :: replicate z x00 ++ reverse (le_put 8 (8 * Z.of_nat n)).

Definition sum256 (l : bytes) : bytes :=
  let p := pad l in
  concat (map (fun w => reverse (le_put 4 (Z.of_N w))) (blocks (length p / 64) H0 p)).

End Sha256.

Definition sha256 (l : bytes) : bytes := Sha256.sum256 l.

(** ** Hexadecimal *)

Definition hex_digits : bytes := bs "0123456789abcdef".
Definition hex_digit (v : Z) : byte := default x00 (hex_digits !! Z.to_nat v).
Definition hex_encode (l : bytes) : bytes :=
  concat (map (fun b => [hex_digit (bval b / 16); hex_digit (bval b mod 16)]) l).

(** ** Known answers *)

Example crc32_check : crc32 (bs "123456789") = 0xCBF43926%Z.
Proof. vm_compute. reflexivity. Qed.

Example sha256_abc : hex_encode (sha256 (bs "abc"))
  = bs "ba7816bf8f01cfea414140de5dae2223b00361a396177a9cb410ff61f20015ad".
Proof. vm_compute. reflexivity. Qed.

Example sha256_two_blocks :
  hex_encode (sha256 (bs "abcdbcdecdefdefgefghfghighijhijkijkljklmklmnlmnomnopnopq"))
  = bs "248d6a61d20638b8e5c026930c3e6039a33ce45964ff2167f6ecedd419db06c1".
Proof. vm_compute. reflexivity. Qed.

(** ** Round trips *)

Lemma le_put_length n v : length (le_put n v) = n.
Proof. revert v. induction n; simpl; auto. Qed.

Lemma le_get_put n v : le_get (le_put n v) = (v mod 256 ^ Z.of_nat n)%Z.
Proof.
  revert v. induction n as [|n IH]; intros v; cbn [le_put le_get].
  - by rewrite Z.mod_1_r.
  - rewrite IH, bval_byte_of, Nat2Z.inj_succ, Z.pow_succ_r by lia.
    rewrite Z.rem_mul_r by lia. lia.
Qed.

Lemma le_put_get l : le_put (length l) (le_get l) = l.
Proof.
  induction l as [|b l IH]; simpl; [done|].
  pose proof (bval_range b) as Hb. f_equal.
  - apply bval_inj. rewrite bval_byte_of, Z.mul_comm, Z_mod_plus_full. by apply Z.mod_small.
  - rewrite Z.mul_comm, Z.div_add by lia. rewrite Z.div_small by done. by rewrite Z.add_0_l.
Qed.

Lemma le_get_range l : (0 ≤ le_get l < 256 ^ Z.of_nat (length l))%Z.
Proof.
  induction l as [|b l IH]; cbn [le_get length]; [lia|].
  rewrite Nat2Z.inj_succ, Z.pow_succ_r by lia. pose proof (bval_range b). lia.
Qed.

Lemma put_u32_length v : length (put_u32 v) = 4%nat.
Proof. apply le_put_length. Qed.
Lemma put_u64_length v : length (put_u64 v) = 8%nat.
Proof. apply le_put_length. Qed.
Lemma put_u64_be_length v : length (put_u64_be v) = 8%nat.
Proof. unfold put_u64_be. rewrite length_reverse. apply le_put_length. Qed.

Lemma get_put_u32 v : u32_range v → get_u32 (put_u32 v) = v.
Proof. intros H. unfold get_u32, put_u32. rewrite le_get_put. by apply Z.mod_small. Qed.

Lemma get_put_u64 v : get_u64 (put_u64 v) = u64 v.
Proof. unfold get_u64, put_u64. by rewrite le_get_put. Qed.

Lemma get_put_u64_be v : u64_range v → get_u64_be (put_u64_be v) = v.
Proof.
  intros H. unfold get_u64_be, put_u64_be. rewrite reverse_involutive, le_get_put.
  by apply Z.mod_small.
Qed.

Lemma put_get_u64_be l : length l = 8%nat → put_u64_be (get_u64_be l) = l.
Proof.
  intros H. unfold put_u64_be, get_u64_be.
  pose proof (le_put_get (reverse l)) as E. rewrite length_reverse, H in E. rewrite E.
  apply reverse_involutive.
Qed.

(** ** The CRC is a 32-bit value *)

Lemma log2_lt_pow a n : (a < 2 ^ n)%N ↔ ∀ i, (n ≤ i)%N → N.testbit a i = false.
Proof.
  split.
  - intros H i Hi. destruct (decide (a = 0%N)) as [->|Hz]; [by rewrite N.bits_0|].
    apply N.bits_above_log2. apply N.log2_lt_pow2 in H; lia.
  - intros H. destruct (decide (a < 2 ^ n)%N) as [|Hn]; [done|]. exfalso.
    assert (a ≠ 0%N) as Hz by (intros ->; apply Hn; apply N.neq_0_lt_0, N.pow_nonzero; lia).
    pose proof (N.bit_log2 a Hz) as Hb. rewrite H in Hb; [done|].
    apply N.log2_le_pow2; lia.
Qed.

Lemma lxor_lt a b n : (a < 2 ^ n)%N → (b < 2 ^ n)%N → (N.lxor a b < 2 ^ n)%N.
Proof.
  rewrite !log2_lt_pow. intros Ha Hb i Hi. by rewrite N.lxor_spec, Ha, Hb.
Qed.

Lemma crc_shift_lt n c : (c < 2 ^ 32)%N → (crc_shift n c < 2 ^ 32)%N.
Proof.
  revert c. induction n as [|n IH]; intros c Hc; [done|]. cbn [crc_shift]. apply IH.
  assert (N.shiftr c 1 < 2 ^ 32)%N.
  { rewrite N.shiftr_div_pow2. apply N.Div0.div_lt_upper_bound. lia. }
  case_match; [|done]. apply lxor_lt; [done|]. done.
Qed.

Lemma crc32_range l : u32_range (crc32 l).
Proof.
  unfold crc32, u32_range.
  assert (foldl crc_byte 0xFFFFFFFF l < 2 ^ 32)%N as H.
  { generalize 0xFFFFFFFF%N (eq_refl : (0xFFFFFFFF <? 2 ^ 32)%N = true). intros c Hc%N.ltb_lt.
    revert c Hc. induction l as [|b l IH]; intros c Hc; [done|]. cbn [foldl]. apply IH.
    apply crc_shift_lt, lxor_lt; [done|]. pose proof (Byte.to_N_bounded b). lia. }
  apply (lxor_lt _ 0xFFFFFFFF) in H; [lia|done].
Qed.

#[export] Hint Rewrite le_put_length put_u32_length put_u64_length put_u64_be_length : go.
#[export] Hint Resolve crc32_range : go.

(** ** The length of a digest *)

Lemma sha_round_length st kw : length st = 8%nat → length (Sha256.round st kw) = 8%nat.
Proof. intros H. do 9 (destruct st as [|? st]; try done). Qed.

Lemma sha_rounds_length l st : length st = 8%nat → length (foldl Sha256.round st l) = 8%nat.
Proof. revert st. induction l as [|kw l IH]; intros st H; [done|]. cbn [foldl]. apply IH. by apply sha_round_length. Qed.

Lemma sha_blocks_length n st l : length st = 8%nat → length (Sha256.blocks n st l) = 8%nat.
Proof.
  revert st l. induction n as [|n IH]; intros st l H; [done|]. cbn [Sha256.blocks]. apply IH. unfold Sha256.block.
  rewrite length_zip_with, sha_rounds_length by done. lia.
Qed.

Lemma sha256_length l : length (sha256 l) = 32%nat.
Proof.
  unfold sha256, Sha256.sum256. cbv zeta. generalize (sha_blocks_length (length (Sha256.pad l) / 64) Sha256.H0 (Sha256.pad l) eq_refl).
  generalize (Sha256.blocks (length (Sha256.pad l) / 64) Sha256.H0 (Sha256.pad l)). intros st H.
  do 9 (destruct st as [|? st]; try done).
Qed.
