(* ===== verification/GoJson.v ===== *)
(** * Go's [encoding/json]

    The encoder and decoder of [encoding/json] (Go 1.23) as the program uses
    them: the compact output of [json.Marshal] with its HTML escapes and its
    coercion of strings to valid UTF-8, the scanner behind [json.Valid] and
    [json.Unmarshal] with its nesting limit, base64 for [[]byte], and the
    decimal form of integers.  [JSONCodec] is the interface through which the
    storage components use it: a type with an encoding and the values for which
    decoding gives the value back. *)

From Stdlib Require Import ZArith NArith Lia Strings.Byte Strings.String.
From stdpp Require Import base decidable countable list gmap.
From S2P Require Import Prelude GoText GoBinary.

(** ** Values *)

#[warnings="-register-all"]
Inductive json :=
| JNull
| JBool (b : bool)
| JNum (lit : bytes)
| JStr (s : bytes)
| JArr (l : list json)
| JObj (l : list (bytes * json)).

(** ** Encoding *)

Definition hex4 (v : Z) : bytes :=
  [hex_digit (v / 4096 mod 16); hex_digit (v / 256 mod 16);
   hex_digit (v / 16 mod 16); hex_digit (v mod 16)].

Definition quote_ascii (b : byte) : bytes :=
  match b with
  | x22 => [x5c; x22]
  | x5c => [x5c; x5c]
  | x08 => [x5c; x62]
  | x0c => [x5c; x66]
  | x0a => [x5c; x6e]
  | x0d => [x5c; x72]
  | x09 => [x5c; x74]
  | x3c | x3e | x26 => x5c :: x75 :: hex4 (bval b)
  | _ => if (bval b <? 32)%Z then x5c :: x75 :: hex4 (bval b) else [b]
  end.

Definition quote_chunk (c : chunk) : bytes :=
  match c with
  | Bad _ => x5c :: x75 :: hex4 65533
  | Rune cp e =>
      if (cp <? 128)%Z then match e with b :: _ => quote_ascii b | [] => [] end
      else if (cp =? 8232)%Z || (cp =? 8233)%Z then x5c :: x75 :: hex4 cp
      else e
  end.

Definition quote_body (s : bytes) : bytes := concat (map quote_chunk (utf8_chunks s)).
Definition quote (s : bytes) : bytes := x22 :: quote_body s ++ [x22].

Fixpoint print (j : json) : bytes :=
  match j with
  | JNull => bs "null"
  | JBool b => if b then bs "true" else bs "false"
  | JNum lit => lit
  | JStr s => quote s
  | JArr [] => bs "[]"
  | JArr (v :: l) => x5b :: print v ++ concat (map (fun v => x2c :: print v) l) ++ [x5d]
  | JObj [] => bs "{}"
  | JObj ((k, v) :: l) =>
      x7b :: quote k ++ x3a :: print v
        ++ concat (map (fun kv => x2c :: quote kv.1 ++ x3a :: print kv.2) l) ++ [x7d]
  end.

(** ** Integers *)

Fixpoint dec_from (fuel : nat) (n : N) (acc : bytes) : bytes :=
  match fuel with
  | O => acc
  | S fuel =>
      let acc := byte_of (48 + Z.of_N (n mod 10)) :: acc in
      if (n <? 10)%N then acc else dec_from fuel (n / 10) acc
  end.
Definition dec_nat (n : N) : bytes := dec_from (S (N.to_nat (N.log2 n))) n [].

(** [strconv.FormatInt] and [FormatUint] in base ten. *)
Definition dec (v : Z) : bytes :=
  if (v <? 0)%Z then x2d :: dec_nat (Z.to_N (- v)) else dec_nat (Z.to_N v).

Definition digit (b : byte) : bool := in_range 48 57 b.

Fixpoint digits_value (acc : N) (l : bytes) : option N :=
  match l with
  | [] => Some acc
  | b :: l => if digit b then digits_value (acc * 10 + (Byte.to_N b - 48))%N l else None
  end.

(** [strconv.ParseUint] and [strconv.ParseInt], base ten, 64 bits. *)
Definition parse_uint64 (l : bytes) : option Z :=
  match l with
  | [] => None
  | _ => n ← digits_value 0 l; if (Z.of_N n <? 2 ^ 64)%Z then Some (Z.of_N n) else None
  end.
Definition parse_int64 (l : bytes) : option Z :=
  match l with
  | x2d :: l =>
      v ← parse_uint64 l; if (v <=? 2 ^ 63)%Z then Some (- v)%Z else None
  | _ => v ← parse_uint64 l; if (v <? 2 ^ 63)%Z then Some v else None
  end.

(** ** Base64 (standard alphabet, padded) *)

Definition b64_alphabet : bytes :=
  bs "ABCDEFGHIJKLMNOPQRSTUVWXYZabcdefghijklmnopqrstuvwxyz0123456789+/".
Definition b64_char (v : Z) : byte := default x41 (b64_alphabet !! Z.to_nat v).

Fixpoint b64_encode (l : bytes) : bytes :=
  match l with
  | [] => []
  | [a] => let v := (bval a * 16)%Z in
           [b64_char (v / 64); b64_char (v mod 64); x3d; x3d]
  | [a; b] => let v := ((bval a * 256 + bval b) * 4)%Z in
              [b64_char (v / 4096); b64_char (v / 64 mod 64); b64_char (v mod 64); x3d]
  | a :: b :: c :: l =>
      let v := (bval a * 65536 + bval b * 256 + bval c)%Z in
      b64_char (v / 262144) :: b64_char (v / 4096 mod 64)
        :: b64_char (v / 64 mod 64) :: b64_char (v mod 64) :: b64_encode l
  end.

Definition b64_value (b : byte) : option Z :=
  let v := bval b in
  (if (65 <=? v) && (v <=? 90) then Some (v - 65)
   else if (97 <=? v) && (v <=? 122) then Some (v - 71)
   else if (48 <=? v) && (v <=? 57) then Some (v + 4)
   else if v =? 43 then Some 62 else if v =? 47 then Some 63 else None)%Z.

(** Padding ends the input: one or two [=] close the last group. *)
Fixpoint b64_groups (l : bytes) : option bytes :=
  match l with
  | [] => Some []
  | p :: q :: r :: s :: l =>
      p ← b64_value p; q ← b64_value q;
      if Byte.eqb s x3d then
        match l with
        | [] =>
            if Byte.eqb r x3d then Some [byte_of ((p * 64 + q) / 16)]
            else r ← b64_value r;
                 let v := (p * 4096 + q * 64 + r)%Z in
                 Some [byte_of (v / 1024); byte_of (v / 4)]
        | _ => None
        end
      else
        r ← b64_value r; s ← b64_value s;
        let v := (p * 262144 + q * 4096 + r * 64 + s)%Z in
        tl ← b64_groups l;
        Some (byte_of (v / 65536) :: byte_of (v / 256) :: byte_of v :: tl)
  | _ => None
  end.
(** The decoder skips line breaks. *)
Definition b64_decode (l : bytes) : option bytes :=
  b64_groups (List.filter (fun b => negb (bool_decide (b = x0a ∨ b = x0d))) l).

(** ** Scanning *)

Definition ws (b : byte) : bool :=
  match b with x20 | x09 | x0a | x0d => true | _ => false end.
Definition skip_ws (s : bytes) : bytes := drop_while ws s.

Definition hex_value (b : byte) : option Z :=
  let v := bval b in
  (if (48 <=? v) && (v <=? 57) then Some (v - 48)
   else if (97 <=? v) && (v <=? 102) then Some (v - 87)
   else if (65 <=? v) && (v <=? 70) then Some (v - 55) else None)%Z.

Definition get_u4 (s : bytes) : option Z :=
  match s with
  | a :: b :: c :: d :: _ =>
      a ← hex_value a; b ← hex_value b; c ← hex_value c; d ← hex_value d;
      Some (a * 4096 + b * 256 + c * 16 + d)%Z
  | _ => None
  end.

(** [utf8.EncodeRune]. *)
Definition utf8_encode (cp : Z) : bytes :=
  (if cp <? 128 then [byte_of cp]
   else if cp <? 2048 then [byte_of (192 + cp / 64); byte_of (128 + cp mod 64)]
   else if cp <? 65536 then
     if (55296 <=? cp) && (cp <=? 57343) then replacement
     else [byte_of (224 + cp / 4096); byte_of (128 + cp / 64 mod 64); byte_of (128 + cp mod 64)]
   else [byte_of (240 + cp / 262144); byte_of (128 + cp / 4096 mod 64);
         byte_of (128 + cp / 64 mod 64); byte_of (128 + cp mod 64)])%Z.

(** What follows a backslash: the decoded bytes and how many were read. *)
Definition escape (s : bytes) : option (bytes * nat) :=
  match s with
  | x22 :: _ => Some ([x22], 1)
  | x5c :: _ => Some ([x5c], 1)
  | x2f :: _ => Some ([x2f], 1)
  | x62 :: _ => Some ([x08], 1)
  | x66 :: _ => Some ([x0c], 1)
  | x6e :: _ => Some ([x0a], 1)
  | x72 :: _ => Some ([x0d], 1)
  | x74 :: _ => Some ([x09], 1)
  | x75 :: s =>
      r ← get_u4 s;
      if (55296 <=? r)%Z && (r <? 56320)%Z then
        match drop 4 s with
        | x5c :: x75 :: s' =>
            match get_u4 s' with
            | Some r2 =>
                if (56320 <=? r2)%Z && (r2 <? 57344)%Z
                then Some (utf8_encode (65536 + (r - 55296) * 1024 + (r2 - 56320)), 11)
                else Some (replacement, 5)
            | None => Some (replacement, 5)
            end
        | _ => Some (replacement, 5)
        end
      else Some (utf8_encode r, 5)
  | _ => None
  end.

(** The rest of a string literal after its opening quote. *)
Fixpoint str_body (skip : nat) (s : bytes) : option (bytes * bytes) :=
  match s with
  | [] => None
  | b :: s' =>
      match skip with
      | S k => str_body k s'
      | O =>
          match b with
          | x22 => Some ([], s')
          | x5c => '(e, k) ← escape s'; '(r, t) ← str_body k s'; Some (e ++ r, t)
          | _ =>
              if (bval b <? 32)%Z then None
              else match utf8_head b s' with
                   | Some (_, k) => '(r, t) ← str_body k s'; Some (b :: take k s' ++ r, t)
                   | None => '(r, t) ← str_body 0 s'; Some (replacement ++ r, t)
                   end
          end
      end
  end.

Fixpoint span_digits (s : bytes) : bytes * bytes :=
  match s with
  | b :: s' => if digit b then let '(d, t) := span_digits s' in (b :: d, t) else ([], s)
  | [] => ([], [])
  end.

(** A number literal: sign, integer part, fraction, exponent. *)
Definition num_exponent (s : bytes) : option (bytes * bytes) :=
  match s with
  | (x65 as e) :: s' | (x45 as e) :: s' =>
      let '(sg, s'') := match s' with
                        | x2b :: r => ([x2b], r) | x2d :: r => ([x2d], r) | _ => ([], s')
                        end in
      match span_digits s'' with
      | ([], _) => None
      | (d, t) => Some (e :: sg ++ d, t)
      end
  | _ => Some ([], s)
  end.
Definition num_fraction (s : bytes) : option (bytes * bytes) :=
  match s with
  | x2e :: s' => match span_digits s' with ([], _) => None | (d, t) => Some (x2e :: d, t) end
  | _ => Some ([], s)
  end.
Definition num_integer (s : bytes) : option (bytes * bytes) :=
  match s with
  | x30 :: s' => Some ([x30], s')
  | _ => match span_digits s with ([], _) => None | r => Some r end
  end.
Definition num_lit (s : bytes) : option (bytes * bytes) :=
  let '(sg, s1) := match s with x2d :: r => ([x2d], r) | _ => ([], s) end in
  '(i, s2) ← num_integer s1; '(f, s3) ← num_fraction s2; '(e, s4) ← num_exponent s3;
  Some (sg ++ i ++ f ++ e, s4).

Definition strip (p s : bytes) : option bytes :=
  if bool_decide (take (length p) s = p) then Some (drop (length p) s) else None.

Definition scalar (s : bytes) : option (json * bytes) :=
  match s with
  | x6e :: _ => t ← strip (bs "null") s; Some (JNull, t)
  | x74 :: _ => t ← strip (bs "true") s; Some (JBool true, t)
  | x66 :: _ => t ← strip (bs "false") s; Some (JBool false, t)
  | _ => '(n, t) ← num_lit s; Some (JNum n, t)
  end.

(** The next byte after white space, if it is [c]. *)
Definition eat (c : byte) (s : bytes) : option bytes :=
  match skip_ws s with
  | b :: r => if Byte.eqb b c then Some r else None
  | [] => None
  end.

(** [n] bounds the recursion (more than the bytes left is enough); [d] is the
    nesting still allowed. *)
Fixpoint parse_value (n d : nat) (s : bytes) {struct n} : option (json * bytes) :=
  match n with
  | O => None
  | S n =>
      match eat x7b s, eat x5b s, eat x22 s with
      | Some r, _, _ =>
          match d with
          | O => None
          | S d =>
              match eat x7d r with
              | Some t => Some (JObj [], t)
              | None => '(l, t) ← parse_members n d r; Some (JObj l, t)
              end
          end
      | None, Some r, _ =>
          match d with
          | O => None
          | S d =>
              match eat x5d r with
              | Some t => Some (JArr [], t)
              | None => '(l, t) ← parse_elements n d r; Some (JArr l, t)
              end
          end
      | None, None, Some r => '(s, t) ← str_body 0 r; Some (JStr s, t)
      | None, None, None => scalar (skip_ws s)
      end
  end
with parse_members (n d : nat) (s : bytes) {struct n} : option (list (bytes * json) * bytes) :=
  match n with
  | O => None
  | S n =>
      r ← eat x22 s; '(k, r1) ← str_body 0 r; r2 ← eat x3a r1;
      '(v, r3) ← parse_value n d r2;
      match eat x2c r3, eat x7d r3 with
      | Some r4, _ => '(l, t) ← parse_members n d r4; Some ((k, v) :: l, t)
      | None, Some t => Some ([(k, v)], t)
      | None, None => None
      end
  end
with parse_elements (n d : nat) (s : bytes) {struct n} : option (list json * bytes) :=
  match n with
  | O => None
  | S n =>
      '(v, r1) ← parse_value n d s;
      match eat x2c r1, eat x5d r1 with
      | Some r2, _ => '(l, t) ← parse_elements n d r2; Some (v :: l, t)
      | None, Some t => Some ([v], t)
      | None, None => None
      end
  end.

(** The decoder's [maxNestingDepth]. *)
Definition max_nesting : nat := Z.to_nat 10000.

Definition parse (s : bytes) : option json :=
  '(j, t) ← parse_value (S (length s)) max_nesting s;
  match skip_ws t with [] => Some j | _ => None end.

(** [json.Valid]. *)
Definition json_valid (s : bytes) : bool := bool_decide (is_Some (parse s)).

(** ** Round trips: integers *)

Lemma to_N_byte_of_digit (n : N) : (n < 10)%N → (Byte.to_N (byte_of (48 + Z.of_N n)) - 48 = n)%N.
Proof.
  intros H. pose proof (bval_byte_of (48 + Z.of_N n)) as E.
  rewrite Z.mod_small in E by lia. unfold bval in E. lia.
Qed.

Lemma digit_byte_of (n : N) : (n < 10)%N → digit (byte_of (48 + Z.of_N n)) = true.
Proof.
  intros H. unfold digit, in_range. rewrite bval_byte_of, Z.mod_small by lia.
  apply andb_true_iff. split; apply Z.leb_le; lia.
Qed.

Lemma dec_from_value fuel n acc :
  (n < 10 ^ N.of_nat fuel)%N → digits_value 0 (dec_from fuel n acc) = digits_value n acc.
Proof.
  revert n acc. induction fuel as [|fuel IH]; intros n acc Hn.
  { replace n with 0%N by (simpl in Hn; lia). done. }
  cbn [dec_from]. pose proof (N.mod_lt n 10 ltac:(lia)) as Hm.
  destruct (N.ltb_spec n 10) as [Hlt|Hge].
  - rewrite N.mod_small by done. cbn [digits_value]. rewrite digit_byte_of by done.
    by rewrite to_N_byte_of_digit by done.
  - rewrite Nat2N.inj_succ, N.pow_succ_r in Hn by lia.
    rewrite IH by (apply N.Div0.div_lt_upper_bound; lia).
    cbn [digits_value]. rewrite digit_byte_of by done. rewrite to_N_byte_of_digit by done.
    f_equal. pose proof (N.div_mod n 10 ltac:(lia)). lia.
Qed.

Lemma dec_fuel n : (n < 10 ^ N.of_nat (S (N.to_nat (N.log2 n))))%N.
Proof.
  rewrite Nat2N.inj_succ, N2Nat.id. destruct (decide (n = 0%N)) as [->|Hn]; [done|].
  pose proof (N.log2_spec n ltac:(lia)) as [_ H].
  eapply N.lt_le_trans; [exact H|]. apply N.pow_le_mono_l. lia.
Qed.

Lemma digits_value_dec n : digits_value 0 (dec_nat n) = Some n.
Proof. unfold dec_nat. rewrite dec_from_value by apply dec_fuel. done. Qed.

Lemma dec_from_digits fuel n acc :
  forallb digit acc = true → forallb digit (dec_from fuel n acc) = true.
Proof.
  revert n acc. induction fuel as [|fuel IH]; intros n acc H; [done|]. cbn [dec_from].
  assert (forallb digit (byte_of (48 + Z.of_N (n mod 10)) :: acc) = true).
  { cbn [forallb]. rewrite digit_byte_of, H by (apply N.mod_lt; lia). done. }
  case_match; auto.
Qed.

(** The first digit is a zero only for zero itself. *)
Lemma dec_from_head fuel n acc :
  (n < 10 ^ N.of_nat fuel)%N → (0 < n)%N →
  ∃ b l, dec_from fuel n acc = b :: l ∧ b ≠ x30.
Proof.
  revert n acc. induction fuel as [|fuel IH]; intros n acc Hn Hp; [simpl in Hn; lia|].
  cbn [dec_from]. destruct (N.ltb_spec n 10) as [Hlt|Hge].
  - rewrite N.mod_small by done. eexists _, _. split; [done|]. intros E.
    pose proof (to_N_byte_of_digit n Hlt) as H. rewrite E in H. simpl in H. lia.
  - rewrite Nat2N.inj_succ, N.pow_succ_r in Hn by lia. apply IH.
    + apply N.Div0.div_lt_upper_bound. lia.
    + apply N.div_str_pos. lia.
Qed.

Lemma dec_nat_shape n :
  dec_nat n = [x30] ∨ ∃ b l, dec_nat n = b :: l ∧ b ≠ x30 ∧ digit b = true ∧ forallb digit l = true.
Proof.
  destruct (decide (n = 0%N)) as [->|Hn]; [by left|right].
  destruct (dec_from_head _ n [] (dec_fuel n) ltac:(lia)) as (b&l&E&Hb).
  pose proof (dec_from_digits (S (N.to_nat (N.log2 n))) n [] eq_refl) as Hd.
  fold (dec_nat n) in E, Hd. rewrite E in *. simpl in Hd. bool_to_prop. eauto 10.
Qed.

Lemma parse_uint64_dec v : u64_range v → parse_uint64 (dec v) = Some v.
Proof.
  intros [H1 H2]. unfold dec. rewrite (proj2 (Z.ltb_ge v 0)) by done. unfold parse_uint64.
  pose proof (digits_value_dec (Z.to_N v)) as E.
  destruct (dec_nat (Z.to_N v)) eqn:D.
  { destruct (dec_nat_shape (Z.to_N v)) as [D'|(?&?&D'&_)]; rewrite D in D'; done. }
  rewrite E. simpl.
  rewrite Z2N.id by done. by rewrite (proj2 (Z.ltb_lt v (2 ^ 64))).
Qed.

Lemma parse_int64_dec v : (0 ≤ v < 2 ^ 63)%Z → parse_int64 (dec v) = Some v.
Proof.
  intros [H1 H2]. pose proof (parse_uint64_dec v ltac:(unfold u64_range; lia)) as E.
  unfold parse_int64. assert (∀ l, dec v ≠ x2d :: l) as Hne.
  { unfold dec. rewrite (proj2 (Z.ltb_ge v 0)) by done. intros l El.
    destruct (dec_nat_shape (Z.to_N v)) as [E'|(b&l'&E'&_&Hd&_)]; rewrite E' in El; [done|].
    injection El as -> _. done. }
  destruct (dec v) as [|b l]; [done|].
  assert (b ≠ x2d) by (intros ->; by eapply Hne).
  transitivity (parse_uint64 (b :: l) ≫= λ v, if (v <? 2 ^ 63)%Z then Some v else None).
  { destruct b; done. }
  rewrite E. simpl. by rewrite (proj2 (Z.ltb_lt v (2 ^ 63))).
Qed.

(** ** Round trips: base64 *)

Lemma b64_value_char v : (0 ≤ v < 64)%Z → b64_value (b64_char v) = Some v ∧ b64_char v ≠ x3d
  ∧ b64_char v ≠ x0a ∧ b64_char v ≠ x0d.
Proof.
  intros H. assert (∃ n, (n < 64)%nat ∧ v = Z.of_nat n) as (n&Hn&->).
  { exists (Z.to_nat v). lia. }
  clear H. unfold b64_char. rewrite Nat2Z.id.
  do 64 (destruct n as [|n]; [split; [vm_compute; reflexivity|split; [done|split; done]]|]). lia.
Qed.

Lemma b64_encode_ind (P : bytes → Prop) :
  P [] → (∀ a, P [a]) → (∀ a b, P [a; b]) → (∀ a b c l, P l → P (a :: b :: c :: l)) → ∀ l, P l.
Proof.
  intros H0 H1 H2 H3. fix IH 1. intros [|a [|b [|c l]]]; [done..|]. apply H3, IH.
Qed.

Lemma b64_value_at v k : (0 ≤ v)%Z → (0 < k)%Z → (v < 64 * k)%Z →
  b64_value (b64_char (v / k)) = Some (v / k)%Z ∧ Byte.eqb (b64_char (v / k)) x3d = false.
Proof.
  intros Hv Hk Hlt. assert (0 ≤ v / k < 64)%Z as H.
  { split; [apply Z.div_pos; lia|apply Z.div_lt_upper_bound; lia]. }
  destruct (b64_value_char _ H) as (E&N&_). split; [done|].
  destruct (Byte.eqb _ x3d) eqn:X; [|done]. by apply Byte.byte_dec_bl in X.
Qed.

Lemma b64_value_mod v :
  b64_value (b64_char (v mod 64)) = Some (v mod 64)%Z ∧ Byte.eqb (b64_char (v mod 64)) x3d = false.
Proof.
  pose proof (Z.mod_pos_bound v 64 ltac:(lia)) as H.
  destruct (b64_value_char _ H) as (E&N&_). split; [done|].
  destruct (Byte.eqb _ x3d) eqn:X; [|done]. by apply Byte.byte_dec_bl in X.
Qed.

Lemma byte_of_eq v b : (v mod 256 = bval b)%Z → byte_of v = b.
Proof. intros H. apply bval_inj. by rewrite bval_byte_of. Qed.

Lemma b64_groups_encode l : b64_groups (b64_encode l) = Some l.
Proof.
  induction l as [|a|a b|a b c l IH] using b64_encode_ind; [done|..]; cbn [b64_encode b64_groups];
    pose proof (bval_range a) as Ha; try pose proof (bval_range b) as Hb;
    try pose proof (bval_range c) as Hc.
  - destruct (b64_value_at (bval a * 16) 64) as [-> _]; [lia..|].
    destruct (b64_value_mod (bval a * 16)) as [-> _]. simpl. do 2 f_equal.
    apply byte_of_eq. Z.div_mod_to_equations. lia.
  - set (v := ((bval a * 256 + bval b) * 4)%Z).
    destruct (b64_value_at v 4096) as [-> _]; [lia..|].
    destruct (b64_value_mod (v / 64)) as [-> _]. destruct (b64_value_mod v) as [-> E]. simpl.
    rewrite E. simpl. do 3 f_equal; subst v; try f_equal; apply byte_of_eq; Z.div_mod_to_equations; lia.
  - set (v := (bval a * 65536 + bval b * 256 + bval c)%Z).
    destruct (b64_value_at v 262144) as [-> _]; [lia..|].
    destruct (b64_value_mod (v / 4096)) as [-> _]. destruct (b64_value_mod (v / 64)) as [-> _].
    destruct (b64_value_mod v) as [-> E]. simpl. rewrite E, IH. simpl.
    assert ((v / 262144 * 262144 + v / 4096 mod 64 * 4096 + v / 64 mod 64 * 64 + v mod 64) = v)%Z as ->.
    { Z.div_mod_to_equations. lia. }
    do 2 f_equal; [|f_equal; [|f_equal]]; subst v; apply byte_of_eq; Z.div_mod_to_equations; lia.
Qed.

Lemma b64_encode_no_breaks l :
  List.filter (fun b => negb (bool_decide (b = x0a ∨ b = x0d))) (b64_encode l) = b64_encode l.
Proof.
  assert (∀ v, (0 ≤ v < 64)%Z → bool_decide (b64_char v = x0a ∨ b64_char v = x0d) = false) as Hc.
  { intros v Hv. apply bool_decide_eq_false. destruct (b64_value_char v Hv). naive_solver. }
  induction l as [|a|a b|a b c l IH] using b64_encode_ind; [done|..]; cbn [b64_encode List.filter];
    pose proof (bval_range a) as Ha; try pose proof (bval_range b) as Hb;
    try pose proof (bval_range c) as Hc';
    rewrite !Hc by (Z.div_mod_to_equations; lia); cbn [negb]; by rewrite ?IH.
Qed.

Lemma b64_roundtrip l : b64_decode (b64_encode l) = Some l.
Proof. unfold b64_decode. by rewrite b64_encode_no_breaks, b64_groups_encode. Qed.

(** ** Round trips: strings *)

Ltac head_cases H :=
  unfold utf8_head in H;
  repeat match type of H with
  | (if ?c then _ else _) = _ => destruct c eqn:?
  | match ?s with _ => _ end = _ => destruct s
  end; try discriminate H; injection H as H; subst;
  unfold in_range, cont in *; bool_to_prop.

Lemma utf8_head_local b s cp k t :
  utf8_head b s = Some (cp, k) → utf8_head b (take k s ++ t) = Some (cp, k).
Proof.
  intros H. unfold utf8_head in *.
  repeat match type of H with
  | (if ?c then _ else _) = _ => destruct c eqn:?
  | match ?s with _ => _ end = _ => destruct s
  end; try discriminate H; injection H as <- <-; simpl;
  repeat match goal with E : _ = true |- _ => rewrite E; clear E end; done.
Qed.

Lemma utf8_head_ascii b s cp k :
  utf8_head b s = Some (cp, k) → (cp < 128)%Z → k = 0 ∧ bval b = cp.
Proof.
  intros H Hcp. head_cases H; try done; exfalso.
  - pose proof (bval_range b0). lia.
  - unfold second_ok in *. bool_to_prop. pose proof (bval_range b1).
    destruct b; simpl in *; unfold bval in *; simpl in *; lia.
  - unfold second_ok in *. bool_to_prop.
    destruct b; simpl in *; unfold bval in *; simpl in *; lia.
Qed.

Lemma utf8_head_multi b s cp k :
  utf8_head b s = Some (cp, k) → (128 ≤ cp)%Z → (128 ≤ bval b)%Z.
Proof. intros H Hcp. head_cases H; lia. Qed.

Lemma utf8_head_separator b s cp k :
  utf8_head b s = Some (cp, k) → (cp = 8232 ∨ cp = 8233)%Z → b :: take k s = utf8_encode cp.
Proof.
  intros H Hcp. head_cases H; try lia.
  - unfold second_ok in *. bool_to_prop. simpl.
    assert (bval b = 226 ∧ bval b0 = 128 ∧ (bval b1 = 168 ∨ bval b1 = 169))%Z as (E1&E2&E3).
    { destruct b; simpl in *; unfold bval in *; simpl in *; lia. }
    assert (b = xe2) as -> by (by apply bval_inj).
    assert (b0 = x80) as -> by (by apply bval_inj).
    assert (b1 = xa8 ∨ b1 = xa9) as [-> | ->] by (destruct E3; [left|right]; by apply bval_inj);
      vm_compute; done.
  - exfalso. unfold second_ok in *. bool_to_prop.
    destruct b; simpl in *; unfold bval in *; simpl in *; lia.
Qed.

Lemma str_body_skip k s : str_body k s = match drop k s with [] => None | _ => str_body 0 (drop k s) end.
Proof.
  revert s. induction k as [|k IH]; intros [|b s]; try done. cbn [str_body drop]. apply IH.
Qed.

Lemma str_body_drop k s t b : length s = k → str_body k (s ++ b :: t) = str_body 0 (b :: t).
Proof. intros <-. by rewrite str_body_skip, drop_app_length. Qed.

(** An escaped ASCII byte decodes to itself. *)
Lemma str_body_plain b s :
  b ≠ x22 → b ≠ x5c → (32 ≤ bval b)%Z →
  str_body 0 (b :: s) = match utf8_head b s with
                        | Some (_, k) => '(r, t) ← str_body k s; Some (b :: take k s ++ r, t)
                        | None => '(r, t) ← str_body 0 s; Some (replacement ++ r, t)
                        end.
Proof.
  intros H1 H2 H3. transitivity
    (if (bval b <? 32)%Z then None
     else match utf8_head b s with
          | Some (_, k) => '(r, t) ← str_body k s; Some (b :: take k s ++ r, t)
          | None => '(r, t) ← str_body 0 s; Some (replacement ++ r, t)
          end).
  - cbn [str_body]. destruct b; done.
  - by rewrite (proj2 (Z.ltb_ge _ _)).
Qed.

Lemma quote_ascii_cases b :
  (bval b < 128)%Z →
  quote_ascii b = [b] ∧ b ≠ x22 ∧ b ≠ x5c ∧ (32 ≤ bval b)%Z
  ∨ quote_ascii b = x5c :: x75 :: hex4 (bval b) ∧ utf8_encode (bval b) = [b]
  ∨ ∃ e, quote_ascii b = [x5c; e] ∧ ∀ s, escape (e :: s) = Some ([b], 1).
Proof.
  intros Hb. apply Z.ltb_lt in Hb.
  destruct b; try (vm_compute in Hb; discriminate Hb); clear Hb;
    first [ left; repeat split; done
          | right; left; split; vm_compute; reflexivity
          | right; right; eexists; split; [reflexivity|intros; reflexivity] ].
Qed.

Lemma str_body_escape s e k u c t :
  escape s = Some (e, k) → s = u ++ c :: t → length u = k →
  str_body 0 (x5c :: s) = '(r, v) ← str_body 0 (c :: t); Some (e ++ r, v).
Proof.
  intros E -> Hk. transitivity ('(e, k) ← escape (u ++ c :: t);
    '(r, v) ← str_body k (u ++ c :: t); Some (e ++ r, v)); [done|].
  rewrite E. cbn [mbind option_bind]. by rewrite str_body_drop.
Qed.

Lemma escape_u cp s :
  (0 ≤ cp < 65536)%Z → ¬ (55296 ≤ cp < 57344)%Z →
  escape (x75 :: hex4 cp ++ s) = Some (utf8_encode cp, 5).
Proof.
  intros Hcp Hs.
  assert (∀ v, (0 ≤ v < 16)%Z → hex_value (hex_digit v) = Some v) as Hh.
  { intros v Hv. assert (∃ n, (n < 16)%nat ∧ v = Z.of_nat n) as (n&Hn&->).
    { exists (Z.to_nat v). lia. }
    unfold hex_digit. rewrite Nat2Z.id. do 16 (destruct n as [|n]; [done|]). lia. }
  assert (get_u4 (hex4 cp ++ s) = Some cp) as E.
  { unfold hex4. cbn [app get_u4]. rewrite !Hh by (apply Z.mod_pos_bound; lia).
    cbn [mbind option_bind]. f_equal. Z.div_mod_to_equations. lia. }
  unfold escape. rewrite E. cbn [mbind option_bind].
  destruct (Z.leb_spec 55296 cp), (Z.ltb_spec cp 56320); try done. lia.
Qed.

Lemma str_body_u cp t c :
  (0 ≤ cp < 65536)%Z → ¬ (55296 ≤ cp < 57344)%Z →
  str_body 0 ((x5c :: x75 :: hex4 cp) ++ c :: t)
    = '(r, u) ← str_body 0 (c :: t); Some (utf8_encode cp ++ r, u).
Proof.
  intros Hcp Hs. cbn [app]. apply (str_body_escape _ (utf8_encode cp) 5 (x75 :: hex4 cp)); [|done|done].
  by apply escape_u.
Qed.

Lemma str_body_ascii b t c :
  (bval b < 128)%Z →
  str_body 0 (quote_ascii b ++ c :: t) = '(r, u) ← str_body 0 (c :: t); Some (b :: r, u).
Proof.
  intros Hb. destruct (quote_ascii_cases b Hb) as [(->&H1&H2&H3)|[(->&E)|(e&->&E)]].
  - cbn [app]. rewrite str_body_plain by done. unfold utf8_head.
    by rewrite (proj2 (Z.ltb_lt _ _)).
  - pose proof (bval_range b). rewrite str_body_u by lia. by rewrite E.
  - cbn [app]. by apply (str_body_escape _ [b] 1 [e]).
Qed.

Lemma str_body_chunk b s c t :
  str_body 0 (quote_chunk (utf8_step b s).1 ++ c :: t)
    = '(r, u) ← str_body 0 (c :: t); Some (chunk_coerced (utf8_step b s).1 ++ r, u).
Proof.
  unfold utf8_step. destruct (utf8_head b s) as [[cp k]|] eqn:H; cbn [fst quote_chunk chunk_coerced].
  - destruct (Z.ltb_spec cp 128) as [Hlt|Hge].
    { destruct (utf8_head_ascii _ _ _ _ H Hlt) as [-> Hb]. apply str_body_ascii. lia. }
    destruct ((cp =? 8232)%Z || (cp =? 8233)%Z) eqn:E.
    { assert (cp = 8232 ∨ cp = 8233)%Z as Hcp by lia.
      rewrite (utf8_head_separator _ _ _ _ H Hcp). apply str_body_u; lia. }
    pose proof (utf8_head_multi _ _ _ _ H Hge) as Hb.
    pose proof (utf8_head_local _ _ _ _ (c :: t) H) as HL.
    transitivity ('(r, u) ← str_body k (take k s ++ c :: t);
                  Some (b :: take k (take k s ++ c :: t) ++ r, u)).
    { cbn [app]. rewrite str_body_plain, HL; [done| | |lia]; intros ->; by vm_compute in Hb. }
    assert (length (take k s) = k) as Hk.
    { revert H. clear. unfold utf8_head. intros H. repeat case_match; simplify_eq; done. }
    rewrite str_body_drop by done. rewrite take_app_length' by done. done.
  - apply str_body_u; lia.
Qed.

Lemma str_body_quote s t : str_body 0 (quote_body s ++ x22 :: t) = Some (utf8_coerce s, t).
Proof.
  induction s as [|b s IH] using utf8_ind; [done|].
  unfold quote_body, utf8_coerce. rewrite utf8_chunks_cons. cbn [map concat].
  rewrite <- app_assoc. fold (quote_body (utf8_step b s).2).
  pose proof (IH _ (utf8_step_length b s)) as E.
  destruct (quote_body (utf8_step b s).2 ++ x22 :: t) as [|c u] eqn:Ec.
  { by destruct (quote_body (utf8_step b s).2). }
  rewrite str_body_chunk, E. done.
Qed.

(** ** Round trips: values *)

Arguments str_body : simpl never.

Lemma eat_hit c s : ws c = false → eat c (c :: s) = Some s.
Proof.
  intros H. unfold eat, skip_ws. cbn [drop_while]. rewrite H. by rewrite (Byte.byte_dec_lb eq_refl).
Qed.

Lemma eat_miss b c s : ws b = false → b ≠ c → eat c (b :: s) = None.
Proof.
  intros H Hn. unfold eat, skip_ws. cbn [drop_while]. rewrite H.
  destruct (Byte.eqb b c) eqn:E; [by apply Byte.byte_dec_bl in E|done].
Qed.

Fixpoint norm (j : json) : json :=
  match j with
  | JStr s => JStr (utf8_coerce s)
  | JArr l => JArr (map norm l)
  | JObj l => JObj (map (fun kv => (utf8_coerce kv.1, norm kv.2)) l)
  | j => j
  end.

Fixpoint depth (j : json) : nat :=
  match j with
  | JArr l => S (foldr (fun v n => Nat.max (depth v) n) 0 l)
  | JObj l => S (foldr (fun kv n => Nat.max (depth kv.2) n) 0 l)
  | _ => 0
  end.

(** Every number literal is an integer in decimal form. *)
Fixpoint nums_ok (j : json) : Prop :=
  match j with
  | JNum lit => ∃ v, lit = dec v
  | JArr l => foldr (fun v P => nums_ok v ∧ P) True l
  | JObj l => foldr (fun kv P => nums_ok kv.2 ∧ P) True l
  | _ => True
  end.

Lemma json_nested_ind (P : json → Prop) :
  P JNull → (∀ b, P (JBool b)) → (∀ l, P (JNum l)) → (∀ s, P (JStr s)) →
  (∀ l, Forall P l → P (JArr l)) → (∀ l, Forall (λ kv, P kv.2) l → P (JObj l)) → ∀ j, P j.
Proof.
  intros H1 H2 H3 H4 H5 H6. fix IH 1. intros [| | | |l|l]; [done|done|done|done| |].
  - apply H5. induction l as [|v l IHl]; constructor; [apply IH|done].
  - apply H6. induction l as [|[k v] l IHl]; constructor; [apply IH|done].
Qed.

(** What may follow a number. *)
Definition follows (t : bytes) : bool :=
  match t with
  | [] => true
  | b :: _ => negb (digit b) && negb (Byte.eqb b x2e) && negb (Byte.eqb b x65) && negb (Byte.eqb b x45)
  end.

Lemma span_digits_app l t :
  forallb digit l = true → follows t = true → span_digits (l ++ t) = (l, t).
Proof.
  intros Hl Ht. induction l as [|b l IH]; simpl in *.
  - destruct t as [|b t]; [done|]. simpl in *. bool_to_prop. by rewrite H.
  - bool_to_prop. rewrite H, IH by done. done.
Qed.

Lemma num_tail_none t : follows t = true →
  num_fraction t = Some ([], t) ∧ num_exponent t = Some ([], t).
Proof.
  destruct t as [|b t]; [done|]. simpl. intros H. bool_to_prop.
  assert (b ≠ x2e ∧ b ≠ x65 ∧ b ≠ x45) as (?&?&?).
  { repeat split; intros ->; done. }
  split; destruct b; done.
Qed.

Lemma num_integer_dec n t :
  follows t = true → num_integer (dec_nat n ++ t) = Some (dec_nat n, t).
Proof.
  intros Ht. destruct (dec_nat_shape n) as [->|(b&l&->&Hb&Hd&Hl)]; [done|].
  cbn [app]. transitivity (match span_digits (b :: l ++ t) with ([], _) => None | r => Some r end).
  - destruct b; done.
  - change (b :: l ++ t) with ((b :: l) ++ t). rewrite span_digits_app; [done| |done].
    cbn [forallb]. by rewrite Hd.
Qed.

Lemma dec_head v : ∃ b l, dec v = b :: l ∧ (digit b = true ∨ b = x2d).
Proof.
  unfold dec. case_match; [eauto|].
  destruct (dec_nat_shape (Z.to_N v)) as [->|(b&l&->&_&Hd&_)]; eauto.
Qed.

Lemma num_lit_dec v t : follows t = true → num_lit (dec v ++ t) = Some (dec v, t).
Proof.
  intros Ht. destruct (num_tail_none t Ht) as [Hf He]. unfold dec. case_match.
  - cbn [app num_lit]. rewrite num_integer_dec by done. simpl. rewrite Hf. simpl. rewrite He. simpl.
    by rewrite app_nil_r.
  - set (l := dec_nat (Z.to_N v)).
    transitivity ('(i, s2) ← num_integer (l ++ t);
      '(f, s3) ← num_fraction s2; '(e, s4) ← num_exponent s3; Some (i ++ f ++ e, s4)).
    { destruct (dec_nat_shape (Z.to_N v)) as [E|(b&l'&E&_&Hd&_)]; subst l; rewrite E; [done|].
      cbn [app]. destruct b; done. }
    subst l. rewrite num_integer_dec by done. simpl. rewrite Hf. simpl. rewrite He. simpl.
    by rewrite app_nil_r.
Qed.

(** How a printed value starts. *)
Lemma print_head j : nums_ok j → ∃ b s, print j = b :: s ∧ ws b = false ∧ b ≠ x5d ∧ b ≠ x7d.
Proof.
  destruct j as [|[]|lit|s|[|v l]|[|[k v] l]]; simpl; intros H;
    try (eexists _, _; split; [reflexivity|done]).
  destruct H as [v ->]. destruct (dec_head v) as (b&l&->&[Hd| ->]); [|by eexists _, _].
  eexists _, _. split; [done|]. destruct b; done.
Qed.

Lemma scalar_dec v t :
  follows t = true → parse_value 1 0 (dec v ++ t) = Some (JNum (dec v), t).
Proof.
  intros Ht. pose proof (num_lit_dec v t Ht) as E.
  destruct (dec_head v) as (b&l&Hv&Hb). rewrite Hv in *. cbn [app] in *.
  assert (ws b = false ∧ b ≠ x7b ∧ b ≠ x5b ∧ b ≠ x22) as (H1&H2&H3&H4).
  { destruct Hb as [Hd| ->]; [|done]. destruct b; done. }
  cbn [parse_value]. rewrite !eat_miss by done. unfold skip_ws. cbn [drop_while]. rewrite H1.
  transitivity ('(n, t) ← num_lit (b :: l ++ t); Some (JNum n, t)).
  - destruct Hb as [Hd| ->]; [|done]. destruct b; done.
  - by rewrite E.
Qed.

Definition print_ok (j : json) : Prop :=
  nums_ok j → ∀ n d t, (length (print j) < n)%nat → (depth j ≤ d)%nat → follows t = true →
  parse_value n d (print j ++ t) = Some (norm j, t).

Definition print_elements (l : list json) : bytes := concat (map (fun v => x2c :: print v) l).
Definition print_members (l : list (bytes * json)) : bytes :=
  concat (map (fun kv => x2c :: quote kv.1 ++ x3a :: print kv.2) l).

Lemma parse_elements_print l v n d t :
  print_ok v → Forall print_ok l → nums_ok v → nums_ok (JArr l) →
  (depth v ≤ d)%nat → (depth (JArr l) ≤ S d)%nat →
  (S (length (print v) + length (print_elements l)) < n)%nat →
  parse_elements n d (print v ++ print_elements l ++ x5d :: t) = Some (norm v :: map norm l, t).
Proof.
  intros Hv Hl. revert v n Hv. induction Hl as [|w l Hw Hl IH]; intros v n Hv Hnv Hnl Hdv Hdl Hn;
    (destruct n as [|n]; [lia|]); cbn [print_elements map concat app parse_elements] in *.
  - rewrite Hv by (done || lia). cbn [mbind option_bind].
    rewrite eat_miss, eat_hit by done. done.
  - cbn [length] in Hn. rewrite length_app in Hn. fold (print_elements l) in *.
    simpl in Hnl, Hdl. rewrite Hv by (done || lia). cbn [mbind option_bind].
    rewrite eat_hit by done. rewrite <- app_assoc.
    rewrite IH by (destruct Hnl; simpl; done || lia). done.
Qed.

Lemma str_body_quoted s t : str_body 0 (quote_body s ++ [x22] ++ t) = Some (utf8_coerce s, t).
Proof. apply str_body_quote. Qed.

Lemma parse_members_print l k v n d t :
  print_ok v → Forall (λ kv, print_ok kv.2) l → nums_ok v → nums_ok (JObj l) →
  (depth v ≤ d)%nat → (depth (JObj l) ≤ S d)%nat →
  (S (length (print v) + length (print_members l)) < n)%nat →
  parse_members n d (quote k ++ x3a :: print v ++ print_members l ++ x7d :: t)
    = Some ((utf8_coerce k, norm v) :: map (fun kv => (utf8_coerce kv.1, norm kv.2)) l, t).
Proof.
  intros Hv Hl. revert k v n Hv.
  induction Hl as [|[k' w] l Hw Hl IH]; intros k v n Hv Hnv Hnl Hdv Hdl Hn;
    (destruct n as [|n]; [lia|]); cbn [parse_members];
    unfold quote at 1; cbn [app]; rewrite <- app_assoc, eat_hit by done; cbn [mbind option_bind];
    rewrite str_body_quoted; cbn [mbind option_bind]; rewrite eat_hit by done; cbn [mbind option_bind].
  - cbn [print_members map concat app] in *. rewrite Hv by (done || lia). cbn [mbind option_bind].
    rewrite eat_miss, eat_hit by done. done.
  - change (print_members ((k', w) :: l))
      with ((x2c :: quote k' ++ x3a :: print w) ++ print_members l) in *.
    rewrite length_app in Hn. cbn [length] in Hn. rewrite length_app in Hn. cbn [length] in Hn.
    simpl in Hnl, Hdl, Hw. rewrite <- app_assoc. cbn [app].
    rewrite Hv by (done || lia). cbn [mbind option_bind].
    rewrite eat_hit by done. rewrite <- app_assoc. cbn [app].
    rewrite IH by (destruct Hnl; simpl; done || lia). done.
Qed.

Lemma nums_ok_arr l : nums_ok (JArr l) ↔ Forall nums_ok l.
Proof. simpl. induction l; simpl; [done|]. by rewrite Forall_cons, IHl. Qed.
Lemma nums_ok_obj l : nums_ok (JObj l) ↔ Forall (λ kv, nums_ok kv.2) l.
Proof. simpl. induction l; simpl; [done|]. by rewrite Forall_cons, IHl. Qed.

Lemma print_ok_all j : print_ok j.
Proof.
  induction j as [|b|lit|s|l IH|l IH] using json_nested_ind; intros Hn n d t Hlen Hd Ht;
    (destruct n as [|n]; [lia|]).
  - done.
  - by destruct b.
  - destruct Hn as [v ->]. cbn [print norm].
    pose proof (scalar_dec v t Ht) as E. destruct (dec_head v) as (b&l&Hv&Hb).
    rewrite Hv in *. cbn [app] in *. cbn [parse_value] in *.
    assert (ws b = false ∧ b ≠ x7b ∧ b ≠ x5b ∧ b ≠ x22) as (H1&H2&H3&H4).
    { destruct Hb as [Hdg| ->]; [|done]. destruct b; done. }
    rewrite !eat_miss in * by done. done.
  - cbn [print norm parse_value]. unfold quote. cbn [app].
    rewrite 2!eat_miss, eat_hit, <- app_assoc, str_body_quoted by done. done.
  - destruct l as [|v l]; [destruct d; [simpl in Hd; lia|done]|]. inversion IH as [|? ? Hv Hl]; subst.
    cbn [print] in *. fold (print_elements l) in *. destruct Hn as [Hnv Hnl].
    destruct d as [|d]; [simpl in Hd; lia|]. cbn [app parse_value].
    rewrite eat_miss, eat_hit by done.
    destruct (print_head v Hnv) as (b&u&Eb&Hws&Hb&_).
    rewrite <- !app_assoc. cbn [app]. rewrite Eb. cbn [app]. rewrite (eat_miss b x5d) by done.
    change (b :: u ++ print_elements l ++ x5d :: t) with ((b :: u) ++ print_elements l ++ x5d :: t).
    rewrite <- Eb. cbn [length] in Hlen. rewrite !length_app in Hlen. cbn [length] in Hlen.
    simpl in Hd. rewrite parse_elements_print by (simpl; done || lia). done.
  - destruct l as [|[k v] l]; [destruct d; [simpl in Hd; lia|done]|]. inversion IH as [|? ? Hv Hl]; subst. simpl in Hv.
    cbn [print] in *. fold (print_members l) in *. destruct Hn as [Hnv Hnl].
    destruct d as [|d]; [simpl in Hd; lia|]. cbn [app parse_value].
    rewrite eat_hit by done. unfold quote at 1. cbn [app]. rewrite eat_miss by done.
    change (x22 :: (quote_body k ++ [x22]) ++ x3a :: print v ++ print_members l ++ [x7d])
      with (quote k ++ x3a :: print v ++ print_members l ++ [x7d]).
    cbn [length] in Hlen. rewrite !length_app in Hlen. cbn [length] in Hlen.
    rewrite !length_app in Hlen. cbn [length] in Hlen. simpl in Hd, Hnv.
    change (x22 :: ((quote_body k ++ [x22]) ++ x3a :: print v ++ print_members l ++ [x7d]) ++ t)
      with ((quote k ++ x3a :: print v ++ print_members l ++ [x7d]) ++ t).
    replace ((quote k ++ x3a :: print v ++ print_members l ++ [x7d]) ++ t)
      with (quote k ++ x3a :: print v ++ print_members l ++ x7d :: t)
      by (rewrite <- !app_assoc; cbn [app]; by rewrite <- !app_assoc).
    rewrite parse_members_print by (simpl; done || lia). done.
Qed.

(** The decoder reads back what the encoder wrote, with the strings coerced. *)
Lemma parse_print j : nums_ok j → (depth j ≤ max_nesting)%nat → parse (print j) = Some (norm j).
Proof.
  intros Hn Hd. unfold parse. pose proof (print_ok_all j Hn (S (length (print j))) max_nesting []) as E.
  rewrite app_nil_r in E. rewrite E by (done || lia). done.
Qed.

(** ** Decoding into Go types *)

(** Member names match a field name up to simple case folding; U+017F folds to
    S and U+212A to K. *)
Definition fold_chunk (c : chunk) : bytes :=
  match c with
  | Rune cp e =>
      if (97 <=? cp)%Z && (cp <=? 122)%Z then [byte_of (cp - 32)]
      else if (cp =? 383)%Z then [x53] else if (cp =? 8490)%Z then [x4b] else e
  | Bad b => [b]
  end.
Definition fold_name (s : bytes) : bytes := concat (map fold_chunk (utf8_chunks s)).
Definition is_field (name : string) (key : bytes) : bool :=
  bool_decide (fold_name (bs name) = fold_name key).
Arguments is_field _%_string _.

(** Decoding into a variable that holds [old]: [null] leaves a scalar as it is
    and makes a slice or map nil. *)
Definition into_u64 (old : Z) (j : json) : option Z :=
  match j with JNull => Some old | JNum l => parse_uint64 l | _ => None end.
Definition into_int (old : Z) (j : json) : option Z :=
  match j with JNull => Some old | JNum l => parse_int64 l | _ => None end.
Definition into_bool (old : bool) (j : json) : option bool :=
  match j with JNull => Some old | JBool b => Some b | _ => None end.
Definition into_str (old : bytes) (j : json) : option bytes :=
  match j with JNull => Some old | JStr s => Some s | _ => None end.
Definition into_byte (j : json) : option byte :=
  v ← into_u64 0 j; if (v <? 256)%Z then Some (byte_of v) else None.
Definition into_bytes (j : json) : option bytes :=
  match j with
  | JNull => Some []
  | JStr s => b64_decode s
  | JArr l => mapM into_byte l
  | _ => None
  end.
Definition into_list {A} (f : json → option A) (j : json) : option (list A) :=
  match j with JNull => Some [] | JArr l => mapM f l | _ => None end.

Fixpoint fold_members {A} (f : A → bytes * json → option A) (a : A)
    (l : list (bytes * json)) : option A :=
  match l with
  | [] => Some a
  | m :: l => a' ← f a m; fold_members f a' l
  end.
(** A struct: the members in order, each into the field it names. *)
Definition into_struct {A} (f : A → bytes * json → option A) (a : A) (j : json) : option A :=
  match j with JNull => Some a | JObj l => fold_members f a l | _ => None end.

(** ** Codecs *)

(** A type stored as JSON: its encoding, its decoding, and the values the
    decoder gives back. *)
Class JSONCodec (A : Type) := {
  to_json : A → json;
  of_json : json → option A;
  json_ok : A → Prop;
  to_json_nums : ∀ a, nums_ok (to_json a);
  to_json_depth : ∀ a, (depth (to_json a) ≤ 8)%nat;
  of_to_json : ∀ a, json_ok a → of_json (norm (to_json a)) = Some a
}.

Definition marshal `{JSONCodec A} (a : A) : bytes := print (to_json a).
Definition unmarshal `{JSONCodec A} (s : bytes) : option A := j ← parse s; of_json j.

Lemma max_nesting_ge n : (n ≤ 100)%nat → (n ≤ max_nesting)%nat.
Proof. unfold max_nesting. lia. Qed.

Lemma unmarshal_marshal `{JSONCodec A} (a : A) : json_ok a → unmarshal (marshal a) = Some a.
Proof.
  intros Ha. unfold unmarshal, marshal. pose proof (to_json_depth a).
  rewrite parse_print by (apply to_json_nums || (apply max_nesting_ge; lia)). simpl.
  by apply of_to_json.
Qed.

Lemma marshal_nonempty `{JSONCodec A} (a : A) : marshal a ≠ [].
Proof. unfold marshal. destruct (print_head (to_json a) (to_json_nums a)) as (b&s&->&_). done. Qed.

(** ** The checksummed envelope with a [json.RawMessage] payload *)

Record envelope := {
  env_magic : bytes; env_version : Z; env_payload : bytes; env_sha256 : bytes }.

(** The payload is itself [json.Marshal] output, which the encoder copies. *)
Definition envelope_json (magic : bytes) (version : Z) (payload : json) (sum : bytes) : json :=
  JObj [(bs "magic", JStr magic); (bs "version", JNum (dec version));
        (bs "payload", payload); (bs "sha256", JStr sum)].

(** The members of a top-level object with the raw text of their values. *)
Fixpoint raw_members (n : nat) (s : bytes) : option (list (bytes * bytes)) :=
  match n with
  | O => None
  | S n =>
      r ← eat x22 s; '(k, r1) ← str_body 0 r; r2 ← eat x3a r1;
      '(_, r3) ← parse_value (S (length r2)) max_nesting r2;
      let raw := take (length (skip_ws r2) - length r3) (skip_ws r2) in
      match eat x2c r3, eat x7d r3 with
      | Some r4, _ => l ← raw_members n r4; Some ((k, raw) :: l)
      | None, Some _ => Some [(k, raw)]
      | None, None => None
      end
  end.

Definition envelope_member (e : envelope) (m : bytes * json * bytes) : option envelope :=
  let '(k, j, raw) := m in
  if is_field "magic" k then
    v ← into_str (env_magic e) j;
    Some {| env_magic := v; env_version := env_version e; env_payload := env_payload e;
            env_sha256 := env_sha256 e |}
  else if is_field "version" k then
    v ← into_int (env_version e) j;
    Some {| env_magic := env_magic e; env_version := v; env_payload := env_payload e;
            env_sha256 := env_sha256 e |}
  else if is_field "payload" k then
    Some {| env_magic := env_magic e; env_version := env_version e; env_payload := raw;
            env_sha256 := env_sha256 e |}
  else if is_field "sha256" k then
    v ← into_str (env_sha256 e) j;
    Some {| env_magic := env_magic e; env_version := env_version e;
            env_payload := env_payload e; env_sha256 := v |}
  else Some e.

Fixpoint envelope_members (e : envelope) (l : list (bytes * json * bytes)) : option envelope :=
  match l with
  | [] => Some e
  | m :: l => e' ← envelope_member e m; envelope_members e' l
  end.

Definition unmarshal_envelope (s : bytes) : option envelope :=
  let zero := {| env_magic := []; env_version := 0; env_payload := []; env_sha256 := [] |} in
  j ← parse s;
  match j with
  | JNull => Some zero
  | JObj [] => Some zero
  | JObj l =>
      r ← eat x7b s; raws ← raw_members (length s) r;
      envelope_members zero (zip l (raws.*2))
  | _ => None
  end.

Lemma skip_ws_print j t : nums_ok j → skip_ws (print j ++ t) = print j ++ t.
Proof.
  intros H. destruct (print_head j H) as (b&s&->&Hws&_). unfold skip_ws. cbn [app drop_while].
  by rewrite Hws.
Qed.

Lemma raw_members_print l k v n t :
  nums_ok v → nums_ok (JObj l) → (depth v ≤ max_nesting)%nat → (depth (JObj l) ≤ max_nesting)%nat →
  (length l < n)%nat →
  raw_members n (quote k ++ x3a :: print v ++ print_members l ++ x7d :: t)
    = Some ((utf8_coerce k, print v) :: map (fun kv => (utf8_coerce kv.1, print kv.2)) l).
Proof.
  revert k v n. induction l as [|[k' w] l IH]; intros k v n Hnv Hnl Hdv Hdl Hn;
    (destruct n as [|n]; [simpl in Hn; lia|]); cbn [raw_members];
    unfold quote at 1; cbn [app]; rewrite <- app_assoc, eat_hit by done; cbn [mbind option_bind];
    rewrite str_body_quoted; cbn [mbind option_bind]; rewrite eat_hit by done; cbn [mbind option_bind];
    rewrite print_ok_all by (done || (rewrite length_app; lia)); cbn [mbind option_bind];
    rewrite skip_ws_print, length_app by done;
    match goal with |- context [(?a + ?b - ?b)%nat] => replace (a + b - b)%nat with a by lia end;
    rewrite take_app_length.
  - cbn [print_members map concat app]. rewrite eat_miss, eat_hit by done. done.
  - change (print_members ((k', w) :: l)) with ((x2c :: quote k' ++ x3a :: print w) ++ print_members l).
    rewrite <- app_assoc. cbn [app]. rewrite eat_hit by done. rewrite <- app_assoc. cbn [app].
    simpl in Hnl, Hdl, Hn. rewrite IH by (destruct Hnl; simpl; done || lia). done.
Qed.

Lemma envelope_roundtrip magic v p sum :
  nums_ok p → (depth p ≤ 100)%nat → utf8_valid magic = true → utf8_valid sum = true →
  (0 ≤ v < 2 ^ 63)%Z →
  unmarshal_envelope (print (envelope_json magic v p sum))
    = Some {| env_magic := magic; env_version := v; env_payload := print p; env_sha256 := sum |}.
Proof.
  intros Hp Hd Hm Hs Hv. unfold unmarshal_envelope.
  assert (nums_ok (envelope_json magic v p sum)) as Hn by (simpl; eauto 10).
  assert (∀ n, (n ≤ 200)%nat → (n ≤ max_nesting)%nat) as Hmax by (unfold max_nesting; lia).
  rewrite parse_print; [|done|apply Hmax; simpl; lia].
  cbn [mbind option_bind].
  assert (length (print (envelope_json magic v p sum)) > 4)%nat as Hlen by (simpl; lia).
  revert Hlen. generalize (length (print (envelope_json magic v p sum))). intros fuel Hfuel.
  pose proof (raw_members_print
    [(bs "version", JNum (dec v)); (bs "payload", p); (bs "sha256", JStr sum)]
    (bs "magic") (JStr magic) fuel []) as E.
  unfold envelope_json in *. cbn [norm map print fst snd]. rewrite eat_hit by done.
  cbn [mbind option_bind]. unfold print_members in E. cbn [print map fst snd] in E.
  rewrite E; [|done|simpl; eauto 10|simpl; lia|apply Hmax; simpl; lia|simpl; lia].
  cbn [mbind option_bind map fst snd zip zip_with fmap list_fmap].
  rewrite !(utf8_coerce_valid magic), !(utf8_coerce_valid sum) by done.
  cbn. rewrite parse_int64_dec by done. done.
Qed.
