(* ===== verification/Errors.v ===== *)
(** * Errors ([errors.go], the error types of [internal/core/types.go])

    Go errors as a tree: the leaves the program creates or meets, and the
    constructors that wrap another error.  [errors.As] walks the chain of
    [Unwrap]. *)

From Stdlib Require Import Strings.String.
From stdpp Require Import base decidable list.
From S2P Require Import Prelude.

Inductive ErrorKind :=
| ErrorInvalidInput
| ErrorCapacity
| ErrorStorage
| ErrorCorruption
| ErrorIncompatible
| ErrorClosed
| ErrorPoisoned.

(** [core.ErrorKind]. *)
Inductive CoreErrorKind :=
| CapacityExceeded
| EngineClosed
| EnginePoisoned
| InvalidCommand
| DurabilityWriteFailed
| RecoveryCorrupt
| RecoveryIncompatible.

#[export] Instance ErrorKind_eq_dec : EqDecision ErrorKind.
Proof. solve_decision. Defined.
#[export] Instance CoreErrorKind_eq_dec : EqDecision CoreErrorKind.
Proof. solve_decision. Defined.

Inductive gerror :=
| EMsg (message : string)
| EOS (call : string)
| ENotExist
| ECtx
| EError (kind : ErrorKind) (op : string) (err : gerror)
| ERejection (code : bytes) (result : bytes)
| ERuntime (kind : CoreErrorKind) (err : gerror)
| EWrap (context : string) (err : gerror).

#[export] Instance gerror_eq_dec : EqDecision gerror.
Proof. solve_decision. Defined.

(** [&Error{Kind: kind, Op: op, err: errors.New(message)}]. *)
Definition err_new (kind : ErrorKind) (op message : string) : gerror :=
  EError kind op (EMsg message).
Arguments err_new _ _%_string _%_string.
Arguments EError _ _%_string _.
Arguments EMsg _%_string.
Arguments EOS _%_string.
Arguments EWrap _%_string _.

(** The errors [errors.As] looks at, outermost first. *)
Fixpoint unwrap_chain (e : gerror) : list gerror :=
  e :: match e with
       | EError _ _ e' | ERuntime _ e' | EWrap _ e' => unwrap_chain e'
       | _ => []
       end.

(** [errors.As(err, &rejection)] with [*KeyedRejection]. *)
Definition as_rejection (e : gerror) : option (bytes * bytes) :=
  head (omap (fun e => match e with ERejection c r => Some (c, r) | _ => None end) (unwrap_chain e)).

(** [errors.As(err, &runtimeErr)] with [*core.RuntimeError]. *)
Definition as_runtime (e : gerror) : option CoreErrorKind :=
  head (omap (fun e => match e with ERuntime k _ => Some k | _ => None end) (unwrap_chain e)).

(** [errors.As(err, &pathErr)] with [*os.PathError]. *)
Definition as_path (e : gerror) : bool :=
  existsb (fun e => match e with EOS _ | ENotExist => true | _ => false end) (unwrap_chain e).

(** The switch of [wrapError]; the remaining kind falls to [ErrorStorage]. *)
Definition wrap_kind (k : CoreErrorKind) : ErrorKind :=
  match k with
  | InvalidCommand => ErrorInvalidInput
  | CapacityExceeded => ErrorCapacity
  | EngineClosed => ErrorClosed
  | EnginePoisoned => ErrorPoisoned
  | RecoveryCorrupt => ErrorCorruption
  | RecoveryIncompatible => ErrorIncompatible
  | DurabilityWriteFailed => ErrorStorage
  end.

Definition wrapError (op : string) (err : option gerror) : option gerror :=
  match err with
  | None => None
  | Some e =>
      match as_runtime e with
      | Some k => Some (EError (wrap_kind k) op e)
      | None => Some (EError ErrorStorage op e)
      end
  end.

(** The kind a caller of the public API sees. *)
Definition error_kind (e : gerror) : option ErrorKind :=
  match e with EError k _ _ => Some k | _ => None end.

Lemma wrapError_nil op err : wrapError op err = None ↔ err = None.
Proof. destruct err as [e|]; simpl; [|done]. by destruct (as_runtime e). Qed.
