(* ===== verification/GoOS.v ===== *)
(** * Files: the part of [os] the storage code uses

    One database directory.  A file is an inode with the content that has been
    synchronized and the list of later modifications; a directory maps names to
    inodes and remembers the states it went through since it was last
    synchronized.  Every fallible call consumes one entry of a schedule of
    faults, so a theorem for all schedules covers every combination of I/O
    failures.  [crash] relates a world to the ones a power failure can leave:
    for every file a prefix of its unsynchronized modifications survives, the
    last of them possibly torn, and the directory is one of its unsynchronized
    states. *)

From Stdlib Require Import ZArith Lia Strings.Byte Strings.String.
From stdpp Require Import base decidable countable list gmap.
From S2P Require Import Prelude GoText Errors.

Inductive fmod :=
| FWrite (offset : nat) (data : bytes)
| FTrunc (size : nat).

Record file := { stable : bytes; pending : list fmod }.

(** Writing at an offset: a gap before it reads as zeros. *)
Definition write_at (c : bytes) (off : nat) (d : bytes) : bytes :=
  take off c ++ replicate (off - length c) x00 ++ d ++ drop (off + length d) c.

Definition apply_mod (c : bytes) (m : fmod) : bytes :=
  match m with
  | FWrite off d => write_at c off d
  | FTrunc n => take n c ++ replicate (n - length c) x00
  end.

Definition content (f : file) : bytes := foldl apply_mod (stable f) (pending f).

Definition modify (m : fmod) (f : file) : file :=
  {| stable := stable f; pending := pending f ++ [m] |}.
Definition settle (f : file) : file := {| stable := content f; pending := [] |}.

Inductive fault :=
| FOk
| FFail
| FShort (n : nat) (reported : bool).

Record world := {
  w_dir : gmap bytes nat;
  w_hist : list (gmap bytes nat);
  w_inodes : gmap nat file;
  w_next : nat;
  w_pos : nat;                   (** the offset of the log's handle *)
  w_faults : list fault }.

(** ** The I/O monad *)

Definition io (A : Type) : Type := world → res gerror A * world.

#[export] Instance io_ret : MRet io := fun A a w => (Ok a, w).
#[export] Instance io_bind : MBind io := fun A B f m w =>
  match m w with
  | (Ok a, w') => f a w'
  | (Err e, w') => (Err e, w')
  end.
Definition io_err {A} (e : gerror) : io A := fun w => (Err e, w).
Definition io_res {A} (r : res gerror A) : io A := fun w => (r, w).

(** The outcome as a value: the code goes on whether or not the call failed. *)
Definition attempt {A} (m : io A) : io (res gerror A) := fun w =>
  let '(r, w') := m w in (Ok r, w').

(** [return &Error{Kind: kind, Op: op, err: err}] when the call fails. *)
Definition io_wrap {A} (kind : ErrorKind) (op : string) (m : io A) : io A := fun w =>
  match m w with
  | (Err e, w') => (Err (EError kind op e), w')
  | r => r
  end.
Arguments io_wrap {A} _ _%_string _.

(** [_ = f()]. *)
Definition ignore {A} (m : io A) : io unit := fun w => (Ok tt, (m w).2).

(** [m], and on its error [cleanup] before the error is returned. *)
Definition on_error {A} (cleanup : io unit) (m : io A) : io A := fun w =>
  match m w with
  | (Err e, w') => (Err e, (cleanup w').2)
  | r => r
  end.

(** ** Calls *)

Definition tick (w : world) : fault * world :=
  match w_faults w with
  | [] => (FOk, w)
  | f :: l => (f, {| w_dir := w_dir w; w_hist := w_hist w; w_inodes := w_inodes w;
                     w_next := w_next w; w_pos := w_pos w; w_faults := l |})
  end.

(** A call that fails as the schedule says and otherwise does [f]. *)
Definition call {A} (name : string) (f : io A) : io A := fun w =>
  match tick w with
  | (FFail, w') => (Err (EOS name), w')
  | (_, w') => f w'
  end.
Arguments call {A} _%_string _.

Definition with_dir (d : gmap bytes nat) (w : world) : world :=
  {| w_dir := d; w_hist := w_hist w ++ [w_dir w]; w_inodes := w_inodes w;
     w_next := w_next w; w_pos := w_pos w; w_faults := w_faults w |}.
Definition with_inodes (i : gmap nat file) (w : world) : world :=
  {| w_dir := w_dir w; w_hist := w_hist w; w_inodes := i;
     w_next := w_next w; w_pos := w_pos w; w_faults := w_faults w |}.
Definition with_pos (p : nat) (w : world) : world :=
  {| w_dir := w_dir w; w_hist := w_hist w; w_inodes := w_inodes w;
     w_next := w_next w; w_pos := p; w_faults := w_faults w |}.

Definition empty_file : file := {| stable := []; pending := [] |}.
Definition inode (i : nat) (w : world) : file := default empty_file (w_inodes w !! i).

(** [os.MkdirAll]: the directory of the database exists from the start. *)
Definition mkdir_all : io unit := call "mkdir" (mret tt).

(** [os.ReadFile]. *)
Definition read_file (name : bytes) : io bytes := fun w =>
  match w_dir w !! name with
  | None => (Err ENotExist, w)
  | Some i => call "read" (fun w => (Ok (content (inode i w)), w)) w
  end.

(** [os.ReadDir]: the names in order. *)
Definition read_dir : io (list bytes) :=
  call "readdir" (fun w => (Ok (sort_strings ((map_to_list (w_dir w)).*1)), w)).

(** [os.Remove]. *)
Definition remove (name : bytes) : io unit :=
  call "remove" (fun w =>
    match w_dir w !! name with
    | None => (Err ENotExist, w)
    | Some _ => (Ok tt, with_dir (delete name (w_dir w)) w)
    end).

Definition fresh (name : bytes) (w : world) : nat * world :=
  let i := w_next w in
  (i, {| w_dir := <[name := i]> (w_dir w); w_hist := w_hist w ++ [w_dir w];
         w_inodes := <[i := empty_file]> (w_inodes w); w_next := S i;
         w_pos := w_pos w; w_faults := w_faults w |}).

(** [os.OpenFile] with [O_CREATE|O_EXCL|O_WRONLY]. *)
Definition create_excl (name : bytes) : io nat :=
  call "open" (fun w =>
    match w_dir w !! name with
    | Some _ => (Err (EOS "exists"), w)
    | None => let '(i, w') := fresh name w in (Ok i, w')
    end).

(** [os.OpenFile] with [O_CREATE|O_TRUNC|O_WRONLY]. *)
Definition create_trunc (name : bytes) : io nat :=
  call "open" (fun w =>
    match w_dir w !! name with
    | Some i => (Ok i, with_inodes (<[i := modify (FTrunc 0) (inode i w)]> (w_inodes w)) w)
    | None => let '(i, w') := fresh name w in (Ok i, w')
    end).

(** [os.OpenFile] with [O_CREATE|O_RDWR]: the log, opened at offset zero. *)
Definition open_rw (name : bytes) : io nat :=
  call "open" (fun w =>
    match w_dir w !! name with
    | Some i => (Ok i, with_pos 0 w)
    | None => let '(i, w') := fresh name w in (Ok i, with_pos 0 w')
    end).

(** [File.Write] at [off]: the number of bytes written and the error; a short
    write may or may not be reported. *)
Definition write_file (i : nat) (off : nat) (d : bytes) : io (nat * option gerror) := fun w =>
  let wr (d : bytes) (w : world) :=
    with_inodes (<[i := modify (FWrite off d) (inode i w)]> (w_inodes w)) w in
  match tick w with
  | (FOk, w') => (Ok (length d, None), wr d w')
  | (FFail, w') => (Ok (0, Some (EOS "write")), w')
  | (FShort n reported, w') =>
      let n := Nat.min n (length d) in
      (Ok (n, if reported && (n <? length d)%nat then Some (EOS "short write") else None),
       wr (take n d) w')
  end.

(** The write of a whole buffer, with the check of the count that follows it in
    the code. *)
Definition write_all (i : nat) (off : nat) (d : bytes) : io unit :=
  '(n, err) ← write_file i off d;
  match err with
  | Some e => io_err e
  | None => if bool_decide (n = length d) then mret tt else io_err (EMsg "short write")
  end.

(** [File.Sync]. *)
Definition sync_file (i : nat) : io unit :=
  call "sync" (fun w => (Ok tt, with_inodes (<[i := settle (inode i w)]> (w_inodes w)) w)).

(** [File.Close], [File.Seek], [File.Truncate]. *)
Definition close_file : io unit := call "close" (mret tt).
Definition seek (p : nat) : io unit := call "seek" (fun w => (Ok tt, with_pos p w)).
Definition seek_end (i : nat) : io unit :=
  call "seek" (fun w => (Ok tt, with_pos (length (content (inode i w))) w)).
Definition truncate (i : nat) (n : nat) : io unit :=
  call "truncate" (fun w =>
    (Ok tt, with_inodes (<[i := modify (FTrunc n) (inode i w)]> (w_inodes w)) w)).

(** [os.Rename]: replaces the target. *)
Definition rename (old new : bytes) : io unit :=
  call "rename" (fun w =>
    match w_dir w !! old with
    | None => (Err ENotExist, w)
    | Some i => (Ok tt, with_dir (<[new := i]> (delete old (w_dir w))) w)
    end).

(** [Sync] on the directory's handle. *)
Definition sync_dir : io unit :=
  call "syncdir" (fun w =>
    (Ok tt, {| w_dir := w_dir w; w_hist := []; w_inodes := w_inodes w; w_next := w_next w;
               w_pos := w_pos w; w_faults := w_faults w |})).

(** ** Crashes *)

(** A content that can be found after a power failure. *)
Definition survives (f : file) (c : bytes) : Prop :=
  ∃ done rest, pending f = done ++ rest ∧
    (c = foldl apply_mod (stable f) done ∨
     ∃ off d n rest', rest = FWrite off d :: rest' ∧
       c = apply_mod (foldl apply_mod (stable f) done) (FWrite off (take n d))).

Definition crash (w w' : world) : Prop :=
  (w_dir w' = w_dir w ∨ w_dir w' ∈ w_hist w) ∧ w_hist w' = [] ∧
  w_next w' = w_next w ∧
  ∀ i, match w_inodes w !! i with
       | None => w_inodes w' !! i = None
       | Some f => ∃ c, survives f c ∧ w_inodes w' !! i = Some {| stable := c; pending := [] |}
       end.

(** ** Lemmas *)

Lemma io_bind_ok {A B} (m : io A) (f : A → io B) w b w' :
  (m ≫= f) w = (Ok b, w') ↔ ∃ a w1, m w = (Ok a, w1) ∧ f a w1 = (Ok b, w').
Proof.
  unfold mbind, io_bind. destruct (m w) as [[a|e] w1]; split; intros H.
  - eauto.
  - destruct H as (?&?&?&?). by simplify_eq.
  - done.
  - destruct H as (?&?&?&?). by simplify_eq.
Qed.

Lemma write_at_end c d : write_at c (length c) d = c ++ d.
Proof.
  unfold write_at. rewrite firstn_all, Nat.sub_diag, drop_ge by lia. simpl. by rewrite app_nil_r.
Qed.

Lemma content_modify m f : content (modify m f) = apply_mod (content f) m.
Proof. unfold content, modify. simpl. by rewrite foldl_app. Qed.

Lemma content_settle f : content (settle f) = content f.
Proof. done. Qed.

Lemma survives_settled f c : pending f = [] → survives f c → c = stable f.
Proof.
  intros Hp (d&r&E&H). rewrite Hp in E. symmetry in E. apply app_nil in E as [-> ->].
  destruct H as [->|(?&?&?&?&?&?)]; done.
Qed.

Lemma inode_insert i f w : inode i (with_inodes (<[i:=f]> (w_inodes w)) w) = f.
Proof. unfold inode. simpl. by rewrite lookup_insert_eq. Qed.

Lemma inode_insert_ne i j f w : i ≠ j → inode j (with_inodes (<[i:=f]> (w_inodes w)) w) = inode j w.
Proof. intros H. unfold inode. simpl. by rewrite lookup_insert_ne. Qed.

(** The crash that keeps what was synchronized and nothing else; the directory
    is then the oldest one since it was last synchronized. *)
Definition lost (w : world) : world :=
  {| w_dir := default (w_dir w) (head (w_hist w)); w_hist := [];
     w_inodes := (λ f, {| stable := stable f; pending := [] |}) <$> w_inodes w;
     w_next := w_next w; w_pos := 0; w_faults := [] |}.

Lemma lost_crash w : crash w (lost w).
Proof.
  split. { cbn [lost w_dir]. destruct (w_hist w) as [|d l]; [by left|]. right. left. }
  split; [done|]. split; [done|]. intros i. cbn. rewrite lookup_fmap. destruct (w_inodes w !! i) as [f|]; [|done].
  exists (stable f). split; [|done]. exists [], (pending f). auto.
Qed.

(** ** A Hoare logic for the I/O monad *)

(** From a world in [P], [m] returns a value and a world in [Q], or fails in a
    world of [E]. *)
Definition hoare {A} (P : world → Prop) (m : io A) (Q : A → world → Prop) (E : world → Prop) : Prop :=
  ∀ w, P w → match m w with (Ok a, w') => Q a w' | (Err _, w') => E w' end.

Definition with_faults (l : list fault) (w : world) : world :=
  {| w_dir := w_dir w; w_hist := w_hist w; w_inodes := w_inodes w;
     w_next := w_next w; w_pos := w_pos w; w_faults := l |}.

(** Assertions that do not speak about the faults to come. *)
Definition steady (P : world → Prop) : Prop := ∀ w l, P w → P (with_faults l w).

Lemma tick_faults w : ∃ l, (tick w).2 = with_faults l w.
Proof.
  unfold tick, with_faults. destruct w as [d h i n p [|f l]]; cbn; [by exists []|by exists l].
Qed.

Lemma hoare_ret {A} (P : world → Prop) (a : A) E : hoare P (mret a) (λ x w, x = a ∧ P w) E.
Proof. by intros w Hw. Qed.

Lemma hoare_bind {A B} P (m : io A) (f : A → io B) R Q E :
  hoare P m R E → (∀ a, hoare (R a) (f a) Q E) → hoare P (m ≫= f) Q E.
Proof.
  intros H1 H2 w Hw. specialize (H1 w Hw). unfold mbind, io_bind.
  destruct (m w) as [[a|e] w']; [by apply H2|done].
Qed.

Lemma hoare_conseq {A} (P P' : world → Prop) (m : io A) (Q Q' : A → world → Prop) (E E' : world → Prop) :
  hoare P m Q E → (∀ w, P' w → P w) → (∀ a w, Q a w → Q' a w) → (∀ w, E w → E' w) → hoare P' m Q' E'.
Proof. intros H H1 H2 H3 w Hw. specialize (H w (H1 w Hw)). destruct (m w) as [[a|e] w']; auto. Qed.

Lemma hoare_wrap {A} P (m : io A) k op Q E : hoare P m Q E → hoare P (io_wrap k op m) Q E.
Proof. intros H w Hw. specialize (H w Hw). unfold io_wrap. by destruct (m w) as [[a|e] w']. Qed.

Lemma hoare_on_error {A} P (m : io A) (c : io unit) Q E E' :
  hoare P m Q E → hoare E c (λ _, E') E' → hoare P (on_error c m) Q E'.
Proof.
  intros H Hc w Hw. specialize (H w Hw). unfold on_error. destruct (m w) as [[a|e] w']; [done|].
  specialize (Hc w' H). by destruct (c w') as [[[]|e'] w''].
Qed.

Lemma hoare_ignore {A} P (m : io A) Q E : hoare P m (λ _, Q) Q → hoare P (ignore m) (λ _, Q) E.
Proof. intros H w Hw. specialize (H w Hw). unfold ignore. by destruct (m w) as [[a|e] w']. Qed.

Lemma hoare_attempt {A} P (m : io A) Q E E' :
  hoare P m Q E → hoare P (attempt m) (λ r w, match r with Ok a => Q a w | Err _ => E w end) E'.
Proof. intros H w Hw. specialize (H w Hw). unfold attempt. by destruct (m w) as [[a|e] w']. Qed.

Lemma hoare_call {A} P name (f : io A) Q (E : world → Prop) :
  steady P → (∀ w, P w → E w) → hoare P f Q E → hoare P (call name f) Q E.
Proof.
  intros Hs HE H w Hw. unfold call. destruct (tick_faults w) as [l El].
  destruct (tick w) as [[| |n b] w'] eqn:Et; cbn in El; subst w'; try apply H; try apply HE; by apply Hs.
Qed.

Lemma hoare_err {A} (P E : world → Prop) e (Q : A → world → Prop) :
  (∀ w, P w → E w) → hoare P (io_err e) Q E.
Proof. intros H w Hw. by apply H. Qed.
