(* ===== verification/Keyed.v ===== *)
(** * The keyed engine ([keyed.go], the in-memory part of [keyed_storage.go])

    The types, options and limits of the keyed database, the transaction a
    mutation callback works on, the execution of one command ([executeKeyed])
    and the application of a decision ([applyKeyed]).  Storage is in
    [KeyedStorage.v], the group commit in [KeyedCommit.v].

    The callback is application code.  It reaches the database only through the
    methods of its transaction, so it is a tree of method calls ([callback]);
    what it returns is a Go value known by its JSON encoding ([None] when
    [json.Marshal] fails) and an error, or it panics.  A destination of a [Get]
    is nil or a predicate saying which stored values [json.Unmarshal] accepts
    for it. *)

From Stdlib Require Import ZArith Lia Strings.Byte Strings.String Sorted.
From stdpp Require Import base decidable countable list gmap.
From S2P Require Import Prelude GoText GoJson Errors.

Local Open Scope Z_scope.
Local Open Scope go_scope.

(** ** Constants *)

Definition keyedFormatContents : bytes :=
  bs "OCTETDB" ++ [x0a] ++ bs "format=1" ++ [x0a] ++ bs "model=keyed-json-v1" ++ [x0a]
  ++ bs "engine=safe-go" ++ [x0a].
Definition catalogKeyedFormatContents : bytes :=
  bs "OCTETDB" ++ [x0a] ++ bs "format=1" ++ [x0a] ++ bs "model=catalog-keyed-json-v1" ++ [x0a]
  ++ bs "engine=safe-go" ++ [x0a].
Definition keyedSnapshotMagic : bytes := bs "OCTKEY01".
Definition maxKeyedFrameBytes : Z := 64 * 2 ^ 20.
Definition keyedMaxIdentityBytes : Z := 4 * 2 ^ 10.
Definition keyedMaxKeyBytes : Z := 4 * 2 ^ 10.
Definition keyedMaxCodeBytes : Z := 2 ^ 10.
Definition keyedMaxCommitGroup : nat := 64.

(** ** Types *)

Record KeyedOptions := {
  MaxRecords : Z;
  DedupeHorizon : Z;
  MaxValueBytes : Z;
  MaxTransactionBytes : Z }.

Definition DefaultKeyedOptions : KeyedOptions :=
  {| MaxRecords := 0; DedupeHorizon := 0; MaxValueBytes := 0; MaxTransactionBytes := 0 |}.

Record KeyedDecision := {
  kd_Sequence : Z;
  kd_CommandID : bytes;
  kd_Applied : bool;
  kd_Code : bytes;
  kd_Result : bytes;
  kd_Duplicate : bool }.

Definition zeroDecision : KeyedDecision :=
  {| kd_Sequence := 0; kd_CommandID := []; kd_Applied := false; kd_Code := [];
     kd_Result := []; kd_Duplicate := false |}.

Record keyedMutation := { km_Key : bytes; km_Value : bytes; km_Delete : bool }.

Record keyedWALRecord := {
  kr_Sequence : Z;
  kr_CommandID : bytes;
  kr_Applied : bool;
  kr_Code : bytes;
  kr_Result : bytes;
  kr_Mutations : list keyedMutation }.

#[export] Instance keyedMutation_eq_dec : EqDecision keyedMutation.
Proof. solve_decision. Defined.
#[export] Instance keyedWALRecord_eq_dec : EqDecision keyedWALRecord.
Proof. solve_decision. Defined.
#[export] Instance KeyedDecision_eq_dec : EqDecision KeyedDecision.
Proof. solve_decision. Defined.

(** The authoritative state a [KeyedDB] keeps in memory. *)
Record kstate := {
  records : gmap bytes bytes;
  dedupe : gmap bytes keyedWALRecord;
  dedupeIDs : list bytes;
  sequence : Z }.

Definition empty_kstate : kstate :=
  {| records := ∅; dedupe := ∅; dedupeIDs := []; sequence := 0 |}.

(** A transaction: the staged writes ([None] deletes) and whether the callback
    that owns it has returned. *)
Record KeyedTx := { writes : gmap bytes (option bytes); invalid : bool }.

Inductive callback_outcome :=
| CReturn (result : option bytes) (err : option gerror)
| CPanic (value : bytes).

(** What the engine runs: the effect of a callback on its transaction. *)
Definition KeyedMutation : Type :=
  KeyedOptions → kstate → KeyedTx → callback_outcome * KeyedTx.

Record keyedCommitRequest := {
  rq_ctxDone : bool;                 (** [ctx] is done when the request's turn comes *)
  rq_command : bytes;                (** [command.ID] *)
  rq_mutation : option KeyedMutation }.

Record keyedCommitResult := {
  rs_decision : KeyedDecision;
  rs_err : option gerror;
  rs_panicValue : option bytes }.

(** ** Options *)

Definition normalizeKeyedOptions (options : KeyedOptions) : res gerror KeyedOptions :=
  fail_if (MaxRecords options <? 0) || (DedupeHorizon options <? 0)
          || (MaxValueBytes options <? 0) || (MaxTransactionBytes options <? 0)
    with err_new ErrorInvalidInput "open_keyed" "bounds cannot be negative";
  let o := {|
    MaxRecords := if MaxRecords options =? 0 then 100000 else MaxRecords options;
    DedupeHorizon := if DedupeHorizon options =? 0 then 100000 else DedupeHorizon options;
    MaxValueBytes := if MaxValueBytes options =? 0 then 2 ^ 20 else MaxValueBytes options;
    MaxTransactionBytes :=
      if MaxTransactionBytes options =? 0 then 4 * 2 ^ 20 else MaxTransactionBytes options |} in
  fail_if MaxTransactionBytes o <? MaxValueBytes o
    with err_new ErrorInvalidInput "open_keyed" "MaxTransactionBytes must be at least MaxValueBytes";
  Ok o.

(** ** Decisions and rejections *)

Definition decision (r : keyedWALRecord) : KeyedDecision :=
  {| kd_Sequence := kr_Sequence r; kd_CommandID := kr_CommandID r; kd_Applied := kr_Applied r;
     kd_Code := kr_Code r; kd_Result := kr_Result r; kd_Duplicate := false |}.

Definition as_duplicate (d : KeyedDecision) : KeyedDecision :=
  {| kd_Sequence := kd_Sequence d; kd_CommandID := kd_CommandID d; kd_Applied := kd_Applied d;
     kd_Code := kd_Code d; kd_Result := kd_Result d; kd_Duplicate := true |}.

Definition Reject (code : bytes) : gerror := ERejection code [].
Definition RejectWithResult (code : bytes) (result : option bytes) : gerror :=
  match result with
  | None => EError ErrorInvalidInput "reject" (EMsg "json")
  | Some encoded => ERejection code encoded
  end.

(** [DecodeResult]: [dst] is nil or says what [json.Unmarshal] accepts. *)
Definition DecodeResult (d : KeyedDecision) (dst : option (bytes → bool)) : res gerror bytes :=
  match dst with
  | None => Err (err_new ErrorInvalidInput "decode_result" "destination is required")
  | Some accepts =>
      fail_if bool_decide (kd_Result d = [])
        with err_new ErrorInvalidInput "decode_result" "decision has no result";
      fail_if negb (accepts (kd_Result d))
        with EError ErrorInvalidInput "decode_result" (EMsg "json");
      Ok (kd_Result d)
  end.

(** ** Transactions *)

Definition tx_valid (tx : KeyedTx) (op : string) : res gerror unit :=
  guard_err (invalid tx)
    (err_new ErrorInvalidInput (String.append "keyed_tx_" op) "transaction is no longer active").

(** The value a read sees: [Ok None] is [(false, nil)]. *)
Definition tx_get (st : kstate) (tx : KeyedTx) (key : bytes) (dst : option (bytes → bool))
    : res gerror (option bytes) :=
  let! _ := tx_valid tx "get" in
  match dst with
  | None => Err (err_new ErrorInvalidInput "keyed_tx_get" "key and destination are required")
  | Some accepts =>
      fail_if bool_decide (key = [])
        with err_new ErrorInvalidInput "keyed_tx_get" "key and destination are required";
      fail_if keyedMaxKeyBytes <? zlen key
        with err_new ErrorCapacity "keyed_tx_get" "key exceeds 4 KiB";
      match writes tx !! key with
      | Some None => Ok None
      | Some (Some value) =>
          fail_if negb (accepts value) with EError ErrorInvalidInput "keyed_tx_get" (EMsg "json");
          Ok (Some value)
      | None =>
          match records st !! key with
          | None => Ok None
          | Some value =>
              fail_if negb (accepts value) with EError ErrorCorruption "keyed_tx_get" (EMsg "json");
              Ok (Some value)
          end
      end
  end.

Definition tx_write (key : bytes) (value : option bytes) (tx : KeyedTx) : KeyedTx :=
  {| writes := <[key := value]> (writes tx); invalid := invalid tx |}.

Definition tx_put (o : KeyedOptions) (tx : KeyedTx) (key : bytes) (value : option bytes)
    : res gerror KeyedTx :=
  let! _ := tx_valid tx "put" in
  fail_if bool_decide (key = []) with err_new ErrorInvalidInput "keyed_tx_put" "key is required";
  fail_if keyedMaxKeyBytes <? zlen key with err_new ErrorCapacity "keyed_tx_put" "key exceeds 4 KiB";
  match value with
  | None => Err (EError ErrorInvalidInput "keyed_tx_put" (EMsg "json"))
  | Some encoded =>
      fail_if MaxValueBytes o <? zlen encoded
        with err_new ErrorCapacity "keyed_tx_put" "value exceeds MaxValueBytes";
      Ok (tx_write key (Some encoded) tx)
  end.

Definition tx_delete (tx : KeyedTx) (key : bytes) : res gerror KeyedTx :=
  let! _ := tx_valid tx "delete" in
  fail_if bool_decide (key = []) with err_new ErrorInvalidInput "keyed_tx_delete" "key is required";
  fail_if keyedMaxKeyBytes <? zlen key
    with err_new ErrorCapacity "keyed_tx_delete" "key exceeds 4 KiB";
  Ok (tx_write key None tx).

(** The loop of [finalize] over the sorted keys: the live-record count, the
    encoded bytes and the mutations so far. *)
Definition finalize_key (st : kstate) (tx : KeyedTx) (acc : Z * Z * list keyedMutation)
    (key : bytes) : Z * Z * list keyedMutation :=
  let '(count, total, ms) := acc in
  let existed := bool_decide (is_Some (records st !! key)) in
  match writes tx !! key with
  | Some (Some value) =>
      (if existed then count else count + 1, total + (zlen key + zlen value),
       ms ++ [{| km_Key := key; km_Value := value; km_Delete := false |}])
  | _ =>
      (if existed then count - 1 else count, total,
       ms ++ [{| km_Key := key; km_Value := []; km_Delete := true |}])
  end.

Definition finalize (o : KeyedOptions) (st : kstate) (tx : KeyedTx) : res gerror (list keyedMutation) :=
  let keys := sort_strings ((map_to_list (writes tx)).*1) in
  let '(count, total, ms) :=
    foldl (finalize_key st tx) (Z.of_nat (size (records st)), 0, []) keys in
  fail_if MaxRecords o <? count with err_new ErrorCapacity "submit_keyed" "record capacity exceeded";
  fail_if MaxTransactionBytes o <? total
    with err_new ErrorCapacity "submit_keyed" "transaction exceeds MaxTransactionBytes";
  Ok ms.

(** ** Callbacks *)

Inductive callback :=
| CbReturn (result : option bytes) (err : option gerror)
| CbPanic (value : bytes)
| CbGet (key : bytes) (dst : option (bytes → bool)) (k : res gerror (option bytes) → callback)
| CbPut (key : bytes) (value : option bytes) (k : option gerror → callback)
| CbDelete (key : bytes) (k : option gerror → callback).

Fixpoint run_callback (cb : callback) : KeyedMutation := fun o st tx =>
  match cb with
  | CbReturn r e => (CReturn r e, tx)
  | CbPanic v => (CPanic v, tx)
  | CbGet key dst k => run_callback (k (tx_get st tx key dst)) o st tx
  | CbPut key value k =>
      match tx_put o tx key value with
      | Ok tx' => run_callback (k None) o st tx'
      | Err e => run_callback (k (Some e)) o st tx
      end
  | CbDelete key k =>
      match tx_delete tx key with
      | Ok tx' => run_callback (k None) o st tx'
      | Err e => run_callback (k (Some e)) o st tx
      end
  end.

(** The deferred [tx.invalid = true] runs on every way out. *)
Definition runKeyedMutation (o : KeyedOptions) (st : kstate) (m : KeyedMutation) (tx : KeyedTx)
    : callback_outcome * KeyedTx :=
  let '(out, tx') := m o st tx in (out, {| writes := writes tx'; invalid := true |}).

(** ** Executing one command *)

(** The four results of [executeKeyed], or its panic. *)
Inductive exec_outcome :=
| ExPanic (value : bytes)
| ExError (err : gerror)
| ExDuplicate (d : KeyedDecision)
| ExPersist (record : keyedWALRecord).

Definition fresh_tx : KeyedTx := {| writes := ∅; invalid := false |}.

Definition record_result (o : KeyedOptions) (r : keyedWALRecord) : exec_outcome :=
  if MaxValueBytes o <? zlen (kr_Result r)
  then ExError (err_new ErrorCapacity "submit_keyed" "rejection result exceeds MaxValueBytes")
  else ExPersist r.

Definition executeKeyed (o : KeyedOptions) (st : kstate) (rq : keyedCommitRequest) : exec_outcome :=
  let id := rq_command rq in
  if blank id then ExError (err_new ErrorInvalidInput "submit_keyed" "command ID is required")
  else if keyedMaxIdentityBytes <? zlen id
  then ExError (err_new ErrorCapacity "submit_keyed" "command ID exceeds 4 KiB")
  else
  match rq_mutation rq with
  | None => ExError (err_new ErrorInvalidInput "submit_keyed" "mutation is required")
  | Some mutation =>
  match dedupe st !! id with
  | Some prior => ExDuplicate (as_duplicate (decision prior))
  | None =>
  let '(out, tx) := runKeyedMutation o st mutation fresh_tx in
  let seq := u64 (sequence st + 1) in
  match out with
  | CPanic v => ExPanic v
  | CReturn result mutationErr =>
  match mutationErr ≫= as_rejection, mutationErr with
  | Some (code, rejected), _ =>
      if blank code then ExError (err_new ErrorInvalidInput "submit_keyed" "rejection code is required")
      else if keyedMaxCodeBytes <? zlen code
      then ExError (err_new ErrorCapacity "submit_keyed" "rejection code exceeds 1 KiB")
      else record_result o
             {| kr_Sequence := seq; kr_CommandID := id; kr_Applied := false; kr_Code := code;
                kr_Result := rejected; kr_Mutations := [] |}
  | None, Some e => ExError e
  | None, None =>
      match result with
      | None => ExError (EError ErrorInvalidInput "submit_keyed" (EWrap "encode result" (EMsg "json")))
      | Some encoded =>
          if MaxValueBytes o <? zlen encoded
          then ExError (err_new ErrorCapacity "submit_keyed" "result exceeds MaxValueBytes")
          else match finalize o st tx with
               | Err e => ExError e
               | Ok ms =>
                   record_result o
                     {| kr_Sequence := seq; kr_CommandID := id; kr_Applied := true; kr_Code := [];
                        kr_Result := encoded; kr_Mutations := ms |}
               end
      end
  end
  end
  end
  end.

(** ** Applying a decision *)

Definition apply_mutation (rs : gmap bytes bytes) (m : keyedMutation) : gmap bytes bytes :=
  if km_Delete m then delete (km_Key m) rs else <[km_Key m := km_Value m]> rs.

Definition retained (r : keyedWALRecord) : keyedWALRecord :=
  {| kr_Sequence := kr_Sequence r; kr_CommandID := kr_CommandID r; kr_Applied := kr_Applied r;
     kr_Code := kr_Code r; kr_Result := kr_Result r; kr_Mutations := [] |}.

(** [applyKeyed] on the state; the [afterApply] hook is the caller's. *)
Definition applyKeyed (o : KeyedOptions) (st : kstate) (r : keyedWALRecord) : kstate :=
  let rs := if kr_Applied r then foldl apply_mutation (records st) (kr_Mutations r) else records st in
  let dd := <[kr_CommandID r := retained r]> (dedupe st) in
  let ids := dedupeIDs st ++ [kr_CommandID r] in
  if DedupeHorizon o <? zlen ids then
    match ids with
    | expired :: ids' =>
        {| records := rs; dedupe := delete expired dd; dedupeIDs := ids'; sequence := kr_Sequence r |}
    | [] => {| records := rs; dedupe := dd; dedupeIDs := ids; sequence := kr_Sequence r |}
    end
  else {| records := rs; dedupe := dd; dedupeIDs := ids; sequence := kr_Sequence r |}.

(** ** Invariant *)

(** What a stored record, a decision and a whole state satisfy, for the key
    limit [mk] of the format ([maxStoredKeyBytes]). *)
Definition record_bounds (o : KeyedOptions) (mk : Z) (k v : bytes) : Prop :=
  k ≠ [] ∧ zlen k ≤ mk ∧ zlen v ≤ MaxValueBytes o ∧ json_valid v = true.

Definition write_bounds (o : KeyedOptions) (mk : Z) (k : bytes) (v : option bytes) : Prop :=
  k ≠ [] ∧ zlen k ≤ mk ∧
  match v with Some v => zlen v ≤ MaxValueBytes o ∧ json_valid v = true | None => True end.

Definition writes_ok (o : KeyedOptions) (mk : Z) (tx : KeyedTx) : Prop :=
  map_Forall (write_bounds o mk) (writes tx).

(** What [json.Marshal] guarantees of the values a callback hands over. *)
Definition result_ok (out : callback_outcome) : Prop :=
  match out with
  | CPanic _ => True
  | CReturn r e =>
      (∀ v, r = Some v → v ≠ [] ∧ json_valid v = true) ∧
      (∀ c v, e ≫= as_rejection = Some (c, v) → v = [] ∨ json_valid v = true)
  end.

(** A mutation that keeps its writes within the bounds of the format. *)
Definition mutation_ok (o : KeyedOptions) (mk : Z) (m : KeyedMutation) : Prop :=
  ∀ st tx, writes_ok o mk tx →
    writes_ok o mk (m o st tx).2 ∧ result_ok (m o st tx).1.

Record decision_ok (o : KeyedOptions) (r : keyedWALRecord) : Prop := {
  dec_id : kr_CommandID r ≠ [];
  dec_id_len : zlen (kr_CommandID r) ≤ keyedMaxIdentityBytes;
  dec_code_len : zlen (kr_Code r) ≤ keyedMaxCodeBytes;
  dec_result_len : zlen (kr_Result r) ≤ MaxValueBytes o;
  dec_result_json : kr_Result r = [] ∨ json_valid (kr_Result r) = true }.

(** The retained decisions, oldest first: what a snapshot stores. *)
Definition zeroRecord : keyedWALRecord :=
  {| kr_Sequence := 0; kr_CommandID := []; kr_Applied := false; kr_Code := []; kr_Result := [];
     kr_Mutations := [] |}.
Definition decisions (st : kstate) : list keyedWALRecord :=
  map (fun id => default zeroRecord (dedupe st !! id)) (dedupeIDs st).

(** The index and the order of the retained decisions agree. *)
Record dedupe_wf (st : kstate) : Prop := {
  wf_nodup : NoDup (dedupeIDs st);
  wf_dom : ∀ id, id ∈ dedupeIDs st ↔ is_Some (dedupe st !! id);
  wf_id : ∀ id r, dedupe st !! id = Some r → kr_CommandID r = id }.

Record kinv (o : KeyedOptions) (mk : Z) (st : kstate) : Prop := {
  inv_count : Z.of_nat (size (records st)) ≤ MaxRecords o;
  inv_records : map_Forall (record_bounds o mk) (records st);
  inv_dedupe : dedupe_wf st;
  inv_horizon : zlen (dedupeIDs st) ≤ DedupeHorizon o;
  inv_decisions :
    Forall (λ r, kr_Mutations r = [] ∧ decision_ok o r ∧ 0 < kr_Sequence r) (decisions st);
  inv_order : StronglySorted Z.lt (map kr_Sequence (decisions st));
  inv_last : sequence st = default 0 (last (map kr_Sequence (decisions st)));
  inv_sequence : u64_range (sequence st) }.

(** What [executeKeyed] hands to the log. *)
Definition mutation_bounds (o : KeyedOptions) (mk : Z) (m : keyedMutation) : Prop :=
  km_Key m ≠ [] ∧ zlen (km_Key m) ≤ mk ∧
  if km_Delete m then km_Value m = []
  else zlen (km_Value m) ≤ MaxValueBytes o ∧ json_valid (km_Value m) = true.

(** ** [finalize] *)

Definition mutation_of (tx : KeyedTx) (key : bytes) : keyedMutation :=
  match writes tx !! key with
  | Some (Some value) => {| km_Key := key; km_Value := value; km_Delete := false |}
  | _ => {| km_Key := key; km_Value := []; km_Delete := true |}
  end.

(** The change of the live-record count that one key makes, and its bytes. *)
Definition count_delta (rs : gmap bytes bytes) (m : keyedMutation) : Z :=
  if km_Delete m then (if bool_decide (is_Some (rs !! km_Key m)) then -1 else 0)
  else (if bool_decide (is_Some (rs !! km_Key m)) then 0 else 1).
Definition put_bytes (m : keyedMutation) : Z :=
  if km_Delete m then 0 else zlen (km_Key m) + zlen (km_Value m).

Definition zsum (l : list Z) : Z := foldr Z.add 0 l.

Lemma finalize_key_eq st tx c t ms key :
  finalize_key st tx (c, t, ms) key
  = (c + count_delta (records st) (mutation_of tx key), t + put_bytes (mutation_of tx key),
     ms ++ [mutation_of tx key]).
Proof.
  unfold finalize_key, mutation_of, count_delta, put_bytes.
  destruct (writes tx !! key) as [[v|]|]; cbn; case_bool_decide; rewrite ?Z.add_0_r; done.
Qed.

Lemma finalize_fold st tx keys c t ms :
  foldl (finalize_key st tx) (c, t, ms) keys
  = (c + zsum (map (count_delta (records st)) (map (mutation_of tx) keys)),
     t + zsum (map put_bytes (map (mutation_of tx) keys)),
     ms ++ map (mutation_of tx) keys).
Proof.
  revert c t ms. induction keys as [|key keys IH]; intros c t ms; cbn [foldl map zsum foldr].
  { by rewrite !Z.add_0_r, app_nil_r. }
  rewrite finalize_key_eq, IH, <- app_assoc, !Z.add_assoc. done.
Qed.

Definition tx_keys (tx : KeyedTx) : list bytes := sort_strings ((map_to_list (writes tx)).*1).

Lemma tx_keys_elem tx k : k ∈ tx_keys tx ↔ is_Some (writes tx !! k).
Proof.
  unfold tx_keys. rewrite sort_strings_perm, list_elem_of_fmap. split.
  - intros ([k' v]&->&H). apply elem_of_map_to_list in H. eauto.
  - intros [v H]. exists (k, v). split; [done|]. by apply elem_of_map_to_list.
Qed.

Lemma tx_keys_ascending tx : ascending (tx_keys tx).
Proof. apply sort_strings_ascending, NoDup_fst_map_to_list. Qed.

Lemma tx_keys_nodup tx : NoDup (tx_keys tx).
Proof. apply ascending_nodup, tx_keys_ascending. Qed.

Lemma finalize_unfold o st tx :
  finalize o st tx =
  let ms := map (mutation_of tx) (tx_keys tx) in
  if MaxRecords o <? Z.of_nat (size (records st)) + zsum (map (count_delta (records st)) ms)
  then Err (err_new ErrorCapacity "submit_keyed" "record capacity exceeded")
  else if MaxTransactionBytes o <? zsum (map put_bytes ms)
  then Err (err_new ErrorCapacity "submit_keyed" "transaction exceeds MaxTransactionBytes")
  else Ok ms.
Proof.
  unfold finalize. fold (tx_keys tx). rewrite finalize_fold. cbn zeta. cbn [app].
  rewrite Z.add_0_l. unfold guard_err, res_bind.
  destruct (MaxRecords o <? _); [done|]. by destruct (MaxTransactionBytes o <? _).
Qed.

(** ** Applying a list of mutations *)

Lemma apply_mutation_lookup rs m k :
  apply_mutation rs m !! k =
  if decide (km_Key m = k) then (if km_Delete m then None else Some (km_Value m)) else rs !! k.
Proof.
  unfold apply_mutation. destruct (km_Delete m), (decide (km_Key m = k)) as [<-|Hn];
    rewrite ?lookup_delete_eq, ?lookup_insert_eq, ?lookup_delete_ne, ?lookup_insert_ne by done; done.
Qed.

Lemma apply_mutation_size rs m :
  Z.of_nat (size (apply_mutation rs m)) = Z.of_nat (size rs) + count_delta rs m.
Proof.
  unfold apply_mutation, count_delta. destruct (km_Delete m); case_bool_decide as H.
  - rewrite map_size_delete. destruct H as [v Hv]. rewrite Hv.
    assert (size rs ≠ 0%nat) by (intros E; apply map_size_empty_inv in E; by subst). lia.
  - apply eq_None_not_Some in H. rewrite delete_id by done. lia.
  - rewrite map_size_insert_Some by done. lia.
  - apply eq_None_not_Some in H. rewrite map_size_insert_None by done. lia.
Qed.

Lemma foldl_mutations_other ms rs k :
  k ∉ map km_Key ms → foldl apply_mutation rs ms !! k = rs !! k.
Proof.
  revert rs. induction ms as [|m ms IH]; intros rs Hk; [done|]. cbn [foldl map] in *.
  apply not_elem_of_cons in Hk as [H1 H2]. rewrite IH by done. rewrite apply_mutation_lookup.
  by rewrite decide_False by done.
Qed.

Lemma foldl_mutations_size ms rs :
  NoDup (map km_Key ms) →
  Z.of_nat (size (foldl apply_mutation rs ms)) = Z.of_nat (size rs) + zsum (map (count_delta rs) ms).
Proof.
  revert rs. induction ms as [|m ms IH]; intros rs Hnd; cbn [foldl map zsum foldr] in *; [lia|].
  inversion Hnd as [|? ? Hk Hnd']; subst. rewrite IH by done. rewrite apply_mutation_size.
  assert (map (count_delta (apply_mutation rs m)) ms = map (count_delta rs) ms) as ->; [|unfold zsum; lia].
  apply map_ext_in. intros m' Hin. unfold count_delta.
  rewrite apply_mutation_lookup, decide_False; [done|].
  intros E. apply Hk. rewrite E. apply list_elem_of_In, in_map, Hin.
Qed.

Lemma mutation_of_key tx k : km_Key (mutation_of tx k) = k.
Proof. unfold mutation_of. by repeat case_match. Qed.

Lemma map_mutation_keys tx keys : map km_Key (map (mutation_of tx) keys) = keys.
Proof. rewrite map_map. rewrite (map_ext _ id); [apply map_id|]. intros. apply mutation_of_key. Qed.

(** The records after a commit: the writes over the old records. *)
Definition overlay (ws : gmap bytes (option bytes)) (rs : gmap bytes bytes) (k : bytes) : option bytes :=
  match ws !! k with Some v => v | None => rs !! k end.

Lemma foldl_mutations_keys tx keys rs k :
  NoDup keys → k ∈ keys →
  foldl apply_mutation rs (map (mutation_of tx) keys) !! k = overlay (writes tx) ∅ k.
Proof.
  revert rs. induction keys as [|key keys IH]; intros rs Hnd Hk; [by apply not_elem_of_nil in Hk|].
  inversion Hnd as [|? ? Hx Hnd']; subst. cbn [foldl map].
  destruct (decide (k ∈ keys)) as [Hin|Hnin]; [by apply IH|].
  apply elem_of_cons in Hk as [->|]; [|done].
  rewrite foldl_mutations_other by (by rewrite map_mutation_keys).
  rewrite apply_mutation_lookup, mutation_of_key, decide_True by done.
  unfold mutation_of, overlay. by destruct (writes tx !! key) as [[v|]|].
Qed.

Lemma foldl_mutations_overlay tx rs k :
  foldl apply_mutation rs (map (mutation_of tx) (tx_keys tx)) !! k = overlay (writes tx) rs k.
Proof.
  destruct (decide (k ∈ tx_keys tx)) as [Hin|Hnin].
  - rewrite foldl_mutations_keys by (done || apply tx_keys_nodup).
    apply tx_keys_elem in Hin as [v Hv]. unfold overlay. by rewrite Hv.
  - rewrite foldl_mutations_other by (by rewrite map_mutation_keys).
    rewrite tx_keys_elem in Hnin. apply eq_None_not_Some in Hnin. unfold overlay. by rewrite Hnin.
Qed.

(** What [executeKeyed] hands to the log, relative to the state it ran in. *)
Record fresh_record (o : KeyedOptions) (mk : Z) (st : kstate) (r : keyedWALRecord) : Prop := {
  fr_seq : kr_Sequence r = u64 (sequence st + 1);
  fr_new : dedupe st !! kr_CommandID r = None;
  fr_decision : decision_ok o r;
  fr_rejected : kr_Applied r = false → kr_Mutations r = [];
  fr_keys : ascending (map km_Key (kr_Mutations r));
  fr_bounds : Forall (mutation_bounds o mk) (kr_Mutations r);
  fr_count : kr_Applied r = true →
    Z.of_nat (size (foldl apply_mutation (records st) (kr_Mutations r))) ≤ MaxRecords o;
  fr_bytes : zsum (map put_bytes (kr_Mutations r)) ≤ MaxTransactionBytes o }.

Lemma blank_nil : blank [] = true.
Proof. done. Qed.

Lemma run_writes_ok o mk st m :
  mutation_ok o mk m → writes_ok o mk (runKeyedMutation o st m fresh_tx).2
  ∧ result_ok (runKeyedMutation o st m fresh_tx).1.
Proof.
  intros Hm. unfold runKeyedMutation. destruct (m o st fresh_tx) as [out tx] eqn:E.
  destruct (Hm st fresh_tx) as [H1 H2]; [apply map_Forall_empty|]. rewrite E in *. done.
Qed.

Lemma mutation_of_bounds o mk tx :
  writes_ok o mk tx → Forall (mutation_bounds o mk) (map (mutation_of tx) (tx_keys tx)).
Proof.
  intros Hw. apply Forall_map, Forall_forall. intros k Hk. apply tx_keys_elem in Hk as [v Hv].
  pose proof (Hw _ _ Hv) as (H1&H2&H3). unfold mutation_bounds. simpl. rewrite mutation_of_key.
  split; [done|]. split; [done|]. unfold mutation_of. rewrite Hv. by destruct v.
Qed.

Lemma record_result_persist o r r' :
  record_result o r = ExPersist r' → r' = r ∧ zlen (kr_Result r) ≤ MaxValueBytes o.
Proof. unfold record_result. case_match; intros; simplify_eq. bool_to_prop. done. Qed.

Lemma executeKeyed_fresh o mk st rq m r :
  0 ≤ MaxTransactionBytes o → rq_mutation rq = Some m → mutation_ok o mk m →
  executeKeyed o st rq = ExPersist r → fresh_record o mk st r.
Proof.
  intros Hmt Hm Hok. unfold executeKeyed. rewrite Hm.
  destruct (blank (rq_command rq)) eqn:Hb; [done|].
  destruct (keyedMaxIdentityBytes <? zlen (rq_command rq)) eqn:Hl; [done|].
  destruct (dedupe st !! rq_command rq) eqn:Hd; [done|].
  destruct (run_writes_ok o mk st m Hok) as [Hw Hr].
  destruct (runKeyedMutation o st m fresh_tx) as [[result err|v] tx] eqn:E; [|done]. cbn in Hw, Hr.
  assert (rq_command rq ≠ []) by (intros Eid; rewrite Eid, blank_nil in Hb; done).
  destruct Hr as [Hr1 Hr2]. bool_to_prop.
  destruct (err ≫= as_rejection) as [[code rej]|] eqn:Hrej.
  - destruct (blank code); [done|]. destruct (keyedMaxCodeBytes <? zlen code) eqn:Hc; [done|].
    intros [-> Hlen]%record_result_persist. bool_to_prop.
    split; try done; try (by constructor); try (simpl; lia).
    split; try done. simpl. by apply (Hr2 code).
  - destruct err as [e|]; [done|]. destruct result as [enc|]; [|done].
    destruct (MaxValueBytes o <? zlen enc) eqn:Hv; [done|]. rewrite finalize_unfold.
    cbn zeta. destruct (MaxRecords o <? _) eqn:Hc; [done|].
    destruct (MaxTransactionBytes o <? _) eqn:Ht; [done|].
    intros [-> Hlen]%record_result_persist. bool_to_prop. cbn in *.
    split; cbn; try done.
    + split; try done; simpl; try (unfold keyedMaxCodeBytes, zlen; simpl; lia).
      right. by apply (Hr1 enc).
    + rewrite map_mutation_keys. apply tx_keys_ascending.
    + by apply mutation_of_bounds.
    + intros _. rewrite foldl_mutations_size; [done|]. rewrite map_mutation_keys. apply tx_keys_nodup.
Qed.

(** ** [applyKeyed] keeps the last [DedupeHorizon] decisions *)

(** The last [h] elements. *)
Definition window {A} (h : Z) (l : list A) : list A := drop (length l - Z.to_nat h) l.

Lemma decisions_ids st : dedupe_wf st → map kr_CommandID (decisions st) = dedupeIDs st.
Proof.
  intros H. unfold decisions. rewrite map_map. rewrite <- (map_id (dedupeIDs st)) at 2.
  apply map_ext_in. intros id Hin. apply list_elem_of_In, (wf_dom st H) in Hin as [r Hr].
  rewrite Hr. simpl. by apply (wf_id st H).
Qed.

Lemma decisions_length st : length (decisions st) = length (dedupeIDs st).
Proof. apply length_map. Qed.

Lemma dedupe_lookup_decision st r :
  dedupe_wf st → dedupe st !! kr_CommandID r = Some r ↔ r ∈ decisions st.
Proof.
  intros H. unfold decisions. rewrite list_elem_of_In, in_map_iff. split.
  - intros Hr. exists (kr_CommandID r). rewrite Hr. split; [done|]. apply list_elem_of_In, (wf_dom st H). eauto.
  - intros (id&E&Hin). apply list_elem_of_In, (wf_dom st H) in Hin as [r' Hr'].
    rewrite Hr' in E. simpl in E. subst r'. by rewrite (wf_id st H _ _ Hr').
Qed.

(** Remembering a new decision, and forgetting the oldest one. *)
Lemma remember_wf st r st' :
  dedupe_wf st → dedupe st !! kr_CommandID r = None →
  dedupe st' = <[kr_CommandID r := retained r]> (dedupe st) →
  dedupeIDs st' = dedupeIDs st ++ [kr_CommandID r] →
  dedupe_wf st' ∧ decisions st' = decisions st ++ [retained r].
Proof.
  intros Hwf Hnew Hd Hi. set (id := kr_CommandID r) in *.
  assert (id ∉ dedupeIDs st) as Hnin.
  { rewrite (wf_dom st Hwf), Hnew. by intros [? ?]. }
  split; [split|]; rewrite ?Hd, ?Hi.
  - apply NoDup_app. split; [apply (wf_nodup st Hwf)|]. split; [|apply NoDup_singleton].
    intros x Hx ->%list_elem_of_singleton. done.
  - intros i. rewrite elem_of_app, list_elem_of_singleton, (wf_dom st Hwf), lookup_insert.
    case_decide; naive_solver.
  - intros i r'. rewrite lookup_insert. case_decide; [by intros [= <-]|apply (wf_id st Hwf)].
  - unfold decisions. rewrite Hd, Hi, map_app. cbn [map]. rewrite lookup_insert_eq. f_equal.
    apply map_ext_in. intros i Hin%list_elem_of_In. rewrite lookup_insert_ne; [done|].
    intros E. apply Hnin. by rewrite E.
Qed.

Lemma forget_wf st x ids st' :
  dedupe_wf st → dedupeIDs st = x :: ids → dedupe st' = delete x (dedupe st) → dedupeIDs st' = ids →
  dedupe_wf st' ∧ decisions st' = tail (decisions st).
Proof.
  intros Hwf E Hd Hi. pose proof (wf_nodup st Hwf) as Hnd. rewrite E in Hnd.
  apply NoDup_cons in Hnd as [Hx Hnd]. pose proof (wf_dom st Hwf) as Hdom. rewrite E in Hdom.
  split; [split|]; rewrite ?Hi, ?Hd; [done|..].
  - intros i. rewrite lookup_delete. case_decide as Hix.
    + subst. split; [done|]. by intros [? ?].
    + rewrite <- Hdom, elem_of_cons. naive_solver.
  - intros i r' [_ Hl]%lookup_delete_Some. by apply (wf_id st Hwf).
  - unfold decisions. rewrite Hd, Hi, E. cbn [map tail]. apply map_ext_in.
    intros i Hin%list_elem_of_In. rewrite lookup_delete_ne; [done|]. by intros ->.
Qed.

Lemma applyKeyed_cases o st r :
  dedupe_wf st → dedupe st !! kr_CommandID r = None → 0 < DedupeHorizon o →
  zlen (dedupeIDs st) ≤ DedupeHorizon o →
  dedupe_wf (applyKeyed o st r)
  ∧ decisions (applyKeyed o st r) = window (DedupeHorizon o) (decisions st ++ [retained r])
  ∧ zlen (dedupeIDs (applyKeyed o st r)) ≤ DedupeHorizon o.
Proof.
  intros Hwf Hnew Hh Hlen.
  set (st1 := {| records := ∅; dedupe := <[kr_CommandID r := retained r]> (dedupe st);
                 dedupeIDs := dedupeIDs st ++ [kr_CommandID r]; sequence := 0 |}).
  destruct (remember_wf st r st1 Hwf Hnew eq_refl eq_refl) as [Hwf1 Hdec1].
  assert (length (decisions st ++ [retained r]) = S (length (dedupeIDs st))) as Hl.
  { rewrite length_app, decisions_length. simpl. lia. }
  unfold applyKeyed, window, zlen in *. rewrite Hl, length_app. simpl length.
  destruct (Z.ltb_spec (DedupeHorizon o) (Z.of_nat (length (dedupeIDs st) + 1))) as [Hlt|Hge].
  - replace (S (length (dedupeIDs st)) - Z.to_nat (DedupeHorizon o))%nat with 1%nat by lia.
    destruct (dedupeIDs st ++ [kr_CommandID r]) as [|x ids] eqn:E.
    { by apply app_nil in E as [_ ?]. }
    match goal with |- dedupe_wf ?st' ∧ _ => destruct (forget_wf st1 x ids st' Hwf1) as [? ->] end;
      [done..|]. rewrite Hdec1. split; [done|]. split; [by destruct (decisions st)|]. cbn.
    apply (f_equal length) in E. rewrite length_app in E. simpl in E. lia.
  - replace (S (length (dedupeIDs st)) - Z.to_nat (DedupeHorizon o))%nat with 0%nat by lia.
    rewrite drop_0, <- Hdec1. split; [|split]; [|done|cbn; rewrite length_app; simpl; lia].
    by destruct Hwf1.
Qed.

Lemma applyKeyed_sequence o st r : sequence (applyKeyed o st r) = kr_Sequence r.
Proof. unfold applyKeyed. case_match; [|done]. by destruct (_ ++ [_]). Qed.

Lemma applyKeyed_records o st r :
  records (applyKeyed o st r)
  = if kr_Applied r then foldl apply_mutation (records st) (kr_Mutations r) else records st.
Proof. unfold applyKeyed. case_match; [|done]. by destruct (dedupeIDs st ++ [_]). Qed.

Lemma apply_mutations_records o mk ms rs :
  map_Forall (record_bounds o mk) rs → Forall (mutation_bounds o mk) ms →
  map_Forall (record_bounds o mk) (foldl apply_mutation rs ms).
Proof.
  intros Hrs Hms. revert rs Hrs. induction Hms as [|m ms (H1&H2&H3) Hms IH]; intros rs Hrs; [done|].
  cbn [foldl]. apply IH. intros k v. rewrite apply_mutation_lookup.
  case_decide as E; [|apply Hrs]. subst. destruct (km_Delete m); [done|].
  intros [= <-]. destruct H3. done.
Qed.

Lemma applyKeyed_inv o mk st r :
  0 < DedupeHorizon o → sequence st + 1 < 2 ^ 64 →
  kinv o mk st → fresh_record o mk st r → kinv o mk (applyKeyed o st r).
Proof.
  intros Hh Hseq Hinv Hr. destruct Hinv as [I1 I2 I3 I4 I5 I6 I7 I8], Hr as [F1 F2 F3 F4 F5 F6 F7 F8].
  destruct (applyKeyed_cases o st r I3 F2 Hh I4) as (Hwf&Hdec&Hlen).
  rewrite u64_id in F1 by (unfold u64_range in *; lia).
  assert (length (decisions st ++ [retained r]) - Z.to_nat (DedupeHorizon o) ≤ length (decisions st))%nat.
  { rewrite length_app. simpl. lia. }
  split; try done; rewrite ?applyKeyed_sequence, ?applyKeyed_records, ?Hdec.
  - destruct (kr_Applied r); auto.
  - destruct (kr_Applied r); [|done]. by apply apply_mutations_records.
  - apply Forall_drop, Forall_app. split; [done|]. constructor; [|constructor].
    split; [done|]. split; [by destruct F3|]. simpl. unfold u64_range in I8. lia.
  - unfold window. rewrite <- skipn_map, map_app. apply sorted_drop, sorted_snoc; [done|].
    apply Forall_forall. intros x Hx%sorted_le_last; [|done]. simpl. rewrite <- I7 in Hx. lia.
  - unfold window. rewrite <- skipn_map, map_app. cbn [map]. rewrite last_drop_snoc; [done|].
    by rewrite length_map.
  - rewrite F1. unfold u64_range in *. lia.
Qed.
