(* ===== verification/KeyedStorage.v ===== *)
(** * Keyed storage ([keyed_storage.go])

    The on-disk forms of the keyed database and the code that writes and reads
    them: the FORMAT marker, the write-ahead log of framed JSON decisions, the
    checksummed snapshot, and recovery.  [windows] stands for
    [runtime.GOOS == "windows"]. *)

From Stdlib Require Import ZArith Lia Strings.Byte Strings.String Sorted.
From stdpp Require Import base decidable countable list gmap.
From S2P Require Import Prelude GoText GoBinary GoJson Errors GoOS Keyed.

Local Open Scope Z_scope.
Local Open Scope go_scope.

(** ** JSON forms *)

Definition opt_member (present : bool) (name : string) (j : json) : list (bytes * json) :=
  if present then [(bs name, j)] else [].
Arguments opt_member _ _%_string _.

Definition mutation_json (m : keyedMutation) : json :=
  JObj ((bs "key", JStr (km_Key m))
    :: opt_member (negb (bool_decide (km_Value m = []))) "value" (JStr (b64_encode (km_Value m)))
    ++ opt_member (km_Delete m) "delete" (JBool true)).

Definition mutation_member (m : keyedMutation) (kj : bytes * json) : option keyedMutation :=
  let '(k, j) := kj in
  if is_field "key" k then
    v ← into_str (km_Key m) j;
    Some {| km_Key := v; km_Value := km_Value m; km_Delete := km_Delete m |}
  else if is_field "value" k then
    v ← into_bytes j; Some {| km_Key := km_Key m; km_Value := v; km_Delete := km_Delete m |}
  else if is_field "delete" k then
    v ← into_bool (km_Delete m) j;
    Some {| km_Key := km_Key m; km_Value := km_Value m; km_Delete := v |}
  else Some m.

Definition json_mutation (j : json) : option keyedMutation :=
  into_struct mutation_member {| km_Key := []; km_Value := []; km_Delete := false |} j.

Definition record_json (r : keyedWALRecord) : json :=
  JObj ((bs "sequence", JNum (dec (kr_Sequence r)))
    :: (bs "command_id", JStr (kr_CommandID r))
    :: (bs "applied", JBool (kr_Applied r))
    :: opt_member (negb (bool_decide (kr_Code r = []))) "code" (JStr (kr_Code r))
    ++ opt_member (negb (bool_decide (kr_Result r = []))) "result" (JStr (b64_encode (kr_Result r)))
    ++ opt_member (negb (bool_decide (kr_Mutations r = []))) "mutations"
         (JArr (map mutation_json (kr_Mutations r)))).

Definition record_member (r : keyedWALRecord) (kj : bytes * json) : option keyedWALRecord :=
  let '(k, j) := kj in
  let upd s i a c d m :=
    {| kr_Sequence := s; kr_CommandID := i; kr_Applied := a; kr_Code := c; kr_Result := d;
       kr_Mutations := m |} in
  let '(s, i, a, c, d, m) :=
    (kr_Sequence r, kr_CommandID r, kr_Applied r, kr_Code r, kr_Result r, kr_Mutations r) in
  if is_field "sequence" k then v ← into_u64 s j; Some (upd v i a c d m)
  else if is_field "command_id" k then v ← into_str i j; Some (upd s v a c d m)
  else if is_field "applied" k then v ← into_bool a j; Some (upd s i v c d m)
  else if is_field "code" k then v ← into_str c j; Some (upd s i a v d m)
  else if is_field "result" k then v ← into_bytes j; Some (upd s i a c v m)
  else if is_field "mutations" k then v ← into_list json_mutation j; Some (upd s i a c d v)
  else Some r.

Definition json_record (j : json) : option keyedWALRecord := into_struct record_member zeroRecord j.

Record keyedSnapshot := {
  ks_Sequence : Z;
  ks_Records : gmap bytes bytes;
  ks_Dedupe : list keyedWALRecord }.

(** A map encodes its members in the order of their keys; a nil slice is
    [null]. *)
Definition sorted_members {A} (f : A → json) (m : gmap bytes A) : list (bytes * json) :=
  omap (fun k => v ← m !! k; Some (k, f v)) (sort_strings ((map_to_list m).*1)).
Definition bytes_json (v : bytes) : json :=
  if bool_decide (v = []) then JNull else JStr (b64_encode v).

Definition snapshot_json (s : keyedSnapshot) : json :=
  JObj [(bs "sequence", JNum (dec (ks_Sequence s)));
        (bs "records", JObj (sorted_members bytes_json (ks_Records s)));
        (bs "dedupe", JArr (map record_json (ks_Dedupe s)))].

Definition into_map {A} (f : json → option A) (old : gmap bytes A) (j : json) : option (gmap bytes A) :=
  match j with
  | JNull => Some ∅
  | JObj l => fold_members (fun m kj => v ← f kj.2; Some (<[kj.1 := v]> m)) old l
  | _ => None
  end.

Definition snapshot_member (s : keyedSnapshot) (kj : bytes * json) : option keyedSnapshot :=
  let '(k, j) := kj in
  if is_field "sequence" k then
    v ← into_u64 (ks_Sequence s) j;
    Some {| ks_Sequence := v; ks_Records := ks_Records s; ks_Dedupe := ks_Dedupe s |}
  else if is_field "records" k then
    v ← into_map into_bytes (ks_Records s) j;
    Some {| ks_Sequence := ks_Sequence s; ks_Records := v; ks_Dedupe := ks_Dedupe s |}
  else if is_field "dedupe" k then
    v ← into_list json_record j;
    Some {| ks_Sequence := ks_Sequence s; ks_Records := ks_Records s; ks_Dedupe := v |}
  else Some s.

Definition json_snapshot (j : json) : option keyedSnapshot :=
  into_struct snapshot_member {| ks_Sequence := 0; ks_Records := ∅; ks_Dedupe := [] |} j.

(** ** The database handle *)

Record keyedCommitStats := {
  syncCalls : Z; framesSynced : Z; groups : Z; maxGroup : Z; groupSizes : gmap Z Z }.

(** [db_hook] is the state the [afterApply] hook updates: the catalog's query
    keys, or nothing.  [beforeAppend] and [beforeSync] are the injection points
    the code has for tests. *)
Record KeyedDB (H : Type) := {
  db_options : KeyedOptions;
  db_format : bytes;
  db_state : kstate;
  db_wal : option nat;
  db_closed : bool;
  db_poisoned : bool;
  db_hook : H;
  db_afterApply : option (keyedWALRecord → H → H);
  db_beforeAppend : option (keyedWALRecord → option gerror);
  db_beforeSync : option (option gerror);
  db_queue : list keyedCommitRequest;
  db_disabled : bool;
  db_stats : keyedCommitStats }.
Arguments db_options {H}. Arguments db_format {H}. Arguments db_state {H}. Arguments db_wal {H}.
Arguments db_closed {H}. Arguments db_poisoned {H}. Arguments db_hook {H}.
Arguments db_afterApply {H}. Arguments db_beforeAppend {H}. Arguments db_beforeSync {H}.
Arguments db_queue {H}. Arguments db_disabled {H}. Arguments db_stats {H}.
Arguments Build_KeyedDB {H}.

Definition zero_stats : keyedCommitStats :=
  {| syncCalls := 0; framesSynced := 0; groups := 0; maxGroup := 0; groupSizes := ∅ |}.

Definition set_state {H} (s : kstate) (db : KeyedDB H) : KeyedDB H :=
  Build_KeyedDB (db_options db) (db_format db) s (db_wal db) (db_closed db) (db_poisoned db)
    (db_hook db) (db_afterApply db) (db_beforeAppend db) (db_beforeSync db) (db_queue db)
    (db_disabled db) (db_stats db).
Definition set_wal {H} (f : option nat) (db : KeyedDB H) : KeyedDB H :=
  Build_KeyedDB (db_options db) (db_format db) (db_state db) f (db_closed db) (db_poisoned db)
    (db_hook db) (db_afterApply db) (db_beforeAppend db) (db_beforeSync db) (db_queue db)
    (db_disabled db) (db_stats db).
Definition set_closed {H} (db : KeyedDB H) : KeyedDB H :=
  Build_KeyedDB (db_options db) (db_format db) (db_state db) (db_wal db) true (db_poisoned db)
    (db_hook db) (db_afterApply db) (db_beforeAppend db) (db_beforeSync db) (db_queue db)
    (db_disabled db) (db_stats db).
Definition set_poisoned {H} (db : KeyedDB H) : KeyedDB H :=
  Build_KeyedDB (db_options db) (db_format db) (db_state db) (db_wal db) (db_closed db) true
    (db_hook db) (db_afterApply db) (db_beforeAppend db) (db_beforeSync db) (db_queue db)
    (db_disabled db) (db_stats db).
Definition set_hook {H} (h : H) (db : KeyedDB H) : KeyedDB H :=
  Build_KeyedDB (db_options db) (db_format db) (db_state db) (db_wal db) (db_closed db)
    (db_poisoned db) h (db_afterApply db) (db_beforeAppend db) (db_beforeSync db) (db_queue db)
    (db_disabled db) (db_stats db).
Definition set_queue {H} (q : list keyedCommitRequest) (db : KeyedDB H) : KeyedDB H :=
  Build_KeyedDB (db_options db) (db_format db) (db_state db) (db_wal db) (db_closed db)
    (db_poisoned db) (db_hook db) (db_afterApply db) (db_beforeAppend db) (db_beforeSync db) q
    (db_disabled db) (db_stats db).
Definition set_stats {H} (s : keyedCommitStats) (db : KeyedDB H) : KeyedDB H :=
  Build_KeyedDB (db_options db) (db_format db) (db_state db) (db_wal db) (db_closed db)
    (db_poisoned db) (db_hook db) (db_afterApply db) (db_beforeAppend db) (db_beforeSync db)
    (db_queue db) (db_disabled db) s.

Definition maxStoredKeyBytes (format : bytes) : Z :=
  if bool_decide (format = catalogKeyedFormatContents) then keyedMaxKeyBytes + 9 else keyedMaxKeyBytes.

(** [applyKeyed] on the handle: the state, then the hook. *)
Definition db_apply {H} (db : KeyedDB H) (r : keyedWALRecord) : KeyedDB H :=
  let db' := set_state (applyKeyed (db_options db) (db_state db) r) db in
  match db_afterApply db with
  | Some f => set_hook (f r (db_hook db)) db'
  | None => db'
  end.

(** ** Validation of recovered decisions *)

Definition corrupt (message : string) : gerror := err_new ErrorCorruption "open_keyed" message.
Definition capacity (message : string) : gerror := err_new ErrorCapacity "open_keyed" message.
Arguments corrupt _%_string.
Arguments capacity _%_string.

(** One turn of the loop over the mutations: the bytes and the keys so far. *)
Definition validate_mutation (o : KeyedOptions) (mk : Z) (acc : Z * gset bytes) (m : keyedMutation)
    : res gerror (Z * gset bytes) :=
  let '(total, seen) := acc in
  fail_if bool_decide (km_Key m = []) with corrupt "WAL mutation key is empty";
  fail_if mk <? zlen (km_Key m) with corrupt "WAL key exceeds fixed bound";
  fail_if bool_decide (km_Key m ∈ seen) with corrupt "WAL contains duplicate mutation key";
  fail_if km_Delete m && negb (bool_decide (km_Value m = [])) with corrupt "WAL delete contains a value";
  fail_if MaxValueBytes o <? zlen (km_Value m) with capacity "WAL value exceeds configured bound";
  fail_if negb (km_Delete m) && negb (json_valid (km_Value m)) with corrupt "WAL value is not valid JSON";
  Ok (total + (zlen (km_Key m) + zlen (km_Value m)), {[km_Key m]} ∪ seen).

Definition validateKeyedRecord (o : KeyedOptions) (mk : Z) (r : keyedWALRecord) : res gerror unit :=
  fail_if bool_decide (kr_CommandID r = []) with corrupt "WAL command ID is empty";
  fail_if keyedMaxIdentityBytes <? zlen (kr_CommandID r)
    with corrupt "WAL command ID exceeds fixed bound";
  fail_if keyedMaxCodeBytes <? zlen (kr_Code r) with corrupt "WAL rejection code exceeds fixed bound";
  fail_if MaxValueBytes o <? zlen (kr_Result r) with capacity "WAL result exceeds configured value bound";
  fail_if (0 <? zlen (kr_Result r)) && negb (json_valid (kr_Result r))
    with corrupt "WAL result is not valid JSON";
  fail_if negb (kr_Applied r) && negb (bool_decide (kr_Mutations r = []))
    with corrupt "rejected WAL decision contains mutations";
  let! acc := res_fold (validate_mutation o mk) (0, ∅) (kr_Mutations r) in
  fail_if MaxTransactionBytes o <? acc.1 with capacity "WAL transaction exceeds configured bound";
  Ok tt.

Definition count_step (rs : gmap bytes bytes) (count : Z) (m : keyedMutation) : Z :=
  let exists_ := bool_decide (is_Some (rs !! km_Key m)) in
  let count := if km_Delete m && exists_ then count - 1 else count in
  if negb (km_Delete m) && negb exists_ then count + 1 else count.

Definition validateKeyedApply (o : KeyedOptions) (st : kstate) (r : keyedWALRecord) : res gerror unit :=
  if negb (kr_Applied r) then Ok tt
  else
    let count := foldl (count_step (records st)) (Z.of_nat (size (records st))) (kr_Mutations r) in
    guard_err (MaxRecords o <? count) (capacity "WAL exceeds configured record capacity").

(** ** The log *)

Definition wal_name : bytes := bs "wal".

(** One frame: length, payload, checksum. *)
Definition frame_of (payload : bytes) : bytes :=
  put_u32 (u32 (zlen payload)) ++ payload ++ put_u32 (crc32 payload).

Definition appendKeyedFrame {H} (db : KeyedDB H) (r : keyedWALRecord) : io unit :=
  match db_beforeAppend db ≫= (fun f => f r) with
  | Some e => io_err (EError ErrorStorage "submit_keyed" e)
  | None =>
      let payload := print (record_json r) in
      if maxKeyedFrameBytes <? zlen payload
      then io_err (err_new ErrorCapacity "submit_keyed" "encoded command frame is too large")
      else match db_wal db with
           | None => io_err (EError ErrorStorage "submit_keyed" (EOS "closed"))
           | Some i =>
               io_wrap ErrorStorage "submit_keyed" (fun w =>
                 let '(n, w') := write_file i (w_pos w) (frame_of payload) w in
                 match n with
                 | Ok (n, err) =>
                     let w'' := with_pos (w_pos w + n)%nat w' in
                     match err with
                     | Some e => (Err e, w'')
                     | None => if bool_decide (n = length (frame_of payload)) then (Ok tt, w'')
                               else (Err (EMsg "short write"), w'')
                     end
                 | Err e => (Err e, w')
                 end)
           end
  end.

Definition syncKeyed {H} (db : KeyedDB H) : io unit :=
  match mjoin (db_beforeSync db) with
  | Some e => io_err (EError ErrorStorage "submit_keyed" e)
  | None =>
      match db_wal db with
      | None => io_err (EError ErrorStorage "submit_keyed" (EOS "closed"))
      | Some i => io_wrap ErrorStorage "submit_keyed" (sync_file i)
      end
  end.

Definition appendKeyed {H} (db : KeyedDB H) (r : keyedWALRecord) : io unit :=
  _ ← appendKeyedFrame db r; syncKeyed db.

(** What replaying one decoded record does after it passed the checksum. *)
Definition replay_record (o : KeyedOptions) (mk : Z) (st : kstate) (lastSequence : Z)
    (r : keyedWALRecord) : res gerror kstate :=
  fail_if (kr_Sequence r =? 0)
          || negb (lastSequence =? 0) && negb (kr_Sequence r =? u64 (lastSequence + 1))
    with corrupt "WAL sequence is not contiguous";
  let! _ := validateKeyedRecord o mk r in
  if sequence st <? kr_Sequence r then
    fail_if negb (kr_Sequence r =? u64 (sequence st + 1))
      with corrupt "WAL does not continue snapshot sequence";
    fail_if bool_decide (is_Some (dedupe st !! kr_CommandID r))
      with corrupt "WAL repeats a retained command ID";
    let! _ := validateKeyedApply o st r in
    Ok (applyKeyed o st r)
  else Ok st.

(** The read loop over the bytes of the log.  The result carries the offset to
    truncate to when the log ends inside a frame.  Every frame takes at least
    nine bytes, so more fuel than bytes is enough. *)
Fixpoint replay_loop (fuel : nat) (o : KeyedOptions) (mk : Z) (st : kstate) (lastSequence : Z)
    (offset : nat) (s : bytes) : res gerror (kstate * option nat) :=
  match fuel with
  | O => Err (EMsg "fuel")
  | S fuel =>
      match s with
      | [] => Ok (st, None)
      | _ =>
          if zlen s <? 4 then Ok (st, Some offset)
          else
            let len := get_u32 (take 4 s) in
            fail_if (len <=? 0) || (maxKeyedFrameBytes <? len) with corrupt "invalid WAL frame length";
            let body := drop 4 s in
            if zlen body <? len + 4 then Ok (st, Some offset)
            else
              let n := Z.to_nat len in
              let payload := take n body in
              fail_if negb (get_u32 (take 4 (drop n body)) =? crc32 payload)
                with corrupt "WAL checksum mismatch";
              match j ← parse payload; json_record j with
              | None => Err (EError ErrorCorruption "open_keyed" (EWrap "decode WAL" (EMsg "json")))
              | Some r =>
                  let! st' := replay_record o mk st lastSequence r in
                  replay_loop fuel o mk st' (kr_Sequence r) (offset + (4 + n + 4)) (drop (4 + n + 4) s)
              end
      end
  end.

Definition truncateKeyedTail (i : nat) (offset : nat) : io unit :=
  _ ← io_wrap ErrorStorage "open_keyed" (truncate i offset);
  io_wrap ErrorStorage "open_keyed" (sync_file i).

(** The buffered reads are one read of the whole log. *)
Definition replayKeyedWAL {H} (db : KeyedDB H) (i : nat) : io (KeyedDB H) :=
  _ ← io_wrap ErrorStorage "open_keyed" (seek 0);
  s ← io_wrap ErrorStorage "open_keyed" (call "read" (fun w => (Ok (content (inode i w)), w)));
  '(st, tail) ← io_res (replay_loop (S (length s)) (db_options db)
                          (maxStoredKeyBytes (db_format db)) (db_state db) 0 0 s);
  match tail with
  | Some offset => _ ← truncateKeyedTail i offset; mret (set_state st db)
  | None => mret (set_state st db)
  end.

(** ** The FORMAT marker *)

Definition syncDirectory (windows : bool) : io unit :=
  if windows then mret tt
  else _ ← call "opendir" (mret tt); r ← attempt sync_dir; c ← attempt close_file;
       match r, c with
       | Err e, _ => io_err e
       | Ok _, Err e => io_err e
       | Ok _, Ok _ => mret tt
       end.

(** The tail of the write-synchronize-close sequence: the file is closed in any
    case and the first error is the result. *)
Definition write_sync_close (i : nat) (data : bytes) : io unit :=
  r ← attempt (_ ← write_all i 0 data; sync_file i); c ← attempt close_file;
  match r, c with
  | Err e, _ => io_err e
  | Ok _, Err e => io_err e
  | Ok _, Ok _ => mret tt
  end.

Definition format_name : bytes := bs "FORMAT".
Definition format_tmp : bytes := bs "FORMAT.tmp".

Definition ensureKeyedFormat (windows : bool) (expected : bytes) : io unit :=
  _ ← io_wrap ErrorStorage "open_keyed" mkdir_all;
  data ← attempt (read_file format_name);
  match data with
  | Ok data =>
      if bool_decide (data = expected) then mret tt
      else io_err (err_new ErrorIncompatible "open_keyed" "directory contains a different OctetDB model")
  | Err ENotExist =>
      entries ← io_wrap ErrorStorage "open_keyed" read_dir;
      entries ← (if bool_decide (entries = [format_tmp])
                 then _ ← io_wrap ErrorStorage "open_keyed" (remove format_tmp); mret []
                 else mret entries);
      match entries with
      | _ :: _ => io_err (err_new ErrorIncompatible "open_keyed"
                            "non-empty directory has no keyed OctetDB FORMAT marker")
      | [] =>
          i ← io_wrap ErrorStorage "open_keyed" (create_excl format_tmp);
          io_wrap ErrorStorage "open_keyed"
            (on_error (ignore (remove format_tmp))
               (_ ← write_sync_close i expected; _ ← rename format_tmp format_name;
                syncDirectory windows))
      end
  | Err e => io_err (EError ErrorStorage "open_keyed" e)
  end.

(** ** Snapshots *)

Definition snapshot_name : bytes := bs "snapshot".
Definition snapshot_tmp : bytes := bs "snapshot.tmp".

Definition snapshot_of (st : kstate) : keyedSnapshot :=
  {| ks_Sequence := sequence st; ks_Records := records st; ks_Dedupe := decisions st |}.

Definition snapshot_envelope (s : keyedSnapshot) : bytes :=
  print (envelope_json keyedSnapshotMagic 1 (snapshot_json s)
           (hex_encode (sha256 (print (snapshot_json s))))).

Definition snapshotKeyed {H} (windows : bool) (db : KeyedDB H) : io unit :=
  match db_wal db with
  | None => mret tt
  | Some wal =>
      let envelope := snapshot_envelope (snapshot_of (db_state db)) in
      _ ← ignore (remove snapshot_tmp);
      i ← io_wrap ErrorStorage "snapshot_keyed" (create_excl snapshot_tmp);
      io_wrap ErrorStorage "snapshot_keyed"
        (on_error (ignore (remove snapshot_tmp))
           (_ ← write_sync_close i envelope;
            _ ← rename snapshot_tmp snapshot_name;
            _ ← syncDirectory windows;
            _ ← truncate wal 0;
            _ ← seek 0;
            sync_file wal))
  end.

(** The loop over the retained decisions of a snapshot. *)
Definition load_decision (o : KeyedOptions) (mk : Z) (seq : Z)
    (acc : Z * (gmap bytes keyedWALRecord * list bytes)) (r : keyedWALRecord)
    : res gerror (Z * (gmap bytes keyedWALRecord * list bytes)) :=
  let '(last, (dd, ids)) := acc in
  fail_if bool_decide (kr_CommandID r = []) || (kr_Sequence r =? 0) || (seq <? kr_Sequence r)
    with corrupt "invalid snapshot dedupe entry";
  let! _ := validateKeyedRecord o mk r in
  fail_if kr_Sequence r <=? last with corrupt "snapshot dedupe order is invalid";
  fail_if bool_decide (is_Some (dd !! kr_CommandID r)) with corrupt "snapshot repeats a command ID";
  Ok (kr_Sequence r, (<[kr_CommandID r := r]> dd, ids ++ [kr_CommandID r])).

(** The loop over the records; which violation is reported depends on Go's map
    order, whether one is does not. *)
Definition load_record (o : KeyedOptions) (mk : Z) (_ : unit) (kv : bytes * bytes) : res gerror unit :=
  fail_if MaxValueBytes o <? zlen kv.2 with capacity "snapshot record exceeds configured value bound";
  fail_if bool_decide (kv.1 = []) || (mk <? zlen kv.1) || negb (json_valid kv.2)
    with corrupt "snapshot record violates configured bounds";
  Ok tt.

Definition load_snapshot (o : KeyedOptions) (mk : Z) (s : keyedSnapshot) : res gerror kstate :=
  fail_if (MaxRecords o <? Z.of_nat (size (ks_Records s))) || (DedupeHorizon o <? zlen (ks_Dedupe s))
    with capacity "snapshot exceeds configured bounds";
  let! _ := res_fold (load_record o mk) tt (map_to_list (ks_Records s)) in
  let! acc := res_fold (load_decision o mk (ks_Sequence s)) (0, (∅, [])) (ks_Dedupe s) in
  let '(last, (dd, ids)) := acc in
  fail_if negb (ks_Sequence s =? 0)
          && (bool_decide (ks_Dedupe s = []) || negb (last =? ks_Sequence s))
    with corrupt "snapshot dedupe frontier does not match sequence";
  Ok {| records := ks_Records s; dedupe := dd; dedupeIDs := ids; sequence := ks_Sequence s |}.

(** Decoding a snapshot file: envelope, magic, checksum, payload, contents. *)
Definition decode_snapshot (o : KeyedOptions) (mk : Z) (data : bytes) : res gerror kstate :=
  match unmarshal_envelope data with
  | None => Err (EError ErrorCorruption "open_keyed" (EWrap "decode snapshot envelope" (EMsg "json")))
  | Some env =>
      fail_if negb (bool_decide (env_magic env = keyedSnapshotMagic)) || negb (env_version env =? 1)
        with err_new ErrorIncompatible "open_keyed" "unsupported keyed snapshot";
      fail_if negb (bool_decide (env_sha256 env = hex_encode (sha256 (env_payload env))))
        with corrupt "snapshot checksum mismatch";
      match j ← parse (env_payload env); json_snapshot j with
      | None => Err (EError ErrorCorruption "open_keyed" (EWrap "decode snapshot" (EMsg "json")))
      | Some s => load_snapshot o mk s
      end
  end.

Definition loadKeyedSnapshot {H} (db : KeyedDB H) : io (KeyedDB H) :=
  data ← attempt (read_file snapshot_name);
  match data with
  | Err ENotExist => mret db
  | Err e => io_err (EError ErrorStorage "open_keyed" e)
  | Ok data =>
      st ← io_res (decode_snapshot (db_options db) (maxStoredKeyBytes (db_format db)) data);
      mret (set_state st db)
  end.

(** ** Opening and closing *)

Definition openStorage {H} (windows : bool) (db : KeyedDB H) : io (KeyedDB H) :=
  _ ← ensureKeyedFormat windows (db_format db);
  db ← loadKeyedSnapshot db;
  i ← io_wrap ErrorStorage "open_keyed" (open_rw wal_name);
  let db := set_wal (Some i) db in
  on_error (ignore close_file)
    (db ← replayKeyedWAL db i;
     _ ← io_wrap ErrorStorage "open_keyed" (seek_end i);
     mret db).

Definition wal_close {H} (db : KeyedDB H) : world → (option gerror * KeyedDB H) * world := fun w =>
  match db_wal db with
  | None => ((None, db), w)
  | Some _ =>
      let '(r, w') := close_file w in
      ((match r with Ok _ => None | Err e => Some (EError ErrorStorage "close_keyed" e) end,
        set_wal None db), w')
  end.
