(* ===== verification/KeyedRecovery.v ===== *)
(** * Recovery of the keyed database

    Theorems about [KeyedStorage.v]: the JSON forms round trip, the log replays
    to the state that wrote it whatever prefix of its last frame survived, a
    snapshot loads to the state it was taken from, and the log may overlap the
    snapshot. *)

From Stdlib Require Import ZArith Lia Strings.Byte Strings.String Sorted.
From stdpp Require Import base decidable countable list gmap sorting.
From S2P Require Import Prelude GoText GoBinary GoJson Errors GoOS Keyed KeyedStorage.

Local Open Scope Z_scope.
Local Open Scope go_scope.
(** ** Round trips of the JSON forms *)

Lemma ascii_chunks s : Forall (λ b, bval b < 128) s → utf8_valid s = true.
Proof.
  unfold utf8_valid, utf8_chunks. induction 1 as [|b s Hb Hs IH]; [done|].
  cbn [utf8_from]. unfold utf8_head. rewrite (proj2 (Z.ltb_lt _ _)) by done. done.
Qed.

Lemma b64_encode_ascii l : Forall (λ b, bval b < 128) (b64_encode l).
Proof.
  assert (∀ v, bval (b64_char v) < 128) as Hc.
  { intros v. unfold b64_char. destruct (b64_alphabet !! Z.to_nat v) as [b|] eqn:E; [|done].
    assert (forallb (λ b, bval b <? 128) b64_alphabet = true) as H by done.
    rewrite forallb_forall in H. apply Z.ltb_lt, H, list_elem_of_In. by eapply list_elem_of_lookup_2. }
  induction l as [|a|a b|a b c l IH] using b64_encode_ind; cbn [b64_encode];
    repeat (constructor; [first [apply Hc|done]|]); first [done|constructor].
Qed.

Lemma b64_coerce l : utf8_coerce (b64_encode l) = b64_encode l.
Proof. apply utf8_coerce_valid, ascii_chunks, b64_encode_ascii. Qed.

Definition mutation_utf8 (m : keyedMutation) : Prop := utf8_valid (km_Key m) = true.
Record record_utf8 (r : keyedWALRecord) : Prop := {
  ru_id : utf8_valid (kr_CommandID r) = true;
  ru_code : utf8_valid (kr_Code r) = true;
  ru_keys : Forall mutation_utf8 (kr_Mutations r) }.

Lemma json_mutation_roundtrip m : mutation_utf8 m → json_mutation (norm (mutation_json m)) = Some m.
Proof.
  intros H. unfold mutation_utf8 in H. destruct m as [k v d]. unfold mutation_json.
  cbn [km_Key km_Value km_Delete] in *.
  destruct (decide (v = [])) as [->|Hv].
  - rewrite bool_decide_true by done. destruct d; cbn; by rewrite (utf8_coerce_valid k).
  - rewrite bool_decide_false by done. destruct d; cbn;
      rewrite (utf8_coerce_valid k), b64_coerce, b64_roundtrip by done; done.
Qed.

(** Decides which field a member name of the encoder selects. *)
Ltac eval_fields :=
  repeat match goal with
  | |- context [is_field ?a (utf8_coerce (bs ?b))] =>
      let v := eval vm_compute in (is_field a (utf8_coerce (bs b))) in
      change (is_field a (utf8_coerce (bs b))) with v
  end; cbn iota.

Lemma mapM_roundtrip {A} (f : A → json) (g : json → option A) (P : A → Prop) l :
  (∀ a, P a → g (norm (f a)) = Some a) → Forall P l → mapM g (map norm (map f l)) = Some l.
Proof.
  intros H. induction 1 as [|a l Ha Hl IH]; [done|]. cbn [map mapM]. rewrite H by done. cbn. by rewrite IH.
Qed.


Lemma opt_nonempty {A} `{EqDecision A} (l : list A) :
  negb (bool_decide (l = [])) = match l with [] => false | _ => true end.
Proof. destruct l; [by rewrite bool_decide_true|by rewrite bool_decide_false]. Qed.

Lemma json_record_roundtrip r :
  record_utf8 r → u64_range (kr_Sequence r) → json_record (norm (record_json r)) = Some r.
Proof.
  intros [H1 H2 H3] Hs. destruct r as [s i a c d m]. unfold record_json.
  cbn [kr_Sequence kr_CommandID kr_Applied kr_Code kr_Result kr_Mutations] in *.
  pose proof (parse_uint64_dec s Hs) as Es.
  pose proof (mapM_roundtrip mutation_json json_mutation mutation_utf8 m
    json_mutation_roundtrip H3) as Em.
  unfold json_record, into_struct, zeroRecord. cbn [norm].
  rewrite (opt_nonempty c), (opt_nonempty d), (opt_nonempty m).
  destruct c as [|c0 c], d as [|d0 d], m as [|m0 m];
    cbn [opt_member app map fst snd norm];
    rewrite ?(utf8_coerce_valid i), ?(utf8_coerce_valid (c0 :: c)), ?b64_coerce by done;
    cbn [fold_members record_member]; eval_fields;
    cbn [into_u64 into_str into_bool into_bytes into_list kr_Sequence kr_CommandID kr_Applied kr_Code
      kr_Result kr_Mutations];
    rewrite Es; cbn [mbind option_bind]; rewrite ?b64_roundtrip; cbn [mbind option_bind];
    cbn [map] in Em; rewrite ?Em; done.
Qed.

Lemma into_map_sorted {A} (f : A → json) (g : json → option A) (m : gmap bytes A) :
  (∀ k v, m !! k = Some v → utf8_valid k = true ∧ g (norm (f v)) = Some v) →
  into_map g ∅ (norm (JObj (sorted_members f m))) = Some m.
Proof.
  intros Hm. cbn [norm into_map]. unfold sorted_members.
  set (ks := sort_strings ((map_to_list m).*1)).
  assert (∀ k, k ∈ ks ↔ is_Some (m !! k)) as Hks.
  { intros k. unfold ks. rewrite sort_strings_perm, list_elem_of_fmap. split.
    - intros ([k' v]&->&H). apply elem_of_map_to_list in H. eauto.
    - intros [v H]. exists (k, v). split; [done|]. by apply elem_of_map_to_list. }
  assert (∀ l acc, acc ⊆ m → (∀ k, k ∈ l → is_Some (m !! k)) → ∃ m',
    fold_members (λ m kj, v ← g kj.2; Some (<[kj.1:=v]> m)) acc
      (map (λ kv, (utf8_coerce kv.1, norm kv.2)) (omap (λ k, v ← m !! k; Some (k, f v)) l)) = Some m'
    ∧ acc ⊆ m' ∧ m' ⊆ m ∧ ∀ k, k ∈ l → is_Some (m' !! k)) as Hgen.
  { induction l as [|k l IH]; intros acc Ha Hl.
    - exists acc. repeat split; try done. by intros k ?%elem_of_nil.
    - destruct (Hl k ltac:(left)) as [v Hv]. cbn [omap list_omap]. rewrite Hv.
      cbn [mbind option_bind map fold_members fst snd]. destruct (Hm k v Hv) as [H1 H2].
      rewrite H2, utf8_coerce_valid by done. cbn [mbind option_bind].
      destruct (IH (<[k:=v]> acc)) as (m'&E&S1&S2&S3).
      { by apply insert_subseteq_l. } { intros k' Hk'. apply Hl. by right. }
      exists m'. assert (m' !! k = Some v) as Hk.
      { eapply lookup_weaken; [|done]. apply lookup_insert_eq. }
      repeat split; try done.
      + apply map_subseteq_spec. intros i x Hi. destruct (decide (i = k)) as [->|Hn].
        * rewrite (lookup_weaken _ _ _ _ Hi Ha) in Hv. by simplify_eq.
        * eapply lookup_weaken; [|done]. by rewrite lookup_insert_ne.
      + intros k' [->|Hk']%elem_of_cons; eauto. }
  destruct (Hgen ks ∅) as (m'&->&_&Hsub&Hall); [apply map_empty_subseteq|by intros k ?%Hks|].
  f_equal. apply (anti_symm (⊆)); [done|]. apply map_subseteq_spec. intros k v Hk.
  destruct (Hall k) as [v' Hv']; [apply Hks; eauto|].
  rewrite (lookup_weaken _ _ _ _ Hv' Hsub) in Hk. by simplify_eq.
Qed.

(** The states whose strings survive the encoder. *)
Record state_utf8 (st : kstate) : Prop := {
  su_keys : map_Forall (λ k _, utf8_valid k = true) (records st);
  su_decisions : Forall record_utf8 (decisions st) }.

Lemma json_snapshot_roundtrip st :
  state_utf8 st → u64_range (sequence st) → Forall (λ r, u64_range (kr_Sequence r)) (decisions st) →
  json_snapshot (norm (snapshot_json (snapshot_of st))) = Some (snapshot_of st).
Proof.
  intros [Hk Hd] Hs Hq. unfold snapshot_json, json_snapshot, into_struct.
  cbn [ks_Sequence ks_Records ks_Dedupe snapshot_of].
  pose proof (parse_uint64_dec _ Hs) as Es.
  pose proof (mapM_roundtrip record_json json_record (λ r, record_utf8 r ∧ u64_range (kr_Sequence r))
    (decisions st) (λ r H, json_record_roundtrip r (proj1 H) (proj2 H))
    (proj2 (Forall_and _ _) (conj Hd Hq))) as Ed.
  assert (into_map into_bytes ∅ (norm (JObj (sorted_members bytes_json (records st)))) = Some (records st)) as Er.
  { apply into_map_sorted. intros k v Hkv. split; [exact (Hk _ _ Hkv)|]. unfold bytes_json.
    case_bool_decide; [by subst|]. cbn. by rewrite b64_coerce, b64_roundtrip. }
  remember (JObj (sorted_members bytes_json (records st))) as jr eqn:Ejr. clear Ejr.
  cbn [norm map fst snd fold_members snapshot_member]. eval_fields.
  cbn [into_u64 into_list mbind option_bind ks_Sequence ks_Records ks_Dedupe].
  rewrite Es. cbn [mbind option_bind ks_Sequence ks_Records ks_Dedupe]. rewrite Er.
  cbn [mbind option_bind ks_Sequence ks_Records ks_Dedupe]. rewrite Ed. done.
Qed.

Lemma mutation_json_shape m : nums_ok (mutation_json m) ∧ (depth (mutation_json m) ≤ 1)%nat.
Proof. unfold mutation_json. destruct (negb _), (km_Delete m); simpl; split; try done; lia. Qed.

Lemma arr_shape {A} (f : A → json) n l :
  (∀ a, nums_ok (f a) ∧ (depth (f a) ≤ n)%nat) →
  nums_ok (JArr (map f l)) ∧ (depth (JArr (map f l)) ≤ S n)%nat.
Proof.
  intros H. split.
  - apply nums_ok_arr, Forall_map, Forall_true. intros a. apply H.
  - simpl. induction l as [|a l IH]; simpl; [lia|]. destruct (H a). lia.
Qed.

Lemma record_json_shape r : nums_ok (record_json r) ∧ (depth (record_json r) ≤ 3)%nat.
Proof.
  unfold record_json. destruct (arr_shape mutation_json 1 (kr_Mutations r) mutation_json_shape) as [H1 H2].
  remember (JArr (map mutation_json (kr_Mutations r))) as j eqn:E. clear E.
  destruct (negb (bool_decide (kr_Code r = []))), (negb (bool_decide (kr_Result r = []))), (negb (bool_decide (kr_Mutations r = []))); simpl; split; eauto 10; lia.
Qed.

#[export] Program Instance record_codec : JSONCodec keyedWALRecord := {|
  to_json := record_json;
  of_json := json_record;
  json_ok := λ r, record_utf8 r ∧ u64_range (kr_Sequence r) |}.
Next Obligation. intros r. apply record_json_shape. Qed.
Next Obligation. intros r. pose proof (record_json_shape r). lia. Qed.
Next Obligation. intros r [H1 H2]. by apply json_record_roundtrip. Qed.

Lemma snapshot_json_shape s : nums_ok (snapshot_json s) ∧ (depth (snapshot_json s) ≤ 5)%nat.
Proof.
  unfold snapshot_json.
  destruct (arr_shape record_json 3 (ks_Dedupe s) record_json_shape) as [H1 H2].
  remember (JArr (map record_json (ks_Dedupe s))) as j eqn:E. clear E.
  assert (nums_ok (JObj (sorted_members bytes_json (ks_Records s)))
          ∧ (depth (JObj (sorted_members bytes_json (ks_Records s))) ≤ 1)%nat) as [H3 H4].
  { unfold sorted_members. induction (sort_strings _) as [|k l IH]; [simpl; split; [done|lia]|].
    cbn [omap list_omap]. destruct (ks_Records s !! k) as [v|]; cbn [mbind option_bind]; [|done].
    destruct IH as [IH1 IH2]. simpl in IH1, IH2.
    assert (nums_ok (bytes_json v) ∧ depth (bytes_json v) = 0%nat) as [Hv1 Hv2].
    { unfold bytes_json. by case_bool_decide. }
    split; [simpl; done|]. cbn [depth foldr fst snd]. rewrite Hv2. simpl. lia. }
  remember (JObj (sorted_members bytes_json (ks_Records s))) as j' eqn:E'. clear E'.
  split; [simpl; eauto 10|simpl; lia].
Qed.

Lemma hex_encode_ascii l : utf8_valid (hex_encode l) = true.
Proof.
  apply ascii_chunks. unfold hex_encode.
  assert (∀ v, bval (hex_digit v) < 128) as Hc.
  { intros v. unfold hex_digit. destruct (hex_digits !! Z.to_nat v) as [b|] eqn:E; [|done].
    assert (forallb (λ b, bval b <? 128) hex_digits = true) as H by done.
    rewrite forallb_forall in H. apply Z.ltb_lt, H, list_elem_of_In. by eapply list_elem_of_lookup_2. }
  induction l as [|b l IH]; cbn; [constructor|]. by repeat (constructor; [apply Hc|]).
Qed.

(** ** Snapshots load to the state they were taken from *)

Lemma validateKeyedRecord_decision o mk r :
  0 ≤ MaxTransactionBytes o → decision_ok o r → kr_Mutations r = [] →
  validateKeyedRecord o mk r = Ok tt.
Proof.
  intros Hm [H1 H2 H3 H4 H5] Em. unfold validateKeyedRecord, guard_err. rewrite Em.
  rewrite (bool_decide_false (kr_CommandID r = [])) by done. cbn [res_bind].
  rewrite (proj2 (Z.ltb_ge _ _)) by done. cbn [res_bind].
  rewrite (proj2 (Z.ltb_ge _ _)) by done. cbn [res_bind].
  rewrite (proj2 (Z.ltb_ge _ _)) by done. cbn [res_bind].
  assert ((0 <? zlen (kr_Result r)) && negb (json_valid (kr_Result r)) = false) as ->.
  { destruct H5 as [-> | ->]; [done|]. apply andb_false_r. }
  cbn [res_bind]. rewrite andb_false_r. cbn [res_bind res_fold fst].
  by rewrite (proj2 (Z.ltb_ge _ _)) by done.
Qed.

(** The index built from a list of decisions. *)
Definition index_of (ds : list keyedWALRecord) : gmap bytes keyedWALRecord :=
  foldl (λ m r, <[kr_CommandID r := r]> m) ∅ ds.

Lemma index_of_snoc ds r : index_of (ds ++ [r]) = <[kr_CommandID r := r]> (index_of ds).
Proof. unfold index_of. by rewrite foldl_app. Qed.

Lemma index_of_lookup ds id r :
  NoDup (map kr_CommandID ds) → index_of ds !! id = Some r ↔ r ∈ ds ∧ kr_CommandID r = id.
Proof.
  induction ds as [|x ds IH] using rev_ind; intros Hnd.
  - unfold index_of. cbn. rewrite lookup_empty. split; [done|]. by intros [?%elem_of_nil _].
  - rewrite map_app in Hnd. apply NoDup_app in Hnd as (Hnd&Hx&_).
    rewrite index_of_snoc, lookup_insert, elem_of_app, list_elem_of_singleton. case_decide as E.
    + subst. split; [intros [= <-]; by split; [right|]|].
      intros [[Hin| ->] E]; [|done]. exfalso. apply (Hx (kr_CommandID r)); [|rewrite E; cbn; left].
      apply list_elem_of_In, in_map, list_elem_of_In, Hin.
    + rewrite IH by done. split; [intros [? ?]; split; [by left|done]|by intros [[?| ->] ?]].
Qed.

Lemma index_of_decisions st : dedupe_wf st → index_of (decisions st) = dedupe st.
Proof.
  intros H. apply map_eq. intros id. apply option_eq. intros r.
  rewrite index_of_lookup by (rewrite decisions_ids by done; apply (wf_nodup st H)).
  rewrite <- dedupe_lookup_decision by done. split.
  - by intros [? <-].
  - intros E. pose proof (wf_id st H _ _ E). by subst.
Qed.

Lemma load_decisions o mk seq ds :
  0 ≤ MaxTransactionBytes o →
  Forall (λ r, kr_Mutations r = [] ∧ decision_ok o r ∧ 0 < kr_Sequence r) ds →
  StronglySorted Z.lt (map kr_Sequence ds) → NoDup (map kr_CommandID ds) →
  Forall (λ r, kr_Sequence r ≤ seq) ds →
  res_fold (load_decision o mk seq) (0, (∅, [])) ds
  = Ok (default 0 (last (map kr_Sequence ds)), (index_of ds, map kr_CommandID ds)).
Proof.
  intros Hm. induction ds as [|r ds IH] using rev_ind; [done|].
  rewrite !map_app. intros [Hf Hr]%Forall_app Hs Hn [Hq Hrq]%Forall_app.
  apply Forall_cons in Hr as [(Hr1&Hr2&Hr3) _]. apply Forall_cons in Hrq as [Hrq _].
  apply NoDup_app in Hn as (Hn&Hx&_). apply StronglySorted_app in Hs as (Hsx&Hs&_).
  rewrite res_fold_app, IH by done. cbn [res_bind res_fold map]. unfold load_decision, guard_err.
  rewrite (bool_decide_false (kr_CommandID r = [])) by apply Hr2.
  rewrite (proj2 (Z.eqb_neq _ _)), (proj2 (Z.ltb_ge _ _)) by lia. cbn [orb res_bind].
  rewrite validateKeyedRecord_decision by done. cbn [res_bind].
  assert (default 0 (last (map kr_Sequence ds)) < kr_Sequence r) as Hlast.
  { destruct (last (map kr_Sequence ds)) as [x|] eqn:E; [|done]. simpl.
    apply Hsx; [by apply last_Some_elem_of|cbn; left]. }
  rewrite (proj2 (Z.leb_gt _ _)) by done. cbn [res_bind].
  rewrite bool_decide_false.
  - cbn [res_bind]. rewrite index_of_snoc, last_snoc. done.
  - intros [r' [Hin E]%index_of_lookup]; [|done]. apply (Hx (kr_CommandID r)); [|cbn; left].
    rewrite <- E. apply list_elem_of_In, in_map, list_elem_of_In, Hin.
Qed.

Lemma res_fold_unit {E A} (f : unit → A → res E unit) l :
  (∀ a, a ∈ l → f tt a = Ok tt) → res_fold f tt l = Ok tt.
Proof.
  induction l as [|a l IH]; intros H; [done|]. cbn [res_fold]. rewrite H by left. cbn [res_bind].
  apply IH. intros. apply H. by right.
Qed.

Lemma load_snapshot_of o mk st :
  0 ≤ MaxTransactionBytes o → kinv o mk st → load_snapshot o mk (snapshot_of st) = Ok st.
Proof.
  intros Hm [I1 I2 I3 I4 I5 I6 I7 I8]. unfold load_snapshot, guard_err.
  cbn [snapshot_of ks_Sequence ks_Records ks_Dedupe].
  rewrite (proj2 (Z.ltb_ge _ _)) by done. cbn [orb].
  replace (zlen (decisions st)) with (zlen (dedupeIDs st)) by (unfold zlen; by rewrite decisions_length).
  rewrite (proj2 (Z.ltb_ge _ _)) by done. cbn [res_bind].
  rewrite res_fold_unit.
  2:{ intros [k v] Hkv. apply elem_of_map_to_list in Hkv. destruct (I2 _ _ Hkv) as (H1&H2&H3&H4).
      unfold load_record, guard_err. cbn [fst snd]. rewrite (proj2 (Z.ltb_ge _ _)) by done. cbn [res_bind].
      rewrite bool_decide_false, (proj2 (Z.ltb_ge _ _)), H4 by done. done. }
  cbn [res_bind]. rewrite load_decisions; try done.
  2:{ rewrite decisions_ids by done. apply (wf_nodup st I3). }
  2:{ apply Forall_forall. intros r Hr. rewrite I7. apply sorted_le_last; [done|].
      apply list_elem_of_In, in_map, list_elem_of_In, Hr. }
  cbn [res_bind]. rewrite <- I7, Z.eqb_refl. cbn [negb]. rewrite orb_false_r.
  assert (negb (sequence st =? 0) && bool_decide (decisions st = []) = false) as ->.
  { case_bool_decide as E; [|by rewrite andb_false_r]. rewrite I7, E. done. }
  cbn [res_bind]. rewrite index_of_decisions, decisions_ids by done. by destruct st.
Qed.

Lemma decode_snapshot_of o mk st :
  0 ≤ MaxTransactionBytes o → kinv o mk st → state_utf8 st →
  decode_snapshot o mk (snapshot_envelope (snapshot_of st)) = Ok st.
Proof.
  intros Hm Hi Hu. unfold decode_snapshot, snapshot_envelope.
  destruct (snapshot_json_shape (snapshot_of st)) as [H1 H2].
  rewrite envelope_roundtrip; [|done|lia|done|apply hex_encode_ascii|lia].
  cbn [env_magic env_version env_payload env_sha256].
  rewrite !bool_decide_true by done. unfold guard_err at 1 2. cbn [negb orb Z.eqb Pos.eqb res_bind].
  rewrite parse_print; [|done|apply max_nesting_ge; lia]. cbn [mbind option_bind].
  rewrite json_snapshot_roundtrip; [by apply load_snapshot_of|done|apply Hi|].
  pose proof (inv_decisions _ _ _ Hi) as Hd. apply Forall_forall. intros r Hr.
  rewrite Forall_forall in Hd. destruct (Hd r Hr) as (_&_&Hpos).
  pose proof (inv_sequence _ _ _ Hi) as Hs. unfold u64_range in *.
  pose proof (sorted_le_last _ (kr_Sequence r) (inv_order _ _ _ Hi)) as Hle.
  rewrite <- (inv_last _ _ _ Hi) in Hle.
  assert (kr_Sequence r ∈ map kr_Sequence (decisions st)) by (by apply list_elem_of_In, in_map, list_elem_of_In).
  specialize (Hle ltac:(done)). lia.
Qed.

(** ** Frames *)

Definition frame (r : keyedWALRecord) : bytes := frame_of (marshal r).
Definition frames (rs : list keyedWALRecord) : bytes := concat (map frame rs).

(** A record whose frame the log reads back. *)
Definition storable (r : keyedWALRecord) : Prop :=
  record_utf8 r ∧ zlen (marshal r) ≤ maxKeyedFrameBytes.

(** A part of a frame that a torn write leaves. *)
Definition torn (t : bytes) : Prop :=
  t = [] ∨ ∃ r rest, storable r ∧ frame r = t ++ rest ∧ rest ≠ [].

Lemma payload_bound r : storable r → 0 < zlen (marshal r) ≤ maxKeyedFrameBytes.
Proof.
  intros [_ H]. split; [|done]. pose proof (marshal_nonempty r). unfold zlen.
  destruct (marshal r); [done|simpl; lia].
Qed.

Lemma payload_u32 r : storable r → u32 (zlen (marshal r)) = zlen (marshal r).
Proof.
  intros H%payload_bound. apply u32_id. unfold u32_range, maxKeyedFrameBytes in *. lia.
Qed.

Lemma frame_length r : length (frame r) = (4 + length (marshal r) + 4)%nat.
Proof. unfold frame, frame_of. rewrite !length_app, !put_u32_length. lia. Qed.

Lemma frames_cons r rs : frames (r :: rs) = frame r ++ frames rs.
Proof. done. Qed.

Lemma frames_app rs1 rs2 : frames (rs1 ++ rs2) = frames rs1 ++ frames rs2.
Proof. unfold frames. by rewrite map_app, concat_app. Qed.

Lemma frame_head r s : storable r → get_u32 (take 4 (frame r ++ s)) = zlen (marshal r).
Proof.
  intros H. unfold frame, frame_of. rewrite <- !app_assoc, take_app_length' by (by rewrite put_u32_length).
  rewrite payload_u32 by done. apply get_put_u32. rewrite <- payload_u32 by done.
  by apply Z.mod_pos_bound.
Qed.

(** A whole frame is decoded and replayed. *)
Lemma replay_loop_frame fuel o mk st last off r s :
  storable r → u64_range (kr_Sequence r) →
  replay_loop (S fuel) o mk st last off (frame r ++ s) =
  let! st' := replay_record o mk st last r in
  replay_loop fuel o mk st' (kr_Sequence r) (off + length (frame r)) s.
Proof.
  intros Hs Hq. pose proof (payload_bound r Hs) as Hb. pose proof (frame_length r) as Hl.
  assert (∃ b t, frame r ++ s = b :: t) as (b&t&E).
  { destruct (frame r ++ s) eqn:E; [|eauto]. apply (f_equal length) in E.
    rewrite length_app, Hl in E. simpl in E. lia. }
  cbn [replay_loop]. rewrite E, <- E.
  rewrite (proj2 (Z.ltb_ge _ _)) by (unfold zlen; rewrite length_app, Hl; lia).
  cbv zeta. rewrite frame_head by done. unfold guard_err.
  rewrite (proj2 (Z.leb_gt _ _)), (proj2 (Z.ltb_ge _ _)) by lia. cbn [orb res_bind].
  assert (drop 4 (frame r ++ s) = marshal r ++ put_u32 (crc32 (marshal r)) ++ s) as ->.
  { unfold frame, frame_of. rewrite <- !app_assoc, drop_app_length' by (by rewrite put_u32_length). done. }
  rewrite (proj2 (Z.ltb_ge _ _)) by (rewrite !zlen_app; unfold zlen; rewrite put_u32_length; lia).
  assert (Z.to_nat (zlen (marshal r)) = length (marshal r)) as -> by (unfold zlen; lia).
  rewrite take_app_length, drop_app_length, take_app_length' by (by rewrite put_u32_length).
  rewrite get_put_u32, Z.eqb_refl by apply crc32_range. cbn [negb res_bind].
  pose proof (unmarshal_marshal r (conj (proj1 Hs) Hq)) as Hu. unfold unmarshal in Hu.
  change (@of_json keyedWALRecord _) with json_record in Hu. rewrite Hu.
  rewrite <- Hl, drop_app_length. done.
Qed.

(** A torn frame ends the replay at its start. *)
Lemma replay_loop_torn fuel o mk st last off t :
  torn t →
  replay_loop (S fuel) o mk st last off t = Ok (st, if decide (t = []) then None else Some off).
Proof.
  intros [-> |(r&rest&Hs&E&Hr)]; [done|]. pose proof (payload_bound r Hs) as Hb.
  pose proof (frame_length r) as Hl. pose proof (f_equal length E) as El. rewrite length_app, Hl in El.
  assert (0 < length rest)%nat by (destruct rest; [done|simpl; lia]).
  case_decide as Ht; [by subst|]. destruct t as [|b t]; [done|]. cbn [replay_loop].
  destruct (Z.ltb_spec (zlen (b :: t)) 4) as [|H4]; [done|]. cbv zeta.
  assert (take 4 (b :: t) = take 4 (frame r ++ [])) as ->.
  { rewrite app_nil_r, E, take_app_le; [done|]. unfold zlen in H4. lia. }
  rewrite frame_head by done. unfold guard_err.
  rewrite (proj2 (Z.leb_gt _ _)), (proj2 (Z.ltb_ge _ _)) by lia. cbn [orb res_bind].
  rewrite (proj2 (Z.ltb_lt _ _)); [done|]. unfold zlen in *. rewrite length_drop. lia.
Qed.

(** ** Histories *)

(** The bytes [validateKeyedRecord] counts: unlike [finalize] it counts the
    keys of deletions. *)
Definition stored_bytes (m : keyedMutation) : Z := zlen (km_Key m) + zlen (km_Value m).

(** A decision of [executeKeyed] that the log can hold and replay. *)
Record loggable (o : KeyedOptions) (mk : Z) (st : kstate) (r : keyedWALRecord) : Prop := {
  lg_fresh : fresh_record o mk st r;
  lg_sequence : sequence st + 1 < 2 ^ 64;
  lg_storable : storable r;
  lg_bytes : zsum (map stored_bytes (kr_Mutations r)) ≤ MaxTransactionBytes o }.

(** The commands committed one after the other from a state. *)
Inductive history (o : KeyedOptions) (mk : Z) : kstate → list keyedWALRecord → kstate → Prop :=
| history_nil st : history o mk st [] st
| history_cons st r rs st' :
    loggable o mk st r → history o mk (applyKeyed o st r) rs st' → history o mk st (r :: rs) st'.

Section history.
Context (o : KeyedOptions) (mk : Z).
Hypothesis Hhorizon : 0 < DedupeHorizon o.

Lemma history_app st0 rs1 st1 rs2 st2 :
  history o mk st0 rs1 st1 → history o mk st1 rs2 st2 → history o mk st0 (rs1 ++ rs2) st2.
Proof. induction 1; intros; [done|]. cbn [app]. econstructor; eauto. Qed.

Lemma history_snoc st0 rs st r :
  history o mk st0 rs st → loggable o mk st r → history o mk st0 (rs ++ [r]) (applyKeyed o st r).
Proof. intros. eapply history_app; [done|]. econstructor; [done|constructor]. Qed.

Lemma history_foldl st rs st' : history o mk st rs st' → st' = foldl (applyKeyed o) st rs.
Proof. by induction 1. Qed.

Lemma loggable_sequence st r :
  kinv o mk st → loggable o mk st r → kr_Sequence r = sequence st + 1.
Proof.
  intros Hi [Hf Hs _ _]. rewrite (fr_seq _ _ _ _ Hf), u64_id; [done|].
  pose proof (inv_sequence _ _ _ Hi). unfold u64_range in *. lia.
Qed.

Lemma loggable_inv st r : kinv o mk st → loggable o mk st r → kinv o mk (applyKeyed o st r).
Proof. intros Hi [Hf Hs _ _]. by apply applyKeyed_inv. Qed.

Lemma history_inv st rs st' : kinv o mk st → history o mk st rs st' → kinv o mk st'.
Proof. intros Hi Hh. induction Hh; [done|]. by apply IHHh, loggable_inv. Qed.

Lemma history_sequence st rs st' :
  kinv o mk st → history o mk st rs st' → sequence st' = sequence st + zlen rs.
Proof.
  intros Hi Hh. induction Hh as [|st r rs st' Hr Hh IH]; [unfold zlen; simpl; lia|].
  rewrite IH by (by apply loggable_inv). rewrite applyKeyed_sequence, (loggable_sequence st r) by done.
  unfold zlen. simpl. lia.
Qed.

Lemma foldl_mutations_utf8 (ms : list keyedMutation) (rs : gmap bytes bytes) :
  map_Forall (λ k _, utf8_valid k = true) rs → Forall mutation_utf8 ms →
  map_Forall (λ k _, utf8_valid k = true) (foldl apply_mutation rs ms).
Proof.
  intros Hr Hm. revert rs Hr. induction Hm as [|m ms H Hm IH]; intros rs Hr; [done|].
  cbn [foldl]. apply IH. intros k v. rewrite apply_mutation_lookup. case_decide; [by subst|apply Hr].
Qed.

Lemma loggable_utf8 st r :
  kinv o mk st → state_utf8 st → loggable o mk st r → state_utf8 (applyKeyed o st r).
Proof.
  intros Hi [Hk Hd] Hl. pose proof (lg_storable _ _ _ _ Hl) as [[U1 U2 U3] _].
  destruct (applyKeyed_cases o st r) as (_&E&_);
    [apply Hi|apply Hl|done|apply Hi|]. split.
  - rewrite applyKeyed_records. destruct (kr_Applied r); [|done]. by apply foldl_mutations_utf8.
  - rewrite E. apply Forall_drop, Forall_app. split; [done|]. constructor; [|constructor].
    by split.
Qed.

Lemma history_utf8 st rs st' :
  kinv o mk st → state_utf8 st → history o mk st rs st' → state_utf8 st'.
Proof.
  intros Hi Hu Hh. induction Hh as [|st r rs st' Hr Hh IH]; [done|].
  apply IH; [by apply loggable_inv|by apply loggable_utf8].
Qed.

(** *** What was logged passes the checks of recovery *)

Lemma validate_mutations ms t seen :
  Forall (mutation_bounds o mk) ms → NoDup (map km_Key ms) → (∀ m, m ∈ ms → km_Key m ∉ seen) →
  0 ≤ MaxValueBytes o →
  ∃ seen', res_fold (validate_mutation o mk) (t, seen) ms
           = Ok (t + zsum (map stored_bytes ms), seen').
Proof.
  intros Hb Hn Hs Hv. revert t seen Hs Hn. induction Hb as [|m ms (B1&B2&B3) Hb IH]; intros t seen Hs Hn.
  { exists seen. cbn. by rewrite Z.add_0_r. }
  cbn [res_fold map zsum foldr] in *. apply NoDup_cons in Hn as [Hk Hn].
  unfold validate_mutation at 1, guard_err.
  rewrite (bool_decide_false (km_Key m = [])) by done. cbn [res_bind].
  rewrite (proj2 (Z.ltb_ge _ _)) by done. cbn [res_bind].
  rewrite (bool_decide_false (km_Key m ∈ seen)) by (apply Hs; left). cbn [res_bind].
  assert (km_Delete m && negb (bool_decide (km_Value m = [])) = false) as ->.
  { destruct (km_Delete m); [|done]. by rewrite bool_decide_true. }
  assert (zlen (km_Value m) ≤ MaxValueBytes o) as Hlen by (destruct (km_Delete m); [rewrite B3; done|apply B3]).
  cbn [res_bind]. rewrite (proj2 (Z.ltb_ge _ _)) by done. cbn [res_bind].
  assert (negb (km_Delete m) && negb (json_valid (km_Value m)) = false) as ->.
  { destruct (km_Delete m); [done|]. destruct B3 as [_ ->]. done. }
  cbn [res_bind].
  destruct (IH (t + (zlen (km_Key m) + zlen (km_Value m))) ({[km_Key m]} ∪ seen)) as [seen' ->]; [|done|].
  - intros m' Hm' [E%elem_of_singleton|Hin]%elem_of_union; [|by apply (Hs m'); [right|]].
    apply Hk. rewrite <- E. apply list_elem_of_In, in_map, list_elem_of_In, Hm'.
  - exists seen'. f_equal. f_equal. unfold stored_bytes, zsum. lia.
Qed.

Lemma validateKeyedRecord_loggable st r :
  0 ≤ MaxValueBytes o → loggable o mk st r → validateKeyedRecord o mk r = Ok tt.
Proof.
  intros Hv [Hf _ _ Hb]. pose proof (fr_decision _ _ _ _ Hf) as [H1 H2 H3 H4 H5].
  unfold validateKeyedRecord, guard_err.
  rewrite (bool_decide_false (kr_CommandID r = [])) by done. cbn [res_bind].
  do 3 (rewrite (proj2 (Z.ltb_ge _ _)) by done; cbn [res_bind]).
  assert ((0 <? zlen (kr_Result r)) && negb (json_valid (kr_Result r)) = false) as ->.
  { destruct H5 as [-> | ->]; [done|]. apply andb_false_r. }
  assert (negb (kr_Applied r) && negb (bool_decide (kr_Mutations r = [])) = false) as ->.
  { destruct (kr_Applied r) eqn:E; [done|]. by rewrite (fr_rejected _ _ _ _ Hf E), bool_decide_true. }
  cbn [res_bind]. destruct (validate_mutations (kr_Mutations r) 0 ∅) as [seen ->];
    [apply Hf|apply ascending_nodup, Hf|set_solver|done|].
  cbn [res_bind fst]. by rewrite (proj2 (Z.ltb_ge _ _)) by done.
Qed.

Lemma count_steps rs n ms :
  foldl (count_step rs) n ms = n + zsum (map (count_delta rs) ms).
Proof.
  revert n. induction ms as [|m ms IH]; intros n; cbn [foldl map zsum foldr]; [lia|].
  rewrite IH. unfold count_step, count_delta, zsum. destruct (km_Delete m), (bool_decide _); cbn; lia.
Qed.

Lemma validateKeyedApply_loggable st r :
  loggable o mk st r → validateKeyedApply o st r = Ok tt.
Proof.
  intros [Hf _ _ _]. unfold validateKeyedApply. destruct (kr_Applied r) eqn:E; [|done]. cbn [negb].
  rewrite count_steps, <- foldl_mutations_size by (apply ascending_nodup, Hf).
  unfold guard_err. rewrite (proj2 (Z.ltb_ge _ _)); [done|]. by apply Hf.
Qed.

Hypothesis Hvalue : 0 ≤ MaxValueBytes o.

(** A logged decision continues the state it was made in... *)
Lemma replay_record_next st last r :
  kinv o mk st → loggable o mk st r → last = 0 ∨ last = sequence st →
  replay_record o mk st last r = Ok (applyKeyed o st r).
Proof.
  intros Hi Hl Hlast. pose proof (loggable_sequence st r Hi Hl) as Hs.
  pose proof (inv_sequence _ _ _ Hi) as Hq. pose proof (lg_sequence _ _ _ _ Hl) as Hq'.
  unfold replay_record, guard_err. rewrite Hs.
  assert (u64 (sequence st + 1) = sequence st + 1) as Hu by (apply u64_id; unfold u64_range in *; lia).
  assert ((sequence st + 1 =? 0) || negb (last =? 0) && negb (sequence st + 1 =? u64 (last + 1)) = false) as ->.
  { unfold u64_range in Hq. rewrite (proj2 (Z.eqb_neq _ _)) by lia.
    destruct Hlast as [-> | ->]; [done|]. rewrite Hu, Z.eqb_refl. apply andb_false_r. }
  cbn [res_bind]. rewrite (validateKeyedRecord_loggable st) by done. cbn [res_bind].
  rewrite (proj2 (Z.ltb_lt _ _)), Hu, Z.eqb_refl by lia. cbn [negb res_bind].
  rewrite bool_decide_false by (rewrite (fr_new _ _ _ _ (lg_fresh _ _ _ _ Hl)); by intros [? ?]).
  cbn [res_bind]. by rewrite validateKeyedApply_loggable.
Qed.

(** ... and is skipped by a state that already contains it. *)
Lemma replay_record_skip st st' last r :
  kinv o mk st → loggable o mk st r → last = 0 ∨ last = sequence st → sequence st < sequence st' →
  replay_record o mk st' last r = Ok st'.
Proof.
  intros Hi Hl Hlast Hlt. pose proof (loggable_sequence st r Hi Hl) as Hs.
  pose proof (inv_sequence _ _ _ Hi) as Hq. pose proof (lg_sequence _ _ _ _ Hl) as Hq'.
  unfold replay_record, guard_err. rewrite Hs.
  assert ((sequence st + 1 =? 0) || negb (last =? 0) && negb (sequence st + 1 =? u64 (last + 1)) = false) as ->.
  { unfold u64_range in Hq. rewrite (proj2 (Z.eqb_neq _ _)) by lia.
    destruct Hlast as [-> | ->]; [done|]. rewrite u64_id by (unfold u64_range; lia).
    rewrite Z.eqb_refl. apply andb_false_r. }
  cbn [res_bind]. rewrite (validateKeyedRecord_loggable st) by done. cbn [res_bind].
  by rewrite (proj2 (Z.ltb_ge _ _)) by lia.
Qed.

Lemma loggable_u64 st r : kinv o mk st → loggable o mk st r → u64_range (kr_Sequence r).
Proof.
  intros Hi Hl. rewrite (loggable_sequence st) by done. pose proof (inv_sequence _ _ _ Hi).
  pose proof (lg_sequence _ _ _ _ Hl). unfold u64_range in *. lia.
Qed.

Lemma replay_history st rs st' t fuel last off :
  kinv o mk st → history o mk st rs st' → torn t → last = 0 ∨ last = sequence st →
  (length rs < fuel)%nat →
  replay_loop fuel o mk st last off (frames rs ++ t)
  = Ok (st', if decide (t = []) then None else Some (off + length (frames rs))%nat).
Proof.
  intros Hi Hh Ht. revert fuel last off.
  induction Hh as [st|st r rs st' Hr Hh IH]; intros fuel last off Hlast Hf;
    (destruct fuel as [|fuel]; [simpl in Hf; lia|]).
  { rewrite (replay_loop_torn fuel) by done. by rewrite Nat.add_0_r. }
  rewrite frames_cons, <- app_assoc, replay_loop_frame by first [exact (lg_storable _ _ _ _ Hr)|exact (loggable_u64 st r Hi Hr)].
  rewrite replay_record_next by done. cbn [res_bind]. simpl in Hf.
  rewrite IH; [|by apply loggable_inv|right; by rewrite applyKeyed_sequence|lia].
  rewrite length_app. do 2 f_equal. case_decide; [done|]. f_equal. lia.
Qed.

(** The log may start before the snapshot: [rs1] is skipped. *)
Lemma replay_overlap st0 rs1 st1 rs2 st2 t fuel last off :
  kinv o mk st0 → history o mk st0 rs1 st1 → history o mk st1 rs2 st2 → torn t →
  last = 0 ∨ last = sequence st0 → (length rs1 + length rs2 < fuel)%nat →
  replay_loop fuel o mk st1 last off (frames (rs1 ++ rs2) ++ t)
  = Ok (st2, if decide (t = []) then None else Some (off + length (frames (rs1 ++ rs2)))%nat).
Proof.
  intros Hi Hh1 Hh2 Ht. revert fuel last off.
  induction Hh1 as [st|st r rs st' Hr Hh IH]; intros fuel last off Hlast Hf.
  { by apply replay_history. }
  destruct fuel as [|fuel]; [simpl in Hf; lia|].
  pose proof (loggable_inv st r Hi Hr) as Hi'.
  cbn [app]. rewrite frames_cons, <- app_assoc, replay_loop_frame by first [exact (lg_storable _ _ _ _ Hr)|exact (loggable_u64 st r Hi Hr)].
  pose proof (history_sequence _ _ _ Hi' Hh) as Hs.
  rewrite applyKeyed_sequence, (loggable_sequence st r Hi Hr) in Hs.
  rewrite (replay_record_skip st) by (done || (pose proof (zlen_nonneg rs); lia)). cbn [res_bind]. simpl in Hf.
  rewrite IH; [|done|done|right; by rewrite applyKeyed_sequence|lia].
  rewrite length_app. do 2 f_equal. case_decide; [done|]. f_equal. lia.
Qed.
End history.
