(* ===== verification/KeyedCommit.v ===== *)
(** * The commit coordinator ([keyed.go])

    The single authority that executes queued commands: [processCommitGroup]
    runs a group in order, appends one frame per persisted decision, makes one
    shared [Sync] and answers every request; [runCommitCoordinator] cuts the
    queue into groups; the public operations enter through the admission
    channel.  A context is nil, done or live; [CtxLate] becomes done while the
    caller waits for the admission token. *)

From Stdlib Require Import ZArith Lia Strings.Byte Strings.String Sorted.
From stdpp Require Import base decidable countable list gmap.
From S2P Require Import Prelude GoText GoJson Errors GoOS Keyed KeyedStorage.

Local Open Scope Z_scope.
Local Open Scope go_scope.

Inductive context :=
| CtxNil
| CtxDone
| CtxLate
| CtxLive.

(** ** One group *)

(** [staged] is nil for a group of one. *)
Record group_state (H : Type) := {
  gs_db : KeyedDB H;
  gs_results : list keyedCommitResult;
  gs_durable : list bool;
  gs_staged : option (gmap bytes nat);
  gs_frames : Z;
  gs_storageErr : option gerror }.
Arguments gs_db {H}. Arguments gs_results {H}. Arguments gs_durable {H}.
Arguments gs_staged {H}. Arguments gs_frames {H}. Arguments gs_storageErr {H}.
Arguments Build_group_state {H}.

Definition poisoned_error (op message : string) : gerror := err_new ErrorPoisoned op message.
Arguments poisoned_error _%_string _%_string.
Definition database_unsafe : string :=
  "an earlier durability failure made the database unsafe; close and reopen the database".
Definition writes_unsafe : string :=
  "an earlier durability failure made writes unsafe; close and reopen the database".

Definition result_err (e : gerror) : keyedCommitResult :=
  {| rs_decision := zeroDecision; rs_err := Some e; rs_panicValue := None |}.
Definition result_decided (d : KeyedDecision) : keyedCommitResult :=
  {| rs_decision := d; rs_err := None; rs_panicValue := None |}.
Definition result_panic (v : bytes) : keyedCommitResult :=
  {| rs_decision := zeroDecision; rs_err := None; rs_panicValue := Some v |}.
Definition zeroResult : keyedCommitResult := result_decided zeroDecision.

(** [safelyExecuteKeyed]: the result of a request, and the record to persist. *)
Definition safelyExecuteKeyed (o : KeyedOptions) (st : kstate) (rq : keyedCommitRequest)
    : keyedCommitResult * option keyedWALRecord :=
  match executeKeyed o st rq with
  | ExPanic v => (result_panic v, None)
  | ExError e => (result_err e, None)
  | ExDuplicate d => (result_decided d, None)
  | ExPersist r => (result_decided (decision r), Some r)
  end.

(** The results so far, with the next request answered. *)
Definition answer {H} (g : group_state H) (res : keyedCommitResult) (dur : bool) : group_state H :=
  Build_group_state (gs_db g) (gs_results g ++ [res]) (gs_durable g ++ [dur]) (gs_staged g)
    (gs_frames g) (gs_storageErr g).

(** The original of a command staged earlier in the group and still retained. *)
Definition staged_original {H} (g : group_state H) (id : bytes) : option nat :=
  original ← (m ← gs_staged g; m !! id);
  _ ← dedupe (db_state (gs_db g)) !! id;
  Some original.

(** The error of a failed append replaces the error of the result only. *)
Definition with_err (res : keyedCommitResult) (e : gerror) : keyedCommitResult :=
  {| rs_decision := rs_decision res; rs_err := Some e; rs_panicValue := rs_panicValue res |}.

Definition group_step {H} (g : group_state H) (rq : keyedCommitRequest) (w : world)
    : group_state H * world :=
  let db := gs_db g in
  let index := length (gs_results g) in
  if db_poisoned db then (answer g (result_err (poisoned_error "submit_keyed" database_unsafe)) false, w)
  else if rq_ctxDone rq then (answer g (result_err ECtx) false, w)
  else
  match staged_original g (rq_command rq) with
  | Some original =>
      (answer g (result_decided (as_duplicate (rs_decision (default zeroResult (gs_results g !! original)))))
         true, w)
  | None =>
      let '(res, persist) := safelyExecuteKeyed (db_options db) (db_state db) rq in
      match persist with
      | None => (answer g res false, w)
      | Some r =>
          match appendKeyedFrame db r w with
          | (Err e, w') =>
              (Build_group_state (set_poisoned db) (gs_results g ++ [with_err res e])
                 (gs_durable g ++ [false]) (gs_staged g) (gs_frames g) (Some e), w')
          | (Ok _, w') =>
              (Build_group_state (db_apply db r) (gs_results g ++ [res]) (gs_durable g ++ [true])
                 (fmap (<[kr_CommandID r := index]>) (gs_staged g)) (u64 (gs_frames g + 1))
                 (gs_storageErr g), w')
          end
      end
  end.

Fixpoint group_steps {H} (g : group_state H) (rqs : list keyedCommitRequest) (w : world)
    : group_state H * world :=
  match rqs with
  | [] => (g, w)
  | rq :: rqs => let '(g', w') := group_step g rq w in group_steps g' rqs w'
  end.

Definition count_group (frames : Z) (s : keyedCommitStats) : keyedCommitStats :=
  {| syncCalls := u64 (syncCalls s + 1); framesSynced := u64 (framesSynced s + frames);
     groups := u64 (groups s + 1); maxGroup := Z.max (maxGroup s) frames;
     groupSizes := <[frames := u64 (default 0 (groupSizes s !! frames) + 1)]> (groupSizes s) |}.

(** Every result that depends on the shared [Sync] becomes its error. *)
Definition fail_durable (e : gerror) (results : list keyedCommitResult) (durable : list bool)
    : list keyedCommitResult :=
  zip_with (fun (res : keyedCommitResult) (dur : bool) => if dur then result_err e else res)
    results durable.

(** [afterSync] is an observer without effect on the database. *)
Definition processCommitGroup {H} (db : KeyedDB H) (group : list keyedCommitRequest) (w : world)
    : list keyedCommitResult * KeyedDB H * world :=
  let g0 := Build_group_state db [] [] (if (1 <? length group)%nat then Some ∅ else None) 0 None in
  let '(g, w1) := group_steps g0 group w in
  let sync := (0 <? gs_frames g) && bool_decide (gs_storageErr g = None) in
  let '(db1, storageErr, w2) :=
    if sync then
      match syncKeyed (gs_db g) w1 with
      | (Ok _, w2) => (gs_db g, None, w2)
      | (Err e, w2) => (set_poisoned (gs_db g), Some e, w2)
      end
    else (gs_db g, gs_storageErr g, w1) in
  match storageErr with
  | Some e => (fail_durable e (gs_results g) (gs_durable g), db1, w2)
  | None =>
      (gs_results g,
       if 0 <? gs_frames g then set_stats (count_group (gs_frames g) (db_stats db1)) db1 else db1, w2)
  end.

(** ** The coordinator *)

Definition group_limit {H} (db : KeyedDB H) : nat :=
  if db_disabled db then 1 else keyedMaxCommitGroup.

(** One turn of the inner loop: a prefix of the queue is taken and processed. *)
Definition take_group {H} (db : KeyedDB H) (w : world) : list keyedCommitResult * KeyedDB H * world :=
  let limit := Nat.min (group_limit db) (length (db_queue db)) in
  let group := take limit (db_queue db) in
  processCommitGroup (set_queue (drop limit (db_queue db)) db) group w.

(** The inner loop until the queue is empty: the results in queue order. *)
Fixpoint runCommitCoordinator {H} (fuel : nat) (db : KeyedDB H) (w : world)
    : list keyedCommitResult * KeyedDB H * world :=
  match fuel with
  | O => ([], db, w)
  | S fuel =>
      match db_queue db with
      | [] => ([], db, w)
      | _ =>
          let '(rs, db', w') := take_group db w in
          let '(rs', db'', w'') := runCommitCoordinator fuel db' w' in
          (rs ++ rs', db'', w'')
      end
  end.

(** ** The public operations *)

Definition closed_error (op : string) : gerror := err_new ErrorClosed op "database is closed".
Arguments closed_error _%_string.

(** [SubmitKeyed] up to the point where the request is queued. *)
Definition SubmitKeyed_enqueue {H} (db : KeyedDB H) (ctx : context) (id : bytes)
    (mutation : option KeyedMutation) : res gerror (KeyedDB H) :=
  fail_if db_closed db with closed_error "submit_keyed";
  fail_if match ctx with CtxNil => true | _ => false end
    with err_new ErrorInvalidInput "submit_keyed" "nil context";
  fail_if db_poisoned db with poisoned_error "submit_keyed" database_unsafe;
  Ok (set_queue (db_queue db ++ [{|
        rq_ctxDone := match ctx with CtxLive => false | _ => true end;
        rq_command := id; rq_mutation := mutation |}]) db).

Inductive submit_outcome :=
| SubmitPanic (value : bytes)
| SubmitReturn (d : KeyedDecision) (err : option gerror).

Definition submit_result (res : keyedCommitResult) : submit_outcome :=
  match rs_panicValue res with
  | Some v => SubmitPanic v
  | None => SubmitReturn (rs_decision res) (rs_err res)
  end.

(** [SubmitKeyed] with no other caller: the queue holds this request only. *)
Definition SubmitKeyed {H} (db : KeyedDB H) (ctx : context) (id : bytes)
    (mutation : option KeyedMutation) (w : world) : submit_outcome * KeyedDB H * world :=
  match SubmitKeyed_enqueue db ctx id mutation with
  | Err e => (SubmitReturn zeroDecision (Some e), db, w)
  | Ok db1 =>
      let '(rs, db2, w') := runCommitCoordinator (length (db_queue db1)) db1 w in
      (match last rs with
       | Some res => submit_result res
       | None => SubmitReturn zeroDecision None
       end, db2, w')
  end.

(** [enterKeyed]: the second checks of [closed] and [poisoned] run under the
    admission token, where the database is the same as seen here. *)
Definition enterKeyed {H} (db : KeyedDB H) (ctx : context) (op : string) : res gerror unit :=
  fail_if db_closed db with closed_error op;
  fail_if match ctx with CtxNil => true | _ => false end with err_new ErrorInvalidInput op "nil context";
  fail_if db_poisoned db with poisoned_error op database_unsafe;
  fail_if match ctx with CtxDone | CtxLate => true | _ => false end with ECtx;
  fail_if db_closed db with closed_error op;
  fail_if db_poisoned db with poisoned_error op writes_unsafe;
  Ok tt.
Arguments enterKeyed {H} _ _ _%_string.

Definition GetKeyed {H} (db : KeyedDB H) (ctx : context) (key : bytes) (dst : option (bytes → bool))
    : res gerror (option bytes) :=
  let! _ := enterKeyed db ctx "get_keyed" in
  match dst with
  | None => Err (err_new ErrorInvalidInput "get_keyed" "key and destination are required")
  | Some accepts =>
      fail_if bool_decide (key = [])
        with err_new ErrorInvalidInput "get_keyed" "key and destination are required";
      fail_if keyedMaxKeyBytes <? zlen key with err_new ErrorCapacity "get_keyed" "key exceeds 4 KiB";
      match records (db_state db) !! key with
      | None => Ok None
      | Some value =>
          fail_if negb (accepts value) with EError ErrorCorruption "get_keyed" (EMsg "json");
          Ok (Some value)
      end
  end.

Definition SnapshotKeyed {H} (windows : bool) (db : KeyedDB H) (ctx : context) (w : world)
    : option gerror * KeyedDB H * world :=
  match enterKeyed db ctx "snapshot_keyed" with
  | Err e => (Some e, db, w)
  | Ok _ =>
      match snapshotKeyed windows db w with
      | (Ok _, w') => (None, db, w')
      | (Err e, w') => (Some e, set_poisoned db, w')
      end
  end.

(** [Close]: the coordinator drains the queue before it stops. *)
Definition Close {H} (windows : bool) (db : KeyedDB H) (w : world)
    : list keyedCommitResult * option gerror * KeyedDB H * world :=
  if db_closed db then ([], None, db, w)
  else
    let '(rs, db1, w1) := runCommitCoordinator (length (db_queue db)) (set_closed db) w in
    if db_poisoned db1 then
      let '((e, db2), w2) := wal_close db1 w1 in (rs, e, db2, w2)
    else
      match snapshotKeyed windows db1 w1 with
      | (Err e, w2) => let '((_, db2), w3) := wal_close db1 w2 in (rs, Some e, db2, w3)
      | (Ok _, w2) => let '((e, db2), w3) := wal_close db1 w2 in (rs, e, db2, w3)
      end.

(** [openKeyed]: a new handle has no [afterApply] hook; the caller sets it. *)
Definition openKeyed {H} (windows : bool) (hook : H) (ctx : context) (path : bytes)
    (options : KeyedOptions) (format : bytes) : io (KeyedDB H) :=
  match ctx with
  | CtxNil => io_err (err_new ErrorInvalidInput "open_keyed" "nil context")
  | CtxDone => io_err ECtx
  | CtxLate | CtxLive =>
      normalized ← io_res (normalizeKeyedOptions options);
      if blank path then io_err (err_new ErrorInvalidInput "open_keyed" "path is required")
      else openStorage windows
             (Build_KeyedDB normalized format empty_kstate None false false hook None None None []
                false zero_stats)
  end.

Definition OpenKeyed (windows : bool) (ctx : context) (path : bytes) (options : KeyedOptions)
    : io (KeyedDB unit) :=
  openKeyed windows tt ctx path options keyedFormatContents.
