(* ===== verification/KeyedDurability.v ===== *)
(** * Durability of the keyed database

    Theorems about [KeyedStorage.v] and [KeyedCommit.v] over the file model of
    [GoOS.v]: for every schedule of I/O faults and every crash, recovery finds
    the acknowledged commands, and nothing else than a prefix of the commands
    in flight besides. *)

From Stdlib Require Import ZArith Lia Strings.Byte Strings.String Sorted.
From stdpp Require Import base decidable countable list gmap.
From S2P Require Import Prelude GoText GoBinary GoJson Errors GoOS Keyed KeyedStorage KeyedRecovery.
From S2P Require Import KeyedCommit.

Local Open Scope Z_scope.
Local Open Scope go_scope.

(** ** The log file while frames are pending *)

(** The appends of frames at the end of the log. *)
Fixpoint log_writes (off : nat) (ps : list keyedWALRecord) : list fmod :=
  match ps with
  | [] => []
  | p :: ps => FWrite off (frame p) :: log_writes (off + length (frame p)) ps
  end.

Lemma log_writes_app off ps qs :
  log_writes off (ps ++ qs) = log_writes off ps ++ log_writes (off + length (frames ps)) qs.
Proof.
  revert off. induction ps as [|p ps IH]; intros off; cbn [log_writes app].
  - by rewrite Nat.add_0_r.
  - rewrite IH, frames_cons, length_app. do 2 f_equal. f_equal. lia.
Qed.

Lemma apply_frame ls p :
  apply_mod (frames ls) (FWrite (length (frames ls)) (frame p)) = frames (ls ++ [p]).
Proof. cbn [apply_mod]. rewrite write_at_end, frames_app. unfold frames at 3. cbn. by rewrite app_nil_r. Qed.

Lemma log_writes_content ls ps :
  foldl apply_mod (frames ls) (log_writes (length (frames ls)) ps) = frames (ls ++ ps).
Proof.
  revert ls. induction ps as [|p ps IH]; intros ls; cbn [log_writes foldl]; [by rewrite app_nil_r|].
  rewrite apply_frame. specialize (IH (ls ++ [p])).
  assert (length (frames (ls ++ [p])) = length (frames ls) + length (frame p))%nat as E.
  { rewrite frames_app, length_app. unfold frames at 2. cbn. by rewrite app_nil_r. }
  rewrite E, <- app_assoc in IH. done.
Qed.

Lemma torn_take n t : torn t → torn (take n t).
Proof.
  intros [-> |(r&rest&Hs&E&Hr)]; [left; by rewrite take_nil|]. right.
  exists r, (drop n t ++ rest). rewrite app_assoc, take_drop. split; [done|]. split; [done|].
  intros [_ ?]%app_nil. done.
Qed.

Lemma torn_frame n r : storable r → (n < length (frame r))%nat → torn (take n (frame r)).
Proof.
  intros Hs Hn. right. exists r, (drop n (frame r)). rewrite take_drop. split; [done|]. split; [done|].
  intros E. apply (f_equal length) in E. rewrite length_drop in E. cbn [length] in E. lia.
Qed.

(** The log file: [ls] synchronized, [ps] written, and possibly one more write
    that failed half way. *)
Definition wal_file (ls ps : list keyedWALRecord) (f : file) : Prop :=
  stable f = frames ls ∧ ∃ tw, pending f = log_writes (length (frames ls)) ps ++ tw ∧
    (tw = [] ∨ ∃ t, tw = [FWrite (length (frames (ls ++ ps))) t] ∧ torn t).

Lemma wal_file_survives ls ps f c :
  Forall storable ps → wal_file ls ps f → survives f c →
  ∃ k t, c = frames (ls ++ take k ps) ++ t ∧ torn t.
Proof.
  intros Hst (Hs&tw&Hp&Htw) (dn&rest&E&Hc). rewrite Hp in E. rewrite Hs in Hc. clear Hs Hp.
  revert ls dn E Hc Htw. induction Hst as [|p ps Hp Hst IH]; intros ls dn E Hc Htw.
  - exists 0%nat. cbn [log_writes app] in E. rewrite app_nil_r in *.
    destruct Htw as [-> |(t&->&Ht)].
    + symmetry in E. apply app_nil in E as [-> ->]. exists []. rewrite app_nil_r.
      split; [|by left]. destruct Hc as [-> |(?&?&?&?&?&?)]; done.
    + destruct dn as [|m dn]; cbn [app] in E.
      * destruct Hc as [-> |(off&d&n&rest'&E'&->)]; [exists []; rewrite app_nil_r; split; [done|by left]|].
        rewrite E' in E. simplify_eq. exists (take n d). cbn [foldl apply_mod]. rewrite write_at_end.
        split; [done|by apply torn_take].
      * simplify_eq. symmetry in H0. apply app_nil in H0 as [-> ->]. exists t.
        destruct Hc as [-> |(?&?&?&?&?&?)]; [|done]. cbn [foldl apply_mod]. by rewrite write_at_end.
  - destruct dn as [|m dn]; cbn [log_writes app] in E.
    + destruct Hc as [-> |(off&d&n&rest'&E'&->)].
      { exists 0%nat, []. cbn [take]. rewrite !app_nil_r. split; [done|by left]. }
      rewrite E' in E. simplify_eq. cbn [foldl apply_mod]. rewrite write_at_end.
      destruct (decide (n < length (frame p))%nat) as [Hn|Hn].
      * exists 0%nat, (take n (frame p)). cbn [take]. rewrite app_nil_r.
        split; [done|by apply torn_frame].
      * exists 1%nat, []. rewrite firstn_all2 by lia. cbn [take]. rewrite app_nil_r, frames_app.
        unfold frames at 3. cbn. rewrite app_nil_r. split; [done|by left].
    + simplify_eq. cbn [foldl] in Hc. rewrite apply_frame in Hc.
      assert (length (frames (ls ++ [p])) = length (frames ls) + length (frame p))%nat as El.
      { rewrite frames_app, length_app. unfold frames at 2. cbn. by rewrite app_nil_r. }
      destruct (IH (ls ++ [p]) dn) as (k&t&->&Ht); [by rewrite El|done|by rewrite <- app_assoc|].
      exists (S k), t. cbn [take]. by rewrite <- app_assoc.
Qed.

(** ** Recovery as a function of the stored bytes *)

Definition recover (o : KeyedOptions) (mk : Z) (snap : option bytes) (log : bytes)
    : res gerror (kstate * option nat) :=
  let! st := match snap with Some d => decode_snapshot o mk d | None => Ok empty_kstate end in
  replay_loop (S (length log)) o mk st 0 0 log.

(** The content a directory gives a name, after a crash. *)
Definition stored_file (w : world) (name : bytes) : option bytes :=
  i ← w_dir w !! name; Some (content (inode i w)).

(** What the next [openStorage] will make of the directory. *)
Definition recovered (o : KeyedOptions) (mk : Z) (w : world) : res gerror (kstate * option nat) :=
  recover o mk (stored_file w snapshot_name) (default [] (stored_file w wal_name)).

Definition calm (w : world) : Prop := w_faults w = [].

Lemma call_calm {A} name (f : io A) w : calm w → call name f w = f w.
Proof. unfold calm, call, tick. by intros ->. Qed.

Lemma calm_pos p w : calm w → calm (with_pos p w).
Proof. done. Qed.
Lemma calm_inodes l w : calm w → calm (with_inodes l w).
Proof. done. Qed.

(** The worlds in which the log [i] was opened, and cut at [tail]. *)
Record opened (w : world) (i : nat) (tail : option nat) (w' : world) : Prop := {
  op_dir : w_dir w' = w_dir w;
  op_hist : w_hist w' = w_hist w;
  op_next : w_next w' = w_next w;
  op_calm : calm w';
  op_other : ∀ j, j ≠ i → w_inodes w' !! j = w_inodes w !! j;
  op_wal : match tail with
           | None => w_inodes w' = w_inodes w
           | Some off => w_inodes w' !! i
               = Some {| stable := apply_mod (content (inode i w)) (FTrunc off); pending := [] |}
           end;
  op_pos : w_pos w' = length (content (inode i w')) }.

Lemma replay_opened {H} (db : KeyedDB H) w i st tail :
  calm w →
  replay_loop (S (length (content (inode i w)))) (db_options db) (maxStoredKeyBytes (db_format db))
    (db_state db) 0 0 (content (inode i w)) = Ok (st, tail) →
  ∃ w', (on_error (ignore close_file)
          (db ← replayKeyedWAL db i; _ ← io_wrap ErrorStorage "open_keyed" (seek_end i); mret db))
          (with_pos 0 w) = (Ok (set_state st db), w') ∧ opened w i tail w'.
Proof.
  intros Hc E. unfold on_error, replayKeyedWAL, io_wrap, mbind, io_bind, seek.
  rewrite !call_calm by done. unfold io_res.
  change (content (inode i (with_pos 0 (with_pos 0 w)))) with (content (inode i w)). rewrite E.
  destruct tail as [off|].
  - unfold truncateKeyedTail, truncate, sync_file, io_wrap, mbind, io_bind.
    rewrite call_calm by done. rewrite call_calm by done. unfold mret, io_ret, seek_end.
    rewrite call_calm by done. eexists. split; [reflexivity|]. split; try done; cbn.
    + intros j Hj. by rewrite !lookup_insert_ne.
    + rewrite lookup_insert_eq. unfold inode at 1. cbn. rewrite lookup_insert_eq. cbn.
      unfold settle. do 2 f_equal. by rewrite content_modify.
  - unfold mret, io_ret, seek_end. rewrite call_calm by done. eexists. by split.
Qed.

(** [openStorage] on an existing directory computes [recovered], and cuts a
    torn tail off the log. *)
Lemma openStorage_recovered {H} windows (db : KeyedDB H) w i st tail :
  calm w → stored_file w format_name = Some (db_format db) → db_state db = empty_kstate →
  w_dir w !! wal_name = Some i →
  recovered (db_options db) (maxStoredKeyBytes (db_format db)) w = Ok (st, tail) →
  ∃ w', openStorage windows db w = (Ok (set_state st (set_wal (Some i) db)), w') ∧ opened w i tail w'.
Proof.
  intros Hc Hf He Hi Hr. unfold recovered, recover, stored_file in *. rewrite Hi in Hr.
  cbn [mbind option_bind default] in Hr.
  destruct (w_dir w !! format_name) as [fi|] eqn:Hfi; [|done]. cbn [mbind option_bind] in Hf.
  injection Hf as Hf. unfold openStorage. unfold mbind at 1, io_bind at 1.
  unfold ensureKeyedFormat, mkdir_all, io_wrap, attempt, mbind at 1 2, io_bind at 1 2.
  rewrite call_calm by done. cbn [mret io_ret]. unfold mret at 1, io_ret at 1.
  unfold read_file at 1. rewrite Hfi, call_calm by done. rewrite Hf, bool_decide_true by done.
  unfold mret at 1, io_ret at 1. unfold mbind at 1, io_bind at 1.
  unfold loadKeyedSnapshot, attempt. unfold mbind at 1, io_bind at 1. unfold read_file.
  destruct (w_dir w !! snapshot_name) as [si|] eqn:Hsi; cbn [mbind option_bind] in Hr.
  - rewrite call_calm by done. destruct (decode_snapshot _ _ _) as [s0|] eqn:Hd; [|done].
    cbn [res_bind] in Hr. unfold mbind at 1, io_bind at 1, io_res at 1. unfold mret at 1, io_ret at 1.
    unfold mbind at 1, io_bind at 1. unfold open_rw. rewrite call_calm, Hi by done.
    by apply (replay_opened (set_wal (Some i) (set_state s0 db))).
  - cbn [res_bind] in Hr. unfold mret at 1, io_ret at 1.
    unfold mbind at 1, io_bind at 1. unfold open_rw. rewrite call_calm, Hi by done. rewrite <- He in Hr.
    by apply (replay_opened (set_wal (Some i) db)).
Qed.

(** ** The stored database *)

(** The snapshot file of a directory is the one of [base], or there is none
    and [base] is the empty database. *)
Definition snapshot_in (w : world) (wal : nat) (base : kstate) (d : gmap bytes nat) : Prop :=
  match d !! snapshot_name with
  | None => base = empty_kstate
  | Some j => j ≠ wal ∧ w_inodes w !! j
      = Some {| stable := snapshot_envelope (snapshot_of base); pending := [] |}
  end.

(** The FORMAT marker is in place. *)
Definition format_in (fmt : bytes) (w : world) (wal : nat) (d : gmap bytes nat) : Prop :=
  ∃ j, d !! format_name = Some j ∧ j ≠ wal ∧ w_inodes w !! j = Some {| stable := fmt; pending := [] |}.

Definition dir_ok (fmt : bytes) (w : world) (wal : nat) (base : kstate) (d : gmap bytes nat) : Prop :=
  d !! wal_name = Some wal ∧ snapshot_in w wal base d ∧ format_in fmt w wal d.

(** The files of a directory besides the log. *)
Definition refers (d : gmap bytes nat) (j : nat) : Prop :=
  d !! snapshot_name = Some j ∨ d !! format_name = Some j.

Definition same_names (d d' : gmap bytes nat) : Prop :=
  d' !! wal_name = d !! wal_name ∧ d' !! snapshot_name = d !! snapshot_name
  ∧ d' !! format_name = d !! format_name.

Lemma dir_ok_same fmt w w' wal s d d' :
  same_names d d' → (∀ j, refers d j → w_inodes w' !! j = w_inodes w !! j) →
  dir_ok fmt w wal s d → dir_ok fmt w' wal s d'.
Proof.
  unfold dir_ok, snapshot_in, format_in. intros (->&->&->) Hj (H1&H2&fi&H3&H4&H5). split; [done|]. split.
  - destruct (d !! snapshot_name) as [j|] eqn:E; [|done]. by rewrite Hj by (by left).
  - exists fi. by rewrite Hj by (by right).
Qed.

Lemma dir_ok_refers fmt w wal s d j :
  dir_ok fmt w wal s d → refers d j →
  j ≠ wal ∧ ∃ c, w_inodes w !! j = Some {| stable := c; pending := [] |}.
Proof.
  intros (_&H2&fi&H3&H4&H5) [E|E]; [|by simplify_eq; eauto]. unfold snapshot_in in H2.
  rewrite E in H2. destruct H2. eauto.
Qed.

(** A change of the log, or of a file no directory names. *)
Lemma dir_ok_inode fmt w wal s d i f w' :
  w_inodes w' = <[i := f]> (w_inodes w) → ¬ refers d i ∨ i = wal →
  dir_ok fmt w wal s d → dir_ok fmt w' wal s d.
Proof.
  intros E Hi Hd. eapply dir_ok_same; [done| |done]. intros j Hj. rewrite E, lookup_insert_ne; [done|].
  intros <-. destruct Hi as [Hi| ->]; [done|]. by destruct (dir_ok_refers _ _ _ _ _ _ Hd Hj).
Qed.

Lemma tmp_ne_wal : snapshot_tmp ≠ wal_name.
Proof. intros H. apply (f_equal length) in H. discriminate H. Qed.
Lemma tmp_ne_snapshot : snapshot_tmp ≠ snapshot_name.
Proof. intros H. apply (f_equal length) in H. discriminate H. Qed.
Lemma tmp_ne_format : snapshot_tmp ≠ format_name.
Proof. intros H. apply (f_equal length) in H. discriminate H. Qed.
Lemma snapshot_ne_wal : snapshot_name ≠ wal_name.
Proof. intros H. apply (f_equal length) in H. discriminate H. Qed.
Lemma snapshot_ne_format : snapshot_name ≠ format_name.
Proof. intros H. apply (f_equal length) in H. discriminate H. Qed.
#[export] Hint Resolve tmp_ne_wal tmp_ne_snapshot tmp_ne_format snapshot_ne_wal snapshot_ne_format : go.

(** The database [st] is stored: the snapshot holds [base], the log continues it
    with [rs] (after frames [old] that a crash left behind), [ps] are written
    and not yet synchronized. *)
Record stored (fmt : bytes) (o : KeyedOptions) (mk : Z) (w : world) (wal : nat)
    (prev base : kstate) (old rs : list keyedWALRecord) (mid : kstate)
    (ps : list keyedWALRecord) (st : kstate) : Prop := {
  sd_inv : kinv o mk prev;
  sd_utf8 : state_utf8 prev;
  sd_old : history o mk prev old base;
  sd_rs : history o mk base rs mid;
  sd_ps : history o mk mid ps st;
  sd_dirs : ∀ d, d ∈ w_dir w :: w_hist w → dir_ok fmt w wal base d;
  sd_next : ∀ j, is_Some (w_inodes w !! j) → (j < w_next w)%nat;
  sd_wal : ∃ f, w_inodes w !! wal = Some f ∧ wal_file (old ++ rs) ps f }.

(** The log is at its end and nothing failed on it. *)
Definition ready (w : world) (wal : nat) (ls ps : list keyedWALRecord) : Prop :=
  w_inodes w !! wal = Some {| stable := frames ls; pending := log_writes (length (frames ls)) ps |}
  ∧ w_pos w = length (frames (ls ++ ps)).

(** ** Replacing a file *)

(** Writing a new file, for a family of assertions [P F] that say that inode [i]
    satisfies [F]. *)
Section write_sync_close.
Context (i : nat) (P : (file → Prop) → world → Prop).
Hypothesis P_steady : ∀ F, steady (P F).
Hypothesis P_mono : ∀ F F' : file → Prop, (∀ f, F f → F' f) → ∀ w, P F w → P F' w.
Hypothesis P_update : ∀ (F F' : file → Prop) g w, P F w → (∀ f, F f → F' (g f)) →
  P F' (with_inodes (<[i := g (inode i w)]> (w_inodes w)) w).

Lemma write_all_hoare data :
  hoare (P (λ f, content f = [])) (write_all i 0 data) (λ _, P (λ f, content f = data)) (P (λ _, True)).
Proof.
  assert (∀ d f, content f = [] → content (modify (FWrite 0 d) f) = d) as Hw.
  { intros d f Hf. rewrite content_modify, Hf. cbn. unfold write_at. cbn. by rewrite drop_nil, app_nil_r. }
  unfold write_all. eapply (hoare_bind _ _ _ (λ '(n, e) w, P (λ _, True) w ∧
    (e = None → n = length data → P (λ f, content f = data) w))).
  - intros w HP. unfold write_file. destruct (tick_faults w) as [l El].
    destruct (tick w) as [[| |n rep] w'] eqn:Et; cbn in El; subst w'; cbn [fst snd].
    + split; [|intros _ _]; (eapply P_update; [by apply P_steady|]); [done|apply Hw].
    + split; [|done]. eapply P_mono; [|by apply P_steady]. done.
    + split; [eapply P_update; [by apply P_steady|done]|]. intros _ En. rewrite En, firstn_all.
      eapply P_update; [by apply P_steady|apply Hw].
  - intros [n [e|]].
    + apply hoare_err. by intros w [? _].
    + case_bool_decide as En; [|apply hoare_err; by intros w [? _]]. intros w [_ Hd]. cbn. auto.
Qed.

Lemma write_sync_close_hoare data :
  hoare (P (λ f, content f = [])) (write_sync_close i data)
    (λ _, P (λ f, f = {| stable := data; pending := [] |})) (P (λ _, True)).
Proof.
  set (F r f := match r : res gerror unit with Ok _ => f = {| stable := data; pending := [] |} | Err _ => True end).
  eapply (hoare_bind _ _ _ (λ r, P (F r))).
  { eapply hoare_conseq; [eapply (hoare_attempt _ _ (λ _, P (F (Ok tt))) (P (λ _, True)))|done| |by intros w Hw].
    2:{ intros [[]|e] w Hw; exact Hw. }
    eapply hoare_bind; [apply write_all_hoare|]. intros [].
    apply hoare_call; [apply P_steady|by apply P_mono|]. intros w HP.
    eapply P_update; [done|]. intros f <-. done. }
  intros r. eapply (hoare_bind _ _ _ (λ _, P (F r))).
  { eapply hoare_conseq; [eapply (hoare_attempt (P _) _ (λ _, P _) (P _))|done| |by intros w Hw].
    - apply hoare_call; [apply P_steady|done|]. intros w Hw. exact Hw.
    - intros [[]|e] w Hw; exact Hw. }
  intros c. destruct r as [[]|e], c as [[]|e']; try (apply hoare_err; by apply P_mono). by intros w Hw.
Qed.
End write_sync_close.

(** The world after the directory has been synchronized. *)
Definition synced (w : world) : world :=
  {| w_dir := w_dir w; w_hist := []; w_inodes := w_inodes w; w_next := w_next w;
     w_pos := w_pos w; w_faults := w_faults w |}.

Lemma syncDirectory_hoare (P Q E : world → Prop) :
  steady P → steady Q → (∀ w, P w → E w) → (∀ w, Q w → E w) → (∀ w, P w → Q (synced w)) →
  hoare P (syncDirectory false) (λ _, Q) E.
Proof.
  intros HP HQ HPE HQE HPQ. unfold syncDirectory.
  set (R (r : res gerror unit) w := match r with Ok _ => Q w | Err _ => P w end).
  eapply (hoare_bind _ _ _ (λ _, P)); [apply hoare_call; [done|done|]; by intros w Hw|].
  intros []. eapply (hoare_bind _ _ _ R).
  { eapply hoare_conseq; [eapply (hoare_attempt P _ (λ _, Q) P)|done| |by intros w Hw].
    2:{ intros [[]|e] w Hw; exact Hw. }
    apply hoare_call; [done|done|]. intros w Hw. by apply HPQ. }
  intros r. eapply (hoare_bind _ _ _ (λ _, R r)).
  { intros w Hw. unfold attempt, close_file, call. destruct (tick_faults w) as [l El].
    destruct (tick w) as [[| |n b] w'] eqn:Et; cbn in El; subst w'; destruct r; by (apply HP || apply HQ). }
  intros c. destruct r as [[]|e], c as [[]|e']; try (apply hoare_err; by auto). by intros w Hw.
Qed.

Lemma and_steady P Q : steady P → steady Q → steady (λ w, P w ∧ Q w).
Proof. intros H1 H2 w l [??]. split; auto. Qed.

Section durability.
Context (fmt : bytes) (o : KeyedOptions) (mk : Z).
Hypothesis Hhorizon : 0 < DedupeHorizon o.
Hypothesis Hvalue : 0 ≤ MaxValueBytes o.
Hypothesis Htransaction : 0 ≤ MaxTransactionBytes o.

Lemma history_storable st rs st' : history o mk st rs st' → Forall storable rs.
Proof. induction 1 as [|st r rs st' Hr]; constructor; [apply (lg_storable _ _ _ _ Hr)|done]. Qed.

Lemma history_take st rs st' k :
  history o mk st rs st' → history o mk st (take k rs) (foldl (applyKeyed o) st (take k rs)).
Proof.
  intros Hh. revert k. induction Hh as [|st r rs st' Hr Hh IH]; intros [|k]; cbn [take foldl];
    econstructor; eauto.
Qed.

Lemma frame_nonempty r : (0 < length (frame r))%nat.
Proof. rewrite frame_length. lia. Qed.

Lemma frames_ge rs : (length rs ≤ length (frames rs))%nat.
Proof.
  induction rs as [|r rs IH]; [done|]. rewrite frames_cons, length_app. pose proof (frame_nonempty r).
  simpl. lia.
Qed.

(** *** What a crash leaves *)

(** The directory of a stopped process: a snapshot of [base], a log of [old]
    and [rs] with a torn end, together the database [st]. *)
Record disk (w : world) (wal : nat) (prev base : kstate) (old rs : list keyedWALRecord)
    (st : kstate) (t : bytes) : Prop := {
  dk_inv : kinv o mk prev;
  dk_utf8 : state_utf8 prev;
  dk_old : history o mk prev old base;
  dk_rs : history o mk base rs st;
  dk_dirs : ∀ d, d ∈ w_dir w :: w_hist w → dir_ok fmt w wal base d;
  dk_next : ∀ j, is_Some (w_inodes w !! j) → (j < w_next w)%nat;
  dk_wal : w_inodes w !! wal = Some {| stable := frames (old ++ rs) ++ t; pending := [] |};
  dk_torn : torn t }.

Lemma disk_recovered w wal prev base old rs st t :
  disk w wal prev base old rs st t →
  recovered o mk w = Ok (st, if decide (t = []) then None else Some (length (frames (old ++ rs)))).
Proof.
  intros [S1 S2 S3 S4 Hdirs _ Hw Ht]. destruct (Hdirs (w_dir w) ltac:(left)) as (Hwal&Hsnap&_).
  pose proof (history_inv o mk Hhorizon _ _ _ S1 S3) as Hib.
  pose proof (history_utf8 o mk Hhorizon _ _ _ S1 S2 S3) as Hub.
  unfold recovered, recover, stored_file at 2 3. rewrite Hwal. cbn [mbind option_bind from_option id].
  unfold inode. rewrite Hw. cbn [from_option id]. unfold content. cbn [stable pending foldl].
  assert (match stored_file w snapshot_name with
          | Some d => decode_snapshot o mk d | None => Ok empty_kstate end = Ok base) as ->.
  { unfold stored_file, inode. unfold snapshot_in in Hsnap.
    destruct (w_dir w !! snapshot_name) as [j|]; cbn [mbind option_bind]; [|by subst].
    destruct Hsnap as [_ ->]. cbn. by apply decode_snapshot_of. }
  cbn [res_bind].
  rewrite (replay_overlap o mk Hhorizon Hvalue prev old base rs st); try done; [by left|].
  rewrite length_app. pose proof (frames_ge (old ++ rs)) as Hge. rewrite !length_app in *. lia.
Qed.

(** Opening it gives the database back, the log cut to whole frames. *)
Lemma disk_opened {H} windows (db : KeyedDB H) w wal prev base old rs st t :
  disk w wal prev base old rs st t → calm w → db_format db = fmt →
  db_options db = o → maxStoredKeyBytes fmt = mk → db_state db = empty_kstate →
  ∃ w', openStorage windows db w = (Ok (set_state st (set_wal (Some wal) db)), w')
    ∧ stored fmt o mk w' wal prev base old rs st [] st ∧ ready w' wal (old ++ rs) [].
Proof.
  intros Hd Hc Hf Ho Hm He. pose proof (disk_recovered _ _ _ _ _ _ _ _ Hd) as Hr.
  destruct Hd as [S1 S2 S3 S4 Hdirs Hn Hw Ht]. destruct (Hdirs (w_dir w) ltac:(left)) as (Hwal&_&fi&Hfi&_&Ef).
  assert (stored_file w format_name = Some (db_format db)) as Hff.
  { unfold stored_file, inode. rewrite Hfi. cbn [mbind option_bind]. by rewrite Ef, Hf. }
  rewrite <- Ho, <- Hm, <- Hf in Hr.
  destruct (openStorage_recovered windows db w wal _ _ Hc Hff He Hwal Hr) as (w'&E&Hop).
  exists w'. split; [done|]. destruct Hop as [P1 P2 P3 P4 P5 P6 P7].
  assert (w_inodes w' !! wal = Some {| stable := frames (old ++ rs); pending := [] |}) as Hw'.
  { destruct (decide (t = [])) as [-> |Hne].
    - by rewrite P6, Hw, app_nil_r.
    - rewrite P6. unfold inode. rewrite Hw. cbn. unfold content. cbn. do 2 f_equal.
      rewrite take_app_length, length_app.
      replace (_ - _)%nat with 0%nat by lia. cbn. by rewrite app_nil_r. }
  split.
  - split; try done; [constructor|..].
    + rewrite P1, P2. intros d Hd. specialize (Hdirs d Hd).
      eapply dir_ok_same; [done| |done]. intros j Hj. apply P5. by destruct (dir_ok_refers _ _ _ _ _ _ Hdirs Hj).
    + rewrite P3. intros j Hj. destruct (decide (j = wal)) as [->|Hne]; [|rewrite P5 in Hj by done]; eauto.
    + eexists. split; [exact Hw'|]. split; [done|]. exists []. split; [done|by left].
  - split; [done|]. rewrite P7, app_nil_r. unfold inode. by rewrite Hw'.
Qed.

Definition crash_safe (w : world) (wal : nat) (P : kstate → Prop) : Prop :=
  ∀ w', crash w w' → ∃ prev base old rs st t, disk w' wal prev base old rs st t ∧ P st.

Lemma crash_inode w w' j f :
  crash w w' → w_inodes w !! j = Some f →
  ∃ c, survives f c ∧ w_inodes w' !! j = Some {| stable := c; pending := [] |}.
Proof. intros (_&_&_&Hj) E. specialize (Hj j). by rewrite E in Hj. Qed.

Lemma crash_next w w' :
  crash w w' → (∀ j, is_Some (w_inodes w !! j) → (j < w_next w)%nat) →
  ∀ j, is_Some (w_inodes w' !! j) → (j < w_next w')%nat.
Proof.
  intros (_&_&->&Hj) Hn j Hs. apply Hn. specialize (Hj j). destruct (w_inodes w !! j); [done|].
  rewrite Hj in Hs. by destruct Hs.
Qed.

(** Settled files are found again. *)
Lemma crash_dir_ok w w' wal s d : crash w w' → dir_ok fmt w wal s d → dir_ok fmt w' wal s d.
Proof.
  intros Hcr Hd. eapply dir_ok_same; [done| |done]. intros j Hj.
  destruct (dir_ok_refers _ _ _ _ _ _ Hd Hj) as (_&c&E). rewrite E.
  destruct (crash_inode _ _ _ _ Hcr E) as (c'&Hc&->). by apply survives_settled in Hc as ->.
Qed.

Lemma crash_dir w w' : crash w w' → w_dir w' ∈ w_dir w :: w_hist w.
Proof. intros ([->|H]&_); [left|by right]. Qed.

Lemma crash_dirs w w' wal s :
  crash w w' → dir_ok fmt w' wal s (w_dir w') → ∀ d, d ∈ w_dir w' :: w_hist w' → dir_ok fmt w' wal s d.
Proof. intros (_&->&_) Hd d [->|?%elem_of_nil]%elem_of_cons; done. Qed.

Lemma stored_inv w wal prev base old rs mid ps st :
  stored fmt o mk w wal prev base old rs mid ps st → kinv o mk mid.
Proof.
  intros [S1 S2 S3 S4 S5 S6 S7 S8]. eapply history_inv; [done| |exact S4]. by eapply history_inv.
Qed.

(** After any crash recovery reaches the synchronized state, continued by a
    prefix of the commands that were being written. *)
Lemma stored_crash_safe w wal prev base old rs mid ps st :
  stored fmt o mk w wal prev base old rs mid ps st →
  crash_safe w wal (λ s, ∃ k, s = foldl (applyKeyed o) mid (take k ps)).
Proof.
  intros [S1 S2 S3 S4 S5 S6 S7 (f&Hf&Hwf)] w' Hcr.
  pose proof (S6 _ (crash_dir _ _ Hcr)) as Hd.
  destruct (crash_inode _ _ _ _ Hcr Hf) as (c&Hc&Ec).
  destruct (wal_file_survives _ _ _ _ (history_storable _ _ _ S5) Hwf Hc) as (k&t&->&Ht).
  exists prev, base, old, (rs ++ take k ps), (foldl (applyKeyed o) mid (take k ps)), t.
  split; [|by exists k]. split; try done.
  - by eapply history_app, history_take.
  - eapply crash_dirs; [done|]. by eapply crash_dir_ok.
  - by eapply crash_next.
  - by rewrite app_assoc.
Qed.

(** *** The snapshot protocol *)

Section snapshot.
Context (wal : nat) (prev base st : kstate) (old rs : list keyedWALRecord).
Hypothesis Hprev : kinv o mk prev.
Hypothesis Hutf8 : state_utf8 prev.
Hypothesis Hold : history o mk prev old base.
Hypothesis Hrs : history o mk base rs st.

(** A world on the way: the directories a crash can find have a snapshot of one
    of [ss], and the log satisfies [F]. *)
Record phase (ss : list kstate) (F : file → Prop) (w : world) : Prop := {
  ph_dirs : ∀ d, d ∈ w_dir w :: w_hist w → ∃ s, s ∈ ss ∧ dir_ok fmt w wal s d;
  ph_next : ∀ j, is_Some (w_inodes w !! j) → (j < w_next w)%nat;
  ph_wal : ∃ f, w_inodes w !! wal = Some f ∧ F f }.

Definition F_full (f : file) : Prop := f = {| stable := frames (old ++ rs); pending := [] |}.
Definition F_cut (f : file) : Prop :=
  stable f = frames (old ++ rs) ∧ (pending f = [] ∨ pending f = [FTrunc 0]).
Definition F_empty (f : file) : Prop := f = empty_file.

(** The new snapshot file, not yet in place. *)
Definition tmp_file (i : nat) (F : file → Prop) (w : world) : Prop :=
  w_dir w !! snapshot_tmp = Some i ∧ i ≠ wal
  ∧ (∀ d, d ∈ w_dir w :: w_hist w → ¬ refers d i)
  ∧ ∃ f, w_inodes w !! i = Some f ∧ F f.

(** The phases a crash survives. *)
Definition snap_safe (w : world) : Prop :=
  phase [base; st] F_full w ∨ phase [st] F_cut w ∨ phase [st] F_empty w.

Lemma phase_steady ss F : steady (phase ss F).
Proof. intros w l [H1 H2 H3]. by split. Qed.
Lemma tmp_steady i F : steady (tmp_file i F).
Proof. by intros w l H. Qed.
Lemma phase_mono ss ss' (F F' : file → Prop) w :
  (∀ s, s ∈ ss → s ∈ ss') → (∀ f, F f → F' f) → phase ss F w → phase ss' F' w.
Proof.
  intros Hs HF [H1 H2 (f&Hf&Hf')]. split; [|done|by exists f; auto].
  intros d Hd. destruct (H1 d Hd) as (s&?&?). eauto.
Qed.

(** Changing a name other than the log and the snapshot. *)
Lemma phase_dir ss F w d' :
  same_names (w_dir w) d' → phase ss F w → phase ss F (with_dir d' w).
Proof.
  intros E1 [H1 H2 H3]. split; [|done|done]. cbn. intros d.
  rewrite !elem_of_cons, elem_of_app, list_elem_of_singleton. intros Hd.
  assert (d = d' ∨ d ∈ w_dir w :: w_hist w) as [->|Hin]
    by (rewrite elem_of_cons; tauto).
  - destruct (H1 (w_dir w) ltac:(left)) as (s&Hs&Hok). exists s. split; [done|].
    by eapply dir_ok_same.
  - destruct (H1 d Hin) as (s&Hs&Hok). exists s. split; [done|]. by eapply dir_ok_same.
Qed.

(** Changing a file no directory calls the log or the snapshot. *)
Lemma phase_inode ss F w i f :
  i ≠ wal → (i < w_next w)%nat → (∀ d, d ∈ w_dir w :: w_hist w → ¬ refers d i) →
  phase ss F w → phase ss F (with_inodes (<[i := f]> (w_inodes w)) w).
Proof.
  intros Hi Hn Hd [H1 H2 H3]. split; cbn.
  - intros d Hin. destruct (H1 d Hin) as (s&Hs&Hok). exists s. split; [done|].
    eapply dir_ok_inode; [done|left; by apply Hd|done].
  - intros j. rewrite lookup_insert. case_decide; [by subst|apply H2].
  - by rewrite lookup_insert_ne.
Qed.

Lemma remove_tmp ss F :
  hoare (phase ss F) (remove snapshot_tmp) (λ _, phase ss F) (phase ss F).
Proof.
  apply hoare_call; [apply phase_steady|done|]. intros w Hw.
  destruct (w_dir w !! snapshot_tmp); [|done].
  apply phase_dir; [|done]. by repeat split; rewrite lookup_delete_ne by auto with go.
Qed.

Lemma create_tmp F :
  hoare (phase [base] F) (create_excl snapshot_tmp)
    (λ i w, phase [base] F w ∧ tmp_file i (λ f, f = empty_file) w) (phase [base] F).
Proof.
  apply hoare_call; [apply phase_steady|done|]. intros w [H1 H2 (f&Hf&HF)].
  destruct (w_dir w !! snapshot_tmp) eqn:E; [by split; eauto|]. unfold fresh.
  assert (∀ d, d ∈ w_dir w :: w_hist w → ¬ refers d (w_next w)) as Hfr.
  { intros d Hd Hj. destruct (H1 d Hd) as (s&_&Hs).
    destruct (dir_ok_refers _ _ _ _ _ _ Hs Hj) as (_&c&E'). pose proof (H2 (w_next w) ltac:(eauto)). lia. }
  assert (wal ≠ w_next w) as Hwn by (pose proof (H2 wal ltac:(eauto)); lia).
  set (d' := <[snapshot_tmp:=w_next w]> (w_dir w)).
  assert (same_names (w_dir w) d') as Hsame by (by repeat split; apply lookup_insert_ne; auto with go).
  assert (∀ d, d ∈ d' :: w_hist w ++ [w_dir w] → d = d' ∨ d ∈ w_dir w :: w_hist w) as Hdirs.
  { intros d. rewrite !elem_of_cons, elem_of_app, list_elem_of_singleton. tauto. }
  assert (∀ d s, dir_ok fmt w wal s d → d ∈ w_dir w :: w_hist w → dir_ok fmt (fresh snapshot_tmp w).2 wal s d) as Hok.
  { intros d s Hd Hin. eapply dir_ok_inode; [done|left; by apply Hfr|done]. }
  split; [split|]; cbn.
  - intros d [->|Hd]%Hdirs.
    + destruct (H1 (w_dir w) ltac:(left)) as (s&Hs&Hd). exists s. split; [done|].
      eapply (dir_ok_same _ (fresh snapshot_tmp w).2); [done|done|]. apply Hok; [done|left].
    + destruct (H1 d Hd) as (s&Hs&Hd'). exists s. split; [done|]. by apply Hok.
  - intros j. rewrite lookup_insert. case_decide; [subst; lia|]. intros ?%H2. lia.
  - exists f. by rewrite lookup_insert_ne.
  - split; [apply lookup_insert_eq|]. split; [done|]. split.
    + intros d [->|Hd]%Hdirs; [|by apply Hfr]. unfold refers. destruct Hsame as (_&->&->).
      apply (Hfr (w_dir w)). left.
    + exists empty_file. cbn. by rewrite lookup_insert_eq.
Qed.

Lemma tmp_lt i F w ss G : phase ss G w → tmp_file i F w → (i < w_next w)%nat.
Proof. intros Hp (_&_&_&f&Hf&_). apply (ph_next _ _ _ Hp). eauto. Qed.

(** A write to the new file. *)
Lemma tmp_update ss G i (F F' : file → Prop) w g :
  phase ss G w → tmp_file i F w → (∀ f, F f → F' (g f)) →
  phase ss G (with_inodes (<[i := g (inode i w)]> (w_inodes w)) w)
  ∧ tmp_file i F' (with_inodes (<[i := g (inode i w)]> (w_inodes w)) w).
Proof.
  intros Hp Ht Hg. pose proof (tmp_lt _ _ _ _ _ Hp Ht) as Hlt. destruct Ht as (T1&T2&T3&f&T4&T5).
  split; [by apply phase_inode|]. split; [done|]. split; [done|]. split; [done|].
  eexists. cbn. rewrite lookup_insert_eq. split; [done|]. apply Hg. unfold inode. by rewrite T4.
Qed.

Lemma write_tmp i data :
  hoare (λ w, phase [base] F_full w ∧ tmp_file i (λ f, f = empty_file) w) (write_sync_close i data)
    (λ _ w, phase [base] F_full w ∧ tmp_file i (λ f, f = {| stable := data; pending := [] |}) w)
    (phase [base] F_full).
Proof.
  assert (∀ F F' : file → Prop, (∀ f, F f → F' f) → ∀ w,
    phase [base] F_full w ∧ tmp_file i F w → phase [base] F_full w ∧ tmp_file i F' w) as Hmono.
  { intros F F' HF w [H1 (?&?&?&f&?&?)]. split; [done|]. repeat split; eauto. }
  eapply hoare_conseq;
    [apply (write_sync_close_hoare i (λ F w, phase [base] F_full w ∧ tmp_file i F w))|..]; [|done| | |done|].
  - intros F. apply and_steady; [apply phase_steady|apply tmp_steady].
  - intros F F' g w [Hp Ht] Hg. by apply tmp_update with (F := F).
  - intros w. apply Hmono. by intros f ->.
  - by intros w [? _].
Qed.

Lemma rename_tmp i :
  hoare (λ w, phase [base] F_full w
            ∧ tmp_file i (λ f, f = {| stable := snapshot_envelope (snapshot_of st); pending := [] |}) w)
    (rename snapshot_tmp snapshot_name)
    (λ _ w, phase [base; st] F_full w ∧ dir_ok fmt w wal st (w_dir w)) (phase [base; st] F_full).
Proof.
  apply hoare_call.
  { apply and_steady; [apply phase_steady|apply tmp_steady]. }
  { intros w [Hp _]. revert Hp. apply phase_mono; [|done]. intros s ->%list_elem_of_singleton. left. }
  intros w [[H1 H2 H3] (T1&T2&T3&f&T4&->)]. rewrite T1.
  set (d' := <[snapshot_name:=i]> (delete snapshot_tmp (w_dir w))).
  assert (dir_ok fmt (with_dir d' w) wal st d') as Hnew.
  { destruct (H1 (w_dir w) ltac:(left)) as (s&_&Hwal&_&Hfmt). unfold dir_ok, snapshot_in, format_in, d'.
    rewrite lookup_insert_eq, !lookup_insert_ne, !lookup_delete_ne by auto with go. done. }
  split; [|done]. split; [|done|done]. cbn. intros d.
  rewrite elem_of_cons, elem_of_app, list_elem_of_singleton. intros Hd.
  assert (d = d' ∨ d ∈ w_dir w :: w_hist w) as [->|Hin] by (rewrite elem_of_cons; tauto).
  - exists st. split; [right; left|done].
  - destruct (H1 d Hin) as (s&Hs&Hok). apply list_elem_of_singleton in Hs as ->. exists base. split; [left|]. by eapply dir_ok_same.
Qed.

Lemma sync_directory :
  hoare (λ w, phase [base; st] F_full w ∧ dir_ok fmt w wal st (w_dir w)) (syncDirectory false)
    (λ _, phase [st] F_full) (phase [base; st] F_full).
Proof.
  apply syncDirectory_hoare.
  - intros w l [??]. split; [by apply phase_steady|done].
  - apply phase_steady.
  - by intros w [? _].
  - intros w. apply phase_mono; [|done]. intros s Hs. by right.
  - intros w [[H1 H2 H3] Hd]. split; [|done|done]. cbn.
    intros d [->|?%elem_of_nil]%elem_of_cons; [|done]. exists st. split; [left|done].
Qed.

Lemma reset_log :
  hoare (phase [st] F_full) (_ ← truncate wal 0; _ ← seek 0; sync_file wal)
    (λ _ w, phase [st] F_empty w ∧ w_pos w = 0%nat) (phase [st] F_cut).
Proof.
  assert (∀ w f, phase [st] F_cut w → ∀ F : file → Prop, F f →
    phase [st] F (with_inodes (<[wal := f]> (w_inodes w)) w)) as Hset.
  { intros w f [H1 H2 (f0&Hf0&_)] F Hf. split; cbn.
    - intros d Hd. destruct (H1 d Hd) as (s&Hs&Hok). exists s. split; [done|].
      eapply dir_ok_inode; [done|by right|done].
    - intros j. rewrite lookup_insert. case_decide; [subst; intros _; apply H2; eauto|apply H2].
    - exists f. by rewrite lookup_insert_eq. }
  assert (∀ w, phase [st] F_full w → phase [st] F_cut w) as Hfc.
  { intros w. apply phase_mono; [done|]. intros f ->. split; [done|by left]. }
  set (F_trunc f := stable f = frames (old ++ rs) ∧ pending f = [FTrunc 0]).
  assert (∀ w, phase [st] F_trunc w → phase [st] F_cut w) as Htc.
  { intros w. apply phase_mono; [done|]. intros f [??]. split; [done|by right]. }
  eapply (hoare_bind _ _ _ (λ _, phase [st] F_trunc)).
  { apply hoare_call; [apply phase_steady|done|]. intros w Hw. apply Hset; [by apply Hfc|].
    destruct Hw as [_ _ (f&Hf&->)]. unfold inode. rewrite Hf. by split. }
  intros []. eapply (hoare_bind _ _ _ (λ _ w, phase [st] F_trunc w ∧ w_pos w = 0%nat)).
  { apply hoare_call; [apply phase_steady|done|]. intros w [H1 H2 H3]. by repeat split. }
  intros []. apply hoare_call.
  { intros w l [??]. split; [by apply phase_steady|done]. }
  { intros w [? _]. by apply Htc. }
  intros w [Hw Hp]. split; [|done]. apply Hset; [by apply Htc|].
  destruct Hw as [_ _ (f&Hf&Hs&Hpd)]. unfold inode. rewrite Hf. cbn. unfold F_empty, settle, content.
  rewrite Hpd. cbn [foldl apply_mod take]. done.
Qed.

(** [snapshotKeyed] under every schedule of faults: on success the log is empty
    and the snapshot is the state; on failure a crash still finds the state. *)
Lemma snapshotKeyed_phase {H} (db : KeyedDB H) :
  db_wal db = Some wal → db_state db = st →
  hoare (phase [base] F_full) (snapshotKeyed false db)
    (λ _ w, phase [st] F_empty w ∧ w_pos w = 0%nat) snap_safe.
Proof.
  intros Hw Hs. unfold snapshotKeyed. rewrite Hw, Hs. cbv zeta.
  assert (∀ w, phase [base] F_full w → phase [base; st] F_full w) as Hb.
  { intros w. apply phase_mono; [|done]. intros s ->%list_elem_of_singleton. left. }
  eapply (hoare_bind _ _ _ (λ _, phase [base] F_full)); [apply hoare_ignore, remove_tmp|].
  intros [].
  eapply (hoare_bind _ _ _ (λ i w, phase [base] F_full w ∧ tmp_file i (λ f, f = empty_file) w)).
  { apply hoare_wrap. eapply hoare_conseq; [apply create_tmp|by auto..|]. intros w Hp. left. by apply Hb. }
  intros i. apply hoare_wrap.
  eapply (hoare_on_error _ _ _ _ (λ w, phase [base; st] F_full w ∨ phase [st] F_cut w)).
  2:{ apply hoare_ignore. intros w [Hp|Hp]; pose proof (remove_tmp _ _ w Hp) as Hr;
        destruct (remove snapshot_tmp w) as [[[]|e] w']; unfold snap_safe; auto. }
  eapply (hoare_bind _ _ _ (λ _ w, phase [base] F_full w ∧ tmp_file i (λ f, f =
    {| stable := snapshot_envelope (snapshot_of st); pending := [] |}) w)).
  { eapply hoare_conseq; [apply write_tmp|by auto..|]. intros w Hp; left; by apply Hb. }
  intros []. eapply (hoare_bind _ _ _ (λ _ w, phase [base; st] F_full w ∧ dir_ok fmt w wal st (w_dir w))).
  { eapply hoare_conseq; [apply (rename_tmp i)|by auto..]. }
  intros []. eapply (hoare_bind _ _ _ (λ _, phase [st] F_full)).
  { eapply hoare_conseq; [apply sync_directory|by auto..]. }
  intros []. eapply hoare_conseq; [apply reset_log|by auto..].
Qed.

Lemma phase_crash_safe w : snap_safe w → crash_safe w wal (eq st).
Proof.
  intros Hs w' Hcr. pose proof (history_inv o mk Hhorizon _ _ _ Hprev Hold) as Hib.
  pose proof (history_inv o mk Hhorizon _ _ _ Hib Hrs) as His.
  pose proof (history_utf8 o mk Hhorizon _ _ _ Hib
    (history_utf8 o mk Hhorizon _ _ _ Hprev Hutf8 Hold) Hrs) as Hus.
  assert (∀ ss F, phase ss F w → ∃ s c f, s ∈ ss ∧ dir_ok fmt w' wal s (w_dir w')
    ∧ (∀ j, is_Some (w_inodes w' !! j) → (j < w_next w')%nat)
    ∧ F f ∧ survives f c ∧ w_inodes w' !! wal = Some {| stable := c; pending := [] |}) as Hph.
  { intros ss F [H1 H2 (f&Hf&HF)]. destruct (H1 _ (crash_dir _ _ Hcr)) as (s&Hss&Hd).
    destruct (crash_inode _ _ _ _ Hcr Hf) as (c&Hc&Ec). exists s, c, f.
    split; [done|]. split; [by eapply crash_dir_ok|]. by pose proof (crash_next _ _ Hcr H2). }
  assert (∀ c, dir_ok fmt w' wal st (w_dir w') → (∀ j, is_Some (w_inodes w' !! j) → (j < w_next w')%nat) →
    w_inodes w' !! wal = Some {| stable := c; pending := [] |} → c = [] ∨ c = frames (old ++ rs) →
    ∃ prev base old rs st0 t, disk w' wal prev base old rs st0 t ∧ st = st0) as Hnew.
  { intros c Hd Hn Hw [-> | ->].
    - exists st, st, [], [], st, []. split; [|done].
      split; try done; [constructor|constructor|by eapply crash_dirs|by left].
    - exists prev, st, (old ++ rs), [], st, []. split; [|done].
      split; try done; [by eapply history_app|constructor|by eapply crash_dirs|by rewrite !app_nil_r|by left]. }
  destruct Hs as [Hp|[Hp|Hp]]; destruct (Hph _ _ Hp) as (s&c&f&Hss&Hd&Hn&HF&Hsv&Hw).
  - rewrite HF in Hsv. apply survives_settled in Hsv as ->; [|done]. cbn in Hw.
    apply elem_of_cons in Hss as [-> | ->%list_elem_of_singleton].
    + exists prev, base, old, rs, st, []. split; [|done].
      split; try done; [by eapply crash_dirs|by rewrite app_nil_r|by left].
    + eapply Hnew; eauto.
  - apply list_elem_of_singleton in Hss as ->. eapply Hnew; eauto. destruct HF as [E1 E2].
    destruct Hsv as (dn&rest&E&Hc). rewrite E1 in Hc. destruct E2 as [E2|E2]; rewrite E2 in E.
    + symmetry in E. apply app_nil in E as [-> ->]. destruct Hc as [->|(?&?&?&?&?&?)]; [by right|done].
    + destruct dn as [|m dn]; cbn in E.
      * destruct Hc as [->|(?&?&?&?&E'&?)]; [by right|]. by rewrite E' in E.
      * injection E as <- E. symmetry in E. apply app_nil in E as [-> ->].
        destruct Hc as [->|(?&?&?&?&?&?)]; [by left|done].
  - apply list_elem_of_singleton in Hss as ->. rewrite HF in Hsv.
    apply survives_settled in Hsv as ->; [|done]. eapply Hnew; eauto.
Qed.

(** *** Opening under faults *)

(** The log of a stopped process with a torn end, and with that end cut off but
    not synchronized. *)
Definition F_torn (t : bytes) (f : file) : Prop := f = {| stable := frames (old ++ rs) ++ t; pending := [] |}.
Definition F_trimmed (t : bytes) (f : file) : Prop :=
  f = {| stable := frames (old ++ rs) ++ t; pending := [FTrunc (length (frames (old ++ rs)))] |}.

Lemma disk_phase w t : disk w wal prev base old rs st t → phase [base] (F_torn t) w ∧ torn t.
Proof.
  intros [_ _ _ _ Hd Hn Hw Ht]. split; [|done]. split; [|done|by eexists].
  intros d Hin. exists base. split; [left|by apply Hd].
Qed.

Lemma phase_disk w t : torn t → phase [base] (F_torn t) w → disk w wal prev base old rs st t.
Proof.
  intros Ht [H1 H2 (f&Hf&->)]. split; try done. intros d Hd. by destruct (H1 d Hd) as (s&->%list_elem_of_singleton&?).
Qed.

(** What a failed opening leaves. *)
Definition stopped (w : world) : Prop :=
  ∃ t, torn t ∧ (phase [base] (F_torn t) w ∨ phase [base] (F_trimmed t) w).

(** Nothing of the log waits for a synchronization. *)
Definition log_settled (w : world) : bool :=
  match w_dir w !! wal_name with
  | Some i => match pending (inode i w) with [] => true | _ => false end
  | None => true
  end.

Lemma stopped_steady : steady stopped.
Proof. intros w l (t&Ht&[H|H]); exists t; (split; [done|]); [left|right]; by apply phase_steady. Qed.

Lemma stopped_settled w : stopped w → log_settled w = true → ∃ t, disk w wal prev base old rs st t.
Proof.
  intros (t&Ht&[H|H]) Hs; [exists t; by apply phase_disk|]. exfalso. destruct H as [H1 _ (f&Hf&->)].
  destruct (H1 (w_dir w) ltac:(left)) as (s&_&Hw&_). unfold log_settled, inode in Hs. by rewrite Hw, Hf in Hs.
Qed.

Lemma stopped_crash_safe w : stopped w → crash_safe w wal (eq st).
Proof.
  intros (t&Ht&Hp) w' Hcr.
  assert (∀ F, phase [base] F w → ∃ f c, F f ∧ survives f c ∧ ∀ t', c = frames (old ++ rs) ++ t' → torn t' → disk w' wal prev base old rs st t') as Hph.
  { intros F [H1 H2 (f&Hf&HF)]. destruct (crash_inode _ _ _ _ Hcr Hf) as (c&Hc&Ec). exists f, c. split; [done|]. split; [done|].
    intros t' -> Ht'. destruct (H1 _ (crash_dir _ _ Hcr)) as (s&->%list_elem_of_singleton&Hd).
    split; try done; [eapply crash_dirs; [done|]; by eapply crash_dir_ok|by eapply crash_next]. }
  destruct Hp as [Hp|Hp]; destruct (Hph _ Hp) as (f&c&->&Hc&Hd).
  - apply survives_settled in Hc as ->; [|done]. exists prev, base, old, rs, st, t. split; [by apply Hd|done].
  - destruct Hc as (dn&rest&E&Hc). cbn [pending stable] in *. destruct dn as [|m dn]; cbn in E.
    + destruct Hc as [->|(?&?&?&?&E'&?)]; [|by rewrite E' in E]. exists prev, base, old, rs, st, t. split; [by apply Hd|done].
    + injection E as <- E. symmetry in E. apply app_nil in E as [-> ->]. destruct Hc as [->|(?&?&?&?&?&?)]; [|done].
      exists prev, base, old, rs, st, []. split; [|done]. apply Hd; [|by left]. cbn [foldl apply_mod].
      rewrite take_app_length, length_app. replace (_ - _)%nat with 0%nat by lia. done.
Qed.

(** Setting the log. *)
Lemma phase_log (F G : file → Prop) f w : phase [base] F w → G f → phase [base] G (with_inodes (<[wal := f]> (w_inodes w)) w).
Proof.
  intros [H1 H2 (f0&Hf0&_)] HG. split; cbn.
  - intros d Hd. destruct (H1 d Hd) as (s&Hs&Hok). exists s. split; [done|]. eapply dir_ok_inode; [done|by right|done].
  - intros j. rewrite lookup_insert. case_decide; [subst; intros _; apply H2; eauto|apply H2].
  - exists f. by rewrite lookup_insert_eq.
Qed.

(** Reading a synchronized file: its content, or an error of the system. *)
Lemma read_phase t name (R : res gerror bytes → Prop) :
  (∀ n, R (Err (EOS n))) →
  (∀ w, phase [base] (F_torn t) w → match w_dir w !! name with None => R (Err ENotExist) | Some j => R (Ok (content (inode j w))) end) →
  hoare (phase [base] (F_torn t)) (attempt (read_file name)) (λ r w, R r ∧ phase [base] (F_torn t) w) (λ _, False).
Proof.
  intros Hos Hr w Hw. specialize (Hr w Hw). unfold attempt, read_file. destruct (w_dir w !! name) as [j|]; [|done].
  unfold call. destruct (tick_faults w) as [l El]. destruct (tick w) as [[| |k b] w1]; cbn in El; subst w1; by (split; [done|apply phase_steady]).
Qed.

Lemma replay_torn t :
  torn t →
  replay_loop (S (length (frames (old ++ rs) ++ t))) o mk base 0 0 (frames (old ++ rs) ++ t)
  = Ok (st, if decide (t = []) then None else Some (length (frames (old ++ rs)))).
Proof.
  intros Ht. rewrite (replay_overlap o mk Hhorizon Hvalue prev old base rs st); try done; [by left|].
  rewrite length_app. pose proof (frames_ge (old ++ rs)) as Hge. rewrite !length_app in *. lia.
Qed.

Lemma truncate_phase t :
  torn t → hoare (phase [base] (F_torn t)) (truncateKeyedTail wal (length (frames (old ++ rs)))) (λ _, phase [base] F_full) stopped.
Proof.
  intros Ht. unfold truncateKeyedTail. eapply (hoare_bind _ _ _ (λ _, phase [base] (F_trimmed t))).
  - apply hoare_wrap, hoare_call; [apply phase_steady|by intros w Hw; exists t; split; [done|left]|].
    intros w Hw. apply (phase_log (F_torn t)); [done|]. destruct Hw as [_ _ (f&Hf&->)]. unfold inode. by rewrite Hf.
  - intros []. apply hoare_wrap, hoare_call; [apply phase_steady|by intros w Hw; exists t; split; [done|right]|].
    intros w Hw. apply (phase_log (F_trimmed t)); [done|]. destruct Hw as [_ _ (f&Hf&->)]. unfold inode. rewrite Hf.
    unfold F_full, settle, content. cbn [default id stable pending foldl apply_mod].
    rewrite take_app_length, length_app. replace (_ - _)%nat with 0%nat by lia. cbn. by rewrite app_nil_r.
Qed.

Lemma phase_content t w : phase [base] (F_torn t) w → content (inode wal w) = frames (old ++ rs) ++ t.
Proof. intros [_ _ (f&Hf&->)]. unfold inode. by rewrite Hf. Qed.

Lemma torn_full w : phase [base] (F_torn []) w → phase [base] F_full w.
Proof. apply phase_mono; [done|]. intros f ->. unfold F_full. by rewrite app_nil_r. Qed.

Lemma replay_phase {H} (db : KeyedDB H) t :
  torn t → db_options db = o → maxStoredKeyBytes (db_format db) = mk → db_state db = base →
  hoare (phase [base] (F_torn t)) (replayKeyedWAL db wal) (λ db' w, db' = set_state st db ∧ phase [base] F_full w) stopped.
Proof.
  intros Ht Ho Hm He. assert (∀ w, phase [base] (F_torn t) w → stopped w) as Hst by (intros w Hw; exists t; split; [done|by left]).
  unfold replayKeyedWAL. eapply (hoare_bind _ _ _ (λ _, phase [base] (F_torn t))).
  { apply hoare_wrap, hoare_call; [apply phase_steady|done|]. intros w [H1 H2 H3]. by split. }
  intros []. eapply (hoare_bind _ _ _ (λ s w, s = frames (old ++ rs) ++ t ∧ phase [base] (F_torn t) w)).
  { apply hoare_wrap, hoare_call; [apply phase_steady|done|]. intros w Hw. split; [by apply phase_content|done]. }
  intros s w [-> Hw]. rewrite Ho, Hm, He, replay_torn by done. unfold mbind, io_bind, io_res.
  destruct (decide (t = [])) as [->|Hne]; [split; [done|by apply torn_full]|].
  pose proof (truncate_phase t Ht w Hw) as H'. by destruct (truncateKeyedTail _ _ w) as [[[]|e] w1].
Qed.

Lemma ensure_phase t : hoare (phase [base] (F_torn t)) (ensureKeyedFormat false fmt) (λ _, phase [base] (F_torn t)) (phase [base] (F_torn t)).
Proof.
  unfold ensureKeyedFormat. eapply (hoare_bind _ _ _ (λ _, phase [base] (F_torn t))); [apply hoare_wrap, hoare_call; [apply phase_steady|done|by intros w Hw]|].
  intros []. eapply hoare_bind; [eapply hoare_conseq; [apply (read_phase t format_name (λ r, r = Ok fmt ∨ ∃ n, r = Err (EOS n)))|done|by intros ?? Hx; exact Hx|done]|].
  - intros n. right. by exists n.
  - intros w [H1 _ _]. destruct (H1 (w_dir w) ltac:(left)) as (s&_&_&_&j&Hj&_&Ej). rewrite Hj. left. unfold inode. by rewrite Ej.
  - intros data w [[->|[n ->]] Hw]; [by rewrite bool_decide_true|done].
Qed.

Lemma load_phase {H} (db : KeyedDB H) t :
  db_options db = o → maxStoredKeyBytes (db_format db) = mk → db_state db = empty_kstate →
  hoare (phase [base] (F_torn t)) (loadKeyedSnapshot db) (λ db' w, db' = set_state base db ∧ phase [base] (F_torn t) w) (phase [base] (F_torn t)).
Proof.
  intros Ho Hm He. pose proof (history_inv o mk Hhorizon _ _ _ Hprev Hold) as Hib. pose proof (history_utf8 o mk Hhorizon _ _ _ Hprev Hutf8 Hold) as Hub.
  unfold loadKeyedSnapshot. eapply hoare_bind; [eapply hoare_conseq; [apply (read_phase t snapshot_name
    (λ r, r = Ok (snapshot_envelope (snapshot_of base)) ∨ r = Err ENotExist ∧ base = empty_kstate ∨ ∃ n, r = Err (EOS n)))|done|by intros ?? Hx; exact Hx|done]|].
  - intros n. right. right. by exists n.
  - intros w [H1 _ _]. destruct (H1 (w_dir w) ltac:(left)) as (s&->%list_elem_of_singleton&_&Hs&_). unfold snapshot_in in Hs.
    destruct (w_dir w !! snapshot_name) as [j|]; [|by right; left]. left. unfold inode. by rewrite (proj2 Hs).
  - intros data w [[->|[[-> E]|[n ->]]] Hw].
    + unfold mbind, io_bind, io_res. rewrite Ho, Hm, (decode_snapshot_of o mk) by done. by split.
    + split; [|done]. rewrite E, <- He. by destruct db.
    + done.
Qed.

(** Opening the directory of a stopped process under any faults: the database is
    back, or what a crash finds has not changed. *)
Lemma openStorage_phase {H} (db : KeyedDB H) t :
  torn t → db_format db = fmt → db_options db = o → maxStoredKeyBytes fmt = mk → db_state db = empty_kstate →
  hoare (phase [base] (F_torn t)) (openStorage false db)
    (λ db' w, db' = set_state st (set_wal (Some wal) db) ∧ phase [base] F_full w ∧ w_pos w = length (frames (old ++ rs))) stopped.
Proof.
  intros Ht Hf Ho Hm He. assert (∀ w, phase [base] (F_torn t) w → stopped w) as Hst by (intros w Hw; exists t; split; [done|by left]).
  unfold openStorage. rewrite Hf. eapply hoare_bind; [eapply hoare_conseq; [apply ensure_phase|done|by intros ?? Hx; exact Hx|done]|].
  intros []. eapply hoare_bind; [eapply hoare_conseq; [apply (load_phase db t); [done|by rewrite Hf|done]|done|by intros ?? Hx; exact Hx|done]|].
  intros db1. eapply (hoare_bind _ _ _ (λ i w, (i = wal ∧ db1 = set_state base db) ∧ phase [base] (F_torn t) w)).
  { apply hoare_wrap, hoare_call; [intros w l [? Hw]; split; [done|by apply phase_steady]|by intros w [_ Hw]; apply Hst|].
    intros w [-> [H1 H2 H3]]. destruct (H1 (w_dir w) ltac:(left)) as (s&_&Hw&_). rewrite Hw. by split. }
  intros i w [[-> ->] Hw]. cbv zeta. revert w Hw.
  match goal with |- ∀ w, _ → match ?m w with _ => _ end => set (m0 := m); change (hoare (phase [base] (F_torn t)) m0
    (λ db' w, db' = set_state st (set_wal (Some wal) db) ∧ phase [base] F_full w ∧ w_pos w = length (frames (old ++ rs))) stopped); subst m0 end.
  eapply (hoare_on_error _ _ _ _ stopped).
  - eapply hoare_bind; [apply (replay_phase (set_wal (Some wal) (set_state base db)) t); [done|done|by rewrite <- Hm, <- Hf|done]|].
    intros db2. eapply (hoare_bind _ _ _ (λ _ w, db2 = set_state st (set_wal (Some wal) (set_state base db)) ∧ phase [base] F_full w ∧ w_pos w = length (frames (old ++ rs)))).
    + apply hoare_wrap, hoare_call; [intros w l [? Hw]; split; [done|by apply phase_steady]| |].
      * intros w [_ Hw]. exists []. split; [by left|]. left. eapply phase_mono; [done| |exact Hw]. intros f ->. unfold F_torn. by rewrite app_nil_r.
      * intros w [-> [H1 H2 (f&Hfw&->)]]. split; [done|]. split; [split; [done|done|by eexists]|]. cbn. unfold inode. by rewrite Hfw.
    + intros []. intros w (->&Hw&Hp). split; [by destruct db|done].
  - apply hoare_ignore. apply hoare_call; [apply stopped_steady|done|by intros w Hw].
Qed.
End snapshot.

(** *** Appending and synchronizing *)

(** Writing to the log changes nothing else. *)
Lemma stored_append w wal prev base old rs mid ps st ps' st' f :
  stored fmt o mk w wal prev base old rs mid ps st → history o mk mid ps' st' →
  wal_file (old ++ rs) ps' f →
  ∀ p l, stored fmt o mk (with_pos p (with_inodes (<[wal := f]> (w_inodes w)) (with_faults l w)))
           wal prev base old rs mid ps' st'.
Proof.
  intros [S1 S2 S3 S4 S5 S6 S7 (f0&Hf0&_)] Hh Hf p l. split; try done; cbn.
  - intros d Hd. eapply dir_ok_inode; [done|by right|by apply S6].
  - intros j. rewrite lookup_insert. case_decide; [subst; intros _; apply S7; eauto|apply S7].
  - exists f. by rewrite lookup_insert_eq.
Qed.

Lemma frames_snoc ls r : frames (ls ++ [r]) = frames ls ++ frame r.
Proof. rewrite frames_app. unfold frames at 2. cbn. by rewrite app_nil_r. Qed.

Lemma log_writes_snoc ls ps r :
  log_writes (length (frames ls)) (ps ++ [r])
  = log_writes (length (frames ls)) ps ++ [FWrite (length (frames (ls ++ ps))) (frame r)].
Proof. by rewrite log_writes_app, frames_app, length_app. Qed.

Lemma appendKeyedFrame_stored {H} (db : KeyedDB H) w wal prev base old rs mid ps st r :
  stored fmt o mk w wal prev base old rs mid ps st → ready w wal (old ++ rs) ps →
  db_wal db = Some wal → fresh_record o mk st r → sequence st + 1 < 2 ^ 64 → record_utf8 r →
  zsum (map stored_bytes (kr_Mutations r)) ≤ MaxTransactionBytes o →
  match appendKeyedFrame db r w with
  | (Ok _, w') => stored fmt o mk w' wal prev base old rs mid (ps ++ [r]) (applyKeyed o st r)
                  ∧ ready w' wal (old ++ rs) (ps ++ [r])
  | (Err _, w') => stored fmt o mk w' wal prev base old rs mid ps st
  end.
Proof.
  intros Hst [Hf Hpos] Hw Hfr Hsq Hu Hb. unfold appendKeyedFrame.
  destruct (db_beforeAppend db ≫= _); [done|]. cbv zeta. change (print (record_json r)) with (marshal r).
  destruct (Z.ltb_spec maxKeyedFrameBytes (zlen (marshal r))) as [|Hlen]; [done|]. rewrite Hw.
  assert (loggable o mk st r) as Hlog by (by split).
  pose proof (history_snoc o mk _ _ _ _ (sd_ps _ _ _ _ _ _ _ _ _ _ _ _ Hst) Hlog) as Hh.
  change (frame_of (marshal r)) with (frame r). unfold io_wrap, write_file.
  destruct (tick_faults w) as [l El].
  destruct (tick w) as [[| |n rep] w1] eqn:Et; cbn in El; subst w1.
  - rewrite bool_decide_true by done. split.
    + eapply (stored_append w); [done..|]. unfold inode. cbn. rewrite Hf. split; [done|]. exists [].
      rewrite app_nil_r, log_writes_snoc, Hpos. split; [done|by left].
    + split; cbn [w_inodes w_pos with_pos with_inodes with_faults].
      * rewrite lookup_insert_eq, log_writes_snoc, Hpos. unfold inode. cbn. by rewrite Hf.
      * rewrite Hpos, (app_assoc (old ++ rs) ps [r]), frames_snoc, length_app. done.
  - destruct Hst as [S1 S2 S3 S4 S5 S6 S7 S8]. by split.
  - assert (∀ p k, (k < length (frame r))%nat → stored fmt o mk (with_pos p (with_inodes
        (<[wal := modify (FWrite (w_pos w) (take k (frame r))) (inode wal (with_faults l w))]>
           (w_inodes (with_faults l w))) (with_faults l w))) wal prev base old rs mid ps st) as Htorn.
    { intros p k Hk. eapply (stored_append w); [done|apply Hst|]. unfold inode. cbn. rewrite Hf. split; [done|].
      exists [FWrite (w_pos w) (take k (frame r))]. split; [done|]. right. eexists.
      split; [by rewrite Hpos|]. apply torn_frame; [|done]. by split. }
    destruct (decide (n `min` length (frame r) = length (frame r))%nat) as [E|E].
    + rewrite E, Nat.ltb_irrefl, andb_false_r, bool_decide_true, firstn_all by done. split.
      * eapply (stored_append w); [done..|]. unfold inode. cbn. rewrite Hf. split; [done|]. exists [].
        rewrite app_nil_r, log_writes_snoc, Hpos. split; [done|by left].
      * split; cbn [w_inodes w_pos with_pos with_inodes with_faults].
        -- rewrite lookup_insert_eq, log_writes_snoc, Hpos. unfold inode. cbn. by rewrite Hf.
        -- rewrite Hpos, (app_assoc (old ++ rs) ps [r]), frames_snoc, length_app. done.
    + destruct (rep && _); [apply Htorn; lia|]. rewrite bool_decide_false by done. apply Htorn. lia.
Qed.

Lemma syncKeyed_stored {H} (db : KeyedDB H) w wal prev base old rs mid ps st :
  stored fmt o mk w wal prev base old rs mid ps st → ready w wal (old ++ rs) ps → db_wal db = Some wal →
  match syncKeyed db w with
  | (Ok _, w') => stored fmt o mk w' wal prev base old (rs ++ ps) st [] st ∧ ready w' wal (old ++ rs ++ ps) []
  | (Err _, w') => stored fmt o mk w' wal prev base old rs mid ps st
  end.
Proof.
  intros Hst [Hf Hpos] Hw. unfold syncKeyed. destruct (mjoin (db_beforeSync db)); [done|]. rewrite Hw.
  unfold io_wrap, sync_file, call. destruct (tick_faults w) as [l El].
  destruct Hst as [S1 S2 S3 S4 S5 S6 S7 S8].
  assert (settle (inode wal w) = {| stable := frames (old ++ rs ++ ps); pending := [] |}) as Es.
  { unfold settle, inode. rewrite Hf. unfold content. cbn. by rewrite log_writes_content, app_assoc. }
  assert (∀ w1, w1 = with_faults l w →
    let w' := with_inodes (<[wal:=settle (inode wal w1)]> (w_inodes w1)) w1 in
    stored fmt o mk w' wal prev base old (rs ++ ps) st [] st ∧ ready w' wal (old ++ rs ++ ps) []) as Hok.
  { intros w1 ->. change (inode wal (with_faults l w)) with (inode wal w). rewrite Es. cbv zeta. split.
    - split; cbn; try done; [by eapply history_app|constructor|..].
      + intros d Hd. eapply dir_ok_inode; [done|by right|by apply S6].
      + intros j. rewrite lookup_insert. case_decide; [subst; intros _; apply S7; eauto|apply S7].
      + eexists. rewrite lookup_insert_eq. split; [done|]. split; [done|]. exists []. by split; [|left].
    - split; cbn; [by rewrite lookup_insert_eq|]. rewrite Hpos, app_nil_r, app_assoc. done. }
  destruct (tick w) as [[| |n rep] w1] eqn:Et; cbn in El; subst w1; [by apply Hok|by split|by apply Hok].
Qed.

End durability.
