(* ===== verification/KeyedGroup.v ===== *)
(** * Group commit is serial execution

    [processCommitGroup] answers and applies a group exactly as if its commands
    had been executed one after the other, each with a [Sync] of its own; when
    the storage fails it acknowledges nothing that is not durable. *)

From Stdlib Require Import ZArith Lia Strings.Byte Strings.String Sorted.
From stdpp Require Import base decidable countable list gmap.
From S2P Require Import Prelude GoText GoBinary GoJson Errors GoOS Keyed KeyedStorage KeyedRecovery.
From S2P Require Import KeyedCommit KeyedDurability.

Local Open Scope Z_scope.
Local Open Scope go_scope.

(** ** The specification: one command after the other *)

Definition serve (o : KeyedOptions) (st : kstate) (rq : keyedCommitRequest)
    : keyedCommitResult * option keyedWALRecord :=
  if rq_ctxDone rq then (result_err ECtx, None) else safelyExecuteKeyed o st rq.

Definition serve_step (o : KeyedOptions)
    (acc : list keyedCommitResult * list keyedWALRecord * kstate) (rq : keyedCommitRequest)
    : list keyedCommitResult * list keyedWALRecord * kstate :=
  let '(results, ps, st) := acc in
  match serve o st rq with
  | (res, None) => (results ++ [res], ps, st)
  | (res, Some r) => (results ++ [res], ps ++ [r], applyKeyed o st r)
  end.

(** The results, the decisions made and the final state. *)
Definition serve_all (o : KeyedOptions) (st : kstate) (rqs : list keyedCommitRequest)
    : list keyedCommitResult * list keyedWALRecord * kstate :=
  foldl (serve_step o) ([], [], st) rqs.

Lemma serve_all_snoc o st rqs rq :
  serve_all o st (rqs ++ [rq]) = serve_step o (serve_all o st rqs) rq.
Proof. unfold serve_all. by rewrite foldl_app. Qed.

Lemma executeKeyed_id o st rq r :
  executeKeyed o st rq = ExPersist r →
  kr_CommandID r = rq_command rq ∧ blank (rq_command rq) = false
  ∧ zlen (rq_command rq) ≤ keyedMaxIdentityBytes ∧ dedupe st !! rq_command rq = None.
Proof.
  unfold executeKeyed. destruct (blank _) eqn:Hb; [done|].
  destruct (Z.ltb_spec keyedMaxIdentityBytes (zlen (rq_command rq))); [done|].
  destruct (rq_mutation rq) as [m|]; [|done]. destruct (dedupe st !! _) eqn:Hd; [done|].
  destruct (runKeyedMutation _ _ _ _) as [[result err|v] tx]; [|done].
  destruct (err ≫= as_rejection) as [[code rej]|].
  - destruct (blank code); [done|]. destruct (keyedMaxCodeBytes <? _); [done|].
    by intros [-> _]%record_result_persist.
  - destruct err; [done|]. destruct result; [|done]. destruct (MaxValueBytes o <? _); [done|].
    destruct (finalize _ _ _); [|done]. by intros [-> _]%record_result_persist.
Qed.

(** A retained command is answered from its decision. *)
Lemma executeKeyed_duplicate o st rq m prior :
  rq_mutation rq = Some m → blank (rq_command rq) = false →
  zlen (rq_command rq) ≤ keyedMaxIdentityBytes → dedupe st !! rq_command rq = Some prior →
  executeKeyed o st rq = ExDuplicate (as_duplicate (decision prior)).
Proof.
  intros Hm Hb Hl Hd. unfold executeKeyed. rewrite Hb, Hm, Hd.
  by rewrite (proj2 (Z.ltb_ge _ _)).
Qed.

Lemma applyKeyed_dedupe o st r id p :
  dedupe (applyKeyed o st r) !! id = Some p →
  (id = kr_CommandID r ∧ p = retained r) ∨ dedupe st !! id = Some p.
Proof.
  assert (<[kr_CommandID r := retained r]> (dedupe st) !! id = Some p →
    (id = kr_CommandID r ∧ p = retained r) ∨ dedupe st !! id = Some p) as Hins.
  { rewrite lookup_insert. case_decide; [|by right]. intros [= <-]. by left. }
  unfold applyKeyed. destruct (DedupeHorizon o <? _); [|done].
  destruct (dedupeIDs st ++ [kr_CommandID r]); [done|].
  cbn. intros [_ ?]%lookup_delete_Some. by apply Hins.
Qed.

(** The answers that only repeat a decision of [st]. *)
Definition repeats (st : kstate) (res : keyedCommitResult) : Prop :=
  ∃ id prior, dedupe st !! id = Some prior ∧ rs_decision res = as_duplicate (decision prior).

Definition acknowledged (res : keyedCommitResult) : Prop :=
  rs_err res = None ∧ rs_panicValue res = None.

Lemma db_apply_state {H} (db : KeyedDB H) r :
  db_state (db_apply db r) = applyKeyed (db_options db) (db_state db) r.
Proof. unfold db_apply. by destruct (db_afterApply db). Qed.
Lemma db_apply_options {H} (db : KeyedDB H) r : db_options (db_apply db r) = db_options db.
Proof. unfold db_apply. by destruct (db_afterApply db). Qed.
Lemma db_apply_wal {H} (db : KeyedDB H) r : db_wal (db_apply db r) = db_wal db.
Proof. unfold db_apply. by destruct (db_afterApply db). Qed.
Lemma db_apply_poisoned {H} (db : KeyedDB H) r : db_poisoned (db_apply db r) = db_poisoned db.
Proof. unfold db_apply. by destruct (db_afterApply db). Qed.

(** The group leaves the queue and the closed flag alone. *)
Definition same_control {H} (db db' : KeyedDB H) : Prop :=
  db_queue db' = db_queue db ∧ db_closed db' = db_closed db ∧ db_format db' = db_format db
  ∧ db_disabled db' = db_disabled db ∧ db_options db' = db_options db ∧ db_wal db' = db_wal db.

Lemma same_control_trans {H} (a b c : KeyedDB H) : same_control a b → same_control b c → same_control a c.
Proof. unfold same_control. intuition congruence. Qed.

Lemma group_step_control {H} (g : group_state H) rq w : same_control (gs_db g) (gs_db (group_step g rq w).1).
Proof.
  unfold group_step. destruct (db_poisoned (gs_db g)); [done|]. destruct (rq_ctxDone rq); [done|].
  destruct (staged_original g _); [done|].
  destruct (safelyExecuteKeyed _ _ _) as [res [r|]]; [|done].
  destruct (appendKeyedFrame _ _ _) as [[[]|e] w']; [|done]. cbn. unfold db_apply.
  by destruct (db_afterApply (gs_db g)).
Qed.

Lemma group_steps_control {H} (g : group_state H) rqs w :
  same_control (gs_db g) (gs_db (group_steps g rqs w).1).
Proof.
  revert g w. induction rqs as [|rq rqs IH]; intros g w; cbn [group_steps]; [done|].
  pose proof (group_step_control g rq w) as Hc. destruct (group_step g rq w) as [g' w'].
  eapply same_control_trans; [exact Hc|apply IH].
Qed.

Lemma processCommitGroup_control {H} (db : KeyedDB H) group w results db' w' :
  processCommitGroup db group w = (results, db', w') → same_control db db'.
Proof.
  unfold processCommitGroup.
  match goal with |- context [group_steps ?g group w] =>
    pose proof (group_steps_control g group w) as Hc; destruct (group_steps g group w) as [g' w1] end.
  cbn in Hc. intros E.
  destruct ((0 <? gs_frames g') && _); [destruct (syncKeyed _ _) as [[[]|e] w2]|destruct (gs_storageErr g')];
    cbn in E; simplify_eq; try done; by destruct (0 <? gs_frames g').
Qed.

(** A poisoned database answers every request with the error and writes
    nothing. *)
Definition refused : keyedCommitResult := result_err (poisoned_error "submit_keyed" database_unsafe).

Lemma group_steps_poisoned {H} (g : group_state H) rqs w :
  db_poisoned (gs_db g) = true →
  group_steps g rqs w
  = (Build_group_state (gs_db g) (gs_results g ++ replicate (length rqs) refused)
       (gs_durable g ++ replicate (length rqs) false) (gs_staged g) (gs_frames g) (gs_storageErr g), w).
Proof.
  revert g. induction rqs as [|rq rqs IH]; intros g Hp; cbn [group_steps length replicate].
  { rewrite !app_nil_r. by destruct g. }
  unfold group_step. rewrite Hp, IH by done. cbn. by rewrite <- !app_assoc.
Qed.

Lemma processCommitGroup_poisoned {H} (db : KeyedDB H) group w :
  db_poisoned db = true →
  processCommitGroup db group w = (replicate (length group) refused, db, w).
Proof. intros Hp. unfold processCommitGroup. by rewrite group_steps_poisoned. Qed.

Lemma serve_all_length o st rqs results ps st' :
  serve_all o st rqs = (results, ps, st') → length results = length rqs ∧ (length ps ≤ length rqs)%nat.
Proof.
  revert results ps st'. induction rqs as [|rq rqs IH] using rev_ind; intros results ps st'.
  { unfold serve_all. cbn. intros [= <- <- <-]. done. }
  rewrite serve_all_snoc. destruct (serve_all o st rqs) as [[results0 ps0] st0].
  destruct (IH _ _ _ eq_refl) as [H1 H2]. cbn. destruct (serve o st0 rq) as [res [r|]];
    intros [= <- <- <-]; rewrite !length_app; cbn; lia.
Qed.

Section group.
Context (fmt : bytes) (o : KeyedOptions) (mk : Z) {H : Type}.
Hypothesis Hhorizon : 0 < DedupeHorizon o.
Hypothesis Hvalue : 0 ≤ MaxValueBytes o.
Hypothesis Htransaction : 0 ≤ MaxTransactionBytes o.

(** A request whose decisions the log can replay: the callback stays within the
    transaction interface, and the strings and the size of what it decides
    survive the log's encoding and its validation. *)
Record servable (rq : keyedCommitRequest) : Prop := {
  sv_mutation : is_Some (rq_mutation rq);
  sv_ok : ∀ m, rq_mutation rq = Some m → mutation_ok o mk m;
  sv_log : ∀ st r, executeKeyed o st rq = ExPersist r →
    record_utf8 r ∧ zsum (map stored_bytes (kr_Mutations r)) ≤ MaxTransactionBytes o }.

Context (wal : nat) (prev base st0 : kstate) (old rs : list keyedWALRecord).

(** The loop invariant of [processCommitGroup]: [done] are served, [todo] are
    left, [ps] are the decisions written so far. *)
Record ginv (done todo : list keyedCommitRequest) (ps : list keyedWALRecord)
    (g : group_state H) (w : world) : Prop := {
  gi_options : db_options (gs_db g) = o;
  gi_wal : db_wal (gs_db g) = Some wal;
  gi_stored : stored fmt o mk w wal prev base old rs st0 ps (db_state (gs_db g));
  gi_length : length (gs_durable g) = length (gs_results g);
  gi_acks : ∀ k res, gs_results g !! k = Some res → acknowledged res →
    gs_durable g !! k = Some true ∨ repeats st0 res;
  gi_frames : gs_frames g = zlen ps;
  gi_room : sequence (db_state (gs_db g)) + zlen todo < 2 ^ 64;
  gi_poisoned : db_poisoned (gs_db g) = true ↔ gs_storageErr g ≠ None;
  gi_live : db_poisoned (gs_db g) = false →
    ready w wal (old ++ rs) ps
    ∧ serve_all o st0 done = (gs_results g, ps, db_state (gs_db g))
    ∧ (gs_staged g = None → (length ps + length todo ≤ 1)%nat)
    ∧ (∀ m, gs_staged g = Some m →
        (∀ id k p, m !! id = Some k → dedupe (db_state (gs_db g)) !! id = Some p →
           gs_results g !! k = Some (result_decided (decision p))
           ∧ blank id = false ∧ zlen id ≤ keyedMaxIdentityBytes)
        ∧ (∀ id p, dedupe (db_state (gs_db g)) !! id = Some p → dedupe st0 !! id = Some p ∨ is_Some (m !! id))) }.

Lemma lookup_snoc_cases {A} (l : list A) x k y :
  (l ++ [x]) !! k = Some y → l !! k = Some y ∨ (k = length l ∧ y = x).
Proof.
  intros [Hl|[Hle Hl]]%lookup_app_Some; [by left|]. right.
  destruct (k - length l)%nat as [|n] eqn:E; cbn in Hl; [|by destruct n]. simplify_eq.
  split; [lia|done].
Qed.

Lemma ginv_answer rq done todo ps g w res dur :
  ginv done (rq :: todo) ps g w → (acknowledged res → dur = true ∨ repeats st0 res) →
  (db_poisoned (gs_db g) = false → serve o (db_state (gs_db g)) rq = (res, None)) →
  ginv (done ++ [rq]) todo ps (answer g res dur) w.
Proof.
  intros [G1 G2 G3 G4 G5 G6 G6' G7 G8] Hack Hserve. split; cbn; try done.
  - rewrite !length_app. by rewrite G4.
  - intros k r [Hk|[-> ->]]%lookup_snoc_cases Ha.
    + destruct (G5 k r Hk Ha) as [Hd|?]; [left|by right]. by apply lookup_app_l_Some.
    + destruct (Hack Ha) as [->|?]; [left|by right]. by rewrite <- G4, list_lookup_middle.
  - unfold zlen in *. cbn in G6'. lia.
  - intros Hp. destruct (G8 Hp) as (L1&L2&L3&L4). split; [done|]. split; [|split].
    + rewrite serve_all_snoc, L2. cbn. by rewrite Hserve.
    + intros E. specialize (L3 E). cbn in L3. lia.
    + intros m Em. destruct (L4 m Em) as [M1 M2]. split; [|done]. intros id k p Hk Hd.
      destruct (M1 id k p Hk Hd) as (?&?&?). split; [|done]. by apply lookup_app_l_Some.
Qed.

Lemma executeKeyed_repeats st rq d :
  executeKeyed o st rq = ExDuplicate d →
  ∃ prior, dedupe st !! rq_command rq = Some prior ∧ d = as_duplicate (decision prior).
Proof.
  unfold executeKeyed, record_result. repeat (case_match; simplify_eq; try done). intros [= <-]. eauto.
Qed.

(** A duplicate that is executed (and not found in [staged]) was already
    decided before the group. *)
Lemma unstaged_repeats rq done todo ps g w p :
  ginv done (rq :: todo) ps g w → db_poisoned (gs_db g) = false →
  staged_original g (rq_command rq) = None →
  dedupe (db_state (gs_db g)) !! rq_command rq = Some p → dedupe st0 !! rq_command rq = Some p.
Proof.
  intros Hg Hp Hs Hd. destruct (gi_live _ _ _ _ _ Hg Hp) as (_&_&L3&L4). unfold staged_original in Hs.
  destruct (gs_staged g) as [m|] eqn:Em; cbn in Hs.
  - destruct (L4 m eq_refl) as [_ M2]. destruct (M2 _ _ Hd) as [?|[k Hk]]; [done|].
    rewrite Hk in Hs. cbn in Hs. rewrite Hd in Hs. done.
  - specialize (L3 eq_refl). cbn in L3. destruct ps; [|simpl in L3; lia].
    pose proof (sd_ps _ _ _ _ _ _ _ _ _ _ _ _ (gi_stored _ _ _ _ _ Hg)) as Hh. by inversion Hh; subst.
Qed.

Lemma ginv_persist rq r done todo ps g w w' :
  ginv done (rq :: todo) ps g w → db_poisoned (gs_db g) = false → rq_ctxDone rq = false →
  executeKeyed o (db_state (gs_db g)) rq = ExPersist r →
  stored fmt o mk w' wal prev base old rs st0 (ps ++ [r]) (applyKeyed o (db_state (gs_db g)) r) →
  ready w' wal (old ++ rs) (ps ++ [r]) →
  kr_Sequence r = sequence (db_state (gs_db g)) + 1 → zlen ps + 1 < 2 ^ 64 →
  ginv (done ++ [rq]) todo (ps ++ [r])
    (Build_group_state (db_apply (gs_db g) r) (gs_results g ++ [result_decided (decision r)])
       (gs_durable g ++ [true]) (fmap (<[kr_CommandID r := length (gs_results g)]>) (gs_staged g))
       (u64 (gs_frames g + 1)) (gs_storageErr g)) w'.
Proof.
  intros [G1 G2 G3 G4 G5 G6 G6' G7 G8] Hp Hctx Hex Hst Hrd Hseq Hps.
  destruct (executeKeyed_id _ _ _ _ Hex) as (Eid&Hb&Hl&Hnew). destruct (G8 Hp) as (L1&L2&L3&L4).
  split; cbn; rewrite ?db_apply_options, ?db_apply_wal, ?db_apply_state, ?db_apply_poisoned, ?G1; try done.
  - rewrite !length_app. by rewrite G4.
  - intros k x [Hk|[-> ->]]%lookup_snoc_cases Ha.
    + destruct (G5 k x Hk Ha) as [Hd|?]; [left|by right]. by apply lookup_app_l_Some.
    + left. by rewrite <- G4, list_lookup_middle.
  - rewrite G6, u64_id by (pose proof (zlen_nonneg ps); unfold u64_range; lia).
    by rewrite zlen_app.
  - rewrite applyKeyed_sequence, Hseq. unfold zlen in *. cbn in G6'. lia.
  - intros _. split; [done|]. split; [|split].
    + rewrite serve_all_snoc, L2. unfold serve_step, serve, safelyExecuteKeyed. by rewrite Hctx, Hex.
    + destruct (gs_staged g); [done|]. intros _. specialize (L3 eq_refl). rewrite length_app. cbn in *. lia.
    + intros m' Em'. destruct (gs_staged g) as [m|] eqn:Em; [|done]. cbn in Em'. simplify_eq.
      destruct (L4 m eq_refl) as [M1 M2]. split.
      * intros id k p Hk [[-> ->]|Hd]%applyKeyed_dedupe.
        -- rewrite lookup_insert_eq in Hk. simplify_eq. rewrite list_lookup_middle by done.
           by rewrite Eid.
        -- rewrite lookup_insert_ne in Hk by (intros <-; rewrite Eid, Hnew in Hd; done).
           destruct (M1 id k p Hk Hd) as (?&?&?). split; [|done]. by apply lookup_app_l_Some.
      * intros id p [[-> ->]|Hd]%applyKeyed_dedupe; [right; rewrite lookup_insert_eq; eauto|].
        destruct (M2 id p Hd) as [?|[k Hk]]; [by left|right].
        rewrite lookup_insert. case_decide; eauto.
Qed.

Lemma group_step_inv rq done todo ps g w :
  ginv done (rq :: todo) ps g w → servable rq →
  ∃ ps', ginv (done ++ [rq]) todo ps' (group_step g rq w).1 (group_step g rq w).2.
Proof.
  intros Hg Hsv. unfold group_step. destruct (db_poisoned (gs_db g)) eqn:Hp.
  { exists ps. apply (ginv_answer rq); [done|by intros [? _]|by rewrite Hp]. }
  destruct (rq_ctxDone rq) eqn:Hctx.
  { exists ps. apply (ginv_answer rq); [done|by intros [? _]|]. intros _. unfold serve. by rewrite Hctx. }
  destruct (gi_live _ _ _ _ _ Hg Hp) as (L1&L2&L3&L4).
  destruct (staged_original g (rq_command rq)) as [k|] eqn:Hs.
  { exists ps. apply (ginv_answer rq); [done|by left|]. intros _. unfold staged_original in Hs.
    destruct (gs_staged g) as [m|] eqn:Em; [|done]. cbn in Hs.
    destruct (m !! rq_command rq) as [k'|] eqn:Hk; [|done]. cbn in Hs.
    destruct (dedupe (db_state (gs_db g)) !! rq_command rq) as [p|] eqn:Hd; [|done]. cbn in Hs. simplify_eq.
    destruct (L4 m eq_refl) as [M1 _]. destruct (M1 _ _ _ Hk Hd) as (->&Hb&Hl).
    destruct (sv_mutation _ Hsv) as [mu Hmu]. unfold serve, safelyExecuteKeyed. rewrite Hctx.
    by rewrite (executeKeyed_duplicate o _ rq mu p). }
  unfold safelyExecuteKeyed. rewrite (gi_options _ _ _ _ _ Hg).
  destruct (executeKeyed o (db_state (gs_db g)) rq) as [v|e|d|r] eqn:Hex.
  - exists ps. apply (ginv_answer rq); [done|by intros [_ ?]|].
    intros _. unfold serve, safelyExecuteKeyed. by rewrite Hctx, Hex.
  - exists ps. apply (ginv_answer rq); [done|by intros [? _]|].
    intros _. unfold serve, safelyExecuteKeyed. by rewrite Hctx, Hex.
  - exists ps. apply (ginv_answer rq); [done| |].
    + intros _. right. destruct (executeKeyed_repeats _ _ _ Hex) as (p&Hd&->).
      exists (rq_command rq), p. split; [|done]. by eapply unstaged_repeats.
    + intros _. unfold serve, safelyExecuteKeyed. by rewrite Hctx, Hex.
  - destruct (sv_mutation _ Hsv) as [mu Hmu]. destruct (sv_log _ Hsv _ _ Hex) as [Hu Hb].
    pose proof (gi_stored _ _ _ _ _ Hg) as Hst.
    pose proof (gi_room _ _ _ _ _ Hg) as Hroom. unfold zlen in Hroom. cbn in Hroom.
    assert (fresh_record o mk (db_state (gs_db g)) r) as Hfr.
    { eapply executeKeyed_fresh; [done|done|by eapply sv_ok|done]. }
    pose proof (appendKeyedFrame_stored fmt o mk (gs_db g) w wal prev base old rs st0 ps _ r
      Hst L1 (gi_wal _ _ _ _ _ Hg) Hfr ltac:(lia) Hu Hb) as Happ.
    destruct (appendKeyedFrame (gs_db g) r w) as [[[]|e] w'].
    + exists (ps ++ [r]). destruct Happ as [Hst' Hrd'].
      destruct Hst as [S1 S2 S3 S4 S5 S6 S7 S8].
      pose proof (history_inv o mk Hhorizon _ _ _ (history_inv o mk Hhorizon _ _ _ S1 S3) S4) as Hi0.
      pose proof (history_inv o mk Hhorizon _ _ _ Hi0 S5) as Hi.
      pose proof (history_sequence o mk Hhorizon _ _ _ Hi0 S5) as Hq.
      pose proof (inv_sequence _ _ _ Hi0) as Hq0. unfold u64_range in Hq0.
      apply (ginv_persist rq r done todo ps g w w'); try done; [|lia].
      rewrite (fr_seq _ _ _ _ Hfr). apply u64_id. pose proof (zlen_nonneg ps). unfold u64_range. lia.
    + exists ps. destruct Hg as [G1 G2 G3 G4 G5 G6 G6' G7 G8]. split; cbn; try done.
      * rewrite !length_app. by rewrite G4.
      * intros k x [Hk|[-> ->]]%lookup_snoc_cases Ha; [|by destruct Ha].
        destruct (G5 k x Hk Ha) as [Hd|?]; [left|by right]. by apply lookup_app_l_Some.
      * unfold zlen. lia.
Qed.

Lemma group_steps_inv todo done ps g w :
  ginv done todo ps g w → Forall servable todo →
  ∃ ps', ginv (done ++ todo) [] ps' (group_steps g todo w).1 (group_steps g todo w).2.
Proof.
  revert done ps g w. induction todo as [|rq todo IH]; intros done ps g w Hg Hs; cbn [group_steps].
  { exists ps. by rewrite app_nil_r. }
  apply Forall_cons in Hs as [Hrq Hs]. destruct (group_step_inv rq done todo ps g w Hg Hrq) as [ps' Hg'].
  destruct (group_step g rq w) as [g' w']. cbn in Hg'.
  destruct (IH (done ++ [rq]) ps' g' w' Hg' Hs) as [ps'' Hg'']. exists ps''.
  by rewrite <- app_assoc in Hg''.
Qed.

Lemma fail_durable_lookup e results durable k res :
  fail_durable e results durable !! k = Some res →
  res = result_err e ∨ (results !! k = Some res ∧ durable !! k = Some false).
Proof.
  unfold fail_durable. rewrite lookup_zip_with_Some. intros ([] & [] & -> & H1 & H2); auto.
Qed.

(** What a group does to a healthy database, for every schedule of faults. *)
Lemma processCommitGroup_cases (db : KeyedDB H) group w results db' w' :
  db_options db = o → db_wal db = Some wal → db_poisoned db = false → db_state db = st0 →
  stored fmt o mk w wal prev base old rs st0 [] st0 → ready w wal (old ++ rs) [] →
  Forall servable group → sequence st0 + zlen group < 2 ^ 64 →
  processCommitGroup db group w = (results, db', w') →
  (db_poisoned db' = false ∧ ∃ ps,
     serve_all o st0 group = (results, ps, db_state db')
     ∧ history o mk st0 ps (db_state db')
     ∧ stored fmt o mk w' wal prev base old (rs ++ ps) (db_state db') [] (db_state db')
     ∧ ready w' wal (old ++ rs ++ ps) [])
  ∨ (db_poisoned db' = true
     ∧ (∀ k res, results !! k = Some res → acknowledged res → repeats st0 res)
     ∧ ∃ ps, stored fmt o mk w' wal prev base old rs st0 ps (db_state db')).
Proof.
  intros Ho Hw Hp Hs Hst Hrd Hsv Hroom. unfold processCommitGroup.
  set (g0 := Build_group_state db [] [] (if (1 <? length group)%nat then Some ∅ else None) 0 None).
  assert (ginv [] group [] g0 w) as Hg0.
  { split; cbn; try done; rewrite ?Hs; try done; [by rewrite Hp|].
    intros _. split; [done|]. split; [done|]. split.
    - clear. destruct group as [|rq1 [|rq2 grp]]; cbn; intros E; first [done|lia].
    - intros m. destruct group as [|rq1 [|rq2 grp]]; cbn; [done|done|]. intros [= <-].
      split; [intros id k0 p Hk; by rewrite lookup_empty in Hk|by left]. }
  destruct (group_steps_inv group [] [] g0 w Hg0 Hsv) as [ps Hg]. cbn [app] in Hg.
  destruct (group_steps g0 group w) as [g w1]. cbn in Hg.
  destruct Hg as [G1 G2 G3 G4 G5 G6 G6' G7 G8].
  destruct (gs_storageErr g) as [e|] eqn:Ee.
  - rewrite bool_decide_false, andb_false_r by done. intros [= <- <- <-]. right.
    split; [by apply G7|]. split; [|eauto]. intros k res [-> |[Hr Hd]]%fail_durable_lookup Ha; [by destruct Ha|].
    destruct (G5 k res Hr Ha) as [Hd'|?]; [|done]. congruence.
  - assert (db_poisoned (gs_db g) = false) as Hp'.
    { destruct (db_poisoned (gs_db g)); [|done]. exfalso. by apply (proj1 G7 eq_refl). }
    destruct (G8 Hp') as (L1&L2&_&_). rewrite bool_decide_true, andb_true_r by done.
    destruct (Z.ltb_spec 0 (gs_frames g)) as [Hf|Hf].
    + pose proof (syncKeyed_stored fmt o mk (gs_db g) w1 wal prev base old rs st0 ps _ G3 L1 G2) as Hsy.
      destruct (syncKeyed (gs_db g) w1) as [[[]|e] w2]; intros [= <- <- <-].
      * left. destruct Hsy as [H1 H2]. split; [done|]. exists ps. by pose proof (sd_ps _ _ _ _ _ _ _ _ _ _ _ _ G3).
      * right. split; [done|]. split; [|eauto].
        intros k res [-> |[Hr Hd]]%fail_durable_lookup Ha; [by destruct Ha|].
        destruct (G5 k res Hr Ha) as [Hd'|?]; [|done]. congruence.
    + intros [= <- <- <-]. left. split; [done|]. exists ps. split; [done|].
      split; [exact (sd_ps _ _ _ _ _ _ _ _ _ _ _ _ G3)|].
      assert (ps = []) as -> by (destruct ps; [done|unfold zlen in G6; simpl in G6; lia]).
      pose proof (sd_ps _ _ _ _ _ _ _ _ _ _ _ _ G3) as S5.
      rewrite !app_nil_r. apply history_foldl in S5. cbn in S5.
      by rewrite S5 in *.
Qed.
End group.
