(* ===== verification/KeyedSystem.v ===== *)
(** * The keyed database as a state machine

    Submissions, commit groups, snapshots, closing, crashes and opening as a
    step relation over the database handle and the file system, with the list
    of decisions acknowledged to callers.  Every interleaving of callers is a
    sequence of these steps: a caller only appends to the queue, and everything
    else runs under the admission token.  All of them, opening included, run
    under any schedule of I/O faults.  The directory is opened after a power
    failure, after a [Close] that reported no error, and again after an opening
    that failed and left no unsynchronized truncation; opening it in any other
    state, such as after a process that was poisoned or killed, can acknowledge what a later crash
    loses (the theorem [unsynced_frame_replayed]), and is not a step.  The
    invariant proved by rule induction says that an acknowledged decision
    survives. *)

From Stdlib Require Import ZArith Lia Strings.Byte Strings.String Sorted.
From stdpp Require Import base decidable countable list gmap.
From S2P Require Import Prelude GoText GoBinary GoJson Errors GoOS Keyed KeyedStorage KeyedRecovery.
From S2P Require Import KeyedCommit KeyedDurability KeyedGroup.

Local Open Scope Z_scope.
Local Open Scope go_scope.

Record system (H : Type) := {
  sy_db : KeyedDB H;
  sy_world : world;
  sy_acks : list KeyedDecision;
  (** no process has the database, and its files can be opened again *)
  sy_rest : bool }.
Arguments sy_db {H}. Arguments sy_world {H}. Arguments sy_acks {H}. Arguments sy_rest {H}.
Arguments Build_system {H}.

(** A decision without the mark of a retry. *)
Definition undup (d : KeyedDecision) : KeyedDecision :=
  {| kd_Sequence := kd_Sequence d; kd_CommandID := kd_CommandID d; kd_Applied := kd_Applied d;
     kd_Code := kd_Code d; kd_Result := kd_Result d; kd_Duplicate := false |}.

(** The decision a caller was told, when it was told one. *)
Definition ack_of (res : keyedCommitResult) : option KeyedDecision :=
  match rs_err res, rs_panicValue res with
  | None, None => Some (undup (rs_decision res))
  | _, _ => None
  end.
Definition acks_of (results : list keyedCommitResult) : list KeyedDecision := omap ack_of results.

Section system.
Context (fmt : bytes) (o : KeyedOptions) {H : Type}.

(** The limit on stored keys that goes with the format. *)
Definition key_limit : Z := maxStoredKeyBytes fmt.

(** There are sequence numbers left for the queue. *)
Definition has_room (db : KeyedDB H) : Prop := sequence (db_state db) + zlen (db_queue db) < 2 ^ 64.

(** The handle of a process that is gone: nothing is submitted to it any more. *)
Definition gone (db : KeyedDB H) : KeyedDB H := set_queue [] (set_closed db).

(** A [Close] of an open and healthy database that reported no error. *)
Definition closed_well (db : KeyedDB H) (err : option gerror) (db' : KeyedDB H) : bool :=
  negb (db_closed db) && match err with None => true | Some _ => false end && negb (db_poisoned db').

Inductive kstep : system H → system H → Prop :=
| kstep_submit db w acks rest ctx id m db' :
    SubmitKeyed_enqueue db ctx id m = Ok db' → Forall (servable o key_limit) (db_queue db') →
    kstep (Build_system db w acks rest) (Build_system db' w acks rest)
| kstep_group db w acks rest results db' w' :
    db_queue db ≠ [] → has_room db → take_group db w = (results, db', w') →
    kstep (Build_system db w acks rest) (Build_system db' w' (acks ++ acks_of results) rest)
| kstep_snapshot db w acks rest ctx err db' w' :
    SnapshotKeyed false db ctx w = (err, db', w') →
    kstep (Build_system db w acks rest) (Build_system db' w' acks rest)
| kstep_close db w acks rest results err db' w' :
    has_room db → Close false db w = (results, err, db', w') →
    kstep (Build_system db w acks rest)
      (Build_system db' w' (acks ++ acks_of results) (if db_closed db then rest else closed_well db err db'))
| kstep_crash db w acks rest w' :
    crash w w' → kstep (Build_system db w acks rest) (Build_system (gone db) w' acks true)
| kstep_open db w acks hook path options r w' :
    db_closed db = true → normalizeKeyedOptions options = Ok o → blank path = false →
    openKeyed false hook CtxLive path options fmt w = (r, w') →
    kstep (Build_system db w acks true)
      match r with
      | Ok db' => Build_system db' w' acks false
      | Err _ => Build_system db w' acks (log_settled w')
      end.

(** ** What is promised *)

(** The retained decisions come from the history [hs]. *)
Definition covers (hs : list keyedWALRecord) (st : kstate) : Prop :=
  ∀ id p, dedupe st !! id = Some p → ∃ r, r ∈ hs ∧ p = retained r.
Definition covered (hs : list keyedWALRecord) (acks : list KeyedDecision) : Prop :=
  ∀ d, d ∈ acks → ∃ r, r ∈ hs ∧ decision r = d.

(** [st] is reached from the empty database by a history that contains every
    acknowledged decision. *)
Definition promise (acks : list KeyedDecision) (st : kstate) : Prop :=
  ∃ hs, history o key_limit empty_kstate hs st ∧ covers hs st ∧ covered hs acks.

Definition live (db : KeyedDB H) (w : world) (acks : list KeyedDecision) : Prop :=
  ∃ wal prev base old rs, db_options db = o ∧ db_wal db = Some wal
    ∧ stored fmt o key_limit w wal prev base old rs (db_state db) [] (db_state db)
    ∧ ready w wal (old ++ rs) [] ∧ promise acks (db_state db).

Definition survivable (w : world) (acks : list KeyedDecision) : Prop :=
  ∃ wal, crash_safe fmt o key_limit w wal (promise acks).

Record good (db : KeyedDB H) (w : world) (acks : list KeyedDecision) : Prop := {
  gd_queue : Forall (servable o key_limit) (db_queue db);
  gd_crash : survivable w acks;
  gd_live : db_poisoned db = false → live db w acks }.

(** The files of a stopped process, which hold what was promised. *)
Definition resting (w : world) (acks : list KeyedDecision) : Prop :=
  ∃ wal prev base old rs st t, disk fmt o key_limit w wal prev base old rs st t ∧ promise acks st.

Record sys_inv (s : system H) : Prop := {
  si_open : db_closed (sy_db s) = false → good (sy_db s) (sy_world s) (sy_acks s);
  si_closed : db_closed (sy_db s) = true → db_queue (sy_db s) = [] ∧ survivable (sy_world s) (sy_acks s)
    ∧ (sy_rest s = true → resting (sy_world s) (sy_acks s)) }.

(** ** Histories and acknowledgements *)

Lemma covers_history hs st ps st' :
  covers hs st → history o key_limit st ps st' → covers (hs ++ ps) st'.
Proof.
  intros Hc Hh. revert hs Hc. induction Hh as [st|st r ps st' Hr Hh IH]; intros hs Hc.
  { by rewrite app_nil_r. }
  replace (hs ++ r :: ps) with ((hs ++ [r]) ++ ps) by (by rewrite <- app_assoc). apply IH.
  intros id p [[_ ->]|Hd]%applyKeyed_dedupe.
  - exists r. split; [|done]. apply elem_of_app. right. left.
  - destruct (Hc id p Hd) as (r'&Hin&->). exists r'. split; [|done]. apply elem_of_app. by left.
Qed.

Lemma covered_app hs acks acks' : covered hs acks → covered hs acks' → covered hs (acks ++ acks').
Proof. intros H1 H2 d [?|?]%elem_of_app; auto. Qed.
Lemma covered_mono hs ps acks : covered hs acks → covered (hs ++ ps) acks.
Proof. intros Hc d Hd. destruct (Hc d Hd) as (r&?&?). exists r. split; [|done]. apply elem_of_app. by left. Qed.

Lemma acks_of_app a b : acks_of (a ++ b) = acks_of a ++ acks_of b.
Proof. unfold acks_of. apply omap_app. Qed.

Lemma undup_repeat r : undup (as_duplicate (decision (retained r))) = decision r.
Proof. done. Qed.

Lemma covers_repeat hs st res :
  covers hs st → repeats st res → ∃ r, r ∈ hs ∧ undup (rs_decision res) = decision r.
Proof.
  intros Hc (id&p&Hd&E). destruct (Hc id p Hd) as (r&Hin&->). exists r. split; [done|]. by rewrite E.
Qed.

Lemma serve_all_acks hs st rqs results ps st' :
  covers hs st → serve_all o st rqs = (results, ps, st') →
  covers (hs ++ ps) st' ∧ covered (hs ++ ps) (acks_of results).
Proof.
  intros Hc. revert results ps st'. induction rqs as [|rq rqs IH] using rev_ind; intros results ps st'.
  { unfold serve_all. cbn. intros [= <- <- <-]. rewrite app_nil_r. split; [done|].
    by intros d ?%elem_of_nil. }
  rewrite serve_all_snoc. destruct (serve_all o st rqs) as [[results0 ps0] st0].
  destruct (IH _ _ _ eq_refl) as [IH1 IH2]. cbn. unfold serve, safelyExecuteKeyed.
  assert (∀ res, ack_of res = None → covered (hs ++ ps0) (acks_of (results0 ++ [res]))) as Hnone.
  { intros res E. rewrite acks_of_app. unfold acks_of at 2. cbn. rewrite E. by rewrite app_nil_r. }
  destruct (rq_ctxDone rq); [intros [= <- <- <-]; auto|].
  destruct (executeKeyed o st0 rq) as [v|e|d|r] eqn:Hex; intros [= <- <- <-]; auto.
  - split; [done|]. rewrite acks_of_app. apply covered_app; [done|].
    intros x ->%list_elem_of_singleton. destruct (executeKeyed_repeats _ _ _ _ Hex) as (p&Hd&->).
    destruct (IH1 _ _ Hd) as (r&Hin&->). by exists r.
  - rewrite acks_of_app, app_assoc. split; [|apply covered_app; [by apply covered_mono|]].
    + intros id p [[_ ->]|Hd]%applyKeyed_dedupe.
      * exists r. split; [|done]. apply elem_of_app. right. left.
      * destruct (IH1 id p Hd) as (r'&Hin&->). exists r'. split; [|done]. apply elem_of_app. by left.
    + intros x ->%list_elem_of_singleton. exists r. split; [|done]. apply elem_of_app. right. left.
Qed.

Lemma acks_of_refused n : acks_of (replicate n refused) = [].
Proof. by induction n. Qed.

(** ** The steps keep the promise *)

Hypothesis Hhorizon : 0 < DedupeHorizon o.
Hypothesis Hvalue : 0 ≤ MaxValueBytes o.
Hypothesis Htransaction : 0 ≤ MaxTransactionBytes o.

Lemma crash_safe_mono w wal (P Q : kstate → Prop) :
  (∀ s, P s → Q s) → crash_safe fmt o key_limit w wal P → crash_safe fmt o key_limit w wal Q.
Proof. intros HPQ Hs w' Hcr. destruct (Hs w' Hcr) as (p&b&ol&r&st&t&Hd&HP). exists p, b, ol, r, st, t. auto. Qed.

Lemma live_survivable db w acks : live db w acks → survivable w acks.
Proof.
  intros (wal&prev&base&old&rs&Ho&Hw&Hst&Hrd&Hp). exists wal.
  eapply crash_safe_mono; [|by eapply stored_crash_safe]. intros s [k ->]. by rewrite take_nil.
Qed.

Lemma live_resting db w acks : live db w acks → resting w acks.
Proof.
  intros (wal&prev&base&old&rs&Ho&Hw&[S1 S2 S3 S4 S5 S6 S7 S8]&[Hrd _]&Hp).
  exists wal, prev, base, old, rs, (db_state db), []. split; [|done]. split; try done; [by rewrite app_nil_r|by left].
Qed.

Lemma resting_survivable w acks : resting w acks → survivable w acks.
Proof.
  intros (wal&prev&base&old&rs&st&t&Hd&Hp). exists wal. pose proof Hd as [D1 D2 D3 D4 _ _ _ _].
  destruct (disk_phase fmt o key_limit wal prev base st old rs w t Hd) as [Hph Ht].
  eapply crash_safe_mono; [|apply (stopped_crash_safe fmt o key_limit wal prev base st old rs D1 D2 D3 D4); exists t; split; [done|by left]].
  by intros s <-.
Qed.

Lemma survivable_crash w w' acks : survivable w acks → crash w w' → resting w' acks.
Proof. intros [wal Hs] Hcr. destruct (Hs w' Hcr) as (p&b&ol&r&st&t&Hd&HP). by exists wal, p, b, ol, r, st, t. Qed.

Lemma promise_history acks acks' hs st ps st' :
  history o key_limit empty_kstate hs st → covers hs st → history o key_limit st ps st' →
  covered (hs ++ ps) (acks ++ acks') → promise (acks ++ acks') st'.
Proof.
  intros Hh Hc Hp Ha. exists (hs ++ ps). split; [by eapply history_app|].
  split; [by eapply covers_history|done].
Qed.

Lemma take_group_good db w acks results db' w' :
  good db w acks → (db_poisoned db = false → has_room db) → take_group db w = (results, db', w') →
  good db' w' (acks ++ acks_of results) ∧ db_closed db' = db_closed db
  ∧ db_queue db' = drop (Nat.min (group_limit db) (length (db_queue db))) (db_queue db)
  ∧ (db_poisoned db' = false → has_room db').
Proof.
  intros [Gq Gc Gl] Hroom. unfold take_group.
  set (n := Nat.min _ _). set (db1 := set_queue (drop n (db_queue db)) db). intros E.
  pose proof (processCommitGroup_control _ _ _ _ _ _ E) as (C1&C2&_&_&C5&C6).
  assert (Forall (servable o key_limit) (db_queue db')) as Hq by (rewrite C1; by apply Forall_drop).
  destruct (db_poisoned db) eqn:Hp.
  { rewrite processCommitGroup_poisoned in E by done. simplify_eq. rewrite acks_of_refused, app_nil_r.
    split; [split; try done; cbn; by rewrite Hp|]. split; [done|]. split; [done|]. cbn. by rewrite Hp. }
  destruct (Gl eq_refl) as (wal&prev&base&old&rs&Ho&Hw&Hst&Hrd&(hs&Hh&Hc&Ha)).
  assert (sequence (db_state db) + zlen (take n (db_queue db)) < 2 ^ 64) as Hroom1.
  { specialize (Hroom eq_refl). unfold has_room, zlen in *. rewrite length_take. lia. }
  destruct (processCommitGroup_cases fmt o key_limit Hhorizon Hvalue Htransaction
    wal prev base (db_state db) old rs db1 (take n (db_queue db)) w results db' w'
    Ho Hw Hp eq_refl Hst Hrd (Forall_take _ n _ Gq) Hroom1 E)
    as [(Hp'&ps&Hsv&Hps&Hst'&Hrd')|(Hp'&Hacks&ps&Hst')].
  - destruct (serve_all_acks hs _ _ _ _ _ Hc Hsv) as [Hc' Ha'].
    assert (live db' w' (acks ++ acks_of results)) as Hlive.
    { exists wal, prev, base, old, (rs ++ ps). split; [|split; [|split; [done|split; [done|]]]].
      - by rewrite C5.
      - by rewrite C6.
      - eapply promise_history; [done..|]. apply covered_app; [by apply covered_mono|done]. }
    split; [split; [done|by eapply live_survivable|done]|]. split; [done|]. split; [by rewrite C1|].
    intros _. specialize (Hroom eq_refl). unfold has_room in *. rewrite C1. cbn.
    rewrite (history_sequence o key_limit Hhorizon _ _ _ (stored_inv _ _ _ Hhorizon _ _ _ _ _ _ _ _ _ Hst) Hps).
    destruct (serve_all_length _ _ _ _ _ _ Hsv) as [_ Hl]. unfold zlen in *.
    rewrite length_take in Hl. rewrite length_drop. lia.
  - split; [split; [done| |by rewrite Hp']|by rewrite C1, C2, Hp'].
    exists wal. eapply crash_safe_mono; [|by eapply stored_crash_safe]. intros s [k ->].
    pose proof (history_take o key_limit _ _ _ k (sd_ps _ _ _ _ _ _ _ _ _ _ _ _ Hst')) as Hk.
    eapply promise_history; [done..|]. apply covered_app; [by apply covered_mono|].
    intros d Hd. unfold acks_of in Hd. apply list_elem_of_omap in Hd as (res&Hin&Hres).
    apply list_elem_of_lookup in Hin as [i Hi]. unfold ack_of in Hres.
    destruct (rs_err res) eqn:E1; [done|]. destruct (rs_panicValue res) eqn:E2; [done|]. simplify_eq.
    destruct (covers_repeat hs _ res Hc (Hacks i res Hi (conj E1 E2))) as (r&Hr&Er).
    exists r. split; [|done]. apply elem_of_app. by left.
Qed.

Lemma run_good fuel db w acks results db' w' :
  good db w acks → (db_poisoned db = false → has_room db) →
  runCommitCoordinator fuel db w = (results, db', w') →
  good db' w' (acks ++ acks_of results) ∧ db_closed db' = db_closed db
  ∧ ((length (db_queue db) ≤ fuel)%nat → db_queue db' = []).
Proof.
  revert db w acks results. induction fuel as [|fuel IH]; intros db w acks results Hg Hr E; cbn in E.
  { simplify_eq. rewrite app_nil_r. split; [done|]. split; [done|]. intros Hl.
    destruct (db_queue db'); [done|simpl in Hl; lia]. }
  destruct (db_queue db) as [|rq q] eqn:Eq.
  { simplify_eq. rewrite app_nil_r. by rewrite Eq. }
  destruct (take_group db w) as [[rs1 db1] w1] eqn:E1.
  destruct (runCommitCoordinator fuel db1 w1) as [[rs2 db2] w2] eqn:E2. simplify_eq.
  destruct (take_group_good db w acks rs1 db1 w1 Hg Hr E1) as (Hg1&Hc1&Hq1&Hr1).
  destruct (IH db1 w1 _ rs2 Hg1 Hr1 E2) as (Hg2&Hc2&Hq2).
  rewrite acks_of_app, app_assoc. split; [done|]. split; [by rewrite Hc2|]. intros Hl. apply Hq2.
  rewrite Hq1, Eq, length_drop. cbn in *. unfold group_limit. destruct (db_disabled db); unfold keyedMaxCommitGroup; lia.
Qed.

Lemma live_phase db w acks :
  live db w acks → ∃ wal prev base old rs,
    db_wal db = Some wal ∧ kinv o key_limit prev ∧ state_utf8 prev
    ∧ history o key_limit prev old base ∧ history o key_limit base rs (db_state db)
    ∧ phase fmt wal [base] (F_full old rs) w ∧ promise acks (db_state db) ∧ db_options db = o.
Proof.
  intros (wal&prev&base&old&rs&Ho&Hw&[S1 S2 S3 S4 S5 S6 S7 S8]&[Hi Hpos]&Hp).
  exists wal, prev, base, old, rs. repeat (split; [done|]). split; [|done]. split; [|done|].
  - intros d Hd. exists base. split; [left|by apply S6].
  - eexists. split; [exact Hi|]. done.
Qed.

(** A snapshot keeps the database, or poisons it without losing anything. *)
Lemma snapshot_good db w acks :
  live db w acks →
  match snapshotKeyed false db w with
  | (Ok _, w') => live db w' acks
  | (Err _, w') => survivable w' acks
  end.
Proof.
  intros Hl. destruct (live_phase _ _ _ Hl) as (wal&prev&base&old&rs&Hw&S1&S2&S3&S4&Hph&Hp&Ho).
  pose proof (snapshotKeyed_phase fmt wal base (db_state db) old rs db Hw eq_refl w Hph) as Hs.
  pose proof (history_inv o key_limit Hhorizon _ _ _ S1 S3) as Hib.
  pose proof (history_utf8 o key_limit Hhorizon _ _ _ S1 S2 S3) as Hub.
  pose proof (history_inv o key_limit Hhorizon _ _ _ Hib S4) as Hi.
  pose proof (history_utf8 o key_limit Hhorizon _ _ _ Hib Hub S4) as Hu.
  destruct (snapshotKeyed false db w) as [[[]|e] w'].
  - destruct Hs as [[D1 D2 (f&D3&->)] Hpos].
    exists wal, (db_state db), (db_state db), [], []. repeat (split; [done|]).
    split; [|split; [|done]].
    + split; try done; [constructor|constructor|constructor|..].
      * intros d Hd. by destruct (D1 d Hd) as (s&->%list_elem_of_singleton&?).
      * exists empty_file. split; [done|]. split; [done|]. exists []. split; [done|by left].
    + by split.
  - exists wal. eapply crash_safe_mono; [|by apply (phase_crash_safe fmt o key_limit Hhorizon wal prev base (db_state db) old rs)]. by intros s <-.
Qed.

Lemma survivable_faults w l acks : survivable w acks → survivable (with_faults l w) acks.
Proof. done. Qed.

Lemma live_faults db w l acks : live db w acks → live db (with_faults l w) acks.
Proof.
  intros (wal&prev&base&old&rs&Ho&Hw&[S1 S2 S3 S4 S5 S6 S7 S8]&Hrd&Hp).
  exists wal, prev, base, old, rs. repeat (split; [by split|]). done.
Qed.

Lemma wal_close_survivable (db : KeyedDB H) w acks e db' w' :
  survivable w acks → wal_close db w = ((e, db'), w') →
  survivable w' acks ∧ db_closed db' = db_closed db ∧ db_queue db' = db_queue db.
Proof.
  intros Hs. unfold wal_close. destruct (db_wal db); [|by intros [= <- <- <-]].
  unfold close_file, call. destruct (tick_faults w) as [l El].
  destruct (tick w) as [[| |k b] w1]; cbn in El; subst w1; intros [= <- <- <-]; done.
Qed.

(** Reopening after a crash always succeeds, with the promised state. *)
Lemma reopen w acks w' hook path options :
  survivable w acks → crash w w' → normalizeKeyedOptions options = Ok o → blank path = false →
  ∃ (db' : KeyedDB H) w'',
    openKeyed false hook CtxLive path options fmt (with_faults [] w') = (Ok db', w'')
    ∧ live db' w'' acks ∧ db_queue db' = [] ∧ db_closed db' = false ∧ db_poisoned db' = false.
Proof.
  intros [wal Hs] Hcr Hn Hb. destruct (Hs w' Hcr) as (prev&base&old&rs&st&t&Hd&Hp).
  unfold openKeyed, mbind, io_bind, io_res. rewrite Hn, Hb.
  set (db0 := Build_KeyedDB _ _ _ _ _ _ _ _ _ _ _ _ _).
  destruct (disk_opened fmt o key_limit Hhorizon Hvalue Htransaction false db0 (with_faults [] w')
    wal prev base old rs st t) as (w''&E&Hst&Hrd); [by destruct Hd|done..|].
  exists (set_state st (set_wal (Some wal) db0)), w''. split; [exact E|]. split; [|done].
  exists wal, prev, base, old, rs. done.
Qed.

(** Opening the files of a stopped process, under any faults. *)
Lemma open_resting w acks hook path options (r : res gerror (KeyedDB H)) w' :
  resting w acks → normalizeKeyedOptions options = Ok o → blank path = false →
  openKeyed false hook CtxLive path options fmt w = (r, w') →
  match r with
  | Ok db' => live db' w' acks ∧ db_queue db' = [] ∧ db_closed db' = false ∧ db_poisoned db' = false
  | Err _ => survivable w' acks ∧ (log_settled w' = true → resting w' acks)
  end.
Proof.
  intros (wal&prev&base&old&rs&st&t&Hd&Hp) Hn Hb. pose proof Hd as [D1 D2 D3 D4 _ _ _ _].
  destruct (disk_phase fmt o key_limit wal prev base st old rs w t Hd) as [Hph Ht].
  unfold openKeyed, mbind, io_bind, io_res. rewrite Hn, Hb. set (db0 := Build_KeyedDB _ _ _ _ _ _ _ _ _ _ _ _ _).
  pose proof (openStorage_phase fmt o key_limit Hhorizon Hvalue Htransaction wal prev base st old rs D1 D2 D3 D4 db0 t Ht eq_refl eq_refl eq_refl eq_refl w Hph) as Hop.
  destruct (openStorage false db0 w) as [[db'|e] w1]; intros [= <- <-].
  - destruct Hop as (->&[P1 P2 (f&Hf&->)]&Hpos). split; [|done].
    exists wal, prev, base, old, rs. split; [done|]. split; [done|]. split; [|split; [|done]].
    + split; try done; [constructor| |].
      * intros d Hin. by destruct (P1 d Hin) as (s&->%list_elem_of_singleton&?).
      * eexists. split; [exact Hf|]. split; [done|]. exists []. split; [done|by left].
    + split; [done|]. by rewrite app_nil_r.
  - split.
    + exists wal. eapply crash_safe_mono; [|by apply (stopped_crash_safe fmt o key_limit wal prev base st old rs)]. by intros s <-.
    + intros Hs. destruct (stopped_settled fmt o key_limit wal prev base st old rs D1 D2 D3 D4 w1 Hop Hs) as [t' Hd'].
      by exists wal, prev, base, old, rs, st, t'.
Qed.

Lemma resting_faults w l acks : resting w acks → resting (with_faults l w) acks.
Proof.
  intros (wal&prev&base&old&rs&st&t&[D1 D2 D3 D4 D5 D6 D7 D8]&Hp). exists wal, prev, base, old, rs, st, t. split; [by split|done].
Qed.

Lemma wal_close_resting (db : KeyedDB H) w acks e db' w' :
  resting w acks → wal_close db w = ((e, db'), w') → resting w' acks ∧ db_poisoned db' = db_poisoned db.
Proof.
  intros Hs. unfold wal_close. destruct (db_wal db); [|by intros [= <- <- <-]].
  unfold close_file, call. destruct (tick_faults w) as [l El].
  destruct (tick w) as [[| |k b] w1]; cbn in El; subst w1; intros [= <- <- <-]; (split; [by apply resting_faults|done]).
Qed.

Lemma close_inv db w acks rest results err db' w' :
  sys_inv (Build_system db w acks rest) → has_room db → Close false db w = (results, err, db', w') →
  sys_inv (Build_system db' w' (acks ++ acks_of results) (if db_closed db then rest else closed_well db err db')).
Proof.
  intros [Ho Hc] Hroom E. cbn in *. unfold Close in E. destruct (db_closed db) eqn:Ec.
  { simplify_eq. rewrite app_nil_r. split; cbn; [congruence|auto]. }
  destruct (runCommitCoordinator _ _ _) as [[rs1 db1] w1] eqn:E1.
  assert (good (set_closed db) w acks) as Hg by (destruct (Ho eq_refl); by split).
  destruct (run_good _ _ _ _ _ _ _ Hg (λ _, Hroom) E1) as (Hg1&Hc1&Hq1). specialize (Hq1 ltac:(done)).
  assert (∀ w2 db2 w3 e2 b, survivable w2 (acks ++ acks_of rs1) → wal_close db1 w2 = ((e2, db2), w3) →
    (b = true → resting w3 (acks ++ acks_of rs1)) → sys_inv (Build_system db2 w3 (acks ++ acks_of rs1) b)) as Hclose.
  { intros w2 db2 w3 e2 b Hs2 E2 Hb. destruct (wal_close_survivable _ _ _ _ _ _ Hs2 E2) as (?&C2&Q2).
    split; cbn; [rewrite C2, Hc1; done|]. by rewrite Q2. }
  unfold closed_well. rewrite Ec. destruct (db_poisoned db1) eqn:Hp1.
  { destruct (wal_close db1 w1) as [[e2 db2] w2] eqn:E2. simplify_eq. eapply Hclose; [apply Hg1|done|].
    unfold wal_close in E2. destruct (db_wal db1); [destruct (close_file w1)|]; simplify_eq; cbn [set_wal db_poisoned]; rewrite Hp1, andb_false_r; discriminate. }
  pose proof (snapshot_good db1 w1 _ (gd_live _ _ _ Hg1 Hp1)) as Hs.
  destruct (snapshotKeyed false db1 w1) as [[[]|e] w2];
    destruct (wal_close db1 w2) as [[e2 db2] w3] eqn:E2; simplify_eq.
  - eapply Hclose; [by eapply live_survivable|done|]. intros _. eapply wal_close_resting; [by eapply live_resting|done].
  - eapply Hclose; [done|done|]. cbn. discriminate.
Qed.

Lemma kstep_inv s s' : sys_inv s → kstep s s' → sys_inv s'.
Proof.
  intros I Hstep. destruct Hstep as [db w acks rest ctx id m db' E Hq|db w acks rest results db' w' Hne Hroom E
    |db w acks rest ctx err db' w' E|db w acks rest results err db' w' Hroom E
    |db w acks rest w' Hcr|db w acks hook path options r w' Hcl Hn Hb E]; [| | |by eapply close_inv|..];
    destruct I as [Ho Hc]; cbn in *.
  - unfold SubmitKeyed_enqueue in E. inv_ok. specialize (Ho ltac:(done)). destruct Ho as [G1 G2 G3].
    split; cbn; [|congruence]. intros _. split; [done|done|exact G3].
  - destruct (db_closed db) eqn:Ec; [destruct (Hc eq_refl); done|].
    destruct (take_group_good _ _ _ _ _ _ (Ho eq_refl) (λ _, Hroom) E) as (Hg&Ec'&_&_).
    split; cbn; [done|]. rewrite Ec', Ec. done.
  - unfold SnapshotKeyed in E. destruct (enterKeyed db ctx "snapshot_keyed") eqn:Ee; [|simplify_eq; by split].
    unfold enterKeyed in Ee. inv_ok. destruct (Ho ltac:(done)) as [G1 G2 G3].
    pose proof (snapshot_good db w acks (G3 ltac:(done))) as Hs.
    destruct (snapshotKeyed false db w) as [[[]|e] w1]; simplify_eq; split; cbn; try congruence; intros _.
    + split; [done|by eapply live_survivable|done].
    + by split.
  - assert (survivable w acks) as Hs by (destruct (db_closed db); [by apply Hc|by apply Ho]).
    pose proof (survivable_crash _ _ _ Hs Hcr) as Hr. split; cbn; [done|]. intros _. split; [done|]. split; [by apply resting_survivable|done].
  - destruct (Hc Hcl) as (Hq&_&Hr). pose proof (open_resting _ _ _ _ _ _ _ (Hr eq_refl) Hn Hb E) as Hop. destruct r as [db'|e].
    + destruct Hop as (Hl&Hq'&Hcl'&Hp'). split; cbn; [|congruence]. intros _. split; [rewrite Hq'; constructor|by eapply live_survivable|done].
    + split; cbn; [congruence|]. intros _. by split.
Qed.
End system.
