(* ===== verification/KeyedScenario.v ===== *)
(** * Scenarios of the keyed database

    What the theorems of [KeyedTheorems.v] share: normalized options, callbacks
    that work through their transaction, the retained decisions of a history, a
    new database after its first snapshot, simple requests, and a crash with
    nothing in flight. *)

From Stdlib Require Import ZArith Lia Strings.Byte Strings.String Sorted.
From stdpp Require Import base decidable countable list gmap relations.
From S2P Require Import Prelude GoText GoBinary GoJson Errors GoOS Keyed KeyedStorage KeyedRecovery.
From S2P Require Import KeyedCommit KeyedDurability KeyedGroup KeyedSystem.

Local Open Scope Z_scope.
Local Open Scope go_scope.

(** ** Normalized options *)

Lemma normalize_bounds options o :
  normalizeKeyedOptions options = Ok o →
  0 < MaxRecords o ∧ 0 < DedupeHorizon o ∧ 0 < MaxValueBytes o ≤ MaxTransactionBytes o.
Proof.
  unfold normalizeKeyedOptions. intros E. inv_ok. bool_to_prop. cbn in *.
  repeat match goal with |- context [?a =? 0] => destruct (Z.eqb_spec a 0) end;
  repeat match goal with H : context [?a =? 0] |- _ => destruct (Z.eqb_spec a 0) end; lia.
Qed.

(** ** Callbacks *)

(** What [json.Marshal] guarantees of every value a callback passes on. *)
Fixpoint callback_json (cb : callback) : Prop :=
  match cb with
  | CbReturn r e =>
      (∀ v, r = Some v → v ≠ [] ∧ json_valid v = true)
      ∧ (∀ c v, e ≫= as_rejection = Some (c, v) → v = [] ∨ json_valid v = true)
  | CbPanic _ => True
  | CbGet _ _ k => ∀ r, callback_json (k r)
  | CbPut _ value k => (∀ v, value = Some v → json_valid v = true) ∧ ∀ e, callback_json (k e)
  | CbDelete _ k => ∀ e, callback_json (k e)
  end.

Lemma tx_write_ok o mk tx key value :
  writes_ok o mk tx → write_bounds o mk key value → writes_ok o mk (tx_write key value tx).
Proof. intros H1 H2. by apply map_Forall_insert_2. Qed.

(** A callback works through its transaction, so its writes are in bounds. *)
Lemma run_callback_ok o cb mk :
  keyedMaxKeyBytes ≤ mk → callback_json cb → mutation_ok o mk (run_callback cb).
Proof.
  intros Hmk. induction cb as [r e|v|key dst k IH|key value k IH|key k IH]; intros Hj st tx Hw;
    cbn [run_callback callback_json] in *.
  - done.
  - done.
  - by apply IH.
  - destruct Hj as [Hv Hk]. unfold tx_put. destruct (tx_valid tx "put"); cbn [res_bind]; [|by apply IH].
    unfold guard_err. destruct (bool_decide (key = [])) eqn:E1; cbn [res_bind]; [by apply IH|].
    destruct (keyedMaxKeyBytes <? zlen key) eqn:E2; cbn [res_bind]; [by apply IH|].
    destruct value as [v|]; [|by apply IH].
    destruct (MaxValueBytes o <? zlen v) eqn:E3; cbn [res_bind]; [by apply IH|]. bool_to_prop.
    apply IH; [by apply Hk|]. apply tx_write_ok; [done|]. split; [done|]. split; [lia|]. split; [done|]. by apply Hv.
  - unfold tx_delete. destruct (tx_valid tx "delete"); cbn [res_bind]; [|by apply IH].
    unfold guard_err. destruct (bool_decide (key = [])) eqn:E1; cbn [res_bind]; [by apply IH|].
    destruct (keyedMaxKeyBytes <? zlen key) eqn:E2; cbn [res_bind]; [by apply IH|]. bool_to_prop.
    apply IH; [done|]. apply tx_write_ok; [done|]. split; [done|]. split; [lia|done].
Qed.

(** ** Decisions *)

(** The decision of a command and the records after it. *)
Lemma executeKeyed_overlay o st rq m out tx r :
  rq_mutation rq = Some m → runKeyedMutation o st m fresh_tx = (out, tx) →
  executeKeyed o st rq = ExPersist r →
  ((∃ result, out = CReturn (Some result) None ∧ kr_Result r = result) ∧ kr_Applied r = true
   ∧ kr_Mutations r = map (mutation_of tx) (tx_keys tx)
   ∧ (∀ k, records (applyKeyed o st r) !! k = overlay (writes tx) (records st) k)
   ∧ Z.of_nat (size (records (applyKeyed o st r))) ≤ MaxRecords o)
  ∨ ((∃ result err rejected, out = CReturn result (Some err) ∧ as_rejection err = Some (kr_Code r, rejected)
        ∧ kr_Result r = rejected)
     ∧ kr_Applied r = false ∧ records (applyKeyed o st r) = records st).
Proof.
  intros Hm Hrun. unfold executeKeyed. rewrite Hm, Hrun. destruct (blank (rq_command rq)); [done|].
  destruct (_ <? zlen (rq_command rq)); [done|]. destruct (dedupe st !! _); [done|].
  destruct out as [result err|v]; [|done]. destruct err as [err|]; cbn [mbind option_bind].
  - destruct (as_rejection err) as [[code rej]|] eqn:Hrej; [|done]. destruct (blank code); [done|].
    destruct (_ <? zlen code); [done|]. intros [-> _]%record_result_persist. right. cbn.
    split; [by exists result, err, rej|]. split; [done|]. by rewrite applyKeyed_records.
  - destruct result as [enc|]; [|done]. destruct (_ <? zlen enc); [done|]. rewrite finalize_unfold. cbn zeta.
    destruct (MaxRecords o <? _) eqn:Hc; [done|]. destruct (MaxTransactionBytes o <? _); [done|].
    intros [-> _]%record_result_persist. left. cbn. bool_to_prop. split; [by exists enc|]. split; [done|].
    rewrite applyKeyed_records. cbn. split; [done|]. split; [intros k; apply foldl_mutations_overlay|].
    rewrite foldl_mutations_size; [done|]. rewrite map_mutation_keys. apply tx_keys_nodup.
Qed.

(** ** Retained decisions *)

Lemma window_app {A} h (l k : list A) : window h (window h l ++ k) = window h (l ++ k).
Proof.
  unfold window. rewrite !length_app, length_drop.
  destruct (decide (length l ≤ Z.to_nat h)%nat) as [Hl|Hl].
  - replace (length l - Z.to_nat h)%nat with 0%nat by lia. rewrite drop_0. by rewrite Nat.sub_0_r.
  - rewrite <- (drop_app_le l k) by lia. rewrite drop_drop. f_equal. lia.
Qed.

Section decisions.
Context (o : KeyedOptions) (mk : Z).
Hypothesis Hhorizon : 0 < DedupeHorizon o.

(** A database retains exactly its last [DedupeHorizon] decisions. *)
Lemma history_decisions st rs st' :
  kinv o mk st → history o mk st rs st' →
  decisions st' = window (DedupeHorizon o) (decisions st ++ map retained rs).
Proof.
  intros Hi Hh. induction Hh as [st|st r rs st' Hr Hh IH].
  - cbn. rewrite app_nil_r. unfold window.
    pose proof (inv_horizon _ _ _ Hi) as Hz. unfold zlen in Hz.
    replace (length (decisions st) - Z.to_nat (DedupeHorizon o))%nat with 0%nat; [done|].
    rewrite decisions_length. lia.
  - rewrite IH by (by apply loggable_inv).
    destruct (applyKeyed_cases o st r (inv_dedupe _ _ _ Hi) (fr_new _ _ _ _ (lg_fresh _ _ _ _ Hr)) Hhorizon
      (inv_horizon _ _ _ Hi)) as (_&->&_).
    rewrite window_app, <- app_assoc. done.
Qed.

Lemma window_last {A} h (l : list A) x k :
  zlen k < h → x ∈ window h (l ++ x :: k).
Proof.
  intros Hk. unfold window, zlen in *. rewrite drop_app_le by (rewrite length_app; cbn; lia).
  apply elem_of_app. right. left.
Qed.

Lemma history_retains st r rs st' :
  kinv o mk st → history o mk st (r :: rs) st' → zlen rs < DedupeHorizon o →
  dedupe st' !! kr_CommandID r = Some (retained r).
Proof.
  intros Hi Hh Hl. pose proof (history_inv o mk Hhorizon _ _ _ Hi Hh) as Hi'.
  change (kr_CommandID r) with (kr_CommandID (retained r)).
  apply dedupe_lookup_decision; [apply Hi'|]. rewrite (history_decisions _ _ _ Hi Hh). cbn [map].
  apply window_last. unfold zlen in *. by rewrite length_map.
Qed.
End decisions.

(** ** A new database after its first snapshot *)

Definition empty_world : world :=
  {| w_dir := ∅; w_hist := []; w_inodes := ∅; w_next := 0; w_pos := 0; w_faults := [] |}.

(** The directory after a new database was opened and its first snapshot taken;
    before the snapshot the entry of the log is not synchronized. *)
Definition snapshot_world (fmt : bytes) : world :=
  {| w_dir := {[format_name := 0%nat; wal_name := 1%nat; snapshot_name := 2%nat]};
     w_hist := [];
     w_inodes := {[0%nat := {| stable := fmt; pending := [] |};
                   1%nat := empty_file;
                   2%nat := {| stable := snapshot_envelope (snapshot_of empty_kstate); pending := [] |}]};
     w_next := 3; w_pos := 0; w_faults := [] |}.

Definition new_db {H} (o : KeyedOptions) (fmt : bytes) (hook : H) : KeyedDB H :=
  Build_KeyedDB o fmt empty_kstate (Some 1%nat) false false hook None None None [] false zero_stats.

Lemma kinv_empty o mk : 0 ≤ MaxRecords o → 0 ≤ DedupeHorizon o → kinv o mk empty_kstate.
Proof.
  intros H1 H2. split; cbn; try done; [|constructor].
  split; cbn; [constructor| |].
  - intros id. rewrite lookup_empty. split; [by intros ?%elem_of_nil|by intros [? ?]].
  - intros id r Hr. by rewrite lookup_empty in Hr.
Qed.

Lemma state_utf8_empty : state_utf8 empty_kstate.
Proof. split; [apply map_Forall_empty|constructor]. Qed.

Lemma new_live {H} (o : KeyedOptions) (fmt : bytes) (hook : H) :
  0 ≤ MaxRecords o → 0 ≤ DedupeHorizon o → live fmt o (new_db o fmt hook) (snapshot_world fmt) [].
Proof.
  intros H1 H2. exists 1%nat, empty_kstate, empty_kstate, [], [].
  split; [done|]. split; [done|]. split; [|split].
  - split; [by apply kinv_empty|apply state_utf8_empty|constructor|constructor|constructor| | |].
    + intros d [->|?%elem_of_nil]%elem_of_cons; [|done]. split; [done|]. split; [done|].
      by exists 0%nat.
    + intros j [f Hf]. cbn. assert (j = 0 ∨ j = 1 ∨ j = 2)%nat as Hj; [|lia].
      unfold snapshot_world in Hf. cbn [w_inodes] in Hf. rewrite !lookup_insert_Some, lookup_singleton_Some in Hf.
      naive_solver.
    + exists empty_file. split; [done|]. split; [done|]. exists []. split; [done|by left].
  - done.
  - exists []. split; [constructor|]. split; [|by intros d ?%elem_of_nil].
    intros id p Hp. cbn in Hp. by rewrite lookup_empty in Hp.
Qed.

(** Creating a database in an empty directory. *)
Definition create {H} (o : KeyedOptions) (fmt : bytes) (hook : H) : res gerror (KeyedDB H) * world :=
  openStorage false
    (Build_KeyedDB o fmt empty_kstate None false false hook None None None [] false zero_stats) empty_world.

Lemma openKeyed_create {H} options o fmt (hook : H) path :
  normalizeKeyedOptions options = Ok o → blank path = false →
  openKeyed false hook CtxLive path options fmt empty_world = create o fmt hook.
Proof. intros Hn Hb. unfold openKeyed, create, mbind, io_bind, io_res. by rewrite Hn, Hb. Qed.

Lemma create_snapshot {H} o fmt (hook : H) :
  fmt = keyedFormatContents ∨ fmt = catalogKeyedFormatContents →
  ∃ w, create o fmt hook = (Ok (new_db o fmt hook), w)
    ∧ snapshotKeyed false (new_db o fmt hook) w = (Ok tt, snapshot_world fmt).
Proof. intros [-> | ->]; eexists; (split; [vm_compute; reflexivity|vm_compute; reflexivity]). Qed.

(** ** Requests *)

(** The request of a callback that writes one key. *)
Definition put_request (id key value : bytes) : keyedCommitRequest :=
  {| rq_ctxDone := false; rq_command := id;
     rq_mutation := Some (run_callback (CbPut key (Some value) (λ _, CbReturn (Some value) None))) |}.

Lemma put_request_record o st id key value r :
  executeKeyed o st (put_request id key value) = ExPersist r →
  kr_CommandID r = id ∧ kr_Code r = [] ∧ kr_Result r = value
  ∧ (kr_Mutations r = [] ∨ kr_Mutations r = [{| km_Key := key; km_Value := value; km_Delete := false |}]).
Proof.
  unfold executeKeyed. cbn [put_request rq_command rq_mutation].
  destruct (blank id); [done|]. destruct (keyedMaxIdentityBytes <? _); [done|].
  destruct (dedupe st !! id); [done|]. unfold runKeyedMutation. cbn [run_callback].
  assert (∀ tx, tx = fresh_tx ∨ tx = tx_write key (Some value) fresh_tx →
    map (mutation_of tx) (tx_keys tx) = [] ∨ map (mutation_of tx) (tx_keys tx)
      = [{| km_Key := key; km_Value := value; km_Delete := false |}]) as Hms.
  { intros tx [-> | ->]; [by left|right]. unfold tx_keys, tx_write, fresh_tx. cbn [writes].
    rewrite insert_empty, map_to_list_singleton. cbn. unfold mutation_of. cbn. by rewrite lookup_singleton_eq. }
  assert (∃ tx, tx_put o fresh_tx key (Some value) = Ok tx ∧ tx = tx_write key (Some value) fresh_tx
    ∨ ∃ e, tx_put o fresh_tx key (Some value) = Err e) as [tx [[-> Htx]|[e ->]]].
  { unfold tx_put, guard_err. cbn. exists (tx_write key (Some value) fresh_tx).
    destruct (bool_decide _); cbn; [eauto|]. destruct (_ <? zlen key); cbn; [eauto|].
    destruct (_ <? zlen value); cbn; eauto. }
  all: cbn [mbind option_bind]; destruct (MaxValueBytes o <? zlen value); [done|]; rewrite finalize_unfold;
    cbn zeta; destruct (MaxRecords o <? _); [done|]; destruct (MaxTransactionBytes o <? _); [done|];
    intros [-> _]%record_result_persist; cbn [kr_CommandID kr_Code kr_Result kr_Mutations];
    repeat (split; [done|]).
  - exact (Hms tx (or_intror Htx)).
  - exact (Hms fresh_tx (or_introl eq_refl)).
Qed.

Lemma put_request_servable o mk id key value :
  utf8_valid id = true → utf8_valid key = true → value ≠ [] → json_valid value = true →
  keyedMaxKeyBytes ≤ mk → 0 ≤ MaxTransactionBytes o → zlen key + zlen value ≤ MaxTransactionBytes o →
  servable o mk (put_request id key value).
Proof.
  intros Hid Hkey Hne Hval Hmk H0 Hb. split.
  - eexists. reflexivity.
  - intros m E. unfold put_request in E. cbn [rq_mutation] in E.
    assert (m = run_callback (CbPut key (Some value) (λ _, CbReturn (Some value) None))) as -> by congruence.
    apply run_callback_ok; [done|]. cbn. split; [by intros v [= <-]|]. intros _.
    split; [by intros v [= <-]|done].
  - intros st r Hr. destruct (put_request_record _ _ _ _ _ _ Hr) as (E1&E2&E3&E4). split.
    + split; rewrite ?E1, ?E2; [done|done|]. destruct E4 as [-> | ->]; [constructor|].
      constructor; [done|constructor].
    + destruct E4 as [-> | ->]; cbn; [done|]. unfold stored_bytes. cbn. lia.
Qed.

(** ** Crashes with nothing in flight *)

Definition settled (w : world) : bool := forallb (λ p, match pending p.2 with [] => true | _ => false end) (map_to_list (w_inodes w)).

Definition power_cycle (w : world) : world :=
  {| w_dir := w_dir w; w_hist := []; w_inodes := w_inodes w; w_next := w_next w; w_pos := 0; w_faults := [] |}.

Lemma crash_settled w : settled w = true → crash w (power_cycle w).
Proof.
  intros Hs. unfold settled in Hs. rewrite forallb_forall in Hs.
  split; [by left|]. split; [done|]. split; [done|]. intros i.
  destruct (w_inodes w !! i) as [[c p]|] eqn:E; cbn [power_cycle w_inodes]; [|done].
  assert (p = []) as ->.
  { specialize (Hs (i, {| stable := c; pending := p |})). cbn in Hs.
    destruct p; [done|]. exfalso. by discriminate Hs; apply list_elem_of_In, elem_of_map_to_list. }
  exists c. split; [|done]. exists [], []. split; [done|by left].
Qed.
