(* ===== verification/KeyedTheorems.v ===== *)
(** * Theorems about the keyed database

    The properties of [keyed.go] and [keyed_storage.go], each with a witness at
    a concrete database where it has hypotheses. *)

From Stdlib Require Import ZArith Lia Strings.Byte Strings.String Sorted.
From stdpp Require Import base decidable countable list gmap relations.
From S2P Require Import Prelude GoText GoBinary GoJson Errors GoOS Keyed KeyedStorage KeyedRecovery.
From S2P Require Import KeyedCommit KeyedDurability KeyedGroup KeyedSystem KeyedScenario.

Local Open Scope Z_scope.
Local Open Scope go_scope.

(** ** A sample database *)

Definition sample_options : KeyedOptions :=
  {| MaxRecords := 100; DedupeHorizon := 10; MaxValueBytes := 64; MaxTransactionBytes := 256 |}.

Lemma sample_normalized : normalizeKeyedOptions sample_options = Ok sample_options.
Proof. reflexivity. Qed.

Definition sample_db : KeyedDB unit := new_db sample_options keyedFormatContents tt.
Definition sample_world : world := snapshot_world keyedFormatContents.
Definition sample_request : keyedCommitRequest := put_request (bs "command-1") (bs "account") (bs "7").

Lemma sample_servable : servable sample_options keyedMaxKeyBytes sample_request.
Proof. apply put_request_servable; try done. Qed.

Lemma sample_live : live keyedFormatContents sample_options sample_db sample_world [].
Proof. by apply new_live. Qed.

(** The database after the sample command was committed. *)
Definition sample_group := processCommitGroup sample_db [sample_request] sample_world.

Lemma new_sys_inv {H} options o fmt (hook : H) faults :
  normalizeKeyedOptions options = Ok o →
  sys_inv fmt o (Build_system (new_db o fmt hook) (with_faults faults (snapshot_world fmt)) [] false).
Proof.
  intros Hn. destruct (normalize_bounds _ _ Hn) as (B1&B2&B3).
  assert (live fmt o (new_db o fmt hook) (with_faults faults (snapshot_world fmt)) []) as Hl.
  { apply live_faults, new_live; lia. }
  split; cbn; [|done]. intros _. split; [constructor| |done]. by eapply live_survivable.
Qed.

(** What opening an empty directory and the first snapshot return. *)
Lemma first_snapshot {H} options o fmt (hook : H) path db0 w1 ctx db1 w2 :
  normalizeKeyedOptions options = Ok o → blank path = false →
  fmt = keyedFormatContents ∨ fmt = catalogKeyedFormatContents →
  openKeyed false hook CtxLive path options fmt empty_world = (Ok db0, w1) →
  SnapshotKeyed false db0 ctx w1 = (None, db1, w2) → db1 = new_db o fmt hook ∧ w2 = snapshot_world fmt.
Proof.
  intros Hn Hb Hf Ho Hs. destruct (create_snapshot o fmt hook Hf) as (w&Hc&Hw). rewrite (openKeyed_create options o), Hc in Ho by done.
  injection Ho as <- <-. unfold SnapshotKeyed in Hs. destruct (enterKeyed _ _ _); [|done]. rewrite Hw in Hs. by injection Hs as <- <-.
Qed.

(** ** Durability *)

(** C1: What was acknowledged survives.  A database is opened in an empty
    directory and its first snapshot taken, without faults.  From then on callers
    submit, groups commit, snapshots and closings run, power failures come at any
    time, and the directory is opened: after a power failure, after a [Close] that
    reported no error, and again after an opening that failed and left nothing of
    the log unsynchronized; in any order, and all of this under any schedule of
    I/O faults.  The requests are servable: there is a mutation, it works through
    its transaction and passes on JSON, and what is decided of it has a command
    identifier, a code and keys that are valid UTF-8 and stores at most
    [MaxTransactionBytes], the keys of deletions counted; and there are sequence
    numbers left.  Then whatever was acknowledged to a caller survives the next
    power failure: opening without faults succeeds, and the recovered state is
    reached from the empty database by a history of commands that contains every
    acknowledged decision.  What is left out is not survived:
    [new_log_entry_lost] is a power failure before the first snapshot,
    [deletes_unrecoverable] and [keys_not_utf8_lost] are requests that are not
    servable, [unsynced_frame_replayed] is an opening after a process that was
    poisoned, without a power failure in between; after one that was killed the
    same can happen. *)
Theorem acknowledged_survives {H} fmt options o (hook hook' : H) path db0 w1 ctx db1 w2 faults s w' :
  fmt = keyedFormatContents ∨ fmt = catalogKeyedFormatContents →
  normalizeKeyedOptions options = Ok o → blank path = false →
  openKeyed false hook CtxLive path options fmt empty_world = (Ok db0, w1) →
  SnapshotKeyed false db0 ctx w1 = (None, db1, w2) →
  rtc (kstep fmt o) (Build_system db1 (with_faults faults w2) [] false) s →
  crash (sy_world s) w' →
  ∃ (db' : KeyedDB H) w'' hs,
    openKeyed false hook' CtxLive path options fmt (with_faults [] w') = (Ok db', w'')
    ∧ history o (key_limit fmt) empty_kstate hs (db_state db')
    ∧ ∀ d, d ∈ sy_acks s → ∃ r, r ∈ hs ∧ decision r = d.
Proof.
  intros Hfmt Hn Hb Hopen Hsnap Hsteps Hcr. destruct (normalize_bounds _ _ Hn) as (B1&B2&B3&B4).
  destruct (first_snapshot _ _ _ _ _ _ _ _ _ _ Hn Hb Hfmt Hopen Hsnap) as [-> ->].
  assert (sys_inv fmt o s) as Hs.
  { pose proof (new_sys_inv options o fmt hook faults Hn) as Hi. revert Hi.
    induction Hsteps as [|s1 s2 s3 Hst Hsteps IH]; [done|]. intros Hi. apply IH; [done|].
    eapply (kstep_inv fmt o); [lia..|done|done]. }
  assert (survivable fmt o (sy_world s) (sy_acks s)) as Hsv.
  { destruct Hs as [Ho Hc]. destruct (db_closed (sy_db s)); [by apply Hc|by apply Ho]. }
  edestruct (reopen fmt o (H := H)) as (db'&w''&E&(wal&prev&base&old&rs&_&_&_&_&(hs&Hh&_&Ha))&_);
    [lia..|exact Hsv|exact Hcr|exact Hn|exact Hb|].
  exists db', w'', hs. split; [exact E|]. split; done.
Qed.

Definition sample_queued : KeyedDB unit := set_queue [sample_request] sample_db.
Definition sample_taken := take_group sample_queued sample_world.

(** The database is opened and snapshotted, a command is committed, the power
    fails, a first opening fails while it reads the directory, and the power fails
    again. *)
Definition sample_failed : res gerror (KeyedDB unit) * world :=
  openKeyed false tt CtxLive (bs "data") sample_options keyedFormatContents (with_faults [FFail] (power_cycle sample_taken.2)).

Definition created_db : res gerror (KeyedDB unit) * world :=
  openKeyed false tt CtxLive (bs "data") sample_options keyedFormatContents empty_world.

Lemma acknowledged_survives_witness :
  ∃ (db' : KeyedDB unit) w'' hs,
    openKeyed false tt CtxLive (bs "data") sample_options keyedFormatContents
      (with_faults [] (power_cycle sample_failed.2)) = (Ok db', w'')
    ∧ history sample_options (key_limit keyedFormatContents) empty_kstate hs (db_state db')
    ∧ ∀ d, d ∈ acks_of sample_taken.1.1 → ∃ r, r ∈ hs ∧ decision r = d.
Proof.
  apply (acknowledged_survives keyedFormatContents sample_options sample_options tt tt (bs "data") sample_db created_db.2 CtxLive
    sample_db sample_world [] (Build_system (gone sample_taken.1.2) sample_failed.2 (acks_of sample_taken.1.1) true) (power_cycle sample_failed.2)).
  - by left.
  - reflexivity.
  - reflexivity.
  - vm_compute. reflexivity.
  - vm_compute. reflexivity.
  - eapply rtc_l.
    { eapply (kstep_submit _ _ _ _ _ _ CtxLive (bs "command-1") (rq_mutation sample_request) sample_queued);
        [reflexivity|]. constructor; [exact sample_servable|constructor]. }
    eapply rtc_l.
    { apply (kstep_group keyedFormatContents sample_options sample_queued sample_world [] false sample_taken.1.1
               sample_taken.1.2 sample_taken.2); [done|vm_compute; done|].
      unfold sample_taken. destruct (take_group sample_queued sample_world) as [[? ?] ?]. reflexivity. }
    eapply rtc_l.
    { apply (kstep_crash _ _ _ _ _ _ (with_faults [FFail] (power_cycle sample_taken.2))).
      assert (crash sample_taken.2 (power_cycle sample_taken.2)) as Hcr by (apply crash_settled; vm_compute; reflexivity). exact Hcr. }
    apply rtc_once. apply (kstep_open keyedFormatContents sample_options (gone sample_taken.1.2) _ _ tt (bs "data") sample_options
      sample_failed.1 sample_failed.2); [reflexivity|reflexivity|reflexivity|]. unfold sample_failed. by destruct (openKeyed _ _ _ _ _ _ _).
  - apply crash_settled. vm_compute. reflexivity.
Defined.

(** ** Group commit *)

(** C2: A commit group of servable requests on a healthy database that is
    stored durably (as from its first snapshot on), under any schedule of I/O
    faults.  (Servable: there is a mutation, it works through its
    transaction and passes on JSON, and what is decided of it has a command
    identifier, a code and keys that are valid UTF-8 and stores at most
    [MaxTransactionBytes], the keys of deletions counted; without this the log
    does not hold what was answered, see [deletes_unrecoverable] and
    [keys_not_utf8_lost].  The sequence numbers suffice for the group.)  Either
    nothing failed, and then the answers and the new state are
    those of executing the group's commands one after the other, and the
    database is stored durably again with all of them; or the database is
    poisoned, and then a request is answered with a decision only when it
    repeats one that was durable before the group. *)
Theorem group_commit_serial {H} fmt options o (db : KeyedDB H) group w acks results db' w' :
  normalizeKeyedOptions options = Ok o → live fmt o db w acks → db_poisoned db = false →
  Forall (servable o (key_limit fmt)) group → sequence (db_state db) + zlen group < 2 ^ 64 →
  processCommitGroup db group w = (results, db', w') →
  (db_poisoned db' = false
   ∧ (∃ ps, serve_all o (db_state db) group = (results, ps, db_state db'))
   ∧ live fmt o db' w' (acks ++ acks_of results))
  ∨ (db_poisoned db' = true
     ∧ (∀ k res, results !! k = Some res → acknowledged res → repeats (db_state db) res)
     ∧ survivable fmt o w' acks).
Proof.
  intros Hn Hl Hp Hsv Hroom E. destruct (normalize_bounds _ _ Hn) as (B1&B2&B3&B4).
  pose proof (processCommitGroup_control _ _ _ _ _ _ E) as (_&_&_&_&C5&C6).
  destruct Hl as (wal&prev&base&old&rs&Ho&Hw&Hst&Hrd&(hs&Hh&Hc&Ha)).
  destruct (processCommitGroup_cases fmt o (key_limit fmt) B2 ltac:(lia) ltac:(lia) wal prev base
    (db_state db) old rs db group w results db' w' Ho Hw Hp eq_refl Hst Hrd Hsv Hroom E)
    as [(Hp'&ps&Hs&Hps&Hst'&Hrd')|(Hp'&Hacks&ps&Hst')].
  - left. split; [done|]. split; [by exists ps|].
    destruct (serve_all_acks o hs _ _ _ _ _ Hc Hs) as [Hc' Ha'].
    exists wal, prev, base, old, (rs ++ ps). rewrite C5, C6. repeat (split; [done|]).
    eapply promise_history; [done..|]. apply covered_app; [by apply covered_mono|done].
  - right. split; [done|]. split; [done|]. exists wal.
    eapply crash_safe_mono; [|by eapply stored_crash_safe]. intros s [k ->].
    pose proof (history_take o (key_limit fmt) _ _ _ k (sd_ps _ _ _ _ _ _ _ _ _ _ _ _ Hst')) as Hk.
    exists (hs ++ take k ps). split; [by eapply history_app|].
    split; [by eapply covers_history|by apply covered_mono].
Qed.

Lemma group_commit_serial_witness :
  let '(results, db', w') := sample_group in
  (db_poisoned db' = false
   ∧ (∃ ps, serve_all sample_options (db_state sample_db) [sample_request] = (results, ps, db_state db'))
   ∧ live keyedFormatContents sample_options db' w' ([] ++ acks_of results))
  ∨ (db_poisoned db' = true
     ∧ (∀ k res, results !! k = Some res → acknowledged res → repeats (db_state sample_db) res)
     ∧ survivable keyedFormatContents sample_options w' []).
Proof.
  destruct sample_group as [[results db'] w'] eqn:E.
  apply (group_commit_serial keyedFormatContents sample_options sample_options sample_db
    [sample_request] sample_world [] results db' w' eq_refl sample_live eq_refl); [|reflexivity|exact E].
  constructor; [exact sample_servable|constructor].
Defined.





Lemma dec_from_length fuel n acc : (length (dec_from fuel n acc) ≤ fuel + length acc)%nat.
Proof.
  revert n acc. induction fuel as [|fuel IH]; intros n acc; cbn [dec_from]; [lia|].
  destruct (_ <? _)%N; [cbn; lia|]. etrans; [apply IH|]. cbn. lia.
Qed.

Lemma dec_length v : u64_range v → (length (dec v) ≤ 66)%nat.
Proof.
  intros Hv. unfold dec, u64_range in *. destruct (Z.ltb_spec v 0); [lia|]. unfold dec_nat.
  pose proof (dec_from_length (S (N.to_nat (N.log2 (Z.to_N v)))) (Z.to_N v) []) as Hl. cbn [length] in Hl.
  assert (N.log2 (Z.to_N v) ≤ 64)%N; [|lia].
  destruct (decide (v = 0)) as [-> |]; [done|]. apply N.lt_succ_r, N.log2_lt_pow2; lia.
Qed.

Lemma print_sequence ds rest :
  print (JObj ((bs "sequence", JNum ds) :: rest))
  = x7b :: quote (bs "sequence") ++ x3a :: ds ++ print_members rest ++ [x7d].
Proof. reflexivity. Qed.

(** The frame of the sample command is small. *)
Lemma sample_frame st r :
  executeKeyed sample_options st sample_request = ExPersist r → zlen (marshal r) ≤ maxKeyedFrameBytes.
Proof.
  intros Hr. destruct (put_request_record _ _ _ _ _ _ Hr) as (E1&E2&E3&E4).
  assert (u64_range (kr_Sequence r)) as Hq.
  { pose proof (executeKeyed_fresh sample_options keyedMaxKeyBytes st sample_request _ r ltac:(done)
      eq_refl (sv_ok _ _ _ sample_servable _ eq_refl) Hr) as Hf. rewrite (fr_seq _ _ _ _ Hf). apply u64_bound. }
  apply dec_length in Hq. change (marshal r) with (print (record_json r)). unfold record_json.
  rewrite print_sequence, E1, E2, E3. remember (dec (kr_Sequence r)) as ds eqn:Eds. clear Eds Hr.
  unfold zlen, maxKeyedFrameBytes. cbn [length]. rewrite length_app. cbn [length]. rewrite !length_app.
  destruct E4 as [-> | ->], (kr_Applied r); match goal with |- context [print_members ?l] =>
    let n := eval vm_compute in (length (print_members l)) in
    change (length (print_members l)) with n end;
    change (length (quote (bs "sequence"))) with 10%nat; cbn [length]; lia.
Qed.


(** ** The coordinator *)








(** ** Commands *)

(** C5: A retry within the deduplication horizon is answered exactly: when
    a command was decided as [r] and fewer than [DedupeHorizon] commands were
    decided after it, submitting its identifier again (with any mutation)
    returns the decision of [r] marked as a duplicate and writes nothing. *)
Theorem exact_retry options o mk st rq r rs st' rq' :
  normalizeKeyedOptions options = Ok o → kinv o mk st → executeKeyed o st rq = ExPersist r →
  history o mk st (r :: rs) st' → zlen rs < DedupeHorizon o →
  rq_command rq' = rq_command rq → is_Some (rq_mutation rq') →
  safelyExecuteKeyed o st' rq' = (result_decided (as_duplicate (decision r)), None).
Proof.
  intros Hn Hi Hex Hh Hl Hid [m Hm]. destruct (normalize_bounds _ _ Hn) as (B1&B2&B3&B4).
  destruct (executeKeyed_id _ _ _ _ Hex) as (Eid&Hb&Hlen&_).
  pose proof (history_retains o mk B2 _ _ _ _ Hi Hh Hl) as Hr. unfold safelyExecuteKeyed.
  rewrite (executeKeyed_duplicate o st' rq' m (retained r)); [done|done|..]; rewrite Hid; [done|done|].
  by rewrite <- Eid.
Qed.

Definition sample_record : keyedWALRecord :=
  {| kr_Sequence := 1; kr_CommandID := bs "command-1"; kr_Applied := true; kr_Code := [];
     kr_Result := bs "7";
     kr_Mutations := [{| km_Key := bs "account"; km_Value := bs "7"; km_Delete := false |}] |}.

Lemma sample_decided : executeKeyed sample_options empty_kstate sample_request = ExPersist sample_record.
Proof. vm_compute. reflexivity. Qed.

Lemma sample_loggable : loggable sample_options keyedMaxKeyBytes empty_kstate sample_record.
Proof.
  pose proof (sv_log _ _ _ sample_servable _ _ sample_decided) as [Hu Hb].
  split; [|done|split; [done|exact (sample_frame _ _ sample_decided)]|done].
  exact (executeKeyed_fresh sample_options keyedMaxKeyBytes empty_kstate sample_request _ sample_record
    ltac:(done) eq_refl (sv_ok _ _ _ sample_servable _ eq_refl) sample_decided).
Qed.

Definition sample_state : kstate := applyKeyed sample_options empty_kstate sample_record.

Lemma sample_history : history sample_options keyedMaxKeyBytes empty_kstate [sample_record] sample_state.
Proof. econstructor; [exact sample_loggable|constructor]. Qed.

Lemma sample_kinv : kinv sample_options keyedMaxKeyBytes empty_kstate.
Proof. by apply kinv_empty. Qed.

Lemma exact_retry_witness :
  safelyExecuteKeyed sample_options sample_state sample_request
  = (result_decided (as_duplicate (decision sample_record)), None).
Proof.
  apply (exact_retry sample_options sample_options keyedMaxKeyBytes empty_kstate sample_request sample_record []).
  - reflexivity.
  - exact sample_kinv.
  - exact sample_decided.
  - exact sample_history.
  - reflexivity.
  - reflexivity.
  - eexists. reflexivity.
Defined.

(** C6: A decided command is atomic.  If its callback returned without error
    the decision is applied, and the new records are the old ones overlaid with
    all the callback's final writes and deletions, within [MaxRecords]; if the
    callback rejected, the decision carries the code, and no record changes. *)
Theorem commit_atomic o st rq m out tx r :
  rq_mutation rq = Some m → runKeyedMutation o st m fresh_tx = (out, tx) →
  executeKeyed o st rq = ExPersist r →
  ((∃ result, out = CReturn (Some result) None ∧ kr_Result r = result) ∧ kr_Applied r = true
   ∧ (∀ k, records (applyKeyed o st r) !! k = overlay (writes tx) (records st) k)
   ∧ Z.of_nat (size (records (applyKeyed o st r))) ≤ MaxRecords o)
  ∨ ((∃ result err rejected, out = CReturn result (Some err) ∧ as_rejection err = Some (kr_Code r, rejected)
        ∧ kr_Result r = rejected)
     ∧ kr_Applied r = false ∧ records (applyKeyed o st r) = records st).
Proof.
  intros Hm Hrun Hex.
  destruct (executeKeyed_overlay o st rq m out tx r Hm Hrun Hex) as [(?&?&_&?&?)|?]; [by left|by right].
Qed.

Lemma commit_atomic_witness :
  let '(out, tx) := runKeyedMutation sample_options empty_kstate
    (run_callback (CbPut (bs "account") (Some (bs "7")) (λ _, CbReturn (Some (bs "7")) None))) fresh_tx in
  ((∃ result, out = CReturn (Some result) None ∧ kr_Result sample_record = result)
   ∧ kr_Applied sample_record = true
   ∧ (∀ k, records sample_state !! k = overlay (writes tx) (records empty_kstate) k)
   ∧ Z.of_nat (size (records sample_state)) ≤ MaxRecords sample_options)
  ∨ ((∃ result err rejected, out = CReturn result (Some err)
        ∧ as_rejection err = Some (kr_Code sample_record, rejected) ∧ kr_Result sample_record = rejected)
     ∧ kr_Applied sample_record = false ∧ records sample_state = records empty_kstate).
Proof.
  destruct (runKeyedMutation _ _ _ _) as [out tx] eqn:E.
  exact (commit_atomic sample_options empty_kstate sample_request _ out tx sample_record eq_refl E sample_decided).
Defined.

Lemma serve_kinv options o mk st rq :
  normalizeKeyedOptions options = Ok o → kinv o mk st → sequence st + 1 < 2 ^ 64 →
  (∀ m, rq_mutation rq = Some m → mutation_ok o mk m) →
  match (serve o st rq).2 with
  | Some r => kinv o mk (applyKeyed o st r) ∧ kr_Sequence r = sequence st + 1
  | None => True
  end.
Proof.
  intros Hn Hi Hq Hm. destruct (normalize_bounds _ _ Hn) as (B1&B2&B3&B4).
  unfold serve, safelyExecuteKeyed. destruct (rq_ctxDone rq); [done|].
  destruct (executeKeyed o st rq) as [v|e|d|r] eqn:Ex; cbn; try done.
  destruct (rq_mutation rq) as [m|] eqn:Em.
  2:{ unfold executeKeyed in Ex. rewrite Em in Ex. destruct (blank _); [done|]. destruct (_ <? _); done. }
  assert (fresh_record o mk st r) as Hf by (eapply executeKeyed_fresh; [lia|done|by apply Hm|done]).
  split; [by apply applyKeyed_inv|]. rewrite (fr_seq _ _ _ _ Hf). apply u64_id.
  pose proof (inv_sequence _ _ _ Hi). unfold u64_range in *. lia.
Qed.

(** C7: Executing any sequence of commands whose callbacks use their
    transaction keeps the invariant of the database: at most [MaxRecords] live
    records, keys and values within their bounds and valid JSON, at most
    [DedupeHorizon] retained decisions whose index and order agree, and sequence
    numbers that increase by one per decision without gaps. *)
Theorem keyed_invariant options o mk st rqs results ps st' :
  normalizeKeyedOptions options = Ok o → kinv o mk st → sequence st + zlen rqs < 2 ^ 64 →
  Forall (λ rq, ∀ m, rq_mutation rq = Some m → mutation_ok o mk m) rqs →
  serve_all o st rqs = (results, ps, st') →
  kinv o mk st' ∧ sequence st' = sequence st + zlen ps
  ∧ map kr_Sequence ps = map (λ i, sequence st + Z.of_nat i) (seq 1 (length ps)).
Proof.
  intros Hn Hi. revert results ps st'. induction rqs as [|rq rqs IH] using rev_ind; intros results ps st' Hq Hf.
  { unfold serve_all. cbn. intros [= <- <- <-]. split; [done|]. unfold zlen. cbn. split; [lia|done]. }
  rewrite serve_all_snoc. apply Forall_app in Hf as [Hf Hrq]. apply Forall_cons in Hrq as [Hrq _].
  rewrite zlen_app in Hq. unfold zlen in Hq at 2. cbn in Hq.
  destruct (serve_all o st rqs) as [[results0 ps0] st0] eqn:E0.
  destruct (IH _ _ _ ltac:(lia) Hf eq_refl) as (Hi0&Hs0&Hm0).
  destruct (serve_all_length _ _ _ _ _ _ E0) as [_ Hl]. unfold zlen in Hs0, Hq.
  pose proof (serve_kinv options o mk st0 rq Hn Hi0 ltac:(lia) Hrq) as Hk. cbn.
  destruct (serve o st0 rq) as [res [r|]]; cbn in Hk; intros [= <- <- <-]; [|done].
  destruct Hk as [Hk1 Hk2]. split; [done|]. rewrite applyKeyed_sequence, Hk2, map_app, Hm0. cbn [map].
  rewrite zlen_app, length_app, seq_app, map_app. cbn. unfold zlen. cbn.
  split; [lia|]. do 2 f_equal. lia.
Qed.

Lemma keyed_invariant_witness :
  kinv sample_options keyedMaxKeyBytes sample_state ∧ sequence sample_state = sequence empty_kstate + 1
  ∧ map kr_Sequence [sample_record] = map (λ i, sequence empty_kstate + Z.of_nat i) (seq 1 1).
Proof.
  refine (keyed_invariant sample_options sample_options keyedMaxKeyBytes empty_kstate [sample_request]
    [result_decided (decision sample_record)] [sample_record] sample_state eq_refl sample_kinv eq_refl _ _).
  - constructor; [exact (sv_ok _ _ _ sample_servable)|constructor].
  - unfold serve_all. cbn [foldl serve_step]. unfold serve, safelyExecuteKeyed.
    rewrite sample_decided. reflexivity.
Defined.

(** ** Recovery *)

Lemma frames_prefix rs n :
  Forall storable rs → ∃ k t, (k ≤ length rs)%nat ∧ take n (frames rs) = frames (take k rs) ++ t ∧ torn t
    ∧ ((k < length rs)%nat → (n < length (frames (take (S k) rs)))%nat).
Proof.
  intros Hs. revert n. induction Hs as [|r rs Hr Hs IH]; intros n.
  { exists 0%nat, []. cbn. rewrite take_nil. split; [lia|]. split; [done|]. split; [by left|lia]. }
  rewrite frames_cons. destruct (decide (n < length (frame r))%nat) as [Hn|Hn].
  - exists 0%nat, (take n (frame r)). cbn [take]. rewrite take_app_le by lia. split; [lia|]. split; [done|].
    split; [by apply torn_frame|]. intros _. rewrite frames_cons, length_app. lia.
  - destruct (IH (n - length (frame r))%nat) as (k&t&Hk&E&Ht&Hmax). exists (S k), t.
    rewrite take_app_ge, E by lia. cbn [take length]. rewrite frames_cons, app_assoc.
    split; [lia|]. split; [done|]. split; [done|]. intros Hlt. specialize (Hmax ltac:(lia)).
    rewrite frames_cons, length_app. cbn [take] in Hmax. lia.
Qed.

(** C8: Recovery from a log cut at any byte.  Let the log of a database hold
    the frames of the commands [rs], each decided in the state after the ones
    before it and such that the log can hold it: command identifier, code and keys
    are valid UTF-8, the frame is within its limit, the stored bytes, those of the
    keys of deletions included, are within [MaxTransactionBytes], and there are
    sequence numbers left.  (The engine also writes frames that are not such:
    [deletes_unrecoverable] and [keys_not_utf8_lost].)  If only the first [n]
    bytes of the log are left, replay ends
    without error in the state after the [k] commands whose frames are complete
    ([k] is maximal), and reports the offset where the torn frame starts exactly
    when there is one. *)
Theorem torn_log options o mk st rs st' n :
  normalizeKeyedOptions options = Ok o → kinv o mk st → history o mk st rs st' →
  ∃ k, (k ≤ length rs)%nat
    ∧ ((k < length rs)%nat → (n < length (frames (take (S k) rs)))%nat)
    ∧ (length (frames (take k rs)) ≤ n ∨ k = length rs)%nat
    ∧ replay_loop (S (length (take n (frames rs)))) o mk st 0 0 (take n (frames rs))
      = Ok (foldl (applyKeyed o) st (take k rs),
            if decide (take n (frames rs) = frames (take k rs)) then None
            else Some (length (frames (take k rs)))).
Proof.
  intros Hn Hi Hh. destruct (normalize_bounds _ _ Hn) as (B1&B2&B3&B4).
  destruct (frames_prefix rs n (history_storable _ _ _ _ _ Hh)) as (k&t&Hk&E&Ht&Hmax).
  exists k. split; [done|]. split; [done|]. split.
  { destruct (decide (k = length rs)); [by right|left]. apply (f_equal length) in E.
    rewrite length_take, length_app in E. lia. }
  rewrite E. rewrite (replay_history o mk B2 ltac:(lia) st (take k rs)
    (foldl (applyKeyed o) st (take k rs)) t);
    [|done|by eapply history_take|done|by left|].
  - do 2 f_equal. destruct (decide (t = [])) as [->|Hne].
    + rewrite app_nil_r, decide_True by done. done.
    + rewrite decide_False; [done|]. intros E'. apply (f_equal length) in E'. rewrite length_app in E'.
      destruct t; [done|simpl in E'; lia].
  - rewrite length_app. pose proof (frames_ge (take k rs)). lia.
Qed.

Lemma torn_log_witness :
  ∃ k, (k ≤ 1)%nat
    ∧ ((k < 1)%nat → (20 < length (frames (take (S k) [sample_record])))%nat)
    ∧ (length (frames (take k [sample_record])) ≤ 20 ∨ k = 1)%nat
    ∧ replay_loop (S (length (take 20 (frames [sample_record])))) sample_options keyedMaxKeyBytes
        empty_kstate 0 0 (take 20 (frames [sample_record]))
      = Ok (foldl (applyKeyed sample_options) empty_kstate (take k [sample_record]),
            if decide (take 20 (frames [sample_record]) = frames (take k [sample_record])) then None
            else Some (length (frames (take k [sample_record])))).
Proof.
  exact (torn_log sample_options sample_options keyedMaxKeyBytes empty_kstate [sample_record] sample_state 20
    eq_refl sample_kinv sample_history).
Defined.

(** C9: A snapshot and a log that overlap recover to the latest state.  Start
    at a state whose keys and retained decisions are valid UTF-8, and continue it
    by commands whose strings are, whose frames are within their limit and whose
    stored bytes, those of the keys of deletions included, are within
    [MaxTransactionBytes] (other commands do not read back: [keys_not_utf8_lost],
    [deletes_unrecoverable]).  Then the snapshot of [st1] loads back to [st1], and replaying a log that starts
    with commands [rs1] already contained in it skips those and continues with
    [rs2].  This is what a crash between the installation of a snapshot and the
    truncation of the log leaves. *)
Theorem snapshot_overlap options o mk st0 rs1 st1 rs2 st2 :
  normalizeKeyedOptions options = Ok o → kinv o mk st0 → state_utf8 st0 →
  history o mk st0 rs1 st1 → history o mk st1 rs2 st2 →
  recover o mk (Some (snapshot_envelope (snapshot_of st1))) (frames (rs1 ++ rs2)) = Ok (st2, None).
Proof.
  intros Hn Hi Hu H1 H2. destruct (normalize_bounds _ _ Hn) as (B1&B2&B3&B4). unfold recover.
  rewrite decode_snapshot_of; [|lia|by eapply history_inv|by eapply history_utf8]. cbn [res_bind].
  rewrite <- (app_nil_r (frames (rs1 ++ rs2))).
  rewrite (replay_overlap o mk B2 ltac:(lia) st0 rs1 st1 rs2 st2); try done; [by left|by left|].
  rewrite app_nil_r. pose proof (frames_ge (rs1 ++ rs2)). rewrite length_app in *. lia.
Qed.

Lemma snapshot_overlap_witness :
  recover sample_options keyedMaxKeyBytes (Some (snapshot_envelope (snapshot_of sample_state)))
    (frames ([sample_record] ++ [])) = Ok (sample_state, None).
Proof.
  apply (snapshot_overlap sample_options sample_options keyedMaxKeyBytes empty_kstate [sample_record]
    sample_state [] sample_state eq_refl sample_kinv state_utf8_empty sample_history).
  constructor.
Defined.

(** The result is a value or an [*Error]. *)
Definition typed {A} (m : res gerror A) : Prop :=
  match m with Ok _ => True | Err e => error_kind e ≠ None end.

Lemma typed_bind {A B} (m : res gerror A) (f : A → res gerror B) :
  typed m → (∀ a, typed (f a)) → typed (res_bind m f).
Proof. destruct m; cbn; auto. Qed.
Lemma typed_guard c kind op err : typed (guard_err c (EError kind op err)).
Proof. by destruct c. Qed.
Lemma typed_fold {A S} (f : S → A → res gerror S) s l : (∀ s a, typed (f s a)) → typed (res_fold f s l).
Proof. intros Hf. revert s. induction l as [|a l IH]; intros s; [done|]. by apply typed_bind. Qed.

Ltac typed_guards := repeat (apply typed_bind; [first [apply typed_guard|idtac]|intros ?]).

Lemma validate_mutation_typed o mk acc m : typed (validate_mutation o mk acc m).
Proof. unfold validate_mutation. destruct acc. typed_guards. done. Qed.

Lemma validateKeyedRecord_typed o mk r : typed (validateKeyedRecord o mk r).
Proof.
  unfold validateKeyedRecord. typed_guards; [|done]. apply typed_fold. intros. apply validate_mutation_typed.
Qed.

Lemma replay_record_typed o mk st lastSequence r : typed (replay_record o mk st lastSequence r).
Proof.
  unfold replay_record. apply typed_bind; [apply typed_guard|intros _].
  apply typed_bind; [apply validateKeyedRecord_typed|intros _].
  destruct (_ <? _); [|done]. typed_guards; [|done]. unfold validateKeyedApply.
  destruct (negb _); [done|apply typed_guard].
Qed.

(** Replay terminates on every log: more fuel than bytes is enough, for
    any content, so the loop ends with a state or one of its own errors and
    never for want of fuel. *)
Theorem replay_total o mk st lastSequence offset s fuel :
  (length s < fuel)%nat →
  replay_loop fuel o mk st lastSequence offset s = replay_loop (S (length s)) o mk st lastSequence offset s
  ∧ replay_loop fuel o mk st lastSequence offset s ≠ Err (EMsg "fuel").
Proof.
  assert (∀ n s st lastSequence offset fuel fuel', (length s ≤ n)%nat → (length s < fuel)%nat → (length s < fuel')%nat →
    replay_loop fuel o mk st lastSequence offset s = replay_loop fuel' o mk st lastSequence offset s
    ∧ replay_loop fuel o mk st lastSequence offset s ≠ Err (EMsg "fuel")) as Hgen.
  2:{ intros Hf. destruct (Hgen (length s) s st lastSequence offset fuel (S (length s))) as [E1 E2]; [lia..|]. done. }
  clear. induction n as [|n IH]; intros s st last off fuel fuel' Hn Hf Hf';
    (destruct fuel as [|fuel]; [lia|]); (destruct fuel' as [|fuel']; [lia|]).
  { destruct s; [done|simpl in Hn; lia]. }
  cbn [replay_loop]. destruct s as [|b s]; [done|].
  destruct (zlen (b :: s) <? 4); [done|]. cbv zeta.
  destruct (_ || _) eqn:Eg; [done|]. cbn [guard_err res_bind].
  destruct (zlen (drop 4 (b :: s)) <? _); [done|].
  destruct (negb _); [done|]. cbn [guard_err res_bind].
  destruct (parse _ ≫= json_record) as [r|]; [|done].
  destruct (replay_record o mk st last r) as [st1|e] eqn:Er; cbn [res_bind].
  - apply IH; rewrite length_drop; simpl in *; lia.
  - split; [done|]. intros [= ->]. pose proof (replay_record_typed o mk st last r) as Ht.
    by rewrite Er in Ht.
Qed.

Lemma replay_total_witness :
  replay_loop 10 sample_options keyedMaxKeyBytes empty_kstate 0 0 [x05; x00; x00]
  = replay_loop 4 sample_options keyedMaxKeyBytes empty_kstate 0 0 [x05; x00; x00]
  ∧ replay_loop 10 sample_options keyedMaxKeyBytes empty_kstate 0 0 [x05; x00; x00] ≠ Err (EMsg "fuel").
Proof. apply (replay_total sample_options keyedMaxKeyBytes empty_kstate 0 0 [x05; x00; x00] 10). simpl. lia. Defined.

(** ** Limits of durability *)

(** The outcome of committing one request and reopening after a crash with
    nothing in flight: what the caller was told, and the recovered records. *)
Definition commit_and_recover (o : KeyedOptions) (rq : keyedCommitRequest)
    : list (option KeyedDecision) * bool * res gerror (gmap bytes bytes) :=
  let '(results, db', w') := processCommitGroup (new_db o keyedFormatContents tt) [rq] sample_world in
  (map ack_of results, settled w',
   match openKeyed false tt CtxLive (bs "data") o keyedFormatContents (power_cycle w') with
   | (Ok db'', _) => Ok (records (db_state db''))
   | (Err e, _) => Err e
   end).

Definition small_options : KeyedOptions :=
  {| MaxRecords := 100; DedupeHorizon := 10; MaxValueBytes := 4; MaxTransactionBytes := 8 |}.
Definition delete_request : keyedCommitRequest :=
  {| rq_ctxDone := false; rq_command := bs "command-1";
     rq_mutation := Some (run_callback (CbDelete (bs "long-key-name") (λ _, CbReturn (Some (bs "null")) None))) |}.

(** [finalize] does not count the keys of deletions against
    [MaxTransactionBytes], but [validateKeyedRecord] does: a command that
    deletes more key bytes than the limit is acknowledged as applied, and after
    a crash the database cannot be opened any more. *)
Theorem deletes_unrecoverable :
  commit_and_recover small_options delete_request
  = ([Some {| kd_Sequence := 1; kd_CommandID := bs "command-1"; kd_Applied := true; kd_Code := [];
              kd_Result := bs "null"; kd_Duplicate := false |}],
     true, Err (capacity "WAL transaction exceeds configured bound")).
Proof. vm_compute. reflexivity. Qed.

(** Keys that are not valid UTF-8 do not survive the log: the JSON
    encoding replaces their bytes, so a value acknowledged under the key [0xff]
    is found after a crash under the key U+FFFD and under no other. *)
Theorem keys_not_utf8_lost :
  commit_and_recover sample_options (put_request (bs "command-1") [xff] (bs "7"))
  = ([Some {| kd_Sequence := 1; kd_CommandID := bs "command-1"; kd_Applied := true; kd_Code := [];
              kd_Result := bs "7"; kd_Duplicate := false |}],
     true, Ok {[ [xef; xbf; xbd] := bs "7" ]}).
Proof. vm_compute. reflexivity. Qed.

(** The directory of a new database as it was before the log was created. *)
Definition entry_lost (w : world) : world :=
  {| w_dir := {[format_name := 0%nat]}; w_hist := []; w_inodes := w_inodes w; w_next := w_next w;
     w_pos := 0; w_faults := [] |}.

Lemma crash_entry_lost w :
  settled w = true → bool_decide ({[format_name := 0%nat]} ∈ w_hist w) = true → crash w (entry_lost w).
Proof.
  intros Hs Hd. destruct (crash_settled _ Hs) as (_&_&Hn&Hi). apply bool_decide_eq_true in Hd.
  split; [by right|]. split; [done|]. split; [done|]. exact Hi.
Qed.

Definition first_commit : list (option KeyedDecision) * world :=
  match create sample_options keyedFormatContents tt with
  | (Ok db, w) => let '(results, _, w') := processCommitGroup db [sample_request] w in (map ack_of results, w')
  | (Err _, w) => ([], w)
  end.

(** [openStorage] creates the log file and never synchronizes the
    directory, so until the first snapshot a crash may lose the directory entry:
    a command of a new database is acknowledged, and the crash leaves a
    directory from which the database opens empty. *)
Theorem new_log_entry_lost :
  first_commit.1 = [Some (decision sample_record)]
  ∧ crash first_commit.2 (entry_lost first_commit.2)
  ∧ match openKeyed false tt CtxLive (bs "data") sample_options keyedFormatContents
            (entry_lost first_commit.2) with
    | (Ok db, _) => db_state db = empty_kstate
    | (Err _, _) => False
    end.
Proof.
  split; [vm_compute; reflexivity|]. split; [|vm_compute; reflexivity].
  apply crash_entry_lost; vm_compute; reflexivity.
Qed.

(** ** Opening after a poisoned process *)

(** A group whose frame is written and not synchronized poisons the database; it
    is closed, and the directory opened again without a power failure. *)
Definition poisoned_group := processCommitGroup sample_db [sample_request] (with_faults [FOk; FFail] sample_world).
Definition poisoned_close := Close false poisoned_group.1.2 poisoned_group.2.
Definition poisoned_open : res gerror (KeyedDB unit) * world :=
  openKeyed false tt CtxLive (bs "data") sample_options keyedFormatContents poisoned_close.2.
Definition retried : list (option KeyedDecision) * world :=
  match poisoned_open with
  | (Ok db, w) => let '(results, _, w') := processCommitGroup db [sample_request] w in (map ack_of results, w')
  | (Err _, w) => ([], w)
  end.

(** [openStorage] replays the frames it finds and never synchronizes them.  The
    first caller is told that storage failed, as the message of the error advises
    the database is closed and opened, the retry is answered with the decision of
    the frame as a duplicate, and a power failure then loses it. *)
Theorem unsynced_frame_replayed :
  map ack_of poisoned_group.1.1 = [None]
  ∧ retried.1 = [Some (decision sample_record)]
  ∧ crash retried.2 (lost retried.2)
  ∧ match openKeyed false tt CtxLive (bs "data") sample_options keyedFormatContents (lost retried.2) with
    | (Ok db, _) => db_state db = empty_kstate
    | (Err _, _) => False
    end.
Proof. split_and!; [vm_compute; reflexivity|vm_compute; reflexivity|apply lost_crash|vm_compute; reflexivity]. Qed.
