(* ===== verification/Catalog.v ===== *)
(** * The catalog ([catalog.go])

    Buckets and datasets over the keyed engine: the catalog state and its
    operations, the encoding of dataset records as backend keys, the
    transactions of [Mutate] with the bounds of datasets, and the ordered
    primary keys that [Scan] walks.  The keyed engine's [afterApply] hook is
    [applyQueryKeyMutations], so the query keys are the hook state of the
    [KeyedDB].  A pointer to a [Database] is a number: handles carry the number
    of the database they belong to. *)

From Stdlib Require Import ZArith Lia Strings.Byte Strings.String Sorted.
From stdpp Require Import base decidable countable list gmap.
From S2P Require Import Prelude GoText GoBinary GoJson Errors GoOS Keyed KeyedStorage KeyedCommit.

Local Open Scope Z_scope.
Local Open Scope go_scope.

(** ** Types *)

Definition KeyedJSON : bytes := bs "keyed_json".
Definition GoCatalog : bytes := bs "go".

Record DatasetBounds := { b_MaxRecords : Z; b_MaxValueBytes : Z }.

Record DatasetOptions := {
  do_Kind : bytes;
  do_TypeIdentity : bytes;
  do_MaxRecords : Z;
  do_MaxValueBytes : Z }.

Definition DefaultDatasetOptions : DatasetOptions :=
  {| do_Kind := []; do_TypeIdentity := []; do_MaxRecords := 0; do_MaxValueBytes := 0 |}.

Record DatasetInfo := {
  di_ID : Z;
  di_BucketName : bytes;
  di_Name : bytes;
  di_Kind : bytes;
  di_Origin : bytes;
  di_TypeIdentity : bytes;
  di_Bounds : DatasetBounds }.

#[export] Instance DatasetBounds_eq_dec : EqDecision DatasetBounds.
Proof. solve_decision. Defined.
#[export] Instance DatasetInfo_eq_dec : EqDecision DatasetInfo.
Proof. solve_decision. Defined.

(** [None] is a nil map. *)
Record catalogBucket := { Datasets : option (gmap bytes DatasetInfo) }.

Record catalogState := {
  DatabaseID : bytes;
  NextDatasetID : Z;
  Buckets : option (gmap bytes catalogBucket) }.

Definition datasets (b : catalogBucket) : gmap bytes DatasetInfo := default ∅ (Datasets b).
Definition buckets (c : catalogState) : gmap bytes catalogBucket := default ∅ (Buckets c).

Abbreviation queryKeys := (gmap Z (list bytes)).

Record Database := {
  d_ptr : nat;
  keyed : KeyedDB queryKeys;
  catalog : catalogState }.

Record BucketHandle := { bh_db : nat; bh_name : bytes }.
Record DatasetHandle := { dh_db : nat; dh_info : DatasetInfo }.

Record CatalogView := {
  cv_Database : bytes;
  cv_Buckets : list bytes;
  cv_Datasets : list DatasetInfo }.

(** ** Backend keys *)

Definition backendRecordKey (datasetID : Z) (recordKey : bytes) : bytes :=
  x00 :: put_u64_be datasetID ++ recordKey.

Definition backendDatasetID (key : bytes) : option Z :=
  match key with
  | x00 :: rest => if (length key <? 9)%nat then None else Some (get_u64_be (take 8 rest))
  | _ => None
  end.

(** ** The primary keys of datasets *)

(** The keys of each dataset among [keys], in the order of [keys]. *)
Definition collect_key (q : queryKeys) (backendKey : bytes) : queryKeys :=
  match backendDatasetID backendKey with
  | None => q
  | Some id => <[id := default [] (q !! id) ++ [drop 9 backendKey]]> q
  end.

(** Go ranges over the map in any order; the sort at the end makes the result
    independent of it. *)
Definition initializeQueryKeys (rs : gmap bytes bytes) : queryKeys :=
  sort_strings <$> foldl collect_key ∅ ((map_to_list rs).*1).

Definition query_mutation (q : queryKeys) (m : keyedMutation) : queryKeys :=
  match backendDatasetID (km_Key m) with
  | None => q
  | Some id =>
      let key := drop 9 (km_Key m) in
      let keys := default [] (q !! id) in
      let position := search_strings keys key in
      let exists_ := bool_decide (keys !! position = Some key) in
      if km_Delete m then
        if exists_ then <[id := take position keys ++ drop (S position) keys]> q else q
      else if exists_ then q
      else <[id := take position keys ++ key :: drop position keys]> q
  end.

Definition applyQueryKeyMutations (r : keyedWALRecord) (q : queryKeys) : queryKeys :=
  if kr_Applied r then foldl query_mutation q (kr_Mutations r) else q.

(** ** Validation of names, keys and options *)

Definition validCatalogName (kind : string) (name : bytes) : res gerror unit :=
  fail_if blank name || negb (bool_decide (name = trim_space name))
    with err_new ErrorInvalidInput kind
           (String.append kind " name is required and cannot have surrounding whitespace");
  fail_if contains_any name [x2f; x5c; x00]
    with err_new ErrorInvalidInput kind (String.append kind " name cannot contain path separators or NUL");
  fail_if keyedMaxIdentityBytes <? zlen name
    with err_new ErrorCapacity kind (String.append kind " name exceeds 4 KiB");
  Ok tt.
Arguments validCatalogName _%_string _.

Definition validRecordKey (key : bytes) : res gerror unit :=
  fail_if bool_decide (key = []) with err_new ErrorInvalidInput "record_key" "record key is required";
  fail_if keyedMaxKeyBytes <? zlen key with err_new ErrorCapacity "record_key" "record key exceeds 4 KiB";
  Ok tt.

Definition normalizeDatasetOptions (options : DatasetOptions) (database : KeyedOptions)
    : res gerror DatasetOptions :=
  let kind := if bool_decide (do_Kind options = []) then KeyedJSON else do_Kind options in
  fail_if negb (bool_decide (kind = KeyedJSON))
    with err_new ErrorIncompatible "dataset" "unsupported dataset kind";
  fail_if (do_MaxRecords options <? 0) || (do_MaxValueBytes options <? 0)
    with err_new ErrorInvalidInput "dataset" "dataset bounds cannot be negative";
  let maxRecords := if do_MaxRecords options =? 0 then MaxRecords database else do_MaxRecords options in
  let maxValueBytes :=
    if do_MaxValueBytes options =? 0 then MaxValueBytes database else do_MaxValueBytes options in
  fail_if MaxValueBytes database <? maxValueBytes
    with err_new ErrorInvalidInput "dataset" "dataset MaxValueBytes exceeds database MaxValueBytes";
  fail_if keyedMaxIdentityBytes <? zlen (do_TypeIdentity options)
    with err_new ErrorCapacity "dataset" "type identity exceeds 4 KiB";
  Ok {| do_Kind := kind; do_TypeIdentity := do_TypeIdentity options; do_MaxRecords := maxRecords;
        do_MaxValueBytes := maxValueBytes |}.

(** [enter] for the operations on the catalog. *)
Definition enter (db : Database) (ctx : context) (op : string) : res gerror unit :=
  let! _ := enterKeyed (keyed db) ctx op in
  fail_if (String.eqb op "bucket" || String.eqb op "dataset") && db_poisoned (keyed db)
    with err_new ErrorPoisoned op
           "an earlier catalog durability failure made structural writes unsafe; close and reopen the database";
  Ok tt.
Arguments enter _ _ _%_string.

Definition set_keyed (k : KeyedDB queryKeys) (db : Database) : Database :=
  {| d_ptr := d_ptr db; keyed := k; catalog := catalog db |}.
Definition set_catalog (c : catalogState) (db : Database) : Database :=
  {| d_ptr := d_ptr db; keyed := keyed db; catalog := c |}.

(** ** Transactions *)

Definition zeroInfo : DatasetInfo :=
  {| di_ID := 0; di_BucketName := []; di_Name := []; di_Kind := []; di_Origin := [];
     di_TypeIdentity := []; di_Bounds := {| b_MaxRecords := 0; b_MaxValueBytes := 0 |} |}.

(** [validDataset]: a nil dataset is [None]. *)
Definition validDataset (ptr : nat) (tx : KeyedTx) (dataset : option DatasetHandle) (key : bytes)
    (op : string) : res gerror DatasetInfo :=
  let! _ := tx_valid tx op in
  match dataset with
  | None => Err (err_new ErrorInvalidInput (String.append "catalog_tx_" op)
                   "dataset does not belong to this database")
  | Some d =>
      fail_if negb (bool_decide (dh_db d = ptr))
        with err_new ErrorInvalidInput (String.append "catalog_tx_" op)
               "dataset does not belong to this database";
      let! _ := validRecordKey key in
      Ok (dh_info d)
  end.

Definition ctx_get (ptr : nat) (st : kstate) (tx : KeyedTx) (dataset : option DatasetHandle)
    (key : bytes) (dst : option (bytes → bool)) : res gerror (option bytes) :=
  let! info := validDataset ptr tx dataset key "get" in
  match dst with
  | None => Err (err_new ErrorInvalidInput "catalog_tx_get" "destination is required")
  | Some accepts =>
      let backendKey := backendRecordKey (di_ID info) key in
      match writes tx !! backendKey with
      | Some None => Ok None
      | Some (Some value) =>
          fail_if negb (accepts value) with EError ErrorInvalidInput "catalog_tx_get" (EMsg "json");
          Ok (Some value)
      | None =>
          match records st !! backendKey with
          | None => Ok None
          | Some value =>
              fail_if negb (accepts value) with EError ErrorCorruption "catalog_tx_get" (EMsg "json");
              Ok (Some value)
          end
      end
  end.

Definition ctx_put (ptr : nat) (tx : KeyedTx) (dataset : option DatasetHandle) (key : bytes)
    (value : option bytes) : res gerror KeyedTx :=
  let! info := validDataset ptr tx dataset key "put" in
  match value with
  | None => Err (EError ErrorInvalidInput "catalog_tx_put" (EMsg "json"))
  | Some encoded =>
      fail_if b_MaxValueBytes (di_Bounds info) <? zlen encoded
        with err_new ErrorCapacity "catalog_tx_put" "value exceeds dataset MaxValueBytes";
      Ok (tx_write (backendRecordKey (di_ID info) key) (Some encoded) tx)
  end.

Definition ctx_delete (ptr : nat) (tx : KeyedTx) (dataset : option DatasetHandle) (key : bytes)
    : res gerror KeyedTx :=
  let! info := validDataset ptr tx dataset key "delete" in
  Ok (tx_write (backendRecordKey (di_ID info) key) None tx).

(** The counts of [validateDatasetBounds]: the records of each dataset, then
    the effect of the writes. *)
Definition count_record (counts : gmap Z Z) (key : bytes) : gmap Z Z :=
  match backendDatasetID key with
  | None => counts
  | Some id => <[id := default 0 (counts !! id) + 1]> counts
  end.
Definition count_write (rs : gmap bytes bytes) (counts : gmap Z Z) (kv : bytes * option bytes) : gmap Z Z :=
  match backendDatasetID kv.1 with
  | None => counts
  | Some id =>
      let existed := bool_decide (is_Some (rs !! kv.1)) in
      match kv.2, existed with
      | None, true => <[id := default 0 (counts !! id) - 1]> counts
      | Some _, false => <[id := default 0 (counts !! id) + 1]> counts
      | _, _ => counts
      end
  end.

(** The datasets of a catalog. *)
Definition all_datasets (c : catalogState) : list DatasetInfo :=
  map_to_list (buckets c) ≫= (fun nb => (map_to_list (datasets nb.2)).*2).

Definition validateDatasetBounds (c : catalogState) (st : kstate) (tx : KeyedTx) : res gerror unit :=
  let counts := foldl count_record ∅ ((map_to_list (records st)).*1) in
  let counts := foldl (count_write (records st)) counts (map_to_list (writes tx)) in
  guard_err (existsb (fun d => b_MaxRecords (di_Bounds d) <? default 0 (counts !! di_ID d)) (all_datasets c))
    (err_new ErrorCapacity "catalog_mutate" "dataset record capacity exceeded").

(** A [Mutation]: a tree of calls on its [Tx]. *)
Inductive mutation :=
| MReturn (result : option bytes) (err : option gerror)
| MPanic (value : bytes)
| MGet (dataset : option DatasetHandle) (key : bytes) (dst : option (bytes → bool))
       (k : res gerror (option bytes) → mutation)
| MPut (dataset : option DatasetHandle) (key : bytes) (value : option bytes) (k : option gerror → mutation)
| MDelete (dataset : option DatasetHandle) (key : bytes) (k : option gerror → mutation).

Fixpoint run_mutation (ptr : nat) (m : mutation) (st : kstate) (tx : KeyedTx) : callback_outcome * KeyedTx :=
  match m with
  | MReturn r e => (CReturn r e, tx)
  | MPanic v => (CPanic v, tx)
  | MGet d key dst k => run_mutation ptr (k (ctx_get ptr st tx d key dst)) st tx
  | MPut d key value k =>
      match ctx_put ptr tx d key value with
      | Ok tx' => run_mutation ptr (k None) st tx'
      | Err e => run_mutation ptr (k (Some e)) st tx
      end
  | MDelete d key k =>
      match ctx_delete ptr tx d key with
      | Ok tx' => run_mutation ptr (k None) st tx'
      | Err e => run_mutation ptr (k (Some e)) st tx
      end
  end.

(** The callback [Mutate] hands to the keyed engine. *)
Definition catalog_mutation (ptr : nat) (c : catalogState) (m : mutation) : KeyedMutation :=
  fun _ st tx =>
    match run_mutation ptr m st tx with
    | (CReturn r None, tx') =>
        match validateDatasetBounds c st tx' with
        | Err e => (CReturn (Some (bs "null")) (Some e), tx')
        | Ok _ => (CReturn r None, tx')
        end
    | out => out
    end.

(** The call runs alone: [SubmitKeyed] executes the request before it returns and
    no other caller changes the catalog in between, so the catalog of the call is
    the one [validateDatasetBounds] reads when the callback is executed.  Where
    calls interleave ([CatalogSafety.catalog_step]) the requests of a commit group
    are those of the catalog at the moment the group is processed. *)
Definition Mutate (db : Database) (ctx : context) (id : bytes) (m : option mutation) (w : world)
    : submit_outcome * Database * world :=
  match m with
  | None =>
      (SubmitReturn zeroDecision (Some (err_new ErrorInvalidInput "catalog_mutate" "mutation is required")),
       db, w)
  | Some m =>
      let '(out, k, w') := SubmitKeyed (keyed db) ctx id (Some (catalog_mutation (d_ptr db) (catalog db) m)) w in
      (out, set_keyed k db, w')
  end.

(** ** Reading *)

Definition DatasetGet (db : Database) (dataset : DatasetHandle) (ctx : context) (key : bytes)
    (dst : option (bytes → bool)) : res gerror (option bytes) :=
  let! _ := validRecordKey key in
  match dst with
  | None => Err (err_new ErrorInvalidInput "dataset_get" "destination is required")
  | Some accepts =>
      let! _ := enterKeyed (keyed db) ctx "dataset_get" in
      match records (db_state (keyed db)) !! backendRecordKey (di_ID (dh_info dataset)) key with
      | None => Ok None
      | Some value =>
          fail_if negb (accepts value) with EError ErrorCorruption "dataset_get" (EMsg "json");
          Ok (Some value)
      end
  end.

Definition ListBuckets (db : Database) (ctx : context) : res gerror (list bytes) :=
  let! _ := enter db ctx "list_buckets" in
  Ok (sort_strings ((map_to_list (buckets (catalog db))).*1)).

Definition ListDatasets (db : Database) (bucket : BucketHandle) (ctx : context) : res gerror (list DatasetInfo) :=
  let! _ := enter db ctx "list_datasets" in
  match buckets (catalog db) !! bh_name bucket with
  | None => Err (err_new ErrorCorruption "list_datasets" "bucket handle is absent from catalog")
  | Some entry =>
      Ok (sort_by (fun a b => bltb (di_Name a) (di_Name b)) ((map_to_list (datasets entry)).*2))
  end.

Definition dataset_lt (a b : DatasetInfo) : bool :=
  if bool_decide (di_BucketName a = di_BucketName b) then bltb (di_Name a) (di_Name b)
  else bltb (di_BucketName a) (di_BucketName b).

(** [Database.Catalog]. *)
Definition CatalogOf (db : Database) (ctx : context) : res gerror CatalogView :=
  let! _ := enter db ctx "catalog" in
  Ok {| cv_Database := DatabaseID (catalog db);
        cv_Buckets := sort_strings ((map_to_list (buckets (catalog db))).*1);
        cv_Datasets := sort_by dataset_lt (all_datasets (catalog db)) |}.

(** [Database.DatabaseID], [Dataset.Info], [Database.Snapshot] and
    [Database.Close]. *)
Definition DatabaseIDOf (db : Database) : bytes := DatabaseID (catalog db).
Definition Info (dataset : option DatasetHandle) : DatasetInfo := default zeroInfo (dh_info <$> dataset).

Definition SnapshotDatabase (windows : bool) (db : Database) (ctx : context) (w : world)
    : option gerror * Database * world :=
  let '(err, k, w') := SnapshotKeyed windows (keyed db) ctx w in (err, set_keyed k db, w').

Definition CloseDatabase (windows : bool) (db : Database) (w : world)
    : list keyedCommitResult * option gerror * Database * world :=
  let '(results, err, k, w') := Close windows (keyed db) w in (results, err, set_keyed k db, w').
