(* ===== verification/CatalogStorage.v ===== *)
(** * Storage of the catalog ([catalog_storage.go]) and its changes

    The JSON form of the catalog, its atomically replaced file, its validation
    against the recovered records, the operations that change it ([Bucket],
    [Dataset]) and [OpenCatalog].  [rand] is the outcome of reading sixteen
    random bytes. *)

From Stdlib Require Import ZArith Lia Strings.Byte Strings.String Sorted.
From stdpp Require Import base decidable countable list gmap.
From S2P Require Import Prelude GoText GoBinary GoJson Errors GoOS Keyed KeyedStorage KeyedCommit Catalog.

Local Open Scope Z_scope.
Local Open Scope go_scope.

Definition catalogMagic : bytes := bs "OCTCAT01".

(** ** JSON forms *)

Definition bounds_json (b : DatasetBounds) : json :=
  JObj [(bs "max_records", JNum (dec (b_MaxRecords b)));
        (bs "max_value_bytes", JNum (dec (b_MaxValueBytes b)))].

Definition bounds_member (b : DatasetBounds) (kj : bytes * json) : option DatasetBounds :=
  let '(k, j) := kj in
  if is_field "max_records" k then
    v ← into_int (b_MaxRecords b) j; Some {| b_MaxRecords := v; b_MaxValueBytes := b_MaxValueBytes b |}
  else if is_field "max_value_bytes" k then
    v ← into_int (b_MaxValueBytes b) j; Some {| b_MaxRecords := b_MaxRecords b; b_MaxValueBytes := v |}
  else Some b.

Definition info_json (d : DatasetInfo) : json :=
  JObj ((bs "id", JNum (dec (di_ID d)))
    :: (bs "bucket_name", JStr (di_BucketName d))
    :: (bs "name", JStr (di_Name d))
    :: (bs "kind", JStr (di_Kind d))
    :: (bs "origin", JStr (di_Origin d))
    :: opt_member (negb (bool_decide (di_TypeIdentity d = []))) "type_identity" (JStr (di_TypeIdentity d))
    ++ [(bs "bounds", bounds_json (di_Bounds d))]).

Definition info_member (d : DatasetInfo) (kj : bytes * json) : option DatasetInfo :=
  let '(k, j) := kj in
  let upd i bn n kd og t b :=
    {| di_ID := i; di_BucketName := bn; di_Name := n; di_Kind := kd; di_Origin := og;
       di_TypeIdentity := t; di_Bounds := b |} in
  let '(i, bn, n, kd, og, t, b) :=
    (di_ID d, di_BucketName d, di_Name d, di_Kind d, di_Origin d, di_TypeIdentity d, di_Bounds d) in
  if is_field "id" k then v ← into_u64 i j; Some (upd v bn n kd og t b)
  else if is_field "bucket_name" k then v ← into_str bn j; Some (upd i v n kd og t b)
  else if is_field "name" k then v ← into_str n j; Some (upd i bn v kd og t b)
  else if is_field "kind" k then v ← into_str kd j; Some (upd i bn n v og t b)
  else if is_field "origin" k then v ← into_str og j; Some (upd i bn n kd v t b)
  else if is_field "type_identity" k then v ← into_str t j; Some (upd i bn n kd og v b)
  else if is_field "bounds" k then v ← into_struct bounds_member b j; Some (upd i bn n kd og t v)
  else Some d.

Definition json_info (j : json) : option DatasetInfo := into_struct info_member zeroInfo j.

(** A nil map is [null]. *)
Definition map_json {A} (f : A → json) (m : option (gmap bytes A)) : json :=
  match m with None => JNull | Some m => JObj (sorted_members f m) end.
Definition into_nilmap {A} (f : json → option A) (old : option (gmap bytes A)) (j : json)
    : option (option (gmap bytes A)) :=
  match j with
  | JNull => Some None
  | _ => m ← into_map f (default ∅ old) j; Some (Some m)
  end.

Definition bucket_json (b : catalogBucket) : json :=
  JObj [(bs "datasets", map_json info_json (Datasets b))].
Definition bucket_member (b : catalogBucket) (kj : bytes * json) : option catalogBucket :=
  let '(k, j) := kj in
  if is_field "datasets" k then v ← into_nilmap json_info (Datasets b) j; Some {| Datasets := v |}
  else Some b.
Definition json_bucket (j : json) : option catalogBucket :=
  into_struct bucket_member {| Datasets := None |} j.

Definition catalog_json (c : catalogState) : json :=
  JObj [(bs "database_id", JStr (DatabaseID c));
        (bs "next_dataset_id", JNum (dec (NextDatasetID c)));
        (bs "buckets", map_json bucket_json (Buckets c))].
Definition catalog_member (c : catalogState) (kj : bytes * json) : option catalogState :=
  let '(k, j) := kj in
  if is_field "database_id" k then
    v ← into_str (DatabaseID c) j;
    Some {| DatabaseID := v; NextDatasetID := NextDatasetID c; Buckets := Buckets c |}
  else if is_field "next_dataset_id" k then
    v ← into_u64 (NextDatasetID c) j;
    Some {| DatabaseID := DatabaseID c; NextDatasetID := v; Buckets := Buckets c |}
  else if is_field "buckets" k then
    v ← into_nilmap json_bucket (Buckets c) j;
    Some {| DatabaseID := DatabaseID c; NextDatasetID := NextDatasetID c; Buckets := v |}
  else Some c.
Definition zeroCatalog : catalogState := {| DatabaseID := []; NextDatasetID := 0; Buckets := None |}.
Definition json_catalog (j : json) : option catalogState := into_struct catalog_member zeroCatalog j.

(** ** The file *)

Definition catalog_name : bytes := bs "catalog".
Definition catalog_tmp : bytes := bs "catalog.tmp".

Definition catalog_envelope (c : catalogState) : bytes :=
  print (envelope_json catalogMagic 1 (catalog_json c) (hex_encode (sha256 (print (catalog_json c))))).

Definition persistCatalog (windows : bool) (state : catalogState) : io unit :=
  i ← io_wrap ErrorStorage "catalog_write" (create_trunc catalog_tmp);
  io_wrap ErrorStorage "catalog_write"
    (on_error (ignore (remove catalog_tmp))
       (_ ← write_sync_close i (catalog_envelope state);
        _ ← rename catalog_tmp catalog_name;
        syncDirectory windows)).

(** ** Validation *)

Definition cat_corrupt (message : string) : gerror := err_new ErrorCorruption "open_catalog" message.
Definition cat_capacity (message : string) : gerror := err_new ErrorCapacity "open_catalog" message.
Arguments cat_corrupt _%_string.
Arguments cat_capacity _%_string.

Definition validate_dataset (next : Z) (bucketName : bytes) (ids : gmap Z DatasetInfo)
    (nd : bytes * DatasetInfo) : res gerror (gmap Z DatasetInfo) :=
  let '(datasetName, d) := nd in
  fail_if negb (is_ok (validCatalogName "dataset" datasetName)) || (di_ID d =? 0) || (next <=? di_ID d)
          || negb (bool_decide (di_BucketName d = bucketName))
          || negb (bool_decide (di_Name d = datasetName)) || negb (bool_decide (di_Kind d = KeyedJSON))
          || negb (bool_decide (di_Origin d = GoCatalog)) || (b_MaxRecords (di_Bounds d) <=? 0)
          || (b_MaxValueBytes (di_Bounds d) <=? 0)
    with cat_corrupt "catalog dataset is invalid";
  fail_if bool_decide (is_Some (ids !! di_ID d))
    with cat_corrupt "catalog contains duplicate dataset identity";
  Ok (<[di_ID d := d]> ids).

Definition validate_bucket (next : Z) (ids : gmap Z DatasetInfo) (nb : bytes * catalogBucket)
    : res gerror (gmap Z DatasetInfo) :=
  let '(bucketName, bucket) := nb in
  fail_if negb (is_ok (validCatalogName "bucket" bucketName)) || bool_decide (Datasets bucket = None)
    with cat_corrupt "catalog bucket is invalid";
  res_fold (validate_dataset next bucketName) ids (map_to_list (datasets bucket)).

Definition validate_record (ids : gmap Z DatasetInfo) (counts : gmap Z Z) (kv : bytes * bytes)
    : res gerror (gmap Z Z) :=
  match backendDatasetID kv.1 with
  | None => Err (cat_corrupt "record has no dataset identity")
  | Some id =>
      match ids !! id with
      | None => Err (cat_corrupt "record references an unknown dataset")
      | Some dataset =>
          fail_if b_MaxValueBytes (di_Bounds dataset) <? zlen kv.2
            with cat_capacity "record exceeds its dataset value bound";
          let count := default 0 (counts !! id) + 1 in
          fail_if b_MaxRecords (di_Bounds dataset) <? count
            with cat_capacity "dataset exceeds its record bound";
          Ok (<[id := count]> counts)
      end
  end.

Definition validateCatalogState (state : catalogState) (st : kstate) : res gerror unit :=
  fail_if bool_decide (DatabaseID state = []) || (NextDatasetID state =? 0)
          || bool_decide (Buckets state = None)
    with cat_corrupt "catalog identity or topology is invalid";
  let! ids := res_fold (validate_bucket (NextDatasetID state)) ∅ (map_to_list (buckets state)) in
  let! _ := res_fold (validate_record ids) ∅ (map_to_list (records st)) in
  Ok tt.

(** Decoding the catalog file. *)
Definition decode_catalog (st : kstate) (payload : bytes) : res gerror catalogState :=
  match unmarshal_envelope payload with
  | None => Err (EError ErrorCorruption "open_catalog" (EWrap "decode catalog" (EMsg "json")))
  | Some env =>
      fail_if negb (bool_decide (env_magic env = catalogMagic)) || negb (env_version env =? 1)
        with err_new ErrorIncompatible "open_catalog" "unsupported catalog format";
      fail_if negb (bool_decide (env_sha256 env = hex_encode (sha256 (env_payload env))))
        with cat_corrupt "catalog checksum mismatch";
      match j ← parse (env_payload env); json_catalog j with
      | None => Err (EError ErrorCorruption "open_catalog" (EWrap "decode catalog payload" (EMsg "json")))
      | Some state => let! _ := validateCatalogState state st in Ok state
      end
  end.

Definition new_catalog (id : bytes) : catalogState :=
  {| DatabaseID := hex_encode id; NextDatasetID := 1; Buckets := Some ∅ |}.

Definition loadOrCreateCatalog (windows : bool) (rand : res gerror bytes) (k : KeyedDB queryKeys)
    : io catalogState :=
  payload ← attempt (read_file catalog_name);
  match payload with
  | Err ENotExist =>
      if negb (sequence (db_state k) =? 0) || negb (Nat.eqb (size (records (db_state k))) 0)
      then io_err (err_new ErrorIncompatible "open_catalog" "keyed data exists without catalog identity")
      else
        _ ← ignore (remove catalog_tmp);
        id ← io_wrap ErrorStorage "open_catalog" (io_res rand);
        let state := new_catalog id in
        _ ← persistCatalog windows state;
        mret state
  | Err e => io_err (EError ErrorStorage "open_catalog" e)
  | Ok payload =>
      state ← io_res (decode_catalog (db_state k) payload);
      _ ← ignore (remove catalog_tmp);
      mret state
  end.

(** ** Opening *)

Definition set_query {H} (q : queryKeys) (k : KeyedDB H) : KeyedDB queryKeys :=
  Build_KeyedDB (db_options k) (db_format k) (db_state k) (db_wal k) (db_closed k) (db_poisoned k)
    q (Some applyQueryKeyMutations) (db_beforeAppend k) (db_beforeSync k) (db_queue k)
    (db_disabled k) (db_stats k).

Definition OpenCatalog (windows : bool) (ptr : nat) (rand : res gerror bytes) (ctx : context)
    (path : bytes) (options : KeyedOptions) : io Database :=
  k ← openKeyed windows (∅ : queryKeys) ctx path options catalogKeyedFormatContents;
  state ← on_error (ignore (fun w => (Ok tt, (wal_close k w).2))) (loadOrCreateCatalog windows rand k);
  mret {| d_ptr := ptr; keyed := set_query (initializeQueryKeys (records (db_state k))) k;
          catalog := state |}.

(** ** Changing the catalog *)

(** [cloneCatalogState]: the copy shares nothing with its source; a nil map is
    copied to an empty one. *)
Definition cloneCatalogState (source : catalogState) : catalogState :=
  {| DatabaseID := DatabaseID source; NextDatasetID := NextDatasetID source;
     Buckets := Some ((fun b => {| Datasets := Some (datasets b) |}) <$> buckets source) |}.

Definition poison (db : Database) : Database := set_keyed (set_poisoned (keyed db)) db.

Definition set_buckets (m : gmap bytes catalogBucket) (c : catalogState) : catalogState :=
  {| DatabaseID := DatabaseID c; NextDatasetID := NextDatasetID c; Buckets := Some m |}.

Definition Bucket (windows : bool) (db : Database) (ctx : context) (name : bytes) (w : world)
    : res gerror BucketHandle * Database * world :=
  match (let! _ := validCatalogName "bucket" name in enter db ctx "bucket") with
  | Err e => (Err e, db, w)
  | Ok _ =>
      let handle := {| bh_db := d_ptr db; bh_name := name |} in
      match buckets (catalog db) !! name with
      | Some _ => (Ok handle, db, w)
      | None =>
          let next := cloneCatalogState (catalog db) in
          let next := set_buckets (<[name := {| Datasets := Some ∅ |}]> (buckets next)) next in
          match persistCatalog windows next w with
          | (Err e, w') => (Err e, poison db, w')
          | (Ok _, w') => (Ok handle, set_catalog next db, w')
          end
      end
  end.

(** The entry of a new dataset. *)
Definition new_info (c : catalogState) (bucket name : bytes) (o : DatasetOptions) : DatasetInfo :=
  {| di_ID := NextDatasetID c; di_BucketName := bucket; di_Name := name; di_Kind := do_Kind o;
     di_Origin := GoCatalog; di_TypeIdentity := do_TypeIdentity o;
     di_Bounds := {| b_MaxRecords := do_MaxRecords o; b_MaxValueBytes := do_MaxValueBytes o |} |}.

Definition add_dataset (c : catalogState) (bucket name : bytes) (o : DatasetOptions) : catalogState :=
  let next := cloneCatalogState c in
  let entry := default {| Datasets := Some ∅ |} (buckets next !! bucket) in
  {| DatabaseID := DatabaseID next; NextDatasetID := u64 (NextDatasetID next + 1);
     Buckets := Some (<[bucket := {| Datasets := Some (<[name := new_info next bucket name o]> (datasets entry)) |}]>
                        (buckets next)) |}.

(** A bucket handle names a bucket of its catalog: buckets are never removed. *)
Definition DatasetOf (windows : bool) (db : Database) (bucket : BucketHandle) (ctx : context) (name : bytes)
    (options : DatasetOptions) (w : world) : res gerror DatasetHandle * Database * world :=
  match (let! _ := validCatalogName "dataset" name in
         let! normalized := normalizeDatasetOptions options (db_options (keyed db)) in
         let! _ := enter db ctx "dataset" in
         Ok normalized) with
  | Err e => (Err e, db, w)
  | Ok o =>
      let entry := default {| Datasets := None |} (buckets (catalog db) !! bh_name bucket) in
      match datasets entry !! name with
      | Some existing =>
          if negb (bool_decide (di_Kind existing = do_Kind o))
             || negb (bool_decide (di_TypeIdentity existing = do_TypeIdentity o))
             || negb (b_MaxRecords (di_Bounds existing) =? do_MaxRecords o)
             || negb (b_MaxValueBytes (di_Bounds existing) =? do_MaxValueBytes o)
          then (Err (err_new ErrorIncompatible "dataset"
                       "dataset kind, type identity, or bounds do not match its catalog entry"), db, w)
          else (Ok {| dh_db := d_ptr db; dh_info := existing |}, db, w)
      | None =>
          let next := add_dataset (catalog db) (bh_name bucket) name o in
          match persistCatalog windows next w with
          | (Err e, w') => (Err e, poison db, w')
          | (Ok _, w') =>
              (Ok {| dh_db := d_ptr db; dh_info := new_info (catalog db) (bh_name bucket) name o |},
               set_catalog next db, w')
          end
      end
  end.
