(* ===== verification/Query.v ===== *)
(** * Scans ([query.go])

    [Dataset.Scan] and [ScanDataset] over the ordered primary keys.  The
    visitor is application code with a state of its own; [done n] says whether
    the context is done when it is checked for the [n]-th time. *)

From Stdlib Require Import ZArith Lia Strings.Byte Strings.String Sorted.
From stdpp Require Import base decidable countable list gmap.
From S2P Require Import Prelude GoText GoBinary GoJson Errors GoOS Keyed KeyedStorage KeyedCommit Catalog.

Local Open Scope Z_scope.
Local Open Scope go_scope.

(** The values of the type [uint8]. *)
Definition ScanContinue : Z := 0.
Definition ScanStop : Z := 1.

Record DatasetRecord := { dr_Key : bytes; dr_JSON : bytes }.

Definition Decode (record : DatasetRecord) (dst : option (bytes → bool)) : res gerror bytes :=
  match dst with
  | None => Err (err_new ErrorInvalidInput "dataset_record_decode" "destination is required")
  | Some accepts =>
      fail_if negb (accepts (dr_JSON record))
        with EError ErrorCorruption "dataset_record_decode" (EMsg "json");
      Ok (dr_JSON record)
  end.

(** A visitor with state [V]: the action and the error it returns. *)
Definition visitor (V : Type) : Type := V → bytes → bytes → V * (Z * option gerror).

Fixpoint scan_loop {V : Type} (done : nat → bool) (n : nat) (id : Z) (rs : gmap bytes bytes) (visit : visitor V)
    (v : V) (keys : list bytes) : V * option gerror :=
  match keys with
  | [] => (v, None)
  | key :: keys =>
      if done n then (v, Some ECtx)
      else
        match visit v key (default [] (rs !! backendRecordKey id key)) with
        | (v', (_, Some e)) => (v', Some e)
        | (v', (action, None)) =>
            if action =? ScanContinue then scan_loop done (S n) id rs visit v' keys
            else if action =? ScanStop then (v', None)
            else (v', Some (err_new ErrorInvalidInput "dataset_scan" "visit returned an invalid ScanAction"))
        end
  end.

Definition scan {V : Type} (db : Database) (dataset : DatasetHandle) (ctx : context) (done : nat → bool)
    (visit : visitor V) (v : V) : V * option gerror :=
  if negb (bool_decide (di_Kind (dh_info dataset) = KeyedJSON))
  then (v, Some (err_new ErrorIncompatible "dataset_scan" "dataset kind does not support scans"))
  else
    match enterKeyed (keyed db) ctx "dataset_scan" with
    | Err e => (v, Some e)
    | Ok _ =>
        let id := di_ID (dh_info dataset) in
        scan_loop done 0 id (records (db_state (keyed db))) visit v
          (default [] (db_hook (keyed db) !! id))
    end.

Definition Scan {V : Type} (db : Database) (dataset : DatasetHandle) (ctx : context) (done : nat → bool)
    (visit : option (V → DatasetRecord → V * (Z * option gerror))) (v : V) : V * option gerror :=
  match visit with
  | None => (v, Some (err_new ErrorInvalidInput "dataset_scan" "visit callback is required"))
  | Some visit =>
      scan db dataset ctx done (fun v key encoded => visit v {| dr_Key := key; dr_JSON := encoded |}) v
  end.

(** [decode] is [json.Unmarshal] into a new value of the type parameter. *)
Definition ScanDataset {T V : Type} (decode : bytes → option T) (db : Database) (dataset : DatasetHandle)
    (ctx : context) (done : nat → bool) (visit : option (V → bytes → T → V * (Z * option gerror))) (v : V)
    : V * option gerror :=
  match visit with
  | None => (v, Some (err_new ErrorInvalidInput "scan_dataset" "visit callback is required"))
  | Some visit =>
      scan db dataset ctx done
        (fun v key encoded =>
           match decode encoded with
           | None => (v, (ScanStop, Some (EError ErrorCorruption "scan_dataset" (EMsg "json"))))
           | Some value => visit v key value
           end) v
  end.
