(* ===== verification/CatalogTheorems.v ===== *)
(** * Theorems about the catalog and scans

    The properties of [catalog.go], [catalog_storage.go] and [query.go]. *)

From Stdlib Require Import ZArith Lia Strings.Byte Strings.String Sorted.
From stdpp Require Import base decidable countable list gmap sorting.
From S2P Require Import Prelude GoText GoBinary GoJson Errors GoOS Keyed KeyedStorage KeyedRecovery.
From S2P Require Import KeyedCommit KeyedDurability KeyedGroup KeyedScenario.
From S2P Require Import Catalog CatalogStorage Query.

Local Open Scope Z_scope.
Local Open Scope go_scope.

(** ** Backend keys *)

Lemma backend_id id k : u64_range id → backendDatasetID (backendRecordKey id k) = Some id.
Proof.
  intros Hid. unfold backendRecordKey, backendDatasetID. cbn [length].
  rewrite length_app, put_u64_be_length. cbn [Nat.add].
  rewrite (proj2 (Nat.ltb_ge _ _)) by lia.
  rewrite take_app_length' by (by rewrite put_u64_be_length). by rewrite get_put_u64_be.
Qed.

Lemma backend_key id k : drop 9 (backendRecordKey id k) = k.
Proof.
  unfold backendRecordKey. cbn [drop]. rewrite drop_app_length' by (by rewrite put_u64_be_length). done.
Qed.

Lemma backend_split key id :
  backendDatasetID key = Some id → u64_range id ∧ key = backendRecordKey id (drop 9 key).
Proof.
  unfold backendDatasetID. destruct key as [|b rest]; [done|].
  destruct (decide (b = x00)) as [->|Hb]; [|by destruct b].
  destruct (Nat.ltb_spec (length (x00 :: rest)) 9) as [|Hl]; [done|]. intros [= <-]. cbn [length] in Hl.
  assert (length (take 8 rest) = 8%nat) as Ht by (rewrite length_take; lia).
  split.
  - pose proof (le_get_range (reverse (take 8 rest))) as Hr. rewrite length_reverse, Ht in Hr.
    unfold get_u64_be, u64_range. lia.
  - unfold backendRecordKey. cbn [drop]. rewrite put_get_u64_be by done. by rewrite take_drop.
Qed.

Lemma backend_inj id id' k k' :
  u64_range id → u64_range id' → backendRecordKey id k = backendRecordKey id' k' → id = id' ∧ k = k'.
Proof.
  intros H1 H2 E. split.
  - apply (f_equal backendDatasetID) in E. rewrite !backend_id in E by done. congruence.
  - apply (f_equal (drop 9)) in E. by rewrite !backend_key in E.
Qed.

(** ** Ordered keys *)

Lemma search_cases keys key :
  ascending keys → ∃ l1 l2, keys = l1 ++ l2 ∧ search_strings keys key = length l1
    ∧ Forall (λ y, blt y key) l1 ∧ Forall (λ y, bltb y key = false) l2
    ∧ (key ∈ keys → ∃ l2', l2 = key :: l2').
Proof.
  intros Ha. destruct (ascending_split keys key Ha) as (l1&l2&->&H1&H2). exists l1, l2.
  split; [done|]. split; [by apply search_strings_split|]. split; [done|]. split; [done|].
  intros [Hin|Hin]%elem_of_app.
  { rewrite Forall_forall in H1. apply H1 in Hin. by apply blt_ne in Hin. }
  apply StronglySorted_app in Ha as (_&_&Ha). destruct Ha as [|y l2 Hl Hy]; [by apply elem_of_nil in Hin|].
  apply elem_of_cons in Hin as [->|Hin]; [eauto|]. exfalso.
  rewrite Forall_forall in Hy. specialize (Hy key Hin). apply Forall_cons in H2 as [H2 _].
  unfold blt in Hy. congruence.
Qed.

Lemma ascending_app l1 l2 x :
  ascending (l1 ++ l2) → Forall (λ y, blt y x) l1 → Forall (λ y, blt x y) l2 → ascending (l1 ++ x :: l2).
Proof.
  rewrite !StronglySorted_app. intros (Hx&H1&H2) F1 F2. rewrite Forall_forall in F1, F2. split; [|split].
  - intros a b Ha [->|Hb]%elem_of_cons; [by apply F1|by apply Hx].
  - done.
  - constructor; [done|]. by apply Forall_forall.
Qed.

Lemma search_hit keys key :
  ascending keys → bool_decide (keys !! search_strings keys key = Some key) = bool_decide (key ∈ keys).
Proof.
  intros Ha. destruct (search_cases keys key Ha) as (l1&l2&->&->&H1&H2&H3). apply bool_decide_ext.
  rewrite lookup_app_r, Nat.sub_diag by lia. split.
  - intros E. apply elem_of_app. right. destruct l2; [done|]. cbn in E. simplify_eq. left.
  - intros Hin. by destruct (H3 Hin) as [l2' ->].
Qed.

Lemma query_put_keys keys key :
  ascending keys → key ∉ keys →
  let position := search_strings keys key in
  let keys' := take position keys ++ key :: drop position keys in
  ascending keys' ∧ ∀ k, k ∈ keys' ↔ k = key ∨ k ∈ keys.
Proof.
  intros Ha Hn. destruct (search_cases keys key Ha) as (l1&l2&->&->&H1&H2&H3). cbv zeta.
  rewrite take_app_length, drop_app_length. split.
  - apply ascending_app; [done|done|]. apply Forall_forall. intros y Hy.
    rewrite Forall_forall in H2. destruct (bltb key y) eqn:E; [done|]. exfalso. apply Hn.
    rewrite (bltb_total key y E (H2 y Hy)). apply elem_of_app. by right.
  - intros k. rewrite !elem_of_app, elem_of_cons. tauto.
Qed.

Lemma query_delete_keys keys key :
  ascending keys → key ∈ keys →
  let position := search_strings keys key in
  let keys' := take position keys ++ drop (S position) keys in
  ascending keys' ∧ ∀ k, k ∈ keys' ↔ k ≠ key ∧ k ∈ keys.
Proof.
  intros Ha Hin. destruct (search_cases keys key Ha) as (l1&l2&->&->&H1&H2&H3). cbv zeta.
  destruct (H3 Hin) as [l2' ->]. pose proof (ascending_nodup _ Ha) as Hnd.
  rewrite take_app_length, drop_app_ge by lia. replace (S (length l1) - length l1)%nat with 1%nat by lia.
  cbn [drop]. apply StronglySorted_app in Ha as (Hx&Ha1&Ha2). split.
  - apply StronglySorted_app. inversion Ha2; subst. split; [|done]. intros a b Hb Hc. apply Hx; [done|by right].
  - apply NoDup_app in Hnd as (_&Hd&[Hk _]%NoDup_cons).
    intros k. rewrite !elem_of_app, elem_of_cons. split.
    + intros [Hk1|Hk1]; (split; [|tauto]); intros ->; [|done]. apply (Hd key Hk1). left.
    + tauto.
Qed.

(** ** The query keys are the records in order *)

Definition keys_of (q : queryKeys) (id : Z) : list bytes := default [] (q !! id).

(** For every dataset the ordered keys are exactly the keys of its records. *)
Definition query_ok (rs : gmap bytes bytes) (q : queryKeys) : Prop :=
  ∀ id, u64_range id →
    ascending (keys_of q id) ∧ ∀ k, k ∈ keys_of q id ↔ is_Some (rs !! backendRecordKey id k).

Lemma keys_of_insert q id id' l : keys_of (<[id := l]> q) id' = if decide (id = id') then l else keys_of q id'.
Proof. unfold keys_of. rewrite lookup_insert. by destruct (decide (id = id')). Qed.

Lemma collect_keys ks q id :
  keys_of (foldl collect_key q ks) id
  = keys_of q id ++ map (drop 9) (filter (λ key, backendDatasetID key = Some id) ks).
Proof.
  revert q. induction ks as [|key ks IH]; intros q; cbn [foldl]; [cbn; by rewrite app_nil_r|].
  rewrite IH, filter_cons. unfold collect_key.
  destruct (backendDatasetID key) as [id'|] eqn:E.
  - rewrite keys_of_insert. fold (keys_of q id'). destruct (decide (id' = id)) as [->|Hn].
    + rewrite decide_True by done. cbn [map]. by rewrite <- app_assoc.
    + by rewrite decide_False by congruence.
  - by rewrite decide_False.
Qed.

Lemma initializeQueryKeys_ok rs : query_ok rs (initializeQueryKeys rs).
Proof.
  intros id Hid. unfold initializeQueryKeys. set (ks := (map_to_list rs).*1).
  assert (∀ q, keys_of (sort_strings <$> q) id = sort_strings (keys_of q id)) as Hf.
  { intros q. unfold keys_of. rewrite lookup_fmap. by destruct (q !! id). }
  rewrite Hf, collect_keys. change (keys_of ∅ id) with ([] : list bytes). cbn [app].
  set (l := filter _ _). assert (NoDup ks) as Hnd by apply NoDup_fst_map_to_list.
  assert (∀ key, key ∈ l ↔ backendDatasetID key = Some id ∧ key ∈ ks) as Hl by (intros; unfold l; by rewrite list_elem_of_filter).
  assert (∀ key, key ∈ ks ↔ is_Some (rs !! key)) as Hks.
  { intros key. unfold ks. rewrite list_elem_of_fmap. split.
    - intros ([k v]&->&H). apply elem_of_map_to_list in H. eauto.
    - intros [v H]. exists (key, v). split; [done|]. by apply elem_of_map_to_list. }
  split.
  - apply sort_strings_ascending. change (map (drop 9) l) with (drop 9 <$> l).
    apply NoDup_fmap_2_strong; [|by apply NoDup_filter].
    intros x y [Hx _]%Hl [Hy _]%Hl E. apply backend_split in Hx as [_ ->], Hy as [_ ->]. by rewrite E.
  - intros k. rewrite sort_strings_perm. change (map (drop 9) l) with (drop 9 <$> l).
    rewrite list_elem_of_fmap. split.
    + intros (key&->&[Hk Hin]%Hl). apply Hks in Hin. by destruct (backend_split key id Hk) as [_ <-].
    + intros Hs. exists (backendRecordKey id k). split; [by rewrite backend_key|]. apply Hl.
      split; [by apply backend_id|]. by apply Hks.
Qed.

Lemma query_mutation_ok rs q m :
  query_ok rs q → query_ok (apply_mutation rs m) (query_mutation q m).
Proof.
  intros Hq id Hid. destruct (Hq id Hid) as [Ha Hk]. unfold query_mutation.
  assert (∀ k, backendRecordKey id k ≠ km_Key m →
    is_Some (apply_mutation rs m !! backendRecordKey id k) ↔ is_Some (rs !! backendRecordKey id k)) as Hother.
  { intros k Hne. rewrite apply_mutation_lookup, decide_False; [done|]. congruence. }
  destruct (backendDatasetID (km_Key m)) as [id'|] eqn:Eid.
  2:{ split; [done|]. intros k. rewrite Hk, Hother; [done|]. intros E. rewrite <- E, backend_id in Eid by done. done. }
  apply backend_split in Eid as [Hid' Ekey]. set (key := drop 9 (km_Key m)) in *.
  fold (keys_of q id'). cbv zeta. destruct (Hq id' Hid') as [Ha' Hk']. rewrite search_hit by done.
  destruct (decide (id' = id)) as [->|Hne].
  - assert (∀ k, is_Some (apply_mutation rs m !! backendRecordKey id k)
      ↔ if decide (k = key) then km_Delete m = false else k ∈ keys_of q id) as Happ.
    { intros k. destruct (decide (k = key)) as [->|Hn].
      - rewrite <- Ekey, apply_mutation_lookup, decide_True by done. destruct (km_Delete m).
        + split; [by intros [? ?]|done].
        + split; eauto.
      - rewrite Hother; [by rewrite Hk|]. rewrite Ekey. intros [_ ?]%backend_inj; done. }
    destruct (km_Delete m), (bool_decide (key ∈ keys_of q id)) eqn:Eb; bool_to_prop.
    + rewrite keys_of_insert, decide_True by done. destruct (query_delete_keys _ key Ha Eb) as [H1 H2].
      split; [done|]. intros k. rewrite H2, Happ. destruct (decide (k = key)); subst; intuition congruence.
    + split; [done|]. intros k. rewrite Happ. destruct (decide (k = key)); subst; intuition congruence.
    + split; [done|]. intros k. rewrite Happ. destruct (decide (k = key)); subst; intuition congruence.
    + rewrite keys_of_insert, decide_True by done. destruct (query_put_keys _ key Ha Eb) as [H1 H2].
      split; [done|]. intros k. rewrite H2, Happ. destruct (decide (k = key)); subst; intuition congruence.
  - assert (keys_of (if km_Delete m
        then if bool_decide (key ∈ keys_of q id')
             then <[id' := take (search_strings (keys_of q id') key) (keys_of q id')
                     ++ drop (S (search_strings (keys_of q id') key)) (keys_of q id')]> q else q
        else if bool_decide (key ∈ keys_of q id') then q
             else <[id' := take (search_strings (keys_of q id') key) (keys_of q id')
                     ++ key :: drop (search_strings (keys_of q id') key) (keys_of q id')]> q) id
      = keys_of q id) as ->.
    { destruct (km_Delete m), (bool_decide _); rewrite ?keys_of_insert, ?decide_False by done; done. }
    split; [done|]. intros k. rewrite Hk, Hother; [done|]. rewrite Ekey. intros [? _]%backend_inj; done.
Qed.

Lemma applyQueryKeyMutations_ok o st r q :
  query_ok (records st) q → query_ok (records (applyKeyed o st r)) (applyQueryKeyMutations r q).
Proof.
  intros Hq. rewrite applyKeyed_records. unfold applyQueryKeyMutations. destruct (kr_Applied r); [|done].
  revert q Hq. generalize (records st). induction (kr_Mutations r) as [|m ms IH]; intros rs q Hq; [done|].
  cbn [foldl]. by apply IH, query_mutation_ok.
Qed.

(** ** The query keys follow the records *)

(** A handle whose hook keeps the query keys, and has kept them. *)
Definition hooked (k : KeyedDB queryKeys) : Prop :=
  db_afterApply k = Some applyQueryKeyMutations ∧ query_ok (records (db_state k)) (db_hook k).

Lemma db_apply_hooked k r : hooked k → hooked (db_apply k r).
Proof.
  intros [Hh Hq]. unfold db_apply. rewrite Hh. split; [done|]. cbn. by apply applyQueryKeyMutations_ok.
Qed.

Lemma group_steps_hooked (g : group_state queryKeys) rqs w :
  hooked (gs_db g) → hooked (gs_db (group_steps g rqs w).1).
Proof.
  revert g w. induction rqs as [|rq rqs IH]; intros g w Hg; cbn [group_steps]; [done|].
  destruct (group_step g rq w) as [g' w'] eqn:E. apply IH. revert E. unfold group_step.
  destruct (db_poisoned (gs_db g)); [by intros [= <- <-]|].
  destruct (rq_ctxDone rq); [by intros [= <- <-]|].
  destruct (staged_original g _); [by intros [= <- <-]|].
  destruct (safelyExecuteKeyed _ _ _) as [res [r|]]; [|by intros [= <- <-]].
  destruct (appendKeyedFrame _ _ _) as [[[]|e] w1]; intros [= <- <-]; [by apply db_apply_hooked|done].
Qed.

Lemma processCommitGroup_hooked (k : KeyedDB queryKeys) group w :
  hooked k → hooked (processCommitGroup k group w).1.2.
Proof.
  intros Hk. unfold processCommitGroup.
  match goal with |- context [group_steps ?g group w] =>
    pose proof (group_steps_hooked g group w Hk) as Hg; destruct (group_steps g group w) as [g' w1] end.
  cbn in Hg. destruct ((0 <? gs_frames g') && _);
    [destruct (syncKeyed _ _) as [[[]|e] w2]|destruct (gs_storageErr g')]; cbn; try done;
    by destruct (0 <? gs_frames g').
Qed.

(** The ordered primary keys that scans walk always agree with
    the records: opening a catalog builds them in order from the recovered
    records, and every commit group, whatever fails in it, leaves for every
    dataset exactly the keys of its records, strictly ascending. *)
Theorem query_keys_follow_records :
  (∀ windows ptr rand ctx path options w db w',
     OpenCatalog windows ptr rand ctx path options w = (Ok db, w') → hooked (keyed db))
  ∧ (∀ k group w, hooked k → hooked (processCommitGroup k group w).1.2).
Proof.
  split; [|apply processCommitGroup_hooked].
  intros windows ptr rand ctx path options w db w' E. unfold OpenCatalog in E.
  apply io_bind_ok in E as (k&w1&_&E). apply io_bind_ok in E as (state&w2&_&E).
  unfold mret, io_ret in E. simplify_eq. split; [done|]. apply initializeQueryKeys_ok.
Qed.

(** ** Scans *)

(** The records of a dataset in the order of their keys. *)
Definition dataset_records (rs : gmap bytes bytes) (q : queryKeys) (id : Z) : list (bytes * bytes) :=
  map (λ k, (k, default [] (rs !! backendRecordKey id k))) (keys_of q id).

(** A visitor that collects records and stops after [n] of them. *)
Definition collect (n : nat) : visitor (list (bytes * bytes)) :=
  λ acc k v, (acc ++ [(k, v)], (if (n <=? S (length acc))%nat then ScanStop else ScanContinue, None)).

Lemma scan_collect n i id rs keys acc :
  (length acc < n)%nat →
  scan_loop (λ _, false) i id rs (collect n) acc keys
  = (acc ++ take (n - length acc) (map (λ k, (k, default [] (rs !! backendRecordKey id k))) keys), None).
Proof.
  revert i acc. induction keys as [|k keys IH]; intros i acc Hn; cbn [scan_loop map].
  { by rewrite take_nil, app_nil_r. }
  unfold collect at 1. cbn. destruct (Nat.leb_spec n (S (length acc))) as [Hle|Hgt]; cbn.
  - replace (n - length acc)%nat with 1%nat by lia. done.
  - rewrite IH by (rewrite length_app; cbn; lia). rewrite length_app. cbn [length].
    replace (n - length acc)%nat with (S (n - (length acc + 1))) by lia. cbn [take].
    by rewrite <- app_assoc.
Qed.

Lemma dataset_records_spec rs q id :
  u64_range id → query_ok rs q →
  ascending (dataset_records rs q id).*1
  ∧ ∀ k v, (k, v) ∈ dataset_records rs q id ↔ rs !! backendRecordKey id k = Some v.
Proof.
  intros Hid Hq. destruct (Hq id Hid) as [Ha Hk]. unfold dataset_records. split.
  - assert ((map (λ k, (k, default [] (rs !! backendRecordKey id k))) (keys_of q id)).*1 = keys_of q id) as ->;
      [|done]. change (map ?f ?l) with (f <$> l). rewrite <- list_fmap_compose. apply list_fmap_id.
  - intros k v. change (map ?f ?l) with (f <$> l). rewrite list_elem_of_fmap. split.
    + intros (k'&[= -> ->]&[v' Hv]%Hk). by rewrite Hv.
    + intros Hv. exists k. rewrite Hv. split; [done|]. apply Hk. eauto.
Qed.

(** C11: A scan visits the records of its dataset in strictly ascending key
    order, each with its stored value, and stops when told to: collecting at most
    [n] records yields the first [n] of the dataset's records, and with [n]
    larger than their number all of them and nothing else. *)
Theorem scan_in_order db dataset n :
  hooked (keyed db) → di_Kind (dh_info dataset) = KeyedJSON → u64_range (di_ID (dh_info dataset)) →
  db_closed (keyed db) = false → db_poisoned (keyed db) = false → (0 < n)%nat →
  ∃ l, scan db dataset CtxLive (λ _, false) (collect n) [] = (take n l, None)
    ∧ ascending l.*1
    ∧ ∀ k v, (k, v) ∈ l ↔
        records (db_state (keyed db)) !! backendRecordKey (di_ID (dh_info dataset)) k = Some v.
Proof.
  intros [_ Hq] Hkind Hid Hc Hp Hn. set (id := di_ID (dh_info dataset)) in *.
  exists (dataset_records (records (db_state (keyed db))) (db_hook (keyed db)) id).
  split; [|by apply dataset_records_spec].
  unfold scan, enterKeyed, guard_err. rewrite Hkind, bool_decide_true, Hc, Hp by done. cbn [negb res_bind].
  fold id. rewrite scan_collect by done. by rewrite Nat.sub_0_r.
Qed.

(** ** A sample catalog *)

Definition sample_info : DatasetInfo :=
  {| di_ID := 1; di_BucketName := bs "app"; di_Name := bs "users"; di_Kind := KeyedJSON;
     di_Origin := GoCatalog; di_TypeIdentity := [];
     di_Bounds := {| b_MaxRecords := 10; b_MaxValueBytes := 64 |} |}.
Definition sample_catalog : catalogState :=
  {| DatabaseID := bs "0123"; NextDatasetID := 2;
     Buckets := Some {[bs "app" := {| Datasets := Some {[bs "users" := sample_info]} |}]} |}.
Definition catalog_options : KeyedOptions :=
  {| MaxRecords := 100; DedupeHorizon := 10; MaxValueBytes := 64; MaxTransactionBytes := 256 |}.

Definition sample_records : gmap bytes bytes :=
  {[backendRecordKey 1 (bs "bob") := bs "2"; backendRecordKey 1 (bs "ann") := bs "1"]}.
Definition sample_kstate : kstate :=
  {| records := sample_records; dedupe := ∅; dedupeIDs := []; sequence := 0 |}.
Definition sample_database : Database :=
  {| d_ptr := 7;
     keyed := set_query (initializeQueryKeys sample_records)
                (Build_KeyedDB catalog_options catalogKeyedFormatContents sample_kstate (Some 0%nat) false false
                   (∅ : queryKeys) None None None [] false zero_stats);
     catalog := sample_catalog |}.
Definition sample_dataset : DatasetHandle := {| dh_db := 7; dh_info := sample_info |}.

Lemma scan_in_order_witness :
  ∃ l, scan sample_database sample_dataset CtxLive (λ _, false) (collect 5) [] = (take 5 l, None)
    ∧ ascending l.*1
    ∧ ∀ k v, (k, v) ∈ l ↔ sample_records !! backendRecordKey 1 k = Some v.
Proof.
  apply (scan_in_order sample_database sample_dataset 5); [|reflexivity|by vm_compute|reflexivity|reflexivity|lia].
  split; [reflexivity|]. apply initializeQueryKeys_ok.
Defined.

(** The scan of the sample dataset. *)
Example scan_sample :
  scan sample_database sample_dataset CtxLive (λ _, false) (collect 5) []
  = ([(bs "ann", bs "1"); (bs "bob", bs "2")], None).
Proof. vm_compute. reflexivity. Qed.

(** ** Transactions over datasets *)

(** The specification: a transaction works on a map from datasets and record
    keys to values, with the writes of the transaction on top. *)
Definition spec_get (ptr : nat) (base : Z → bytes → option bytes) (aw : gmap (Z * bytes) (option bytes))
    (dataset : option DatasetHandle) (key : bytes) (dst : option (bytes → bool)) : res gerror (option bytes) :=
  let! info := validDataset ptr fresh_tx dataset key "get" in
  match dst with
  | None => Err (err_new ErrorInvalidInput "catalog_tx_get" "destination is required")
  | Some accepts =>
      match aw !! (di_ID info, key) with
      | Some None => Ok None
      | Some (Some v) =>
          if accepts v then Ok (Some v) else Err (EError ErrorInvalidInput "catalog_tx_get" (EMsg "json"))
      | None =>
          match base (di_ID info) key with
          | None => Ok None
          | Some v =>
              if accepts v then Ok (Some v) else Err (EError ErrorCorruption "catalog_tx_get" (EMsg "json"))
          end
      end
  end.

Fixpoint spec_run (ptr : nat) (base : Z → bytes → option bytes) (m : mutation)
    (aw : gmap (Z * bytes) (option bytes)) : callback_outcome * gmap (Z * bytes) (option bytes) :=
  match m with
  | MReturn r e => (CReturn r e, aw)
  | MPanic v => (CPanic v, aw)
  | MGet d key dst k => spec_run ptr base (k (spec_get ptr base aw d key dst)) aw
  | MPut d key value k =>
      match validDataset ptr fresh_tx d key "put" with
      | Err e => spec_run ptr base (k (Some e)) aw
      | Ok info =>
          match value with
          | None => spec_run ptr base (k (Some (EError ErrorInvalidInput "catalog_tx_put" (EMsg "json")))) aw
          | Some v =>
              if b_MaxValueBytes (di_Bounds info) <? zlen v
              then spec_run ptr base (k (Some (err_new ErrorCapacity "catalog_tx_put"
                                                 "value exceeds dataset MaxValueBytes"))) aw
              else spec_run ptr base (k None) (<[(di_ID info, key) := Some v]> aw)
          end
      end
  | MDelete d key k =>
      match validDataset ptr fresh_tx d key "delete" with
      | Err e => spec_run ptr base (k (Some e)) aw
      | Ok info => spec_run ptr base (k None) (<[(di_ID info, key) := None]> aw)
      end
  end.

(** The handles of a mutation come from a catalog: their identifiers are
    unsigned 64-bit numbers and their value bounds within the database's. *)
Definition handle_ok (o : KeyedOptions) (d : option DatasetHandle) : Prop :=
  ∀ h, d = Some h → u64_range (di_ID (dh_info h)) ∧ b_MaxValueBytes (di_Bounds (dh_info h)) ≤ MaxValueBytes o.

(** What a callback returns is JSON, whatever the transaction answered it; it may
    return the errors of the transaction, which are no rejections. *)
Fixpoint mutation_wf (o : KeyedOptions) (m : mutation) : Prop :=
  match m with
  | MReturn r e =>
      (∀ v, r = Some v → v ≠ [] ∧ json_valid v = true)
      ∧ (∀ c v, e ≫= as_rejection = Some (c, v) → v = [] ∨ json_valid v = true)
  | MPanic _ => True
  | MGet d _ _ k => handle_ok o d ∧ ∀ r, (∀ e, r = Err e → as_rejection e = None) → mutation_wf o (k r)
  | MPut d _ value k =>
      handle_ok o d ∧ (∀ v, value = Some v → json_valid v = true) ∧ ∀ e, e ≫= as_rejection = None → mutation_wf o (k e)
  | MDelete d _ k => handle_ok o d ∧ ∀ e, e ≫= as_rejection = None → mutation_wf o (k e)
  end.

(** The errors of the transaction itself are no rejections. *)
Lemma validDataset_err ptr tx d key op e : validDataset ptr tx d key op = Err e → as_rejection e = None.
Proof.
  unfold validDataset, tx_valid, validRecordKey, guard_err. destruct (invalid tx); cbn; [by intros [= <-]|].
  destruct d as [d|]; [|by intros [= <-]]. case_bool_decide; cbn; [|by intros [= <-]].
  case_bool_decide; cbn; [by intros [= <-]|]. destruct (_ <? _); cbn; [by intros [= <-]|done].
Qed.
Lemma ctx_get_err ptr st tx d key dst e : ctx_get ptr st tx d key dst = Err e → as_rejection e = None.
Proof.
  unfold ctx_get. destruct (validDataset ptr tx d key "get") as [info|e'] eqn:E; cbn.
  - destruct dst as [accepts|]; [|by intros [= <-]]. destruct (writes tx !! _) as [[v|]|]; [|done|].
    + unfold guard_err. destruct (accepts v); [done|]. by intros [= <-].
    + destruct (records st !! _) as [v|]; [|done]. unfold guard_err. destruct (accepts v); [done|]. by intros [= <-].
  - intros [= <-]. by apply validDataset_err in E.
Qed.
Lemma ctx_put_err ptr tx d key value e : ctx_put ptr tx d key value = Err e → as_rejection e = None.
Proof.
  unfold ctx_put. destruct (validDataset ptr tx d key "put") as [info|e'] eqn:E; cbn.
  - destruct value as [v|]; [|by intros [= <-]]. unfold guard_err. destruct (_ <? _); [by intros [= <-]|done].
  - intros [= <-]. by apply validDataset_err in E.
Qed.
Lemma ctx_delete_err ptr tx d key e : ctx_delete ptr tx d key = Err e → as_rejection e = None.
Proof.
  unfold ctx_delete. destruct (validDataset ptr tx d key "delete") as [info|e'] eqn:E; cbn; [done|].
  intros [= <-]. by apply validDataset_err in E.
Qed.

Definition view (rs : gmap bytes bytes) (id : Z) (k : bytes) : option bytes := rs !! backendRecordKey id k.

(** The concrete writes are the abstract ones under backend keys. *)
Definition writes_view (tx : KeyedTx) (aw : gmap (Z * bytes) (option bytes)) : Prop :=
  invalid tx = false ∧ ∀ id k, u64_range id → writes tx !! backendRecordKey id k = aw !! (id, k).

Lemma validDataset_active ptr tx d key op :
  invalid tx = false → validDataset ptr tx d key op = validDataset ptr fresh_tx d key op.
Proof. intros H. unfold validDataset, tx_valid. by rewrite H. Qed.

Lemma validDataset_ok ptr d key op info o :
  validDataset ptr fresh_tx d key op = Ok info → handle_ok o d →
  u64_range (di_ID info) ∧ b_MaxValueBytes (di_Bounds info) ≤ MaxValueBytes o
  ∧ key ≠ [] ∧ zlen key ≤ keyedMaxKeyBytes.
Proof.
  unfold validDataset. cbn. destruct d as [h|]; [|done]. intros E Hh. unfold validRecordKey in E. inv_ok.
  bool_to_prop. destruct (Hh h eq_refl). done.
Qed.

Lemma writes_view_insert tx aw id k v :
  u64_range id → writes_view tx aw →
  writes_view (tx_write (backendRecordKey id k) v tx) (<[(id, k) := v]> aw).
Proof.
  intros Hid [Hi Hw]. split; [done|]. intros id' k' Hid'. cbn.
  destruct (decide ((id, k) = (id', k'))) as [E|Hn].
  - simplify_eq. by rewrite !lookup_insert_eq.
  - rewrite !lookup_insert_ne; [by apply Hw|done|]. intros [-> ->]%backend_inj; done.
Qed.

Lemma run_mutation_refines o ptr m st tx aw :
  mutation_wf o m → writes_view tx aw →
  (run_mutation ptr m st tx).1 = (spec_run ptr (view (records st)) m aw).1
  ∧ writes_view (run_mutation ptr m st tx).2 (spec_run ptr (view (records st)) m aw).2.
Proof.
  revert tx aw. induction m as [r e|v|d key dst k IH|d key value k IH|d key k IH]; intros tx aw Hwf Hv;
    cbn [run_mutation spec_run mutation_wf] in *; try done.
  - destruct Hwf as [Hh Hwf]. specialize (Hwf (ctx_get ptr st tx d key dst) (ctx_get_err ptr st tx d key dst)). revert Hwf.
    assert (ctx_get ptr st tx d key dst = spec_get ptr (view (records st)) aw d key dst) as ->.
    { unfold ctx_get, spec_get. rewrite validDataset_active by apply Hv.
      destruct (validDataset ptr fresh_tx d key "get") as [info|] eqn:E; cbn; [|done].
      destruct (validDataset_ok _ _ _ _ _ _ E Hh) as (Hid&_). destruct dst as [accepts|]; [|done].
      rewrite (proj2 Hv) by done. unfold view.
      destruct (aw !! (di_ID info, key)) as [[v|]|]; [by destruct (accepts v)|done|].
      destruct (records st !! _) as [v|]; [|done]. by destruct (accepts v). }
    intros Hwf. by apply IH.
  - destruct Hwf as (Hh&_&Hwf). unfold ctx_put. rewrite validDataset_active by apply Hv.
    destruct (validDataset ptr fresh_tx d key "put") as [info|] eqn:E; cbn; [|by apply IH; [apply Hwf, (validDataset_err _ _ _ _ _ _ E)|]].
    destruct (validDataset_ok _ _ _ _ _ _ E Hh) as (Hid&_). destruct value as [v|]; [|by apply IH; [apply Hwf|]].
    unfold guard_err. destruct (_ <? zlen v); cbn; [by apply IH; [apply Hwf|]|]. apply IH; [by apply Hwf|].
    by apply writes_view_insert.
  - destruct Hwf as [Hh Hwf]. unfold ctx_delete. rewrite validDataset_active by apply Hv.
    destruct (validDataset ptr fresh_tx d key "delete") as [info|] eqn:E; cbn; [|by apply IH; [apply Hwf, (validDataset_err _ _ _ _ _ _ E)|]].
    destruct (validDataset_ok _ _ _ _ _ _ E Hh) as (Hid&_). apply IH; [by apply Hwf|].
    by apply writes_view_insert.
Qed.

(** A command that runs a catalog mutation. *)
Definition catalog_request (ptr : nat) (c : catalogState) (id : bytes) (m : mutation) : keyedCommitRequest :=
  {| rq_ctxDone := false; rq_command := id; rq_mutation := Some (catalog_mutation ptr c m) |}.

Lemma catalog_committed o ptr c rq m st r :
  rq_mutation rq = Some (catalog_mutation ptr c m) →
  executeKeyed o st rq = ExPersist r → kr_Applied r = true →
  ∃ tx, run_mutation ptr m st fresh_tx = (CReturn (Some (kr_Result r)) None, tx)
    ∧ validateDatasetBounds c st tx = Ok tt
    ∧ kr_Mutations r = map (mutation_of tx) (tx_keys tx)
    ∧ ∀ k, records (applyKeyed o st r) !! k = overlay (writes tx) (records st) k.
Proof.
  intros Hrq Hex Hap. destruct (runKeyedMutation o st (catalog_mutation ptr c m) fresh_tx) as [out tx] eqn:Hrun.
  destruct (executeKeyed_overlay o st rq _ out tx r Hrq Hrun Hex)
    as [((result&->&Er)&_&Hms&Hov&_)|(_&Hf&_)]; [|congruence].
  unfold runKeyedMutation, catalog_mutation in Hrun.
  destruct (run_mutation ptr m st fresh_tx) as [[res [err|]|v] tx0] eqn:Hm; simplify_eq.
  destruct (validateDatasetBounds c st tx0) as [[]|e] eqn:Hb; simplify_eq.
  by exists tx0.
Qed.

(** C10: A committed [Mutate] behaves as a transaction over a map
    from datasets and record keys to values: running the callback against that
    map gives the result that was recorded, and afterwards every record of every
    dataset is the one the transaction wrote last, deleted if it deleted it, and
    unchanged otherwise.  In particular datasets never interfere. *)
Theorem catalog_mutate_refines o ptr c id m st r :
  mutation_wf o m → executeKeyed o st (catalog_request ptr c id m) = ExPersist r → kr_Applied r = true →
  ∃ aw, spec_run ptr (view (records st)) m ∅ = (CReturn (Some (kr_Result r)) None, aw)
    ∧ ∀ d k, u64_range d →
        view (records (applyKeyed o st r)) d k = default (view (records st) d k) (aw !! (d, k)).
Proof.
  intros Hwf Hex Hap. destruct (catalog_committed o ptr c (catalog_request ptr c id m) m st r eq_refl Hex Hap) as (tx&Hm&_&_&Hov).
  assert (writes_view fresh_tx ∅) as Hv.
  { split; [done|]. intros. cbn. by rewrite !lookup_empty. }
  destruct (run_mutation_refines o ptr m st fresh_tx ∅ Hwf Hv) as [H1 H2]. rewrite Hm in H1, H2.
  destruct (spec_run ptr (view (records st)) m ∅) as [out aw]. cbn in H1, H2. subst out.
  exists aw. split; [done|]. intros d k Hd. unfold view. rewrite Hov. unfold overlay.
  rewrite (proj2 H2) by done. by destruct (aw !! (d, k)).
Qed.

Definition sample_put : mutation :=
  MPut (Some sample_dataset) (bs "eve") (Some (bs "3")) (λ _, MReturn (Some (bs "true")) None).

Lemma sample_put_wf : mutation_wf catalog_options sample_put.
Proof.
  cbn. split; [intros h [= <-]; split; [by vm_compute|done]|]. split; [by intros v [= <-]|].
  intros _ _. split; [by intros v [= <-]|done].
Qed.

Definition sample_put_record : keyedWALRecord :=
  {| kr_Sequence := 1; kr_CommandID := bs "command-1"; kr_Applied := true; kr_Code := [];
     kr_Result := bs "true";
     kr_Mutations := [{| km_Key := backendRecordKey 1 (bs "eve"); km_Value := bs "3"; km_Delete := false |}] |}.

Lemma sample_put_decided :
  executeKeyed catalog_options sample_kstate (catalog_request 7 sample_catalog (bs "command-1") sample_put)
  = ExPersist sample_put_record.
Proof. vm_compute. reflexivity. Qed.

Lemma catalog_mutate_refines_witness :
  ∃ aw, spec_run 7 (view sample_records) sample_put ∅ = (CReturn (Some (bs "true")) None, aw)
    ∧ ∀ d k, u64_range d →
        view (records (applyKeyed catalog_options sample_kstate sample_put_record)) d k
        = default (view sample_records d k) (aw !! (d, k)).
Proof.
  exact (catalog_mutate_refines catalog_options 7 sample_catalog (bs "command-1") sample_put sample_kstate
    sample_put_record sample_put_wf sample_put_decided eq_refl).
Defined.

(** ** The bounds of datasets *)

Definition in_dataset (id : Z) (key : bytes) : bool := bool_decide (backendDatasetID key = Some id).

(** The number of records of a dataset. *)
Definition dataset_count (rs : gmap bytes bytes) (id : Z) : Z :=
  zlen (List.filter (in_dataset id) ((map_to_list rs).*1)).

Lemma count_records ks counts id :
  default 0 (foldl count_record counts ks !! id)
  = default 0 (counts !! id) + zlen (List.filter (in_dataset id) ks).
Proof.
  revert counts. induction ks as [|key ks IH]; intros counts; cbn [foldl List.filter]; [unfold zlen; simpl; lia|].
  rewrite IH. unfold count_record, in_dataset at 2. destruct (backendDatasetID key) as [id'|] eqn:E.
  - rewrite lookup_insert. destruct (decide (id' = id)) as [->|Hn].
    + rewrite bool_decide_true by done. unfold zlen. cbn. lia.
    + rewrite bool_decide_false by congruence. done.
  - by rewrite bool_decide_false.
Qed.

(** The change a write makes to the number of records of its dataset. *)
Definition write_delta (rs : gmap bytes bytes) (id : Z) (kv : bytes * option bytes) : Z :=
  if in_dataset id kv.1 then
    match kv.2, bool_decide (is_Some (rs !! kv.1)) with
    | None, true => -1
    | Some _, false => 1
    | _, _ => 0
    end
  else 0.

Lemma count_writes rs l counts id :
  default 0 (foldl (count_write rs) counts l !! id) = default 0 (counts !! id) + zsum (map (write_delta rs id) l).
Proof.
  revert counts. induction l as [|[key v] l IH]; intros counts; cbn [foldl map zsum foldr]; [lia|].
  rewrite IH. fold (zsum (map (write_delta rs id) l)).
  enough (default 0 (count_write rs counts (key, v) !! id) = default 0 (counts !! id) + write_delta rs id (key, v)) by lia.
  unfold count_write, write_delta, in_dataset. cbn [fst snd]. destruct (backendDatasetID key) as [id'|] eqn:E.
  - destruct (decide (id' = id)) as [->|Hn].
    + rewrite (bool_decide_true (Some id = Some id)) by done.
      destruct v, (bool_decide (is_Some (rs !! key))); rewrite ?lookup_insert_eq; cbn; lia.
    + rewrite (bool_decide_false (Some id' = Some id)) by congruence.
      destruct v, (bool_decide (is_Some (rs !! key))); rewrite ?lookup_insert_ne by done; lia.
  - rewrite bool_decide_false by done. lia.
Qed.

Lemma map_keys_perm {A B : Type} (m : gmap bytes A) (n : gmap bytes B) :
  (∀ k, is_Some (m !! k) ↔ is_Some (n !! k)) → (map_to_list m).*1 ≡ₚ (map_to_list n).*1.
Proof.
  intros H. apply NoDup_Permutation; [apply NoDup_fst_map_to_list..|]. intros k.
  assert (∀ (X : Type) (f : gmap bytes X), k ∈ (map_to_list f).*1 ↔ is_Some (f !! k)) as He.
  { intros X f. rewrite list_elem_of_fmap. split.
    - intros ([k' v]&->&Hk). apply elem_of_map_to_list in Hk. eauto.
    - intros [v Hv]. exists (k, v). split; [done|]. by apply elem_of_map_to_list. }
  by rewrite !He.
Qed.

Lemma filter_perm {A : Type} (f : A → bool) l k : l ≡ₚ k → List.filter f l ≡ₚ List.filter f k.
Proof.
  induction 1 as [|x l k Hp IH|x y l|l k j Hp1 IH1 Hp2 IH2]; cbn; [done| | |by etrans].
  - destruct (f x); [by constructor|done].
  - destruct (f x), (f y); try done. constructor.
Qed.

Lemma dataset_count_keys rs rs' id :
  (∀ k, is_Some (rs !! k) ↔ is_Some (rs' !! k)) → dataset_count rs id = dataset_count rs' id.
Proof. intros H. unfold dataset_count, zlen. by rewrite (filter_perm _ _ _ (map_keys_perm _ _ H)). Qed.

Lemma dataset_count_insert rs k v id :
  rs !! k = None →
  dataset_count (<[k := v]> rs) id = dataset_count rs id + if in_dataset id k then 1 else 0.
Proof.
  intros Hk. unfold dataset_count, zlen.
  rewrite (filter_perm _ _ (k :: (map_to_list rs).*1)) by (by rewrite (map_to_list_insert _ _ _ Hk)).
  cbn. destruct (in_dataset id k); cbn; lia.
Qed.

Lemma dataset_count_mutation rs m id :
  dataset_count (apply_mutation rs m) id
  = dataset_count rs id + if in_dataset id (km_Key m) then count_delta rs m else 0.
Proof.
  unfold apply_mutation, count_delta. destruct (km_Delete m), (rs !! km_Key m) as [v0|] eqn:E.
  - rewrite bool_decide_true by eauto. rewrite <- (insert_delete_id rs (km_Key m) v0 E) at 2.
    rewrite dataset_count_insert by apply lookup_delete_eq. destruct (in_dataset _ _); lia.
  - rewrite bool_decide_false by (by intros [? ?]). rewrite delete_id by done. destruct (in_dataset _ _); lia.
  - rewrite bool_decide_true by eauto. rewrite (dataset_count_keys _ rs); [destruct (in_dataset _ _); lia|].
    intros k. rewrite lookup_insert. case_decide; [|done]. subst. rewrite E. by split; eauto.
  - rewrite bool_decide_false by (by intros [? ?]). by apply dataset_count_insert.
Qed.

Lemma dataset_count_mutations ms rs id :
  NoDup (map km_Key ms) →
  dataset_count (foldl apply_mutation rs ms) id
  = dataset_count rs id + zsum (map (λ m, if in_dataset id (km_Key m) then count_delta rs m else 0) ms).
Proof.
  revert rs. induction ms as [|m ms IH]; intros rs Hnd; cbn [foldl map zsum foldr] in *; [lia|].
  apply NoDup_cons in Hnd as [Hk Hnd]. rewrite IH, dataset_count_mutation by done.
  assert (map (λ m0, if in_dataset id (km_Key m0) then count_delta (apply_mutation rs m) m0 else 0) ms
    = map (λ m0, if in_dataset id (km_Key m0) then count_delta rs m0 else 0) ms) as ->; [|unfold zsum; lia].
  apply map_ext_in. intros m' Hin. unfold count_delta. rewrite apply_mutation_lookup, decide_False; [done|].
  intros E. apply Hk. rewrite E. apply list_elem_of_In, in_map, Hin.
Qed.

Lemma zsum_perm l k : l ≡ₚ k → zsum l = zsum k.
Proof. unfold zsum. induction 1; cbn; lia. Qed.

(** The counts of the code are the counts after the commit. *)
Lemma committed_count st tx id :
  dataset_count (foldl apply_mutation (records st) (map (mutation_of tx) (tx_keys tx))) id
  = default 0 (foldl (count_write (records st)) (foldl count_record ∅ ((map_to_list (records st)).*1))
                 (map_to_list (writes tx)) !! id).
Proof.
  rewrite dataset_count_mutations by (rewrite map_mutation_keys; apply tx_keys_nodup).
  rewrite count_writes, count_records, lookup_empty. cbn [default from_option].
  unfold dataset_count. rewrite Z.add_0_l. f_equal. rewrite map_map.
  assert (map (write_delta (records st) id) (map_to_list (writes tx))
    = map (λ k, if in_dataset id (km_Key (mutation_of tx k)) then count_delta (records st) (mutation_of tx k) else 0)
        ((map_to_list (writes tx)).*1)) as ->.
  { change ((map_to_list (writes tx)).*1) with (map fst (map_to_list (writes tx))). rewrite map_map.
    apply map_ext_in. intros [k v] Hin. apply list_elem_of_In, elem_of_map_to_list in Hin. cbn [fst].
    unfold write_delta. cbn [fst snd]. rewrite mutation_of_key. destruct (in_dataset id k); [|done].
    unfold count_delta. rewrite mutation_of_key. unfold mutation_of. rewrite Hin. destruct v; cbn; by destruct (bool_decide _). }
  apply zsum_perm, Permutation_map. unfold tx_keys. apply sort_strings_perm.
Qed.

Lemma committed_bounds o ptr c rq m st r d :
  rq_mutation rq = Some (catalog_mutation ptr c m) →
  executeKeyed o st rq = ExPersist r → kr_Applied r = true → d ∈ all_datasets c →
  dataset_count (records (applyKeyed o st r)) (di_ID d) ≤ b_MaxRecords (di_Bounds d).
Proof.
  intros Hrq Hex Hap Hd. destruct (catalog_committed _ _ _ _ _ _ _ Hrq Hex Hap) as (tx&_&Hb&Hms&_).
  rewrite applyKeyed_records, Hap, Hms, committed_count. unfold validateDatasetBounds in Hb. inv_ok.
  match goal with H : existsb ?f _ = false |- _ => assert (f d = false) as Hf end.
  { apply not_true_iff_false. intros Ht. apply not_true_iff_false in Hb. apply Hb.
    apply existsb_exists. exists d. split; [by apply list_elem_of_In|done]. }
  by apply Z.ltb_ge in Hf.
Qed.

(** A committed [Mutate] leaves every dataset of the catalog within its
    bound on the number of records, whatever mixture of writes and deletions over
    several datasets the command made. *)
Theorem dataset_bounds o ptr c id m st r d :
  executeKeyed o st (catalog_request ptr c id m) = ExPersist r → kr_Applied r = true →
  d ∈ all_datasets c →
  dataset_count (records (applyKeyed o st r)) (di_ID d) ≤ b_MaxRecords (di_Bounds d).
Proof. by apply (committed_bounds o ptr c (catalog_request ptr c id m) m). Qed.

Lemma dataset_bounds_witness :
  dataset_count (records (applyKeyed catalog_options sample_kstate sample_put_record)) 1 ≤ 10.
Proof.
  apply (dataset_bounds catalog_options 7 sample_catalog (bs "command-1") sample_put sample_kstate
    sample_put_record sample_info sample_put_decided eq_refl).
  vm_compute. left.
Defined.

(** ** The contract with the keyed engine *)

Lemma backend_key_length id k : zlen (backendRecordKey id k) = 9 + zlen k.
Proof. unfold backendRecordKey, zlen. cbn [length]. rewrite length_app, put_u64_be_length. lia. Qed.

Lemma run_mutation_ok o ptr m st tx :
  mutation_wf o m → writes_ok o (keyedMaxKeyBytes + 9) tx →
  writes_ok o (keyedMaxKeyBytes + 9) (run_mutation ptr m st tx).2 ∧ result_ok (run_mutation ptr m st tx).1.
Proof.
  assert (∀ tx d key op info, validDataset ptr tx d key op = Ok info → handle_ok o d →
    backendRecordKey (di_ID info) key ≠ [] ∧ zlen (backendRecordKey (di_ID info) key) ≤ keyedMaxKeyBytes + 9
    ∧ b_MaxValueBytes (di_Bounds info) ≤ MaxValueBytes o) as Hkey.
  { intros tx' d key op info E Hh. unfold validDataset in E. inv_ok. destruct d as [h|]; [|done].
    unfold validRecordKey in E. inv_ok. bool_to_prop. rewrite backend_key_length. destruct (Hh h eq_refl).
    split; [done|]. split; [lia|done]. }
  revert tx. induction m as [r e|v|d key dst k IH|d key value k IH|d key k IH]; intros tx Hwf Hw;
    cbn [run_mutation mutation_wf] in *; try done.
  - destruct Hwf as [_ Hwf]. apply IH; [|done]. apply Hwf, ctx_get_err.
  - destruct Hwf as (Hd&Hv&Hk). destruct (ctx_put ptr tx d key value) as [tx'|e] eqn:E; [|by apply IH; [apply Hk, (ctx_put_err _ _ _ _ _ _ E)|]].
    apply IH; [by apply Hk|]. unfold ctx_put in E. inv_ok. destruct value as [v|]; [|done]. inv_ok. bool_to_prop.
    match goal with H : validDataset _ _ _ _ _ = Ok _ |- _ => destruct (Hkey _ _ _ _ _ H Hd) as (K1&K2&K3) end.
    apply tx_write_ok; [done|]. split; [done|]. split; [done|]. split; [lia|by apply Hv].
  - destruct Hwf as (Hd&Hk). destruct (ctx_delete ptr tx d key) as [tx'|e] eqn:E; [|by apply IH; [apply Hk, (ctx_delete_err _ _ _ _ _ E)|]].
    apply IH; [by apply Hk|]. unfold ctx_delete in E. inv_ok.
    match goal with H : validDataset _ _ _ _ _ = Ok _ |- _ => destruct (Hkey _ _ _ _ _ H Hd) as (K1&K2&K3) end.
    apply tx_write_ok; [done|]. split; [done|]. split; [done|done].
Qed.

(** The callback that [Mutate] hands to the keyed engine keeps the engine's
    contract for the catalog format, if the application writes and returns JSON:
    every key is nonempty and within the stored bound of nine bytes more than a
    record key, every value within the database's bound, and the refusal of a
    dataset over its bounds is JSON as well. *)
Lemma catalog_meets_contract o ptr c m :
  mutation_wf o m → mutation_ok o (maxStoredKeyBytes catalogKeyedFormatContents) (catalog_mutation ptr c m).
Proof.
  intros Hwf st tx Hw. change (maxStoredKeyBytes _) with (keyedMaxKeyBytes + 9) in *.
  destruct (run_mutation_ok o ptr m st tx Hwf Hw) as [H1 H2]. unfold catalog_mutation.
  destruct (run_mutation ptr m st tx) as [[r [e|]|v] tx']; [done| |done]. cbn in H1, H2.
  unfold validateDatasetBounds, guard_err. destruct (existsb _ _); [|done]. cbn. split; [done|].
  split; [by intros v [= <-]|done].
Qed.

