(* ===== verification/CatalogRecovery.v ===== *)
(** * Recovery of the catalog

    The well-formed catalogs, the catalog files they are decoded from, and the
    agreement of a catalog with the records of its datasets that
    [validateCatalogState] checks when the database is opened. *)

From Stdlib Require Import ZArith Lia Strings.Byte Strings.String Sorted.
From stdpp Require Import base decidable countable list gmap.
From S2P Require Import Prelude GoText GoBinary GoJson Errors GoOS Keyed KeyedStorage KeyedRecovery.
From S2P Require Import KeyedCommit Catalog CatalogStorage CatalogTheorems.

Local Open Scope Z_scope.
Local Open Scope go_scope.

(** ** Well-formed catalogs *)

Definition int_positive (v : Z) : Prop := 0 < v < 2 ^ 63.

Record info_wf (o : KeyedOptions) (next : Z) (bucket name : bytes) (d : DatasetInfo) : Prop := {
  iw_name : is_ok (validCatalogName "dataset" name) = true;
  iw_id : 0 < di_ID d < next;
  iw_bucket : di_BucketName d = bucket;
  iw_dataset : di_Name d = name;
  iw_kind : di_Kind d = KeyedJSON;
  iw_origin : di_Origin d = GoCatalog;
  iw_records : int_positive (b_MaxRecords (di_Bounds d));
  iw_value : int_positive (b_MaxValueBytes (di_Bounds d));
  iw_limit : b_MaxValueBytes (di_Bounds d) ≤ MaxValueBytes o }.

(** The datasets by the names of their bucket and their own. *)
Definition dataset_at (c : catalogState) (bucket name : bytes) : option DatasetInfo :=
  b ← buckets c !! bucket; datasets b !! name.

Record cat_wf (o : KeyedOptions) (c : catalogState) : Prop := {
  cw_id : DatabaseID c ≠ [];
  cw_next : 0 < NextDatasetID c < 2 ^ 64;
  cw_some : Buckets c ≠ None;
  cw_buckets : ∀ n b, buckets c !! n = Some b →
    is_ok (validCatalogName "bucket" n) = true ∧ Datasets b ≠ None;
  cw_infos : ∀ bn n d, dataset_at c bn n = Some d → info_wf o (NextDatasetID c) bn n d;
  cw_unique : ∀ bn n d bn' n' d', dataset_at c bn n = Some d → dataset_at c bn' n' = Some d' →
    di_ID d = di_ID d' → bn = bn' ∧ n = n' }.

(** The catalogs whose strings survive the encoder. *)
Record cat_utf8 (c : catalogState) : Prop := {
  cu_id : utf8_valid (DatabaseID c) = true;
  cu_buckets : ∀ n b, buckets c !! n = Some b → utf8_valid n = true;
  cu_names : ∀ bn n d, dataset_at c bn n = Some d →
    utf8_valid n = true ∧ utf8_valid (di_TypeIdentity d) = true }.

Lemma elem_of_all_datasets c d : d ∈ all_datasets c ↔ ∃ bn n, dataset_at c bn n = Some d.
Proof.
  unfold all_datasets, dataset_at. rewrite list_elem_of_bind. split.
  - intros ([bn b]&Hd&Hb%elem_of_map_to_list). apply list_elem_of_fmap in Hd as ([n d']&->&Hn%elem_of_map_to_list).
    exists bn, n. cbn in *. by rewrite Hb.
  - intros (bn&n&H). destruct (buckets c !! bn) as [b|] eqn:Hb; [|done]. cbn in H.
    exists (bn, b). split; [|by apply elem_of_map_to_list]. apply list_elem_of_fmap. exists (n, d).
    split; [done|]. by apply elem_of_map_to_list.
Qed.

(** ** The JSON forms *)

Lemma json_bounds_roundtrip b :
  int_positive (b_MaxRecords b) → int_positive (b_MaxValueBytes b) →
  into_struct bounds_member {| b_MaxRecords := 0; b_MaxValueBytes := 0 |} (norm (bounds_json b)) = Some b.
Proof.
  intros H1 H2. destruct b as [r v]. unfold int_positive in *. cbn in *.
  rewrite parse_int64_dec by lia. cbn. rewrite parse_int64_dec by lia. done.
Qed.

Record info_storable (d : DatasetInfo) : Prop := {
  is_id : u64_range (di_ID d);
  is_records : int_positive (b_MaxRecords (di_Bounds d));
  is_value : int_positive (b_MaxValueBytes (di_Bounds d));
  is_bucket : utf8_valid (di_BucketName d) = true;
  is_name : utf8_valid (di_Name d) = true;
  is_kind : utf8_valid (di_Kind d) = true;
  is_origin : utf8_valid (di_Origin d) = true;
  is_identity : utf8_valid (di_TypeIdentity d) = true }.

Lemma json_info_roundtrip d : info_storable d → json_info (norm (info_json d)) = Some d.
Proof.
  intros [H1 H2 H3 H4 H5 H6 H7 H8].
  pose proof (json_bounds_roundtrip (di_Bounds d) H2 H3) as Eb.
  pose proof (parse_uint64_dec _ H1) as Ei.
  destruct d as [i bn n k og t b]. unfold info_json. cbn [di_ID di_BucketName di_Name di_Kind di_Origin
    di_TypeIdentity di_Bounds] in *. remember (bounds_json b) as jb eqn:Ejb. clear Ejb.
  unfold json_info, into_struct. rewrite (opt_nonempty t).
  destruct t as [|t0 t]; cbn [opt_member app map fst snd norm];
    rewrite ?(utf8_coerce_valid bn), ?(utf8_coerce_valid n), ?(utf8_coerce_valid k), ?(utf8_coerce_valid og),
      ?(utf8_coerce_valid (t0 :: t)) by done;
    cbn [fold_members info_member]; eval_fields; cbn [into_u64 into_str zeroInfo di_ID di_BucketName di_Name
      di_Kind di_Origin di_TypeIdentity di_Bounds]; rewrite Ei;
    cbn [mbind option_bind di_ID di_BucketName di_Name di_Kind di_Origin di_TypeIdentity di_Bounds];
    rewrite Eb; done.
Qed.

(** A map of values that survive the encoder survives it. *)
Lemma into_nilmap_sorted {A : Type} (f : A → json) (g : json → option A) (m : option (gmap bytes A)) :
  (∀ k v, default ∅ m !! k = Some v → utf8_valid k = true ∧ g (norm (f v)) = Some v) → m ≠ None →
  into_nilmap g None (norm (map_json f m)) = Some m.
Proof.
  intros H Hm. destruct m as [m|]; [|done]. cbn [map_json into_nilmap default from_option] in *.
  pose proof (into_map_sorted f g m H) as E. cbn [norm] in *. unfold into_nilmap. cbn [default from_option].
  by rewrite E.
Qed.

Definition bucket_storable (b : catalogBucket) : Prop :=
  Datasets b ≠ None ∧ ∀ n d, datasets b !! n = Some d → utf8_valid n = true ∧ info_storable d.

Lemma json_bucket_roundtrip b : bucket_storable b → json_bucket (norm (bucket_json b)) = Some b.
Proof.
  intros [Hn Hd]. destruct b as [ds]. unfold datasets in Hd. cbn in Hn, Hd.
  assert (into_nilmap json_info None (norm (map_json info_json ds)) = Some ds) as E.
  { apply into_nilmap_sorted; [|done]. intros k v Hv. destruct (Hd k v Hv). split; [done|].
    by apply json_info_roundtrip. }
  unfold bucket_json, json_bucket. cbn [Datasets]. remember (map_json info_json ds) as j eqn:Ej. clear Ej.
  cbn [norm map fst snd into_struct fold_members bucket_member]. eval_fields. cbn [Datasets]. by rewrite E.
Qed.

Definition cat_storable (c : catalogState) : Prop :=
  utf8_valid (DatabaseID c) = true ∧ u64_range (NextDatasetID c) ∧ Buckets c ≠ None
  ∧ ∀ n b, buckets c !! n = Some b → utf8_valid n = true ∧ bucket_storable b.

Lemma json_catalog_roundtrip c : cat_storable c → json_catalog (norm (catalog_json c)) = Some c.
Proof.
  intros (H1&H2&H3&H4). destruct c as [i n bs0]. unfold buckets in H4. cbn in H1, H2, H3, H4.
  assert (into_nilmap json_bucket None (norm (map_json bucket_json bs0)) = Some bs0) as E.
  { apply into_nilmap_sorted; [|done]. intros k v Hv. destruct (H4 k v Hv). split; [done|].
    by apply json_bucket_roundtrip. }
  unfold catalog_json, json_catalog. cbn [Buckets DatabaseID NextDatasetID].
  remember (map_json bucket_json bs0) as j eqn:Ej. clear Ej.
  cbn [norm map fst snd into_struct]. rewrite (utf8_coerce_valid i) by done.
  cbn [fold_members catalog_member]. eval_fields.
  cbn [into_str into_u64 mbind option_bind zeroCatalog DatabaseID NextDatasetID Buckets].
  rewrite parse_uint64_dec by done. cbn [mbind option_bind DatabaseID NextDatasetID Buckets]. by rewrite E.
Qed.

Lemma cat_wf_storable o c : cat_wf o c → cat_utf8 c → cat_storable c.
Proof.
  intros [W1 W2 W3 W4 W5 W6] [U1 U2 U3]. split; [done|]. split; [unfold u64_range; lia|]. split; [done|].
  intros n b Hb. split; [eauto|]. split; [by apply (W4 n)|]. intros m d Hd.
  assert (dataset_at c n m = Some d) as Hat by (unfold dataset_at; by rewrite Hb).
  destruct (U3 _ _ _ Hat) as [Hu1 Hu2]. split; [done|]. destruct (W5 _ _ _ Hat) as [_ I2 I3 I4 I5 I6 I7 I8 _].
  split; try done; [unfold u64_range; lia|rewrite I3; eauto|by rewrite I4|by rewrite I5|by rewrite I6].
Qed.

(** The shape of the JSON forms. *)
Lemma map_json_shape {A : Type} (f : A → json) n m :
  (∀ a, nums_ok (f a) ∧ (depth (f a) ≤ n)%nat) →
  nums_ok (map_json f m) ∧ (depth (map_json f m) ≤ S n)%nat.
Proof.
  intros H. destruct m as [m|]; [|cbn; split; [done|lia]]. unfold map_json, sorted_members.
  induction (sort_strings _) as [|k l IH]; [cbn; split; [done|lia]|].
  cbn [omap list_omap]. destruct (m !! k) as [v|]; cbn [mbind option_bind]; [|done].
  destruct IH as [IH1 IH2], (H v) as [Hv1 Hv2]. simpl in IH1, IH2.
  split; [simpl; done|]. cbn [depth foldr fst snd]. simpl. lia.
Qed.

Lemma info_json_shape d : nums_ok (info_json d) ∧ (depth (info_json d) ≤ 2)%nat.
Proof.
  unfold info_json. destruct (negb _); simpl; (split; [eauto 20|lia]).
Qed.

Lemma catalog_json_shape c : nums_ok (catalog_json c) ∧ (depth (catalog_json c) ≤ 6)%nat.
Proof.
  assert (∀ b, nums_ok (bucket_json b) ∧ (depth (bucket_json b) ≤ 4)%nat) as Hb.
  { intros b. destruct (map_json_shape info_json 2 (Datasets b) info_json_shape) as [H1 H2].
    unfold bucket_json. remember (map_json info_json (Datasets b)) as j eqn:E. clear E. simpl. split; [done|lia]. }
  destruct (map_json_shape bucket_json 4 (Buckets c) Hb) as [H1 H2].
  unfold catalog_json. remember (map_json bucket_json (Buckets c)) as j eqn:E. clear E.
  simpl. split; [eauto 10|lia].
Qed.

#[export] Program Instance catalog_codec : JSONCodec catalogState := {|
  to_json := catalog_json;
  of_json := json_catalog;
  json_ok := cat_storable |}.
Next Obligation. intros c. apply catalog_json_shape. Qed.
Next Obligation. intros c. pose proof (catalog_json_shape c). lia. Qed.
Next Obligation. intros c H. by apply json_catalog_roundtrip. Qed.

(** ** The validation of a recovered catalog *)

Definition index_dataset (m : gmap Z DatasetInfo) (d : DatasetInfo) : gmap Z DatasetInfo := <[di_ID d := d]> m.

Lemma index_datasets_lookup ds m id d :
  NoDup (map di_ID ds) → (∀ d', d' ∈ ds → m !! di_ID d' = None) →
  foldl index_dataset m ds !! id = Some d ↔ m !! id = Some d ∨ d ∈ ds ∧ di_ID d = id.
Proof.
  revert m. induction ds as [|x ds IH]; intros m Hnd Hm; cbn [foldl map] in *.
  { split; [by left|]. intros [?|[?%elem_of_nil _]]; done. }
  apply NoDup_cons in Hnd as [Hx Hnd]. rewrite IH; [|done|].
  - unfold index_dataset. rewrite lookup_insert, elem_of_cons. case_decide as E; [subst id|].
    + rewrite (Hm x ltac:(left)). split; [intros [[= ->]|[? ?]]; [right|right; split; [right|]]; by auto|].
      intros [?|[[->|Hin] E]]; [done|by left|]. exfalso. apply Hx. rewrite <- E. by apply list_elem_of_In, in_map, list_elem_of_In.
    + split; [intros [?|[? ?]]; auto|]. intros [?|[[->|?] ?]]; auto. congruence.
  - intros d' Hd'. unfold index_dataset. rewrite lookup_insert_ne; [apply Hm; by right|].
    intros E. apply Hx. rewrite E. by apply list_elem_of_In, in_map, list_elem_of_In.
Qed.

Lemma validate_datasets o next bn l ids :
  (∀ n d, (n, d) ∈ l → info_wf o next bn n d) → NoDup (map di_ID l.*2) → (∀ d, d ∈ l.*2 → ids !! di_ID d = None) →
  res_fold (validate_dataset next bn) ids l = Ok (foldl index_dataset ids l.*2).
Proof.
  revert ids. induction l as [|[n d] l IH]; intros ids Hw Hnd Hi; [done|]. cbn [res_fold fmap list_fmap snd foldl map] in *.
  apply NoDup_cons in Hnd as [Hd Hnd].
  assert (validate_dataset next bn ids (n, d) = Ok (index_dataset ids d)) as ->.
  { destruct (Hw n d ltac:(left)) as [W1 W2 W3 W4 W5 W6 [W7 _] [W8 _] _]. unfold validate_dataset, guard_err.
    rewrite W1, W3, W4, W5, W6, !bool_decide_true by done. rewrite (Hi d ltac:(left)), bool_decide_false by (by intros [? ?]).
    rewrite (proj2 (Z.eqb_neq _ _)), !(proj2 (Z.leb_gt _ _)) by lia. done. }
  cbn [res_bind]. apply IH; [intros; apply Hw; by right|done|].
  intros d' Hd'. unfold index_dataset. rewrite lookup_insert_ne; [apply Hi; by right|].
  intros E. apply Hd. rewrite E. by apply list_elem_of_In, in_map, list_elem_of_In.
Qed.

Definition bucket_infos (nb : bytes * catalogBucket) : list DatasetInfo := (map_to_list (datasets nb.2)).*2.

Lemma validate_buckets o next l ids :
  (∀ n b, (n, b) ∈ l → is_ok (validCatalogName "bucket" n) = true ∧ Datasets b ≠ None
     ∧ ∀ m d, datasets b !! m = Some d → info_wf o next n m d) →
  NoDup (map di_ID (l ≫= bucket_infos)) → (∀ d, d ∈ l ≫= bucket_infos → ids !! di_ID d = None) →
  res_fold (validate_bucket next) ids l = Ok (foldl index_dataset ids (l ≫= bucket_infos)).
Proof.
  revert ids. induction l as [|[n b] l IH]; intros ids Hw Hnd Hi; [done|]. cbn [res_fold mbind list_bind] in *.
  rewrite map_app in Hnd. apply NoDup_app in Hnd as (Hnd1&Hx&Hnd2). rewrite foldl_app.
  assert (validate_bucket next ids (n, b) = Ok (foldl index_dataset ids (bucket_infos (n, b)))) as ->.
  { destruct (Hw n b ltac:(left)) as (W1&W2&W3). unfold validate_bucket, guard_err.
    rewrite W1, bool_decide_false by done. cbn [negb orb res_bind]. apply (validate_datasets o); [|done|].
    - intros m d Hd%elem_of_map_to_list. by apply W3.
    - intros d Hd. apply Hi, elem_of_app. by left. }
  cbn [res_bind]. apply IH; [intros; apply Hw; by right|done|].
  intros d Hd. apply eq_None_not_Some. intros [d' Hd'].
  apply index_datasets_lookup in Hd' as [Hd'|[Hin E]]; [| |done|].
  - rewrite Hi in Hd'; [done|]. apply elem_of_app. by right.
  - apply (Hx (di_ID d')); [by apply list_elem_of_In, in_map, list_elem_of_In|]. rewrite E.
    by apply list_elem_of_In, in_map, list_elem_of_In.
  - intros d2 Hd2. apply Hi, elem_of_app. by left.
Qed.

Lemma all_datasets_nodup o c : cat_wf o c → NoDup (map di_ID (all_datasets c)).
Proof.
  intros W. change (map di_ID ?l) with (di_ID <$> l). apply NoDup_fmap_2_strong.
  { intros x y Hx Hy E. apply elem_of_all_datasets in Hx as (b1&n1&H1), Hy as (b2&n2&H2).
    destruct (cw_unique o c W _ _ _ _ _ _ H1 H2 E) as [-> ->]. by rewrite H1 in H2; simplify_eq. }
  assert (∀ bn b n d, (bn, b) ∈ map_to_list (buckets c) → (n, d) ∈ map_to_list (datasets b) →
    info_wf o (NextDatasetID c) bn n d) as Hi.
  { intros bn b n d Hb%elem_of_map_to_list Hd%elem_of_map_to_list. apply (cw_infos o c W). unfold dataset_at. by rewrite Hb. }
  apply NoDup_bind; [| |apply NoDup_map_to_list].
  - intros [bn b] [bn' b'] d Hb Hb' Hd Hd'. apply list_elem_of_fmap in Hd as ([n d1]&->&Hd), Hd' as ([n' d2]&E'&Hd'). cbn in E'. subst d2.
    pose proof (iw_bucket _ _ _ _ _ (Hi _ _ _ _ Hb Hd)) as E1. pose proof (iw_bucket _ _ _ _ _ (Hi _ _ _ _ Hb' Hd')) as E2.
    cbn in *. rewrite E1 in E2. subst bn'. apply elem_of_map_to_list in Hb, Hb'. congruence.
  - intros [bn b] Hb. apply NoDup_fmap_2_strong; [|apply NoDup_map_to_list].
    intros [n d] [n' d'] Hd Hd' E. cbn in E. subst d'.
    pose proof (iw_dataset _ _ _ _ _ (Hi _ _ _ _ Hb Hd)). pose proof (iw_dataset _ _ _ _ _ (Hi _ _ _ _ Hb Hd')). congruence.
Qed.

(** The records fit the catalog: each belongs to a dataset and is within its
    value bound, and no dataset has more records than its bound. *)
Record records_fit (c : catalogState) (rs : gmap bytes bytes) : Prop := {
  rf_known : ∀ k v, rs !! k = Some v → ∃ d, d ∈ all_datasets c ∧ backendDatasetID k = Some (di_ID d)
    ∧ zlen v ≤ b_MaxValueBytes (di_Bounds d);
  rf_count : ∀ d, d ∈ all_datasets c → dataset_count rs (di_ID d) ≤ b_MaxRecords (di_Bounds d) }.

Lemma validate_records ids l counts :
  (∀ k v, (k, v) ∈ l → ∃ d, backendDatasetID k = Some (di_ID d) ∧ ids !! di_ID d = Some d
     ∧ zlen v ≤ b_MaxValueBytes (di_Bounds d)) →
  (∀ id d, ids !! id = Some d →
     default 0 (counts !! id) + zlen (List.filter (in_dataset id) l.*1) ≤ b_MaxRecords (di_Bounds d)) →
  ∃ counts', res_fold (validate_record ids) counts l = Ok counts'.
Proof.
  revert counts. induction l as [|[k v] l IH]; intros counts Hl Hc; [by eexists|]. cbn [res_fold].
  destruct (Hl k v ltac:(left)) as (d&Hk&Hd&Hv). unfold validate_record, guard_err. cbn [fst snd].
  rewrite Hk, Hd, (proj2 (Z.ltb_ge _ _)) by done. cbn [res_bind]. pose proof (Hc _ _ Hd) as Hcd.
  cbn [fmap list_fmap fst List.filter] in Hcd. unfold in_dataset at 1 in Hcd. rewrite bool_decide_true in Hcd by done.
  rewrite (proj2 (Z.ltb_ge _ _)) by (unfold zlen in Hcd; cbn in Hcd; lia). cbn [res_bind].
  apply IH; [intros; apply Hl; by right|]. intros id d' Hd'. rewrite lookup_insert. specialize (Hc _ _ Hd').
  cbn [fmap list_fmap fst List.filter] in Hc. unfold in_dataset at 1 in Hc.
  destruct (decide (di_ID d = id)) as [E|E].
  - subst id. rewrite bool_decide_true in Hc by done. unfold zlen in *. cbn in Hc |- *. lia.
  - rewrite bool_decide_false in Hc by congruence. done.
Qed.

Lemma validateCatalogState_ok o c st :
  cat_wf o c → records_fit c (records st) → validateCatalogState c st = Ok tt.
Proof.
  intros W [F1 F2]. pose proof (all_datasets_nodup o c W) as Hnd. unfold validateCatalogState, guard_err.
  rewrite (bool_decide_false (DatabaseID c = [])) by apply W. rewrite (bool_decide_false (Buckets c = None)) by apply W.
  destruct (cw_next o c W). rewrite (proj2 (Z.eqb_neq _ _)) by lia. cbn [orb res_bind].
  rewrite (validate_buckets o); [|..|done|].
  - change (map_to_list (buckets c) ≫= bucket_infos) with (all_datasets c). cbn [res_bind].
    assert (∀ id d, foldl index_dataset ∅ (all_datasets c) !! id = Some d ↔ d ∈ all_datasets c ∧ di_ID d = id) as Hix.
    { intros id d. rewrite index_datasets_lookup; [|done|intros; apply lookup_empty]. rewrite lookup_empty.
      split; [by intros [?|?]|by right]. }
    destruct (validate_records (foldl index_dataset ∅ (all_datasets c)) (map_to_list (records st)) ∅) as [? ->]; [..|done].
    + intros k v Hkv%elem_of_map_to_list. destruct (F1 k v Hkv) as (d&Hd&Hk&Hv). exists d. split; [done|]. split; [|done].
      by apply Hix.
    + intros id d [Hd <-]%Hix. rewrite lookup_empty. cbn [default from_option]. apply F2, Hd.
  - intros n b Hb%elem_of_map_to_list. destruct (cw_buckets o c W n b Hb) as [W1 W2]. split; [done|]. split; [done|].
    intros m d Hd. apply (cw_infos o c W). unfold dataset_at. by rewrite Hb.
  - intros. apply lookup_empty.
Qed.

Lemma decode_catalog_of o c st :
  cat_wf o c → cat_utf8 c → records_fit c (records st) → decode_catalog st (catalog_envelope c) = Ok c.
Proof.
  intros W U F. unfold decode_catalog, catalog_envelope. destruct (catalog_json_shape c) as [H1 H2].
  rewrite envelope_roundtrip; [|done|lia|done|apply hex_encode_ascii|lia].
  cbn [env_magic env_version env_payload env_sha256].
  rewrite !bool_decide_true by done. unfold guard_err. cbn [negb orb Z.eqb Pos.eqb res_bind].
  rewrite parse_print; [|done|apply max_nesting_ge; lia]. cbn [mbind option_bind].
  rewrite json_catalog_roundtrip by (by apply (cat_wf_storable o)). by rewrite (validateCatalogState_ok o).
Qed.
