(* ===== verification/CatalogSafety.v ===== *)
(** * The catalog invariant and the durability of the catalog

    Every operation of the catalog keeps it well-formed and its records within
    it, so what is on disk can be opened again; and the catalog file is replaced
    atomically. *)

From Stdlib Require Import ZArith Lia Strings.Byte Strings.String Sorted.
From stdpp Require Import base decidable countable list gmap relations.
From S2P Require Import Prelude GoText GoBinary GoJson Errors GoOS Keyed KeyedStorage KeyedRecovery.
From S2P Require Import KeyedCommit KeyedScenario Catalog CatalogStorage CatalogTheorems CatalogRecovery.

Local Open Scope Z_scope.
Local Open Scope go_scope.

(** ** New buckets and datasets *)

Lemma dataset_at_clone c bn n : dataset_at (cloneCatalogState c) bn n = dataset_at c bn n.
Proof.
  unfold dataset_at, cloneCatalogState. change (buckets _) with
    ((λ b, {| Datasets := Some (datasets b) |}) <$> buckets c) at 1.
  rewrite lookup_fmap. by destruct (buckets c !! bn).
Qed.

Lemma clone_bucket c n b : buckets (cloneCatalogState c) !! n = Some b →
  ∃ b0, buckets c !! n = Some b0 ∧ b = {| Datasets := Some (datasets b0) |}.
Proof.
  unfold cloneCatalogState. change (buckets _) with
    ((λ b, {| Datasets := Some (datasets b) |}) <$> buckets c) at 1.
  rewrite lookup_fmap. destruct (buckets c !! n) as [b0|]; [|done]. intros [= <-]. eauto.
Qed.

(** The catalog with one more bucket. *)
Definition add_bucket (c : catalogState) (name : bytes) : catalogState :=
  let next := cloneCatalogState c in set_buckets (<[name := {| Datasets := Some ∅ |}]> (buckets next)) next.

Lemma buckets_add_bucket c name :
  buckets (add_bucket c name) = <[name := {| Datasets := Some ∅ |}]> (buckets (cloneCatalogState c)).
Proof. done. Qed.

Lemma dataset_at_add_bucket c name bn n :
  buckets c !! name = None → dataset_at (add_bucket c name) bn n = dataset_at c bn n.
Proof.
  intros Hn. rewrite <- (dataset_at_clone c). unfold dataset_at. rewrite buckets_add_bucket, lookup_insert. case_decide as E; [subst bn|done].
  destruct (buckets (cloneCatalogState c) !! name) as [b|] eqn:Eb; [|done].
  apply clone_bucket in Eb as (b0&Eb&_). congruence.
Qed.

Lemma add_bucket_wf o c name :
  cat_wf o c → is_ok (validCatalogName "bucket" name) = true → buckets c !! name = None →
  cat_wf o (add_bucket c name).
Proof.
  intros [W1 W2 W3 W4 W5 W6] Hname Hn. split; try done.
  - intros n b. rewrite buckets_add_bucket, lookup_insert. case_decide as E; [subst n; by intros [= <-]|].
    intros (b0&Hb&->)%clone_bucket. split; [by apply (W4 n b0)|done].
  - intros bn n d. rewrite dataset_at_add_bucket by done. apply W5.
  - intros bn n d bn' n' d'. rewrite !dataset_at_add_bucket by done. apply W6.
Qed.

Lemma add_bucket_datasets c name d :
  buckets c !! name = None → d ∈ all_datasets (add_bucket c name) ↔ d ∈ all_datasets c.
Proof.
  intros Hn. rewrite !elem_of_all_datasets. split; intros (bn&n&H); exists bn, n;
    by rewrite dataset_at_add_bucket in *.
Qed.

Lemma buckets_add_dataset c bucket name o :
  buckets (add_dataset c bucket name o)
  = <[bucket := {| Datasets := Some (<[name := new_info c bucket name o]>
        (default ∅ (datasets <$> (buckets (cloneCatalogState c) !! bucket)))) |}]> (buckets (cloneCatalogState c)).
Proof. unfold add_dataset, buckets at 1. cbn. by destruct (_ !! bucket). Qed.

Lemma dataset_at_add c bucket name o bn n :
  dataset_at (add_dataset c bucket name o) bn n
  = if decide (bn = bucket ∧ n = name) then Some (new_info c bucket name o) else dataset_at c bn n.
Proof.
  rewrite <- (dataset_at_clone c). unfold dataset_at. rewrite buckets_add_dataset, lookup_insert. destruct (decide (bucket = bn)) as [->|Hn]; cbn [mbind option_bind];
    [|by rewrite decide_False by naive_solver].
  change (datasets {| Datasets := Some ?m |}) with m. rewrite lookup_insert.
  destruct (decide (name = n)) as [->|Hm]; [by rewrite decide_True|]. rewrite decide_False by naive_solver.
  by destruct (buckets (cloneCatalogState c) !! bn).
Qed.

Lemma normalized_options options o dopt :
  normalizeDatasetOptions options o = Ok dopt → 0 < MaxRecords o < 2 ^ 63 → 0 < MaxValueBytes o < 2 ^ 63 →
  do_MaxRecords options < 2 ^ 63 →
  do_Kind dopt = KeyedJSON ∧ int_positive (do_MaxRecords dopt) ∧ int_positive (do_MaxValueBytes dopt)
  ∧ do_MaxValueBytes dopt ≤ MaxValueBytes o.
Proof.
  unfold normalizeDatasetOptions. intros E H1 H2 H3. inv_ok. bool_to_prop. cbn in *. unfold int_positive.
  split; [done|]. destruct (Z.eqb_spec (do_MaxRecords options) 0), (Z.eqb_spec (do_MaxValueBytes options) 0); lia.
Qed.

Lemma add_dataset_wf o c bucket name dopt :
  cat_wf o c → NextDatasetID c < 2 ^ 64 - 1 → is_Some (buckets c !! bucket) →
  is_ok (validCatalogName "dataset" name) = true →
  do_Kind dopt = KeyedJSON → int_positive (do_MaxRecords dopt) → int_positive (do_MaxValueBytes dopt) →
  do_MaxValueBytes dopt ≤ MaxValueBytes o →
  cat_wf o (add_dataset c bucket name dopt).
Proof.
  intros W Hmax Hb Hname H1 H2 H3 H4. pose proof W as [W1 W2 W3 W4 W5 W6].
  assert (NextDatasetID (add_dataset c bucket name dopt) = NextDatasetID c + 1) as En.
  { cbn. apply u64_id. unfold u64_range. lia. }
  split; [done|rewrite En; lia|done|..].
  - intros n b. rewrite buckets_add_dataset, lookup_insert.
    case_decide as E; [subst n; intros [= <-]|intros (b0&Hb0&->)%clone_bucket].
    + destruct Hb as [b Hb]. split; [by apply (W4 bucket b)|done].
    + split; [by apply (W4 n b0)|done].
  - intros bn n d. rewrite dataset_at_add, En. case_decide as E.
    + destruct E as [-> ->]. intros [= <-]. split; try done. cbn. lia.
    + intros Hd. destruct (W5 _ _ _ Hd) as [I1 I2 I3 I4 I5 I6 I7 I8 I9]. split; try done. lia.
  - intros bn n d bn' n' d'. rewrite !dataset_at_add. case_decide as E1; case_decide as E2.
    + by destruct E1 as [-> ->], E2 as [-> ->].
    + intros [= <-] Hd' Eid. pose proof (iw_id _ _ _ _ _ (W5 _ _ _ Hd')). cbn in Eid. lia.
    + intros Hd [= <-] Eid. pose proof (iw_id _ _ _ _ _ (W5 _ _ _ Hd)). cbn in Eid. lia.
    + apply W6.
Qed.

Lemma add_dataset_datasets c bucket name dopt d :
  dataset_at c bucket name = None →
  d ∈ all_datasets (add_dataset c bucket name dopt) ↔ d = new_info c bucket name dopt ∨ d ∈ all_datasets c.
Proof.
  intros Hn. rewrite !elem_of_all_datasets. split.
  - intros (bn&n&H). rewrite dataset_at_add in H. case_decide; [left; congruence|eauto].
  - intros [->|(bn&n&H)].
    + exists bucket, name. by rewrite dataset_at_add, decide_True.
    + exists bn, n. rewrite dataset_at_add, decide_False; [done|]. intros [-> ->]. congruence.
Qed.

Lemma dataset_count_none rs id :
  (∀ k v, rs !! k = Some v → backendDatasetID k ≠ Some id) → dataset_count rs id = 0.
Proof.
  intros H. unfold dataset_count.
  assert (List.filter (in_dataset id) (map_to_list rs).*1 = []) as ->; [|done].
  destruct (List.filter _ _) as [|k l] eqn:E; [done|]. exfalso.
  assert (In k (List.filter (in_dataset id) (map_to_list rs).*1)) as Hk by (rewrite E; by left).
  apply filter_In in Hk as [Hk Hb]. apply list_elem_of_In in Hk.
  apply list_elem_of_fmap in Hk as ([k' v]&->&Hk). apply elem_of_map_to_list in Hk.
  unfold in_dataset in Hb. apply bool_decide_eq_true in Hb. by apply (H _ _ Hk).
Qed.

Lemma records_fit_more c c' rs :
  records_fit c rs → (∀ d, d ∈ all_datasets c → d ∈ all_datasets c') →
  (∀ d, d ∈ all_datasets c' → d ∈ all_datasets c
     ∨ 0 ≤ b_MaxRecords (di_Bounds d) ∧ ∀ d0, d0 ∈ all_datasets c → di_ID d0 ≠ di_ID d) →
  records_fit c' rs.
Proof.
  intros [F1 F2] H1 H2. split.
  - intros k v Hk. destruct (F1 k v Hk) as (d&Hd&?). exists d. split; [by apply H1|done].
  - intros d Hd. destruct (H2 d Hd) as [?|[Hpos Hid]]; [by apply F2|].
    rewrite dataset_count_none; [done|]. intros k v Hk E. destruct (F1 k v Hk) as (d0&Hd0&E0&_).
    rewrite E0 in E. injection E as E. by apply (Hid d0).
Qed.

(** ** Committed transactions *)

(** The handles a mutation uses for the database come from the catalog. *)
Definition handle_known (ptr : nat) (c : catalogState) (d : option DatasetHandle) : Prop :=
  ∀ h, d = Some h → dh_db h = ptr → dh_info h ∈ all_datasets c.

Fixpoint handles_known (ptr : nat) (c : catalogState) (m : mutation) : Prop :=
  match m with
  | MReturn _ _ | MPanic _ => True
  | MGet _ _ _ k => ∀ r, handles_known ptr c (k r)
  | MPut d _ _ k | MDelete d _ k => handle_known ptr c d ∧ ∀ e, handles_known ptr c (k e)
  end.

Definition writes_fit (c : catalogState) (tx : KeyedTx) : Prop :=
  ∀ k v, writes tx !! k = Some (Some v) → ∃ d, d ∈ all_datasets c ∧ backendDatasetID k = Some (di_ID d)
    ∧ zlen v ≤ b_MaxValueBytes (di_Bounds d).

Lemma validDataset_known ptr c tx d key op info :
  validDataset ptr tx d key op = Ok info → handle_known ptr c d → info ∈ all_datasets c.
Proof.
  unfold validDataset. intros E Hh. inv_ok. destruct d as [h|]; [|done]. inv_ok. bool_to_prop. by apply Hh.
Qed.

Lemma run_mutation_fit o ptr c m st tx :
  cat_wf o c → handles_known ptr c m → writes_fit c tx → writes_fit c (run_mutation ptr m st tx).2.
Proof.
  intros W. revert tx. induction m as [r e|v|d key dst k IH|d key value k IH|d key k IH]; intros tx Hm Hf;
    cbn [run_mutation handles_known] in *; try done.
  - by apply IH.
  - destruct Hm as [Hd Hm]. destruct (ctx_put ptr tx d key value) as [tx'|e] eqn:E; apply IH; try done.
    unfold ctx_put in E. inv_ok. destruct value as [v|]; [|done]. inv_ok. bool_to_prop.
    match goal with H : validDataset _ _ _ _ _ = Ok ?i |- _ =>
      pose proof (validDataset_known _ _ _ _ _ _ _ H Hd) as Hin; rename i into info end.
    intros k' v'. cbn. rewrite lookup_insert. case_decide as Ek; [|by apply Hf]. intros [= <-]. exists info.
    split; [done|]. split; [|done]. subst k'. apply backend_id. apply elem_of_all_datasets in Hin as (bn&n&Hat).
    pose proof (iw_id _ _ _ _ _ (cw_infos o c W _ _ _ Hat)). pose proof (cw_next o c W). unfold u64_range. lia.
  - destruct Hm as [Hd Hm]. destruct (ctx_delete ptr tx d key) as [tx'|e] eqn:E; apply IH; try done.
    unfold ctx_delete in E. inv_ok. intros k' v'. cbn. rewrite lookup_insert. case_decide; [done|]. apply Hf.
Qed.

Definition catalog_mutating (ptr : nat) (c : catalogState) (rq : keyedCommitRequest) : Prop :=
  ∃ m, rq_mutation rq = Some (catalog_mutation ptr c m) ∧ handles_known ptr c m.

Lemma committed_fit o ptr c rq st r :
  cat_wf o c → catalog_mutating ptr c rq → executeKeyed o st rq = ExPersist r →
  records_fit c (records st) → records_fit c (records (applyKeyed o st r)).
Proof.
  intros W (m&Hrq&Hm) Hex [F1 F2]. destruct (kr_Applied r) eqn:Hap.
  2:{ rewrite applyKeyed_records, Hap. done. }
  split; [|intros d Hd; by apply (committed_bounds o ptr c rq m)].
  destruct (catalog_committed _ _ _ _ _ _ _ Hrq Hex Hap) as (tx&Hrun&_&_&Hov).
  assert (writes_fit c tx) as Hf.
  { pose proof (run_mutation_fit o ptr c m st fresh_tx W Hm) as H. rewrite Hrun in H. apply H. intros k v. cbn.
    by rewrite lookup_empty. }
  intros k v. rewrite Hov. unfold overlay. destruct (writes tx !! k) as [[v'|]|] eqn:E; [|done|apply F1].
  intros [= ->]. by apply Hf.
Qed.

(** An invariant of the records that every committed request of a group keeps
    holds after the group. *)
Lemma group_steps_records {H : Type} (P : gmap bytes bytes → Prop) o (g : group_state H) rqs w :
  db_options (gs_db g) = o →
  (∀ rq st r, rq ∈ rqs → executeKeyed o st rq = ExPersist r → P (records st) → P (records (applyKeyed o st r))) →
  P (records (db_state (gs_db g))) →
  db_options (gs_db (group_steps g rqs w).1) = o ∧ P (records (db_state (gs_db (group_steps g rqs w).1))).
Proof.
  intros Ho Hstep. revert g w Ho. induction rqs as [|rq rqs IH]; intros g w Ho HP; cbn [group_steps]; [done|].
  destruct (group_step g rq w) as [g' w'] eqn:E.
  assert (db_options (gs_db g') = o ∧ P (records (db_state (gs_db g')))) as [H1 H2].
  { revert E. unfold group_step.
    destruct (db_poisoned (gs_db g)); [by intros [= <- <-]|].
    destruct (rq_ctxDone rq); [by intros [= <- <-]|].
    destruct (staged_original g _); [by intros [= <- <-]|].
    unfold safelyExecuteKeyed. destruct (executeKeyed _ _ _) as [v|e|d|r] eqn:Ex; try by intros [= <- <-].
    destruct (appendKeyedFrame _ _ _) as [[[]|e] w1]; intros [= <- <-]; [|done]. cbn.
    unfold db_apply. destruct (db_afterApply (gs_db g)); cbn; rewrite Ho in *;
      (split; [done|]; apply (Hstep rq); [left|done|done]). }
  apply IH; [intros; eapply Hstep; [by right|done|done]|done|done].
Qed.

Lemma processCommitGroup_records {H : Type} (P : gmap bytes bytes → Prop) o (k : KeyedDB H) group w :
  db_options k = o →
  (∀ rq st r, rq ∈ group → executeKeyed o st rq = ExPersist r → P (records st) → P (records (applyKeyed o st r))) →
  P (records (db_state k)) →
  db_options (processCommitGroup k group w).1.2 = o ∧ P (records (db_state (processCommitGroup k group w).1.2)).
Proof.
  intros Ho Hstep HP. unfold processCommitGroup.
  match goal with |- context [group_steps ?g group w] =>
    destruct (group_steps_records P o g group w Ho Hstep HP) as [H1 H2]; destruct (group_steps g group w) as [g' w1] end.
  cbn in H1, H2. destruct ((0 <? gs_frames g') && _);
    [destruct (syncKeyed _ _) as [[[]|e] w2]|destruct (gs_storageErr g')]; cbn; try done;
    by destruct (0 <? gs_frames g').
Qed.

(** ** The invariant of a catalog database *)

Record catalog_inv (db : Database) : Prop := {
  ci_records : int_positive (MaxRecords (db_options (keyed db)));
  ci_value : int_positive (MaxValueBytes (db_options (keyed db)));
  ci_wf : cat_wf (db_options (keyed db)) (catalog db);
  ci_fit : records_fit (catalog db) (records (db_state (keyed db))) }.

(** The operations that change a catalog database, in every outcome: new
    buckets, new datasets in a bucket of the catalog, and commit groups. *)
Inductive catalog_step (db : Database) : Database → Prop :=
| step_bucket windows ctx name w : catalog_step db (Bucket windows db ctx name w).1.2
| step_dataset windows bucket ctx name options w :
    is_Some (buckets (catalog db) !! bh_name bucket) → do_MaxRecords options < 2 ^ 63 →
    NextDatasetID (catalog db) < 2 ^ 64 - 1 →
    catalog_step db (DatasetOf windows db bucket ctx name options w).1.2
| step_group group w :
    Forall (catalog_mutating (d_ptr db) (catalog db)) group →
    catalog_step db (set_keyed (processCommitGroup (keyed db) group w).1.2 db).

Lemma Bucket_inv windows db ctx name w : catalog_inv db → catalog_inv (Bucket windows db ctx name w).1.2.
Proof.
  intros I. unfold Bucket. destruct (let! _ := _ in _) as [[]|e] eqn:E; [|done].
  destruct (buckets (catalog db) !! name) as [b|] eqn:Eb; [done|].
  change (set_buckets _ _) with (add_bucket (catalog db) name).
  destruct (persistCatalog _ _ _) as [[[]|e] w']; cbn; [|by destruct I].
  inv_ok. destruct I as [I1 I2 I3 I4]. split; cbn; try done.
  - apply add_bucket_wf; [done| |done]. by match goal with H : validCatalogName _ _ = Ok _ |- _ => rewrite H end.
  - eapply records_fit_more; [done|..]; intros d Hd; rewrite add_bucket_datasets in *; auto.
Qed.

Lemma DatasetOf_inv windows db bucket ctx name options w :
  is_Some (buckets (catalog db) !! bh_name bucket) → do_MaxRecords options < 2 ^ 63 →
  NextDatasetID (catalog db) < 2 ^ 64 - 1 →
  catalog_inv db → catalog_inv (DatasetOf windows db bucket ctx name options w).1.2.
Proof.
  intros Hb Hr Hn I. unfold DatasetOf. destruct (let! _ := _ in _) as [dopt|e] eqn:E; [|done].
  inv_ok. match goal with H : normalizeDatasetOptions _ _ = Ok _ |- _ =>
    destruct (normalized_options _ _ _ H (ci_records db I) (ci_value db I) Hr) as (N1&N2&N3&N4) end.
  destruct (datasets _ !! name) as [d|] eqn:Ed; [by destruct (_ || _)|].
  destruct (persistCatalog _ _ _) as [[[]|e] w']; cbn; [|by destruct I]. destruct I as [I1 I2 I3 I4].
  assert (dataset_at (catalog db) (bh_name bucket) name = None) as Hnone.
  { unfold dataset_at. destruct Hb as [b Hb]. rewrite Hb in *. exact Ed. }
  split; cbn; try done.
  - apply add_dataset_wf; try done. by match goal with H : validCatalogName _ _ = Ok _ |- _ => rewrite H end.
  - eapply records_fit_more; [done|..]; intros d Hd; rewrite add_dataset_datasets in *; auto.
    destruct Hd as [->|Hd]; [right|by left]. split; [cbn; unfold int_positive in N2; lia|].
    intros d0 (bn&n&Hat)%elem_of_all_datasets. pose proof (iw_id _ _ _ _ _ (cw_infos _ _ I3 _ _ _ Hat)). cbn. lia.
Qed.

Lemma catalog_step_inv db db' : catalog_inv db → catalog_step db db' → catalog_inv db'.
Proof.
  intros I [windows ctx name w|windows bucket ctx name options w H1 H2 H3|group w Hg];
    [by apply Bucket_inv|by apply DatasetOf_inv|].
  destruct I as [I1 I2 I3 I4].
  destruct (processCommitGroup_records (records_fit (catalog db)) (db_options (keyed db)) (keyed db) group w)
    as [Eo Hp]; [done| |done|split; cbn; rewrite ?Eo; done].
  intros rq st r Hrq Hex Hf. rewrite Forall_forall in Hg. 
  apply (committed_fit _ (d_ptr db) _ rq); [done|by apply Hg|done..].
Qed.

Lemma catalog_steps_inv db db' : catalog_inv db → rtc catalog_step db db' → catalog_inv db'.
Proof.
  intros I Hs. revert I. induction Hs as [x|x y z H1 H2 IH]; intros I; [done|].
  by apply IH, (catalog_step_inv x).
Qed.

(** C13: Whatever buckets and datasets are created and whatever commit groups
    run, in whatever order and with whatever I/O failures, the catalog stays
    well-formed (valid names, unique nonzero dataset identities below the next
    one, positive bounds), every record belongs to a dataset of the catalog and
    respects its value bound, and no dataset exceeds its record bound. *)
Theorem catalog_invariant db db' : catalog_inv db → rtc catalog_step db db' → catalog_inv db'.
Proof. apply catalog_steps_inv. Qed.

(** C14: What the operations leave can be opened again: if the identity of the
    database, the names of its buckets and datasets and the type identities are
    valid UTF-8, the catalog file that holds the current catalog passes every check
    of [OpenCatalog] against the current records, and decodes to the current
    catalog.  [validCatalogName] does not ask for UTF-8, and a catalog with another
    name does not read back ([name_not_text]). *)
Theorem catalog_reopens db db' :
  catalog_inv db → rtc catalog_step db db' → cat_utf8 (catalog db') →
  decode_catalog (db_state (keyed db')) (catalog_envelope (catalog db')) = Ok (catalog db').
Proof.
  intros I Hs U. destruct (catalog_steps_inv _ _ I Hs) as [_ _ W F]. by apply (decode_catalog_of (db_options (keyed db'))).
Qed.

(** ** The sample *)

Lemma sample_at bn n d : dataset_at sample_catalog bn n = Some d → bn = bs "app" ∧ n = bs "users" ∧ d = sample_info.
Proof.
  unfold dataset_at. change (buckets sample_catalog)
    with ({[bs "app" := {| Datasets := Some {[bs "users" := sample_info]} |}]} : gmap bytes catalogBucket).
  rewrite lookup_singleton. case_decide as E; [subst bn|done]. cbn [mbind option_bind].
  change (datasets _) with ({[bs "users" := sample_info]} : gmap bytes DatasetInfo). rewrite lookup_singleton. case_decide as E; [subst n|done]. by intros [= <-].
Qed.

Lemma sample_wf : cat_wf catalog_options sample_catalog.
Proof.
  split; try done.
  - intros n b. change (buckets sample_catalog)
      with ({[bs "app" := {| Datasets := Some {[bs "users" := sample_info]} |}]} : gmap bytes catalogBucket).
    rewrite lookup_singleton.
    case_decide as E; [subst n|done]. intros [= <-]. split; [by vm_compute|done].
  - intros bn n d (->&->&->)%sample_at. split; by vm_compute.
  - intros bn n d bn' n' d' (->&->&->)%sample_at (->&->&->)%sample_at. done.
Qed.

Lemma sample_inv : catalog_inv sample_database.
Proof.
  split; [by vm_compute|by vm_compute|apply sample_wf|]. split.
  - change (records (db_state (keyed sample_database))) with sample_records. intros k v Hk. exists sample_info.
    split; [by vm_compute; left|]. revert Hk. unfold sample_records. rewrite lookup_insert.
    case_decide as E; [subst k; intros [= <-]; by vm_compute|]. rewrite lookup_singleton.
    case_decide as E'; [subst k; intros [= <-]; by vm_compute|done].
  - intros d (bn&n&(->&->&->)%sample_at)%elem_of_all_datasets. by vm_compute.
Qed.

Definition sample_world : world :=
  {| w_dir := {[wal_name := 0%nat]}; w_hist := []; w_inodes := {[0%nat := empty_file]}; w_next := 1; w_pos := 0;
     w_faults := [] |}.
Definition sample_bucket : Database := (Bucket false sample_database CtxLive (bs "logs") sample_world).1.2.
Definition sample_dataset_step : Database :=
  (DatasetOf false sample_bucket {| bh_db := 7; bh_name := bs "logs" |} CtxLive (bs "events")
     DefaultDatasetOptions sample_world).1.2.
Definition sample_group : Database :=
  set_keyed (processCommitGroup (keyed sample_dataset_step)
    [catalog_request 7 (catalog sample_dataset_step) (bs "command-1") sample_put] sample_world).1.2 sample_dataset_step.

Lemma sample_steps : rtc catalog_step sample_database sample_group.
Proof.
  eapply rtc_l; [apply (step_bucket sample_database false CtxLive (bs "logs") sample_world)|].
  eapply rtc_l; [apply (step_dataset sample_bucket false {| bh_db := 7; bh_name := bs "logs" |} CtxLive (bs "events")
     DefaultDatasetOptions sample_world)|].
  { apply not_eq_None_Some. intros H. vm_compute in H. discriminate H. } { by vm_compute. } { by vm_compute. }
  eapply rtc_l; [apply (step_group sample_dataset_step
    [catalog_request 7 (catalog sample_dataset_step) (bs "command-1") sample_put] sample_world)|apply rtc_refl].
  constructor; [|constructor]. exists sample_put. split; [done|]. cbn. split; [|done].
  intros h [= <-] _. apply elem_of_all_datasets. exists (bs "app"), (bs "users"). by vm_compute.
Qed.

Example sample_group_committed :
  records (db_state (keyed sample_group)) !! backendRecordKey 1 (bs "eve") = Some (bs "3")
  ∧ di_ID <$> dataset_at (catalog sample_group) (bs "logs") (bs "events") = Some 2.
Proof. vm_compute. done. Qed.

Lemma catalog_invariant_witness : catalog_inv sample_group.
Proof. exact (catalog_invariant _ _ sample_inv sample_steps). Defined.

Lemma sample_utf8 : cat_utf8 sample_catalog.
Proof.
  split; [by vm_compute| |].
  - intros n b. change (buckets sample_catalog)
      with ({[bs "app" := {| Datasets := Some {[bs "users" := sample_info]} |}]} : gmap bytes catalogBucket).
    rewrite lookup_singleton. case_decide as E; [subst n; by vm_compute|done].
  - intros bn n d (->&->&->)%sample_at. by vm_compute.
Qed.

(** Two buckets whose names are no text are created, and the file that holds
    them reads back as a catalog with one bucket of a third name. *)
Definition raw_buckets : Database :=
  (Bucket false (Bucket false sample_database CtxLive [xff] sample_world).1.2 CtxLive [xfe] sample_world).1.2.

Example name_not_text :
  size (buckets (catalog raw_buckets)) = 3%nat
  ∧ match decode_catalog (db_state (keyed raw_buckets)) (catalog_envelope (catalog raw_buckets)) with
    | Ok c => map fst (map_to_list (buckets c)) = [bs "app"; utf8_coerce [xff]] ∨ map fst (map_to_list (buckets c)) = [utf8_coerce [xff]; bs "app"]
    | Err _ => False
    end.
Proof. split; [vm_compute; reflexivity|]. vm_compute. auto. Qed.

(** The commit group alone, with the catalog of the sample. *)
Definition sample_commit : Database :=
  set_keyed (processCommitGroup (keyed sample_database)
    [catalog_request 7 sample_catalog (bs "command-1") sample_put] sample_world).1.2 sample_database.

Lemma sample_commit_steps : rtc catalog_step sample_database sample_commit.
Proof.
  eapply rtc_l; [apply (step_group sample_database
    [catalog_request 7 sample_catalog (bs "command-1") sample_put] sample_world)|apply rtc_refl].
  constructor; [|constructor]. exists sample_put. split; [done|]. cbn. split; [|done].
  intros h [= <-] _. apply elem_of_all_datasets. exists (bs "app"), (bs "users"). by vm_compute.
Qed.

Lemma catalog_reopens_witness :
  decode_catalog (db_state (keyed sample_commit)) (catalog_envelope sample_catalog) = Ok sample_catalog.
Proof. exact (catalog_reopens _ _ sample_inv sample_commit_steps sample_utf8). Defined.
