(* ===== verification/CatalogDurability.v ===== *)
(** * Durability of the catalog file

    [persistCatalog] replaces the catalog file atomically: over the file model
    of [GoOS.v], with any I/O failures and a crash at any time, the file that is
    found is the old one or the new one, and the new one once the call has
    succeeded. *)

From Stdlib Require Import ZArith Lia Strings.Byte Strings.String Sorted.
From stdpp Require Import base decidable countable list gmap.
From S2P Require Import Prelude GoText GoBinary GoJson Errors GoOS Keyed KeyedStorage KeyedRecovery.
From S2P Require Import KeyedCommit KeyedDurability KeyedSystem KeyedScenario Catalog CatalogStorage Query.
From S2P Require Import CatalogTheorems CatalogRecovery.

Local Open Scope Z_scope.

(** The settled content a directory has for the catalog, if it has one. *)
Definition catalog_in (w : world) (d : gmap bytes nat) (found : option bytes) : Prop :=
  match d !! catalog_name with
  | None => found = None
  | Some i => ∃ c, w_inodes w !! i = Some {| stable := c; pending := [] |} ∧ found = Some c
  end.

(** In every directory state a crash can leave, the catalog is one of
    [allowed] and the temporary file is another file; the current temporary file
    is not the catalog of any of them. *)
Record cat_disk (allowed : list (option bytes)) (w : world) : Prop := {
  cd_dirs : ∀ d, d ∈ w_dir w :: w_hist w → ∃ found, found ∈ allowed ∧ catalog_in w d found;
  cd_next : ∀ i, is_Some (w_inodes w !! i) → (i < w_next w)%nat;
  cd_own : ∀ d i, d ∈ w_dir w :: w_hist w → d !! catalog_tmp = Some i →
    is_Some (w_inodes w !! i) ∧ d !! catalog_name ≠ Some i;
  cd_tmp : ∀ i, w_dir w !! catalog_tmp = Some i → ∀ d, d ∈ w_dir w :: w_hist w → d !! catalog_name ≠ Some i }.

(** Inode [i] is the temporary file and satisfies [F]. *)
Definition tmp_is (allowed : list (option bytes)) (i : nat) (F : file → Prop) (w : world) : Prop :=
  cat_disk allowed w ∧ w_dir w !! catalog_tmp = Some i ∧ F (inode i w).

Lemma cat_disk_steady allowed : steady (cat_disk allowed).
Proof. by intros w l [H1 H2 H3 H4]. Qed.

Lemma tmp_is_steady allowed i F : steady (tmp_is allowed i F).
Proof. intros w l (H1&H2&H3). split; [by apply cat_disk_steady|done]. Qed.

Lemma cat_disk_mono allowed allowed' w :
  (∀ f, f ∈ allowed → f ∈ allowed') → cat_disk allowed w → cat_disk allowed' w.
Proof.
  intros H [H1 H2 H3 H4]. split; [|done..]. intros d Hd. destruct (H1 d Hd) as (f&?&?). eauto.
Qed.

Lemma catalog_in_inode w d i f found :
  d !! catalog_name ≠ Some i → catalog_in w d found →
  catalog_in (with_inodes (<[i := f]> (w_inodes w)) w) d found.
Proof.
  unfold catalog_in. intros Hi. destruct (d !! catalog_name) as [j|]; [|done]. cbn.
  by rewrite lookup_insert_ne by congruence.
Qed.

Lemma tmp_is_update allowed i (F F' : file → Prop) g w :
  tmp_is allowed i F w → (∀ f, F f → F' (g f)) →
  tmp_is allowed i F' (with_inodes (<[i := g (inode i w)]> (w_inodes w)) w).
Proof.
  intros ([H1 H2 H3 H4]&Ht&HF) Hg. pose proof (H4 i Ht) as Hne. destruct (H3 _ i ltac:(left) Ht) as [Hs _].
  split; [split|split; [done|]].
  - intros d Hd. destruct (H1 d Hd) as (found&?&?). exists found. split; [done|].
    apply catalog_in_inode; [by apply Hne|done].
  - intros j. cbn. rewrite lookup_insert. case_decide; [subst; intros _; by apply H2|apply H2].
  - cbn. intros d j Hd Hj. destruct (H3 d j Hd Hj) as [Hsj Hnj]. split; [|done]. rewrite lookup_insert. case_decide; [eauto|done].
  - exact H4.
  - rewrite inode_insert. by apply Hg.
Qed.

Lemma catalog_names : catalog_tmp ≠ catalog_name.
Proof. done. Qed.
#[local] Hint Resolve catalog_names : go.

(** A change of the directory that leaves the catalog's entry as it is. *)
Lemma cat_disk_dir allowed w d' :
  d' !! catalog_name = w_dir w !! catalog_name →
  (d' !! catalog_tmp = w_dir w !! catalog_tmp ∨ d' !! catalog_tmp = None) →
  cat_disk allowed w → cat_disk allowed (with_dir d' w).
Proof.
  intros Hc Ht [H1 H2 H3 H4].
  assert (∀ d, d ∈ d' :: w_hist w ++ [w_dir w] → ∃ d0, d0 ∈ w_dir w :: w_hist w ∧ d0 !! catalog_name = d !! catalog_name) as Hd.
  { intros d. rewrite elem_of_cons, elem_of_app, list_elem_of_singleton.
    intros [->|[Hd| ->]]; [exists (w_dir w)|exists d|exists (w_dir w)]; split; try done; rewrite elem_of_cons; auto. }
  split; cbn [w_dir w_hist w_inodes w_next with_dir synced]; [|done|..].
  - intros d (d0&Hd0&E)%Hd. destruct (H1 d0 Hd0) as (found&?&Hin). exists found. split; [done|].
    unfold catalog_in in *. by rewrite <- E.
  - intros d i. rewrite elem_of_cons, elem_of_app, list_elem_of_singleton. intros [->|Hin] Hi.
    + destruct Ht as [Ht|Ht]; [|congruence]. rewrite Ht in Hi. rewrite Hc. apply H3; [left|done].
    + apply H3; [|done]. rewrite elem_of_cons. tauto.
  - intros i Hi. destruct Ht as [Ht|Ht]; [|congruence]. rewrite Ht in Hi.
    intros d (d0&Hd0&E)%Hd. rewrite <- E. by apply (H4 i).
Qed.

Lemma remove_catalog_tmp allowed E :
  (∀ w, cat_disk allowed w → E w) →
  hoare (cat_disk allowed) (remove catalog_tmp) (λ _, cat_disk allowed) E.
Proof.
  intros HE. apply hoare_call; [apply cat_disk_steady|done|]. intros w Hw.
  destruct (w_dir w !! catalog_tmp) eqn:Et; [|by apply HE].
  apply cat_disk_dir; [by rewrite lookup_delete_ne by auto with go|right; apply lookup_delete_eq|done].
Qed.

Lemma create_catalog_tmp allowed :
  hoare (cat_disk allowed) (create_trunc catalog_tmp)
    (λ i, tmp_is allowed i (λ f, content f = [])) (cat_disk allowed).
Proof.
  apply hoare_call; [apply cat_disk_steady|done|]. intros w Hw.
  destruct (w_dir w !! catalog_tmp) as [i|] eqn:Et.
  - apply tmp_is_update with (F := λ _, True); [done|]. intros f _. by rewrite content_modify.
  - cbn. destruct Hw as [H1 H2 H3 H4].
    assert (∀ d, d ∈ <[catalog_tmp := w_next w]> (w_dir w) :: w_hist w ++ [w_dir w] →
      ∃ d0, d0 ∈ w_dir w :: w_hist w ∧ d0 !! catalog_name = d !! catalog_name) as Hd.
    { intros d. rewrite elem_of_cons, elem_of_app, list_elem_of_singleton.
      intros [->|[Hd| ->]]; [exists (w_dir w)|exists d|exists (w_dir w)];
        rewrite ?lookup_insert_ne by auto with go; split; try done; rewrite elem_of_cons; auto. }
    assert (∀ d, d ∈ w_dir w :: w_hist w → d !! catalog_name ≠ Some (w_next w)) as Hfresh.
    { intros d (found&_&Hin)%H1 E. unfold catalog_in in Hin. rewrite E in Hin. destruct Hin as (c&Hc&_).
      pose proof (H2 (w_next w) ltac:(eauto)). lia. }
    split; [split|split; [apply lookup_insert_eq|]]; cbn [w_dir w_hist w_inodes w_next].
    + intros d (d0&Hd0&E)%Hd. destruct (H1 d0 Hd0) as (found&?&Hin). exists found. split; [done|].
      apply (catalog_in_inode w d0 (w_next w) empty_file) in Hin; [|by apply Hfresh].
      unfold catalog_in in *. by rewrite <- E.
    + intros j. rewrite lookup_insert. case_decide; [subst; lia|]. intros ?%H2. lia.
    + intros d j. rewrite elem_of_cons, elem_of_app, list_elem_of_singleton. intros [->|Hin] Hj.
      * rewrite lookup_insert_eq in Hj. injection Hj as <-. rewrite lookup_insert_eq. split; [eauto|].
        rewrite lookup_insert_ne by auto with go. apply Hfresh. left.
      * destruct (H3 d j) as [Hs Hn]; [rewrite elem_of_cons; tauto|done|]. split; [|done].
        rewrite lookup_insert. case_decide; [eauto|done].
    + intros j. rewrite lookup_insert_eq. intros [= <-].
      intros d (d0&Hd0&E)%Hd. rewrite <- E. by apply Hfresh.
    + unfold inode. cbn. by rewrite lookup_insert_eq.
Qed.

Lemma rename_catalog old new i :
  hoare (tmp_is [old] i (λ f, f = {| stable := new; pending := [] |})) (rename catalog_tmp catalog_name)
    (λ _ w, cat_disk [old; Some new] w ∧ catalog_in w (w_dir w) (Some new)) (cat_disk [old; Some new]).
Proof.
  apply hoare_call; [apply tmp_is_steady| |].
  { intros w [Hw _]. revert Hw. apply cat_disk_mono. intros f ->%list_elem_of_singleton. left. }
  intros w ([H1 H2 H3 H4]&Ht&Hi). rewrite Ht. destruct (H3 (w_dir w) i ltac:(left) Ht) as [[f Hf] _].
  set (d' := <[catalog_name := i]> (delete catalog_tmp (w_dir w))).
  assert (catalog_in (with_dir d' w) d' (Some new)) as Hnew.
  { unfold catalog_in, d'. rewrite lookup_insert_eq. exists new. split; [|done]. cbn.
    unfold inode in Hi. rewrite Hf in Hi |- *. cbn in Hi. by subst f. }
  split; [|done]. split; cbn [w_dir w_hist w_inodes w_next with_dir].
  - intros d. rewrite elem_of_cons, elem_of_app, list_elem_of_singleton. intros [->|Hd].
    + exists (Some new). split; [right; left|done].
    + destruct (H1 d) as (found&Hin&Hc); [rewrite elem_of_cons; tauto|]. exists found. split; [|done].
      apply list_elem_of_singleton in Hin as ->. left.
  - done.
  - intros d j. rewrite elem_of_cons, elem_of_app, list_elem_of_singleton. intros [->|Hd] Hj.
    + unfold d' in Hj. by rewrite lookup_insert_ne, lookup_delete_eq in Hj by auto with go.
    + apply H3; [|done]. rewrite elem_of_cons. tauto.
  - intros j. unfold d'. rewrite lookup_insert_ne, lookup_delete_eq by auto with go. done.
Qed.

Lemma persistCatalog_hoare old c :
  hoare (cat_disk [old]) (persistCatalog false c)
    (λ _, cat_disk [Some (catalog_envelope c)]) (cat_disk [old; Some (catalog_envelope c)]).
Proof.
  set (new := catalog_envelope c). set (E := cat_disk [old; Some new]).
  assert (∀ w, cat_disk [old] w → E w) as HE.
  { intros w. apply cat_disk_mono. intros f ->%list_elem_of_singleton. left. }
  assert (∀ w, cat_disk [Some new] w → E w) as HE'.
  { intros w. apply cat_disk_mono. intros f ->%list_elem_of_singleton. right. left. }
  unfold persistCatalog. eapply (hoare_bind _ _ _ (λ i, tmp_is [old] i (λ f, content f = []))).
  { eapply hoare_wrap, hoare_conseq; [apply (create_catalog_tmp [old])|done|by intros a w Hw|done]. }
  intros i. apply hoare_wrap. eapply (hoare_on_error _ _ _ _ E).
  2:{ apply hoare_ignore. eapply hoare_conseq; [by apply (remove_catalog_tmp [old; Some new] E)|..]; done. }
  eapply (hoare_bind _ _ _ (λ _, tmp_is [old] i (λ f, f = {| stable := new; pending := [] |}))).
  { eapply hoare_conseq; [apply (write_sync_close_hoare i (tmp_is [old] i))|..].
    - apply tmp_is_steady.
    - intros F F' HF w (?&?&?). split; [done|]. auto.
    - apply tmp_is_update.
    - done.
    - by intros a w Hw.
    - intros w [? _]. by apply HE. }
  intros []. eapply hoare_bind; [apply rename_catalog|]. intros [].
  apply syncDirectory_hoare; [|apply cat_disk_steady|by intros w [? _]|done|].
  - apply and_steady; [apply cat_disk_steady|]. by intros w l Hw.
  - intros w [[H1 H2 H3 H4] Hn]. split; cbn [w_dir w_hist w_inodes w_next with_dir synced]; [|done|..].
    + intros d [->|?%elem_of_nil]%elem_of_cons; [|done]. exists (Some new). split; [left|done].
    + intros d j [->|?%elem_of_nil]%elem_of_cons; [|done]. apply H3. left.
    + intros j Hj d [->|?%elem_of_nil]%elem_of_cons; [|done]. apply (H4 j Hj). left.
Qed.

(** What a crash leaves of a disk is one of the allowed catalogs. *)
Lemma cat_disk_crash allowed w w' :
  cat_disk allowed w → crash w w' → ∃ found, found ∈ allowed ∧ cat_disk [found] w' ∧ catalog_in w' (w_dir w') found.
Proof.
  intros [H1 H2 H3 H4] (Hdir&Hh&Hn&Hi).
  assert (w_dir w' ∈ w_dir w :: w_hist w) as Hd by (rewrite elem_of_cons; tauto).
  destruct (H1 _ Hd) as (found&Hin&Hc). exists found.
  assert (catalog_in w' (w_dir w') found) as Hc'.
  { unfold catalog_in in *. destruct (w_dir w' !! catalog_name) as [i|]; [|done]. destruct Hc as (c&Hc&->).
    specialize (Hi i). rewrite Hc in Hi. destruct Hi as (c'&Hs&Hc'). exists c.
    rewrite Hc'. split; [|done]. by apply survives_settled in Hs as ->. }
  split; [done|]. split; [|done]. split.
  - rewrite Hh. intros d [->|?%elem_of_nil]%elem_of_cons; [|done]. exists found. split; [left|done].
  - intros i Hs. rewrite Hn. apply H2. specialize (Hi i). destruct (w_inodes w !! i); [eauto|]. rewrite Hi in Hs.
    by destruct Hs.
  - rewrite Hh. intros d i [->|?%elem_of_nil]%elem_of_cons Ht; [|done]. destruct (H3 _ i Hd Ht) as [[f Hf] Hne].
    split; [|done]. specialize (Hi i). rewrite Hf in Hi. destruct Hi as (c&_&->). eauto.
  - rewrite Hh. intros i Ht d [->|?%elem_of_nil]%elem_of_cons; [|done]. by apply (H3 _ i Hd Ht).
Qed.

(** C15: Replacing the catalog is atomic and durable: with any I/O failures
    during the call and a power failure after it, the catalog file that is found
    is complete and is the previous one or the new one, it is the new one if the
    call reported success, and the disk is again fit for the next change. *)
Theorem catalog_persist_atomic old c w r w' w'' :
  cat_disk [old] w → persistCatalog false c w = (r, w') → crash w' w'' →
  ∃ found, cat_disk [found] w'' ∧ catalog_in w'' (w_dir w'') found
    ∧ (found = old ∨ found = Some (catalog_envelope c))
    ∧ (r = Ok tt → found = Some (catalog_envelope c)).
Proof.
  intros Hw Hp Hc. pose proof (persistCatalog_hoare old c w Hw) as H. rewrite Hp in H.
  destruct r as [[]|e]; destruct (cat_disk_crash _ _ _ H Hc) as (found&Hin&Hd&Hf); exists found.
  - apply list_elem_of_singleton in Hin as ->. auto.
  - split; [done|]. split; [done|]. split; [|done].
    apply elem_of_cons in Hin as [->|Hin]; [by left|]. apply list_elem_of_singleton in Hin as ->. by right.
Qed.

(** ** The first catalog of a directory *)

Definition blank_world : world :=
  {| w_dir := ∅; w_hist := []; w_inodes := ∅; w_next := 0; w_pos := 0; w_faults := [] |}.

Lemma blank_disk : cat_disk [None] blank_world.
Proof.
  split; cbn [blank_world w_dir w_hist w_inodes w_next].
  - intros d ->%list_elem_of_singleton. exists None. split; [left|]. unfold catalog_in. by rewrite lookup_empty.
  - intros i. rewrite lookup_empty. by intros [? ?].
  - intros d i ->%list_elem_of_singleton. by rewrite lookup_empty.
  - intros i. by rewrite lookup_empty.
Qed.

Lemma blank_persist :
  persistCatalog false sample_catalog blank_world = (Ok tt, (persistCatalog false sample_catalog blank_world).2).
Proof. vm_compute. reflexivity. Qed.

Lemma blank_settled : settled (persistCatalog false sample_catalog blank_world).2 = true.
Proof. vm_compute. reflexivity. Qed.

Lemma catalog_persist_atomic_witness :
  ∃ w'' found, crash (persistCatalog false sample_catalog blank_world).2 w''
    ∧ catalog_in w'' (w_dir w'') found ∧ found = Some (catalog_envelope sample_catalog).
Proof.
  pose proof (crash_settled _ blank_settled) as Hc.
  destruct (catalog_persist_atomic None sample_catalog blank_world _ _ _ blank_disk blank_persist Hc)
    as (found&_&Hin&_&Hok).
  eexists _, found. split; [exact Hc|]. split; [exact Hin|]. apply Hok. reflexivity.
Defined.

(** ** Datasets beyond the first 127 *)

(** A catalog with one bucket and [n] datasets, as [Bucket] and [n] calls of
    [Dataset] make it. *)
Definition dataset_name (n : nat) : bytes := bs "d" ++ dec (Z.of_nat n).
Fixpoint many_datasets (n : nat) (c : catalogState) : catalogState :=
  match n with
  | O => c
  | S n =>
      let c' := many_datasets n c in
      add_dataset c' (bs "app") (dataset_name (S n))
        {| do_Kind := KeyedJSON; do_TypeIdentity := []; do_MaxRecords := 10; do_MaxValueBytes := 64 |}
  end.
Definition with_bucket (c : catalogState) : catalogState :=
  set_buckets {[bs "app" := {| Datasets := Some ∅ |}]} c.

(** A new database with [n] datasets; a value is put under [key] in the last of
    them, the machine is restarted, and the database is opened again: the
    acknowledgement and what the opened database finds in that dataset. *)
Definition put_and_reopen (n : nat) (key : bytes)
    : list (option bytes) * res gerror (option (list (bytes * bytes))) :=
  match OpenCatalog false 7 (Ok (bs "0123456789abcdef")) CtxLive (bs "data") catalog_options blank_world with
  | (Ok db, w) =>
      let c := many_datasets n (with_bucket (catalog db)) in
      match dataset_at c (bs "app") (dataset_name n), persistCatalog false c w with
      | Some info, (Ok _, w1) =>
          let handle := {| dh_db := 7; dh_info := info |} in
          let put := MPut (Some handle) key (Some (bs "1")) (λ _, MReturn (Some (bs "true")) None) in
          let '(results, _, w2) := processCommitGroup (keyed db) [catalog_request 7 c (bs "command-1") put] w1 in
          (map (λ r, kd_Result <$> ack_of r) results,
           match OpenCatalog false 8 (Ok (bs "0123456789abcdef")) CtxLive (bs "data") catalog_options (power_cycle w2) with
           | (Ok db', _) =>
               Ok (Some (scan db' {| dh_db := 8; dh_info := info |} CtxLive (λ _, false) (collect 5) []).1)
           | (Err e, _) => Err e
           end)
      | _, _ => ([], Ok None)
      end
  | (Err e, _) => ([], Err e)
  end.

(** The records of the first datasets survive. *)
Example dataset_1_reopens : put_and_reopen 1 (bs "k") = ([Some (bs "true")], Ok (Some [(bs "k", bs "1")])).
Proof. vm_compute. reflexivity. Qed.

(** The 128th dataset makes a database unopenable: [backendRecordKey]
    puts the eight bytes of the dataset's identity into the key, the log stores
    keys as JSON strings, which replace the byte [0x80], and after a restart
    [OpenCatalog] refuses the acknowledged record as one of an unknown dataset. *)
Theorem dataset_128_unopenable :
  put_and_reopen 128 (bs "k")
  = ([Some (bs "true")], Err (cat_corrupt "record references an unknown dataset")).
Proof. vm_compute. reflexivity. Qed.
