(* ===== verification/CoreTypes.v ===== *)
(** * The account domain ([internal/core/types.go])

    Accounts, commands and the decision function of the bounded account engine.
    Go's [int] is 64 bits wide: sums and differences of balances wrap around. *)

From Stdlib Require Import ZArith Lia Strings.Byte Strings.String.
From stdpp Require Import base decidable list.
From S2P Require Import Prelude GoText Errors.

Local Open Scope Z_scope.
Local Open Scope go_scope.

Record Account := { ac_ID : Z; ac_Balance : Z; ac_Status : Z; ac_Version : Z }.

Definition StatusOpen : Z := 1.
Definition StatusFrozen : Z := 2.

Definition zeroAccount : Account := {| ac_ID := 0; ac_Balance := 0; ac_Status := 0; ac_Version := 0 |}.

(** A [CommandKind] is its tag, which can be any integer. *)
Definition Create : Z := 0.
Definition Deposit : Z := 1.
Definition Withdraw : Z := 2.
Definition Transfer : Z := 3.
Definition Freeze : Z := 4.
Definition Unfreeze : Z := 5.
Definition BeginTransfer : Z := 6.
Definition Confirm : Z := 7.
Definition Cancel : Z := 8.

Definition isKind (kind expected : Z) : bool := kind =? expected.

Record Command := { cm_ID : bytes; cm_Kind : Z; cm_Account : Z; cm_Other : Z; cm_Amount : Z }.

Record Result := {
  rt_Sequence : Z;
  rt_CommandID : bytes;
  rt_Accepted : bool;
  rt_ReasonTag : Z;
  rt_EffectTag : Z;
  rt_TransitionCount : Z;
  rt_Duplicate : bool }.

Definition zeroCoreResult : Result :=
  {| rt_Sequence := 0; rt_CommandID := []; rt_Accepted := false; rt_ReasonTag := 0; rt_EffectTag := 0;
     rt_TransitionCount := 0; rt_Duplicate := false |}.

Inductive DurabilityMode := MemoryOnly | BatchSync | SyncEach.

Record LedgerEntry := {
  le_Sequence : Z; le_CommandID : bytes; le_From : Z; le_To : Z; le_Amount : Z; le_EffectTag : Z }.

Record pendingTransfer := { pt_Active : bool; pt_Target : Z; pt_Amount : Z }.
Definition noTransfer : pendingTransfer := {| pt_Active := false; pt_Target := 0; pt_Amount := 0 |}.

Record decision := {
  d_accepted : bool; d_reason : Z; d_effect : Z; d_balanceA : Z; d_balanceB : Z; d_status : Z }.

#[export] Instance Account_eq_dec : EqDecision Account.
Proof. solve_decision. Defined.
#[export] Instance Command_eq_dec : EqDecision Command.
Proof. solve_decision. Defined.
#[export] Instance Result_eq_dec : EqDecision Result.
Proof. solve_decision. Defined.
#[export] Instance DurabilityMode_eq_dec : EqDecision DurabilityMode.
Proof. solve_decision. Defined.
#[export] Instance LedgerEntry_eq_dec : EqDecision LedgerEntry.
Proof. solve_decision. Defined.
#[export] Instance pendingTransfer_eq_dec : EqDecision pendingTransfer.
Proof. solve_decision. Defined.

Definition ValidateCommand (command : Command) : res gerror unit :=
  fail_if bool_decide (cm_ID command = []) || (cm_Account command =? 0)
    with ERuntime InvalidCommand (EMsg "command ID and account are required");
  fail_if (isKind (cm_Kind command) Transfer || isKind (cm_Kind command) BeginTransfer
           || isKind (cm_Kind command) Confirm)
          && ((cm_Other command =? 0) || (cm_Other command =? cm_Account command))
    with ERuntime InvalidCommand (EMsg "multi-account command requires a distinct destination");
  Ok tt.

(** The reasons. *)
Definition applied : Z := 0.
Definition awaiting : Z := 1.
Definition cancelled : Z := 2.
Definition invalidAmount : Z := 3.
Definition missing : Z := 4.
Definition exists_already : Z := 5.
Definition frozen : Z := 6.
Definition insufficient : Z := 7.
Definition invalidWorkflow : Z := 8.

Definition decideGo (c : Command) (a : Account) (aok : bool) (b : Account) (bok : bool)
    (pending : pendingTransfer) : decision :=
  let none reason :=
    {| d_accepted := false; d_reason := reason; d_effect := 0; d_balanceA := ac_Balance a;
       d_balanceB := ac_Balance b; d_status := ac_Status a |} in
  let accept reason effect balanceA balanceB status :=
    {| d_accepted := true; d_reason := reason; d_effect := effect; d_balanceA := balanceA;
       d_balanceB := balanceB; d_status := status |} in
  if isKind (cm_Kind c) Create then
    if aok then none exists_already
    else if cm_Amount c <? 0 then none invalidAmount
    else accept applied 1 (cm_Amount c) (ac_Balance b) StatusOpen
  else if isKind (cm_Kind c) Deposit then
    if cm_Amount c <=? 0 then none invalidAmount
    else if negb aok then none missing
    else accept applied 2 (i64 (ac_Balance a + cm_Amount c)) (ac_Balance b) (ac_Status a)
  else if isKind (cm_Kind c) Withdraw then
    if cm_Amount c <=? 0 then none invalidAmount
    else if negb aok then none missing
    else if ac_Status a =? StatusFrozen then none frozen
    else if ac_Balance a <? cm_Amount c then none insufficient
    else accept applied 2 (i64 (ac_Balance a - cm_Amount c)) (ac_Balance b) (ac_Status a)
  else if isKind (cm_Kind c) Transfer || isKind (cm_Kind c) Confirm then
    if isKind (cm_Kind c) Confirm
       && (negb (pt_Active pending) || negb (pt_Target pending =? cm_Other c)
           || negb (pt_Amount pending =? cm_Amount c))
    then none invalidWorkflow
    else if cm_Amount c <=? 0 then none invalidAmount
    else if negb aok || negb bok then none missing
    else if ac_Status a =? StatusFrozen then none frozen
    else if ac_Balance a <? cm_Amount c then none insufficient
    else accept applied 3 (i64 (ac_Balance a - cm_Amount c)) (i64 (ac_Balance b + cm_Amount c)) (ac_Status a)
  else if isKind (cm_Kind c) Freeze then
    if negb aok then none missing
    else accept applied 4 (ac_Balance a) (ac_Balance b) StatusFrozen
  else if isKind (cm_Kind c) Unfreeze then
    if negb aok then none missing
    else accept applied 4 (ac_Balance a) (ac_Balance b) StatusOpen
  else if isKind (cm_Kind c) BeginTransfer then
    if cm_Amount c <=? 0 then none invalidAmount
    else accept awaiting 0 (ac_Balance a) (ac_Balance b) (ac_Status a)
  else if isKind (cm_Kind c) Cancel then
    accept cancelled 0 (ac_Balance a) (ac_Balance b) (ac_Status a)
  else none invalidWorkflow.
