(* ===== verification/CoreEngine.v ===== *)
(** * The account engine in memory ([internal/core/core.go])

    The dense slots, the staging of a batch with marks and epochs, the
    application of decided records and the dedupe window.  The slices and the
    map of the Go struct are the fields of [engine]; an index into a slice is a
    slot.  Go panics on an index out of range; the invariant of
    [CoreRefinement.v] shows that every index here is in range. *)

From Stdlib Require Import ZArith Lia Strings.Byte Strings.String.
From stdpp Require Import base decidable countable list gmap.
From S2P Require Import Prelude GoText Errors CoreTypes.

Local Open Scope Z_scope.
Local Open Scope go_scope.

Record CoreConfig := {
  StorageDir : bytes;
  Durability : DurabilityMode;
  DedupeWindow : Z;
  MaxAccounts : Z;
  BatchMax : Z;
  AccountHint : Z;
  RecordHint : Z }.

Record agentState := { ag_Pending : pendingTransfer; ag_Turns : Z }.
Definition zeroAgent : agentState := {| ag_Pending := noTransfer; ag_Turns := 0 |}.

Record walRecord := {
  w_sequence : Z;
  w_commandID : bytes;
  w_kind : Z;
  w_a : Z;
  w_b : Z;
  w_amount : Z;
  w_accepted : bool;
  w_reason : Z;
  w_effect : Z;
  w_turns : Z;
  w_newBalanceA : Z;
  w_newBalanceB : Z;
  w_newStatus : Z;
  w_expectedA : Z;
  w_expectedB : Z;
  w_pendingActive : bool;
  w_pendingTarget : Z;
  w_pendingAmount : Z }.

#[export] Instance agentState_eq_dec : EqDecision agentState.
Proof. solve_decision. Defined.
#[export] Instance walRecord_eq_dec : EqDecision walRecord.
Proof. solve_decision. Defined.

(** The part of [Core] that lives in memory. *)
Record engine := {
  e_cfg : CoreConfig;
  e_ids : gmap Z nat;
  e_accounts : list Account;
  e_present : list bool;
  e_agents : list agentState;
  e_ledger : list LedgerEntry;
  e_scratch : list Account;
  e_marks : list Z;
  e_epoch : Z;
  e_results : gmap bytes Result;
  e_order : list bytes;
  e_orderHead : nat;
  e_sequence : Z }.

Definition with_slots ids accounts present agents scratch marks (e : engine) : engine :=
  {| e_cfg := e_cfg e; e_ids := ids; e_accounts := accounts; e_present := present; e_agents := agents;
     e_ledger := e_ledger e; e_scratch := scratch; e_marks := marks; e_epoch := e_epoch e;
     e_results := e_results e; e_order := e_order e; e_orderHead := e_orderHead e; e_sequence := e_sequence e |}.
Definition set_account (slot : nat) (a : Account) (e : engine) : engine :=
  with_slots (e_ids e) (<[slot := a]> (e_accounts e)) (e_present e) (e_agents e) (e_scratch e) (e_marks e) e.
Definition set_present (slot : nat) (p : bool) (e : engine) : engine :=
  with_slots (e_ids e) (e_accounts e) (<[slot := p]> (e_present e)) (e_agents e) (e_scratch e) (e_marks e) e.
Definition set_agent (slot : nat) (s : agentState) (e : engine) : engine :=
  with_slots (e_ids e) (e_accounts e) (e_present e) (<[slot := s]> (e_agents e)) (e_scratch e) (e_marks e) e.
(** [e.scratch[slot], e.marks[slot] = a, e.epoch]. *)
Definition set_scratch (slot : nat) (a : Account) (e : engine) : engine :=
  with_slots (e_ids e) (e_accounts e) (e_present e) (e_agents e) (<[slot := a]> (e_scratch e))
    (<[slot := e_epoch e]> (e_marks e)) e.
Definition set_epoch (marks : list Z) (epoch : Z) (e : engine) : engine :=
  {| e_cfg := e_cfg e; e_ids := e_ids e; e_accounts := e_accounts e; e_present := e_present e;
     e_agents := e_agents e; e_ledger := e_ledger e; e_scratch := e_scratch e; e_marks := marks;
     e_epoch := epoch; e_results := e_results e; e_order := e_order e; e_orderHead := e_orderHead e;
     e_sequence := e_sequence e |}.
Definition set_ledger (l : list LedgerEntry) (e : engine) : engine :=
  {| e_cfg := e_cfg e; e_ids := e_ids e; e_accounts := e_accounts e; e_present := e_present e;
     e_agents := e_agents e; e_ledger := l; e_scratch := e_scratch e; e_marks := e_marks e;
     e_epoch := e_epoch e; e_results := e_results e; e_order := e_order e; e_orderHead := e_orderHead e;
     e_sequence := e_sequence e |}.
Definition set_dedupe results order head (e : engine) : engine :=
  {| e_cfg := e_cfg e; e_ids := e_ids e; e_accounts := e_accounts e; e_present := e_present e;
     e_agents := e_agents e; e_ledger := e_ledger e; e_scratch := e_scratch e; e_marks := e_marks e;
     e_epoch := e_epoch e; e_results := results; e_order := order; e_orderHead := head;
     e_sequence := e_sequence e |}.
Definition set_sequence (s : Z) (e : engine) : engine :=
  {| e_cfg := e_cfg e; e_ids := e_ids e; e_accounts := e_accounts e; e_present := e_present e;
     e_agents := e_agents e; e_ledger := e_ledger e; e_scratch := e_scratch e; e_marks := e_marks e;
     e_epoch := e_epoch e; e_results := e_results e; e_order := e_order e; e_orderHead := e_orderHead e;
     e_sequence := s |}.

Definition new_engine (cfg : CoreConfig) : engine :=
  {| e_cfg := cfg; e_ids := ∅; e_accounts := []; e_present := []; e_agents := []; e_ledger := [];
     e_scratch := []; e_marks := []; e_epoch := 0; e_results := ∅; e_order := []; e_orderHead := 0;
     e_sequence := 0 |}.

(** Reading a slice at a slot. *)
Definition account_at (e : engine) (slot : nat) : Account := default zeroAccount (e_accounts e !! slot).
Definition present_at (e : engine) (slot : nat) : bool := default false (e_present e !! slot).
Definition agent_at (e : engine) (slot : nat) : agentState := default zeroAgent (e_agents e !! slot).
Definition scratch_at (e : engine) (slot : nat) : Account := default zeroAccount (e_scratch e !! slot).
Definition mark_at (e : engine) (slot : nat) : Z := default 0 (e_marks e !! slot).

(** ** Slots *)

Definition slot (id : Z) (create : bool) (e : engine) : (nat * bool) * engine :=
  match e_ids e !! id with
  | Some s => ((s, true), e)
  | None =>
      if negb create then ((0%nat, false), e)
      else
        let s := Z.to_nat (u32 (zlen (e_accounts e))) in
        ((s, true),
         with_slots (<[id := s]> (e_ids e))
           (e_accounts e ++ [{| ac_ID := id; ac_Balance := 0; ac_Status := 0; ac_Version := 0 |}])
           (e_present e ++ [false]) (e_agents e ++ [zeroAgent]) (e_scratch e ++ [zeroAccount])
           (e_marks e ++ [0]) e)
  end.

(** The slot of the second account, when the command has one. *)
Definition other_slot (id : Z) (e : engine) : nat * bool :=
  if id =? 0 then (0%nat, false) else (slot id false e).1.

Definition marked (e : engine) (s : nat) : bool := negb (e_epoch e =? 0) && (mark_at e s =? e_epoch e).

Definition accountFor (e : engine) (s : nat) (ok : bool) : Account :=
  if negb ok then zeroAccount
  else if marked e s then scratch_at e s
  else account_at e s.

(** ** Effects *)

Definition bump (balance : Z) (a : Account) : Account :=
  {| ac_ID := ac_ID a; ac_Balance := balance; ac_Status := ac_Status a; ac_Version := u64 (ac_Version a + 1) |}.
Definition restate (status : Z) (a : Account) : Account :=
  {| ac_ID := ac_ID a; ac_Balance := ac_Balance a; ac_Status := status; ac_Version := u64 (ac_Version a + 1) |}.
Definition created (r : walRecord) : Account :=
  {| ac_ID := w_a r; ac_Balance := w_newBalanceA r; ac_Status := StatusOpen; ac_Version := 1 |}.

Definition stageEffect (aSlot bSlot : nat) (r : walRecord) (e : engine) : engine :=
  if w_effect r =? 1 then set_scratch aSlot (created r) e
  else if w_effect r =? 2 then set_scratch aSlot (bump (w_newBalanceA r) (accountFor e aSlot true)) e
  else if w_effect r =? 3 then
    let a := bump (w_newBalanceA r) (accountFor e aSlot true) in
    let b := bump (w_newBalanceB r) (accountFor e bSlot true) in
    set_scratch bSlot b (set_scratch aSlot a e)
  else if w_effect r =? 4 then set_scratch aSlot (restate (w_newStatus r) (accountFor e aSlot true)) e
  else e.

Definition ledger_entry (r : walRecord) : LedgerEntry :=
  {| le_Sequence := w_sequence r; le_CommandID := w_commandID r; le_From := w_a r; le_To := w_b r;
     le_Amount := w_amount r; le_EffectTag := w_effect r |}.

Definition applyEffect (aSlot bSlot : nat) (r : walRecord) (e : engine) : engine :=
  let e :=
    if w_effect r =? 1 then set_present aSlot true (set_account aSlot (created r) e)
    else if w_effect r =? 2 then set_account aSlot (bump (w_newBalanceA r) (account_at e aSlot)) e
    else if w_effect r =? 3 then
      let a := bump (w_newBalanceA r) (account_at e aSlot) in
      let b := bump (w_newBalanceB r) (account_at e bSlot) in
      set_account bSlot b (set_account aSlot a e)
    else if w_effect r =? 4 then set_account aSlot (restate (w_newStatus r) (account_at e aSlot)) e
    else e in
  if (1 <=? w_effect r) && (w_effect r <=? 4) then set_ledger (e_ledger e ++ [ledger_entry r]) e else e.

(** ** The dedupe window *)

Definition remember (id : bytes) (result : Result) (e : engine) : engine :=
  let window := DedupeWindow (e_cfg e) in
  let results := <[id := result]> (e_results e) in
  let order := e_order e ++ [id] in
  let head := e_orderHead e in
  let '(results, head) :=
    if window <? zlen order - Z.of_nat head then
      (match order !! head with Some old => delete old results | None => results end, S head)
    else (results, head) in
  if (window <=? Z.of_nat head) && (zlen order <=? Z.of_nat head * 2) then set_dedupe results (drop head order) 0 e
  else set_dedupe results order head e.

Definition pending_of (r : walRecord) : pendingTransfer :=
  {| pt_Active := w_pendingActive r; pt_Target := w_pendingTarget r; pt_Amount := w_pendingAmount r |}.
Definition result_of (r : walRecord) : Result :=
  {| rt_Sequence := w_sequence r; rt_CommandID := w_commandID r; rt_Accepted := w_accepted r;
     rt_ReasonTag := w_reason r; rt_EffectTag := w_effect r; rt_TransitionCount := w_turns r;
     rt_Duplicate := false |}.

Definition applyDurable (r : walRecord) (e : engine) : engine :=
  let '((aSlot, _), e) := slot (w_a r) true e in
  let bSlot := (other_slot (w_b r) e).1 in
  let e := if w_accepted r then applyEffect aSlot bSlot r e else e in
  let e := set_agent aSlot {| ag_Pending := pending_of r; ag_Turns := w_turns r |} e in
  set_sequence (w_sequence r) (remember (w_commandID r) (result_of r) e).

Definition applyRecovered (e : engine) (r : walRecord) : res gerror engine :=
  fail_if match e_results e !! w_commandID r with
          | Some prior => negb (rt_Sequence prior =? w_sequence r)
          | None => false
          end
    with EMsg "core duplicate durable command ID";
  let '((aSlot, aok), e) := slot (w_a r) ((w_effect r =? 1) && w_accepted r) e in
  let '(bSlot, bok) := other_slot (w_b r) e in
  let a := accountFor e aSlot aok in
  let b := accountFor e bSlot bok in
  fail_if negb (ac_Version a =? w_expectedA r) || negb (ac_Version b =? w_expectedB r)
    with EMsg "core version mismatch";
  Ok (applyDurable r e).

(** ** Deciding a batch *)

(** [e.epoch] for a new batch. *)
Definition next_epoch (e : engine) : engine :=
  if e_epoch e =? 2 ^ 32 - 1 then set_epoch (map (fun _ => 0) (e_marks e)) 1 e
  else set_epoch (e_marks e) (u32 (e_epoch e + 1)) e.

(** The loop's state: the engine, the records, the results and the index of
    each new command. *)
Record batch := {
  b_engine : engine;
  b_records : list walRecord;
  b_results : list Result;
  b_ids : gmap bytes nat }.

Definition as_duplicate (r : Result) : Result :=
  {| rt_Sequence := rt_Sequence r; rt_CommandID := rt_CommandID r; rt_Accepted := rt_Accepted r;
     rt_ReasonTag := rt_ReasonTag r; rt_EffectTag := rt_EffectTag r;
     rt_TransitionCount := rt_TransitionCount r; rt_Duplicate := true |}.

Definition next_pending (c : Command) (d : decision) (pending : pendingTransfer) : pendingTransfer :=
  let next :=
    if isKind (cm_Kind c) BeginTransfer && d_accepted d
    then {| pt_Active := true; pt_Target := cm_Other c; pt_Amount := cm_Amount c |} else pending in
  if isKind (cm_Kind c) Confirm || isKind (cm_Kind c) Cancel then noTransfer else next.

Definition make_record (seq : Z) (c : Command) (d : decision) (a b : Account) (turns : Z)
    (next : pendingTransfer) : walRecord :=
  {| w_sequence := seq; w_commandID := cm_ID c; w_kind := cm_Kind c; w_a := cm_Account c; w_b := cm_Other c;
     w_amount := cm_Amount c; w_accepted := d_accepted d; w_reason := d_reason d; w_effect := d_effect d;
     w_turns := turns; w_newBalanceA := d_balanceA d; w_newBalanceB := d_balanceB d; w_newStatus := d_status d;
     w_expectedA := ac_Version a; w_expectedB := ac_Version b; w_pendingActive := pt_Active next;
     w_pendingTarget := pt_Target next; w_pendingAmount := pt_Amount next |}.

Definition batch_step (bt : batch) (c : Command) : batch :=
  let e := b_engine bt in
  let done res := {| b_engine := e; b_records := b_records bt; b_results := b_results bt ++ [res];
                     b_ids := b_ids bt |} in
  match e_results e !! cm_ID c with
  | Some prior => done (as_duplicate prior)
  | None =>
      match b_ids bt !! cm_ID c with
      | Some priorIndex => done (as_duplicate (default zeroCoreResult (b_results bt !! priorIndex)))
      | None =>
          let '((aSlot, aok), e) := slot (cm_Account c) (isKind (cm_Kind c) Create) e in
          let '(bSlot, bok) := other_slot (cm_Other c) e in
          let a := accountFor e aSlot aok in
          let b := accountFor e bSlot bok in
          let state := if aok then agent_at e aSlot else zeroAgent in
          let aExists := aok && (present_at e aSlot || marked e aSlot) in
          let bExists := bok && (present_at e bSlot || marked e bSlot) in
          let d := decideGo c a aExists b bExists (ag_Pending state) in
          let next := next_pending c d (ag_Pending state) in
          let seq := u64 (e_sequence e + zlen (b_records bt) + 1) in
          let turns := i64 (ag_Turns state + 1) in
          let record := make_record seq c d a b turns next in
          let e := if d_accepted d then stageEffect aSlot bSlot record e else e in
          let e := if aok then set_agent aSlot {| ag_Pending := next; ag_Turns := turns |} e else e in
          {| b_engine := e; b_records := b_records bt ++ [record]; b_results := b_results bt ++ [result_of record];
             b_ids := <[cm_ID c := length (b_results bt)]> (b_ids bt) |}
      end
  end.

Definition decide_batch (e : engine) (commands : list Command) : batch :=
  foldl batch_step {| b_engine := next_epoch e; b_records := []; b_results := []; b_ids := ∅ |} commands.

(** The accounts a batch may add. *)
Definition new_accounts (e : engine) (commands : list Command) : gset Z :=
  foldl (fun s c => if isKind (cm_Kind c) Create && negb (bool_decide (is_Some (e_ids e !! cm_Account c)))
                    then {[cm_Account c]} ∪ s else s) ∅ commands.

(** The checks before a batch is decided. *)
Definition validate_batch (e : engine) (commands : list Command) : res gerror unit :=
  fail_if BatchMax (e_cfg e) <? zlen commands with ERuntime CapacityExceeded (EMsg "batch exceeds maximum");
  let! _ := res_fold (fun _ c => ValidateCommand c) tt commands in
  fail_if MaxAccounts (e_cfg e) <? zlen (e_accounts e) + Z.of_nat (size (new_accounts e commands))
    with ERuntime CapacityExceeded (EMsg "account capacity exceeded");
  Ok tt.
