(* ===== verification/CoreWal.v ===== *)
(** * The write-ahead log of the account engine ([internal/core/core.go])

    The binary records, the frames of whole batches, the scan of a log that may
    end in a torn frame, and the operations on the log file. *)

From Stdlib Require Import ZArith Lia Strings.Byte Strings.String.
From stdpp Require Import base decidable countable list gmap.
From S2P Require Import Prelude GoText GoBinary Errors GoOS CoreTypes CoreEngine.

Local Open Scope Z_scope.
Local Open Scope go_scope.

Definition walFileVersion : Z := 1.
Definition walHeaderSize : nat := 24.
Definition maxWALFrameBytes : Z := 64 * 2 ^ 20.
Definition walFileMagic : bytes := bs "OCTWAL01".

(** ** Integers *)

Definition appendU32 (dst : bytes) (v : Z) : bytes := dst ++ put_u32 v.
Definition appendU64 (dst : bytes) (v : Z) : bytes := dst ++ put_u64 v.
(** [uint64(v)] of a signed integer keeps its bits. *)
Definition appendI64 (dst : bytes) (v : Z) : bytes := appendU64 dst (u64 v).

(** Reading at a position: the value and the next position. *)
Definition takeU32 (src : bytes) (pos : nat) : Z * nat := (get_u32 (take 4 (drop pos src)), (pos + 4)%nat).
Definition takeU64 (src : bytes) (pos : nat) : Z * nat := (get_u64 (take 8 (drop pos src)), (pos + 8)%nat).
Definition takeI64 (src : bytes) (pos : nat) : Z * nat :=
  let '(v, next) := takeU64 src pos in (i64 v, next).

Definition byte_at (src : bytes) (pos : nat) : Z := bval (default x00 (src !! pos)).
(** [len(src) - pos], with [pos] never beyond the end. *)
Definition left_at (src : bytes) (pos : nat) : Z := zlen src - Z.of_nat pos.

(** ** Records *)

Definition record_flags (r : walRecord) : Z :=
  Z.lor (if w_accepted r then 1 else 0) (if w_pendingActive r then 2 else 0).

Definition appendWALRecord (dst : bytes) (r : walRecord) : bytes :=
  let dst := appendU64 dst (w_sequence r) in
  let dst := appendU32 dst (u32 (zlen (w_commandID r))) in
  let dst := dst ++ w_commandID r in
  let dst := appendI64 dst (w_kind r) in
  let dst := appendU64 dst (w_a r) in
  let dst := appendU64 dst (w_b r) in
  let dst := appendI64 dst (w_amount r) in
  let dst := dst ++ [byte_of (record_flags r)] in
  let dst := foldl appendI64 dst
    [w_reason r; w_effect r; w_turns r; w_newBalanceA r; w_newBalanceB r; w_newStatus r] in
  let dst := appendU64 dst (w_expectedA r) in
  let dst := appendU64 dst (w_expectedB r) in
  let dst := appendU64 dst (w_pendingTarget r) in
  appendI64 dst (w_pendingAmount r).

Definition record_fixed : Z := 8 + 4 + 8 + 8 + 8 + 1 + 6 * 8 + 8 + 8 + 8 + 8.

Definition unexpectedEOF : gerror := EMsg "unexpected EOF".

(** The slice of the last field of a record ends behind the payload. *)
Definition sliceOutOfRange : gerror := EMsg "slice bounds out of range".

(** [fixed] counts three of the four integers after the identifier, so a record
    can pass both checks although its last field reaches up to eight bytes
    behind the payload.  [src[pos : pos+8]] is then out of range and Go panics,
    unless the capacity of the buffer happens to reach that far: it then reads
    the bytes it finds there, and [scanWAL] refuses the frame because the cursor
    is behind its end.  Either way the frame is not read; it is the error
    [sliceOutOfRange] here. *)
Definition parseWALRecord (src : bytes) (pos : nat) : res gerror (walRecord * nat) :=
  fail_if left_at src pos <? record_fixed with unexpectedEOF;
  let '(sequence, pos) := takeU64 src pos in
  let '(idLen, pos) := takeU32 src pos in
  fail_if (idLen =? 0) || (left_at src pos <? idLen) || (left_at src pos - idLen <? record_fixed - 12)
    with EMsg "invalid command ID length";
  fail_if left_at src pos - idLen <? record_fixed - 12 + 8 with sliceOutOfRange;
  let commandID := take (Z.to_nat idLen) (drop pos src) in
  let pos := (pos + Z.to_nat idLen)%nat in
  let '(kind, pos) := takeI64 src pos in
  let '(a, pos) := takeU64 src pos in
  let '(b, pos) := takeU64 src pos in
  let '(amount, pos) := takeI64 src pos in
  let flags := byte_at src pos in
  let pos := S pos in
  let '(reason, pos) := takeI64 src pos in
  let '(effect, pos) := takeI64 src pos in
  let '(turns, pos) := takeI64 src pos in
  let '(newBalanceA, pos) := takeI64 src pos in
  let '(newBalanceB, pos) := takeI64 src pos in
  let '(newStatus, pos) := takeI64 src pos in
  let '(expectedA, pos) := takeU64 src pos in
  let '(expectedB, pos) := takeU64 src pos in
  let '(target, pos) := takeU64 src pos in
  let '(amount64, pos) := takeI64 src pos in
  Ok ({| w_sequence := sequence; w_commandID := commandID; w_kind := kind; w_a := a; w_b := b;
         w_amount := amount; w_accepted := negb (Z.land flags 1 =? 0); w_reason := reason;
         w_effect := effect; w_turns := turns; w_newBalanceA := newBalanceA; w_newBalanceB := newBalanceB;
         w_newStatus := newStatus; w_expectedA := expectedA; w_expectedB := expectedB;
         w_pendingActive := negb (Z.land flags 2 =? 0); w_pendingTarget := target;
         w_pendingAmount := amount64 |}, pos).

(** ** Frames *)

Definition batch_payload (records : list walRecord) : bytes :=
  foldl appendWALRecord (put_u32 (u32 (zlen records))) records.
Definition batch_frame (records : list walRecord) : bytes :=
  let payload := batch_payload records in
  put_u32 (u32 (zlen payload)) ++ payload ++ put_u32 (crc32 payload).

Definition wal_header : bytes :=
  let h := walFileMagic ++ put_u32 walFileVersion ++ bs "SAFEGO01" in h ++ put_u32 (crc32 h).

(** The records of one frame that are after the snapshot, [count] of them. *)
Fixpoint frame_records (count : nat) (payload : bytes) (cursor : nat) (after : Z) (acc : list walRecord)
    : res gerror (list walRecord * nat) :=
  match count with
  | O => Ok (acc, cursor)
  | S count =>
      match parseWALRecord payload cursor with
      | Err e => Err (EWrap "core WAL record" e)
      | Ok (r, next) =>
          frame_records count payload next after (if after <? w_sequence r then acc ++ [r] else acc)
      end
  end.

(** The loop of [scanWAL] at [pos]; a frame takes at least eight bytes, so the
    length of the data is enough fuel. *)
Fixpoint scan_frames (fuel : nat) (data : bytes) (pos : nat) (after : Z) (records : list walRecord)
    : res gerror (list walRecord * nat) :=
  match fuel with
  | O => Err (EMsg "fuel")
  | S fuel =>
      if left_at data pos <=? 0 then Ok (records, pos)
      else if left_at data pos <? 4 then Ok (records, pos)
      else
        let '(length, body) := takeU32 data pos in
        fail_if (length <? 4) || (maxWALFrameBytes <? length) with EMsg "invalid core WAL frame length";
        if left_at data body <? length + 4 then Ok (records, pos)
        else
          let payload := take (Z.to_nat length) (drop body data) in
          let '(want, next) := takeU32 data (body + Z.to_nat length)%nat in
          fail_if negb (crc32 payload =? want) with EMsg "core WAL checksum failure";
          let count := get_u32 (take 4 payload) in
          let! (records, cursor) := frame_records (Z.to_nat count) payload 4 after records in
          fail_if negb (Nat.eqb cursor (List.length payload)) with EMsg "core WAL trailing bytes";
          scan_frames fuel data next after records
  end.

(** [scanWAL] on the content of the file: the records and the valid length. *)
Definition scanWAL (data : bytes) (after : Z) : res gerror (list walRecord * nat) :=
  fail_if (12 <=? zlen data) && bool_decide (take 8 data = walFileMagic)
          && negb (get_u32 (take 4 (drop 8 data)) =? walFileVersion)
    with ERuntime RecoveryIncompatible (EMsg "WAL format version");
  fail_if (zlen data <? Z.of_nat walHeaderSize) || negb (bool_decide (take 8 data = walFileMagic))
          || negb (get_u32 (take 4 (drop 20 data)) =? crc32 (take 20 data))
    with EMsg "invalid WAL header or format version";
  scan_frames (S (length data)) data walHeaderSize after [].

(** ** The log file *)

Record StorageStats := {
  WALBytesWritten : Z; SnapshotBytesWritten : Z; Syncs : Z; Committed : Z }.
Definition zero_storage : StorageStats :=
  {| WALBytesWritten := 0; SnapshotBytesWritten := 0; Syncs := 0; Committed := 0 |}.

Record walFile := { wf_file : option nat; wf_mode : DurabilityMode; wf_stats : StorageStats }.

Definition count_wal (n : Z) (w : walFile) : walFile :=
  {| wf_file := wf_file w; wf_mode := wf_mode w;
     wf_stats := {| WALBytesWritten := u64 (WALBytesWritten (wf_stats w) + n);
                    SnapshotBytesWritten := SnapshotBytesWritten (wf_stats w);
                    Syncs := Syncs (wf_stats w); Committed := Committed (wf_stats w) |} |}.
Definition count_commit (syncs n : Z) (w : walFile) : walFile :=
  {| wf_file := wf_file w; wf_mode := wf_mode w;
     wf_stats := {| WALBytesWritten := WALBytesWritten (wf_stats w);
                    SnapshotBytesWritten := SnapshotBytesWritten (wf_stats w);
                    Syncs := u64 (Syncs (wf_stats w) + syncs);
                    Committed := u64 (Committed (wf_stats w) + n) |} |}.

(** [File.Write] at the handle's offset: it reports an error unless the whole
    buffer was written. *)
Definition write_here (i : nat) (d : bytes) : io unit := fun w =>
  match write_file i (w_pos w) d w with
  | (Ok (n, err), w') =>
      let w'' := with_pos (w_pos w + n)%nat w' in
      match err with
      | Some e => (Err e, w'')
      | None => if bool_decide (n = length d) then (Ok tt, w'') else (Err (EOS "short write"), w'')
      end
  | (Err e, w') => (Err e, w')
  end.

(** [WriteAt] leaves the offset of the handle. *)
Definition writeHeader (i : nat) : io unit := write_all i 0 wal_header.

Definition appendBatch (w : walFile) (records : list walRecord) : io walFile :=
  if bool_decide (wf_mode w = MemoryOnly) then mret (count_commit 0 (zlen records) w)
  else if maxWALFrameBytes <? zlen (batch_payload records)
  then io_err (EMsg "WAL batch exceeds bounded frame size")
  else match wf_file w with
       | None => io_err (EOS "closed")
       | Some i =>
           _ ← write_here i (batch_frame records);
           _ ← sync_file i;
           mret (count_commit 1 (zlen records) (count_wal (zlen (batch_frame records)) w))
       end.

Definition wal_oct : bytes := bs "wal.oct".

(** The header of a new log, the scan and the truncation of [openWAL]. *)
Definition openWAL (dir : bytes) (mode : DurabilityMode) (after : Z) : io (walFile * list walRecord * Z) :=
  if bool_decide (mode = MemoryOnly)
  then mret ({| wf_file := None; wf_mode := mode; wf_stats := zero_storage |}, [], 0)
  else if bool_decide (dir = []) then io_err (EMsg "durable mode requires a storage directory")
  else
    i ← open_rw wal_oct;
    let w := {| wf_file := Some i; wf_mode := mode; wf_stats := zero_storage |} in
    size ← on_error (ignore close_file) (call "stat" (fun w => (Ok (length (content (inode i w))), w)));
    w ← (if Nat.eqb size 0
         then _ ← on_error (ignore close_file) (writeHeader i); mret (count_wal (zlen wal_header) w)
         else mret w);
    data ← on_error (ignore close_file) (call "read" (fun w => (Ok (content (inode i w)), w)));
    '(records, valid) ← on_error (ignore close_file) (io_res (scanWAL data after));
    _ ← on_error (ignore close_file) (truncate i valid);
    _ ← on_error (ignore close_file) (seek_end i);
    mret (w, records, zlen data).

Definition wal_close_file (w : walFile) : io unit :=
  match wf_file w with None => mret tt | Some _ => close_file end.
