(* ===== verification/CoreSnapshot.v ===== *)
(** * The snapshot of the account engine ([internal/core/core.go])

    The deterministic binary form of an engine and its decoding. *)

From Stdlib Require Import ZArith Lia Strings.Byte Strings.String.
From stdpp Require Import base decidable countable list gmap.
From S2P Require Import Prelude GoText GoBinary Errors CoreTypes CoreEngine CoreWal.

Local Open Scope Z_scope.
Local Open Scope go_scope.

Definition snapshotVersion : Z := 1.
Definition snapshotHeaderSize : nat := 52.
Definition snapshotMagic : bytes := bs "OCTSNP01".

(** ** Encoding *)

Definition appendAccount (e : engine) (b : bytes) (i : nat) (a : Account) : bytes :=
  let b := appendU64 b (ac_ID a) in
  let b := appendI64 b (ac_Balance a) in
  let b := appendI64 b (ac_Status a) in
  let b := appendU64 b (ac_Version a) in
  let flags := Z.lor (if present_at e i then 1 else 0) (if pt_Active (ag_Pending (agent_at e i)) then 2 else 0) in
  let b := b ++ [byte_of flags] in
  let b := appendU64 b (pt_Target (ag_Pending (agent_at e i))) in
  let b := appendI64 b (pt_Amount (ag_Pending (agent_at e i))) in
  appendI64 b (ag_Turns (agent_at e i)).

Definition appendLedger (b : bytes) (entry : LedgerEntry) : bytes :=
  let b := appendU64 b (le_Sequence entry) in
  let b := appendU32 b (u32 (zlen (le_CommandID entry))) in
  let b := b ++ le_CommandID entry in
  let b := appendU64 b (le_From entry) in
  let b := appendU64 b (le_To entry) in
  let b := appendI64 b (le_Amount entry) in
  appendI64 b (le_EffectTag entry).

Definition appendResult (e : engine) (b : bytes) (id : bytes) : bytes :=
  let r := default zeroCoreResult (e_results e !! id) in
  let b := appendU32 b (u32 (zlen id)) in
  let b := b ++ id in
  let b := appendU64 b (rt_Sequence r) in
  let b := b ++ [byte_of (if rt_Accepted r then 1 else 0)] in
  let b := appendI64 b (rt_ReasonTag r) in
  let b := appendI64 b (rt_EffectTag r) in
  appendI64 b (rt_TransitionCount r).

(** The loop over the accounts with their slots. *)
Fixpoint appendAccounts (e : engine) (b : bytes) (i : nat) (l : list Account) : bytes :=
  match l with
  | [] => b
  | a :: l => appendAccounts e (appendAccount e b i a) (S i) l
  end.

Definition active_order (e : engine) : list bytes := drop (e_orderHead e) (e_order e).

(** The payload, after the header. *)
Definition snapshot_payload (e : engine) : bytes :=
  let b := appendU64 [] (e_sequence e) in
  let b := appendU32 b (u32 (zlen (e_accounts e))) in
  let b := appendAccounts e b 0 (e_accounts e) in
  let b := appendU64 b (u64 (zlen (e_ledger e))) in
  let b := foldl appendLedger b (e_ledger e) in
  let active := active_order e in
  let b := appendU32 b (u32 (DedupeWindow (e_cfg e))) in
  let b := appendU32 b (u32 (zlen active)) in
  foldl (appendResult e) b active.

Definition encodeSnapshot (e : engine) : bytes :=
  let payload := snapshot_payload e in
  snapshotMagic ++ put_u32 snapshotVersion ++ put_u64 (u64 (zlen payload)) ++ sha256 payload ++ payload.

(** ** Decoding *)

Definition parse_account (data : bytes) (pos : nat) (e : engine) : res gerror (engine * nat) :=
  fail_if left_at data pos <? 57 with unexpectedEOF;
  let '(id, pos) := takeU64 data pos in
  let '(balance, pos) := takeI64 data pos in
  let '(status, pos) := takeI64 data pos in
  let '(version, pos) := takeU64 data pos in
  let flags := byte_at data pos in
  let pos := S pos in
  let '(target, pos) := takeU64 data pos in
  let '(amount, pos) := takeI64 data pos in
  let '(turns, pos) := takeI64 data pos in
  let '((s, _), e) := slot id true e in
  let e := set_account s {| ac_ID := id; ac_Balance := balance; ac_Status := status; ac_Version := version |} e in
  let e := set_present s (negb (Z.land flags 1 =? 0)) e in
  let e := set_agent s
    {| ag_Pending := {| pt_Active := negb (Z.land flags 2 =? 0); pt_Target := target; pt_Amount := amount |};
       ag_Turns := turns |} e in
  Ok (e, pos).

Fixpoint parse_accounts (count : nat) (data : bytes) (pos : nat) (e : engine) : res gerror (engine * nat) :=
  match count with
  | O => Ok (e, pos)
  | S count => let! (e, pos) := parse_account data pos e in parse_accounts count data pos e
  end.

(** One ledger entry after the sequence [prior]. *)
Definition parse_ledger (data : bytes) (pos : nat) (limit prior : Z) : res gerror (LedgerEntry * nat) :=
  fail_if left_at data pos <? 12 with unexpectedEOF;
  let '(sequence, pos) := takeU64 data pos in
  let '(idLen, pos) := takeU32 data pos in
  fail_if (idLen =? 0) || (left_at data pos <? idLen) || (left_at data pos - idLen <? 32) with unexpectedEOF;
  let id := take (Z.to_nat idLen) (drop pos data) in
  let pos := (pos + Z.to_nat idLen)%nat in
  let '(from, pos) := takeU64 data pos in
  let '(to, pos) := takeU64 data pos in
  let '(amount, pos) := takeI64 data pos in
  let '(effect, pos) := takeI64 data pos in
  fail_if (sequence <=? prior) || (limit <? sequence) || bool_decide (id = [])
    with EMsg "invalid core snapshot ledger order or identity";
  Ok ({| le_Sequence := sequence; le_CommandID := id; le_From := from; le_To := to; le_Amount := amount;
         le_EffectTag := effect |}, pos).

Fixpoint parse_ledgers (count : nat) (data : bytes) (pos : nat) (limit prior : Z) (acc : list LedgerEntry)
    : res gerror (list LedgerEntry * nat) :=
  match count with
  | O => Ok (acc, pos)
  | S count =>
      let! (entry, pos) := parse_ledger data pos limit prior in
      parse_ledgers count data pos limit (le_Sequence entry) (acc ++ [entry])
  end.

Definition parse_result (data : bytes) (pos : nat) (limit prior : Z) (seen : gset bytes)
    : res gerror (Result * nat) :=
  fail_if left_at data pos <? 4 with unexpectedEOF;
  let '(idLen, pos) := takeU32 data pos in
  fail_if (idLen =? 0) || (left_at data pos <? idLen) || (left_at data pos - idLen <? 33) with unexpectedEOF;
  let id := take (Z.to_nat idLen) (drop pos data) in
  let pos := (pos + Z.to_nat idLen)%nat in
  let '(seq, pos) := takeU64 data pos in
  let accepted := negb (byte_at data pos =? 0) in
  let pos := S pos in
  let '(reason, pos) := takeI64 data pos in
  let '(effect, pos) := takeI64 data pos in
  let '(turns, pos) := takeI64 data pos in
  fail_if bool_decide (id ∈ seen) || (seq <=? prior) || (limit <? seq)
    with EMsg "invalid core snapshot dedupe order or identity";
  Ok ({| rt_Sequence := seq; rt_CommandID := id; rt_Accepted := accepted; rt_ReasonTag := reason;
         rt_EffectTag := effect; rt_TransitionCount := turns; rt_Duplicate := false |}, pos).

Fixpoint parse_results (count : nat) (data : bytes) (pos : nat) (limit prior : Z) (seen : gset bytes)
    (e : engine) : res gerror (engine * nat) :=
  match count with
  | O => Ok (e, pos)
  | S count =>
      let! (r, pos) := parse_result data pos limit prior seen in
      parse_results count data pos limit (rt_Sequence r) ({[rt_CommandID r]} ∪ seen)
        (remember (rt_CommandID r) r e)
  end.

(** The retained results at [pos], up to the end of the file. *)
Definition load_results (data : bytes) (pos : nat) (e : engine) : res gerror engine :=
  fail_if left_at data pos <? 8 with unexpectedEOF;
  let '(horizon, pos) := takeU32 data pos in
  let '(resultCount, pos) := takeU32 data pos in
  fail_if negb (horizon =? DedupeWindow (e_cfg e)) || (DedupeWindow (e_cfg e) <? resultCount)
    with ERuntime RecoveryIncompatible (EMsg "snapshot dedupe horizon differs from configured DedupeHorizon");
  let! (e, pos) := parse_results (Z.to_nat resultCount) data pos (e_sequence e) 0 ∅ e in
  fail_if negb (Nat.eqb pos (length data)) with EMsg "core snapshot trailing bytes";
  Ok e.

(** The ledger at [pos], and the results. *)
Definition load_ledger (data : bytes) (pos : nat) (e : engine) : res gerror engine :=
  fail_if left_at data pos <? 8 with unexpectedEOF;
  let '(ledgerCount, pos) := takeU64 data pos in
  fail_if zlen data / 44 <? ledgerCount with EMsg "invalid core snapshot ledger count";
  let! (ledger, pos) := parse_ledgers (Z.to_nat ledgerCount) data pos (e_sequence e) 0 [] in
  load_results data pos (set_ledger ledger e).

(** [loadSnapshot] on the content of the file. *)
Definition load_snapshot (data : bytes) (e : engine) : res gerror engine :=
  let digest := sha256 (drop snapshotHeaderSize data) in
  fail_if (12 <=? zlen data) && bool_decide (take 8 data = snapshotMagic)
          && negb (get_u32 (take 4 (drop 8 data)) =? snapshotVersion)
    with ERuntime RecoveryIncompatible (EMsg "snapshot format version");
  fail_if (zlen data <? Z.of_nat snapshotHeaderSize) || negb (bool_decide (take 8 data = snapshotMagic))
          || negb (i64 (get_u64 (take 8 (drop 12 data))) =? zlen data - Z.of_nat snapshotHeaderSize)
          || negb (bool_decide (take 32 (drop 20 data) = digest))
    with EMsg "invalid snapshot or format version";
  let pos := snapshotHeaderSize in
  fail_if left_at data pos <? 12 with unexpectedEOF;
  let '(sequence, pos) := takeU64 data pos in
  let e := set_sequence sequence e in
  let '(count32, pos) := takeU32 data pos in
  let! (e, pos) := parse_accounts (Z.to_nat count32) data pos e in
  load_ledger data pos e.
