(* ===== verification/Core.v ===== *)
(** * The account engine with its storage ([internal/core/core.go])

    Opening, submitting batches, snapshots, reading and closing, over the file
    model of [GoOS.v].  The mutex makes every operation atomic.  Durations are
    not modelled. *)

From Stdlib Require Import ZArith Lia Strings.Byte Strings.String.
From stdpp Require Import base decidable countable list gmap.
From S2P Require Import Prelude GoText GoBinary Errors GoOS KeyedStorage CoreTypes CoreEngine CoreWal CoreSnapshot.

Local Open Scope Z_scope.
Local Open Scope go_scope.

Record RecoveryStats := {
  SnapshotSequence : Z; SnapshotBytes : Z; WALBytesScanned : Z; RecordsReplayed : Z }.

Record Core := {
  c_engine : engine;
  c_wal : walFile;
  c_closed : bool;
  c_poisoned : option gerror;
  c_recovery : RecoveryStats }.

Definition set_engine (e : engine) (c : Core) : Core :=
  {| c_engine := e; c_wal := c_wal c; c_closed := c_closed c; c_poisoned := c_poisoned c;
     c_recovery := c_recovery c |}.
Definition set_walfile (w : walFile) (c : Core) : Core :=
  {| c_engine := c_engine c; c_wal := w; c_closed := c_closed c; c_poisoned := c_poisoned c;
     c_recovery := c_recovery c |}.
Definition set_poison (e : gerror) (c : Core) : Core :=
  {| c_engine := c_engine c; c_wal := c_wal c; c_closed := c_closed c; c_poisoned := Some e;
     c_recovery := c_recovery c |}.

(** ** Opening *)

Definition normalize_config (cfg : CoreConfig) : res gerror CoreConfig :=
  let window := if DedupeWindow cfg <=? 0 then 100000 else DedupeWindow cfg in
  let accounts := if CoreEngine.MaxAccounts cfg <=? 0 then 100000 else CoreEngine.MaxAccounts cfg in
  let batchMax := if BatchMax cfg <=? 0 then 512 else BatchMax cfg in
  fail_if (AccountHint cfg <? 0) || (RecordHint cfg <? 0) with EMsg "negative core capacity hint";
  let hint := if accounts <? AccountHint cfg then accounts else AccountHint cfg in
  let records := if RecordHint cfg =? 0 then hint else RecordHint cfg in
  fail_if bool_decide (Durability cfg = SyncEach)
    with EMsg "core supports MemoryOnly or one durable Sync per offered batch";
  Ok {| StorageDir := StorageDir cfg; Durability := Durability cfg; DedupeWindow := window;
        CoreEngine.MaxAccounts := accounts; BatchMax := batchMax; AccountHint := hint; RecordHint := records |}.

Definition classifyRecoveryError (err : gerror) : gerror :=
  match as_runtime err with
  | Some _ => err
  | None => if as_path err then err else ERuntime RecoveryCorrupt err
  end.

(** A call whose error is classified. *)
Definition classified {A} (m : io A) : io A := fun w =>
  match m w with
  | (Err e, w') => (Err (classifyRecoveryError e), w')
  | r => r
  end.

Definition snapshot_oct : bytes := bs "snapshot.oct".
Definition snapshot_oct_tmp : bytes := bs "snapshot.oct.tmp".

Definition loadSnapshot (e : engine) : io (engine * Z * Z) :=
  data ← attempt (read_file snapshot_oct);
  match data with
  | Err ENotExist => mret (e, 0, 0)
  | Err err => io_err err
  | Ok data => e' ← io_res (load_snapshot data e); mret (e', e_sequence e', zlen data)
  end.

(** The loop over the records of the log. *)
Definition replay_one (e : engine) (r : walRecord) : res gerror engine :=
  fail_if negb (w_sequence r =? u64 (e_sequence e + 1)) with ERuntime RecoveryCorrupt (EMsg "non-monotonic sequence");
  match applyRecovered e r with
  | Err err => Err (classifyRecoveryError err)
  | Ok e' => Ok e'
  end.

Definition OpenCore (cfg : CoreConfig) : io Core :=
  cfg ← io_res (normalize_config cfg);
  let e := new_engine cfg in
  '(e, snapSequence, snapBytes) ←
    (if bool_decide (StorageDir cfg = []) then mret (e, 0, 0)
     else _ ← mkdir_all; classified (loadSnapshot e));
  '(w, records, scanned) ← classified (openWAL (StorageDir cfg) (Durability cfg) (e_sequence e));
  e ← on_error (ignore (wal_close_file w)) (io_res (res_fold replay_one e records));
  _ ← on_error (ignore (wal_close_file w))
        (io_res (guard_err (CoreEngine.MaxAccounts cfg <? zlen (e_accounts e))
           (ERuntime RecoveryIncompatible (EMsg "database exceeds the configured number of accounts"))));
  mret {| c_engine := e; c_wal := w; c_closed := false; c_poisoned := None;
          c_recovery := {| SnapshotSequence := snapSequence; SnapshotBytes := snapBytes;
                           WALBytesScanned := scanned; RecordsReplayed := zlen records |} |}.

(** ** Submitting *)

Definition SubmitBatch (c : Core) (commands : list Command) (w : world) : res gerror (list Result) * Core * world :=
  if c_closed c then (Err (ERuntime EngineClosed (EMsg "engine closed")), c, w)
  else
  match c_poisoned c with
  | Some e => (Err (ERuntime EnginePoisoned e), c, w)
  | None =>
      match commands with
      | [] => (Ok [], c, w)
      | _ =>
          match validate_batch (c_engine c) commands with
          | Err e => (Err e, c, w)
          | Ok _ =>
              let bt := decide_batch (c_engine c) commands in
              let c := set_engine (b_engine bt) c in
              match b_records bt with
              | [] => (Ok (b_results bt), c, w)
              | records =>
                  match appendBatch (c_wal c) records w with
                  | (Err e, w') => (Err (ERuntime DurabilityWriteFailed e), set_poison e c, w')
                  | (Ok wal, w') =>
                      (Ok (b_results bt),
                       set_walfile wal (set_engine (foldl (fun e r => applyDurable r e) (b_engine bt) records) c), w')
                  end
              end
          end
      end
  end.

Definition Submit (c : Core) (command : Command) (w : world) : res gerror Result * Core * world :=
  match SubmitBatch c [command] w with
  | (Err e, c', w') => (Err e, c', w')
  | (Ok results, c', w') => (Ok (default zeroCoreResult (head results)), c', w')
  end.

(** ** Reading *)

(** [Core.Account]. *)
Definition AccountOf (c : Core) (id : Z) : option Account :=
  match e_ids (c_engine c) !! id with
  | None => None
  | Some s => if present_at (c_engine c) s then Some (account_at (c_engine c) s) else None
  end.

Record CoreStats := {
  CommittedSequence : Z; cs_SnapshotSequence : Z; WALBytes : Z; DedupeEntries : Z; AccountCount : Z }.

Definition StorageMetrics (c : Core) : StorageStats := wf_stats (c_wal c).
Definition RecoveryMetrics (c : Core) : RecoveryStats := c_recovery c.
Definition LedgerLen (c : Core) : Z := zlen (e_ledger (c_engine c)).

Definition Stats (c : Core) : CoreStats :=
  {| CommittedSequence := e_sequence (c_engine c); cs_SnapshotSequence := SnapshotSequence (c_recovery c);
     WALBytes := WALBytesWritten (wf_stats (c_wal c)); DedupeEntries := Z.of_nat (size (e_results (c_engine c)));
     AccountCount := zlen (e_accounts (c_engine c)) |}.

Definition SortedAccounts (c : Core) : list Account :=
  sort_by (fun a b => ac_ID a <? ac_ID b)
    ((filter (fun p => p.2 = true) (zip (e_accounts (c_engine c)) (e_present (c_engine c)))).*1).

(** ** Closing and snapshots *)

(** A closed log file fails every further call. *)
Definition CloseCore (c : Core) (w : world) : res gerror unit * Core * world :=
  if c_closed c then (Ok tt, c, w)
  else
    let '(r, w') := wal_close_file (c_wal c) w in
    (r, {| c_engine := c_engine c;
           c_wal := {| wf_file := None; wf_mode := wf_mode (c_wal c); wf_stats := wf_stats (c_wal c) |};
           c_closed := true; c_poisoned := c_poisoned c; c_recovery := c_recovery c |}, w').

(** The calls on the log after the snapshot is installed; the header counts once
    it is written. *)
Definition reset_wal (wal : walFile) (w : world) : res gerror unit * walFile * world :=
  match wf_file wal with
  | None => (Err (EOS "closed"), wal, w)
  | Some i =>
      match (_ ← truncate i 0; _ ← seek 0; writeHeader i) w with
      | (Err e, w1) => (Err e, wal, w1)
      | (Ok _, w1) =>
          let '(r, w2) := (_ ← sync_file i; seek_end i) w1 in
          (r, count_wal (zlen wal_header) wal, w2)
      end
  end.

Definition install_snapshot (windows : bool) (payload : bytes) : io unit :=
  i ← create_trunc snapshot_oct_tmp;
  _ ← on_error (ignore (remove snapshot_oct_tmp))
        (_ ← write_sync_close i payload; rename snapshot_oct_tmp snapshot_oct);
  syncDirectory windows.

Definition count_snapshot (n : Z) (w : walFile) : walFile :=
  {| wf_file := wf_file w; wf_mode := wf_mode w;
     wf_stats := {| WALBytesWritten := WALBytesWritten (wf_stats w);
                    SnapshotBytesWritten := u64 (SnapshotBytesWritten (wf_stats w) + n);
                    Syncs := Syncs (wf_stats w); Committed := Committed (wf_stats w) |} |}.

(** Neither a poisoned nor a closed engine is refused here. *)
Definition SnapshotCore (windows : bool) (c : Core) (w : world) : res gerror unit * Core * world :=
  if bool_decide (StorageDir (e_cfg (c_engine c)) = []) || bool_decide (Durability (e_cfg (c_engine c)) = MemoryOnly)
  then (Err (EMsg "snapshots require durable storage"), c, w)
  else
    let payload := encodeSnapshot (c_engine c) in
    match install_snapshot windows payload w with
    | (Err e, w1) => (Err e, c, w1)
    | (Ok _, w1) =>
        match reset_wal (c_wal c) w1 with
        | (Err e, wal, w2) => (Err e, set_walfile wal c, w2)
        | (Ok _, wal, w2) =>
            (Ok tt,
             {| c_engine := c_engine c; c_wal := count_snapshot (zlen payload) wal;
                c_closed := c_closed c; c_poisoned := c_poisoned c;
                c_recovery := {| SnapshotSequence := e_sequence (c_engine c);
                                 SnapshotBytes := SnapshotBytes (c_recovery c);
                                 WALBytesScanned := WALBytesScanned (c_recovery c);
                                 RecordsReplayed := RecordsReplayed (c_recovery c) |} |}, w2)
        end
    end.
