(* ===== verification/CoreSpec.v ===== *)
(** * The specification of the account engine

    A ledger: a map from account identities to accounts and their pending
    transfers, the log of effects, and the retained results, oldest first.
    Commands are decided and applied one at a time.  The engine of
    [CoreEngine.v] with its dense slots, marks, epochs and ring of identities
    implements this ledger ([CoreRefinement.v]). *)

From Stdlib Require Import ZArith Lia Strings.Byte Strings.String.
From stdpp Require Import base decidable countable list gmap.
From S2P Require Import Prelude GoText Errors CoreTypes CoreEngine.

Local Open Scope Z_scope.

(** An allocated identity: its account, if it has been created, and its agent. *)
Record entry := { en_account : option Account; en_agent : agentState }.

Abbreviation entries := (gmap Z entry).

Record ledger := {
  lg_entries : entries;
  lg_log : list LedgerEntry;
  lg_results : list Result;
  lg_sequence : Z }.

Definition acct (m : entries) (id : Z) : option Account := m !! id ≫= en_account.
Definition agent (m : entries) (id : Z) : agentState := default zeroAgent (en_agent <$> m !! id).
Definition put_account (id : Z) (a : Account) (m : entries) : entries :=
  <[id := {| en_account := Some a; en_agent := agent m id |}]> m.
Definition put_agent (id : Z) (s : agentState) (m : entries) : entries :=
  <[id := {| en_account := acct m id; en_agent := s |}]> m.

(** The account a command sees. *)
Definition seen (m : entries) (id : Z) : Account := default zeroAccount (acct m id).

(** ** Decisions *)

(** The record of a command decided among the entries [m] for an agent in the
    state [g]. *)
Definition record_with (seq : Z) (m : entries) (g : agentState) (c : Command) : walRecord :=
  let a := seen m (cm_Account c) in
  let b := if cm_Other c =? 0 then None else acct m (cm_Other c) in
  let d := decideGo c a (bool_decide (is_Some (acct m (cm_Account c)))) (default zeroAccount b)
             (bool_decide (is_Some b)) (ag_Pending g) in
  make_record seq c d a (default zeroAccount b) (i64 (ag_Turns g + 1)) (next_pending c d (ag_Pending g)).

Definition spec_record (seq : Z) (m : entries) (c : Command) : walRecord :=
  record_with seq m (agent m (cm_Account c)) c.

(** ** Effects *)

Definition spec_effect (r : walRecord) (m : entries) : entries :=
  if w_effect r =? 1 then put_account (w_a r) (created r) m
  else if w_effect r =? 2 then put_account (w_a r) (bump (w_newBalanceA r) (seen m (w_a r))) m
  else if w_effect r =? 3 then
    put_account (w_b r) (bump (w_newBalanceB r) (seen m (w_b r)))
      (put_account (w_a r) (bump (w_newBalanceA r) (seen m (w_a r))) m)
  else if w_effect r =? 4 then put_account (w_a r) (restate (w_newStatus r) (seen m (w_a r))) m
  else m.

Definition agent_of (r : walRecord) : agentState := {| ag_Pending := pending_of r; ag_Turns := w_turns r |}.

Definition spec_entries (m : entries) (r : walRecord) : entries :=
  put_agent (w_a r) (agent_of r) (if w_accepted r then spec_effect r m else m).

Definition spec_log (l : list LedgerEntry) (r : walRecord) : list LedgerEntry :=
  if w_accepted r && (1 <=? w_effect r) && (w_effect r <=? 4) then l ++ [ledger_entry r] else l.

(** The window of retained results. *)
Definition spec_remember (window : Z) (l : list Result) (r : Result) : list Result :=
  if window <? zlen (l ++ [r]) then drop 1 (l ++ [r]) else l ++ [r].

Definition retained (l : list Result) (id : bytes) : option Result :=
  head (filter (λ r, rt_CommandID r = id) l).

Definition spec_apply (window : Z) (s : ledger) (r : walRecord) : ledger :=
  {| lg_entries := spec_entries (lg_entries s) r;
     lg_log := spec_log (lg_log s) r;
     lg_results := spec_remember window (lg_results s) (result_of r);
     lg_sequence := w_sequence r |}.

(** ** Serial execution *)

Definition spec_submit (window : Z) (s : ledger) (c : Command) : ledger * Result :=
  match retained (lg_results s) (cm_ID c) with
  | Some prior => (s, as_duplicate prior)
  | None =>
      let r := spec_record (u64 (lg_sequence s + 1)) (lg_entries s) c in
      (spec_apply window s r, result_of r)
  end.

Fixpoint spec_serial (window : Z) (s : ledger) (commands : list Command) : ledger * list Result :=
  match commands with
  | [] => (s, [])
  | c :: commands =>
      let '(s, r) := spec_submit window s c in
      let '(s, rs) := spec_serial window s commands in
      (s, r :: rs)
  end.

(** ** Lemmas *)

Lemma acct_put_account m id a id' :
  acct (put_account id a m) id' = if decide (id = id') then Some a else acct m id'.
Proof. unfold acct, put_account. rewrite lookup_insert. by case_decide. Qed.

Lemma acct_put_agent m id s id' : acct (put_agent id s m) id' = acct m id'.
Proof. unfold acct at 1, put_agent. rewrite lookup_insert. case_decide; [by subst|done]. Qed.

Lemma agent_put_account m id a id' : agent (put_account id a m) id' = agent m id'.
Proof. unfold agent at 1, put_account. rewrite lookup_insert. case_decide; [by subst|done]. Qed.

Lemma agent_put_agent m id s id' :
  agent (put_agent id s m) id' = if decide (id = id') then s else agent m id'.
Proof. unfold agent, put_agent. rewrite lookup_insert. by case_decide. Qed.

(** The accounts after a record depend on the accounts before it only. *)
Lemma acct_effect m m' r id :
  (∀ i, acct m i = acct m' i) → acct (spec_effect r m) id = acct (spec_effect r m') id.
Proof.
  intros H. unfold spec_effect, seen.
  repeat (case_match; [rewrite ?acct_put_account, ?H; done|]). apply H.
Qed.

Lemma acct_entries m m' r id :
  (∀ i, acct m i = acct m' i) → acct (spec_entries m r) id = acct (spec_entries m' r) id.
Proof. intros H. unfold spec_entries. rewrite !acct_put_agent. destruct (w_accepted r); [by apply acct_effect|done]. Qed.

Lemma agent_effect m r id : agent (spec_effect r m) id = agent m id.
Proof. unfold spec_effect. repeat (case_match; [by rewrite ?agent_put_account|]). done. Qed.

Lemma agent_entries m r id : agent (spec_entries m r) id = if decide (w_a r = id) then agent_of r else agent m id.
Proof. unfold spec_entries. rewrite agent_put_agent. case_decide; [done|]. destruct (w_accepted r); [apply agent_effect|done]. Qed.

(** The identities with an entry. *)
Lemma dom_put_account m id a i : is_Some (put_account id a m !! i) ↔ i = id ∨ is_Some (m !! i).
Proof. unfold put_account. rewrite lookup_insert. case_decide; subst; naive_solver. Qed.

Lemma dom_put_agent m id s i : is_Some (put_agent id s m !! i) ↔ i = id ∨ is_Some (m !! i).
Proof. unfold put_agent. rewrite lookup_insert. case_decide; subst; naive_solver. Qed.

Lemma dom_entries m r i :
  is_Some (spec_entries m r !! i)
  ↔ i = w_a r ∨ is_Some (m !! i) ∨ w_accepted r = true ∧ w_effect r = 3 ∧ i = w_b r.
Proof.
  unfold spec_entries. rewrite dom_put_agent. destruct (w_accepted r); [|naive_solver]. unfold spec_effect.
  repeat case_match; bool_to_prop; rewrite ?dom_put_account; naive_solver lia.
Qed.

(** An entry is its account and its agent. *)
Lemma entry_eq (m m' : entries) id :
  (is_Some (m !! id) ↔ is_Some (m' !! id)) → acct m id = acct m' id → agent m id = agent m' id → m !! id = m' !! id.
Proof.
  unfold acct, agent. intros Hs Ha Hg. destruct (m !! id) as [[a g]|], (m' !! id) as [[a' g']|]; cbn in *; try done.
  - by subst.
  - by destruct (proj1 Hs ltac:(eauto)).
  - by destruct (proj2 Hs ltac:(eauto)).
Qed.

Lemma entries_ext m m' :
  (∀ i, is_Some (m !! i) ↔ is_Some (m' !! i)) → (∀ i, acct m i = acct m' i) → (∀ i, agent m i = agent m' i) → m = m'.
Proof. intros H1 H2 H3. apply map_eq. intros i. by apply entry_eq. Qed.

(** An entry without an account and with a fresh agent is as good as none. *)
Lemma spec_entries_grown m r :
  m !! w_a r = None →
  spec_entries (<[w_a r := {| en_account := None; en_agent := zeroAgent |}]> m) r = spec_entries m r.
Proof.
  intros Hn. assert (∀ i, acct (<[w_a r := {| en_account := None; en_agent := zeroAgent |}]> m) i = acct m i) as Ha.
  { intros i. unfold acct. rewrite lookup_insert. case_decide; [subst; by rewrite Hn|done]. }
  apply entries_ext.
  - intros i. rewrite !dom_entries, lookup_insert. case_decide; subst; naive_solver.
  - intros i. by apply acct_entries.
  - intros i. rewrite !agent_entries. case_decide as E; [done|]. unfold agent. by rewrite lookup_insert_ne.
Qed.

(** A record depends on the accounts and on the agent of its command. *)
Lemma record_with_ext seq m m' g c : (∀ i, acct m i = acct m' i) → record_with seq m g c = record_with seq m' g c.
Proof. intros H. unfold record_with, seen. by rewrite !H. Qed.

(** A record that can be applied: the accounts it changes exist. *)
Definition fits (m : entries) (r : walRecord) : Prop :=
  w_accepted r = true →
    (w_effect r = 2 ∨ w_effect r = 4 → is_Some (acct m (w_a r)))
    ∧ (w_effect r = 3 → is_Some (acct m (w_a r)) ∧ is_Some (acct m (w_b r)) ∧ w_a r ≠ w_b r ∧ w_b r ≠ 0).

(** ** The rules of the domain *)

(** When a command is accepted. *)
Inductive legal (c : Command) (a : Account) (aok bok : bool) (p : pendingTransfer) : Prop :=
| legal_create : cm_Kind c = Create → aok = false → 0 ≤ cm_Amount c → legal c a aok bok p
| legal_deposit : cm_Kind c = Deposit → aok = true → 0 < cm_Amount c → legal c a aok bok p
| legal_withdraw : cm_Kind c = Withdraw → aok = true → 0 < cm_Amount c → ac_Status a ≠ StatusFrozen →
    cm_Amount c ≤ ac_Balance a → legal c a aok bok p
| legal_transfer : cm_Kind c = Transfer → aok = true → bok = true → 0 < cm_Amount c →
    ac_Status a ≠ StatusFrozen → cm_Amount c ≤ ac_Balance a → legal c a aok bok p
| legal_confirm : cm_Kind c = Confirm → p = {| pt_Active := true; pt_Target := cm_Other c; pt_Amount := cm_Amount c |} →
    aok = true → bok = true → 0 < cm_Amount c → ac_Status a ≠ StatusFrozen → cm_Amount c ≤ ac_Balance a →
    legal c a aok bok p
| legal_freeze : cm_Kind c = Freeze → aok = true → legal c a aok bok p
| legal_unfreeze : cm_Kind c = Unfreeze → aok = true → legal c a aok bok p
| legal_begin : cm_Kind c = BeginTransfer → 0 < cm_Amount c → legal c a aok bok p
| legal_cancel : cm_Kind c = Cancel → legal c a aok bok p.

(** The changes of an accepted command. *)
Definition outcome (c : Command) (a b : Account) : Z * Z * Z * Z :=
  let k := cm_Kind c in
  if k =? Create then (1, cm_Amount c, ac_Balance b, StatusOpen)
  else if k =? Deposit then (2, i64 (ac_Balance a + cm_Amount c), ac_Balance b, ac_Status a)
  else if k =? Withdraw then (2, i64 (ac_Balance a - cm_Amount c), ac_Balance b, ac_Status a)
  else if (k =? Transfer) || (k =? Confirm)
  then (3, i64 (ac_Balance a - cm_Amount c), i64 (ac_Balance b + cm_Amount c), ac_Status a)
  else if k =? Freeze then (4, ac_Balance a, ac_Balance b, StatusFrozen)
  else if k =? Unfreeze then (4, ac_Balance a, ac_Balance b, StatusOpen)
  else (0, ac_Balance a, ac_Balance b, ac_Status a).

Lemma kind_cases (k : Z) :
  k = Create ∨ k = Deposit ∨ k = Withdraw ∨ k = Transfer ∨ k = Freeze ∨ k = Unfreeze ∨ k = BeginTransfer
  ∨ k = Confirm ∨ k = Cancel ∨ ¬ 0 ≤ k ≤ 8.
Proof. unfold Create, Deposit, Withdraw, Transfer, Freeze, Unfreeze, BeginTransfer, Confirm, Cancel. lia. Qed.

Lemma decideGo_other c a aok b bok p :
  ¬ 0 ≤ cm_Kind c ≤ 8 →
  decideGo c a aok b bok p = {| d_accepted := false; d_reason := invalidWorkflow; d_effect := 0;
    d_balanceA := ac_Balance a; d_balanceB := ac_Balance b; d_status := ac_Status a |}.
Proof.
  intros H. unfold decideGo, isKind, Create, Deposit, Withdraw, Transfer, Freeze, Unfreeze, BeginTransfer, Confirm, Cancel.
  do 9 (rewrite (proj2 (Z.eqb_neq (cm_Kind c) _)) by lia; cbn [andb orb]). done.
Qed.

(** Case analysis on the kind of a command and on the tests of its branch. *)
Ltac by_kind c :=
  let id := fresh "id" in let k := fresh "k" in let acc := fresh "acc" in
  let oth := fresh "oth" in let amt := fresh "amt" in
  destruct c as [id k acc oth amt];
  destruct (kind_cases k) as [->|[->|[->|[->|[->|[->|[->|[->|[->|?Hother]]]]]]]]];
  [cbn [decideGo cm_Kind cm_Amount cm_Other cm_Account cm_ID isKind Z.eqb Pos.eqb andb orb negb
        Create Deposit Withdraw Transfer Freeze Unfreeze BeginTransfer Confirm Cancel]..|];
  repeat match goal with
  | |- context [if ?x then _ else _] =>
      lazymatch x with context [if _ then _ else _] => fail | _ => destruct x eqn:? end
  end.

Lemma decideGo_accepts c a aok b bok p :
  d_accepted (decideGo c a aok b bok p) = true → legal c a aok bok p.
Proof.
  by_kind c; try (rewrite decideGo_other by done); cbn; intros H; try discriminate H; bool_to_prop; subst.
  - by apply legal_create.
  - by apply legal_deposit.
  - by apply legal_withdraw.
  - by apply legal_transfer.
  - by apply legal_freeze.
  - by apply legal_unfreeze.
  - by apply legal_begin.
  - apply legal_confirm; try done. destruct p; cbn in *. by subst.
  - by apply legal_cancel.
Qed.

Lemma decideGo_rejects c a aok b bok p :
  d_accepted (decideGo c a aok b bok p) = false →
  ¬ legal c a aok bok p ∧ d_effect (decideGo c a aok b bok p) = 0.
Proof.
  by_kind c; try (rewrite decideGo_other by done); cbn; intros H; try discriminate H; bool_to_prop; subst;
    (split; [|done]); intros L; destruct L; cbn in *; subst; cbn in *; rewrite ?Z.eqb_refl in *; try done;
    unfold Create, Deposit, Withdraw, Transfer, Freeze, Unfreeze, BeginTransfer, Confirm, Cancel in *; lia.
Qed.

Lemma decideGo_outcome c a aok b bok p :
  legal c a aok bok p →
  let d := decideGo c a aok b bok p in
  (d_effect d, d_balanceA d, d_balanceB d, d_status d) = outcome c a b.
Proof.
  intros L. destruct (d_accepted (decideGo c a aok b bok p)) eqn:H.
  2:{ by apply decideGo_rejects in H as [? _]. }
  clear L. revert H. by_kind c; try (rewrite decideGo_other by done); cbn; done.
Qed.

Lemma legal_decide c a aok b bok p :
  legal c a aok bok p → d_accepted (decideGo c a aok b bok p) = true.
Proof.
  intros L. destruct (d_accepted _) eqn:E; [done|]. by apply decideGo_rejects in E as [? _].
Qed.

(** The effect of an accepted command tells what exists. *)
Lemma decideGo_effect c a aok b bok p :
  let d := decideGo c a aok b bok p in
  d_accepted d = true → 0 ≤ d_effect d ≤ 4
    ∧ (d_effect d = 1 → cm_Kind c = Create ∧ aok = false)
    ∧ (d_effect d = 2 ∨ d_effect d = 4 → aok = true)
    ∧ (d_effect d = 3 → aok = true ∧ bok = true ∧ (cm_Kind c = Transfer ∨ cm_Kind c = Confirm)).
Proof.
  by_kind c; try (rewrite decideGo_other by done); cbn; intros H; try discriminate H; bool_to_prop; subst;
    repeat split; try lia; try done; auto.
Qed.

Lemma record_with_fits seq m g c : ValidateCommand c = Ok tt → fits m (record_with seq m g c).
Proof.
  unfold ValidateCommand. intros Hv. inv_ok. intros Hacc. unfold record_with, make_record in *.
  cbn [w_accepted w_effect w_a w_b] in *.
  destruct (decideGo_effect _ _ _ _ _ _ Hacc) as (_&_&H2&H3). split.
  - intros E. specialize (H2 E). by apply bool_decide_eq_true in H2.
  - intros E. destruct (H3 E) as (Ha&Hb&Hk). apply bool_decide_eq_true in Ha, Hb.
    destruct (cm_Other c =? 0) eqn:E0; [by destruct Hb|]. apply Z.eqb_neq in E0. split; [done|]. split; [done|].
    split; [|done]. intros Eq. match goal with H : _ && _ = false |- _ => apply andb_false_iff in H end.
    rewrite <- Eq in *. rewrite Z.eqb_refl, orb_true_r in *. unfold isKind in *.
    destruct Hk as [Hk|Hk]; rewrite Hk in *; naive_solver.
Qed.
