(* ===== verification/CoreRefinement.v ===== *)
(** * The account engine implements its specification

    The invariant of [engine], the ledger it represents, and the refinement of
    each step of [CoreEngine.v]: slots, staging, application, the window of
    results, and whole batches. *)

From Stdlib Require Import ZArith Lia Strings.Byte Strings.String.
From stdpp Require Import base decidable countable list gmap.
From S2P Require Import Prelude GoText Errors CoreTypes CoreEngine CoreSpec.

Local Open Scope Z_scope.

(** ** The invariant *)

Definition blank_account (id : Z) : Account :=
  {| ac_ID := id; ac_Balance := 0; ac_Status := 0; ac_Version := 0 |}.

Record slots_ok (e : engine) : Prop := {
  so_present : length (e_present e) = length (e_accounts e);
  so_agents : length (e_agents e) = length (e_accounts e);
  so_scratch : length (e_scratch e) = length (e_accounts e);
  so_marks : length (e_marks e) = length (e_accounts e);
  so_ids : ∀ id s, e_ids e !! id = Some s ↔ ∃ a, e_accounts e !! s = Some a ∧ ac_ID a = id;
  so_absent : ∀ s a, e_accounts e !! s = Some a → present_at e s = false → a = blank_account (ac_ID a) }.

(** What a slot holds: durably, and with the effects staged in this batch. *)
Definition durable_entry (e : engine) (s : nat) : entry :=
  {| en_account := if present_at e s then Some (account_at e s) else None; en_agent := agent_at e s |}.
Definition staged_entry (e : engine) (s : nat) : entry :=
  {| en_account := if present_at e s || marked e s then Some (accountFor e s true) else None;
     en_agent := agent_at e s |}.

Definition durable (e : engine) : entries := durable_entry e <$> e_ids e.
Definition staged (e : engine) : entries := staged_entry e <$> e_ids e.

(** ** Slots *)

Lemma slot_lt e id s : slots_ok e → e_ids e !! id = Some s → (s < length (e_accounts e))%nat.
Proof. intros H Hs. apply (so_ids e H) in Hs as (a&Ha&_). by eapply lookup_lt_Some. Qed.

Lemma slot_inj e id id' s : slots_ok e → e_ids e !! id = Some s → e_ids e !! id' = Some s → id = id'.
Proof.
  intros H (a&Ha&<-)%(so_ids e H) (a'&Ha'&<-)%(so_ids e H). congruence.
Qed.

(** A change in one slot changes the entry of one identity. *)
Lemma update_entry (f g : nat → entry) (ids : gmap Z nat) id s x :
  ids !! id = Some s → g s = x → (∀ id' s', ids !! id' = Some s' → id' ≠ id → g s' = f s') →
  g <$> ids = <[id := x]> (f <$> ids).
Proof.
  intros Hs Hx Hne. apply map_eq. intros i. rewrite lookup_insert, !lookup_fmap. case_decide as E.
  - subst i. rewrite Hs. cbn. by rewrite Hx.
  - destruct (ids !! i) as [s'|] eqn:Ei; [|done]. cbn. f_equal. by apply (Hne i).
Qed.

Lemma entries_acct (f : nat → entry) (ids : gmap Z nat) id : acct (f <$> ids) id = s ← ids !! id; en_account (f s).
Proof. unfold acct. rewrite lookup_fmap. by destruct (ids !! id). Qed.

Lemma entries_agent (f : nat → entry) (ids : gmap Z nat) id :
  agent (f <$> ids) id = default zeroAgent (s ← ids !! id; Some (en_agent (f s))).
Proof. unfold agent. rewrite lookup_fmap. by destruct (ids !! id). Qed.

Lemma slot_known e id create s : e_ids e !! id = Some s → slot id create e = ((s, true), e).
Proof. intros H. unfold slot. by rewrite H. Qed.

Lemma slot_unknown e id : e_ids e !! id = None → slot id false e = ((0%nat, false), e).
Proof. intros H. unfold slot. by rewrite H. Qed.

(** The engine after a new slot. *)
Definition grown (id : Z) (e : engine) : engine := (slot id true e).2.

Section grow.
Context (e : engine) (id : Z).
Hypothesis Hok : slots_ok e.
Hypothesis Hid : e_ids e !! id = None.
Hypothesis Hbound : zlen (e_accounts e) < 2 ^ 32.
Let n := length (e_accounts e).

Lemma slot_new : slot id true e = ((n, true), grown id e).
Proof.
  unfold grown, slot. rewrite Hid. cbn. f_equal. unfold u32. unfold zlen in *.
  rewrite Z.mod_small by lia. by rewrite Nat2Z.id.
Qed.

Lemma grown_ids : e_ids (grown id e) = <[id := n]> (e_ids e).
Proof.
  pose proof slot_new as E. unfold grown, slot in *. rewrite Hid in *. cbn in *. by injection E as ->.
Qed.

Lemma grown_fields :
  e_accounts (grown id e) = e_accounts e ++ [blank_account id] ∧ e_present (grown id e) = e_present e ++ [false]
  ∧ e_agents (grown id e) = e_agents e ++ [zeroAgent] ∧ e_scratch (grown id e) = e_scratch e ++ [zeroAccount]
  ∧ e_marks (grown id e) = e_marks e ++ [0] ∧ e_epoch (grown id e) = e_epoch e.
Proof. unfold grown, slot. rewrite Hid. by repeat split. Qed.

Lemma grown_rest :
  e_cfg (grown id e) = e_cfg e ∧ e_ledger (grown id e) = e_ledger e ∧ e_results (grown id e) = e_results e
  ∧ e_order (grown id e) = e_order e ∧ e_orderHead (grown id e) = e_orderHead e
  ∧ e_sequence (grown id e) = e_sequence e.
Proof. unfold grown, slot. rewrite Hid. by repeat split. Qed.

Lemma snoc_default {A : Type} (l : list A) (d : A) s : default d ((l ++ [d]) !! s) = default d (l !! s).
Proof.
  destruct (decide (s < length l)%nat) as [Hs|Hs]; [by rewrite lookup_app_l|].
  rewrite lookup_app_r by lia. rewrite (lookup_ge_None_2 l) by lia.
  destruct (s - length l)%nat as [|k]; [done|]. by rewrite lookup_ge_None_2 by (simpl; lia).
Qed.

Lemma grown_at s :
  present_at (grown id e) s = present_at e s ∧ agent_at (grown id e) s = agent_at e s
  ∧ scratch_at (grown id e) s = scratch_at e s ∧ mark_at (grown id e) s = mark_at e s
  ∧ marked (grown id e) s = marked e s
  ∧ (s ≠ n → account_at (grown id e) s = account_at e s).
Proof.
  destruct grown_fields as (E1&E2&E3&E4&E5&E6).
  unfold present_at, agent_at, scratch_at, marked, mark_at, account_at. rewrite E1, E2, E3, E4, E5, E6.
  rewrite !snoc_default. repeat split. intros Hs. f_equal.
  destruct (decide (s < length (e_accounts e))%nat) as [Hl|Hl]; [by rewrite lookup_app_l|].
  rewrite !lookup_ge_None_2; [done|lia|rewrite length_app; cbn; unfold n in *; lia].
Qed.

Lemma new_slot_absent : present_at e n = false ∧ marked e n = false ∧ agent_at e n = zeroAgent.
Proof.
  destruct Hok. unfold present_at, marked, mark_at, agent_at, n.
  rewrite !lookup_ge_None_2 by lia. cbn. split; [done|]. split; [|done]. by destruct (e_epoch e).
Qed.

Lemma grown_ok : slots_ok (grown id e).
Proof.
  destruct grown_fields as (E1&E2&E3&E4&E5&E6). pose proof Hok as [H1 H2 H3 H4 H5 H6].
  assert (∀ s, e_ids e !! id = Some s → False) as Hno by congruence.
  split; rewrite ?E1, ?E2, ?E3, ?E4, ?E5, ?length_app; cbn; try lia.
  - intros i s. rewrite grown_ids, lookup_insert. case_decide as E; [subst i|].
    + split.
      * intros [= <-]. exists (blank_account id). split; [|done]. unfold n. by rewrite lookup_app_r, Nat.sub_diag by lia.
      * intros (a&Ha&<-). apply lookup_app_Some in Ha as [Ha|[Hl Ha]].
        -- exfalso. apply (Hno s), H5. eauto.
        -- apply lookup_lt_Some in Ha. cbn in Ha. f_equal. unfold n. lia.
    + rewrite H5. split; intros (a&Ha&<-); exists a; (split; [|done]).
      * by apply lookup_app_l_Some.
      * apply lookup_app_Some in Ha as [Ha|[Hl Ha]]; [done|]. exfalso. apply E.
        destruct (s - length (e_accounts e))%nat as [|k]; cbn in Ha; [by injection Ha as <-|done].
  - intros s a Ha Hp. destruct (grown_at s) as (Ep&_). rewrite Ep in Hp.
    apply lookup_app_Some in Ha as [Ha|[Hl Ha]]; [by apply (H6 s)|].
    destruct (s - length (e_accounts e))%nat as [|k]; cbn in Ha; [by injection Ha as <-|done].
Qed.

Lemma grown_entries (f : engine → nat → entry) :
  (∀ s, s ≠ n → f (grown id e) s = f e s) →
  f (grown id e) n = {| en_account := None; en_agent := zeroAgent |} →
  f (grown id e) <$> e_ids (grown id e)
  = <[id := {| en_account := None; en_agent := zeroAgent |}]> (f e <$> e_ids e).
Proof.
  intros Hf Hn. rewrite grown_ids, fmap_insert, Hn. f_equal. apply map_fmap_ext. intros i s Hi. apply Hf.
  intros ->. apply slot_lt in Hi; [unfold n in Hi; lia|done].
Qed.

Lemma grown_durable : durable (grown id e) = <[id := {| en_account := None; en_agent := zeroAgent |}]> (durable e).
Proof.
  apply (grown_entries durable_entry).
  - intros s Hs. destruct (grown_at s) as (E1&E2&_&_&_&E6). unfold durable_entry. by rewrite E1, E2, E6.
  - destruct (grown_at n) as (E1&E2&_), new_slot_absent as (N1&_&N3). unfold durable_entry. by rewrite E1, E2, N1, N3.
Qed.

Lemma grown_staged : staged (grown id e) = <[id := {| en_account := None; en_agent := zeroAgent |}]> (staged e).
Proof.
  apply (grown_entries staged_entry).
  - intros s Hs. destruct (grown_at s) as (E1&E2&E3&_&E5&E6). unfold staged_entry, accountFor. by rewrite E1, E2, E3, E5, E6.
  - destruct (grown_at n) as (E1&E2&_&_&E5&_), new_slot_absent as (N1&N2&N3). unfold staged_entry.
    by rewrite E1, E2, E5, N1, N2, N3.
Qed.
End grow.

(** ** Updates of one slot *)

Lemma default_insert {A : Type} (l : list A) (d x : A) i j :
  (i < length l)%nat → default d (<[i := x]> l !! j) = if decide (i = j) then x else default d (l !! j).
Proof.
  intros Hi. case_decide as E; [subst; by rewrite list_lookup_insert_eq|by rewrite list_lookup_insert_ne].
Qed.

(** The parts of an engine that a change of accounts leaves alone. *)
Record same_rest (e e' : engine) : Prop := {
  sr_cfg : e_cfg e' = e_cfg e;
  sr_ids : e_ids e' = e_ids e;
  sr_results : e_results e' = e_results e;
  sr_order : e_order e' = e_order e;
  sr_head : e_orderHead e' = e_orderHead e;
  sr_sequence : e_sequence e' = e_sequence e;
  sr_length : length (e_accounts e') = length (e_accounts e) }.

Lemma same_rest_refl e : same_rest e e.
Proof. by split. Qed.

Lemma same_rest_trans e1 e2 e3 : same_rest e1 e2 → same_rest e2 e3 → same_rest e1 e3.
Proof. intros [] []. split; congruence. Qed.

Section update.
Context (e : engine) (id : Z) (s : nat).
Hypothesis Hok : slots_ok e.
Hypothesis Hs : e_ids e !! id = Some s.

Lemma other_slots id' s' : e_ids e !! id' = Some s' → id' ≠ id → s ≠ s'.
Proof. intros H Hn ->. apply Hn. by eapply slot_inj. Qed.

(** An account written to its slot exists. *)
Definition write_account (a : Account) : engine := set_present s true (set_account s a e).

Lemma write_account_ok a :
  ac_ID a = id →
  slots_ok (write_account a) ∧ durable (write_account a) = put_account id a (durable e) ∧ same_rest e (write_account a)
  ∧ e_ledger (write_account a) = e_ledger e ∧ e_marks (write_account a) = e_marks e
  ∧ e_epoch (write_account a) = e_epoch e.
Proof.
  intros Ha. pose proof (slot_lt _ _ _ Hok Hs) as Hlt. pose proof Hok as [H1 H2 H3 H4 H5 H6].
  split; [split|split]; cbn; rewrite ?length_insert; try done.
  - intros i t. rewrite H5. split; intros (b&Hb&<-).
    + destruct (decide (s = t)) as [<-|Hn]; [|exists b; by rewrite list_lookup_insert_ne].
      exists a. rewrite list_lookup_insert_eq by done. split; [done|]. apply (so_ids e Hok) in Hs as (a0&Ha0&<-). congruence.
    + apply list_lookup_insert_Some in Hb as [(->&->&_)|[Hn Hb]]; [|by exists b].
      apply (so_ids e Hok) in Hs as (a0&Ha0&E). exists a0. split; [done|]. congruence.
  - intros t b Hb. unfold present_at. cbn. rewrite default_insert by lia. case_decide; [done|].
    rewrite list_lookup_insert_ne in Hb by done. by apply H6.
  - unfold durable. cbn. apply update_entry with (s := s); [done|..].
    + unfold durable_entry, present_at, account_at. cbn. rewrite !default_insert by lia. rewrite !decide_True by done.
      f_equal. unfold durable, staged. by rewrite entries_agent, Hs.
    + intros i t Hi Hn. pose proof (other_slots _ _ Hi Hn). unfold durable_entry, present_at, account_at. cbn.
      by rewrite !default_insert, !decide_False by (done || lia).
  - repeat split; cbn; by rewrite ?length_insert.
Qed.

Lemma set_account_present a : present_at e s = true → set_account s a e = write_account a.
Proof.
  intros Hp. unfold write_account, set_present, set_account, with_slots. cbn. f_equal.
  rewrite list_insert_id; [done|]. unfold present_at in Hp. destruct (e_present e !! s); cbn in Hp; congruence.
Qed.

Lemma set_agent_ok g :
  slots_ok (set_agent s g e) ∧ durable (set_agent s g e) = put_agent id g (durable e)
  ∧ staged (set_agent s g e) = put_agent id g (staged e) ∧ same_rest e (set_agent s g e)
  ∧ e_ledger (set_agent s g e) = e_ledger e.
Proof.
  pose proof (slot_lt _ _ _ Hok Hs) as Hlt. pose proof Hok as [H1 H2 H3 H4 H5 H6].
  split; [split|split; [|split]]; cbn; rewrite ?length_insert; try done.
  - apply update_entry with (s := s); [done|..].
    + unfold durable_entry, agent_at. cbn. rewrite default_insert, decide_True by (done || lia). f_equal.
      unfold durable, staged. by rewrite entries_acct, Hs.
    + intros i t Hi Hn. pose proof (other_slots _ _ Hi Hn). unfold durable_entry, agent_at. cbn.
      by rewrite default_insert, decide_False by (done || lia).
  - apply update_entry with (s := s); [done|..].
    + unfold staged_entry, agent_at. cbn. rewrite default_insert, decide_True by (done || lia). f_equal.
      unfold durable, staged. by rewrite entries_acct, Hs.
    + intros i t Hi Hn. pose proof (other_slots _ _ Hi Hn). unfold staged_entry, agent_at. cbn.
      by rewrite default_insert, decide_False by (done || lia).
Qed.

Lemma set_scratch_ok a :
  e_epoch e ≠ 0 →
  slots_ok (set_scratch s a e) ∧ durable (set_scratch s a e) = durable e
  ∧ staged (set_scratch s a e) = put_account id a (staged e) ∧ same_rest e (set_scratch s a e)
  ∧ e_ledger (set_scratch s a e) = e_ledger e ∧ e_epoch (set_scratch s a e) = e_epoch e.
Proof.
  intros Hep. pose proof (slot_lt _ _ _ Hok Hs) as Hlt. pose proof Hok as [H1 H2 H3 H4 H5 H6].
  split; [split|split; [|split]]; cbn; rewrite ?length_insert; try done.
  apply update_entry with (s := s); [done|..].
  - unfold staged_entry, accountFor, marked, mark_at, scratch_at. cbn.
    rewrite !default_insert, !decide_True by (done || lia). rewrite Z.eqb_refl, (proj2 (Z.eqb_neq _ _)) by done.
    cbn. rewrite orb_true_r. f_equal. unfold durable, staged. by rewrite entries_agent, Hs.
  - intros i t Hi Hn. pose proof (other_slots _ _ Hi Hn). unfold staged_entry, accountFor, marked, mark_at, scratch_at. cbn.
    by rewrite !default_insert, !decide_False by (done || lia).
Qed.

(** What the engine reads in a slot. *)
Lemma durable_acct : acct (durable e) id = if present_at e s then Some (account_at e s) else None.
Proof. unfold durable. rewrite entries_acct, Hs. done. Qed.

Lemma staged_acct : acct (staged e) id = if present_at e s || marked e s then Some (accountFor e s true) else None.
Proof. unfold staged. rewrite entries_acct, Hs. done. Qed.

Lemma staged_agent : agent (staged e) id = agent_at e s.
Proof. unfold staged. rewrite entries_agent, Hs. done. Qed.

Lemma slot_account_id : ac_ID (account_at e s) = id.
Proof. apply (so_ids e Hok) in Hs as (a&Ha&<-). unfold account_at. by rewrite Ha. Qed.
End update.

(** ** Effects *)

Lemma present_of_acct e id s : e_ids e !! id = Some s → is_Some (acct (durable e) id) →
  present_at e s = true ∧ seen (durable e) id = account_at e s.
Proof.
  intros Hs. unfold seen. rewrite (durable_acct e id s Hs). destruct (present_at e s); [done|]. by intros [? ?].
Qed.

Lemma applyEffect_ok e r aSlot bSlot :
  slots_ok e → e_ids e !! w_a r = Some aSlot → (w_effect r = 3 → e_ids e !! w_b r = Some bSlot) →
  fits (durable e) r → w_accepted r = true →
  slots_ok (applyEffect aSlot bSlot r e) ∧ durable (applyEffect aSlot bSlot r e) = spec_effect r (durable e)
  ∧ same_rest e (applyEffect aSlot bSlot r e) ∧ e_ledger (applyEffect aSlot bSlot r e) = spec_log (e_ledger e) r
  ∧ e_marks (applyEffect aSlot bSlot r e) = e_marks e ∧ e_epoch (applyEffect aSlot bSlot r e) = e_epoch e.
Proof.
  intros Hok Ha Hb Hf Hacc. destruct (Hf Hacc) as [F1 F3].
  pose proof (slot_account_id e _ _ Hok Ha) as Ia.
  assert (∀ e0 : engine, slots_ok e0 ∧ durable e0 = spec_effect r (durable e) ∧ same_rest e e0
    ∧ e_ledger e0 = e_ledger e ∧ e_marks e0 = e_marks e ∧ e_epoch e0 = e_epoch e →
    let e1 := if (1 <=? w_effect r) && (w_effect r <=? 4) then set_ledger (e_ledger e0 ++ [ledger_entry r]) e0 else e0 in
    slots_ok e1 ∧ durable e1 = spec_effect r (durable e) ∧ same_rest e e1 ∧ e_ledger e1 = spec_log (e_ledger e) r
    ∧ e_marks e1 = e_marks e ∧ e_epoch e1 = e_epoch e) as Hledger.
  { intros e0 (H1&H2&H3&H4&H5&H6). cbv zeta. unfold spec_log. rewrite Hacc. cbn [andb].
    destruct ((1 <=? w_effect r) && (w_effect r <=? 4)); [|by split_and!].
    rewrite H4. split_and!; try done; [by destruct H1|by destruct H3]. }
  unfold applyEffect. cbv zeta. apply Hledger. clear Hledger. unfold spec_effect.
  destruct (w_effect r =? 1) eqn:E1.
  { destruct (write_account_ok e (w_a r) aSlot Hok Ha (created r) eq_refl) as (?&?&?&?&?&?). done. }
  destruct (w_effect r =? 2) eqn:E2.
  { apply Z.eqb_eq in E2. destruct (present_of_acct e _ _ Ha (F1 (or_introl E2))) as [Hp Hseen]. rewrite Hseen.
    rewrite (set_account_present e _ _ Hp). by apply write_account_ok. }
  destruct (w_effect r =? 3) eqn:E3.
  { apply Z.eqb_eq in E3. destruct (F3 E3) as (Xa&Xb&Hne&_). specialize (Hb E3).
    destruct (present_of_acct e _ _ Ha Xa) as [Hpa Hsa], (present_of_acct e _ _ Hb Xb) as [Hpb Hsb].
    rewrite Hsa, Hsb, (set_account_present e _ _ Hpa).
    destruct (write_account_ok e (w_a r) aSlot Hok Ha (bump (w_newBalanceA r) (account_at e aSlot)) Ia)
      as (O1&D1&R1&L1&M1&P1).
    assert (aSlot ≠ bSlot) as Hslots by (intros ->; apply Hne; by eapply slot_inj).
    assert (e_ids (write_account e aSlot (bump (w_newBalanceA r) (account_at e aSlot))) !! w_b r = Some bSlot) as Hb' by done.
    assert (present_at (write_account e aSlot (bump (w_newBalanceA r) (account_at e aSlot))) bSlot = true) as Hpb'.
    { unfold present_at in *. cbn. by rewrite list_lookup_insert_ne. }
    rewrite (set_account_present _ _ _ Hpb').
    destruct (write_account_ok _ _ _ O1 Hb' (bump (w_newBalanceB r) (account_at e bSlot)))
      as (O2&D2&R2&L2&M2&P2); [by apply (slot_account_id e)|].
    rewrite D2, D1, L2, L1, M2, M1, P2, P1. split; [done|]. split; [done|]. split; [by eapply same_rest_trans|done]. }
  destruct (w_effect r =? 4) eqn:E4.
  { apply Z.eqb_eq in E4. destruct (present_of_acct e _ _ Ha (F1 (or_intror E4))) as [Hp Hseen]. rewrite Hseen.
    rewrite (set_account_present e _ _ Hp). by apply write_account_ok. }
  split_and!; done || apply same_rest_refl.
Qed.

Lemma staged_of_acct e id s : e_ids e !! id = Some s → is_Some (acct (staged e) id) →
  seen (staged e) id = accountFor e s true.
Proof.
  intros Hs. unfold seen. rewrite (staged_acct e id s Hs). destruct (_ || _); [done|]. by intros [? ?].
Qed.

Lemma stageEffect_ok e r aSlot bSlot :
  slots_ok e → e_epoch e ≠ 0 → e_ids e !! w_a r = Some aSlot → (w_effect r = 3 → e_ids e !! w_b r = Some bSlot) →
  fits (staged e) r → w_accepted r = true →
  slots_ok (stageEffect aSlot bSlot r e) ∧ durable (stageEffect aSlot bSlot r e) = durable e
  ∧ staged (stageEffect aSlot bSlot r e) = spec_effect r (staged e)
  ∧ same_rest e (stageEffect aSlot bSlot r e) ∧ e_ledger (stageEffect aSlot bSlot r e) = e_ledger e
  ∧ e_epoch (stageEffect aSlot bSlot r e) = e_epoch e.
Proof.
  intros Hok Hep Ha Hb Hf Hacc. destruct (Hf Hacc) as [F1 F3]. unfold stageEffect, spec_effect.
  destruct (w_effect r =? 1) eqn:E1; [by apply set_scratch_ok|].
  destruct (w_effect r =? 2) eqn:E2.
  { apply Z.eqb_eq in E2. rewrite (staged_of_acct e _ _ Ha (F1 (or_introl E2))). by apply set_scratch_ok. }
  destruct (w_effect r =? 3) eqn:E3.
  { apply Z.eqb_eq in E3. destruct (F3 E3) as (Xa&Xb&Hne&_). specialize (Hb E3).
    rewrite (staged_of_acct e _ _ Ha Xa), (staged_of_acct e _ _ Hb Xb).
    destruct (set_scratch_ok e (w_a r) aSlot Hok Ha (bump (w_newBalanceA r) (accountFor e aSlot true)) Hep)
      as (O1&D1&S1&R1&L1&P1).
    destruct (set_scratch_ok (set_scratch aSlot (bump (w_newBalanceA r) (accountFor e aSlot true)) e) (w_b r) bSlot
      O1 Hb (bump (w_newBalanceB r) (accountFor e bSlot true)) Hep) as (O2&D2&S2&R2&L2&P2).
    rewrite D2, D1, S2, S1, L2, L1. split; [done|]. split; [done|]. split; [done|].
    split; [by eapply same_rest_trans|done]. }
  destruct (w_effect r =? 4) eqn:E4.
  { apply Z.eqb_eq in E4. rewrite (staged_of_acct e _ _ Ha (F1 (or_intror E4))). by apply set_scratch_ok. }
  split_and!; done || apply same_rest_refl.
Qed.

(** ** The window of results *)

Definition results_of (e : engine) : list Result :=
  map (λ id, default zeroCoreResult (e_results e !! id)) (drop (e_orderHead e) (e_order e)).

Record dedupe_ok (e : engine) : Prop := {
  do_window : 0 < DedupeWindow (e_cfg e);
  do_head : (e_orderHead e ≤ length (e_order e))%nat;
  do_length : zlen (drop (e_orderHead e) (e_order e)) ≤ DedupeWindow (e_cfg e);
  do_nodup : NoDup (drop (e_orderHead e) (e_order e));
  do_dom : ∀ id, is_Some (e_results e !! id) ↔ id ∈ drop (e_orderHead e) (e_order e);
  do_id : ∀ id r, e_results e !! id = Some r → rt_CommandID r = id }.

Lemma retained_lookup e id : dedupe_ok e → retained (results_of e) id = e_results e !! id.
Proof.
  intros [_ _ _ Hn Hd Hi]. unfold retained, results_of. revert Hn Hd.
  generalize (drop (e_orderHead e) (e_order e)). intros l Hn Hd.
  assert (∀ k, k ∈ l → is_Some (e_results e !! k)) as Hl by (intros; by apply Hd).
  assert (is_Some (e_results e !! id) → id ∈ l) as Hid by apply Hd. clear Hd.
  induction l as [|k l IH]; cbn [map].
  - destruct (e_results e !! id); [|done]. by destruct (not_elem_of_nil id); apply Hid.
  - apply NoDup_cons in Hn as [Hk Hn]. destruct (Hl k ltac:(left)) as [r Hr]. rewrite Hr. cbn [default from_option].
    change (Datatypes.id r) with r. rewrite filter_cons. case_decide as E;
      [rewrite (Hi k r Hr) in E; subst k; cbn; congruence|].
    apply IH; [done|intros; apply Hl; by right|]. intros Hs. apply Hid in Hs as [->|?]%elem_of_cons; [|done].
    by rewrite (Hi k r Hr) in E.
Qed.

Lemma remember_ok e id r :
  dedupe_ok e → e_results e !! id = None → rt_CommandID r = id →
  dedupe_ok (remember id r e) ∧ results_of (remember id r e) = spec_remember (DedupeWindow (e_cfg e)) (results_of e) r.
Proof.
  intros [W1 W2 W3 W4 W5 W6] Hid Hr. set (a := drop (e_orderHead e) (e_order e)) in *.
  assert (id ∉ a) as Hna by (intros H%W5; rewrite Hid in H; by destruct H).
  assert (drop (e_orderHead e) (e_order e ++ [id]) = a ++ [id]) as Ea by (by rewrite drop_app_le).
  (** The engine with the active identities [l] and the results [m]. *)
  assert (∀ l m order head,
    drop head order = l → (head ≤ length order)%nat → zlen l ≤ DedupeWindow (e_cfg e) → NoDup l →
    (∀ i, is_Some (m !! i) ↔ i ∈ l) → (∀ i x, m !! i = Some x → rt_CommandID x = i) →
    let e1 := if (DedupeWindow (e_cfg e) <=? Z.of_nat head) && (zlen order <=? Z.of_nat head * 2)
              then set_dedupe m (drop head order) 0 e else set_dedupe m order head e in
    dedupe_ok e1 ∧ results_of e1 = map (λ i, default zeroCoreResult (m !! i)) l) as Hpack.
  { intros l m order head El Hh Hlen Hnd Hdom Hids. cbv zeta. unfold results_of.
    destruct (_ && _); (split; [split|]); cbn [set_dedupe e_orderHead e_order e_results e_cfg];
      rewrite ?drop_0, ?El; try done; lia. }
  unfold remember. cbv zeta.
  assert (zlen (e_order e ++ [id]) - Z.of_nat (e_orderHead e) = zlen a + 1) as ->.
  { unfold a, zlen. rewrite length_app, length_drop. cbn. lia. }
  assert (results_of e = map (λ i, default zeroCoreResult (e_results e !! i)) a) as -> by done.
  assert (∀ l : list bytes, zlen (map (λ i, default zeroCoreResult (e_results e !! i)) l ++ [r]) = zlen l + 1) as Hza.
  { intros l. rewrite zlen_app. unfold zlen. rewrite length_map. cbn. lia. }
  unfold spec_remember. rewrite Hza.
  assert (∀ l, id ∉ l → map (λ i, default zeroCoreResult (<[id:=r]> (e_results e) !! i)) l
    = map (λ i, default zeroCoreResult (e_results e !! i)) l) as Hold.
  { intros l Hl. apply map_ext_in. intros i Hi%list_elem_of_In. by rewrite lookup_insert_ne by (intros ->; done). }
  destruct (DedupeWindow (e_cfg e) <? zlen a + 1) eqn:Ew; bool_to_prop.
  - destruct a as [|old a'] eqn:Ea'; [unfold zlen in Ew; cbn in Ew; lia|].
    apply not_elem_of_cons in Hna as [Hn1 Hn2]. apply NoDup_cons in W4 as [Ho Hnd].
    assert ((e_order e ++ [id]) !! e_orderHead e = Some old) as ->.
    { rewrite <- (Nat.add_0_r (e_orderHead e)), <- lookup_drop, Ea. done. }
    destruct (Hpack (a' ++ [id]) (delete old (<[id:=r]> (e_results e))) (e_order e ++ [id]) (S (e_orderHead e))) as [P1 P2].
    + replace (S (e_orderHead e)) with (e_orderHead e + 1)%nat by lia. rewrite <- drop_drop, Ea. done.
    + rewrite length_app. cbn. lia.
    + rewrite zlen_app. unfold zlen in *. cbn in *. lia.
    + apply NoDup_app. split; [done|]. split; [|apply NoDup_singleton]. intros x Hx ->%list_elem_of_singleton. done.
    + intros i. rewrite lookup_delete, lookup_insert, elem_of_app, list_elem_of_singleton. specialize (W5 i).
      rewrite elem_of_cons in W5. repeat case_decide; subst; naive_solver.
    + intros i x. rewrite lookup_delete, lookup_insert. repeat case_decide; subst; [done| |apply W6]. by intros [= <-].
    + split; [exact P1|]. rewrite P2. rewrite !map_app. cbn [map app drop]. rewrite drop_0. f_equal.
      * etrans; [|apply (Hold a' Hn2)]. apply map_ext_in. intros i Hi%list_elem_of_In. rewrite lookup_delete_ne; [done|]. intros ->. done.
      * rewrite lookup_delete_ne, lookup_insert_eq by done. done.
  - destruct (Hpack (a ++ [id]) (<[id:=r]> (e_results e)) (e_order e ++ [id]) (e_orderHead e)) as [P1 P2].
    + done.
    + rewrite length_app. lia.
    + rewrite zlen_app. unfold zlen in *. cbn. lia.
    + apply NoDup_app. split; [done|]. split; [|apply NoDup_singleton]. intros x Hx ->%list_elem_of_singleton. done.
    + intros i. rewrite lookup_insert, elem_of_app, list_elem_of_singleton, <- W5.
      case_decide; [|naive_solver]. subst. split; [by right|eauto].
    + intros i x. rewrite lookup_insert. case_decide; [|apply W6]. subst. by intros [= <-].
    + split; [exact P1|]. rewrite P2, map_app. cbn [map]. by rewrite Hold, lookup_insert_eq.
Qed.

(** ** The engine as a ledger *)

Record engine_ok (e : engine) : Prop := {
  eo_slots : slots_ok e;
  eo_dedupe : dedupe_ok e;
  eo_epoch : 0 ≤ e_epoch e < 2 ^ 32;
  eo_marks : Forall (λ m, 0 ≤ m ≤ e_epoch e) (e_marks e) }.

Definition abs (e : engine) : ledger :=
  {| lg_entries := durable e; lg_log := e_ledger e; lg_results := results_of e; lg_sequence := e_sequence e |}.

Definition window_of (e : engine) : Z := DedupeWindow (e_cfg e).

(** The slot of the first account, known or new. *)
Lemma slot_create_ok e id :
  slots_ok e → zlen (e_accounts e) < 2 ^ 32 →
  ∃ s, slot id true e = ((s, true), grown id e) ∧ slots_ok (grown id e) ∧ e_ids (grown id e) !! id = Some s
    ∧ (∀ i t, e_ids e !! i = Some t → e_ids (grown id e) !! i = Some t)
    ∧ zlen (e_accounts (grown id e)) ≤ zlen (e_accounts e) + 1
    ∧ (grown id e = e ∨ e_ids e !! id = None
        ∧ durable (grown id e) = <[id := {| en_account := None; en_agent := zeroAgent |}]> (durable e)
        ∧ staged (grown id e) = <[id := {| en_account := None; en_agent := zeroAgent |}]> (staged e)).
Proof.
  intros Hok Hb. destruct (e_ids e !! id) as [s|] eqn:E.
  - assert (grown id e = e) as Eg by (unfold grown; by rewrite (slot_known _ _ _ _ E)).
    exists s. rewrite Eg, (slot_known _ _ _ _ E). split_and!; try done; [lia|by left].
  - exists (length (e_accounts e)). rewrite slot_new by done. split; [done|]. split; [by apply grown_ok|].
    rewrite (grown_ids e id E Hb). split; [apply lookup_insert_eq|]. split.
    { intros i t Hi. rewrite lookup_insert_ne; [done|]. congruence. }
    split; [destruct (grown_fields e id E) as (->&_); rewrite zlen_app; done|]. right.
    split; [done|]. split; [by apply grown_durable|by apply grown_staged].
Qed.

Lemma grown_same e id :
  e_cfg (grown id e) = e_cfg e ∧ e_ledger (grown id e) = e_ledger e ∧ e_results (grown id e) = e_results e
  ∧ e_order (grown id e) = e_order e ∧ e_orderHead (grown id e) = e_orderHead e
  ∧ e_sequence (grown id e) = e_sequence e ∧ e_epoch (grown id e) = e_epoch e
  ∧ (e_marks (grown id e) = e_marks e ∨ e_marks (grown id e) = e_marks e ++ [0]).
Proof.
  destruct (e_ids e !! id) as [s|] eqn:E.
  - unfold grown. rewrite (slot_known _ _ _ _ E). split_and!; try done. by left.
  - destruct (grown_fields e id E) as (_&_&_&_&?&?), (grown_rest e id E) as (?&?&?&?&?&?). split_and!; try done. by right.
Qed.

Lemma grown_spec e id r :
  slots_ok e → zlen (e_accounts e) < 2 ^ 32 → w_a r = id →
  spec_entries (durable (grown id e)) r = spec_entries (durable e) r ∧ (∀ i, acct (durable (grown id e)) i = acct (durable e) i).
Proof.
  intros Hok Hb <-. destruct (slot_create_ok e (w_a r) Hok Hb) as (s&_&_&_&_&_&[->|(Hn&->&_)]); [done|].
  assert (durable e !! w_a r = None) as Hd by (unfold durable; by rewrite lookup_fmap, Hn).
  split; [by apply spec_entries_grown|]. intros i. unfold acct. rewrite lookup_insert. case_decide; [subst; by rewrite Hd|done].
Qed.

Lemma dedupe_ok_same e e' :
  e_cfg e' = e_cfg e → e_results e' = e_results e → e_order e' = e_order e → e_orderHead e' = e_orderHead e →
  dedupe_ok e → dedupe_ok e' ∧ results_of e' = results_of e.
Proof.
  intros E1 E2 E3 E4 [H1 H2 H3 H4 H5 H6]. unfold results_of. rewrite E2, E3, E4. split; [|done].
  split; rewrite ?E1, ?E2, ?E3, ?E4; done.
Qed.

(** [remember] changes the window only. *)
Lemma remember_slots id r e :
  e_cfg (remember id r e) = e_cfg e ∧ e_ids (remember id r e) = e_ids e ∧ e_accounts (remember id r e) = e_accounts e
  ∧ e_present (remember id r e) = e_present e ∧ e_agents (remember id r e) = e_agents e
  ∧ e_ledger (remember id r e) = e_ledger e ∧ e_scratch (remember id r e) = e_scratch e
  ∧ e_marks (remember id r e) = e_marks e ∧ e_epoch (remember id r e) = e_epoch e
  ∧ e_sequence (remember id r e) = e_sequence e.
Proof. unfold remember. cbv zeta. destruct (_ <? _), (_ && _); done. Qed.

Lemma finish_ok id r q e :
  slots_ok e → slots_ok (set_sequence q (remember id r e)) ∧ durable (set_sequence q (remember id r e)) = durable e
  ∧ staged (set_sequence q (remember id r e)) = staged e.
Proof.
  intros [H1 H2 H3 H4 H5 H6]. destruct (remember_slots id r e) as (E1&E2&E3&E4&E5&E6&E7&E8&E9&E10).
  split; [split|split]; cbn; rewrite ?E2, ?E3, ?E4, ?E5, ?E7, ?E8; try done.
  - intros s a. unfold present_at. cbn. rewrite E4. apply H6.
  - unfold durable. cbn. rewrite ?E2. apply map_fmap_ext. intros i s _. unfold durable_entry, present_at, account_at, agent_at.
    cbn. by rewrite E3, E4, E5.
  - unfold staged. cbn. rewrite ?E2. apply map_fmap_ext. intros i s _.
    unfold staged_entry, accountFor, present_at, account_at, agent_at, marked, mark_at, scratch_at.
    cbn. by rewrite E3, E4, E5, E7, E8, E9.
Qed.

Lemma applyDurable_ok e r :
  engine_ok e → zlen (e_accounts e) < 2 ^ 32 → fits (durable e) r → e_results e !! w_commandID r = None →
  engine_ok (applyDurable r e) ∧ abs (applyDurable r e) = spec_apply (window_of e) (abs e) r
  ∧ e_cfg (applyDurable r e) = e_cfg e ∧ zlen (e_accounts (applyDurable r e)) ≤ zlen (e_accounts e) + 1.
Proof.
  intros [Hok Hd Hep Hm] Hb Hf Hid. unfold applyDurable.
  destruct (slot_create_ok e (w_a r) Hok Hb) as (aSlot&->&Og&Ha&Hmono&Hlen&_).
  destruct (grown_spec e (w_a r) r Hok Hb eq_refl) as [Sg Sa].
  destruct (grown_same e (w_a r)) as (G1&G2&G3&G4&G5&G6&G7&G8).
  set (g := grown (w_a r) e) in *. set (bSlot := (other_slot (w_b r) g).1).
  assert (fits (durable g) r) as Hfg.
  { intros Hacc. destruct (Hf Hacc) as [F1 F3]. unfold fits in *. rewrite !Sa. done. }
  assert (w_accepted r = true → w_effect r = 3 → e_ids g !! w_b r = Some bSlot) as Hbs.
  { intros Hacc E3. destruct (Hfg Hacc) as [_ F3]. destruct (F3 E3) as (_&[a Hacct]&_&Hb0). unfold bSlot, other_slot.
    rewrite (proj2 (Z.eqb_neq _ _)) by done. unfold durable in Hacct. rewrite entries_acct in Hacct.
    destruct (e_ids g !! w_b r) as [s|] eqn:Es; [|done]. by rewrite (slot_known _ _ _ _ Es). }
  set (e1 := if w_accepted r then applyEffect aSlot bSlot r g else g).
  assert (slots_ok e1 ∧ durable e1 = (if w_accepted r then spec_effect r (durable g) else durable g)
    ∧ same_rest g e1 ∧ e_ledger e1 = spec_log (e_ledger g) r ∧ e_marks e1 = e_marks g ∧ e_epoch e1 = e_epoch g)
    as (O1&D1&R1&L1&M1&P1).
  { unfold e1. destruct (w_accepted r) eqn:Hacc; [by apply applyEffect_ok; auto|].
    unfold spec_log. rewrite Hacc. split_and!; try done. }
  assert (e_ids e1 !! w_a r = Some aSlot) as Ha1 by (by rewrite (sr_ids _ _ R1)).
  destruct (set_agent_ok e1 (w_a r) aSlot O1 Ha1 (agent_of r)) as (O2&D2&_&R2&L2).
  set (e2 := set_agent aSlot {| ag_Pending := pending_of r; ag_Turns := w_turns r |} e1) in *.
  change (set_agent aSlot (agent_of r) e1) with e2 in O2, D2, R2, L2.
  pose proof (same_rest_trans _ _ _ R1 R2) as [C1 C2 C3 C4 C5 C6 C7].
  destruct (dedupe_ok_same e e2) as [Hd2 Hr2]; [congruence..|done|].
  assert (e_results e2 !! w_commandID r = None) as Hid2 by (rewrite C3, G3; done).
  destruct (remember_ok e2 (w_commandID r) (result_of r) Hd2 Hid2 eq_refl) as [Hd3 Hr3].
  destruct (finish_ok (w_commandID r) (result_of r) (w_sequence r) e2 O2) as (O4&D4&_).
  destruct (remember_slots (w_commandID r) (result_of r) e2) as (E1&E2&E3&E4&E5&E6&E7&E8&E9&E10).
  split; [split|split; [|split]].
  - done.
  - by destruct (dedupe_ok_same (remember (w_commandID r) (result_of r) e2)
      (set_sequence (w_sequence r) (remember (w_commandID r) (result_of r) e2))).
  - cbn. rewrite E9. cbn. by rewrite P1, G7.
  - cbn. rewrite E8, E9. cbn. rewrite M1, P1, G7. destruct G8 as [-> | ->]; [done|]. apply Forall_app. split; [done|].
    constructor; [lia|constructor].
  - unfold abs, spec_apply. cbn [lg_entries lg_log lg_results lg_sequence]. f_equal.
    + rewrite D4, D2, <- Sg. unfold spec_entries. by rewrite D1.
    + cbn. rewrite E6, L2, L1, G2. done.
    + etrans; [|etrans; [exact Hr3|]]; [done|]. unfold window_of. by rewrite Hr2, C1, G1.
  - rewrite <- G1, <- C1. exact E1.
  - cbn. rewrite E3. unfold zlen in *. rewrite C7. done.
Qed.
