(* ===== verification/CoreHistory.v ===== *)
(** * Batches and histories

    Deciding a batch with staged effects, and applying its records: the loop of
    [SubmitBatch] in [internal/core/core.go] against the ledger of
    [CoreSpec.v]. *)

From Stdlib Require Import ZArith Lia Strings.Byte Strings.String.
From stdpp Require Import base decidable countable list gmap.
From S2P Require Import Prelude GoText Errors CoreTypes CoreEngine Core CoreSpec CoreRefinement.

Local Open Scope Z_scope.

(** ** What a command sees *)

(** Decisions depend on the balance and the status of the accounts only. *)
Lemma decideGo_ext c a a' aok b b' bok p :
  ac_Balance a = ac_Balance a' → ac_Status a = ac_Status a' → ac_Balance b = ac_Balance b' →
  decideGo c a aok b bok p = decideGo c a' aok b' bok p.
Proof. intros E1 E2 E3. unfold decideGo. by rewrite E1, E2, E3. Qed.

Lemma agents_same e id : agent (staged e) id = agent (durable e) id.
Proof. unfold staged, durable. by rewrite !entries_agent. Qed.

(** Two accounts that decisions and records cannot tell apart. *)
Definition alike (a a' : Account) : Prop :=
  ac_Balance a = ac_Balance a' ∧ ac_Status a = ac_Status a' ∧ ac_Version a = ac_Version a'.

Lemma view_account e id s :
  slots_ok e → e_ids e !! id = Some s →
  (present_at e s || marked e s) = bool_decide (is_Some (acct (staged e) id))
  ∧ alike (accountFor e s true) (seen (staged e) id).
Proof.
  intros Hok Hs. unfold seen. rewrite (staged_acct e id s Hs).
  destruct (present_at e s || marked e s) eqn:E; [done|]. apply orb_false_iff in E as [Ep Em].
  split; [done|]. unfold accountFor. cbn [negb]. rewrite Em.
  apply (so_ids e Hok) in Hs as (a&Ha&_). unfold account_at. rewrite Ha. cbn.
  by rewrite (so_absent e Hok s a Ha Ep).
Qed.

Lemma other_view e id :
  slots_ok e →
  let '(s, ok) := other_slot id e in
  let b := if id =? 0 then None else acct (staged e) id in
  (ok && (present_at e s || marked e s)) = bool_decide (is_Some b)
  ∧ alike (accountFor e s ok) (default zeroAccount b)
  ∧ (ok = true → e_ids e !! id = Some s).
Proof.
  intros Hok. unfold other_slot. destruct (id =? 0); [done|].
  destruct (e_ids e !! id) as [s|] eqn:E.
  - rewrite (slot_known _ _ _ _ E). cbn [fst]. destruct (view_account e id s Hok E). split; [done|]. split; [done|by intros _].
  - rewrite (slot_unknown _ _ E). cbn [fst]. unfold staged. rewrite entries_acct, E. done.
Qed.

(** The slot of the account of a command. *)
Record slot_taken (e : engine) (id : Z) (create : bool) (s : nat) (ok : bool) (e1 : engine) : Prop := {
  st_ok : slots_ok e1;
  st_known : ok = true → e_ids e1 !! id = Some s;
  st_unknown : ok = false → e1 = e ∧ e_ids e !! id = None ∧ create = false;
  st_mono : ∀ i t, e_ids e !! i = Some t → e_ids e1 !! i = Some t;
  st_new : ∀ i, is_Some (e_ids e1 !! i) → is_Some (e_ids e !! i) ∨ i = id ∧ ok = true;
  st_acct : ∀ i, acct (staged e1) i = acct (staged e) i;
  st_durable : ∀ i, acct (durable e1) i = acct (durable e) i;
  st_agent : ∀ i, agent (staged e1) i = agent (staged e) i;
  st_length : zlen (e_accounts e1) ≤ zlen (e_accounts e) + 1;
  st_epoch : e_epoch e1 = e_epoch e;
  st_marks : Forall (λ m, 0 ≤ m ≤ e_epoch e) (e_marks e) → Forall (λ m, 0 ≤ m ≤ e_epoch e1) (e_marks e1);
  st_rest : e_cfg e1 = e_cfg e ∧ e_ledger e1 = e_ledger e ∧ e_results e1 = e_results e ∧ e_order e1 = e_order e
    ∧ e_orderHead e1 = e_orderHead e ∧ e_sequence e1 = e_sequence e }.

Lemma slot_taken_same e id create s : slots_ok e → e_ids e !! id = Some s → slot_taken e id create s true e.
Proof. intros Hok Hs. split; try done; [by left|lia]. Qed.

Lemma slot_takes e id create :
  slots_ok e → zlen (e_accounts e) < 2 ^ 32 → 0 ≤ e_epoch e →
  ∃ s ok e1, slot id create e = ((s, ok), e1) ∧ slot_taken e id create s ok e1.
Proof.
  intros Hok Hb Hep. destruct (e_ids e !! id) as [s|] eqn:E.
  { exists s, true, e. rewrite (slot_known _ _ _ _ E). split; [done|]. by apply slot_taken_same. }
  destruct create.
  2:{ exists 0%nat, false, e. rewrite (slot_unknown _ _ E). split; [done|]. split; try done; [by left|lia]. }
  destruct (slot_create_ok e id Hok Hb) as (s&Hs&Og&Hi&Hm&Hl&[Heq|(_&Hd&Ht)]).
  { rewrite Heq in *. congruence. }
  destruct (grown_same e id) as (G1&G2&G3&G4&G5&G6&G7&G8).
  exists s, true, (grown id e). split; [done|]. split; try done.
  - intros i. rewrite (grown_ids e id E Hb), lookup_insert. case_decide; [by right|by left].
  - intros i. rewrite Ht. unfold acct. rewrite lookup_insert. case_decide; [|done]. subst i. unfold staged.
    by rewrite lookup_fmap, E.
  - intros i. rewrite Hd. unfold acct. rewrite lookup_insert. case_decide; [|done]. subst i. unfold durable.
    by rewrite lookup_fmap, E.
  - intros i. rewrite Ht. unfold agent. rewrite lookup_insert. case_decide; [|done]. subst i. unfold staged.
    by rewrite lookup_fmap, E.
  - intros HF. rewrite G7. destruct G8 as [-> | ->]; [done|]. apply Forall_app. split; [done|]. constructor; [lia|constructor].
Qed.

(** ** One command *)

(** The record of a new command. *)
Definition batch_record (bt : batch) (c : Command) : walRecord :=
  spec_record (u64 (e_sequence (b_engine bt) + zlen (b_records bt) + 1)) (staged (b_engine bt)) c.

Record step_result (bt : batch) (c : Command) (e' : engine) : Prop := {
  sp_ok : slots_ok e';
  sp_acct : ∀ i, acct (staged e') i = acct (spec_entries (staged (b_engine bt)) (batch_record bt c)) i;
  sp_durable : ∀ i, acct (durable e') i = acct (durable (b_engine bt)) i;
  sp_known : is_Some (e_ids e' !! cm_Account c) → agent (staged e') (cm_Account c) = agent_of (batch_record bt c);
  sp_agent : ∀ i, i ≠ cm_Account c → agent (staged e') i = agent (staged (b_engine bt)) i;
  sp_mono : ∀ i t, e_ids (b_engine bt) !! i = Some t → e_ids e' !! i = Some t;
  sp_new : ∀ i, is_Some (e_ids e' !! i) → is_Some (e_ids (b_engine bt) !! i) ∨ i = cm_Account c;
  sp_length : zlen (e_accounts e') ≤ zlen (e_accounts (b_engine bt)) + 1;
  sp_epoch : e_epoch e' = e_epoch (b_engine bt);
  sp_marks : Forall (λ m, 0 ≤ m ≤ e_epoch e') (e_marks e');
  sp_rest : e_cfg e' = e_cfg (b_engine bt) ∧ e_ledger e' = e_ledger (b_engine bt)
    ∧ e_results e' = e_results (b_engine bt) ∧ e_order e' = e_order (b_engine bt)
    ∧ e_orderHead e' = e_orderHead (b_engine bt) ∧ e_sequence e' = e_sequence (b_engine bt) }.

Lemma stage_marks a b r e :
  0 ≤ e_epoch e → Forall (λ m, 0 ≤ m ≤ e_epoch e) (e_marks e) →
  Forall (λ m, 0 ≤ m ≤ e_epoch e) (e_marks (stageEffect a b r e)).
Proof.
  intros He Hm. unfold stageEffect. repeat case_match; cbn; try done; repeat apply Forall_insert; try done; lia.
Qed.

(** An accepted command with an effect has a slot. *)
Lemma effect_known c (ea eb : option Account) p :
  let d := decideGo c (default zeroAccount ea) (bool_decide (is_Some ea)) (default zeroAccount eb)
             (bool_decide (is_Some eb)) p in
  d_accepted d = true → d_effect d ≠ 0 → cm_Kind c = Create ∨ is_Some ea.
Proof.
  intros d Hacc Hne. destruct (decideGo_effect c _ _ _ _ p Hacc) as (Hr&H1&H2&H3). fold d in Hr, H1, H2, H3.
  assert (d_effect d = 1 ∨ (d_effect d = 2 ∨ d_effect d = 4) ∨ d_effect d = 3) as [E|[E|E]] by lia.
  - left. by apply H1.
  - right. specialize (H2 E). by apply bool_decide_eq_true in H2.
  - right. destruct (H3 E) as [Ha _]. by apply bool_decide_eq_true in Ha.
Qed.

Lemma agent_update ok s g id e :
  slots_ok e → (ok = true → e_ids e !! id = Some s) →
  let e' := if ok then set_agent s g e else e in
  slots_ok e' ∧ (∀ i, acct (staged e') i = acct (staged e) i) ∧ (∀ i, acct (durable e') i = acct (durable e) i)
  ∧ (ok = true → agent (staged e') id = g) ∧ (∀ i, i ≠ id → agent (staged e') i = agent (staged e) i)
  ∧ e_ids e' = e_ids e ∧ length (e_accounts e') = length (e_accounts e) ∧ e_epoch e' = e_epoch e ∧ e_marks e' = e_marks e
  ∧ e_cfg e' = e_cfg e ∧ e_ledger e' = e_ledger e ∧ e_results e' = e_results e ∧ e_order e' = e_order e
  ∧ e_orderHead e' = e_orderHead e ∧ e_sequence e' = e_sequence e.
Proof.
  intros Hok Hs. destruct ok; intros e'; unfold e'; [|split_and!; done].
  destruct (set_agent_ok e id s Hok (Hs eq_refl) g) as (O&D&S&_).
  split_and!; try done.
  - intros i. rewrite S. apply acct_put_agent.
  - intros i. rewrite D. apply acct_put_agent.
  - intros _. rewrite S, agent_put_agent. by rewrite decide_True.
  - intros i Hi. rewrite S, agent_put_agent. by rewrite decide_False.
Qed.

Lemma batch_step_new bt c :
  slots_ok (b_engine bt) → zlen (e_accounts (b_engine bt)) < 2 ^ 32 → 0 < e_epoch (b_engine bt) →
  Forall (λ m, 0 ≤ m ≤ e_epoch (b_engine bt)) (e_marks (b_engine bt)) →
  ValidateCommand c = Ok tt → e_results (b_engine bt) !! cm_ID c = None → b_ids bt !! cm_ID c = None →
  ∃ e', batch_step bt c = {| b_engine := e'; b_records := b_records bt ++ [batch_record bt c];
                             b_results := b_results bt ++ [result_of (batch_record bt c)];
                             b_ids := <[cm_ID c := length (b_results bt)]> (b_ids bt) |}
    ∧ step_result bt c e'.
Proof.
  destruct bt as [e rs res ids]. cbn [b_engine b_records b_results b_ids]. intros Hok Hb Hep Hm Hv Hr Hi.
  unfold batch_step. cbn [b_engine b_records b_results b_ids]. rewrite Hr, Hi.
  destruct (slot_takes e (cm_Account c) (isKind (cm_Kind c) Create) Hok Hb ltac:(lia)) as (s&ok&e1&->&T).
  pose proof (other_view e1 (cm_Other c) (st_ok _ _ _ _ _ _ T)) as Ho. destruct (other_slot (cm_Other c) e1) as [t okb].
  destruct Ho as (Hbx&Hba&Hbk). set (r := batch_record {| b_engine := e; b_records := rs; b_results := res; b_ids := ids |} c).
  (** What the command sees is what the ledger has. *)
  assert ((ok && (present_at e1 s || marked e1 s)) = bool_decide (is_Some (acct (staged e) (cm_Account c)))
    ∧ alike (accountFor e1 s ok) (seen (staged e) (cm_Account c))
    ∧ (if ok then agent_at e1 s else zeroAgent) = agent (staged e) (cm_Account c)) as (Hax&Haa&Hag).
  { rewrite <- (st_agent _ _ _ _ _ _ T). unfold seen. rewrite <- (st_acct _ _ _ _ _ _ T). destruct ok.
    - pose proof (st_known _ _ _ _ _ _ T eq_refl) as Hs. destruct (view_account e1 _ s (st_ok _ _ _ _ _ _ T) Hs) as [V1 V2].
      split; [exact V1|]. split; [exact V2|]. symmetry. by apply staged_agent.
    - destruct (st_unknown _ _ _ _ _ _ T eq_refl) as (->&Hn&_). unfold staged. rewrite entries_acct, entries_agent, Hn. done. }
  set (eb := if cm_Other c =? 0 then None else acct (staged e1) (cm_Other c)) in *.
  assert (eb = if cm_Other c =? 0 then None else acct (staged e) (cm_Other c)) as Eb.
  { unfold eb. by rewrite (st_acct _ _ _ _ _ _ T). }
  rewrite Hax, Hbx, Hag. destruct Haa as (A1&A2&A3), Hba as (B1&B2&B3).
  rewrite (decideGo_ext c _ (seen (staged e) (cm_Account c)) _ _ (default zeroAccount eb) _ _ A1 A2 B1).
  assert (e_sequence e1 = e_sequence e) as -> by apply T.
  set (d := decideGo c _ _ _ _ _).
  assert (make_record (u64 (e_sequence e + zlen rs + 1)) c d (accountFor e1 s ok) (accountFor e1 t okb)
    (i64 (ag_Turns (agent (staged e) (cm_Account c)) + 1)) (next_pending c d (ag_Pending (agent (staged e) (cm_Account c)))) = r) as Er.
  { unfold r, batch_record, spec_record, record_with. cbn [b_engine b_records]. rewrite <- Eb. fold d. unfold make_record. by rewrite A3, B3. }
  rewrite Er. set (e2 := if d_accepted d then stageEffect s t r e1 else e1).
  assert (w_accepted r = d_accepted d ∧ w_effect r = d_effect d ∧ w_a r = cm_Account c ∧ w_b r = cm_Other c)
    as (R1&R2&R3&R4) by (by rewrite <- Er).
  assert (fits (staged e) r) as Hf by (by apply record_with_fits).
  assert (slots_ok e2 ∧ (∀ i, acct (durable e2) i = acct (durable e1) i)
    ∧ (∀ i, acct (staged e2) i = acct (if w_accepted r then spec_effect r (staged e) else staged e) i)
    ∧ (∀ i, agent (staged e2) i = agent (staged e) i) ∧ same_rest e1 e2 ∧ e_ledger e2 = e_ledger e1 ∧ e_epoch e2 = e_epoch e1
    ∧ Forall (λ m, 0 ≤ m ≤ e_epoch e2) (e_marks e2)) as (O2&D2&S2&G2&R5&L2&P2&M2).
  { pose proof (st_marks _ _ _ _ _ _ T Hm) as Hm1. pose proof (st_epoch _ _ _ _ _ _ T) as Ep1. unfold e2.
    rewrite R1. destruct (d_accepted d) eqn:Hacc.
    2:{ split_and!; try done; [apply T|apply T|apply T]. }
    destruct (decide (d_effect d = 0)) as [E0|E0].
    { assert (stageEffect s t r e1 = e1) as -> by (unfold stageEffect; by rewrite R2, E0).
      split_and!; try done; [apply T| |apply T]. intros i. rewrite (st_acct _ _ _ _ _ _ T). unfold spec_effect. by rewrite R2, E0. }
    assert (ok = true) as Hk.
    { destruct ok; [done|]. destruct (st_unknown _ _ _ _ _ _ T eq_refl) as (_&Hn&Hc).
      destruct (effect_known c (acct (staged e) (cm_Account c)) eb _ Hacc E0) as [Hc'|Hs].
      - rewrite Hc' in Hc. done.
      - unfold staged in Hs. rewrite entries_acct, Hn in Hs. by destruct Hs. }
    pose proof (st_known _ _ _ _ _ _ T Hk) as Hs1.
    destruct (stageEffect_ok e1 r s t) as (X1&X2&X3&X4&X5&X6).
    - apply T.
    - rewrite Ep1. lia.
    - by rewrite R3.
    - intros E3. rewrite R4. destruct (Hf R1) as [_ F3]. destruct (F3 E3) as (_&[b Hb']&_&Hb0). rewrite R4 in Hb', Hb0. apply Hbk.
      assert (eb = Some b) as Heb by (rewrite Eb, (proj2 (Z.eqb_neq _ _)) by done; done).
      rewrite Heb in Hbx. destruct okb; [done|]. by rewrite bool_decide_true in Hbx by eauto.
    - intros Ha. destruct (Hf Ha) as [F1 F3]. rewrite !(st_acct _ _ _ _ _ _ T). done.
    - done.
    - rewrite X3. split_and!; try done.
      + intros i. by rewrite X2.
      + intros i. apply acct_effect. apply T.
      + intros i. rewrite agent_effect. apply T.
      + rewrite X6. apply stage_marks; [lia|done]. }
  destruct (agent_update ok s {| ag_Pending := next_pending c d (ag_Pending (agent (staged e) (cm_Account c)));
    ag_Turns := i64 (ag_Turns (agent (staged e) (cm_Account c)) + 1) |} (cm_Account c) e2 O2)
    as (U1&U2&U3&U4&U5&U6&U7&U8&U9&U10&U11&U12&U13&U14&U15).
  { intros Hk. rewrite (sr_ids _ _ R5). exact (st_known _ _ _ _ _ _ T Hk). }
  eexists. split; [done|]. destruct R5 as [Q1 Q2 Q3 Q4 Q5 Q6 Q7]. destruct (st_rest _ _ _ _ _ _ T) as (Z1&Z2&Z3&Z4&Z5&Z6).
  split; cbn [b_engine]; fold r.
  - done.
  - intros i. rewrite U2, S2. unfold spec_entries. by rewrite acct_put_agent.
  - intros i. rewrite U3, D2. apply T.
  - rewrite U6, Q2. intros Hs. destruct ok; [by rewrite U4 by done; rewrite <- Er; destruct (next_pending _ _ _)|].
    destruct (st_unknown _ _ _ _ _ _ T eq_refl) as (->&Hn&_). rewrite Hn in Hs. by destruct Hs.
  - intros i Hne. rewrite U5 by done. apply G2.
  - intros i x Hx. rewrite U6, Q2. exact (st_mono _ _ _ _ _ _ T i x Hx).
  - intros i. rewrite U6, Q2. intros [?|[? _]]%(st_new _ _ _ _ _ _ T); auto.
  - unfold zlen. rewrite U7, Q7. apply T.
  - rewrite U8, P2. apply T.
  - by rewrite U8, U9.
  - split_and!; congruence.
Qed.

(** ** Histories of the account engine

    A history is a sequence of records each of which was decided in the ledger
    left by the ones before it.  The records of a batch form a history; applying
    them to the engine leads to the ledger at its end, and so does replaying them
    from the log ([applyRecovered] in [internal/core/core.go]). *)

(** ** Histories *)

(** A record that was decided in the ledger [s], for some state of its agent. *)
Record record_ok (s : ledger) (r : walRecord) : Prop := {
  ro_fresh : retained (lg_results s) (w_commandID r) = None;
  ro_sequence : w_sequence r = u64 (lg_sequence s + 1);
  ro_decided : ∃ c g, ValidateCommand c = Ok tt ∧ r = record_with (w_sequence r) (lg_entries s) g c }.

Lemma ro_fits s r : record_ok s r → fits (lg_entries s) r.
Proof. intros [_ _ (c&g&Hv&->)]. by apply record_with_fits. Qed.

Lemma ro_expectedA s r : record_ok s r → w_expectedA r = ac_Version (seen (lg_entries s) (w_a r)).
Proof. by intros [_ _ (c&g&_&->)]. Qed.

Lemma ro_expectedB s r :
  record_ok s r → w_expectedB r = if w_b r =? 0 then 0 else ac_Version (seen (lg_entries s) (w_b r)).
Proof. intros [_ _ (c&g&_&->)]. cbn. by destruct (cm_Other c =? 0). Qed.

Inductive core_history (window : Z) : ledger → list walRecord → ledger → Prop :=
| core_nil s : core_history window s [] s
| core_cons s r rs s' :
    record_ok s r → core_history window (spec_apply window s r) rs s' → core_history window s (r :: rs) s'.

Lemma core_history_app window s rs1 s1 rs2 s2 :
  core_history window s rs1 s1 → core_history window s1 rs2 s2 → core_history window s (rs1 ++ rs2) s2.
Proof. induction 1; intros H2; [done|]. cbn. econstructor; eauto. Qed.

Lemma core_history_foldl window s rs s' : core_history window s rs s' → s' = foldl (spec_apply window) s rs.
Proof. by induction 1. Qed.

Lemma core_history_split window s rs1 rs2 s2 :
  core_history window s (rs1 ++ rs2) s2 → ∃ s1, core_history window s rs1 s1 ∧ core_history window s1 rs2 s2.
Proof.
  revert s. induction rs1 as [|r rs1 IH]; intros s H; [exists s; split; [constructor|done]|].
  inversion H as [|? ? ? ? Hr Ht]; subst. destruct (IH _ Ht) as (s1&H1&H2). exists s1. split; [by constructor|done].
Qed.

(** The state of the entries after some records. *)
Definition after (m : entries) (rs : list walRecord) : entries := foldl spec_entries m rs.

Lemma after_snoc m rs r : after m (rs ++ [r]) = spec_entries (after m rs) r.
Proof. unfold after. by rewrite foldl_snoc. Qed.

Lemma lg_entries_foldl window s rs : lg_entries (foldl (spec_apply window) s rs) = after (lg_entries s) rs.
Proof. revert s. induction rs as [|r rs IH]; intros s; [done|]. cbn. by rewrite IH. Qed.

Lemma acct_after m m' rs i : (∀ i, acct m i = acct m' i) → acct (after m rs) i = acct (after m' rs) i.
Proof.
  revert i. induction rs as [|r rs IH] using rev_ind; intros i H; [done|]. rewrite !after_snoc.
  apply acct_entries. intros j. by apply IH.
Qed.

(** The agent after some records is that of the last one on its account. *)
Lemma agent_after_other m rs i : i ∉ map w_a rs → agent (after m rs) i = agent m i.
Proof.
  induction rs as [|r rs IH] using rev_ind; intros H; [done|]. rewrite map_app, elem_of_app in H.
  rewrite after_snoc, agent_entries. rewrite decide_False by (intros <-; apply H; right; by left).
  apply IH. naive_solver.
Qed.

Lemma agent_after m m' rs i :
  (i ∉ map w_a rs → agent m i = agent m' i) → agent (after m rs) i = agent (after m' rs) i.
Proof.
  induction rs as [|r rs IH] using rev_ind; intros H; [apply H, not_elem_of_nil|].
  rewrite !after_snoc, !agent_entries. case_decide as E; [done|]. apply IH. intros Hn. apply H.
  rewrite map_app, elem_of_app. cbn. rewrite list_elem_of_singleton. intros [?|?]; [done|by apply E].
Qed.

Lemma dom_after m m' rs i :
  (i ∉ map w_a rs → is_Some (m !! i) ↔ is_Some (m' !! i)) →
  is_Some (after m rs !! i) ↔ is_Some (after m' rs !! i).
Proof.
  induction rs as [|r rs IH] using rev_ind; intros H; [apply H, not_elem_of_nil|].
  rewrite !after_snoc, !dom_entries. destruct (decide (i = w_a r)) as [->|E]; [naive_solver|].
  rewrite IH; [done|]. intros Hn. apply H. rewrite map_app, elem_of_app. cbn. rewrite list_elem_of_singleton. naive_solver.
Qed.

(** Entries that agree but for the agents and the presence of the accounts the
    records are on agree after them. *)
Lemma after_agree m m' rs :
  (∀ i, acct m i = acct m' i) → (∀ i, i ∉ map w_a rs → agent m i = agent m' i) →
  (∀ i, i ∉ map w_a rs → is_Some (m !! i) ↔ is_Some (m' !! i)) → after m rs = after m' rs.
Proof.
  intros H1 H2 H3. apply entries_ext; intros i; [by apply dom_after; auto|by apply acct_after|by apply agent_after; auto].
Qed.

(** ** The window *)

Lemma retained_none l id : retained l id = None ↔ id ∉ map rt_CommandID l.
Proof.
  unfold retained. induction l as [|r l IH]; [split; [by intros _ ?%not_elem_of_nil|done]|].
  rewrite filter_cons. cbn [map]. rewrite not_elem_of_cons. case_decide as E; [naive_solver|]. rewrite IH. naive_solver.
Qed.

Lemma spec_remember_sub window l r x : x ∈ spec_remember window l r → x ∈ l ∨ x = r.
Proof.
  unfold spec_remember. intros H. assert (x ∈ l ++ [r]) as Hx.
  { destruct (_ <? _); [|done]. rewrite <- (take_drop 1 (l ++ [r])). apply elem_of_app. by right. }
  apply elem_of_app in Hx as [?|?%list_elem_of_singleton]; auto.
Qed.

Lemma retained_foldl window s rs id :
  retained (lg_results s) id = None → id ∉ map w_commandID rs →
  retained (lg_results (foldl (spec_apply window) s rs)) id = None.
Proof.
  revert s. induction rs as [|r rs IH]; intros s Hr Hn; [done|]. cbn [map] in Hn. apply not_elem_of_cons in Hn as [Hn1 Hn2].
  cbn [foldl]. apply IH; [|done]. apply retained_none. intros (x&Ex&Hx)%list_elem_of_fmap. cbn in Hx.
  apply spec_remember_sub in Hx as [Hx| ->].
  - apply retained_none in Hr. apply Hr. rewrite Ex. apply list_elem_of_fmap. eauto.
  - done.
Qed.

(** ** Applying a history *)

Abbreviation apply_all := (foldl (λ e r, applyDurable r e)).

Lemma apply_fold e rs s s' :
  engine_ok e → zlen (e_accounts e) + zlen rs ≤ 2 ^ 32 → core_history (window_of e) s rs s' →
  (∀ i, acct (durable e) i = acct (lg_entries s) i) → results_of e = lg_results s →
  engine_ok (apply_all e rs) ∧ abs (apply_all e rs) = foldl (spec_apply (window_of e)) (abs e) rs
  ∧ e_cfg (apply_all e rs) = e_cfg e ∧ zlen (e_accounts (apply_all e rs)) ≤ zlen (e_accounts e) + zlen rs.
Proof.
  intros He Hb Hh. revert e He Hb Hh. induction rs as [|r rs IH] in s |- *; intros e He Hb Hh Ha Hr.
  { split_and!; try done. unfold zlen. cbn. lia. }
  inversion Hh as [|? ? ? ? Hro Ht]; subst.
  assert (zlen (r :: rs) = zlen rs + 1) as Hz by (unfold zlen; cbn; lia). pose proof (zlen_nonneg rs).
  destruct (applyDurable_ok e r He) as (He1&Habs&Hcfg&Hlen).
  - lia.
  - intros Hacc. destruct (ro_fits _ _ Hro Hacc) as [F1 F2]. rewrite !Ha. done.
  - rewrite <- retained_lookup by apply He. rewrite Hr. by apply Hro.
  - assert (window_of (applyDurable r e) = window_of e) as Hw by (unfold window_of; by rewrite Hcfg).
    destruct (IH (spec_apply (window_of e) s r) (applyDurable r e)) as (I1&I2&I3&I4).
    + done.
    + lia.
    + by rewrite Hw.
    + intros i. assert (durable (applyDurable r e) = spec_entries (durable e) r) as -> by
        exact (f_equal lg_entries Habs). by apply acct_entries.
    + assert (results_of (applyDurable r e) = spec_remember (window_of e) (results_of e) (result_of r)) as -> by
        exact (f_equal lg_results Habs). cbn. by rewrite Hr.
    + cbn [foldl]. split; [done|]. split; [|split; [congruence|lia]]. by rewrite I2, Habs, Hw.
Qed.

(** Ledgers that differ in entries that agree after the records. *)
Lemma spec_foldl_agree window s1 s2 rs :
  lg_log s1 = lg_log s2 → lg_results s1 = lg_results s2 → lg_sequence s1 = lg_sequence s2 →
  after (lg_entries s1) rs = after (lg_entries s2) rs →
  foldl (spec_apply window) s1 rs = foldl (spec_apply window) s2 rs.
Proof.
  intros E1 E2 E3 E4. induction rs as [|r rs IH] in s1, s2, E1, E2, E3, E4 |- *; cbn [foldl].
  - destruct s1, s2; cbn in *. by subst.
  - apply IH; cbn; [by rewrite E1|by rewrite E2|done|exact E4].
Qed.

(** ** Replaying a history *)

Lemma grown_slot e id :
  slots_ok e → zlen (e_accounts e) < 2 ^ 32 → ∃ s, slot id true e = ((s, true), grown id e) ∧ slot id true (grown id e) = ((s, true), grown id e).
Proof.
  intros Hok Hb. destruct (slot_create_ok e id Hok Hb) as (s&Hs&_&Hi&_). exists s. split; [done|]. by apply slot_known.
Qed.

Lemma applyDurable_grown e r :
  slots_ok e → zlen (e_accounts e) < 2 ^ 32 → applyDurable r (grown (w_a r) e) = applyDurable r e.
Proof. intros Hok Hb. destruct (grown_slot e (w_a r) Hok Hb) as (s&H1&H2). unfold applyDurable. by rewrite H1, H2. Qed.

(** With no batch staged, a slot holds the version the ledger has. *)
Lemma quiet_version e id s :
  slots_ok e → e_epoch e = 0 → e_ids e !! id = Some s → ac_Version (accountFor e s true) = ac_Version (seen (durable e) id).
Proof.
  intros Hok Hep Hs. unfold seen. rewrite (durable_acct e id s Hs). unfold accountFor, marked. rewrite Hep. cbn.
  destruct (present_at e s) eqn:Ep; [done|]. apply (so_ids e Hok) in Hs as (a&Ha&_). unfold account_at. rewrite Ha. cbn.
  by rewrite (so_absent e Hok s a Ha Ep).
Qed.

Lemma seen_grown e id i :
  slots_ok e → zlen (e_accounts e) < 2 ^ 32 → seen (durable (grown id e)) i = seen (durable e) i.
Proof.
  intros Hok Hb. unfold seen. destruct (slot_create_ok e id Hok Hb) as (s&_&_&_&_&_&[->|(Hn&->&_)]); [done|].
  unfold acct. rewrite lookup_insert. case_decide; [subst i|done]. unfold durable. by rewrite lookup_fmap, Hn.
Qed.

Lemma seen_unknown e i : e_ids e !! i = None → ac_Version (seen (durable e) i) = 0.
Proof. intros H. unfold seen, acct, durable. by rewrite lookup_fmap, H. Qed.

Lemma other_version e id :
  slots_ok e → e_epoch e = 0 →
  ac_Version (accountFor e (other_slot id e).1 (other_slot id e).2) = if id =? 0 then 0 else ac_Version (seen (durable e) id).
Proof.
  intros Hok Hep. unfold other_slot. destruct (id =? 0); [done|]. destruct (e_ids e !! id) as [s|] eqn:E.
  - rewrite (slot_known _ _ _ _ E). by apply quiet_version.
  - rewrite (slot_unknown _ _ E). cbn. by rewrite seen_unknown.
Qed.

Lemma applyRecovered_ok e r :
  engine_ok e → e_epoch e = 0 → zlen (e_accounts e) < 2 ^ 32 → record_ok (abs e) r → applyRecovered e r = Ok (applyDurable r e).
Proof.
  intros [Hok Hd _ _] Hep Hb Hro. pose proof (ro_expectedA _ _ Hro) as HA. pose proof (ro_expectedB _ _ Hro) as HB.
  pose proof (ro_fresh _ _ Hro) as Hr. cbn [abs lg_entries lg_results lg_sequence] in *. unfold applyRecovered.
  rewrite retained_lookup in Hr by done. rewrite Hr. cbn [guard_err res_bind].
  destruct (grown_slot e (w_a r) Hok Hb) as (s&H1&_). pose proof (applyDurable_grown e r Hok Hb) as Eg.
  destruct (slot_create_ok e (w_a r) Hok Hb) as (s'&_&Og&Hi&_&_&_).
  assert (∃ t ok e1, slot (w_a r) ((w_effect r =? 1) && w_accepted r) e = ((t, ok), e1) ∧ slots_ok e1 ∧ e_epoch e1 = 0
    ∧ (∀ i, seen (durable e1) i = seen (durable e) i) ∧ applyDurable r e1 = applyDurable r e
    ∧ ac_Version (accountFor e1 t ok) = ac_Version (seen (durable e) (w_a r))) as (t&ok&e1&->&O1&P1&S1&D1&V1).
  { destruct (e_ids e !! w_a r) as [t|] eqn:E.
    - exists t, true, e. rewrite (slot_known _ _ _ _ E). split_and!; try done. by apply quiet_version.
    - destruct ((w_effect r =? 1) && w_accepted r).
      + exists s, true, (grown (w_a r) e). split; [done|]. split; [done|]. destruct (grown_same e (w_a r)) as (_&_&_&_&_&_&Ge&_).
        split; [by rewrite Ge|]. split; [intros; by apply seen_grown|]. split; [done|].
        rewrite <- (seen_grown e (w_a r) (w_a r) Hok Hb). apply quiet_version; [done|by rewrite Ge|].
        destruct (slot_create_ok e (w_a r) Hok Hb) as (s2&H2&_&Hi2&_). congruence.
      + exists 0%nat, false, e. rewrite (slot_unknown _ _ E). split_and!; try done. cbn. by rewrite seen_unknown. }
  pose proof (other_version e1 (w_b r) O1 P1) as VB. destruct (other_slot (w_b r) e1) as [bSlot bok]. cbn [fst snd] in VB.
  rewrite V1, VB, HA, HB, S1, !Z.eqb_refl. cbn [negb orb guard_err res_bind]. by rewrite D1.
Qed.

Lemma remember_epoch id r e : e_epoch (remember id r e) = e_epoch e.
Proof. apply remember_slots. Qed.

Lemma applyEffect_epoch a b r e : e_epoch (applyEffect a b r e) = e_epoch e.
Proof. unfold applyEffect. repeat case_match; done. Qed.

Lemma applyDurable_epoch e r : e_epoch (applyDurable r e) = e_epoch e.
Proof.
  unfold applyDurable. destruct (grown_same e (w_a r)) as (_&_&_&_&_&_&Ge&_). unfold grown in Ge.
  destruct (slot (w_a r) true e) as [[s ok] g]. cbn [snd] in Ge. cbn [set_sequence e_epoch]. rewrite remember_epoch.
  cbn [set_agent with_slots e_epoch]. destruct (w_accepted r); [by rewrite applyEffect_epoch|done].
Qed.

Lemma core_replay e rs s' :
  engine_ok e → e_epoch e = 0 → zlen (e_accounts e) + zlen rs ≤ 2 ^ 32 → core_history (window_of e) (abs e) rs s' →
  res_fold replay_one e rs = Ok (apply_all e rs) ∧ abs (apply_all e rs) = s' ∧ engine_ok (apply_all e rs)
  ∧ e_cfg (apply_all e rs) = e_cfg e ∧ zlen (e_accounts (apply_all e rs)) ≤ zlen (e_accounts e) + zlen rs.
Proof.
  intros He Hep Hb Hh. destruct (apply_fold e rs (abs e) s' He Hb Hh) as (H1&H2&H3&H4); [done..|].
  split; [|split; [by rewrite H2, (core_history_foldl _ _ _ _ Hh)|done]].
  clear H1 H2 H3 H4. induction rs as [|r rs IH] in e, He, Hep, Hb, Hh |- *; [done|].
  inversion Hh as [|? ? ? ? Hro Ht]; subst.
  assert (zlen (r :: rs) = zlen rs + 1) as Hz by (unfold zlen; cbn; lia). pose proof (zlen_nonneg rs).
  destruct (applyDurable_ok e r He) as (He1&Habs&Hcfg&Hlen); [lia|by apply (ro_fits (abs e))| |].
  { rewrite <- retained_lookup by apply He. apply Hro. }
  cbn [res_fold]. unfold replay_one at 1. assert (w_sequence r = u64 (e_sequence e + 1)) as -> by apply Hro.
  rewrite Z.eqb_refl. cbn [negb guard_err res_bind]. rewrite applyRecovered_ok by (done || lia).
  cbn [res_bind foldl]. apply IH; [done|by rewrite applyDurable_epoch|lia|]. rewrite Habs.
  unfold window_of in *. by rewrite Hcfg.
Qed.

(** ** The records of a batch *)

Record batch_inv (e : engine) (bt : batch) : Prop := {
  bi_ok : slots_ok (b_engine bt);
  bi_epoch : 0 < e_epoch (b_engine bt) < 2 ^ 32;
  bi_marks : Forall (λ m, 0 ≤ m ≤ e_epoch (b_engine bt)) (e_marks (b_engine bt));
  bi_acct : ∀ i, acct (staged (b_engine bt)) i = acct (after (durable e) (b_records bt)) i;
  bi_durable : ∀ i, acct (durable (b_engine bt)) i = acct (durable e) i;
  bi_other : ∀ i, i ∉ map w_a (b_records bt) → agent (staged (b_engine bt)) i = agent (durable e) i;
  bi_agent : ∀ i, is_Some (e_ids (b_engine bt) !! i) →
    agent (staged (b_engine bt)) i = agent (after (durable e) (b_records bt)) i;
  bi_mono : ∀ i t, e_ids e !! i = Some t → e_ids (b_engine bt) !! i = Some t;
  bi_new : ∀ i, is_Some (e_ids (b_engine bt) !! i) → is_Some (e_ids e !! i) ∨ i ∈ map w_a (b_records bt);
  bi_length : zlen (e_accounts (b_engine bt)) ≤ zlen (e_accounts e) + zlen (b_records bt);
  bi_rest : e_cfg (b_engine bt) = e_cfg e ∧ e_ledger (b_engine bt) = e_ledger e
    ∧ e_results (b_engine bt) = e_results e ∧ e_order (b_engine bt) = e_order e
    ∧ e_orderHead (b_engine bt) = e_orderHead e ∧ e_sequence (b_engine bt) = e_sequence e;
  bi_ids : ∀ id, is_Some (b_ids bt !! id) ↔ id ∈ map w_commandID (b_records bt);
  bi_sequence : u64 (lg_sequence (foldl (spec_apply (window_of e)) (abs e) (b_records bt)) + 1)
    = u64 (e_sequence e + zlen (b_records bt) + 1);
  bi_history : core_history (window_of e) (abs e) (b_records bt)
    (foldl (spec_apply (window_of e)) (abs e) (b_records bt)) }.

(** The record of a command was decided in the ledger the earlier records lead
    to. *)
Lemma batch_record_ok e bt c :
  batch_inv e bt → engine_ok e → ValidateCommand c = Ok tt → e_results e !! cm_ID c = None → b_ids bt !! cm_ID c = None →
  record_ok (foldl (spec_apply (window_of e)) (abs e) (b_records bt)) (batch_record bt c).
Proof.
  intros I He Hv Hr Hi. destruct (bi_rest _ _ I) as (_&_&_&_&_&Es).
  split.
  - apply retained_foldl.
    + cbn. rewrite retained_lookup by apply He. done.
    + intros H%(bi_ids _ _ I). change (w_commandID (batch_record bt c)) with (cm_ID c) in H. rewrite Hi in H. by destruct H.
  - rewrite (bi_sequence _ _ I). cbn. by rewrite Es.
  - exists c, (agent (staged (b_engine bt)) (cm_Account c)). split; [done|]. rewrite lg_entries_foldl.
    apply record_with_ext. apply (bi_acct _ _ I).
Qed.

Lemma batch_inv_new e bt c :
  batch_inv e bt → engine_ok e → zlen (e_accounts (b_engine bt)) < 2 ^ 32 → ValidateCommand c = Ok tt →
  e_results e !! cm_ID c = None → b_ids bt !! cm_ID c = None →
  batch_inv e (batch_step bt c) ∧ b_records (batch_step bt c) = b_records bt ++ [batch_record bt c]
  ∧ b_results (batch_step bt c) = b_results bt ++ [result_of (batch_record bt c)].
Proof.
  intros I He Hb Hv Hr Hi. destruct (bi_rest _ _ I) as (R1&R2&R3&R4&R5&R6).
  pose proof (batch_record_ok e bt c I He Hv Hr Hi) as Hro.
  destruct (batch_step_new bt c) as (e'&Eb&S); [apply I|done|apply I|apply I|done|by rewrite R3|done|].
  rewrite Eb. split; [|done]. set (r := batch_record bt c) in *. destruct (sp_rest _ _ _ S) as (T1&T2&T3&T4&T5&T6).
  assert (w_a r = cm_Account c) as Ea by done.
  split; cbn [b_engine b_records b_results b_ids].
  - apply S.
  - rewrite (sp_epoch _ _ _ S). apply I.
  - apply S.
  - intros i. rewrite (sp_acct _ _ _ S), after_snoc. apply acct_entries. apply I.
  - intros i. rewrite (sp_durable _ _ _ S). apply I.
  - intros i. rewrite map_app, elem_of_app. cbn [map]. rewrite list_elem_of_singleton, Ea. intros Hn.
    rewrite (sp_agent _ _ _ S) by naive_solver. apply I. naive_solver.
  - intros i Hs. rewrite after_snoc, agent_entries, Ea. case_decide as E.
    + subst i. by apply S.
    + rewrite (sp_agent _ _ _ S) by done. destruct (sp_new _ _ _ S i Hs) as [Hk|Hk]; [|congruence]. by apply I.
  - intros i t Ht. apply (sp_mono _ _ _ S), (bi_mono _ _ I), Ht.
  - intros i Hs. rewrite map_app, elem_of_app. cbn [map]. rewrite list_elem_of_singleton, Ea.
    destruct (sp_new _ _ _ S i Hs) as [Hk|Hk]; [|auto]. destruct (bi_new _ _ I i Hk); auto.
  - rewrite zlen_app. pose proof (sp_length _ _ _ S). pose proof (bi_length _ _ I). change (zlen [r]) with 1. lia.
  - split_and!; congruence.
  - intros id. rewrite lookup_insert, map_app, elem_of_app. cbn [map]. rewrite list_elem_of_singleton, <- (bi_ids _ _ I).
    change (w_commandID r) with (cm_ID c). case_decide; naive_solver.
  - rewrite foldl_snoc, zlen_app. cbn [spec_apply lg_sequence]. rewrite (ro_sequence _ _ Hro), (bi_sequence _ _ I).
    change (zlen [r]) with 1. unfold u64. rewrite Zplus_mod_idemp_l. f_equal. lia.
  - rewrite foldl_snoc. eapply core_history_app; [apply I|]. econstructor; [done|constructor].
Qed.
