(* ===== verification/CoreSerial.v ===== *)
(** * Batches are histories, and serial

    The loop of [SubmitBatch] ([internal/core/core.go]) over a whole batch: the
    records it produces form a history from the ledger before the batch, and
    applying them leads to its end.  Where every account has its slot and the
    window has room, the answers and the ledger are those of submitting the
    commands one after the other. *)

From Stdlib Require Import ZArith Lia Strings.Byte Strings.String.
From stdpp Require Import base decidable countable list gmap.
From S2P Require Import Prelude GoText Errors CoreTypes CoreEngine CoreSpec CoreRefinement CoreHistory.

Local Open Scope Z_scope.

(** ** The start of a batch *)

(** No slot is marked with the epoch of a new batch. *)
Lemma next_epoch_marks e :
  0 ≤ e_epoch e < 2 ^ 32 → Forall (λ m, 0 ≤ m ≤ e_epoch e) (e_marks e) →
  0 < e_epoch (next_epoch e) < 2 ^ 32
  ∧ Forall (λ m, 0 ≤ m < e_epoch (next_epoch e)) (e_marks (next_epoch e))
  ∧ length (e_marks (next_epoch e)) = length (e_marks e).
Proof.
  intros He Hm. unfold next_epoch. destruct (e_epoch e =? 2 ^ 32 - 1) eqn:E; cbn [set_epoch e_epoch e_marks].
  - split; [lia|]. split; [|by rewrite length_map]. apply Forall_map, Forall_true. intros m. cbn. lia.
  - apply Z.eqb_neq in E. assert (u32 (e_epoch e + 1) = e_epoch e + 1) as -> by (apply u32_id; unfold u32_range; lia).
    split; [lia|]. split; [|done]. eapply Forall_impl; [exact Hm|]. cbn. lia.
Qed.

Lemma unmarked e s : Forall (λ m, 0 ≤ m < e_epoch e) (e_marks e) → marked e s = false.
Proof.
  intros H. unfold marked. destruct (e_epoch e =? 0) eqn:E0; [done|]. cbn. apply Z.eqb_neq in E0. apply Z.eqb_neq.
  unfold mark_at. destruct (e_marks e !! s) as [m|] eqn:Em; cbn; [|lia].
  pose proof (proj1 (Forall_lookup _ _) H s m Em) as Hm. cbn in Hm. lia.
Qed.

Lemma batch_inv_start e :
  engine_ok e → batch_inv e {| b_engine := next_epoch e; b_records := []; b_results := []; b_ids := ∅ |}.
Proof.
  intros [Hok Hd He Hm]. destruct (next_epoch_marks e He Hm) as (P1&P2&P3).
  assert (∃ marks, next_epoch e = set_epoch marks (e_epoch (next_epoch e)) e) as [marks Eq].
  { unfold next_epoch. destruct (_ =? _); by eexists. }
  assert (e_ids (next_epoch e) = e_ids e) as Ei by (by rewrite Eq).
  assert (∀ i, acct (staged (next_epoch e)) i = acct (durable e) i) as Ha.
  { intros i. unfold staged, durable. rewrite !entries_acct, Ei. destruct (e_ids e !! i) as [s|]; [|done]. cbn.
    rewrite unmarked by done. rewrite orb_false_r. by rewrite Eq. }
  assert (∀ i, agent (staged (next_epoch e)) i = agent (durable e) i) as Hg.
  { intros i. unfold staged, durable. rewrite !entries_agent, Ei. by rewrite Eq. }
  split; cbn [b_engine b_records b_results b_ids after foldl map].
  - destruct Hok as [H1 H2 H3 H4 H5 H6]. split; try (by rewrite P3 || by rewrite Eq).
    rewrite P3, H4. by rewrite Eq.
  - done.
  - eapply Forall_impl; [exact P2|]. cbn. lia.
  - done.
  - intros i. unfold durable. by rewrite Eq.
  - done.
  - done.
  - intros i t. by rewrite Ei.
  - intros i. rewrite Ei. by left.
  - rewrite Eq. unfold zlen. cbn. lia.
  - by rewrite Eq.
  - intros id. rewrite lookup_empty. split; [by intros []|by intros ?%not_elem_of_nil].
  - change (u64 (e_sequence e + 1) = u64 (e_sequence e + 0 + 1)). by rewrite Z.add_0_r.
  - constructor.
Qed.

(** The invariant does not depend on the answers. *)
Lemma batch_inv_answer e bt res :
  batch_inv e bt → batch_inv e {| b_engine := b_engine bt; b_records := b_records bt; b_results := res; b_ids := b_ids bt |}.
Proof. by intros []. Qed.

(** ** The loop *)

Lemma batch_step_inv e bt c :
  batch_inv e bt → engine_ok e → zlen (e_accounts (b_engine bt)) < 2 ^ 32 → ValidateCommand c = Ok tt →
  batch_inv e (batch_step bt c) ∧ zlen (b_records (batch_step bt c)) ≤ zlen (b_records bt) + 1
  ∧ length (b_results (batch_step bt c)) = S (length (b_results bt)).
Proof.
  intros I He Hb Hv. destruct (bi_rest _ _ I) as (_&_&R3&_).
  destruct (e_results e !! cm_ID c) as [prior|] eqn:Er.
  { unfold batch_step. rewrite R3, Er. cbn [b_records b_results]. rewrite length_app, Nat.add_comm.
    split; [by apply batch_inv_answer|]. split; [lia|done]. }
  destruct (b_ids bt !! cm_ID c) as [k|] eqn:Ei.
  { unfold batch_step. rewrite R3, Er, Ei. cbn [b_records b_results]. rewrite length_app, Nat.add_comm.
    split; [by apply batch_inv_answer|]. split; [lia|done]. }
  destruct (batch_inv_new e bt c) as (I'&->&->); try done. rewrite zlen_app, length_app, Nat.add_comm. split; [done|]. split; [|done].
  change (zlen [batch_record bt c]) with 1. lia.
Qed.

Lemma batch_steps_inv e bt cs :
  batch_inv e bt → engine_ok e → zlen (e_accounts e) + zlen (b_records bt) + zlen cs ≤ 2 ^ 32 →
  Forall (λ c, ValidateCommand c = Ok tt) cs →
  batch_inv e (foldl batch_step bt cs) ∧ zlen (b_records (foldl batch_step bt cs)) ≤ zlen (b_records bt) + zlen cs
  ∧ length (b_results (foldl batch_step bt cs)) = (length (b_results bt) + length cs)%nat.
Proof.
  intros I He Hb Hv. induction Hv as [|c cs Hc Hcs IH] in bt, I, Hb |- *.
  { cbn. split; [done|]. unfold zlen. cbn. lia. }
  assert (zlen (c :: cs) = zlen cs + 1) as Hz by (unfold zlen; cbn; lia). pose proof (zlen_nonneg cs).
  pose proof (bi_length _ _ I). destruct (batch_step_inv e bt c I He) as (I1&L1&N1); [lia|done|].
  cbn [foldl]. destruct (IH (batch_step bt c) I1) as (I2&L2&N2); [lia|]. split; [done|]. split; [lia|]. cbn. lia.
Qed.

Lemma validate_commands e cs :
  validate_batch e cs = Ok tt → Forall (λ c, ValidateCommand c = Ok tt) cs.
Proof.
  unfold validate_batch. intros H. apply res_bind_ok in H as (_&_&H). apply res_bind_ok in H as (u&H&_). revert u H.
  induction cs as [|c cs IH]; intros u H; [constructor|]. cbn in H. apply res_bind_ok in H as ([]&Hc&H). constructor; eauto.
Qed.

(** The batch of an engine, decided and applied. *)
Lemma decide_batch_history e cs :
  engine_ok e → zlen (e_accounts e) + 2 * zlen cs ≤ 2 ^ 32 → validate_batch e cs = Ok tt →
  let bt := decide_batch e cs in
  let e' := apply_all (b_engine bt) (b_records bt) in
  batch_inv e bt ∧ length (b_results bt) = length cs
  ∧ engine_ok e' ∧ core_history (window_of e) (abs e) (b_records bt) (abs e') ∧ e_cfg e' = e_cfg e
  ∧ zlen (e_accounts e') ≤ zlen (e_accounts e) + 2 * zlen cs.
Proof.
  intros He Hb Hv bt e'. apply validate_commands in Hv. pose proof (zlen_nonneg cs).
  destruct (batch_steps_inv e _ cs (batch_inv_start e He)) as (I&L&N); [done|cbn [b_records]; change (zlen (@nil walRecord)) with 0; lia|done|].
  change (foldl batch_step _ cs) with bt in I, L, N. cbn [b_records b_results length] in L, N.
  change (zlen (@nil walRecord)) with 0 in L. destruct (bi_rest _ _ I) as (R1&R2&R3&R4&R5&R6). pose proof (bi_length _ _ I).
  assert (window_of (b_engine bt) = window_of e) as Hw by (unfold window_of; by rewrite R1).
  destruct (dedupe_ok_same e (b_engine bt)) as [Hd Hr]; [done..|apply He|].
  destruct (apply_fold (b_engine bt) (b_records bt) (abs e) (foldl (spec_apply (window_of e)) (abs e) (b_records bt)))
    as (A1&A2&A3&A4).
  - split; [apply I|done| |apply I]. pose proof (bi_epoch _ _ I). lia.
  - lia.
  - rewrite Hw. apply I.
  - apply I.
  - done.
  - split; [done|]. split; [done|]. split; [exact A1|]. split; [|split; [by rewrite <- R1|unfold e'; lia]].
    unfold e'. rewrite A2, Hw.
    rewrite (spec_foldl_agree (window_of e) (abs (b_engine bt)) (abs e)); [apply I|done..|].
    cbn [abs lg_entries]. apply after_agree.
    + apply I.
    + intros i Hi. rewrite <- agents_same. by apply I.
    + intros i Hi. unfold durable. rewrite !lookup_fmap, !fmap_is_Some. split.
      * intros [?|?]%(bi_new _ _ I); done.
      * intros [t Ht]. exists t. by apply (bi_mono _ _ I).
Qed.

(** ** Serial semantics *)

(** The account of each command has a slot by then, or no earlier command of the
    batch was on it. *)
Fixpoint slotted (bt : batch) (cs : list Command) : bool :=
  match cs with
  | [] => true
  | c :: cs =>
      (bool_decide (is_Some (e_ids (b_engine bt) !! cm_Account c)) || bool_decide (cm_Account c ∉ map w_a (b_records bt)))
      && slotted (batch_step bt c) cs
  end.

Definition first_batch (e : engine) : batch :=
  {| b_engine := next_epoch e; b_records := []; b_results := []; b_ids := ∅ |}.

Lemma spec_record_ext seq m m' c :
  (∀ i, acct m i = acct m' i) → agent m (cm_Account c) = agent m' (cm_Account c) →
  spec_record seq m c = spec_record seq m' c.
Proof. intros H1 H2. unfold spec_record. rewrite H2. by apply record_with_ext. Qed.

Lemma retained_app l1 l2 id :
  retained (l1 ++ l2) id = match retained l1 id with Some r => Some r | None => retained l2 id end.
Proof. unfold retained. rewrite filter_app. by destruct (filter _ l1). Qed.

Lemma retained_records rs r :
  NoDup (map w_commandID rs) → r ∈ rs → retained (map result_of rs) (w_commandID r) = Some (result_of r).
Proof.
  unfold retained. induction rs as [|r' rs IH]; intros Hn Hr; [by apply not_elem_of_nil in Hr|].
  cbn [map] in *. apply NoDup_cons in Hn as [Hn1 Hn2]. rewrite filter_cons. apply elem_of_cons in Hr as [->|Hr].
  - by rewrite decide_True.
  - rewrite decide_False; [by apply IH|]. intros E. apply Hn1. cbn in E. rewrite E. apply list_elem_of_fmap. eauto.
Qed.

Lemma remember_room window l r : zlen l + 1 ≤ window → spec_remember window l r = l ++ [r].
Proof.
  intros H. unfold spec_remember. rewrite (proj2 (Z.ltb_ge _ _)); [done|]. rewrite zlen_app. change (zlen [r]) with 1. lia.
Qed.

Record serial_inv (e : engine) (bt : batch) (s : ledger) : Prop := {
  si_batch : batch_inv e bt;
  si_state : s = foldl (spec_apply (window_of e)) (abs e) (b_records bt);
  si_results : lg_results s = results_of e ++ map result_of (b_records bt);
  si_nodup : NoDup (map w_commandID (b_records bt));
  si_answers : ∀ id k, b_ids bt !! id = Some k →
    ∃ r, r ∈ b_records bt ∧ w_commandID r = id ∧ b_results bt !! k = Some (result_of r) }.

Lemma serial_answer e bt s x :
  serial_inv e bt s →
  serial_inv e {| b_engine := b_engine bt; b_records := b_records bt; b_results := b_results bt ++ [x]; b_ids := b_ids bt |} s.
Proof.
  intros [I H1 H2 H3 H4]. split; try done; [by apply batch_inv_answer|]. cbn. intros id k Hk.
  destruct (H4 id k Hk) as (r&?&?&Hr). exists r. split; [done|]. split; [done|]. by apply lookup_app_l_Some.
Qed.

Section serial.
Context (e : engine) (He : engine_ok e).

Lemma serial_step bt s c :
  serial_inv e bt s → zlen (e_accounts (b_engine bt)) < 2 ^ 32 → ValidateCommand c = Ok tt →
  zlen (results_of e) + zlen (b_records bt) + 1 ≤ window_of e →
  is_Some (e_ids (b_engine bt) !! cm_Account c) ∨ cm_Account c ∉ map w_a (b_records bt) →
  serial_inv e (batch_step bt c) (spec_submit (window_of e) s c).1
  ∧ b_results (batch_step bt c) = b_results bt ++ [(spec_submit (window_of e) s c).2].
Proof.
  intros S Hb Hv Hroom Hslot. pose proof (si_batch _ _ _ S) as I. destruct (bi_rest _ _ I) as (_&_&R3&_&_&R6).
  unfold spec_submit. rewrite (si_results _ _ _ S), retained_app, retained_lookup by apply He.
  destruct (e_results e !! cm_ID c) as [prior|] eqn:Er.
  { unfold batch_step. rewrite R3, Er. split; [by apply serial_answer|done]. }
  destruct (b_ids bt !! cm_ID c) as [k|] eqn:Ei.
  { destruct (si_answers _ _ _ S _ _ Ei) as (r&Hr&Hid&Hk). rewrite <- Hid, (retained_records _ r (si_nodup _ _ _ S) Hr).
    unfold batch_step. rewrite R3, Er, Ei. split; [by apply serial_answer|]. cbn. by rewrite Hk. }
  assert (cm_ID c ∉ map w_commandID (b_records bt)) as Hnew.
  { intros H%(bi_ids _ _ I). rewrite Ei in H. by destruct H. }
  rewrite (proj2 (retained_none (map result_of (b_records bt)) _)) by (by rewrite map_map).
  destruct (batch_inv_new e bt c I He Hb Hv Er Ei) as (I'&Er'&Eres).
  assert (spec_record (u64 (lg_sequence s + 1)) (lg_entries s) c = batch_record bt c) as ->.
  { unfold batch_record. rewrite (si_state _ _ _ S), (bi_sequence _ _ I), lg_entries_foldl, R6. cbn [abs lg_entries].
    apply spec_record_ext; [intros i; by rewrite (bi_acct _ _ I)|]. destruct Hslot as [Hk|Hn].
    - symmetry. by apply I.
    - rewrite agent_after_other by done. symmetry. by apply I. }
  split; [|done]. cbn [fst]. split.
  - done.
  - by rewrite Er', foldl_snoc, (si_state _ _ _ S).
  - cbn [spec_apply lg_results]. rewrite (si_results _ _ _ S), Er', map_app, app_assoc. apply remember_room.
    rewrite zlen_app. unfold zlen in *. rewrite length_map. lia.
  - rewrite Er', map_app. apply NoDup_app. split; [apply S|]. split; [|apply NoDup_singleton].
    intros x Hx ->%list_elem_of_singleton. done.
  - intros id k. unfold batch_step. rewrite R3, Er, Ei. destruct (batch_step_new bt c) as (e'&Eb&_);
      [apply I|done|apply I|apply I|done|by rewrite R3|done|]. unfold batch_step in Eb. rewrite R3, Er, Ei in Eb. rewrite Eb.
    cbn [b_ids b_records b_results]. rewrite lookup_insert. case_decide as E.
    + intros [= <-]. exists (batch_record bt c). split; [apply elem_of_app; right; by left|]. split; [done|].
      by rewrite lookup_app_r, Nat.sub_diag.
    + intros Hk. destruct (si_answers _ _ _ S id k Hk) as (r&Hr&Hid&Hx). exists r. split; [apply elem_of_app; by left|].
      split; [done|]. by apply lookup_app_l_Some.
Qed.

Lemma serial_steps bt s cs :
  serial_inv e bt s → zlen (e_accounts e) + zlen (b_records bt) + zlen cs ≤ 2 ^ 32 →
  Forall (λ c, ValidateCommand c = Ok tt) cs →
  zlen (results_of e) + zlen (b_records bt) + zlen cs ≤ window_of e → slotted bt cs = true →
  serial_inv e (foldl batch_step bt cs) (spec_serial (window_of e) s cs).1
  ∧ b_results (foldl batch_step bt cs) = b_results bt ++ (spec_serial (window_of e) s cs).2.
Proof.
  intros S Hb Hv Hroom Hs. induction Hv as [|c cs Hc Hcs IH] in bt, s, S, Hb, Hroom, Hs |- *.
  { cbn. by rewrite app_nil_r. }
  assert (zlen (c :: cs) = zlen cs + 1) as Hz by (unfold zlen; cbn; lia). pose proof (zlen_nonneg cs).
  cbn [slotted] in Hs. apply andb_true_iff in Hs as [Hs1 Hs2]. apply orb_true_iff in Hs1.
  rewrite !bool_decide_eq_true in Hs1. pose proof (bi_length _ _ (si_batch _ _ _ S)).
  destruct (serial_step bt s c S) as [S1 E1]; [lia|done|lia|done|].
  destruct (batch_step_inv e bt c (si_batch _ _ _ S) He) as (_&L1&_); [lia|done|].
  cbn [foldl spec_serial]. destruct (spec_submit (window_of e) s c) as [s1 r]. cbn [fst snd] in *.
  destruct (IH _ _ S1) as [S2 E2]; [lia|lia|done|].
  destruct (spec_serial (window_of e) s1 cs) as [s2 rs]. cbn [fst snd] in *. split; [done|].
  by rewrite E2, E1, <- app_assoc.
Qed.

Lemma decide_batch_serial cs :
  zlen (e_accounts e) + 2 * zlen cs ≤ 2 ^ 32 → validate_batch e cs = Ok tt →
  zlen (results_of e) + zlen cs ≤ window_of e → slotted (first_batch e) cs = true →
  let bt := decide_batch e cs in
  (abs (apply_all (b_engine bt) (b_records bt)), b_results bt) = spec_serial (window_of e) (abs e) cs.
Proof.
  intros Hb Hv Hroom Hs bt. pose proof (zlen_nonneg cs).
  destruct (decide_batch_history e cs He Hb Hv) as (_&_&_&Hh&_). fold bt in Hh. apply core_history_foldl in Hh.
  destruct (serial_steps (first_batch e) (abs e) cs) as [S E].
  - split; try done; [by apply batch_inv_start|cbn; by rewrite app_nil_r|constructor].
  - cbn [first_batch b_records]. change (zlen (@nil walRecord)) with 0. lia.
  - by eapply validate_commands.
  - cbn [first_batch b_records]. change (zlen (@nil walRecord)) with 0. lia.
  - done.
  - change (foldl batch_step (first_batch e) cs) with bt in S, E. cbn [first_batch b_results app] in E.
    rewrite (surjective_pairing (spec_serial _ _ _)). f_equal; [|done]. rewrite Hh. symmetry. apply S.
Qed.

End serial.
