(* ===== verification/CoreCodec.v ===== *)
(** * The binary log of the account engine: round trips and torn tails

    What [appendWALRecord] and [appendBatch] write, [parseWALRecord] and
    [scanWAL] read back ([internal/core/core.go]), and a log cut inside its last
    frame yields the frames before it. *)

From Stdlib Require Import ZArith Lia Strings.Byte Strings.String.
From stdpp Require Import base decidable countable list gmap.
From S2P Require Import Prelude GoText GoBinary Errors GoOS CoreTypes CoreEngine CoreWal.

Local Open Scope Z_scope.
Local Open Scope go_scope.

(** ** Reading at a position *)

(** [rest] is what is left of [src] at [pos]. *)
Definition here (src : bytes) (pos : nat) (rest : bytes) : Prop :=
  (pos ≤ length src)%nat ∧ drop pos src = rest.

Lemma here_start src : here src 0 src.
Proof. split; [lia|done]. Qed.

Lemma here_prefix pre src : here (pre ++ src) (length pre) src.
Proof. split; [rewrite length_app; lia|by rewrite drop_app_length]. Qed.

Lemma here_left src pos rest : here src pos rest → left_at src pos = zlen rest.
Proof. intros [Hp <-]. unfold left_at, zlen. rewrite length_drop. lia. Qed.

Lemma here_app src pos x rest : here src pos (x ++ rest) → here src (pos + length x)%nat rest.
Proof.
  intros [Hp E]. split.
  - pose proof (f_equal length E) as L. rewrite length_drop, length_app in L. lia.
  - by rewrite <- drop_drop, E, drop_app_length.
Qed.

Lemma here_take src pos x rest : here src pos (x ++ rest) → take (length x) (drop pos src) = x.
Proof. intros [_ ->]. apply take_app_length. Qed.

Lemma here_end src pos : here src pos [] → pos = length src.
Proof. intros [Hp E]. apply (f_equal length) in E. rewrite length_drop in E. cbn in E. lia. Qed.

Lemma here_inj src p q rest : here src p rest → here src q rest → p = q.
Proof. intros [P1 P2] [Q1 Q2]. apply (f_equal length) in P2, Q2. rewrite length_drop in P2, Q2. lia. Qed.

Lemma i64_u64 v : i64_range v → i64 (u64 v) = v.
Proof.
  intros H. rewrite <- (i64_id v H) at 2. unfold i64, u64. rewrite Zplus_mod_idemp_l. done.
Qed.

Lemma takeU32_here src pos v rest :
  here src pos (put_u32 v ++ rest) → u32_range v → takeU32 src pos = (v, (pos + 4)%nat).
Proof.
  intros H Hv. unfold takeU32. f_equal. rewrite <- (put_u32_length v), (here_take _ _ _ _ H). by apply get_put_u32.
Qed.

Lemma takeU64_here src pos v rest :
  here src pos (put_u64 v ++ rest) → u64_range v → takeU64 src pos = (v, (pos + 8)%nat).
Proof.
  intros H Hv. unfold takeU64. f_equal. rewrite <- (put_u64_length v), (here_take _ _ _ _ H), get_put_u64. by apply u64_id.
Qed.

Lemma takeI64_here src pos v rest :
  here src pos (put_u64 (u64 v) ++ rest) → i64_range v → takeI64 src pos = (v, (pos + 8)%nat).
Proof.
  intros H Hv. unfold takeI64. rewrite (takeU64_here _ _ _ _ H) by apply u64_bound. by rewrite i64_u64.
Qed.

Lemma byte_at_here src pos v rest :
  here src pos ([byte_of v] ++ rest) → 0 ≤ v < 256 → byte_at src pos = v.
Proof.
  intros [_ E] Hv. unfold byte_at. replace pos with (pos + 0)%nat by lia. rewrite <- lookup_drop, E. cbn.
  rewrite bval_byte_of. by apply Z.mod_small.
Qed.

Lemma here_u32 src pos v rest : here src pos (put_u32 v ++ rest) → here src (pos + 4) rest.
Proof. intros H%here_app. by rewrite put_u32_length in H. Qed.
Lemma here_u64 src pos v rest : here src pos (put_u64 v ++ rest) → here src (pos + 8) rest.
Proof. intros H%here_app. by rewrite put_u64_length in H. Qed.
Lemma here_byte src pos b rest : here src pos ([b] ++ rest) → here src (S pos) rest.
Proof. intros H%here_app. cbn in H. by rewrite Nat.add_1_r in H. Qed.

(** One step of a decoder: the next integer is the one that was written. *)
Ltac read_int :=
  match goal with
  | H : here ?src ?pos (put_u64 (u64 ?v) ++ ?rest) |- context [takeI64 ?src ?pos] =>
      rewrite (takeI64_here src pos v rest H) by (done || auto with go); apply here_u64 in H
  | H : here ?src ?pos (put_u64 ?v ++ ?rest) |- context [takeU64 ?src ?pos] =>
      rewrite (takeU64_here src pos v rest H) by (done || auto with go); apply here_u64 in H
  | H : here ?src ?pos (put_u32 ?v ++ ?rest) |- context [takeU32 ?src ?pos] =>
      rewrite (takeU32_here src pos v rest H) by (done || auto with go); apply here_u32 in H
  end.

(** ** Records *)

(** The widths of the fields, as the Go types have them. *)
Record record_wide (r : walRecord) : Prop := {
  rw_sequence : u64_range (w_sequence r);
  rw_id : w_commandID r ≠ [];
  rw_length : u32_range (zlen (w_commandID r));
  rw_kind : i64_range (w_kind r);
  rw_a : u64_range (w_a r);
  rw_b : u64_range (w_b r);
  rw_amount : i64_range (w_amount r);
  rw_reason : i64_range (w_reason r);
  rw_effect : i64_range (w_effect r);
  rw_turns : i64_range (w_turns r);
  rw_newBalanceA : i64_range (w_newBalanceA r);
  rw_newBalanceB : i64_range (w_newBalanceB r);
  rw_newStatus : i64_range (w_newStatus r);
  rw_expectedA : u64_range (w_expectedA r);
  rw_expectedB : u64_range (w_expectedB r);
  rw_pendingTarget : u64_range (w_pendingTarget r);
  rw_pendingAmount : i64_range (w_pendingAmount r) }.

(** The bytes of a record after the length of its identity. *)
Definition wal_bytes (r : walRecord) : bytes :=
  put_u64 (w_sequence r) ++ put_u32 (u32 (zlen (w_commandID r))) ++ w_commandID r
  ++ put_u64 (u64 (w_kind r)) ++ put_u64 (w_a r) ++ put_u64 (w_b r) ++ put_u64 (u64 (w_amount r))
  ++ [byte_of (record_flags r)]
  ++ put_u64 (u64 (w_reason r)) ++ put_u64 (u64 (w_effect r)) ++ put_u64 (u64 (w_turns r))
  ++ put_u64 (u64 (w_newBalanceA r)) ++ put_u64 (u64 (w_newBalanceB r)) ++ put_u64 (u64 (w_newStatus r))
  ++ put_u64 (w_expectedA r) ++ put_u64 (w_expectedB r) ++ put_u64 (w_pendingTarget r)
  ++ put_u64 (u64 (w_pendingAmount r)).

Lemma appendWALRecord_bytes dst r : appendWALRecord dst r = dst ++ wal_bytes r.
Proof.
  unfold appendWALRecord, wal_bytes, appendI64, appendU64, appendU32. cbv zeta. cbn [foldl].
  by rewrite <- !app_assoc.
Qed.

Lemma append_records dst rs : foldl appendWALRecord dst rs = dst ++ concat (map wal_bytes rs).
Proof.
  revert dst. induction rs as [|r rs IH]; intros dst; cbn [foldl map concat]; [by rewrite app_nil_r|].
  by rewrite IH, appendWALRecord_bytes, app_assoc.
Qed.

Lemma wal_bytes_length r : zlen (wal_bytes r) = record_fixed + zlen (w_commandID r) + 8.
Proof.
  unfold wal_bytes, record_fixed. rewrite !zlen_app.
  assert (∀ v, zlen (put_u64 v) = 8) as E8 by (intros; unfold zlen; by rewrite put_u64_length).
  assert (∀ v, zlen (put_u32 v) = 4) as E4 by (intros; unfold zlen; by rewrite put_u32_length).
  rewrite !E8, E4. unfold zlen. cbn. lia.
Qed.

Lemma flags_accepted r : negb (Z.land (record_flags r) 1 =? 0) = w_accepted r.
Proof. unfold record_flags. by destruct (w_accepted r), (w_pendingActive r). Qed.
Lemma flags_pending r : negb (Z.land (record_flags r) 2 =? 0) = w_pendingActive r.
Proof. unfold record_flags. by destruct (w_accepted r), (w_pendingActive r). Qed.
Lemma flags_range r : 0 ≤ record_flags r < 256.
Proof. unfold record_flags. destruct (w_accepted r), (w_pendingActive r); split; vm_compute; congruence. Qed.

Lemma parse_record src pos r rest :
  here src pos (wal_bytes r ++ rest) → record_wide r →
  parseWALRecord src pos = Ok (r, (pos + length (wal_bytes r))%nat).
Proof.
  intros H W. pose proof (wal_bytes_length r) as Hlen. pose proof (here_left _ _ _ H) as Hl. rewrite zlen_app in Hl.
  pose proof (zlen_nonneg rest) as Hr. pose proof (here_app _ _ _ _ H) as Hend.
  assert (0 < zlen (w_commandID r)) as Hid.
  { pose proof (rw_id _ W). unfold zlen. destruct (w_commandID r); [done|cbn; lia]. }
  unfold parseWALRecord. rewrite (proj2 (Z.ltb_ge _ _)) by lia. cbn [guard_err res_bind].
  destruct W. unfold wal_bytes in H. rewrite <- !app_assoc in H. rewrite u32_id in H by done.
  read_int. read_int. rewrite (here_left _ _ _ H), !zlen_app.
  rewrite (proj2 (Z.eqb_neq _ _)) by lia.
  assert (∀ v, zlen (put_u64 v) = 8) as E8 by (intros; unfold zlen; by rewrite put_u64_length). rewrite !E8.
  change (zlen [byte_of (record_flags r)]) with 1. unfold record_fixed.
  rewrite !(proj2 (Z.ltb_ge _ _)) by lia. cbn [orb guard_err res_bind].
  assert (Z.to_nat (zlen (w_commandID r)) = length (w_commandID r)) as -> by (unfold zlen; lia).
  rewrite (here_take _ _ _ _ H). apply here_app in H. do 4 read_int.
  rewrite (byte_at_here _ _ _ _ H) by apply flags_range. apply here_byte in H. do 10 read_int.
  rewrite flags_accepted, flags_pending. do 2 f_equal; [by destruct r|].
  by eapply here_inj.
Qed.

(** A record whose last field is cut off passes the checks of its length and
    panics. *)
Theorem short_record_panics :
  parseWALRecord (take 118 (wal_bytes {| w_sequence := 1; w_commandID := bs "c"; w_kind := 0; w_a := 1; w_b := 0; w_amount := 5;
    w_accepted := true; w_reason := 0; w_effect := 1; w_turns := 1; w_newBalanceA := 5; w_newBalanceB := 0; w_newStatus := 0;
    w_expectedA := 0; w_expectedB := 0; w_pendingActive := false; w_pendingTarget := 0; w_pendingAmount := 0 |})) 0
  = Err sliceOutOfRange.
Proof. vm_compute. reflexivity. Qed.

Lemma frame_records_ok rs : ∀ payload cursor after acc rest,
  here payload cursor (concat (map wal_bytes rs) ++ rest) → Forall record_wide rs →
  frame_records (length rs) payload cursor after acc
  = Ok (acc ++ filter (λ r, after < w_sequence r) rs, (cursor + length (concat (map wal_bytes rs)))%nat).
Proof.
  induction rs as [|r rs IH]; intros payload cursor after acc rest H HW.
  { cbn. by rewrite app_nil_r, Nat.add_0_r. }
  apply Forall_cons in HW as [Hr HW]. cbn [map concat] in H. rewrite <- app_assoc in H.
  cbn [length frame_records map concat]. rewrite (parse_record _ _ _ _ H Hr).
  rewrite (IH _ _ _ _ rest (here_app _ _ _ _ H) HW), filter_cons, length_app, Nat.add_assoc. do 2 f_equal.
  destruct (after <? w_sequence r) eqn:E; bool_to_prop.
  - rewrite decide_True by done. by rewrite <- app_assoc.
  - by rewrite decide_False by lia.
Qed.

(** ** Frames *)

(** A batch that [appendBatch] writes. *)
Record frame_ok (rs : list walRecord) : Prop := {
  fo_wide : Forall record_wide rs;
  fo_count : u32_range (zlen rs);
  fo_bytes : zlen (batch_payload rs) ≤ maxWALFrameBytes }.

Lemma batch_payload_bytes rs : batch_payload rs = put_u32 (u32 (zlen rs)) ++ concat (map wal_bytes rs).
Proof. unfold batch_payload. by rewrite append_records. Qed.

Lemma frame_payload_range rs : frame_ok rs → u32_range (zlen (batch_payload rs)) ∧ 4 ≤ zlen (batch_payload rs).
Proof.
  intros [_ _ H]. unfold maxWALFrameBytes in H. split; [unfold u32_range; pose proof (zlen_nonneg (batch_payload rs)); lia|].
  rewrite batch_payload_bytes, zlen_app. unfold zlen at 1. rewrite put_u32_length.
  pose proof (zlen_nonneg (concat (map wal_bytes rs))). lia.
Qed.

Lemma batch_frame_length rs : length (batch_frame rs) = (length (batch_payload rs) + 8)%nat.
Proof. unfold batch_frame. rewrite !length_app, !put_u32_length. lia. Qed.

Definition batch_frames (bs : list (list walRecord)) : bytes := concat (map batch_frame bs).

Lemma scan_frame fuel data pos after records rs rest :
  here data pos (batch_frame rs ++ rest) → frame_ok rs →
  scan_frames (S fuel) data pos after records
  = scan_frames fuel data (pos + length (batch_frame rs)) after (records ++ filter (λ r, after < w_sequence r) rs).
Proof.
  intros H Hf. destruct (frame_payload_range rs Hf) as [Hp H4]. pose proof Hf as [HW Hc Hm].
  pose proof (here_left _ _ _ H) as Hl. rewrite zlen_app in Hl.
  assert (zlen (batch_frame rs) = zlen (batch_payload rs) + 8) as Hfl by (unfold zlen; rewrite batch_frame_length; lia).
  pose proof (zlen_nonneg rest). pose proof (here_app _ _ _ _ H) as Hend.
  cbn [scan_frames]. rewrite (proj2 (Z.leb_gt _ _)), (proj2 (Z.ltb_ge _ _)) by lia.
  unfold batch_frame in H. cbv zeta in H. rewrite <- !app_assoc, u32_id in H by done. read_int.
  rewrite (proj2 (Z.ltb_ge _ _)), (proj2 (Z.ltb_ge maxWALFrameBytes _)) by lia. cbn [orb guard_err res_bind].
  rewrite (here_left _ _ _ H), !zlen_app. change (zlen (put_u32 (crc32 (batch_payload rs)))) with 4.
  rewrite (proj2 (Z.ltb_ge _ _)) by lia.
  assert (Z.to_nat (zlen (batch_payload rs)) = length (batch_payload rs)) as -> by (unfold zlen; lia).
  rewrite (here_take _ _ _ _ H). apply here_app in H. assert (u32_range (crc32 (batch_payload rs))) as Hcrc by apply crc32_range.
  read_int. rewrite Z.eqb_refl. cbn [negb guard_err res_bind].
  assert (get_u32 (take 4 (batch_payload rs)) = zlen rs) as ->.
  { rewrite batch_payload_bytes, u32_id, take_app_length' by (done || by rewrite put_u32_length). by apply get_put_u32. }
  assert (here (batch_payload rs) 4 (concat (map wal_bytes rs) ++ [])) as Hpl.
  { rewrite app_nil_r, batch_payload_bytes. rewrite <- (put_u32_length (u32 (zlen rs))). apply here_prefix. }
  assert (Z.to_nat (zlen rs) = length rs) as -> by (unfold zlen; lia).
  rewrite (frame_records_ok rs _ _ _ _ _ Hpl HW). cbn [res_bind].
  apply here_app in Hpl. apply here_end in Hpl. rewrite Hpl, Nat.eqb_refl. cbn [negb guard_err res_bind].
  f_equal. by eapply here_inj.
Qed.

(** A tail that is not a whole frame ends the scan. *)
Lemma scan_torn fuel data pos after records rs n :
  here data pos (take n (batch_frame rs)) → frame_ok rs → (n < length (batch_frame rs))%nat →
  scan_frames (S fuel) data pos after records = Ok (records, pos).
Proof.
  intros H Hf Hn. destruct (frame_payload_range rs Hf) as [Hp H4]. pose proof (fo_bytes _ Hf).
  pose proof (here_left _ _ _ H) as Hl. unfold zlen in Hl at 1. rewrite length_take in Hl. rewrite batch_frame_length in Hn, Hl.
  cbn [scan_frames]. destruct (left_at data pos <=? 0) eqn:E0; [done|]. destruct (left_at data pos <? 4) eqn:E4; [done|].
  bool_to_prop.
  assert (here data pos (put_u32 (zlen (batch_payload rs)) ++ take (n - 4) (batch_payload rs ++ put_u32 (crc32 (batch_payload rs))))) as H'.
  { unfold batch_frame in H. cbv zeta in H. rewrite u32_id in H by done. rewrite take_app_ge, put_u32_length in H; [done|].
    rewrite put_u32_length. lia. }
  clear H. rename H' into H. read_int. rewrite (proj2 (Z.ltb_ge _ _)), (proj2 (Z.ltb_ge maxWALFrameBytes _)) by lia.
  cbn [orb guard_err res_bind]. rewrite (here_left _ _ _ H). unfold zlen at 1. rewrite length_take, length_app, put_u32_length.
  rewrite (proj2 (Z.ltb_lt _ _)); [done|]. unfold zlen. lia.
Qed.

Lemma scan_all fuel data pos after records bs rs n :
  here data pos (batch_frames bs ++ take n (batch_frame rs)) → Forall frame_ok bs → frame_ok rs →
  (n < length (batch_frame rs))%nat → (length bs < fuel)%nat →
  scan_frames fuel data pos after records
  = Ok (records ++ filter (λ r, after < w_sequence r) (concat bs), (pos + length (batch_frames bs))%nat).
Proof.
  intros H Hb Hr Hn. revert fuel pos records H. induction Hb as [|b bs Hb Hbs IH]; intros fuel pos records H Hfu.
  { destruct fuel as [|fuel]; [cbn in Hfu; lia|]. cbn in H. rewrite (scan_torn _ _ _ _ _ _ _ H) by done.
    cbn. by rewrite app_nil_r, Nat.add_0_r. }
  destruct fuel as [|fuel]; [cbn in Hfu; lia|]. unfold batch_frames in H. cbn [map concat] in H. rewrite <- app_assoc in H.
  rewrite (scan_frame _ _ _ _ _ _ _ H) by done. cbn in Hfu. rewrite IH by (lia || by apply here_app).
  unfold batch_frames. cbn [map concat]. by rewrite filter_app, length_app, <- app_assoc, Nat.add_assoc.
Qed.

(** An empty batch, for the empty tail. *)
Lemma frame_ok_nil : frame_ok [].
Proof. split; [constructor|done|vm_compute; congruence]. Qed.

Lemma batch_frames_length bs : (length bs ≤ length (batch_frames bs))%nat.
Proof.
  induction bs as [|b bs IH]; [cbn; lia|]. unfold batch_frames in *. cbn [map concat length]. rewrite length_app, batch_frame_length. lia.
Qed.

Lemma wal_header_length : length wal_header = walHeaderSize.
Proof. vm_compute. reflexivity. Qed.

(** The scan of a log whose last frame may be torn: all records after the
    snapshot of the whole frames, and the length of the whole frames. *)
Lemma scanWAL_ok after bs rs n :
  Forall frame_ok bs → frame_ok rs → (n < length (batch_frame rs))%nat →
  scanWAL (wal_header ++ batch_frames bs ++ take n (batch_frame rs)) after
  = Ok (filter (λ r, after < w_sequence r) (concat bs), (walHeaderSize + length (batch_frames bs))%nat).
Proof.
  intros Hb Hr Hn. set (tail := batch_frames bs ++ take n (batch_frame rs)). unfold scanWAL.
  assert (∀ k, (k ≤ 24)%nat → take k (wal_header ++ tail) = take k wal_header) as Ht.
  { intros k Hk. apply take_app_le. rewrite wal_header_length. unfold walHeaderSize. lia. }
  assert (∀ k j, (j + k ≤ 24)%nat → take k (drop j (wal_header ++ tail)) = take k (drop j wal_header)) as Hd.
  { intros k j Hk. rewrite drop_app_le by (rewrite wal_header_length; unfold walHeaderSize; lia).
    apply take_app_le. rewrite length_drop, wal_header_length. unfold walHeaderSize. lia. }
  rewrite !Ht, !Hd by lia.
  change (get_u32 (take 4 (drop 8 wal_header)) =? walFileVersion) with true. cbn [negb]. rewrite andb_false_r.
  cbn [guard_err res_bind]. change (bool_decide (take 8 wal_header = walFileMagic)) with true.
  change (get_u32 (take 4 (drop 20 wal_header)) =? crc32 (take 20 wal_header)) with true. cbn [negb].
  rewrite zlen_app. pose proof (zlen_nonneg tail). rewrite (proj2 (Z.ltb_ge _ _)) by (unfold zlen in *; rewrite wal_header_length; lia).
  cbn [orb guard_err res_bind]. rewrite (scan_all _ _ _ _ _ bs rs n); try done.
  - rewrite <- wal_header_length. apply here_prefix.
  - pose proof (batch_frames_length bs). rewrite length_app. unfold tail. rewrite length_app. lia.
Qed.
