(* ===== verification/CoreWide.v ===== *)
(** * Widths and order

    Every number the engine keeps fits the Go type it has, and the sequences of
    the ledger and of the retained results rise.  These are what the binary log
    and the snapshot need to be read back. *)

From Stdlib Require Import ZArith Lia Strings.Byte Strings.String.
From stdpp Require Import base decidable countable list gmap.
From S2P Require Import Prelude GoText GoBinary Errors CoreTypes CoreEngine CoreWal CoreSpec CoreRefinement CoreHistory CoreSerial CoreCodec.

Local Open Scope Z_scope.

(** Rising from [prior], up to [limit]. *)
Fixpoint rising (prior limit : Z) (l : list Z) : Prop :=
  match l with
  | [] => True
  | x :: l => prior < x ≤ limit ∧ rising x limit l
  end.

Lemma rising_mono prior limit limit' l : limit ≤ limit' → rising prior limit l → rising prior limit' l.
Proof. revert prior. induction l as [|x l IH]; intros prior Hl; [done|]. intros [H1 H2]. split; [lia|by apply IH]. Qed.

Lemma rising_weaken prior prior' limit l : prior' ≤ prior → rising prior limit l → rising prior' limit l.
Proof. destruct l as [|x l]; intros Hl; [done|]. intros [H1 H2]. split; [lia|done]. Qed.

Lemma rising_snoc prior limit x l : rising prior limit l → prior ≤ limit → limit < x → rising prior x (l ++ [x]).
Proof.
  revert prior. induction l as [|y l IH]; intros prior; cbn; intros H Hp Hx; [lia|]. destruct H as [H1 H2]. split; [lia|]. apply IH; [done|lia|done].
Qed.

Lemma rising_drop prior limit n l : rising prior limit l → rising prior limit (drop n l).
Proof.
  revert prior l. induction n as [|n IH]; intros prior [|x l]; try done. cbn. intros [H1 H2].
  apply (rising_weaken x); [lia|]. by apply IH.
Qed.

(** ** Values *)

Record account_wide (id : Z) (a : Account) : Prop := {
  aw_id : ac_ID a = id;
  aw_balance : i64_range (ac_Balance a);
  aw_status : i64_range (ac_Status a);
  aw_version : u64_range (ac_Version a) }.

Record agent_wide (g : agentState) : Prop := {
  gw_target : u64_range (pt_Target (ag_Pending g));
  gw_amount : i64_range (pt_Amount (ag_Pending g));
  gw_turns : i64_range (ag_Turns g) }.

Definition id_wide (id : bytes) : Prop := id ≠ [] ∧ u32_range (zlen id).

Record entry_wide (l : LedgerEntry) : Prop := {
  lw_id : id_wide (le_CommandID l);
  lw_from : u64_range (le_From l);
  lw_to : u64_range (le_To l);
  lw_amount : i64_range (le_Amount l);
  lw_effect : i64_range (le_EffectTag l) }.

Record result_wide (r : Result) : Prop := {
  tw_id : id_wide (rt_CommandID r);
  tw_reason : i64_range (rt_ReasonTag r);
  tw_effect : i64_range (rt_EffectTag r);
  tw_turns : i64_range (rt_TransitionCount r);
  tw_original : rt_Duplicate r = false }.

Record command_wide (c : Command) : Prop := {
  cw_id : u32_range (zlen (cm_ID c));
  cw_kind : i64_range (cm_Kind c);
  cw_account : u64_range (cm_Account c);
  cw_other : u64_range (cm_Other c);
  cw_amount : i64_range (cm_Amount c) }.

(** ** The ledger *)

Record ledger_wide (s : ledger) : Prop := {
  wl_entry : ∀ i en, lg_entries s !! i = Some en →
    u64_range i ∧ agent_wide (en_agent en) ∧ ∀ a, en_account en = Some a → account_wide i a;
  wl_log : Forall entry_wide (lg_log s);
  wl_log_order : rising 0 (lg_sequence s) (map le_Sequence (lg_log s));
  wl_results : Forall result_wide (lg_results s);
  wl_results_order : rising 0 (lg_sequence s) (map rt_Sequence (lg_results s));
  wl_sequence : u64_range (lg_sequence s) }.

Lemma zero_i64 : i64_range 0. Proof. unfold i64_range. lia. Qed.
Lemma zero_u64 : u64_range 0. Proof. unfold u64_range. lia. Qed.
Lemma zero_agent_wide : agent_wide zeroAgent.
Proof. split; cbn; [apply zero_u64|apply zero_i64..]. Qed.

Lemma wide_acct s i a : ledger_wide s → acct (lg_entries s) i = Some a → account_wide i a.
Proof. intros W H. unfold acct in H. apply bind_Some in H as (en&He&Ha). by apply (wl_entry _ W i en He). Qed.

Lemma wide_agent s i : ledger_wide s → agent_wide (agent (lg_entries s) i).
Proof.
  intros W. unfold agent. destruct (lg_entries s !! i) as [en|] eqn:E; [|apply zero_agent_wide]. cbn. by apply (wl_entry _ W i en E).
Qed.

(** What a command sees fits its types. *)
Lemma wide_seen s i :
  ledger_wide s → i64_range (ac_Balance (seen (lg_entries s) i)) ∧ i64_range (ac_Status (seen (lg_entries s) i))
    ∧ u64_range (ac_Version (seen (lg_entries s) i)).
Proof.
  intros W. unfold seen. destruct (acct (lg_entries s) i) as [a|] eqn:E; cbn.
  - by apply (wide_acct s i a W) in E as [].
  - split; [|split]; [apply zero_i64|apply zero_i64|apply zero_u64].
Qed.

Lemma small_i64 v : 0 ≤ v < 100 → i64_range v.
Proof. unfold i64_range. lia. Qed.

Lemma decideGo_wide c a aok b bok p :
  command_wide c → i64_range (ac_Balance a) → i64_range (ac_Status a) → i64_range (ac_Balance b) →
  let d := decideGo c a aok b bok p in
  0 ≤ d_reason d < 100 ∧ 0 ≤ d_effect d < 100 ∧ i64_range (d_balanceA d) ∧ i64_range (d_balanceB d) ∧ i64_range (d_status d).
Proof.
  intros [_ _ _ _ Ha] Hb Hs Hb'. revert Ha. by_kind c; try (rewrite decideGo_other by done); cbn; intros Ha;
    split_and!; try done; try apply i64_bound; try (unfold i64_range, StatusOpen, StatusFrozen; lia).
Qed.

Lemma record_with_wide s g c :
  ledger_wide s → agent_wide g → command_wide c → cm_ID c ≠ [] →
  record_wide (record_with (u64 (lg_sequence s + 1)) (lg_entries s) g c).
Proof.
  intros W Hg Hc Hid. destruct (wide_seen s (cm_Account c) W) as (A1&A2&A3). destruct (wide_seen s (cm_Other c) W) as (B1&_&B3).
  pose proof Hc as [C1 C2 C3 C4 C5]. destruct Hg as [G1 G2 G3].
  set (b := default zeroAccount (if cm_Other c =? 0 then None else acct (lg_entries s) (cm_Other c))).
  assert (i64_range (ac_Balance b) ∧ u64_range (ac_Version b)) as [Bb Bv].
  { unfold b. destruct (cm_Other c =? 0); [split; [apply zero_i64|apply zero_u64]|done]. }
  unfold record_with. fold b. set (d := decideGo c _ _ _ _ _).
  destruct (decideGo_wide c _ _ b _ (ag_Pending g) Hc A1 A2 Bb : let d := d in _) as (D1&D2&D3&D4&D5).
  split; cbn [make_record w_sequence w_commandID w_kind w_a w_b w_amount w_reason w_effect w_turns w_newBalanceA w_newBalanceB
    w_newStatus w_expectedA w_expectedB w_pendingTarget w_pendingAmount]; try done; try apply u64_bound; try apply i64_bound;
    try (by apply small_i64).
  - unfold next_pending. destruct (_ || _); [apply zero_u64|]. by destruct (_ && _).
  - unfold next_pending. destruct (_ || _); [apply zero_i64|]. by destruct (_ && _).
Qed.

(** ** Preservation *)

(** An entry with its widths. *)
Definition en_wide (i : Z) (en : entry) : Prop :=
  u64_range i ∧ agent_wide (en_agent en) ∧ ∀ a, en_account en = Some a → account_wide i a.

Definition entries_wide (m : entries) : Prop := map_Forall en_wide m.

Lemma en_wide_agent m i : entries_wide m → agent_wide (agent m i).
Proof.
  intros H. unfold agent. destruct (m !! i) as [en|] eqn:E; [|apply zero_agent_wide]. by destruct (H i en E) as (_&?&_).
Qed.

Lemma en_wide_acct m i a : entries_wide m → acct m i = Some a → account_wide i a.
Proof. intros H Ha. unfold acct in Ha. apply bind_Some in Ha as (en&He&Ha). by destruct (H i en He) as (_&_&?); auto. Qed.

Lemma put_account_wide m i a : entries_wide m → u64_range i → account_wide i a → entries_wide (put_account i a m).
Proof.
  intros H Hi Ha. apply map_Forall_insert_2; [|done]. split; [done|]. split; [by apply en_wide_agent|]. by intros ? [= <-].
Qed.

Lemma put_agent_wide m i g : entries_wide m → u64_range i → agent_wide g → entries_wide (put_agent i g m).
Proof.
  intros H Hi Hg. apply map_Forall_insert_2; [|done]. split; [done|]. split; [done|]. cbn. intros a Ha. by eapply en_wide_acct.
Qed.

Lemma bump_wide i a v : account_wide i a → i64_range v → account_wide i (bump v a).
Proof. intros [H1 H2 H3 H4] Hv. split; try done. apply u64_bound. Qed.

Lemma restate_wide i a v : account_wide i a → i64_range v → account_wide i (restate v a).
Proof. intros [H1 H2 H3 H4] Hv. split; try done. apply u64_bound. Qed.

Lemma spec_entries_wide m r : entries_wide m → record_wide r → fits m r → entries_wide (spec_entries m r).
Proof.
  intros H W Hf. pose proof W as []. apply put_agent_wide; [|done|by split].
  destruct (w_accepted r) eqn:Hacc; [|done]. destruct (Hf Hacc) as [F2 F3]. unfold spec_effect, seen.
  destruct (w_effect r =? 1) eqn:E1; bool_to_prop.
  { apply put_account_wide; [done|done|]. split; cbn; [done|done|apply small_i64; unfold StatusOpen; lia|unfold u64_range; lia]. }
  destruct (w_effect r =? 2) eqn:E2; bool_to_prop.
  { destruct (F2 ltac:(auto)) as [a Ha]. rewrite Ha. apply put_account_wide; [done|done|]. apply bump_wide; [by eapply en_wide_acct|done]. }
  destruct (w_effect r =? 3) eqn:E3; bool_to_prop.
  { destruct (F3 ltac:(auto)) as ([a Ha]&[b Hb]&_). rewrite Ha, Hb.
    apply put_account_wide; [apply put_account_wide; [done|done|]|done|]; apply bump_wide; try done; by eapply en_wide_acct. }
  destruct (w_effect r =? 4) eqn:E4; bool_to_prop; [|done].
  destruct (F2 ltac:(auto)) as [a Ha]. rewrite Ha. apply put_account_wide; [done|done|]. apply restate_wide; [by eapply en_wide_acct|done].
Qed.

Lemma spec_apply_wide window s r :
  ledger_wide s → record_wide r → record_ok s r → lg_sequence s + 1 < 2 ^ 64 → ledger_wide (spec_apply window s r).
Proof.
  intros [W1 W2 W3 W4 W5 W6] W Hro Hs. pose proof (ro_sequence _ _ Hro) as Hseq. pose proof W as [].
  unfold u64_range in W6. rewrite u64_id in Hseq by (unfold u64_range; lia).
  split; cbn [spec_apply lg_entries lg_log lg_results lg_sequence].
  - intros i en He. assert (entries_wide (spec_entries (lg_entries s) r)) as HE by (apply spec_entries_wide; [done|done|by apply ro_fits]).
    exact (HE i en He).
  - unfold spec_log. destruct (_ && _); [|done]. apply Forall_app. split; [done|]. constructor; [|constructor]. by split.
  - unfold spec_log. rewrite Hseq. destruct (_ && _).
    + rewrite map_app. cbn [map ledger_entry le_Sequence]. rewrite Hseq. apply (rising_snoc _ (lg_sequence s)); [done|lia|lia].
    + apply (rising_mono _ (lg_sequence s)); [lia|done].
  - unfold spec_remember. assert (Forall result_wide (lg_results s ++ [result_of r])) as HF.
    { apply Forall_app. split; [done|]. constructor; [|constructor]. by split. }
    destruct (_ <? _); [by apply Forall_drop|done].
  - rewrite Hseq. unfold spec_remember. assert (rising 0 (lg_sequence s + 1) (map rt_Sequence (lg_results s ++ [result_of r]))) as HR.
    { rewrite map_app. cbn [map result_of rt_Sequence]. rewrite Hseq. apply (rising_snoc _ (lg_sequence s)); [done|lia|lia]. }
    destruct (_ <? _); [|done]. rewrite <- skipn_map. by apply rising_drop.
  - done.
Qed.

Lemma core_history_wide window s rs s' :
  core_history window s rs s' → ledger_wide s → Forall record_wide rs → lg_sequence s + zlen rs < 2 ^ 64 →
  ledger_wide s' ∧ lg_sequence s' = lg_sequence s + zlen rs.
Proof.
  induction 1 as [s|s r rs s' Hro Hh IH]; intros W HW Hs. { split; [done|]. unfold zlen. cbn. lia. }
  apply Forall_cons in HW as [Hr HW]. assert (zlen (r :: rs) = zlen rs + 1) as Hz by (unfold zlen; cbn; lia).
  pose proof (zlen_nonneg rs). pose proof (wl_sequence _ W) as Hq. unfold u64_range in Hq.
  assert (lg_sequence (spec_apply window s r) = lg_sequence s + 1) as Es.
  { cbn. rewrite (ro_sequence _ _ Hro). apply u64_id. unfold u64_range. lia. }
  destruct IH as [I1 I2]; [apply spec_apply_wide; try done; lia|done|lia|]. split; [done|lia].
Qed.

(** ** Batches *)

Lemma batch_record_wide e bt c :
  batch_inv e bt → engine_ok e → ledger_wide (abs e) → Forall record_wide (b_records bt) →
  e_sequence e + zlen (b_records bt) < 2 ^ 64 → command_wide c → ValidateCommand c = Ok tt → record_wide (batch_record bt c).
Proof.
  intros I He W HW Hs Hc Hv. destruct (core_history_wide _ _ _ _ (bi_history _ _ I) W HW Hs) as [W' _].
  destruct (bi_rest _ _ I) as (_&_&_&_&_&R6). unfold batch_record, spec_record. rewrite R6, <- (bi_sequence _ _ I).
  rewrite (record_with_ext _ _ (lg_entries (foldl (spec_apply (window_of e)) (abs e) (b_records bt)))).
  2:{ intros i. rewrite lg_entries_foldl. apply I. }
  apply record_with_wide; [done| |done|].
  - destruct (e_ids (b_engine bt) !! cm_Account c) as [t|] eqn:E.
    + rewrite (bi_agent _ _ I) by eauto. change (durable e) with (lg_entries (abs e)). rewrite <- (lg_entries_foldl (window_of e)).
      by apply wide_agent.
    + unfold staged, agent. rewrite lookup_fmap, E. apply zero_agent_wide.
  - unfold ValidateCommand in Hv. inv_ok. by bool_to_prop.
Qed.

Lemma batch_steps_wide e bt cs :
  batch_inv e bt → engine_ok e → ledger_wide (abs e) → Forall record_wide (b_records bt) →
  Forall command_wide cs → Forall (λ c, ValidateCommand c = Ok tt) cs →
  e_sequence e + zlen (b_records bt) + zlen cs < 2 ^ 64 → zlen (e_accounts e) + zlen (b_records bt) + zlen cs ≤ 2 ^ 32 →
  Forall record_wide (b_records (foldl batch_step bt cs)).
Proof.
  intros I He W HW Hc Hv Hs Hb. induction Hv as [|c cs Hv1 Hv IH] in bt, I, HW, Hc, Hs, Hb |- *; [done|].
  apply Forall_cons in Hc as [Hc1 Hc]. assert (zlen (c :: cs) = zlen cs + 1) as Hz by (unfold zlen; cbn; lia).
  pose proof (zlen_nonneg cs). pose proof (bi_length _ _ I). destruct (bi_rest _ _ I) as (_&_&R3&_).
  destruct (batch_step_inv e bt c I He) as (I1&L1&_); [lia|done|]. cbn [foldl]. apply IH; try done; [|lia|lia].
  destruct (e_results e !! cm_ID c) as [prior|] eqn:Er; [unfold batch_step; by rewrite R3, Er|].
  destruct (b_ids bt !! cm_ID c) as [k|] eqn:Ei; [unfold batch_step; by rewrite R3, Er, Ei|].
  destruct (batch_inv_new e bt c) as (_&->&_); [done..|lia|done|done|done|]. apply Forall_app. split; [done|].
  constructor; [|constructor]. apply (batch_record_wide e); try done. lia.
Qed.

Lemma decide_batch_wide e cs :
  engine_ok e → ledger_wide (abs e) → Forall command_wide cs → validate_batch e cs = Ok tt →
  e_sequence e + zlen cs < 2 ^ 64 → zlen (e_accounts e) + zlen cs ≤ 2 ^ 32 → Forall record_wide (b_records (decide_batch e cs)).
Proof.
  intros He W Hc Hv Hs Hb. apply (batch_steps_wide e _ cs); try done; cbn [b_records].
  - by apply batch_inv_start.
  - by eapply validate_commands.
  - change (zlen (@nil walRecord)) with 0. lia.
  - change (zlen (@nil walRecord)) with 0. lia.
Qed.
