(* ===== verification/CoreRestore.v ===== *)
(** * The snapshot of the account engine: round trip

    [loadSnapshot] on what [encodeSnapshot] wrote gives an engine with the same
    ledger ([internal/core/core.go]). *)

From Stdlib Require Import ZArith Lia Strings.Byte Strings.String.
From stdpp Require Import base decidable countable list gmap.
From S2P Require Import Prelude GoText GoBinary Errors CoreTypes CoreEngine CoreWal CoreSnapshot CoreSpec CoreRefinement CoreHistory CoreCodec CoreWide.

Local Open Scope Z_scope.
Local Open Scope go_scope.

(** ** The bytes *)

Definition slot_flags (p : bool) (g : agentState) : Z :=
  Z.lor (if p then 1 else 0) (if pt_Active (ag_Pending g) then 2 else 0).

Definition slot_bytes (x : Account * bool * agentState) : bytes :=
  let '(a, p, g) := x in
  put_u64 (ac_ID a) ++ put_u64 (u64 (ac_Balance a)) ++ put_u64 (u64 (ac_Status a)) ++ put_u64 (ac_Version a)
  ++ [byte_of (slot_flags p g)] ++ put_u64 (pt_Target (ag_Pending g)) ++ put_u64 (u64 (pt_Amount (ag_Pending g)))
  ++ put_u64 (u64 (ag_Turns g)).

Definition ledger_bytes (l : LedgerEntry) : bytes :=
  put_u64 (le_Sequence l) ++ put_u32 (u32 (zlen (le_CommandID l))) ++ le_CommandID l ++ put_u64 (le_From l)
  ++ put_u64 (le_To l) ++ put_u64 (u64 (le_Amount l)) ++ put_u64 (u64 (le_EffectTag l)).

Definition result_bytes (r : Result) : bytes :=
  put_u32 (u32 (zlen (rt_CommandID r))) ++ rt_CommandID r ++ put_u64 (rt_Sequence r)
  ++ [byte_of (if rt_Accepted r then 1 else 0)] ++ put_u64 (u64 (rt_ReasonTag r)) ++ put_u64 (u64 (rt_EffectTag r))
  ++ put_u64 (u64 (rt_TransitionCount r)).

(** The slots of an engine, in order. *)
Definition slots_of (e : engine) : list (Account * bool * agentState) :=
  zip (zip (e_accounts e) (e_present e)) (e_agents e).

Lemma slots_of_lookup e s a :
  slots_ok e → e_accounts e !! s = Some a → slots_of e !! s = Some (a, present_at e s, agent_at e s).
Proof.
  intros Hok Ha. pose proof (lookup_lt_Some _ _ _ Ha) as Hlt. unfold slots_of, present_at, agent_at.
  destruct (lookup_lt_is_Some_2 (e_present e) s) as [p Hp]; [by rewrite (so_present _ Hok)|].
  destruct (lookup_lt_is_Some_2 (e_agents e) s) as [g Hg]; [by rewrite (so_agents _ Hok)|].
  rewrite !lookup_zip_with, Ha, Hp, Hg. done.
Qed.

Lemma slots_of_length e : slots_ok e → length (slots_of e) = length (e_accounts e).
Proof. intros Hok. unfold slots_of. rewrite !length_zip_with, (so_present _ Hok), (so_agents _ Hok). lia. Qed.

Lemma appendAccounts_bytes e b i l :
  slots_ok e → drop i (e_accounts e) = l →
  appendAccounts e b i l = b ++ concat (map slot_bytes (drop i (slots_of e))).
Proof.
  intros Hok. revert b i. induction l as [|a l IH]; intros b i El; cbn [appendAccounts].
  - rewrite drop_ge; [cbn; by rewrite app_nil_r|]. rewrite slots_of_length by done. apply (f_equal length) in El.
    rewrite length_drop in El. cbn in El. lia.
  - assert (e_accounts e !! i = Some a) as Ha.
    { rewrite <- (Nat.add_0_r i), <- lookup_drop, El. done. }
    rewrite (IH _ (S i)) by (replace (S i) with (i + 1)%nat by lia; by rewrite <- drop_drop, El).
    rewrite (drop_S _ _ _ (slots_of_lookup e i a Hok Ha)). cbn [map concat slot_bytes].
    unfold appendAccount, appendU64, appendI64, slot_flags. cbv zeta. unfold appendU64. by rewrite <- !app_assoc.
Qed.

Lemma appendLedgers_bytes b l : foldl appendLedger b l = b ++ concat (map ledger_bytes l).
Proof.
  revert b. induction l as [|x l IH]; intros b; cbn [foldl map concat]; [by rewrite app_nil_r|]. rewrite IH.
  unfold appendLedger, appendI64, appendU64, appendU32, ledger_bytes. cbv zeta. by rewrite <- !app_assoc.
Qed.

Lemma appendResults_bytes e b l :
  (∀ id, id ∈ l → rt_CommandID (default zeroCoreResult (e_results e !! id)) = id) →
  foldl (appendResult e) b l = b ++ concat (map result_bytes (map (λ id, default zeroCoreResult (e_results e !! id)) l)).
Proof.
  revert b. induction l as [|x l IH]; intros b H; cbn [foldl map concat]; [by rewrite app_nil_r|].
  rewrite IH by (intros; apply H; by right). unfold appendResult, appendI64, appendU64, appendU32, result_bytes. cbv zeta.
  rewrite (H x) by (by left). by rewrite <- !app_assoc.
Qed.

Lemma snapshot_bytes e :
  slots_ok e → dedupe_ok e →
  snapshot_payload e = put_u64 (e_sequence e) ++ put_u32 (u32 (zlen (e_accounts e))) ++ concat (map slot_bytes (slots_of e))
    ++ put_u64 (u64 (zlen (e_ledger e))) ++ concat (map ledger_bytes (e_ledger e))
    ++ put_u32 (u32 (window_of e)) ++ put_u32 (u32 (zlen (results_of e))) ++ concat (map result_bytes (results_of e)).
Proof.
  intros Hok Hd. unfold snapshot_payload. cbv zeta. rewrite appendResults_bytes.
  - rewrite appendLedgers_bytes, (appendAccounts_bytes _ _ _ _ Hok) by apply drop_0. unfold appendU64, appendU32. rewrite drop_0.
    assert (zlen (active_order e) = zlen (results_of e)) as -> by (unfold results_of, zlen; by rewrite length_map).
    by rewrite <- !app_assoc.
  - intros id Hid. apply (do_dom _ Hd) in Hid as [r Hr]. rewrite Hr. by apply (do_id _ Hd).
Qed.

(** ** Slots *)

(** A decoded slot is appended. *)
Definition push_slot (e : engine) (x : Account * bool * agentState) : engine :=
  let '(a, p, g) := x in
  with_slots (<[ac_ID a := length (e_accounts e)]> (e_ids e)) (e_accounts e ++ [a]) (e_present e ++ [p])
    (e_agents e ++ [g]) (e_scratch e ++ [zeroAccount]) (e_marks e ++ [0]) e.

Lemma insert_end {A} (l : list A) n x y : n = length l → <[n := x]> (l ++ [y]) = l ++ [x].
Proof. intros ->. rewrite insert_app_r_alt by lia. by rewrite Nat.sub_diag. Qed.

Lemma slot_flags_present p g : negb (Z.land (slot_flags p g) 1 =? 0) = p.
Proof. unfold slot_flags. by destruct p, (pt_Active _). Qed.
Lemma slot_flags_active p g : negb (Z.land (slot_flags p g) 2 =? 0) = pt_Active (ag_Pending g).
Proof. unfold slot_flags. by destruct p, (pt_Active _). Qed.
Lemma slot_flags_range p g : 0 ≤ slot_flags p g < 256.
Proof. unfold slot_flags. destruct p, (pt_Active _); split; vm_compute; congruence. Qed.

Definition slot_wide (x : Account * bool * agentState) : Prop :=
  account_wide (ac_ID x.1.1) x.1.1 ∧ u64_range (ac_ID x.1.1) ∧ agent_wide x.2.

Lemma parse_slot data pos e x rest :
  here data pos (slot_bytes x ++ rest) → slot_wide x → slots_ok e → zlen (e_accounts e) < 2 ^ 32 →
  e_ids e !! ac_ID x.1.1 = None →
  parse_account data pos e = Ok (push_slot e x, (pos + length (slot_bytes x))%nat).
Proof.
  intros H ([_ A1 A2 A3]&A4&[G1 G2 G3]) Hok Hb Hid. destruct x as [[a p] g]. cbn [fst snd] in *.
  pose proof (here_app _ _ _ _ H) as Hend. pose proof (here_left _ _ _ H) as Hl. pose proof (zlen_nonneg rest).
  unfold slot_bytes in H, Hl. rewrite <- !app_assoc in H. rewrite !zlen_app in Hl.
  assert (∀ v, zlen (put_u64 v) = 8) as E8 by (intros; unfold zlen; by rewrite put_u64_length). rewrite !E8 in Hl.
  change (zlen [byte_of (slot_flags p g)]) with 1 in Hl.
  unfold parse_account. rewrite (proj2 (Z.ltb_ge _ _)) by lia. cbn [guard_err res_bind]. do 4 read_int.
  rewrite (byte_at_here _ _ _ _ H) by apply slot_flags_range. apply here_byte in H. do 3 read_int.
  rewrite slot_flags_present, slot_flags_active. unfold slot. rewrite Hid. cbn [negb].
  rewrite u32_id by (unfold u32_range; pose proof (zlen_nonneg (e_accounts e)); lia).
  replace (Z.to_nat (zlen (e_accounts e))) with (length (e_accounts e)) by (unfold zlen; lia).
  do 2 f_equal; [|by eapply here_inj].
  unfold set_agent, set_present, set_account, with_slots, push_slot. cbn.
  rewrite !insert_end by (symmetry; first [apply Hok|done]).
  destruct a, g as [[]]. done.
Qed.

Lemma push_slot_ok e x :
  slots_ok e → e_ids e !! ac_ID x.1.1 = None → (x.1.2 = false → x.1.1 = blank_account (ac_ID x.1.1)) → slots_ok (push_slot e x).
Proof.
  intros Hok Hid Hb. destruct x as [[a p] g]. cbn [fst snd] in *. pose proof Hok as [H1 H2 H3 H4 H5 H6].
  split; cbn [push_slot with_slots e_present e_agents e_scratch e_marks e_accounts e_ids]; rewrite ?length_app, ?H1, ?H2, ?H3, ?H4; try done.
  - intros id s. rewrite lookup_insert. case_decide as E.
    + subst id. split.
      * intros [= <-]. exists a. by rewrite lookup_app_r, Nat.sub_diag.
      * intros (a'&Ha'&Ei). apply lookup_app_Some in Ha' as [Ha'|[Hge Ha']].
        -- assert (e_ids e !! ac_ID a' = Some s) as Hs by (apply H5; eauto). rewrite Ei in Hs. congruence.
        -- apply list_lookup_singleton_Some in Ha' as [Hz _]. f_equal. lia.
    + rewrite H5. split; intros (a'&Ha'&Ei); exists a'; (split; [|done]).
      * by apply lookup_app_l_Some.
      * apply lookup_app_Some in Ha' as [?|[Hge Ha']]; [done|]. apply list_lookup_singleton_Some in Ha' as [_ <-]. done.
  - intros s a' Ha'. unfold present_at. cbn [push_slot with_slots e_present]. apply lookup_app_Some in Ha' as [Ha'|[Hge Ha']].
    + rewrite lookup_app_l by (rewrite H1; by eapply lookup_lt_Some). by apply H6.
    + apply list_lookup_singleton_Some in Ha' as [Hz <-]. rewrite lookup_app_r by (rewrite H1; done). rewrite H1.
      replace (s - length (e_accounts e))%nat with 0%nat by lia. cbn. done.
Qed.

Lemma parse_slots l : ∀ data pos e rest,
  here data pos (concat (map slot_bytes l) ++ rest) → Forall slot_wide l → slots_ok e →
  zlen (e_accounts e) + zlen l ≤ 2 ^ 32 → NoDup (map (λ x, ac_ID x.1.1) l) →
  (∀ x, x ∈ l → e_ids e !! ac_ID x.1.1 = None) →
  Forall (λ x : Account * bool * agentState, x.1.2 = false → x.1.1 = blank_account (ac_ID x.1.1)) l →
  parse_accounts (length l) data pos e = Ok (foldl push_slot e l, (pos + length (concat (map slot_bytes l)))%nat)
  ∧ slots_ok (foldl push_slot e l).
Proof.
  induction l as [|x l IH]; intros data pos e rest H HW Hok Hb Hn Hid Hbl. { cbn. by rewrite Nat.add_0_r. }
  apply Forall_cons in HW as [Hx HW], Hbl as [Hbx Hbl]. cbn [map] in Hn. apply NoDup_cons in Hn as [Hn1 Hn2].
  assert (zlen (x :: l) = zlen l + 1) as Hz by (unfold zlen; cbn; lia). pose proof (zlen_nonneg l).
  cbn [map concat] in H. rewrite <- app_assoc in H. pose proof (Hid x ltac:(left)) as Hidx.
  cbn [length parse_accounts foldl map concat]. rewrite (parse_slot _ _ _ _ _ H) by (done || lia). cbn [res_bind].
  destruct (IH data (pos + length (slot_bytes x))%nat (push_slot e x) rest) as [-> Hok']; try done.
  - by apply here_app.
  - by apply push_slot_ok.
  - destruct x as [[a p] g]. cbn [push_slot with_slots e_accounts]. rewrite zlen_app. change (zlen [a]) with 1. lia.
  - intros y Hy. destruct x as [[a p] g]. cbn [push_slot with_slots e_ids fst] in *. rewrite lookup_insert_ne; [apply Hid; by right|].
    intros E. apply Hn1. rewrite E. apply list_elem_of_fmap. by exists y.
  - split; [|done]. by rewrite length_app, Nat.add_assoc.
Qed.

Lemma foldl_push l : ∀ e,
  e_accounts (foldl push_slot e l) = e_accounts e ++ map (λ x, x.1.1) l
  ∧ e_present (foldl push_slot e l) = e_present e ++ map (λ x, x.1.2) l
  ∧ e_agents (foldl push_slot e l) = e_agents e ++ map snd l
  ∧ e_marks (foldl push_slot e l) = e_marks e ++ map (λ _, 0) l
  ∧ e_cfg (foldl push_slot e l) = e_cfg e ∧ e_ledger (foldl push_slot e l) = e_ledger e
  ∧ e_epoch (foldl push_slot e l) = e_epoch e ∧ e_results (foldl push_slot e l) = e_results e
  ∧ e_order (foldl push_slot e l) = e_order e ∧ e_orderHead (foldl push_slot e l) = e_orderHead e
  ∧ e_sequence (foldl push_slot e l) = e_sequence e.
Proof.
  induction l as [|[[a p] g] l IH]; intros e; cbn [foldl map]. { by rewrite !app_nil_r. }
  destruct (IH (push_slot e (a, p, g))) as (->&->&->&->&->&->&->&->&->&->&->). cbn [push_slot with_slots
    e_accounts e_present e_agents e_marks e_cfg e_ledger e_epoch e_results e_order e_orderHead e_sequence]. by rewrite <- !app_assoc.
Qed.

Lemma zip_projections {A B C} (l1 : list A) (l2 : list B) (l3 : list C) :
  length l2 = length l1 → length l3 = length l1 →
  map (λ x, x.1.1) (zip (zip l1 l2) l3) = l1 ∧ map (λ x, x.1.2) (zip (zip l1 l2) l3) = l2 ∧ map snd (zip (zip l1 l2) l3) = l3.
Proof.
  revert l2 l3. induction l1 as [|a l1 IH]; intros [|b l2] [|c l3] H2 H3; try done. cbn in *.
  destruct (IH l2 l3) as (->&->&->); [lia|lia|done].
Qed.

(** Engines with the same slots have the same identities. *)
Lemma same_ids e e' : slots_ok e → slots_ok e' → e_accounts e' = e_accounts e → e_ids e' = e_ids e.
Proof.
  intros H H' E. apply map_eq. intros i. apply option_eq. intros s. rewrite (so_ids _ H), (so_ids _ H'), E. done.
Qed.

(** ** The ledger and the results *)

Lemma parse_entry data pos limit prior x rest :
  here data pos (ledger_bytes x ++ rest) → entry_wide x → prior < le_Sequence x ≤ limit → u64_range prior → u64_range limit →
  parse_ledger data pos limit prior = Ok (x, (pos + length (ledger_bytes x))%nat).
Proof.
  intros H [[I1 I2] W1 W2 W3 W4] Hs Hp Hlim. unfold u64_range in Hp, Hlim. pose proof (here_app _ _ _ _ H) as Hend.
  pose proof (here_left _ _ _ H) as Hl. pose proof (zlen_nonneg rest).
  assert (0 < zlen (le_CommandID x)) as Hid by (unfold zlen; destruct (le_CommandID x); [done|cbn; lia]).
  assert (u64_range (le_Sequence x)) as Hq by (unfold u64_range; lia).
  unfold ledger_bytes in H, Hl. rewrite <- !app_assoc in H. rewrite !zlen_app in Hl. rewrite u32_id in H, Hl by done.
  assert (∀ v, zlen (put_u64 v) = 8) as E8 by (intros; unfold zlen; by rewrite put_u64_length).
  assert (∀ v, zlen (put_u32 v) = 4) as E4 by (intros; unfold zlen; by rewrite put_u32_length). rewrite !E8, !E4 in Hl.
  unfold parse_ledger. rewrite (proj2 (Z.ltb_ge _ _)) by lia. cbn [guard_err res_bind]. do 2 read_int.
  rewrite (here_left _ _ _ H), !zlen_app, !E8. rewrite (proj2 (Z.eqb_neq _ _)) by lia. rewrite !(proj2 (Z.ltb_ge _ _)) by lia.
  cbn [orb guard_err res_bind]. replace (Z.to_nat (zlen (le_CommandID x))) with (length (le_CommandID x)) by (unfold zlen; lia).
  rewrite (here_take _ _ _ _ H). apply here_app in H. do 4 read_int.
  rewrite (proj2 (Z.leb_gt _ _)) by lia. rewrite bool_decide_false by done. cbn [orb guard_err res_bind].
  do 2 f_equal; [by destruct x|by eapply here_inj].
Qed.

Lemma parse_entries l : ∀ data pos limit prior acc rest,
  here data pos (concat (map ledger_bytes l) ++ rest) → Forall entry_wide l → rising prior limit (map le_Sequence l) →
  u64_range prior → u64_range limit →
  parse_ledgers (length l) data pos limit prior acc = Ok (acc ++ l, (pos + length (concat (map ledger_bytes l)))%nat).
Proof.
  induction l as [|x l IH]; intros data pos limit prior acc rest H HW Hr Hp Hlim. { cbn. by rewrite app_nil_r, Nat.add_0_r. }
  apply Forall_cons in HW as [Hx HW]. destruct Hr as [Hr1 Hr2]. cbn [map concat] in H. rewrite <- app_assoc in H.
  cbn [length parse_ledgers map concat]. rewrite (parse_entry _ _ _ _ _ _ H) by done. cbn [res_bind].
  rewrite (IH _ _ _ _ _ rest); try done.
  - by rewrite length_app, Nat.add_assoc, <- app_assoc.
  - by apply here_app.
  - unfold u64_range in *. lia.
Qed.

Lemma parse_answer data pos limit prior seen x rest :
  here data pos (result_bytes x ++ rest) → result_wide x → prior < rt_Sequence x ≤ limit → u64_range prior → u64_range limit →
  rt_CommandID x ∉ seen →
  parse_result data pos limit prior seen = Ok (x, (pos + length (result_bytes x))%nat).
Proof.
  intros H [[I1 I2] W1 W2 W3 W4] Hs Hp Hlim Hn. unfold u64_range in Hp, Hlim. pose proof (here_app _ _ _ _ H) as Hend.
  pose proof (here_left _ _ _ H) as Hl. pose proof (zlen_nonneg rest).
  assert (0 < zlen (rt_CommandID x)) as Hid by (unfold zlen; destruct (rt_CommandID x); [done|cbn; lia]).
  assert (u64_range (rt_Sequence x)) as Hq by (unfold u64_range; lia).
  unfold result_bytes in H, Hl. rewrite <- !app_assoc in H. rewrite !zlen_app in Hl. rewrite u32_id in H, Hl by done.
  assert (∀ v, zlen (put_u64 v) = 8) as E8 by (intros; unfold zlen; by rewrite put_u64_length).
  assert (∀ v, zlen (put_u32 v) = 4) as E4 by (intros; unfold zlen; by rewrite put_u32_length). rewrite !E8, !E4 in Hl.
  change (zlen [byte_of (if rt_Accepted x then 1 else 0)]) with 1 in Hl.
  unfold parse_result. rewrite (proj2 (Z.ltb_ge _ _)) by lia. cbn [guard_err res_bind]. read_int.
  rewrite (here_left _ _ _ H), !zlen_app, !E8. change (zlen [byte_of (if rt_Accepted x then 1 else 0)]) with 1.
  rewrite (proj2 (Z.eqb_neq _ _)) by lia. rewrite !(proj2 (Z.ltb_ge _ _)) by lia. cbn [orb guard_err res_bind].
  replace (Z.to_nat (zlen (rt_CommandID x))) with (length (rt_CommandID x)) by (unfold zlen; lia).
  rewrite (here_take _ _ _ _ H). apply here_app in H. read_int.
  rewrite (byte_at_here _ _ _ _ H) by (destruct (rt_Accepted x); lia). apply here_byte in H. do 3 read_int.
  rewrite (proj2 (Z.leb_gt _ _)) by lia. rewrite bool_decide_false by done. rewrite ?(proj2 (Z.ltb_ge limit _)) by lia.
  cbn [orb guard_err res_bind]. do 2 f_equal; [|by eapply here_inj]. destruct x as [sq id ac re ef tr du]. cbn in *. subst du. by destruct ac.
Qed.

(** The results are remembered in order; the window has room for all of them. *)
Lemma parse_answers l : ∀ data pos limit prior seen e rest,
  here data pos (concat (map result_bytes l) ++ rest) → Forall result_wide l → rising prior limit (map rt_Sequence l) →
  u64_range prior → u64_range limit → NoDup (map rt_CommandID l) → (∀ x, x ∈ l → rt_CommandID x ∉ seen) →
  (∀ x, x ∈ l → e_results e !! rt_CommandID x = None) → dedupe_ok e → zlen (results_of e) + zlen l ≤ window_of e →
  ∃ e', parse_results (length l) data pos limit prior seen e = Ok (e', (pos + length (concat (map result_bytes l)))%nat)
    ∧ dedupe_ok e' ∧ results_of e' = results_of e ++ l ∧ e_cfg e' = e_cfg e ∧ e_ids e' = e_ids e ∧ e_accounts e' = e_accounts e
    ∧ e_present e' = e_present e ∧ e_agents e' = e_agents e ∧ e_ledger e' = e_ledger e ∧ e_scratch e' = e_scratch e
    ∧ e_marks e' = e_marks e ∧ e_epoch e' = e_epoch e ∧ e_sequence e' = e_sequence e.
Proof.
  induction l as [|x l IH]; intros data pos limit prior seen e rest H HW Hr Hp Hlim Hn Hs He Hd Hroom.
  { exists e. cbn. by rewrite app_nil_r, Nat.add_0_r. }
  apply Forall_cons in HW as [Hx HW]. destruct Hr as [Hr1 Hr2]. cbn [map concat] in H. rewrite <- app_assoc in H.
  cbn [map] in Hn. apply NoDup_cons in Hn as [Hn1 Hn2].
  assert (zlen (x :: l) = zlen l + 1) as Hz by (unfold zlen; cbn; lia). pose proof (zlen_nonneg l).
  pose proof (He x ltac:(left)) as Hex.
  destruct (remember_ok e (rt_CommandID x) x Hd Hex eq_refl) as [Hd1 Hres].
  destruct (remember_slots (rt_CommandID x) x e) as (E1&E2&E3&E4&E5&E6&E7&E8&E9&E10).
  set (e1 := remember (rt_CommandID x) x e) in *.
  assert (results_of e1 = results_of e ++ [x]) as Hres1.
  { rewrite Hres. unfold spec_remember. rewrite (proj2 (Z.ltb_ge _ _)); [done|]. rewrite zlen_app. change (zlen [x]) with 1.
    unfold window_of in Hroom. lia. }
  assert (∀ y, y ∈ l → rt_CommandID y ≠ rt_CommandID x) as Hne.
  { intros y Hy E. apply Hn1. rewrite <- E. apply list_elem_of_fmap. by exists y. }
  destruct (IH data (pos + length (result_bytes x))%nat limit (rt_Sequence x) ({[rt_CommandID x]} ∪ seen) e1 rest)
    as (e'&Hp'&D'&R'&C'&F2&F3&F4&F5&F6&F7&F8&F9&F10); try done.
  - by apply here_app.
  - unfold u64_range in *. lia.
  - intros y Hy. apply not_elem_of_union. split; [rewrite elem_of_singleton; by apply Hne|]. apply Hs. by right.
  - intros y Hy. rewrite <- (retained_lookup e1) by done. rewrite Hres1. apply retained_none. rewrite map_app, elem_of_app.
    cbn [map]. rewrite list_elem_of_singleton. intros [Hin|E]; [|by apply (Hne y Hy)].
    pose proof (He y ltac:(by right)) as Hy0. rewrite <- (retained_lookup e) in Hy0 by done. by apply retained_none in Hy0.
  - rewrite Hres1, zlen_app. change (zlen [x]) with 1. unfold window_of in *. rewrite E1. lia.
  - exists e'. cbn [length parse_results map concat]. rewrite (parse_answer _ _ _ _ _ _ _ H) by (done || apply Hs; by left).
    cbn [res_bind]. fold e1. rewrite Hp', length_app, Nat.add_assoc. split; [done|]. split; [done|].
    split; [by rewrite R', Hres1, <- app_assoc|]. split_and!; congruence.
Qed.

(** ** The whole snapshot *)

Lemma slots_wide e : slots_ok e → ledger_wide (abs e) → Forall slot_wide (slots_of e).
Proof.
  intros Hok W. apply Forall_lookup. intros s x Hx.
  assert ((s < length (e_accounts e))%nat) as Hlt by (rewrite <- slots_of_length by done; by eapply lookup_lt_Some).
  apply lookup_lt_is_Some_2 in Hlt as [a Ha]. rewrite (slots_of_lookup e s a Hok Ha) in Hx. injection Hx as <-.
  assert (e_ids e !! ac_ID a = Some s) as Hs by (apply (so_ids _ Hok); eauto).
  destruct (wl_entry _ W (ac_ID a) (durable_entry e s)) as (H1&H2&H3).
  { cbn. unfold durable. by rewrite lookup_fmap, Hs. }
  split; [|done]. cbn [fst snd]. destruct (present_at e s) eqn:Ep.
  - apply H3. unfold durable_entry, account_at. cbn. by rewrite Ep, Ha.
  - rewrite (so_absent _ Hok s a Ha Ep). cbn. split; cbn; [done|apply zero_i64|apply zero_i64|apply zero_u64].
Qed.

Lemma slots_ids e : slots_ok e → NoDup (map (λ x, ac_ID x.1.1) (slots_of e)).
Proof.
  intros Hok. apply NoDup_alt. intros i j id Hi Hj. apply list_lookup_fmap_Some in Hi as (x&->&Hx), Hj as (y&E&Hy).
  assert (∀ s z, slots_of e !! s = Some z → e_ids e !! ac_ID z.1.1 = Some s) as Hids.
  { intros s z Hz. assert ((s < length (e_accounts e))%nat) as Hlt by (rewrite <- slots_of_length by done; by eapply lookup_lt_Some).
    apply lookup_lt_is_Some_2 in Hlt as [a Ha]. rewrite (slots_of_lookup e s a Hok Ha) in Hz. injection Hz as <-.
    apply (so_ids _ Hok). eauto. }
  apply Hids in Hx, Hy. cbn in E. rewrite E in Hx. congruence.
Qed.

Lemma slots_blank e :
  slots_ok e → Forall (λ x : Account * bool * agentState, x.1.2 = false → x.1.1 = blank_account (ac_ID x.1.1)) (slots_of e).
Proof.
  intros Hok. apply Forall_lookup. intros s x Hx.
  assert ((s < length (e_accounts e))%nat) as Hlt by (rewrite <- slots_of_length by done; by eapply lookup_lt_Some).
  apply lookup_lt_is_Some_2 in Hlt as [a Ha]. rewrite (slots_of_lookup e s a Hok Ha) in Hx. injection Hx as <-. cbn [fst snd].
  intros Hp. by apply (so_absent _ Hok s).
Qed.

Lemma results_ids e : dedupe_ok e → map rt_CommandID (results_of e) = active_order e.
Proof.
  intros Hd. unfold results_of. rewrite map_map. trans (map (λ id : bytes, id) (active_order e)); [|apply map_id]. apply map_ext_in.
  intros id Hid%list_elem_of_In. apply (do_dom _ Hd) in Hid as [r Hr]. rewrite Hr. by apply (do_id _ Hd).
Qed.

Lemma ledger_bytes_size l : 44 * zlen l ≤ zlen (concat (map ledger_bytes l)).
Proof.
  induction l as [|x l IH]; [done|]. cbn [map concat]. rewrite zlen_app. unfold ledger_bytes at 1. rewrite !zlen_app.
  assert (∀ v, zlen (put_u64 v) = 8) as E8 by (intros; unfold zlen; by rewrite put_u64_length).
  assert (∀ v, zlen (put_u32 v) = 4) as E4 by (intros; unfold zlen; by rewrite put_u32_length). rewrite !E8, !E4.
  pose proof (zlen_nonneg (le_CommandID x)). assert (zlen (x :: l) = zlen l + 1) by (unfold zlen; cbn; lia). lia.
Qed.

Lemma new_engine_ok cfg : 0 < DedupeWindow cfg → engine_ok (new_engine cfg) ∧ results_of (new_engine cfg) = [].
Proof.
  intros Hw. split; [|done]. split; [split| split| |]; try done.
  - intros id s. cbn. split; [by intros ?|intros (a&Ha&_); by rewrite lookup_nil in Ha].
  - unfold zlen. cbn. lia.
  - constructor.
  - intros id. cbn. rewrite lookup_empty. split; [by intros []|by intros ?%not_elem_of_nil].
Qed.

(** The slots of [e'] are those of [e] and so is its ledger. *)
Definition restored (e e' : engine) : Prop :=
  slots_ok e' ∧ e_epoch e' = 0 ∧ Forall (λ m, m = 0) (e_marks e') ∧ e_sequence e' = e_sequence e
  ∧ e_accounts e' = e_accounts e ∧ e_present e' = e_present e ∧ e_agents e' = e_agents e.

Lemma restored_ok e e' :
  engine_ok e → restored e e' → dedupe_ok e' → results_of e' = results_of e → e_ledger e' = e_ledger e →
  engine_ok e' ∧ abs e' = abs e.
Proof.
  intros [Hok _ _ _] (O&P&M&S&A1&A2&A3) D R L. split.
  - split; [done|done|by rewrite P|]. rewrite P. eapply Forall_impl; [exact M|]. intros x ->. lia.
  - unfold abs. rewrite L, R, S. f_equal. unfold durable. rewrite (same_ids e e') by done. apply map_fmap_ext. intros i s _.
    unfold durable_entry, present_at, account_at, agent_at. by rewrite A1, A2, A3.
Qed.

Lemma load_results_ok data pos e e1 :
  here data pos (put_u32 (window_of e) ++ put_u32 (zlen (results_of e)) ++ concat (map result_bytes (results_of e))) →
  engine_ok e → ledger_wide (abs e) → u32_range (window_of e) → window_of e1 = window_of e →
  restored e e1 → dedupe_ok e1 → e_results e1 = ∅ → results_of e1 = [] → e_ledger e1 = e_ledger e →
  ∃ e', load_results data pos e1 = Ok e' ∧ restored e e' ∧ dedupe_ok e' ∧ results_of e' = results_of e
    ∧ e_ledger e' = e_ledger e ∧ e_cfg e' = e_cfg e1.
Proof.
  intros H [Hok Hd _ _] W Hw Hc (O&P&M&S&A1&A2&A3) D1 R0 R1 L1. unfold u32_range in Hw. pose proof (do_length _ Hd) as Hwin.
  assert (zlen (results_of e) ≤ window_of e) as Hrw by (unfold results_of, zlen in *; rewrite length_map; done).
  pose proof (zlen_nonneg (results_of e)). pose proof (here_left _ _ _ H) as Hl. rewrite !zlen_app in Hl.
  change (zlen (put_u32 (window_of e))) with 4 in Hl. change (zlen (put_u32 (zlen (results_of e)))) with 4 in Hl.
  pose proof (zlen_nonneg (concat (map result_bytes (results_of e)))).
  assert (u32_range (window_of e) ∧ u32_range (zlen (results_of e))) as [N3 N4] by (unfold u32_range; lia).
  unfold load_results. rewrite (proj2 (Z.ltb_ge _ _)) by lia. cbn [guard_err res_bind]. do 2 read_int.
  unfold window_of in Hc at 1. rewrite Hc, Z.eqb_refl, (proj2 (Z.ltb_ge _ _)) by lia. cbn [negb orb guard_err res_bind].
  replace (Z.to_nat (zlen (results_of e))) with (length (results_of e)) by (unfold zlen; lia).
  rewrite <- (app_nil_r (concat (map result_bytes _))) in H. rewrite S.
  destruct (parse_answers (results_of e) data _ (e_sequence e) 0 ∅ e1 _ H) as (e'&->&D'&R'&C'&G2&G3&G4&G5&G6&G7&G8&G9&G10);
    try apply W; try apply zero_u64; try done.
  - rewrite results_ids by done. apply Hd.
  - intros x _. rewrite R0. apply lookup_empty.
  - rewrite R1. unfold window_of at 1. change (zlen (@nil Result)) with 0. lia.
  - cbn [res_bind]. apply here_app, here_end in H. rewrite H, Nat.eqb_refl. cbn [negb guard_err res_bind]. exists e'.
    rewrite R1 in R'. cbn [app] in R'. split; [done|]. split; [|split_and!; first [done|congruence]]. unfold restored. rewrite G3, G4, G5, G8, G9, G10. split_and!; try done.
    destruct O as [S1 S2 S3 S4 S5 S6]. split; rewrite ?G2, ?G3, ?G4, ?G5, ?G7, ?G8; try done.
    intros s a. unfold present_at. rewrite G4. apply S6.
Qed.

Lemma load_ledger_ok data pos e e1 :
  here data pos (put_u64 (zlen (e_ledger e)) ++ concat (map ledger_bytes (e_ledger e))
    ++ put_u32 (window_of e) ++ put_u32 (zlen (results_of e)) ++ concat (map result_bytes (results_of e))) →
  engine_ok e → ledger_wide (abs e) → u32_range (window_of e) → window_of e1 = window_of e → zlen data < 2 ^ 64 →
  restored e e1 → dedupe_ok e1 → e_results e1 = ∅ → results_of e1 = [] →
  ∃ e', load_ledger data pos e1 = Ok e' ∧ restored e e' ∧ dedupe_ok e' ∧ results_of e' = results_of e
    ∧ e_ledger e' = e_ledger e ∧ e_cfg e' = e_cfg e1.
Proof.
  intros H He W Hw Hc Hz R D1 R0 R1. pose proof (ledger_bytes_size (e_ledger e)) as Hsize. pose proof (zlen_nonneg (e_ledger e)).
  pose proof (here_left _ _ _ H) as Hl. unfold left_at in Hl. rewrite !zlen_app in Hl.
  change (zlen (put_u64 (zlen (e_ledger e)))) with 8 in Hl.
  pose proof (zlen_nonneg (put_u32 (window_of e))). pose proof (zlen_nonneg (put_u32 (zlen (results_of e)))).
  pose proof (zlen_nonneg (concat (map result_bytes (results_of e)))).
  assert (u64_range (zlen (e_ledger e))) as Hu by (unfold u64_range; lia).
  unfold load_ledger, left_at. rewrite (proj2 (Z.ltb_ge _ _)) by lia. cbn [guard_err res_bind]. read_int.
  rewrite (proj2 (Z.ltb_ge _ (zlen (e_ledger e)))) by (apply Z.div_le_lower_bound; lia). cbn [guard_err res_bind].
  replace (Z.to_nat (zlen (e_ledger e))) with (length (e_ledger e)) by (unfold zlen; lia).
  destruct R as (O&P&M&S&A1&A2&A3). rewrite S.
  rewrite (parse_entries (e_ledger e) _ _ _ _ _ _ H) by (apply W || apply zero_u64). cbn [res_bind app]. apply here_app in H.
  destruct (load_results_ok data _ e (set_ledger (e_ledger e) e1) H) as (e'&->&?&?&?&?&?); try done.
  - split; [by destruct O|done].
  - by destruct D1.
  - exists e'. by split_and!.
Qed.

Lemma snapshot_header e :
  let p := snapshot_payload e in
  let data := encodeSnapshot e in
  zlen p < 2 ^ 63 →
  here data snapshotHeaderSize p ∧ take 8 data = snapshotMagic ∧ get_u32 (take 4 (drop 8 data)) = snapshotVersion
  ∧ i64 (get_u64 (take 8 (drop 12 data))) = zlen p ∧ take 32 (drop 20 data) = sha256 p
  ∧ zlen data = Z.of_nat snapshotHeaderSize + zlen p.
Proof.
  intros p data Hp. pose proof (zlen_nonneg p) as Hp0.
  assert (here data 0 (snapshotMagic ++ put_u32 snapshotVersion ++ put_u64 (u64 (zlen p)) ++ sha256 p ++ p)) as H0 by apply here_start.
  pose proof (here_app _ _ _ _ H0) as H8. change (0 + length snapshotMagic)%nat with 8%nat in H8.
  pose proof (here_u32 _ _ _ _ H8) as H12. cbn [Nat.add] in H12. pose proof (here_u64 _ _ _ _ H12) as H20. cbn [Nat.add] in H20.
  pose proof (here_app _ _ _ _ H20) as H52. rewrite sha256_length in H52. cbn [Nat.add] in H52.
  pose proof (here_take _ _ _ _ H8) as T8. rewrite put_u32_length in T8. pose proof (here_take _ _ _ _ H12) as T12. rewrite put_u64_length in T12.
  pose proof (here_take _ _ _ _ H20) as T20. rewrite sha256_length in T20. rewrite T8, T12, T20.
  split; [done|]. split; [exact (here_take _ _ _ _ H0)|]. split; [done|]. split.
  - rewrite get_put_u64, (u64_id (u64 (zlen p))) by apply u64_bound. apply i64_u64. unfold i64_range. lia.
  - split; [done|]. pose proof (here_left _ _ _ H52) as E. unfold left_at in E. change (Z.of_nat snapshotHeaderSize) with 52. lia.
Qed.

Lemma load_encoded e cfg :
  engine_ok e → ledger_wide (abs e) → DedupeWindow cfg = window_of e → u32_range (window_of e) →
  zlen (e_accounts e) < 2 ^ 32 → zlen (snapshot_payload e) < 2 ^ 63 →
  ∃ e', load_snapshot (encodeSnapshot e) (new_engine cfg) = Ok e' ∧ engine_ok e' ∧ e_epoch e' = 0 ∧ abs e' = abs e
    ∧ e_cfg e' = cfg ∧ e_accounts e' = e_accounts e.
Proof.
  intros He W Hcfg Hw Hn Hp. pose proof He as [Hok Hd _ _]. destruct (snapshot_header e Hp) as (H&T0&T8&T12&T20&Hdl).
  pose proof (do_window _ Hd) as Hw0. destruct (new_engine_ok cfg) as [Hnew Hres0]; [unfold window_of in *; lia|].
  pose proof (wl_sequence _ W : u64_range (e_sequence e)) as Hseq. pose proof (zlen_nonneg (e_accounts e)).
  pose proof (zlen_nonneg (snapshot_payload e)).
  unfold load_snapshot. cbv zeta. rewrite (proj2 H), T0, T8, T12, T20, Hdl, !bool_decide_true by done.
  rewrite Z.eqb_refl. cbn [negb]. rewrite andb_false_r. cbn [guard_err res_bind]. rewrite (proj2 (Z.ltb_ge _ _)) by lia.
  rewrite (proj2 (Z.eqb_eq (zlen (snapshot_payload e)) _)) by lia. cbn [negb orb guard_err res_bind].
  rewrite (here_left _ _ _ H). pose proof (ledger_bytes_size (e_ledger e)) as Hls.
  set (data := encodeSnapshot e) in *. assert (u32_range (zlen (results_of e)) ∧ u64_range (zlen (e_ledger e))) as [N4 N2].
  { pose proof (do_length _ Hd). pose proof (zlen_nonneg (e_ledger e)). pose proof (zlen_nonneg (results_of e)).
    rewrite (snapshot_bytes e Hok Hd), !zlen_app in Hp. unfold u32_range, u64_range, results_of, zlen in *. rewrite !length_map in *.
    unfold window_of in *. lia. }
  rewrite (snapshot_bytes e Hok Hd) in H. rewrite (u64_id (zlen (e_ledger e))), (u32_id (window_of e)), (u32_id (zlen (results_of e))) in H by done.
  assert (u32_range (zlen (e_accounts e))) as N1 by (unfold u32_range; lia). rewrite (u32_id (zlen (e_accounts e))) in H by done.
  assert (12 ≤ zlen (snapshot_payload e)) as H12.
  { rewrite (snapshot_bytes e Hok Hd), app_assoc, zlen_app. match goal with |- _ ≤ _ + zlen ?l => pose proof (zlen_nonneg l) end.
    unfold zlen at 1. rewrite length_app, put_u64_length, put_u32_length. lia. }
  rewrite (proj2 (Z.ltb_ge _ 12)) by lia. cbn [guard_err res_bind]. do 2 read_int.
  replace (Z.to_nat (zlen (e_accounts e))) with (length (slots_of e)) by (rewrite slots_of_length by done; unfold zlen; lia).
  destruct (parse_slots (slots_of e) data (snapshotHeaderSize + 8 + 4)%nat (set_sequence (e_sequence e) (new_engine cfg)) _ H) as [-> Hok1].
  { by apply slots_wide. } { by destruct Hnew as [[] _ _ _]. } { change (e_accounts (set_sequence (e_sequence e) (new_engine cfg))) with (@nil Account). unfold zlen in *.
    rewrite slots_of_length by done. cbn [length]. lia. } { by apply slots_ids. }
  { intros x _. apply lookup_empty. } { by apply slots_blank. }
  destruct (foldl_push (slots_of e) (set_sequence (e_sequence e) (new_engine cfg))) as (F1&F2&F3&F4&F5&F6&F7&F8&F9&F10&F11).
  destruct (zip_projections (e_accounts e) (e_present e) (e_agents e) (so_present _ Hok) (so_agents _ Hok)) as (Z1&Z2&Z3).
  cbn [res_bind]. apply here_app in H. destruct (dedupe_ok_same (new_engine cfg) (foldl push_slot (set_sequence (e_sequence e) (new_engine cfg)) (slots_of e)))
    as [Hd2 Hr2]; [done..|apply Hnew|].
  edestruct load_ledger_ok as (e'&->&R'&D'&Rs&L'&C'); [exact H|done|done|done|..].
  - unfold window_of at 1. by rewrite F5.
  - change (Z.of_nat snapshotHeaderSize) with 52 in Hdl. lia.
  - unfold restored. rewrite F7, F11, F1, F2, F3, F4. split_and!; try done. by apply Forall_map, Forall_true.
  - done.
  - done.
  - by rewrite Hr2.
  - exists e'. destruct (restored_ok e e' He R' D' Rs L') as [O' A']. destruct R' as (_&?&_&_&?&_). split_and!; try done. by rewrite C', F5.
Qed.
