(* ===== verification/CoreMoney.v ===== *)
(** * Money

    Balances along a history of the account engine: as long as no sum leaves the
    64-bit range, no account is overdrawn and the total changes by exactly what
    was created, deposited and withdrawn. *)

From Stdlib Require Import ZArith Lia Strings.Byte Strings.String.
From stdpp Require Import base decidable countable list gmap.
From S2P Require Import Prelude GoText Errors CoreTypes CoreEngine CoreSpec CoreRefinement CoreHistory.

Local Open Scope Z_scope.

Definition balance (o : option entry) : Z := default 0 (ac_Balance <$> (o ≫= en_account)).

(** The sum of all balances. *)
Definition total (m : entries) : Z := map_fold (λ _ en acc, balance (Some en) + acc) 0 m.

Lemma total_insert_new m i x : m !! i = None → total (<[i := x]> m) = balance (Some x) + total m.
Proof. intros H. unfold total. rewrite map_fold_insert_L; [done| |done]. intros. lia. Qed.

Lemma total_insert m i x : total (<[i := x]> m) = total m - balance (m !! i) + balance (Some x).
Proof.
  destruct (m !! i) as [y|] eqn:E.
  - rewrite <- insert_delete_eq. rewrite total_insert_new by apply lookup_delete_eq.
    rewrite <- (insert_delete_id m i y E) at 2. rewrite total_insert_new by apply lookup_delete_eq. lia.
  - rewrite total_insert_new by done. change (balance None) with 0. lia.
Qed.

Lemma balance_acct m i : balance (m !! i) = ac_Balance (seen m i).
Proof. unfold balance, seen, acct. by destruct (m !! i) as [[[a|] g]|]. Qed.

Lemma total_put_account m i a : total (put_account i a m) = total m - ac_Balance (seen m i) + ac_Balance a.
Proof. unfold put_account. by rewrite total_insert, balance_acct. Qed.

Lemma total_put_agent m i g : total (put_agent i g m) = total m.
Proof.
  unfold put_agent. rewrite total_insert, balance_acct. unfold balance, seen. cbn. destruct (acct m i); cbn; lia.
Qed.

(** No account is overdrawn. *)
Definition solvent (m : entries) : Prop := ∀ i, 0 ≤ ac_Balance (seen m i).

Lemma solvent_put_account m i a : solvent m → 0 ≤ ac_Balance a → solvent (put_account i a m).
Proof. intros H Ha j. unfold seen. rewrite acct_put_account. case_decide; [done|apply H]. Qed.

Lemma solvent_put_agent m i g : solvent m → solvent (put_agent i g m).
Proof. intros H j. unfold seen. rewrite acct_put_agent. apply H. Qed.

Lemma seen_put_account m i a j : seen (put_account i a m) j = if decide (i = j) then a else seen m j.
Proof. unfold seen. rewrite acct_put_account. by case_decide. Qed.

Lemma total_nonneg m : solvent m → 0 ≤ total m.
Proof.
  revert m. apply (map_ind (λ m, solvent m → 0 ≤ total m)); [done|]. intros i x m Hn IH Hs.
  rewrite total_insert_new by done. pose proof (Hs i) as Hi. rewrite <- balance_acct, lookup_insert_eq in Hi.
  assert (solvent m) as Hm.
  { intros j. destruct (decide (i = j)) as [<-|Hne]; [unfold seen, acct; by rewrite Hn|].
    specialize (Hs j). rewrite <- balance_acct in Hs |- *. by rewrite lookup_insert_ne in Hs. }
  specialize (IH Hm). lia.
Qed.

(** Two accounts together hold at most the total. *)
Lemma balance_le m i : solvent m → ac_Balance (seen m i) ≤ total m.
Proof.
  intros H. pose proof (total_put_account m i zeroAccount) as E. cbn in E.
  pose proof (total_nonneg _ (solvent_put_account m i zeroAccount H ltac:(cbn; lia))). lia.
Qed.

Lemma balances_le m i j : solvent m → i ≠ j → ac_Balance (seen m i) + ac_Balance (seen m j) ≤ total m.
Proof.
  intros H Hne. pose proof (total_put_account m i zeroAccount) as E. cbn in E.
  pose proof (balance_le _ j (solvent_put_account m i zeroAccount H ltac:(cbn; lia))) as Hb.
  rewrite seen_put_account, decide_False in Hb by done. lia.
Qed.

(** What an accepted command adds to the money in the database. *)
Definition net (r : walRecord) : Z :=
  if negb (w_accepted r) then 0
  else if (w_kind r =? Create) || (w_kind r =? Deposit) then w_amount r
  else if w_kind r =? Withdraw then - w_amount r
  else 0.

Definition nets (rs : list walRecord) : Z := foldr (λ r acc, net r + acc) 0 rs.
(** What comes in, without what goes out. *)
Definition inflow (rs : list walRecord) : Z := foldr (λ r acc, Z.max 0 (net r) + acc) 0 rs.

Lemma inflow_nonneg rs : 0 ≤ inflow rs.
Proof. unfold inflow. induction rs as [|r rs IH]; cbn [foldr]; lia. Qed.

Lemma i64_small v : 0 ≤ v < 2 ^ 63 → i64 v = v.
Proof. intros H. apply i64_id. unfold i64_range. lia. Qed.

(** Moving money between two accounts. *)
Lemma money_transfer m i j amount x y :
  solvent m → total m < 2 ^ 63 → i ≠ j → 0 < amount ≤ ac_Balance (seen m i) →
  x = i64 (ac_Balance (seen m i) - amount) → y = i64 (ac_Balance (seen m j) + amount) →
  let m' := put_account j (bump y (seen m j)) (put_account i (bump x (seen m i)) m) in
  solvent m' ∧ total m' = total m.
Proof.
  intros Hs Hb Hne Ha -> -> m'. pose proof (Hs j). pose proof (balances_le m i j Hs Hne). pose proof (balance_le m i Hs).
  unfold m'. rewrite !i64_small by lia. split; [repeat apply solvent_put_account; try done; cbn; lia|].
  rewrite !total_put_account, seen_put_account, decide_False by done. cbn. lia.
Qed.

(** One record, decided and applied. *)
Lemma money_step seq m g c :
  solvent m → total m + Z.max 0 (net (record_with seq m g c)) < 2 ^ 63 → ValidateCommand c = Ok tt →
  let r := record_with seq m g c in
  solvent (spec_entries m r) ∧ total (spec_entries m r) = total m + net r.
Proof.
  intros Hs Hb Hv r. unfold spec_entries.
  enough (solvent (if w_accepted r then spec_effect r m else m)
    ∧ total (if w_accepted r then spec_effect r m else m) = total m + net r) as [H1 H2].
  { split; [by apply solvent_put_agent|]. by rewrite total_put_agent. }
  destruct (w_accepted r) eqn:Hacc; [|unfold net; rewrite Hacc; cbn; split; [done|lia]].
  pose proof (record_with_fits seq m g c Hv Hacc) as [F2 F3]. fold r in F2, F3.
  set (a := seen m (cm_Account c)) in *. set (b := default zeroAccount (if cm_Other c =? 0 then None else acct m (cm_Other c))) in *.
  assert (Hl : legal c a (bool_decide (is_Some (acct m (cm_Account c)))) (bool_decide (is_Some (if cm_Other c =? 0 then None else acct m (cm_Other c)))) (ag_Pending g)).
  { apply (decideGo_accepts _ _ _ b). exact Hacc. }
  pose proof (decideGo_outcome _ _ _ b _ _ Hl) as Ho. cbv zeta in Ho.
  assert ((w_effect r, w_newBalanceA r, w_newBalanceB r, w_newStatus r) = outcome c a b) as Ho' by exact Ho. clear Ho.
  pose proof (Hs (cm_Account c)) as Ha0. fold a in Ha0. pose proof (balance_le m (cm_Account c) Hs) as Hat. fold a in Hat.
  assert (w_a r = cm_Account c ∧ w_b r = cm_Other c ∧ w_kind r = cm_Kind c ∧ w_amount r = cm_Amount c) as (Ea&Eb&Ek&Em) by done.
  assert (net r = if (cm_Kind c =? Create) || (cm_Kind c =? Deposit) then cm_Amount c else if cm_Kind c =? Withdraw then - cm_Amount c else 0) as Hnet.
  { unfold net. by rewrite Hacc, Ek, Em. }
  fold r in Hb. rewrite Hnet in *. clearbody r. unfold spec_effect. rewrite Ea, Eb. fold a.
  destruct Hl as [K K1 K2|K K1 K2|K K1 K2 K3 K4|K K1 K2 K3 K4 K5|K K0 K1 K2 K3 K4 K5|K K1|K K1|K K1|K]; unfold outcome in Ho'; rewrite K in *; cbn in Ho', Hb |- *;
    injection Ho' as E1 E2 E3 E4; rewrite E1 in *; cbn [Z.eqb Pos.eqb].
  - (* Create *) assert (ac_Balance a = 0) as Hz.
    { unfold a, seen. apply bool_decide_eq_false in K1. destruct (acct m (cm_Account c)); [by destruct K1|done]. }
    split; [apply solvent_put_account; [done|cbn; lia]|]. rewrite total_put_account. cbn. fold a. lia.
  - (* Deposit *) rewrite i64_small in E2 by lia. split; [apply solvent_put_account; [done|cbn; lia]|]. rewrite total_put_account. cbn. fold a. lia.
  - (* Withdraw *) rewrite i64_small in E2 by lia. split; [apply solvent_put_account; [done|cbn; lia]|]. rewrite total_put_account. cbn. fold a. lia.
  - (* Transfer *) destruct (F3 eq_refl) as (_&_&Fne&Fb). rewrite Ea, Eb in Fne. rewrite Eb in Fb.
    rewrite Z.add_0_r. apply (money_transfer m _ _ (cm_Amount c)); try done; [lia|].
    unfold b in E3. rewrite (proj2 (Z.eqb_neq _ _)) in E3 by done. exact E3.
  - (* Confirm *) destruct (F3 eq_refl) as (_&_&Fne&Fb). rewrite Ea, Eb in Fne. rewrite Eb in Fb.
    rewrite Z.add_0_r. apply (money_transfer m _ _ (cm_Amount c)); try done; [lia|].
    unfold b in E3. rewrite (proj2 (Z.eqb_neq _ _)) in E3 by done. exact E3.
  - (* Freeze *) split; [apply solvent_put_account; [done|cbn; lia]|]. rewrite total_put_account. cbn. fold a. lia.
  - (* Unfreeze *) split; [apply solvent_put_account; [done|cbn; lia]|]. rewrite total_put_account. cbn. fold a. lia.
  - (* BeginTransfer *) split; [done|lia].
  - (* Cancel *) split; [done|lia].
Qed.

Lemma money_history window s rs s' :
  core_history window s rs s' → solvent (lg_entries s) → total (lg_entries s) + inflow rs < 2 ^ 63 →
  solvent (lg_entries s') ∧ total (lg_entries s') = total (lg_entries s) + nets rs.
Proof.
  induction 1 as [s|s r rs s' Hro Hh IH]; intros Hs Hb; [split; [done|cbn; lia]|].
  destruct (ro_decided _ _ Hro) as (c&g&Hv&Er). unfold inflow, nets in *. cbn [foldr] in *. pose proof (inflow_nonneg rs) as Hin. unfold inflow in Hin.
  destruct (money_step (w_sequence r) (lg_entries s) g c) as [S1 T1]; [done|rewrite <- Er; lia|done|]. cbv zeta in S1, T1. rewrite <- Er in S1, T1.
  destruct IH as [S2 T2]; [done|cbn [spec_apply lg_entries]; lia|]. split; [done|]. rewrite T2. cbn [spec_apply lg_entries]. lia.
Qed.

(** ** The answers of a batch *)

(** What a command and its answer say about the money in the database. *)
Definition credit (c : Command) (r : Result) : Z :=
  if negb (rt_Accepted r) || rt_Duplicate r then 0
  else if (cm_Kind c =? Create) || (cm_Kind c =? Deposit) then cm_Amount c
  else if cm_Kind c =? Withdraw then - cm_Amount c
  else 0.

Definition credits (cs : list Command) (rs : list Result) : Z := foldr Z.add 0 (zip_with credit cs rs).
Definition deposits (cs : list Command) (rs : list Result) : Z := foldr (λ x acc, Z.max 0 x + acc) 0 (zip_with credit cs rs).

Lemma batch_step_credit bt c :
  ∃ res, b_results (batch_step bt c) = b_results bt ++ [res]
    ∧ ((b_records (batch_step bt c) = b_records bt ∧ credit c res = 0)
       ∨ ∃ r, b_records (batch_step bt c) = b_records bt ++ [r] ∧ net r = credit c res).
Proof.
  unfold batch_step. destruct (e_results (b_engine bt) !! cm_ID c) as [prior|].
  { eexists. split; [done|]. left. split; [done|]. unfold credit. cbn. by rewrite orb_true_r. }
  destruct (b_ids bt !! cm_ID c) as [k|].
  { eexists. split; [done|]. left. split; [done|]. unfold credit. cbn. by rewrite orb_true_r. }
  destruct (slot (cm_Account c) (isKind (cm_Kind c) CoreTypes.Create) (b_engine bt)) as [[s ok] e1].
  destruct (other_slot (cm_Other c) e1) as [t okb]. eexists. split; [done|]. right. eexists. split; [done|].
  unfold net, credit, result_of, make_record. cbn [w_accepted w_kind w_amount rt_Accepted rt_Duplicate]. by rewrite orb_false_r.
Qed.

Lemma fold_snoc_add (f : walRecord → Z) rs r :
  foldr (λ r acc, f r + acc) 0 (rs ++ [r]) = foldr (λ r acc, f r + acc) 0 rs + f r.
Proof. induction rs as [|x rs IH]; cbn [foldr app]; lia. Qed.

Lemma batch_credits cs bt :
  ∃ l, b_results (foldl batch_step bt cs) = b_results bt ++ l ∧ length l = length cs
    ∧ nets (b_records (foldl batch_step bt cs)) = nets (b_records bt) + credits cs l
    ∧ inflow (b_records (foldl batch_step bt cs)) = inflow (b_records bt) + deposits cs l.
Proof.
  unfold nets, inflow, credits, deposits.
  revert bt. induction cs as [|c cs IH]; intros bt; cbn [foldl].
  { exists []. rewrite app_nil_r. cbn. split_and!; try done; lia. }
  destruct (batch_step_credit bt c) as (res&E&H). destruct (IH (batch_step bt c)) as (l&E1&L1&N1&I1).
  exists (res :: l). rewrite E1, E, <- app_assoc, N1, I1. cbn [zip_with foldr length app]. split; [done|]. split; [by rewrite L1|].
  destruct H as [(Er&Hc)|(r&Er&Hc)]; rewrite Er, ?fold_snoc_add, ?Hc; split; lia.
Qed.
