(* ===== verification/CoreTheorems.v ===== *)
(** * The account engine: what it guarantees

    Theorems about [SubmitBatch], [Submit], the log and the snapshot of
    [internal/core/core.go], from the refinement of [CoreSerial.v] and the
    codecs of [CoreCodec.v] and [CoreRestore.v], and at the end executions that
    reach states the comments of the code exclude. *)

From Stdlib Require Import ZArith Lia Strings.Byte Strings.String.
From stdpp Require Import base decidable countable list gmap.
From S2P Require Import Prelude GoText GoBinary Errors GoOS CoreTypes CoreEngine CoreWal CoreSnapshot Core CoreSpec CoreRefinement CoreHistory CoreSerial CoreCodec CoreWide CoreRestore CoreMoney.

Local Open Scope Z_scope.

(** ** Decisions *)

(** C22: The decision function accepts exactly the commands the rules of the
    domain allow ([legal]: creation of a missing account, deposits, withdrawals
    and transfers from funded and unfrozen accounts, confirmations that match the
    pending transfer, and so on), gives an accepted command the effect and the
    balances of its kind, and lets a rejected one change nothing. *)
Theorem core_decides c a aok b bok p :
  (d_accepted (decideGo c a aok b bok p) = true ↔ legal c a aok bok p)
  ∧ (d_accepted (decideGo c a aok b bok p) = true →
      let d := decideGo c a aok b bok p in
      (d_effect d, d_balanceA d, d_balanceB d, d_status d) = outcome c a b)
  ∧ (d_accepted (decideGo c a aok b bok p) = false →
      let d := decideGo c a aok b bok p in
      d_effect d = 0 ∧ d_balanceA d = ac_Balance a ∧ d_balanceB d = ac_Balance b ∧ d_status d = ac_Status a).
Proof.
  split; [split; [apply decideGo_accepts|apply legal_decide]|]. split.
  - intros H. by apply decideGo_outcome, decideGo_accepts with (b := b).
  - by_kind c; try (rewrite decideGo_other by done); cbn; intros H; try discriminate H; done.
Qed.

(** ** Batches *)

Record core_good (c : Core) : Prop := {
  cg_engine : engine_ok (c_engine c);
  cg_wide : ledger_wide (abs (c_engine c)) }.

(** Room for the commands of a batch in the 32-bit slots and the 64-bit sequence,
    which no database in practice reaches. *)
Definition core_room (c : Core) (cs : list Command) : Prop :=
  zlen (e_accounts (c_engine c)) + 2 * zlen cs ≤ 2 ^ 32 ∧ e_sequence (c_engine c) + zlen cs < 2 ^ 64.

Lemma account_of_acct c id : AccountOf c id = acct (durable (c_engine c)) id.
Proof.
  unfold AccountOf. destruct (e_ids (c_engine c) !! id) as [s|] eqn:E.
  - by rewrite (durable_acct _ _ _ E).
  - unfold acct, durable. by rewrite lookup_fmap, E.
Qed.

(** The ways out of [SubmitBatch]. *)
Lemma submit_cases c cs w r c' w' :
  SubmitBatch c cs w = (r, c', w') →
  let bt := decide_batch (c_engine c) cs in
  (c' = c ∧ w' = w ∧ ((∃ err, r = Err err) ∨ cs = [] ∧ r = Ok []))
  ∨ (c_closed c = false ∧ c_poisoned c = None ∧ cs ≠ [] ∧ validate_batch (c_engine c) cs = Ok tt ∧
     ((b_records bt = [] ∧ r = Ok (b_results bt) ∧ c' = set_engine (b_engine bt) c ∧ w' = w)
      ∨ (∃ wal, b_records bt ≠ [] ∧ appendBatch (c_wal c) (b_records bt) w = (Ok wal, w') ∧ r = Ok (b_results bt)
           ∧ c' = set_walfile wal (set_engine (apply_all (b_engine bt) (b_records bt)) c))
      ∨ (∃ err, b_records bt ≠ [] ∧ appendBatch (c_wal c) (b_records bt) w = (Err err, w')
           ∧ r = Err (ERuntime DurabilityWriteFailed err) ∧ c' = set_poison err (set_engine (b_engine bt) c)))).
Proof.
  unfold SubmitBatch. destruct (c_closed c) eqn:Ec; [intros [= <- <- <-]; left; eauto|].
  destruct (c_poisoned c) as [err|] eqn:Ep; [intros [= <- <- <-]; left; eauto|].
  destruct cs as [|x cs]; [intros [= <- <- <-]; left; auto|]. set (l := x :: cs).
  destruct (validate_batch (c_engine c) l) as [[]|err] eqn:Ev; [|intros [= <- <- <-]; left; eauto].
  intros H. cbv zeta in *. set (bt := decide_batch (c_engine c) l) in *. right. split_and!; try done. revert H.
  destruct (b_records bt) as [|r0 rs] eqn:Er.
  - intros [= <- <- <-]. by left.
  - intros H. right. change (c_wal (set_engine (b_engine bt) c)) with (c_wal c) in H. revert H. destruct (appendBatch (c_wal c) (r0 :: rs) w) as [[wal|err] w1].
    + intros [= <- <- <-]. left. by eexists.
    + intros [= <- <- <-]. right. by eexists.
Qed.

Lemma engine_good_batch c cs :
  core_good c → Forall command_wide cs → core_room c cs → validate_batch (c_engine c) cs = Ok tt →
  let bt := decide_batch (c_engine c) cs in
  let e' := apply_all (b_engine bt) (b_records bt) in
  length (b_results bt) = length cs ∧ engine_ok e' ∧ ledger_wide (abs e') ∧ Forall record_wide (b_records bt)
  ∧ core_history (window_of (c_engine c)) (abs (c_engine c)) (b_records bt) (abs e') ∧ e_cfg e' = e_cfg (c_engine c)
  ∧ zlen (e_accounts e') ≤ zlen (e_accounts (c_engine c)) + 2 * zlen cs
  ∧ zlen (b_records bt) ≤ zlen cs ∧ (∀ id, acct (durable (b_engine bt)) id = acct (durable (c_engine c)) id)
  ∧ e_sequence (b_engine bt) = e_sequence (c_engine c).
Proof.
  intros [He W] Hc [Hb Hs] Hv bt e'. pose proof (zlen_nonneg cs). destruct (decide_batch_history _ cs He Hb Hv) as (I&N&O&Hh&C&L).
  fold bt in I, N, O, Hh, C, L. fold e' in O, Hh, C, L.
  assert (Forall record_wide (b_records bt)) as HW by (apply decide_batch_wide; try done; lia).
  assert (zlen (b_records bt) ≤ zlen cs) as Hz.
  { destruct (batch_steps_inv (c_engine c) _ cs (batch_inv_start _ He) He) as (_&Lz&_).
    - cbn [b_records]. change (zlen (@nil walRecord)) with 0. lia.
    - by eapply validate_commands.
    - exact Lz. }
  destruct (core_history_wide _ _ _ _ Hh W HW) as [W' _]; [cbn; lia|]. destruct (bi_rest _ _ I) as (_&_&_&_&_&?).
  split_and!; try done. apply I.
Qed.

Lemma submit_ok_good c cs w results c' w' :
  core_good c → Forall command_wide cs → core_room c cs → SubmitBatch c cs w = (Ok results, c', w') →
  length results = length cs ∧ core_good c' ∧ e_cfg (c_engine c') = e_cfg (c_engine c)
  ∧ ∃ rs, core_history (window_of (c_engine c)) (abs (c_engine c)) rs (abs (c_engine c')) ∧ Forall record_wide rs.
Proof.
  intros Hg Hc Hr H. apply submit_cases in H as [(->&->&[[err H]|[-> [= ->]]])|(_&_&Hne&Hv&H)]; [done| |].
  - split_and!; try done. exists []. split; constructor.
  - destruct (engine_good_batch c cs Hg Hc Hr Hv) as (N&O&W&HW&Hh&Hcfg&_). set (bt := decide_batch (c_engine c) cs) in *.
    destruct H as [(E&[= ->]&->&->)|[(wal&E&Ea&[= ->]&->)|(err&E&Ea&?&->)]]; [| |done].
    + rewrite E in O, W, Hh, Hcfg. split_and!; try done. exists []. split; [done|constructor].
    + split_and!; try done. by exists (b_records bt).
Qed.

(** C18: A batch, under any I/O failures.  If it succeeds, every command is
    answered, the new decisions form a history from the old ledger to the new
    one, and the invariant holds again (slots, marks, window of results, widths
    and rising sequences).  If it fails, no account, ledger entry, retained result
    or sequence number changes, and unless the call had no effect at all the
    engine is poisoned. *)
Theorem core_batch_safe c cs w r c' w' :
  core_good c → Forall command_wide cs → core_room c cs → SubmitBatch c cs w = (r, c', w') →
  match r with
  | Ok results =>
      length results = length cs ∧ core_good c'
      ∧ ∃ rs, core_history (window_of (c_engine c)) (abs (c_engine c)) rs (abs (c_engine c')) ∧ Forall record_wide rs
  | Err _ =>
      (∀ id, AccountOf c' id = AccountOf c id) ∧ e_ledger (c_engine c') = e_ledger (c_engine c)
      ∧ results_of (c_engine c') = results_of (c_engine c) ∧ e_sequence (c_engine c') = e_sequence (c_engine c)
      ∧ (c' = c ∨ is_Some (c_poisoned c'))
  end.
Proof.
  intros Hg Hc Hr H. destruct r as [results|err].
  { by destruct (submit_ok_good c cs w results c' w' Hg Hc Hr H) as (?&?&_&?). }
  apply submit_cases in H as [(->&->&_)|(_&_&Hne&Hv&H)]; [split_and!; try done; by left|].
  destruct H as [(E&?&_)|[(wal&E&Ea&?&_)|(err'&E&Ea&_&->)]]; [done|done|].
  destruct (decide_batch_history (c_engine c) cs (cg_engine _ Hg) (proj1 Hr) Hv) as (I&_).
  destruct (bi_rest _ _ I) as (R1&R2&R3&R4&R5&R6). cbn [set_poison set_engine c_engine c_poisoned].
  split; [intros id; rewrite !account_of_acct; apply (bi_durable _ _ I)|]. split; [done|].
  split; [unfold results_of; by rewrite R3, R4, R5|]. split; [done|]. right. eauto.
Qed.

(** C17: Evaluating a batch with staged effects, one log frame and one
    synchronization is the serial execution of its commands: the answers and the
    new ledger are those of submitting the commands one after the other.  This
    holds when the window has room for the whole batch and every account a
    command names twice has a slot by then ([slotted]). *)
Theorem core_batch_serial c cs w results c' w' :
  core_good c → core_room c cs → zlen (results_of (c_engine c)) + zlen cs ≤ window_of (c_engine c) →
  slotted (first_batch (c_engine c)) cs = true → SubmitBatch c cs w = (Ok results, c', w') →
  (abs (c_engine c'), results) = spec_serial (window_of (c_engine c)) (abs (c_engine c)) cs.
Proof.
  intros [He _] [Hb _] Hroom Hs H. apply submit_cases in H as [(->&->&[[err H]|[-> H]])|(_&_&Hne&Hv&H)]; [done|by simplify_eq|].
  pose proof (decide_batch_serial (c_engine c) He cs Hb Hv Hroom Hs) as Hser. cbv zeta in Hser.
  destruct H as [(E&[= ->]&->&->)|[(wal&E&Ea&[= ->]&->)|(err&E&Ea&?&->)]]; [|done|done]. by rewrite E in Hser.
Qed.

Lemma single_batch e x :
  engine_ok e → zlen (e_accounts e) + 2 ≤ 2 ^ 32 → validate_batch e [x] = Ok tt →
  let bt := decide_batch e [x] in
  (abs (apply_all (b_engine bt) (b_records bt)), b_results bt)
  = ((spec_submit (window_of e) (abs e) x).1, [(spec_submit (window_of e) (abs e) x).2]).
Proof.
  intros He Hb Hv bt. destruct (decide_batch_history e [x] He) as (_&_&_&Hh&_); [change (zlen [x]) with 1; lia|done|].
  fold bt in Hh. apply core_history_foldl in Hh. rewrite Hh. pose proof (batch_inv_start e He) as I.
  pose proof (validate_commands _ _ Hv) as Hvc. apply Forall_cons in Hvc as [Hx _].
  unfold spec_submit. cbn [abs lg_results lg_sequence lg_entries]. rewrite retained_lookup by apply He.
  change bt with (batch_step (first_batch e) x). destruct (e_results e !! cm_ID x) as [prior|] eqn:Er.
  - unfold batch_step. destruct (bi_rest _ _ I) as (_&_&R3&_). cbn [first_batch b_engine] in *. by rewrite R3, Er.
  - pose proof (bi_length _ _ I) as Hl. cbn [b_engine b_records] in Hl. change (zlen (@nil walRecord)) with 0 in Hl.
    destruct (batch_inv_new e (first_batch e) x I He) as (_&->&->); [cbn [first_batch b_engine]; lia|done|done|done|].
    assert (batch_record (first_batch e) x = spec_record (u64 (e_sequence e + 1)) (durable e) x) as ->; [|done].
    unfold batch_record. destruct (bi_rest _ _ I) as (_&_&_&_&_&R6). cbn [first_batch b_engine b_records] in *. rewrite R6.
    change (zlen (@nil walRecord)) with 0. rewrite Z.add_0_r. apply spec_record_ext; [apply (bi_acct _ _ I)|].
    apply (bi_other _ _ I). apply not_elem_of_nil.
Qed.

Lemma submit_spec c x w result c' w' :
  engine_ok (c_engine c) → zlen (e_accounts (c_engine c)) + 2 ≤ 2 ^ 32 → Submit c x w = (Ok result, c', w') →
  (abs (c_engine c'), result) = spec_submit (window_of (c_engine c)) (abs (c_engine c)) x ∧ e_cfg (c_engine c') = e_cfg (c_engine c).
Proof.
  intros He Hb H. unfold Submit in H. destruct (SubmitBatch c [x] w) as [[[results|err] c1] w1] eqn:E; [|done].
  injection H as <- <- <-. apply submit_cases in E as [(->&->&[[err H]|[? H]])|(_&_&Hne&Hv&H)]; [done|done|].
  pose proof (single_batch (c_engine c) x He Hb Hv) as Hs. cbv zeta in Hs.
  destruct (decide_batch_history (c_engine c) [x] He) as (_&_&_&_&Hcfg&_); [change (zlen [x]) with 1; lia|done|].
  injection Hs as Hs1 Hs2. rewrite (surjective_pairing (spec_submit _ _ _)).
  destruct H as [(E&[= ->]&->&->)|[(wal&E&Ea&[= ->]&->)|(err&E&Ea&?&->)]]; [| |done].
  - rewrite E in Hs1, Hcfg. cbn in Hs1, Hcfg. rewrite Hs2. by rewrite <- Hs1.
  - rewrite Hs2. by rewrite <- Hs1.
Qed.

(** C19: Submitting one command implements the ledger's specification:
    a retained command is answered again as a duplicate and changes nothing, and a
    new one is decided on the current accounts and its pending transfer, applied,
    logged and remembered, whatever the slots, marks and epochs were. *)
Theorem core_submit_refines c x w result c' w' :
  core_good c → core_room c [x] → Submit c x w = (Ok result, c', w') →
  (abs (c_engine c'), result) = spec_submit (window_of (c_engine c)) (abs (c_engine c)) x.
Proof. intros [He _] [Hb _] H. by apply (submit_spec c x w result c' w'). Qed.

(** ** Retries *)

(** A remembered result stays while fewer than a window of others follow. *)
Lemma history_keeps window s rs s' l1 x l2 :
  core_history window s rs s' → lg_results s = l1 ++ x :: l2 → zlen l2 + zlen rs < window →
  ∃ l1' l2', lg_results s' = l1' ++ x :: l2'.
Proof.
  intros Hh. revert l1 l2. induction Hh as [s|s r rs s' _ _ IH]; intros l1 l2 E Hz; [eauto|].
  assert (zlen (r :: rs) = zlen rs + 1) as Hr by (unfold zlen; cbn; lia). pose proof (zlen_nonneg rs).
  cbn [spec_apply lg_results] in IH. unfold spec_remember in IH. rewrite E in IH.
  assert (zlen (l2 ++ [result_of r]) = zlen l2 + 1) as Hl by (rewrite zlen_app; done).
  destruct (window <? zlen ((l1 ++ x :: l2) ++ [result_of r])) eqn:Ew.
  - destruct l1 as [|y l1].
    + bool_to_prop. unfold zlen in *. cbn in Ew. rewrite length_app in Ew. cbn in *. lia.
    + apply (IH l1 (l2 ++ [result_of r])); [|lia]. cbn [app drop]. by rewrite drop_0, <- app_assoc.
  - apply (IH l1 (l2 ++ [result_of r])); [|lia]. by rewrite <- app_assoc.
Qed.

Lemma retained_middle l1 x l2 :
  NoDup (map rt_CommandID (l1 ++ x :: l2)) → retained (l1 ++ x :: l2) (rt_CommandID x) = Some x.
Proof.
  intros Hn. rewrite retained_app. rewrite map_app in Hn. apply NoDup_app in Hn as (_&Hn&_).
  rewrite (proj2 (retained_none l1 _)).
  - unfold retained. rewrite filter_cons. by rewrite decide_True.
  - intros Hin. apply (Hn _ Hin). cbn [map]. left.
Qed.

Lemma next_epoch_abs e : abs (next_epoch e) = abs e.
Proof. unfold next_epoch. by destruct (_ =? _). Qed.

(** A retry within the window is answered exactly: when a command was
    newly decided with [result] and fewer decisions than the window holds
    followed, submitting its identifier again, with any content, returns [result]
    marked as a duplicate and writes nothing. *)
Theorem core_exact_retry c x w result c1 w1 rs c2 x' w2 :
  core_good c → core_room c [x] → Submit c x w = (Ok result, c1, w1) → rt_Duplicate result = false →
  core_history (window_of (c_engine c)) (abs (c_engine c1)) rs (abs (c_engine c2)) → zlen rs < window_of (c_engine c) →
  core_good c2 → c_closed c2 = false → c_poisoned c2 = None → validate_batch (c_engine c2) [x'] = Ok tt →
  cm_ID x' = cm_ID x →
  ∃ c3, Submit c2 x' w2 = (Ok (as_duplicate result), c3, w2) ∧ abs (c_engine c3) = abs (c_engine c2).
Proof.
  intros Hg [Hb _] Hsub Hdup Hh Hz Hg2 Hcl Hpo Hv Hid. destruct (submit_spec c x w result c1 w1 (cg_engine _ Hg) Hb Hsub) as [Hs _].
  unfold spec_submit in Hs. destruct (retained (lg_results (abs (c_engine c))) (cm_ID x)) as [prior|] eqn:Er;
    pose proof (f_equal fst Hs) as Habs; pose proof (f_equal snd Hs) as Hres; cbn [fst snd] in Habs, Hres; clear Hs.
  { by subst result. }
  pose proof (do_window _ (eo_dedupe _ (cg_engine _ Hg)) : 0 < window_of (c_engine c)) as Hw.
  set (r := spec_record _ _ x) in *. assert (∃ l, lg_results (abs (c_engine c1)) = l ++ [result]) as [l Hl].
  { rewrite Habs, Hres. cbn [spec_apply lg_results]. unfold spec_remember. destruct (_ <? _) eqn:Ew; [|eauto].
    destruct (lg_results (abs (c_engine c))) as [|y l]; [|exists l; cbn; by rewrite drop_0].
    bool_to_prop. change (zlen ([] ++ [result_of r])) with 1 in Ew. lia. }
  destruct (history_keeps _ _ _ _ l result [] Hh Hl) as (l1&l2&Hl2); [change (zlen (@nil Result)) with 0; lia|].
  assert (e_results (c_engine c2) !! cm_ID x' = Some result) as Hret.
  { destruct (cg_engine _ Hg2) as [_ Hd _ _]. rewrite <- retained_lookup by done. cbn in Hl2. rewrite Hl2, Hid.
    replace (cm_ID x) with (rt_CommandID result) by (by rewrite Hres). apply retained_middle. rewrite <- Hl2, results_ids by done. apply Hd. }
  destruct (bi_rest _ _ (batch_inv_start _ (cg_engine _ Hg2))) as (_&_&R3&_). cbn [b_engine] in R3.
  assert (decide_batch (c_engine c2) [x'] = {| b_engine := next_epoch (c_engine c2); b_records := [];
    b_results := [as_duplicate result]; b_ids := ∅ |}) as Eb.
  { unfold decide_batch. cbn [foldl]. unfold batch_step. cbn [b_engine b_records b_results b_ids]. by rewrite R3, Hret. }
  exists (set_engine (next_epoch (c_engine c2)) c2). unfold Submit, SubmitBatch. rewrite Hcl, Hpo, Hv, Eb. split; [done|].
  apply next_epoch_abs.
Qed.

(** ** Recovery *)

(** The sequences of a history lie between those of its ends. *)
Lemma history_sequences window s rs s' :
  core_history window s rs s' → 0 ≤ lg_sequence s → lg_sequence s + zlen rs < 2 ^ 64 →
  lg_sequence s' = lg_sequence s + zlen rs ∧ Forall (λ r, lg_sequence s < w_sequence r ≤ lg_sequence s') rs.
Proof.
  induction 1 as [s|s r rs s' Hro Hh IH]; intros H0 Hs. { split; [unfold zlen; cbn; lia|constructor]. }
  assert (zlen (r :: rs) = zlen rs + 1) as Hz by (unfold zlen; cbn; lia). pose proof (zlen_nonneg rs).
  assert (w_sequence r = lg_sequence s + 1) as Es by (rewrite (ro_sequence _ _ Hro); apply u64_id; unfold u64_range; lia).
  cbn [spec_apply lg_sequence] in IH. rewrite Es in IH. destruct IH as [I1 I2]; [lia|lia|]. split; [lia|]. constructor; [lia|].
  eapply Forall_impl; [exact I2|]. cbn. lia.
Qed.

Lemma filter_all {A} (P : A → Prop) `{∀ x, Decision (P x)} l : Forall P l → filter P l = l.
Proof. induction 1 as [|x l Hx _ IH]; [done|]. rewrite filter_cons, decide_True by done. by rewrite IH. Qed.
Lemma filter_none {A} (P : A → Prop) `{∀ x, Decision (P x)} l : Forall (λ x, ¬ P x) l → filter P l = [].
Proof. induction 1 as [|x l Hx _ IH]; [done|]. rewrite filter_cons, decide_False by done. by rewrite IH. Qed.

(** The records after a snapshot, of a log that overlaps it. *)
Lemma filter_after window s0 rs1 s1 rs2 s2 :
  core_history window s0 rs1 s1 → core_history window s1 rs2 s2 → 0 ≤ lg_sequence s0 →
  lg_sequence s0 + zlen rs1 + zlen rs2 < 2 ^ 64 →
  filter (λ r, lg_sequence s1 < w_sequence r) (rs1 ++ rs2) = rs2.
Proof.
  intros H1 H2 H0 Hs. pose proof (zlen_nonneg rs1). pose proof (zlen_nonneg rs2).
  destruct (history_sequences _ _ _ _ H1) as [E1 F1]; [lia|lia|]. destruct (history_sequences _ _ _ _ H2) as [_ F2]; [lia|lia|].
  rewrite filter_app, filter_none, filter_all; [done|..].
  - eapply Forall_impl; [exact F2|]. cbn. lia.
  - eapply Forall_impl; [exact F1|]. cbn. lia.
Qed.

(** What opening reads: the snapshot, the records of the log after it, and their
    replay. *)
Definition core_recover (cfg : CoreConfig) (snapshot : bytes) (log : bytes) : res gerror (engine * nat) :=
  res_bind (load_snapshot snapshot (new_engine cfg)) (λ e,
  res_bind (scanWAL log (e_sequence e)) (λ '(records, valid),
  res_bind (res_fold replay_one e records) (λ e, Ok (e, valid)))).

(** C20: Recovery restores the ledger.  A snapshot of an engine and a log
    that holds the batches [bs1] decided before it, the batches [bs2] decided
    after it, and a torn rest of a further frame (what a crash during a write, or
    between the installation of a snapshot and the reset of the log, leaves)
    recover to an engine whose ledger is the one after [bs2], and the torn rest
    is cut off. *)
Theorem core_recovers e1 s0 bs1 bs2 s2 rs n cfg :
  engine_ok e1 → ledger_wide (abs e1) → core_history (window_of e1) s0 (concat bs1) (abs e1) →
  core_history (window_of e1) (abs e1) (concat bs2) s2 → 0 ≤ lg_sequence s0 →
  lg_sequence s0 + zlen (concat bs1) + zlen (concat bs2) < 2 ^ 64 →
  Forall frame_ok (bs1 ++ bs2) → frame_ok rs → (n < length (batch_frame rs))%nat →
  DedupeWindow cfg = window_of e1 → u32_range (window_of e1) → zlen (e_accounts e1) + zlen (concat bs2) < 2 ^ 32 →
  zlen (snapshot_payload e1) < 2 ^ 63 →
  ∃ e2, core_recover cfg (encodeSnapshot e1) (wal_header ++ batch_frames (bs1 ++ bs2) ++ take n (batch_frame rs))
        = Ok (e2, (walHeaderSize + length (batch_frames (bs1 ++ bs2)))%nat)
    ∧ abs e2 = s2 ∧ engine_ok e2.
Proof.
  intros He W H1 H2 H0 Hs Hf Hr Hn Hcfg Hw Hb Hp. pose proof (zlen_nonneg (concat bs2)).
  destruct (load_encoded e1 cfg He W Hcfg Hw) as (e'&Hl&O'&P'&A'&C'&L'); [lia|done|].
  unfold core_recover. rewrite Hl. cbn [res_bind]. rewrite scanWAL_ok by done. cbn [res_bind].
  assert (e_sequence e' = lg_sequence (abs e1)) as Es by (by rewrite <- A').
  rewrite concat_app, Es, (filter_after _ _ _ _ _ _ H1 H2 H0 Hs).
  destruct (core_replay e' (concat bs2) s2) as (->&A2&O2&_); [done|done|rewrite L'; lia| |].
  - rewrite A'. unfold window_of at 1. by rewrite C', Hcfg.
  - cbn [res_bind]. by exists (apply_all e' (concat bs2)).
Qed.

(** Loading the snapshot of an engine gives an engine with the
    same accounts, pending transfers, ledger, retained results and sequence,
    which satisfies the invariant. *)
Theorem core_snapshot_roundtrip e cfg :
  engine_ok e → ledger_wide (abs e) → DedupeWindow cfg = window_of e → u32_range (window_of e) →
  zlen (e_accounts e) < 2 ^ 32 → zlen (snapshot_payload e) < 2 ^ 63 →
  ∃ e', load_snapshot (encodeSnapshot e) (new_engine cfg) = Ok e' ∧ abs e' = abs e ∧ engine_ok e'
    ∧ e_accounts e' = e_accounts e.
Proof. intros He W Hc Hw Ha Hp. destruct (load_encoded e cfg He W Hc Hw Ha Hp) as (e'&?&?&_&?&_&?). by exists e'. Qed.

(** ** A small engine *)

Definition sample_config : CoreConfig :=
  {| StorageDir := []; Durability := MemoryOnly; DedupeWindow := 16; MaxAccounts := 100; BatchMax := 8;
     AccountHint := 0; RecordHint := 0 |}.
Definition sample_core : Core :=
  {| c_engine := new_engine sample_config; c_wal := {| wf_file := None; wf_mode := MemoryOnly; wf_stats := zero_storage |};
     c_closed := false; c_poisoned := None;
     c_recovery := {| SnapshotSequence := 0; SnapshotBytes := 0; WALBytesScanned := 0; RecordsReplayed := 0 |} |}.
Definition command (id : string) (kind a b amount : Z) : Command :=
  {| cm_ID := bs id; cm_Kind := kind; cm_Account := a; cm_Other := b; cm_Amount := amount |}.

(** Two accounts, a transfer between them, and a retry of the transfer. *)
Definition sample_batch : list Command :=
  [command "c1" Create 1 0 100; command "c2" Create 2 0 5; command "c3" Transfer 1 2 30; command "c3" Transfer 1 2 30].
Definition second_batch : list Command := [command "c4" Withdraw 2 0 35; command "c5" BeginTransfer 1 2 10].

Definition blank_disk_world : world :=
  {| w_dir := ∅; w_hist := []; w_inodes := ∅; w_next := 0; w_pos := 0; w_faults := [] |}.

Lemma new_ledger_wide cfg : ledger_wide (abs (new_engine cfg)).
Proof.
  split; try done; try constructor.
Qed.

Lemma sample_good : core_good sample_core.
Proof. split; [by apply new_engine_ok|apply new_ledger_wide]. Qed.

Lemma sample_wide : Forall command_wide (sample_batch ++ second_batch).
Proof.
  repeat constructor; unfold u32_range, i64_range, u64_range; cbn; try lia; vm_compute; congruence.
Qed.

Definition submitted (r : res gerror (list Result) * Core * world) : option (list Result * Core) :=
  match r with (Ok l, c, _) => Some (l, c) | _ => None end.

Definition after_sample : Core := (SubmitBatch sample_core sample_batch blank_disk_world).1.2.

Definition sample_results : list Result :=
  let answer seq (id : string) effect turns dup :=
    {| rt_Sequence := seq; rt_CommandID := bs id; rt_Accepted := true; rt_ReasonTag := applied; rt_EffectTag := effect;
       rt_TransitionCount := turns; rt_Duplicate := dup |} in
  [answer 1 "c1"%string 1 1 false; answer 2 "c2"%string 1 1 false; answer 3 "c3"%string 3 2 false;
   answer 3 "c3"%string 3 2 true].

Lemma sample_submits :
  SubmitBatch sample_core sample_batch blank_disk_world = (Ok sample_results, after_sample, blank_disk_world).
Proof. vm_compute. reflexivity. Qed.

Lemma sample_room : core_room sample_core sample_batch ∧ core_room after_sample second_batch.
Proof. split; split; vm_compute; congruence. Qed.

Lemma after_sample_good : core_good after_sample ∧ window_of (c_engine after_sample) = 16.
Proof.
  pose proof sample_wide as HW. apply Forall_app in HW as [HW _].
  destruct (submit_ok_good _ _ _ _ _ _ sample_good HW (proj1 sample_room) sample_submits) as (_&?&_). split; [done|]. vm_compute. reflexivity.
Qed.

Lemma core_batch_safe_witness :
  length sample_results = length sample_batch ∧ core_good after_sample
  ∧ ∃ rs, core_history (window_of (c_engine sample_core)) (abs (c_engine sample_core)) rs (abs (c_engine after_sample))
      ∧ Forall record_wide rs.
Proof.
  exact (core_batch_safe _ _ _ _ _ _ sample_good (proj1 (proj1 (Forall_app _ _ _) sample_wide)) (proj1 sample_room) sample_submits).
Defined.

Lemma core_batch_serial_witness :
  (abs (c_engine after_sample), sample_results) = spec_serial 16 (abs (c_engine sample_core)) sample_batch.
Proof.
  apply (core_batch_serial _ _ _ _ _ _ sample_good (proj1 sample_room)) with (3 := sample_submits); vm_compute; done.
Defined.

(** The engine after one more command. *)
Definition withdraw : Command := command "c4" Withdraw 2 0 35.
Definition after_withdraw : Core := (Submit after_sample withdraw blank_disk_world).1.2.
Definition withdraw_result : Result :=
  {| rt_Sequence := 4; rt_CommandID := bs "c4"; rt_Accepted := true; rt_ReasonTag := 0; rt_EffectTag := 2;
     rt_TransitionCount := 2; rt_Duplicate := false |}.

Lemma withdraw_submits : SubmitBatch after_sample [withdraw] blank_disk_world = (Ok [withdraw_result], after_withdraw, blank_disk_world).
Proof. vm_compute. reflexivity. Qed.

Lemma withdraw_room : core_room after_sample [withdraw].
Proof. split; vm_compute; congruence. Qed.

Lemma withdraw_wide : Forall command_wide [withdraw].
Proof. repeat constructor; unfold u32_range, i64_range, u64_range; cbn; try lia; vm_compute; congruence. Qed.

Lemma withdraw_valid : validate_batch (c_engine after_sample) [withdraw] = Ok tt.
Proof. vm_compute. reflexivity. Qed.

Lemma after_withdraw_good : core_good after_withdraw.
Proof.
  by destruct (submit_ok_good _ _ _ _ _ _ (proj1 after_sample_good) withdraw_wide withdraw_room withdraw_submits) as (_&?&_).
Qed.

Lemma withdraw_submit : Submit after_sample withdraw blank_disk_world = (Ok withdraw_result, after_withdraw, blank_disk_world).
Proof. unfold Submit. by rewrite withdraw_submits. Qed.

Lemma core_submit_refines_witness :
  (abs (c_engine after_withdraw), withdraw_result)
  = spec_submit (window_of (c_engine after_sample)) (abs (c_engine after_sample)) withdraw.
Proof.
  exact (core_submit_refines _ _ _ _ _ _ (proj1 after_sample_good) withdraw_room withdraw_submit).
Defined.

Lemma after_withdraw_open :
  c_closed after_withdraw = false ∧ c_poisoned after_withdraw = None
  ∧ validate_batch (c_engine after_withdraw) [command "c4" Deposit 1 0 7] = Ok tt.
Proof. vm_compute. done. Qed.

Lemma core_exact_retry_witness :
  ∃ c3, Submit after_withdraw (command "c4" Deposit 1 0 7) blank_disk_world = (Ok (as_duplicate withdraw_result), c3, blank_disk_world)
    ∧ abs (c_engine c3) = abs (c_engine after_withdraw).
Proof.
  apply (core_exact_retry after_sample withdraw blank_disk_world withdraw_result after_withdraw blank_disk_world []).
  - apply after_sample_good.
  - apply withdraw_room.
  - apply withdraw_submit.
  - done.
  - apply core_nil.
  - rewrite (proj2 after_sample_good). done.
  - apply after_withdraw_good.
  - apply after_withdraw_open.
  - apply after_withdraw_open.
  - apply after_withdraw_open.
  - done.
Defined.

(** Its log: the batch before the snapshot, the one after it, and three bytes of
    a further frame. *)
Definition log_before : list (list walRecord) := [b_records (decide_batch (c_engine sample_core) sample_batch)].
Definition log_after : list (list walRecord) := [b_records (decide_batch (c_engine after_sample) [withdraw])].

Lemma after_sample_applied :
  c_engine after_sample = apply_all (b_engine (decide_batch (c_engine sample_core) sample_batch))
    (b_records (decide_batch (c_engine sample_core) sample_batch))
  ∧ c_engine after_withdraw = apply_all (b_engine (decide_batch (c_engine after_sample) [withdraw]))
    (b_records (decide_batch (c_engine after_sample) [withdraw])).
Proof. split; vm_compute; reflexivity. Qed.

Lemma sample_frames : Forall frame_ok (log_before ++ log_after).
Proof.
  destruct (engine_good_batch after_sample [withdraw] (proj1 after_sample_good) withdraw_wide withdraw_room withdraw_valid)
    as (_&_&_&HW2&_).
  destruct (engine_good_batch sample_core sample_batch sample_good) as (_&_&_&HW1&_).
  { apply (proj1 (Forall_app _ _ _) sample_wide). } { apply sample_room. } { vm_compute. reflexivity. }
  constructor; [|constructor; [|constructor]]; (split; [assumption|vm_compute; split; congruence|vm_compute; congruence]).
Qed.

Lemma sample_log :
  core_history 16 (abs (c_engine sample_core)) (concat log_before) (abs (c_engine after_sample))
  ∧ core_history 16 (abs (c_engine after_sample)) (concat log_after) (abs (c_engine after_withdraw)).
Proof.
  destruct (engine_good_batch after_sample [withdraw] (proj1 after_sample_good) withdraw_wide withdraw_room withdraw_valid)
    as (_&_&_&_&Hh2&_).
  destruct (engine_good_batch sample_core sample_batch sample_good) as (_&_&_&_&Hh1&_).
  { apply (proj1 (Forall_app _ _ _) sample_wide). } { apply sample_room. } { vm_compute. reflexivity. }
  unfold log_before, log_after. cbn [concat]. rewrite !app_nil_r. rewrite (proj2 after_sample_good) in Hh2.
  destruct after_sample_applied as [E1 E2]. split; [rewrite E1; exact Hh1|rewrite E2; exact Hh2].
Qed.

(** The sizes the codec needs. *)
Lemma sample_sizes :
  e_sequence (c_engine sample_core) + zlen (concat log_before) + zlen (concat log_after) < 2 ^ 64
  ∧ zlen (e_accounts (c_engine after_sample)) + zlen (concat log_after) < 2 ^ 32
  ∧ zlen (e_accounts (c_engine after_sample)) < 2 ^ 32
  ∧ zlen (snapshot_payload (c_engine after_sample)) < 2 ^ 63.
Proof. vm_compute. done. Qed.

Lemma core_recovers_witness :
  ∃ e2, core_recover sample_config (encodeSnapshot (c_engine after_sample))
          (wal_header ++ batch_frames (log_before ++ log_after) ++ take 3 (batch_frame []))
        = Ok (e2, (walHeaderSize + length (batch_frames (log_before ++ log_after)))%nat)
    ∧ abs e2 = abs (c_engine after_withdraw) ∧ engine_ok e2.
Proof.
  destruct sample_log as [H1 H2], sample_sizes as (S1&S2&_&S4), after_sample_good as [[Hok Hw] Hwin].
  apply (core_recovers (c_engine after_sample) (abs (c_engine sample_core)) log_before log_after); rewrite ?Hwin.
  - exact Hok.
  - exact Hw.
  - exact H1.
  - exact H2.
  - vm_compute. congruence.
  - exact S1.
  - apply sample_frames.
  - apply frame_ok_nil.
  - vm_compute. lia.
  - reflexivity.
  - split; vm_compute; congruence.
  - exact S2.
  - exact S4.
Defined.

Lemma core_snapshot_roundtrip_witness :
  ∃ e', load_snapshot (encodeSnapshot (c_engine after_sample)) (new_engine sample_config) = Ok e'
    ∧ abs e' = abs (c_engine after_sample) ∧ engine_ok e' ∧ e_accounts e' = e_accounts (c_engine after_sample).
Proof.
  destruct sample_sizes as (_&_&S3&S4), after_sample_good as [[Hok Hw] Hwin].
  apply (core_snapshot_roundtrip (c_engine after_sample) sample_config Hok Hw); rewrite ?Hwin.
  - reflexivity.
  - split; vm_compute; congruence.
  - exact S3.
  - exact S4.
Defined.

(** ** Money *)

(** C21: No account is overdrawn and no money appears or disappears.  If no
    balance is negative and the total together with what the batch brings in
    stays below 2^63, then after a successful batch no balance is negative, and the
    total has changed by exactly the amounts of the accepted creations, deposits
    and withdrawals that were not retries; transfers move money only. *)
Theorem core_money c cs w results c' w' :
  core_good c → Forall command_wide cs → core_room c cs → SubmitBatch c cs w = (Ok results, c', w') →
  solvent (durable (c_engine c)) → total (durable (c_engine c)) + deposits cs results < 2 ^ 63 →
  solvent (durable (c_engine c')) ∧ total (durable (c_engine c')) = total (durable (c_engine c)) + credits cs results.
Proof.
  intros Hg Hc Hr H Hs Hb. apply submit_cases in H as [(->&->&[[err H]|[-> [= ->]]])|(_&_&Hne&Hv&H)]; [done|split; [done|cbn; lia]|].
  destruct (engine_good_batch c cs Hg Hc Hr Hv) as (_&_&_&_&Hh&_).
  destruct (batch_credits cs (first_batch (c_engine c))) as (l&El&_&N&I).
  change (foldl batch_step (first_batch (c_engine c)) cs) with (decide_batch (c_engine c) cs) in El, N, I.
  cbn [first_batch b_results b_records app] in El, N, I. change (nets []) with 0 in N. change (inflow []) with 0 in I.
  set (bt := decide_batch (c_engine c) cs) in *.
  destruct H as [(E&[= ->]&->&->)|[(wal&E&Ea&[= ->]&->)|(err&E&Ea&?&->)]]; [| |done]; rewrite El in Hb |- *.
  - rewrite E in Hh, N, I. destruct (money_history _ _ _ _ Hh Hs) as [S T]; [cbn in I |- *; lia|]. split; [done|]. cbn in T, N |- *. lia.
  - destruct (money_history _ _ _ _ Hh Hs) as [S T]; [cbn; lia|]. split; [done|]. cbn in T |- *. lia.
Qed.

Lemma sample_solvent : solvent (durable (c_engine sample_core)).
Proof. intros i. unfold seen, acct, durable. cbn. by rewrite fmap_empty, lookup_empty. Qed.

Lemma core_money_witness :
  solvent (durable (c_engine after_sample))
  ∧ total (durable (c_engine after_sample)) = total (durable (c_engine sample_core)) + credits sample_batch sample_results.
Proof.
  apply (core_money _ _ _ _ _ _ sample_good (proj1 (proj1 (Forall_app _ _ _) sample_wide)) (proj1 sample_room) sample_submits sample_solvent).
  vm_compute. reflexivity.
Defined.

(** ** Executions of the account engine that deserve attention

    Concrete runs of [internal/core/core.go], computed with the model: each ends
    in a state the comments of the code or of the public API exclude. *)

Definition durable_config (accounts : Z) : CoreConfig :=
  {| StorageDir := bs "data"; Durability := BatchSync; DedupeWindow := 16; MaxAccounts := accounts; BatchMax := 8;
     AccountHint := 0; RecordHint := 0 |}.

(** Opening, then the batches, each with its schedule of faults; the last engine
    and disk, and which batches succeeded. *)
Definition run_batch (s : Core * world * list bool) (b : list fault * list Command) : Core * world * list bool :=
  let '(c, w, oks) := s in
  let '(r, c', w') := SubmitBatch c b.2 (with_faults b.1 w) in (c', w', oks ++ [is_ok r]).

Definition run_core (cfg : CoreConfig) (w : world) (l : list (list fault * list Command)) : option (Core * world * list bool) :=
  match OpenCore cfg w with
  | (Ok c, w') => Some (foldl run_batch (c, w', []) l)
  | (Err _, _) => None
  end.

(** How a directory opens: the accounts, or the kind of the error. *)
Definition reopen_core (cfg : CoreConfig) (w : world) : res (option CoreErrorKind) (list Account) :=
  match OpenCore cfg (with_faults [] w) with
  | (Ok c, _) => Ok (SortedAccounts c)
  | (Err e, _) => Err (as_runtime e)
  end.

(** Commands on missing accounts are rejected, but applying their records
    allocates slots without the check against [MaxAccounts]: the database then
    holds more accounts than configured and does not open again. *)
Theorem rejected_commands_fill_the_table :
  match run_core (durable_config 1) blank_disk_world
          [([], [command "c1" Deposit 1 0 5]); ([], [command "c2" Deposit 2 0 5])] with
  | Some (c, w, oks) => oks = [true; true] ∧ SortedAccounts c = [] ∧ reopen_core (durable_config 1) w = Err (Some RecoveryIncompatible)
  | None => False
  end.
Proof. vm_compute. done. Qed.

(** A deposit that exceeds the 64-bit range is accepted and leaves a negative
    balance. *)
Theorem deposit_overflows :
  match run_core sample_config blank_disk_world
          [([], [command "c1" Create 1 0 (2 ^ 63 - 1)]); ([], [command "c2" Deposit 1 0 1])] with
  | Some (c, _, oks) => oks = [true; true] ∧ map ac_Balance (SortedAccounts c) = [- 2 ^ 63]
  | None => False
  end.
Proof. vm_compute. done. Qed.

(** Within one batch a command on an account without a slot does not see the
    pending transfer of an earlier one, so a batch is not always the serial
    execution of its commands: a repeated confirmation is answered differently. *)
Definition unslotted_batch : list Command :=
  [command "c1" BeginTransfer 7 1 10; command "c2" Confirm 7 1 10].

Theorem batch_not_serial :
  match run_core sample_config blank_disk_world [([], unslotted_batch)],
        run_core sample_config blank_disk_world (map (λ c, ([], [c])) unslotted_batch) with
  | Some (c1, _, _), Some (c2, _, _) =>
      map rt_ReasonTag (results_of (c_engine c1)) = [awaiting; invalidWorkflow]
      ∧ map rt_ReasonTag (results_of (c_engine c2)) = [awaiting; missing]
  | _, _ => False
  end.
Proof. vm_compute. done. Qed.

(** A batch whose synchronization fails poisons the engine, but [Snapshot] still
    runs: it makes the staged agents of the failed batch durable. *)
Theorem poisoned_snapshot_keeps_failed_batch :
  match run_core (durable_config 10) blank_disk_world
          [([], [command "c1" Create 1 0 50; command "c2" Create 2 0 0]);
           ([FOk; FFail], [command "c3" BeginTransfer 1 2 10])] with
  | Some (c, w, oks) =>
      oks = [true; false] ∧
      match SnapshotCore false c (with_faults [] w) with
      | (Ok _, _, w') =>
          match OpenCore (durable_config 10) w' with
          | (Ok c', _) => map rt_CommandID (results_of (c_engine c')) = [bs "c1"; bs "c2"]
              ∧ ag_Pending (agent_at (c_engine c') 0) = {| pt_Active := true; pt_Target := 2; pt_Amount := 10 |}
          | _ => False
          end
      | _ => False
      end
  | None => False
  end.
Proof. vm_compute. done. Qed.

(** A snapshot that fails after it emptied the log does not poison the engine:
    the next batch is acknowledged, written to a log without a header, and the
    directory does not open any more. *)
Theorem failed_reset_loses_the_log :
  match run_core (durable_config 10) blank_disk_world [([], [command "c1" Create 1 0 50])] with
  | Some (c, w, _) =>
      match SnapshotCore false c (with_faults [FOk; FOk; FOk; FOk; FOk; FOk; FOk; FOk; FOk; FOk; FFail] w) with
      | (Err _, c', w') =>
          match SubmitBatch c' [command "c2" Deposit 1 0 5] (with_faults [] w') with
          | (Ok _, _, w'') => c_poisoned c' = None ∧ reopen_core (durable_config 10) w'' = Err (Some RecoveryCorrupt)
          | _ => False
          end
      | _ => False
      end
  | None => False
  end.
Proof. vm_compute. done. Qed.

(** The log a crash leaves when only the first bytes of a new log's header
    reached the disk: the header is never synchronized on its own. *)
Definition torn_header : world :=
  {| w_dir := {[ wal_oct := 0%nat ]}; w_hist := []; w_inodes := {[ 0%nat := {| stable := take 10 wal_header; pending := [] |} ]};
     w_next := 1; w_pos := 0; w_faults := [] |}.

Lemma crash_torn_header :
  match OpenCore (durable_config 10) blank_disk_world with
  | (Ok _, w) => inode 0 w = {| stable := []; pending := [FWrite 0 wal_header; FTrunc 24] |}
                 ∧ survives (inode 0 w) (take 10 wal_header)
  | _ => False
  end.
Proof.
  assert (inode 0 (OpenCore (durable_config 10) blank_disk_world).2 = {| stable := []; pending := [FWrite 0 wal_header; FTrunc 24] |}) as E
    by (vm_compute; reflexivity).
  destruct (OpenCore (durable_config 10) blank_disk_world) as [[c|err] w] eqn:Eo; [|revert Eo; vm_compute; discriminate].
  cbn [snd] in E. split; [done|]. rewrite E. exists [], [FWrite 0 wal_header; FTrunc 24]. split; [done|]. right.
  exists 0%nat, wal_header, 10%nat, [FTrunc 24]. split; [done|]. vm_compute. reflexivity.
Qed.

Theorem torn_header_unopenable : reopen_core (durable_config 10) torn_header = Err (Some RecoveryCorrupt).
Proof. vm_compute. reflexivity. Qed.
