(* ===== verification/CoreDurability.v ===== *)
(** * The account engine on disk

    The log file of the account engine and its snapshot in the file model of
    [GoOS.v]: what a batch leaves on disk when calls fail, what survives a power
    failure, and that opening recovers it ([internal/core/core.go]). *)

From Stdlib Require Import ZArith Lia Strings.Byte Strings.String.
From stdpp Require Import base decidable countable list gmap.
From S2P Require Import Prelude GoText GoBinary Errors GoOS KeyedStorage KeyedDurability CoreTypes CoreEngine CoreWal CoreSnapshot Core CoreSpec CoreRefinement CoreHistory CoreSerial CoreCodec CoreWide CoreRestore CoreTheorems.

Local Open Scope Z_scope.

(** ** The log file *)

Definition whole_log (bs : list (list walRecord)) : bytes := wal_header ++ batch_frames bs.

Local Opaque wal_header.

(** A log cut inside a frame after the whole batches [bs]. *)
Definition cut_log (bs : list (list walRecord)) (c : bytes) : Prop :=
  ∃ rs n, frame_ok rs ∧ (n < length (batch_frame rs))%nat ∧ c = whole_log bs ++ take n (batch_frame rs).

(** A log file whose content is the batches [bs]; when it is [anchored], a crash
    leaves these batches and perhaps part of a frame. *)
Definition log_file (anchored : bool) (bs : list (list walRecord)) (f : file) : Prop :=
  content f = whole_log bs ∧ (anchored = true → ∀ c, survives f c → cut_log bs c).

Lemma cut_whole bs : cut_log bs (whole_log bs).
Proof. exists [], 0%nat. split; [apply frame_ok_nil|]. split; [rewrite batch_frame_length; lia|]. cbn. by rewrite app_nil_r. Qed.

Lemma whole_log_snoc bs rs : whole_log (bs ++ [rs]) = whole_log bs ++ batch_frame rs.
Proof. unfold whole_log, batch_frames. rewrite map_app, concat_app. cbn [map concat]. by rewrite app_nil_r, app_assoc. Qed.

(** What survives one more modification. *)
Lemma survives_modify f m c :
  survives (modify m f) c →
  survives f c ∨ c = apply_mod (content f) m ∨ ∃ off d n, m = FWrite off d ∧ c = apply_mod (content f) (FWrite off (take n d)).
Proof.
  intros (dn&rest&E&H). cbn [modify pending stable] in *. destruct rest as [|x rest _] using rev_ind.
  - rewrite app_nil_r in E. subst dn. rewrite foldl_snoc in H. right. left. by destruct H as [H|(?&?&?&?&?&_)].
  - rewrite app_assoc in E. apply app_inj_tail in E as [E <-]. destruct H as [H|(off&d&n&rest'&Er&H)].
    { left. exists dn, rest. auto. }
    destruct rest as [|y rest].
    + right. right. rewrite app_nil_r in E. subst dn. cbn in Er. injection Er as -> _. eauto.
    + left. cbn in Er. injection Er as -> _. exists dn, (FWrite off d :: rest). split; [done|]. right. by eexists _, _, _, _.
Qed.

Lemma survives_settle f c : survives (settle f) c → c = content f.
Proof. intros H. by apply survives_settled in H. Qed.

(** Part of a frame, written at the end. *)
Lemma log_part bs rs k f :
  log_file true bs f → frame_ok rs →
  ∀ c, survives (modify (FWrite (length (whole_log bs)) (take k (batch_frame rs))) f) c → cut_log bs c ∨ cut_log (bs ++ [rs]) c.
Proof.
  intros [Hc Hs] Hr c H.
  assert (∀ j, cut_log bs (whole_log bs ++ take j (batch_frame rs)) ∨ cut_log (bs ++ [rs]) (whole_log bs ++ take j (batch_frame rs))) as Hj.
  { intros j. destruct (decide (j < length (batch_frame rs))%nat) as [Hlt|Hge]; [left; by exists rs, j|].
    right. rewrite take_ge, <- whole_log_snoc by lia. apply cut_whole. }
  apply survives_modify in H as [H|[->|(off&d&n&[= <- <-]&->)]].
  - left. by apply (Hs eq_refl).
  - cbn [apply_mod]. rewrite Hc, write_at_end. apply Hj.
  - cbn [apply_mod]. rewrite Hc, write_at_end, take_take. apply Hj.
Qed.

(** The whole frame, written and synchronized. *)
Lemma log_synced b bs rs f :
  log_file b bs f → log_file b (bs ++ [rs]) (settle (modify (FWrite (length (whole_log bs)) (batch_frame rs)) f)).
Proof.
  intros [Hc _]. assert (content (modify (FWrite (length (whole_log bs)) (batch_frame rs)) f) = whole_log (bs ++ [rs])) as E.
  { rewrite content_modify, Hc. cbn [apply_mod]. by rewrite write_at_end, whole_log_snoc. }
  split; [by rewrite content_settle|]. intros _ c ->%survives_settle. rewrite E. apply cut_whole.
Qed.

(** A log as opening finds it: perhaps with part of a frame at its end. *)
Definition found_log (anchored : bool) (bs : list (list walRecord)) (f : file) : Prop :=
  cut_log bs (content f) ∧ (anchored = true → ∀ c, survives f c → cut_log bs c).

Lemma found_settled b bs c : cut_log bs c → found_log b bs {| stable := c; pending := [] |}.
Proof. intros Hc. split; [exact Hc|]. intros _ d Hd. by apply survives_settled in Hd as ->. Qed.

Lemma found_whole b bs f : log_file b bs f → found_log b bs f.
Proof. intros [Hc Hs]. split; [|done]. rewrite Hc. apply cut_whole. Qed.

Lemma cut_truncated bs c : cut_log bs c → apply_mod c (FTrunc (length (whole_log bs))) = whole_log bs.
Proof.
  intros (rs&n&Hr&Hn&->). cbn [apply_mod]. rewrite take_app_length, length_app. replace (_ - _)%nat with 0%nat by lia. cbn. by rewrite app_nil_r.
Qed.

(** Opening cuts off the rest of a torn frame, and does not synchronize. *)
Lemma log_truncated b bs f : found_log b bs f → log_file b bs (modify (FTrunc (length (whole_log bs))) f).
Proof.
  intros [Hc Hs]. split; [by rewrite content_modify, cut_truncated|]. intros Hb c H.
  apply survives_modify in H as [H|[->|(off&d&k&[=]&_)]]; [by apply Hs|]. rewrite cut_truncated by done. apply cut_whole.
Qed.

(** ** Appending *)

(** The worlds that differ from [w] in the file [i] and the offset only. *)
Record file_changed (i : nat) (w w' : world) : Prop := {
  fc_dir : w_dir w' = w_dir w;
  fc_hist : w_hist w' = w_hist w;
  fc_next : w_next w' = w_next w;
  fc_other : ∀ j, j ≠ i → w_inodes w' !! j = w_inodes w !! j }.

Lemma tick_cases w : (tick w).2 = w ∨ ∃ l, (tick w).2 = with_faults l w.
Proof. right. destruct (tick_faults w) as [l E]. eauto. Qed.

Lemma inode_faults l i w : inode i (with_faults l w) = inode i w.
Proof. done. Qed.

Lemma append_frame i mode stats records w r w' :
  mode ≠ MemoryOnly → frame_ok records →
  appendBatch {| wf_file := Some i; wf_mode := mode; wf_stats := stats |} records w = (r, w') →
  file_changed i w w' ∧
  ((∃ wal, r = Ok wal ∧ wf_file wal = Some i ∧ wf_mode wal = mode
     ∧ w_inodes w' !! i = Some (settle (modify (FWrite (w_pos w) (batch_frame records)) (inode i w)))
     ∧ w_pos w' = (w_pos w + length (batch_frame records))%nat)
   ∨ ((∃ err, r = Err err) ∧ (w_inodes w' !! i = w_inodes w !! i
        ∨ ∃ k, w_inodes w' !! i = Some (modify (FWrite (w_pos w) (take k (batch_frame records))) (inode i w))))).
Proof.
  intros Hm Hf H. unfold appendBatch in H. rewrite bool_decide_false in H by done. cbn [wf_file wf_mode] in H.
  rewrite (proj2 (Z.ltb_ge _ _)) in H by apply Hf. revert H. generalize (batch_frame records). intros d.
  unfold mbind, io_bind, write_here, write_file. destruct (tick_faults w) as [l El].
  destruct (tick w) as [[| |n rep] w1] eqn:Et; cbn in El; subst w1.
  - (* the whole frame *) rewrite bool_decide_true by done. unfold sync_file, call.
    match goal with |- context [tick ?x] => set (w1 := x); destruct (tick_faults w1) as [l2 E2]; destruct (tick w1) as [[| |n rep] w2] eqn:Et2 end;
      cbn [snd] in E2; subst w2; intros [= <- <-]; (split; [by split; cbn; try done; intros j Hj; rewrite ?lookup_insert_ne by done|]).
    + left. eexists. split; [done|]. split; [done|]. split; [done|]. cbn. unfold inode. cbn. by rewrite !lookup_insert_eq.
    + right. split; [by eexists|]. right. exists (length d). cbn. by rewrite firstn_all, lookup_insert_eq.
    + left. eexists. split; [done|]. split; [done|]. split; [done|]. cbn. unfold inode. cbn. by rewrite !lookup_insert_eq.
  - (* nothing *) intros [= <- <-]. split; [by split|]. right. split; [by eexists|]. by left.
  - (* part of it *) destruct (rep && _) eqn:Er.
    { intros [= <- <-]. split; [split; cbn; try done; intros j Hj; by rewrite lookup_insert_ne|]. right. split; [by eexists|]. right.
      eexists. cbn. by rewrite lookup_insert_eq. }
    case_bool_decide as En.
    2:{ intros [= <- <-]. split; [split; cbn; try done; intros j Hj; by rewrite lookup_insert_ne|]. right. split; [by eexists|]. right.
      eexists. cbn. by rewrite lookup_insert_eq. }
    rewrite En, firstn_all. unfold sync_file, call.
    match goal with |- context [tick ?x] => set (w1 := x); destruct (tick_faults w1) as [l2 E2]; destruct (tick w1) as [[| |n' rep'] w2] eqn:Et2 end;
      cbn [snd] in E2; subst w2; intros [= <- <-]; (split; [by split; cbn; try done; intros j Hj; rewrite ?lookup_insert_ne by done|]).
    + left. eexists. split; [done|]. split; [done|]. split; [done|]. cbn. unfold inode. cbn. by rewrite !lookup_insert_eq.
    + right. split; [by eexists|]. right. exists (length d). cbn. by rewrite firstn_all, lookup_insert_eq.
    + left. eexists. split; [done|]. split; [done|]. split; [done|]. cbn. unfold inode. cbn. by rewrite !lookup_insert_eq.
Qed.

(** ** The size of the table *)

Lemma table_size e : slots_ok e → zlen (e_accounts e) = Z.of_nat (size (lg_entries (abs e))).
Proof.
  intros Hok. cbn [abs lg_entries]. unfold durable. rewrite map_size_fmap.
  assert (NoDup (map ac_ID (e_accounts e))) as Hn.
  { apply NoDup_alt. intros s t id Hs Ht. apply list_lookup_fmap_Some in Hs as (a&->&Ha), Ht as (b&E&Hb).
    assert (e_ids e !! ac_ID a = Some s) as Es by (apply (so_ids _ Hok); eauto).
    assert (e_ids e !! ac_ID b = Some t) as Et by (apply (so_ids _ Hok); eauto). congruence. }
  rewrite <- size_dom. replace (dom (e_ids e)) with (list_to_set (map ac_ID (e_accounts e)) : gset Z).
  { rewrite size_list_to_set by done. unfold zlen. by rewrite length_map. }
  apply set_eq. intros id. rewrite elem_of_list_to_set, elem_of_dom. split.
  - intros (a&->&Ha)%list_elem_of_fmap. apply list_elem_of_lookup in Ha as [s Hs]. exists s. apply (so_ids _ Hok). eauto.
  - intros [s Hs]. apply (so_ids _ Hok) in Hs as (a&Ha&<-). apply list_elem_of_fmap. exists a. split; [done|]. by eapply list_elem_of_lookup_2.
Qed.

Lemma dom_effect r m i : w_accepted r = true → fits m r → is_Some (spec_effect r m !! i) → i = w_a r ∨ is_Some (m !! i).
Proof.
  intros Hacc Hf. destruct (Hf Hacc) as [_ F3]. unfold spec_effect. destruct (w_effect r =? 1) eqn:E1; [by rewrite dom_put_account|].
  destruct (w_effect r =? 2); [by rewrite dom_put_account|]. destruct (w_effect r =? 3) eqn:E3.
  - rewrite !dom_put_account. apply Z.eqb_eq in E3. destruct (F3 E3) as (_&[a Ha]&_). intros [-> | [H|H]]; [|tauto|tauto].
    right. unfold acct in Ha. by destruct (m !! w_b r).
  - destruct (w_effect r =? 4); [by rewrite dom_put_account|tauto].
Qed.

Lemma entry_added r m i : fits m r → is_Some (spec_entries m r !! i) → i = w_a r ∨ is_Some (m !! i).
Proof.
  intros Hf. unfold spec_entries. rewrite dom_put_agent. destruct (w_accepted r) eqn:Ea; [|tauto].
  intros [?|H]; [by left|]. by apply dom_effect in H.
Qed.

(** A record adds at most one entry. *)
Lemma history_size window s rs s' :
  core_history window s rs s' → Z.of_nat (size (lg_entries s')) ≤ Z.of_nat (size (lg_entries s)) + zlen rs.
Proof.
  induction 1 as [s|s r rs s' Hro Hh IH]; [unfold zlen; cbn; lia|].
  assert (zlen (r :: rs) = zlen rs + 1) as Hz by (unfold zlen; cbn; lia).
  assert (size (spec_entries (lg_entries s) r) ≤ S (size (lg_entries s)))%nat.
  { rewrite <- !size_dom. trans (size ({[w_a r]} ∪ dom (lg_entries s) : gset Z)).
    - apply subseteq_size. intros i. rewrite elem_of_union, elem_of_singleton, !elem_of_dom. apply entry_added. by apply ro_fits.
    - pose proof (size_union_alt ({[w_a r]} : gset Z) (dom (lg_entries s))) as E. rewrite size_singleton in E.
      pose proof (subseteq_size (dom (lg_entries s) ∖ {[w_a r]}) (dom (lg_entries s) : gset Z) ltac:(set_solver)). lia. }
  cbn [spec_apply lg_entries] in IH. lia.
Qed.

(** ** The database on disk *)

Section durable.
Context (cfg n : CoreConfig).
Hypothesis Hn : normalize_config cfg = Ok n.
Hypothesis Hmode : Durability n ≠ MemoryOnly.
Hypothesis Hdir : StorageDir n ≠ [].
Hypothesis Hwindow : 0 < DedupeWindow n < 2 ^ 32.

(** Fewer than 2^32 decisions, and no more entries than decisions. *)
Definition counted (s : ledger) : Prop :=
  Z.of_nat (size (lg_entries s)) ≤ lg_sequence s ∧ lg_sequence s < 2 ^ 32.

(** An engine whose snapshot can be read back. *)
Record saved (e : engine) : Prop := {
  sv_ok : engine_ok e;
  sv_wide : ledger_wide (abs e);
  sv_window : window_of e = DedupeWindow n;
  sv_counted : counted (abs e);
  sv_bytes : zlen (snapshot_payload e) < 2 ^ 63 }.

(** The ledger the snapshot file holds; [i] is the log. *)
Definition base_at (w : world) (i : nat) (base : ledger) : Prop :=
  match w_dir w !! snapshot_oct with
  | None => base = abs (new_engine n)
  | Some j => j ≠ i ∧ ∃ e, w_inodes w !! j = Some {| stable := encodeSnapshot e; pending := [] |} ∧ saved e ∧ abs e = base
  end.

(** The snapshot and the batches [bs] of the log make the ledger [s]. *)
Record core_disk (w : world) (i : nat) (bs : list (list walRecord)) (s : ledger) : Prop := {
  cd_wal : w_dir w !! wal_oct = Some i;
  cd_next : (i < w_next w)%nat;
  cd_base : ∃ base, base_at w i base ∧ core_history (DedupeWindow n) base (concat bs) s
    ∧ lg_sequence s = lg_sequence base + zlen (concat bs);
  cd_frames : Forall frame_ok bs;
  cd_counted : counted s;
  cd_tmp : ∀ j, w_dir w !! snapshot_oct_tmp = Some j → j ≠ i ∧ w_dir w !! snapshot_oct ≠ Some j }.

Lemma base_wide w i base :
  base_at w i base → ledger_wide base ∧ counted base.
Proof.
  unfold base_at. intros H. destruct (w_dir w !! snapshot_oct) as [j|].
  - destruct H as (_&e&_&[]&<-). done.
  - subst base. split; [apply new_ledger_wide|]. split; cbn; [|lia]. unfold durable. cbn [new_engine e_ids]. rewrite fmap_empty, map_size_empty. lia.
Qed.

(** Worlds with the same directory and the same files but the log. *)
Lemma base_at_same w w' i base :
  w_dir w' = w_dir w → (∀ j f, j ≠ i → w_inodes w !! j = Some f → pending f = [] → w_inodes w' !! j = Some f) →
  base_at w i base → base_at w' i base.
Proof.
  unfold base_at. intros -> Hj. destruct (w_dir w !! snapshot_oct) as [j|]; [|done].
  intros (Hne&e&He&Hs&Hb). split; [done|]. exists e. split; [|done]. by apply Hj.
Qed.

Lemma core_disk_same w w' i bs s :
  w_dir w' = w_dir w → w_next w' = w_next w →
  (∀ j f, j ≠ i → w_inodes w !! j = Some f → pending f = [] → w_inodes w' !! j = Some f) →
  core_disk w i bs s → core_disk w' i bs s.
Proof.
  intros Ed En Hj [H2 H3 (base&H4&H5) H6 H7 H8]. split; rewrite ?Ed, ?En; try done.
  exists base. split; [|done]. by apply (base_at_same w).
Qed.

Lemma history_counted s rs s' :
  core_history (DedupeWindow n) s rs s' → counted s → 0 ≤ lg_sequence s → lg_sequence s + zlen rs < 2 ^ 32 →
  counted s' ∧ lg_sequence s' = lg_sequence s + zlen rs.
Proof.
  intros Hh [C1 C2] H0 Hs. pose proof (history_size _ _ _ _ Hh). pose proof (zlen_nonneg rs).
  destruct (history_sequences _ _ _ _ Hh) as [E _]; [done|lia|]. split; [split|]; lia.
Qed.

(** One more batch in the log. *)
Lemma core_disk_batch w i bs s rs s' :
  core_disk w i bs s → frame_ok rs → core_history (DedupeWindow n) s rs s' → 0 ≤ lg_sequence s → lg_sequence s + zlen rs < 2 ^ 32 →
  core_disk w i (bs ++ [rs]) s'.
Proof.
  intros [H2 H3 (base&H4&H5&H5') H6 H7 H8] Hf Hh H0 Hs. destruct (history_counted _ _ _ Hh H7 H0 Hs) as [C E]. split; try done.
  - exists base. split; [done|]. rewrite concat_app. cbn [concat]. rewrite app_nil_r, zlen_app. split; [by eapply core_history_app|lia].
  - apply Forall_app. split; [done|]. by constructor.
Qed.

(** ** Opening *)

(** A database that is open and healthy.  It is [anchored] once the directory
    has been synchronized with the log in it; before that a crash can lose the
    file, so nothing is said of what survives. *)
Record live (anchored : bool) (c : Core) (w : world) (i : nat) (bs : list (list walRecord)) : Prop := {
  lv_good : core_good c;
  lv_cfg : e_cfg (c_engine c) = n;
  lv_up : c_closed c = false ∧ c_poisoned c = None;
  lv_wal : wf_file (c_wal c) = Some i ∧ wf_mode (c_wal c) = Durability n;
  lv_disk : core_disk w i bs (abs (c_engine c));
  lv_hist : anchored = true → w_hist w = [];
  lv_log : ∃ f, w_inodes w !! i = Some f ∧ log_file anchored bs f;
  lv_pos : w_pos w = length (whole_log bs) }.

Lemma load_base w i base :
  calm w → base_at w i base →
  ∃ e z1 z2, loadSnapshot (new_engine n) w = (Ok (e, z1, z2), w) ∧ engine_ok e ∧ e_epoch e = 0 ∧ abs e = base ∧ e_cfg e = n.
Proof.
  intros Hc Hb. unfold loadSnapshot, base_at, mbind, io_bind, attempt, read_file in *.
  destruct (w_dir w !! snapshot_oct) as [j|]; cycle 1.
  { subst base. eexists _, _, _. split; [done|]. by destruct (new_engine_ok n); [lia|]. }
  destruct Hb as (_&e&He&[S1 S2 S3 [S4 S4'] S5]&<-). rewrite call_calm by done. unfold inode. rewrite He. cbn [default content stable pending foldl].
  destruct (load_encoded e n S1 S2) as (e'&Hl&O'&P'&A'&C'&_).
  - done.
  - unfold u32_range. rewrite S3. lia.
  - rewrite table_size by apply S1. cbn in *. lia.
  - done.
  - unfold content. cbn [id foldl pending stable]. cbv beta iota. unfold io_res. rewrite Hl. eexists _, _, _. done.
Qed.

Lemma whole_log_length bs : length (whole_log bs) = (walHeaderSize + length (batch_frames bs))%nat.
Proof. unfold whole_log. by rewrite length_app, wal_header_length. Qed.

Lemma cut_log_scan bs c after :
  Forall frame_ok bs → cut_log bs c →
  scanWAL c after = Ok (filter (λ r, after < w_sequence r) (concat bs), length (whole_log bs)) ∧ (0 < length c)%nat.
Proof.
  intros Hf (rs&k&Hr&Hk&->). rewrite whole_log_length. unfold whole_log. rewrite <- app_assoc, scanWAL_ok by done. split; [done|].
  rewrite length_app, wal_header_length. unfold walHeaderSize. lia.
Qed.

(** The log as opening leaves it. *)
Definition reopened (i : nat) (bs : list (list walRecord)) (f : file) (w : world) : world :=
  with_pos (length (whole_log bs)) (with_inodes (<[i := modify (FTrunc (length (whole_log bs))) f]> (w_inodes w)) w).

Lemma open_log w i bs f after :
  calm w → w_dir w !! wal_oct = Some i → w_inodes w !! i = Some f → Forall frame_ok bs → cut_log bs (content f) →
  ∃ wal z, openWAL (StorageDir n) (Durability n) after w
    = (Ok (wal, filter (λ r, after < w_sequence r) (concat bs), z), reopened i bs f w)
    ∧ wf_file wal = Some i ∧ wf_mode wal = Durability n.
Proof.
  intros Hc Hw Hi Hf Hcut. destruct (cut_log_scan bs (content f) after Hf Hcut) as [Hs Hpos].
  assert (∀ v, w_inodes v = w_inodes w → inode i v = f) as Hin by (intros v E; unfold inode; by rewrite E, Hi).
  unfold openWAL. rewrite !bool_decide_false by done. unfold open_rw, on_error, truncate, seek_end, mbind, io_bind, io_res.
  rewrite call_calm by done. rewrite Hw. cbv beta iota.
  rewrite call_calm by done. cbv beta iota. rewrite (Hin (with_pos 0 w)) by done. rewrite (proj2 (Nat.eqb_neq _ _)) by lia.
  unfold mret, io_ret. cbv beta iota. rewrite call_calm by done. cbv beta iota. rewrite (Hin (with_pos 0 w)) by done. rewrite Hs. cbv beta iota.
  rewrite call_calm by done. cbv beta iota. rewrite call_calm by done. cbv beta iota. rewrite (Hin (with_pos 0 w)), inode_insert by done.
  rewrite content_modify, cut_truncated by done. eexists _, _. split; [reflexivity|by split].
Qed.

Lemma open_disk b w i bs s f :
  calm w → (b = true → w_hist w = []) → core_disk w i bs s → w_inodes w !! i = Some f → found_log b bs f →
  ∃ core w', abs (c_engine core) = s ∧ live b core w' i bs ∧ file_changed i w w'
    ∧ if CoreEngine.MaxAccounts n <? Z.of_nat (size (lg_entries s)) then is_ok (OpenCore cfg w).1 = false else OpenCore cfg w = (Ok core, w').
Proof.
  intros Hc H1 D Hi Hcut. pose proof D as [H2 H3 (base&Hb&Hh&Hseq) H6 [H7 H7'] H8].
  destruct (load_base w i base Hc Hb) as (e&z1&z2&Hl&Oe&Pe&<-&Ce). destruct (base_wide w i (abs e) Hb) as [W [C1 C2]].
  destruct (open_log w i bs f (e_sequence e) Hc H2 Hi H6 (proj1 Hcut)) as (wal&z&Ho&Hwf&Hwm).
  pose proof (wl_sequence _ W) as [Hs0 _]. pose proof (zlen_nonneg (concat bs)).
  assert (Forall record_wide (concat bs)) as HW.
  { apply Forall_concat. eapply Forall_impl; [exact H6|]. by intros ? []. }
  assert (zlen (e_accounts e) = Z.of_nat (size (lg_entries (abs e)))) as Ht by (apply table_size, Oe).
  destruct (history_sequences _ _ _ _ Hh Hs0) as [_ Hall]; [lia|].
  destruct (core_replay e (concat bs) s Oe Pe) as (Hr&A&O&C&_); [lia|unfold window_of; by rewrite Ce|].
  destruct (core_history_wide _ _ _ _ Hh W HW) as [W' _]; [lia|].
  rewrite filter_all in Ho by (eapply Forall_impl; [exact Hall|]; cbn; lia).
  set (e' := apply_all e (concat bs)) in *.
  assert (zlen (e_accounts e') = Z.of_nat (size (lg_entries s))) as Ht' by (rewrite <- A; apply table_size, O).
  unfold OpenCore, classified, on_error, mkdir_all, mbind, io_bind, io_res. rewrite Hn, bool_decide_false by done.
  rewrite call_calm by done. unfold mret, io_ret. cbv beta iota. rewrite Hl. cbv beta iota. rewrite Ho. cbv beta iota. rewrite Hr. cbv beta iota.
  rewrite Ht'. eexists {| c_engine := e' |}, (reopened i bs f w). split; [exact A|].
  split; [|split; [by split; try done; intros j Hj; cbn; rewrite lookup_insert_ne|]; destruct (_ <? _); cbn [guard_err]; [unfold ignore, close_file; by destruct (wal_close_file _ _)|reflexivity]].
  split; cbn [c_engine c_wal c_closed c_poisoned]; try done.
  - split; cbn [c_engine]; [done|by rewrite A].
  - congruence.
  - rewrite A. apply (core_disk_same w); try done. intros j g Hj Hf _. cbn. by rewrite lookup_insert_ne.
  - eexists. cbn [reopened with_pos with_inodes w_inodes]. rewrite lookup_insert_eq. split; [done|]. by apply log_truncated.
Qed.

(** ** Batches *)

(** What a crash of [w] leaves is the database at a ledger that [s] leads to. *)
Definition crash_safe (w : world) (i : nat) (s : ledger) : Prop :=
  w_hist w = [] ∧ ∃ f, w_inodes w !! i = Some f ∧
  ∀ c, survives f c → ∃ bs s' rs, cut_log bs c ∧ core_disk w i bs s' ∧ core_history (DedupeWindow n) s rs s'.

Lemma crash_disk w w' i bs s : w_hist w = [] → crash w w' → core_disk w i bs s → core_disk w' i bs s.
Proof.
  intros Hh0 Hcr D. pose proof Hcr as (Hd&Hh&Hnx&Hi). rewrite Hh0 in Hd.
  apply (core_disk_same w); try done; [by destruct Hd as [?|?%not_elem_of_nil]|].
  intros j f Hj Hf Hp. destruct (crash_inode w w' j f Hcr Hf) as (c&Hc&->). apply survives_settled in Hc as ->; [|done].
  destruct f as [st pe]. cbn in Hp. by subst pe.
Qed.

Lemma live_crash_safe c w i bs : live true c w i bs → crash_safe w i (abs (c_engine c)).
Proof.
  intros [_ _ _ _ D Hh (f&Hf&Hl) _]. split; [by apply Hh|]. exists f. split; [done|]. intros d Hd. exists bs, (abs (c_engine c)), [].
  split; [by apply Hl|]. split; [done|constructor].
Qed.

Lemma live_room b c w i bs cs : live b c w i bs → e_sequence (c_engine c) + 2 * zlen cs < 2 ^ 32 → core_room c cs.
Proof.
  intros L Hs. pose proof (zlen_nonneg cs). destruct (cd_counted _ _ _ _ (lv_disk _ _ _ _ _ L)) as [C1 C2]. cbn [abs lg_sequence] in *.
  split; [|lia]. rewrite table_size by apply L. cbn [abs lg_entries] in *. lia.
Qed.

Lemma disk_changed w w' i bs s : file_changed i w w' → core_disk w i bs s → core_disk w' i bs s.
Proof.
  intros [F1 F2 F3 F4] D. apply (core_disk_same w); try done.
  intros j f Hj Hf _. by rewrite F4.
Qed.

(** The log after the frame of a decided batch. *)
Lemma live_append b c w i bs rs s' r w' :
  live b c w i bs → Forall record_wide rs → u32_range (zlen rs) →
  core_history (DedupeWindow n) (abs (c_engine c)) rs s' → e_sequence (c_engine c) + zlen rs < 2 ^ 32 →
  appendBatch (c_wal c) rs w = (r, w') →
  match r with
  | Ok wal => wf_file wal = Some i ∧ wf_mode wal = Durability n ∧ core_disk w' i (bs ++ [rs]) s'
      ∧ (b = true → w_hist w' = []) ∧ (∃ f, w_inodes w' !! i = Some f ∧ log_file b (bs ++ [rs]) f)
      ∧ w_pos w' = length (whole_log (bs ++ [rs]))
  | Err _ => b = true → crash_safe w' i (abs (c_engine c))
  end.
Proof.
  intros L HW Hu Hh Hs Ha. pose proof L as [[Oe We] Hc Hup [Hf Hm] D Hhist (f&Hi&Hl) Hp]. pose proof (wl_sequence _ We) as [H0 _].
  destruct (maxWALFrameBytes <? zlen (batch_payload rs)) eqn:Eb.
  { unfold appendBatch in Ha. rewrite bool_decide_false in Ha by congruence. rewrite Eb in Ha. injection Ha as <- <-. intros ->. by eapply live_crash_safe. }
  apply Z.ltb_ge in Eb. assert (frame_ok rs) as Hfr by done. pose proof (core_disk_batch _ _ _ _ _ _ D Hfr Hh H0 Hs) as D'.
  destruct (c_wal c) as [wf wm wst]. cbn in Hf, Hm. subst wf wm. assert (inode i w = f) as Ei by (unfold inode; by rewrite Hi).
  destruct (append_frame i (Durability n) wst rs w r w' Hmode Hfr Ha) as [Fc [(wal&->&W1&W2&Wi&Wp)|[[err ->] Wi]]].
  - split; [done|]. split; [done|]. split; [by apply (disk_changed w)|]. split; [by rewrite (fc_hist _ _ _ Fc)|]. rewrite Ei, Hp in Wi. split.
    + eexists. split; [exact Wi|]. by apply log_synced.
    + by rewrite Wp, Hp, whole_log_snoc, length_app.
  - intros ->. split; [rewrite (fc_hist _ _ _ Fc); by apply Hhist|]. destruct Wi as [Wi|[k Wi]].
    + exists f. split; [by rewrite Wi|]. intros d Hd. exists bs, (abs (c_engine c)), []. split; [by apply Hl|].
      split; [by apply (disk_changed w)|constructor].
    + rewrite Ei, Hp in Wi. eexists. split; [exact Wi|]. intros d Hd. destruct (log_part bs rs k f Hl Hfr d Hd) as [Hcut|Hcut].
      * exists bs, (abs (c_engine c)), []. split; [done|]. split; [by apply (disk_changed w)|constructor].
      * exists (bs ++ [rs]), s', rs. split; [done|]. split; [by apply (disk_changed w)|done].
Qed.

Lemma live_submit b c w i bs cs r c' w' :
  live b c w i bs → Forall command_wide cs → e_sequence (c_engine c) + 2 * zlen cs < 2 ^ 32 → SubmitBatch c cs w = (r, c', w') →
  (∃ bs' rs, live b c' w' i bs' ∧ core_history (DedupeWindow n) (abs (c_engine c)) rs (abs (c_engine c')))
  ∨ is_Some (c_poisoned c') ∧ (b = true → crash_safe w' i (abs (c_engine c))).
Proof.
  intros L Hw Hs H. destruct (wl_sequence _ (cg_wide _ (lv_good _ _ _ _ _ L))) as [Hs0 _]. cbn [abs lg_sequence] in Hs0. pose proof (live_room _ _ _ _ _ _ L Hs) as Hr. pose proof (lv_cfg _ _ _ _ _ L) as Hc. pose proof (zlen_nonneg cs).
  apply submit_cases in H as [(->&->&_)|(_&_&_&Hv&H)]; [left; exists bs, []; split; [done|constructor]|].
  destruct (engine_good_batch c cs (lv_good _ _ _ _ _ L) Hw Hr Hv) as (_&O&W&HW&Hh&Hcfg&_&Hz&_). cbv zeta in *.
  set (bt := decide_batch (c_engine c) cs) in *. unfold window_of in Hh. rewrite Hc in Hh. pose proof (zlen_nonneg (b_records bt)).
  destruct H as [(E&_&->&->)|[(wal&E&Ha&_&->)|(err&E&Ha&_&->)]].
  - rewrite E in O, W, Hh, Hcfg. left. exists bs, []. split; [|exact Hh].
    assert (abs (b_engine bt) = abs (c_engine c)) as Eabs by exact (core_history_foldl _ _ _ _ Hh).
    destruct L as [_ _ Hup Hwal D Hhist Hl Hp]. split; try done; cbn [set_engine c_engine].
    + etrans; [exact Hcfg|exact Hc].
    + by rewrite Eabs.
  - left. exists (bs ++ [b_records bt]), (b_records bt). split; [|exact Hh].
    eapply live_append in Ha as (W1&W2&D'&Hhist'&Hl'&Hp'); [|done|done|unfold u32_range; lia|exact Hh|lia].
    split; try done; cbn [set_walfile set_engine c_engine]; [congruence|]. apply (lv_up _ _ _ _ _ L).
  - right. split; [by eexists|]. by eapply live_append in Ha; [|done|done|unfold u32_range; lia|exact Hh|lia].
Qed.

(** ** Snapshots *)

(** A directory with the log [i] and the temporary file [k]. *)
Definition with_tmp (i k : nat) (F : file → Prop) (w : world) : Prop :=
  w_dir w !! wal_oct = Some i ∧ w_dir w !! snapshot_oct_tmp = Some k ∧ k ≠ i ∧ (i < w_next w)%nat
  ∧ ∃ f, w_inodes w !! k = Some f ∧ F f.

(** A directory with the log [i] and the snapshot [k], which holds [data]. *)
Definition installed (i k : nat) (data : bytes) (w : world) : Prop :=
  w_dir w !! wal_oct = Some i ∧ w_dir w !! snapshot_oct = Some k ∧ w_dir w !! snapshot_oct_tmp = None ∧ k ≠ i ∧ (i < w_next w)%nat
  ∧ w_inodes w !! k = Some {| stable := data; pending := [] |}.

Lemma oct_names : snapshot_oct_tmp ≠ wal_oct ∧ snapshot_oct ≠ wal_oct ∧ snapshot_oct_tmp ≠ snapshot_oct.
Proof. by vm_compute. Qed.

Lemma install_ok i k data :
  hoare (with_tmp i k (λ f, content f = []))
    (_ ← on_error (ignore (remove snapshot_oct_tmp)) (_ ← write_sync_close k data; rename snapshot_oct_tmp snapshot_oct); syncDirectory false)
    (λ _ w, installed i k data w ∧ w_hist w = []) (λ _, True).
Proof.
  destruct oct_names as (N1&N2&N3). eapply (hoare_bind _ _ _ (λ _, installed i k data)); [|intros []].
  - eapply (hoare_on_error _ _ _ _ (λ _, True)); [|by intros w _; destruct (ignore _ w) as [[]?]].
    eapply hoare_bind.
    { eapply hoare_conseq; [apply (write_sync_close_hoare k (with_tmp i k))|done|by intros ??|done].
      - intros F w l H. exact H.
      - intros F F' HF w (?&?&?&?&f&?&?). unfold with_tmp. eauto 10.
      - intros F F' g w (?&?&?&?&f&Hf&HF) Hg. split_and!; try done. exists (g (inode k w)). split; [by cbn; rewrite lookup_insert_eq|].
        apply Hg. unfold inode. by rewrite Hf. }
    intros []. apply hoare_call; [intros w l H; exact H|done|]. intros w (H1&H2&H3&H4&f&Hf&->). rewrite H2. unfold installed. cbn [with_dir w_dir w_next w_inodes].
    rewrite lookup_insert_ne, lookup_delete_ne, lookup_insert_eq, lookup_insert_ne, lookup_delete_eq by done. by split_and!.
  - apply (syncDirectory_hoare (installed i k data) (λ w, installed i k data w ∧ w_hist w = [])); try (intros w l H; exact H); [done|done|].
    intros w H. by split.
Qed.

Lemma install_snapshot_ok w i bs s data w' :
  core_disk w i bs s → install_snapshot false data w = (Ok tt, w') → ∃ k, installed i k data w' ∧ w_hist w' = [].
Proof.
  intros D H. destruct oct_names as (N1&N2&N3). unfold install_snapshot in H. apply io_bind_ok in H as (k&w1&Hc&H). exists k.
  assert (with_tmp i k (λ f, content f = []) w1) as HT.
  { unfold create_trunc, call in Hc. destruct (tick_faults w) as [l El]. destruct (tick w) as [ft w0] eqn:Et. cbn in El. subst w0.
    pose proof D as [D2 D3 _ _ _ D8]. destruct (w_dir w !! snapshot_oct_tmp) as [j|] eqn:Ej.
    - destruct (D8 j eq_refl) as [Hne _]. destruct ft; change (w_dir (with_faults l w)) with (w_dir w) in Hc; rewrite ?Ej in Hc; injection Hc as <- <- || discriminate Hc;
      (unfold with_tmp; cbn [with_inodes with_faults w_dir w_next]; split_and!; [exact D2|exact Ej|done|exact D3|]; eexists; cbn; rewrite lookup_insert_eq; split; [done|]; by rewrite content_modify).
    - destruct ft; change (w_dir (with_faults l w)) with (w_dir w) in Hc; rewrite ?Ej in Hc; injection Hc as <- <- || discriminate Hc;
      (split_and!; [by cbn; rewrite lookup_insert_ne|by cbn; rewrite lookup_insert_eq|lia|cbn; lia|];
       eexists; cbn; rewrite lookup_insert_eq; split; done). }
  pose proof (install_ok i k data w1 HT) as Hi. by rewrite H in Hi.
Qed.

(** The worlds that differ from [w0] in the log, which satisfies [F]. *)
Definition log_is (w0 : world) (i : nat) (F : file → Prop) (w : world) : Prop :=
  file_changed i w0 w ∧ ∃ f, w_inodes w !! i = Some f ∧ F f.

Lemma log_is_steady w0 i F : steady (log_is w0 i F).
Proof. intros w l [[] H]. split; [by split|done]. Qed.

Lemma log_is_update w0 i F (F' : file → Prop) g w :
  log_is w0 i F w → (∀ f, F f → F' (g f)) → log_is w0 i F' (with_inodes (<[i := g (inode i w)]> (w_inodes w)) w).
Proof.
  intros [[F1 F2 F3 F4] (f&Hf&HF)] Hg. split.
  - split; try done. intros j Hj. cbn. rewrite lookup_insert_ne by done. by apply F4.
  - exists (g (inode i w)). cbn. rewrite lookup_insert_eq. split; [done|]. apply Hg. unfold inode. by rewrite Hf.
Qed.

Lemma log_is_pos w0 i F p w : log_is w0 i F w → log_is w0 i F (with_pos p w).
Proof. by intros [[] H]. Qed.

Lemma reset_ok w0 i :
  hoare (file_changed i w0) (_ ← truncate i 0; _ ← seek 0; _ ← writeHeader i; _ ← sync_file i; seek_end i)
    (λ _ w, log_is w0 i (λ f, f = {| stable := wal_header; pending := [] |}) w ∧ w_pos w = length wal_header) (λ _, True).
Proof.
  eapply (hoare_bind _ _ _ (λ _, log_is w0 i (λ f, content f = []))).
  { apply hoare_call; [by intros w l []|done|]. intros w [F1 F2 F3 F4]. split.
    - split; try done. intros j Hj. cbn. rewrite lookup_insert_ne by done. by apply F4.
    - eexists. cbn [with_inodes w_inodes]. rewrite lookup_insert_eq. split; [done|]. by rewrite content_modify. }
  intros []. eapply (hoare_bind _ _ _ (λ _, log_is w0 i (λ f, content f = []))).
  { apply hoare_call; [apply log_is_steady|done|]. intros w H. by apply log_is_pos. }
  intros []. eapply (hoare_bind _ _ _ (λ _, log_is w0 i (λ f, content f = wal_header))).
  { eapply hoare_conseq; [apply (write_all_hoare i (log_is w0 i))|done|by intros ??|done].
    - intros G. apply log_is_steady.
    - intros G G' HG w [? (f&?&?)]. split; [done|]. eauto.
    - intros G G' g w H Hg. by eapply log_is_update. }
  intros []. eapply (hoare_bind _ _ _ (λ _, log_is w0 i (λ f, f = {| stable := wal_header; pending := [] |}))).
  { apply hoare_call; [apply log_is_steady|done|]. intros w H. eapply log_is_update; [exact H|]. by intros f <-. }
  intros []. apply hoare_call; [apply log_is_steady|done|]. intros w H. split; [by apply log_is_pos|].
  destruct H as [_ (f&Hf&->)]. unfold inode. rewrite Hf. reflexivity.
Qed.

Lemma reset_wal_ok wal i w wal' w' :
  wf_file wal = Some i → reset_wal wal w = (Ok tt, wal', w') →
  log_is w i (λ f, f = {| stable := wal_header; pending := [] |}) w' ∧ w_pos w' = length wal_header
  ∧ wf_file wal' = Some i ∧ wf_mode wal' = wf_mode wal.
Proof.
  intros Hw H. unfold reset_wal in H. rewrite Hw in H.
  pose proof (reset_ok w i w ltac:(by split)) as HQ. unfold mbind, io_bind in *.
  destruct (truncate i 0 w) as [[[]|?] w1]; [|done]. destruct (seek 0 w1) as [[[]|?] w2]; [|done].
  destruct (writeHeader i w2) as [[[]|?] w3]; [|done].
  destruct (sync_file i w3) as [[[]|?] w4]; [|done]. destruct (seek_end i w4) as [[[]|?] w5]; [|done].
  injection H as <- <-. destruct HQ. done.
Qed.

(** A successful snapshot synchronizes the directory: the database is anchored
    from then on. *)
Lemma live_snapshot b c w i bs c' w' :
  live b c w i bs → zlen (snapshot_payload (c_engine c)) < 2 ^ 63 → SnapshotCore false c w = (Ok tt, c', w') →
  live true c' w' i [] ∧ abs (c_engine c') = abs (c_engine c)
  ∧ ∃ w1, install_snapshot false (encodeSnapshot (c_engine c)) w = (Ok tt, w1) ∧ file_changed i w1 w'.
Proof.
  intros [[Oe We] Hc Hup [Hf Hm] D _ (f&Hi&Hl) Hp] Hz H. unfold SnapshotCore in H. rewrite Hc, !bool_decide_false in H by done. cbn [orb] in H.
  destruct (install_snapshot false (encodeSnapshot (c_engine c)) w) as [[[]|?] w1] eqn:E; [|done].
  destruct (install_snapshot_ok _ _ _ _ _ _ D E) as (k&(I1&I2&I3&I4&I5&I6)&Ih).
  destruct (reset_wal (c_wal c) w1) as [[[[]|?] wal] w2] eqn:Er; [|done]. injection H as <- <-.
  destruct (reset_wal_ok _ _ _ _ _ Hf Er) as ([[F1 F2 F3 F4] (g&Hg&->)]&Rp&Rf&Rm). split; [|split; [done|by exists w1]].
  assert (whole_log [] = wal_header) as Ew by apply app_nil_r.
  split; cbn [c_engine c_wal c_closed c_poisoned count_snapshot wf_file wf_mode].
  - by split.
  - exact Hc.
  - exact Hup.
  - split; [exact Rf|congruence].
  - split; rewrite ?F1, ?F3; [exact I1|exact I5| |constructor|apply D|by rewrite I3].
    exists (abs (c_engine c)). split; [|split; [constructor|unfold zlen; cbn; lia]].
    unfold base_at. rewrite F1, I2. split; [exact I4|]. exists (c_engine c). rewrite F4 by exact I4. split; [exact I6|].
    split; [|reflexivity]. split; [exact Oe|exact We|unfold window_of; by rewrite Hc|apply D|exact Hz].
  - by rewrite F2.
  - eexists. split; [exact Hg|]. split; [by rewrite Ew|]. intros _ d Hd. apply survives_settled in Hd as ->; [|done].
    cbn [stable]. rewrite <- Ew. apply cut_whole.
  - by rewrite Rp, Ew.
Qed.


(** ** A new directory *)

(** No log, no snapshot and no temporary file of one. *)
Definition new_directory (w : world) : Prop :=
  w_dir w !! wal_oct = None ∧ w_dir w !! snapshot_oct = None ∧ w_dir w !! snapshot_oct_tmp = None.

(** A call in the middle of [openWAL], whose error closes the file. *)
Lemma hoare_closing {A} P (m : io A) Q : hoare P m Q (λ _, True) → hoare P (on_error (ignore close_file) m) Q (λ _, True).
Proof. intros H. eapply hoare_on_error; [exact H|]. by intros w _; destruct (ignore _ w) as [[]?]. Qed.

Lemma hoare_fact {A} (φ : Prop) P (m : io A) Q E : (φ → hoare P m Q E) → hoare (λ w, φ ∧ P w) m Q E.
Proof. intros H w [Hφ HP]. by apply H. Qed.

Lemma log_value {A} name w0 i c (G : file → A) (v : A) :
  (∀ f, content f = c → G f = v) →
  hoare (log_is w0 i (λ f, content f = c)) (call name (λ w, (Ok (G (inode i w)), w)))
    (λ a w, a = v ∧ log_is w0 i (λ f, content f = c) w) (λ _, True).
Proof.
  intros HG. apply hoare_call; [apply log_is_steady|done|]. intros w [Hc (f&Hf&HF)]. split; [|split; eauto].
  unfold inode. rewrite Hf. by apply HG.
Qed.

Lemma log_header w0 i :
  hoare (log_is w0 i (λ f, content f = [])) (writeHeader i) (λ _, log_is w0 i (λ f, content f = wal_header)) (λ _, True).
Proof.
  eapply hoare_conseq; [apply (write_all_hoare i (log_is w0 i))|done|by intros ??|done].
  - intros G. apply log_is_steady.
  - intros G G' HG w [? (f&?&?)]. split; [done|]. eauto.
  - intros G G' g w H Hg. by eapply log_is_update.
Qed.

(** What [openWAL] returns for a log it has created: the header, and the handle
    behind it. *)
Definition new_log (w0 : world) (i : nat) (v : walFile * list walRecord * Z) (w : world) : Prop :=
  v.1.2 = [] ∧ wf_file v.1.1 = Some i ∧ wf_mode v.1.1 = Durability n ∧ w_pos w = length wal_header
  ∧ log_is w0 i (λ f, content f = wal_header) w.

Lemma scan_header after : scanWAL wal_header after = Ok ([], length wal_header).
Proof.
  destruct (cut_log_scan [] wal_header after) as [Hs _]; [apply Forall_nil_2|replace wal_header with (whole_log []) by apply app_nil_r; apply cut_whole|].
  rewrite Hs. unfold whole_log, batch_frames. cbn [map concat]. by rewrite app_nil_r.
Qed.

Lemma open_new_log w after r w' :
  w_dir w !! wal_oct = None → openWAL (StorageDir n) (Durability n) after w = (Ok r, w') →
  new_log (fresh wal_oct w).2 (w_next w) r w'.
Proof.
  intros Hnone H. unfold openWAL in H. rewrite !bool_decide_false in H by done.
  apply io_bind_ok in H as (i&w1&H1&H). set (w0 := (fresh wal_oct w).2).
  assert (i = w_next w ∧ log_is w0 i (λ f, content f = []) w1) as [-> Hw1].
  { unfold open_rw, call in H1. destruct (tick_faults w) as [l El]. destruct (tick w) as [ft wt] eqn:Et. cbn in El. subst wt.
    destruct ft; try discriminate H1; change (w_dir (with_faults l w)) with (w_dir w) in H1; rewrite Hnone in H1; injection H1 as <- <-;
      (split; [done|]; split; [by split; try done; intros j Hj; cbn; rewrite !lookup_insert_ne|]; eexists; cbn; by rewrite lookup_insert_eq). }
  set (i := w_next w) in *. revert H. match goal with |- ?m w1 = _ → _ =>
    assert (hoare (log_is w0 i (λ f, content f = [])) m (new_log w0 i) (λ _, True)) as Hm end.
  2:{ intros E. specialize (Hm w1 Hw1). by rewrite E in Hm. }
  clear H1 Hw1 w1. eapply hoare_bind; [apply hoare_closing, (log_value _ _ _ _ (λ f, length (content f)) 0%nat); by intros f ->|].
  intros size. cbv beta. apply hoare_fact. intros ->. cbn [Nat.eqb].
  eapply (hoare_bind _ _ _ (λ x w, (wf_file x = Some i ∧ wf_mode x = Durability n) ∧ log_is w0 i (λ f, content f = wal_header) w)).
  { eapply hoare_bind; [apply hoare_closing, log_header|intros []; by intros v Hv]. }
  intros x. cbv beta. apply hoare_fact. intros Hx.
  eapply hoare_bind; [apply hoare_closing, (log_value _ _ _ _ content wal_header); done|].
  intros data. cbv beta. apply hoare_fact. intros ->. rewrite scan_header.
  eapply (hoare_bind _ _ _ (λ v w, v = ([], length wal_header) ∧ log_is w0 i (λ f, content f = wal_header) w)).
  { apply hoare_closing. by intros v Hv. }
  intros [recs valid]. cbv beta. apply hoare_fact. intros [= -> ->].
  eapply (hoare_bind _ _ _ (λ _, log_is w0 i (λ f, content f = wal_header))).
  { apply hoare_closing, hoare_call; [apply log_is_steady|done|]. intros v Hv. eapply log_is_update; [exact Hv|].
    intros g Hg. rewrite content_modify, Hg. cbn [apply_mod]. by rewrite firstn_all, Nat.sub_diag, app_nil_r. }
  intros []. eapply (hoare_bind _ _ _ (λ _ w, w_pos w = length wal_header ∧ log_is w0 i (λ f, content f = wal_header) w)).
  { apply hoare_closing, hoare_call; [apply log_is_steady|done|]. intros v Hv. split; [|by apply log_is_pos].
    destruct Hv as [_ (g&Hg&Eg)]. cbn [with_pos w_pos]. unfold inode. rewrite Hg. cbn [default id]. by rewrite Eg. }
  intros []. intros v [Hp Hv]. by destruct Hx.
Qed.

(** Opening a new directory, under any faults: the ledger is empty, and the log
    is not anchored. *)
Lemma open_new w c w' :
  new_directory w → OpenCore cfg w = (Ok c, w') →
  live false c w' (w_next w) [] ∧ abs (c_engine c) = abs (new_engine n) ∧ file_changed (w_next w) (fresh wal_oct w).2 w'.
Proof.
  intros (N1&N2&N3) H. destruct oct_names as (M1&M2&M3). unfold OpenCore in H.
  apply io_bind_ok in H as (n'&w1&H1&H). unfold io_res in H1. rewrite Hn in H1. injection H1 as <- <-.
  rewrite bool_decide_false in H by done. apply io_bind_ok in H as ([[e z1] z2]&w1&H1&H).
  apply io_bind_ok in H1 as ([]&w2&H2&H1).
  assert (∃ l, w2 = with_faults l w) as [l ->].
  { unfold mkdir_all, call in H2. destruct (tick_faults w) as [l El]. destruct (tick w) as [[] wt]; cbn in El; subst wt; try discriminate H2; injection H2 as <-; eauto. }
  unfold classified, loadSnapshot, attempt, read_file, mbind, io_bind in H1. change (w_dir (with_faults l w)) with (w_dir w) in H1.
  rewrite N2 in H1. injection H1 as <- <- <- <-.
  apply io_bind_ok in H as ([[wal records] z]&w3&H3&H). unfold classified in H3.
  destruct (openWAL _ _ _ _) as [[r|err] w4] eqn:Eo; [|done]. injection H3 as -> ->.
  apply open_new_log in Eo as (E1&E2&E3&Ep&[[F1 F2 F3 F4] (f&Hf&Hc)]); [|done]. cbn [fst snd] in E1, E2, E3. subst records.
  cbn [res_fold] in H. unfold mbind, io_bind, on_error, io_res, guard_err, mret, io_ret in H.
  destruct (CoreEngine.MaxAccounts n <? _); [discriminate H|]. injection H as <- <-. destruct (new_engine_ok n) as [O1 O2]; [lia|].
  split; [|split; [reflexivity|by split]]. assert (whole_log [] = wal_header) as Ew by apply app_nil_r.
  split; cbn [c_engine c_wal c_closed c_poisoned].
  - split; [exact O1|apply new_ledger_wide].
  - reflexivity.
  - by split.
  - by split.
  - split; rewrite ?F1, ?F3; cbn [fresh snd w_dir w_next with_faults].
    + by rewrite lookup_insert_eq.
    + lia.
    + exists (abs (new_engine n)). split; [|split; [constructor|by unfold zlen; cbn]].
      unfold base_at. rewrite F1. cbn [fresh snd w_dir with_faults]. by rewrite lookup_insert_ne, N2.
    + constructor.
    + by apply (base_wide (Build_world ∅ [] ∅ 0 0 []) 0).
    + intros j. by rewrite lookup_insert_ne, N3.
  - discriminate.
  - exists f. split; [exact Hf|]. split; [by rewrite Ew|discriminate].
  - by rewrite Ew.
Qed.

(** ** Runs *)

(** The operations that lead from one state to a later one; the first component
    says whether the log is anchored.  Batches run under any faults; a snapshot
    of a healthy engine that succeeds anchors the log; a healthy engine can be
    closed and the directory opened again; a crash can come at any time once the
    log is anchored, and the directory is then opened again. *)
Inductive core_run (b0 : bool) (c0 : Core) (w0 : world) : bool → Core → world → Prop :=
| run_start : core_run b0 c0 w0 b0 c0 w0
| run_submit b c w cs r c' w' :
    core_run b0 c0 w0 b c w → Forall command_wide cs → e_sequence (c_engine c) + 2 * zlen cs < 2 ^ 32 →
    SubmitBatch c cs w = (r, c', w') → core_run b0 c0 w0 b c' w'
| run_snapshot b c w c' w' :
    core_run b0 c0 w0 b c w → c_poisoned c = None → zlen (snapshot_payload (c_engine c)) < 2 ^ 63 →
    SnapshotCore false c w = (Ok tt, c', w') → core_run b0 c0 w0 true c' w'
| run_restart b c w r c1 w1 c' w' :
    core_run b0 c0 w0 b c w → c_poisoned c = None → CloseCore c w = (r, c1, w1) → calm w1 →
    OpenCore cfg w1 = (Ok c', w') → core_run b0 c0 w0 b c' w'
| run_crash c w w1 c' w' :
    core_run b0 c0 w0 true c w → crash w w1 → calm w1 → OpenCore cfg w1 = (Ok c', w') → core_run b0 c0 w0 true c' w'
| run_faults b c w l : core_run b0 c0 w0 b c w → core_run b0 c0 w0 b c (with_faults l w).

(** Up, or poisoned with the disk in a state a crash can recover from if the
    log is anchored. *)
Definition run_ok (b : bool) (s0 : ledger) (c : Core) (w : world) : Prop :=
  (∃ i bs rs, live b c w i bs ∧ core_history (DedupeWindow n) s0 rs (abs (c_engine c)))
  ∨ is_Some (c_poisoned c) ∧ (b = true → ∃ i s rs, crash_safe w i s ∧ core_history (DedupeWindow n) s0 rs s).

Lemma crash_safe_open w w1 i s :
  crash_safe w i s → crash w w1 → calm w1 →
  ∃ s' rs core w' bs, core_history (DedupeWindow n) s rs s' ∧ abs (c_engine core) = s' ∧ live true core w' i bs ∧ file_changed i w1 w'
    ∧ if CoreEngine.MaxAccounts n <? Z.of_nat (size (lg_entries s')) then is_ok (OpenCore cfg w1).1 = false else OpenCore cfg w1 = (Ok core, w').
Proof.
  intros (Hh&f&Hf&Hs) Hcr Hc. destruct (crash_inode w w1 i f Hcr Hf) as (d&Hd&Hi). destruct (Hs d Hd) as (bs&s'&rs&Hcut&D&Hst).
  destruct (open_disk true w1 i bs s' {| stable := d; pending := [] |} Hc) as (core&w'&A&L&Fc&O); [by intros _; destruct Hcr as (_&?&_)|by apply (crash_disk w)|done|by apply found_settled|].
  by exists s', rs, core, w', bs.
Qed.

Lemma core_live_faults b c w i bs l : live b c w i bs → live b c (with_faults l w) i bs.
Proof. intros [H1 H2 H3 H4 D H6 H7 H8]. split; try done. by apply (core_disk_same w). Qed.

Lemma crash_safe_faults w i s l : crash_safe w i s → crash_safe (with_faults l w) i s.
Proof.
  intros [Hh (f&Hf&H)]. split; [done|]. exists f. split; [done|]. intros d Hd. destruct (H d Hd) as (bs&s'&rs&?&D&?).
  exists bs, s', rs. split; [done|]. split; [|done]. by apply (core_disk_same w).
Qed.

(** Closing a healthy engine and opening its directory again. *)
Lemma live_restart b c w i bs r c1 w1 c' w' :
  live b c w i bs → CloseCore c w = (r, c1, w1) → calm w1 → OpenCore cfg w1 = (Ok c', w') →
  live b c' w' i bs ∧ abs (c_engine c') = abs (c_engine c) ∧ file_changed i w1 w' ∧ ∃ l, w1 = with_faults l w.
Proof.
  intros L Hcl Hc Ho. assert (∃ l, w1 = with_faults l w) as [l ->].
  { unfold CloseCore, wal_close_file in Hcl. rewrite (proj1 (lv_up _ _ _ _ _ L)), (proj1 (lv_wal _ _ _ _ _ L)) in Hcl.
    unfold close_file, call in Hcl. destruct (tick_faults w) as [l El]. destruct (tick w) as [[] wt]; cbn in El; subst wt; injection Hcl as _ _ <-; eauto. }
  destruct (core_live_faults _ _ _ _ _ l L) as [_ _ _ _ D Hh (f&Hf&Hl) _].
  destruct (open_disk b _ i bs _ f Hc Hh D Hf (found_whole _ _ _ Hl)) as (core&w2&A&L'&Fc&O).
  rewrite Ho in O. destruct (_ <? _); [done|]. injection O as <- <-. eauto.
Qed.

Lemma run_safe s0 c w : run_ok true s0 c w → ∃ i s rs, crash_safe w i s ∧ core_history (DedupeWindow n) s0 rs s
  ∧ (c_poisoned c = None → s = abs (c_engine c) ∧ ∃ bs, live true c w i bs).
Proof.
  intros [(i&bs&rs&L&Hh)|[Hp H]].
  - exists i, (abs (c_engine c)), rs. split; [by eapply live_crash_safe|]. split; [done|]. eauto.
  - destruct (H eq_refl) as (i&s&rs&Hs&Hh). exists i, s, rs. split; [done|]. split; [done|]. intros E. rewrite E in Hp. by destruct Hp.
Qed.

Lemma run_invariant b0 c0 w0 b c w :
  (∃ i bs, live b0 c0 w0 i bs) → core_run b0 c0 w0 b c w → run_ok b (abs (c_engine c0)) c w.
Proof.
  intros (i0&bs0&L0). induction 1 as [|b c w cs r c' w' _ IH Hw Hs H|b c w c' w' _ IH Hp Hz H|b c w r c1 w1 c' w' _ IH Hp Hcl Hc Ho|c w w1 c' w' _ IH Hcr Hc H|b c w l _ IH].
  - left. exists i0, bs0, []. split; [done|constructor].
  - destruct IH as [(i&bs&rs&L&Hh)|[Hp Hsafe]].
    + destruct (live_submit _ _ _ _ _ _ _ _ _ L Hw Hs H) as [(bs'&rs'&L'&Hh')|[Hp Hs']].
      * left. exists i, bs', (rs ++ rs'). split; [done|]. by eapply core_history_app.
      * right. split; [done|]. intros Hb. exists i, (abs (c_engine c)), rs. split; [by apply Hs'|done].
    + destruct Hp as [e He]. unfold SubmitBatch in H. rewrite He in H. assert (c' = c ∧ w' = w) as [-> ->] by (destruct (c_closed c); by simplify_eq).
      right. split; [by exists e|done].
  - destruct IH as [(i&bs&rs&L&Hh)|[[e He] _]]; [|congruence]. destruct (live_snapshot _ _ _ _ _ _ _ L Hz H) as (L'&E&_).
    left. exists i, [], rs. split; [done|]. by rewrite E.
  - destruct IH as [(i&bs&rs&L&Hh)|[[e He] _]]; [|congruence]. destruct (live_restart _ _ _ _ _ _ _ _ _ _ L Hcl Hc Ho) as (L'&E&_).
    left. exists i, bs, rs. split; [done|]. by rewrite E.
  - destruct (run_safe _ _ _ IH) as (i&s&rs&Hs&Hh&_). destruct (crash_safe_open _ _ _ _ Hs Hcr Hc) as (s'&rs'&core&w2&bs&Hh'&A&L&_&O).
    rewrite H in O. destruct (_ <? _); [done|]. injection O as -> ->. left. exists i, bs, (rs ++ rs'). split; [done|]. rewrite A. by eapply core_history_app.
  - destruct IH as [(i&bs&rs&L&Hh)|[Hp Hsafe]].
    + left. exists i, bs, rs. split; [by apply core_live_faults|done].
    + right. split; [done|]. intros Hb. destruct (Hsafe Hb) as (i&s&rs&Hs'&Hh). exists i, s, rs. split; [by apply crash_safe_faults|done].
Qed.

(** The states of a run that starts in a new directory. *)
Lemma run_from_new w0 c0 w1 b c w :
  new_directory w0 → OpenCore cfg w0 = (Ok c0, w1) → core_run false c0 w1 b c w → c_poisoned c = None → ∃ i bs, live b c w i bs.
Proof.
  intros Hd Ho Hr Hp. destruct (open_new w0 c0 w1 Hd Ho) as [L _].
  destruct (run_invariant _ _ _ _ _ _ (ex_intro _ _ (ex_intro _ _ L)) Hr) as [(i&bs&rs&L'&_)|[[e He] _]]; [eauto|congruence].
Qed.

Lemma run_recovers b c w c' w' w1 :
  (∃ i bs, live b c w i bs) → core_run b c w true c' w' → crash w' w1 → calm w1 →
  ∃ s rs core w2 i bs,
    core_history (DedupeWindow n) (abs (c_engine c)) rs s ∧ (c_poisoned c' = None → s = abs (c_engine c'))
    ∧ abs (c_engine core) = s ∧ live true core w2 i bs
    ∧ if CoreEngine.MaxAccounts n <? Z.of_nat (size (lg_entries s)) then is_ok (OpenCore cfg w1).1 = false else OpenCore cfg w1 = (Ok core, w2).
Proof.
  intros L Hr Hcr Hc. destruct (run_safe _ _ _ (run_invariant _ _ _ _ _ _ L Hr)) as (j&s&rs&Hs&Hh&Hp). destruct (c_poisoned c') as [e|] eqn:Ep.
  - destruct (crash_safe_open _ _ _ _ Hs Hcr Hc) as (s'&rs'&core&w2&bs'&Hh'&A&L'&_&O).
    exists s', (rs ++ rs'), core, w2, j, bs'. split; [by eapply core_history_app|]. by split_and!.
  - destruct (Hp eq_refl) as [-> [bs1 L1]]. pose proof L1 as [_ _ _ _ D Hh1 (f&Hf&Hl) _].
    destruct (crash_inode w' w1 j f Hcr Hf) as (d&Hsv&Hi).
    destruct (open_disk true w1 j bs1 (abs (c_engine c')) {| stable := d; pending := [] |} Hc) as (core&w2&A&L'&_&O).
    + intros _. by destruct Hcr as (_&?&_).
    + by apply (crash_disk w'); [apply Hh1| |].
    + exact Hi.
    + apply found_settled. by apply Hl.
    + exists (abs (c_engine c')), rs, core, w2, j, bs1. by split_and!.
Qed.
End durable.

(** C16: What the account engine acknowledged survives.  With a
    configuration that stores batches and remembers fewer than 2^32 results, the
    database is opened in a directory without a log or a snapshot, under any I/O faults,
    and used: batches of commands with values of their Go types, their sequence
    numbers below 2^32, under any faults; snapshots of a healthy engine that
    succeed; closing a healthy engine and opening it again; and, once a snapshot
    has synchronized the directory, crashes at any time, after which the database
    is opened again.  Take any moment [(c, w)] at which it is healthy, for
    instance after an acknowledged batch; let it go on in the same way; and let
    it crash at the end, after a snapshot at some time before.  Then the disk holds a
    ledger that is reached from the one of that moment by further decisions only,
    and it is exactly the ledger in memory unless a failed write has poisoned the
    engine.  Opening without faults succeeds, with that ledger and healthy, if and
    only if the ledger has at most [MaxAccounts] entries.  The three things left
    out are not survived: [new_wal_entry_lost] is a crash before the first
    snapshot, [poisoned_snapshot_keeps_failed_batch] a snapshot of a poisoned
    engine, [failed_reset_loses_the_log] a snapshot that fails. *)
Theorem core_durable cfg n w0 c0 w1 b c w c' w' w2 :
  normalize_config cfg = Ok n → Durability n ≠ MemoryOnly → StorageDir n ≠ [] → 0 < DedupeWindow n < 2 ^ 32 →
  new_directory w0 → OpenCore cfg w0 = (Ok c0, w1) →
  core_run cfg false c0 w1 b c w → c_poisoned c = None →
  core_run cfg b c w true c' w' → crash w' w2 → calm w2 →
  ∃ s rs,
    core_history (DedupeWindow n) (abs (c_engine c)) rs s
    ∧ (c_poisoned c' = None → s = abs (c_engine c'))
    ∧ if CoreEngine.MaxAccounts n <? Z.of_nat (size (lg_entries s)) then is_ok (OpenCore cfg w2).1 = false
      else ∃ core w3, OpenCore cfg w2 = (Ok core, w3) ∧ abs (c_engine core) = s ∧ c_closed core = false ∧ c_poisoned core = None.
Proof.
  intros Hn Hm Hd Hw Hnew Ho Hr1 Hp Hr2 Hcr Hc.
  pose proof (run_from_new cfg n Hn Hm Hd Hw _ _ _ _ _ _ Hnew Ho Hr1 Hp) as L.
  destruct (run_recovers cfg n Hn Hm Hd Hw _ _ _ _ _ _ L Hr2 Hcr Hc) as (s&rs&core&w3&i&bs&Hh&Hs&A&L'&O).
  exists s, rs. split; [done|]. split; [done|]. destruct (_ <? _); [done|]. exists core, w3. split; [done|]. split; [done|]. apply L'.
Qed.

(** ** A run *)

Definition disk_config : CoreConfig := durable_config 100.

(** The crash that keeps everything written. *)
Definition kept (w : world) : world :=
  {| w_dir := w_dir w; w_hist := []; w_inodes := settle <$> w_inodes w; w_next := w_next w; w_pos := 0; w_faults := [] |}.

Lemma kept_crash w : crash w (kept w).
Proof.
  split; [by left|]. split; [done|]. split; [done|]. intros i. cbn. rewrite lookup_fmap. destruct (w_inodes w !! i) as [f|]; [|done].
  exists (content f). split; [|done]. exists (pending f), []. rewrite app_nil_r. auto.
Qed.

Definition started : Core * world :=
  match OpenCore disk_config blank_disk_world with
  | (Ok c, w) => (c, w)
  | (Err _, w) => (sample_core, w)
  end.

Lemma started_opened : new_directory blank_disk_world ∧ OpenCore disk_config blank_disk_world = (Ok started.1, started.2).
Proof.
  split; [by split_and!|]. assert (is_ok (OpenCore disk_config blank_disk_world).1 = true) as H by (vm_compute; reflexivity).
  unfold started. by destruct (OpenCore disk_config blank_disk_world) as [[c|e] w].
Qed.

Definition step_batch (s : Core * world) (cs : list Command) : Core * world :=
  let '(_, c, w) := SubmitBatch s.1 cs s.2 in (c, w).
Definition step_snapshot (s : Core * world) : Core * world := let '(_, c, w) := SnapshotCore false s.1 s.2 in (c, w).

(** A batch, a snapshot, and another batch. *)
Definition first_state : Core * world := step_batch started sample_batch.
Definition snapshot_state : Core * world := step_snapshot first_state.
Definition last_state : Core * world := step_batch snapshot_state second_batch.

Lemma step_batch_run cfg b0 c w b s cs :
  core_run cfg b0 c w b s.1 s.2 → Forall command_wide cs → e_sequence (c_engine s.1) + 2 * zlen cs < 2 ^ 32 →
  core_run cfg b0 c w b (step_batch s cs).1 (step_batch s cs).2.
Proof.
  intros Hr Hw Hs. unfold step_batch. destruct (SubmitBatch s.1 cs s.2) as [[r c'] w'] eqn:E. by apply (run_submit _ _ _ _ b s.1 s.2 cs r).
Qed.

Lemma step_snapshot_run cfg b0 c w b s :
  core_run cfg b0 c w b s.1 s.2 → c_poisoned s.1 = None → zlen (snapshot_payload (c_engine s.1)) < 2 ^ 63 →
  (SnapshotCore false s.1 s.2).1.1 = Ok tt → core_run cfg b0 c w true (step_snapshot s).1 (step_snapshot s).2.
Proof.
  intros Hr Hp Hz Hok. unfold step_snapshot. destruct (SnapshotCore false s.1 s.2) as [[r c'] w'] eqn:E. cbn [fst snd] in *. subst r.
  by apply (run_snapshot _ _ _ _ b s.1 s.2).
Qed.

Lemma states_small :
  e_sequence (c_engine started.1) + 2 * zlen sample_batch < 2 ^ 32 ∧ c_poisoned first_state.1 = None
  ∧ zlen (snapshot_payload (c_engine first_state.1)) < 2 ^ 63 ∧ (SnapshotCore false first_state.1 first_state.2).1.1 = Ok tt
  ∧ e_sequence (c_engine snapshot_state.1) + 2 * zlen second_batch < 2 ^ 32.
Proof. repeat split; vm_compute; reflexivity. Qed.

Lemma first_run : core_run disk_config false started.1 started.2 false first_state.1 first_state.2.
Proof.
  pose proof sample_wide as HW. apply Forall_app in HW as [HW1 _]. destruct states_small as (S1&_).
  exact (step_batch_run _ _ _ _ _ started _ (run_start _ _ _ _) HW1 S1).
Qed.

Lemma last_run : core_run disk_config false first_state.1 first_state.2 true last_state.1 last_state.2.
Proof.
  pose proof sample_wide as HW. apply Forall_app in HW as [_ HW2]. destruct states_small as (S1&S2&S3&S4&S5).
  exact (step_batch_run _ _ _ _ _ snapshot_state _ (step_snapshot_run _ _ _ _ _ first_state (run_start _ _ _ _) S2 S3 S4) HW2 S5).
Qed.

Lemma last_size :
  c_poisoned last_state.1 = None ∧ (CoreEngine.MaxAccounts disk_config <? Z.of_nat (size (lg_entries (abs (c_engine last_state.1))))) = false.
Proof. split; vm_compute; reflexivity. Qed.

Lemma core_durable_witness :
  ∃ core w3, OpenCore disk_config (kept last_state.2) = (Ok core, w3) ∧ abs (c_engine core) = abs (c_engine last_state.1)
    ∧ c_closed core = false ∧ c_poisoned core = None.
Proof.
  destruct (core_durable disk_config disk_config blank_disk_world started.1 started.2 false first_state.1 first_state.2
    last_state.1 last_state.2 (kept last_state.2)) as (s&rs&_&Hs&O).
  - reflexivity.
  - discriminate.
  - discriminate.
  - split; vm_compute; reflexivity.
  - apply started_opened.
  - apply started_opened.
  - exact first_run.
  - apply states_small.
  - exact last_run.
  - apply kept_crash.
  - reflexivity.
  - rewrite (Hs (proj1 last_size)), (proj2 last_size) in O. exact O.
Defined.

(** ** Before the first snapshot *)

(** [openWAL] creates the log and nothing synchronizes the directory before the
    first snapshot: a batch that was acknowledged, its frame synchronized, is
    lost with the entry of the file. *)
Theorem new_wal_entry_lost :
  match (SubmitBatch started.1 sample_batch started.2).1.1 with
  | Ok results => map rt_CommandID results = map cm_ID sample_batch
  | Err _ => False
  end
  ∧ crash first_state.2 (lost first_state.2)
  ∧ match OpenCore disk_config (lost first_state.2) with
    | (Ok c, _) => results_of (c_engine c) = [] ∧ SortedAccounts c = []
    | (Err _, _) => False
    end.
Proof. split_and!; [vm_compute; reflexivity|apply lost_crash|vm_compute; done]. Qed.
