(* ===== verification/OctetDB.v ===== *)
(** * The public account database ([octetdb.go])

    The exported types, the FORMAT marker, the admission token and the
    operations of a [DB] over the account engine of [Core.v].  The token makes
    every operation run alone; a handle is a [DB] value threaded through the
    calls, and the methods are those of a non-nil handle. *)

From Stdlib Require Import ZArith Lia Strings.Byte Strings.String.
From stdpp Require Import base decidable countable list gmap.
From S2P Require Import Prelude GoText GoBinary Errors GoOS KeyedStorage KeyedCommit CoreTypes CoreEngine CoreWal CoreSnapshot Core.

Local Open Scope Z_scope.
Local Open Scope go_scope.

Definition FormatVersion : Z := 1.
Definition formatContents : bytes :=
  bs "OCTETDB" ++ [x0a] ++ bs "format=1" ++ [x0a] ++ bs "model=accounts-v1" ++ [x0a] ++ bs "engine=safe-go"
  ++ [x0a] ++ bs "oct-revision=309da01b60ec0f7917d4fd5efd1707bd71d2d40f" ++ [x0a].

(** ** The exported types *)

(** [CommandKind]: an unsigned byte. *)
Definition Create : Z := 1.
Definition Deposit : Z := 2.
Definition Withdraw : Z := 3.
Definition Transfer : Z := 4.
Definition Freeze : Z := 5.
Definition Unfreeze : Z := 6.
Definition BeginTransfer : Z := 7.
Definition Confirm : Z := 8.
Definition Cancel : Z := 9.

Record Command := { ID : bytes; Kind : Z; AccountID : Z; OtherAccountID : Z; Amount : Z }.

Definition ReasonApplied : bytes := bs "applied".
Definition ReasonAwaitingConfirmation : bytes := bs "awaiting_confirmation".
Definition ReasonCancelled : bytes := bs "cancelled".
Definition ReasonInvalidAmount : bytes := bs "invalid_amount".
Definition ReasonAccountMissing : bytes := bs "account_missing".
Definition ReasonAccountExists : bytes := bs "account_exists".
Definition ReasonAccountFrozen : bytes := bs "account_frozen".
Definition ReasonInsufficientFunds : bytes := bs "insufficient_funds".
Definition ReasonInvalidWorkflow : bytes := bs "invalid_workflow".

Record Result := {
  Sequence : Z; CommandID : bytes; Accepted : bool; Reason : bytes; Duplicate : bool }.
Definition zeroResult : Result :=
  {| Sequence := 0; CommandID := []; Accepted := false; Reason := []; Duplicate := false |}.

Record Account := { pa_ID : Z; Balance : Z; Frozen : bool; Version : Z }.

Record Options := { Path : bytes; MaxAccounts : Z; DedupeHorizon : Z; BatchMax : Z }.

Record Stats := {
  ps_CommittedSequence : Z; ps_WALBytesWritten : Z; ps_SnapshotSequence : Z; ps_DedupeEntries : Z;
  ps_AccountCount : Z }.

(** An open handle; the admission token is free between operations. *)
Record DB := { db_core : Core; db_is_closed : bool }.

(** ** Conversions *)

Definition convertCommand (command : Command) : res gerror CoreTypes.Command :=
  fail_if bool_decide (ID command = []) || (AccountID command =? 0)
    with err_new ErrorInvalidInput "submit" "command ID and AccountID are required";
  fail_if (2 ^ 63 - 1 <? Amount command) || (Amount command <? - (2 ^ 63 - 1) - 1)
    with err_new ErrorInvalidInput "submit" "amount is outside the platform integer range";
  let kinds : gmap Z Z := list_to_map
    [(Create, CoreTypes.Create); (Deposit, CoreTypes.Deposit); (Withdraw, CoreTypes.Withdraw);
     (Transfer, CoreTypes.Transfer); (Freeze, CoreTypes.Freeze); (Unfreeze, CoreTypes.Unfreeze);
     (BeginTransfer, CoreTypes.BeginTransfer); (Confirm, CoreTypes.Confirm); (Cancel, CoreTypes.Cancel)] in
  match kinds !! Kind command with
  | None => Err (err_new ErrorInvalidInput "submit" "unknown command kind")
  | Some kind =>
      Ok {| cm_ID := ID command; cm_Kind := kind; cm_Account := AccountID command;
            cm_Other := OtherAccountID command; cm_Amount := Amount command |}
  end.

Definition reasons : list bytes :=
  [ReasonApplied; ReasonAwaitingConfirmation; ReasonCancelled; ReasonInvalidAmount; ReasonAccountMissing;
   ReasonAccountExists; ReasonAccountFrozen; ReasonInsufficientFunds; ReasonInvalidWorkflow].

Definition convertResult (result : CoreTypes.Result) : Result :=
  let reason :=
    if (0 <=? rt_ReasonTag result) && (rt_ReasonTag result <? zlen reasons)
    then default ReasonInvalidWorkflow (reasons !! Z.to_nat (rt_ReasonTag result))
    else ReasonInvalidWorkflow in
  {| Sequence := rt_Sequence result; CommandID := rt_CommandID result; Accepted := rt_Accepted result;
     Reason := reason; Duplicate := rt_Duplicate result |}.

(** ** Opening *)

Definition normalizeOptions (options : Options) : res gerror Options :=
  fail_if blank (Path options) with err_new ErrorInvalidInput "open" "Path is required";
  fail_if (MaxAccounts options <? 0) || (DedupeHorizon options <? 0) || (BatchMax options <? 0)
    with err_new ErrorInvalidInput "open" "bounds cannot be negative";
  Ok {| Path := Path options;
        MaxAccounts := if MaxAccounts options =? 0 then 100000 else MaxAccounts options;
        DedupeHorizon := if DedupeHorizon options =? 0 then 100000 else DedupeHorizon options;
        BatchMax := if BatchMax options =? 0 then 512 else BatchMax options |}.

Definition ensureFormat (windows : bool) : io unit :=
  _ ← io_wrap ErrorStorage "open" mkdir_all;
  data ← attempt (read_file format_name);
  match data with
  | Ok data =>
      if bool_decide (data = formatContents) then mret tt
      else io_err (err_new ErrorIncompatible "open" "unsupported FORMAT contents")
  | Err ENotExist =>
      entries ← io_wrap ErrorStorage "open" read_dir;
      entries ← (if bool_decide (entries = [format_tmp])
                 then _ ← io_wrap ErrorStorage "open" (remove format_tmp); mret []
                 else mret entries);
      match entries with
      | _ :: _ => io_err (err_new ErrorIncompatible "open" "non-empty directory has no OctetDB FORMAT marker")
      | [] =>
          i ← io_wrap ErrorStorage "open" (create_excl format_tmp);
          io_wrap ErrorStorage "open"
            (on_error (ignore (remove format_tmp))
               (_ ← write_sync_close i formatContents; _ ← rename format_tmp format_name;
                syncDirectory windows))
      end
  | Err e => io_err (EError ErrorStorage "open" e)
  end.

Definition core_config (options : Options) : CoreConfig :=
  {| StorageDir := Path options; Durability := BatchSync; DedupeWindow := DedupeHorizon options;
     CoreEngine.MaxAccounts := MaxAccounts options; CoreEngine.BatchMax := BatchMax options;
     AccountHint := Z.min (MaxAccounts options) 1024; RecordHint := 0 |}.

(** A result of the engine with its error wrapped for the caller. *)
Definition wrapped {A} (op : string) (r : res gerror A) : res gerror A :=
  match r with
  | Ok a => Ok a
  | Err e => match wrapError op (Some e) with Some e' => Err e' | None => Err e end
  end.
Arguments wrapped {A} _%_string _.

Definition Open (windows : bool) (ctx : context) (options : Options) : io DB :=
  match ctx with
  | CtxNil => io_err (err_new ErrorInvalidInput "open" "nil context")
  | CtxDone => io_err ECtx
  | CtxLate | CtxLive =>
      options ← io_res (normalizeOptions options);
      _ ← ensureFormat windows;
      r ← attempt (OpenCore (core_config options));
      core ← io_res (wrapped "open" r);
      mret {| db_core := core; db_is_closed := false |}
  end.

(** ** Operations *)

(** [enter]: the second check of [closed] runs under the admission token. *)
Definition enter (db : DB) (ctx : context) (op : string) : res gerror unit :=
  fail_if db_is_closed db with err_new ErrorClosed op "database is closed";
  fail_if match ctx with CtxNil => true | _ => false end with err_new ErrorInvalidInput op "nil context";
  fail_if match ctx with CtxDone | CtxLate => true | _ => false end with ECtx;
  fail_if db_is_closed db with err_new ErrorClosed op "database is closed";
  Ok tt.
Arguments enter _ _ _%_string.

Definition convert_commands (commands : list Command) : res gerror (list CoreTypes.Command) :=
  res_fold (fun internal command => let! converted := convertCommand command in Ok (internal ++ [converted]))
    [] commands.

Definition with_core (core : Core) (db : DB) : DB := {| db_core := core; db_is_closed := db_is_closed db |}.

Definition SubmitBatch (db : DB) (ctx : context) (commands : list Command) (w : world)
    : res gerror (list Result) * DB * world :=
  match enter db ctx "submit" with
  | Err e => (Err e, db, w)
  | Ok _ =>
      match commands with
      | [] => (Ok [], db, w)
      | _ =>
          match convert_commands commands with
          | Err e => (Err e, db, w)
          | Ok internal =>
              let '(r, core, w') := Core.SubmitBatch (db_core db) internal w in
              (match wrapped "submit" r with
               | Ok results => Ok (map convertResult results)
               | Err e => Err e
               end, with_core core db, w')
          end
      end
  end.

Definition Submit (db : DB) (ctx : context) (command : Command) (w : world) : res gerror Result * DB * world :=
  match SubmitBatch db ctx [command] w with
  | (Err e, db', w') => (Err e, db', w')
  | (Ok results, db', w') => (Ok (default zeroResult (head results)), db', w')
  end.

Definition Get (db : DB) (id : Z) : option Account :=
  if db_is_closed db then None
  else match AccountOf (db_core db) id with
       | None => None
       | Some a => Some {| pa_ID := ac_ID a; Balance := ac_Balance a;
                           Frozen := ac_Status a =? StatusFrozen; Version := ac_Version a |}
       end.

Definition Snapshot (windows : bool) (db : DB) (ctx : context) (w : world) : res gerror unit * DB * world :=
  match enter db ctx "snapshot" with
  | Err e => (Err e, db, w)
  | Ok _ => let '(r, core, w') := SnapshotCore windows (db_core db) w in (wrapped "snapshot" r, with_core core db, w')
  end.

Definition StatsOf (db : DB) : Stats :=
  let stats := Core.Stats (db_core db) in
  {| ps_CommittedSequence := CommittedSequence stats; ps_WALBytesWritten := WALBytes stats;
     ps_SnapshotSequence := cs_SnapshotSequence stats; ps_DedupeEntries := DedupeEntries stats;
     ps_AccountCount := AccountCount stats |}.

Definition Close (db : DB) (w : world) : res gerror unit * DB * world :=
  if db_is_closed db then (Ok tt, db, w)
  else
    let '(r, core, w') := CloseCore (db_core db) w in
    (wrapped "close" r, {| db_core := core; db_is_closed := true |}, w').
