(* ===== verification/OctetDBTheorems.v ===== *)
(** * The public account database: what it guarantees

    Errors tell what happened, and what was answered survives a crash: theorems
    about the operations of [octetdb.go] ([OctetDB.v]) from those of the account
    engine. *)

From Stdlib Require Import ZArith Lia Strings.Byte Strings.String.
From stdpp Require Import base decidable countable list gmap.
From S2P Require Import Prelude GoText GoBinary Errors GoOS KeyedStorage KeyedDurability KeyedCommit CoreTypes CoreEngine CoreWal CoreSnapshot Core CoreSpec CoreRefinement CoreHistory CoreSerial CoreCodec CoreWide CoreRestore CoreTheorems CoreDurability OctetDB.

Local Open Scope Z_scope.

(** ** Commands *)

(** What a caller has to respect. *)
Definition well_formed (c : Command) : bool :=
  negb (bool_decide (ID c = [])) && negb (AccountID c =? 0) && (1 <=? Kind c) && (Kind c <=? 9)
  && (- 2 ^ 63 <=? Amount c) && (Amount c <=? 2 ^ 63 - 1)
  && (if (Kind c =? Transfer) || (Kind c =? BeginTransfer) || (Kind c =? Confirm)
      then negb (OtherAccountID c =? 0) && negb (OtherAccountID c =? AccountID c) else true).

(** The engine's command for a public one; the engine numbers the kinds from
    zero. *)
Definition engine_command (c : Command) : CoreTypes.Command :=
  {| cm_ID := ID c; cm_Kind := Kind c - 1; cm_Account := AccountID c; cm_Other := OtherAccountID c; cm_Amount := Amount c |}.

Lemma convertCommand_cases c :
  (convertCommand c = Ok (engine_command c) ∧ ID c ≠ [] ∧ AccountID c ≠ 0 ∧ 1 ≤ Kind c ≤ 9 ∧ - 2 ^ 63 ≤ Amount c ≤ 2 ^ 63 - 1)
  ∨ (∃ m, convertCommand c = Err (err_new ErrorInvalidInput "submit" m)) ∧ well_formed c = false.
Proof.
  unfold convertCommand, well_formed, engine_command. destruct c as [id k a o m]. cbn [ID Kind AccountID OtherAccountID Amount].
  case_bool_decide as Hid; cbn [orb negb andb guard_err res_bind]; [right; eauto|].
  destruct (a =? 0) eqn:Ea; cbn [negb andb guard_err res_bind]; [right; eauto|].
  destruct ((2 ^ 63 - 1 <? m) || (m <? - (2 ^ 63 - 1) - 1)) eqn:Em; cbn [guard_err res_bind].
  { right. split; [eauto|]. apply orb_true_iff in Em. rewrite !Z.ltb_lt in Em.
    assert ((- 2 ^ 63 <=? m) && (m <=? 2 ^ 63 - 1) = false) as E by (apply andb_false_iff; rewrite !Z.leb_gt; lia).
    destruct (1 <=? k), (k <=? 9), (- 2 ^ 63 <=? m), (m <=? 2 ^ 63 - 1); try done. }
  apply orb_false_iff in Em as [Em1 Em2]. apply Z.ltb_ge in Em1, Em2.
  destruct (decide (1 ≤ k ≤ 9)) as [Hk|Hk].
  - left. apply Z.eqb_neq in Ea. split; [|split_and!; lia || done].
    assert (k = 1 ∨ k = 2 ∨ k = 3 ∨ k = 4 ∨ k = 5 ∨ k = 6 ∨ k = 7 ∨ k = 8 ∨ k = 9) as Hc by lia.
    repeat (destruct Hc as [-> |Hc]; [reflexivity|]). subst k. reflexivity.
  - right. split.
    + rewrite not_elem_of_list_to_map_1; [eauto|]. cbn [fmap list_fmap fst]. unfold Create, Deposit, Withdraw, Transfer, Freeze, Unfreeze, BeginTransfer, Confirm, Cancel.
      rewrite !not_elem_of_cons. split_and!; try lia. apply not_elem_of_nil.
    + destruct (1 <=? k) eqn:E1, (k <=? 9) eqn:E2; try done. apply Z.leb_le in E1, E2. lia.
Qed.

Lemma convert_commands_from acc cs :
  (res_fold (fun internal command => res_bind (convertCommand command) (λ converted, Ok (internal ++ [converted]))) acc cs
    = Ok (acc ++ map engine_command cs)
   ∧ Forall (λ c, ID c ≠ [] ∧ AccountID c ≠ 0 ∧ 1 ≤ Kind c ≤ 9 ∧ - 2 ^ 63 ≤ Amount c ≤ 2 ^ 63 - 1) cs)
  ∨ (∃ m, res_fold (fun internal command => res_bind (convertCommand command) (λ converted, Ok (internal ++ [converted]))) acc cs
       = Err (err_new ErrorInvalidInput "submit" m)) ∧ forallb well_formed cs = false.
Proof.
  revert acc. induction cs as [|c cs IH]; intros acc; cbn [res_fold map]; [left; rewrite app_nil_r; split; [done|constructor]|].
  destruct (convertCommand_cases c) as [(->&Hc)|[[m ->] Hc]]; cbn [res_bind forallb].
  - destruct (IH (acc ++ [engine_command c])) as [[-> Hf]|[[m ->] Hf]].
    + left. rewrite <- app_assoc. split; [done|]. by constructor.
    + right. split; [eauto|]. rewrite Hf. apply andb_false_r.
  - right. split; [eauto|]. by rewrite Hc.
Qed.

Lemma convert_commands_cases cs :
  (convert_commands cs = Ok (map engine_command cs)
   ∧ Forall (λ c, ID c ≠ [] ∧ AccountID c ≠ 0 ∧ 1 ≤ Kind c ≤ 9 ∧ - 2 ^ 63 ≤ Amount c ≤ 2 ^ 63 - 1) cs)
  ∨ (∃ m, convert_commands cs = Err (err_new ErrorInvalidInput "submit" m)) ∧ forallb well_formed cs = false.
Proof. exact (convert_commands_from [] cs). Qed.

Lemma validate_command_cases c :
  ValidateCommand (engine_command c) = Ok tt
  ∨ (∃ m, ValidateCommand (engine_command c) = Err (ERuntime InvalidCommand (EMsg m))) ∧ well_formed c = false.
Proof.
  unfold ValidateCommand, well_formed, engine_command, isKind. destruct c as [id k a o m].
  cbn [ID Kind AccountID OtherAccountID Amount cm_ID cm_Kind cm_Account cm_Other cm_Amount].
  case_bool_decide as Hid; cbn [orb negb andb guard_err res_bind]; [right; eauto|].
  destruct (a =? 0) eqn:Ea; cbn [negb andb guard_err res_bind]; [right; eauto|].
  assert (∀ x, (k - 1 =? x) = (k =? x + 1)) as Hk by (intros x; destruct (Z.eqb_spec (k - 1) x), (Z.eqb_spec k (x + 1)); lia || done).
  rewrite !Hk. change (CoreTypes.Transfer + 1) with Transfer. change (CoreTypes.BeginTransfer + 1) with BeginTransfer.
  change (CoreTypes.Confirm + 1) with Confirm. destruct ((k =? Transfer) || _ || _); cbn [andb guard_err res_bind]; [|by left].
  destruct (o =? 0) eqn:Eo, (o =? a) eqn:Eoa; cbn [orb negb andb guard_err res_bind]; [..|by left]; right; (split; [eauto|apply andb_false_r]).
Qed.

(** The accounts that a batch asks to create and the table does not have. *)
Definition created_accounts (e : engine) (cs : list Command) : gset Z :=
  list_to_set (filter (λ id, e_ids e !! id = None) (map AccountID (filter (λ c, Kind c = Create) cs))).

Lemma new_accounts_created e cs : new_accounts e (map engine_command cs) = created_accounts e cs.
Proof.
  unfold new_accounts, created_accounts.
  assert (∀ s : gset Z, foldl (λ s c, if isKind (cm_Kind c) CoreTypes.Create && negb (bool_decide (is_Some (e_ids e !! cm_Account c)))
    then {[cm_Account c]} ∪ s else s) s (map engine_command cs)
    = list_to_set (filter (λ id, e_ids e !! id = None) (map AccountID (filter (λ c, Kind c = Create) cs))) ∪ s :> gset Z) as H.
  2:{ rewrite H. set_solver. }
  induction cs as [|c cs IH]; intros s; cbn [map foldl]; [set_solver|]. rewrite IH, filter_cons. cbn [engine_command cm_Kind cm_Account].
  assert (isKind (Kind c - 1) CoreTypes.Create = bool_decide (Kind c = Create)) as ->.
  { unfold isKind, CoreTypes.Create, Create. case_bool_decide; [apply Z.eqb_eq|apply Z.eqb_neq]; lia. }
  case_decide as Hk; [|by rewrite bool_decide_false by done]. rewrite bool_decide_true by done. cbn [map andb]. rewrite filter_cons.
  destruct (e_ids e !! AccountID c) as [x|] eqn:Ei.
  - rewrite decide_False by done. by rewrite bool_decide_true by eauto.
  - rewrite decide_True by done. rewrite bool_decide_false by (by intros [? ?]). set_solver.
Qed.

(** More commands than a batch may have, or more accounts than the table. *)
Definition over_capacity (e : engine) (cs : list Command) : Prop :=
  CoreEngine.BatchMax (e_cfg e) < zlen cs
  ∨ CoreEngine.MaxAccounts (e_cfg e) < zlen (e_accounts e) + Z.of_nat (size (created_accounts e cs)).

Lemma validate_errors e cs err :
  validate_batch e (map engine_command cs) = Err err →
  (∃ m, err = ERuntime CapacityExceeded (EMsg m)) ∧ over_capacity e cs
  ∨ (∃ m, err = ERuntime InvalidCommand (EMsg m)) ∧ forallb well_formed cs = false.
Proof.
  unfold validate_batch, over_capacity. rewrite new_accounts_created.
  assert (zlen (map engine_command cs) = zlen cs) as -> by (unfold zlen; by rewrite length_map).
  destruct (CoreEngine.BatchMax _ <? _) eqn:Eb; cbn [guard_err res_bind]; [intros [= <-]; left; split; [eauto|left; by apply Z.ltb_lt]|].
  assert (∀ l u, res_fold (λ _ c, ValidateCommand c) u (map engine_command l) = Ok tt
    ∨ (∃ m, res_fold (λ _ c, ValidateCommand c) u (map engine_command l) = Err (ERuntime InvalidCommand (EMsg m))) ∧ forallb well_formed l = false) as Hf.
  { induction l as [|c l IH]; intros []; [by left|]. cbn [map res_fold forallb].
    destruct (validate_command_cases c) as [->|[[m ->] Hc]]; cbn [res_bind].
    - destruct (IH tt) as [->|[[m ->] Hw]]; [by left|]. right. split; [eauto|]. rewrite Hw. apply andb_false_r.
    - right. split; [eauto|]. by rewrite Hc. }
  destruct (Hf cs tt) as [->|[[m ->] Hw]]; cbn [res_bind].
  - destruct (CoreEngine.MaxAccounts _ <? _) eqn:Em; cbn [guard_err res_bind]; [|done]. intros [= <-]. left. split; [eauto|right; by apply Z.ltb_lt].
  - intros [= <-]. right. eauto.
Qed.

(** ** Errors *)

Definition poisoned_db (db : DB) : Prop := is_Some (c_poisoned (db_core db)).

(** C24: The kind of the error of [SubmitBatch] tells what happened.
    A context error, a closed, a poisoned or an exhausted database and malformed
    input leave the handle and the disk as they were; malformed input is reported
    only for a nil context or a batch with a command that is not well formed,
    poisoning only for a handle that is poisoned, and capacity only for a batch
    with more commands than [BatchMax] or with accounts to create that do not fit
    into the table beside the ones it has; after a storage error the handle is
    poisoned, and every later batch that is offered is refused as such. *)
Theorem public_errors db ctx commands w err db' w' :
  SubmitBatch db ctx commands w = (Err err, db', w') → c_closed (db_core db) = db_is_closed db →
  match error_kind err with
  | None => err = ECtx ∧ ctx ≠ CtxLive ∧ db' = db ∧ w' = w
  | Some ErrorClosed => db_is_closed db = true ∧ db' = db ∧ w' = w
  | Some ErrorPoisoned => poisoned_db db ∧ db' = db ∧ w' = w
  | Some ErrorInvalidInput => (ctx = CtxNil ∨ forallb well_formed commands = false) ∧ db' = db ∧ w' = w
  | Some ErrorCapacity => over_capacity (c_engine (db_core db)) commands ∧ db' = db ∧ w' = w
  | Some ErrorStorage =>
      poisoned_db db' ∧ ∀ cs w2, cs ≠ [] → forallb well_formed cs = true →
        ∃ err', SubmitBatch db' CtxLive cs w2 = (Err err', db', w2) ∧ error_kind err' = Some ErrorPoisoned
  | Some ErrorCorruption | Some ErrorIncompatible => False
  end.
Proof.
  intros H Hcl. unfold SubmitBatch, enter in H. destruct (db_is_closed db) eqn:Ed; cbn [guard_err res_bind] in H.
  { injection H as <- <- <-. done. }
  destruct ctx; cbn [guard_err res_bind] in H; [injection H as <- <- <-; cbn; split_and!; try done; by left|by injection H as <- <- <-|by injection H as <- <- <-|].
  destruct commands as [|c0 cs0] eqn:Ec; [done|]. rewrite <- Ec in *. clear Ec c0 cs0.
  destruct (convert_commands_cases commands) as [[Hc _]|[[m Hc] Hw]]; rewrite Hc in H.
  2:{ injection H as <- <- <-. cbn. split_and!; try done. by right. }
  destruct (Core.SubmitBatch (db_core db) (map engine_command commands) w) as [[r core] w1] eqn:Es.
  destruct r as [results|e]; [done|]. cbn [wrapped] in H. unfold Core.SubmitBatch in Es. rewrite Hcl in Es.
  assert (with_core (db_core db) db = db) as Edb by (by destruct db).
  destruct (c_poisoned (db_core db)) as [pe|] eqn:Ep.
  { injection Es as <- <- <-. cbn in H. injection H as <- <- <-. rewrite Edb. cbn. split_and!; try done. unfold poisoned_db. by rewrite Ep. }
  clear Hc. destruct (map engine_command commands) as [|x l] eqn:Em; [done|]. rewrite <- Em in Es. clear Em x l.
  destruct (validate_batch (c_engine (db_core db)) (map engine_command commands)) as [[]|ve] eqn:Ev.
  2:{ injection Es as <- <- <-. destruct (validate_errors _ _ _ Ev) as [[[m ->] Hcap]|[[m ->] Hw]]; cbn in H; injection H as <- <- <-; rewrite Edb; cbn; auto. }
  destruct (b_records (decide_batch (c_engine (db_core db)) (map engine_command commands))) as [|r0 rs]; [done|].
  destruct (appendBatch _ (r0 :: rs) w) as [[wal|ae] w2]; [done|]. injection Es as <- <- <-. cbn in H. injection H as <- <- <-.
  cbn [error_kind]. split; [by eexists|]. intros cs w3 Hne Hwf. unfold SubmitBatch, enter, with_core. cbn [db_is_closed db_core].
  rewrite Ed. cbn [guard_err res_bind]. destruct cs as [|c0 cs0] eqn:Ec; [done|]. rewrite <- Ec in *. clear Ec c0 cs0.
  destruct (convert_commands_cases cs) as [[-> _]|[_ Hw]]; [|congruence].
  unfold Core.SubmitBatch. cbn [set_poison set_engine c_closed c_poisoned]. rewrite Hcl. eexists. split; [reflexivity|]. done.
Qed.

(** ** Durability *)

(** The configuration the engine works with. *)
Definition engine_config (o : Options) : CoreConfig :=
  {| StorageDir := Path o; Durability := BatchSync; DedupeWindow := DedupeHorizon o;
     CoreEngine.MaxAccounts := MaxAccounts o; CoreEngine.BatchMax := BatchMax o;
     AccountHint := Z.min (MaxAccounts o) 1024; RecordHint := Z.min (MaxAccounts o) 1024 |}.

Lemma normalize_options options o :
  normalizeOptions options = Ok o →
  Path o ≠ [] ∧ 0 < DedupeHorizon o ∧ normalize_config (core_config o) = Ok (engine_config o).
Proof.
  unfold normalizeOptions. destruct (blank (Path options)) eqn:Eb; cbn [guard_err res_bind]; [done|].
  destruct ((MaxAccounts options <? 0) || (DedupeHorizon options <? 0) || (BatchMax options <? 0)) eqn:En; cbn [guard_err res_bind]; [done|].
  apply orb_false_iff in En as [En E3]. apply orb_false_iff in En as [E1 E2]. apply Z.ltb_ge in E1, E2, E3.
  intros [= <-]. unfold normalize_config, core_config, engine_config.
  cbn [Path MaxAccounts DedupeHorizon BatchMax DedupeWindow CoreEngine.MaxAccounts CoreEngine.BatchMax AccountHint RecordHint Durability StorageDir].
  set (ma := if MaxAccounts options =? 0 then 100000 else MaxAccounts options).
  set (dh := if DedupeHorizon options =? 0 then 100000 else DedupeHorizon options).
  set (bm := if BatchMax options =? 0 then 512 else BatchMax options).
  assert (0 < ma ∧ 0 < dh ∧ 0 < bm) as (H1&H2&H3).
  { unfold ma, dh, bm. destruct (Z.eqb_spec (MaxAccounts options) 0), (Z.eqb_spec (DedupeHorizon options) 0), (Z.eqb_spec (BatchMax options) 0); lia. }
  rewrite (proj2 (Z.leb_gt dh 0)), (proj2 (Z.leb_gt ma 0)), (proj2 (Z.leb_gt bm 0)) by lia.
  rewrite (proj2 (Z.ltb_ge (Z.min ma 1024) 0)), (proj2 (Z.ltb_ge ma (Z.min ma 1024))) by lia.
  split; [|by split]. intros E. by rewrite E in Eb.
Qed.

Lemma append_changed wal i records w r w' :
  wf_file wal = Some i → appendBatch wal records w = (r, w') → file_changed i w w'.
Proof.
  intros Hf.
  assert (steady (file_changed i w)) as Hst by (by intros v l []).
  assert (∀ p v, file_changed i w v → file_changed i w (with_pos p v)) as Hp by (by intros p v []).
  assert (∀ f v, file_changed i w v → file_changed i w (with_inodes (<[i := f]> (w_inodes v)) v)) as Hi.
  { intros f v [F1 F2 F3 F4]. split; try done. intros j Hj. cbn. rewrite lookup_insert_ne by done. by apply F4. }
  assert (hoare (file_changed i w) (appendBatch wal records) (λ _, file_changed i w) (file_changed i w)) as Hh.
  { unfold appendBatch. case_bool_decide; [by intros v Hv|]. destruct (_ <? _); [by apply hoare_err|]. rewrite Hf.
    eapply (hoare_bind _ _ _ (λ _, file_changed i w)).
    - intros v Hv. unfold write_here, write_file. destruct (tick_faults v) as [l El]. destruct (tick v) as [[| |k rep] v1]; cbn in El; subst v1.
      + case_bool_decide; by apply Hp, Hi, Hst.
      + by apply Hp, Hst.
      + destruct (rep && _); [by apply Hp, Hi, Hst|]. case_bool_decide; by apply Hp, Hi, Hst.
    - intros []. eapply (hoare_bind _ _ _ (λ _, file_changed i w)); [|intros []; by intros v Hv].
      apply hoare_call; [done|done|]. intros v Hv. by apply Hi. }
  intros E. specialize (Hh w ltac:(by split)). rewrite E in Hh. by destruct r.
Qed.

Lemma submit_changed c cs w r c' w' i :
  wf_file (c_wal c) = Some i → Core.SubmitBatch c cs w = (r, c', w') → file_changed i w w' ∧ (is_ok r = true → c_poisoned c' = c_poisoned c).
Proof.
  intros Hf H. assert (file_changed i w w) as Hr by (by split).
  apply submit_cases in H as [(->&->&_)|(_&_&_&_&[(_&->&->&->)|[(wal&_&Ha&->&->)|(err&_&Ha&->&->)]])]; try done.
  - split; [|done]. by eapply append_changed.
  - split; [|done]. by eapply append_changed.
Qed.

(** A command with values a Go caller can pass, its identifier shorter than 4 GiB. *)
Definition public_wide (c : Command) : Prop :=
  zlen (ID c) < 2 ^ 32 ∧ u64_range (AccountID c) ∧ u64_range (OtherAccountID c) ∧ 0 ≤ Kind c < 256 ∧ i64_range (Amount c).

Lemma engine_command_wide c : public_wide c → command_wide (engine_command c).
Proof.
  intros (H1&H2&H3&H4&H5). pose proof (zlen_nonneg (ID c)). split; cbn; try done; unfold u32_range, i64_range in *; lia.
Qed.

(** *** The FORMAT marker *)

(** A synchronized marker, apart from the log and from the file a snapshot is
    written to. *)
Definition format_at (w : world) : Prop :=
  ∃ j, w_dir w !! format_name = Some j ∧ w_inodes w !! j = Some {| stable := formatContents; pending := [] |}
    ∧ (j < w_next w)%nat ∧ w_dir w !! wal_oct ≠ Some j ∧ w_dir w !! snapshot_oct_tmp ≠ Some j.

Lemma ensure_format w windows : calm w → format_at w → ensureFormat windows w = (Ok tt, w).
Proof.
  intros Hc (j&Hd&Hi&_). unfold ensureFormat, mkdir_all, io_wrap, attempt, read_file, mbind, io_bind.
  rewrite call_calm by done. unfold mret, io_ret. rewrite Hd. rewrite call_calm by done. unfold inode. rewrite Hi.
  change (content (default empty_file (Some {| stable := formatContents; pending := [] |}))) with formatContents.
  by rewrite bool_decide_true.
Qed.

(** With the marker in place, opening is opening the engine. *)
Lemma open_formatted options o w :
  normalizeOptions options = Ok o → calm w → format_at w →
  match Open false CtxLive options w, OpenCore (core_config o) w with
  | (Ok db, w1), (Ok core, w2) => db = {| db_core := core; db_is_closed := false |} ∧ w1 = w2
  | (Err _, _), (Err _, _) => True
  | _, _ => False
  end.
Proof.
  intros Hn Hc Hf. unfold Open, attempt, io_res, mbind, io_bind. rewrite Hn, (ensure_format w false Hc Hf).
  destruct (OpenCore (core_config o) w) as [[core|e] w2]; cbn [wrapped]; [by split|]. by destruct (wrapError _ _).
Qed.

Lemma format_changed w w' i : w_dir w !! wal_oct = Some i → file_changed i w w' → format_at w → format_at w'.
Proof.
  intros Hw [F1 F2 F3 F4] (j&H1&H2&H3&H4&H5). exists j. rewrite F1, F3. split_and!; try done. rewrite F4; [done|congruence].
Qed.

Lemma format_faults w l : format_at w → format_at (with_faults l w).
Proof. done. Qed.

Lemma format_crash w w1 : w_hist w = [] → crash w w1 → format_at w → format_at w1.
Proof.
  intros Hh Hcr (j&H1&H2&H3&H4&H5). destruct (crash_inode w w1 j _ Hcr H2) as (d&Hd&Hi). apply survives_settled in Hd as ->; [|done].
  destruct Hcr as ([Ed|Ed]&_&En&_); [|rewrite Hh in Ed; by apply not_elem_of_nil in Ed]. exists j. rewrite Ed, En. by split_and!.
Qed.

Lemma format_names :
  format_name ≠ wal_oct ∧ format_name ≠ snapshot_oct ∧ format_name ≠ snapshot_oct_tmp ∧ format_tmp ≠ format_name
  ∧ format_tmp ≠ wal_oct ∧ format_tmp ≠ snapshot_oct ∧ format_tmp ≠ snapshot_oct_tmp.
Proof. by vm_compute. Qed.

(** The marker [j] beside the temporary file [k] of a snapshot. *)
Definition format_beside (j k : nat) (F : file → Prop) (w : world) : Prop :=
  (w_dir w !! format_name = Some j ∧ w_inodes w !! j = Some {| stable := formatContents; pending := [] |}
    ∧ (j < w_next w)%nat ∧ w_dir w !! wal_oct ≠ Some j ∧ w_dir w !! snapshot_oct_tmp = Some k ∧ k ≠ j)
  ∧ ∃ f, w_inodes w !! k = Some f ∧ F f.

Lemma format_beside_install j k data :
  hoare (format_beside j k (λ f, content f = []))
    (_ ← on_error (ignore (remove snapshot_oct_tmp)) (_ ← write_sync_close k data; rename snapshot_oct_tmp snapshot_oct); syncDirectory false)
    (λ _, format_at) (λ _, True).
Proof.
  destruct oct_names as (N1&N2&N3), format_names as (M1&M2&M3&_). eapply (hoare_bind _ _ _ (λ _, format_at)); [|intros []].
  - eapply (hoare_on_error _ _ _ _ (λ _, True)); [|by intros w _; destruct (ignore _ w) as [[]?]].
    eapply hoare_bind.
    { eapply hoare_conseq; [apply (write_sync_close_hoare k (format_beside j k))|done|by intros ??|done].
      - intros F w l H. exact H.
      - intros F F' HF w (?&f&?&?). split; [done|]. eauto.
      - intros F F' g w ((H1&H2&H3&H4&H5&H6)&f&Hf&HF) Hg. split.
        + split_and!; try done. cbn. by rewrite lookup_insert_ne.
        + exists (g (inode k w)). cbn. rewrite lookup_insert_eq. split; [done|]. apply Hg. unfold inode. by rewrite Hf. }
    intros []. apply hoare_call; [intros w l H; exact H|done|]. intros w ((H1&H2&H3&H4&H5&H6)&_). rewrite H5.
    exists j. cbn [with_dir w_dir w_next w_inodes].
    rewrite !(lookup_insert_ne _ snapshot_oct) by done. rewrite !(lookup_delete_ne _ snapshot_oct_tmp), lookup_delete_eq by done.
    split; [exact H1|]. split; [exact H2|]. split; [exact H3|]. split; [exact H4|]. discriminate.
  - apply (syncDirectory_hoare format_at format_at); try (intros w l H; exact H); [done|done|]. intros w H. exact H.
Qed.

Lemma format_installed data w w' : install_snapshot false data w = (Ok tt, w') → format_at w → format_at w'.
Proof.
  intros H (j&H1&H2&H3&H4&H5). destruct format_names as (M1&M2&M3&_). destruct oct_names as (N1&N2&N3).
  unfold install_snapshot in H. apply io_bind_ok in H as (k&w1&Hc&H).
  assert (format_beside j k (λ f, content f = []) w1) as HT.
  { unfold create_trunc, call in Hc. destruct (tick_faults w) as [l El]. destruct (tick w) as [ft w0] eqn:Et. cbn in El. subst w0.
    destruct (w_dir w !! snapshot_oct_tmp) as [x|] eqn:Ej;
    (destruct ft; change (w_dir (with_faults l w)) with (w_dir w) in Hc; rewrite ?Ej in Hc; injection Hc as <- <- || discriminate Hc).
    1,2: split; [split_and!; try done; [cbn; rewrite lookup_insert_ne by congruence; done|congruence]|];
      eexists; cbn; rewrite lookup_insert_eq; split; [done|]; by rewrite content_modify.
    all: split; [split_and!; cbn [fresh snd w_dir w_inodes w_next with_faults]; rewrite ?lookup_insert_eq, ?lookup_insert_ne by (done || lia); try done; lia|];
      eexists; cbn; rewrite lookup_insert_eq; split; done. }
  pose proof (format_beside_install j k data w1 HT) as Hi. by rewrite H in Hi.
Qed.

(** *** Opening an empty directory *)

Definition only_tmp (k : nat) (F : file → Prop) (w : world) : Prop :=
  w_dir w = {[format_tmp := k]} ∧ (k < w_next w)%nat ∧ ∃ f, w_inodes w !! k = Some f ∧ F f.

(** The marker alone. *)
Definition only_format (w : world) : Prop :=
  ∃ k, w_dir w = {[format_name := k]} ∧ (k < w_next w)%nat ∧ w_inodes w !! k = Some {| stable := formatContents; pending := [] |}.

Lemma ensure_new w w' : w_dir w = ∅ → ensureFormat false w = (Ok tt, w') → only_format w'.
Proof.
  intros Hd H. destruct format_names as (_&_&_&M4&_). unfold ensureFormat in H.
  assert (∀ v l, w_dir (with_faults l v) = w_dir v) as Hf by done.
  apply io_bind_ok in H as ([]&w1&H1&H). assert (w_dir w1 = ∅) as Hd1.
  { unfold io_wrap, mkdir_all, call in H1. destruct (tick_faults w) as [l El]. destruct (tick w) as [[] wt]; cbn in El; subst wt; try discriminate H1; by injection H1 as <-. }
  unfold attempt, read_file in H. unfold mbind at 1, io_bind at 1 in H. rewrite Hd1, lookup_empty in H.
  apply io_bind_ok in H as (es&w2&H2&H). assert (es = [] ∧ w_dir w2 = ∅) as [-> Hd2].
  { unfold io_wrap, read_dir, call in H2. destruct (tick_faults w1) as [l El]. destruct (tick w1) as [[] wt]; cbn in El; subst wt; try discriminate H2;
      injection H2 as <- <-; rewrite Hf, Hd1, map_to_list_empty; done. }
  rewrite bool_decide_false in H by done. unfold mbind at 1, io_bind at 1, mret at 1, io_ret at 1 in H.
  apply io_bind_ok in H as (k&w3&H3&H). assert (only_tmp k (λ f, content f = []) w3) as HT.
  { unfold io_wrap, create_excl, call in H3. destruct (tick_faults w2) as [l El]. destruct (tick w2) as [[] wt]; cbn in El; subst wt; try discriminate H3;
      rewrite Hf, Hd2, lookup_empty in H3; injection H3 as <- <-;
      (split_and!; cbn [fresh snd w_dir w_next w_inodes with_faults]; [by rewrite Hd2|lia|]; eexists; rewrite lookup_insert_eq; split; done). }
  assert (hoare (only_tmp k (λ f, content f = [])) (on_error (ignore (remove format_tmp))
    (_ ← write_sync_close k formatContents; _ ← rename format_tmp format_name; syncDirectory false)) (λ _, only_format) (λ _, True)) as Hm.
  { eapply (hoare_on_error _ _ _ _ (λ _, True)); [|by intros v _; destruct (ignore _ v) as [[]?]].
    eapply hoare_bind.
    { eapply hoare_conseq; [apply (write_sync_close_hoare k (only_tmp k))|done|by intros ??|done].
      - intros F v l Hv. exact Hv.
      - intros F F' HF v (?&?&f&?&?). split; [done|]. eauto.
      - intros F F' g v (?&?&f&Hff&HF) Hg. split; [done|]. split; [done|]. exists (g (inode k v)). cbn. rewrite lookup_insert_eq.
        split; [done|]. apply Hg. unfold inode. by rewrite Hff. }
    intros []. eapply (hoare_bind _ _ _ (λ _, only_format)).
    { apply hoare_call; [intros v l Hv; exact Hv|done|]. intros v (H4&H5&f&H6&->). rewrite H4, lookup_singleton_eq. exists k.
      cbn [with_dir w_dir w_next w_inodes]. by rewrite delete_singleton_eq, insert_empty. }
    intros []. apply syncDirectory_hoare; try (intros v l Hv; exact Hv); done. }
  specialize (Hm w3 HT). unfold io_wrap in H. destruct (on_error _ _ w3) as [[[]|e] w4]; [|done]. by injection H as <-.
Qed.

(** What [Open] returns for an empty directory. *)
Lemma open_empty options o w db w' :
  normalizeOptions options = Ok o → DedupeHorizon o < 2 ^ 32 → w_dir w = ∅ → Open false CtxLive options w = (Ok db, w') →
  db_is_closed db = false ∧ (∃ i bs, live (engine_config o) false (db_core db) w' i bs) ∧ format_at w'.
Proof.
  intros Hn Hh Hd H. destruct (normalize_options options o Hn) as (Hp&Hw&Hcfg). destruct format_names as (M1&M2&M3&_).
  unfold Open in H. apply io_bind_ok in H as (o'&w0&H0&H). injection H0 as H0 <-. rewrite Hn in H0. injection H0 as <-.
  apply io_bind_ok in H as ([]&w1&H1&H). apply ensure_new in H1 as (k&Ek&Hk&Ik); [|done].
  apply io_bind_ok in H as (r&w2&H2&H). unfold attempt in H2. destruct (OpenCore (core_config o) w1) as [[core|e] w3] eqn:Eo;
    injection H2 as <- <-; [|apply io_bind_ok in H as (?&?&H&_); unfold io_res, wrapped in H; by destruct (wrapError _ _)]. injection H as <- <-.
  destruct (open_new (core_config o) (engine_config o) Hcfg ltac:(done) Hp ltac:(cbn; lia) w1 core w3) as (L&_&[F1 F2 F3 F4]); [|done|].
  { unfold new_directory. rewrite Ek, !lookup_singleton_ne by done. by split_and!. }
  split; [done|]. split; [eauto|]. exists k. rewrite F1, F3, F4 by lia. cbn [fresh snd w_dir w_next w_inodes]. rewrite Ek.
  rewrite lookup_insert_eq, !(lookup_insert_ne _ wal_oct), (lookup_insert_ne _ (w_next w1)), lookup_singleton_eq, lookup_singleton_ne by (done || lia).
  split_and!; try done; [lia|]. intros [= E]. lia.
Qed.

(** *** Runs *)

(** What a program does with a handle: batches under any context and any faults,
    snapshots of a healthy database that succeed, closing a healthy handle and
    opening the directory again, and crashes after which it is opened again.  The
    first component says whether a snapshot, or opening after a crash, has left a
    synchronized directory with the log in it. *)
Inductive public_run (options : Options) (b0 : bool) (db0 : DB) (w0 : world) : bool → DB → world → Prop :=
| public_start : public_run options b0 db0 w0 b0 db0 w0
| public_submit b db w ctx commands r db' w' :
    public_run options b0 db0 w0 b db w → Forall public_wide commands →
    e_sequence (c_engine (db_core db)) + 2 * zlen commands < 2 ^ 32 →
    SubmitBatch db ctx commands w = (r, db', w') → public_run options b0 db0 w0 b db' w'
| public_snapshot b db w ctx db' w' :
    public_run options b0 db0 w0 b db w → c_poisoned (db_core db) = None →
    zlen (snapshot_payload (c_engine (db_core db))) < 2 ^ 63 →
    Snapshot false db ctx w = (Ok tt, db', w') → public_run options b0 db0 w0 true db' w'
| public_restart b db w r db1 w1 db' w' :
    public_run options b0 db0 w0 b db w → c_poisoned (db_core db) = None → Close db w = (r, db1, w1) → calm w1 →
    Open false CtxLive options w1 = (Ok db', w') → public_run options b0 db0 w0 b db' w'
| public_crash db w w1 db' w' :
    public_run options b0 db0 w0 true db w → crash w w1 → calm w1 →
    Open false CtxLive options w1 = (Ok db', w') → public_run options b0 db0 w0 true db' w'
| public_faults b db w l : public_run options b0 db0 w0 b db w → public_run options b0 db0 w0 b db (with_faults l w).

(** A batch of a handle is one of its engine, or nothing. *)
Lemma public_submit_core db ctx commands w r db' w' :
  SubmitBatch db ctx commands w = (r, db', w') →
  db' = db ∧ w' = w
  ∨ ∃ r', db_is_closed db = false ∧ Core.SubmitBatch (db_core db) (map engine_command commands) w = (r', db_core db', w')
      ∧ db_is_closed db' = false.
Proof.
  intros H. unfold SubmitBatch in H. destruct (enter db ctx "submit") as [u|e] eqn:Ee; [|injection H as <- <- <-; by left].
  assert (db_is_closed db = false) as Ho by (unfold enter in Ee; by destruct (db_is_closed db)).
  destruct commands as [|c0 cs0] eqn:Ec; [injection H as <- <- <-; by left|]. rewrite <- Ec in *. clear Ec c0 cs0.
  destruct (convert_commands_cases commands) as [[Hc _]|[[m Hc] _]]; rewrite Hc in H; [|injection H as <- <- <-; by left].
  destruct (Core.SubmitBatch (db_core db) (map engine_command commands) w) as [[r' core] w1] eqn:Es. injection H as _ <- <-.
  right. exists r'. by split_and!.
Qed.

Lemma public_snapshot_core db ctx w db' w' :
  Snapshot false db ctx w = (Ok tt, db', w') →
  db_is_closed db' = false ∧ SnapshotCore false (db_core db) w = (Ok tt, db_core db', w').
Proof.
  intros H. unfold Snapshot in H. destruct (enter db ctx "snapshot") as [u|e] eqn:Ee; [|done].
  assert (db_is_closed db = false) as Ho by (unfold enter in Ee; by destruct (db_is_closed db)).
  destruct (SnapshotCore false (db_core db) w) as [[[[]|e] core] w1] eqn:Es; [by injection H as <- <-|].
  unfold wrapped in H. by destruct (wrapError _ _).
Qed.

Section runs.
Context (options o : Options).
Hypothesis Hn : normalizeOptions options = Ok o.
Hypothesis Hh : DedupeHorizon o < 2 ^ 32.

Lemma horizon_range : 0 < DedupeWindow (engine_config o) < 2 ^ 32.
Proof. destruct (normalize_options options o Hn) as (_&Hw&_). cbn. lia. Qed.

Lemma batch_sync : Durability (engine_config o) ≠ MemoryOnly.
Proof. done. Qed.

(** A run of the public database is one of its engine, and keeps the marker. *)
Lemma public_core_run b0 db0 w0 b db w :
  db_is_closed db0 = false → (∃ i bs, live (engine_config o) b0 (db_core db0) w0 i bs) → format_at w0 →
  public_run options b0 db0 w0 b db w →
  core_run (core_config o) b0 (db_core db0) w0 b (db_core db) w ∧ db_is_closed db = false ∧ format_at w.
Proof.
  intros Ho L Hf. pose proof horizon_range as Hw. pose proof batch_sync as Hm. destruct (normalize_options options o Hn) as (Hpath&_&Hcfg).
  pose proof (λ b c w, run_invariant (core_config o) (engine_config o) Hcfg Hm Hpath Hw _ _ _ b c w L) as Inv.
  induction 1 as [|b db w ctx cs r db' w' _ (R&O&F) HW Hs H|b db w ctx db' w' _ (R&O&F) Hp Hz H|b db w r db1 w1 db' w' _ (R&O&F) Hp Hcl Hc H
    |db w w1 db' w' _ (R&O&F) Hcr Hc H|b db w l _ (R&O&F)].
  - by split; [apply run_start|].
  - apply public_submit_core in H as [[-> ->]|(r'&_&H&O')]; [done|].
    assert (Forall command_wide (map engine_command cs)) as HW' by (apply Forall_map; eapply Forall_impl; [exact HW|]; apply engine_command_wide).
    assert (e_sequence (c_engine (db_core db)) + 2 * zlen (map engine_command cs) < 2 ^ 32) as Hs' by (unfold zlen in *; by rewrite length_map).
    split; [by eapply run_submit|]. split; [done|]. destruct (Inv _ _ _ R) as [(i&bs&rs&L'&_)|[[e He] _]].
    + destruct (submit_changed _ _ _ _ _ _ i (proj1 (lv_wal _ _ _ _ _ _ L')) H) as [Fc _].
      by apply (format_changed w w' i); [apply (cd_wal _ _ _ _ _ (lv_disk _ _ _ _ _ _ L'))| |].
    + unfold Core.SubmitBatch in H. rewrite He in H. assert (w' = w) as -> by (destruct (c_closed _); by simplify_eq). done.
  - apply public_snapshot_core in H as [O' H]. split; [by eapply run_snapshot|]. split; [done|].
    destruct (Inv _ _ _ R) as [(i&bs&rs&L'&_)|[[e He] _]]; [|congruence].
    destruct (live_snapshot (engine_config o) Hm Hpath _ _ _ _ _ _ _ L' Hz H) as (L2&_&w1&Hi&Fc).
    apply (format_changed w1 w' i); [|done|by eapply format_installed]. rewrite <- (fc_dir _ _ _ Fc). apply (cd_wal _ _ _ _ _ (lv_disk _ _ _ _ _ _ L2)).
  - unfold Close in Hcl. rewrite O in Hcl. destruct (CloseCore (db_core db) w) as [[r' c1] w2] eqn:Ec. injection Hcl as _ _ <-.
    destruct (Inv _ _ _ R) as [(i&bs&rs&L'&_)|[[e He] _]]; [|congruence].
    assert (format_at w2) as F2.
    { unfold CloseCore, wal_close_file in Ec. rewrite (proj1 (lv_up _ _ _ _ _ _ L')), (proj1 (lv_wal _ _ _ _ _ _ L')) in Ec.
      unfold close_file, call in Ec. destruct (tick_faults w) as [l El]. destruct (tick w) as [[] wt]; cbn in El; subst wt; by injection Ec as _ _ <-. }
    pose proof (open_formatted options o w2 Hn Hc F2) as Hopen. rewrite H in Hopen.
    destruct (OpenCore (core_config o) w2) as [[core|e] w3] eqn:Eo; [|done]. destruct Hopen as [-> ->].
    destruct (live_restart (core_config o) (engine_config o) Hcfg Hm Hpath Hw _ _ _ _ _ _ _ _ _ _ L' Ec Hc Eo) as (L2&_&Fc&_).
    split; [by eapply run_restart|]. split; [done|]. apply (format_changed w2 w3 i); [|done|done].
    rewrite <- (fc_dir _ _ _ Fc). apply (cd_wal _ _ _ _ _ (lv_disk _ _ _ _ _ _ L2)).
  - destruct (run_safe (engine_config o) _ _ _ (Inv _ _ _ R)) as (i&s&rs&Hs&_&_).
    pose proof (format_crash w w1 (proj1 Hs) Hcr F) as F1. pose proof (open_formatted options o w1 Hn Hc F1) as Hopen. rewrite H in Hopen.
    destruct (OpenCore (core_config o) w1) as [[core|e] w3] eqn:Eo; [|done]. destruct Hopen as [-> ->].
    split; [by eapply run_crash|]. split; [done|].
    destruct (crash_safe_open (core_config o) (engine_config o) Hcfg Hm Hpath Hw w w1 i s Hs Hcr Hc) as (s'&rs'&core'&w4&bs'&_&_&L4&Fc&O4).
    rewrite Eo in O4. destruct (_ <? _); [done|]. injection O4 as <- <-. apply (format_changed w1 w3 i); [|done|done].
    rewrite <- (fc_dir _ _ _ Fc). apply (cd_wal _ _ _ _ _ (lv_disk _ _ _ _ _ _ L4)).
  - split; [by apply run_faults|]. by split; [|apply format_faults].
Qed.
End runs.

Lemma get_abs db db2 id :
  db_is_closed db = db_is_closed db2 → abs (c_engine (db_core db)) = abs (c_engine (db_core db2)) → Get db id = Get db2 id.
Proof. intros E A. unfold Get. rewrite E, !account_of_acct. by injection A as -> _ _ _. Qed.

(** C23: What the public database answered survives a crash.  With a
    dedupe horizon below 2^32, [Open] makes a database in an empty directory; the handle is used for batches (under
    any context and any I/O faults, the values of their Go types, sequence numbers
    below 2^32), for snapshots of a healthy database that succeed, is closed while healthy
    and opened again and, once a snapshot has succeeded, crashes at any time and
    is opened again.  Take any moment at which it is healthy, for instance after
    the results of a batch; let the program go on in the same way, and let it
    crash at the end, after a snapshot at some time before.  Then the directory
    holds a ledger that only further decisions lead to from the one of that
    moment.  If it has at most [MaxAccounts] entries, [Open] with the same options
    and without faults returns a healthy handle with that ledger, on which every
    account reads as before the crash unless a failed write had poisoned the
    handle; otherwise it is refused.  Before the first snapshot nothing is
    guaranteed ([new_database_lost]). *)
Theorem public_durable options o w0 db0 w1 b db w db' w' w2 :
  normalizeOptions options = Ok o → DedupeHorizon o < 2 ^ 32 →
  w_dir w0 = ∅ → Open false CtxLive options w0 = (Ok db0, w1) →
  public_run options false db0 w1 b db w → c_poisoned (db_core db) = None →
  public_run options b db w true db' w' → crash w' w2 → calm w2 →
  ∃ s rs, core_history (DedupeHorizon o) (abs (c_engine (db_core db))) rs s
    ∧ if MaxAccounts o <? Z.of_nat (size (lg_entries s)) then is_ok (Open false CtxLive options w2).1 = false
      else ∃ db2 w3, Open false CtxLive options w2 = (Ok db2, w3)
        ∧ abs (c_engine (db_core db2)) = s ∧ db_is_closed db2 = false ∧ c_poisoned (db_core db2) = None
        ∧ (c_poisoned (db_core db') = None → s = abs (c_engine (db_core db')) ∧ ∀ id, Get db2 id = Get db' id).
Proof.
  intros Hn Hh Hd Hopen R1 Hp R2 Hcr Hc. destruct (normalize_options options o Hn) as (Hpath&Hw&Hcfg).
  pose proof (horizon_range options o Hn Hh) as Hw'. pose proof (batch_sync o) as Hm.
  destruct (open_empty options o w0 db0 w1 Hn Hh Hd Hopen) as (O0&L0&F0).
  destruct (public_core_run options o Hn Hh _ _ _ _ _ _ O0 L0 F0 R1) as (C1&O1&F1).
  assert (∃ i bs, live (engine_config o) b (db_core db) w i bs) as L1.
  { destruct (run_invariant (core_config o) (engine_config o) Hcfg Hm Hpath Hw' _ _ _ _ _ _ L0 C1) as [(i&bs&rs&L&_)|[[e He] _]]; [eauto|congruence]. }
  destruct (public_core_run options o Hn Hh _ _ _ _ _ _ O1 L1 F1 R2) as (C2&O2&F2).
  destruct (run_recovers (core_config o) (engine_config o) Hcfg Hm Hpath Hw' _ _ _ _ _ _ L1 C2 Hcr Hc) as (s&rs&core&w3&i&bs&Hhist&Hs&A&L3&Ho).
  destruct (run_safe (engine_config o) _ _ _ (run_invariant (core_config o) (engine_config o) Hcfg Hm Hpath Hw' _ _ _ _ _ _ L1 C2)) as (i'&s'&rs'&Hsafe&_&_).
  pose proof (format_crash w' w2 (proj1 Hsafe) Hcr F2) as F3. pose proof (open_formatted options o w2 Hn Hc F3) as Hof.
  exists s, rs. split; [done|]. change (CoreEngine.MaxAccounts (engine_config o)) with (MaxAccounts o) in Ho. destruct (MaxAccounts o <? _).
  - destruct (OpenCore (core_config o) w2) as [[c|e] w4]; [done|]. by destruct (Open false CtxLive options w2) as [[d|e'] w5].
  - rewrite Ho in Hof. destruct (Open false CtxLive options w2) as [[d|e'] w5]; [|done]. destruct Hof as [-> ->].
    eexists _, _. split; [done|]. cbn [db_core db_is_closed]. split; [done|]. split; [done|]. split; [apply L3|].
    intros Hp'. rewrite <- (Hs Hp'). split; [done|]. intros id. apply get_abs; [done|]. cbn [db_core]. by rewrite A, Hs.
Qed.

(** ** A database *)

Definition sample_options : Options := {| Path := bs "data"; MaxAccounts := 100; DedupeHorizon := 16; BatchMax := 8 |}.

(** A new database. *)
Definition opened_db : DB * world :=
  match Open false CtxLive sample_options blank_disk_world with
  | (Ok db, w) => (db, w)
  | (Err _, w) => ({| db_core := sample_core; db_is_closed := true |}, w)
  end.

Lemma opened_empty : Open false CtxLive sample_options blank_disk_world = (Ok opened_db.1, opened_db.2).
Proof.
  assert (is_ok (Open false CtxLive sample_options blank_disk_world).1 = true) as H by (vm_compute; reflexivity).
  unfold opened_db. by destruct (Open false CtxLive sample_options blank_disk_world) as [[c|e] w].
Qed.

Definition public_command (id : string) (kind a b amount : Z) : Command :=
  {| ID := bs id; Kind := kind; AccountID := a; OtherAccountID := b; Amount := amount |}.
Definition public_batch : list Command :=
  [public_command "c1" Create 1 0 100; public_command "c2" Create 2 0 5; public_command "c3" Transfer 1 2 30].

Definition batch_answer : res gerror (list Result) * DB * world := SubmitBatch opened_db.1 CtxLive public_batch opened_db.2.
Definition batch_results : list Result :=
  [{| Sequence := 1; CommandID := bs "c1"; Accepted := true; Reason := ReasonApplied; Duplicate := false |};
   {| Sequence := 2; CommandID := bs "c2"; Accepted := true; Reason := ReasonApplied; Duplicate := false |};
   {| Sequence := 3; CommandID := bs "c3"; Accepted := true; Reason := ReasonApplied; Duplicate := false |}].

Lemma batch_answered : batch_answer.1.1 = Ok batch_results ∧ Get batch_answer.1.2 2 = Some {| pa_ID := 2; Balance := 35; Frozen := false; Version := 2 |}.
Proof. split; vm_compute; reflexivity. Qed.

Lemma public_batch_wide : Forall public_wide public_batch.
Proof. repeat constructor; unfold u32_range, i64_range, u64_range; cbn; try lia; vm_compute; congruence. Qed.

(** A snapshot after the batch, and another batch. *)
Definition public_step_snapshot (s : DB * world) : DB * world := let '(_, db, w) := Snapshot false s.1 CtxLive s.2 in (db, w).
Definition batch_state : DB * world := (batch_answer.1.2, batch_answer.2).
Definition saved_state : DB * world := public_step_snapshot batch_state.
Definition second_public_batch : list Command := [public_command "c4" Deposit 2 0 7].
Definition final_answer : res gerror (list Result) * DB * world := SubmitBatch saved_state.1 CtxLive second_public_batch saved_state.2.

Lemma second_batch_wide : Forall public_wide second_public_batch.
Proof. repeat constructor; unfold u32_range, i64_range, u64_range; cbn; try lia; vm_compute; congruence. Qed.

Lemma public_states :
  c_poisoned (db_core batch_state.1) = None ∧ (Snapshot false batch_state.1 CtxLive batch_state.2).1.1 = Ok tt
  ∧ c_poisoned (db_core final_answer.1.2) = None ∧ is_ok final_answer.1.1 = true
  ∧ Get final_answer.1.2 2 = Some {| pa_ID := 2; Balance := 42; Frozen := false; Version := 3 |}
  ∧ (MaxAccounts sample_options <? Z.of_nat (size (lg_entries (abs (c_engine (db_core final_answer.1.2)))))) = false.
Proof. repeat split; vm_compute; reflexivity. Qed.

Lemma batch_run : public_run sample_options false opened_db.1 opened_db.2 false batch_state.1 batch_state.2.
Proof.
  eapply (public_submit _ _ _ _ _ opened_db.1 opened_db.2 CtxLive public_batch batch_answer.1.1).
  - apply public_start.
  - exact public_batch_wide.
  - vm_compute. reflexivity.
  - change (SubmitBatch opened_db.1 CtxLive public_batch opened_db.2) with batch_answer. unfold batch_state. by destruct batch_answer as [[??]?].
Qed.

Lemma final_run : public_run sample_options false batch_state.1 batch_state.2 true final_answer.1.2 final_answer.2.
Proof.
  destruct public_states as (P1&P2&_).
  eapply (public_submit _ _ _ _ _ saved_state.1 saved_state.2 CtxLive second_public_batch final_answer.1.1).
  - eapply (public_snapshot _ _ _ _ _ batch_state.1 batch_state.2 CtxLive); [apply public_start|exact P1|vm_compute; reflexivity|].
    unfold saved_state, public_step_snapshot. destruct (Snapshot false batch_state.1 CtxLive batch_state.2) as [[r db] w]. cbn [fst] in P2. by rewrite P2.
  - exact second_batch_wide.
  - vm_compute. reflexivity.
  - change (SubmitBatch saved_state.1 CtxLive second_public_batch saved_state.2) with final_answer. by destruct final_answer as [[??]?].
Qed.

Lemma public_durable_witness :
  ∃ db2 w3, Open false CtxLive sample_options (kept final_answer.2) = (Ok db2, w3)
    ∧ Get db2 2 = Some {| pa_ID := 2; Balance := 42; Frozen := false; Version := 3 |}.
Proof.
  destruct public_states as (P1&_&P3&_&Hget&Hsize).
  destruct (public_durable sample_options sample_options blank_disk_world opened_db.1 opened_db.2 false batch_state.1 batch_state.2
    final_answer.1.2 final_answer.2 (kept final_answer.2)) as (s&rs&_&O).
  - reflexivity.
  - reflexivity.
  - reflexivity.
  - exact opened_empty.
  - exact batch_run.
  - exact P1.
  - exact final_run.
  - apply kept_crash.
  - reflexivity.
  - destruct (MaxAccounts sample_options <? Z.of_nat (size (lg_entries s))) eqn:E.
    + exfalso. revert O. vm_compute. discriminate.
    + destruct O as (db2&w3&O&_&_&_&G). destruct (G P3) as [_ G']. exists db2, w3. split; [exact O|]. rewrite G'. exact Hget.
Defined.

(** The same for a database that has not been snapshotted: [Open] synchronizes
    the directory for the FORMAT marker before the log exists, and a crash after
    the batch was answered leaves an empty database. *)
Theorem new_database_lost :
  batch_answer.1.1 = Ok batch_results ∧ crash batch_answer.2 (lost batch_answer.2)
  ∧ match Open false CtxLive sample_options (lost batch_answer.2) with
    | (Ok db, _) => Get db 2 = None ∧ ps_CommittedSequence (StatsOf db) = 0
    | (Err _, _) => False
    end.
Proof. split_and!; [vm_compute; reflexivity|apply lost_crash|vm_compute; done]. Qed.

(** The same batch with a write that fails. *)
Definition failed_answer : res gerror (list Result) * DB * world :=
  SubmitBatch opened_db.1 CtxLive public_batch (with_faults [FFail] opened_db.2).

Definition failed_error : gerror :=
  EError ErrorStorage "submit" (ERuntime DurabilityWriteFailed (EOS "write")).

Lemma failed_answered : failed_answer.1.1 = Err failed_error ∧ c_closed (db_core opened_db.1) = db_is_closed opened_db.1.
Proof. split; vm_compute; reflexivity. Qed.

Lemma public_errors_witness :
  poisoned_db failed_answer.1.2 ∧ ∀ cs w2, cs ≠ [] → forallb well_formed cs = true →
    ∃ err', SubmitBatch failed_answer.1.2 CtxLive cs w2 = (Err err', failed_answer.1.2, w2) ∧ error_kind err' = Some ErrorPoisoned.
Proof.
  destruct failed_answered as [Herr Hcl].
  refine (public_errors opened_db.1 CtxLive public_batch (with_faults [FFail] opened_db.2) failed_error failed_answer.1.2 failed_answer.2 _ Hcl).
  rewrite <- Herr. change (SubmitBatch opened_db.1 CtxLive public_batch (with_faults [FFail] opened_db.2)) with failed_answer. by destruct failed_answer as [[??]?].
Defined.

(** ** Reasons *)

Lemma decide_reason c a aok b bok p :
  let d := decideGo c a aok b bok p in 0 ≤ d_reason d < 9 ∧ (d_accepted d = true ↔ d_reason d < 3).
Proof.
  assert (∀ acc r eff ba bb st, 0 ≤ r < 9 ∧ (acc = true ↔ r < 3) →
    let d := {| d_accepted := acc; d_reason := r; d_effect := eff; d_balanceA := ba; d_balanceB := bb; d_status := st |} in
    0 ≤ d_reason d < 9 ∧ (d_accepted d = true ↔ d_reason d < 3)) as Hd by done.
  cbv zeta in *. unfold decideGo.
  repeat match goal with |- context [if ?x then _ else _] => destruct x end; apply Hd; vm_compute; intuition congruence.
Qed.

Lemma convert_reason r :
  0 ≤ rt_ReasonTag r < 9 →
  reasons !! Z.to_nat (rt_ReasonTag r) = Some (Reason (convertResult r))
  ∧ (rt_ReasonTag r < 3 ↔ Reason (convertResult r) ∈ [ReasonApplied; ReasonAwaitingConfirmation; ReasonCancelled]).
Proof.
  intros Hb. unfold convertResult. cbn [Reason].
  rewrite (proj2 (Z.leb_le 0 _)), (proj2 (Z.ltb_lt _ (zlen reasons))) by (change (zlen reasons) with 9; lia). cbn [andb].
  destruct (reasons !! Z.to_nat (rt_ReasonTag r)) as [x|] eqn:E.
  2:{ apply lookup_ge_None in E. change (length reasons) with 9%nat in E. lia. }
  cbn [default]. split; [done|]. rewrite !elem_of_cons, elem_of_nil.
  assert (∀ k, k = rt_ReasonTag r → reasons !! Z.to_nat k = Some x →
    (k < 3 ↔ x = ReasonApplied ∨ x = ReasonAwaitingConfirmation ∨ x = ReasonCancelled ∨ False)) as Hk; [|by apply Hk].
  intros k Hk. assert (k = 0 ∨ k = 1 ∨ k = 2 ∨ k = 3 ∨ k = 4 ∨ k = 5 ∨ k = 6 ∨ k = 7 ∨ k = 8) as Hc by lia.
  clear Hk E. repeat (destruct Hc as [-> |Hc]; [intros [= <-]; split; [intros; auto; lia|intros [H|[H|[H|[]]]]; (lia || discriminate H)]|]).
  subst k. intros [= <-]. split; [lia|intros [H|[H|[H|[]]]]; discriminate H].
Qed.

(** The public reason of a decision agrees with it: the tag the
    engine logs is one of the nine reasons, and the reason is one of applied,
    awaiting confirmation and cancelled exactly when the command was accepted. *)
Theorem public_reasons seq c a aok b bok p turns next :
  let d := decideGo c a aok b bok p in
  let result := convertResult (result_of (make_record seq c d a b turns next)) in
  reasons !! Z.to_nat (d_reason d) = Some (Reason result)
  ∧ (Accepted result = true ↔ Reason result ∈ [ReasonApplied; ReasonAwaitingConfirmation; ReasonCancelled]).
Proof.
  cbv zeta. destruct (decide_reason c a aok b bok p) as [Hb Ha]. set (d := decideGo c a aok b bok p) in *.
  destruct (convert_reason (result_of (make_record seq c d a b turns next)) Hb) as [H1 H2]. split; [exact H1|]. rewrite <- H2. exact Ha.
Qed.
