(* ===== verification/Scheduled.v ===== *)
(** * Plans and policies of the scheduler ([internal/scheduled/])

    The execution plans ([plan.go], [static_plan.generated.go]), the generated
    flows that decide admission and the next action
    ([scheduler.generated.go]), the conventional policy they are compared with
    ([conflict.go]) and the actuator of the observer ([observer.go]).  The
    integers of the scores and counters stay far from the bounds of Go's [int]
    and are not wrapped; a panic of the generated code is [None]. *)

From Stdlib Require Import ZArith Lia Strings.Byte Strings.String.
From stdpp Require Import base decidable countable list gmap.
From S2P Require Import Prelude GoText GoJson.

Local Open Scope Z_scope.

(** ** Operations ([internal/workload/workload.go]) *)

(** [workload.Kind]: an unsigned byte. *)
Definition PointRead : Z := 0.
Definition RangeRead : Z := 1.
Definition OrderWrite : Z := 2.
Definition InventoryWrite : Z := 3.

Definition kind_string (k : Z) : bytes :=
  if k =? PointRead then bs "point_read"
  else if k =? RangeRead then bs "range_read"
  else if k =? OrderWrite then bs "order_write"
  else if k =? InventoryWrite then bs "inventory_write"
  else bs "kind_" ++ dec k.

Record Operation := {
  op_Sequence : Z; op_Kind : Z; op_CustomerID : Z; op_OrderID : Z; op_ProductID : Z; op_At : Z }.

(** ** Plans *)

Record commandDescriptor := {
  cd_Kind : Z; cd_Statement : Z; cd_BatchClass : Z; cd_Priority : Z; cd_Conflict : Z; cd_Transaction : Z;
  cd_Name : bytes; cd_QueueCapacity : Z; cd_MaxBatch : Z }.

Record statementDescriptor := {
  sd_Kind : Z; sd_Name : bytes; sd_SQL : bytes; sd_ParameterShape : bytes; sd_ResultShape : bytes }.

Record executionPlan := {
  ep_Commands : list commandDescriptor;
  ep_Compatibility : list (list bool);
  ep_Statements : list statementDescriptor;
  ep_QueueCapacity : Z; ep_MaxBatch : Z; ep_Workers : Z }.

(** [planLookup]: what the scheduler asks of a plan. *)
Class planLookup (P : Type) := {
  command : P → Z → option commandDescriptor;
  compatible : P → Z → Z → bool;
  statementCount : P → Z }.

Definition zeroDescriptor : commandDescriptor :=
  {| cd_Kind := 0; cd_Statement := 0; cd_BatchClass := 0; cd_Priority := 0; cd_Conflict := 0;
     cd_Transaction := 0; cd_Name := []; cd_QueueCapacity := 0; cd_MaxBatch := 0 |}.

Definition static_command (p : executionPlan) (kind : Z) : option commandDescriptor :=
  if zlen (ep_Commands p) <=? kind then None else ep_Commands p !! Z.to_nat kind.
Definition static_compatible (p : executionPlan) (left right : Z) : bool :=
  if (4 <=? left) || (4 <=? right) then false
  else default false (row ← ep_Compatibility p !! Z.to_nat left; row !! Z.to_nat right).
Definition static_statementCount (p : executionPlan) : Z := zlen (ep_Statements p).

#[export] Instance staticPlanLookup : planLookup executionPlan :=
  {| command := static_command; compatible := static_compatible; statementCount := static_statementCount |}.

Definition descriptor (kind statement class priority conflict transaction : Z) (name : string) (capacity maxBatch : Z)
    : commandDescriptor :=
  {| cd_Kind := kind; cd_Statement := statement; cd_BatchClass := class; cd_Priority := priority;
     cd_Conflict := conflict; cd_Transaction := transaction; cd_Name := bs name;
     cd_QueueCapacity := capacity; cd_MaxBatch := maxBatch |}.
Arguments descriptor _ _ _ _ _ _ _%_string _ _.
Definition statement (kind : Z) (name sql parameters result : string) : statementDescriptor :=
  {| sd_Kind := kind; sd_Name := bs name; sd_SQL := bs sql; sd_ParameterShape := bs parameters;
     sd_ResultShape := bs result |}.
Arguments statement _ _%_string _%_string _%_string _%_string.

Definition static_statements : list statementDescriptor :=
  [statement 0 "select_customer" "SELECT name FROM customers WHERE id=$1" "CustomerID:Int64" "Name:String/one";
   statement 1 "select_orders" "SELECT id FROM orders WHERE customer_id=$1 ORDER BY created_at DESC LIMIT 10"
     "CustomerID:Int64" "OrderID:Int64/up-to-10";
   statement 2 "insert_order" "INSERT INTO orders(id,customer_id,created_at,status) VALUES($1,$2,$3,'created')"
     "OrderID:Int64,CustomerID:Int64,At:Time" "CommandTag/one";
   statement 3 "insert_order_item"
     "INSERT INTO order_items(order_id,product_id,quantity,unit_price_cents) VALUES($1,$2,1,1000)"
     "OrderID:Int64,ProductID:Int64" "CommandTag/one";
   statement 4 "update_inventory" "UPDATE inventory SET quantity=quantity-1 WHERE product_id=$1 AND quantity>0"
     "ProductID:Int64" "CommandTag/one"].

Definition staticExecutionPlan : executionPlan :=
  {| ep_Commands :=
       [descriptor 0 0 0 0 0 0 "point_read" 128 8; descriptor 1 1 1 0 1 0 "range_read" 128 8;
        descriptor 2 2 2 1 1 1 "order_write" 128 1; descriptor 3 4 2 1 2 2 "inventory_write" 128 1];
     ep_Compatibility :=
       [[true; false; false; false]; [false; true; false; false]; [false; false; false; false];
        [false; false; false; false]];
     ep_Statements := static_statements;
     ep_QueueCapacity := 128; ep_MaxBatch := 8; ep_Workers := 8 |}.

(** [runtimePlanLookup]: the same relations in maps. *)
Record runtimePlan := {
  rp_commands : gmap Z commandDescriptor;
  rp_compatibility : gmap (Z * Z) bool;
  rp_statements : list statementDescriptor }.

Definition runtime_command (p : runtimePlan) (kind : Z) : option commandDescriptor := rp_commands p !! kind.
Definition runtime_compatible (p : runtimePlan) (left right : Z) : bool :=
  default false (rp_compatibility p !! (left, right)).
Definition runtime_statementCount (p : runtimePlan) : Z := zlen (rp_statements p).

#[export] Instance runtimePlanLookup : planLookup runtimePlan :=
  {| command := runtime_command; compatible := runtime_compatible; statementCount := runtime_statementCount |}.

Definition kinds : list Z := [PointRead; RangeRead; OrderWrite; InventoryWrite].

Definition buildRuntimePlan (capacity maxBatch workers : Z) : runtimePlan :=
  {| rp_commands :=
       <[InventoryWrite := descriptor 3 4 2 1 2 2 "inventory_write" capacity 1]>
       (<[OrderWrite := descriptor 2 2 2 1 1 1 "order_write" capacity 1]>
       (<[RangeRead := descriptor 1 1 1 0 1 0 "range_read" capacity maxBatch]>
       (<[PointRead := descriptor 0 0 0 0 0 0 "point_read" capacity maxBatch]> ∅)));
     rp_compatibility :=
       foldl (fun m left => foldl (fun m right => <[(left, right) := (left =? right) && (left <=? RangeRead)]> m) m kinds)
         ∅ kinds;
     rp_statements := static_statements |}.

(** ** The admission flow *)

Definition Reject_tag : Z := 0.
Definition Wait_tag : Z := 1.
Definition Compatible_tag : Z := 2.
Definition Dispatch_tag : Z := 3.

(** [fn_Scheduler_OutcomeCode]. *)
Definition OutcomeCode (tag : Z) : option Z :=
  if tag =? Reject_tag then Some 0
  else if tag =? Wait_tag then Some 1
  else if tag =? Compatible_tag then Some 2
  else if tag =? Dispatch_tag then Some 3
  else None.

(** The flow [SchedulerDecision]; [sf_instruction] is zero in every state. *)
Record decisionFlow := {
  sf_started : bool; sf_completed : bool; sf_currentState : Z; sf_instruction : Z;
  sf_result : Z; sf_hasResult : bool;
  sf_used : Z; sf_capacity : Z; sf_requestClass : Z; sf_batchClass : Z; sf_batchCount : Z; sf_maxBatch : Z;
  sf_Decision : Z }.

Definition SchedulerDecision (used capacity requestClass batchClass batchCount maxBatch : Z) : decisionFlow :=
  {| sf_started := false; sf_completed := false; sf_currentState := 0; sf_instruction := 0; sf_result := 0;
     sf_hasResult := false; sf_used := used; sf_capacity := capacity; sf_requestClass := requestClass;
     sf_batchClass := batchClass; sf_batchCount := batchCount; sf_maxBatch := maxBatch; sf_Decision := 0 |}.

Definition goto (state : Z) (f : decisionFlow) : decisionFlow :=
  {| sf_started := true; sf_completed := sf_completed f; sf_currentState := state; sf_instruction := 0;
     sf_result := sf_result f; sf_hasResult := sf_hasResult f; sf_used := sf_used f; sf_capacity := sf_capacity f;
     sf_requestClass := sf_requestClass f; sf_batchClass := sf_batchClass f; sf_batchCount := sf_batchCount f;
     sf_maxBatch := sf_maxBatch f; sf_Decision := sf_Decision f |}.

(** [f.board.Decision = OutcomeCode(tag)], then the state [Complete]. *)
Definition decided (tag : Z) (f : decisionFlow) : option decisionFlow :=
  code ← OutcomeCode tag;
  Some (goto 4
    {| sf_started := sf_started f; sf_completed := sf_completed f; sf_currentState := sf_currentState f;
       sf_instruction := sf_instruction f; sf_result := sf_result f; sf_hasResult := sf_hasResult f;
       sf_used := sf_used f; sf_capacity := sf_capacity f; sf_requestClass := sf_requestClass f;
       sf_batchClass := sf_batchClass f; sf_batchCount := sf_batchCount f; sf_maxBatch := sf_maxBatch f;
       sf_Decision := code |}).

Definition finished (f : decisionFlow) : decisionFlow :=
  {| sf_started := sf_started f; sf_completed := true; sf_currentState := -1; sf_instruction := sf_instruction f;
     sf_result := sf_Decision f; sf_hasResult := true; sf_used := sf_used f; sf_capacity := sf_capacity f;
     sf_requestClass := sf_requestClass f; sf_batchClass := sf_batchClass f; sf_batchCount := sf_batchCount f;
     sf_maxBatch := sf_maxBatch f; sf_Decision := sf_Decision f |}.

(** The loop of [__octStep]; [None] is a panic or a loop that did not end within
    the fuel. *)
Fixpoint decision_loop (fuel : nat) (f : decisionFlow) : option decisionFlow :=
  match fuel with
  | O => None
  | S fuel =>
      if negb (sf_instruction f =? 0) then None
      else if sf_currentState f =? 0 then decision_loop fuel (goto 1 f)
      else if sf_currentState f =? 1 then
        if sf_capacity f <=? sf_used f then f ← decided Reject_tag f; decision_loop fuel f
        else decision_loop fuel (goto 2 f)
      else if sf_currentState f =? 2 then
        if sf_batchCount f =? 0 then f ← decided Wait_tag f; decision_loop fuel f
        else if 1 <? sf_requestClass f then f ← decided Wait_tag f; decision_loop fuel f
        else if negb (sf_requestClass f =? sf_batchClass f) then f ← decided Wait_tag f; decision_loop fuel f
        else decision_loop fuel (goto 3 f)
      else if sf_currentState f =? 3 then
        if sf_maxBatch f <=? sf_batchCount f + 1 then f ← decided Dispatch_tag f; decision_loop fuel f
        else f ← decided Compatible_tag f; decision_loop fuel f
      else if sf_currentState f =? 4 then Some (finished f)
      else None
  end.

Definition decision_step (f : decisionFlow) : option decisionFlow :=
  if sf_completed f then Some f else decision_loop 5 (if sf_started f then f else goto 0 f).

Definition policyDecision (used capacity requestClass batchClass batchCount maxBatch : Z) : option Z :=
  f ← decision_step (SchedulerDecision used capacity requestClass batchClass batchCount maxBatch);
  if sf_hasResult f then Some (sf_result f) else None.

(** ** Utility selection *)

Record utilCandidate := { uc_Valid : bool; uc_Value : Z; uc_Score : Z }.
Record utilitySite := { us_HasCurrent : bool; us_Current : Z; us_Score : Z; us_CommitAge : Z }.

Definition zeroSite : utilitySite := {| us_HasCurrent := false; us_Current := 0; us_Score := 0; us_CommitAge := 0 |}.

Definition utilSelectScalar (site : utilitySite) (hysteresis minCommit : Z) (candidates : list utilCandidate)
    (elseValue : Z) : Z * utilitySite :=
  let next := foldl (fun next c =>
      if uc_Valid c && (negb (uc_Valid next) || (uc_Score next <? uc_Score c)) then c else next)
    {| uc_Valid := false; uc_Value := 0; uc_Score := 0 |} candidates in
  let next := if uc_Valid next then next else {| uc_Valid := true; uc_Value := elseValue; uc_Score := 0 |} in
  let currentStillValid := existsb (fun c => uc_Valid c && (uc_Value c =? us_Current site)) candidates in
  let next :=
    if us_HasCurrent site && currentStillValid
       && ((us_CommitAge site <? minCommit) || (uc_Score next <=? us_Score site + hysteresis))
    then {| uc_Valid := true; uc_Value := us_Current site; uc_Score := us_Score site |} else next in
  (uc_Value next,
   if negb (us_HasCurrent site) || negb (us_Current site =? uc_Value next)
   then {| us_HasCurrent := true; us_Current := uc_Value next; us_Score := uc_Score next; us_CommitAge := 1 |}
   else {| us_HasCurrent := us_HasCurrent site; us_Current := us_Current site; us_Score := uc_Score next;
           us_CommitAge := us_CommitAge site + 1 |}).

(** ** The persistent controllers *)

(** The board of [PersistentFairController]; the parity controller uses
    [OldestEligible] only. *)
Record board := {
  OldestEligible : bool; HighEligible : bool; AgedEligible : bool; BatchEligible : bool;
  OldestScore : Z; HighScore : Z; BatchScore : Z; Chosen : Z; Decisions : Z }.

Definition zeroBoard : board :=
  {| OldestEligible := false; HighEligible := false; AgedEligible := false; BatchEligible := false;
     OldestScore := 0; HighScore := 0; BatchScore := 0; Chosen := 0; Decisions := 0 |}.

Record controller := {
  ct_started : bool; ct_completed : bool; ct_currentState : Z; ct_instruction : Z;
  ct_site : utilitySite; ct_board : board }.

(** [fn_Scheduler_PersistentFairController] and [..ParityController]. *)
Definition newController : controller :=
  {| ct_started := false; ct_completed := false; ct_currentState := 0; ct_instruction := 0; ct_site := zeroSite;
     ct_board := zeroBoard |}.

Definition set_chosen (chosen decisions : Z) (b : board) : board :=
  {| OldestEligible := OldestEligible b; HighEligible := HighEligible b; AgedEligible := AgedEligible b;
     BatchEligible := BatchEligible b; OldestScore := OldestScore b; HighScore := HighScore b;
     BatchScore := BatchScore b; Chosen := chosen; Decisions := decisions |}.

Definition at_instruction (i : Z) (site : utilitySite) (b : board) (f : controller) : controller :=
  {| ct_started := true; ct_completed := ct_completed f; ct_currentState := 0; ct_instruction := i;
     ct_site := site; ct_board := b |}.

Definition parity_select (f : controller) : Z * utilitySite :=
  utilSelectScalar (ct_site f) 0 1
    [{| uc_Valid := OldestEligible (ct_board f); uc_Value := 0; uc_Score := 1 |}] 4.

Definition fair_select (f : controller) : Z * utilitySite :=
  let b := ct_board f in
  if AgedEligible b then (2, ct_site f)
  else utilSelectScalar (ct_site f) 25 2
    [{| uc_Valid := HighEligible b; uc_Value := 1; uc_Score := HighScore b |};
     {| uc_Valid := BatchEligible b; uc_Value := 3; uc_Score := BatchScore b |};
     {| uc_Valid := OldestEligible b; uc_Value := 0; uc_Score := OldestScore b |}] 4.

(** The loop of [__octStep]: it suspends after counting the decision, and resumes
    at instruction three. *)
Fixpoint controller_loop (select : controller → Z * utilitySite) (fuel : nat) (f : controller) : option controller :=
  match fuel with
  | O => None
  | S fuel =>
      if negb (ct_currentState f =? 0) then None
      else if ct_instruction f =? 0 then
        let '(chosen, site) := select f in
        controller_loop select fuel (at_instruction 1 site (set_chosen chosen (Decisions (ct_board f)) (ct_board f)) f)
      else if ct_instruction f =? 1 then
        controller_loop select fuel
          (at_instruction 2 (ct_site f) (set_chosen (Chosen (ct_board f)) (Decisions (ct_board f) + 1) (ct_board f)) f)
      else if ct_instruction f =? 2 then Some (at_instruction 3 (ct_site f) (ct_board f) f)
      else if ct_instruction f =? 3 then controller_loop select fuel (at_instruction 0 (ct_site f) (ct_board f) f)
      else None
  end.

Definition controller_step (select : controller → Z * utilitySite) (f : controller) : option controller :=
  if ct_completed f then Some f
  else controller_loop select 4 (if ct_started f then f else at_instruction 0 (ct_site f) (ct_board f) f).

Definition parity_step : controller → option controller := controller_step parity_select.
Definition fair_step : controller → option controller := controller_step fair_select.

(** ** Counters *)

Inductive counter :=
| conflicts | blocked | waitTotal | waitMax | ownTotal | ownMax
| peakHot | wakeups | messages | peakMailbox | overflow
| utilityDecisions | utilityCandidates | promotions
| controllerConstructions | policySwitches
| hysteresisHolds | minimumCommitHolds | fairnessOverrides
| overtakes | maximumDispatchAge | leaks | doubleReleases.

#[export] Instance counter_eq_dec : EqDecision counter.
Proof. solve_decision. Defined.

(** [conflictCounters]: the value of each counter. *)
Definition conflictCounters : Type := counter → Z.
Definition zeroCounters : conflictCounters := fun _ => 0.
Definition add (c : counter) (n : Z) (m : conflictCounters) : conflictCounters :=
  fun c' => if decide (c = c') then m c' + n else m c'.
(** The loop retries until the maximum is stored. *)
Definition updateMax (c : counter) (v : Z) (m : conflictCounters) : conflictCounters :=
  fun c' => if decide (c = c') then (if m c' <? v then v else m c') else m c'.

(** ** The conventional policy *)

Definition actionOldest : Z := 0.
Definition actionHighPriority : Z := 1.
Definition actionAged : Z := 2.
Definition actionBatch : Z := 3.
Definition actionWait : Z := 4.
Definition policyHysteresis : Z := 25.
Definition policyMinCommit : Z := 2.

Record conventionalPolicy := { cp_hasCurrent : bool; cp_current : Z; cp_score : Z; cp_commitAge : Z }.
Definition zeroPolicy : conventionalPolicy := {| cp_hasCurrent := false; cp_current := 0; cp_score := 0; cp_commitAge := 0 |}.

Definition selectAction (p : conventionalPolicy) (rawAction rawScore : Z) (emergency : bool) (eligible : Z → bool)
    (m : conflictCounters) : Z * conventionalPolicy * conflictCounters :=
  if emergency then (actionAged, p, add fairnessOverrides 1 m)
  else
    let hold := cp_hasCurrent p && eligible (cp_current p)
                && ((cp_commitAge p <? policyMinCommit) || (rawScore <=? cp_score p + policyHysteresis)) in
    let chosen := if hold then cp_current p else rawAction in
    let score := if hold then cp_score p else rawScore in
    let m := if hold && negb (rawAction =? cp_current p)
             then (if cp_commitAge p <? policyMinCommit then add minimumCommitHolds 1 m else add hysteresisHolds 1 m)
             else m in
    if negb (cp_hasCurrent p) || negb (chosen =? cp_current p) then
      (chosen, {| cp_hasCurrent := true; cp_current := chosen; cp_score := score; cp_commitAge := 1 |},
       if cp_hasCurrent p then add policySwitches 1 m else m)
    else (chosen, {| cp_hasCurrent := cp_hasCurrent p; cp_current := cp_current p; cp_score := score;
                     cp_commitAge := cp_commitAge p + 1 |}, m).

(** ** The actuator of the observer *)

Definition reactiveExposure (current maximum filteredDelayMicros : Z) : Z :=
  if 1800 <=? filteredDelayMicros then (if maximum - 2 <? 1 then 1 else maximum - 2)
  else if filteredDelayMicros <=? 1400 then maximum
  else current.
