(* ===== verification/ScheduledObserver.v ===== *)
(** * The observer of the scheduler ([internal/scheduled/observer.go])

    The estimator that watches the queue: the generated update
    [M4ObserverUpdate] ([scheduler.generated.go]), the ring of predictions that
    mature, the sums behind the metrics, and the record of control actions.
    Go's [float64] is the binary64 arithmetic of [SpecFloat] (53 bits of
    precision, largest exponent 1024), which computes. *)

From Stdlib Require Import ZArith Lia Strings.Byte Floats.SpecFloat.
From stdpp Require Import base decidable countable list.
From S2P Require Import Prelude Scheduled.

Local Open Scope Z_scope.

(** ** [float64] *)

Definition float64 : Type := spec_float.
Definition of_int (n : Z) : float64 := binary_normalize 53 1024 n 0 false.
Definition fadd : float64 → float64 → float64 := SFadd 53 1024.
Definition fsub : float64 → float64 → float64 := SFsub 53 1024.
Definition fmul : float64 → float64 → float64 := SFmul 53 1024.
Definition fdiv : float64 → float64 → float64 := SFdiv 53 1024.
Definition fltb (x y : float64) : bool := SFltb x y.

(** [int(x)]: truncation; infinities and NaN convert as on amd64. *)
Definition to_int (x : float64) : Z :=
  match x with
  | S754_zero _ => 0
  | S754_finite s m e =>
      let v := if 0 <=? e then Z.pos m * 2 ^ e else Z.pos m / 2 ^ (- e) in if s then - v else v
  | S754_infinity _ | S754_nan => - 2 ^ 63
  end.

Definition million : float64 := of_int 1000000.

(** ** The generated update *)

Record M4ObserverState := {
  Initialized : bool; QueueMilli : Z; ArrivalMilli : Z; CompletionMilli : Z;
  Delay : float64; PreviousDelay : float64 }.

Record M4ObserverOutput := {
  oo_State : M4ObserverState; oo_PersistenceQueueMilli : Z; oo_LinearQueueMilli : Z;
  oo_PersistenceDelay : float64; oo_LinearDelay : float64 }.

Definition M4NonNegative (n : Z) : Z := if n <? 0 then 0 else n.
Definition M4NonNegativeDuration (x : float64) : float64 := if fltb x (S754_zero false) then S754_zero false else x.

(** [fn_Scheduler_M4ObserverUpdate]; integer division truncates. *)
Definition M4ObserverUpdate (s : M4ObserverState) (queue arrivals completions : Z) (delay : float64) (horizon : Z)
    : M4ObserverOutput :=
  let queueMilli := queue * 1000 in
  let arrivalMilli := arrivals * 1000 in
  let completionMilli := completions * 1000 in
  let next :=
    if Initialized s then
      {| Initialized := true; QueueMilli := Z.quot (3 * QueueMilli s + queueMilli) 4;
         ArrivalMilli := Z.quot (ArrivalMilli s + arrivalMilli) 2;
         CompletionMilli := Z.quot (CompletionMilli s + completionMilli) 2;
         Delay := fdiv (fadd (fmul (of_int 3) (Delay s)) delay) (of_int 4); PreviousDelay := Delay s |}
    else
      {| Initialized := true; QueueMilli := queueMilli; ArrivalMilli := arrivalMilli;
         CompletionMilli := completionMilli; Delay := delay; PreviousDelay := delay |} in
  let linearQueue := M4NonNegative (QueueMilli next + horizon * (ArrivalMilli next - CompletionMilli next)) in
  let slope := fsub (Delay next) (PreviousDelay next) in
  let linearDelay := M4NonNegativeDuration (fadd (Delay next) (fmul (of_int horizon) slope)) in
  {| oo_State := next; oo_PersistenceQueueMilli := queueMilli; oo_LinearQueueMilli := linearQueue;
     oo_PersistenceDelay := Delay next; oo_LinearDelay := linearDelay |}.

(** ** The observer *)

Definition m4PredictionHorizonTicks : Z := 2.

Record observerPrediction := {
  pr_tick : Z; pr_persistenceQueue : Z; pr_linearQueue : Z; pr_persistenceDelay : Z; pr_linearDelay : Z }.
Definition zeroPrediction : observerPrediction :=
  {| pr_tick := 0; pr_persistenceQueue := 0; pr_linearQueue := 0; pr_persistenceDelay := 0; pr_linearDelay := 0 |}.

Record ObserverEvent := {
  oe_Tick : Z; oe_AtNS : Z; oe_RawQueue : Z; oe_FilteredQueueMilli : Z; oe_Arrivals : Z; oe_Completions : Z;
  oe_MeanDispatchDelayMicros : Z; oe_PersistenceQueueMilli : Z; oe_LinearQueueMilli : Z;
  oe_PersistenceDelayMicros : Z; oe_LinearDelayMicros : Z; oe_ActualQueueMilli : Z; oe_ActualDelayMicros : Z;
  oe_MaturedPersistenceQueueMilli : Z; oe_MaturedLinearQueueMilli : Z; oe_MaturedPersistenceDelayMicros : Z;
  oe_MaturedLinearDelayMicros : Z; oe_Matured : bool; oe_ReactiveWouldLimit : bool; oe_PredictiveWouldLimit : bool }.

(** The sums over the matured predictions of the queue, and of the delay. *)
Record errorSums := {
  es_samples : Z; es_persistAbs : Z; es_linearAbs : Z; es_persistBias : Z; es_linearBias : Z; es_linearWins : Z }.
Definition zeroSums : errorSums :=
  {| es_samples := 0; es_persistAbs := 0; es_linearAbs := 0; es_persistBias := 0; es_linearBias := 0; es_linearWins := 0 |}.

Record observerRuntime := {
  ob_state : M4ObserverState; ob_tick : Z; ob_ring : list observerPrediction;
  ob_queue : errorSums; ob_delay : errorSums;
  ob_rawSum : Z; ob_rawSquares : Z; ob_filteredSum : Z; ob_filteredSquares : Z;
  ob_wouldReactive : Z; ob_wouldPredictive : Z;
  ob_controlActions : Z; ob_targetChanges : Z; ob_limitedTicks : Z;
  ob_minimumExposure : Z; ob_maximumExposure : Z }.

Definition zeroObserver : observerRuntime :=
  {| ob_state := {| Initialized := false; QueueMilli := 0; ArrivalMilli := 0; CompletionMilli := 0;
                    Delay := S754_zero false; PreviousDelay := S754_zero false |};
     ob_tick := 0; ob_ring := replicate 3 zeroPrediction; ob_queue := zeroSums; ob_delay := zeroSums;
     ob_rawSum := 0; ob_rawSquares := 0; ob_filteredSum := 0; ob_filteredSquares := 0;
     ob_wouldReactive := 0; ob_wouldPredictive := 0; ob_controlActions := 0; ob_targetChanges := 0;
     ob_limitedTicks := 0; ob_minimumExposure := 0; ob_maximumExposure := 0 |}.

Definition absInt (value : Z) : Z := if value <? 0 then - value else value.

(** One more sample with the errors of the two predictions. *)
Definition add_errors (persistErr linearErr : Z) (e : errorSums) : errorSums :=
  {| es_samples := es_samples e + 1; es_persistAbs := es_persistAbs e + absInt persistErr;
     es_linearAbs := es_linearAbs e + absInt linearErr; es_persistBias := es_persistBias e + persistErr;
     es_linearBias := es_linearBias e + linearErr;
     es_linearWins := if absInt linearErr <? absInt persistErr then es_linearWins e + 1 else es_linearWins e |}.

Definition observer_update (o : observerRuntime) (rawQueue arrivals completions delayMicros : Z)
    : observerRuntime * ObserverEvent :=
  let delayMicros := if completions =? 0 then to_int (fmul (Delay (ob_state o)) million) else delayMicros in
  let out := M4ObserverUpdate (ob_state o) rawQueue arrivals completions (fdiv (of_int delayMicros) million)
               m4PredictionHorizonTicks in
  let tick := ob_tick o + 1 in
  let persistenceDelay := to_int (fmul (oo_PersistenceDelay out) million) in
  let linearDelay := to_int (fmul (oo_LinearDelay out) million) in
  let reactive := 1800 <=? persistenceDelay in
  let predictive := 1800 <=? linearDelay in
  let matureIndex := Z.rem (tick - m4PredictionHorizonTicks) (zlen (ob_ring o)) in
  let matured := if 0 <=? matureIndex then default zeroPrediction (ob_ring o !! Z.to_nat matureIndex) else zeroPrediction in
  let actualQueue := rawQueue * 1000 in
  let mature := negb (pr_tick matured =? 0) && (tick - pr_tick matured =? m4PredictionHorizonTicks) in
  let matureDelay := mature && (0 <? completions) in
  let event :=
    {| oe_Tick := tick; oe_AtNS := 0; oe_RawQueue := rawQueue; oe_FilteredQueueMilli := QueueMilli (oo_State out);
       oe_Arrivals := arrivals; oe_Completions := completions; oe_MeanDispatchDelayMicros := delayMicros;
       oe_PersistenceQueueMilli := oo_PersistenceQueueMilli out; oe_LinearQueueMilli := oo_LinearQueueMilli out;
       oe_PersistenceDelayMicros := persistenceDelay; oe_LinearDelayMicros := linearDelay;
       oe_ActualQueueMilli := if mature then actualQueue else 0;
       oe_ActualDelayMicros := if matureDelay then delayMicros else 0;
       oe_MaturedPersistenceQueueMilli := if mature then pr_persistenceQueue matured else 0;
       oe_MaturedLinearQueueMilli := if mature then pr_linearQueue matured else 0;
       oe_MaturedPersistenceDelayMicros := if matureDelay then pr_persistenceDelay matured else 0;
       oe_MaturedLinearDelayMicros := if matureDelay then pr_linearDelay matured else 0;
       oe_Matured := mature; oe_ReactiveWouldLimit := reactive; oe_PredictiveWouldLimit := predictive |} in
  let filtered := QueueMilli (oo_State out) in
  ({| ob_state := oo_State out; ob_tick := tick;
      ob_ring := <[Z.to_nat (Z.rem tick (zlen (ob_ring o))) :=
        {| pr_tick := tick; pr_persistenceQueue := oo_PersistenceQueueMilli out; pr_linearQueue := oo_LinearQueueMilli out;
           pr_persistenceDelay := persistenceDelay; pr_linearDelay := linearDelay |}]> (ob_ring o);
      ob_queue := if mature then add_errors (pr_persistenceQueue matured - actualQueue)
                                   (pr_linearQueue matured - actualQueue) (ob_queue o) else ob_queue o;
      ob_delay := if matureDelay then add_errors (pr_persistenceDelay matured - delayMicros)
                                        (pr_linearDelay matured - delayMicros) (ob_delay o) else ob_delay o;
      ob_rawSum := ob_rawSum o + actualQueue; ob_rawSquares := ob_rawSquares o + actualQueue * actualQueue;
      ob_filteredSum := ob_filteredSum o + filtered; ob_filteredSquares := ob_filteredSquares o + filtered * filtered;
      ob_wouldReactive := if reactive then ob_wouldReactive o + 1 else ob_wouldReactive o;
      ob_wouldPredictive := if predictive then ob_wouldPredictive o + 1 else ob_wouldPredictive o;
      ob_controlActions := ob_controlActions o; ob_targetChanges := ob_targetChanges o;
      ob_limitedTicks := ob_limitedTicks o; ob_minimumExposure := ob_minimumExposure o;
      ob_maximumExposure := ob_maximumExposure o |}, event).

Definition recordControl (exposure maximum : Z) (changed : bool) (o : observerRuntime) : observerRuntime :=
  {| ob_state := ob_state o; ob_tick := ob_tick o; ob_ring := ob_ring o; ob_queue := ob_queue o; ob_delay := ob_delay o;
     ob_rawSum := ob_rawSum o; ob_rawSquares := ob_rawSquares o; ob_filteredSum := ob_filteredSum o;
     ob_filteredSquares := ob_filteredSquares o; ob_wouldReactive := ob_wouldReactive o;
     ob_wouldPredictive := ob_wouldPredictive o; ob_controlActions := ob_controlActions o + 1;
     ob_targetChanges := if changed then ob_targetChanges o + 1 else ob_targetChanges o;
     ob_limitedTicks := if exposure <? maximum then ob_limitedTicks o + 1 else ob_limitedTicks o;
     ob_minimumExposure := if (ob_minimumExposure o =? 0) || (exposure <? ob_minimumExposure o) then exposure
                           else ob_minimumExposure o;
     ob_maximumExposure := if ob_maximumExposure o <? exposure then exposure else ob_maximumExposure o |}.

(** ** Metrics *)

Definition ratio (n d : Z) : float64 := if d =? 0 then S754_zero false else fdiv (of_int n) (of_int d).
Definition variance (sum squares count : Z) : float64 :=
  if count =? 0 then S754_zero false
  else let mean := fdiv (of_int sum) (of_int count) in
       fsub (fdiv (of_int squares) (of_int count)) (fmul mean mean).

Record ObserverMetrics := {
  om_Samples : Z; om_QueuePersistenceMAE : float64; om_QueueLinearMAE : float64; om_QueuePersistenceBias : float64;
  om_QueueLinearBias : float64; om_QueueLinearWins : Z; om_DelaySamples : Z; om_DelayPersistenceMAEUS : float64;
  om_DelayLinearMAEUS : float64; om_DelayPersistenceBiasUS : float64; om_DelayLinearBiasUS : float64;
  om_DelayLinearWins : Z; om_RawQueueVariance : float64; om_FilteredQueueVariance : float64;
  om_WouldLimitReactive : Z; om_WouldLimitPredictive : Z; om_ControlActions : Z; om_TargetChanges : Z;
  om_LimitedTicks : Z; om_MinimumExposure : Z; om_MaximumExposure : Z; om_HorizonTicks : Z; om_TickMicros : Z }.

Definition observer_metrics (o : observerRuntime) : ObserverMetrics :=
  let q := ob_queue o in
  let d := ob_delay o in
  let thousand := of_int 1000 in
  {| om_Samples := es_samples q; om_QueuePersistenceMAE := fdiv (ratio (es_persistAbs q) (es_samples q)) thousand;
     om_QueueLinearMAE := fdiv (ratio (es_linearAbs q) (es_samples q)) thousand;
     om_QueuePersistenceBias := fdiv (ratio (es_persistBias q) (es_samples q)) thousand;
     om_QueueLinearBias := fdiv (ratio (es_linearBias q) (es_samples q)) thousand;
     om_QueueLinearWins := es_linearWins q; om_DelaySamples := es_samples d;
     om_DelayPersistenceMAEUS := ratio (es_persistAbs d) (es_samples d);
     om_DelayLinearMAEUS := ratio (es_linearAbs d) (es_samples d);
     om_DelayPersistenceBiasUS := ratio (es_persistBias d) (es_samples d);
     om_DelayLinearBiasUS := ratio (es_linearBias d) (es_samples d); om_DelayLinearWins := es_linearWins d;
     om_RawQueueVariance := fdiv (variance (ob_rawSum o) (ob_rawSquares o) (ob_tick o)) million;
     om_FilteredQueueVariance := fdiv (variance (ob_filteredSum o) (ob_filteredSquares o) (ob_tick o)) million;
     om_WouldLimitReactive := ob_wouldReactive o; om_WouldLimitPredictive := ob_wouldPredictive o;
     om_ControlActions := ob_controlActions o; om_TargetChanges := ob_targetChanges o;
     om_LimitedTicks := ob_limitedTicks o; om_MinimumExposure := ob_minimumExposure o;
     om_MaximumExposure := ob_maximumExposure o; om_HorizonTicks := m4PredictionHorizonTicks; om_TickMicros := 1000 |}.
