(* ===== verification/ScheduledDispatch.v ===== *)
(** * The conflict-aware dispatcher ([internal/scheduled/conflict.go], [scheduled.go])

    Requests that are admitted, wait for the owner of their conflict token, and
    are dispatched in batches to workers.  The dispatcher is one goroutine: each
    case of its [select] is a function on the state.  A request is a pointer in
    Go; here it carries the number [rq_ptr] that stands for its identity, since
    the dispatcher alone changes it.  Times and durations are nanoseconds; the
    time spent in the policies is not modelled. *)

From Stdlib Require Import ZArith Lia Strings.Byte Strings.String.
From stdpp Require Import base decidable countable list gmap.
From S2P Require Import Prelude GoText GoJson Scheduled ScheduledObserver.

Local Open Scope Z_scope.

(** ** Tokens *)

Definition ConflictNone : Z := 0.
Definition ConflictOrders : Z := 1.
Definition ConflictInventory : Z := 2.

Record ConflictToken := { tk_Domain : Z; tk_Key : Z }.
Definition zeroToken : ConflictToken := {| tk_Domain := 0; tk_Key := 0 |}.

#[export] Instance ConflictToken_eq_dec : EqDecision ConflictToken.
Proof. solve_decision. Defined.
#[export] Instance ConflictToken_countable : Countable ConflictToken.
Proof.
  refine (inj_countable (λ t, (tk_Domain t, tk_Key t)) (λ p, Some {| tk_Domain := p.1; tk_Key := p.2 |}) _).
  by intros [].
Defined.

Definition token_string (t : ConflictToken) : bytes := dec (tk_Domain t) ++ bs ":" ++ dec (tk_Key t).
Definition token_valid (t : ConflictToken) : bool := negb (tk_Domain t =? ConflictNone).

Definition conflictToken {P} `{planLookup P} (plan : P) (op : Operation) : ConflictToken * bool :=
  match command plan (op_Kind op) with
  | None => (zeroToken, false)
  | Some d =>
      if cd_Transaction d =? 0 then (zeroToken, false)
      else if cd_Conflict d =? 1 then
        ({| tk_Domain := ConflictOrders; tk_Key := op_CustomerID op |}, op_Kind op =? OrderWrite)
      else if cd_Conflict d =? 2 then
        ({| tk_Domain := ConflictInventory; tk_Key := op_ProductID op |}, op_Kind op =? InventoryWrite)
      else (zeroToken, false)
  end.

(** ** Agents *)

Inductive controlStrategy :=
| controlNone | controlCentralized | controlParity | controlPriority | controlPlantCharacterization
| controlObserverShadow | controlReactive | controlUtility | controlAgentic.
#[export] Instance controlStrategy_eq_dec : EqDecision controlStrategy.
Proof. solve_decision. Defined.

Inductive RequestState :=
| StateCreated | StateAdmitted | StateReady | StateWaitingConflict | StateDispatched | StateRunning
| StateCompleted | StateFailed.
#[export] Instance RequestState_eq_dec : EqDecision RequestState.
Proof. solve_decision. Defined.

Inductive MessageKind := MessageWake | MessageCompletion.
Record AgentMessage := { am_Kind : MessageKind; am_Sender : Z }.

Definition mailboxCapacity : nat := 2.

(** The arrays with their lengths are lists of at most eight and two entries. *)
Record requestAgent := { ra_state : RequestState; ra_history : list RequestState; ra_mailbox : list AgentMessage }.
Definition zeroAgent : requestAgent := {| ra_state := StateCreated; ra_history := []; ra_mailbox := [] |}.

Definition agent_transition (next : RequestState) (a : requestAgent) : requestAgent :=
  {| ra_state := next;
     ra_history := if (length (ra_history a) <? 8)%nat then ra_history a ++ [next] else ra_history a;
     ra_mailbox := ra_mailbox a |}.

Definition newRequestAgent : requestAgent :=
  agent_transition StateReady (agent_transition StateAdmitted (agent_transition StateCreated zeroAgent)).

Definition agent_send (m : AgentMessage) (a : requestAgent) : requestAgent * bool :=
  if (mailboxCapacity <=? length (ra_mailbox a))%nat then (a, false)
  else ({| ra_state := ra_state a; ra_history := ra_history a; ra_mailbox := ra_mailbox a ++ [m] |}, true).

Definition agent_receive (a : requestAgent) : requestAgent * option AgentMessage :=
  match ra_mailbox a with
  | [] => (a, None)
  | m :: rest => ({| ra_state := ra_state a; ra_history := ra_history a; ra_mailbox := rest |}, Some m)
  end.

(** ** Requests and the state *)

Record request := {
  rq_ptr : nat; rq_op : Operation; rq_queuedAt : Z; rq_token : ConflictToken; rq_waitingSince : option Z;
  rq_conflictWait : Z; rq_agent : requestAgent }.

Definition set_token (t : ConflictToken) (r : request) : request :=
  {| rq_ptr := rq_ptr r; rq_op := rq_op r; rq_queuedAt := rq_queuedAt r; rq_token := t;
     rq_waitingSince := rq_waitingSince r; rq_conflictWait := rq_conflictWait r; rq_agent := rq_agent r |}.
Definition set_waiting (since : option Z) (wait : Z) (r : request) : request :=
  {| rq_ptr := rq_ptr r; rq_op := rq_op r; rq_queuedAt := rq_queuedAt r; rq_token := rq_token r;
     rq_waitingSince := since; rq_conflictWait := wait; rq_agent := rq_agent r |}.
Definition set_agent (a : requestAgent) (r : request) : request :=
  {| rq_ptr := rq_ptr r; rq_op := rq_op r; rq_queuedAt := rq_queuedAt r; rq_token := rq_token r;
     rq_waitingSince := rq_waitingSince r; rq_conflictWait := rq_conflictWait r; rq_agent := a |}.

Record batch := { bt_requests : list request; bt_dispatched : Z; bt_pending : Z; bt_active : Z }.
Record owner := { ow_request : request; ow_acquiredAt : Z }.
Record completion := { cm_job : batch; cm_err : bool; cm_started : Z; cm_finished : Z }.

Record Result := {
  rs_Err : bool; rs_QueueTime : Z; rs_Service : Z; rs_ConflictWait : Z; rs_BatchSize : Z; rs_Priority : Z }.

Record TraceEvent := { te_RequestID : Z; te_Event : bytes; te_Reason : bytes }.
Record PlantEvent := {
  pe_AtNS : Z; pe_Kind : bytes; pe_RequestID : Z; pe_CommandKind : bytes; pe_Pending : Z; pe_Active : Z; pe_Admitted : Z;
  pe_BatchSize : Z; pe_QueuedAtNS : Z; pe_DispatchedAtNS : Z; pe_StartedAtNS : Z; pe_CompletedAtNS : Z;
  pe_QueueNS : Z; pe_ServiceNS : Z; pe_DispatchDelayNS : Z }.

(** What a scheduler is built with. *)
Record config (P : Type) := {
  cf_capacity : Z; cf_maxBatch : Z; cf_batchWait : Z; cf_workers : Z; cf_plan : P; cf_strategy : controlStrategy;
  cf_traceEnabled : bool; cf_observerTrace : bool }.
Arguments cf_capacity {P}. Arguments cf_maxBatch {P}. Arguments cf_batchWait {P}. Arguments cf_workers {P}.
Arguments cf_plan {P}. Arguments cf_strategy {P}. Arguments cf_traceEnabled {P}. Arguments cf_observerTrace {P}.

(** The strategy of a mode; the modes without one run the plain loop. *)
Definition mode_strategy (mode : string) : controlStrategy :=
  if String.eqb mode "conflict" then controlCentralized
  else if String.eqb mode "f0" then controlParity
  else if String.eqb mode "priority" then controlPriority
  else if String.eqb mode "plant" then controlPlantCharacterization
  else if String.eqb mode "shadow" then controlObserverShadow
  else if String.eqb mode "reactive" then controlReactive
  else if String.eqb mode "f1" then controlUtility
  else if String.eqb mode "agentic" then controlAgentic
  else controlNone.

(** The settings of [newScheduler] in the modes that take the static plan, which
    are ["static"] and those with a strategy.  Tracing is switched on before the
    first request. *)
Definition new_config (capacity maxBatch workers batchWait : Z) (mode : string) (traced observerTraced : bool)
    : config executionPlan :=
  {| cf_capacity := if capacity <? 1 then 1 else capacity; cf_maxBatch := if maxBatch <? 1 then 1 else maxBatch;
     cf_batchWait := batchWait; cf_workers := if workers <? 1 then 1 else workers; cf_plan := staticExecutionPlan;
     cf_strategy := mode_strategy mode; cf_traceEnabled := traced; cf_observerTrace := observerTraced |}.

(** The fields of [Scheduler] that change, and the variables of
    [conflictDispatch].  [st_jobs] is the channel of jobs and [st_answers]
    holds the finished requests with what was sent to their [done] channels. *)
Record state := {
  st_used : Z; st_jobs : list batch; st_answers : list (request * Result);
  st_counters : conflictCounters; st_parity : controller; st_fair : controller; st_goFair : conventionalPolicy;
  st_trace : list TraceEvent; st_plant : list PlantEvent;
  st_observerEvents : list ObserverEvent; st_observerSummary : option ObserverMetrics;
  st_pending : list request; st_owned : gmap ConflictToken owner; st_active : Z; st_exposure : Z;
  st_arrivals : Z; st_completions : Z; st_delay : Z; st_observer : observerRuntime }.

Definition set_queue (pending : list request) (owned : gmap ConflictToken owner) (active : Z) (jobs : list batch)
    (s : state) : state :=
  {| st_used := st_used s; st_jobs := jobs; st_answers := st_answers s; st_counters := st_counters s;
     st_parity := st_parity s; st_fair := st_fair s; st_goFair := st_goFair s; st_trace := st_trace s;
     st_plant := st_plant s; st_observerEvents := st_observerEvents s; st_observerSummary := st_observerSummary s;
     st_pending := pending; st_owned := owned; st_active := active; st_exposure := st_exposure s;
     st_arrivals := st_arrivals s; st_completions := st_completions s; st_delay := st_delay s;
     st_observer := st_observer s |}.
Definition set_pending (pending : list request) (s : state) : state :=
  set_queue pending (st_owned s) (st_active s) (st_jobs s) s.
Definition set_counters (f : conflictCounters → conflictCounters) (s : state) : state :=
  {| st_used := st_used s; st_jobs := st_jobs s; st_answers := st_answers s; st_counters := f (st_counters s);
     st_parity := st_parity s; st_fair := st_fair s; st_goFair := st_goFair s; st_trace := st_trace s;
     st_plant := st_plant s; st_observerEvents := st_observerEvents s; st_observerSummary := st_observerSummary s;
     st_pending := st_pending s; st_owned := st_owned s; st_active := st_active s; st_exposure := st_exposure s;
     st_arrivals := st_arrivals s; st_completions := st_completions s; st_delay := st_delay s;
     st_observer := st_observer s |}.
Definition set_policies (parity fair : controller) (goFair : conventionalPolicy) (s : state) : state :=
  {| st_used := st_used s; st_jobs := st_jobs s; st_answers := st_answers s; st_counters := st_counters s;
     st_parity := parity; st_fair := fair; st_goFair := goFair; st_trace := st_trace s;
     st_plant := st_plant s; st_observerEvents := st_observerEvents s; st_observerSummary := st_observerSummary s;
     st_pending := st_pending s; st_owned := st_owned s; st_active := st_active s; st_exposure := st_exposure s;
     st_arrivals := st_arrivals s; st_completions := st_completions s; st_delay := st_delay s;
     st_observer := st_observer s |}.
Definition set_events (trace : list TraceEvent) (plant : list PlantEvent) (s : state) : state :=
  {| st_used := st_used s; st_jobs := st_jobs s; st_answers := st_answers s; st_counters := st_counters s;
     st_parity := st_parity s; st_fair := st_fair s; st_goFair := st_goFair s; st_trace := trace;
     st_plant := plant; st_observerEvents := st_observerEvents s; st_observerSummary := st_observerSummary s;
     st_pending := st_pending s; st_owned := st_owned s; st_active := st_active s; st_exposure := st_exposure s;
     st_arrivals := st_arrivals s; st_completions := st_completions s; st_delay := st_delay s;
     st_observer := st_observer s |}.
Definition set_answers (used : Z) (answers : list (request * Result)) (s : state) : state :=
  {| st_used := used; st_jobs := st_jobs s; st_answers := answers; st_counters := st_counters s;
     st_parity := st_parity s; st_fair := st_fair s; st_goFair := st_goFair s; st_trace := st_trace s;
     st_plant := st_plant s; st_observerEvents := st_observerEvents s; st_observerSummary := st_observerSummary s;
     st_pending := st_pending s; st_owned := st_owned s; st_active := st_active s; st_exposure := st_exposure s;
     st_arrivals := st_arrivals s; st_completions := st_completions s; st_delay := st_delay s;
     st_observer := st_observer s |}.
Definition set_ticks (arrivals completions delay : Z) (s : state) : state :=
  {| st_used := st_used s; st_jobs := st_jobs s; st_answers := st_answers s; st_counters := st_counters s;
     st_parity := st_parity s; st_fair := st_fair s; st_goFair := st_goFair s; st_trace := st_trace s;
     st_plant := st_plant s; st_observerEvents := st_observerEvents s; st_observerSummary := st_observerSummary s;
     st_pending := st_pending s; st_owned := st_owned s; st_active := st_active s; st_exposure := st_exposure s;
     st_arrivals := arrivals; st_completions := completions; st_delay := delay; st_observer := st_observer s |}.
Definition set_observer (exposure : Z) (o : observerRuntime) (events : list ObserverEvent)
    (summary : option ObserverMetrics) (s : state) : state :=
  {| st_used := st_used s; st_jobs := st_jobs s; st_answers := st_answers s; st_counters := st_counters s;
     st_parity := st_parity s; st_fair := st_fair s; st_goFair := st_goFair s; st_trace := st_trace s;
     st_plant := st_plant s; st_observerEvents := events; st_observerSummary := summary;
     st_pending := st_pending s; st_owned := st_owned s; st_active := st_active s; st_exposure := exposure;
     st_arrivals := st_arrivals s; st_completions := st_completions s; st_delay := st_delay s; st_observer := o |}.

Section dispatcher.
Context {P : Type} `{planLookup P} (cf : config P).

Abbreviation agentic := (bool_decide (cf_strategy cf = controlAgentic)).
Abbreviation plant := (bool_decide (cf_strategy cf = controlPlantCharacterization)).
Definition observerActive : bool :=
  bool_decide (cf_strategy cf = controlObserverShadow) || bool_decide (cf_strategy cf = controlReactive).

(** ** Traces *)

Definition trace (r : request) (event : string) (reason : bytes) (s : state) : state :=
  if negb (cf_traceEnabled cf) then s
  else if (length (st_trace s) <? 256)%nat
  then set_events (st_trace s ++ [{| te_RequestID := op_Sequence (rq_op r); te_Event := bs event; te_Reason := reason |}])
         (st_plant s) s
  else s.

Definition recordPlant (event : PlantEvent) (s : state) : state :=
  if Nat.ltb (length (st_plant s)) (Z.to_nat 65536) then set_events (st_trace s) (st_plant s ++ [event]) s else s.

Definition recordObserver (event : ObserverEvent) (summary : ObserverMetrics) (s : state) : state :=
  set_observer (st_exposure s) (st_observer s)
    (if cf_observerTrace cf && Nat.ltb (length (st_observerEvents s)) (Z.to_nat 16384)
     then st_observerEvents s ++ [event] else st_observerEvents s) (Some summary) s.

(** ** Selection *)

Record candidate := { ca_index : nat; ca_priority : Z; ca_batchCount : Z; ca_age : Z }.

Definition busy (s : state) (r : request) : option owner :=
  if token_valid (rq_token r) then st_owned s !! rq_token r else None.

(** A request that waits for the owner of its token, at [index]. *)
Definition block_request (now : Z) (index : nat) (r : request) (o : owner) (s : state) : state :=
  let s :=
    match rq_waitingSince r with
    | Some _ => s
    | None =>
        let r' := set_waiting (Some now) (rq_conflictWait r) r in
        let r' := if agentic then set_agent (agent_transition StateWaitingConflict (rq_agent r')) r' else r' in
        let s := set_counters (add conflicts 1) s in
        let s := set_counters (add blocked 1) s in
        let s := set_pending (<[index := r']> (st_pending s)) s in
        trace r' "WaitingConflict"
          (bs "token=" ++ token_string (rq_token r) ++ bs " owner=" ++ dec (op_Sequence (rq_op (ow_request o)))) s
    end in
  let depth := zlen (filter (λ q, rq_token q = rq_token r) (st_pending s)) in
  set_counters (updateMax peakHot depth) s.

(** [1] and the other pending requests [r] at [index] can be batched with. *)
Definition batch_count (pending : list request) (index : nat) (r : request) : Z :=
  if op_Kind (rq_op r) <=? RangeRead
  then 1 + zlen (filter (λ p, p.1 ≠ index ∧ compatible (cf_plan cf) (op_Kind (rq_op r)) p.2 = true)
                   (imap (λ j other, (j, op_Kind (rq_op other))) pending))
  else 1.

Definition priority_of (r : request) : Z :=
  match command (cf_plan cf) (op_Kind (rq_op r)) with Some d => cd_Priority d | None => 0 end.

(** The loop over the pending requests, from [index] on, [count] of them. *)
Fixpoint collect (count : nat) (index : nat) (now : Z) (s : state) (legal : list candidate) : state * list candidate :=
  match count with
  | O => (s, legal)
  | S count =>
      match st_pending s !! index with
      | None => (s, legal)
      | Some r =>
          match busy s r with
          | Some o => collect count (S index) now (block_request now index r o s) legal
          | None =>
              let age := now - rq_queuedAt r in
              let batchCount := batch_count (st_pending s) index r in
              if (op_Kind (rq_op r) <=? RangeRead) && (batchCount <? cf_maxBatch cf) && (age <? cf_batchWait cf)
              then collect count (S index) now s legal
              else collect count (S index) now s
                     (legal ++ [{| ca_index := index; ca_priority := priority_of r; ca_batchCount := batchCount;
                                   ca_age := age |}])
          end
      end
  end.

Definition sequence_at (pending : list request) (c : candidate) : Z :=
  match pending !! ca_index c with Some r => op_Sequence (rq_op r) | None => 0 end.

(** The candidates the loop over [legal] keeps. *)
Definition pick_high (pending : list request) (first : candidate) (legal : list candidate) : candidate :=
  foldl (fun high c =>
    if (ca_priority high <? ca_priority c)
       || ((ca_priority c =? ca_priority high)
           && ((ca_age high <? ca_age c)
               || ((ca_age c =? ca_age high) && (sequence_at pending c <? sequence_at pending high))))
    then c else high) first legal.

Definition pick_batch (legal : list candidate) : option candidate :=
  foldl (fun best c =>
    if 1 <? ca_batchCount c then
      match best with
      | None => Some c
      | Some b =>
          if (ca_batchCount b <? ca_batchCount c) || ((ca_batchCount c =? ca_batchCount b) && (ca_age b <? ca_age c))
          then Some c else best
      end
    else best) None legal.

Definition pick_aged (pending : list request) (threshold : Z) (legal : list candidate) : option candidate :=
  foldl (fun best c =>
    if threshold <=? ca_age c then
      match best with
      | None => Some c
      | Some b =>
          if (ca_age b <? ca_age c) || ((ca_age c =? ca_age b) && (sequence_at pending c <? sequence_at pending b))
          then Some c else best
      end
    else best) None legal.

Definition ageUnits (age : Z) : Z := let units := Z.quot age 100000 in if 100 <? units then 100 else units.

(** [5*s.batchWait] is a [time.Duration], a signed integer of 64 bits. *)
Definition starvation_threshold : Z :=
  let threshold := i64 (5 * cf_batchWait cf) in if threshold <? 5000000 then 5000000 else threshold.

(** The action with the best score before any policy. *)
Definition raw_choice (oldestScore highScore : Z) (batchScore : option Z) : Z * Z :=
  let '(action, score) := (actionOldest, oldestScore) in
  let '(action, score) := if score <? highScore then (actionHighPriority, highScore) else (action, score) in
  match batchScore with
  | Some b => if score <? b then (actionBatch, b) else (action, score)
  | None => (action, score)
  end.

(** The closure [eligible] of the conventional lane. *)
Definition policy_eligible (batchable : bool) (action : Z) : bool :=
  (action =? actionOldest) || (action =? actionHighPriority) || ((action =? actionBatch) && batchable).

(** The lane of the conventional policy. *)
Definition conventional_action (rawAction rawScore : Z) (aged batchable : bool) (s : state) : Z * state :=
  let '(chosen, p, m) := selectAction (st_goFair s) rawAction rawScore aged
    (policy_eligible batchable) (st_counters s) in
  (chosen, set_counters (fun _ => m) (set_policies (st_parity s) (st_fair s) p s)).

Definition set_board (aged batchable : bool) (oldestScore highScore batchScore : Z) (f : controller) : controller :=
  {| ct_started := ct_started f; ct_completed := ct_completed f; ct_currentState := ct_currentState f;
     ct_instruction := ct_instruction f; ct_site := ct_site f;
     ct_board := {| OldestEligible := true; HighEligible := true; AgedEligible := aged; BatchEligible := batchable;
                    OldestScore := oldestScore; HighScore := highScore; BatchScore := batchScore;
                    Chosen := Chosen (ct_board f); Decisions := Decisions (ct_board f) |} |}.

(** The lane of the generated controller; [None] is a panic. *)
Definition generated_action (rawAction rawScore : Z) (aged batchable : bool) (oldestScore highScore batchScore : Z)
    (s : state) : option (Z * state) :=
  let site := ct_site (st_fair s) in
  f ← fair_step (set_board aged batchable oldestScore highScore batchScore (st_fair s));
  let chosen := Chosen (ct_board f) in
  let s := set_policies (st_parity s) f (st_goFair s) s in
  let s :=
    if aged then set_counters (add fairnessOverrides 1) s
    else if us_HasCurrent site && negb (rawAction =? us_Current site) && (chosen =? us_Current site) then
      if us_CommitAge site <? policyMinCommit then set_counters (add minimumCommitHolds 1) s
      else if rawScore <=? us_Score site + policyHysteresis then set_counters (add hysteresisHolds 1) s
      else s
    else s in
  Some (chosen,
        if us_HasCurrent site && negb (chosen =? us_Current site) then set_counters (add policySwitches 1) s else s).

(** What the last [Sprintf] writes. *)
Definition decision_reason (eligible chosen rawAction oldestScore highScore batchScore age : Z) : bytes :=
  bs "eligible=" ++ dec eligible ++ bs " action=" ++ dec chosen ++ bs " raw=" ++ dec rawAction
  ++ bs " scores(oldest=" ++ dec oldestScore ++ bs " high=" ++ dec highScore ++ bs " batch=" ++ dec batchScore
  ++ bs ") previous_persistent=true age_us=" ++ dec (Z.quot age 1000).

(** The selected candidate; [None] for the index -1. *)
Definition take_candidate (oldest : candidate) (high : candidate) (aged batchCandidate : option candidate)
    (chosen : Z) : option candidate :=
  if chosen =? actionHighPriority then Some high
  else if chosen =? actionAged then aged
  else if chosen =? actionBatch then batchCandidate
  else if chosen =? actionWait then None
  else Some oldest.

(** The strategies with scores; the outer [None] is a panic. *)
Definition select_scored (legal : list candidate) (oldest : candidate) (s : state) : option (option nat * state) :=
  let pending := st_pending s in
  let high := pick_high pending oldest legal in
  let batchCandidate := pick_batch legal in
  let aged := pick_aged pending starvation_threshold legal in
  let batchable := bool_decide (is_Some batchCandidate) in
  let isAged := bool_decide (is_Some aged) in
  let oldestScore := 100 + ageUnits (ca_age oldest) in
  let highScore := 300 + ageUnits (ca_age high) in
  let batchScore := match batchCandidate with Some c => 200 + 25 * ca_batchCount c | None => 0 end in
  let '(rawAction, rawScore) :=
    if isAged then (actionAged, 1000)
    else raw_choice oldestScore highScore (if batchable then Some batchScore else None) in
  '(chosen, s) ←
    (if bool_decide (cf_strategy cf ∈ [controlPriority; controlPlantCharacterization; controlObserverShadow; controlReactive])
     then Some (conventional_action rawAction rawScore isAged batchable s)
     else generated_action rawAction rawScore isAged batchable oldestScore highScore batchScore s);
  let s := set_counters (add utilityDecisions 1) s in
  let s := set_counters (add utilityCandidates 4) s in
  let s := if chosen =? actionAged then set_counters (add promotions 1) s else s in
  match take_candidate oldest high aged batchCandidate chosen with
  | None => Some (None, s)
  | Some selected =>
      let s := if Nat.eqb (ca_index selected) (ca_index oldest) then s
               else set_counters (add overtakes (Z.of_nat (ca_index selected) - Z.of_nat (ca_index oldest))) s in
      let s := set_counters (updateMax maximumDispatchAge (ca_age selected)) s in
      let s := match st_pending s !! ca_index selected with
               | Some r => trace r "PolicyDecision"
                   (decision_reason (zlen legal) chosen rawAction oldestScore highScore batchScore (ca_age selected)) s
               | None => s
               end in
      Some (Some (ca_index selected), s)
  end.

(** [selectRequest]: the index of the next request, if any. *)
Definition selectRequest (now : Z) (s : state) : option (option nat * state) :=
  let '(s, legal) := collect (length (st_pending s)) 0 now s [] in
  match legal with
  | [] => Some (None, s)
  | oldest :: _ =>
      if bool_decide (cf_strategy cf ∈ [controlCentralized; controlAgentic]) then Some (Some (ca_index oldest), s)
      else if bool_decide (cf_strategy cf = controlParity) then
        let f := st_parity s in
        f ← parity_step
          {| ct_started := ct_started f; ct_completed := ct_completed f; ct_currentState := ct_currentState f;
             ct_instruction := ct_instruction f; ct_site := ct_site f;
             ct_board := {| OldestEligible := true; HighEligible := HighEligible (ct_board f);
                            AgedEligible := AgedEligible (ct_board f); BatchEligible := BatchEligible (ct_board f);
                            OldestScore := OldestScore (ct_board f); HighScore := HighScore (ct_board f);
                            BatchScore := BatchScore (ct_board f); Chosen := Chosen (ct_board f);
                            Decisions := Decisions (ct_board f) |} |};
        let s := set_policies f (st_fair s) (st_goFair s) s in
        let s := set_counters (add utilityDecisions 1) s in
        let s := set_counters (add utilityCandidates 1) s in
        Some (if Chosen (ct_board f) =? actionOldest then Some (ca_index oldest) else None, s)
      else select_scored legal oldest s
  end.

(** ** Dispatching *)

(** The pending requests that join the batch of [first], and the rest. *)
Fixpoint gather (first : request) (group : list request) (pending : list request) : list request * list request :=
  match pending with
  | [] => (group, [])
  | r :: rest =>
      if (zlen group <? cf_maxBatch cf) && compatible (cf_plan cf) (op_Kind (rq_op first)) (op_Kind (rq_op r))
      then gather first (group ++ [r]) rest
      else let '(group, others) := gather first group rest in (group, r :: others)
  end.

(** The loop over the group: the requests as dispatched. *)
Fixpoint start_requests (now : Z) (size : Z) (group : list request) (s : state) : list request * state :=
  match group with
  | [] => ([], s)
  | r :: group =>
      let '(r, s) :=
        match rq_waitingSince r with
        | None => (r, s)
        | Some since =>
            let wait := now - since in
            (set_waiting (Some since) wait r,
             set_counters (updateMax waitMax wait) (set_counters (add waitTotal wait) s))
        end in
      let r := if agentic then set_agent (agent_transition StateRunning (agent_transition StateDispatched (rq_agent r))) r
               else r in
      let s := trace r "Dispatch" (bs "batch=" ++ dec size) s in
      let '(rest, s) := start_requests now size group s in
      (r :: rest, s)
  end.

(** One round of [dispatchReady] with the request at [index]. *)
Definition dispatch_one (now : Z) (index : nat) (first : request) (s : state) : state :=
  let rest := take index (st_pending s) ++ drop (S index) (st_pending s) in
  let '(group, pending) := if op_Kind (rq_op first) <=? RangeRead then gather first [first] rest else ([first], rest) in
  let s := if token_valid (rq_token first)
           then trace first "ConflictAcquired" (token_string (rq_token first))
                  (set_queue pending (<[rq_token first := {| ow_request := first; ow_acquiredAt := now |}]> (st_owned s))
                     (st_active s) (st_jobs s) s)
           else set_pending pending s in
  let '(group, s) := start_requests now (zlen group) group s in
  let active := st_active s + 1 in
  let s := set_queue (st_pending s) (st_owned s) active (st_jobs s) s in
  let s := if plant then recordPlant
      {| pe_AtNS := now; pe_Kind := bs "dispatch"; pe_RequestID := op_Sequence (rq_op first);
         pe_CommandKind := kind_string (op_Kind (rq_op first)); pe_Pending := zlen (st_pending s); pe_Active := active;
         pe_Admitted := st_used s; pe_BatchSize := zlen group; pe_QueuedAtNS := rq_queuedAt first;
         pe_DispatchedAtNS := now; pe_StartedAtNS := 0; pe_CompletedAtNS := 0; pe_QueueNS := 0; pe_ServiceNS := 0;
         pe_DispatchDelayNS := 0 |} s else s in
  set_queue (st_pending s) (st_owned s) active
    (st_jobs s ++ [{| bt_requests := group; bt_dispatched := now; bt_pending := zlen (st_pending s); bt_active := active |}]) s.

(** [dispatchReady]: every round raises [active], so the distance to [exposure]
    bounds the rounds. *)
Fixpoint dispatch_rounds (fuel : nat) (now : Z) (s : state) : option state :=
  if st_exposure s <=? st_active s then Some s
  else
    match fuel with
    | O => None
    | S fuel =>
        '(index, s) ← selectRequest now s;
        match index with
        | None => Some s
        | Some index =>
            match st_pending s !! index with
            | None => None
            | Some first => dispatch_rounds fuel now (dispatch_one now index first s)
            end
        end
    end.
Definition dispatchReady (now : Z) (s : state) : option state :=
  dispatch_rounds (Z.to_nat (st_exposure s - st_active s)) now s.

(** ** The cases of the dispatcher *)

(** [sort.SliceStable] by sequence. *)
Definition sort_pending (pending : list request) : list request :=
  sort_by (fun a b => op_Sequence (rq_op a) <? op_Sequence (rq_op b)) pending.

(** [case r := <-s.input]. *)
Definition on_arrival (now : Z) (r : request) (s : state) : option state :=
  let s := if observerActive then set_ticks (st_arrivals s + 1) (st_completions s) (st_delay s) s else s in
  let r := set_token (conflictToken (cf_plan cf) (rq_op r)).1 r in
  let r := if agentic then set_agent newRequestAgent r else r in
  let s := set_pending (sort_pending (st_pending s ++ [r])) s in
  let s := if plant then recordPlant
      {| pe_AtNS := now; pe_Kind := bs "arrival"; pe_RequestID := op_Sequence (rq_op r);
         pe_CommandKind := kind_string (op_Kind (rq_op r)); pe_Pending := zlen (st_pending s); pe_Active := st_active s;
         pe_Admitted := st_used s; pe_BatchSize := 0; pe_QueuedAtNS := rq_queuedAt r; pe_DispatchedAtNS := 0;
         pe_StartedAtNS := 0; pe_CompletedAtNS := 0; pe_QueueNS := 0; pe_ServiceNS := 0; pe_DispatchDelayNS := 0 |} s
    else s in
  dispatchReady now s.

(** [wakeNext]: the first request that waits for the sender's token. *)
Definition waits_for (token : ConflictToken) (r : request) : bool :=
  bool_decide (rq_token r = token) && bool_decide (ra_state (rq_agent r) = StateWaitingConflict).

Definition wakeNext (sender : request) (s : state) : state :=
  if negb agentic then s
  else
    match list_find (fun r => waits_for (rq_token sender) r = true) (st_pending s) with
    | None => s
    | Some (index, r) =>
        let '(agent, sent) := agent_send {| am_Kind := MessageWake; am_Sender := op_Sequence (rq_op sender) |} (rq_agent r) in
        if negb sent then set_counters (add overflow 1) s
        else
          let s := set_counters (add messages 1) s in
          let s := set_counters (add wakeups 1) s in
          let s := set_counters (updateMax peakMailbox (zlen (ra_mailbox agent))) s in
          let agent := agent_transition StateReady (agent_receive agent).1 in
          let s := set_pending (<[index := set_agent agent r]> (st_pending s)) s in
          trace (set_agent agent r) "Wake" (bs "released_by=" ++ dec (op_Sequence (rq_op sender))) s
    end.

(** The release of a request's token. *)
Definition release (now : Z) (r : request) (s : state) : state :=
  if negb (token_valid (rq_token r)) then s
  else
    match st_owned s !! rq_token r with
    | Some o =>
        if Nat.eqb (rq_ptr (ow_request o)) (rq_ptr r) then
          let held := now - ow_acquiredAt o in
          let s := set_counters (add ownTotal held) s in
          let s := set_counters (updateMax ownMax held) s in
          let s := set_queue (st_pending s) (delete (rq_token r) (st_owned s)) (st_active s) (st_jobs s) s in
          wakeNext r (trace r "ConflictReleased" (token_string (rq_token r)) s)
        else set_counters (add doubleReleases 1) s
    | None => set_counters (add doubleReleases 1) s
    end.

(** The completion message of an agent. *)
Definition finish_agent (err : bool) (r : request) (s : state) : request * state :=
  if negb agentic then (r, s)
  else
    let '(agent, sent) := agent_send {| am_Kind := MessageCompletion; am_Sender := op_Sequence (rq_op r) |} (rq_agent r) in
    if negb sent then (set_agent agent r, set_counters (add overflow 1) s)
    else
      let s := set_counters (add messages 1) s in
      let s := set_counters (updateMax peakMailbox (zlen (ra_mailbox agent))) s in
      (set_agent (agent_transition (if err then StateFailed else StateCompleted) (agent_receive agent).1) r, s).

Definition complete_request (done : completion) (s : state) (r : request) : state :=
  let now := cm_finished done in
  let s := release now r s in
  let '(r, s) := finish_agent (cm_err done) r s in
  set_answers (st_used s - 1)
    (st_answers s ++ [(r,
      {| rs_Err := cm_err done; rs_QueueTime := cm_started done - rq_queuedAt r;
         rs_Service := cm_finished done - cm_started done; rs_ConflictWait := rq_conflictWait r;
         rs_BatchSize := zlen (bt_requests (cm_job done)); rs_Priority := priority_of r |})]) s.

(** [case done := <-s.completions]. *)
Definition on_completion (done : completion) (s : state) : option state :=
  let requests := bt_requests (cm_job done) in
  let s := if observerActive
           then set_ticks (st_arrivals s) (st_completions s + zlen requests)
                  (st_delay s + Z.quot (cm_finished done - bt_dispatched (cm_job done)) 1000 * zlen requests) s
           else s in
  let s := set_queue (st_pending s) (st_owned s) (st_active s - 1) (st_jobs s) s in
  let now := cm_finished done in
  let s := match requests with
    | first :: _ =>
        if plant then recordPlant
          {| pe_AtNS := now; pe_Kind := bs "completion"; pe_RequestID := op_Sequence (rq_op first);
             pe_CommandKind := kind_string (op_Kind (rq_op first)); pe_Pending := zlen (st_pending s); pe_Active := st_active s;
             pe_Admitted := st_used s; pe_BatchSize := zlen requests; pe_QueuedAtNS := rq_queuedAt first;
             pe_DispatchedAtNS := bt_dispatched (cm_job done); pe_StartedAtNS := cm_started done;
             pe_CompletedAtNS := cm_finished done; pe_QueueNS := cm_started done - rq_queuedAt first;
             pe_ServiceNS := cm_finished done - cm_started done;
             pe_DispatchDelayNS := cm_finished done - bt_dispatched (cm_job done) |} s
        else s
    | [] => s
    end in
  dispatchReady now (foldl (complete_request done) s requests).

Definition set_at (now : Z) (e : ObserverEvent) : ObserverEvent :=
  {| oe_Tick := oe_Tick e; oe_AtNS := now; oe_RawQueue := oe_RawQueue e; oe_FilteredQueueMilli := oe_FilteredQueueMilli e;
     oe_Arrivals := oe_Arrivals e; oe_Completions := oe_Completions e;
     oe_MeanDispatchDelayMicros := oe_MeanDispatchDelayMicros e; oe_PersistenceQueueMilli := oe_PersistenceQueueMilli e;
     oe_LinearQueueMilli := oe_LinearQueueMilli e; oe_PersistenceDelayMicros := oe_PersistenceDelayMicros e;
     oe_LinearDelayMicros := oe_LinearDelayMicros e; oe_ActualQueueMilli := oe_ActualQueueMilli e;
     oe_ActualDelayMicros := oe_ActualDelayMicros e;
     oe_MaturedPersistenceQueueMilli := oe_MaturedPersistenceQueueMilli e;
     oe_MaturedLinearQueueMilli := oe_MaturedLinearQueueMilli e;
     oe_MaturedPersistenceDelayMicros := oe_MaturedPersistenceDelayMicros e;
     oe_MaturedLinearDelayMicros := oe_MaturedLinearDelayMicros e; oe_Matured := oe_Matured e;
     oe_ReactiveWouldLimit := oe_ReactiveWouldLimit e; oe_PredictiveWouldLimit := oe_PredictiveWouldLimit e |}.

(** [case now := <-ticker.C]. *)
Definition observe (now : Z) (s : state) : state :=
  let meanDelay := if 0 <? st_completions s then Z.quot (st_delay s) (st_completions s) else 0 in
  let '(o, event) := observer_update (st_observer s) (zlen (st_pending s)) (st_arrivals s) (st_completions s) meanDelay in
  let event := set_at now event in
  let s :=
    if bool_decide (cf_strategy cf = controlReactive) then
      let previous := st_exposure s in
      let exposure := reactiveExposure previous (cf_workers cf) (oe_PersistenceDelayMicros event) in
      set_observer exposure (recordControl exposure (cf_workers cf) (negb (exposure =? previous)) o)
        (st_observerEvents s) (st_observerSummary s) s
    else set_observer (st_exposure s) o (st_observerEvents s) (st_observerSummary s) s in
  set_ticks 0 0 0 (recordObserver event (observer_metrics (st_observer s)) s).

Definition on_tick (now : Z) (s : state) : option state :=
  dispatchReady now (if observerActive then observe now s else s).

(** [case <-s.closed]. *)
Definition on_close (s : state) : state :=
  if Nat.eqb (size (st_owned s)) 0 then s else set_counters (add leaks (Z.of_nat (size (st_owned s)))) s.

(** ** Admission *)

Inductive admission := Rejected | Absent | Granted | Panic.

(** The decision of [Submit] on the value [used] it read. *)
Definition decide_admission (used : Z) (op : Operation) : admission :=
  if cf_capacity cf <=? used then Rejected
  else match command (cf_plan cf) (op_Kind op) with
       | None => Absent
       | Some _ =>
           match policyDecision used (cf_capacity cf) (op_Kind op) 0 0 (cf_maxBatch cf) with
           | None => Panic
           | Some d => if d =? 0 then Rejected else Granted
           end
       end.

(** [newScheduler]. *)
Definition new_state : state :=
  {| st_used := 0; st_jobs := []; st_answers := [];
     st_counters := if bool_decide (cf_strategy cf ∈ [controlNone; controlCentralized; controlAgentic]) then zeroCounters
                    else add controllerConstructions 1 zeroCounters;
     st_parity := newController; st_fair := newController; st_goFair := zeroPolicy; st_trace := []; st_plant := [];
     st_observerEvents := []; st_observerSummary := None; st_pending := []; st_owned := ∅; st_active := 0;
     st_exposure := cf_workers cf; st_arrivals := 0; st_completions := 0; st_delay := 0; st_observer := zeroObserver |}.
End dispatcher.
