(* ===== verification/ScheduledPolicy.v ===== *)
(** * The policies of the scheduler: equivalences

    The generated static plan is the plan the runtime builds; the generated
    admission flow ends and decides as its specification says; the generated
    fair controller and the conventional policy of [conflict.go] choose the same
    actions. *)

From Stdlib Require Import ZArith Lia Strings.Byte Strings.String.
From stdpp Require Import base decidable countable list gmap.
From S2P Require Import Prelude GoText GoJson Scheduled ScheduledObserver ScheduledDispatch.

Local Open Scope Z_scope.

(** ** Plans *)

Lemma kind_range k : 0 ≤ k → k = 0 ∨ k = 1 ∨ k = 2 ∨ k = 3 ∨ 4 ≤ k.
Proof. lia. Qed.

(** The plan generated at build time and the plan built at run time
    from the same bounds are the same to the scheduler: they describe every kind
    of operation alike, agree on which kinds may share a batch, and hold as many
    statements. *)
Theorem plans_agree workers kind other :
  0 ≤ kind → 0 ≤ other →
  command (buildRuntimePlan 128 8 workers) kind = command staticExecutionPlan kind
  ∧ compatible (buildRuntimePlan 128 8 workers) kind other = compatible staticExecutionPlan kind other
  ∧ statementCount (buildRuntimePlan 128 8 workers) = statementCount staticExecutionPlan.
Proof.
  intros Hk Ho. assert (∀ k, 4 ≤ k → rp_commands (buildRuntimePlan 128 8 workers) !! k = None) as Hc.
  { intros k H4. cbn [buildRuntimePlan rp_commands]. unfold InventoryWrite, OrderWrite, RangeRead, PointRead.
    rewrite !lookup_insert_ne by lia. apply lookup_empty. }
  assert (∀ k o, 4 ≤ k ∨ 4 ≤ o → rp_compatibility (buildRuntimePlan 128 8 workers) !! (k, o) = None) as Hm.
  { intros k o H4. cbn [buildRuntimePlan rp_compatibility kinds foldl]. unfold InventoryWrite, OrderWrite, RangeRead, PointRead.
    rewrite !lookup_insert_ne by (intros [= <- <-]; lia). apply lookup_empty. }
  split; [|split; [|reflexivity]].
  - cbn [command runtimePlanLookup staticPlanLookup]. destruct (kind_range kind Hk) as [->|[->|[->|[->|H4]]]]; [reflexivity..|].
    unfold runtime_command, static_command. rewrite Hc by done. by rewrite (proj2 (Z.leb_le _ _)) by exact H4.
  - cbn [compatible runtimePlanLookup staticPlanLookup]. unfold runtime_compatible, static_compatible.
    destruct (kind_range kind Hk) as [->|[->|[->|[->|H4]]]].
    5:{ rewrite Hm by auto. by rewrite (proj2 (Z.leb_le _ _)) by exact H4. }
    all: destruct (kind_range other Ho) as [->|[->|[->|[->|H5]]]]; try reflexivity; rewrite Hm by auto;
      rewrite (proj2 (Z.leb_le 4 other)) by exact H5; by rewrite orb_true_r.
Qed.

Lemma plans_agree_witness :
  command (buildRuntimePlan 128 8 8) 2 = command staticExecutionPlan 2
  ∧ compatible (buildRuntimePlan 128 8 8) 2 1 = compatible staticExecutionPlan 2 1
  ∧ statementCount (buildRuntimePlan 128 8 8) = statementCount staticExecutionPlan.
Proof. apply (plans_agree 8 2 1); lia. Defined.

(** ** Admission *)

(** The generated admission flow always completes, and decides:
    reject at capacity; otherwise wait without a batch, for a write, or for
    another class; otherwise dispatch when the batch would be full, and join it
    when not. *)
Theorem policy_decides used capacity requestClass batchClass batchCount maxBatch :
  policyDecision used capacity requestClass batchClass batchCount maxBatch
  = Some (if capacity <=? used then 0
          else if (batchCount =? 0) || (1 <? requestClass) || negb (requestClass =? batchClass) then 1
          else if maxBatch <=? batchCount + 1 then 3 else 2).
Proof.
  unfold policyDecision, decision_step, SchedulerDecision.
  cbn -[Z.leb Z.ltb Z.add decided]. destruct (capacity <=? used); cbn -[Z.leb Z.ltb Z.add]; [reflexivity|].
  destruct (batchCount =? 0); cbn -[Z.leb Z.ltb Z.add]; [reflexivity|]. destruct (1 <? requestClass); cbn -[Z.leb Z.ltb Z.add]; [reflexivity|].
  destruct (requestClass =? batchClass); cbn -[Z.leb Z.ltb Z.add]; [|reflexivity].
  destruct (maxBatch <=? batchCount + 1); reflexivity.
Qed.

(** ** Controllers *)

(** A controller between two steps. *)
Definition resting (f : controller) : Prop :=
  ct_completed f = false ∧ ct_currentState f = 0 ∧ (if ct_started f then ct_instruction f = 3 else ct_instruction f = 0).

(** A selection that looks at the site and the board only. *)
Definition looks_at (select : controller → Z * utilitySite) : Prop :=
  ∀ f g, ct_site f = ct_site g → ct_board f = ct_board g → select f = select g.

(** One step makes one selection, counts it and suspends. *)
Lemma controller_steps select f :
  looks_at select → resting f →
  controller_step select f = Some
    {| ct_started := true; ct_completed := false; ct_currentState := 0; ct_instruction := 3; ct_site := (select f).2;
       ct_board := set_chosen (select f).1 (Decisions (ct_board f) + 1) (ct_board f) |}.
Proof.
  intros Hl (Hc&Hs&Hi). destruct f as [st cp cs ins site b]. cbn in Hc, Hs, Hi. subst cp cs.
  unfold controller_step. cbn [ct_completed].
  set (g := at_instruction 0 site b {| ct_started := st; ct_completed := false; ct_currentState := 0; ct_instruction := ins; ct_site := site; ct_board := b |}).
  assert (select g = select {| ct_started := st; ct_completed := false; ct_currentState := 0; ct_instruction := ins; ct_site := site; ct_board := b |}) as E by by apply Hl.
  assert (controller_loop select 3 g = Some
    {| ct_started := true; ct_completed := false; ct_currentState := 0; ct_instruction := 3; ct_site := (select g).2;
       ct_board := set_chosen (select g).1 (Decisions b + 1) b |}) as El.
  { cbn. fold g. by destruct (select g) as [chosen site']. }
  assert (controller_loop select 4 g = controller_loop select 3 g) as E4.
  { cbn. fold g. by destruct (select g) as [chosen site']. }
  rewrite E in El. destruct st; cbn in Hi; subst ins; cbn [ct_started].
  - exact El.
  - change (at_instruction 0 _ _ _) with g. by rewrite E4.
Qed.

Lemma fair_looks : looks_at fair_select.
Proof. intros f g E1 E2. unfold fair_select. by rewrite E1, E2. Qed.
Lemma parity_looks : looks_at parity_select.
Proof. intros f g E1 E2. unfold parity_select. by rewrite E1, E2. Qed.

(** The conventional policy and the site of the controller hold the same. *)
Record same_policy (p : conventionalPolicy) (site : utilitySite) : Prop := {
  sp_has : us_HasCurrent site = cp_hasCurrent p;
  sp_current : us_Current site = cp_current p;
  sp_score : us_Score site = cp_score p;
  sp_age : us_CommitAge site = cp_commitAge p;
  sp_known : cp_hasCurrent p = true → cp_current p = actionOldest ∨ cp_current p = actionHighPriority ∨ cp_current p = actionBatch }.

(** The action before the policy, and the candidates of the generated selection. *)
Lemma raw_best oldest high batch :
  oldest < high →
  let next := foldl (fun next c =>
      if uc_Valid c && (negb (uc_Valid next) || (uc_Score next <? uc_Score c)) then c else next)
    {| uc_Valid := false; uc_Value := 0; uc_Score := 0 |}
    [{| uc_Valid := true; uc_Value := 1; uc_Score := high |};
     {| uc_Valid := bool_decide (is_Some batch); uc_Value := 3; uc_Score := default 0 batch |};
     {| uc_Valid := true; uc_Value := 0; uc_Score := oldest |}] in
  uc_Valid next = true ∧ (uc_Value next, uc_Score next) = raw_choice oldest high batch.
Proof.
  intros Hlt. unfold raw_choice. rewrite (proj2 (Z.ltb_lt oldest high)) by done.
  destruct batch as [b|].
  - change (bool_decide (is_Some (Some b))) with true. cbn -[Z.ltb]. destruct (high <? b) eqn:Eb; cbn -[Z.ltb].
    + apply Z.ltb_lt in Eb. rewrite (proj2 (Z.ltb_ge b oldest)) by lia. done.
    + rewrite (proj2 (Z.ltb_ge high oldest)) by lia. done.
  - change (bool_decide (is_Some (@None Z))) with false. cbn -[Z.ltb]. rewrite (proj2 (Z.ltb_ge high oldest)) by lia. done.
Qed.

Lemma raw_choice_known oldest high batch :
  let a := (raw_choice oldest high batch).1 in
  (a = actionOldest ∨ a = actionHighPriority ∨ a = actionBatch) ∧ (a = actionBatch → is_Some batch).
Proof. unfold raw_choice. destruct (oldest <? high), batch as [b|]; try destruct (_ <? b); cbn; naive_solver. Qed.

(** The two selections, from the same policy. *)
Lemma selections_agree p site oldest high batch m :
  same_policy p site → oldest < high →
  let '(rawAction, rawScore) := raw_choice oldest high batch in
  let batchable := bool_decide (is_Some batch) in
  let '(chosen, p', _) := selectAction p rawAction rawScore false (policy_eligible batchable) m in
  let '(value, site') := utilSelectScalar site 25 2
    [{| uc_Valid := true; uc_Value := 1; uc_Score := high |};
     {| uc_Valid := batchable; uc_Value := 3; uc_Score := default 0 batch |};
     {| uc_Valid := true; uc_Value := 0; uc_Score := oldest |}] 4 in
  value = chosen ∧ same_policy p' site' ∧ (chosen = actionOldest ∨ chosen = actionHighPriority ∨ chosen = actionBatch)
  ∧ (chosen = actionBatch → is_Some batch).
Proof.
  intros [P1 P2 P3 P4 P5] Hlt. destruct (raw_best oldest high batch Hlt) as [Hv Hb]. pose proof (raw_choice_known oldest high batch) as Hk.
  destruct (raw_choice oldest high batch) as [rawAction rawScore]. cbv zeta in *. cbn [fst] in Hk. destruct Hk as [Hk Hkb].
  unfold utilSelectScalar. set (next := foldl _ _ _) in *. injection Hb as Ev Es. rewrite Hv.
  unfold selectAction. set (eligible := policy_eligible (bool_decide (is_Some batch))).
  assert (existsb (λ c, uc_Valid c && (uc_Value c =? us_Current site))
    [{| uc_Valid := true; uc_Value := 1; uc_Score := high |};
     {| uc_Valid := bool_decide (is_Some batch); uc_Value := 3; uc_Score := default 0 batch |};
     {| uc_Valid := true; uc_Value := 0; uc_Score := oldest |}] = eligible (cp_current p)) as Ee.
  { unfold eligible, policy_eligible. cbn [existsb uc_Valid uc_Value]. rewrite P2, !(Z.eqb_sym _ (cp_current p)). unfold actionOldest, actionHighPriority, actionBatch.
    destruct (cp_current p =? 0), (cp_current p =? 1), (cp_current p =? 3), (bool_decide _); done. }
  rewrite Ee, P1, P3, P4, Es. unfold policyMinCommit, policyHysteresis.
  destruct (cp_hasCurrent p && eligible (cp_current p) && ((cp_commitAge p <? 2) || (rawScore <=? cp_score p + 25))) eqn:Eh.
  - apply andb_prop in Eh as [Eh _]. apply andb_prop in Eh as [Hh He]. rewrite Hh, P2. cbn [uc_Value uc_Score negb orb]. rewrite Z.eqb_refl. cbn [negb].
    split; [done|]. split; [split; cbn; congruence || auto|]. split; [by apply P5|].
    intros Eb. unfold eligible, policy_eligible in He. rewrite Eb in He. by apply bool_decide_eq_true in He.
  - rewrite Ev, P2. rewrite (Z.eqb_sym rawAction). destruct (negb (cp_hasCurrent p) || negb (cp_current p =? rawAction)) eqn:En.
    + split; [done|]. split; [split; cbn; done || auto|]. done.
    + apply orb_false_iff in En as [En1 En2]. apply negb_false_iff in En1, En2. apply Z.eqb_eq in En2. split; [done|].
      split; [split; cbn; congruence || auto|]. done.
Qed.

(** ** The two lanes *)

(** What a decision of the scored strategies depends on. *)
Record policy_input := { pi_oldest : Z; pi_high : Z; pi_batch : option Z; pi_aged : bool }.

Definition input_raw (i : policy_input) : Z * Z :=
  if pi_aged i then (actionAged, 1000) else raw_choice (pi_oldest i) (pi_high i) (pi_batch i).
Abbreviation batchable i := (bool_decide (is_Some (pi_batch i))).

Fixpoint conventional_run (inputs : list policy_input) (s : state) : list Z :=
  match inputs with
  | [] => []
  | i :: inputs =>
      let '(action, s) := conventional_action (input_raw i).1 (input_raw i).2 (pi_aged i) (batchable i) s in
      action :: conventional_run inputs s
  end.

Fixpoint generated_run (inputs : list policy_input) (s : state) : option (list Z) :=
  match inputs with
  | [] => Some []
  | i :: inputs =>
      '(action, s) ← generated_action (input_raw i).1 (input_raw i).2 (pi_aged i) (batchable i) (pi_oldest i) (pi_high i)
         (default 0 (pi_batch i)) s;
      actions ← generated_run inputs s; Some (action :: actions)
  end.

Lemma generated_state raw score aged batchable o h b s chosen s' :
  generated_action raw score aged batchable o h b s = Some (chosen, s') →
  fair_step (set_board aged batchable o h b (st_fair s)) = Some (st_fair s') ∧ chosen = Chosen (ct_board (st_fair s'))
  ∧ st_pending s' = st_pending s ∧ st_owned s' = st_owned s ∧ st_active s' = st_active s ∧ st_jobs s' = st_jobs s
  ∧ st_exposure s' = st_exposure s ∧ st_used s' = st_used s ∧ st_answers s' = st_answers s ∧ st_parity s' = st_parity s
  ∧ st_goFair s' = st_goFair s ∧ st_counters s' doubleReleases = st_counters s doubleReleases.
Proof.
  unfold generated_action. destruct (fair_step _) as [f|]; [|done]. cbn [mbind option_bind]. intros [= <- <-].
  repeat case_match; split_and!; done.
Qed.

Lemma conventional_state raw score aged batchable s chosen s' :
  conventional_action raw score aged batchable s = (chosen, s') →
  (∃ m, selectAction (st_goFair s) raw score aged (policy_eligible batchable) (st_counters s) = (chosen, st_goFair s', m) ∧ st_counters s' = m)
  ∧ st_pending s' = st_pending s ∧ st_owned s' = st_owned s ∧ st_active s' = st_active s ∧ st_jobs s' = st_jobs s
  ∧ st_exposure s' = st_exposure s ∧ st_used s' = st_used s ∧ st_answers s' = st_answers s ∧ st_parity s' = st_parity s
  ∧ st_fair s' = st_fair s.
Proof.
  unfold conventional_action. destruct (selectAction _ _ _ _ _ _) as [[c p] m]. intros [= <- <-]. split_and!; try done. by exists m.
Qed.

(** One decision of each lane. *)
Lemma lanes_step i s1 s2 :
  pi_oldest i < pi_high i → same_policy (st_goFair s1) (ct_site (st_fair s2)) → resting (st_fair s2) →
  ∃ action s1' s2',
    conventional_action (input_raw i).1 (input_raw i).2 (pi_aged i) (batchable i) s1 = (action, s1')
    ∧ generated_action (input_raw i).1 (input_raw i).2 (pi_aged i) (batchable i) (pi_oldest i) (pi_high i)
        (default 0 (pi_batch i)) s2 = Some (action, s2')
    ∧ same_policy (st_goFair s1') (ct_site (st_fair s2')) ∧ resting (st_fair s2')
    ∧ (action = actionOldest ∨ action = actionHighPriority ∨ (action = actionBatch ∧ is_Some (pi_batch i)) ∨ (action = actionAged ∧ pi_aged i = true)).
Proof.
  intros Hlt Hp Hr.
  pose proof (controller_steps fair_select (set_board (pi_aged i) (batchable i) (pi_oldest i) (pi_high i) (default 0 (pi_batch i)) (st_fair s2)) fair_looks Hr) as Hf.
  destruct (conventional_action (input_raw i).1 (input_raw i).2 (pi_aged i) (batchable i) s1) as [action s1'] eqn:Ec.
  destruct (generated_action (input_raw i).1 (input_raw i).2 (pi_aged i) (batchable i) (pi_oldest i) (pi_high i) (default 0 (pi_batch i)) s2)
    as [[action2 s2']|] eqn:Eg.
  2:{ unfold generated_action in Eg. unfold fair_step in Eg. rewrite Hf in Eg. done. }
  apply conventional_state in Ec as [(m&Ec&_) _]. apply generated_state in Eg as (Eg&->&_). unfold fair_step in Eg. rewrite Hf in Eg. injection Eg as Eg.
  exists action, s1', s2'. split; [done|]. rewrite <- Eg. cbn [ct_board ct_site set_chosen Chosen].
  unfold fair_select in *. cbn [set_board ct_board ct_site AgedEligible HighEligible BatchEligible OldestEligible HighScore BatchScore OldestScore] in *.
  unfold input_raw in Ec. destruct (pi_aged i).
  - unfold selectAction in Ec. injection Ec as <- Ep _. cbn [fst snd]. split; [done|]. split; [by rewrite <- Ep|]. split; [done|]. auto.
  - pose proof (selections_agree _ _ (pi_oldest i) (pi_high i) (pi_batch i) (st_counters s1) Hp Hlt) as Hs.
    destruct (raw_choice (pi_oldest i) (pi_high i) (pi_batch i)) as [ra rs]. cbn [fst snd] in Ec. cbv zeta in Hs. rewrite Ec in Hs.
    destruct (utilSelectScalar _ _ _ _ _) as [value site']. destruct Hs as (->&Hs&Hk&Hb). cbn [fst snd]. split; [done|]. split; [done|]. split; [done|].
    destruct Hk as [?|[?|?]]; eauto 10.
Qed.

(** C34: The generated fair controller and the conventional policy make
    the same decisions: fed with the same candidates, whose best priority score
    exceeds the score of the oldest, they choose the same action every time, with
    the same commitment and hysteresis, and the generated code never panics. *)
Theorem policies_agree inputs s1 s2 :
  Forall (λ i, pi_oldest i < pi_high i) inputs → same_policy (st_goFair s1) (ct_site (st_fair s2)) → resting (st_fair s2) →
  generated_run inputs s2 = Some (conventional_run inputs s1).
Proof.
  intros Hf. revert s1 s2. induction Hf as [|i inputs Hi _ IH]; intros s1 s2 Hp Hr; [done|].
  destruct (lanes_step i s1 s2 Hi Hp Hr) as (action&s1'&s2'&Ec&Eg&Hp'&Hr'&_). cbn [conventional_run generated_run].
  rewrite Ec, Eg. cbn [mbind option_bind]. by rewrite (IH s1' s2' Hp' Hr').
Qed.

Definition sample_inputs : list policy_input :=
  [{| pi_oldest := 100; pi_high := 300; pi_batch := None; pi_aged := false |};
   {| pi_oldest := 100; pi_high := 300; pi_batch := Some 400; pi_aged := false |};
   {| pi_oldest := 100; pi_high := 300; pi_batch := Some 400; pi_aged := false |};
   {| pi_oldest := 150; pi_high := 301; pi_batch := Some 250; pi_aged := true |};
   {| pi_oldest := 150; pi_high := 420; pi_batch := Some 400; pi_aged := false |}].

Definition sample_scheduler : config executionPlan :=
  {| cf_capacity := 128; cf_maxBatch := 8; cf_batchWait := 1000000; cf_workers := 8; cf_plan := staticExecutionPlan;
     cf_strategy := controlPriority; cf_traceEnabled := true; cf_observerTrace := false |}.

Lemma policies_agree_witness :
  generated_run sample_inputs (new_state sample_scheduler) = Some (conventional_run sample_inputs (new_state sample_scheduler)).
Proof.
  apply (policies_agree sample_inputs (new_state sample_scheduler) (new_state sample_scheduler)).
  - repeat constructor.
  - split; [reflexivity|reflexivity|reflexivity|reflexivity|discriminate].
  - split; [reflexivity|]. split; reflexivity.
Defined.

Lemma sample_actions : conventional_run sample_inputs (new_state sample_scheduler) = [1; 1; 3; 2; 3].
Proof. reflexivity. Qed.
