(* ===== verification/ScheduledSelect.v ===== *)
(** * Selecting and dispatching requests

    What one selection and one round of dispatching do
    ([internal/scheduled/conflict.go]): which pending requests are candidates,
    which one each strategy takes, and how a round moves a request and the reads
    it is batched with from the queue to a job. *)

From Stdlib Require Import ZArith Lia Strings.Byte Strings.String.
From stdpp Require Import base decidable countable list gmap.
From S2P Require Import Prelude GoText GoJson Scheduled ScheduledObserver ScheduledDispatch ScheduledPolicy.

Local Open Scope Z_scope.

(** ** Plans that fit the dispatcher *)

(** Reads own no token, and only reads share a batch. *)
Class PlanLaws {P : Type} `{planLookup P} (plan : P) : Prop := {
  reads_free : ∀ k d, k ≤ RangeRead → command plan k = Some d → cd_Transaction d = 0;
  batches_read : ∀ k k', compatible plan k k' = true → k' ≤ RangeRead }.

#[export] Instance static_laws : PlanLaws staticExecutionPlan.
Proof.
  split.
  - intros k d Hk. cbn. unfold static_command. destruct (_ <=? k); [done|]. intros E.
    assert (k ≤ 0 ∨ k = 1) as [H0| ->] by (unfold RangeRead in Hk; lia).
    + replace (Z.to_nat k) with 0%nat in E by lia. cbn in E. by injection E as <-.
    + cbn in E. by injection E as <-.
  - intros k k'. cbn. unfold static_compatible. destruct ((4 <=? k) || (4 <=? k')) eqn:E4; [done|].
    apply orb_false_iff in E4 as [_ E4]. apply Z.leb_gt in E4. intros E. unfold RangeRead. destruct (decide (k' ≤ 1)) as [|Hk]; [done|].
    assert (k' = 2 ∨ k' = 3) as Hk' by lia. exfalso. destruct (Z.to_nat k) as [|[|[|[|m]]]]; cbn in E; destruct Hk' as [-> | ->]; cbn in E; try done.
Qed.

(** ** What the dispatcher never changes of a request *)

Definition view (r : request) : nat * Operation * Z * ConflictToken := (rq_ptr r, rq_op r, rq_queuedAt r, rq_token r).

(** States that differ in counters, policies, traces, and what the requests
    remember of their waiting. *)
Record quiet (s s' : state) : Prop := {
  q_pending : map view (st_pending s') = map view (st_pending s);
  q_owned : st_owned s' = st_owned s;
  q_active : st_active s' = st_active s;
  q_jobs : st_jobs s' = st_jobs s;
  q_used : st_used s' = st_used s;
  q_answers : st_answers s' = st_answers s;
  q_exposure : st_exposure s' = st_exposure s;
  q_double : st_counters s' doubleReleases = st_counters s doubleReleases }.

Lemma quiet_refl s : quiet s s.
Proof. by split. Qed.

Lemma quiet_trans s1 s2 s3 : quiet s1 s2 → quiet s2 s3 → quiet s1 s3.
Proof. intros [] []. split; congruence. Qed.

Lemma quiet_lookup s s' i r :
  quiet s s' → st_pending s !! i = Some r → ∃ r', st_pending s' !! i = Some r' ∧ view r' = view r.
Proof.
  intros Hq Hr. assert (map view (st_pending s') !! i = Some (view r)) as E.
  { rewrite (q_pending _ _ Hq). by rewrite list_lookup_fmap, Hr. }
  apply list_lookup_fmap_Some in E as (r'&E&Hr'). eauto.
Qed.

Lemma quiet_sym_lookup s s' i r :
  quiet s s' → st_pending s' !! i = Some r → ∃ r', st_pending s !! i = Some r' ∧ view r' = view r.
Proof.
  intros Hq Hr. assert (map view (st_pending s) !! i = Some (view r)) as E.
  { rewrite <- (q_pending _ _ Hq). by rewrite list_lookup_fmap, Hr. }
  apply list_lookup_fmap_Some in E as (r'&E&Hr'). eauto.
Qed.

Lemma quiet_length s s' : quiet s s' → length (st_pending s') = length (st_pending s).
Proof. intros Hq. rewrite <- (length_map view), (q_pending _ _ Hq). apply length_map. Qed.

Lemma quiet_counter c n s : c ≠ doubleReleases → quiet s (set_counters (add c n) s).
Proof. intros Hc. split; try done. cbn. unfold add. by rewrite decide_False. Qed.

Lemma quiet_max c n s : c ≠ doubleReleases → quiet s (set_counters (updateMax c n) s).
Proof. intros Hc. split; try done. cbn. unfold updateMax. by rewrite decide_False. Qed.

Lemma quiet_update i r r' s :
  st_pending s !! i = Some r → view r' = view r → quiet s (set_pending (<[i := r']> (st_pending s)) s).
Proof.
  intros Hr Hv. split; try done. cbn. rewrite list_fmap_insert, Hv. apply list_insert_id. by rewrite list_lookup_fmap, Hr.
Qed.

Section theorems.
Context {P : Type} `{planLookup P} (cf : config P) `{Hlaws : !PlanLaws (cf_plan cf)}.
Hypothesis Hbatch : 1 ≤ cf_maxBatch cf.

Lemma quiet_trace r event reason s : quiet s (trace cf r event reason s).
Proof. unfold trace. by repeat case_match. Qed.

Lemma quiet_plant event s : quiet s (recordPlant event s).
Proof. unfold recordPlant. by case_match. Qed.

Hint Resolve quiet_refl quiet_trace quiet_plant quiet_counter quiet_max : core.

(** ** Selection *)

Lemma busy_view s s' r r' : st_owned s' = st_owned s → view r' = view r → busy s' r' = busy s r.
Proof. intros E [= _ _ _ Et]. unfold busy. by rewrite E, Et. Qed.

Lemma quiet_block now index r o s :
  st_pending s !! index = Some r → quiet s (block_request cf now index r o s).
Proof.
  intros Hr. unfold block_request. eapply quiet_trans; [|by apply quiet_max].
  destruct (rq_waitingSince r); [done|]. eapply quiet_trans; [|apply quiet_trace].
  eapply quiet_trans; [by apply (quiet_counter conflicts 1)|]. eapply quiet_trans; [by apply (quiet_counter blocked 1)|].
  by apply (quiet_update _ r); [|case_bool_decide].
Qed.

(** A request that may be dispatched now. *)
Definition eligible (now : Z) (s : state) (i : nat) (r : request) : Prop :=
  busy s r = None ∧
  (op_Kind (rq_op r) <=? RangeRead) && (batch_count cf (st_pending s) i r <? cf_maxBatch cf)
    && (now - rq_queuedAt r <? cf_batchWait cf) = false.

Lemma batch_count_view pending pending' i r r' :
  map view pending' = map view pending → view r' = view r → batch_count cf pending' i r' = batch_count cf pending i r.
Proof.
  intros Hp [= _ Eo _ _]. unfold batch_count. rewrite Eo. case_match; [|done].
  assert (∀ l : list request, imap (λ j q, (j, op_Kind (rq_op q))) l = imap (λ j v, (j, op_Kind v.1.1.2)) (map view l)) as E
    by (intros l; by rewrite imap_fmap).
  by rewrite (E pending'), Hp, <- E.
Qed.

Lemma eligible_view now s s' i r r' : quiet s s' → view r' = view r → eligible now s i r ↔ eligible now s' i r'.
Proof.
  intros Hq Hv. unfold eligible. rewrite (busy_view s s' r r') by (apply Hq || done).
  rewrite (batch_count_view (st_pending s) (st_pending s') i r r') by (apply Hq || done). by injection Hv as _ -> -> _.
Qed.

Lemma collect_spec n now i s legal s' legal' :
  collect cf n i now s legal = (s', legal') → (length (st_pending s) ≤ i + n)%nat →
  quiet s s'
  ∧ (∀ c, c ∈ legal' → c ∈ legal ∨ ∃ r, st_pending s' !! ca_index c = Some r ∧ eligible now s' (ca_index c) r ∧ ca_age c = now - rq_queuedAt r)
  ∧ (∀ c, c ∈ legal → c ∈ legal')
  ∧ (∀ j r, (i ≤ j)%nat → st_pending s' !! j = Some r → eligible now s' j r → ∃ c, c ∈ legal' ∧ ca_index c = j ∧ ca_age c = now - rq_queuedAt r).
Proof.
  revert i s legal. induction n as [|n IH]; intros i s legal Hc Hl; cbn [collect] in Hc.
  { injection Hc as <- <-. split_and!; auto. intros j r Hj Hr%lookup_lt_Some. lia. }
  destruct (st_pending s !! i) as [r|] eqn:Hr.
  2:{ injection Hc as <- <-. split_and!; auto. intros j r Hj Hr'%lookup_lt_Some. apply lookup_ge_None in Hr. lia. }
  destruct (busy s r) as [o|] eqn:Eb.
  - pose proof (quiet_block now i r o s Hr) as Hq. destruct (IH (S i) _ _ Hc) as (Q&H1&H2&H3); [rewrite (quiet_length _ _ Hq); lia|].
    split; [by eapply quiet_trans|]. split; [done|]. split; [done|]. intros j r' Hj Hr' He. destruct (decide (j = i)) as [->|Hne]; [|apply H3; auto; lia].
    destruct (quiet_sym_lookup _ _ _ _ (quiet_trans _ _ _ Hq Q) Hr') as (r0&Hr0&Hv). rewrite Hr in Hr0. injection Hr0 as <-.
    apply (eligible_view now s s' i r r' (quiet_trans _ _ _ Hq Q)) in He as [He _]; [|done]. by rewrite Eb in He.
  - destruct ((op_Kind (rq_op r) <=? RangeRead) && (batch_count cf (st_pending s) i r <? cf_maxBatch cf) && (now - rq_queuedAt r <? cf_batchWait cf)) eqn:Ey.
    + destruct (IH (S i) _ _ Hc) as (Q&H1&H2&H3); [lia|]. split; [done|]. split; [done|]. split; [done|].
      intros j r' Hj Hr' He. destruct (decide (j = i)) as [->|Hne]; [|apply H3; auto; lia].
      destruct (quiet_sym_lookup _ _ _ _ Q Hr') as (r0&Hr0&Hv). rewrite Hr in Hr0. injection Hr0 as <-.
      apply (eligible_view now s s' i r r' Q) in He as [_ He]; [|done]. by rewrite Ey in He.
    + set (c := {| ca_index := i; ca_priority := priority_of cf r; ca_batchCount := batch_count cf (st_pending s) i r; ca_age := now - rq_queuedAt r |}) in *.
      destruct (IH (S i) _ _ Hc) as (Q&H1&H2&H3); [lia|]. split; [done|].
      destruct (quiet_lookup _ _ _ _ Q Hr) as (r'&Hr'&Hv).
      split; [|split].
      * intros c' Hc'. destruct (H1 c' Hc') as [Hin|?]; [|by right]. apply elem_of_app in Hin as [?|Hin]; [by left|].
        apply list_elem_of_singleton in Hin as ->. right. exists r'. split; [done|]. split; [|by injection Hv as _ _ -> _].
        by apply (eligible_view now s s' i r r' Q).
      * intros c' Hc'. apply H2, elem_of_app. by left.
      * intros j r2 Hj Hr2 He. destruct (decide (j = i)) as [->|Hne]; [|apply H3; auto; lia].
        exists c. split; [apply H2, elem_of_app; right; by apply list_elem_of_singleton|]. split; [done|]. cbn.
        rewrite Hr' in Hr2. injection Hr2 as <-. by injection Hv as _ _ -> _.
Qed.

(** The candidates the scored strategies compare. *)
Lemma pick_high_in pending first l : pick_high pending first l ∈ first :: l.
Proof.
  unfold pick_high. revert first. induction l as [|c l IH]; intros first; cbn [foldl]; [left|].
  match goal with |- context [if ?b then _ else _] => destruct b end.
  - right. apply IH.
  - specialize (IH first). apply elem_of_cons in IH as [->|IH]; [left|right; by right].
Qed.

Lemma foldl_option_in {A} (f : option A → A → option A) l best c :
  (∀ b x, f b x = b ∨ f b x = Some x) → foldl f best l = Some c → c ∈ l ∨ best = Some c.
Proof.
  intros Hf. revert best. induction l as [|x l IH]; intros best; cbn [foldl]; [by right|].
  intros E. destruct (IH _ E) as [Hin|E']; [left; by right|].
  destruct (Hf best x) as [Ef|Ef]; rewrite Ef in E'; [by right|]. injection E' as <-. left. left.
Qed.

Lemma pick_batch_in l c : pick_batch l = Some c → c ∈ l.
Proof.
  intros E. apply foldl_option_in in E as [?|?]; [done|done|]. intros b x. destruct (1 <? ca_batchCount x); [|by left].
  destruct b as [b|]; [|by right]. destruct (_ || _); [by right|by left].
Qed.

Lemma pick_aged_spec pending t l :
  match pick_aged pending t l with
  | Some c => c ∈ l ∧ t ≤ ca_age c ∧ ∀ c', c' ∈ l → ca_age c' ≤ ca_age c
  | None => ∀ c, c ∈ l → ca_age c < t
  end.
Proof.
  unfold pick_aged. set (f := fun best c => _).
  assert (∀ l best, match foldl f best l with
    | Some c => (c ∈ l ∨ best = Some c) ∧ (best = Some c ∨ t ≤ ca_age c) ∧ (∀ c', c' ∈ l → t ≤ ca_age c' → ca_age c' ≤ ca_age c)
                ∧ (∀ b, best = Some b → ca_age b ≤ ca_age c)
    | None => best = None ∧ ∀ c, c ∈ l → ca_age c < t end) as Hg.
  { clear l. induction l as [|x l IH]; intros best; cbn [foldl].
    - destruct best as [c|]; [|split; [done|by intros ? ?%not_elem_of_nil]]. split_and!; auto; [by intros ? ?%not_elem_of_nil|]. by intros b [= ->].
    - assert ((f best x = best ∧ (t ≤ ca_age x → ∃ b, best = Some b ∧ ca_age x ≤ ca_age b))
        ∨ (f best x = Some x ∧ t ≤ ca_age x ∧ ∀ b, best = Some b → ca_age b ≤ ca_age x)) as Hf.
      { unfold f. destruct (t <=? ca_age x) eqn:Et; [apply Z.leb_le in Et|apply Z.leb_gt in Et; left; split; [done|lia]].
        destruct best as [b|]; [|by right]. destruct (_ || _) eqn:Eb.
        - right. split; [done|]. split; [done|]. intros b' [= <-].
          apply orb_prop in Eb as [Eb|Eb]; [apply Z.ltb_lt in Eb; lia|]. apply andb_prop in Eb as [Eb _]. apply Z.eqb_eq in Eb. lia.
        - left. split; [done|]. intros _. exists b. split; [done|]. apply orb_false_iff in Eb as [Eb _]. by apply Z.ltb_ge in Eb. }
      destruct Hf as [[-> Hx]|(->&Ht&Hx)].
      + specialize (IH best). destruct (foldl f best l) as [c|].
        * destruct IH as (I1&I2&I3&I4). split; [destruct I1 as [?|?]; [left; by right|by right]|]. split; [done|]. split; [|done].
          intros c' [->|Hin]%elem_of_cons Ht; [|auto]. destruct (Hx Ht) as (b&Eb&?). specialize (I4 b Eb). lia.
        * destruct IH as [-> IH]. split; [done|]. intros c [->|Hin]%elem_of_cons; [|auto].
          destruct (decide (t ≤ ca_age x)) as [Ht|]; [|lia]. by destruct (Hx Ht) as (b&?&_).
      + specialize (IH (Some x)). destruct (foldl f (Some x) l) as [c|]; [|by destruct IH].
        destruct IH as (I1&I2&I3&I4). specialize (I4 x eq_refl). split; [destruct I1 as [?|[= ->]]; left; [by right|left]|].
        split; [right; lia|]. split; [|intros b Eb; specialize (Hx b Eb); lia]. intros c' [->|Hin]%elem_of_cons Ht'; [done|auto]. }
  specialize (Hg l None). destruct (foldl f None l) as [c|].
  - destruct Hg as (I1&I2&I3&_). destruct I1 as [I1|?]; [|done]. destruct I2 as [?|I2]; [done|]. split; [done|]. split; [done|].
    intros c' Hin. destruct (decide (t ≤ ca_age c')); [auto|lia].
  - by destruct Hg.
Qed.

(** ** Policies *)

Definition known_action (a : Z) : Prop := a = actionOldest ∨ a = actionHighPriority ∨ a = actionBatch.

(** What holds of the policies between two selections. *)
Record policies_ok (s : state) : Prop := {
  po_parity : resting (st_parity s);
  po_parity_site : us_HasCurrent (ct_site (st_parity s)) = true → us_Current (ct_site (st_parity s)) = actionOldest;
  po_fair : resting (st_fair s);
  po_fair_site : us_HasCurrent (ct_site (st_fair s)) = true → known_action (us_Current (ct_site (st_fair s)));
  po_go : cp_hasCurrent (st_goFair s) = true → known_action (cp_current (st_goFair s)) }.

Lemma policies_same s s' : st_parity s' = st_parity s → st_fair s' = st_fair s → st_goFair s' = st_goFair s → policies_ok s → policies_ok s'.
Proof. intros E1 E2 E3 []. split; by rewrite ?E1, ?E2, ?E3. Qed.

Lemma util_known site h m batchable ho hs bsc oldest :
  (us_HasCurrent site = true → known_action (us_Current site)) →
  let '(value, site') := utilSelectScalar site h m
    [{| uc_Valid := true; uc_Value := 1; uc_Score := hs |}; {| uc_Valid := batchable; uc_Value := 3; uc_Score := bsc |};
     {| uc_Valid := true; uc_Value := 0; uc_Score := oldest |}] ho in
  known_action value ∧ (value = actionBatch → batchable = true) ∧ (us_HasCurrent site' = true → known_action (us_Current site')).
Proof.
  intros Hk. unfold utilSelectScalar. set (next := foldl _ _ _).
  assert (uc_Valid next = true ∧ known_action (uc_Value next) ∧ (uc_Value next = actionBatch → batchable = true)) as (N1&N2&N3).
  { unfold next. cbn -[Z.ltb]. unfold known_action, actionOldest, actionHighPriority, actionBatch.
    destruct batchable; cbn -[Z.ltb]; repeat (match goal with |- context [?a <? ?b] => destruct (a <? b) end; cbn -[Z.ltb]); split_and!; auto; lia. }
  rewrite N1. destruct (us_HasCurrent site && existsb _ _ && _) eqn:Eh; cbn [uc_Value uc_Score].
  - apply andb_prop in Eh as [Eh _]. apply andb_prop in Eh as [Hh He]. split; [auto|]. split.
    + intros Ev. cbn in He. rewrite Ev in He. unfold actionBatch in He. by destruct batchable.
    + intros _. destruct (_ || _); cbn; auto.
  - split; [done|]. split; [done|]. intros _. destruct (negb (us_HasCurrent site) || negb (us_Current site =? uc_Value next)) eqn:En; cbn; [done|].
    apply orb_false_iff in En as [_ En]. apply negb_false_iff, Z.eqb_eq in En. by rewrite En.
Qed.

Lemma conventional_known p raw score batchable m :
  (cp_hasCurrent p = true → known_action (cp_current p)) → known_action raw → (raw = actionBatch → batchable = true) →
  let '(chosen, p', m') := selectAction p raw score false (policy_eligible batchable) m in
  known_action chosen ∧ (chosen = actionBatch → batchable = true) ∧ (cp_hasCurrent p' = true → known_action (cp_current p'))
  ∧ m' doubleReleases = m doubleReleases.
Proof.
  intros Hk Hr Hb. unfold selectAction. set (hold := _ && _).
  assert (known_action (if hold then cp_current p else raw) ∧ ((if hold then cp_current p else raw) = actionBatch → batchable = true)) as [K1 K2].
  { destruct hold eqn:Eh; [|done]. unfold hold in Eh. apply andb_prop in Eh as [Eh _]. apply andb_prop in Eh as [Hh He]. split; [auto|].
    intros Ev. unfold policy_eligible in He. rewrite Ev in He. cbn in He. by destruct batchable. }
  assert ((if hold && negb (raw =? cp_current p) then if cp_commitAge p <? policyMinCommit then add minimumCommitHolds 1 m else add hysteresisHolds 1 m else m)
    doubleReleases = m doubleReleases) as Ed by (repeat case_match; done).
  destruct (negb (cp_hasCurrent p) || negb ((if hold then cp_current p else raw) =? cp_current p)) eqn:En; cbn [fst snd cp_current cp_hasCurrent].
  - split_and!; try done. destruct (cp_hasCurrent p); [|done]. unfold add at 1. by rewrite decide_False.
  - split_and!; auto.
Qed.

Lemma conventional_lane raw score aged batchable s :
  policies_ok s → (aged = false → known_action raw ∧ (raw = actionBatch → batchable = true)) →
  let '(chosen, s') := conventional_action raw score aged batchable s in
  quiet s s' ∧ policies_ok s' ∧ (if aged then chosen = actionAged else known_action chosen ∧ (chosen = actionBatch → batchable = true)).
Proof.
  intros Hp Hr. destruct (conventional_action raw score aged batchable s) as [chosen s'] eqn:Ec.
  apply conventional_state in Ec as [(m&Ea&Em) (E1&E2&E3&E4&E5&E6&E7&E8&E9)].
  assert (st_counters s' doubleReleases = st_counters s doubleReleases ∧ (cp_hasCurrent (st_goFair s') = true → known_action (cp_current (st_goFair s')))
    ∧ (if aged then chosen = actionAged else known_action chosen ∧ (chosen = actionBatch → batchable = true))) as (Ed&Hg&Hch).
  { destruct aged.
    - unfold selectAction in Ea. injection Ea as <- <- <-. rewrite Em. split; [done|]. split; [apply Hp|done].
    - destruct (Hr eq_refl) as [R1 R2]. pose proof (conventional_known (st_goFair s) raw score batchable (st_counters s) (po_go _ Hp) R1 R2) as Hk.
      rewrite Ea in Hk. rewrite Em. tauto. }
  split; [split; try done; by rewrite E1|]. split; [|done]. destruct Hp. split; rewrite ?E8, ?E9; done.
Qed.

Lemma generated_lane raw score aged batchable o h b s :
  policies_ok s →
  ∃ chosen s', generated_action raw score aged batchable o h b s = Some (chosen, s') ∧ quiet s s' ∧ policies_ok s'
    ∧ (if aged then chosen = actionAged else known_action chosen ∧ (chosen = actionBatch → batchable = true)).
Proof.
  intros Hp.
  pose proof (controller_steps fair_select (set_board aged batchable o h b (st_fair s)) fair_looks (po_fair _ Hp)) as Hf.
  destruct (generated_action raw score aged batchable o h b s) as [[chosen s']|] eqn:Eg.
  2:{ unfold generated_action, fair_step in Eg. rewrite Hf in Eg. done. }
  exists chosen, s'. split; [done|]. apply generated_state in Eg as (Ef&->&E1&E2&E3&E4&E5&E6&E7&E8&E9&E10).
  unfold fair_step in Ef. rewrite Hf in Ef. injection Ef as Ef. split; [split; try done; by rewrite E1|].
  unfold fair_select in *. cbn [set_board ct_board ct_site AgedEligible HighEligible BatchEligible OldestEligible HighScore BatchScore OldestScore] in *.
  assert ((us_HasCurrent (ct_site (st_fair s')) = true → known_action (us_Current (ct_site (st_fair s'))))
    ∧ (if aged then Chosen (ct_board (st_fair s')) = actionAged else known_action (Chosen (ct_board (st_fair s'))) ∧ (Chosen (ct_board (st_fair s')) = actionBatch → batchable = true))) as [Hs Hch].
  { rewrite <- Ef. cbn [ct_board ct_site set_chosen Chosen]. destruct aged; cbn [fst snd]; [split; [apply Hp|done]|].
    pose proof (util_known (ct_site (st_fair s)) 25 2 batchable 4 h b o (po_fair_site _ Hp)) as Hk.
    destruct (utilSelectScalar _ _ _ _ _) as [value site']. cbn [fst snd]. tauto. }
  split; [|done]. destruct Hp. split; rewrite ?E8, ?E9; try done. by rewrite <- Ef.
Qed.

Lemma lanes_ok raw score aged batchable o h b s :
  policies_ok s → (aged = false → known_action raw ∧ (raw = actionBatch → batchable = true)) →
  ∃ chosen s',
    (if bool_decide (cf_strategy cf ∈ [controlPriority; controlPlantCharacterization; controlObserverShadow; controlReactive])
     then Some (conventional_action raw score aged batchable s)
     else generated_action raw score aged batchable o h b s) = Some (chosen, s')
    ∧ quiet s s' ∧ policies_ok s' ∧ (if aged then chosen = actionAged else known_action chosen ∧ (chosen = actionBatch → batchable = true)).
Proof.
  intros Hp Hr. case_bool_decide; [|by apply generated_lane].
  pose proof (conventional_lane raw score aged batchable s Hp Hr) as Hc. destruct (conventional_action raw score aged batchable s) as [chosen s']. eauto.
Qed.

Lemma take_candidate_ok (legal : list candidate) oldest high aged batchCandidate chosen :
  oldest ∈ legal → high ∈ legal → (∀ c, aged = Some c → c ∈ legal) → (∀ c, batchCandidate = Some c → c ∈ legal) →
  (if bool_decide (is_Some aged) then chosen = actionAged
   else known_action chosen ∧ (chosen = actionBatch → bool_decide (is_Some batchCandidate) = true)) →
  ∃ c, take_candidate oldest high aged batchCandidate chosen = Some c ∧ c ∈ legal ∧ (∀ c', aged = Some c' → c = c').
Proof.
  intros Ho Hh Ha Hb Hc. unfold take_candidate. case_bool_decide as Es.
  - destruct Es as [c ->]. subst chosen. exists c. split; [done|]. split; [auto|]. by intros c' [= ->].
  - assert (∀ c', aged = Some c' → False) as Hn by (intros c' ->; apply Es; eauto). destruct Hc as [[->|[->| ->]] Hcb]; cbn.
    + exists oldest. split_and!; auto. intros c' E. by destruct (Hn c' E).
    + exists high. split_and!; auto. intros c' E. by destruct (Hn c' E).
    + specialize (Hcb eq_refl). apply bool_decide_eq_true in Hcb as [c ->]. exists c. split_and!; auto. intros c' E. by destruct (Hn c' E).
Qed.

Lemma select_scored_ok (legal : list candidate) oldest s :
  policies_ok s → oldest ∈ legal →
  ∃ c s', select_scored cf legal oldest s = Some (Some (ca_index c), s') ∧ quiet s s' ∧ policies_ok s' ∧ c ∈ legal
    ∧ ((∃ c', c' ∈ legal ∧ starvation_threshold cf ≤ ca_age c') → ∀ c', c' ∈ legal → ca_age c' ≤ ca_age c).
Proof.
  intros Hp Ho. unfold select_scored. cbv zeta.
  assert (pick_high (st_pending s) oldest legal ∈ legal) as Hh by (destruct (proj1 (elem_of_cons _ _ _) (pick_high_in (st_pending s) oldest legal)) as [->|?]; done).
  pose proof (pick_aged_spec (st_pending s) (starvation_threshold cf) legal) as Ha.
  pose proof (pick_batch_in legal) as Hb. set (high := pick_high _ _ _) in *. set (aged := pick_aged _ _ _) in *. set (bc := pick_batch legal) in *.
  set (oldestScore := 100 + _). set (highScore := 300 + _). set (batchScore := match bc with Some c => _ | None => 0 end).
  destruct (if bool_decide (is_Some aged) then (actionAged, 1000) else raw_choice oldestScore highScore (if bool_decide (is_Some bc) then Some batchScore else None))
    as [raw score] eqn:Er.
  destruct (lanes_ok raw score (bool_decide (is_Some aged)) (bool_decide (is_Some bc)) oldestScore highScore batchScore s Hp) as (chosen&s1&->&Q1&P1&Hc).
  { intros Ea. rewrite Ea in Er. pose proof (raw_choice_known oldestScore highScore (if bool_decide (is_Some bc) then Some batchScore else None)) as Hk.
    rewrite Er in Hk. cbn in Hk. destruct Hk as [K1 K2]. split; [done|]. intros E3. destruct (K2 E3) as [x Hx]. by destruct (bool_decide (is_Some bc)). }
  cbn [mbind option_bind].
  destruct (take_candidate_ok legal oldest high aged bc chosen Ho Hh) as (c&->&Hin&Hag); [intros c' E; rewrite E in Ha; apply Ha|done|done|].
  exists c. set (s2 := if chosen =? actionAged then _ else _).
  assert (quiet s1 s2 ∧ policies_ok s2) as [Q2 P2].
  { unfold s2. split.
    - eapply quiet_trans; [by apply (quiet_counter utilityDecisions 1)|]. eapply quiet_trans; [by apply (quiet_counter utilityCandidates 4)|].
      destruct (chosen =? actionAged); [by apply quiet_counter|done].
    - apply (policies_same s1); [by destruct (chosen =? actionAged)..|done]. }
  set (s3 := if Nat.eqb _ _ then s2 else _). assert (quiet s2 s3 ∧ policies_ok s3) as [Q3 P3].
  { unfold s3. destruct (Nat.eqb _ _); [done|]. split; [by apply quiet_counter|by apply (policies_same s2)]. }
  set (s4 := set_counters (updateMax maximumDispatchAge (ca_age c)) s3). assert (quiet s3 s4 ∧ policies_ok s4) as [Q4 P4].
  { split; [by apply quiet_max|by apply (policies_same s3)]. }
  eexists. split; [reflexivity|]. split; [|split; [|split; [done|]]].
  - eapply quiet_trans; [exact Q1|]. eapply quiet_trans; [exact Q2|]. eapply quiet_trans; [exact Q3|]. eapply quiet_trans; [exact Q4|].
    destruct (st_pending s4 !! ca_index c); [apply quiet_trace|done].
  - destruct (st_pending s4 !! ca_index c); [|done]. apply (policies_same s4); [..|done]; unfold trace; by repeat case_match.
  - intros (c'&Hc'&Ht) c2 Hc2. destruct aged as [ca|]; [|specialize (Ha c' Hc'); lia]. rewrite (Hag ca eq_refl). by apply Ha.
Qed.

(** ** Selecting a request *)

Lemma collect_policies n now i s legal : policies_ok s → policies_ok (collect cf n i now s legal).1.
Proof.
  revert i s legal. induction n as [|n IH]; intros i s legal Hp; cbn [collect]; [done|].
  destruct (st_pending s !! i) as [r|]; [|done]. destruct (busy s r) as [o|]; [|destruct (_ && _); by apply IH].
  apply IH. apply (policies_same s); [..|done]; unfold block_request, trace; by repeat case_match.
Qed.

(** The strategies with scores. *)
Definition scored : Prop := cf_strategy cf ∉ [controlCentralized; controlAgentic; controlParity].

Lemma select_spec now s :
  policies_ok s →
  ∃ oi s', selectRequest cf now s = Some (oi, s') ∧ quiet s s' ∧ policies_ok s' ∧
    match oi with
    | Some i => ∃ r, st_pending s' !! i = Some r ∧ eligible now s' i r
        ∧ (scored → (∃ j r', st_pending s' !! j = Some r' ∧ eligible now s' j r' ∧ starvation_threshold cf ≤ now - rq_queuedAt r') →
           ∀ j r', st_pending s' !! j = Some r' → eligible now s' j r' → rq_queuedAt r ≤ rq_queuedAt r')
    | None => ∀ j r, st_pending s' !! j = Some r → ¬ eligible now s' j r
    end.
Proof.
  intros Hp. unfold selectRequest. pose proof (collect_policies (length (st_pending s)) now 0 s [] Hp) as Hp1.
  destruct (collect cf (length (st_pending s)) 0 now s []) as [s1 legal] eqn:Ec. cbn [fst] in Hp1.
  destruct (collect_spec _ _ _ _ _ _ _ Ec) as (Q&H1&_&H3); [lia|].
  assert (∀ c, c ∈ legal → ∃ r, st_pending s1 !! ca_index c = Some r ∧ eligible now s1 (ca_index c) r ∧ ca_age c = now - rq_queuedAt r) as Hleg.
  { intros c Hc. by destruct (H1 c Hc) as [?%not_elem_of_nil|?]. }
  assert (∀ s2, quiet s1 s2 → ∀ c, c ∈ legal → ∃ r, st_pending s2 !! ca_index c = Some r ∧ eligible now s2 (ca_index c) r ∧ ca_age c = now - rq_queuedAt r) as Hleg2.
  { intros s2 Q2 c Hc. destruct (Hleg c Hc) as (r&Hr&He&Ha). destruct (quiet_lookup _ _ _ _ Q2 Hr) as (r'&Hr'&Hv). exists r'. split; [done|].
    split; [by apply (eligible_view now s1 s2 _ r r' Q2)|]. by injection Hv as _ _ -> _. }
  assert (∀ s2 j r, quiet s1 s2 → st_pending s2 !! j = Some r → eligible now s2 j r → ∃ c, c ∈ legal ∧ ca_index c = j ∧ ca_age c = now - rq_queuedAt r) as Hback.
  { intros s2 j r Q2 Hr He. destruct (quiet_sym_lookup _ _ _ _ Q2 Hr) as (r'&Hr'&Hv). destruct (H3 j r') as (c&?&?&Ha); [lia|done| |].
    - by apply (eligible_view now s1 s2 j r' r Q2).
    - exists c. split_and!; try done. rewrite Ha. by injection Hv as _ _ -> _. }
  destruct legal as [|oldest legal'] eqn:El; [|rewrite <- El in *; assert (oldest ∈ legal) as Hold by (rewrite El; left)].
  { exists None, s1. split_and!; try done. intros j r Hr He. destruct (Hback s1 j r (quiet_refl _) Hr He) as (c&?%not_elem_of_nil&_). done. }
  assert (∀ s2 c, quiet s1 s2 → c ∈ legal → ((scored) → (∃ c', c' ∈ legal ∧ starvation_threshold cf ≤ ca_age c') → ∀ c', c' ∈ legal → ca_age c' ≤ ca_age c) →
    ∃ r, st_pending s2 !! ca_index c = Some r ∧ eligible now s2 (ca_index c) r
      ∧ (scored → (∃ j r', st_pending s2 !! j = Some r' ∧ eligible now s2 j r' ∧ starvation_threshold cf ≤ now - rq_queuedAt r') →
         ∀ j r', st_pending s2 !! j = Some r' → eligible now s2 j r' → rq_queuedAt r ≤ rq_queuedAt r')) as Hdone.
  { intros s2 c Q2 Hc Hmax. destruct (Hleg2 s2 Q2 c Hc) as (r&Hr&He&Ha). exists r. split; [done|]. split; [done|].
    intros Hsc (j0&r0&Hr0&He0&Ht0) j r' Hr' He'. destruct (Hback s2 j0 r0 Q2 Hr0 He0) as (c0&Hc0&_&Ha0). destruct (Hback s2 j r' Q2 Hr' He') as (c1&Hc1&_&Ha1).
    assert (ca_age c1 ≤ ca_age c) by (apply Hmax; [done| |done]; exists c0; split; [done|lia]). lia. }
  case_bool_decide as E1.
  { exists (Some (ca_index oldest)), s1. split_and!; try done. apply Hdone; try done. intros Hsc. exfalso. apply Hsc.
    apply elem_of_cons in E1 as [->|E1]; [left|]. apply list_elem_of_singleton in E1 as ->. right. left. }
  case_bool_decide as E2.
  - set (f := {| ct_started := _ |}). pose proof (controller_steps parity_select f parity_looks (po_parity _ Hp1)) as Hf. unfold parity_step. rewrite Hf.
    cbn [mbind option_bind]. set (f' := {| ct_started := true |}).
    assert (Chosen (ct_board f') = actionOldest ∧ us_Current (ct_site f') = actionOldest) as [Ech Esite].
    { unfold f'. cbn [ct_board ct_site set_chosen Chosen]. unfold parity_select, utilSelectScalar. subst f. cbn -[Z.ltb Z.leb Z.add].
      pose proof (po_parity_site _ Hp1) as Hs. destruct (ct_site (st_parity s1)) as [[] cur sc ca]; cbn -[Z.ltb Z.leb Z.add] in *; [|done].
      rewrite (Hs eq_refl). cbn -[Z.ltb Z.leb Z.add]. destruct (ca <? 1), (1 <=? sc + 0); split; reflexivity. }
    rewrite Ech. cbn [Z.eqb actionOldest]. eexists (Some (ca_index oldest)), _. split; [reflexivity|].
    match goal with |- quiet s ?x ∧ _ => set (s2 := x) end. assert (quiet s1 s2) as Q2.
    { unfold s2. eapply quiet_trans; [|by apply quiet_counter]. eapply quiet_trans; [|by apply quiet_counter]. done. }
    split; [by eapply quiet_trans|]. split.
    + destruct Hp1. split; try done.
    + apply Hdone; try done. intros Hsc. exfalso. apply Hsc. rewrite E2. right. right. left.
  - destruct (select_scored_ok legal oldest s1 Hp1 Hold) as (c&s2&->&Q2&P2&Hc&Hmax). exists (Some (ca_index c)), s2. split; [done|].
    split; [by eapply quiet_trans|]. split; [done|]. by apply Hdone.
Qed.

(** ** Dispatching *)

(** Quiet steps that leave the policies sound. *)
Definition calm (s s' : state) : Prop := quiet s s' ∧ (policies_ok s → policies_ok s').

Lemma calm_refl s : calm s s.
Proof. by split. Qed.

Lemma calm_trans s1 s2 s3 : calm s1 s2 → calm s2 s3 → calm s1 s3.
Proof. intros [? ?] [? ?]. split; [by eapply quiet_trans|auto]. Qed.

Lemma calm_same s s' : quiet s s' → st_parity s' = st_parity s → st_fair s' = st_fair s → st_goFair s' = st_goFair s → calm s s'.
Proof. intros Hq E1 E2 E3. split; [done|]. by apply policies_same. Qed.

Lemma calm_trace r event reason s : calm s (trace cf r event reason s).
Proof. apply calm_same; [apply quiet_trace|..]; unfold trace; by repeat case_match. Qed.

Lemma calm_plant event s : calm s (recordPlant event s).
Proof. apply calm_same; [apply quiet_plant|..]; unfold recordPlant; by case_match. Qed.

Lemma calm_counter c n s : c ≠ doubleReleases → calm s (set_counters (add c n) s).
Proof. intros Hc. by apply calm_same; [apply quiet_counter|..]. Qed.

Lemma calm_max c n s : c ≠ doubleReleases → calm s (set_counters (updateMax c n) s).
Proof. intros Hc. by apply calm_same; [apply quiet_max|..]. Qed.

Lemma calm_ticks a c d s : calm s (set_ticks a c d s).
Proof. by apply calm_same. Qed.

Lemma start_requests_spec now n group s :
  map view (start_requests cf now n group s).1 = map view group ∧ calm s (start_requests cf now n group s).2.
Proof.
  revert s. induction group as [|r group IH]; intros s; cbn [start_requests]; [by split; [|apply calm_refl]|].
  set (p := match rq_waitingSince r with None => _ | Some _ => _ end).
  assert (view p.1 = view r ∧ calm s p.2) as [Hv Hc].
  { unfold p. destruct (rq_waitingSince r); [|by split; [|apply calm_refl]]. split; [done|].
    eapply calm_trans; [by apply (calm_counter waitTotal)|by apply calm_max]. }
  destruct p as [r1 s1]. cbn [fst snd] in *. set (r2 := if bool_decide _ then _ else r1).
  assert (view r2 = view r) as Hv2 by (rewrite <- Hv; unfold r2; by case_bool_decide).
  specialize (IH (trace cf r2 "Dispatch" (bs "batch=" ++ dec n) s1)). destruct (start_requests cf now n group _) as [rest s2]. cbn [fst snd] in *.
  destruct IH as [E1 E2]. split; [cbn; by rewrite Hv2, E1|]. eapply calm_trans; [exact Hc|]. eapply calm_trans; [apply calm_trace|exact E2].
Qed.

Lemma gather_spec first group pending :
  let '(group', rest) := gather cf first group pending in
  group ++ pending ≡ₚ group' ++ rest
  ∧ (∃ more, group' = group ++ more ∧ Forall (fun r => op_Kind (rq_op r) ≤ RangeRead) more)
  ∧ (zlen group ≤ cf_maxBatch cf → zlen group' ≤ cf_maxBatch cf).
Proof.
  revert group. induction pending as [|r pending IH]; intros group; cbn [gather].
  { split_and!; [done| |done]. exists []. by rewrite app_nil_r. }
  destruct ((zlen group <? cf_maxBatch cf) && compatible _ _ _) eqn:Ec.
  - apply andb_prop in Ec as [Ez Ec]. apply Z.ltb_lt in Ez. specialize (IH (group ++ [r])). destruct (gather cf first (group ++ [r]) pending) as [group' rest].
    destruct IH as (I1&(more&->&I2)&I3). split_and!.
    + rewrite <- I1, <- app_assoc. done.
    + exists (r :: more). split; [by rewrite <- app_assoc|]. constructor; [by eapply batches_read|done].
    + intros _. apply I3. unfold zlen in *. rewrite length_app. cbn. lia.
  - specialize (IH group). destruct (gather cf first group pending) as [group' rest]. destruct IH as (I1&I2&I3). split_and!; [|done..].
    rewrite <- !Permutation_middle. by constructor.
Qed.

(** A batch that may run as one job. *)
Definition batch_ok (b : batch) : Prop :=
  1 ≤ zlen (bt_requests b) ≤ cf_maxBatch cf
  ∧ (length (bt_requests b) = 1%nat ∨ Forall (fun r => op_Kind (rq_op r) ≤ RangeRead) (bt_requests b)).

Lemma dispatch_one_spec now i first s :
  st_pending s !! i = Some first →
  ∃ job others, let s' := dispatch_one cf now i first s in
    st_jobs s' = st_jobs s ++ [job] ∧ batch_ok job
    ∧ map view (st_pending s) ≡ₚ map view (bt_requests job) ++ map view (st_pending s')
    ∧ map view (bt_requests job) = view first :: others
    ∧ (others ≠ [] → op_Kind (rq_op first) ≤ RangeRead) ∧ Forall (fun v => op_Kind v.1.1.2 ≤ RangeRead) others
    ∧ st_owned s' = (if token_valid (rq_token first) then <[rq_token first := {| ow_request := first; ow_acquiredAt := now |}]> (st_owned s) else st_owned s)
    ∧ st_active s' = st_active s + 1 ∧ st_used s' = st_used s ∧ st_answers s' = st_answers s ∧ st_exposure s' = st_exposure s
    ∧ st_counters s' doubleReleases = st_counters s doubleReleases ∧ (policies_ok s → policies_ok s').
Proof.
  intros Hi. unfold dispatch_one. set (rest := take i (st_pending s) ++ drop (S i) (st_pending s)).
  assert (st_pending s ≡ₚ first :: rest) as Hrest.
  { rewrite <- (take_drop_middle _ _ _ Hi) at 1. symmetry. apply Permutation_middle. }
  set (gp := if _ <=? RangeRead then _ else _).
  assert (first :: rest ≡ₚ gp.1 ++ gp.2 ∧ (∃ more, gp.1 = first :: more ∧ Forall (fun r => op_Kind (rq_op r) ≤ RangeRead) more
      ∧ (more ≠ [] → op_Kind (rq_op first) ≤ RangeRead)) ∧ zlen gp.1 ≤ cf_maxBatch cf) as (G1&(more&G2&G3&G5)&G4).
  { unfold gp. destruct (op_Kind (rq_op first) <=? RangeRead) eqn:Ek; [apply Z.leb_le in Ek|].
    - pose proof (gather_spec first [first] rest) as Hg. destruct (gather cf first [first] rest) as [g p]. destruct Hg as (I1&(more&->&I2)&I3).
      split; [done|]. split; [by exists more|]. apply I3. by unfold zlen.
    - split; [done|]. split; [by exists []|]. by unfold zlen. }
  destruct gp as [group pending]. cbn [fst snd] in *.
  set (s1 := if token_valid (rq_token first) then _ else _).
  set (s0 := set_queue pending (if token_valid (rq_token first) then <[rq_token first := {| ow_request := first; ow_acquiredAt := now |}]> (st_owned s) else st_owned s) (st_active s) (st_jobs s) s).
  assert (calm s0 s1) as C1 by (unfold s0, s1; destruct (token_valid (rq_token first)); [apply calm_trace|apply calm_refl]).
  pose proof (start_requests_spec now (zlen group) group s1) as [Hv C2]. destruct (start_requests cf now (zlen group) group s1) as [group' s2]. cbn [fst snd] in *.
  set (s3 := set_queue (st_pending s2) (st_owned s2) (st_active s2 + 1) (st_jobs s2) s2).
  match goal with |- context [if bool_decide (cf_strategy cf = controlPlantCharacterization) then ?x else _] => set (s4 := if bool_decide _ then x else s3) end.
  assert (calm s3 s4) as C4 by (unfold s4; case_bool_decide; [apply calm_plant|apply calm_refl]).
  pose proof (calm_trans _ _ _ C1 C2) as [Q2 P2]. destruct C4 as [Q4 P4].
  exists {| bt_requests := group'; bt_dispatched := now; bt_pending := zlen (st_pending s4); bt_active := st_active s2 + 1 |}, (map view more).
  cbn [set_queue st_jobs st_pending st_owned st_active st_used st_answers st_exposure st_counters bt_requests].
  assert (length group' = length group) as El by (rewrite <- (length_map view group'), Hv; apply length_map).
  split; [by rewrite (q_jobs _ _ Q4); cbn; rewrite (q_jobs _ _ Q2)|]. split.
  { unfold batch_ok. cbn [bt_requests]. unfold zlen in *. rewrite El. split; [rewrite G2 in *; cbn [length] in *; lia|].
    destruct more as [|r more]; [left; by rewrite G2|right]. assert (Forall (fun v => op_Kind v.1.1.2 ≤ RangeRead) (map view group')) as HF.
    { rewrite Hv, G2. change (Forall (fun v => op_Kind v.1.1.2 ≤ RangeRead) (view first :: map view (r :: more))). constructor; [by apply G5|]. by apply Forall_fmap. }
    exact (proj1 (Forall_fmap _ _ _) HF). }
  split. { rewrite (q_pending _ _ Q4). cbn. rewrite (q_pending _ _ Q2), Hv, <- map_app. cbn. by rewrite <- G1, Hrest. }
  split; [by rewrite Hv, G2|]. split; [intros Hne; apply G5; by intros ->|]. split; [by apply Forall_fmap|].
  split; [by rewrite (q_owned _ _ Q4); cbn; rewrite (q_owned _ _ Q2)|]. split; [by rewrite (q_active _ _ Q2)|].
  split; [by rewrite (q_used _ _ Q4); cbn; rewrite (q_used _ _ Q2)|]. split; [by rewrite (q_answers _ _ Q4); cbn; rewrite (q_answers _ _ Q2)|].
  split; [by rewrite (q_exposure _ _ Q4); cbn; rewrite (q_exposure _ _ Q2)|]. split; [by rewrite (q_double _ _ Q4); cbn; rewrite (q_double _ _ Q2)|].
  intros Hp. apply (policies_same s4); [done..|]. apply P4. apply (policies_same s2); [done..|]. apply P2. by apply (policies_same s).
Qed.
End theorems.
