(* ===== verification/ScheduledSystem.v ===== *)
(** * The scheduler as a system

    Submitters, the dispatcher and the workers of a scheduler
    ([internal/scheduled/scheduled.go], [conflict.go]) as steps on one state,
    and the invariant of its runs: every admitted request is in exactly one
    place, the owners of tokens are the requests in flight, and capacity holds. *)

From Stdlib Require Import ZArith Lia Strings.Byte Strings.String.
From stdpp Require Import base decidable countable list gmap.
From S2P Require Import Prelude GoText GoJson Scheduled ScheduledObserver ScheduledDispatch ScheduledPolicy ScheduledSelect.

Local Open Scope Z_scope.

Lemma insert_by_perm {A} (lt : A → A → bool) x l : insert_by lt x l ≡ₚ x :: l.
Proof. induction l as [|y l IH]; cbn; [done|]. destruct (lt y x); [|done]. rewrite IH. constructor. Qed.

Lemma sort_by_perm {A} (lt : A → A → bool) l : sort_by lt l ≡ₚ l.
Proof. induction l as [|x l IH]; cbn; [done|]. by rewrite insert_by_perm, IH. Qed.

(** ** The system *)

(** [sy_reserved] holds the operations of the submitters between their
    [CompareAndSwap] and the channel, [sy_input] is that channel, [sy_taken] the batches workers hold or
    have sent to [completions], [sy_log] the operations by request number. *)
Record system := {
  sy_state : state; sy_reserved : list Operation; sy_input : list request; sy_taken : list batch; sy_log : list Operation }.

(** The request [Submit] sends. *)
Definition submitted (ptr : nat) (op : Operation) (now : Z) : request :=
  {| rq_ptr := ptr; rq_op := op; rq_queuedAt := now; rq_token := zeroToken; rq_waitingSince := None;
     rq_conflictWait := 0; rq_agent := zeroAgent |}.

Definition set_used (used : Z) (s : state) : state := set_answers used (st_answers s) s.
(** A worker's receive from [jobs]. *)
Definition set_jobs (jobs : list batch) (s : state) : state := set_queue (st_pending s) (st_owned s) (st_active s) jobs s.

Section system.
Context {P : Type} `{planLookup P} (cf : config P).

Definition initial : system :=
  {| sy_state := new_state cf; sy_reserved := []; sy_input := []; sy_taken := []; sy_log := [] |}.

Inductive step : system → system → Prop :=
| step_reserve y op :
    decide_admission cf (st_used (sy_state y)) op = Granted →
    step y {| sy_state := set_used (st_used (sy_state y) + 1) (sy_state y); sy_reserved := sy_reserved y ++ [op];
              sy_input := sy_input y; sy_taken := sy_taken y; sy_log := sy_log y |}
| step_abandon y l op l' :
    sy_reserved y = l ++ op :: l' →
    step y {| sy_state := set_used (st_used (sy_state y) - 1) (sy_state y); sy_reserved := l ++ l';
              sy_input := sy_input y; sy_taken := sy_taken y; sy_log := sy_log y |}
| step_submit y l op l' now :
    sy_reserved y = l ++ op :: l' →
    step y {| sy_state := sy_state y; sy_reserved := l ++ l';
              sy_input := sy_input y ++ [submitted (length (sy_log y)) op now]; sy_taken := sy_taken y;
              sy_log := sy_log y ++ [op] |}
| step_arrive y now r input s :
    sy_input y = r :: input → on_arrival cf now r (sy_state y) = Some s →
    step y {| sy_state := s; sy_reserved := sy_reserved y; sy_input := input; sy_taken := sy_taken y; sy_log := sy_log y |}
| step_take y b jobs :
    st_jobs (sy_state y) = b :: jobs →
    step y {| sy_state := set_jobs jobs (sy_state y); sy_reserved := sy_reserved y; sy_input := sy_input y;
              sy_taken := sy_taken y ++ [b]; sy_log := sy_log y |}
| step_complete y l b l' err started finished s :
    sy_taken y = l ++ b :: l' →
    on_completion cf {| cm_job := b; cm_err := err; cm_started := started; cm_finished := finished |} (sy_state y) = Some s →
    step y {| sy_state := s; sy_reserved := sy_reserved y; sy_input := sy_input y; sy_taken := l ++ l'; sy_log := sy_log y |}
| step_tick y now s :
    on_tick cf now (sy_state y) = Some s →
    step y {| sy_state := s; sy_reserved := sy_reserved y; sy_input := sy_input y; sy_taken := sy_taken y; sy_log := sy_log y |}.

(** The runs of a scheduler with a strategy, until it is closed; one without
    runs [dispatch] instead. *)
Inductive reachable : system → Prop :=
| reach_initial : cf_strategy cf ≠ controlNone → reachable initial
| reach_step y y' : reachable y → step y y' → reachable y'.
End system.

(** The requests jobs and workers hold. *)
Definition flight (batches : list batch) : list request := concat (map bt_requests batches).
Definition in_flight (y : system) : list request := flight (st_jobs (sy_state y) ++ sy_taken y).

Definition id_of (r : request) : nat * Operation := (rq_ptr r, rq_op r).

Lemma flight_app l l' : flight (l ++ l') = flight l ++ flight l'.
Proof. unfold flight. by rewrite map_app, concat_app. Qed.

(** ** The invariant of the requests *)

Section invariant.
Context {P : Type} `{planLookup P} (cf : config P) `{Hlaws : !PlanLaws (cf_plan cf)}.
Hypothesis Hbatch : 1 ≤ cf_maxBatch cf.
Hypothesis Hworkers : 1 ≤ cf_workers cf.

(** [F] are the requests in flight. *)
Record sound (s : state) (F input : list request) (reserved log : list Operation) : Prop := {
  so_log : map id_of (input ++ st_pending s ++ F ++ (st_answers s).*1) ≡ₚ imap pair log;
  so_used : st_used s = zlen reserved + zlen input + zlen (st_pending s) + zlen F;
  so_tokens : ∀ r, r ∈ st_pending s ++ F → rq_token r = (conflictToken (cf_plan cf) (rq_op r)).1;
  so_owned : ∀ t p, (rq_ptr ∘ ow_request <$> st_owned s !! t) = Some p ↔
    token_valid t = true ∧ ∃ r, r ∈ F ∧ rq_token r = t ∧ rq_ptr r = p;
  so_double : st_counters s doubleReleases = 0;
  so_policies : policies_ok s }.

Lemma ids_view l l' : map view l = map view l' → map id_of l = map id_of l'.
Proof.
  intros E. assert (∀ l, map id_of l = map (fun v => v.1.1) (map view l)) as Hid by (intros k; by rewrite map_map).
  by rewrite !Hid, E.
Qed.

Lemma view_in l l' r : map view l = map view l' → r ∈ l → ∃ r', r' ∈ l' ∧ view r' = view r.
Proof.
  intros E [i Hi]%list_elem_of_lookup. assert (map view l' !! i = Some (view r)) as E'
    by (rewrite <- E; by rewrite list_lookup_fmap, Hi).
  apply list_lookup_fmap_Some in E' as (r'&E'&Hr'). exists r'. split; [by eapply list_elem_of_lookup_2|done].
Qed.

(** What it says depends on the views only. *)
Lemma sound_views s s' F F' input reserved log :
  sound s F input reserved log →
  map view (st_pending s) ++ map view F ≡ₚ map view (st_pending s') ++ map view F' →
  (∀ t p, (rq_ptr ∘ ow_request <$> st_owned s' !! t) = Some p ↔ token_valid t = true ∧ ∃ r, r ∈ F' ∧ rq_token r = t ∧ rq_ptr r = p) →
  st_used s' = st_used s → st_answers s' = st_answers s → st_counters s' doubleReleases = st_counters s doubleReleases →
  (policies_ok s → policies_ok s') →
  sound s' F' input reserved log.
Proof.
  intros [S1 S2 S3 S4 S5 S6] Hv Ho Eu Ea Ed Hp. rewrite <- !map_app in Hv. split; auto; try congruence.
  - rewrite Ea, <- S1, !(assoc_L (++) _ _ (_.*1)), !map_app. do 2 f_equiv. rewrite <- !map_app.
    assert (∀ l, map id_of l = map (fun v => v.1.1) (map view l)) as Hid by (intros k; by rewrite map_map). rewrite !Hid. by rewrite Hv.
  - apply Permutation_length in Hv. rewrite !length_map, !length_app in Hv. rewrite Eu, S2. unfold zlen. lia.
  - intros r Hr. assert (view r ∈ map view (st_pending s ++ F)) as Hin by (rewrite Hv; apply list_elem_of_fmap; eauto).
    apply list_elem_of_fmap in Hin as (r'&E&Hr'). specialize (S3 r' Hr'). injection E as _ Eo _ Et. by rewrite Et, Eo.
Qed.

Lemma sound_calm s s' F input reserved log : sound s F input reserved log → calm s s' → sound s' F input reserved log.
Proof.
  intros Hs [Q Hp]. apply (sound_views s s' F F); try apply Q; try done.
  - by rewrite (q_pending _ _ Q).
  - intros t p. rewrite (q_owned _ _ Q). apply Hs.
Qed.

Lemma sound_perm s F F' input reserved log : sound s F input reserved log → F ≡ₚ F' → sound s F' input reserved log.
Proof.
  intros Hs HF. apply (sound_views s s F F'); try done; [by rewrite HF|]. intros t p. rewrite (so_owned _ _ _ _ _ Hs). by setoid_rewrite HF.
Qed.

Lemma sound_nodup s F input reserved log : sound s F input reserved log → NoDup (map rq_ptr (input ++ st_pending s ++ F ++ (st_answers s).*1)).
Proof.
  intros Hs. assert (map fst (map id_of (input ++ st_pending s ++ F ++ (st_answers s).*1)) ≡ₚ seq 0 (length log)) as E.
  { rewrite (so_log _ _ _ _ _ Hs). replace (map fst (imap pair log)) with (seq 0 (length log)); [done|].
    apply list_eq. intros i. rewrite list_lookup_fmap, list_lookup_imap. destruct (log !! i) eqn:Ei; cbn.
    - apply lookup_lt_Some in Ei. by rewrite lookup_seq_lt.
    - apply lookup_ge_None in Ei. by rewrite lookup_seq_ge. }
  rewrite map_map in E. change (map rq_ptr ?l) with (map (λ r, (id_of r).1) l). rewrite E. apply NoDup_seq.
Qed.

(** Reads own nothing. *)
Lemma read_token op : op_Kind op ≤ RangeRead → token_valid (conflictToken (cf_plan cf) op).1 = false.
Proof.
  intros Hk. unfold conflictToken. destruct (command (cf_plan cf) (op_Kind op)) as [d|] eqn:Ec; [|done].
  by rewrite (reads_free _ _ Hk Ec).
Qed.

(** ** One round *)

Lemma sound_dispatch now i first s F input reserved log :
  sound s F input reserved log → st_pending s !! i = Some first → eligible cf now s i first →
  ∃ job, let s' := dispatch_one cf now i first s in
    st_jobs s' = st_jobs s ++ [job] ∧ batch_ok cf job ∧ st_active s' = st_active s + 1 ∧ st_exposure s' = st_exposure s
    ∧ st_used s' = st_used s ∧ st_answers s' = st_answers s ∧ sound s' (bt_requests job ++ F) input reserved log.
Proof.
  intros Hs Hi [Hbusy _]. destruct (dispatch_one_spec cf Hbatch now i first s Hi) as (job&others&D1&D2&D3&D4&D5&D6&D7&D8&D9&D10&D11&D12&D13).
  exists job. cbv zeta. split_and!; try done. set (s' := dispatch_one cf now i first s) in *.
  assert (first ∈ st_pending s) as Hin by (by eapply list_elem_of_lookup_2).
  assert (∀ r, r ∈ bt_requests job → token_valid (rq_token r) = true → view r = view first) as Hone.
  { intros r Hr Ht. assert (view r ∈ view first :: others) as Hv by (rewrite <- D4; apply list_elem_of_fmap; eauto).
    apply elem_of_cons in Hv as [?|Hv]; [done|]. exfalso. rewrite Forall_forall in D6. specialize (D6 _ Hv). cbn in D6.
    assert (view r ∈ map view (st_pending s)) as Hv' by (rewrite D3, D4; apply elem_of_app; left; by right).
    apply list_elem_of_fmap in Hv' as (r0&E0&Hr0). injection E0 as _ Eo _ Et.
    rewrite Et, (so_tokens _ _ _ _ _ Hs r0), <- Eo, read_token in Ht; [done|done|by apply elem_of_app; left]. }
  apply (sound_views s s' F (bt_requests job ++ F)); try done.
  - rewrite D3, map_app. rewrite <- (assoc_L (++)), (comm (++) (map view (st_pending s')) (map view F)). by rewrite (assoc_L (++)), (comm (++) _ (map view (st_pending s'))).
  - intros t p. rewrite D7. pose proof (so_owned _ _ _ _ _ Hs t p) as Ho. destruct (token_valid (rq_token first)) eqn:Ev.
    + destruct (decide (t = rq_token first)) as [->|Hne].
      * rewrite lookup_insert_eq. cbn [fmap option_fmap option_map compose ow_request]. split.
        -- intros [= <-]. split; [done|]. assert (view first ∈ map view (bt_requests job)) as Hv by (rewrite D4; left).
           apply list_elem_of_fmap in Hv as (r&E&Hr). exists r. injection E as Ep _ _ Et. split_and!; [|done..]. apply elem_of_app. by left.
        -- intros (_&r&Hr&Et&<-). apply elem_of_app in Hr as [Hr|Hr].
           ++ rewrite <- Et in Ev. specialize (Hone r Hr Ev). by injection Hone as -> _ _ _.
           ++ exfalso. assert ((rq_ptr ∘ ow_request <$> st_owned s !! rq_token first) = Some (rq_ptr r)) as E.
              { apply (so_owned _ _ _ _ _ Hs). split; [done|]. by exists r. }
              unfold busy in Hbusy. rewrite Ev in Hbusy. by rewrite Hbusy in E.
      * rewrite lookup_insert_ne by done. rewrite Ho. split; intros (Ht&r&Hr&Et&Ep); (split; [done|]); exists r; (split; [|done]).
        -- apply elem_of_app. by right.
        -- apply elem_of_app in Hr as [Hr|Hr]; [|done]. exfalso. rewrite <- Et in Ht, Hne. specialize (Hone r Hr Ht). apply Hne. by injection Hone as _ _ _ ->.
    + rewrite Ho. split; intros (Ht&r&Hr&Et&Ep); (split; [done|]); exists r; (split; [|done]).
      * apply elem_of_app. by right.
      * apply elem_of_app in Hr as [Hr|Hr]; [|done]. exfalso. rewrite <- Et in Ht. specialize (Hone r Hr Ht). injection Hone as _ _ _ E. by rewrite E, Ev in Ht.
Qed.

(** The requests wait for a reason. *)
Definition saturated (now : Z) (s : state) : Prop :=
  st_exposure s ≤ st_active s ∨ ∀ j r, st_pending s !! j = Some r → ¬ eligible cf now s j r.

Lemma dispatch_rounds_spec fuel now s F input reserved log :
  (Z.to_nat (st_exposure s - st_active s) ≤ fuel)%nat → sound s F input reserved log →
  ∃ s' jobs, dispatch_rounds cf fuel now s = Some s' ∧ st_jobs s' = st_jobs s ++ jobs ∧ Forall (batch_ok cf) jobs
    ∧ sound s' (flight jobs ++ F) input reserved log ∧ st_exposure s' = st_exposure s
    ∧ st_active s' = st_active s + zlen jobs ∧ (st_active s' ≤ st_exposure s' ∨ jobs = [])
    ∧ st_used s' = st_used s ∧ st_answers s' = st_answers s ∧ saturated now s' ∧ (jobs = [] → quiet s s').
Proof.
  revert s F. induction fuel as [|fuel IH]; intros s F Hf Hs; cbn [dispatch_rounds]; destruct (st_exposure s <=? st_active s) eqn:Ee.
  1,3: apply Z.leb_le in Ee; exists s, []; split_and!; try done; [by rewrite app_nil_r|by unfold zlen; cbn; lia|by right|by left].
  1: apply Z.leb_gt in Ee; lia.
  apply Z.leb_gt in Ee. destruct (select_spec cf now s (so_policies _ _ _ _ _ Hs)) as (oi&s1&->&Q&P1&Hsel). cbn [mbind option_bind].
  assert (sound s1 F input reserved log) as Hs1 by (apply (sound_calm s); [done|by split]).
  destruct oi as [i|].
  - destruct Hsel as (r&Hr&He&_). rewrite Hr. destruct (sound_dispatch now i r s1 F input reserved log Hs1 Hr He) as (job&D1&D2&D3&D4&D6&D7&D5).
    set (s2 := dispatch_one cf now i r s1) in *. rewrite (q_active _ _ Q) in D3. rewrite (q_exposure _ _ Q) in D4. rewrite (q_jobs _ _ Q) in D1. rewrite (q_used _ _ Q) in D6. rewrite (q_answers _ _ Q) in D7.
    destruct (IH s2 _ ltac:(lia) D5) as (s'&jobs&->&J1&J2&J3&J4&J5&J6&J7&J8&J9&_). exists s', (job :: jobs). split; [done|].
    split; [by rewrite J1, D1, <- app_assoc|]. split; [by constructor|]. split.
    { apply (sound_perm _ _ _ _ _ _ J3). change (flight (job :: jobs)) with (bt_requests job ++ flight jobs).
      by rewrite (assoc_L (++)), (comm (++) (bt_requests job)). }
    split; [by rewrite J4|]. split; [rewrite J5, D3; unfold zlen; cbn; lia|]. split; [left; destruct J6 as [?| ->]; [done|]|split_and!; [congruence..|done|done]].
    rewrite J4, J5, D3, D4. unfold zlen. cbn. lia.
  - exists s1, []. split_and!; try done; [by rewrite (q_jobs _ _ Q), app_nil_r|by apply Q|by rewrite (q_active _ _ Q); unfold zlen; cbn; lia|by right|by apply Q|by apply Q|by right].
Qed.

(** ** One completion *)

Lemma calm_update i r r' s : st_pending s !! i = Some r → view r' = view r → calm s (set_pending (<[i := r']> (st_pending s)) s).
Proof. intros Hr Hv. by apply calm_same; [eapply quiet_update|..]. Qed.

Lemma calm_wake r s : calm s (wakeNext cf r s).
Proof.
  unfold wakeNext. destruct (negb _); [apply calm_refl|]. destruct (list_find _ _) as [[i q]|] eqn:Ef; [|apply calm_refl].
  apply list_find_Some in Ef as (Hi&_). destruct (agent_send _ _) as [agent sent]. destruct (negb sent); [by apply calm_counter|].
  eapply calm_trans; [|apply calm_trace]. eapply calm_trans; [by apply (calm_counter messages 1)|]. eapply calm_trans; [by apply (calm_counter wakeups 1)|].
  eapply calm_trans; [by apply (calm_max peakMailbox (zlen (ra_mailbox agent)))|]. by apply (calm_update _ q).
Qed.

Lemma finish_agent_spec err r s : view (finish_agent cf err r s).1 = view r ∧ calm s (finish_agent cf err r s).2.
Proof.
  unfold finish_agent. destruct (negb _); [split; [done|apply calm_refl]|]. destruct (agent_send _ _) as [agent sent].
  destruct (negb sent); cbn [fst snd]; (split; [done|]); [by apply calm_counter|].
  eapply calm_trans; [by apply (calm_counter messages 1)|by apply calm_max].
Qed.

(** A request's release takes it out of the requests in flight. *)
Lemma release_spec now r s F input reserved log :
  sound s (r :: F) input reserved log →
  ∃ s1, calm s1 (release cf now r s) ∧ st_jobs s1 = st_jobs s ∧ st_active s1 = st_active s ∧ st_exposure s1 = st_exposure s
    ∧ st_pending s1 = st_pending s ∧ st_used s1 = st_used s ∧ st_answers s1 = st_answers s
    ∧ st_counters s1 doubleReleases = 0 ∧ policies_ok s1
    ∧ ∀ t p, (rq_ptr ∘ ow_request <$> st_owned s1 !! t) = Some p ↔ token_valid t = true ∧ ∃ r', r' ∈ F ∧ rq_token r' = t ∧ rq_ptr r' = p.
Proof.
  intros Hs. pose proof (so_owned _ _ _ _ _ Hs) as Ho. unfold release. destruct (token_valid (rq_token r)) eqn:Ev; cbn [negb].
  - assert ((rq_ptr ∘ ow_request <$> st_owned s !! rq_token r) = Some (rq_ptr r)) as E.
    { apply Ho. split; [done|]. exists r. split; [left|done]. }
    destruct (st_owned s !! rq_token r) as [o|] eqn:Eo; [|done]. cbn in E. injection E as E. rewrite E, Nat.eqb_refl.
    exists (set_queue (st_pending s) (delete (rq_token r) (st_owned s)) (st_active s) (st_jobs s) s). split.
    { eapply calm_trans; [|apply calm_wake]. eapply calm_trans; [|apply calm_trace]. apply calm_same; try done. }
    split_and!; try done; [apply Hs|apply (policies_same s); try done; apply Hs|]. intros t p. cbn [set_queue st_owned].
    destruct (decide (t = rq_token r)) as [->|Hne].
    + rewrite lookup_delete_eq. split; [done|]. intros (_&r'&Hr'&Et&Ep). exfalso.
      assert ((rq_ptr ∘ ow_request <$> st_owned s !! rq_token r) = Some (rq_ptr r')) as E'.
      { apply Ho. split; [done|]. exists r'. split; [by right|done]. }
      rewrite Eo in E'. cbn in E'. injection E' as E'. pose proof (sound_nodup _ _ _ _ _ Hs) as Hn. rewrite !map_app in Hn.
      apply NoDup_app in Hn as (_&_&Hn). apply NoDup_app in Hn as (_&_&Hn). apply NoDup_app in Hn as (Hn&_). cbn in Hn.
      apply NoDup_cons in Hn as [Hn _]. apply Hn. rewrite <- E, E'. apply list_elem_of_fmap. eauto.
    + rewrite lookup_delete_ne by done. rewrite Ho. split; intros (Ht&r'&Hr'&Et&Ep); (split; [done|]); exists r'; (split; [|done]).
      * apply elem_of_cons in Hr' as [->|?]; done.
      * by right.
  - exists s. split; [apply calm_refl|]. split_and!; try done; [apply Hs|apply Hs|]. intros t p. rewrite Ho.
    split; intros (Ht&r'&Hr'&Et&Ep); (split; [done|]); exists r'; (split; [|done]).
    + apply elem_of_cons in Hr' as [->|?]; [|done]. by rewrite Et, Ht in Ev.
    + by right.
Qed.

Lemma complete_sound d r s F input reserved log :
  sound s (r :: F) input reserved log →
  let s' := complete_request cf d s r in
  sound s' F input reserved log ∧ st_jobs s' = st_jobs s ∧ st_active s' = st_active s ∧ st_exposure s' = st_exposure s
  ∧ map view (st_pending s') = map view (st_pending s)
  ∧ ∃ r' res, st_answers s' = st_answers s ++ [(r', res)] ∧ view r' = view r.
Proof.
  intros Hs. unfold complete_request. destruct (release_spec (cm_finished d) r s F input reserved log Hs) as (s1&C1&R1&R2&R3&R4&R5&R6&R7&R8&R9).
  pose proof (finish_agent_spec (cm_err d) r (release cf (cm_finished d) r s)) as [Hv C2].
  destruct (finish_agent cf (cm_err d) r (release cf (cm_finished d) r s)) as [r' s2]. cbn [fst snd] in *.
  destruct (calm_trans _ _ _ C1 C2) as [Q2 P2]. destruct Q2 as [Qp Qo Qa Qj Qu Qn Qe Qd]. rewrite R4 in Qp.
  cbv zeta. cbn [set_answers st_jobs st_active st_exposure st_pending st_answers]. split_and!; try congruence; [|eexists _, _; split; [by rewrite Qn, R6|done]].
  destruct Hs as [S1 S2 S3 S4 S5 S6].
  split; cbn [set_answers st_pending st_answers st_owned st_counters].
  - rewrite Qn, R6, fmap_app. cbn [fmap list_fmap fst]. rewrite <- S1, !map_app. cbn [map].
    rewrite (ids_view _ _ Qp). match goal with |- context [id_of (r', ?x).1] => change (id_of (r', x).1) with (id_of r') end.
    replace (id_of r') with (id_of r) by (by injection Hv as E1 E2 _ _; unfold id_of; rewrite E1, E2).
    do 2 f_equiv. symmetry. change (?a :: ?l ++ ?l') with (a :: (l ++ l')). rewrite (assoc_L (++)). apply Permutation_cons_append.
  - cbn. rewrite Qu, R5, S2. apply (f_equal length) in Qp. rewrite !length_map in Qp. unfold zlen. rewrite Qp. cbn [length]. lia.
  - intros q Hq. apply elem_of_app in Hq as [Hq|Hq]; [|apply S3, elem_of_app; right; by right].
    destruct (view_in _ _ _ Qp Hq) as (q'&Hq'&E). injection E as _ Eo _ Et. rewrite <- Et, <- Eo. apply S3, elem_of_app. by left.
  - intros t p. rewrite Qo. apply R9.
  - by rewrite Qd.
  - apply (policies_same s2); try done. by apply P2.
Qed.

Lemma complete_all d rs s F input reserved log :
  sound s (rs ++ F) input reserved log →
  let s' := foldl (complete_request cf d) s rs in
  sound s' F input reserved log ∧ st_jobs s' = st_jobs s ∧ st_active s' = st_active s ∧ st_exposure s' = st_exposure s
  ∧ length (st_pending s') = length (st_pending s)
  ∧ ∃ more, st_answers s' = st_answers s ++ more ∧ map view more.*1 = map view rs.
Proof.
  revert s. induction rs as [|r rs IH]; intros s Hs; cbn [foldl]; cbv zeta.
  { split_and!; try done. exists []. by rewrite app_nil_r. }
  destruct (complete_sound d r s (rs ++ F) input reserved log Hs) as (C1&C2&C3&C4&C5&r'&res&C6&C7). apply (f_equal length) in C5. rewrite !length_map in C5.
  destruct (IH _ C1) as (I1&I2&I3&I4&I7&more&I5&I6). cbv zeta in *. split_and!; try congruence; try done.
  exists ((r', res) :: more). split; [by rewrite I5, C6, <- app_assoc|]. cbn. rewrite <- I6, C7. done.
Qed.

(** ** The events of the dispatcher *)

Lemma policies_observe now s : policies_ok s → policies_ok (observe cf now s).
Proof.
  apply policies_same; unfold observe; destruct (observer_update _ _ _ _ _) as [o e]; by case_bool_decide.
Qed.

Lemma observe_spec now s :
  1 ≤ st_exposure s ≤ cf_workers cf →
  let s' := observe cf now s in
  st_pending s' = st_pending s ∧ st_owned s' = st_owned s ∧ st_active s' = st_active s ∧ st_jobs s' = st_jobs s
  ∧ st_used s' = st_used s ∧ st_answers s' = st_answers s ∧ st_counters s' = st_counters s
  ∧ 1 ≤ st_exposure s' ≤ cf_workers cf ∧ (cf_strategy cf ≠ controlReactive → st_exposure s' = st_exposure s).
Proof.
  intros He. unfold observe. destruct (observer_update _ _ _ _ _) as [o e]. case_bool_decide as Er; cbv zeta; split_and!; try done; try apply He;
    cbn; unfold reactiveExposure; repeat case_match; rewrite ?Z.ltb_lt, ?Z.ltb_ge in *; lia.
Qed.

Record inv (y : system) : Prop := {
  in_sound : sound (sy_state y) (in_flight y) (sy_input y) (sy_reserved y) (sy_log y);
  in_capacity : st_used (sy_state y) ≤ cf_capacity cf;
  in_active : st_active (sy_state y) = zlen (st_jobs (sy_state y) ++ sy_taken y);
  in_workers : st_active (sy_state y) ≤ cf_workers cf;
  in_exposure : 1 ≤ st_exposure (sy_state y) ≤ cf_workers cf;
  in_batches : Forall (batch_ok cf) (st_jobs (sy_state y) ++ sy_taken y) }.

(** Dispatching keeps the invariant, whatever the event did before it. *)
Lemma ready_inv now s taken input reserved log used :
  st_used s = used → used ≤ cf_capacity cf →
  sound s (flight (st_jobs s ++ taken)) input reserved log → st_active s = zlen (st_jobs s ++ taken) → st_active s ≤ cf_workers cf →
  1 ≤ st_exposure s ≤ cf_workers cf → Forall (batch_ok cf) (st_jobs s ++ taken) →
  ∃ s', dispatchReady cf now s = Some s' ∧ saturated now s'
    ∧ inv {| sy_state := s'; sy_reserved := reserved; sy_input := input; sy_taken := taken; sy_log := log |}
    ∧ (st_jobs s' = st_jobs s → quiet s s').
Proof.
  intros Eu Hc Hs Ha Hw He Hb. unfold dispatchReady.
  destruct (dispatch_rounds_spec _ now s _ input reserved log (Nat.le_refl _) Hs) as (s'&jobs&E&J1&J2&J3&J4&J5&J6&J8&J9&J7&J10).
  exists s'. split; [done|]. split; [done|]. split; [|intros E'; apply J10; rewrite J1 in E'; apply (f_equal length) in E'; rewrite length_app in E'; apply nil_length_inv; lia].
  assert (flight jobs ++ flight (st_jobs s ++ taken) ≡ₚ flight (st_jobs s' ++ taken)) as HF.
  { rewrite J1, !flight_app. rewrite (assoc_L (++)). by rewrite (comm (++) (flight jobs)). }
  split; cbn [sy_state sy_input sy_reserved sy_taken sy_log].
  - by apply (sound_perm _ _ _ _ _ _ J3).
  - by rewrite J8, Eu.
  - rewrite J5, Ha, J1. unfold zlen. rewrite !length_app. lia.
  - destruct J6 as [?| ->]; [lia|]. rewrite J5. unfold zlen. cbn. lia.
  - by rewrite J4.
  - rewrite J1. apply Forall_app in Hb as [? ?]. by repeat apply Forall_app_2.
Qed.

Lemma arrival_sound r s F input reserved log r' s' :
  sound s F (r :: input) reserved log →
  id_of r' = id_of r → rq_token r' = (conflictToken (cf_plan cf) (rq_op r')).1 →
  st_pending s' ≡ₚ r' :: st_pending s → st_owned s' = st_owned s → st_used s' = st_used s → st_answers s' = st_answers s →
  st_counters s' doubleReleases = st_counters s doubleReleases → (policies_ok s → policies_ok s') →
  sound s' F input reserved log.
Proof.
  intros [S1 S2 S3 S4 S5 S6] Ei Et Ep Eo Eu Ea Ed Hp. split; try congruence; auto.
  - rewrite Ea, <- S1, !map_app, Ep. cbn. rewrite Ei. symmetry. rewrite <- Permutation_middle. done.
  - rewrite Eu, S2. unfold zlen. rewrite (Permutation_length Ep). cbn [length]. lia.
  - intros q Hq. rewrite Ep in Hq. apply elem_of_app in Hq as [Hq|Hq]; [|apply S3, elem_of_app; by right].
    apply elem_of_cons in Hq as [->|Hq]; [done|]. apply S3, elem_of_app. by left.
  - intros t p. by rewrite Eo.
Qed.

Lemma arrive_ok now y r input :
  inv y → sy_input y = r :: input →
  ∃ s, on_arrival cf now r (sy_state y) = Some s ∧ saturated now s
    ∧ inv {| sy_state := s; sy_reserved := sy_reserved y; sy_input := input; sy_taken := sy_taken y; sy_log := sy_log y |}.
Proof.
  intros [I1 I2 I3 I4 I5 I6] Ei. rewrite Ei in I1. unfold on_arrival.
  set (s1 := if observerActive cf then _ else _). set (r1 := set_token _ r). set (r2 := if bool_decide _ then _ else r1).
  set (s2 := set_pending (sort_pending (st_pending s1 ++ [r2])) s1).
  match goal with |- context [dispatchReady cf now ?x] => set (s3 := x) end.
  assert (calm (sy_state y) s1) as C1 by (unfold s1; destruct (observerActive cf); [apply calm_ticks|apply calm_refl]).
  assert (calm s2 s3) as [Q3 P3] by (unfold s3; case_bool_decide; [apply calm_plant|apply calm_refl]).
  assert (sound s2 (in_flight y) input (sy_reserved y) (sy_log y)) as S2.
  { apply (arrival_sound r s1 _ _ _ _ r2).
    - by apply (sound_calm (sy_state y)).
    - unfold r2, r1. by case_bool_decide.
    - unfold r2, r1. by case_bool_decide.
    - cbn. unfold sort_pending. rewrite sort_by_perm. symmetry. apply Permutation_cons_append.
    - done.
    - done.
    - done.
    - done.
    - by apply policies_same. }
  destruct C1 as [Q1 _]. edestruct (ready_inv now s3 (sy_taken y) input (sy_reserved y) (sy_log y) (st_used (sy_state y))) as (s&E&Hsat&Hi&_).
  - by rewrite (q_used _ _ Q3); cbn; rewrite (q_used _ _ Q1).
  - done.
  - apply (sound_calm s2); [|by split]. by rewrite (q_jobs _ _ Q3); cbn; rewrite (q_jobs _ _ Q1).
  - by rewrite (q_active _ _ Q3), (q_jobs _ _ Q3); cbn; rewrite (q_active _ _ Q1), (q_jobs _ _ Q1).
  - by rewrite (q_active _ _ Q3); cbn; rewrite (q_active _ _ Q1).
  - by rewrite (q_exposure _ _ Q3); cbn; rewrite (q_exposure _ _ Q1).
  - by rewrite (q_jobs _ _ Q3); cbn; rewrite (q_jobs _ _ Q1).
  - by exists s.
Qed.

Lemma tick_ok now y :
  inv y →
  ∃ s, on_tick cf now (sy_state y) = Some s ∧ saturated now s
    ∧ inv {| sy_state := s; sy_reserved := sy_reserved y; sy_input := sy_input y; sy_taken := sy_taken y; sy_log := sy_log y |}
    ∧ (st_jobs s = st_jobs (sy_state y) → map view (st_pending s) = map view (st_pending (sy_state y))).
Proof.
  intros [I1 I2 I3 I4 I5 I6]. unfold on_tick. set (s1 := if observerActive cf then _ else _).
  assert (st_pending s1 = st_pending (sy_state y) ∧ st_owned s1 = st_owned (sy_state y) ∧ st_active s1 = st_active (sy_state y)
    ∧ st_jobs s1 = st_jobs (sy_state y) ∧ st_used s1 = st_used (sy_state y) ∧ st_answers s1 = st_answers (sy_state y)
    ∧ st_counters s1 = st_counters (sy_state y) ∧ 1 ≤ st_exposure s1 ≤ cf_workers cf) as (E1&E2&E3&E4&E5&E6&E7&E8).
  { unfold s1. destruct (observerActive cf); [|done]. pose proof (observe_spec now (sy_state y) I5). cbv zeta in *. tauto. }
  assert (policies_ok s1) as P1 by (unfold s1; destruct (observerActive cf); [apply policies_observe|]; apply I1).
  edestruct (ready_inv now s1 (sy_taken y) (sy_input y) (sy_reserved y) (sy_log y) (st_used (sy_state y))) as (s&E&Hsat&Hi&Hq); try done.
  - rewrite E4. apply (sound_views (sy_state y) s1 (in_flight y)); try done; [by rewrite E1| |by rewrite E7].
    intros t p. rewrite E2. apply I1.
  - by rewrite E3, E4.
  - by rewrite E3.
  - by rewrite E4.
  - exists s. split_and!; try done. rewrite <- E4. intros Ej. by rewrite (q_pending _ _ (Hq Ej)), E1.
Qed.

Lemma complete_ok y l b l' err started finished :
  inv y → sy_taken y = l ++ b :: l' →
  ∃ s, on_completion cf {| cm_job := b; cm_err := err; cm_started := started; cm_finished := finished |} (sy_state y) = Some s
    ∧ saturated finished s
    ∧ inv {| sy_state := s; sy_reserved := sy_reserved y; sy_input := sy_input y; sy_taken := l ++ l'; sy_log := sy_log y |}.
Proof.
  intros [I1 I2 I3 I4 I5 I6] Et. unfold on_completion. cbn [cm_job cm_finished]. set (d := {| cm_job := b; cm_err := _ |}).
  set (s1 := if observerActive cf then _ else _). set (s2 := set_queue _ _ _ _ s1).
  match goal with |- context [foldl _ ?x _] => set (s3 := x) end.
  assert (calm (sy_state y) s1) as [Q1 P1] by (unfold s1; destruct (observerActive cf); [apply calm_ticks|apply calm_refl]).
  assert (calm s2 s3) as [Q3 P3].
  { unfold s3. destruct (bt_requests b); [apply calm_refl|]. case_bool_decide; [apply calm_plant|apply calm_refl]. }
  assert (st_jobs (sy_state y) ++ sy_taken y ≡ₚ b :: st_jobs (sy_state y) ++ l ++ l') as Hjobs.
  { rewrite Et. rewrite <- Permutation_middle. symmetry. apply Permutation_middle. }
  assert (sound s3 (bt_requests b ++ flight (st_jobs (sy_state y) ++ l ++ l')) (sy_input y) (sy_reserved y) (sy_log y)) as S3.
  { apply (sound_perm _ (in_flight y)).
    - apply (sound_calm s2); [|by split]. apply (sound_views s1 s2 (in_flight y) (in_flight y)); try done.
      + apply (sound_calm (sy_state y)); [done|by split].
      + intros t p. cbn. rewrite (q_owned _ _ Q1). apply I1.
      + by apply policies_same.
    - unfold in_flight, flight. rewrite Hjobs. done. }
  destruct (complete_all d (bt_requests b) s3 _ _ _ _ S3) as (C1&C2&C3&C4&C5&_). set (s4 := foldl _ _ _) in *. cbv zeta in *.
  assert (st_jobs s4 = st_jobs (sy_state y)) as Ej by (by rewrite C2, (q_jobs _ _ Q3); cbn; rewrite (q_jobs _ _ Q1)).
  assert (st_active s4 = st_active (sy_state y) - 1) as Ea by (by rewrite C3, (q_active _ _ Q3); cbn; rewrite (q_active _ _ Q1)).
  edestruct (ready_inv finished s4 (l ++ l') (sy_input y) (sy_reserved y) (sy_log y) (st_used s4)) as (s&E&Hsat&Hi&_); try done.
  - rewrite (so_used _ _ _ _ _ C1). pose proof (so_used _ _ _ _ _ S3) as U3. rewrite (q_used _ _ Q3) in U3. cbn in U3. rewrite (q_used _ _ Q1) in U3.
    unfold zlen in *. rewrite C5. rewrite length_app in U3. lia.
  - by rewrite Ej.
  - rewrite Ea, I3, Ej. unfold zlen. rewrite (Permutation_length Hjobs). cbn [length]. lia.
  - lia.
  - by rewrite C4, (q_exposure _ _ Q3); cbn; rewrite (q_exposure _ _ Q1).
  - rewrite Ej. rewrite Hjobs in I6. by apply Forall_cons in I6 as [_ ?].
  - by exists s.
Qed.

(** ** Runs *)

Lemma policies_initial : policies_ok (new_state cf).
Proof. by split. Qed.

Lemma inv_initial : 0 ≤ cf_capacity cf → inv (initial cf).
Proof.
  intros Hc. split; cbn; try done; try lia. split; cbn; try done.
  - intros r ?%not_elem_of_nil. done.
  - intros t p. rewrite lookup_empty. split; [done|]. by intros (_&r&?%not_elem_of_nil&_).
  - by case_bool_decide.
Qed.

(** What submitters do leaves the dispatcher's own variables alone. *)
Lemma inv_submitter y s reserved input log :
  inv y → sound s (in_flight y) input reserved log → st_used s ≤ cf_capacity cf →
  st_jobs s = st_jobs (sy_state y) → st_active s = st_active (sy_state y) → st_exposure s = st_exposure (sy_state y) →
  inv {| sy_state := s; sy_reserved := reserved; sy_input := input; sy_taken := sy_taken y; sy_log := log |}.
Proof.
  intros [I1 I2 I3 I4 I5 I6] Hs Hu Ej Ea Ee. split; cbn; unfold in_flight; cbn; by rewrite ?Ej, ?Ea, ?Ee.
Qed.

Lemma granted_room used op : decide_admission cf used op = Granted → used < cf_capacity cf.
Proof. unfold decide_admission. destruct (cf_capacity cf <=? used) eqn:E; [done|]. by apply Z.leb_gt in E. Qed.

Lemma zlen_split {A} (l : list A) x l' : zlen (l ++ x :: l') = zlen (l ++ l') + 1.
Proof. unfold zlen. rewrite !length_app. cbn [length]. lia. Qed.

Lemma sound_used s F input reserved reserved' log n :
  sound s F input reserved log → zlen reserved' = zlen reserved + n → sound (set_used (st_used s + n) s) F input reserved' log.
Proof.
  intros [S1 S2 S3 S4 S5 S6] E. split; try done.
  - cbn. rewrite S2, E. lia.
  - by apply (policies_same s).
Qed.

Lemma sound_submit s F input l op l' log now :
  sound s F input (l ++ op :: l') log →
  sound s F (input ++ [submitted (length log) op now]) (l ++ l') (log ++ [op]).
Proof.
  intros [S1 S2 S3 S4 S5 S6]. split; try done.
  - rewrite imap_app, <- S1. cbn. rewrite Nat.add_0_r, !map_app. cbn. rewrite <- !(assoc_L (++)). cbn.
    rewrite <- Permutation_middle. change [(length log, op)] with ([(length log, op)] ++ []). rewrite app_nil_r.
    rewrite !(assoc_L (++)). apply Permutation_cons_append.
  - rewrite S2, zlen_split. unfold zlen. rewrite !length_app. cbn [length]. lia.
Qed.

Lemma inv_step y y' : inv y → step cf y y' → inv y'.
Proof.
  intros Hi Hst. destruct Hst as [y op Ha|y l op l' Er|y l op l' now Er|y now r input s Ei Es|y b jobs Ej|y l b l' err started finished s Et Es|y now s Es].
  - apply inv_submitter; try done.
    + apply (sound_used _ _ _ _ _ _ 1 (in_sound _ Hi)). unfold zlen. rewrite length_app. cbn. lia.
    + cbn. apply granted_room in Ha. lia.
  - apply inv_submitter; try done.
    + replace (st_used (sy_state y) - 1) with (st_used (sy_state y) + -1) by lia. apply (sound_used _ _ _ _ _ _ _ (in_sound _ Hi)). rewrite Er, zlen_split. lia.
    + cbn. pose proof (in_capacity _ Hi). lia.
  - apply inv_submitter; try done; [|apply Hi]. pose proof (in_sound _ Hi) as Hs. rewrite Er in Hs. by apply sound_submit.
  - destruct (arrive_ok now y r input Hi Ei) as (s'&E&_&Hi'). rewrite Es in E. by injection E as <-.
  - destruct Hi as [I1 I2 I3 I4 I5 I6]. rewrite Ej in I3, I6.
    assert (b :: jobs ++ sy_taken y ≡ₚ jobs ++ sy_taken y ++ [b]) as Hp by (rewrite (assoc_L (++)); apply Permutation_cons_append).
    split; cbn; try done.
    + unfold in_flight. cbn. unfold in_flight in I1. rewrite Ej in I1. apply (sound_perm _ _ (flight (jobs ++ sy_taken y ++ [b]))) in I1.
      * apply (sound_views (sy_state y) _ (flight (jobs ++ sy_taken y ++ [b]))); try done; [apply I1|by apply policies_same].
      * unfold flight. by rewrite <- Hp.
    + rewrite I3. unfold zlen. by rewrite <- (Permutation_length Hp).
    + by rewrite <- Hp.
  - destruct (complete_ok y l b l' err started finished Hi Et) as (s'&E&_&Hi'). rewrite Es in E. by injection E as <-.
  - destruct (tick_ok now y Hi) as (s'&E&_&Hi'&_). rewrite Es in E. by injection E as <-.
Qed.

Lemma inv_reachable y : 0 ≤ cf_capacity cf → reachable cf y → inv y.
Proof. intros Hc Hr. induction Hr as [|y y' _ IH Hst]; [by apply inv_initial|]. by apply (inv_step y). Qed.
End invariant.
