(* ===== verification/ScheduledTheorems.v ===== *)
(** * The scheduler: what it guarantees

    The theorems of every run of a conflict-aware scheduler
    ([internal/scheduled/]), in any of its modes. *)

From Stdlib Require Import ZArith Lia Strings.Byte Strings.String.
From stdpp Require Import base decidable countable list gmap.
From S2P Require Import Prelude GoText GoJson Scheduled ScheduledObserver ScheduledDispatch ScheduledPolicy ScheduledSelect ScheduledSystem.

Local Open Scope Z_scope.

(** ** Runs from lists of events *)

Inductive sched_event :=
| Reserve (op : Operation)
| Enqueue (i : nat) (now : Z)
| Abandon (i : nat)
| Arrive (now : Z)
| Take
| Complete (i : nat) (err : bool) (started finished : Z)
| Tick (now : Z).

Section runs.
Context {P : Type} `{planLookup P} (cf : config P).

Definition exec (e : sched_event) (y : system) : option system :=
  let on s reserved input taken log :=
    {| sy_state := s; sy_reserved := reserved; sy_input := input; sy_taken := taken; sy_log := log |} in
  match e with
  | Reserve op =>
      match decide_admission cf (st_used (sy_state y)) op with
      | Granted => Some (on (set_used (st_used (sy_state y) + 1) (sy_state y)) (sy_reserved y ++ [op]) (sy_input y) (sy_taken y) (sy_log y))
      | _ => None
      end
  | Enqueue i now =>
      op ← sy_reserved y !! i;
      Some (on (sy_state y) (take i (sy_reserved y) ++ drop (S i) (sy_reserved y))
              (sy_input y ++ [submitted (length (sy_log y)) op now]) (sy_taken y) (sy_log y ++ [op]))
  | Abandon i =>
      _ ← sy_reserved y !! i;
      Some (on (set_used (st_used (sy_state y) - 1) (sy_state y)) (take i (sy_reserved y) ++ drop (S i) (sy_reserved y))
              (sy_input y) (sy_taken y) (sy_log y))
  | Arrive now =>
      match sy_input y with
      | [] => None
      | r :: input => s ← on_arrival cf now r (sy_state y); Some (on s (sy_reserved y) input (sy_taken y) (sy_log y))
      end
  | Take =>
      match st_jobs (sy_state y) with
      | [] => None
      | b :: jobs => Some (on (set_jobs jobs (sy_state y)) (sy_reserved y) (sy_input y) (sy_taken y ++ [b]) (sy_log y))
      end
  | Complete i err started finished =>
      b ← sy_taken y !! i;
      s ← on_completion cf {| cm_job := b; cm_err := err; cm_started := started; cm_finished := finished |} (sy_state y);
      Some (on s (sy_reserved y) (sy_input y) (take i (sy_taken y) ++ drop (S i) (sy_taken y)) (sy_log y))
  | Tick now => s ← on_tick cf now (sy_state y); Some (on s (sy_reserved y) (sy_input y) (sy_taken y) (sy_log y))
  end.

Fixpoint run (es : list sched_event) (y : system) : option system :=
  match es with
  | [] => Some y
  | e :: es => y ← exec e y; run es y
  end.

Lemma exec_step e y y' : exec e y = Some y' → step cf y y'.
Proof.
  destruct e as [op|i now|i|now| |i err started finished|now]; cbn [exec].
  - destruct (decide_admission cf _ op) eqn:Ea; intros [= <-]. by constructor.
  - destruct (sy_reserved y !! i) as [op|] eqn:Ei; cbn; intros [= <-]. apply (step_submit cf y _ op). by rewrite take_drop_middle.
  - destruct (sy_reserved y !! i) as [op|] eqn:Ei; cbn; intros [= <-]. apply (step_abandon cf y _ op). by rewrite take_drop_middle.
  - destruct (sy_input y) as [|r input] eqn:Ei; [done|]. destruct (on_arrival cf now r (sy_state y)) as [s|] eqn:Es; cbn; intros [= <-]. by econstructor.
  - destruct (st_jobs (sy_state y)) as [|b jobs] eqn:Ej; [done|]. intros [= <-]. by constructor.
  - destruct (sy_taken y !! i) as [b|] eqn:Ei; [|done]. cbn [mbind option_bind].
    destruct (on_completion cf _ (sy_state y)) as [s|] eqn:Es; [|done]. cbn. intros [= <-]. econstructor; [|exact Es]. by rewrite take_drop_middle.
  - destruct (on_tick cf now (sy_state y)) as [s|] eqn:Es; [|done]. cbn. intros [= <-]. by apply (step_tick cf y now).
Qed.

Lemma run_reachable es y y' : reachable cf y → run es y = Some y' → reachable cf y'.
Proof.
  revert y. induction es as [|e es IH]; intros y Hr; cbn [run]; [by intros [= <-]|].
  destruct (exec e y) as [y1|] eqn:Ee; [|done]. cbn. intros E. apply (IH y1); [|done]. econstructor; [exact Hr|]. by eapply exec_step.
Qed.
End runs.

(** ** The theorems *)

Lemma new_config_inv capacity maxBatch workers wait mode traced observed y :
  reachable (new_config capacity maxBatch workers wait mode traced observed) y →
  inv (new_config capacity maxBatch workers wait mode traced observed) y.
Proof.
  assert (∀ n, 1 ≤ (if n <? 1 then 1 else n)) as Hc by (intros n; destruct (Z.ltb_spec n 1); lia).
  intros Hr. apply (inv_reachable (new_config capacity maxBatch workers wait mode traced observed) (Hc maxBatch) (Hc workers)); [|done]. apply (Z.le_trans _ 1); [lia|apply (Hc capacity)].
Qed.

Definition sample_config : config executionPlan := new_config 128 8 8 1000000 "priority" true false.

Definition order_write (sequence customer : Z) : Operation :=
  {| op_Sequence := sequence; op_Kind := OrderWrite; op_CustomerID := customer; op_OrderID := sequence; op_ProductID := 1; op_At := 0 |}.
Definition point_read (sequence : Z) : Operation :=
  {| op_Sequence := sequence; op_Kind := PointRead; op_CustomerID := 1; op_OrderID := 1; op_ProductID := 1; op_At := 0 |}.

(** Two writes of one customer, one of another, and two reads. *)
Definition sample_ops : list Operation := [order_write 1 7; order_write 2 7; point_read 3; order_write 4 9; point_read 5].
Definition sample_events : list sched_event :=
  flat_map (fun op => [Reserve op; Enqueue 0 0; Arrive 1000]) sample_ops.

Definition sample_system : system := default (initial sample_config) (run sample_config sample_events (initial sample_config)).

Lemma sample_reachable : reachable sample_config sample_system.
Proof.
  unfold sample_system. destruct (run sample_config sample_events (initial sample_config)) as [y|] eqn:E; [|by apply reach_initial].
  apply (run_reachable _ sample_events (initial sample_config)); [by apply reach_initial|exact E].
Qed.

(** The writes of two customers run, the second write of the first waits for the
    first, and the reads wait for more of their kind. *)
Lemma sample_placed :
  map (op_Sequence ∘ rq_op) (in_flight sample_system) = [1; 4] ∧ map (op_Sequence ∘ rq_op) (st_pending (sy_state sample_system)) = [2; 3; 5].
Proof. vm_compute. split; reflexivity. Qed.

Lemma in_flight_nodup (cf : config executionPlan) y : inv cf y → NoDup (map rq_ptr (in_flight y)).
Proof.
  intros Hi. pose proof (sound_nodup _ _ _ _ _ _ (in_sound _ _ Hi)) as Hn. rewrite !map_app in Hn.
  apply NoDup_app in Hn as (_&_&Hn). apply NoDup_app in Hn as (_&_&Hn). by apply NoDup_app in Hn as (Hn&_).
Qed.

Lemma same_token_same (cf : config executionPlan) y i j r r' :
  inv cf y → in_flight y !! i = Some r → in_flight y !! j = Some r' → token_valid (rq_token r) = true → rq_token r = rq_token r' → i = j.
Proof.
  intros Hi Hr Hr' Hv Et. pose proof (so_owned _ _ _ _ _ _ (in_sound _ _ Hi) (rq_token r)) as Ho.
  assert (Some (rq_ptr r) = Some (rq_ptr r')) as [= Ep].
  { transitivity (rq_ptr ∘ ow_request <$> st_owned (sy_state y) !! rq_token r); [symmetry|]; apply Ho; (split; [done|]).
    - exists r. split; [by eapply list_elem_of_lookup_2|done].
    - exists r'. split; [by eapply list_elem_of_lookup_2|done]. }
  apply (NoDup_lookup (map rq_ptr (in_flight y)) i j (rq_ptr r)); [by eapply in_flight_nodup|by rewrite list_lookup_fmap, Hr|].
  by rewrite list_lookup_fmap, Hr', Ep.
Qed.

Lemma write_token op :
  (op_Kind op = OrderWrite → (conflictToken staticExecutionPlan op).1 = {| tk_Domain := ConflictOrders; tk_Key := op_CustomerID op |})
  ∧ (op_Kind op = InventoryWrite → (conflictToken staticExecutionPlan op).1 = {| tk_Domain := ConflictInventory; tk_Key := op_ProductID op |}).
Proof. split; intros E; unfold conflictToken; by rewrite E. Qed.

(** C29: In every run, in every mode with a strategy, two order writes of one
    customer never run at once, nor two inventory writes of one product; the
    tokens that are owned are exactly those of the requests in flight, and no
    token is ever released twice. *)
Theorem conflicts_exclusive capacity maxBatch workers wait mode traced observed y :
  reachable (new_config capacity maxBatch workers wait mode traced observed) y →
  (∀ i j r r', in_flight y !! i = Some r → in_flight y !! j = Some r' →
     (op_Kind (rq_op r) = OrderWrite ∧ op_Kind (rq_op r') = OrderWrite ∧ op_CustomerID (rq_op r) = op_CustomerID (rq_op r'))
     ∨ (op_Kind (rq_op r) = InventoryWrite ∧ op_Kind (rq_op r') = InventoryWrite ∧ op_ProductID (rq_op r) = op_ProductID (rq_op r')) →
     i = j)
  ∧ (∀ t, is_Some (st_owned (sy_state y) !! t) ↔ token_valid t = true ∧ ∃ r, r ∈ in_flight y ∧ rq_token r = t)
  ∧ st_counters (sy_state y) doubleReleases = 0.
Proof.
  intros Hi%new_config_inv. pose proof (in_sound _ _ Hi) as Hs. split; [|split; [|apply Hs]].
  - intros i j r r' Hr Hr' Hk. assert (∀ q, q ∈ in_flight y → rq_token q = (conflictToken staticExecutionPlan (rq_op q)).1) as Ht.
    { intros q Hq. apply (so_tokens _ _ _ _ _ _ Hs), elem_of_app. by right. }
    pose proof (Ht r (list_elem_of_lookup_2 _ _ _ Hr)) as T. pose proof (Ht r' (list_elem_of_lookup_2 _ _ _ Hr')) as T'.
    destruct (write_token (rq_op r)) as [W1 W2], (write_token (rq_op r')) as [W1' W2'].
    apply (same_token_same _ y i j r r' Hi Hr Hr'); rewrite T; destruct Hk as [(K&K'&E)|(K&K'&E)].
    + by rewrite (W1 K).
    + by rewrite (W2 K).
    + by rewrite T', (W1 K), (W1' K'), E.
    + by rewrite T', (W2 K), (W2' K'), E.
  - intros t. pose proof (so_owned _ _ _ _ _ _ Hs t) as Ho. split.
    + intros [o Eo]. rewrite Eo in Ho. destruct (proj1 (Ho _) eq_refl) as (?&r&?&?&_). eauto.
    + intros (Hv&r&Hr&Et). assert ((rq_ptr ∘ ow_request <$> st_owned (sy_state y) !! t) = Some (rq_ptr r)) as E by (apply Ho; eauto).
      destruct (st_owned (sy_state y) !! t); [eauto|done].
Qed.

Lemma conflicts_exclusive_witness :
  st_counters (sy_state sample_system) doubleReleases = 0 ∧ size (st_owned (sy_state sample_system)) = 2%nat.
Proof.
  split; [|vm_compute; reflexivity].
  exact (proj2 (proj2 (conflicts_exclusive 128 8 8 1000000 "priority" true false sample_system sample_reachable))).
Defined.

(** C33: In every run, the slots in use are those of the submitters
    with a slot, the channel, the queue and the requests in flight, and never
    exceed the capacity, so a submitter that has a slot never waits for the
    channel; at most [workers] batches are out, so the dispatcher never waits for
    a worker; and a batch is one request, or reads only, at most [maxBatch]. *)
Theorem scheduler_bounds capacity maxBatch workers wait mode traced observed y :
  let cf := new_config capacity maxBatch workers wait mode traced observed in
  reachable cf y →
  st_used (sy_state y) = zlen (sy_reserved y) + zlen (sy_input y) + zlen (st_pending (sy_state y)) + zlen (in_flight y)
  ∧ st_used (sy_state y) ≤ Z.max 1 capacity
  ∧ zlen (sy_reserved y) + zlen (sy_input y) ≤ Z.max 1 capacity
  ∧ st_active (sy_state y) = zlen (st_jobs (sy_state y)) + zlen (sy_taken y) ∧ st_active (sy_state y) ≤ Z.max 1 workers
  ∧ 1 ≤ st_exposure (sy_state y) ≤ Z.max 1 workers
  ∧ ∀ b, b ∈ st_jobs (sy_state y) ++ sy_taken y →
      1 ≤ zlen (bt_requests b) ≤ Z.max 1 maxBatch
      ∧ (length (bt_requests b) = 1%nat ∨ ∀ r, r ∈ bt_requests b → op_Kind (rq_op r) ≤ RangeRead).
Proof.
  intros cf Hi%new_config_inv. fold cf in Hi. destruct Hi as [I1 I2 I3 I4 I5 I6]. pose proof (so_used _ _ _ _ _ _ I1) as U.
  assert (∀ n, (if n <? 1 then 1 else n) = Z.max 1 n) as Hc by (intros n; destruct (Z.ltb_spec n 1); lia).
  replace (cf_capacity cf) with (Z.max 1 capacity) in * by (symmetry; apply Hc).
  replace (cf_workers cf) with (Z.max 1 workers) in * by (symmetry; apply Hc).
  split; [done|]. split; [done|]. split; [unfold zlen in *; lia|]. split; [rewrite I3; unfold zlen; rewrite length_app; lia|].
  split; [done|]. split; [done|]. intros b Hb. rewrite Forall_forall in I6. destruct (I6 b Hb) as [B1 B2].
  replace (cf_maxBatch cf) with (Z.max 1 maxBatch) in * by (symmetry; apply Hc). split; [done|].
  destruct B2 as [?|B2]; [by left|right]. intros r Hr. rewrite Forall_forall in B2. by apply B2.
Qed.

Lemma scheduler_bounds_witness : st_used (sy_state sample_system) = 5 ∧ st_used (sy_state sample_system) ≤ Z.max 1 128.
Proof.
  split; [vm_compute; reflexivity|].
  exact (proj1 (proj2 (scheduler_bounds 128 8 8 1000000 "priority" true false sample_system sample_reachable))).
Defined.

(** C30: In every run, every request that a submitter sent is in exactly
    one place, with the operation it was sent with: the channel, the queue, a
    batch that is out, or the answers.  So no request is answered twice, and when
    no slot is in use every request has been answered. *)
Theorem answered_once capacity maxBatch workers wait mode traced observed y :
  reachable (new_config capacity maxBatch workers wait mode traced observed) y →
  map id_of (sy_input y ++ st_pending (sy_state y) ++ in_flight y ++ (st_answers (sy_state y)).*1) ≡ₚ imap pair (sy_log y)
  ∧ NoDup (map rq_ptr (st_answers (sy_state y)).*1)
  ∧ (st_used (sy_state y) = 0 → map id_of (st_answers (sy_state y)).*1 ≡ₚ imap pair (sy_log y)).
Proof.
  intros Hi%new_config_inv. pose proof (in_sound _ _ Hi) as Hs. split; [apply Hs|]. split.
  - pose proof (sound_nodup _ _ _ _ _ _ Hs) as Hn. rewrite !map_app in Hn. apply NoDup_app in Hn as (_&_&Hn).
    apply NoDup_app in Hn as (_&_&Hn). by apply NoDup_app in Hn as (_&_&Hn).
  - intros E. rewrite (so_used _ _ _ _ _ _ Hs) in E. pose proof (so_log _ _ _ _ _ _ Hs) as HL. unfold zlen in E.
    rewrite (nil_length_inv (sy_input y)), (nil_length_inv (st_pending (sy_state y))), (nil_length_inv (in_flight y)) in HL by lia. exact HL.
Qed.

(** The rest of the run: everything is executed and answered. *)
Definition finish_events : list sched_event :=
  [Take; Take; Complete 0 false 2000 3000; Take; Complete 1 false 4000 5000; Complete 0 true 2000 6000; Tick 2000000; Take; Complete 0 false 2000001 2000002].
Definition finished_system : system := default (initial sample_config) (run sample_config finish_events sample_system).

Lemma finished_reachable : reachable sample_config finished_system.
Proof.
  unfold finished_system. destruct (run sample_config finish_events sample_system) as [y|] eqn:E; [|by apply reach_initial].
  apply (run_reachable _ finish_events sample_system); [apply sample_reachable|exact E].
Qed.

Lemma answered_once_witness :
  map id_of (st_answers (sy_state finished_system)).*1 ≡ₚ imap pair sample_ops.
Proof.
  change sample_ops with (default [] (Some sample_ops)). replace (default [] (Some sample_ops)) with (sy_log finished_system) by (vm_compute; reflexivity).
  apply (answered_once 128 8 8 1000000 "priority" true false finished_system finished_reachable). vm_compute. reflexivity.
Defined.

Lemma clamp_ok n : 1 ≤ (if n <? 1 then 1 else n).
Proof. destruct (Z.ltb_spec n 1); lia. Qed.

(** C31: In every run, whatever event comes next, the dispatcher
    handles it to the end without a panic, and leaves no worker idle that could
    work: either as many batches are out as the control allows, or no queued
    request may be dispatched yet. *)
Theorem dispatcher_total capacity maxBatch workers wait mode traced observed y :
  let cf := new_config capacity maxBatch workers wait mode traced observed in
  reachable cf y →
  (∀ now, ∃ s, on_tick cf now (sy_state y) = Some s ∧ saturated cf now s)
  ∧ (∀ now r input, sy_input y = r :: input → ∃ s, on_arrival cf now r (sy_state y) = Some s ∧ saturated cf now s)
  ∧ (∀ b err started finished, b ∈ sy_taken y →
       ∃ s, on_completion cf {| cm_job := b; cm_err := err; cm_started := started; cm_finished := finished |} (sy_state y) = Some s
         ∧ saturated cf finished s).
Proof.
  intros cf Hi%new_config_inv. fold cf in Hi. pose proof (clamp_ok maxBatch) as Hb. pose proof (clamp_ok workers) as Hw. split_and!.
  - intros now. destruct (tick_ok cf Hb Hw now y Hi) as (s&?&?&_). eauto.
  - intros now r input Ei. destruct (arrive_ok cf Hb now y r input Hi Ei) as (s&?&?&_). eauto.
  - intros b err started finished Hin. apply list_elem_of_split in Hin as (l&l'&El).
    destruct (complete_ok cf Hb y l b l' err started finished Hi El) as (s&?&?&_). eauto.
Qed.

Lemma dispatcher_total_witness :
  ∃ s, on_tick sample_config 2000000 (sy_state sample_system) = Some s ∧ map (op_Sequence ∘ rq_op) (st_pending s) = [2].
Proof.
  destruct (proj1 (dispatcher_total 128 8 8 1000000 "priority" true false sample_system sample_reachable) 2000000) as (s&Es&_).
  exists s. split; [exact Es|]. assert ((map (op_Sequence ∘ rq_op) ∘ st_pending <$> on_tick sample_config 2000000 (sy_state sample_system)) = Some [2]) as E
    by (vm_compute; reflexivity).
  change (new_config 128 8 8 1000000 "priority" true false) with sample_config in Es. rewrite Es in E. cbn in E. by injection E.
Defined.

Lemma idle_jobs (cf : config executionPlan) y : inv cf y → in_flight y = [] → st_jobs (sy_state y) ++ sy_taken y = [].
Proof.
  intros Hi Hf. destruct (st_jobs (sy_state y) ++ sy_taken y) as [|b l] eqn:E; [done|]. exfalso. pose proof (in_batches _ _ Hi) as Hb. rewrite E in Hb.
  apply Forall_cons in Hb as [[Hb _] _]. unfold in_flight in Hf. rewrite E in Hf. change (bt_requests b ++ flight l = []) in Hf.
  apply app_eq_nil in Hf as [Hf _]. rewrite Hf in Hb. unfold zlen in Hb. cbn in Hb. lia.
Qed.

Lemma idle_busy (cf : config executionPlan) y r : inv cf y → in_flight y = [] → busy (sy_state y) r = None.
Proof.
  intros Hi Hf. unfold busy. destruct (token_valid (rq_token r)); [|done]. destruct (st_owned (sy_state y) !! rq_token r) as [o|] eqn:Eo; [|done].
  pose proof (so_owned _ _ _ _ _ _ (in_sound _ _ Hi) (rq_token r) (rq_ptr (ow_request o))) as Ho. rewrite Eo, Hf in Ho.
  destruct (proj1 Ho eq_refl) as (_&q&?%not_elem_of_nil&_). done.
Qed.

(** A scheduler with nothing in flight does not stay idle while a
    request waits: as soon as a tick finds a queued request that has waited for
    the batch time, a batch is out. *)
Theorem idle_progress capacity maxBatch workers wait mode traced observed y r now :
  let cf := new_config capacity maxBatch workers wait mode traced observed in
  reachable cf y → in_flight y = [] → r ∈ st_pending (sy_state y) → wait ≤ now - rq_queuedAt r →
  ∃ s, on_tick cf now (sy_state y) = Some s ∧ st_jobs s ≠ [].
Proof.
  intros cf Hi%new_config_inv Hf Hr Hage. fold cf in Hi. pose proof (clamp_ok maxBatch) as Hb. pose proof (clamp_ok workers) as Hw.
  destruct (tick_ok cf Hb Hw now y Hi) as (s&Es&Hsat&Hi'&Hq). exists s. split; [done|]. intros Ej.
  destruct (app_eq_nil _ _ (idle_jobs cf y Hi Hf)) as [Ejy Ety]. set (y' := {| sy_state := s |}) in Hi'.
  assert (in_flight y' = []) as Hf' by (unfold in_flight, y'; cbn; by rewrite Ej, Ety).
  destruct Hsat as [Hsat|Hsat].
  - pose proof (in_active _ _ Hi') as Ha. pose proof (in_exposure _ _ Hi') as He. cbn in Ha, He. rewrite Ej, Ety in Ha. unfold zlen in Ha. cbn in Ha. lia.
  - destruct (view_in (st_pending (sy_state y)) (st_pending s) r) as (r'&Hr'&Hv); [by rewrite Hq; [|by rewrite Ej]|done|].
    apply list_elem_of_lookup in Hr' as [j Hj]. apply (Hsat j r' Hj). split; [apply (idle_busy cf y' r' Hi' Hf')|].
    injection Hv as _ _ Et _. rewrite Et. apply andb_false_intro2, Z.ltb_ge. exact Hage.
Qed.

(** A read alone in the queue, before and after the batch time. *)
Definition lonely_system : system :=
  default (initial sample_config) (run sample_config [Reserve (point_read 1); Enqueue 0 0; Arrive 1000] (initial sample_config)).

Lemma lonely_reachable : reachable sample_config lonely_system.
Proof.
  unfold lonely_system. destruct (run sample_config _ (initial sample_config)) as [y|] eqn:E; [|by apply reach_initial].
  eapply run_reachable; [by apply reach_initial|exact E].
Qed.

Lemma idle_progress_witness : ∃ s, on_tick sample_config 1000000 (sy_state lonely_system) = Some s ∧ st_jobs s ≠ [].
Proof.
  assert (∃ r, st_pending (sy_state lonely_system) = [r] ∧ rq_queuedAt r = 0) as (r&Er&Eq).
  { vm_compute. eexists. split; reflexivity. }
  apply (idle_progress 128 8 8 1000000 "priority" true false lonely_system r 1000000 lonely_reachable).
  - vm_compute. reflexivity.
  - rewrite Er. left.
  - rewrite Eq. lia.
Defined.

(** C32: No request starves behind better scores: in every run of a mode
    with scores, when some request that may be dispatched has waited for the
    starvation threshold (five times the batching wait as a 64-bit duration, and
    at least five milliseconds), the next one dispatched is one that has waited
    longest of all that may be dispatched. *)
Theorem aged_first capacity maxBatch workers wait mode traced observed y now :
  let cf := new_config capacity maxBatch workers wait mode traced observed in
  reachable cf y → mode_strategy mode ∈ [controlPriority; controlPlantCharacterization; controlObserverShadow; controlReactive; controlUtility] →
  ∃ oi s, selectRequest cf now (sy_state y) = Some (oi, s) ∧
    ∀ j r, st_pending s !! j = Some r → eligible cf now s j r → Z.max 5000000 (i64 (5 * wait)) ≤ now - rq_queuedAt r →
    ∃ i first, oi = Some i ∧ st_pending s !! i = Some first ∧ eligible cf now s i first
      ∧ ∀ j' r', st_pending s !! j' = Some r' → eligible cf now s j' r' → rq_queuedAt first ≤ rq_queuedAt r'.
Proof.
  intros cf Hi%new_config_inv Hm. fold cf in Hi.
  destruct (select_spec cf now (sy_state y) (so_policies _ _ _ _ _ _ (in_sound _ _ Hi))) as (oi&s&E&_&_&Hsel).
  exists oi, s. split; [done|]. intros j r Hr He Hage. destruct oi as [i|]; [|by destruct (Hsel j r Hr)].
  destruct Hsel as (first&Hfirst&Hel&Hmin). exists i, first. split_and!; try done. apply Hmin.
  - unfold scored. change (cf_strategy cf) with (mode_strategy mode). intros Hn. revert Hm. repeat (apply elem_of_cons in Hn as [->|Hn]; [by set_solver|]). by apply not_elem_of_nil in Hn.
  - exists j, r. split_and!; try done. unfold starvation_threshold. change (cf_batchWait cf) with wait. cbv zeta. destruct (Z.ltb_spec (i64 (5 * wait)) 5000000); lia.
Qed.

Lemma aged_first_witness : ∃ s, selectRequest sample_config 9000000 (sy_state lonely_system) = Some (Some 0%nat, s).
Proof.
  destruct (aged_first 128 8 8 1000000 "priority" true false lonely_system 9000000 lonely_reachable) as (oi&s&E&Hs); [left|].
  change (new_config 128 8 8 1000000 "priority" true false) with sample_config in E. rewrite E. exists s.
  assert ((fst <$> selectRequest sample_config 9000000 (sy_state lonely_system)) = Some (Some 0%nat)) as E' by (vm_compute; reflexivity).
  rewrite E in E'. cbn in E'. injection E' as ->. reflexivity.
Defined.
