(* ===== verification/ScheduledPlain.v ===== *)
(** * The plain dispatcher ([internal/scheduled/scheduled.go])

    The loop of the modes without a strategy: requests are taken in the order of
    the channel, reads of one kind are gathered until the batch is full or the
    batch time is over, and a request that does not fit starts the next batch.
    And what a worker of these modes answers. *)

From Stdlib Require Import ZArith Lia Strings.Byte Strings.String.
From stdpp Require Import base decidable countable list gmap.
From S2P Require Import Prelude GoText GoJson Scheduled ScheduledObserver ScheduledDispatch ScheduledPolicy ScheduledSelect.

Local Open Scope Z_scope.

Section plain.
Context {P : Type} `{planLookup P} (cf : config P) (plainBatch : bool).

(** A request of the channel with the slots in use when it is looked at. *)
Definition arrival : Type := request * Z.

(** What the loop [gather] makes of the next request: whether it is compatible
    and the decision; [None] is a panic. *)
Definition judge (first next : request) (used count : Z) : option (bool * Z) :=
  if plainBatch
  then Some ((op_Kind (rq_op next) =? op_Kind (rq_op first)) && (op_Kind (rq_op next) <=? RangeRead), 2)
  else
    decision ← policyDecision used (cf_capacity cf + 1) (op_Kind (rq_op next)) (op_Kind (rq_op first)) count (cf_maxBatch cf);
    Some (compatible (cf_plan cf) (op_Kind (rq_op first)) (op_Kind (rq_op next)), decision).

(** The loop [gather] over the requests that arrive before the deadline: the
    group, the request carried over, and those not looked at. *)
Fixpoint plain_gather (first : request) (group : list request) (arrivals : list arrival)
    : option (list request * option request * list arrival) :=
  if cf_maxBatch cf <=? zlen group then Some (group, None, arrivals)
  else
    match arrivals with
    | [] => Some (group, None, [])
    | (next, used) :: rest =>
        '(fits, decision) ← judge first next used (zlen group);
        if negb fits || (decision =? 1) then Some (group, Some next, rest)
        else if decision =? 3 then Some (group ++ [next], None, rest)
        else plain_gather first (group ++ [next]) rest
    end.

Definition plain_batch (first : request) (arrivals : list arrival) : option (list request * option request * list arrival) :=
  if (op_Kind (rq_op first) <=? RangeRead) && (1 <? cf_maxBatch cf) then plain_gather first [first] arrivals
  else Some ([first], None, arrivals).

(** [dispatch]: one batch per entry of [windows], the number of requests that
    arrive before its deadline.  It waits when the channel is empty. *)
Fixpoint dispatch (windows : list nat) (carry : option request) (input : list arrival)
    : option (list (list request) * option request * list arrival) :=
  match windows with
  | [] => Some ([], carry, input)
  | n :: windows =>
      match carry, input with
      | None, [] => Some ([], None, [])
      | Some first, _ =>
          '(group, carry, rest) ← plain_batch first (take n input);
          '(batches, carry, input) ← dispatch windows carry (rest ++ drop n input);
          Some (group :: batches, carry, input)
      | None, (first, _) :: input =>
          '(group, carry, rest) ← plain_batch first (take n input);
          '(batches, carry, input) ← dispatch windows carry (rest ++ drop n input);
          Some (group :: batches, carry, input)
      end
  end.
End plain.

(** The answers of [work] in these modes, and the slots in use. *)
Definition answer_plain (err : bool) (started finished : Z) (requests : list request)
    (used : Z) (answers : list (request * Result)) : Z * list (request * Result) :=
  foldl (fun '(used, answers) r =>
    (used - 1,
     answers ++ [(r, {| rs_Err := err; rs_QueueTime := started - rq_queuedAt r; rs_Service := finished - started;
                        rs_ConflictWait := 0; rs_BatchSize := zlen requests; rs_Priority := 0 |})]))
    (used, answers) requests.

(** ** What it guarantees *)

Lemma static_same k k' : compatible staticExecutionPlan k k' = true → 0 ≤ k → 0 ≤ k' → k = k' ∧ k' ≤ RangeRead.
Proof.
  intros E H0 H0'. assert (k' ≤ RangeRead) as H1 by (by eapply (batches_read (plan := staticExecutionPlan))). split; [|done].
  unfold RangeRead in H1. cbn in E. unfold static_compatible in E. destruct ((4 <=? k) || (4 <=? k')) eqn:E4; [done|].
  apply orb_false_iff in E4 as [E4 _]. apply Z.leb_gt in E4. assert (k = 0 ∨ k = 1 ∨ k = 2 ∨ k = 3) as Hk by lia. assert (k' = 0 ∨ k' = 1) as Hk' by lia.
  destruct Hk as [->|[->|[->| ->]]], Hk' as [->| ->]; done.
Qed.

(** A byte, as [Kind] is. *)
Definition kinded (r : request) : Prop := 0 ≤ op_Kind (rq_op r).

(** One request, or reads of one kind. *)
Definition plain_ok (limit : Z) (group : list request) : Prop :=
  1 ≤ zlen group ≤ limit
  ∧ (length group = 1%nat ∨ ∃ k, k ≤ RangeRead ∧ Forall (fun r => op_Kind (rq_op r) = k) group).

Section guarantees.
Context (cf : config executionPlan) (plainBatch : bool).
Hypothesis Hplan : cf_plan cf = staticExecutionPlan.
Hypothesis Hbatch : 1 ≤ cf_maxBatch cf.

Lemma judge_spec first next used count :
  kinded first → kinded next →
  ∃ fits d, judge cf plainBatch first next used count = Some (fits, d)
    ∧ (fits = true → op_Kind (rq_op next) = op_Kind (rq_op first) ∧ op_Kind (rq_op next) ≤ RangeRead).
Proof.
  intros Hf Hn. unfold judge. destruct plainBatch.
  - eexists _, _. split; [reflexivity|]. intros [E%Z.eqb_eq ?%Z.leb_le]%andb_prop. done.
  - rewrite policy_decides. cbn [mbind option_bind]. eexists _, _. split; [reflexivity|]. rewrite Hplan. intros E.
    destruct (static_same _ _ E Hf Hn). by split.
Qed.

Lemma plain_gather_spec first group arrivals :
  kinded first → Forall (fun a => kinded a.1) arrivals → zlen group ≤ cf_maxBatch cf → op_Kind (rq_op first) ≤ RangeRead →
  Forall (fun r => op_Kind (rq_op r) = op_Kind (rq_op first)) group →
  ∃ group' carry rest, plain_gather cf plainBatch first group arrivals = Some (group', carry, rest)
    ∧ group ++ arrivals.*1 = group' ++ option_list carry ++ rest.*1 ∧ zlen group ≤ zlen group' ≤ cf_maxBatch cf
    ∧ Forall (fun r => op_Kind (rq_op r) = op_Kind (rq_op first)) group'.
Proof.
  intros Hf Ha. revert group. induction Ha as [|[next used] arrivals Hn Ha IH]; intros group Hl Hk Hg; cbn [plain_gather].
  - exists group, None, []. destruct (_ <=? _); (split_and!; [done|cbn; by rewrite !app_nil_r|lia|lia|done]).
  - destruct (Z.leb_spec (cf_maxBatch cf) (zlen group)) as [_|Hlt].
    { exists group, None, ((next, used) :: arrivals). split_and!; try done; lia. }
    destruct (judge_spec first next used (zlen group) Hf Hn) as (fits&d&->&Hfits). cbn [mbind option_bind].
    destruct fits; cbn [negb orb].
    2:{ exists group, (Some next), arrivals. split_and!; try done; lia. }
    destruct (Hfits eq_refl) as [Ek _]. cbn in Ek. assert (Forall (fun r => op_Kind (rq_op r) = op_Kind (rq_op first)) (group ++ [next])) as Hg'
      by (apply Forall_app_2; [done|by repeat constructor]).
    assert (zlen (group ++ [next]) = zlen group + 1) as El by (unfold zlen; rewrite length_app; cbn; lia).
    destruct (d =? 1). { exists group, (Some next), arrivals. split_and!; try done; lia. }
    destruct (d =? 3). { exists (group ++ [next]), None, arrivals. split_and!; try done; [cbn; by rewrite <- app_assoc|lia|lia]. }
    destruct (IH (group ++ [next])) as (group'&carry&rest&E&Eq&Hs&Hall); [lia|done|done|]. exists group', carry, rest.
    split_and!; try done; [rewrite <- Eq; cbn; by rewrite <- app_assoc|lia|lia].
Qed.

Lemma plain_batch_spec first arrivals :
  kinded first → Forall (fun a => kinded a.1) arrivals →
  ∃ group carry rest, plain_batch cf plainBatch first arrivals = Some (group, carry, rest)
    ∧ first :: arrivals.*1 = group ++ option_list carry ++ rest.*1 ∧ plain_ok (cf_maxBatch cf) group.
Proof.
  intros Hf Ha. unfold plain_batch. destruct (_ && _) eqn:E.
  - apply andb_prop in E as [E%Z.leb_le _]. destruct (plain_gather_spec first [first] arrivals) as (group&carry&rest&Eg&Eq&Hs&Hall); try done.
    + by repeat constructor.
    + exists group, carry, rest. split_and!; try done. split; [unfold zlen in *; cbn [length] in *; lia|]. right. eauto.
  - exists [first], None, arrivals. split_and!; try done. split; [unfold zlen; cbn; lia|by left].
Qed.

Lemma dispatch_spec windows carry (input : list arrival) :
  Forall kinded (option_list carry ++ input.*1) →
  ∃ batches carry' rest, dispatch cf plainBatch windows carry input = Some (batches, carry', rest)
    ∧ option_list carry ++ input.*1 = concat batches ++ option_list carry' ++ rest.*1
    ∧ Forall (plain_ok (cf_maxBatch cf)) batches
    ∧ ((length (option_list carry ++ input.*1) ≤ length windows)%nat → carry' = None ∧ rest = []).
Proof.
  revert carry input. induction windows as [|n windows IH]; intros carry input Hk.
  { exists [], carry, input. split_and!; try done. cbn. intros E%Nat.le_0_r%nil_length_inv. apply app_eq_nil in E as [E1 E2].
    destruct carry; [done|]. by apply fmap_nil_inv in E2. }
  assert (∀ first (input : list arrival), Forall kinded (first :: input.*1) →
    ∃ batches carry' rest, ('(group, carry, rest) ← plain_batch cf plainBatch first (take n input);
          '(batches, carry, input) ← dispatch cf plainBatch windows carry (rest ++ drop n input);
          Some (group :: batches, carry, input)) = Some (batches, carry', rest)
    ∧ first :: input.*1 = concat batches ++ option_list carry' ++ rest.*1
    ∧ Forall (plain_ok (cf_maxBatch cf)) batches
    ∧ ((length (first :: input.*1) ≤ S (length windows))%nat → carry' = None ∧ rest = [])) as Hone.
  { clear Hk carry input. intros first input Hk. apply Forall_cons in Hk as [Hf Hi]. assert (Forall (fun a : arrival => kinded a.1) input) as Hi' by exact (proj1 (Forall_fmap fst kinded input) Hi). clear Hi. rename Hi' into Hi.
    rewrite <- (take_drop n input) in Hi. apply Forall_app in Hi as [Hi1 Hi2].
    destruct (plain_batch_spec first (take n input) Hf Hi1) as (group&c&rest&->&Eq&Hok). cbn [mbind option_bind].
    assert (first :: input.*1 = group ++ option_list c ++ (rest ++ drop n input).*1) as Eall.
    { rewrite <- (take_drop n input) at 1. rewrite !fmap_app, app_comm_cons. rewrite Eq. by rewrite !app_assoc. }
    destruct (IH c (rest ++ drop n input)) as (batches&carry'&rest'&->&E2&Hb&Hend).
    { assert (Forall kinded (first :: input.*1)) as Hall by (constructor; [done|]; apply (proj2 (Forall_fmap fst kinded input)); rewrite <- (take_drop n input); by apply Forall_app_2).
      rewrite Eall in Hall. by apply Forall_app in Hall as [_ ?]. }
    cbn [mbind option_bind]. exists (group :: batches), carry', rest'. split; [done|]. split; [cbn; rewrite Eall, E2; by rewrite app_assoc|].
    split; [by constructor|]. intros Hlen. apply Hend. rewrite Eall, length_app in Hlen. destruct Hok as [[Hok _] _]. unfold zlen in Hok. lia. }
  destruct carry as [first|]; [apply Hone; exact Hk|]. destruct input as [|[first used] input]; [|apply Hone; exact Hk].
  exists [], None, []. split_and!; done.
Qed.
End guarantees.

(** The modes without a strategy never reorder, drop or repeat a
    request: the batches, one after the other, then the request carried over and
    the rest of the channel are the requests in the order they came; a batch is
    one request or reads of one kind, at most [maxBatch]; and as many rounds as
    there are requests send all of them out. *)
Theorem plain_fifo capacity maxBatch workers wait plainBatch windows carry input :
  Forall kinded (option_list carry ++ input.*1) →
  ∃ batches carry' rest,
    dispatch (new_config capacity maxBatch workers wait "static" false false) plainBatch windows carry input = Some (batches, carry', rest)
    ∧ option_list carry ++ input.*1 = concat batches ++ option_list carry' ++ rest.*1
    ∧ Forall (plain_ok (Z.max 1 maxBatch)) batches
    ∧ ((length (option_list carry ++ input.*1) ≤ length windows)%nat → carry' = None ∧ rest = []).
Proof.
  intros Hk. replace (Z.max 1 maxBatch) with (cf_maxBatch (new_config capacity maxBatch workers wait "static" false false)).
  - apply dispatch_spec; [done| |done]. cbn. destruct (Z.ltb_spec maxBatch 1); lia.
  - cbn -[Z.ltb]. destruct (Z.ltb_spec maxBatch 1); lia.
Qed.

Definition plain_request (sequence kind : Z) : request :=
  {| rq_ptr := Z.to_nat sequence;
     rq_op := {| op_Sequence := sequence; op_Kind := kind; op_CustomerID := 1; op_OrderID := 1; op_ProductID := 1; op_At := 0 |};
     rq_queuedAt := 0; rq_token := zeroToken; rq_waitingSince := None; rq_conflictWait := 0; rq_agent := zeroAgent |}.

Definition plain_input : list arrival :=
  [(plain_request 1 PointRead, 5); (plain_request 2 PointRead, 5); (plain_request 3 OrderWrite, 5); (plain_request 4 RangeRead, 5);
   (plain_request 5 RangeRead, 5); (plain_request 6 RangeRead, 5)].

Lemma plain_fifo_witness :
  ∃ batches, dispatch (new_config 128 2 8 1000000 "static" false false) false [4; 4; 4; 4; 4; 4]%nat None plain_input = Some (batches, None, [])
    ∧ map (map (op_Sequence ∘ rq_op)) batches = [[1; 2]; [3]; [4; 5]; [6]].
Proof.
  destruct (plain_fifo 128 2 8 1000000 false [4; 4; 4; 4; 4; 4]%nat None plain_input) as (batches&carry&rest&E&_&_&Hend).
  - repeat constructor; discriminate.
  - destruct Hend as [-> ->]; [vm_compute; lia|]. exists batches. split; [exact E|].
    assert ((map (map (op_Sequence ∘ rq_op)) ∘ fst ∘ fst <$>
      dispatch (new_config 128 2 8 1000000 "static" false false) false [4; 4; 4; 4; 4; 4]%nat None plain_input) = Some [[1; 2]; [3]; [4; 5]; [6]]) as Ed
      by (vm_compute; reflexivity).
    rewrite E in Ed. cbn in Ed. by injection Ed.
Defined.

Lemma answer_plain_all err started finished requests used answers :
  (answer_plain err started finished requests used answers).1 = used - zlen requests
  ∧ (answer_plain err started finished requests used answers).2.*1 = answers.*1 ++ requests.
Proof.
  unfold answer_plain. generalize (zlen requests) at 1 3. intros size. revert used answers.
  induction requests as [|r requests IH]; intros used answers; cbn [foldl fst snd]; [split; [unfold zlen; cbn; lia|by rewrite app_nil_r]|].
  destruct (IH (used - 1) (answers ++ [(r, {| rs_Err := err; rs_QueueTime := started - rq_queuedAt r; rs_Service := finished - started;
    rs_ConflictWait := 0; rs_BatchSize := size; rs_Priority := 0 |})])) as [-> ->].
  split; [unfold zlen; cbn [length]; lia|]. rewrite fmap_app. cbn. by rewrite <- app_assoc.
Qed.
