(* ===== verification/GoVarint.v ===== *)
(** * Go's variable-length integers ([encoding/binary])

    [PutUvarint], [PutVarint], [ReadUvarint] and [ReadVarint] as the program uses
    them: seven bits a byte, least significant first, at most ten bytes, and a
    reader that reports the end of the input and overflow.  Also the fixed-width
    integers [binary.Write] puts in big-endian order. *)

From Stdlib Require Import ZArith Lia Strings.Byte Strings.String.
From stdpp Require Import base decidable list.
From S2P Require Import Prelude GoText GoBinary Errors.

Local Open Scope Z_scope.
Local Open Scope go_scope.

Definition MaxVarintLen64 : nat := 10.

(** [PutUvarint]; ten bytes hold 64 bits. *)
Fixpoint uvarint_bytes (n : nat) (v : Z) : bytes :=
  match n with
  | O => [byte_of v]
  | S n => if v <? 128 then [byte_of v] else byte_of (Z.lor (Z.land v 127) 128) :: uvarint_bytes n (Z.shiftr v 7)
  end.
Definition put_uvarint (v : Z) : bytes := uvarint_bytes 9 v.

(** [PutVarint]. *)
Definition zigzag (v : Z) : Z :=
  let ux := u64 (Z.shiftl v 1) in if v <? 0 then 2 ^ 64 - 1 - ux else ux.
Definition put_varint (v : Z) : bytes := put_uvarint (zigzag v).

Definition err_eof : gerror := EMsg "EOF".
Definition err_unexpected_eof : gerror := EMsg "unexpected EOF".
Definition err_overflow : gerror := EMsg "binary: varint overflows a 64-bit integer".

(** The loop of [ReadUvarint]: [i] bytes have been read, [n] may follow. *)
Fixpoint read_uvarint_from (n i : nat) (x s : Z) (l : bytes) : res gerror (Z * bytes) :=
  match n with
  | O => Err err_overflow
  | S n =>
      match l with
      | [] => Err (if Nat.eqb i 0 then err_eof else err_unexpected_eof)
      | b :: l =>
          if bval b <? 128 then
            if Nat.eqb i (MaxVarintLen64 - 1) && (1 <? bval b) then Err err_overflow
            else Ok (Z.lor x (u64 (Z.shiftl (bval b) s)), l)
          else read_uvarint_from n (S i) (Z.lor x (u64 (Z.shiftl (Z.land (bval b) 127) s))) (s + 7) l
      end
  end.
Definition read_uvarint (l : bytes) : res gerror (Z * bytes) := read_uvarint_from MaxVarintLen64 0 0 0 l.

(** [ReadVarint]. *)
Definition unzigzag (ux : Z) : Z :=
  let x := Z.shiftr ux 1 in if Z.land ux 1 =? 0 then x else - x - 1.
Definition read_varint (l : bytes) : res gerror (Z * bytes) :=
  let! (ux, l) := read_uvarint l in Ok (unzigzag ux, l).

(** Big-endian integers of [n] bytes. *)
Definition be_put (n : nat) (v : Z) : bytes := reverse (le_put n v).
Definition be_get (l : bytes) : Z := le_get (reverse l).

(** ** Reading what was written *)

Lemma be_put_length n v : length (be_put n v) = n.
Proof. unfold be_put. by rewrite length_reverse, le_put_length. Qed.
Lemma be_get_put n v : 0 ≤ v < 256 ^ Z.of_nat n → be_get (be_put n v) = v.
Proof. intros H. unfold be_get, be_put. rewrite reverse_involutive, le_get_put. by apply Z.mod_small. Qed.

Lemma lor_shift x b s : 0 ≤ s → 0 ≤ x < 2 ^ s → 0 ≤ b → Z.lor x (Z.shiftl b s) = x + b * 2 ^ s.
Proof.
  intros Hs Hx Hb. assert (Z.land x (Z.shiftl b s) = 0) as E.
  { apply Z.bits_inj'. intros i Hi. rewrite Z.land_spec, Z.bits_0. destruct (Z.lt_ge_cases i s) as [Hlt|Hge].
    - by rewrite (Z.shiftl_spec_low b s i), andb_false_r.
    - destruct (decide (x = 0)) as [->|Hx0]; [by rewrite Z.bits_0|]. rewrite (Z.bits_above_log2 x i); [done|lia|].
      apply Z.log2_lt_pow2; [lia|]. apply (Z.lt_le_trans _ (2 ^ s)); [lia|]. apply Z.pow_le_mono_r; lia. }
  rewrite <- Z.lxor_lor by exact E. rewrite <- Z.add_nocarry_lxor by exact E. by rewrite Z.shiftl_mul_pow2.
Qed.

Lemma uvarint_head v : 0 ≤ v → bval (byte_of (Z.lor (Z.land v 127) 128)) = v mod 128 + 128.
Proof.
  intros Hv. change 127 with (Z.ones 7). rewrite Z.land_ones by lia. change (2 ^ 7) with 128.
  pose proof (Z.mod_pos_bound v 128). change 128 with (Z.shiftl 1 7) at 2. rewrite lor_shift by lia.
  rewrite bval_byte_of. change (1 * 2 ^ 7) with 128. apply Z.mod_small. lia.
Qed.

Lemma read_uvarint_step n i x s b l :
  read_uvarint_from (S n) i x s (b :: l)
  = if bval b <? 128 then
      if Nat.eqb i (MaxVarintLen64 - 1) && (1 <? bval b) then Err err_overflow
      else Ok (Z.lor x (u64 (Z.shiftl (bval b) s)), l)
    else read_uvarint_from n (S i) (Z.lor x (u64 (Z.shiftl (Z.land (bval b) 127) s))) (s + 7) l.
Proof. done. Qed.

Lemma read_uvarint_bytes n i x v rest :
  (i + n = 9)%nat → 0 ≤ x < 2 ^ (7 * Z.of_nat i) → 0 ≤ v < 2 ^ (64 - 7 * Z.of_nat i) →
  read_uvarint_from (S n) i x (7 * Z.of_nat i) (uvarint_bytes n v ++ rest) = Ok (x + v * 2 ^ (7 * Z.of_nat i), rest).
Proof.
  revert i x v. induction n as [|n IH]; intros i x v Hi Hx Hv; cbn [uvarint_bytes].
  - assert (i = 9%nat) as -> by lia. change (64 - 7 * Z.of_nat 9) with 1 in Hv. assert (v = 0 ∨ v = 1) as [-> | ->] by lia; cbn [app].
    + cbn -[Z.pow Z.lor]. by rewrite Z.lor_0_r, Z.add_0_r.
    + cbn -[Z.pow Z.lor u64]. replace (u64 _) with (Z.shiftl 1 63) by reflexivity. rewrite lor_shift by lia. done.
  - assert (Z.of_nat i ≤ 8) as Hi8 by lia. set (s := 7 * Z.of_nat i) in *.
    assert (∀ w, 0 ≤ w < 128 → w ≤ v → u64 (Z.shiftl w s) = Z.shiftl w s ∧ 0 ≤ w * 2 ^ s) as Hsh.
    { intros w Hw Hwv. rewrite Z.shiftl_mul_pow2 by lia. assert (0 < 2 ^ s) by (apply Z.pow_pos_nonneg; lia). split; [|nia].
      apply u64_id. unfold u64_range. split; [nia|]. apply (Z.lt_le_trans _ (2 ^ (64 - s) * 2 ^ s)); [nia|].
      rewrite <- Z.pow_add_r by lia. by replace (64 - s + s) with 64 by lia. }
    destruct (Z.ltb_spec v 128) as [Hlt|Hge]; cbn [app]; rewrite read_uvarint_step.
    + rewrite bval_byte_of, Z.mod_small by lia. rewrite (proj2 (Z.ltb_lt v 128)) by lia.
      assert (Nat.eqb i (MaxVarintLen64 - 1) = false) as -> by (apply Nat.eqb_neq; unfold MaxVarintLen64; lia). cbn [andb].
      rewrite (proj1 (Hsh v ltac:(lia) ltac:(lia))), lor_shift by lia. done.
    + rewrite uvarint_head by lia. pose proof (Z.mod_pos_bound v 128 ltac:(lia)) as Hm.
      rewrite (proj2 (Z.ltb_ge (v mod 128 + 128) 128)) by lia.
      assert (Z.land (v mod 128 + 128) 127 = v mod 128) as ->.
      { change 127 with (Z.ones 7). rewrite Z.land_ones by lia. change (2 ^ 7) with 128. rewrite <- (Z.mul_1_l 128) at 2. rewrite Z.mod_add by lia. apply Z.mod_mod. lia. }
      assert (v mod 128 ≤ v) as Hle by (apply Z.mod_le; lia).
      rewrite (proj1 (Hsh _ Hm Hle)), lor_shift by lia. rewrite Z.shiftr_div_pow2 by lia. change (2 ^ 7) with 128.
      assert (0 < 2 ^ s) by (apply Z.pow_pos_nonneg; lia). pose proof (Z.div_mod v 128 ltac:(lia)) as Ev.
      replace (s + 7) with (7 * Z.of_nat (S i)) by lia. assert (2 ^ (7 * Z.of_nat (S i)) = 2 ^ s * 128) as Ep.
      { replace (7 * Z.of_nat (S i)) with (s + 7) by lia. rewrite Z.pow_add_r by lia. done. }
      rewrite IH; [f_equal; f_equal; rewrite Ep; nia|lia|rewrite Ep; nia|]. split; [apply Z.div_pos; lia|].
      apply Z.div_lt_upper_bound; [lia|]. change 128 with (2 ^ 7) at 1. rewrite <- Z.pow_add_r by lia.
      replace (7 + (64 - 7 * Z.of_nat (S i))) with (64 - s) by lia. lia.
Qed.

Lemma read_put_uvarint v rest : u64_range v → read_uvarint (put_uvarint v ++ rest) = Ok (v, rest).
Proof.
  intros Hv. unfold read_uvarint, put_uvarint, MaxVarintLen64. pose proof (read_uvarint_bytes 9 0 0 v rest eq_refl) as H.
  change (7 * Z.of_nat 0) with 0 in H. rewrite H; [|lia|unfold u64_range in Hv; change (64 - 0) with 64; lia]. f_equal. f_equal. lia.
Qed.

Lemma zigzag_spec v : i64_range v → u64_range (zigzag v) ∧ unzigzag (zigzag v) = v.
Proof.
  intros Hv. unfold i64_range in Hv. unfold zigzag. rewrite Z.shiftl_mul_pow2 by lia. change (2 ^ 1) with 2.
  assert (∀ u, Z.land u 1 = u mod 2) as Hl by (intros u; change 1 with (Z.ones 1); by rewrite Z.land_ones by lia).
  unfold unzigzag. rewrite !Hl, !Z.shiftr_div_pow2 by lia. change (2 ^ 1) with 2. unfold u64_range.
  destruct (Z.ltb_spec v 0) as [Hn|Hp].
  - assert (u64 (v * 2) = v * 2 + 2 ^ 64) as Eu.
    { unfold u64. symmetry. apply (Z.mod_unique _ _ (-1)); lia. }
    rewrite Eu. replace (2 ^ 64 - 1 - (v * 2 + 2 ^ 64)) with ((- v - 1) * 2 + 1) by lia. split; [lia|].
    rewrite !(Z.add_comm ((- v - 1) * 2) 1), Z.mod_add, Z.div_add by lia. change (1 mod 2 =? 0) with false. change (1 / 2) with 0. cbv iota. lia.
  - rewrite u64_id by (unfold u64_range; lia). split; [lia|]. rewrite Z.mod_mul, Z.div_mul by lia. done.
Qed.

Lemma read_put_varint v rest : i64_range v → read_varint (put_varint v ++ rest) = Ok (v, rest).
Proof.
  intros Hv. destruct (zigzag_spec v Hv) as [Hu Hz]. unfold read_varint, put_varint. rewrite read_put_uvarint by done.
  cbn. by rewrite Hz.
Qed.

Lemma uvarint_example : put_uvarint 624485 = [xe5; x8e; x26].
Proof. reflexivity. Qed.
Lemma varint_examples : put_varint (-1) = [x01] ∧ put_varint 63 = [x7e] ∧ put_varint (-65) = [x81; x01].
Proof. done. Qed.
