(* ===== verification/AccountAgent.v ===== *)
(** * The account agent ([internal/model/account_agent.generated.go])

    The state machine the Oct compiler generates for an account: the decision by
    scored candidates, the flow with its board that yields one decision per
    command, the typed facade around it, and its checkpoints in JSON.  The
    program counters of the generated functions are written as the conditions
    they compute. *)

From Stdlib Require Import ZArith Lia Strings.Byte Strings.String.
From stdpp Require Import base decidable countable list gmap.
From S2P Require Import Prelude GoText GoBinary GoJson Errors.

Local Open Scope Z_scope.
Local Open Scope go_scope.

(** ** Values *)

(** A nominal value: its tag and its payload of type [any], [nil] in all that the
    program builds.  A payload is a value [encoding/json] can hold; one read from
    a checkpoint keeps its numbers as they were written. *)
Record nominal := { nm_Tag : Z; nm_Payload : json }.
Definition of_tag (tag : Z) : nominal := {| nm_Tag := tag; nm_Payload := JNull |}.

(** [x == Main_...{Tag: tag}]. *)
Definition is_nil (j : json) : bool := match j with JNull => true | _ => false end.
Definition is_tag (x : nominal) (tag : Z) : bool := (nm_Tag x =? tag) && is_nil (nm_Payload x).

Definition CommandKind_Create_tag : Z := 0.
Definition CommandKind_Deposit_tag : Z := 1.
Definition CommandKind_Withdraw_tag : Z := 2.
Definition CommandKind_Transfer_tag : Z := 3.
Definition CommandKind_Freeze_tag : Z := 4.
Definition CommandKind_Unfreeze_tag : Z := 5.
Definition CommandKind_BeginTransfer_tag : Z := 6.
Definition CommandKind_Confirm_tag : Z := 7.
Definition CommandKind_Cancel_tag : Z := 8.

Definition AccountStatus_Missing_tag : Z := 0.
Definition AccountStatus_Open_tag : Z := 1.
Definition AccountStatus_Frozen_tag : Z := 2.

Definition DecisionReason_Applied_tag : Z := 0.
Definition DecisionReason_AwaitingConfirmation_tag : Z := 1.
Definition DecisionReason_Cancelled_tag : Z := 2.
Definition DecisionReason_InvalidAmount_tag : Z := 3.
Definition DecisionReason_AccountMissing_tag : Z := 4.
Definition DecisionReason_AccountExists_tag : Z := 5.
Definition DecisionReason_AccountFrozen_tag : Z := 6.
Definition DecisionReason_InsufficientFunds_tag : Z := 7.
Definition DecisionReason_InvalidWorkflow_tag : Z := 8.

Definition EffectKind_None_tag : Z := 0.
Definition EffectKind_Create_tag : Z := 1.
Definition EffectKind_SetBalance_tag : Z := 2.
Definition EffectKind_Transfer_tag : Z := 3.
Definition EffectKind_SetStatus_tag : Z := 4.

Record CommandContext := {
  cc_Kind : nominal; cc_AccountA : Z; cc_AccountB : Z; cc_Amount : Z; cc_ExistsA : bool; cc_ExistsB : bool;
  cc_BalanceA : Z; cc_BalanceB : Z; cc_StatusA : nominal; cc_StatusB : nominal; cc_VersionA : Z; cc_VersionB : Z }.

Record TransitionDecision := {
  td_Accepted : bool; td_Reason : nominal; td_Effect : nominal; td_AccountA : Z; td_AccountB : Z; td_Amount : Z;
  td_NewBalanceA : Z; td_NewBalanceB : Z; td_NewStatus : nominal; td_ExpectedVersionA : Z; td_ExpectedVersionB : Z;
  td_TransitionCount : Z }.

Definition zeroDecision : TransitionDecision :=
  {| td_Accepted := false; td_Reason := of_tag 0; td_Effect := of_tag 0; td_AccountA := 0; td_AccountB := 0;
     td_Amount := 0; td_NewBalanceA := 0; td_NewBalanceB := 0; td_NewStatus := of_tag 0; td_ExpectedVersionA := 0;
     td_ExpectedVersionB := 0; td_TransitionCount := 0 |}.

(** ** Utility selection *)

Record utilCandidate := { uc_Valid : bool; uc_Value : Z; uc_Score : Z }.
Record utilitySite := { us_HasCurrent : bool; us_Current : Z; us_Score : Z; us_CommitAge : Z }.
Definition zeroSite : utilitySite := {| us_HasCurrent := false; us_Current := 0; us_Score := 0; us_CommitAge := 0 |}.

Definition utilSelect (sites : gmap Z utilitySite) (siteID hysteresis minCommit : Z) (candidates : list utilCandidate)
    (elseValue : Z) : Z * gmap Z utilitySite :=
  let valid := filter (fun c => uc_Valid c = true) candidates in
  let next :=
    match valid with
    | [] => {| uc_Valid := true; uc_Value := elseValue; uc_Score := 0 |}
    | c :: rest => foldl (fun next c => if uc_Score next <? uc_Score c then c else next) c rest
    end in
  let site := default zeroSite (sites !! siteID) in
  let next :=
    if us_HasCurrent site && existsb (fun c => uc_Value c =? us_Current site) valid
       && ((us_CommitAge site <? minCommit) || (uc_Score next <=? us_Score site + hysteresis))
    then {| uc_Valid := true; uc_Value := us_Current site; uc_Score := us_Score site |} else next in
  (uc_Value next,
   <[siteID :=
     if negb (us_HasCurrent site) || negb (us_Current site =? uc_Value next)
     then {| us_HasCurrent := true; us_Current := uc_Value next; us_Score := uc_Score next; us_CommitAge := 1 |}
     else {| us_HasCurrent := us_HasCurrent site; us_Current := us_Current site; us_Score := uc_Score next;
             us_CommitAge := us_CommitAge site + 1 |}]> sites).

(** ** The decision *)

Definition agent_decision (c : CommandContext) (accepted : bool) (reason effect : nominal) (balanceA balanceB : Z)
    (status : nominal) (count : Z) : TransitionDecision :=
  {| td_Accepted := accepted; td_Reason := reason; td_Effect := effect; td_AccountA := cc_AccountA c;
     td_AccountB := cc_AccountB c; td_Amount := cc_Amount c; td_NewBalanceA := balanceA; td_NewBalanceB := balanceB;
     td_NewStatus := status; td_ExpectedVersionA := cc_VersionA c; td_ExpectedVersionB := cc_VersionB c;
     td_TransitionCount := count |}.

Definition candidate (valid : bool) (value score : Z) : utilCandidate :=
  {| uc_Valid := valid; uc_Value := value; uc_Score := score |}.

(** The conditions of [fn_Main_DecideCode] with their codes and scores: the
    commands on one account, the moves between two, the rest. *)
Definition account_candidates (c : CommandContext) : list utilCandidate :=
  let kind tag := is_tag (cc_Kind c) tag in
  [candidate (kind CommandKind_Create_tag && cc_ExistsA c) 1 100;
   candidate (kind CommandKind_Create_tag && (cc_Amount c <? 0)) 2 90;
   candidate (kind CommandKind_Create_tag) 3 10;
   candidate (kind CommandKind_Deposit_tag && (cc_Amount c <=? 0)) 4 100;
   candidate (kind CommandKind_Deposit_tag && negb (cc_ExistsA c)) 5 90;
   candidate (kind CommandKind_Deposit_tag) 6 10;
   candidate (kind CommandKind_Withdraw_tag && (cc_Amount c <=? 0)) 7 100;
   candidate (kind CommandKind_Withdraw_tag && negb (cc_ExistsA c)) 8 90;
   candidate (kind CommandKind_Withdraw_tag && is_tag (cc_StatusA c) AccountStatus_Frozen_tag) 9 80;
   candidate (kind CommandKind_Withdraw_tag && (cc_BalanceA c <? cc_Amount c)) 10 70;
   candidate (kind CommandKind_Withdraw_tag) 11 10].

Definition move_candidates (c : CommandContext) (wasPending : bool) (target amount : Z) : list utilCandidate :=
  let kind tag := is_tag (cc_Kind c) tag in
  let moves := kind CommandKind_Transfer_tag || kind CommandKind_Confirm_tag in
  [candidate (kind CommandKind_Confirm_tag
              && (negb wasPending || negb (target =? cc_AccountB c) || negb (amount =? cc_Amount c))) 12 110;
   candidate (moves && (cc_Amount c <=? 0)) 13 100;
   candidate (moves && (negb (cc_ExistsA c) || negb (cc_ExistsB c))) 14 90;
   candidate (moves && is_tag (cc_StatusA c) AccountStatus_Frozen_tag) 15 80;
   candidate (moves && (cc_BalanceA c <? cc_Amount c)) 16 70;
   candidate moves 17 10].

Definition status_candidates (c : CommandContext) : list utilCandidate :=
  let kind tag := is_tag (cc_Kind c) tag in
  [candidate (kind CommandKind_Freeze_tag && negb (cc_ExistsA c)) 18 100;
   candidate (kind CommandKind_Freeze_tag) 19 10;
   candidate (kind CommandKind_Unfreeze_tag && negb (cc_ExistsA c)) 20 100;
   candidate (kind CommandKind_Unfreeze_tag) 21 10;
   candidate (kind CommandKind_BeginTransfer_tag && (cc_Amount c <=? 0)) 22 100;
   candidate (kind CommandKind_BeginTransfer_tag) 23 10;
   candidate (kind CommandKind_Cancel_tag) 24 10].

Definition DecideCode (c : CommandContext) (wasPending : bool) (target amount : Z) : Z :=
  (utilSelect ∅ 0 0 0 (account_candidates c ++ move_candidates c wasPending target amount ++ status_candidates c) 0).1.

Definition refuse (c : CommandContext) (count reason : Z) : TransitionDecision :=
  agent_decision c false (of_tag reason) (of_tag EffectKind_None_tag) (cc_BalanceA c) (cc_BalanceB c) (cc_StatusA c) count.
Definition accept (c : CommandContext) (count reason effect balanceA balanceB : Z) (status : nominal) : TransitionDecision :=
  agent_decision c true (of_tag reason) (of_tag effect) balanceA balanceB status count.

(** The branches of [fn_Main_Decide], in the same three groups. *)
Definition decide_account (c : CommandContext) (count code : Z) : option TransitionDecision :=
  if code =? 1 then Some (refuse c count DecisionReason_AccountExists_tag)
  else if code =? 2 then Some (refuse c count DecisionReason_InvalidAmount_tag)
  else if code =? 3 then
    Some (accept c count DecisionReason_Applied_tag EffectKind_Create_tag (cc_Amount c) (cc_BalanceB c) (of_tag AccountStatus_Open_tag))
  else if code =? 4 then Some (refuse c count DecisionReason_InvalidAmount_tag)
  else if code =? 5 then Some (refuse c count DecisionReason_AccountMissing_tag)
  else if code =? 6 then
    Some (accept c count DecisionReason_Applied_tag EffectKind_SetBalance_tag (i64 (cc_BalanceA c + cc_Amount c)) (cc_BalanceB c)
            (cc_StatusA c))
  else if code =? 7 then Some (refuse c count DecisionReason_InvalidAmount_tag)
  else if code =? 8 then Some (refuse c count DecisionReason_AccountMissing_tag)
  else if code =? 9 then Some (refuse c count DecisionReason_AccountFrozen_tag)
  else if code =? 10 then Some (refuse c count DecisionReason_InsufficientFunds_tag)
  else if code =? 11 then
    Some (accept c count DecisionReason_Applied_tag EffectKind_SetBalance_tag (i64 (cc_BalanceA c - cc_Amount c)) (cc_BalanceB c)
            (cc_StatusA c))
  else None.

Definition decide_move (c : CommandContext) (count code : Z) : option TransitionDecision :=
  if code =? 12 then Some (refuse c count DecisionReason_InvalidWorkflow_tag)
  else if code =? 13 then Some (refuse c count DecisionReason_InvalidAmount_tag)
  else if code =? 14 then Some (refuse c count DecisionReason_AccountMissing_tag)
  else if code =? 15 then Some (refuse c count DecisionReason_AccountFrozen_tag)
  else if code =? 16 then Some (refuse c count DecisionReason_InsufficientFunds_tag)
  else if code =? 17 then
    Some (accept c count DecisionReason_Applied_tag EffectKind_Transfer_tag (i64 (cc_BalanceA c - cc_Amount c))
            (i64 (cc_BalanceB c + cc_Amount c)) (cc_StatusA c))
  else None.

Definition decide_status (c : CommandContext) (count code : Z) : option TransitionDecision :=
  if code =? 18 then Some (refuse c count DecisionReason_AccountMissing_tag)
  else if code =? 19 then
    Some (accept c count DecisionReason_Applied_tag EffectKind_SetStatus_tag (cc_BalanceA c) (cc_BalanceB c) (of_tag AccountStatus_Frozen_tag))
  else if code =? 20 then Some (refuse c count DecisionReason_AccountMissing_tag)
  else if code =? 21 then
    Some (accept c count DecisionReason_Applied_tag EffectKind_SetStatus_tag (cc_BalanceA c) (cc_BalanceB c) (of_tag AccountStatus_Open_tag))
  else if code =? 22 then Some (refuse c count DecisionReason_InvalidAmount_tag)
  else if code =? 23 then
    Some (accept c count DecisionReason_AwaitingConfirmation_tag EffectKind_None_tag (cc_BalanceA c) (cc_BalanceB c) (cc_StatusA c))
  else if code =? 24 then
    Some (accept c count DecisionReason_Cancelled_tag EffectKind_None_tag (cc_BalanceA c) (cc_BalanceB c) (cc_StatusA c))
  else None.

Definition Decide (c : CommandContext) (count : Z) (wasPending : bool) (target amount : Z) : TransitionDecision :=
  let code := DecideCode c wasPending target amount in
  match decide_account c count code with
  | Some d => d
  | None =>
      match decide_move c count code with
      | Some d => d
      | None =>
          match decide_status c count code with
          | Some d => d
          | None => refuse c count DecisionReason_InvalidWorkflow_tag
          end
      end
  end.

(** ** The flow *)

Record AgentBoard := {
  bd_TransitionCount : Z; bd_Pending : bool; bd_WasPending : bool; bd_PendingTarget : Z; bd_PendingAmount : Z }.
Definition zeroBoard : AgentBoard :=
  {| bd_TransitionCount := 0; bd_Pending := false; bd_WasPending := false; bd_PendingTarget := 0; bd_PendingAmount := 0 |}.

(** The input lives in the flow only while a turn runs; the flow never completes,
    so it has no result. *)
Record AgentFlow := {
  fl_started : bool; fl_completed : bool; fl_currentState : Z; fl_instruction : Z; fl_lastYield : TransitionDecision;
  fl_hasYield : bool; fl_owner : Z; fl_board : AgentBoard }.

Definition new_flow (owner : Z) : AgentFlow :=
  {| fl_started := false; fl_completed := false; fl_currentState := 0; fl_instruction := 0; fl_lastYield := zeroDecision;
     fl_hasYield := false; fl_owner := owner; fl_board := zeroBoard |}.

Definition octActive (f : AgentFlow) : bytes :=
  if negb (fl_started f) || fl_completed f then [] else if fl_currentState f =? 0 then bs "Active" else [].

Definition set_board (f : AgentFlow) (b : AgentBoard) : AgentFlow :=
  {| fl_started := fl_started f; fl_completed := fl_completed f; fl_currentState := fl_currentState f;
     fl_instruction := fl_instruction f; fl_lastYield := fl_lastYield f; fl_hasYield := fl_hasYield f;
     fl_owner := fl_owner f; fl_board := b |}.
Definition at_instruction (f : AgentFlow) (state i : Z) : AgentFlow :=
  {| fl_started := fl_started f; fl_completed := fl_completed f; fl_currentState := state; fl_instruction := i;
     fl_lastYield := fl_lastYield f; fl_hasYield := fl_hasYield f; fl_owner := fl_owner f; fl_board := fl_board f |}.
Definition yielding (f : AgentFlow) (d : TransitionDecision) : AgentFlow :=
  {| fl_started := fl_started f; fl_completed := fl_completed f; fl_currentState := fl_currentState f;
     fl_instruction := fl_instruction f; fl_lastYield := d; fl_hasYield := true; fl_owner := fl_owner f; fl_board := fl_board f |}.

Inductive control := Continue | Suspend | Panic (message : string).
Arguments Panic _%_string.

(** What the instructions do to the board. *)
Definition count_transition (b : AgentBoard) : AgentBoard :=
  {| bd_TransitionCount := i64 (bd_TransitionCount b + 1); bd_Pending := bd_Pending b; bd_WasPending := bd_WasPending b;
     bd_PendingTarget := bd_PendingTarget b; bd_PendingAmount := bd_PendingAmount b |}.
Definition remember_pending (b : AgentBoard) : AgentBoard :=
  {| bd_TransitionCount := bd_TransitionCount b; bd_Pending := bd_Pending b; bd_WasPending := bd_Pending b;
     bd_PendingTarget := bd_PendingTarget b; bd_PendingAmount := bd_PendingAmount b |}.
Definition begin_pending (input : CommandContext) (b : AgentBoard) : AgentBoard :=
  if is_tag (cc_Kind input) CommandKind_BeginTransfer_tag && (0 <? cc_Amount input) then
    {| bd_TransitionCount := bd_TransitionCount b; bd_Pending := true; bd_WasPending := bd_WasPending b;
       bd_PendingTarget := cc_AccountB input; bd_PendingAmount := cc_Amount input |}
  else b.
Definition end_pending (input : CommandContext) (b : AgentBoard) : AgentBoard :=
  if is_tag (cc_Kind input) CommandKind_Confirm_tag || is_tag (cc_Kind input) CommandKind_Cancel_tag then
    {| bd_TransitionCount := bd_TransitionCount b; bd_Pending := false; bd_WasPending := bd_WasPending b;
       bd_PendingTarget := bd_PendingTarget b; bd_PendingAmount := bd_PendingAmount b |}
  else b.

(** One round of the loop of [__octStep]. *)
Definition octRound (input : CommandContext) (f : AgentFlow) : AgentFlow * control :=
  let next f := at_instruction f (fl_currentState f) (fl_instruction f + 1) in
  let on g := (next (set_board f (g (fl_board f))), Continue) in
  if negb (fl_currentState f =? 0) then (f, Panic "runtime invariant violation: unknown flow state")
  else if fl_instruction f =? 0 then on count_transition
  else if fl_instruction f =? 1 then on remember_pending
  else if fl_instruction f =? 2 then on (begin_pending input)
  else if fl_instruction f =? 3 then on (end_pending input)
  else if fl_instruction f =? 4 then
    let b := fl_board f in
    (next (yielding f (Decide input (bd_TransitionCount b) (bd_WasPending b) (bd_PendingTarget b) (bd_PendingAmount b))),
     Suspend)
  else if fl_instruction f =? 5 then (at_instruction f 0 0, Continue)
  else (f, Panic "runtime invariant violation: flow state Active exited without suspend or return").

(** The loop; [None] is a turn still running when the fuel ends. *)
Fixpoint octLoop (fuel : nat) (input : CommandContext) (f : AgentFlow) : AgentFlow * option control :=
  match fuel with
  | O => (f, None)
  | S fuel =>
      let (f, c) := octRound input f in
      match c with Continue => octLoop fuel input f | c => (f, Some c) end
  end.

(** Instruction 5 goes back to 0 and instruction 4 suspends. *)
Definition turn_fuel : nat := 6.

Definition octStep (f : AgentFlow) (input : CommandContext) : AgentFlow * option control :=
  if fl_completed f then (f, Some (Panic "runtime error: input supplied after flow completion"))
  else
    octLoop turn_fuel input
      {| fl_started := true; fl_completed := fl_completed f;
         fl_currentState := if fl_started f then fl_currentState f else 0;
         fl_instruction := if fl_started f then fl_instruction f else 0;
         fl_lastYield := fl_lastYield f; fl_hasYield := false; fl_owner := fl_owner f; fl_board := fl_board f |}.

(** ** The facade *)

Inductive CheckpointReason :=
| VersionMismatch | FlowMismatch | FingerprintMismatch | StateMissing | ContinuationInvalid | BoardSchemaMismatch
| ConstructionMismatch | UtilitySiteMismatch | YieldSchemaMismatch | NotAtYield.

Inductive agent_error :=
| EFlowStep (panic : string)
| ENoYield
| ESyntax
| ECheckpoint (reason : CheckpointReason) (detail : bytes)
| EDelta (message : string)
| EDeltaValue (message : string) (value : Z)
| ETruncated (err : gerror)
| EPanic (message : string).
Arguments EFlowStep _%_string.
Arguments EDelta _%_string.
Arguments EDeltaValue _%_string _.
Arguments EPanic _%_string.

(** [AccountAgent.Step] and [AccountAgentTurn.Yielded]: a panic of the flow becomes
    an error, and what the flow did before it stays. *)
Definition Step (f : AgentFlow) (input : CommandContext) : AgentFlow * option agent_error :=
  let (f, c) := octStep f input in
  (f, match c with Some Suspend => None | Some (Panic m) => Some (EFlowStep m) | _ => Some (EFlowStep "out of fuel") end).
Definition Yielded (f : AgentFlow) : res agent_error TransitionDecision :=
  if fl_hasYield f then Ok (fl_lastYield f) else Err ENoYield.

(** [AdmitPositiveAmount] with the refinement it calls. *)
Definition refine_PositiveAmount (value : Z) : res bytes Z :=
  if negb (0 <? value) then Err (bs "refined concept PositiveAmount: amount must be positive") else Ok value.
Definition AdmitPositiveAmount (value : Z) : res bytes Z := refine_PositiveAmount value.

(** ** Checkpoints *)

Record CheckpointPayload := {
  cp_Version : Z; cp_Package : bytes; cp_Flow : bytes; cp_Fingerprint : bytes; cp_BoardSchema : bytes;
  cp_ConstructionSchema : bytes; cp_UtilitySchema : bytes; cp_YieldSchema : bytes; cp_CurrentState : bytes;
  cp_Instruction : Z; cp_Parameterowner : Z; cp_Board : AgentBoard; cp_LastYield : TransitionDecision; cp_HasYield : bool }.

Definition zeroPayload : CheckpointPayload :=
  {| cp_Version := 0; cp_Package := []; cp_Flow := []; cp_Fingerprint := []; cp_BoardSchema := [];
     cp_ConstructionSchema := []; cp_UtilitySchema := []; cp_YieldSchema := []; cp_CurrentState := []; cp_Instruction := 0;
     cp_Parameterowner := 0; cp_Board := zeroBoard; cp_LastYield := zeroDecision; cp_HasYield := false |}.

Definition agentFingerprint : bytes := bs "36d8d2187661e140f142ab7b43473b3bf7e0bb37f885fb5b7343ffa0f0b987f8".
Definition agentBoardSchema : bytes :=
  bs "TransitionCount:Int;Pending:Bool;WasPending:Bool;PendingTarget:Int;PendingAmount:Int;".

(** The JSON form. *)
Definition nominal_json (x : nominal) : json :=
  JObj [(bs "Tag", JNum (dec (nm_Tag x))); (bs "Payload", nm_Payload x)].
Definition nominal_member (x : nominal) (m : bytes * json) : option nominal :=
  if is_field "Tag" m.1 then v ← into_int (nm_Tag x) m.2; Some {| nm_Tag := v; nm_Payload := nm_Payload x |}
  else if is_field "Payload" m.1 then Some {| nm_Tag := nm_Tag x; nm_Payload := m.2 |}
  else Some x.
Definition into_nominal (x : nominal) (j : json) : option nominal := into_struct nominal_member x j.

Definition board_json (b : AgentBoard) : json :=
  JObj [(bs "TransitionCount", JNum (dec (bd_TransitionCount b))); (bs "Pending", JBool (bd_Pending b));
        (bs "WasPending", JBool (bd_WasPending b)); (bs "PendingTarget", JNum (dec (bd_PendingTarget b)));
        (bs "PendingAmount", JNum (dec (bd_PendingAmount b)))].
Definition board_member (b : AgentBoard) (m : bytes * json) : option AgentBoard :=
  let '(Build_AgentBoard c p w t a) := b in
  if is_field "TransitionCount" m.1 then v ← into_int c m.2; Some (Build_AgentBoard v p w t a)
  else if is_field "Pending" m.1 then v ← into_bool p m.2; Some (Build_AgentBoard c v w t a)
  else if is_field "WasPending" m.1 then v ← into_bool w m.2; Some (Build_AgentBoard c p v t a)
  else if is_field "PendingTarget" m.1 then v ← into_int t m.2; Some (Build_AgentBoard c p w v a)
  else if is_field "PendingAmount" m.1 then v ← into_int a m.2; Some (Build_AgentBoard c p w t v)
  else Some b.

Definition decision_json (d : TransitionDecision) : json :=
  JObj [(bs "Accepted", JBool (td_Accepted d)); (bs "Reason", nominal_json (td_Reason d));
        (bs "Effect", nominal_json (td_Effect d)); (bs "AccountA", JNum (dec (td_AccountA d)));
        (bs "AccountB", JNum (dec (td_AccountB d))); (bs "Amount", JNum (dec (td_Amount d)));
        (bs "NewBalanceA", JNum (dec (td_NewBalanceA d))); (bs "NewBalanceB", JNum (dec (td_NewBalanceB d)));
        (bs "NewStatus", nominal_json (td_NewStatus d)); (bs "ExpectedVersionA", JNum (dec (td_ExpectedVersionA d)));
        (bs "ExpectedVersionB", JNum (dec (td_ExpectedVersionB d)));
        (bs "TransitionCount", JNum (dec (td_TransitionCount d)))].
Definition decision_member (d : TransitionDecision) (m : bytes * json) : option TransitionDecision :=
  let '(Build_TransitionDecision ok r e a b n x y s va vb c) := d in
  if is_field "Accepted" m.1 then v ← into_bool ok m.2; Some (Build_TransitionDecision v r e a b n x y s va vb c)
  else if is_field "Reason" m.1 then v ← into_nominal r m.2; Some (Build_TransitionDecision ok v e a b n x y s va vb c)
  else if is_field "Effect" m.1 then v ← into_nominal e m.2; Some (Build_TransitionDecision ok r v a b n x y s va vb c)
  else if is_field "AccountA" m.1 then v ← into_int a m.2; Some (Build_TransitionDecision ok r e v b n x y s va vb c)
  else if is_field "AccountB" m.1 then v ← into_int b m.2; Some (Build_TransitionDecision ok r e a v n x y s va vb c)
  else if is_field "Amount" m.1 then v ← into_int n m.2; Some (Build_TransitionDecision ok r e a b v x y s va vb c)
  else if is_field "NewBalanceA" m.1 then v ← into_int x m.2; Some (Build_TransitionDecision ok r e a b n v y s va vb c)
  else if is_field "NewBalanceB" m.1 then v ← into_int y m.2; Some (Build_TransitionDecision ok r e a b n x v s va vb c)
  else if is_field "NewStatus" m.1 then v ← into_nominal s m.2; Some (Build_TransitionDecision ok r e a b n x y v va vb c)
  else if is_field "ExpectedVersionA" m.1 then v ← into_int va m.2; Some (Build_TransitionDecision ok r e a b n x y s v vb c)
  else if is_field "ExpectedVersionB" m.1 then v ← into_int vb m.2; Some (Build_TransitionDecision ok r e a b n x y s va v c)
  else if is_field "TransitionCount" m.1 then v ← into_int c m.2; Some (Build_TransitionDecision ok r e a b n x y s va vb v)
  else Some d.

Definition payload_json (p : CheckpointPayload) : json :=
  JObj [(bs "version", JNum (dec (cp_Version p))); (bs "package", JStr (cp_Package p)); (bs "flow", JStr (cp_Flow p));
        (bs "fingerprint", JStr (cp_Fingerprint p)); (bs "board_schema", JStr (cp_BoardSchema p));
        (bs "construction_schema", JStr (cp_ConstructionSchema p)); (bs "utility_schema", JStr (cp_UtilitySchema p));
        (bs "yield_schema", JStr (cp_YieldSchema p)); (bs "current_state", JStr (cp_CurrentState p));
        (bs "instruction", JNum (dec (cp_Instruction p))); (bs "parameter_owner", JNum (dec (cp_Parameterowner p)));
        (bs "board", board_json (cp_Board p)); (bs "last_yield", decision_json (cp_LastYield p));
        (bs "has_yield", JBool (cp_HasYield p))].
Definition payload_member (p : CheckpointPayload) (m : bytes * json) : option CheckpointPayload :=
  let '(Build_CheckpointPayload v k f g bo co ut yi cu i ow b l h) := p in
  if is_field "version" m.1 then x ← into_int v m.2; Some (Build_CheckpointPayload x k f g bo co ut yi cu i ow b l h)
  else if is_field "package" m.1 then x ← into_str k m.2; Some (Build_CheckpointPayload v x f g bo co ut yi cu i ow b l h)
  else if is_field "flow" m.1 then x ← into_str f m.2; Some (Build_CheckpointPayload v k x g bo co ut yi cu i ow b l h)
  else if is_field "fingerprint" m.1 then x ← into_str g m.2; Some (Build_CheckpointPayload v k f x bo co ut yi cu i ow b l h)
  else if is_field "board_schema" m.1 then x ← into_str bo m.2; Some (Build_CheckpointPayload v k f g x co ut yi cu i ow b l h)
  else if is_field "construction_schema" m.1 then x ← into_str co m.2; Some (Build_CheckpointPayload v k f g bo x ut yi cu i ow b l h)
  else if is_field "utility_schema" m.1 then x ← into_str ut m.2; Some (Build_CheckpointPayload v k f g bo co x yi cu i ow b l h)
  else if is_field "yield_schema" m.1 then x ← into_str yi m.2; Some (Build_CheckpointPayload v k f g bo co ut x cu i ow b l h)
  else if is_field "current_state" m.1 then x ← into_str cu m.2; Some (Build_CheckpointPayload v k f g bo co ut yi x i ow b l h)
  else if is_field "instruction" m.1 then x ← into_int i m.2; Some (Build_CheckpointPayload v k f g bo co ut yi cu x ow b l h)
  else if is_field "parameter_owner" m.1 then x ← into_int ow m.2; Some (Build_CheckpointPayload v k f g bo co ut yi cu i x b l h)
  else if is_field "board" m.1 then x ← into_struct board_member b m.2; Some (Build_CheckpointPayload v k f g bo co ut yi cu i ow x l h)
  else if is_field "last_yield" m.1 then x ← into_struct decision_member l m.2; Some (Build_CheckpointPayload v k f g bo co ut yi cu i ow b x h)
  else if is_field "has_yield" m.1 then x ← into_bool h m.2; Some (Build_CheckpointPayload v k f g bo co ut yi cu i ow b l x)
  else Some p.

(** [json.Marshal(payload)] and [json.Unmarshal(data, &payload)]. *)
Definition marshal_payload (p : CheckpointPayload) : bytes := print (payload_json p).
Definition unmarshal_payload (data : bytes) : res agent_error CheckpointPayload :=
  match (j ← parse data; into_struct payload_member zeroPayload j) with Some p => Ok p | None => Err ESyntax end.

(** A checkpoint is its bytes. *)
Definition ParseAccountAgentCheckpoint (data : bytes) : res agent_error bytes :=
  let! _ := unmarshal_payload data in Ok data.

Definition initialAccountAgentPayload (owner : Z) : CheckpointPayload :=
  {| cp_Version := 1; cp_Package := bs "Main"; cp_Flow := bs "AccountAgent"; cp_Fingerprint := agentFingerprint;
     cp_BoardSchema := agentBoardSchema; cp_ConstructionSchema := bs "owner:Int;"; cp_UtilitySchema := [];
     cp_YieldSchema := bs "Main.TransitionDecision"; cp_CurrentState := []; cp_Instruction := 0;
     cp_Parameterowner := owner; cp_Board := zeroBoard; cp_LastYield := zeroDecision; cp_HasYield := false |}.

(** The payload of a flow: the constants of [Checkpoint] and
    [initialAccountAgentPayload] are the same. *)
Definition flow_payload (f : AgentFlow) : CheckpointPayload :=
  let p := initialAccountAgentPayload (fl_owner f) in
  {| cp_Version := cp_Version p; cp_Package := cp_Package p; cp_Flow := cp_Flow p; cp_Fingerprint := cp_Fingerprint p;
     cp_BoardSchema := cp_BoardSchema p; cp_ConstructionSchema := cp_ConstructionSchema p;
     cp_UtilitySchema := cp_UtilitySchema p; cp_YieldSchema := cp_YieldSchema p; cp_CurrentState := octActive f;
     cp_Instruction := fl_instruction f; cp_Parameterowner := cp_Parameterowner p; cp_Board := fl_board f;
     cp_LastYield := fl_lastYield f; cp_HasYield := fl_hasYield f |}.

Definition Checkpoint (f : AgentFlow) : res agent_error bytes :=
  if fl_completed f || negb (fl_hasYield f)
  then Err (ECheckpoint NotAtYield (bs "checkpoint requires the completed turn to have yielded"))
  else Ok (marshal_payload (flow_payload f)).

Definition AgentStateID (name : bytes) : option Z := if bool_decide (name = bs "Active") then Some 0 else None.
Definition ContinuationValid (state instruction : Z) : bool :=
  (state =? 0) && ((0 <=? instruction) && (instruction <=? 6)).

Definition restore_payload (p : CheckpointPayload) : res agent_error AgentFlow :=
  let! _ := guard_err (negb (cp_Version p =? 1)) (ECheckpoint VersionMismatch (bs "version " ++ dec (cp_Version p))) in
  let! _ := guard_err (negb (bool_decide (cp_Package p = bs "Main")) || negb (bool_decide (cp_Flow p = bs "AccountAgent")))
              (ECheckpoint FlowMismatch (cp_Package p ++ bs "." ++ cp_Flow p)) in
  let! _ := guard_err (negb (bool_decide (cp_Fingerprint p = agentFingerprint)))
              (ECheckpoint FingerprintMismatch (bs "compiled flow changed")) in
  let! _ := guard_err (negb (bool_decide (cp_BoardSchema p = agentBoardSchema)))
              (ECheckpoint BoardSchemaMismatch (bs "board schema changed")) in
  let! _ := guard_err (negb (bool_decide (cp_ConstructionSchema p = bs "owner:Int;")))
              (ECheckpoint ConstructionMismatch (bs "construction schema changed")) in
  let! _ := guard_err (negb (bool_decide (cp_UtilitySchema p = [])))
              (ECheckpoint UtilitySiteMismatch (bs "utility site schema changed")) in
  let! _ := guard_err (negb (bool_decide (cp_YieldSchema p = bs "Main.TransitionDecision")))
              (ECheckpoint YieldSchemaMismatch (bs "yield schema changed")) in
  let! _ := guard_err (negb (cp_HasYield p))
              (ECheckpoint YieldSchemaMismatch (bs "checkpoint is not a yielded machine boundary")) in
  match AgentStateID (cp_CurrentState p) with
  | None => Err (ECheckpoint StateMissing (cp_CurrentState p))
  | Some state =>
      let! _ := guard_err (negb (ContinuationValid state (cp_Instruction p)))
                  (ECheckpoint ContinuationInvalid (cp_CurrentState p ++ bs "[" ++ dec (cp_Instruction p) ++ bs "]")) in
      Ok {| fl_started := true; fl_completed := false; fl_currentState := state; fl_instruction := cp_Instruction p;
            fl_lastYield := cp_LastYield p; fl_hasYield := cp_HasYield p; fl_owner := cp_Parameterowner p;
            fl_board := cp_Board p |}
  end.

Definition RestoreAccountAgent (checkpoint : bytes) : res agent_error AgentFlow :=
  let! p := unmarshal_payload checkpoint in restore_payload p.
