(* ===== verification/AgentLemmas.v ===== *)
(** * Lemmas on the account agent

    What a turn computes, that the loop of a turn ends, the flows a host can hold,
    and that a checkpoint read back is the flow it was taken from. *)

From Stdlib Require Import ZArith Lia Strings.Byte Strings.String.
From stdpp Require Import base decidable countable list gmap.
From S2P Require Import Prelude GoText GoBinary GoJson Errors KeyedRecovery AccountAgent.

Local Open Scope Z_scope.
Local Open Scope go_scope.

(** ** Turns *)

Definition turn_board (input : CommandContext) (b : AgentBoard) : AgentBoard :=
  end_pending input (begin_pending input (remember_pending (count_transition b))).
Definition turn_decision (input : CommandContext) (b : AgentBoard) : TransitionDecision :=
  let b' := turn_board input b in
  Decide input (bd_TransitionCount b') (bd_WasPending b') (bd_PendingTarget b') (bd_PendingAmount b').

(** A flow between turns: fresh, or suspended after its yield. *)
Record flow_ready (f : AgentFlow) : Prop := {
  fr_completed : fl_completed f = false;
  fr_state : fl_started f = true → fl_currentState f = 0;
  fr_instruction : fl_started f = true → fl_instruction f = 0 ∨ fl_instruction f = 5 }.

Definition flow_after (f : AgentFlow) (input : CommandContext) : AgentFlow :=
  {| fl_started := true; fl_completed := false; fl_currentState := 0; fl_instruction := 5;
     fl_lastYield := turn_decision input (fl_board f); fl_hasYield := true; fl_owner := fl_owner f;
     fl_board := turn_board input (fl_board f) |}.

Lemma octStep_ready f input : flow_ready f → octStep f input = (flow_after f input, Some Suspend).
Proof.
  intros [Hc Hs Hi]. unfold octStep. rewrite Hc. destruct f as [st co cu ins la hy ow b].
  cbn [fl_started fl_completed fl_currentState fl_instruction fl_owner fl_board fl_lastYield fl_hasYield] in *. subst co.
  destruct st; [|reflexivity]. rewrite (Hs eq_refl). by destruct (Hi eq_refl) as [-> | ->].
Qed.

Lemma flow_after_ready f input : flow_ready (flow_after f input).
Proof. split; cbn; auto. Qed.
Lemma new_flow_ready owner : flow_ready (new_flow owner).
Proof. by split. Qed.

Lemma Step_ready f input : flow_ready f → Step f input = (flow_after f input, None).
Proof. intros H. unfold Step. by rewrite octStep_ready. Qed.

(** Splits a [Forall] over an explicit list, as a goal and as a hypothesis. *)
Ltac foralls := repeat (apply Forall_cons_2; [try done|]); try apply Forall_nil_2.
Ltac forall_in H := repeat (apply Forall_cons in H as [? H]); clear H.

(** ** Integers in JSON *)

Lemma parse_int64_dec_i64 v : i64_range v → parse_int64 (dec v) = Some v.
Proof.
  intros Hv. unfold i64_range in Hv. destruct (Z.ltb_spec v 0) as [Hn|Hp]; [|apply parse_int64_dec; lia].
  pose proof (parse_uint64_dec (- v) ltac:(unfold u64_range; lia)) as E.
  unfold dec in E |- *. rewrite (proj2 (Z.ltb_ge (- v) 0)) in E by lia. rewrite (proj2 (Z.ltb_lt v 0)) by lia.
  cbn [parse_int64]. rewrite E. cbn [mbind option_bind]. rewrite (proj2 (Z.leb_le (- v) (2 ^ 63))) by lia. f_equal. lia.
Qed.

(** ** Checkpoints in JSON *)

Definition nominal_ok (x : nominal) : Prop := i64_range (nm_Tag x) ∧ nm_Payload x = JNull.
Definition board_ok (b : AgentBoard) : Prop :=
  i64_range (bd_TransitionCount b) ∧ i64_range (bd_PendingTarget b) ∧ i64_range (bd_PendingAmount b).
Definition decision_ok (d : TransitionDecision) : Prop :=
  nominal_ok (td_Reason d) ∧ nominal_ok (td_Effect d) ∧ nominal_ok (td_NewStatus d)
  ∧ Forall i64_range [td_AccountA d; td_AccountB d; td_Amount d; td_NewBalanceA d; td_NewBalanceB d; td_ExpectedVersionA d;
                      td_ExpectedVersionB d; td_TransitionCount d].
Record payload_ok (p : CheckpointPayload) : Prop := {
  po_ints : Forall i64_range [cp_Version p; cp_Instruction p; cp_Parameterowner p];
  po_strs : Forall (λ s, utf8_valid s = true)
    [cp_Package p; cp_Flow p; cp_Fingerprint p; cp_BoardSchema p; cp_ConstructionSchema p; cp_UtilitySchema p;
     cp_YieldSchema p; cp_CurrentState p];
  po_board : board_ok (cp_Board p);
  po_yield : decision_ok (cp_LastYield p) }.

(** Decodes the members of an encoded struct one by one. *)
Ltac decode_members member :=
  cbn [fold_members]; unfold member; cbn [fst snd]; eval_fields;
  repeat (cbn [into_int into_bool into_str mbind option_bind]; rewrite ?parse_int64_dec_i64 by done).

Lemma nominal_roundtrip x y : nominal_ok x → into_nominal y (norm (nominal_json x)) = Some x.
Proof.
  intros [Ht Hp]. destruct x as [t p], y as [t' p']. cbn [nm_Tag nm_Payload] in *. subst p.
  unfold nominal_json, into_nominal, into_struct. cbn [norm map fst snd nm_Tag nm_Payload].
  decode_members nominal_member. done.
Qed.

Lemma board_roundtrip b b' : board_ok b → into_struct board_member b' (norm (board_json b)) = Some b.
Proof.
  intros (H1&H2&H3). destruct b as [c p w t a], b' as [c' p' w' t' a']. cbn [bd_TransitionCount bd_PendingTarget bd_PendingAmount] in *.
  unfold board_json, into_struct. cbn [norm map fst snd bd_TransitionCount bd_Pending bd_WasPending bd_PendingTarget bd_PendingAmount].
  decode_members board_member. done.
Qed.

Lemma decision_roundtrip d d' : decision_ok d → into_struct decision_member d' (norm (decision_json d)) = Some d.
Proof.
  intros (H1&H2&H3&H4). destruct d as [ok r e a b n x y s va vb c], d' as [ok' r' e' a' b' n' x' y' s' va' vb' c'].
  cbn [td_Reason td_Effect td_NewStatus td_AccountA td_AccountB td_Amount td_NewBalanceA td_NewBalanceB td_ExpectedVersionA
    td_ExpectedVersionB td_TransitionCount] in *.
  forall_in H4. unfold decision_json, into_struct.
  cbn [td_Accepted td_Reason td_Effect td_NewStatus td_AccountA td_AccountB td_Amount td_NewBalanceA td_NewBalanceB
    td_ExpectedVersionA td_ExpectedVersionB td_TransitionCount].
  pose proof (λ z, nominal_roundtrip r z H1) as E1. pose proof (λ z, nominal_roundtrip e z H2) as E2.
  pose proof (λ z, nominal_roundtrip s z H3) as E3. revert E1 E2 E3.
  generalize (nominal_json r), (nominal_json e), (nominal_json s). intros jr je js E1 E2 E3. cbn [norm map fst snd].
  decode_members decision_member. rewrite E1. cbn [mbind option_bind]. rewrite E2. cbn [mbind option_bind].
  repeat (cbn [into_int into_bool into_str mbind option_bind]; rewrite ?parse_int64_dec_i64 by done).
  rewrite E3. repeat (cbn [into_int into_bool into_str mbind option_bind]; rewrite ?parse_int64_dec_i64 by done). done.
Qed.

Lemma payload_member_roundtrip p : payload_ok p → into_struct payload_member zeroPayload (norm (payload_json p)) = Some p.
Proof.
  intros [H1 H2 H3 H4]. destruct p as [v k f g bo co ut yi cu i ow b l h].
  cbn [cp_Version cp_Package cp_Flow cp_Fingerprint cp_BoardSchema cp_ConstructionSchema cp_UtilitySchema cp_YieldSchema
    cp_CurrentState cp_Instruction cp_Parameterowner cp_Board cp_LastYield] in *.
  forall_in H1. forall_in H2. unfold payload_json, into_struct, zeroPayload.
  cbn [cp_Version cp_Package cp_Flow cp_Fingerprint cp_BoardSchema cp_ConstructionSchema cp_UtilitySchema cp_YieldSchema
    cp_CurrentState cp_Instruction cp_Parameterowner cp_Board cp_LastYield cp_HasYield].
  pose proof (λ z, board_roundtrip b z H3) as E1. pose proof (λ z, decision_roundtrip l z H4) as E2. revert E1 E2.
  generalize (board_json b), (decision_json l). intros jb jl E1 E2. cbn [norm map fst snd].
  rewrite (utf8_coerce_valid k), (utf8_coerce_valid f), (utf8_coerce_valid g), (utf8_coerce_valid bo), (utf8_coerce_valid co),
    (utf8_coerce_valid ut), (utf8_coerce_valid yi), (utf8_coerce_valid cu) by done.
  decode_members payload_member. rewrite E1. cbn [mbind option_bind]. rewrite E2. cbn [mbind option_bind into_bool]. done.
Qed.

Lemma nominal_json_shape x : nominal_ok x → nums_ok (nominal_json x) ∧ depth (nominal_json x) = 1%nat.
Proof. intros [_ E]. unfold nominal_json. rewrite E. cbn. eauto. Qed.

Lemma payload_json_shape p : payload_ok p → nums_ok (payload_json p) ∧ (depth (payload_json p) ≤ 3)%nat.
Proof.
  intros [_ _ _ (H1&H2&H3&_)]. apply nominal_json_shape in H1 as [N1 D1], H2 as [N2 D2], H3 as [N3 D3].
  unfold payload_json, board_json, decision_json. revert N1 D1 N2 D2 N3 D3.
  generalize (nominal_json (td_Reason (cp_LastYield p))), (nominal_json (td_Effect (cp_LastYield p))),
    (nominal_json (td_NewStatus (cp_LastYield p))). intros j1 j2 j3 N1 D1 N2 D2 N3 D3.
  split; [cbn; eauto 60|]. cbn. rewrite D1, D2, D3. lia.
Qed.

Lemma unmarshal_marshal_payload p : payload_ok p → unmarshal_payload (marshal_payload p) = Ok p.
Proof.
  intros H. destruct (payload_json_shape p H) as [Hn Hd]. unfold unmarshal_payload, marshal_payload.
  rewrite parse_print by (done || (apply max_nesting_ge; lia)). cbn [mbind option_bind].
  by rewrite payload_member_roundtrip.
Qed.

(** ** The flows a host can hold *)

Definition status_ok (x : nominal) : Prop := 0 ≤ nm_Tag x ≤ AccountStatus_Frozen_tag ∧ nm_Payload x = JNull.
Record context_ok (c : CommandContext) : Prop := {
  co_ints : Forall i64_range [cc_AccountA c; cc_AccountB c; cc_Amount c; cc_BalanceA c; cc_BalanceB c; cc_VersionA c; cc_VersionB c];
  co_status : status_ok (cc_StatusA c) }.

(** What a decision of the agent looks like: tags within their types, no payload. *)
Record decision_shape (d : TransitionDecision) : Prop := {
  ds_reason : 0 ≤ nm_Tag (td_Reason d) ≤ DecisionReason_InvalidWorkflow_tag ∧ nm_Payload (td_Reason d) = JNull;
  ds_effect : 0 ≤ nm_Tag (td_Effect d) ≤ EffectKind_SetStatus_tag ∧ nm_Payload (td_Effect d) = JNull;
  ds_status : status_ok (td_NewStatus d);
  ds_ints : Forall i64_range [td_AccountA d; td_AccountB d; td_Amount d; td_NewBalanceA d; td_NewBalanceB d; td_ExpectedVersionA d;
                              td_ExpectedVersionB d; td_TransitionCount d] }.

Lemma decision_shape_ok d : decision_shape d → decision_ok d.
Proof.
  intros [[H1 E1] [H2 E2] [H3 E3] H4]. split_and!; [| | |done]; split; try done;
    unfold i64_range, DecisionReason_InvalidWorkflow_tag, EffectKind_SetStatus_tag, AccountStatus_Frozen_tag in *; lia.
Qed.

Lemma agent_decision_shape c ok r e x y s count :
  context_ok c → 0 ≤ r ≤ DecisionReason_InvalidWorkflow_tag → 0 ≤ e ≤ EffectKind_SetStatus_tag → i64_range x → i64_range y →
  status_ok s → i64_range count → decision_shape (agent_decision c ok (of_tag r) (of_tag e) x y s count).
Proof.
  intros [Hi Hs] Hr He Hx Hy Hst Hc. forall_in Hi. split; [done..|foralls].
Qed.

Lemma refuse_shape c count r :
  context_ok c → i64_range count → 0 ≤ r ≤ DecisionReason_InvalidWorkflow_tag → decision_shape (refuse c count r).
Proof.
  intros Hc Hn Hr. pose proof Hc as [Hi Hs]. forall_in Hi. apply agent_decision_shape; try done; unfold EffectKind_None_tag, EffectKind_SetStatus_tag; lia.
Qed.

Lemma accept_shape c count r e x y s :
  context_ok c → i64_range count → 0 ≤ r ≤ DecisionReason_InvalidWorkflow_tag → 0 ≤ e ≤ EffectKind_SetStatus_tag →
  i64_range x → i64_range y → status_ok s → decision_shape (accept c count r e x y s).
Proof. intros. by apply agent_decision_shape. Qed.

Lemma of_tag_status t : 0 ≤ t ≤ AccountStatus_Frozen_tag → status_ok (of_tag t).
Proof. done. Qed.

(** Each branch of a decision has the shape of a decision. *)
Ltac branch_shape :=
  repeat match goal with
  | |- ∀ d, (if ?b then Some _ else _) = Some d → _ => destruct b
  | |- ∀ d, None = Some d → _ => intros ? [=]
  | |- ∀ d, Some _ = Some d → _ => intros ? [= <-]
  end;
  first [apply refuse_shape | apply accept_shape]; try apply i64_bound; try apply of_tag_status; try done;
  vm_compute; split; discriminate.

Lemma decide_account_shape c count code :
  context_ok c → i64_range count → ∀ d, decide_account c count code = Some d → decision_shape d.
Proof. intros Hc Hn. pose proof Hc as [Hi Hs]. forall_in Hi. unfold decide_account. branch_shape. Qed.
Lemma decide_move_shape c count code :
  context_ok c → i64_range count → ∀ d, decide_move c count code = Some d → decision_shape d.
Proof. intros Hc Hn. pose proof Hc as [Hi Hs]. forall_in Hi. unfold decide_move. branch_shape. Qed.
Lemma decide_status_shape c count code :
  context_ok c → i64_range count → ∀ d, decide_status c count code = Some d → decision_shape d.
Proof. intros Hc Hn. pose proof Hc as [Hi Hs]. forall_in Hi. unfold decide_status. branch_shape. Qed.

Lemma Decide_shape c count was target amount :
  context_ok c → i64_range count → decision_shape (Decide c count was target amount).
Proof.
  intros Hc Hn. unfold Decide. generalize (DecideCode c was target amount). intros code.
  destruct (decide_account c count code) eqn:E1; [by eapply decide_account_shape|].
  destruct (decide_move c count code) eqn:E2; [by eapply decide_move_shape|].
  destruct (decide_status c count code) eqn:E3; [by eapply decide_status_shape|]. by apply refuse_shape.
Qed.

Record flow_ok (f : AgentFlow) : Prop := {
  fo_ready : flow_ready f;
  fo_owner : i64_range (fl_owner f);
  fo_board : board_ok (fl_board f);
  fo_yield : decision_shape (fl_lastYield f) }.

Lemma zeroDecision_shape : decision_shape zeroDecision.
Proof. split; [by vm_compute..|foralls; by vm_compute]. Qed.

Lemma new_flow_ok owner : i64_range owner → flow_ok (new_flow owner).
Proof. split; [apply new_flow_ready|done|by vm_compute|apply zeroDecision_shape]. Qed.

Lemma turn_board_ok input b : context_ok input → board_ok b → board_ok (turn_board input b).
Proof.
  intros [Hi _] (H1&H2&H3). forall_in Hi. unfold turn_board, end_pending, begin_pending, count_transition.
  repeat case_match; (split_and!; cbn; [apply i64_bound| |]; done).
Qed.

Lemma flow_after_ok f input : context_ok input → flow_ok f → flow_ok (flow_after f input).
Proof.
  intros Hc [H1 H2 H3 H4]. pose proof (turn_board_ok input _ Hc H3) as Hb. split; [apply flow_after_ready|done|done|].
  cbn [flow_after fl_lastYield]. unfold turn_decision. apply Decide_shape; [done|apply Hb].
Qed.

(** ** Taking and restoring checkpoints *)

(** A flow that has yielded and is suspended. *)
Definition suspended (f : AgentFlow) : Prop :=
  fl_started f = true ∧ fl_hasYield f = true ∧ fl_instruction f = 5.

Lemma flow_after_suspended f input : suspended (flow_after f input).
Proof. done. Qed.

Lemma flow_payload_ok f : flow_ok f → suspended f → payload_ok (flow_payload f).
Proof.
  intros [[Hc Hs _] Ho Hb Hy] (Hst&Hh&Hi). split.
  - unfold flow_payload. cbn. rewrite Hi. foralls; by vm_compute.
  - unfold flow_payload, octActive. cbn -[utf8_valid]. rewrite Hst, Hc, (Hs Hst). foralls; by vm_compute.
  - done.
  - by apply decision_shape_ok.
Qed.

Lemma restore_flow_payload f : flow_ok f → suspended f → restore_payload (flow_payload f) = Ok f.
Proof.
  intros [[Hc Hs _] _ _ _] (Hst&Hh&Hi). destruct f as [st co cu ins la hy ow b].
  cbn [fl_started fl_completed fl_currentState fl_instruction fl_hasYield] in *. subst. rewrite (Hs eq_refl). reflexivity.
Qed.

Lemma Checkpoint_suspended f : flow_ok f → suspended f → Checkpoint f = Ok (marshal_payload (flow_payload f)).
Proof. intros [[Hc _ _] _ _ _] (_&Hh&_). unfold Checkpoint. by rewrite Hc, Hh. Qed.

Lemma RestoreAccountAgent_checkpoint f :
  flow_ok f → suspended f → RestoreAccountAgent (marshal_payload (flow_payload f)) = Ok f.
Proof.
  intros H Hs. unfold RestoreAccountAgent. rewrite unmarshal_marshal_payload by by apply flow_payload_ok.
  by apply restore_flow_payload.
Qed.
