(* ===== verification/AgentDelta.v ===== *)
(** * Deltas between checkpoints ([internal/model/account_agent_delta.go])

    The change between two yielded frontiers of an account agent as bytes: a
    40-byte header with the hash of the checkpoint it starts from and a mask of
    the fields that follow, the export and the application of a delta, and the
    durable facade that remembers the committed frontier. *)

From Stdlib Require Import ZArith Lia Strings.Byte Strings.String.
From stdpp Require Import base decidable countable list gmap.
From S2P Require Import Prelude GoText GoBinary GoVarint GoJson Errors AccountAgent.

Local Open Scope Z_scope.
Local Open Scope go_scope.

Definition accountAgentDeltaVersion : Z := 1.
Definition accountAgentDeltaMagic : bytes := bs "OFD1".

Definition deltaState : Z := Z.shiftl 1 0.
Definition deltaInstruction : Z := Z.shiftl 1 1.
Definition deltaTransitionCount : Z := Z.shiftl 1 2.
Definition deltaPending : Z := Z.shiftl 1 3.
Definition deltaWasPending : Z := Z.shiftl 1 4.
Definition deltaPendingTarget : Z := Z.shiftl 1 5.
Definition deltaPendingAmount : Z := Z.shiftl 1 6.
Definition deltaLastYield : Z := Z.shiftl 1 7.
Definition deltaHasYield : Z := Z.shiftl 1 8.
Definition deltaKnown : Z :=
  foldl Z.lor 0 [deltaState; deltaInstruction; deltaTransitionCount; deltaPending; deltaWasPending; deltaPendingTarget;
                 deltaPendingAmount; deltaLastYield; deltaHasYield].

(** [flags&bit != 0]. *)
Definition has (flags bit : Z) : bool := negb (Z.land flags bit =? 0).

(** [data[38:40]] and the checks of the header. *)
Definition delta_flags (data : bytes) : Z := be_get (take 2 (drop 38 data)).
Definition byte_at (data : bytes) (i : nat) : Z := bval (default x00 (data !! i)).

Definition ParseAccountAgentDelta (data : bytes) : res agent_error bytes :=
  let! _ := guard_err (Nat.ltb (length data) 40 || negb (bool_decide (take 4 data = accountAgentDeltaMagic)))
              (EDelta "flow delta: invalid header") in
  let! _ := guard_err (negb (byte_at data 4 =? accountAgentDeltaVersion))
              (EDeltaValue "flow delta: unsupported version" (byte_at data 4)) in
  let! _ := guard_err (negb (byte_at data 5 =? 1))
              (EDeltaValue "flow delta: unknown feature layout" (byte_at data 5)) in
  let unknown := Z.land (delta_flags data) (2 ^ 16 - 1 - deltaKnown) in
  let! _ := guard_err (negb (unknown =? 0)) (EDeltaValue "flow delta: unknown field mask" unknown) in
  Ok data.

(** ** Fields *)

Definition put_bool (v : bool) : bytes := [if v then x01 else x00].
Definition read_byte (r : bytes) : res agent_error (byte * bytes) :=
  match r with [] => Err (ETruncated err_eof) | b :: r => Ok (b, r) end.
Definition read_bool (r : bytes) : res agent_error (bool * bytes) :=
  let! (b, r) := read_byte r in
  let! _ := guard_err (1 <? bval b) (EDeltaValue "flow delta: invalid bool" (bval b)) in
  Ok (bval b =? 1, r).
Definition truncated {A} (m : res gerror A) : res agent_error A :=
  match m with Ok a => Ok a | Err e => Err (ETruncated e) end.

Definition validateDecisionShape (d : TransitionDecision) : res agent_error unit :=
  let outside t top := (t <? 0) || (top <? t) in
  let! _ := guard_err (negb (is_nil (nm_Payload (td_Reason d))) || negb (is_nil (nm_Payload (td_Effect d)))
                       || negb (is_nil (nm_Payload (td_NewStatus d)))) (EDelta "flow delta: unsupported nominal payload") in
  let! _ := guard_err (outside (nm_Tag (td_Reason d)) DecisionReason_InvalidWorkflow_tag)
              (EDeltaValue "flow delta: invalid reason tag" (nm_Tag (td_Reason d))) in
  let! _ := guard_err (outside (nm_Tag (td_Effect d)) EffectKind_SetStatus_tag)
              (EDeltaValue "flow delta: invalid effect tag" (nm_Tag (td_Effect d))) in
  guard_err (outside (nm_Tag (td_NewStatus d)) AccountStatus_Frozen_tag)
    (EDeltaValue "flow delta: invalid status tag" (nm_Tag (td_NewStatus d))).

Definition encodeDecision (d : TransitionDecision) : bytes :=
  put_bool (td_Accepted d) ++
  concat (map put_varint
    [nm_Tag (td_Reason d); nm_Tag (td_Effect d); td_AccountA d; td_AccountB d; td_Amount d; td_NewBalanceA d;
     td_NewBalanceB d; nm_Tag (td_NewStatus d); td_ExpectedVersionA d; td_ExpectedVersionB d; td_TransitionCount d]).

Fixpoint read_varints (n : nat) (r : bytes) : res agent_error (list Z * bytes) :=
  match n with
  | O => Ok ([], r)
  | S n => let! (v, r) := truncated (read_varint r) in let! (l, r) := read_varints n r in Ok (v :: l, r)
  end.

Definition decodeDecision (r : bytes) : res agent_error (TransitionDecision * bytes) :=
  let! (accepted, r) := read_bool r in
  let! (values, r) := read_varints 11 r in
  let v i := default 0 (values !! i) in
  let d := {| td_Accepted := accepted; td_Reason := of_tag (v 0%nat); td_Effect := of_tag (v 1%nat); td_AccountA := v 2%nat;
              td_AccountB := v 3%nat; td_Amount := v 4%nat; td_NewBalanceA := v 5%nat; td_NewBalanceB := v 6%nat;
              td_NewStatus := of_tag (v 7%nat); td_ExpectedVersionA := v 8%nat; td_ExpectedVersionB := v 9%nat;
              td_TransitionCount := v 10%nat |} in
  let! _ := validateDecisionShape d in Ok (d, r).

(** ** Equality of decisions *)

(** [==] on values of type [any]: two slices or two maps cannot be compared, which
    panics; that is [None]. *)
Definition any_equal (x y : json) : option bool :=
  match x, y with
  | JNull, JNull => Some true
  | JBool a, JBool b => Some (Bool.eqb a b)
  | JNum a, JNum b | JStr a, JStr b => Some (bool_decide (a = b))
  | JArr _, JArr _ | JObj _, JObj _ => None
  | _, _ => Some false
  end.

(** Fields are compared in order until two differ. *)
Definition and_then (a b : option bool) : option bool := match a with Some true => b | a => a end.
Definition nominal_equal (x y : nominal) : option bool :=
  and_then (Some (nm_Tag x =? nm_Tag y)) (any_equal (nm_Payload x) (nm_Payload y)).
Definition decision_equal (d e : TransitionDecision) : option bool :=
  let same (f : TransitionDecision → Z) := Some (f d =? f e) in
  foldr and_then (Some true)
    [Some (Bool.eqb (td_Accepted d) (td_Accepted e)); nominal_equal (td_Reason d) (td_Reason e);
     nominal_equal (td_Effect d) (td_Effect e); same td_AccountA; same td_AccountB; same td_Amount; same td_NewBalanceA;
     same td_NewBalanceB; nominal_equal (td_NewStatus d) (td_NewStatus e); same td_ExpectedVersionA;
     same td_ExpectedVersionB; same td_TransitionCount].

(** ** Export *)

Definition checkedAccountAgentPayload (cp : bytes) : res agent_error CheckpointPayload :=
  let! p := unmarshal_payload cp in
  let! _ := RestoreAccountAgent cp in
  let! _ := validateDecisionShape (cp_LastYield p) in
  Ok p.

Definition flag_if (changed : bool) (bit : Z) : Z := if changed then bit else 0.
Definition opt_bytes (changed : bool) (b : bytes) : bytes := if changed then b else [].

(** The mask of the fields that differ, given whether the last yields do. *)
Definition changed_flags (prev cur : CheckpointPayload) (yield_changed : bool) : Z :=
  let pb := cp_Board prev in let cb := cp_Board cur in
  foldl Z.lor 0
    [flag_if (negb (bool_decide (cp_CurrentState prev = cp_CurrentState cur))) deltaState;
     flag_if (negb (cp_Instruction prev =? cp_Instruction cur)) deltaInstruction;
     flag_if (negb (bd_TransitionCount pb =? bd_TransitionCount cb)) deltaTransitionCount;
     flag_if (negb (Bool.eqb (bd_Pending pb) (bd_Pending cb))) deltaPending;
     flag_if (negb (Bool.eqb (bd_WasPending pb) (bd_WasPending cb))) deltaWasPending;
     flag_if (negb (bd_PendingTarget pb =? bd_PendingTarget cb)) deltaPendingTarget;
     flag_if (negb (bd_PendingAmount pb =? bd_PendingAmount cb)) deltaPendingAmount;
     flag_if yield_changed deltaLastYield;
     flag_if (negb (Bool.eqb (cp_HasYield prev) (cp_HasYield cur))) deltaHasYield].

Definition delta_header (from : bytes) (flags : Z) : bytes :=
  accountAgentDeltaMagic ++ [byte_of accountAgentDeltaVersion] ++ [x01] ++ from ++ be_put 2 flags.

(** The fields of the mask, in order. *)
Definition delta_body (flags : Z) (cur : CheckpointPayload) : bytes :=
  let b := cp_Board cur in
  opt_bytes (has flags deltaState) [x00] ++
  opt_bytes (has flags deltaInstruction) (put_uvarint (u64 (cp_Instruction cur))) ++
  opt_bytes (has flags deltaTransitionCount) (put_varint (bd_TransitionCount b)) ++
  opt_bytes (has flags deltaPending) (put_bool (bd_Pending b)) ++
  opt_bytes (has flags deltaWasPending) (put_bool (bd_WasPending b)) ++
  opt_bytes (has flags deltaPendingTarget) (put_varint (bd_PendingTarget b)) ++
  opt_bytes (has flags deltaPendingAmount) (put_varint (bd_PendingAmount b)) ++
  opt_bytes (has flags deltaLastYield) (encodeDecision (cp_LastYield cur)) ++
  opt_bytes (has flags deltaHasYield) (put_bool (cp_HasYield cur)).

Definition exportAccountAgentPayloadDelta (prev cur : CheckpointPayload) (from : bytes) : res agent_error bytes :=
  let! _ := guard_err (negb (cp_Parameterowner prev =? cp_Parameterowner cur))
              (EDelta "flow delta: construction parameter changed") in
  match decision_equal (cp_LastYield prev) (cp_LastYield cur) with
  | None => Err (EPanic "runtime error: comparing uncomparable type")
  | Some same =>
      let flags := changed_flags prev cur (negb same) in
      let! _ := guard_err (has flags deltaState && negb (bool_decide (cp_CurrentState cur = bs "Active")))
                  (EDelta "flow delta: unknown state") in
      Ok (delta_header from flags ++ delta_body flags cur)
  end.

Definition zero_hash : bytes := replicate 32 x00.

Definition ExportAccountAgentDelta (previous : option bytes) (current : bytes) : res agent_error bytes :=
  let! cur := checkedAccountAgentPayload current in
  match previous with
  | None => exportAccountAgentPayloadDelta (initialAccountAgentPayload (cp_Parameterowner cur)) cur zero_hash
  | Some previous =>
      let! prev := checkedAccountAgentPayload previous in
      let! _ := guard_err (negb (cp_Parameterowner prev =? cp_Parameterowner cur))
                  (EDelta "flow delta: construction parameter changed") in
      exportAccountAgentPayloadDelta prev cur (sha256 previous)
  end.

(** ** Application *)

Definition with_state (p : CheckpointPayload) (v : bytes) : CheckpointPayload :=
  let '(Build_CheckpointPayload a b c d e f g h _ i o w l y) := p in Build_CheckpointPayload a b c d e f g h v i o w l y.
Definition with_instruction (p : CheckpointPayload) (v : Z) : CheckpointPayload :=
  let '(Build_CheckpointPayload a b c d e f g h s _ o w l y) := p in Build_CheckpointPayload a b c d e f g h s v o w l y.
Definition with_board (p : CheckpointPayload) (v : AgentBoard) : CheckpointPayload :=
  let '(Build_CheckpointPayload a b c d e f g h s i o _ l y) := p in Build_CheckpointPayload a b c d e f g h s i o v l y.
Definition with_yield (p : CheckpointPayload) (v : TransitionDecision) : CheckpointPayload :=
  let '(Build_CheckpointPayload a b c d e f g h s i o w _ y) := p in Build_CheckpointPayload a b c d e f g h s i o w v y.
Definition with_has (p : CheckpointPayload) (v : bool) : CheckpointPayload :=
  let '(Build_CheckpointPayload a b c d e f g h s i o w l _) := p in Build_CheckpointPayload a b c d e f g h s i o w l v.
Definition with_count (p : CheckpointPayload) (v : Z) : CheckpointPayload :=
  let '(Build_AgentBoard _ q w t a) := cp_Board p in with_board p (Build_AgentBoard v q w t a).
Definition with_pending (p : CheckpointPayload) (v : bool) : CheckpointPayload :=
  let '(Build_AgentBoard c _ w t a) := cp_Board p in with_board p (Build_AgentBoard c v w t a).
Definition with_was (p : CheckpointPayload) (v : bool) : CheckpointPayload :=
  let '(Build_AgentBoard c q _ t a) := cp_Board p in with_board p (Build_AgentBoard c q v t a).
Definition with_target (p : CheckpointPayload) (v : Z) : CheckpointPayload :=
  let '(Build_AgentBoard c q w _ a) := cp_Board p in with_board p (Build_AgentBoard c q w v a).
Definition with_amount (p : CheckpointPayload) (v : Z) : CheckpointPayload :=
  let '(Build_AgentBoard c q w t _) := cp_Board p in with_board p (Build_AgentBoard c q w t v).

Definition read_state (r : bytes) : res agent_error (bytes * bytes) :=
  let! (state, r) := read_byte r in
  let! _ := guard_err (negb (bval state =? 0)) (EDeltaValue "flow delta: unknown state ID" (bval state)) in
  Ok (bs "Active", r).
Definition read_instruction (r : bytes) : res agent_error (Z * bytes) :=
  let! (v, r) := truncated (read_uvarint r) in Ok (i64 v, r).

(** A field of the mask: read and stored when its bit is set. *)
Definition field {A} (flags bit : Z) (read : bytes → res agent_error (A * bytes))
    (store : CheckpointPayload → A → CheckpointPayload) (s : CheckpointPayload * bytes)
    : res agent_error (CheckpointPayload * bytes) :=
  if has flags bit then let! (v, r) := read s.2 in Ok (store s.1 v, r) else Ok s.

Definition apply_fields (flags : Z) (p : CheckpointPayload) (r : bytes) : res agent_error (CheckpointPayload * bytes) :=
  let! s := field flags deltaState read_state with_state (p, r) in
  let! s := field flags deltaInstruction read_instruction with_instruction s in
  let! s := field flags deltaTransitionCount (fun r => truncated (read_varint r)) with_count s in
  let! s := field flags deltaPending read_bool with_pending s in
  let! s := field flags deltaWasPending read_bool with_was s in
  let! s := field flags deltaPendingTarget (fun r => truncated (read_varint r)) with_target s in
  let! s := field flags deltaPendingAmount (fun r => truncated (read_varint r)) with_amount s in
  let! s := field flags deltaLastYield decodeDecision with_yield s in
  field flags deltaHasYield read_bool with_has s.

(** The payload a delta starts from. *)
Definition delta_base (previous : option bytes) (owner : Z) (want : bytes) : res agent_error CheckpointPayload :=
  match previous with
  | Some previous =>
      let! p := checkedAccountAgentPayload previous in
      let! _ := guard_err (negb (bool_decide (sha256 previous = want)))
                  (EDelta "flow delta: prior checkpoint identity mismatch") in
      Ok p
  | None =>
      let! _ := guard_err (negb (bool_decide (want = zero_hash))) (EDelta "flow delta: missing prior checkpoint") in
      Ok (initialAccountAgentPayload owner)
  end.

Definition ApplyAccountAgentDelta (previous : option bytes) (owner : Z) (delta : bytes) : res agent_error bytes :=
  let! data := ParseAccountAgentDelta delta in
  let! p := delta_base previous owner (take 32 (drop 6 data)) in
  let! _ := guard_err (negb (cp_Parameterowner p =? owner)) (EDelta "flow delta: construction parameter mismatch") in
  let! (p, r) := apply_fields (delta_flags data) p (drop 40 data) in
  let! _ := guard_err (negb (bool_decide (r = []))) (EDelta "flow delta: trailing bytes") in
  let cp := marshal_payload p in
  let! _ := RestoreAccountAgent cp in
  Ok cp.

(** ** The durable facade *)

Record DurableAccountAgent := {
  da_machine : AgentFlow; da_committed : CheckpointPayload; da_committedHash : bytes }.

Definition NewDurableAccountAgent (owner : Z) : DurableAccountAgent :=
  {| da_machine := new_flow owner; da_committed := initialAccountAgentPayload owner; da_committedHash := zero_hash |}.

Definition RestoreDurableAccountAgent (checkpoint : bytes) : res agent_error DurableAccountAgent :=
  let! machine := RestoreAccountAgent checkpoint in
  let! payload := checkedAccountAgentPayload checkpoint in
  Ok {| da_machine := machine; da_committed := payload; da_committedHash := sha256 checkpoint |}.

Definition DurableStep (m : DurableAccountAgent) (input : CommandContext) : DurableAccountAgent * option agent_error :=
  let (f, err) := Step (da_machine m) input in
  ({| da_machine := f; da_committed := da_committed m; da_committedHash := da_committedHash m |}, err).

Definition ExportDelta (m : DurableAccountAgent) : res agent_error bytes :=
  if fl_completed (da_machine m) || negb (fl_hasYield (da_machine m))
  then Err (ECheckpoint NotAtYield (bs "delta export requires a yielded machine"))
  else exportAccountAgentPayloadDelta (da_committed m) (flow_payload (da_machine m)) (da_committedHash m).

Definition AcceptCommitted (m : DurableAccountAgent) (checkpoint : bytes) : res agent_error DurableAccountAgent :=
  if fl_completed (da_machine m) || negb (fl_hasYield (da_machine m))
  then Err (ECheckpoint NotAtYield (bs "commit acceptance requires a yielded machine"))
  else Ok {| da_machine := da_machine m; da_committed := flow_payload (da_machine m); da_committedHash := sha256 checkpoint |}.
