(* ===== verification/AgentDeltaLemmas.v ===== *)
(** * Lemmas on deltas

    Each field of a delta read back, the mask of the fields, and that applying
    an exported delta to the payload it was exported from gives the payload it
    was exported to. *)

From Stdlib Require Import ZArith Lia Strings.Byte Strings.String.
From stdpp Require Import base decidable countable list gmap.
From S2P Require Import Prelude GoText GoBinary GoVarint GoJson Errors AccountAgent AgentLemmas AgentDelta.

Local Open Scope Z_scope.
Local Open Scope go_scope.

(** ** Fields *)

Lemma read_put_bool b rest : read_bool (put_bool b ++ rest) = Ok (b, rest).
Proof. by destruct b. Qed.

Lemma read_varints_put l rest :
  Forall i64_range l → read_varints (length l) (concat (map put_varint l) ++ rest) = Ok (l, rest).
Proof.
  induction 1 as [|v l Hv Hl IH]; [done|]. cbn [length map concat read_varints]. rewrite <- app_assoc, read_put_varint by done.
  cbn [truncated res_bind]. by rewrite IH.
Qed.

Lemma validate_shape d : decision_shape d → validateDecisionShape d = Ok tt.
Proof.
  intros [[H1 E1] [H2 E2] [H3 E3] _]. unfold validateDecisionShape. rewrite E1, E2, E3. cbn [is_nil negb orb guard_err res_bind].
  assert (∀ t top, 0 ≤ t ≤ top → (t <? 0) || (top <? t) = false) as Hin by (intros; apply orb_false_iff; lia).
  rewrite !Hin by done. done.
Qed.

(** What [validateDecisionShape] accepts has the tags of a decision. *)
Lemma validate_shape_inv d : validateDecisionShape d = Ok tt →
  Forall i64_range [td_AccountA d; td_AccountB d; td_Amount d; td_NewBalanceA d; td_NewBalanceB d; td_ExpectedVersionA d;
                    td_ExpectedVersionB d; td_TransitionCount d] → decision_shape d.
Proof.
  unfold validateDecisionShape, guard_err. intros H Hi.
  destruct (_ || _ || _) eqn:E1 in H; [done|]. cbn [res_bind] in H. destruct (_ || _) eqn:E2 in H; [done|]. cbn [res_bind] in H.
  destruct (_ || _) eqn:E3 in H; [done|]. cbn [res_bind] in H. destruct (_ || _) eqn:E4 in H; [done|].
  apply orb_false_iff in E1 as [E1 P3], E2 as [A1 B1], E3 as [A2 B2], E4 as [A3 B3]. apply orb_false_iff in E1 as [P1 P2].
  assert (∀ j, negb (is_nil j) = false → j = JNull) as Hnil by (by intros []).
  split; [split; [lia|by apply Hnil]..|done].
Qed.

Lemma nominal_tag x : nm_Payload x = JNull → of_tag (nm_Tag x) = x.
Proof. destruct x; cbn; by intros ->. Qed.

Lemma decode_encode_decision d rest : decision_shape d → decodeDecision (encodeDecision d ++ rest) = Ok (d, rest).
Proof.
  intros Hd. pose proof (validate_shape d Hd) as Hv. pose proof (decision_shape_ok d Hd) as ([T1 P1]&[T2 P2]&[T3 P3]&Hi).
  forall_in Hi. unfold decodeDecision, encodeDecision. rewrite <- app_assoc, read_put_bool. cbn [res_bind].
  pose proof (read_varints_put [nm_Tag (td_Reason d); nm_Tag (td_Effect d); td_AccountA d; td_AccountB d; td_Amount d; td_NewBalanceA d;
     td_NewBalanceB d; nm_Tag (td_NewStatus d); td_ExpectedVersionA d; td_ExpectedVersionB d; td_TransitionCount d] rest) as E.
  cbn [length] in E. rewrite E by foralls. cbn -[validateDecisionShape of_tag]. rewrite !nominal_tag by done.
  destruct d as [ok r e a b n x y s va vb c]. cbn -[validateDecisionShape]. by rewrite Hv.
Qed.

(** ** Equality of decisions *)

Lemma and_then_true a b : and_then (Some a) (Some b) = Some (a && b).
Proof. by destruct a. Qed.

Lemma nominal_equal_nil x y : nm_Payload x = JNull → nm_Payload y = JNull → nominal_equal x y = Some (nm_Tag x =? nm_Tag y).
Proof. intros E1 E2. unfold nominal_equal. rewrite E1, E2. cbn [any_equal]. by rewrite and_then_true, andb_true_r. Qed.

Lemma decision_equal_shape d e : decision_shape d → decision_shape e → ∃ b, decision_equal d e = Some b ∧ (b = true → d = e).
Proof.
  intros [[_ P1] [_ P2] [_ P3] _] [[_ Q1] [_ Q2] [_ Q3] _]. unfold decision_equal. rewrite !nominal_equal_nil by done.
  cbn [foldr]. rewrite !and_then_true. eexists. split; [done|]. destruct d as [d1 [d2 p2] [d3 p3] d4 d5 d6 d7 d8 [d9 p9] d10 d11 d12], e as [e1 [e2 q2] [e3 q3] e4 e5 e6 e7 e8 [e9 q9] e10 e11 e12].
  cbn [td_Accepted td_Reason td_Effect td_NewStatus td_AccountA td_AccountB td_Amount td_NewBalanceA td_NewBalanceB
    td_ExpectedVersionA td_ExpectedVersionB td_TransitionCount nm_Tag nm_Payload] in *. subst.
  rewrite !andb_true_iff, !Z.eqb_eq, Bool.eqb_true_iff. intros (?&?&?&?&?&?&?&?&?&?&?&?&_). by subst.
Qed.

(** ** The mask *)

Lemma flag_bits b1 b2 b3 b4 b5 b6 b7 b8 b9 :
  let flags := foldl Z.lor 0 [flag_if b1 deltaState; flag_if b2 deltaInstruction; flag_if b3 deltaTransitionCount;
    flag_if b4 deltaPending; flag_if b5 deltaWasPending; flag_if b6 deltaPendingTarget; flag_if b7 deltaPendingAmount;
    flag_if b8 deltaLastYield; flag_if b9 deltaHasYield] in
  (has flags deltaState = b1 ∧ has flags deltaInstruction = b2 ∧ has flags deltaTransitionCount = b3
   ∧ has flags deltaPending = b4 ∧ has flags deltaWasPending = b5 ∧ has flags deltaPendingTarget = b6
   ∧ has flags deltaPendingAmount = b7 ∧ has flags deltaLastYield = b8 ∧ has flags deltaHasYield = b9)
  ∧ 0 ≤ flags < 512 ∧ Z.land flags (2 ^ 16 - 1 - deltaKnown) = 0.
Proof. destruct b1, b2, b3, b4, b5, b6, b7, b8, b9; vm_compute; split_and!; done. Qed.

(** ** Applying what was exported *)

(** A payload a delta may lead to: a checkpoint of a yielded flow. *)
Record frontier_ok (p : CheckpointPayload) : Prop := {
  fp_restores : is_ok (restore_payload p) = true;
  fp_ok : payload_ok p;
  fp_shape : decision_shape (cp_LastYield p) }.

(** The fields no delta carries. *)
Definition same_constants (p q : CheckpointPayload) : Prop :=
  cp_Version p = cp_Version q ∧ cp_Package p = cp_Package q ∧ cp_Flow p = cp_Flow q ∧ cp_Fingerprint p = cp_Fingerprint q
  ∧ cp_BoardSchema p = cp_BoardSchema q ∧ cp_ConstructionSchema p = cp_ConstructionSchema q
  ∧ cp_UtilitySchema p = cp_UtilitySchema q ∧ cp_YieldSchema p = cp_YieldSchema q ∧ cp_Parameterowner p = cp_Parameterowner q.

Lemma guard_err_inv {A B} (b : bool) (e : A) (m : res A B) (k : B) :
  (let! _ := guard_err b e in m) = Ok k → b = false ∧ m = Ok k.
Proof. by destruct b. Qed.

(** What [RestoreAccountAgent] checks. *)
Lemma restore_payload_inv p f : restore_payload p = Ok f →
  same_constants p (initialAccountAgentPayload (cp_Parameterowner p)) ∧ cp_HasYield p = true ∧ cp_CurrentState p = bs "Active"
  ∧ 0 ≤ cp_Instruction p ≤ 6.
Proof.
  unfold restore_payload. intros H. do 8 (apply guard_err_inv in H as [? H]).
  unfold AgentStateID in H. case_bool_decide as Ea; [|done]. apply guard_err_inv in H as [Hc _]. unfold ContinuationValid in Hc.
  repeat match goal with
  | H : negb (bool_decide _) = false |- _ => apply negb_false_iff, bool_decide_eq_true in H
  | H : negb _ || negb _ = false |- _ => apply orb_false_iff in H as [??]
  | H : negb _ = false |- _ => apply negb_false_iff in H
  end. split_and!; try done; try lia. unfold same_constants. split_and!; try done. cbn. lia.
Qed.

Lemma restore_payload_flow p f : restore_payload p = Ok f →
  f = {| fl_started := true; fl_completed := false; fl_currentState := 0; fl_instruction := cp_Instruction p;
         fl_lastYield := cp_LastYield p; fl_hasYield := cp_HasYield p; fl_owner := cp_Parameterowner p; fl_board := cp_Board p |}.
Proof.
  unfold restore_payload. intros H. do 8 (apply guard_err_inv in H as [_ H]).
  unfold AgentStateID in H. case_bool_decide; [|done]. by apply guard_err_inv in H as [_ [= <-]].
Qed.

Lemma frontier_inv p : frontier_ok p →
  same_constants p (initialAccountAgentPayload (cp_Parameterowner p)) ∧ cp_HasYield p = true ∧ cp_CurrentState p = bs "Active"
  ∧ 0 ≤ cp_Instruction p ≤ 6.
Proof. intros [H _ _]. destruct (restore_payload p) eqn:E; [|done]. by eapply restore_payload_inv. Qed.

Lemma field_read {A} flags bit b read (store : CheckpointPayload → A → CheckpointPayload) v enc p rest :
  has flags bit = b → (b = true → read (enc ++ rest) = Ok (v, rest)) → (b = false → store p v = p) →
  field flags bit read store (p, opt_bytes (has flags bit) enc ++ rest) = Ok (store p v, rest).
Proof.
  intros Hb Hr Hs. unfold field. rewrite Hb. destruct b; cbn [opt_bytes fst snd].
  - by rewrite Hr.
  - cbn [app]. by rewrite Hs.
Qed.

Lemma neq_false_Z (x y : Z) : negb (x =? y) = false → x = y.
Proof. lia. Qed.
Lemma neq_false_bool (x y : bool) : negb (Bool.eqb x y) = false → x = y.
Proof. by destruct x, y. Qed.

Lemma read_state_zero rest : read_state ([x00] ++ rest) = Ok (bs "Active", rest).
Proof. done. Qed.

Lemma read_instruction_put v rest : 0 ≤ v ≤ 6 → read_instruction (put_uvarint (u64 v) ++ rest) = Ok (v, rest).
Proof.
  intros Hv. unfold read_instruction. rewrite read_put_uvarint by apply u64_bound. cbn [truncated res_bind].
  rewrite u64_id by (unfold u64_range; lia). rewrite i64_id by (unfold i64_range; lia). done.
Qed.

Lemma read_varint_put v rest : i64_range v → truncated (read_varint (put_varint v ++ rest)) = Ok (v, rest).
Proof. intros Hv. by rewrite read_put_varint. Qed.

Lemma changed_flags_bits prev cur y :
  let flags := changed_flags prev cur y in let pb := cp_Board prev in let cb := cp_Board cur in
  (has flags deltaState = negb (bool_decide (cp_CurrentState prev = cp_CurrentState cur))
   ∧ has flags deltaInstruction = negb (cp_Instruction prev =? cp_Instruction cur)
   ∧ has flags deltaTransitionCount = negb (bd_TransitionCount pb =? bd_TransitionCount cb)
   ∧ has flags deltaPending = negb (Bool.eqb (bd_Pending pb) (bd_Pending cb))
   ∧ has flags deltaWasPending = negb (Bool.eqb (bd_WasPending pb) (bd_WasPending cb))
   ∧ has flags deltaPendingTarget = negb (bd_PendingTarget pb =? bd_PendingTarget cb)
   ∧ has flags deltaPendingAmount = negb (bd_PendingAmount pb =? bd_PendingAmount cb)
   ∧ has flags deltaLastYield = y ∧ has flags deltaHasYield = negb (Bool.eqb (cp_HasYield prev) (cp_HasYield cur)))
  ∧ 0 ≤ flags < 512 ∧ Z.land flags (2 ^ 16 - 1 - deltaKnown) = 0.
Proof. cbv zeta. apply flag_bits. Qed.

Lemma with_all prev cur :
  same_constants prev cur →
  let b := cp_Board cur in
  with_has (with_yield (with_amount (with_target (with_was (with_pending (with_count (with_instruction
    (with_state prev (cp_CurrentState cur)) (cp_Instruction cur)) (bd_TransitionCount b)) (bd_Pending b)) (bd_WasPending b))
    (bd_PendingTarget b)) (bd_PendingAmount b)) (cp_LastYield cur)) (cp_HasYield cur) = cur.
Proof.
  intros (E1&E2&E3&E4&E5&E6&E7&E8&E9).
  destruct prev as [v k f g bo co ut yi cu i ow [pc pp pw pt pa] l h], cur as [v' k' f' g' bo' co' ut' yi' cu' i' ow' [pc' pp' pw' pt' pa'] l' h'].
  cbn in *. by subst.
Qed.

(** Storing the value a payload already has. *)
Ltac store_same prev cur H :=
  destruct prev as [v k f g bo co ut yi cu i ow [pc pp pw pt pa] l h]; cbn in *; first [apply neq_false_Z in H | apply neq_false_bool in H]; by subst.

Lemma apply_export_fields prev cur y :
  same_constants prev cur → frontier_ok cur →
  (y = false → cp_LastYield prev = cp_LastYield cur) →
  apply_fields (changed_flags prev cur y) prev (delta_body (changed_flags prev cur y) cur) = Ok (cur, []).
Proof.
  intros Hc Hf Hy. destruct (frontier_inv cur Hf) as (_&_&Ha&Hi). destruct Hf as [_ [_ _ (C1&C2&C3) _] Hd].
  destruct (changed_flags_bits prev cur y) as [(F1&F2&F3&F4&F5&F6&F7&F8&F9) _].
  revert F1 F2 F3 F4 F5 F6 F7 F8 F9. generalize (changed_flags prev cur y). intros flags F1 F2 F3 F4 F5 F6 F7 F8 F9.
  rewrite <- (with_all prev cur Hc) at 2. unfold apply_fields, delta_body. cbv zeta. rewrite <- (app_nil_r (opt_bytes (has flags deltaHasYield) _)).
  rewrite (field_read _ _ _ read_state with_state (cp_CurrentState cur) _ _ _ F1); [|by rewrite Ha|].
  2:{ intros E. apply negb_false_iff, bool_decide_eq_true in E. destruct prev; cbn in *; by subst. }
  cbn [res_bind]. rewrite (field_read _ _ _ read_instruction with_instruction (cp_Instruction cur) _ _ _ F2); [|by intros; apply read_instruction_put|].
  2:{ intros E. store_same prev cur E. }
  cbn [res_bind]. rewrite (field_read _ _ _ _ with_count (bd_TransitionCount (cp_Board cur)) _ _ _ F3); [|by intros; apply read_varint_put|intros E; store_same prev cur E].
  cbn [res_bind]. rewrite (field_read _ _ _ read_bool with_pending (bd_Pending (cp_Board cur)) _ _ _ F4); [|by intros; apply read_put_bool|intros E; store_same prev cur E].
  cbn [res_bind]. rewrite (field_read _ _ _ read_bool with_was (bd_WasPending (cp_Board cur)) _ _ _ F5); [|by intros; apply read_put_bool|intros E; store_same prev cur E].
  cbn [res_bind]. rewrite (field_read _ _ _ _ with_target (bd_PendingTarget (cp_Board cur)) _ _ _ F6); [|by intros; apply read_varint_put|intros E; store_same prev cur E].
  cbn [res_bind]. rewrite (field_read _ _ _ _ with_amount (bd_PendingAmount (cp_Board cur)) _ _ _ F7); [|by intros; apply read_varint_put|intros E; store_same prev cur E].
  cbn [res_bind]. rewrite (field_read _ _ _ decodeDecision with_yield (cp_LastYield cur) _ _ _ F8); [|by intros; apply decode_encode_decision|].
  2:{ intros E. apply Hy in E. destruct prev as [v k f g bo co ut yi cu i ow [pc pp pw pt pa] l h]; cbn in *; by subst. }
  cbn [res_bind]. apply (field_read _ _ _ read_bool with_has (cp_HasYield cur) _ _ _ F9); [by intros; apply read_put_bool|].
  intros E. store_same prev cur E.
Qed.

(** ** Headers *)

Lemma delta_header_length from flags : length from = 32%nat → length (delta_header from flags) = 40%nat.
Proof. intros H. unfold delta_header. rewrite !length_app, H, be_put_length. done. Qed.

Lemma delta_header_flags from flags body :
  length from = 32%nat → 0 ≤ flags < 512 → delta_flags (delta_header from flags ++ body) = flags.
Proof.
  intros Hf Hr. unfold delta_flags, delta_header.
  rewrite !app_assoc, <- (app_assoc _ (be_put 2 flags) body), drop_app_length' by (rewrite !length_app, Hf; done).
  rewrite take_app_length' by by rewrite be_put_length. apply be_get_put. change (256 ^ Z.of_nat 2) with 65536. lia.
Qed.

Lemma delta_header_from from flags body :
  length from = 32%nat → take 32 (drop 6 (delta_header from flags ++ body)) = from.
Proof.
  intros Hf. unfold delta_header. rewrite <- !app_assoc. rewrite (app_assoc accountAgentDeltaMagic), (app_assoc (_ ++ _)), drop_app_length' by done.
  by rewrite take_app_length'.
Qed.

Lemma parse_delta from flags body :
  length from = 32%nat → 0 ≤ flags < 512 → Z.land flags (2 ^ 16 - 1 - deltaKnown) = 0 →
  ParseAccountAgentDelta (delta_header from flags ++ body) = Ok (delta_header from flags ++ body).
Proof.
  intros Hf Hr Hk. unfold ParseAccountAgentDelta. rewrite delta_header_flags, Hk by done.
  rewrite length_app, delta_header_length by done. rewrite (proj2 (Nat.ltb_ge (40 + length body) 40)) by lia. reflexivity.
Qed.

(** ** What decoding gives *)

Lemma parse_uint64_range l v : parse_uint64 l = Some v → 0 ≤ v < 2 ^ 64.
Proof.
  unfold parse_uint64. destruct l; [done|]. destruct (digits_value 0 _) as [n|]; [|done]. cbn [mbind option_bind].
  case_match eqn:E; [|done]. intros [= <-]. lia.
Qed.

Lemma parse_int64_range l v : parse_int64 l = Some v → i64_range v.
Proof.
  unfold i64_range. intros H. assert ((∃ w, 0 ≤ w ≤ 2 ^ 63 ∧ v = - w) ∨ 0 ≤ v < 2 ^ 63) as [(w&?&->)|?]; [|lia..].
  destruct l as [|b l]; [done|]. unfold parse_int64 in H.
  destruct (Byte.eqb b x2d) eqn:Eb.
  - apply Byte.byte_dec_bl in Eb as ->. destruct (parse_uint64 l) as [w|] eqn:Ew; [|done]. cbn [mbind option_bind] in H.
    apply parse_uint64_range in Ew. case_match eqn:E; [|done]. simplify_eq. left. exists w. lia.
  - assert ((w ← parse_uint64 (b :: l); if w <? 2 ^ 63 then Some w else None) = Some v) as H' by (destruct b; done). clear H.
    destruct (parse_uint64 (b :: l)) as [w|] eqn:Ew; [|done]. cbn [mbind option_bind] in H'. apply parse_uint64_range in Ew.
    case_match eqn:E; [|done]. simplify_eq. right. lia.
Qed.

Lemma into_int_range old j v : i64_range old → into_int old j = Some v → i64_range v.
Proof. destruct j; cbn; try done; [congruence|]. intros _. apply parse_int64_range. Qed.

Lemma fold_members_inv {A} (P : A → Prop) (f : A → bytes * json → option A) l a a' :
  (∀ a m a', P a → f a m = Some a' → P a') → P a → fold_members f a l = Some a' → P a'.
Proof.
  intros Hf. revert a. induction l as [|m l IH]; intros a Ha H; cbn in H; [by simplify_eq|].
  destruct (f a m) as [a1|] eqn:E; [|done]. cbn in H. eauto.
Qed.

Lemma into_struct_inv {A} (P : A → Prop) (f : A → bytes * json → option A) a j a' :
  (∀ a m a', P a → f a m = Some a' → P a') → P a → into_struct f a j = Some a' → P a'.
Proof. intros Hf Ha H. destruct j; cbn in H; simplify_eq; try done. by eapply fold_members_inv. Qed.

Definition decision_ints (d : TransitionDecision) : Prop :=
  Forall i64_range [td_AccountA d; td_AccountB d; td_Amount d; td_NewBalanceA d; td_NewBalanceB d; td_ExpectedVersionA d;
                    td_ExpectedVersionB d; td_TransitionCount d].
Definition payload_ints (p : CheckpointPayload) : Prop :=
  Forall i64_range [cp_Version p; cp_Instruction p; cp_Parameterowner p] ∧ board_ok (cp_Board p) ∧ decision_ints (cp_LastYield p).

(** Goes through the fields a member may name. *)
Ltac member_cases H :=
  repeat match type of H with
  | (if ?b then _ else _) = Some _ => destruct b
  | (_ ≫= _) = Some _ => apply bind_Some in H as (?&?&H)
  end; simplify_eq.

#[local] Opaque is_field.

Lemma board_member_ints b m b' : board_ok b → board_member b m = Some b' → board_ok b'.
Proof.
  destruct b as [c p w t a]. intros (H1&H2&H3) H. cbn in H1, H2, H3. unfold board_member in H.
  member_cases H; (unfold board_ok; split_and!; cbn [bd_TransitionCount bd_PendingTarget bd_PendingAmount]; first [assumption|eapply into_int_range; [|eassumption]; assumption]).
Qed.

Lemma decision_member_ints d m d' : decision_ints d → decision_member d m = Some d' → decision_ints d'.
Proof.
  destruct d as [ok r e a b n x y s va vb c]. unfold decision_ints. intros Hi H. cbn in Hi. forall_in Hi. unfold decision_member in H.
  member_cases H; cbn; foralls; by eapply into_int_range; [|done].
Qed.

Lemma payload_member_ints p m p' : payload_ints p → payload_member p m = Some p' → payload_ints p'.
Proof.
  destruct p as [v k f g bo co ut yi cu i ow b l h]. intros (Hi&Hb&Hl) H. cbn in Hi. forall_in Hi. unfold payload_member in H.
  cbn in Hb, Hl.
  member_cases H; (split; [cbn; foralls; by eapply into_int_range; [|done]|split; cbn; try done]).
  - eapply into_struct_inv; [apply board_member_ints| |]; done.
  - eapply into_struct_inv; [apply decision_member_ints| |]; done.
Qed.

Lemma unmarshal_ints data p : unmarshal_payload data = Ok p → payload_ints p.
Proof.
  unfold unmarshal_payload. destruct (parse data) as [j|]; cbn [mbind option_bind]; [|done].
  destruct (into_struct payload_member zeroPayload j) as [q|] eqn:E; [|done]. intros [= ->].
  eapply into_struct_inv; [apply payload_member_ints| |done]. split_and!; [foralls; by vm_compute|by vm_compute|]. unfold decision_ints. foralls; by vm_compute.
Qed.

Lemma checked_frontier cp p : checkedAccountAgentPayload cp = Ok p → frontier_ok p ∧ is_ok (RestoreAccountAgent cp) = true.
Proof.
  unfold checkedAccountAgentPayload, RestoreAccountAgent. destruct (unmarshal_payload cp) as [q|] eqn:E; [|done]. cbn [res_bind].
  destruct (restore_payload q) as [f|] eqn:Er; [|done]. cbn [res_bind].
  destruct (validateDecisionShape (cp_LastYield q)) as [[]|] eqn:Ev; [|done]. cbn [res_bind]. intros [= ->]. split; [|done].
  destruct (unmarshal_ints cp p E) as (Hi&Hb&Hl). pose proof (validate_shape_inv _ Ev Hl) as Hd.
  destruct (restore_payload_inv p f Er) as ((E1&E2&E3&E4&E5&E6&E7&E8&_)&_&E9&_). split; [by rewrite Er| |done]. split; [done| |done|by apply decision_shape_ok].
  rewrite E2, E3, E4, E5, E6, E7, E8, E9. foralls; by vm_compute.
Qed.

(** A checkpoint written from a frontier is read back as that frontier. *)
Lemma frontier_checked p : frontier_ok p → checkedAccountAgentPayload (marshal_payload p) = Ok p.
Proof.
  intros [Hr Ho Hd]. unfold checkedAccountAgentPayload, RestoreAccountAgent. rewrite unmarshal_marshal_payload by done. cbn [res_bind].
  destruct (restore_payload p); [|done]. cbn [res_bind]. by rewrite validate_shape.
Qed.

(** ** Deltas between frontiers *)

Definition base_ok (prev : CheckpointPayload) : Prop := frontier_ok prev ∨ ∃ owner, prev = initialAccountAgentPayload owner.

Lemma base_shape prev : base_ok prev →
  decision_shape (cp_LastYield prev) ∧ same_constants prev (initialAccountAgentPayload (cp_Parameterowner prev)).
Proof.
  intros [H|(owner&->)]; [|split; [apply zeroDecision_shape|done]].
  split; [apply H|]. by destruct (frontier_inv prev H).
Qed.

Lemma export_payload prev cur from :
  base_ok prev → frontier_ok cur → cp_Parameterowner prev = cp_Parameterowner cur → length from = 32%nat →
  ∃ flags, exportAccountAgentPayloadDelta prev cur from = Ok (delta_header from flags ++ delta_body flags cur)
    ∧ 0 ≤ flags < 512 ∧ Z.land flags (2 ^ 16 - 1 - deltaKnown) = 0 ∧ apply_fields flags prev (delta_body flags cur) = Ok (cur, []).
Proof.
  intros Hp Hc Ho Hl. destruct (base_shape prev Hp) as [Sp Kp]. destruct (frontier_inv cur Hc) as (Kc&_&Ha&_).
  destruct (decision_equal_shape _ _ Sp (fp_shape cur Hc)) as (b&Eb&Hb). unfold exportAccountAgentPayloadDelta.
  rewrite Ho, Z.eqb_refl. cbn [negb guard_err res_bind]. rewrite Eb.
  exists (changed_flags prev cur (negb b)). destruct (changed_flags_bits prev cur (negb b)) as (_&Hr&Hk).
  split; [|split_and!; [lia..|done|]].
  - rewrite Ha, bool_decide_true by done. cbn [negb]. by rewrite andb_false_r.
  - apply apply_export_fields; [|done|by intros ?%negb_false_iff%Hb].
    unfold same_constants in *. rewrite Ho in Kp. destruct Kp as (->&->&->&->&->&->&->&->&?), Kc as (->&->&->&->&->&->&->&->&?). done.
Qed.

Lemma apply_delta previous owner prev cur from flags :
  length from = 32%nat → 0 ≤ flags < 512 → Z.land flags (2 ^ 16 - 1 - deltaKnown) = 0 →
  apply_fields flags prev (delta_body flags cur) = Ok (cur, []) → frontier_ok cur →
  delta_base previous owner from = Ok prev → cp_Parameterowner prev = owner →
  ApplyAccountAgentDelta previous owner (delta_header from flags ++ delta_body flags cur) = Ok (marshal_payload cur).
Proof.
  intros Hl Hr Hk Hf Hc Hb Ho. unfold ApplyAccountAgentDelta. rewrite parse_delta by done. cbn [res_bind].
  rewrite delta_header_from, Hb by done. cbn [res_bind]. rewrite Ho, Z.eqb_refl. cbn [negb guard_err res_bind].
  rewrite delta_header_flags, drop_app_length' by (done || by rewrite delta_header_length). rewrite Hf. cbn [res_bind].
  rewrite bool_decide_true by done. cbn [negb guard_err res_bind].
  destruct (checked_frontier (marshal_payload cur) cur (frontier_checked cur Hc)) as [_ Hr2].
  destruct (RestoreAccountAgent (marshal_payload cur)); done.
Qed.

Lemma sha_length l : length (sha256 l) = 32%nat.
Proof. apply sha256_length. Qed.

(** A previous checkpoint, or none, with the payload it stands for. *)
Definition prior (previous : option bytes) (owner : Z) (prev : CheckpointPayload) : Prop :=
  match previous with
  | None => prev = initialAccountAgentPayload owner
  | Some cp => checkedAccountAgentPayload cp = Ok prev ∧ cp_Parameterowner prev = owner
  end.
Definition prior_hash (previous : option bytes) : bytes := match previous with None => zero_hash | Some cp => sha256 cp end.

Lemma prior_hash_length previous : length (prior_hash previous) = 32%nat.
Proof. destruct previous; [apply sha_length|done]. Qed.

Lemma prior_base previous owner prev : prior previous owner prev →
  base_ok prev ∧ cp_Parameterowner prev = owner ∧ delta_base previous owner (prior_hash previous) = Ok prev.
Proof.
  destruct previous as [cp|]; cbn [prior prior_hash delta_base].
  - intros [H Ho]. split; [left; by destruct (checked_frontier cp prev H)|]. split; [done|]. rewrite H. cbn [res_bind].
    by rewrite bool_decide_true.
  - intros ->. split; [right; by eexists|]. split; [done|]. by rewrite bool_decide_true.
Qed.

Lemma export_apply previous owner prev cur :
  prior previous owner prev → frontier_ok cur → cp_Parameterowner cur = owner →
  ∃ d, exportAccountAgentPayloadDelta prev cur (prior_hash previous) = Ok d
    ∧ take 32 (drop 6 d) = prior_hash previous ∧ ParseAccountAgentDelta d = Ok d
    ∧ ApplyAccountAgentDelta previous owner d = Ok (marshal_payload cur).
Proof.
  intros Hp Hc Ho. destruct (prior_base _ _ _ Hp) as (Hb&Hpo&Hd). pose proof (prior_hash_length previous) as Hl.
  destruct (export_payload prev cur _ Hb Hc ltac:(congruence) Hl) as (flags&E&Hr&Hk&Ha).
  eexists. split; [done|]. split; [by apply delta_header_from|]. split; [by apply parse_delta|]. by eapply apply_delta.
Qed.
