(* ===== verification/AgentTheorems.v ===== *)
(** * Theorems on the account agent

    Turns end, checkpoints resume, deltas between checkpoints are exact and bound
    to the checkpoint they start from, and a chain of committed deltas rebuilds
    the agent that wrote them. *)

From Stdlib Require Import ZArith Lia Strings.Byte Strings.String.
From stdpp Require Import base decidable countable list gmap.
From S2P Require Import Prelude GoText GoBinary GoVarint GoJson Errors AccountAgent AgentLemmas AgentDelta AgentDeltaLemmas.

Local Open Scope Z_scope.
Local Open Scope go_scope.

(** ** Runs *)

(** Turns one after the other, as a host drives the facade. *)
Definition turn (f : AgentFlow) (c : CommandContext) : res agent_error AgentFlow :=
  match Step f c with (f, None) => Ok f | (_, Some e) => Err e end.
Definition turns (f : AgentFlow) (cs : list CommandContext) : res agent_error AgentFlow := res_fold turn f cs.

(** A turn of the durable facade that commits: the delta for the log, the
    checkpoint, and the agent with its frontier advanced. *)
Definition durable_turn (m : DurableAccountAgent) (c : CommandContext)
    : res agent_error (bytes * bytes * DurableAccountAgent) :=
  match DurableStep m c with
  | (_, Some e) => Err e
  | (m, None) =>
      let! cp := Checkpoint (da_machine m) in
      let! d := ExportDelta m in
      let! m := AcceptCommitted m cp in
      Ok (d, cp, m)
  end.

(** The deltas a run of committed turns leaves in the log. *)
Fixpoint durable_turns (m : DurableAccountAgent) (cs : list CommandContext)
    : res agent_error (list bytes * DurableAccountAgent) :=
  match cs with
  | [] => Ok ([], m)
  | c :: cs => let! (t, m) := durable_turn m c in let! (ds, m) := durable_turns m cs in Ok (t.1 :: ds, m)
  end.

(** Recovery of one agent: each delta applied to the checkpoint before it. *)
Definition recover_deltas (owner : Z) (previous : option bytes) (ds : list bytes) : res agent_error (option bytes) :=
  res_fold (fun previous d => let! cp := ApplyAccountAgentDelta previous owner d in Ok (Some cp)) previous ds.

Lemma turns_ok f cs : flow_ok f → Forall context_ok cs →
  ∃ f', turns f cs = Ok f' ∧ flow_ok f' ∧ (cs = [] → f' = f) ∧ (cs ≠ [] → suspended f') ∧ fl_owner f' = fl_owner f.
Proof.
  intros Hf Hc. revert f Hf. induction Hc as [|c cs Hc Hcs IH]; intros f Hf; [by exists f|].
  unfold turns, turn. cbn [res_fold]. rewrite Step_ready by apply Hf. cbn [res_bind].
  destruct (IH (flow_after f c) (flow_after_ok _ _ Hc Hf)) as (f'&E&Ho&Hn&Hs&Hw). unfold turns, turn in E. rewrite E.
  exists f'. split_and!; try done. intros _. destruct cs; [rewrite Hn by done; apply flow_after_suspended|by apply Hs].
Qed.

(** ** Chains of deltas *)

(** The agent after a committed turn, or before the first: its frontier is the
    checkpoint the log leads to. *)
Inductive committed_at (owner : Z) : option bytes → DurableAccountAgent → Prop :=
| committed_fresh : committed_at owner None (NewDurableAccountAgent owner)
| committed_turn f : flow_ok f → suspended f → fl_owner f = owner →
    committed_at owner (Some (marshal_payload (flow_payload f)))
      {| da_machine := f; da_committed := flow_payload f; da_committedHash := sha256 (marshal_payload (flow_payload f)) |}.

Lemma flow_frontier f : flow_ok f → suspended f → frontier_ok (flow_payload f).
Proof.
  intros Hf Hs. split; [by rewrite restore_flow_payload|by apply flow_payload_ok|apply Hf].
Qed.

Lemma committed_prior owner previous m : i64_range owner → committed_at owner previous m →
  prior previous owner (da_committed m) ∧ da_committedHash m = prior_hash previous ∧ flow_ok (da_machine m)
  ∧ fl_owner (da_machine m) = owner.
Proof.
  intros Hw. destruct 1 as [|f Hf Hs Ho]; cbn [da_committed da_machine da_committedHash NewDurableAccountAgent prior prior_hash].
  - split_and!; try done. by apply new_flow_ok.
  - split_and!; try done. by apply frontier_checked, flow_frontier.
Qed.

(** The parts of a turn that commits. *)
Lemma durable_parts owner previous m c : i64_range owner → committed_at owner previous m → context_ok c →
  let f := flow_after (da_machine m) c in
  let m1 := {| da_machine := f; da_committed := da_committed m; da_committedHash := da_committedHash m |} in
  let cp := marshal_payload (flow_payload f) in
  DurableStep m c = (m1, None) ∧ Checkpoint f = Ok cp
  ∧ ∃ d m', ExportDelta m1 = Ok d ∧ ParseAccountAgentDelta d = Ok d ∧ ApplyAccountAgentDelta previous owner d = Ok cp
    ∧ AcceptCommitted m1 cp = Ok m' ∧ committed_at owner (Some cp) m' ∧ da_machine m' = f.
Proof.
  intros Hw Hm Hc f m1 cp. destruct (committed_prior _ _ _ Hw Hm) as (Hp&Hh&Hf&Ho). pose proof (flow_after_ok _ _ Hc Hf) as Hf'.
  pose proof (flow_after_suspended (da_machine m) c) as Hs. split; [unfold DurableStep; by rewrite Step_ready by apply Hf|].
  split; [by apply Checkpoint_suspended|].
  destruct (export_apply previous owner (da_committed m) (flow_payload f)) as (d&E&_&Hpd&Ha);
    [done|by apply flow_frontier|done|].
  exists d, {| da_machine := f; da_committed := flow_payload f; da_committedHash := sha256 cp |}.
  unfold ExportDelta. cbn [da_machine m1 f flow_after fl_completed fl_hasYield negb orb da_committed da_committedHash].
  rewrite Hh. split_and!; [exact E|done|done|done| |done]. by constructor.
Qed.

Lemma durable_turn_ok owner previous m c : i64_range owner → committed_at owner previous m → context_ok c →
  ∃ d cp m', durable_turn m c = Ok (d, cp, m') ∧ committed_at owner (Some cp) m'
    ∧ ApplyAccountAgentDelta previous owner d = Ok cp ∧ da_machine m' = flow_after (da_machine m) c.
Proof.
  intros Hw Hm Hc. destruct (durable_parts _ _ _ _ Hw Hm Hc) as (E1&E2&d&m'&E3&_&Ha&E4&Hm'&Ef).
  unfold durable_turn. rewrite E1. cbn [da_machine]. rewrite E2. cbn [res_bind]. rewrite E3. cbn [res_bind]. rewrite E4. cbn [res_bind].
  by do 3 eexists.
Qed.

Lemma durable_turns_ok owner previous m cs : i64_range owner → committed_at owner previous m → Forall context_ok cs →
  ∃ ds m' previous', durable_turns m cs = Ok (ds, m') ∧ recover_deltas owner previous ds = Ok previous'
    ∧ committed_at owner previous' m' ∧ length ds = length cs ∧ turns (da_machine m) cs = Ok (da_machine m').
Proof.
  intros Hw Hm Hc. revert previous m Hm. induction Hc as [|c cs Hc Hcs IH]; intros previous m Hm; [by exists [], m, previous|].
  destruct (durable_turn_ok _ _ _ _ Hw Hm Hc) as (d&cp&m1&E&Hm1&Ha&Hf). destruct (IH _ _ Hm1) as (ds&m'&p'&Ed&Er&Hm'&Hn&Ht).
  exists (d :: ds), m', p'. cbn [durable_turns]. rewrite E. cbn [res_bind fst]. rewrite Ed. cbn [res_bind].
  split; [done|]. split; [unfold recover_deltas; cbn [res_fold]; rewrite Ha; cbn [res_bind]; done|]. split; [done|].
  split; [cbn; lia|]. destruct (committed_prior _ _ _ Hw Hm) as (_&_&Hfl&_). unfold turns, turn. cbn [res_fold].
  rewrite Step_ready by apply Hfl. cbn [res_bind]. by rewrite <- Hf.
Qed.

Lemma committed_restores owner previous m : committed_at owner previous m →
  match previous with None => m = NewDurableAccountAgent owner | Some cp => RestoreDurableAccountAgent cp = Ok m end.
Proof.
  destruct 1 as [|f Hf Hs Ho]; [done|]. unfold RestoreDurableAccountAgent. rewrite RestoreAccountAgent_checkpoint by done.
  cbn [res_bind]. by rewrite frontier_checked by by apply flow_frontier.
Qed.

(** ** Claims *)

(** A fresh agent takes any sequence of commands with 64-bit
    fields without an error; if there was at least one, the checkpoint taken then,
    decoded from its JSON, restores the very flow it was taken from, so every later
    turn of the restored agent is the turn of the original. *)
Theorem agent_resumes (owner : Z) (cs : list CommandContext) :
  i64_range owner → Forall context_ok cs → cs ≠ [] →
  ∃ f cp, turns (new_flow owner) cs = Ok f ∧ Checkpoint f = Ok cp ∧ ParseAccountAgentCheckpoint cp = Ok cp
    ∧ RestoreAccountAgent cp = Ok f.
Proof.
  intros Hw Hc Hn. destruct (turns_ok _ _ (new_flow_ok _ Hw) Hc) as (f&E&Hf&_&Hs&_). specialize (Hs Hn).
  exists f, (marshal_payload (flow_payload f)). split_and!; [done|by apply Checkpoint_suspended| |by apply RestoreAccountAgent_checkpoint].
  unfold ParseAccountAgentCheckpoint. by rewrite unmarshal_marshal_payload by by apply flow_payload_ok.
Qed.

(** C27: over any sequence of committed turns the durable agent
    exports one delta a turn, and applying the deltas in order from nothing gives
    a checkpoint that restores exactly the running agent: its flow, its committed
    frontier and the hash of that frontier. *)
Theorem deltas_rebuild (owner : Z) (cs : list CommandContext) :
  i64_range owner → Forall context_ok cs → cs ≠ [] →
  ∃ ds m cp, durable_turns (NewDurableAccountAgent owner) cs = Ok (ds, m) ∧ length ds = length cs
    ∧ recover_deltas owner None ds = Ok (Some cp) ∧ RestoreDurableAccountAgent cp = Ok m.
Proof.
  intros Hw Hc Hn. destruct (durable_turns_ok owner None _ cs Hw (committed_fresh owner) Hc) as (ds&m&p&E&Er&Hm&Hl&Ht).
  pose proof (committed_restores _ _ _ Hm) as Hr. destruct p as [cp|]; [by exists ds, m, cp|]. exfalso.
  destruct (turns_ok _ _ (new_flow_ok _ Hw) Hc) as (f&E'&_&_&Hs&_). rewrite Hr in Ht. cbn in Ht. rewrite E' in Ht.
  injection Ht as ->. by destruct (Hs Hn).
Qed.

(** The delta between two checkpoints of one agent, applied to the
    first, gives the second in canonical form - the same bytes when it was written
    by the codec; and no other base takes it: a checkpoint with another hash is
    refused as such, and the empty base unless the hash is all zeros. *)
Theorem delta_exact (previous : option bytes) (current : bytes) (owner : Z) (prev cur : CheckpointPayload) :
  prior previous owner prev → checkedAccountAgentPayload current = Ok cur → cp_Parameterowner cur = owner →
  ∃ d, ExportAccountAgentDelta previous current = Ok d
    ∧ ApplyAccountAgentDelta previous owner d = Ok (marshal_payload cur)
    ∧ (∀ other p, checkedAccountAgentPayload other = Ok p → sha256 other ≠ prior_hash previous →
         ApplyAccountAgentDelta (Some other) owner d = Err (EDelta "flow delta: prior checkpoint identity mismatch"))
    ∧ (prior_hash previous ≠ zero_hash →
         ApplyAccountAgentDelta None owner d = Err (EDelta "flow delta: missing prior checkpoint")).
Proof.
  intros Hp Hc Ho. destruct (checked_frontier current cur Hc) as [Hf _].
  destruct (export_apply previous owner prev cur Hp Hf Ho) as (d&E&Hh&Hpd&Ha). exists d. split_and!; [|done| |].
  - unfold ExportAccountAgentDelta. rewrite Hc. cbn [res_bind]. destruct previous as [cp|]; cbn [prior prior_hash] in *.
    + destruct Hp as [Hp Hpo]. rewrite Hp. cbn [res_bind]. rewrite Hpo, Ho, Z.eqb_refl. done.
    + by rewrite Ho, <- Hp.
  - intros other p Hop Hne. unfold ApplyAccountAgentDelta. rewrite Hpd. cbn [res_bind]. rewrite Hh. cbn [delta_base].
    rewrite Hop. cbn [res_bind]. by rewrite bool_decide_false.
  - intros Hne. unfold ApplyAccountAgentDelta. rewrite Hpd. cbn [res_bind]. rewrite Hh. cbn [delta_base].
    by rewrite bool_decide_false.
Qed.

(** The board when the instructions from [i] on have run. *)
Definition board_from (i : Z) (input : CommandContext) (b : AgentBoard) : AgentBoard :=
  if i =? 1 then end_pending input (begin_pending input (remember_pending b))
  else if i =? 2 then end_pending input (begin_pending input b)
  else if i =? 3 then end_pending input b
  else if i =? 4 then b
  else turn_board input b.

Lemma Step_from i l y ow b input : 0 ≤ i ≤ 5 →
  let b' := board_from i input b in
  Step {| fl_started := true; fl_completed := false; fl_currentState := 0; fl_instruction := i; fl_lastYield := l;
          fl_hasYield := y; fl_owner := ow; fl_board := b |} input
  = ({| fl_started := true; fl_completed := false; fl_currentState := 0; fl_instruction := 5;
        fl_lastYield := Decide input (bd_TransitionCount b') (bd_WasPending b') (bd_PendingTarget b') (bd_PendingAmount b');
        fl_hasYield := true; fl_owner := ow; fl_board := b' |}, None).
Proof.
  intros Hi. assert (i = 0 ∨ i = 1 ∨ i = 2 ∨ i = 3 ∨ i = 4 ∨ i = 5) as [->|[->|[->|[->|[->| ->]]]]] by lia; reflexivity.
Qed.

(** From every checkpoint [RestoreAccountAgent] accepts, a turn
    ends within the rounds of its loop: it yields a decision and suspends at
    instruction 5, except from instruction 6, which [ContinuationValid] accepts
    although the state has the instructions 0 to 5, and from which every turn
    fails. *)
Theorem restored_turn (cp : bytes) (f : AgentFlow) (input : CommandContext) :
  RestoreAccountAgent cp = Ok f →
  (fl_instruction f ≠ 6 → ∃ f', Step f input = (f', None) ∧ Yielded f' = Ok (fl_lastYield f') ∧ fl_instruction f' = 5)
  ∧ (fl_instruction f = 6 → ∃ f', Step f input =
       (f', Some (EFlowStep "runtime invariant violation: flow state Active exited without suspend or return"))
       ∧ fl_instruction f' = 6).
Proof.
  unfold RestoreAccountAgent. intros H. destruct (unmarshal_payload cp) as [p|]; [|done]. cbn [res_bind] in H.
  destruct (restore_payload_inv _ _ H) as (_&_&_&Hi). rewrite (restore_payload_flow _ _ H). clear H. cbn [fl_instruction].
  split; intros Hne.
  - rewrite Step_from by lia. eexists. split; [done|]. split; done.
  - rewrite Hne. eexists. split; reflexivity.
Qed.

(** ** Witnesses *)

Definition example_context (kind amount : Z) (exists_a : bool) (balance version : Z) : CommandContext :=
  {| cc_Kind := of_tag kind; cc_AccountA := 7; cc_AccountB := 9; cc_Amount := amount; cc_ExistsA := exists_a; cc_ExistsB := false;
     cc_BalanceA := balance; cc_BalanceB := 0; cc_StatusA := of_tag (if exists_a then 1 else 0); cc_StatusB := of_tag 0;
     cc_VersionA := version; cc_VersionB := 0 |}.
Definition example_contexts : list CommandContext :=
  [example_context CommandKind_Create_tag 100 false 0 0; example_context CommandKind_Withdraw_tag 30 true 100 1].

Lemma example_contexts_ok : Forall context_ok example_contexts.
Proof. unfold example_contexts. foralls; (split; [foralls; by vm_compute|by vm_compute]). Qed.

Lemma agent_resumes_witness :
  ∃ f cp, turns (new_flow 7) example_contexts = Ok f ∧ Checkpoint f = Ok cp ∧ ParseAccountAgentCheckpoint cp = Ok cp
    ∧ RestoreAccountAgent cp = Ok f.
Proof. apply (agent_resumes 7 example_contexts); [by vm_compute|apply example_contexts_ok|discriminate]. Defined.

Lemma deltas_rebuild_witness :
  ∃ ds m cp, durable_turns (NewDurableAccountAgent 7) example_contexts = Ok (ds, m) ∧ length ds = 2%nat
    ∧ recover_deltas 7 None ds = Ok (Some cp) ∧ RestoreDurableAccountAgent cp = Ok m.
Proof. apply (deltas_rebuild 7 example_contexts); [by vm_compute|apply example_contexts_ok|discriminate]. Defined.

Definition example_flow : AgentFlow := flow_after (new_flow 7) (example_context CommandKind_Create_tag 100 false 0 0).
Definition example_checkpoint : bytes := marshal_payload (flow_payload example_flow).

Lemma delta_exact_witness :
  ∃ d, ExportAccountAgentDelta None example_checkpoint = Ok d ∧ ApplyAccountAgentDelta None 7 d = Ok example_checkpoint.
Proof.
  destruct (delta_exact None example_checkpoint 7 (initialAccountAgentPayload 7) (flow_payload example_flow)) as (d&E&Ha&_);
    [reflexivity|vm_compute; reflexivity|reflexivity|].
  exists d. split; [exact E|exact Ha].
Defined.

Lemma restored_turn_witness :
  RestoreAccountAgent (marshal_payload (with_instruction (flow_payload example_flow) 6)) = Ok (at_instruction example_flow 0 6)
  ∧ ∃ f', Step (at_instruction example_flow 0 6) (example_context CommandKind_Withdraw_tag 30 true 100 1) =
       (f', Some (EFlowStep "runtime invariant violation: flow state Active exited without suspend or return")) ∧ fl_instruction f' = 6.
Proof.
  assert (RestoreAccountAgent (marshal_payload (with_instruction (flow_payload example_flow) 6)) = Ok (at_instruction example_flow 0 6)) as E
    by (vm_compute; reflexivity).
  split; [exact E|]. exact (proj2 (restored_turn _ _ (example_context CommandKind_Withdraw_tag 30 true 100 1) E) eq_refl).
Defined.
