(* ===== verification/Research.v ===== *)
(** * The research engine in memory ([internal/researchengine])

    Commands, accounts and the store with its ledger ([types.go], [store.go]), the
    hand-written decision ([go_baseline.go]), the bridge to the generated agent and
    the check of its decisions ([engine.go]), the tokens a command locks
    ([conflict.go]) and the window of remembered results. *)

From Stdlib Require Import ZArith Lia Strings.Byte Strings.String.
From stdpp Require Import base decidable countable list gmap sorting.
From S2P Require Import Prelude GoText GoBinary GoJson Errors AccountAgent.

Local Open Scope Z_scope.
Local Open Scope go_scope.

(** ** Types *)

Record Account := { ac_ID : Z; ac_Balance : Z; ac_Status : Z; ac_Version : Z }.
Definition zeroAccount : Account := {| ac_ID := 0; ac_Balance := 0; ac_Status := 0; ac_Version := 0 |}.
Definition StatusOpen : Z := 1.
Definition StatusFrozen : Z := 2.

Definition Create : nominal := of_tag CommandKind_Create_tag.
Definition Deposit : nominal := of_tag CommandKind_Deposit_tag.
Definition Withdraw : nominal := of_tag CommandKind_Withdraw_tag.
Definition Transfer : nominal := of_tag CommandKind_Transfer_tag.
Definition Freeze : nominal := of_tag CommandKind_Freeze_tag.
Definition Unfreeze : nominal := of_tag CommandKind_Unfreeze_tag.
Definition BeginTransfer : nominal := of_tag CommandKind_BeginTransfer_tag.
Definition Confirm : nominal := of_tag CommandKind_Confirm_tag.
Definition Cancel : nominal := of_tag CommandKind_Cancel_tag.

Record Command := { cm_ID : bytes; cm_Kind : nominal; cm_Account : Z; cm_Other : Z; cm_Amount : Z }.

Record Result := {
  rs_Sequence : Z; rs_CommandID : bytes; rs_Accepted : bool; rs_ReasonTag : Z; rs_EffectTag : Z; rs_TransitionCount : Z;
  rs_Duplicate : bool }.

Record logRecord := {
  lr_Version : Z; lr_SchemaID : bytes; lr_ProgramID : bytes; lr_Sequence : Z; lr_AgentID : Z; lr_CommandID : bytes;
  lr_CommandKind : Z; lr_AccountA : Z; lr_AccountB : Z; lr_Amount : Z; lr_Result : Result; lr_EffectTag : Z;
  lr_NewBalanceA : Z; lr_NewBalanceB : Z; lr_NewStatusTag : Z; lr_ExpectedA : Z; lr_ExpectedB : Z; lr_Checkpoint : bytes;
  lr_FlowDelta : bytes }.

(** [&RuntimeError{Kind: kind, Err: err}]. *)
Definition runtime_error (kind : string) (e : gerror) : gerror := EWrap kind e.
Arguments runtime_error _%_string _.

Definition isKind (kind expected : nominal) : bool := nm_Tag kind =? nm_Tag expected.

Definition ValidateCommand (c : Command) : res gerror unit :=
  let! _ := guard_err (bool_decide (cm_ID c = []) || (cm_Account c =? 0))
              (runtime_error "invalid_command" (EMsg "command ID and account are required")) in
  guard_err ((isKind (cm_Kind c) Transfer || isKind (cm_Kind c) BeginTransfer || isKind (cm_Kind c) Confirm)
             && ((cm_Other c =? 0) || (cm_Other c =? cm_Account c)))
    (runtime_error "invalid_command" (EMsg "multi-account command requires a distinct destination")).

(** ** The store *)

Record LedgerEntry := {
  le_Sequence : Z; le_CommandID : bytes; le_From : Z; le_To : Z; le_Amount : Z; le_EffectTag : Z }.

Record Store := { so_accounts : gmap Z Account; so_ledger : list LedgerEntry }.
Definition NewStore : Store := {| so_accounts := ∅; so_ledger := [] |}.

Definition view1 (s : Store) (id : Z) : Account * bool :=
  match so_accounts s !! id with Some a => (a, true) | None => (zeroAccount, false) end.
Definition view (s : Store) (a b : Z) : Account * bool * (Account * bool) := (view1 s a, view1 s b).

Definition bump (a : Account) (balance status : Z) : Account :=
  {| ac_ID := ac_ID a; ac_Balance := balance; ac_Status := status; ac_Version := u64 (ac_Version a + 1) |}.

Definition apply_accounts (m : gmap Z Account) (r : logRecord) : gmap Z Account :=
  let a := default zeroAccount (m !! lr_AccountA r) in
  let b := default zeroAccount (m !! lr_AccountB r) in
  if lr_EffectTag r =? 1 then
    <[lr_AccountA r := {| ac_ID := lr_AccountA r; ac_Balance := lr_NewBalanceA r; ac_Status := StatusOpen; ac_Version := 1 |}]> m
  else if lr_EffectTag r =? 2 then <[lr_AccountA r := bump a (lr_NewBalanceA r) (ac_Status a)]> m
  else if lr_EffectTag r =? 3 then
    <[lr_AccountB r := bump b (lr_NewBalanceB r) (ac_Status b)]> (<[lr_AccountA r := bump a (lr_NewBalanceA r) (ac_Status a)]> m)
  else <[lr_AccountA r := bump a (ac_Balance a) (lr_NewStatusTag r)]> m.

Definition store_apply (s : Store) (r : logRecord) : Store :=
  if negb (rs_Accepted (lr_Result r)) then s
  else if (lr_EffectTag r <? 1) || (4 <? lr_EffectTag r) then s
  else
    {| so_accounts := apply_accounts (so_accounts s) r;
       so_ledger := so_ledger s ++
         [{| le_Sequence := lr_Sequence r; le_CommandID := lr_CommandID r; le_From := lr_AccountA r; le_To := lr_AccountB r;
             le_Amount := lr_Amount r; le_EffectTag := lr_EffectTag r |}] |}.

(** Identifiers are sorted as [int]s; the publication and its digest. *)
Definition sorted_ids (s : Store) : list Z := merge_sort Z.le (map i64 ((map_to_list (so_accounts s)).*1)).
Definition octagon_line (a : Account) : bytes :=
  bs "    { ID: " ++ dec (ac_ID a) ++ bs " Balance: " ++ dec (ac_Balance a) ++ bs " Status: " ++ dec (ac_Status a)
  ++ bs " Version: " ++ dec (ac_Version a) ++ bs " }" ++ [x0a].
Definition CanonicalOctagon (s : Store) : bytes * bytes :=
  let text :=
    bs "AccountSnapshot {" ++ [x0a] ++ bs "  Accounts: [" ++ [x0a]
    ++ concat (map (fun raw => octagon_line (default zeroAccount (so_accounts s !! u64 raw))) (sorted_ids s))
    ++ bs "  ]" ++ [x0a] ++ bs "}" ++ [x0a] in
  (text, hex_encode (sha256 text)).

Definition account_le (a b : Account) : Prop := ac_ID a ≤ ac_ID b.
#[export] Instance account_le_dec a b : Decision (account_le a b).
Proof. unfold account_le. apply _. Defined.
Definition snapshotState (s : Store) : list Account * list LedgerEntry :=
  (merge_sort account_le ((map_to_list (so_accounts s)).*2), so_ledger s).
Definition restoreState (accounts : list Account) (ledger : list LedgerEntry) : Store :=
  {| so_accounts := foldl (fun m a => <[ac_ID a := a]> m) ∅ accounts; so_ledger := ledger |}.

(** ** The hand-written decision *)

Record pendingTransfer := { pt_Active : bool; pt_Target : Z; pt_Amount : Z }.
Definition zeroPending : pendingTransfer := {| pt_Active := false; pt_Target := 0; pt_Amount := 0 |}.

Record goDecision := {
  gd_accepted : bool; gd_reason : Z; gd_effect : Z; gd_balanceA : Z; gd_balanceB : Z; gd_status : Z }.

Definition decideGo (c : Command) (a : Account) (aok : bool) (b : Account) (bok : bool) (pending : pendingTransfer) : goDecision :=
  let none reason :=
    {| gd_accepted := false; gd_reason := reason; gd_effect := 0; gd_balanceA := ac_Balance a; gd_balanceB := ac_Balance b;
       gd_status := ac_Status a |} in
  let yes reason effect x y status :=
    {| gd_accepted := true; gd_reason := reason; gd_effect := effect; gd_balanceA := x; gd_balanceB := y; gd_status := status |} in
  let amount := cm_Amount c in
  let kind k := isKind (cm_Kind c) k in
  if kind Create then
    if aok then none 5 else if amount <? 0 then none 3 else yes 0 1 amount (ac_Balance b) StatusOpen
  else if kind Deposit then
    if amount <=? 0 then none 3 else if negb aok then none 4
    else yes 0 2 (i64 (ac_Balance a + amount)) (ac_Balance b) (ac_Status a)
  else if kind Withdraw then
    if amount <=? 0 then none 3 else if negb aok then none 4 else if ac_Status a =? StatusFrozen then none 6
    else if ac_Balance a <? amount then none 7
    else yes 0 2 (i64 (ac_Balance a - amount)) (ac_Balance b) (ac_Status a)
  else if kind Transfer || kind Confirm then
    if kind Confirm && (negb (pt_Active pending) || negb (pt_Target pending =? cm_Other c) || negb (pt_Amount pending =? amount))
    then none 8
    else if amount <=? 0 then none 3 else if negb aok || negb bok then none 4
    else if ac_Status a =? StatusFrozen then none 6 else if ac_Balance a <? amount then none 7
    else yes 0 3 (i64 (ac_Balance a - amount)) (i64 (ac_Balance b + amount)) (ac_Status a)
  else if kind Freeze then if negb aok then none 4 else yes 0 4 (ac_Balance a) (ac_Balance b) StatusFrozen
  else if kind Unfreeze then if negb aok then none 4 else yes 0 4 (ac_Balance a) (ac_Balance b) StatusOpen
  else if kind BeginTransfer then
    if amount <=? 0 then none 3 else yes 1 0 (ac_Balance a) (ac_Balance b) (ac_Status a)
  else if kind Cancel then yes 2 0 (ac_Balance a) (ac_Balance b) (ac_Status a)
  else none 8.

(** [nextPending]. *)
Definition next_pending (c : Command) (accepted : bool) (pending : pendingTransfer) : pendingTransfer :=
  let next := if isKind (cm_Kind c) BeginTransfer && accepted
              then {| pt_Active := true; pt_Target := cm_Other c; pt_Amount := cm_Amount c |} else pending in
  if isKind (cm_Kind c) Confirm || isKind (cm_Kind c) Cancel then zeroPending else next.

(** ** The bridge to the generated agent *)

Definition statusToGenerated (a : Account) (exists_ : bool) : nominal :=
  if negb exists_ then of_tag AccountStatus_Missing_tag
  else if ac_Status a =? StatusFrozen then of_tag AccountStatus_Frozen_tag else of_tag AccountStatus_Open_tag.

Definition toContext (c : Command) (a : Account) (aok : bool) (b : Account) (bok : bool) : CommandContext :=
  {| cc_Kind := cm_Kind c; cc_AccountA := i64 (cm_Account c); cc_AccountB := i64 (cm_Other c); cc_Amount := cm_Amount c;
     cc_ExistsA := aok; cc_ExistsB := bok; cc_BalanceA := ac_Balance a; cc_BalanceB := ac_Balance b;
     cc_StatusA := statusToGenerated a aok; cc_StatusB := statusToGenerated b bok; cc_VersionA := i64 (ac_Version a);
     cc_VersionB := i64 (ac_Version b) |}.

Definition validateDecision (c : Command) (a : Account) (aok : bool) (b : Account) (bok : bool) (d : TransitionDecision)
    : res gerror unit :=
  let! _ := guard_err (negb (td_AccountA d =? i64 (cm_Account c)) || negb (td_AccountB d =? i64 (cm_Other c))
                       || negb (td_Amount d =? cm_Amount c)) (EMsg "decision identity differs from input") in
  let! _ := guard_err (negb (td_ExpectedVersionA d =? i64 (ac_Version a)) || negb (td_ExpectedVersionB d =? i64 (ac_Version b)))
              (EMsg "stale expected version") in
  let! _ := guard_err (td_Accepted d && (td_NewBalanceA d <? 0)) (EMsg "negative accepted balance") in
  guard_err (td_Accepted d && (nm_Tag (td_Effect d) =? EffectKind_Transfer_tag) && (negb aok || negb bok))
    (EMsg "transfer effect references missing account").

(** ** Conflict tokens *)

Definition tokensFor (c : Command) : list Z :=
  if isKind (cm_Kind c) Transfer || isKind (cm_Kind c) Confirm
  then merge_sort Z.le [cm_Account c; cm_Other c] else [cm_Account c].

(** ** Remembered results *)

Record dedupe := { dd_results : gmap bytes Result; dd_order : list bytes; dd_head : nat }.
Definition no_dedupe : dedupe := {| dd_results := ∅; dd_order := []; dd_head := 0 |}.

Definition rememberResult (window : nat) (d : dedupe) (id : bytes) (r : Result) : dedupe :=
  let results := <[id := r]> (dd_results d) in
  let order := dd_order d ++ [id] in
  let evict := Nat.ltb window (length order - dd_head d) in
  let results := if evict then match order !! dd_head d with Some old => delete old results | None => results end else results in
  let head := if evict then S (dd_head d) else dd_head d in
  if Nat.leb window head && Nat.leb (length order) (head * 2)
  then {| dd_results := results; dd_order := drop head order; dd_head := 0 |}
  else {| dd_results := results; dd_order := order; dd_head := head |}.

Record snapshotResult := { sr_CommandID : bytes; sr_Result : Result }.

Definition validateDedupeEntries (entries : list snapshotResult) (horizon configured frontier : Z) : res gerror unit :=
  let! _ := guard_err (negb (horizon =? configured) || (horizon <=? 0) || (horizon <? zlen entries))
              (EMsg "dedupe count/horizon mismatch") in
  let! _ := res_fold (fun '(seen, prior) (e : snapshotResult) =>
      let seq := rs_Sequence (sr_Result e) in
      let! _ := guard_err (bool_decide (sr_CommandID e = []) || negb (bool_decide (rs_CommandID (sr_Result e) = sr_CommandID e)))
                  (EMsg "dedupe command identity mismatch") in
      let! _ := guard_err (bool_decide (sr_CommandID e ∈ (seen : gset bytes))) (EMsg "duplicate command ID in snapshot") in
      let! _ := guard_err (seq <=? prior) (EMsg "out-of-order dedupe sequence") in
      let! _ := guard_err (frontier <? seq) (EMsg "dedupe sequence exceeds frontier") in
      Ok ({[sr_CommandID e]} ∪ seen, seq)) (∅, 0) entries in
  Ok tt.
