(* ===== verification/ResearchLemmas.v ===== *)
(** * Lemmas on the research engine

    The decision code of the generated agent as a chain of tests per command, and
    its agreement with the hand-written decision. *)

From Stdlib Require Import ZArith Lia Strings.Byte Strings.String.
From stdpp Require Import base decidable countable list gmap sorting.
From S2P Require Import Prelude GoText GoBinary GoJson Errors AccountAgent AgentLemmas Research.

Local Open Scope Z_scope.
Local Open Scope go_scope.

(** ** The decision code *)

(** The selection on the conditions it depends on. *)
Definition code_of (kind : nominal) (ea eb neg nonpos frozen short : bool) (mismatch : bool) : Z :=
  let k tag := is_tag kind tag in
  let moves := k CommandKind_Transfer_tag || k CommandKind_Confirm_tag in
  (utilSelect ∅ 0 0 0
    [candidate (k CommandKind_Create_tag && ea) 1 100;
   candidate (k CommandKind_Create_tag && neg) 2 90;
   candidate (k CommandKind_Create_tag) 3 10;
   candidate (k CommandKind_Deposit_tag && nonpos) 4 100;
   candidate (k CommandKind_Deposit_tag && negb ea) 5 90;
   candidate (k CommandKind_Deposit_tag) 6 10;
   candidate (k CommandKind_Withdraw_tag && nonpos) 7 100;
   candidate (k CommandKind_Withdraw_tag && negb ea) 8 90;
   candidate (k CommandKind_Withdraw_tag && frozen) 9 80;
   candidate (k CommandKind_Withdraw_tag && short) 10 70;
   candidate (k CommandKind_Withdraw_tag) 11 10;
   candidate (k CommandKind_Confirm_tag && mismatch) 12 110;
   candidate (moves && nonpos) 13 100;
   candidate (moves && (negb ea || negb eb)) 14 90;
   candidate (moves && frozen) 15 80;
   candidate (moves && short) 16 70;
   candidate moves 17 10;
   candidate (k CommandKind_Freeze_tag && negb ea) 18 100;
   candidate (k CommandKind_Freeze_tag) 19 10;
   candidate (k CommandKind_Unfreeze_tag && negb ea) 20 100;
   candidate (k CommandKind_Unfreeze_tag) 21 10;
   candidate (k CommandKind_BeginTransfer_tag && nonpos) 22 100;
   candidate (k CommandKind_BeginTransfer_tag) 23 10;
   candidate (k CommandKind_Cancel_tag) 24 10] 0).1.
Lemma code_of_eq c w t a : DecideCode c w t a =
  code_of (cc_Kind c) (cc_ExistsA c) (cc_ExistsB c) (cc_Amount c <? 0) (cc_Amount c <=? 0) (is_tag (cc_StatusA c) AccountStatus_Frozen_tag)
    (cc_BalanceA c <? cc_Amount c) (negb w || negb (t =? cc_AccountB c) || negb (a =? cc_Amount c)).
Proof. reflexivity. Qed.
(** The scores order the tests of each command. *)
Lemma code_of_table ea eb neg nonpos frozen short mismatch :
  let f k := code_of k ea eb neg nonpos frozen short mismatch in
  let move := if nonpos then 13 else if negb ea || negb eb then 14 else if frozen then 15 else if short then 16 else 17 in
  f Create = (if ea then 1 else if neg then 2 else 3)
  ∧ f Deposit = (if nonpos then 4 else if negb ea then 5 else 6)
  ∧ f Withdraw = (if nonpos then 7 else if negb ea then 8 else if frozen then 9 else if short then 10 else 11)
  ∧ f Transfer = move ∧ f Confirm = (if mismatch then 12 else move)
  ∧ f Freeze = (if negb ea then 18 else 19) ∧ f Unfreeze = (if negb ea then 20 else 21)
  ∧ f BeginTransfer = (if nonpos then 22 else 23) ∧ f Cancel = 24.
Proof. destruct ea, eb, neg, nonpos, frozen, short, mismatch; vm_compute; split_and!; reflexivity. Qed.
Lemma code_of_other k ea eb neg nonpos frozen short mismatch : nm_Payload k = JNull →
  ¬ (0 ≤ nm_Tag k ≤ 8) → code_of k ea eb neg nonpos frozen short mismatch = 0.
Proof.
  intros Hp Ht. unfold code_of. assert (∀ t, 0 ≤ t ≤ 8 → is_tag k t = false) as E.
  { intros t Ht'. unfold is_tag. apply andb_false_iff. left. lia. }
  rewrite !E by (vm_compute; split; discriminate). reflexivity.
Qed.

(** ** Agreement with the hand-written decision *)

(** The board of the agent and the pending transfer of the hand-written lane. *)
Definition lane_rel (b : AgentBoard) (p : pendingTransfer) : Prop :=
  bd_Pending b = pt_Active p
  ∧ (pt_Active p = true → bd_PendingTarget b = i64 (pt_Target p) ∧ bd_PendingAmount b = pt_Amount p ∧ u64_range (pt_Target p)).

Record command_ok (c : Command) : Prop := {
  ck_kind : nm_Payload (cm_Kind c) = JNull;
  ck_account : u64_range (cm_Account c);
  ck_other : u64_range (cm_Other c);
  ck_amount : i64_range (cm_Amount c) }.

Record decision_agrees (d : TransitionDecision) (g : goDecision) : Prop := {
  da_accepted : td_Accepted d = gd_accepted g;
  da_reason : nm_Tag (td_Reason d) = gd_reason g;
  da_effect : nm_Tag (td_Effect d) = gd_effect g;
  da_balanceA : td_NewBalanceA d = gd_balanceA g;
  da_balanceB : td_NewBalanceB d = gd_balanceB g;
  da_status : gd_effect g = 4 → nm_Tag (td_NewStatus d) = gd_status g }.

Lemma i64_inj x y : u64_range x → u64_range y → i64 x = i64 y → x = y.
Proof.
  unfold u64_range, i64. intros Hx Hy H. assert ((x + 2 ^ 63) mod 2 ^ 64 = (y + 2 ^ 63) mod 2 ^ 64) as E by lia.
  apply (f_equal (λ z, (z - 2 ^ 63) mod 2 ^ 64)) in E. rewrite !Zminus_mod_idemp_l in E.
  replace (x + 2 ^ 63 - 2 ^ 63) with x in E by lia. replace (y + 2 ^ 63 - 2 ^ 63) with y in E by lia. rewrite !Z.mod_small in E by lia. done.
Qed.

Lemma frozen_generated a : is_tag (statusToGenerated a true) AccountStatus_Frozen_tag = (ac_Status a =? StatusFrozen).
Proof. unfold statusToGenerated. cbn [negb]. by destruct (ac_Status a =? StatusFrozen). Qed.

Lemma research_kind_cases k : nm_Payload k = JNull →
  k = Create ∨ k = Deposit ∨ k = Withdraw ∨ k = Transfer ∨ k = Freeze ∨ k = Unfreeze ∨ k = BeginTransfer ∨ k = Confirm ∨ k = Cancel
  ∨ ¬ (0 ≤ nm_Tag k ≤ 8).
Proof.
  destruct k as [t p]. cbn [nm_Payload nm_Tag]. intros ->. unfold Create, Deposit, Withdraw, Transfer, Freeze, Unfreeze, BeginTransfer, Confirm, Cancel.
  destruct (decide (0 ≤ t ≤ 8)) as [H|H]; [|tauto].
  assert (t = 0 ∨ t = 1 ∨ t = 2 ∨ t = 3 ∨ t = 4 ∨ t = 5 ∨ t = 6 ∨ t = 7 ∨ t = 8) as Ht by lia.
  destruct Ht as [->|[->|[->|[->|[->|[->|[->|[->| ->]]]]]]]]; tauto.
Qed.

(** The decision once its code is known. *)
Definition Decide_code (c : CommandContext) (count code : Z) : TransitionDecision :=
  default (refuse c count DecisionReason_InvalidWorkflow_tag)
    (match decide_account c count code with
     | Some d => Some d
     | None => match decide_move c count code with Some d => Some d | None => decide_status c count code end
     end).
Lemma Decide_eq c count w t m : Decide c count w t m = Decide_code c count (DecideCode c w t m).
Proof.
  unfold Decide, Decide_code. generalize (DecideCode c w t m). intros code. destruct (decide_account c count code); [done|].
  destruct (decide_move c count code); [done|]. by destruct (decide_status c count code).
Qed.

(** Splits the remaining conditions of a command and compares the two decisions. *)
Ltac agree_cases aok bok amt a :=
  destruct aok, bok; rewrite ?frozen_generated; destruct (amt <? 0), (amt <=? 0), (ac_Status a =? StatusFrozen), (ac_Balance a <? amt);
  (split; [reflexivity..|cbn; intros; first [discriminate | reflexivity]]).

Lemma decide_agrees c a aok b bok w t m p count :
  nm_Payload (cm_Kind c) = JNull →
  (cm_Kind c = Confirm → negb w || negb (t =? i64 (cm_Other c)) || negb (m =? cm_Amount c)
  = negb (pt_Active p) || negb (pt_Target p =? cm_Other c) || negb (pt_Amount p =? cm_Amount c)) →
  decision_agrees (Decide (toContext c a aok b bok) count w t m) (decideGo c a aok b bok p).
Proof.
  intros Hp Hm. rewrite Decide_eq, code_of_eq. cbn [toContext cc_Kind cc_ExistsA cc_ExistsB cc_Amount cc_StatusA cc_BalanceA cc_AccountB].
  revert Hm. generalize (negb w || negb (t =? i64 (cm_Other c)) || negb (m =? cm_Amount c)). intros mm Hm. clear w t m.
  destruct c as [id k acc oth amt]. cbn [cm_Kind cm_Amount cm_Other] in *.
  destruct (code_of_table aok bok (amt <? 0) (amt <=? 0) (is_tag (statusToGenerated a aok) AccountStatus_Frozen_tag)
    (ac_Balance a <? amt) mm)
    as (T1&T2&T3&T4&T5&T6&T7&T8&T9). cbv zeta in T4, T5.
  destruct (research_kind_cases k Hp) as [->|[->|[->|[->|[->|[->|[->|[->|[->|Ht]]]]]]]]].
  - rewrite T1. clear. unfold decideGo. cbn [cm_Kind cm_Amount cm_Other]. agree_cases aok bok amt a.
  - rewrite T2. clear. unfold decideGo. cbn [cm_Kind cm_Amount cm_Other]. agree_cases aok bok amt a.
  - rewrite T3. clear. unfold decideGo. cbn [cm_Kind cm_Amount cm_Other]. agree_cases aok bok amt a.
  - rewrite T4. clear. unfold decideGo. cbn [cm_Kind cm_Amount cm_Other]. agree_cases aok bok amt a.
  - rewrite T6. clear. unfold decideGo. cbn [cm_Kind cm_Amount cm_Other]. agree_cases aok bok amt a.
  - rewrite T7. clear. unfold decideGo. cbn [cm_Kind cm_Amount cm_Other]. agree_cases aok bok amt a.
  - rewrite T8. clear. unfold decideGo. cbn [cm_Kind cm_Amount cm_Other]. agree_cases aok bok amt a.
  - rewrite T5, (Hm eq_refl). clear. unfold decideGo. cbn [cm_Kind cm_Amount cm_Other].
    change (isKind Confirm Confirm) with true. cbn [andb orb].
    destruct (negb (pt_Active p) || negb (pt_Target p =? oth) || negb (pt_Amount p =? amt)); agree_cases aok bok amt a.
  - rewrite T9. clear. unfold decideGo. cbn [cm_Kind cm_Amount cm_Other]. agree_cases aok bok amt a.
  - rewrite code_of_other by done. clear -Ht. unfold decideGo. cbn [cm_Kind cm_Amount cm_Other].
    assert (∀ e, 0 ≤ nm_Tag e ≤ 8 → isKind k e = false) as E by (intros e He; unfold isKind; lia).
    rewrite !E by (vm_compute; split; discriminate). cbn [orb]. split; [reflexivity..|discriminate].
Qed.

Lemma lane_turn c a aok b bok board p :
  command_ok c → lane_rel board p →
  let ctx := toContext c a aok b bok in let g := decideGo c a aok b bok p in
  decision_agrees (turn_decision ctx board) g ∧ lane_rel (turn_board ctx board) (next_pending c (gd_accepted g) p).
Proof.
  intros [Hk Ha Ho Hm] [Hr1 Hr2]. cbv zeta. assert (∀ t, is_tag (cm_Kind c) t = (nm_Tag (cm_Kind c) =? t)) as Et.
  { intros t. unfold is_tag. rewrite Hk. cbn [is_nil]. apply andb_true_r. }
  split.
  - unfold turn_decision. apply decide_agrees; [done|]. intros E. unfold turn_board, end_pending, begin_pending.
    cbn [toContext cc_Kind cc_Amount]. rewrite E. cbn. rewrite Hr1. destruct (pt_Active p) eqn:Ep; [|done].
    destruct (Hr2 eq_refl) as (->&->&Hu). cbn [negb orb]. f_equal. f_equal.
    destruct (Z.eqb_spec (pt_Target p) (cm_Other c)) as [->|Hne]; [by rewrite Z.eqb_refl|].
    apply Z.eqb_neq. intros Hi. by apply i64_inj in Hi.
  - unfold lane_rel, turn_board, end_pending, begin_pending, next_pending, isKind.
    cbn [toContext cc_Kind cc_Amount cc_AccountB]. rewrite !Et. unfold BeginTransfer, Confirm, Cancel. cbn [of_tag nm_Tag].
    destruct ((nm_Tag (cm_Kind c) =? CommandKind_Confirm_tag) || (nm_Tag (cm_Kind c) =? CommandKind_Cancel_tag)) eqn:E1; [done|].
    destruct (nm_Tag (cm_Kind c) =? CommandKind_BeginTransfer_tag) eqn:E2; [|by cbn].
    assert (gd_accepted (decideGo c a aok b bok p) = (0 <? cm_Amount c)) as ->; [|by destruct (0 <? cm_Amount c)].
    apply Z.eqb_eq in E2. unfold decideGo, isKind. rewrite E2. cbn. destruct (Z.leb_spec (cm_Amount c) 0), (Z.ltb_spec 0 (cm_Amount c)); lia || done.
Qed.
