(* ===== verification/ResearchEngine.v ===== *)
(** * The research engine: agents, commits and recovery ([internal/researchengine/engine.go])

    One mailbox per account drives an agent: the generated one, or the
    hand-written control.  [prepare] is [process] up to the message to the commit
    authority, [commitGroup] is the authority on a group of prepared commands,
    [finish] what [process] does with the answer.  The outcome of the append to the
    log is an argument, and so is the failure injector.  Recovery replays records
    over an optional snapshot. *)

From Stdlib Require Import ZArith Lia Strings.Byte Strings.String.
From stdpp Require Import base decidable countable list gmap sorting.
From S2P Require Import Prelude GoText GoBinary GoJson Errors AccountAgent AgentDelta Research.

Local Open Scope Z_scope.
Local Open Scope go_scope.

Inductive FailurePoint :=
| BeforeWALAppend | DuringWALAppend | AfterWALAppendBeforeSync | AfterWALSyncBeforeApply | AfterStepBeforeDeltaExport
| AfterDeltaExportBeforeWALAppend | AfterSyncBeforeDirtyClear | AfterStateApplyBeforeDirtyClear | AfterStateApplyBeforeAck
| DuringSegmentRotation | DuringSnapshotWrite | DuringSnapshotFlowCheckpoint | DuringCompactDedupeEncoding
| AfterSnapshotSyncBeforeInstall | AfterSnapshotInstallBeforeCleanup.

Definition injector : Type := FailurePoint → option gerror.
Definition no_failure : injector := fun _ => None.

Record Config := {
  cf_GoBehavioralControl : bool; cf_FullCheckpointWAL : bool; cf_JSONDedupeSnapshot : bool; cf_DedupeWindow : nat; cf_SnapshotEvery : Z }.

Definition m1WALVersion : Z := 3.
Definition m1SnapshotVersion : Z := 2.
Definition m1SchemaID : bytes := bs "octetdb-write/account-state/v1".
Definition m1ProgramID : bytes := bs "account-agent/309da01b60ec0f7917d4fd5efd1707bd71d2d40f".
Definition m1GoProgramID : bytes := bs "go-account-control/v1".
Definition expectedProgramID (cfg : Config) : bytes := if cf_GoBehavioralControl cfg then m1GoProgramID else m1ProgramID.

(** The message of an error of the agent. *)
Definition agent_gerror (e : agent_error) : gerror :=
  match e with
  | EFlowStep m => EWrap "flow step" (EMsg m)
  | ENoYield => EMsg "last turn did not yield"
  | ESyntax => EMsg "json"
  | ECheckpoint _ _ => EMsg "flow checkpoint"
  | EDelta m | EDeltaValue m _ => EMsg m
  | ETruncated e => EWrap "flow delta: truncated payload" e
  | EPanic m => EWrap "panic" (EMsg m)
  end.
Definition lift {A} (m : res agent_error A) : res gerror A := match m with Ok a => Ok a | Err e => Err (agent_gerror e) end.

(** ** State *)

Record agentEntry := {
  en_machine : option DurableAccountAgent; en_checkpoint : bytes; en_goPending : pendingTransfer; en_goTurns : Z }.
Definition new_entry : agentEntry :=
  {| en_machine := None; en_checkpoint := []; en_goPending := zeroPending; en_goTurns := 0 |}.

Record Engine := {
  eg_store : Store; eg_registry : gmap Z agentEntry; eg_dedupe : dedupe; eg_sequence : Z; eg_poisoned : option gerror }.
Definition new_engine : Engine :=
  {| eg_store := NewStore; eg_registry := ∅; eg_dedupe := no_dedupe; eg_sequence := 0; eg_poisoned := None |}.

Definition entry (e : Engine) (id : Z) : agentEntry := default new_entry (eg_registry e !! id).
Definition set_entry (e : Engine) (id : Z) (n : agentEntry) : Engine :=
  {| eg_store := eg_store e; eg_registry := <[id := n]> (eg_registry e); eg_dedupe := eg_dedupe e;
     eg_sequence := eg_sequence e; eg_poisoned := eg_poisoned e |}.
Definition poison (e : Engine) (err : gerror) : Engine :=
  {| eg_store := eg_store e; eg_registry := eg_registry e; eg_dedupe := eg_dedupe e; eg_sequence := eg_sequence e;
     eg_poisoned := Some err |}.

(** What a commit installs in its agent. *)
Inductive install := InstallAgent (checkpoint : bytes) | InstallGo (pending : pendingTransfer) (turns : Z).
Record m1Commit := { mc_record : logRecord; mc_agent : Z; mc_checkpoint : bytes; mc_install : install }.
Definition outcome : Type := res gerror Result.

(** ** Preparing a command *)

Definition goAgentCheckpoint_json (p : pendingTransfer) (turns : Z) : json :=
  JObj [(bs "pending", JObj [(bs "active", JBool (pt_Active p)); (bs "target", JNum (dec (pt_Target p)));
                             (bs "amount", JNum (dec (pt_Amount p)))]);
        (bs "turns", JNum (dec turns))].
Definition pending_member (p : pendingTransfer) (m : bytes * json) : option pendingTransfer :=
  let '(Build_pendingTransfer a t n) := p in
  if is_field "active" m.1 then v ← into_bool a m.2; Some (Build_pendingTransfer v t n)
  else if is_field "target" m.1 then v ← into_u64 t m.2; Some (Build_pendingTransfer a v n)
  else if is_field "amount" m.1 then v ← into_int n m.2; Some (Build_pendingTransfer a t v)
  else Some p.
Definition goAgentCheckpoint_member (s : pendingTransfer * Z) (m : bytes * json) : option (pendingTransfer * Z) :=
  if is_field "pending" m.1 then v ← into_struct pending_member s.1 m.2; Some (v, s.2)
  else if is_field "turns" m.1 then v ← into_int s.2 m.2; Some (s.1, v)
  else Some s.
Definition unmarshal_goAgentCheckpoint (data : bytes) : res gerror (pendingTransfer * Z) :=
  match (j ← parse data; into_struct goAgentCheckpoint_member (zeroPending, 0) j) with Some s => Ok s | None => Err (EMsg "json") end.

(** The record of a command before the authority gives it a sequence. *)
Definition command_record (c : Command) (program : bytes) (result : Result) (effect x y status va vb : Z)
    (checkpoint delta : bytes) : logRecord :=
  {| lr_Version := m1WALVersion; lr_SchemaID := m1SchemaID; lr_ProgramID := program; lr_Sequence := 0;
     lr_AgentID := cm_Account c; lr_CommandID := cm_ID c; lr_CommandKind := nm_Tag (cm_Kind c); lr_AccountA := cm_Account c;
     lr_AccountB := cm_Other c; lr_Amount := cm_Amount c; lr_Result := result; lr_EffectTag := effect; lr_NewBalanceA := x;
     lr_NewBalanceB := y; lr_NewStatusTag := status; lr_ExpectedA := va; lr_ExpectedB := vb; lr_Checkpoint := checkpoint;
     lr_FlowDelta := delta |}.
Definition pending_result (c : Command) (accepted : bool) (reason effect turns : Z) : Result :=
  {| rs_Sequence := 0; rs_CommandID := cm_ID c; rs_Accepted := accepted; rs_ReasonTag := reason; rs_EffectTag := effect;
     rs_TransitionCount := turns; rs_Duplicate := false |}.

Definition decision_record (c : Command) (d : TransitionDecision) (checkpoint delta : bytes) : logRecord :=
  command_record c m1ProgramID
    (pending_result c (td_Accepted d) (nm_Tag (td_Reason d)) (nm_Tag (td_Effect d)) (td_TransitionCount d))
    (nm_Tag (td_Effect d)) (td_NewBalanceA d) (td_NewBalanceB d) (nm_Tag (td_NewStatus d))
    (u64 (td_ExpectedVersionA d)) (u64 (td_ExpectedVersionB d)) checkpoint delta.

Definition processGoM1 (cfg : Config) (e : Engine) (c : Command) (a : Account) (aok : bool) (b : Account) (bok : bool) : m1Commit :=
  let n := entry e (cm_Account c) in
  let d := decideGo c a aok b bok (en_goPending n) in
  let next := next_pending c (gd_accepted d) (en_goPending n) in
  let turns := i64 (en_goTurns n + 1) in
  let checkpoint := print (goAgentCheckpoint_json next turns) in
  {| mc_record := command_record c (expectedProgramID cfg) (pending_result c (gd_accepted d) (gd_reason d) (gd_effect d) turns)
                    (gd_effect d) (gd_balanceA d) (gd_balanceB d) (gd_status d) (ac_Version a) (ac_Version b) checkpoint [];
     mc_agent := cm_Account c; mc_checkpoint := checkpoint; mc_install := InstallGo next turns |}.

(** The agent as the last commit left it; when that fails the stepped one stays. *)
Definition rollback (n : agentEntry) (account : Z) (stepped : DurableAccountAgent) : agentEntry :=
  let m :=
    match en_checkpoint n with
    | [] => NewDurableAccountAgent (i64 account)
    | cp => match (let! cp := ParseAccountAgentCheckpoint cp in RestoreDurableAccountAgent cp) with Ok m => m | Err _ => stepped end
    end in
  {| en_machine := Some m; en_checkpoint := en_checkpoint n; en_goPending := en_goPending n; en_goTurns := en_goTurns n |}.
Definition with_machine (n : agentEntry) (m : DurableAccountAgent) : agentEntry :=
  {| en_machine := Some m; en_checkpoint := en_checkpoint n; en_goPending := en_goPending n; en_goTurns := en_goTurns n |}.

(** The generated lane of [process]: the agent after its step, and the request or
    the error that makes [process] roll it back. *)
Definition process_oct (cfg : Config) (inject : injector) (m : DurableAccountAgent) (c : Command) (a : Account) (aok : bool)
    (b : Account) (bok : bool) : DurableAccountAgent * res gerror m1Commit :=
  let fail kind e := Err (runtime_error kind e) in
  let (m, err) := DurableStep m (toContext c a aok b bok) in
  (m,
   match err with
   | Some e => fail "flow_step_failed"%string (agent_gerror e)
   | None =>
       match Yielded (da_machine m) with
       | Err e => fail "flow_step_failed"%string (agent_gerror e)
       | Ok d =>
           match validateDecision c a aok b bok d with
           | Err e => fail "invalid_decision"%string e
           | Ok _ =>
               match inject AfterStepBeforeDeltaExport with
               | Some e => fail "durability_write_failed"%string e
               | None =>
                   match Checkpoint (da_machine m) with
                   | Err e => fail "checkpoint_export_failed"%string (agent_gerror e)
                   | Ok cp =>
                       match (if cf_FullCheckpointWAL cfg then Ok (cp, []) else let! delta := ExportDelta m in Ok ([], delta)) with
                       | Err e => fail "checkpoint_export_failed"%string (agent_gerror e)
                       | Ok (checkpoint, delta) =>
                           match inject AfterDeltaExportBeforeWALAppend with
                           | Some e => fail "durability_write_failed"%string e
                           | None =>
                               Ok {| mc_record := decision_record c d checkpoint delta; mc_agent := cm_Account c; mc_checkpoint := cp; mc_install := InstallAgent cp |}
                           end
                       end
                   end
               end
           end
       end
   end).

(** [process] up to the message to the authority. *)
Definition prepare (cfg : Config) (inject : injector) (e : Engine) (c : Command) : Engine * res gerror m1Commit :=
  let '(a, aok, (b, bok)) := view (eg_store e) (cm_Account c) (cm_Other c) in
  let n := entry e (cm_Account c) in
  if cf_GoBehavioralControl cfg then (set_entry e (cm_Account c) n, Ok (processGoM1 cfg e c a aok b bok))
  else
    let (m, r) := process_oct cfg inject (default (NewDurableAccountAgent (i64 (cm_Account c))) (en_machine n)) c a aok b bok in
    match r with
    | Ok req => (set_entry e (cm_Account c) (with_machine n m), Ok req)
    | Err err => (set_entry e (cm_Account c) (rollback n (cm_Account c) m), Err err)
    end.

(** What [process] does with the answer of the authority. *)
Definition finish (cfg : Config) (e : Engine) (account : Z) (o : outcome) : Engine :=
  let undo := match o with Err _ => true | Ok r => rs_Duplicate r end in
  let n := entry e account in
  if undo && negb (cf_GoBehavioralControl cfg)
  then set_entry e account (rollback n account (default (NewDurableAccountAgent (i64 account)) (en_machine n))) else e.

(** ** The commit authority *)

Definition as_duplicate (r : Result) : Result :=
  {| rs_Sequence := rs_Sequence r; rs_CommandID := rs_CommandID r; rs_Accepted := rs_Accepted r; rs_ReasonTag := rs_ReasonTag r;
     rs_EffectTag := rs_EffectTag r; rs_TransitionCount := rs_TransitionCount r; rs_Duplicate := true |}.
Definition with_sequence (r : logRecord) (s : Z) : logRecord :=
  let q := lr_Result r in
  {| lr_Version := lr_Version r; lr_SchemaID := lr_SchemaID r; lr_ProgramID := lr_ProgramID r; lr_Sequence := s;
     lr_AgentID := lr_AgentID r; lr_CommandID := lr_CommandID r; lr_CommandKind := lr_CommandKind r; lr_AccountA := lr_AccountA r;
     lr_AccountB := lr_AccountB r; lr_Amount := lr_Amount r;
     lr_Result := {| rs_Sequence := s; rs_CommandID := rs_CommandID q; rs_Accepted := rs_Accepted q; rs_ReasonTag := rs_ReasonTag q;
                     rs_EffectTag := rs_EffectTag q; rs_TransitionCount := rs_TransitionCount q; rs_Duplicate := rs_Duplicate q |};
     lr_EffectTag := lr_EffectTag r; lr_NewBalanceA := lr_NewBalanceA r; lr_NewBalanceB := lr_NewBalanceB r;
     lr_NewStatusTag := lr_NewStatusTag r; lr_ExpectedA := lr_ExpectedA r; lr_ExpectedB := lr_ExpectedB r;
     lr_Checkpoint := lr_Checkpoint r; lr_FlowDelta := lr_FlowDelta r |}.
Definition sequenced (q : m1Commit) (s : Z) : m1Commit :=
  {| mc_record := with_sequence (mc_record q) s; mc_agent := mc_agent q; mc_checkpoint := mc_checkpoint q; mc_install := mc_install q |}.

(** The split of a group: the requests to append with their places in the group,
    the repeats of one of them, and the answers from remembered results. *)
Record split_group := {
  sg_unique : list (nat * m1Commit); sg_repeats : list (nat * bytes); sg_seen : gset bytes; sg_answers : list (nat * outcome) }.
Definition empty_split : split_group := {| sg_unique := []; sg_repeats := []; sg_seen := ∅; sg_answers := [] |}.

Definition split_request (e : Engine) (s : split_group) (iq : nat * m1Commit) : split_group :=
  let (i, q) := iq in
  let id := lr_CommandID (mc_record q) in
  match dd_results (eg_dedupe e) !! id with
  | Some prior => {| sg_unique := sg_unique s; sg_repeats := sg_repeats s; sg_seen := sg_seen s;
                     sg_answers := sg_answers s ++ [(i, Ok (as_duplicate prior))] |}
  | None =>
      if bool_decide (id ∈ sg_seen s)
      then {| sg_unique := sg_unique s; sg_repeats := sg_repeats s ++ [(i, id)]; sg_seen := sg_seen s; sg_answers := sg_answers s |}
      else {| sg_unique := sg_unique s ++ [(i, sequenced q (u64 (eg_sequence e + zlen (sg_unique s) + 1)))];
              sg_repeats := sg_repeats s; sg_seen := {[id]} ∪ sg_seen s; sg_answers := sg_answers s |}
  end.
Definition split_requests (e : Engine) (group : list m1Commit) : split_group :=
  foldl (split_request e) empty_split (imap (fun i q => (i, q)) group).

Definition install_commit (e : Engine) (window : nat) (q : m1Commit) : Engine :=
  let r := mc_record q in
  let n := entry e (mc_agent q) in
  let n :=
    match mc_install q with
    | InstallAgent cp =>
        {| en_machine := match en_machine n with
                         | Some m => Some (match AcceptCommitted m cp with Ok m => m | Err _ => m end)
                         | None => None
                         end;
           en_checkpoint := mc_checkpoint q; en_goPending := en_goPending n; en_goTurns := en_goTurns n |}
    | InstallGo p t => {| en_machine := en_machine n; en_checkpoint := mc_checkpoint q; en_goPending := p; en_goTurns := t |}
    end in
  {| eg_store := eg_store e; eg_registry := <[mc_agent q := n]> (eg_registry e);
     eg_dedupe := rememberResult window (eg_dedupe e) (lr_CommandID r) (lr_Result r); eg_sequence := lr_Sequence r;
     eg_poisoned := eg_poisoned e |}.

Definition apply_store (e : Engine) (r : logRecord) : Engine :=
  {| eg_store := store_apply (eg_store e) r; eg_registry := eg_registry e; eg_dedupe := eg_dedupe e;
     eg_sequence := eg_sequence e; eg_poisoned := eg_poisoned e |}.

(** The loop that applies a durable group; it stops where the injector fails. *)
Fixpoint apply_group (window : nat) (inject : injector) (e : Engine) (l : list m1Commit) : Engine * option gerror :=
  match l with
  | [] => (e, None)
  | q :: l =>
      let e := apply_store e (mc_record q) in
      match inject AfterStateApplyBeforeDirtyClear with
      | Some err => (e, Some err)
      | None => apply_group window inject (install_commit e window q) l
      end
  end.

Definition fail_all (s : split_group) (err : gerror) : list (nat * outcome) :=
  map (fun iq : nat * m1Commit => (iq.1, Err (runtime_error "durability_write_failed" err))) (sg_unique s)
  ++ map (fun ir : nat * bytes => (ir.1, Err (runtime_error "durability_write_failed" err))) (sg_repeats s).

(** The result of the request a repeat repeats. *)
Definition original (s : split_group) (id : bytes) : option Result :=
  head (omap (fun iq : nat * m1Commit => if bool_decide (lr_CommandID (mc_record iq.2) = id) then Some (lr_Result (mc_record iq.2)) else None)
         (sg_unique s)).

Definition group_records (s : split_group) : list logRecord := map (fun iq : nat * m1Commit => mc_record iq.2) (sg_unique s).

(** The first error of the injector at the given points. *)
Definition first_failure (inject : injector) (points : list FailurePoint) : option gerror := head (omap inject points).

(** The engine after the group and the answers by the places of the requests.  The
    periodic snapshot at the end of a group, after the answers, is
    [ResearchSnapshot.group_end], which [ResearchLife.execute_on] runs. *)
Definition commitGroup (cfg : Config) (inject : injector) (append : list logRecord → option gerror) (e : Engine) (group : list m1Commit)
    : Engine * list (nat * outcome) :=
  match eg_poisoned e with
  | Some err => (e, imap (fun i _ => (i, Err (runtime_error "durability_write_failed" err))) group)
  | None =>
      let s := split_requests e group in
      if bool_decide (sg_unique s = []) then (e, sg_answers s)
      else
        let refused e err := (poison e err, sg_answers s ++ fail_all s err) in
        match append (group_records s) with
        | Some err => refused e err
        | None =>
            match first_failure inject [AfterWALSyncBeforeApply; AfterSyncBeforeDirtyClear] with
            | Some err => refused e err
            | None =>
                match apply_group (cf_DedupeWindow cfg) inject e (map snd (sg_unique s)) with
                | (e, Some err) => refused e err
                | (e, None) =>
                    match inject AfterStateApplyBeforeAck with
                    | Some err => refused e err
                    | None =>
                        (e, sg_answers s
                            ++ map (fun iq : nat * m1Commit => (iq.1, Ok (lr_Result (mc_record iq.2)))) (sg_unique s)
                            ++ omap (fun ir : nat * bytes => r ← original s ir.2; Some (ir.1, Ok (as_duplicate r))) (sg_repeats s))
                    end
                end
            end
        end
  end.

(** ** Recovery *)

Definition recoverAccountAgentCheckpoint (n : agentEntry) (r : logRecord) : res gerror bytes :=
  let! _ := guard_err (negb (bool_decide (lr_FlowDelta r = [])) && negb (bool_decide (lr_Checkpoint r = [])))
              (EMsg "WAL record has both FLOW delta and checkpoint") in
  if bool_decide (lr_FlowDelta r = []) then
    if bool_decide (lr_Checkpoint r = []) then Err (EMsg "WAL record has no FLOW state")
    else lift (ParseAccountAgentCheckpoint (lr_Checkpoint r))
  else
    let! delta := lift (ParseAccountAgentDelta (lr_FlowDelta r)) in
    let! previous := match en_checkpoint n with
                     | [] => Ok None
                     | cp => let! cp := lift (ParseAccountAgentCheckpoint cp) in Ok (Some cp)
                     end in
    lift (ApplyAccountAgentDelta previous (i64 (lr_AgentID r)) delta).

Definition recovery_error {A} (kind : string) (m : res gerror A) : res gerror A :=
  match m with Ok a => Ok a | Err e => Err (runtime_error kind e) end.
Arguments recovery_error {A} _%_string _.

(** One record of the log, replayed. *)
Definition replay_record (cfg : Config) (e : Engine) (r : logRecord) : res gerror Engine :=
  let! _ := guard_err (negb (lr_Sequence r =? u64 (eg_sequence e + 1)))
              (runtime_error "recovery_corrupt" (EMsg "non-monotonic sequence")) in
  let n := entry e (lr_AgentID r) in
  let! n :=
    if cf_GoBehavioralControl cfg then
      let! (p, t) := recovery_error "recovery_incompatible" (unmarshal_goAgentCheckpoint (lr_Checkpoint r)) in
      Ok {| en_machine := en_machine n; en_checkpoint := lr_Checkpoint r; en_goPending := p; en_goTurns := t |}
    else
      let! cp := recovery_error "recovery_incompatible" (recoverAccountAgentCheckpoint n r) in
      let! m := recovery_error "recovery_incompatible" (lift (RestoreDurableAccountAgent cp)) in
      Ok {| en_machine := Some m; en_checkpoint := cp; en_goPending := en_goPending n; en_goTurns := en_goTurns n |} in
  Ok {| eg_store := store_apply (eg_store e) r; eg_registry := <[lr_AgentID r := n]> (eg_registry e);
        eg_dedupe := rememberResult (cf_DedupeWindow cfg) (eg_dedupe e) (lr_CommandID r) (lr_Result r);
        eg_sequence := lr_Sequence r; eg_poisoned := eg_poisoned e |}.

Definition replay (cfg : Config) (e : Engine) (records : list logRecord) : res gerror Engine := res_fold (replay_record cfg) e records.
