(* ===== verification/ResearchSystem.v ===== *)
(** * The research engine: runs of commands

    One command through validation, the agent, the authority and back, runs of
    commands with the log they leave, and the invariant that ties every agent to
    the checkpoint the log leads to. *)

From Stdlib Require Import ZArith Lia Strings.Byte Strings.String.
From stdpp Require Import base decidable countable list gmap sorting.
From S2P Require Import Prelude GoText GoBinary GoJson Errors KeyedRecovery AccountAgent AgentLemmas AgentDelta AgentDeltaLemmas AgentTheorems Research ResearchLemmas ResearchEngine.

Local Open Scope Z_scope.
Local Open Scope go_scope.

(** ** Runs *)

(** A command alone in its group: the engine after it, what was appended to the
    log, and the answer. *)
Definition execute (cfg : Config) (inject : injector) (append : option gerror) (e : Engine) (c : Command)
    : Engine * list logRecord * outcome :=
  match ValidateCommand c with
  | Err err => (e, [], Err err)
  | Ok _ =>
      let (e, r) := prepare cfg inject e c in
      match r with
      | Err err => (e, [], Err err)
      | Ok q =>
          let logged := if bool_decide (eg_poisoned e = None) && bool_decide (append = None)
                        then group_records (split_requests e [q]) else [] in
          let (e, answers) := commitGroup cfg inject (fun _ => append) e [q] in
          let o := match answers with (_, o) :: _ => o | [] => Err (EMsg "no answer") end in
          (finish cfg e (cm_Account c) o, logged, o)
      end
  end.

(** Commands in order, each with the outcome of its append. *)
Fixpoint run (cfg : Config) (e : Engine) (cs : list (Command * option gerror)) : Engine * list logRecord * list outcome :=
  match cs with
  | [] => (e, [], [])
  | (c, append) :: cs =>
      let '(e, l, o) := execute cfg no_failure append e c in
      let '(e, l', os) := run cfg e cs in (e, l ++ l', o :: os)
  end.

(** ** The invariant *)

Definition agent_of (e : Engine) (id : Z) : DurableAccountAgent :=
  default (NewDurableAccountAgent (i64 id)) (en_machine (entry e id)).
Definition prior_of (cp : bytes) : option bytes := match cp with [] => None | _ => Some cp end.

Record store_ok (s : Store) : Prop := {
  sk_account : ∀ id a, so_accounts s !! id = Some a → i64_range (ac_Balance a) ∧ u64_range (ac_Version a) }.

Record entry_ok (cfg : Config) (id : Z) (n : agentEntry) : Prop := {
  eo_agent : cf_GoBehavioralControl cfg = false →
    committed_at (i64 id) (prior_of (en_checkpoint n)) (default (NewDurableAccountAgent (i64 id)) (en_machine n));
  eo_pending : u64_range (pt_Target (en_goPending n)) ∧ i64_range (pt_Amount (en_goPending n)) ∧ i64_range (en_goTurns n) }.

Record engine_ok (cfg : Config) (e : Engine) : Prop := {
  ek_store : store_ok (eg_store e);
  ek_entry : ∀ id, entry_ok cfg id (entry e id);
  ek_sequence : u64_range (eg_sequence e) }.

Lemma view1_ok s id : store_ok s → i64_range (ac_Balance (view1 s id).1) ∧ u64_range (ac_Version (view1 s id).1).
Proof.
  intros [H]. unfold view1. destruct (so_accounts s !! id) as [a|] eqn:E; [by apply (H id)|]. by vm_compute.
Qed.

Lemma toContext_ok s c : store_ok s → command_ok c →
  context_ok (toContext c (view1 s (cm_Account c)).1 (view1 s (cm_Account c)).2 (view1 s (cm_Other c)).1 (view1 s (cm_Other c)).2).
Proof.
  intros Hs Hc. destruct (view1_ok s (cm_Account c) Hs) as [Ha _]. destruct (view1_ok s (cm_Other c) Hs) as [Hb _].
  split; cbn [toContext cc_AccountA cc_AccountB cc_Amount cc_BalanceA cc_BalanceB cc_VersionA cc_VersionB cc_StatusA].
  - destruct Hc as [_ _ _ Hm]. foralls; apply i64_bound.
  - unfold statusToGenerated. by repeat case_match.
Qed.

Lemma entry_set e id n : entry (set_entry e id n) id = n.
Proof. unfold entry, set_entry. cbn [eg_registry]. by rewrite lookup_insert_eq. Qed.
Lemma entry_set_ne e id id' n : id ≠ id' → entry (set_entry e id n) id' = entry e id'.
Proof. intros H. unfold entry, set_entry. cbn [eg_registry]. by rewrite lookup_insert_ne. Qed.

Lemma marshal_payload_cons p : payload_ok p → ∃ b l, marshal_payload p = b :: l.
Proof.
  intros H. destruct (payload_json_shape p H) as [Hn _]. destruct (print_head _ Hn) as (b&l&E&_). by exists b, l.
Qed.

Lemma committed_parse owner cp m : committed_at owner (Some cp) m →
  ParseAccountAgentCheckpoint cp = Ok cp ∧ RestoreDurableAccountAgent cp = Ok m.
Proof.
  intros H. split; [|exact (committed_restores _ _ _ H)]. remember (Some cp) as previous eqn:E.
  destruct H as [|f Hf Hs Ho]; [done|]. injection E as <-. unfold ParseAccountAgentCheckpoint.
  by rewrite unmarshal_marshal_payload by by apply flow_payload_ok.
Qed.

Lemma committed_none owner m : committed_at owner None m → m = NewDurableAccountAgent owner.
Proof. intros H. exact (committed_restores _ _ _ H). Qed.

(** An agent in its committed state is what a rollback restores. *)
Lemma rollback_committed cfg id n stepped : cf_GoBehavioralControl cfg = false → entry_ok cfg id n →
  rollback n id stepped = with_machine n (default (NewDurableAccountAgent (i64 id)) (en_machine n)).
Proof.
  intros Hg [H _]. specialize (H Hg). unfold rollback, with_machine. f_equal. f_equal.
  remember (default _ (en_machine n)) as m eqn:Em. clear Em. destruct (en_checkpoint n) as [|b l]; cbn [prior_of] in H.
  - by apply committed_none in H.
  - apply committed_parse in H as [-> Hr]. cbn [res_bind]. by rewrite Hr.
Qed.

(** ** The generated lane, without injected failures *)

Definition stepped (m : DurableAccountAgent) (ctx : CommandContext) : DurableAccountAgent :=
  {| da_machine := flow_after (da_machine m) ctx; da_committed := da_committed m; da_committedHash := da_committedHash m |}.
Definition next_checkpoint (m : DurableAccountAgent) (ctx : CommandContext) : bytes :=
  marshal_payload (flow_payload (flow_after (da_machine m) ctx)).

Lemma process_oct_spec cfg owner previous m c a aok b bok :
  i64_range owner → committed_at owner previous m → context_ok (toContext c a aok b bok) →
  let ctx := toContext c a aok b bok in
  let cp := next_checkpoint m ctx in let d := turn_decision ctx (fl_board (da_machine m)) in
  ∃ delta m', ParseAccountAgentDelta delta = Ok delta ∧ ApplyAccountAgentDelta previous owner delta = Ok cp
    ∧ AcceptCommitted (stepped m ctx) cp = Ok m' ∧ committed_at owner (Some cp) m' ∧ da_machine m' = flow_after (da_machine m) ctx
    ∧ process_oct cfg no_failure m c a aok b bok
      = (stepped m ctx,
         match validateDecision c a aok b bok d with
         | Err e => Err (runtime_error "invalid_decision" e)
         | Ok _ => Ok {| mc_record := decision_record c d (if cf_FullCheckpointWAL cfg then cp else [])
                                        (if cf_FullCheckpointWAL cfg then [] else delta);
                         mc_agent := cm_Account c; mc_checkpoint := cp; mc_install := InstallAgent cp |}
         end).
Proof.
  intros Hw Hm Hc ctx cp d. destruct (durable_parts _ _ _ _ Hw Hm Hc) as (E1&E2&delta&m'&E3&Hpd&Ha&E4&Hm'&Ef).
  exists delta, m'. split_and!; try done. unfold process_oct. fold ctx in E1, E2, E3 |- *. rewrite E1. f_equal.
  change (Yielded (da_machine _)) with (Ok (E := agent_error) d). cbv iota beta. fold (stepped m ctx).
  destruct (validateDecision c a aok b bok d) as [[]|err]; [|done]. cbn [no_failure].
  change (da_machine (stepped m ctx)) with (flow_after (da_machine m) ctx). rewrite E2.
  destruct (cf_FullCheckpointWAL cfg); [done|]. unfold stepped. rewrite E3. done.
Qed.

(** ** A command alone in its group *)

Definition numbered (e : Engine) (q : m1Commit) : m1Commit := sequenced q (u64 (eg_sequence e + 1)).

Lemma split_one e q :
  split_requests e [q] =
  match dd_results (eg_dedupe e) !! lr_CommandID (mc_record q) with
  | Some prior => {| sg_unique := []; sg_repeats := []; sg_seen := ∅; sg_answers := [(0%nat, Ok (as_duplicate prior))] |}
  | None => {| sg_unique := [(0%nat, numbered e q)]; sg_repeats := []; sg_seen := {[lr_CommandID (mc_record q)]} ∪ ∅; sg_answers := [] |}
  end.
Proof.
  unfold split_requests. cbn [imap foldl]. unfold split_request, empty_split. cbn [sg_unique sg_repeats sg_seen sg_answers app].
  destruct (dd_results (eg_dedupe e) !! lr_CommandID (mc_record q)); [done|].
  rewrite bool_decide_false by set_solver. change (zlen []) with 0. rewrite Z.add_0_r. done.
Qed.

Lemma commit_one cfg e q append : eg_poisoned e = None →
  commitGroup cfg no_failure (λ _, append) e [q] =
  match dd_results (eg_dedupe e) !! lr_CommandID (mc_record q) with
  | Some prior => (e, [(0%nat, Ok (as_duplicate prior))])
  | None =>
      match append with
      | Some err => (poison e err, [(0%nat, Err (runtime_error "durability_write_failed" err))])
      | None => (install_commit (apply_store e (mc_record (numbered e q))) (cf_DedupeWindow cfg) (numbered e q),
                 [(0%nat, Ok (lr_Result (mc_record (numbered e q))))])
      end
  end.
Proof.
  intros Hp. unfold commitGroup. rewrite Hp, split_one.
  destruct (dd_results (eg_dedupe e) !! lr_CommandID (mc_record q)); cbn [sg_unique]; [by rewrite bool_decide_true|].
  rewrite bool_decide_false by done. destruct append; [done|]. cbn [sg_unique sg_answers sg_repeats map snd fst omap list_omap app]. done.
Qed.

(** ** Equivalence of engines *)

(** What a client and a later recovery can tell apart: an entry that is missing
    stands for a fresh agent. *)
Record same_engine (e1 e2 : Engine) : Prop := {
  se_store : eg_store e1 = eg_store e2;
  se_dedupe : eg_dedupe e1 = eg_dedupe e2;
  se_sequence : eg_sequence e1 = eg_sequence e2;
  se_agent : ∀ id, agent_of e1 id = agent_of e2 id;
  se_checkpoint : ∀ id, en_checkpoint (entry e1 id) = en_checkpoint (entry e2 id);
  se_pending : ∀ id, en_goPending (entry e1 id) = en_goPending (entry e2 id);
  se_turns : ∀ id, en_goTurns (entry e1 id) = en_goTurns (entry e2 id) }.

#[export] Instance same_engine_equiv : Equivalence same_engine.
Proof.
  split.
  - by intros e.
  - intros e1 e2 []. split; intros; symmetry; auto.
  - intros e1 e2 e3 [] []. split; intros; etrans; eauto.
Qed.

Lemma same_set e id n :
  en_machine n = Some (agent_of e id) → en_checkpoint n = en_checkpoint (entry e id) →
  en_goPending n = en_goPending (entry e id) → en_goTurns n = en_goTurns (entry e id) → same_engine (set_entry e id n) e.
Proof.
  intros H1 H2 H3 H4. split; try done; intros id'; unfold agent_of; (destruct (decide (id = id')) as [<-|Hne];
    [rewrite entry_set|by rewrite entry_set_ne]); try done. by rewrite H1.
Qed.

Lemma engine_ok_same cfg e1 e2 : same_engine e1 e2 → engine_ok cfg e2 → engine_ok cfg e1.
Proof.
  intros [H1 H2 H3 H4 H5 H6 H7] [K1 K2 K3]. split; [by rewrite H1| |by rewrite H3].
  intros id. destruct (K2 id) as [Ka Kp]. unfold agent_of in H4. split; [by rewrite H4, H5|by rewrite H6, H7].
Qed.

Lemma same_poison e err : same_engine (poison e err) e.
Proof. by split. Qed.

(** ** The store *)

Lemma apply_accounts_ok m r :
  (∀ id a, m !! id = Some a → i64_range (ac_Balance a) ∧ u64_range (ac_Version a)) →
  i64_range (lr_NewBalanceA r) → i64_range (lr_NewBalanceB r) →
  ∀ id a, apply_accounts m r !! id = Some a → i64_range (ac_Balance a) ∧ u64_range (ac_Version a).
Proof.
  intros Hm Ha Hb. assert (∀ i, i64_range (ac_Balance (default zeroAccount (m !! i)))) as Hd.
  { intros i. destruct (m !! i) as [a|] eqn:E; [by apply (Hm i)|by vm_compute]. }
  assert (∀ x s a, i64_range x → i64_range (ac_Balance (bump a x s)) ∧ u64_range (ac_Version (bump a x s))) as Hbump
    by (intros; split; [done|apply u64_bound]).
  unfold apply_accounts. intros id a. repeat case_match; rewrite ?lookup_insert_Some; intros Hl;
    repeat (destruct Hl as [[<- <-]|[_ Hl]]); eauto. cbn [ac_Balance ac_Version]. split; [done|by vm_compute].
Qed.

Lemma store_apply_ok s r :
  store_ok s → i64_range (lr_NewBalanceA r) → i64_range (lr_NewBalanceB r) → store_ok (store_apply s r).
Proof.
  intros [H] Ha Hb. unfold store_apply. repeat case_match; [by split..|]. split. cbn [so_accounts]. by apply apply_accounts_ok.
Qed.

(** ** The log of the generated lane *)

Lemma rollback_machine n id m : rollback (with_machine n m) id = rollback n id.
Proof. done. Qed.

Lemma undo_same cfg e e1 id m : cf_GoBehavioralControl cfg = false → engine_ok cfg e →
  eg_store e1 = eg_store e → eg_dedupe e1 = eg_dedupe e → eg_sequence e1 = eg_sequence e →
  (∀ id', id ≠ id' → entry e1 id' = entry e id') → entry e1 id = with_machine (entry e id) m →
  ∀ st, same_engine (set_entry e1 id (rollback (entry e1 id) id st)) e.
Proof.
  intros Hg [_ Hk _] H1 H2 H3 H4 H5 st. rewrite H5, rollback_machine, (rollback_committed cfg id (entry e id) st Hg (Hk id)).
  fold (agent_of e id).
  split; try done; intros id'; unfold agent_of; (destruct (decide (id = id')) as [<-|Hne]; [by rewrite entry_set|]);
    rewrite entry_set_ne by done; by rewrite H4.
Qed.

Lemma entry_after_commit e r W q id : mc_agent q = id →
  entry (install_commit (apply_store e r) W q) id
  = let n := entry e id in
    match mc_install q with
    | InstallAgent cp =>
        {| en_machine := match en_machine n with
                         | Some m => Some (match AcceptCommitted m cp with Ok m => m | Err _ => m end)
                         | None => None
                         end;
           en_checkpoint := mc_checkpoint q; en_goPending := en_goPending n; en_goTurns := en_goTurns n |}
    | InstallGo p t => {| en_machine := en_machine n; en_checkpoint := mc_checkpoint q; en_goPending := p; en_goTurns := t |}
    end.
Proof. intros <-. unfold install_commit, entry at 1. cbn [eg_registry]. by rewrite lookup_insert_eq. Qed.

Lemma entry_after_commit_ne e r W q id : mc_agent q ≠ id → entry (install_commit (apply_store e r) W q) id = entry e id.
Proof. intros H. unfold install_commit, entry at 1. cbn [eg_registry]. by rewrite lookup_insert_ne. Qed.

Lemma delta_nonempty d : ParseAccountAgentDelta d = Ok d → d ≠ [].
Proof. by intros H ->. Qed.

(** The record of a committed turn leads recovery to the agent it left. *)
Lemma recover_committed cfg n owner c d cp delta m' :
  committed_at owner (prior_of (en_checkpoint n)) (default (NewDurableAccountAgent owner) (en_machine n)) →
  owner = i64 (cm_Account c) → ParseAccountAgentDelta delta = Ok delta →
  ApplyAccountAgentDelta (prior_of (en_checkpoint n)) owner delta = Ok cp → committed_at owner (Some cp) m' → cp ≠ [] →
  ∀ s, recoverAccountAgentCheckpoint n (with_sequence (decision_record c d (if cf_FullCheckpointWAL cfg then cp else [])
                                                   (if cf_FullCheckpointWAL cfg then [] else delta)) s) = Ok cp.
Proof.
  intros Hn -> Hp Ha Hm Hne s. pose proof (delta_nonempty _ Hp) as Hd. unfold recoverAccountAgentCheckpoint.
  destruct (cf_FullCheckpointWAL cfg);
    cbn [with_sequence decision_record command_record lr_FlowDelta lr_Checkpoint lr_AgentID].
  - rewrite (bool_decide_true (([] : bytes) = [])), (bool_decide_false (cp = [])) by done. cbn [negb andb guard_err res_bind].
    apply committed_parse in Hm as [-> _]. done.
  - rewrite (bool_decide_true (([] : bytes) = [])), (bool_decide_false (delta = [])) by done. cbn [negb andb guard_err res_bind].
    rewrite Hp. cbn [lift res_bind]. destruct (en_checkpoint n) as [|b l]; cbn [prior_of] in *.
    + cbn [res_bind]. by rewrite Ha.
    + apply committed_parse in Hn as [-> _]. cbn [lift res_bind]. by rewrite Ha.
Qed.

(** A prepared command, case by case. *)
Lemma execute_prepared cfg append e c e1 q :
  ValidateCommand c = Ok tt → prepare cfg no_failure e c = (e1, Ok q) → rs_Duplicate (lr_Result (mc_record q)) = false →
  execute cfg no_failure append e c =
  let undo e o := (finish cfg e (cm_Account c) o, [], o) in
  match eg_poisoned e1 with
  | Some err => undo e1 (Err (runtime_error "durability_write_failed" err))
  | None =>
      match dd_results (eg_dedupe e1) !! lr_CommandID (mc_record q) with
      | Some prior => undo e1 (Ok (as_duplicate prior))
      | None =>
          match append with
          | Some err => undo (poison e1 err) (Err (runtime_error "durability_write_failed" err))
          | None => (install_commit (apply_store e1 (mc_record (numbered e1 q))) (cf_DedupeWindow cfg) (numbered e1 q),
                     [mc_record (numbered e1 q)], Ok (lr_Result (mc_record (numbered e1 q))))
          end
      end
  end.
Proof.
  intros Hv Hp Hd. unfold execute. rewrite Hv, Hp. cbv zeta. destruct (eg_poisoned e1) as [err|] eqn:Ep.
  - rewrite bool_decide_false by done. unfold commitGroup. rewrite Ep. done.
  - rewrite bool_decide_true by done. rewrite (commit_one cfg e1 q append Ep), split_one. cbn [andb].
    destruct (dd_results (eg_dedupe e1) !! lr_CommandID (mc_record q)) as [prior|]; [by destruct (bool_decide (append = None))|].
    destruct append as [err|]; [by rewrite bool_decide_false|]. rewrite bool_decide_true by done.
    unfold finish. cbn [numbered sequenced mc_record with_sequence lr_Result rs_Duplicate]. rewrite Hd. done.
Qed.

Lemma finish_undo cfg e id o : cf_GoBehavioralControl cfg = false →
  match o with Err _ => True | Ok r => rs_Duplicate r = true end →
  finish cfg e id o = set_entry e id (rollback (entry e id) id (default (NewDurableAccountAgent (i64 id)) (en_machine (entry e id)))).
Proof. intros Hg Ho. unfold finish. rewrite Hg. destruct o as [r|]; [by rewrite Ho|done]. Qed.

(** ** A step of the generated lane *)

(** What the agent of a command sees, decides and leaves, and the record of it. *)
Definition seen_context (e : Engine) (c : Command) : CommandContext :=
  let '(a, aok, (b, bok)) := view (eg_store e) (cm_Account c) (cm_Other c) in toContext c a aok b bok.
Definition oct_decision (e : Engine) (c : Command) : TransitionDecision :=
  turn_decision (seen_context e c) (fl_board (da_machine (agent_of e (cm_Account c)))).
Definition oct_valid (e : Engine) (c : Command) : res gerror unit :=
  let '(a, aok, (b, bok)) := view (eg_store e) (cm_Account c) (cm_Other c) in validateDecision c a aok b bok (oct_decision e c).
Definition oct_checkpoint (e : Engine) (c : Command) : bytes := next_checkpoint (agent_of e (cm_Account c)) (seen_context e c).
Definition oct_record (cfg : Config) (e : Engine) (c : Command) (delta : bytes) : logRecord :=
  with_sequence (decision_record c (oct_decision e c) (if cf_FullCheckpointWAL cfg then oct_checkpoint e c else [])
                   (if cf_FullCheckpointWAL cfg then [] else delta)) (u64 (eg_sequence e + 1)).

(** The engine after a commit of record [r] that leaves the agent [n]. *)
Record committed (cfg : Config) (e : Engine) (r : logRecord) (n : agentEntry) (e' : Engine) : Prop := {
  cd_store : eg_store e' = store_apply (eg_store e) r;
  cd_dedupe : eg_dedupe e' = rememberResult (cf_DedupeWindow cfg) (eg_dedupe e) (lr_CommandID r) (lr_Result r);
  cd_sequence : eg_sequence e' = lr_Sequence r;
  cd_poisoned : eg_poisoned e' = None;
  cd_entry : entry e' (lr_AgentID r) = n;
  cd_others : ∀ id, lr_AgentID r ≠ id → entry e' id = entry e id }.

Inductive oct_case (cfg : Config) (append : option gerror) (e : Engine) (c : Command) : Engine → list logRecord → outcome → Prop :=
| oct_invalid e' err :
    oct_valid e c = Err err → same_engine e' e → eg_poisoned e' = eg_poisoned e →
    oct_case cfg append e c e' [] (Err (runtime_error "invalid_decision" err))
| oct_poisoned e' err :
    oct_valid e c = Ok tt → same_engine e' e → eg_poisoned e = Some err → eg_poisoned e' = Some err →
    oct_case cfg append e c e' [] (Err (runtime_error "durability_write_failed" err))
| oct_duplicate e' prior :
    oct_valid e c = Ok tt → same_engine e' e → eg_poisoned e = None → eg_poisoned e' = None →
    dd_results (eg_dedupe e) !! cm_ID c = Some prior → oct_case cfg append e c e' [] (Ok (as_duplicate prior))
| oct_append_failed e' err :
    oct_valid e c = Ok tt → same_engine e' e → eg_poisoned e = None → append = Some err → eg_poisoned e' = Some err →
    dd_results (eg_dedupe e) !! cm_ID c = None →
    oct_case cfg append e c e' [] (Err (runtime_error "durability_write_failed" err))
| oct_committed e' delta m' :
    oct_valid e c = Ok tt → eg_poisoned e = None → append = None → dd_results (eg_dedupe e) !! cm_ID c = None →
    ParseAccountAgentDelta delta = Ok delta →
    ApplyAccountAgentDelta (prior_of (en_checkpoint (entry e (cm_Account c)))) (i64 (cm_Account c)) delta = Ok (oct_checkpoint e c) →
    committed_at (i64 (cm_Account c)) (Some (oct_checkpoint e c)) m' →
    da_machine m' = flow_after (da_machine (agent_of e (cm_Account c))) (seen_context e c) →
    committed cfg e (oct_record cfg e c delta)
      {| en_machine := Some m'; en_checkpoint := oct_checkpoint e c; en_goPending := en_goPending (entry e (cm_Account c));
         en_goTurns := en_goTurns (entry e (cm_Account c)) |} e' →
    oct_case cfg append e c e' [oct_record cfg e c delta] (Ok (lr_Result (oct_record cfg e c delta))).

Lemma seen_context_ok cfg e c : engine_ok cfg e → command_ok c → context_ok (seen_context e c).
Proof.
  intros [Hs _ _] Hc. pose proof (toContext_ok _ c Hs Hc) as H. unfold seen_context, view.
  by destruct (view1 (eg_store e) (cm_Account c)), (view1 (eg_store e) (cm_Other c)).
Qed.

Lemma prepare_oct cfg e c : cf_GoBehavioralControl cfg = false → engine_ok cfg e → command_ok c →
  let id := cm_Account c in
  ∃ delta m', ParseAccountAgentDelta delta = Ok delta
    ∧ ApplyAccountAgentDelta (prior_of (en_checkpoint (entry e id))) (i64 id) delta = Ok (oct_checkpoint e c)
    ∧ AcceptCommitted (stepped (agent_of e id) (seen_context e c)) (oct_checkpoint e c) = Ok m'
    ∧ committed_at (i64 id) (Some (oct_checkpoint e c)) m'
    ∧ da_machine m' = flow_after (da_machine (agent_of e id)) (seen_context e c)
    ∧ prepare cfg no_failure e c
      = match oct_valid e c with
        | Err err => (set_entry e id (rollback (entry e id) id (stepped (agent_of e id) (seen_context e c))), Err (runtime_error "invalid_decision" err))
        | Ok _ => (set_entry e id (with_machine (entry e id) (stepped (agent_of e id) (seen_context e c))),
                   Ok {| mc_record := decision_record c (oct_decision e c) (if cf_FullCheckpointWAL cfg then oct_checkpoint e c else [])
                            (if cf_FullCheckpointWAL cfg then [] else delta);
                         mc_agent := id; mc_checkpoint := oct_checkpoint e c; mc_install := InstallAgent (oct_checkpoint e c) |})
        end.
Proof.
  intros Hg He Hc id. pose proof (seen_context_ok _ _ _ He Hc) as Hctx. pose proof (eo_agent _ _ _ (ek_entry _ _ He id) Hg) as Hm.
  unfold oct_valid, oct_decision, oct_checkpoint, seen_context, view in *. fold id in Hctx |- *.
  destruct (view1 (eg_store e) id) as [a aok] eqn:Ea. destruct (view1 (eg_store e) (cm_Other c)) as [b bok] eqn:Eb.
  destruct (process_oct_spec cfg (i64 id) _ (agent_of e id) c a aok b bok (i64_bound _) Hm Hctx) as (delta&m'&Hpd&Ha&Hacc&Hm'&Hmm&Hp).
  exists delta, m'. split_and!; try done. unfold prepare, view. fold id. rewrite Ea, Eb, Hg. cbv zeta. fold (agent_of e id). rewrite Hp.
  by destruct (validateDecision c a aok b bok _).
Qed.

Lemma oct_step cfg append e c : cf_GoBehavioralControl cfg = false → engine_ok cfg e → command_ok c → ValidateCommand c = Ok tt →
  ∃ e' l o, execute cfg no_failure append e c = (e', l, o) ∧ oct_case cfg append e c e' l o.
Proof.
  intros Hg He Hc Hv. destruct (prepare_oct cfg e c Hg He Hc) as (delta&m'&Hpd&Ha&Hacc&Hm'&Hmm&Hp). cbv zeta in Hp.
  set (id := cm_Account c) in *. set (n1 := with_machine (entry e id) (stepped (agent_of e id) (seen_context e c))) in *.
  destruct (oct_valid e c) as [[]|err] eqn:Ev.
  - assert (∀ e1 o, eg_store e1 = eg_store e → eg_dedupe e1 = eg_dedupe e → eg_sequence e1 = eg_sequence e →
      eg_registry e1 = eg_registry (set_entry e id n1) → match o with Err _ => True | Ok r => rs_Duplicate r = true end →
      same_engine (finish cfg e1 id o) e ∧ eg_poisoned (finish cfg e1 id o) = eg_poisoned e1) as Hundo.
    { intros e1 o H1 H2 H3 H4 Ho. rewrite finish_undo by done. split; [|done].
      assert (∀ id', entry e1 id' = entry (set_entry e id n1) id') as He1 by (intros id'; unfold entry; by rewrite H4).
      eapply (undo_same cfg e e1 id); try done; [intros id' Hne; by rewrite He1, entry_set_ne|by rewrite He1, entry_set]. }
    rewrite (execute_prepared cfg append e c _ _ Hv Hp) by done. cbv zeta. fold id. cbn [set_entry eg_poisoned eg_dedupe mc_record decision_record command_record lr_CommandID].
    destruct (eg_poisoned e) as [err|] eqn:Ep.
    { do 3 eexists. split; [reflexivity|]. match goal with |- oct_case _ _ _ _ (finish cfg ?e1 id ?o) _ _ => destruct (Hundo e1 o) as [H1 H2]; [done..|] end.
      eapply oct_poisoned; try done. by rewrite H2. }
    destruct (dd_results (eg_dedupe e) !! cm_ID c) as [prior|] eqn:Er.
    { do 3 eexists. split; [reflexivity|]. match goal with |- oct_case _ _ _ _ (finish cfg ?e1 id ?o) _ _ => destruct (Hundo e1 o) as [H1 H2]; [done..|] end.
      eapply oct_duplicate; try done. by rewrite H2. }
    destruct append as [err|].
    { do 3 eexists. split; [reflexivity|]. match goal with |- oct_case _ _ _ _ (finish cfg ?e1 id ?o) _ _ => destruct (Hundo e1 o) as [H1 H2]; [done..|] end.
      eapply oct_append_failed; try done. }
    eexists _, [oct_record cfg e c delta], (Ok (lr_Result (oct_record cfg e c delta))). split; [reflexivity|].
    apply (oct_committed cfg None e c _ delta m'); try done. split; try done.
    + change (lr_AgentID _) with id. rewrite (entry_after_commit _ _ _ _ id) by done. cbv zeta. cbn [numbered sequenced mc_agent mc_install mc_checkpoint].
      rewrite entry_set. cbn [n1 with_machine en_machine en_goPending en_goTurns]. by rewrite Hacc.
    + intros id' Hne. rewrite (entry_after_commit_ne _ _ _ _ id') by done. by apply entry_set_ne.
  - unfold execute. rewrite Hv, Hp. do 3 eexists. split; [done|]. eapply oct_invalid; [done| |done].
    rewrite (rollback_committed cfg id (entry e id) _ Hg (ek_entry _ _ He id)). by apply same_set.
Qed.

(** ** A step of the hand-written lane *)

Definition go_decision (e : Engine) (c : Command) : goDecision :=
  let '(a, aok, (b, bok)) := view (eg_store e) (cm_Account c) (cm_Other c) in
  decideGo c a aok b bok (en_goPending (entry e (cm_Account c))).
Definition go_commit (cfg : Config) (e : Engine) (c : Command) : m1Commit :=
  let '(a, aok, (b, bok)) := view (eg_store e) (cm_Account c) (cm_Other c) in processGoM1 cfg e c a aok b bok.
Definition go_record (cfg : Config) (e : Engine) (c : Command) : logRecord :=
  with_sequence (mc_record (go_commit cfg e c)) (u64 (eg_sequence e + 1)).
Definition go_entry (e : Engine) (c : Command) : agentEntry :=
  let n := entry e (cm_Account c) in
  let next := next_pending c (gd_accepted (go_decision e c)) (en_goPending n) in
  let turns := i64 (en_goTurns n + 1) in
  {| en_machine := en_machine n; en_checkpoint := print (goAgentCheckpoint_json next turns); en_goPending := next; en_goTurns := turns |}.

Inductive go_case (cfg : Config) (append : option gerror) (e : Engine) (c : Command) : Engine → list logRecord → outcome → Prop :=
| go_poisoned e' err :
    same_engine e' e → eg_poisoned e = Some err → eg_poisoned e' = Some err →
    go_case cfg append e c e' [] (Err (runtime_error "durability_write_failed" err))
| go_duplicate e' prior :
    same_engine e' e → eg_poisoned e = None → eg_poisoned e' = None →
    dd_results (eg_dedupe e) !! cm_ID c = Some prior → go_case cfg append e c e' [] (Ok (as_duplicate prior))
| go_append_failed e' err :
    same_engine e' e → eg_poisoned e = None → append = Some err → eg_poisoned e' = Some err →
    dd_results (eg_dedupe e) !! cm_ID c = None →
    go_case cfg append e c e' [] (Err (runtime_error "durability_write_failed" err))
| go_committed e' :
    eg_poisoned e = None → append = None → dd_results (eg_dedupe e) !! cm_ID c = None →
    committed cfg e (go_record cfg e c) (go_entry e c) e' →
    go_case cfg append e c e' [go_record cfg e c] (Ok (lr_Result (go_record cfg e c))).

Lemma same_set_self e id : same_engine (set_entry e id (entry e id)) e.
Proof.
  split; try done; intros id'; unfold agent_of; (destruct (decide (id = id')) as [<-|Hne]; [by rewrite entry_set|by rewrite entry_set_ne]).
Qed.

Lemma go_step cfg append e c : cf_GoBehavioralControl cfg = true → ValidateCommand c = Ok tt →
  ∃ e' l o, execute cfg no_failure append e c = (e', l, o) ∧ go_case cfg append e c e' l o.
Proof.
  intros Hg Hv. set (id := cm_Account c).
  assert (prepare cfg no_failure e c = (set_entry e id (entry e id), Ok (go_commit cfg e c))) as Hp.
  { unfold prepare, go_commit. fold id. destruct (view (eg_store e) id (cm_Other c)) as [[a aok] [b bok]]. by rewrite Hg. }
  assert (rs_Duplicate (lr_Result (mc_record (go_commit cfg e c))) = false ∧ lr_CommandID (mc_record (go_commit cfg e c)) = cm_ID c
    ∧ mc_agent (go_commit cfg e c) = id ∧ lr_AgentID (mc_record (go_commit cfg e c)) = id
    ∧ mc_install (go_commit cfg e c) = InstallGo (en_goPending (go_entry e c)) (en_goTurns (go_entry e c))
    ∧ mc_checkpoint (go_commit cfg e c) = en_checkpoint (go_entry e c)) as (Hd&Hid&Hag&Hal&Hin&Hcp).
  { unfold go_entry, go_commit, go_decision. destruct (view (eg_store e) (cm_Account c) (cm_Other c)) as [[a aok] [b bok]]. done. }
  assert (∀ e1 o, finish cfg e1 id o = e1) as Hfin by (intros; unfold finish; by rewrite Hg, andb_false_r).
  rewrite (execute_prepared cfg append e c _ _ Hv Hp Hd). cbv zeta. fold id. rewrite Hid. change (eg_poisoned (set_entry e id _)) with (eg_poisoned e).
  change (eg_dedupe (set_entry e id _)) with (eg_dedupe e). pose proof (same_set_self e id) as Hself.
  destruct (eg_poisoned e) as [err|] eqn:Ep; [do 3 eexists; split; [rewrite ?Hfin; reflexivity|]; by eapply go_poisoned|].
  destruct (dd_results (eg_dedupe e) !! cm_ID c) as [prior|] eqn:Er;
    [do 3 eexists; split; [rewrite ?Hfin; reflexivity|]; by eapply go_duplicate|].
  destruct append as [err|].
  { do 3 eexists. split; [rewrite ?Hfin; reflexivity|]. eapply go_append_failed; try done. etrans; [apply same_poison|done]. }
  eexists _, [go_record cfg e c], (Ok (lr_Result (go_record cfg e c))). split; [reflexivity|]. apply go_committed; try done.
  split; try done.
  - cbn [go_record with_sequence lr_AgentID]. rewrite Hal. rewrite (entry_after_commit _ _ _ _ id) by exact Hag. cbv zeta.
    cbn [numbered sequenced mc_install mc_checkpoint]. rewrite Hin, Hcp, entry_set. done.
  - cbn [go_record with_sequence lr_AgentID]. rewrite Hal. intros id' Hne. rewrite (entry_after_commit_ne _ _ _ _ id') by (change (mc_agent (go_commit cfg e c) ≠ id'); by rewrite Hag).
    by apply entry_set_ne.
Qed.

(** ** Replaying the log *)

Lemma unmarshal_goAgentCheckpoint_ok p t : u64_range (pt_Target p) → i64_range (pt_Amount p) → i64_range t →
  unmarshal_goAgentCheckpoint (print (goAgentCheckpoint_json p t)) = Ok (p, t).
Proof.
  intros Hu Ha Ht. destruct p as [a u n]. cbn [pt_Target pt_Amount] in *. unfold unmarshal_goAgentCheckpoint.
  rewrite parse_print; [|cbn; eauto 10|apply max_nesting_ge; cbn; lia]. cbn [mbind option_bind].
  unfold goAgentCheckpoint_json, into_struct. cbn [norm map fst snd pt_Active pt_Target pt_Amount zeroPending].
  cbn [fold_members]. unfold goAgentCheckpoint_member. cbn [fst snd]. eval_fields. unfold into_struct. cbn [fold_members].
  unfold pending_member. cbn [fst snd]. eval_fields. cbn [into_bool into_u64 into_int mbind option_bind].
  rewrite parse_uint64_dec by done. cbn [mbind option_bind]. rewrite parse_int64_dec_i64 by done. cbn [mbind option_bind into_int].
  rewrite parse_int64_dec_i64 by done. done.
Qed.

(** The engine after replaying a record that leaves the agent [n]. *)
Definition replayed (cfg : Config) (e : Engine) (r : logRecord) (n : agentEntry) : Engine :=
  {| eg_store := store_apply (eg_store e) r; eg_registry := <[lr_AgentID r := n]> (eg_registry e);
     eg_dedupe := rememberResult (cf_DedupeWindow cfg) (eg_dedupe e) (lr_CommandID r) (lr_Result r);
     eg_sequence := lr_Sequence r; eg_poisoned := eg_poisoned e |}.

Lemma committed_replayed cfg e r n e' e2 n2 :
  committed cfg e r n e' → same_engine e e2 →
  default (NewDurableAccountAgent (i64 (lr_AgentID r))) (en_machine n) = default (NewDurableAccountAgent (i64 (lr_AgentID r))) (en_machine n2) →
  en_checkpoint n = en_checkpoint n2 → en_goPending n = en_goPending n2 → en_goTurns n = en_goTurns n2 →
  same_engine e' (replayed cfg e2 r n2).
Proof.
  intros [C1 C2 C3 C4 C5 C6] [S1 S2 S3 S4 S5 S6 S7] H1 H2 H3 H4.
  assert (entry (replayed cfg e2 r n2) (lr_AgentID r) = n2) as Hn.
  { unfold entry, replayed. cbn [eg_registry]. by rewrite lookup_insert_eq. }
  assert (∀ id, lr_AgentID r ≠ id → entry (replayed cfg e2 r n2) id = entry e2 id) as Ho.
  { intros id Hne. unfold entry, replayed. cbn [eg_registry]. by rewrite lookup_insert_ne. }
  unfold agent_of in S4. split; cbn [replayed eg_store eg_dedupe eg_sequence]; [by rewrite C1, S1|by rewrite C2, S2|done|..];
    intros id; unfold agent_of; (destruct (decide (lr_AgentID r = id)) as [<-|Hne]; [by rewrite C5, Hn|rewrite C6, Ho by done; auto]).
Qed.

Lemma committed_engine_ok cfg e r n e' :
  committed cfg e r n e' → engine_ok cfg e → i64_range (lr_NewBalanceA r) → i64_range (lr_NewBalanceB r) → u64_range (lr_Sequence r) →
  entry_ok cfg (lr_AgentID r) n → engine_ok cfg e'.
Proof.
  intros [C1 C2 C3 C4 C5 C6] [K1 K2 K3] Ha Hb Hs Hn. split; [rewrite C1; by apply store_apply_ok| |by rewrite C3].
  intros id. destruct (decide (lr_AgentID r = id)) as [<-|Hne]; [by rewrite C5|rewrite C6 by done; apply K2].
Qed.

Lemma oct_decision_shape cfg e c : cf_GoBehavioralControl cfg = false → engine_ok cfg e → command_ok c → decision_shape (oct_decision e c).
Proof.
  intros Hg He Hc. pose proof (seen_context_ok _ _ _ He Hc) as Hctx. pose proof (eo_agent _ _ _ (ek_entry _ _ He (cm_Account c)) Hg) as Hm.
  destruct (committed_prior _ _ _ (i64_bound _) Hm) as (_&_&Hf&_). unfold oct_decision, turn_decision. apply Decide_shape; [done|].
  by apply turn_board_ok, Hf.
Qed.

Lemma oct_checkpoint_nonempty cfg e c : cf_GoBehavioralControl cfg = false → engine_ok cfg e → command_ok c → oct_checkpoint e c ≠ [].
Proof.
  intros Hg He Hc. pose proof (seen_context_ok _ _ _ He Hc) as Hctx. pose proof (eo_agent _ _ _ (ek_entry _ _ He (cm_Account c)) Hg) as Hm.
  destruct (committed_prior _ _ _ (i64_bound _) Hm) as (_&_&Hf&_). unfold oct_checkpoint, next_checkpoint.
  destruct (marshal_payload_cons (flow_payload (flow_after (da_machine (agent_of e (cm_Account c))) (seen_context e c)))) as (b&l&->); [|done].
  apply flow_payload_ok; [by apply flow_after_ok|apply flow_after_suspended].
Qed.

Lemma oct_case_log cfg append e c e' l o :
  cf_GoBehavioralControl cfg = false → engine_ok cfg e → command_ok c → oct_case cfg append e c e' l o →
  engine_ok cfg e' ∧ ∀ e2, same_engine e e2 → ∃ e2', replay cfg e2 l = Ok e2' ∧ same_engine e' e2'.
Proof.
  intros Hg He Hc Hcase.
  assert (∀ e1, same_engine e1 e → engine_ok cfg e1 ∧ ∀ e2, same_engine e e2 → ∃ e2', replay cfg e2 [] = Ok e2' ∧ same_engine e1 e2') as Hquiet.
  { intros e1 Hs. split; [by eapply engine_ok_same|]. intros e2 H2. exists e2. split; [done|by etrans]. }
  destruct Hcase as [e1 err _ Hs _|e1 err _ Hs _ _|e1 prior _ Hs _ _ _|e1 err _ Hs _ _ _ _|e1 delta m' Hv Hp Hap Hr Hpd Ha Hm' Hmm Hcd];
    try by apply Hquiet.
  pose proof (oct_checkpoint_nonempty cfg e c Hg He Hc) as Hne. pose proof (oct_decision_shape cfg e c Hg He Hc) as [_ _ _ Hints].
  pose proof (eo_agent _ _ _ (ek_entry _ _ He (cm_Account c)) Hg) as Hm. unfold decision_ints in Hints. forall_in Hints. split.
  - eapply committed_engine_ok; [exact Hcd|done|done|done|apply u64_bound|]. split; [|apply (ek_entry _ _ He)].
    intros _. cbn [en_checkpoint en_machine default oct_record with_sequence decision_record command_record lr_AgentID].
    destruct (oct_checkpoint e c); done.
  - intros e2 He2. pose proof He2 as [S1 S2 S3 S4 S5 S6 S7].
    set (n2 := {| en_machine := Some m'; en_checkpoint := oct_checkpoint e c; en_goPending := en_goPending (entry e2 (cm_Account c));
                  en_goTurns := en_goTurns (entry e2 (cm_Account c)) |}).
    exists (replayed cfg e2 (oct_record cfg e c delta) n2). split.
    + unfold replay. cbn [res_fold]. unfold replay_record. rewrite <- S3. cbn [oct_record with_sequence lr_Sequence]. rewrite Z.eqb_refl.
      cbn [negb guard_err res_bind]. rewrite Hg. change (lr_AgentID _) with (cm_Account c).
      fold (oct_record cfg e c delta). unfold oct_record.
      rewrite (recover_committed cfg (entry e2 (cm_Account c)) (i64 (cm_Account c)) c (oct_decision e c) (oct_checkpoint e c) delta m');
        [|unfold agent_of in S4; by rewrite <- S4, <- S5|done|done|by rewrite <- S5|done|done].
      cbn [recovery_error res_bind]. destruct (committed_parse _ _ _ Hm') as [_ ->]. done.
    + eapply committed_replayed; [exact Hcd|done|done|done|apply S6|apply S7].
Qed.

Lemma decideGo_ok c a aok b bok p : command_ok c → i64_range (ac_Balance a) → i64_range (ac_Balance b) →
  i64_range (gd_balanceA (decideGo c a aok b bok p)) ∧ i64_range (gd_balanceB (decideGo c a aok b bok p)).
Proof.
  intros [_ _ _ Hm] Ha Hb. unfold decideGo. repeat case_match; cbn [gd_balanceA gd_balanceB]; split; done || apply i64_bound.
Qed.

Lemma go_case_log cfg append e c e' l o :
  cf_GoBehavioralControl cfg = true → engine_ok cfg e → command_ok c → go_case cfg append e c e' l o →
  engine_ok cfg e' ∧ ∀ e2, same_engine e e2 → ∃ e2', replay cfg e2 l = Ok e2' ∧ same_engine e' e2'.
Proof.
  intros Hg He Hc Hcase.
  assert (∀ e1, same_engine e1 e → engine_ok cfg e1 ∧ ∀ e2, same_engine e e2 → ∃ e2', replay cfg e2 [] = Ok e2' ∧ same_engine e1 e2') as Hquiet.
  { intros e1 Hs. split; [by eapply engine_ok_same|]. intros e2 H2. exists e2. split; [done|by etrans]. }
  destruct Hcase as [e1 err Hs _ _|e1 prior Hs _ _ _|e1 err Hs _ _ _ _|e1 Hp Hap Hr Hcd]; try by apply Hquiet.
  assert (lr_AgentID (go_record cfg e c) = cm_Account c ∧ lr_Checkpoint (go_record cfg e c) = en_checkpoint (go_entry e c)
    ∧ i64_range (lr_NewBalanceA (go_record cfg e c)) ∧ i64_range (lr_NewBalanceB (go_record cfg e c))) as (Hag&Hcp&Ha&Hb).
  { unfold go_record, go_commit, go_entry, go_decision, view.
    pose proof (view1_ok _ (cm_Account c) (ek_store _ _ He)) as [Va _]. pose proof (view1_ok _ (cm_Other c) (ek_store _ _ He)) as [Vb _].
    destruct (view1 (eg_store e) (cm_Account c)) as [a aok], (view1 (eg_store e) (cm_Other c)) as [b bok]. cbn [fst] in *.
    split; [done|]. split; [done|]. by apply decideGo_ok. }
  assert (entry_ok cfg (cm_Account c) (go_entry e c)) as Hn.
  { split; [by rewrite Hg|]. unfold go_entry. cbn [en_goPending en_goTurns].
    destruct (eo_pending _ _ _ (ek_entry _ _ He (cm_Account c))) as (P1&P2&_). destruct Hc as [_ _ Ho Hm].
    split_and!; [| |apply i64_bound]; unfold next_pending; repeat case_match; cbn [pt_Target pt_Amount zeroPending]; done || by vm_compute. }
  split; [eapply committed_engine_ok; [exact Hcd|done|done|done|apply u64_bound|by rewrite Hag]|].
  intros e2 He2. pose proof He2 as [S1 S2 S3 S4 S5 S6 S7].
  set (n2 := {| en_machine := en_machine (entry e2 (cm_Account c)); en_checkpoint := en_checkpoint (go_entry e c);
                en_goPending := en_goPending (go_entry e c); en_goTurns := en_goTurns (go_entry e c) |}).
  exists (replayed cfg e2 (go_record cfg e c) n2). split.
  - unfold replay. cbn [res_fold]. unfold replay_record. rewrite <- S3. change (lr_Sequence (go_record cfg e c)) with (u64 (eg_sequence e + 1)).
    rewrite Z.eqb_refl. cbn [negb guard_err res_bind]. rewrite Hg, Hag, Hcp. destruct (eo_pending _ _ _ Hn) as (P1&P2&P3).
    change (en_checkpoint (go_entry e c)) with (print (goAgentCheckpoint_json (en_goPending (go_entry e c)) (en_goTurns (go_entry e c)))).
    rewrite unmarshal_goAgentCheckpoint_ok by done. cbn [recovery_error res_bind]. unfold replayed. by rewrite Hag.
  - eapply committed_replayed; [exact Hcd|done| |done|done|done]. rewrite Hag. apply S4.
Qed.

Lemma execute_log cfg append e c e' l o : engine_ok cfg e → command_ok c → execute cfg no_failure append e c = (e', l, o) →
  engine_ok cfg e' ∧ ∀ e2, same_engine e e2 → ∃ e2', replay cfg e2 l = Ok e2' ∧ same_engine e' e2'.
Proof.
  intros He Hc Hx. destruct (ValidateCommand c) as [[]|err] eqn:Hv.
  - destruct (cf_GoBehavioralControl cfg) eqn:Hg.
    + destruct (go_step cfg append e c Hg Hv) as (e1&l1&o1&E&Hcase). rewrite E in Hx. simplify_eq. by eapply go_case_log.
    + destruct (oct_step cfg append e c Hg He Hc Hv) as (e1&l1&o1&E&Hcase). rewrite E in Hx. simplify_eq. by eapply oct_case_log.
  - unfold execute in Hx. rewrite Hv in Hx. simplify_eq. split; [done|]. intros e2 H2. by exists e2.
Qed.

Lemma fresh_engine_ok cfg : engine_ok cfg new_engine.
Proof.
  split; [by split|intros id|by vm_compute]. split; [intros _; cbn; constructor|by vm_compute].
Qed.

Lemma run_log cfg cs e e' l os : engine_ok cfg e → Forall (λ ca, command_ok ca.1) cs → run cfg e cs = (e', l, os) →
  engine_ok cfg e' ∧ ∀ e2, same_engine e e2 → ∃ e2', replay cfg e2 l = Ok e2' ∧ same_engine e' e2'.
Proof.
  revert e e' l os. induction cs as [|[c append] cs IH]; intros e e' l os He Hc Hr; cbn [run] in Hr.
  { simplify_eq. split; [done|]. intros e2 H2. by exists e2. }
  apply Forall_cons in Hc as [Hc Hcs]. destruct (execute cfg no_failure append e c) as [[e1 l1] o1] eqn:Ex.
  destruct (run cfg e1 cs) as [[e3 l3] os3] eqn:Er. simplify_eq. destruct (execute_log _ _ _ _ _ _ _ He Hc Ex) as [He1 H1].
  destruct (IH _ _ _ _ He1 Hcs Er) as [He3 H3]. split; [done|]. intros e2 H2. destruct (H1 _ H2) as (e4&R4&S4).
  destruct (H3 _ S4) as (e5&R5&S5). exists e5. split; [|done]. unfold replay in *. by rewrite res_fold_app, R4.
Qed.
