(* ===== verification/ResearchLanes.v ===== *)
(** * The two lanes of the research engine, and what it remembers

    The generated agent and the hand-written control give the same answers and
    build the same accounts, as long as no decision of the agent is refused. *)

From Stdlib Require Import ZArith Lia Strings.Byte Strings.String.
From stdpp Require Import base decidable countable list gmap sorting.
From S2P Require Import Prelude GoText GoBinary GoJson Errors AccountAgent AgentLemmas AgentDelta AgentTheorems Research ResearchLemmas ResearchEngine ResearchSystem.

Local Open Scope Z_scope.
Local Open Scope go_scope.

(** Every decision repeats its context. *)
Definition of_context (c : CommandContext) (count : Z) (d : TransitionDecision) : Prop :=
  ∃ ok r e x y s, d = agent_decision c ok r e x y s count.

Lemma Decide_context c count w t m : of_context c count (Decide c count w t m).
Proof.
  assert (∀ r, of_context c count (refuse c count r)) as H1 by (intros; by do 6 eexists).
  assert (∀ r e x y s, of_context c count (accept c count r e x y s)) as H2 by (intros; by do 6 eexists).
  assert (∀ o : option TransitionDecision, (∀ d, o = Some d → of_context c count d) → ∀ d', of_context c count d' →
    of_context c count (match o with Some d => d | None => d' end)) as H3 by (intros [d|] ? ?; eauto).
  unfold Decide. generalize (DecideCode c w t m). intros code. apply H3; [|apply H3; [|apply H3; [|apply H1]]];
    unfold decide_account, decide_move, decide_status;
    repeat match goal with
    | |- ∀ d, (if ?b then Some _ else _) = Some d → _ => destruct b
    | |- ∀ d, None = Some d → _ => intros ? [=]
    | |- ∀ d, Some _ = Some d → _ => intros ? [= <-]
    end; auto.
Qed.

Lemma turn_count ctx b : td_TransitionCount (turn_decision ctx b) = i64 (bd_TransitionCount b + 1).
Proof.
  unfold turn_decision. destruct (Decide_context ctx (bd_TransitionCount (turn_board ctx b)) (bd_WasPending (turn_board ctx b))
    (bd_PendingTarget (turn_board ctx b)) (bd_PendingAmount (turn_board ctx b))) as (?&?&?&?&?&?&->). cbn [agent_decision td_TransitionCount].
  unfold turn_board, end_pending, begin_pending. by repeat case_match.
Qed.

Lemma turn_board_count ctx b : bd_TransitionCount (turn_board ctx b) = i64 (bd_TransitionCount b + 1).
Proof. unfold turn_board, end_pending, begin_pending. by repeat case_match. Qed.

(** The agent's decision is refused only for a negative balance. *)
Lemma oct_valid_cases e c : oct_valid e c =
  if td_Accepted (oct_decision e c) && (td_NewBalanceA (oct_decision e c) <? 0) then Err (EMsg "negative accepted balance")
  else let '(a, aok, (b, bok)) := view (eg_store e) (cm_Account c) (cm_Other c) in
    guard_err (td_Accepted (oct_decision e c) && (nm_Tag (td_Effect (oct_decision e c)) =? EffectKind_Transfer_tag) && (negb aok || negb bok))
      (EMsg "transfer effect references missing account").
Proof.
  unfold oct_valid, oct_decision, seen_context. destruct (view (eg_store e) (cm_Account c) (cm_Other c)) as [[a aok] [b bok]].
  unfold turn_decision. set (board := turn_board _ _). destruct (Decide_context (toContext c a aok b bok) (bd_TransitionCount board)
    (bd_WasPending board) (bd_PendingTarget board) (bd_PendingAmount board)) as (ok&r&ef&x&y&s&->). unfold validateDecision.
  cbn [agent_decision td_AccountA td_AccountB td_Amount td_ExpectedVersionA td_ExpectedVersionB td_Accepted td_NewBalanceA td_Effect
    toContext cc_AccountA cc_AccountB cc_Amount cc_VersionA cc_VersionB]. rewrite !Z.eqb_refl. cbn [negb orb guard_err res_bind].
  by destruct (ok && (x <? 0)).
Qed.

(** ** The relation between the lanes *)

Record lanes (e1 e2 : Engine) : Prop := {
  ln_store : eg_store e1 = eg_store e2;
  ln_dedupe : eg_dedupe e1 = eg_dedupe e2;
  ln_sequence : eg_sequence e1 = eg_sequence e2;
  ln_poisoned : eg_poisoned e1 = eg_poisoned e2;
  ln_agent : ∀ id, lane_rel (fl_board (da_machine (agent_of e1 id))) (en_goPending (entry e2 id));
  ln_turns : ∀ id, bd_TransitionCount (fl_board (da_machine (agent_of e1 id))) = en_goTurns (entry e2 id) }.

Lemma lanes_same e1 e2 e1' e2' : lanes e1 e2 → same_engine e1' e1 → same_engine e2' e2 → eg_poisoned e1' = eg_poisoned e2' → lanes e1' e2'.
Proof.
  intros [L1 L2 L3 L4 L5 L6] [A1 A2 A3 A4 A5 A6 A7] [B1 B2 B3 B4 B5 B6 B7] Hp.
  split; [by rewrite A1, B1|by rewrite A2, B2|by rewrite A3, B3|done|intros id; rewrite A4, B6; apply L5|intros id; rewrite A4, B7; apply L6].
Qed.

Lemma lanes_decide e1 e2 c : command_ok c → lanes e1 e2 →
  decision_agrees (oct_decision e1 c) (go_decision e2 c)
  ∧ lane_rel (turn_board (seen_context e1 c) (fl_board (da_machine (agent_of e1 (cm_Account c))))) (en_goPending (go_entry e2 c)).
Proof.
  intros Hc [L1 L2 L3 L4 L5 L6]. unfold oct_decision, go_entry, go_decision, seen_context. rewrite L1.
  destruct (view (eg_store e2) (cm_Account c) (cm_Other c)) as [[a aok] [b bok]]. cbn [en_goPending]. by apply lane_turn.
Qed.

Lemma store_apply_agree s r1 r2 :
  lr_Sequence r1 = lr_Sequence r2 → lr_CommandID r1 = lr_CommandID r2 → lr_AccountA r1 = lr_AccountA r2 → lr_AccountB r1 = lr_AccountB r2 →
  lr_Amount r1 = lr_Amount r2 → lr_Result r1 = lr_Result r2 → lr_EffectTag r1 = lr_EffectTag r2 → lr_NewBalanceA r1 = lr_NewBalanceA r2 →
  lr_NewBalanceB r1 = lr_NewBalanceB r2 → (lr_EffectTag r2 = 4 → lr_NewStatusTag r1 = lr_NewStatusTag r2) → store_apply s r1 = store_apply s r2.
Proof.
  intros E1 E2 E3 E4 E5 E6 E7 E8 E9 E10. unfold store_apply, apply_accounts. rewrite E1, E2, E3, E4, E5, E6, E7, E8, E9.
  destruct (rs_Accepted (lr_Result r2)); [|done]. cbn [negb]. destruct ((lr_EffectTag r2 <? 1) || (4 <? lr_EffectTag r2)) eqn:Ee; [done|].
  do 3 (case_match; [done|]). rewrite E10; [done|]. apply orb_false_iff in Ee. lia.
Qed.

Lemma lanes_record cfg1 cfg2 e1 e2 c delta : command_ok c → lanes e1 e2 → ∀ s,
  lr_Result (oct_record cfg1 e1 c delta) = lr_Result (go_record cfg2 e2 c)
  ∧ store_apply s (oct_record cfg1 e1 c delta) = store_apply s (go_record cfg2 e2 c).
Proof.
  intros Hc L s. destruct (lanes_decide _ _ _ Hc L) as [[D1 D2 D3 D4 D5 D6] _]. pose proof L as [L1 L2 L3 L4 L5 L6].
  assert (lr_Result (oct_record cfg1 e1 c delta) = lr_Result (go_record cfg2 e2 c)) as Hr.
  { unfold oct_record, go_record, go_commit. unfold go_decision in D1, D2, D3. pose proof (L6 (cm_Account c)) as Ht.
    destruct (view (eg_store e2) (cm_Account c) (cm_Other c)) as [[a aok] [b bok]].
    cbn [with_sequence decision_record command_record processGoM1 mc_record lr_Result pending_result rs_CommandID rs_Accepted rs_ReasonTag
      rs_EffectTag rs_TransitionCount rs_Duplicate]. rewrite L3, D1, D2, D3. unfold oct_decision. by rewrite turn_count, Ht. }
  split; [done|]. apply store_apply_agree; try done; unfold oct_record, go_record, go_commit; unfold go_decision in *;
    destruct (view (eg_store e2) (cm_Account c) (cm_Other c)) as [[a aok] [b bok]];
    cbn [with_sequence decision_record command_record processGoM1 mc_record lr_Sequence lr_CommandID lr_AccountA lr_AccountB lr_Amount
      lr_EffectTag lr_NewBalanceA lr_NewBalanceB lr_NewStatusTag]; try done. by rewrite L3.
Qed.

Lemma engine_lanes_step cfg1 cfg2 append e1 e2 c :
  cf_GoBehavioralControl cfg1 = false → cf_GoBehavioralControl cfg2 = true → cf_DedupeWindow cfg1 = cf_DedupeWindow cfg2 →
  engine_ok cfg1 e1 → command_ok c → lanes e1 e2 →
  let '(e1', l1, o1) := execute cfg1 no_failure append e1 c in
  let '(e2', l2, o2) := execute cfg2 no_failure append e2 c in
  (∃ err, o1 = Err (runtime_error "invalid_decision" err)) ∨ o1 = o2 ∧ lanes e1' e2' ∧ length l1 = length l2.
Proof.
  intros Hg1 Hg2 Hw He Hc L. destruct (ValidateCommand c) as [[]|err] eqn:Hv; [|unfold execute; rewrite Hv; by right].
  destruct (oct_step cfg1 append e1 c Hg1 He Hc Hv) as (e1'&l1&o1&E1&C1). destruct (go_step cfg2 append e2 c Hg2 Hv) as (e2'&l2&o2&E2&C2).
  rewrite E1, E2. pose proof L as [L1 L2 L3 L4 L5 L6].
  destruct C1 as [e1' err Hval Hs Hp|e1' err Hval Hs Hp Hp'|e1' prior Hval Hs Hp Hp' Hr|e1' err Hval Hs Hp Ha Hp' Hr|
    e1' delta m' Hval Hp Ha Hr Hpd Had Hm Hmm Hcd]; [by left; eexists|right..];
  destruct C2 as [e2' err2 Gs Gp Gp'|e2' prior2 Gs Gp Gp' Gr|e2' err2 Gs Gp Ga Gp' Gr|e2' Gp Ga Gr Gcd]; 
    rewrite L4 in Hp; try rewrite L2 in Hr; try congruence.
  - rewrite Hp in Gp. injection Gp as <-. split_and!; [done|eapply lanes_same; eauto; congruence|done].
  - rewrite Hr in Gr. injection Gr as <-. split_and!; [done|eapply lanes_same; eauto; congruence|done].
  - rewrite Ha in Ga. injection Ga as <-. split_and!; [done|eapply lanes_same; eauto; congruence|done].
  - destruct (lanes_record cfg1 cfg2 e1 e2 c delta Hc L (eg_store e2)) as [Hres Hst]. split_and!; [by rewrite Hres| |done].
    destruct (lanes_decide _ _ _ Hc L) as [_ Hrel]. destruct Hcd as [A1 A2 A3 A4 A5 A6]. destruct Gcd as [B1 B2 B3 B4 B5 B6].
    assert (lr_AgentID (oct_record cfg1 e1 c delta) = cm_Account c ∧ lr_CommandID (oct_record cfg1 e1 c delta) = cm_ID c
      ∧ lr_Sequence (oct_record cfg1 e1 c delta) = u64 (eg_sequence e1 + 1)) as (I1&I2&I3) by done.
    assert (lr_AgentID (go_record cfg2 e2 c) = cm_Account c ∧ lr_CommandID (go_record cfg2 e2 c) = cm_ID c
      ∧ lr_Sequence (go_record cfg2 e2 c) = u64 (eg_sequence e2 + 1)) as (J1&J2&J3).
    { unfold go_record, go_commit. by destruct (view (eg_store e2) (cm_Account c) (cm_Other c)) as [[a aok] [b bok]]. }
    rewrite I1 in A5, A6. rewrite J1 in B5, B6.
    split; [by rewrite A1, B1, L1|by rewrite A2, B2, L2, Hw, I2, J2, Hres|by rewrite A3, B3, I3, J3, L3|by rewrite A4, B4|..];
      intros id'; unfold agent_of; (destruct (decide (cm_Account c = id')) as [<-|Hne]; [rewrite A5, B5|rewrite A6, B6 by done; first [apply L5|apply L6]]);
      cbn [en_machine from_option id]; rewrite Hmm; cbn [flow_after fl_board].
    + done.
    + rewrite turn_board_count, L6. done.
Qed.

(** ** The hand-written decision at the agent's board *)

(** The hand-written lane at the agent's board. *)
Definition board_pending (b : AgentBoard) : pendingTransfer :=
  {| pt_Active := bd_Pending b; pt_Target := u64 (bd_PendingTarget b); pt_Amount := bd_PendingAmount b |}.
Lemma i64_of_u64 v : i64_range v → i64 (u64 v) = v.
Proof.
  unfold i64_range, i64, u64. intros H. rewrite Zplus_mod_idemp_l, Z.mod_small by lia. lia.
Qed.
Lemma board_pending_rel b : board_ok b → lane_rel b (board_pending b).
Proof. intros (_&Ht&_). split; [done|]. intros _. cbn. split; [by rewrite i64_of_u64|]. split; [done|apply u64_bound]. Qed.

(** The hand-written decision for the command and the account views of [e]. *)
Lemma agrees_for e c p : command_ok c → lane_rel (fl_board (da_machine (agent_of e (cm_Account c)))) p →
  let '(a, aok, (b, bok)) := view (eg_store e) (cm_Account c) (cm_Other c) in
  decision_agrees (oct_decision e c) (decideGo c a aok b bok p).
Proof.
  intros Hc Hr. unfold oct_decision, seen_context. destruct (view (eg_store e) (cm_Account c) (cm_Other c)) as [[a aok] [b bok]].
  by apply lane_turn.
Qed.

(** ** The window of remembered results

    The engine remembers the results of the last commands it logged, as many as
    its window holds. *)

Definition last_n {A} (n : nat) (l : list A) : list A := drop (length l - n) l.
Definition memo (r : logRecord) : bytes * Result := (lr_CommandID r, lr_Result r).

Lemma last_n_snoc {A} n (l : list A) x : last_n n (last_n n l ++ [x]) = last_n n (l ++ [x]).
Proof.
  unfold last_n. rewrite !length_app, length_drop. cbn [length]. destruct (Nat.le_gt_cases (length l) n) as [H|H].
  - replace (length l - n)%nat with 0%nat by lia. rewrite drop_0. f_equal. lia.
  - replace (length l - (length l - n) + 1 - n)%nat with 1%nat by lia. replace (length l + 1 - n)%nat with (1 + (length l - n))%nat by lia.
    destruct n as [|n].
    + rewrite (drop_ge l) by lia. rewrite (drop_ge (l ++ [x])) by (rewrite length_app; cbn; lia). done.
    + rewrite Nat.add_comm, <- drop_drop. f_equal. rewrite drop_app_le by lia. done.
Qed.

(** The window holds the pairs [rs], oldest first. *)
Record remembers (W : nat) (d : dedupe) (rs : list (bytes * Result)) : Prop := {
  rm_head : (dd_head d ≤ length (dd_order d))%nat;
  rm_order : drop (dd_head d) (dd_order d) = rs.*1;
  rm_results : dd_results d = list_to_map rs;
  rm_nodup : NoDup rs.*1;
  rm_length : (length rs ≤ W)%nat }.

Lemma list_to_map_snoc (l : list (bytes * Result)) k v : k ∉ l.*1 → (list_to_map (l ++ [(k, v)]) : gmap bytes Result) = <[k := v]> (list_to_map l).
Proof.
  intros Hk. rewrite list_to_map_app. cbn. rewrite <- insert_union_r by by apply not_elem_of_list_to_map_1. by rewrite map_union_empty.
Qed.

Lemma remember_result W d rs id r : remembers W d rs → dd_results d !! id = None →
  remembers W (rememberResult W d id r) (last_n W (rs ++ [(id, r)])).
Proof.
  intros [Hh Ho Hm Hn Hl] Hid. assert (id ∉ rs.*1) as Hni by (apply not_elem_of_list_to_map_2; by rewrite <- Hm).
  assert (length rs = length (dd_order d) - dd_head d)%nat as Hlen by (rewrite <- length_drop, Ho; by rewrite length_fmap).
  assert (NoDup (rs ++ [(id, r)]).*1) as Hnd.
  { rewrite fmap_app. apply NoDup_app. split_and!; [done| |apply NoDup_singleton]. cbn. intros x Hx ->%list_elem_of_singleton. done. }
  assert (drop (dd_head d) (dd_order d ++ [id]) = (rs ++ [(id, r)]).*1) as Hord by (rewrite drop_app_le by done; by rewrite Ho, fmap_app).
  assert (<[id := r]> (dd_results d) = list_to_map (rs ++ [(id, r)])) as Hmap by (rewrite list_to_map_snoc by done; by rewrite Hm).
  unfold rememberResult, last_n. rewrite !length_app. cbn [length].
  replace (length (dd_order d) + 1 - dd_head d)%nat with (S (length rs)) by lia.
  destruct (Nat.ltb_spec W (S (length rs))) as [Hgt|Hle].
  - assert (length rs = W) as HW by lia. replace (length rs + 1 - W)%nat with 1%nat by lia.
    destruct (rs ++ [(id, r)]) as [|[k v] rs'] eqn:Ers; [by destruct rs|]. cbn [drop fmap list_fmap fst] in *.
    assert ((dd_order d ++ [id]) !! dd_head d = Some k) as ->.
    { rewrite <- (Nat.add_0_r (dd_head d)), <- lookup_drop, Hord. done. }
    assert (drop (S (dd_head d)) (dd_order d ++ [id]) = rs'.*1) as Hord'.
    { replace (S (dd_head d)) with (dd_head d + 1)%nat by lia. rewrite <- drop_drop, Hord. done. }
    apply NoDup_cons in Hnd as [Hk Hnd].
    assert (delete k (<[id := r]> (dd_results d)) = list_to_map rs') as Hdel.
    { rewrite Hmap. cbn. rewrite delete_insert_id; [done|]. by apply not_elem_of_list_to_map_1. }
    assert (length rs' = W) as Hl' by (apply (f_equal length) in Ers; rewrite length_app in Ers; cbn in Ers; lia).
    destruct (Nat.leb W (S (dd_head d)) && _); split; cbn [dd_head dd_order dd_results]; rewrite ?drop_0, ?drop_drop, ?length_app; cbn [length]; try done; try lia.
  - replace (length rs + 1 - W)%nat with 0%nat by lia. rewrite drop_0.
    destruct (Nat.leb W (dd_head d) && _); split; cbn [dd_head dd_order dd_results]; rewrite ?drop_0, ?length_app; cbn [length]; try done; try lia.
Qed.

Lemma remember_committed W d log r : remembers W d (memo <$> last_n W log) → dd_results d !! lr_CommandID r = None →
  remembers W (rememberResult W d (lr_CommandID r) (lr_Result r)) (memo <$> last_n W (log ++ [r])).
Proof.
  intros Hr Hn. rewrite <- last_n_snoc. unfold last_n at 1. rewrite fmap_drop, fmap_app. replace (length (last_n W log ++ [r]) - W)%nat
    with (length ((memo <$> last_n W log) ++ [memo r]) - W)%nat by (by rewrite !length_app, length_fmap). by apply remember_result.
Qed.

Lemma go_record_id cfg e c : lr_CommandID (go_record cfg e c) = cm_ID c.
Proof. unfold go_record, go_commit. by destruct (view (eg_store e) (cm_Account c) (cm_Other c)) as [[a aok] [b bok]]. Qed.

Lemma execute_remembers cfg append e c e' l o (log : list logRecord) :
  engine_ok cfg e → command_ok c → execute cfg no_failure append e c = (e', l, o) →
  remembers (cf_DedupeWindow cfg) (eg_dedupe e) (memo <$> last_n (cf_DedupeWindow cfg) log) →
  remembers (cf_DedupeWindow cfg) (eg_dedupe e') (memo <$> last_n (cf_DedupeWindow cfg) (log ++ l)).
Proof.
  intros He Hc Hx Hr. set (W := cf_DedupeWindow cfg) in *.
  assert (∀ r, dd_results (eg_dedupe e) !! lr_CommandID r = None → eg_dedupe e' = rememberResult W (eg_dedupe e) (lr_CommandID r) (lr_Result r) →
    remembers W (eg_dedupe e') (memo <$> last_n W (log ++ [r]))) as Hcommit by (intros r Hn ->; by apply remember_committed).
  assert (∀ e1, same_engine e1 e → remembers W (eg_dedupe e1) (memo <$> last_n W (log ++ []))) as Hquiet.
  { intros e1 [_ -> _ _ _ _ _]. by rewrite app_nil_r. }
  destruct (ValidateCommand c) as [[]|verr] eqn:Hv.
  - destruct (cf_GoBehavioralControl cfg) eqn:Hg.
    + destruct (go_step cfg append e c Hg Hv) as (e1&l1&o1&E&C). rewrite E in Hx. simplify_eq.
      destruct C as [e1 err Hs|e1 prior Hs|e1 err Hs|e1 Hp Ha Hn [_ Hd _ _ _ _]]; [by apply Hquiet..|].
      apply Hcommit; [by rewrite go_record_id|done].
    + destruct (oct_step cfg append e c Hg He Hc Hv) as (e1&l1&o1&E&C). rewrite E in Hx. simplify_eq.
      destruct C as [e1 err _ Hs _|e1 err _ Hs _ _|e1 prior _ Hs _ _ _|e1 err _ Hs _ _ _ _|e1 delta m' _ _ _ Hn _ _ _ _ [_ Hd _ _ _ _]];
        [by apply Hquiet..|]. by apply Hcommit.
  - unfold execute in Hx. rewrite Hv in Hx. simplify_eq. by apply Hquiet.
Qed.

Lemma run_remembers cfg cs e e' l os (log : list logRecord) :
  engine_ok cfg e → Forall (λ ca, command_ok ca.1) cs → run cfg e cs = (e', l, os) →
  remembers (cf_DedupeWindow cfg) (eg_dedupe e) (memo <$> last_n (cf_DedupeWindow cfg) log) →
  remembers (cf_DedupeWindow cfg) (eg_dedupe e') (memo <$> last_n (cf_DedupeWindow cfg) (log ++ l)).
Proof.
  revert e e' l os log. induction cs as [|[c append] cs IH]; intros e e' l os log He Hc Hx Hr; cbn [run] in Hx.
  { simplify_eq. by rewrite app_nil_r. }
  apply Forall_cons in Hc as [Hc Hcs]. destruct (execute cfg no_failure append e c) as [[e1 l1] o1] eqn:Ex.
  destruct (run cfg e1 cs) as [[e2 l2] os2] eqn:Er. simplify_eq. destruct (execute_log _ _ _ _ _ _ _ He Hc Ex) as [He1 _].
  rewrite app_assoc. eapply (IH e1); [done|done|exact Er|]. eapply execute_remembers; [exact He|exact Hc|exact Ex|exact Hr].
Qed.
