(* ===== verification/ResearchTheorems.v ===== *)
(** * Theorems on the research engine

    The log recovers the engine, the two lanes agree, the agent's decisions are
    refused only for overflow, results are remembered for exactly the last
    commands of the window, and every request of a group is answered once. *)

From Stdlib Require Import ZArith Lia Strings.Byte Strings.String.
From stdpp Require Import base decidable countable list gmap sorting.
From S2P Require Import Prelude GoText GoBinary GoJson Errors AccountAgent AgentLemmas AgentDelta AgentTheorems Research ResearchLemmas ResearchEngine ResearchSystem ResearchLanes.

Local Open Scope Z_scope.
Local Open Scope go_scope.

(** whatever commands ran, in either lane and with full
    checkpoints or deltas in the log, and wherever an append failed, replaying
    the records that were appended over an empty engine succeeds and gives the
    same accounts and ledger, the same remembered results, the same sequence and
    for every account the same agent with the same committed frontier. *)
Theorem research_recovers (cfg : Config) (cs : list (Command * option gerror)) :
  Forall (λ ca, command_ok ca.1) cs →
  ∃ e', replay cfg new_engine (run cfg new_engine cs).1.2 = Ok e' ∧ same_engine (run cfg new_engine cs).1.1 e'.
Proof.
  intros Hc. destruct (run cfg new_engine cs) as [[e l] os] eqn:Er. cbn [fst snd].
  destruct (run_log cfg cs new_engine e l os (fresh_engine_ok cfg) Hc Er) as [_ H]. by apply H.
Qed.

Lemma new_lanes : lanes new_engine new_engine.
Proof. by split. Qed.

Lemma run_lanes cfg1 cfg2 cs e1 e2 :
  cf_GoBehavioralControl cfg1 = false → cf_GoBehavioralControl cfg2 = true → cf_DedupeWindow cfg1 = cf_DedupeWindow cfg2 →
  engine_ok cfg1 e1 → Forall (λ ca, command_ok ca.1) cs → lanes e1 e2 →
  let '(e1', _, os1) := run cfg1 e1 cs in let '(e2', _, os2) := run cfg2 e2 cs in
  Forall (λ o, ∀ err, o ≠ Err (runtime_error "invalid_decision" err)) os1 → os1 = os2 ∧ lanes e1' e2'.
Proof.
  intros Hg1 Hg2 Hw. revert e1 e2. induction cs as [|[c append] cs IH]; intros e1 e2 He Hc L; cbn [run]; [done|].
  apply Forall_cons in Hc as [Hc Hcs]. pose proof (engine_lanes_step cfg1 cfg2 append e1 e2 c Hg1 Hg2 Hw He Hc L) as Hstep.
  destruct (execute cfg1 no_failure append e1 c) as [[e1' l1] o1] eqn:E1. destruct (execute cfg2 no_failure append e2 c) as [[e2' l2] o2] eqn:E2.
  destruct (execute_log _ _ _ _ _ _ _ He Hc E1) as [He1 _]. specialize (IH e1' e2' He1 Hcs).
  destruct (run cfg1 e1' cs) as [[e1'' l1'] os1]. destruct (run cfg2 e2' cs) as [[e2'' l2'] os2].
  intros Hf. apply Forall_cons in Hf as [Ho Hos]. destruct Hstep as [(err&->)|(->&L'&_)]; [by destruct (Ho err)|].
  destruct (IH L' Hos) as [-> L'']. done.
Qed.

(** C26: from an empty engine the generated agent and the hand-written
    control answer every sequence of commands alike - results, refusals,
    duplicates and failures - and end with the same accounts and ledger,
    remembered results and sequence, unless the check of the agent's decisions
    refused one, which the control does not have. *)
Theorem lanes_agree (cfg1 cfg2 : Config) (cs : list (Command * option gerror)) :
  cf_GoBehavioralControl cfg1 = false → cf_GoBehavioralControl cfg2 = true → cf_DedupeWindow cfg1 = cf_DedupeWindow cfg2 →
  Forall (λ ca, command_ok ca.1) cs →
  let '(e1, _, os1) := run cfg1 new_engine cs in let '(e2, _, os2) := run cfg2 new_engine cs in
  Forall (λ o, ∀ err, o ≠ Err (runtime_error "invalid_decision" err)) os1 →
  os1 = os2 ∧ eg_store e1 = eg_store e2 ∧ eg_dedupe e1 = eg_dedupe e2 ∧ eg_sequence e1 = eg_sequence e2.
Proof.
  intros Hg1 Hg2 Hw Hc. pose proof (run_lanes cfg1 cfg2 cs new_engine new_engine Hg1 Hg2 Hw (fresh_engine_ok _) Hc new_lanes) as H.
  destruct (run cfg1 new_engine cs) as [[e1 l1] os1]. destruct (run cfg2 new_engine cs) as [[e2 l2] os2].
  intros Hf. destruct (H Hf) as [-> [L1 L2 L3 _ _ _]]. done.
Qed.

(** ** Refused decisions *)

Lemma decideGo_negative c a aok b bok p : i64_range (ac_Balance a) → i64_range (cm_Amount c) → 0 ≤ ac_Balance a →
  gd_accepted (decideGo c a aok b bok p) = true → gd_balanceA (decideGo c a aok b bok p) < 0 →
  isKind (cm_Kind c) Deposit = true ∧ 2 ^ 63 ≤ ac_Balance a + cm_Amount c.
Proof.
  intros Ha Hm H0. unfold i64_range in *. unfold decideGo. destruct (isKind (cm_Kind c) Create) eqn:K1.
  { repeat case_match; cbn; try done. lia. }
  destruct (isKind (cm_Kind c) Deposit) eqn:K2.
  { repeat case_match; cbn; try done. intros _ Hneg. split; [done|].
    destruct (Z.lt_ge_cases (ac_Balance a + cm_Amount c) (2 ^ 63)) as [Hlt|]; [|done]. rewrite i64_id in Hneg by (unfold i64_range; lia). lia. }
  repeat case_match; cbn; try done; try lia; intros _ Hneg; rewrite i64_id in Hneg by (unfold i64_range; lia); lia.
Qed.

Lemma decideGo_transfer c a aok b bok p : gd_accepted (decideGo c a aok b bok p) = true →
  gd_effect (decideGo c a aok b bok p) = 3 → aok = true ∧ bok = true.
Proof. unfold decideGo. destruct aok, bok; repeat case_match; cbn; done. Qed.

(** in a store without negative balances the check
    refuses a decision of the agent only for a deposit that would overflow the
    64-bit balance; nothing is logged then and the engine is as before. *)
Theorem invalid_is_overflow (cfg : Config) (append : option gerror) (e : Engine) (c : Command) (err : gerror) :
  cf_GoBehavioralControl cfg = false → engine_ok cfg e → command_ok c →
  (∀ id a, so_accounts (eg_store e) !! id = Some a → 0 ≤ ac_Balance a) →
  (execute cfg no_failure append e c).2 = Err (runtime_error "invalid_decision" err) →
  isKind (cm_Kind c) Deposit = true ∧ 2 ^ 63 ≤ ac_Balance (view1 (eg_store e) (cm_Account c)).1 + cm_Amount c
  ∧ (execute cfg no_failure append e c).1.2 = [] ∧ same_engine (execute cfg no_failure append e c).1.1 e.
Proof.
  intros Hg He Hc Hpos Hx. destruct (ValidateCommand c) as [[]|verr] eqn:Hv.
  2:{ unfold execute in Hx. rewrite Hv in Hx. cbn in Hx. injection Hx as ->. unfold ValidateCommand, guard_err, runtime_error in Hv.
      by destruct (_ || _), (_ && _). }
  destruct (oct_step cfg append e c Hg He Hc Hv) as (e'&l&o&E&C). rewrite E in Hx |- *. cbn [fst snd] in *.
  destruct C as [e' err' Hval Hs Hp| | | |]; try done. split_and!; try done; clear Hx E.
  all: rewrite oct_valid_cases in Hval;
    destruct (committed_prior _ _ _ (i64_bound _) (eo_agent _ _ _ (ek_entry _ _ He (cm_Account c)) Hg)) as (_&_&Hf&_);
    pose proof (agrees_for e c _ Hc (board_pending_rel _ (fo_board _ Hf))) as Hag;
    pose proof (view1_ok _ (cm_Account c) (ek_store _ _ He)) as [Va _];
    assert (0 ≤ ac_Balance (view1 (eg_store e) (cm_Account c)).1) as V0
      by (unfold view1; destruct (so_accounts (eg_store e) !! cm_Account c) eqn:El; [by eapply Hpos|done]);
    unfold view in *; destruct (view1 (eg_store e) (cm_Account c)) as [a aok]; destruct (view1 (eg_store e) (cm_Other c)) as [b bok]; cbn [fst] in *;
    destruct Hag as [D1 D2 D3 D4 D5 D6]; rewrite D1, D3, D4 in Hval; clear D1 D2 D3 D4 D5 D6.
  all: destruct (gd_accepted _) eqn:Eacc in Hval; [|done]; cbn [andb] in Hval;
    destruct (gd_balanceA _ <? 0) eqn:Eneg in Hval;
      [apply Z.ltb_lt in Eneg; eapply decideGo_negative; eauto; apply Hc
      |exfalso; unfold guard_err in Hval; destruct (_ =? _) eqn:Eef in Hval; [|done]; apply Z.eqb_eq in Eef;
       destruct (decideGo_transfer _ _ _ _ _ _ Eacc Eef) as [-> ->]; done].
Qed.

(** ** Remembered results *)

(** After any run of commands, in either lane, the engine
    remembers the results of exactly the last commands it logged, as many as
    its window holds, each under its identifier and no identifier twice. *)
Theorem dedupe_window (cfg : Config) (cs : list (Command * option gerror)) :
  Forall (λ ca, command_ok ca.1) cs →
  let '(e, log, _) := run cfg new_engine cs in
  let recent := last_n (cf_DedupeWindow cfg) log in
  NoDup (lr_CommandID <$> recent) ∧ dd_results (eg_dedupe e) = list_to_map (memo <$> recent).
Proof.
  intros Hc. destruct (run cfg new_engine cs) as [[e l] os] eqn:Er.
  assert (remembers (cf_DedupeWindow cfg) (eg_dedupe new_engine) (memo <$> last_n (cf_DedupeWindow cfg) [])) as H0.
  { unfold last_n. rewrite drop_nil. split; cbn; first [lia|apply NoDup_nil_2|reflexivity]. }
  destruct (run_remembers cfg cs new_engine e l os [] (fresh_engine_ok cfg) Hc Er H0) as [_ _ Hm Hn _]. cbn [app] in *. split; [|done].
  by rewrite <- list_fmap_compose in Hn.
Qed.

(** ** Witnesses *)

Definition example_command (id : string) (kind : nominal) (account other amount : Z) : Command :=
  {| cm_ID := bs id; cm_Kind := kind; cm_Account := account; cm_Other := other; cm_Amount := amount |}.
Arguments example_command _%_string _ _ _ _.
Definition example_run : list (Command * option gerror) :=
  [(example_command "a" Create 7 0 100, None); (example_command "b" Create 9 0 5, None);
   (example_command "c" BeginTransfer 7 9 30, None); (example_command "c" BeginTransfer 7 9 30, None);
   (example_command "d" Confirm 7 9 30, None); (example_command "e" Withdraw 7 0 1000, None);
   (example_command "f" Deposit 9 0 1, Some (EMsg "disk full")); (example_command "g" Deposit 9 0 1, None)].
Definition example_config (go full : bool) : Config :=
  {| cf_GoBehavioralControl := go; cf_FullCheckpointWAL := full; cf_JSONDedupeSnapshot := false; cf_DedupeWindow := 3; cf_SnapshotEvery := 0 |}.

Lemma example_run_ok : Forall (λ ca : Command * option gerror, command_ok ca.1) example_run.
Proof. unfold example_run. foralls; by split; vm_compute. Qed.

Lemma research_recovers_witness :
  ∃ e', replay (example_config false false) new_engine (run (example_config false false) new_engine example_run).1.2 = Ok e'
    ∧ same_engine (run (example_config false false) new_engine example_run).1.1 e'.
Proof. apply (research_recovers (example_config false false) example_run). apply example_run_ok. Defined.

Lemma lanes_agree_witness :
  let '(e1, _, os1) := run (example_config false false) new_engine example_run in
  let '(e2, _, os2) := run (example_config true false) new_engine example_run in
  os1 = os2 ∧ eg_store e1 = eg_store e2.
Proof.
  pose proof (lanes_agree (example_config false false) (example_config true false) example_run eq_refl eq_refl eq_refl example_run_ok) as H.
  destruct (run (example_config false false) new_engine example_run) as [[e1 l1] os1] eqn:E1.
  destruct (run (example_config true false) new_engine example_run) as [[e2 l2] os2] eqn:E2.
  assert (Forall (λ o, ∀ err, o ≠ Err (runtime_error "invalid_decision" err)) os1) as Hos.
  { apply (f_equal snd) in E1. cbn [snd] in E1. rewrite <- E1. vm_compute. repeat (constructor; [intros ? [=]|]). constructor. }
  destruct (H Hos) as (Ho&Hs&_). split; [exact Ho|exact Hs].
Defined.

Lemma dedupe_window_witness :
  let '(e, log, _) := run (example_config false true) new_engine example_run in
  NoDup (lr_CommandID <$> last_n 3 log) ∧ dd_results (eg_dedupe e) = list_to_map (memo <$> last_n 3 log).
Proof. apply (dedupe_window (example_config false true) example_run). apply example_run_ok. Defined.

(** An account at the top of the range and a deposit of one. *)
Definition full_engine : Engine :=
  (run (example_config false false) new_engine [(example_command "a" Create 7 0 (2 ^ 63 - 1), None)]).1.1.
Lemma full_engine_ok : engine_ok (example_config false false) full_engine.
Proof.
  unfold full_engine. destruct (run _ new_engine _) as [[e l] os] eqn:E. cbn [fst].
  refine (proj1 (run_log _ _ _ _ _ _ (fresh_engine_ok _) _ E)). foralls; by split; vm_compute.
Qed.
Lemma invalid_is_overflow_witness :
  isKind Deposit Deposit = true ∧ 2 ^ 63 ≤ ac_Balance (view1 (eg_store full_engine) 7).1 + 1.
Proof.
  destruct (invalid_is_overflow (example_config false false) None full_engine (example_command "b" Deposit 7 0 1)
    (EMsg "negative accepted balance")) as (H1&H2&_).
  - reflexivity.
  - apply full_engine_ok.
  - by split; vm_compute.
  - intros id a. assert (so_accounts (eg_store full_engine) = {[7 := {| ac_ID := 7; ac_Balance := 2 ^ 63 - 1; ac_Status := 1; ac_Version := 1 |}]}) as ->
      by (vm_compute; reflexivity). intros [_ <-]%lookup_singleton_Some. by vm_compute.
  - vm_compute. reflexivity.
  - split; [exact H1|exact H2].
Defined.

(** ** Groups of the commit authority

    Every request of a group is answered exactly once, whatever fails; a group
    that fails to append changes nothing but the poison; answers to repeated
    commands repeat the result of the first. *)

(** What the split of the requests [l] of a group has done. *)
Record split_ok (e : Engine) (l : list (nat * m1Commit)) (s : split_group) : Prop := {
  sp_places : (sg_answers s).*1 ++ (sg_unique s).*1 ++ (sg_repeats s).*1 ≡ₚ l.*1;
  sp_seen : ∀ id, id ∈ sg_seen s ↔ id ∈ ((λ iq, lr_CommandID (mc_record iq.2)) <$> sg_unique s);
  sp_repeats : ∀ ir, ir ∈ sg_repeats s → ir.2 ∈ sg_seen s;
  sp_fresh : ∀ id, id ∈ sg_seen s → dd_results (eg_dedupe e) !! id = None;
  sp_nodup : NoDup ((λ iq, lr_CommandID (mc_record iq.2)) <$> sg_unique s) }.

Lemma split_request_ok e l s iq : split_ok e l s → split_ok e (l ++ [iq]) (split_request e s iq).
Proof.
  intros [H1 H2 H3 H4 H5]. destruct iq as [i q]. unfold split_request.
  destruct (dd_results (eg_dedupe e) !! lr_CommandID (mc_record q)) as [prior|] eqn:Er.
  - split; cbn [sg_answers sg_unique sg_repeats sg_seen]; try done. rewrite !fmap_app. cbn. rewrite <- H1. solve_Permutation.
  - case_bool_decide as Hs.
    + split; cbn [sg_answers sg_unique sg_repeats sg_seen]; try done.
      * rewrite !fmap_app. cbn. rewrite <- H1. solve_Permutation.
      * intros ir [Hir|Hir%list_elem_of_singleton]%elem_of_app; [by apply H3|by subst].
    + split; cbn [sg_answers sg_unique sg_repeats sg_seen].
      * rewrite !fmap_app. cbn. rewrite <- H1. solve_Permutation.
      * intros id. rewrite fmap_app, elem_of_app, elem_of_union, H2, elem_of_singleton. cbn. rewrite list_elem_of_singleton. tauto.
      * intros ir Hir. apply elem_of_union_r. by apply H3.
      * intros id [->%elem_of_singleton|Hid]%elem_of_union; [done|by apply H4].
      * rewrite fmap_app. apply NoDup_app. split_and!; [done| |apply NoDup_singleton]. cbn. intros x Hx ->%list_elem_of_singleton.
        by apply Hs, H2.
Qed.

Lemma split_requests_ok e group : split_ok e (imap (λ i q, (i, q)) group) (split_requests e group).
Proof.
  unfold split_requests. generalize (imap (λ i q, (i, q)) group). intros l.
  assert (∀ l0 s, split_ok e l0 s → split_ok e (l0 ++ l) (foldl (split_request e) s l)) as H.
  { induction l as [|iq l IH]; intros l0 s Hs; [by rewrite app_nil_r|]. cbn [foldl]. rewrite (cons_middle iq l0 l), app_assoc.
    by apply IH, split_request_ok. }
  apply (H [] empty_split). split; cbn; [done|set_solver|set_solver|set_solver|apply NoDup_nil_2].
Qed.

Lemma imap_places {A} (l : list A) : (imap (λ i q, (i, q)) l).*1 = seq 0 (length l).
Proof.
  assert (∀ k, (imap (λ i q, ((k + i)%nat, q)) l).*1 = seq k (length l)) as H.
  { induction l as [|a l IH]; intros k; [done|]. cbn. rewrite Nat.add_0_r. f_equal. rewrite <- (IH (S k)). f_equal.
    apply imap_ext. intros i x _. cbn. f_equal. lia. }
  apply (H 0%nat).
Qed.

Lemma original_seen s id : id ∈ ((λ iq, lr_CommandID (mc_record iq.2)) <$> sg_unique s) →
  ∃ iq, iq ∈ sg_unique s ∧ lr_CommandID (mc_record iq.2) = id ∧ original s id = Some (lr_Result (mc_record iq.2)).
Proof.
  unfold original. induction (sg_unique s) as [|[i q] l IH]; [intros H; by apply elem_of_nil in H|].
  cbn [fmap list_fmap omap list_omap snd]. intros [E|H]%elem_of_cons.
  - rewrite bool_decide_true by done. exists (i, q). split; [by left|]. by rewrite E.
  - case_bool_decide as Ec; [exists (i, q); split; [by left|done]|]. destruct (IH H) as (iq&Hin&E&Ho). exists iq. split; [by right|done].
Qed.

Lemma repeats_answered s : (∀ ir, ir ∈ sg_repeats s → ir.2 ∈ ((λ iq, lr_CommandID (mc_record iq.2)) <$> sg_unique s)) →
  (omap (λ ir : nat * bytes, r ← original s ir.2; Some (ir.1, Ok (E := gerror) (as_duplicate r))) (sg_repeats s)).*1 = (sg_repeats s).*1.
Proof.
  induction (sg_repeats s) as [|[i id] l IH]; intros H; [done|]. cbn [omap list_omap fmap list_fmap fst snd].
  destruct (original_seen s id) as (iq&_&_&->); [apply (H (i, id)); by left|]. cbn [mbind option_bind fmap list_fmap fst]. f_equal.
  apply IH. intros ir Hir. apply H. by right.
Qed.

(** C28: whatever the group, the failures injected and the outcome of
    the append, the authority answers every request of the group exactly once; a
    buffered channel of one answer neither blocks it nor leaves a client
    waiting. *)
Theorem group_answered_once (cfg : Config) (inject : injector) (append : list logRecord → option gerror) (e : Engine) (group : list m1Commit) :
  (commitGroup cfg inject append e group).2.*1 ≡ₚ seq 0 (length group).
Proof.
  rewrite <- imap_places. destruct (split_requests_ok e group) as [H1 H2 H3 _ _]. unfold commitGroup.
  destruct (eg_poisoned e) as [err|]; [cbn [snd]; rewrite !fmap_imap; done|].
  assert (∀ err, (sg_answers (split_requests e group) ++ fail_all (split_requests e group) err).*1 ≡ₚ (imap (λ i q, (i, q)) group).*1) as Hfail.
  { intros err. rewrite <- H1. unfold fail_all. rewrite !fmap_app, <- !list_fmap_compose. done. }
  case_bool_decide as Hu.
  { cbn [snd]. rewrite <- H1, Hu. cbn. destruct (sg_repeats (split_requests e group)) as [|ir l] eqn:Er; [by rewrite app_nil_r|].
    exfalso. specialize (H3 ir ltac:(by left)). apply H2 in H3. rewrite Hu in H3. by apply elem_of_nil in H3. }
  destruct (append _); [apply Hfail|]. destruct (first_failure inject _); [apply Hfail|].
  destruct (apply_group _ inject e _) as [e' [err|]]; [apply Hfail|]. destruct (inject AfterStateApplyBeforeAck); [apply Hfail|].
  cbn [snd]. rewrite <- H1, !fmap_app, repeats_answered; [|intros ir Hir; by apply H2, H3]. by rewrite <- list_fmap_compose.
Qed.
