(* ===== verification/ResearchDedupe.v ===== *)
(** * The compact form of remembered results ([internal/researchengine/dedupe_codec.go])

    The encoder, the decoder, and the round trip between them. *)

From Stdlib Require Import ZArith Lia Strings.Byte Strings.String.
From stdpp Require Import base decidable countable list gmap.
From S2P Require Import Prelude GoText GoBinary GoVarint GoJson Errors AccountAgent AgentLemmas Research.

Local Open Scope Z_scope.
Local Open Scope go_scope.

Definition compactDedupeMagic : bytes := bs "OCD1".

Definition encode_entry (e : snapshotResult) : bytes :=
  put_uvarint (u64 (zlen (sr_CommandID e))) ++ sr_CommandID e ++ put_uvarint (rs_Sequence (sr_Result e))
  ++ [if rs_Accepted (sr_Result e) then x01 else x00] ++ put_varint (rs_ReasonTag (sr_Result e))
  ++ put_varint (rs_EffectTag (sr_Result e)) ++ put_varint (rs_TransitionCount (sr_Result e)).

(** The loop of the encoder: identifiers seen and the sequence before. *)
Fixpoint encode_entries (seen : gset bytes) (prior : Z) (entries : list snapshotResult) : res gerror bytes :=
  match entries with
  | [] => Ok []
  | e :: entries =>
      let! _ := guard_err (bool_decide (sr_CommandID e = []) || negb (bool_decide (rs_CommandID (sr_Result e) = sr_CommandID e)))
                  (EMsg "dedupe command identity mismatch") in
      let! _ := guard_err (bool_decide (sr_CommandID e ∈ seen)) (EMsg "duplicate command ID in dedupe horizon") in
      let! _ := guard_err (rs_Sequence (sr_Result e) <=? prior) (EMsg "dedupe sequence is not ordered") in
      let! rest := encode_entries ({[sr_CommandID e]} ∪ seen) (rs_Sequence (sr_Result e)) entries in
      Ok (encode_entry e ++ rest)
  end.

Definition encodeCompactDedupe (entries : list snapshotResult) (horizon : Z) : res gerror bytes :=
  let! _ := guard_err ((horizon <? 0) || (horizon <? zlen entries)) (EMsg "dedupe count exceeds horizon") in
  let! body := encode_entries ∅ 0 entries in
  Ok (compactDedupeMagic ++ [x01] ++ be_put 4 horizon ++ be_put 4 (zlen entries) ++ body).

Definition truncated_field {A} (field : string) (m : res gerror A) : res gerror A :=
  match m with Ok a => Ok a | Err e => Err (EWrap field e) end.
Arguments truncated_field {A} _%_string _.

Definition decode_entry (seen : gset bytes) (prior : Z) (r : bytes) : res gerror (snapshotResult * bytes) :=
  let! (length, r) := truncated_field "truncated dedupe command ID" (read_uvarint r) in
  let! _ := guard_err ((length =? 0) || (zlen r <? length) || (2 ^ 20 <? length)) (EMsg "invalid dedupe command ID length") in
  let id := take (Z.to_nat length) r in
  let r := drop (Z.to_nat length) r in
  let! _ := guard_err (bool_decide (id ∈ seen)) (EMsg "duplicate command ID in dedupe horizon") in
  let! (seq, r) := truncated_field "truncated dedupe sequence" (read_uvarint r) in
  let! _ := guard_err (seq <=? prior) (EMsg "out-of-order dedupe sequence") in
  let! (accepted, r) := match r with [] => Err (EWrap "truncated dedupe outcome" err_eof) | b :: r => Ok (b, r) end in
  let! _ := guard_err (1 <? bval accepted) (EMsg "invalid dedupe accepted value") in
  let! (reason, r) := truncated_field "truncated dedupe reason" (read_varint r) in
  let! (effect, r) := truncated_field "truncated dedupe effect" (read_varint r) in
  let! (turns, r) := truncated_field "truncated dedupe transition count" (read_varint r) in
  let! _ := guard_err ((reason <? 0) || (8 <? reason) || (effect <? 0) || (4 <? effect) || (turns <=? 0))
              (EMsg "invalid dedupe result fields") in
  Ok ({| sr_CommandID := id;
         sr_Result := {| rs_Sequence := seq; rs_CommandID := id; rs_Accepted := bval accepted =? 1; rs_ReasonTag := reason;
                         rs_EffectTag := effect; rs_TransitionCount := turns; rs_Duplicate := false |} |}, r).

Fixpoint decode_entries (count : nat) (seen : gset bytes) (prior : Z) (r : bytes) : res gerror (list snapshotResult * bytes) :=
  match count with
  | O => Ok ([], r)
  | S count =>
      let! (e, r) := decode_entry seen prior r in
      let! (l, r) := decode_entries count ({[sr_CommandID e]} ∪ seen) (rs_Sequence (sr_Result e)) r in
      Ok (e :: l, r)
  end.

Definition decodeCompactDedupe (data : bytes) (configuredHorizon : Z) : res gerror (list snapshotResult * Z) :=
  let! _ := guard_err (Nat.ltb (length data) 13 || negb (bool_decide (take 4 data = compactDedupeMagic)))
              (EMsg "invalid compact dedupe header") in
  let! _ := guard_err (negb (bval (default x00 (data !! 4%nat)) =? 1)) (EMsg "unsupported compact dedupe version") in
  let horizon := be_get (take 4 (drop 5 data)) in
  let count := be_get (take 4 (drop 9 data)) in
  let! _ := guard_err ((horizon <=? 0) || (horizon <? count)) (EMsg "dedupe count/horizon mismatch") in
  let! _ := guard_err (negb (configuredHorizon =? horizon)) (EMsg "dedupe horizon mismatch") in
  let! (out, r) := decode_entries (Z.to_nat count) ∅ 0 (drop 13 data) in
  let! _ := guard_err (negb (bool_decide (r = []))) (EMsg "compact dedupe trailing bytes") in
  Ok (out, horizon).

(** ** The round trip *)

(** A result the engine remembers. *)
Record result_ok (e : snapshotResult) : Prop := {
  ro_id : 0 < zlen (sr_CommandID e) ≤ 2 ^ 20;
  ro_same : rs_CommandID (sr_Result e) = sr_CommandID e;
  ro_sequence : u64_range (rs_Sequence (sr_Result e));
  ro_reason : 0 ≤ rs_ReasonTag (sr_Result e) ≤ 8;
  ro_effect : 0 ≤ rs_EffectTag (sr_Result e) ≤ 4;
  ro_turns : 0 < rs_TransitionCount (sr_Result e) < 2 ^ 63;
  ro_duplicate : rs_Duplicate (sr_Result e) = false }.

Lemma decode_encode_entry seen prior e rest : result_ok e → sr_CommandID e ∉ seen → prior < rs_Sequence (sr_Result e) →
  decode_entry seen prior (encode_entry e ++ rest) = Ok (e, rest).
Proof.
  intros [Hid Hsame Hseq Hrea Heff Htur Hdup] Hs Hp. unfold zlen in Hid. destruct e as [id [seq cid ok reason effect turns dup]].
  cbn [sr_CommandID sr_Result rs_CommandID rs_Sequence rs_Accepted rs_ReasonTag rs_EffectTag rs_TransitionCount rs_Duplicate] in *. subst cid dup.
  unfold decode_entry, encode_entry.
  cbn [sr_CommandID sr_Result rs_CommandID rs_Sequence rs_Accepted rs_ReasonTag rs_EffectTag rs_TransitionCount rs_Duplicate].
  rewrite <- !app_assoc. rewrite read_put_uvarint by apply u64_bound. cbn [truncated_field res_bind].
  assert (u64 (zlen id) = Z.of_nat (length id)) as -> by (apply u64_id; unfold u64_range, zlen; lia).
  match goal with |- context [zlen (id ++ ?t)] => assert (zlen (id ++ t) = Z.of_nat (length id) + Z.of_nat (length t)) as Hz
    by (unfold zlen; rewrite length_app; lia); rewrite Hz; clear Hz; set (tail := t) end.
  rewrite (proj2 (Z.eqb_neq (Z.of_nat (length id)) 0)), (proj2 (Z.ltb_ge (_ + _) (Z.of_nat (length id)))), (proj2 (Z.ltb_ge (2 ^ 20) _)) by lia.
  cbn [orb guard_err res_bind]. rewrite Nat2Z.id, take_app_length, drop_app_length. rewrite bool_decide_false by done. cbn [guard_err res_bind].
  unfold tail. rewrite read_put_uvarint by done. cbn [truncated_field res_bind]. rewrite (proj2 (Z.leb_gt seq prior)) by done.
  cbn [guard_err res_bind app].
  assert ((1 <? bval (if ok then x01 else x00)) = false ∧ (bval (if ok then x01 else x00) =? 1) = ok) as [-> ->] by by destruct ok.
  cbn [guard_err res_bind]. rewrite read_put_varint by (unfold i64_range; lia). cbn [truncated_field res_bind].
  rewrite read_put_varint by (unfold i64_range; lia). cbn [truncated_field res_bind].
  rewrite read_put_varint by (unfold i64_range; lia). cbn [truncated_field res_bind].
  rewrite (proj2 (Z.ltb_ge reason 0)), (proj2 (Z.ltb_ge 8 reason)), (proj2 (Z.ltb_ge effect 0)), (proj2 (Z.ltb_ge 4 effect)), (proj2 (Z.leb_gt turns 0)) by lia.
  done.
Qed.

Lemma decode_encode_entries seen prior entries body : Forall result_ok entries → encode_entries seen prior entries = Ok body →
  decode_entries (length entries) seen prior body = Ok (entries, []).
Proof.
  intros H. revert seen prior body. induction H as [|e entries He Hs IH]; intros seen prior body; cbn [encode_entries decode_entries length]; [by intros [= <-]|].
  unfold guard_err. destruct (_ || _); [done|]. cbn [res_bind]. case_bool_decide as Hseen; [done|]. cbn [res_bind].
  destruct (Z.leb_spec (rs_Sequence (sr_Result e)) prior) as [|Hlt]; [done|]. cbn [res_bind].
  destruct (encode_entries _ _ entries) as [rest|] eqn:E; [|done]. cbn [res_bind]. intros [= <-].
  rewrite decode_encode_entry by done. cbn [res_bind]. by rewrite (IH _ _ _ E).
Qed.

Lemma compact_codec (entries : list snapshotResult) (horizon : Z) (data : bytes) :
  Forall result_ok entries → 0 < horizon < 2 ^ 32 → encodeCompactDedupe entries horizon = Ok data →
  decodeCompactDedupe data horizon = Ok (entries, horizon)
  ∧ ∀ other, other ≠ horizon → decodeCompactDedupe data other = Err (EMsg "dedupe horizon mismatch").
Proof.
  intros He Hh. unfold encodeCompactDedupe, guard_err. destruct (Z.ltb_spec horizon 0); [done|].
  destruct (Z.ltb_spec horizon (zlen entries)) as [|Hlen]; [done|]. cbn [orb res_bind].
  destruct (encode_entries ∅ 0 entries) as [body|] eqn:E; [|done]. cbn [res_bind]. intros Hdata.
  assert (∀ v, 0 ≤ v < 2 ^ 32 → be_get (be_put 4 v) = v) as Hbe by (intros; by apply be_get_put).
  assert (0 ≤ zlen entries) as Hz by (unfold zlen; lia). remember (zlen entries) as n eqn:En.
  assert (data = compactDedupeMagic ++ [x01] ++ be_put 4 horizon ++ be_put 4 n ++ body) as Ed by congruence. clear Hdata.
  assert (length data = 13 + length body)%nat as Hdl by (rewrite Ed, !length_app, !be_put_length; done).
  assert (take 4 (drop 5 data) = be_put 4 horizon) as Hd1.
  { rewrite Ed. rewrite (app_assoc compactDedupeMagic), drop_app_length' by done. by rewrite take_app_length' by by rewrite be_put_length. }
  assert (take 4 (drop 9 data) = be_put 4 n) as Hd2.
  { rewrite Ed. rewrite !app_assoc, <- (app_assoc _ (be_put 4 n) body), drop_app_length' by (rewrite !length_app, be_put_length; done).
    by rewrite take_app_length' by by rewrite be_put_length. }
  assert (drop 13 data = body) as Hd3.
  { rewrite Ed. rewrite !app_assoc, drop_app_length'; [done|]. rewrite !length_app, !be_put_length. done. }
  assert (take 4 data = compactDedupeMagic ∧ data !! 4%nat = Some x01) as [Hd4 Hd5] by by rewrite Ed.
  unfold decodeCompactDedupe. rewrite Hdl, Hd1, Hd2, Hd3, Hd4, Hd5, !Hbe by lia. unfold guard_err. clear Ed.
  rewrite (proj2 (Nat.ltb_ge (13 + length body) 13)), bool_decide_true by (lia || done). cbn [negb orb res_bind].
  change (bval (default x00 (Some x01)) =? 1) with true. cbn [negb res_bind].
  rewrite (proj2 (Z.leb_gt horizon 0)), (proj2 (Z.ltb_ge horizon n)) by lia. cbn [orb res_bind]. split.
  - rewrite Z.eqb_refl. cbn [negb res_bind]. rewrite En. unfold zlen. rewrite Nat2Z.id, (decode_encode_entries _ _ _ _ He E). cbn [res_bind].
    by rewrite bool_decide_true.
  - intros other Hne. by rewrite (proj2 (Z.eqb_neq other horizon)).
Qed.

Lemma compact_roundtrip (entries : list snapshotResult) (horizon : Z) (data : bytes) :
  Forall result_ok entries → 0 < horizon < 2 ^ 32 → encodeCompactDedupe entries horizon = Ok data →
  decodeCompactDedupe data horizon = Ok (entries, horizon).
Proof. intros H1 H2 H3. exact (proj1 (compact_codec _ _ _ H1 H2 H3)). Qed.

(** What the encoder writes of the results an engine
    remembers, the decoder reads back, entry for entry, under the same horizon;
    under any other horizon it refuses. *)
Theorem dedupe_roundtrip (entries : list snapshotResult) (horizon : Z) (data : bytes) :
  Forall result_ok entries → 0 < horizon < 2 ^ 32 → encodeCompactDedupe entries horizon = Ok data →
  decodeCompactDedupe data horizon = Ok (entries, horizon)
  ∧ ∀ other, other ≠ horizon → decodeCompactDedupe data other = Err (EMsg "dedupe horizon mismatch").
Proof. apply compact_codec. Qed.

Definition example_results : list snapshotResult :=
  [{| sr_CommandID := bs "a"; sr_Result := {| rs_Sequence := 3; rs_CommandID := bs "a"; rs_Accepted := true; rs_ReasonTag := 0;
        rs_EffectTag := 1; rs_TransitionCount := 1; rs_Duplicate := false |} |};
   {| sr_CommandID := bs "b"; sr_Result := {| rs_Sequence := 700; rs_CommandID := bs "b"; rs_Accepted := false; rs_ReasonTag := 8;
        rs_EffectTag := 0; rs_TransitionCount := 200; rs_Duplicate := false |} |}].
Lemma dedupe_roundtrip_witness :
  ∃ data, encodeCompactDedupe example_results 100 = Ok data ∧ decodeCompactDedupe data 100 = Ok (example_results, 100).
Proof.
  destruct (encodeCompactDedupe example_results 100) as [data|] eqn:E; [|vm_compute in E; discriminate E].
  exists data. split; [reflexivity|]. refine (proj1 (dedupe_roundtrip example_results 100 data _ _ E)).
  - unfold example_results. foralls; split; vm_compute; try split; try done; lia.
  - lia.
Defined.
