(* ===== verification/ResearchWal.v ===== *)
(** * The log of the research engine ([internal/researchengine/log.go], [m1_storage.go])

    Log records in JSON, their frames, the headers and footers of segments, and
    the scan of the segments of a directory. *)

From Stdlib Require Import ZArith Lia Strings.Byte Strings.String.
From stdpp Require Import base decidable countable list gmap sorting.
From S2P Require Import Prelude GoText GoBinary GoVarint GoJson Errors GoOS KeyedStorage AccountAgent Research ResearchEngine.

Local Open Scope Z_scope.
Local Open Scope go_scope.

(** ** Records in JSON *)

(** [MarshalJSON]: the fields of the record, then the result without what the
    record already has. *)
Definition log_json (r : logRecord) : json :=
  let nonempty (b : bytes) := negb (bool_decide (b = [])) in
  JObj ([(bs "version", JNum (dec (lr_Version r)))]
    ++ opt_member (nonempty (lr_SchemaID r)) "schema_id" (JStr (lr_SchemaID r))
    ++ opt_member (nonempty (lr_ProgramID r)) "program_id" (JStr (lr_ProgramID r))
    ++ [(bs "sequence", JNum (dec (lr_Sequence r))); (bs "agent_id", JNum (dec (lr_AgentID r)));
        (bs "command_id", JStr (lr_CommandID r)); (bs "command_kind", JNum (dec (lr_CommandKind r)));
        (bs "account_a", JNum (dec (lr_AccountA r)))]
    ++ opt_member (negb (lr_AccountB r =? 0)) "account_b" (JNum (dec (lr_AccountB r)))
    ++ [(bs "amount", JNum (dec (lr_Amount r))); (bs "effect_tag", JNum (dec (lr_EffectTag r)));
        (bs "new_balance_a", JNum (dec (lr_NewBalanceA r))); (bs "new_balance_b", JNum (dec (lr_NewBalanceB r)));
        (bs "new_status_tag", JNum (dec (lr_NewStatusTag r))); (bs "expected_a", JNum (dec (lr_ExpectedA r)));
        (bs "expected_b", JNum (dec (lr_ExpectedB r)))]
    ++ opt_member (nonempty (lr_Checkpoint r)) "checkpoint" (JStr (b64_encode (lr_Checkpoint r)))
    ++ opt_member (nonempty (lr_FlowDelta r)) "flow_delta" (JStr (b64_encode (lr_FlowDelta r)))
    ++ [(bs "result", JObj [(bs "accepted", JBool (rs_Accepted (lr_Result r))); (bs "reason", JNum (dec (rs_ReasonTag (lr_Result r))));
                            (bs "turns", JNum (dec (rs_TransitionCount (lr_Result r))))])]).

(** [durableCallerResult]. *)
Record callerResult := { cr_Accepted : bool; cr_ReasonTag : Z; cr_TransitionCount : Z }.
Definition caller_member (c : callerResult) (m : bytes * json) : option callerResult :=
  let '(Build_callerResult a r t) := c in
  if is_field "accepted" m.1 then v ← into_bool a m.2; Some (Build_callerResult v r t)
  else if is_field "reason" m.1 then v ← into_int r m.2; Some (Build_callerResult a v t)
  else if is_field "turns" m.1 then v ← into_int t m.2; Some (Build_callerResult a r v)
  else Some c.

(** The wire form of [UnmarshalJSON]: the record without its result, and that. *)
Record wireRecord := {
  wr_Version : Z; wr_SchemaID : bytes; wr_ProgramID : bytes; wr_Sequence : Z; wr_AgentID : Z; wr_CommandID : bytes;
  wr_CommandKind : Z; wr_AccountA : Z; wr_AccountB : Z; wr_Amount : Z; wr_EffectTag : Z; wr_NewBalanceA : Z; wr_NewBalanceB : Z;
  wr_NewStatusTag : Z; wr_ExpectedA : Z; wr_ExpectedB : Z; wr_Checkpoint : bytes; wr_FlowDelta : bytes; wr_Result : callerResult }.
Definition zeroWire : wireRecord :=
  Build_wireRecord 0 [] [] 0 0 [] 0 0 0 0 0 0 0 0 0 0 [] [] (Build_callerResult false 0 0).

Definition wire_member (w : wireRecord) (m : bytes * json) : option wireRecord :=
  let '(Build_wireRecord v si pi s ag id k a b n e x y t va vb cp fd r) := w in
  if is_field "version" m.1 then z ← into_int v m.2; Some (Build_wireRecord z si pi s ag id k a b n e x y t va vb cp fd r)
  else if is_field "schema_id" m.1 then z ← into_str si m.2; Some (Build_wireRecord v z pi s ag id k a b n e x y t va vb cp fd r)
  else if is_field "program_id" m.1 then z ← into_str pi m.2; Some (Build_wireRecord v si z s ag id k a b n e x y t va vb cp fd r)
  else if is_field "sequence" m.1 then z ← into_u64 s m.2; Some (Build_wireRecord v si pi z ag id k a b n e x y t va vb cp fd r)
  else if is_field "agent_id" m.1 then z ← into_u64 ag m.2; Some (Build_wireRecord v si pi s z id k a b n e x y t va vb cp fd r)
  else if is_field "command_id" m.1 then z ← into_str id m.2; Some (Build_wireRecord v si pi s ag z k a b n e x y t va vb cp fd r)
  else if is_field "command_kind" m.1 then z ← into_int k m.2; Some (Build_wireRecord v si pi s ag id z a b n e x y t va vb cp fd r)
  else if is_field "account_a" m.1 then z ← into_u64 a m.2; Some (Build_wireRecord v si pi s ag id k z b n e x y t va vb cp fd r)
  else if is_field "account_b" m.1 then z ← into_u64 b m.2; Some (Build_wireRecord v si pi s ag id k a z n e x y t va vb cp fd r)
  else if is_field "amount" m.1 then z ← into_int n m.2; Some (Build_wireRecord v si pi s ag id k a b z e x y t va vb cp fd r)
  else if is_field "effect_tag" m.1 then z ← into_int e m.2; Some (Build_wireRecord v si pi s ag id k a b n z x y t va vb cp fd r)
  else if is_field "new_balance_a" m.1 then z ← into_int x m.2; Some (Build_wireRecord v si pi s ag id k a b n e z y t va vb cp fd r)
  else if is_field "new_balance_b" m.1 then z ← into_int y m.2; Some (Build_wireRecord v si pi s ag id k a b n e x z t va vb cp fd r)
  else if is_field "new_status_tag" m.1 then z ← into_int t m.2; Some (Build_wireRecord v si pi s ag id k a b n e x y z va vb cp fd r)
  else if is_field "expected_a" m.1 then z ← into_u64 va m.2; Some (Build_wireRecord v si pi s ag id k a b n e x y t z vb cp fd r)
  else if is_field "expected_b" m.1 then z ← into_u64 vb m.2; Some (Build_wireRecord v si pi s ag id k a b n e x y t va z cp fd r)
  else if is_field "checkpoint" m.1 then z ← into_bytes m.2; Some (Build_wireRecord v si pi s ag id k a b n e x y t va vb z fd r)
  else if is_field "flow_delta" m.1 then z ← into_bytes m.2; Some (Build_wireRecord v si pi s ag id k a b n e x y t va vb cp z r)
  else if is_field "result" m.1 then z ← into_struct caller_member r m.2; Some (Build_wireRecord v si pi s ag id k a b n e x y t va vb cp fd z)
  else Some w.

Definition of_wire (w : wireRecord) : logRecord :=
  {| lr_Version := wr_Version w; lr_SchemaID := wr_SchemaID w; lr_ProgramID := wr_ProgramID w; lr_Sequence := wr_Sequence w;
     lr_AgentID := wr_AgentID w; lr_CommandID := wr_CommandID w; lr_CommandKind := wr_CommandKind w; lr_AccountA := wr_AccountA w;
     lr_AccountB := wr_AccountB w; lr_Amount := wr_Amount w;
     lr_Result := {| rs_Sequence := wr_Sequence w; rs_CommandID := wr_CommandID w; rs_Accepted := cr_Accepted (wr_Result w);
                     rs_ReasonTag := cr_ReasonTag (wr_Result w); rs_EffectTag := wr_EffectTag w;
                     rs_TransitionCount := cr_TransitionCount (wr_Result w); rs_Duplicate := false |};
     lr_EffectTag := wr_EffectTag w; lr_NewBalanceA := wr_NewBalanceA w; lr_NewBalanceB := wr_NewBalanceB w;
     lr_NewStatusTag := wr_NewStatusTag w; lr_ExpectedA := wr_ExpectedA w; lr_ExpectedB := wr_ExpectedB w;
     lr_Checkpoint := wr_Checkpoint w; lr_FlowDelta := wr_FlowDelta w |}.
Definition json_log (j : json) : option logRecord := w ← into_struct wire_member zeroWire j; Some (of_wire w).

(** ** Frames *)

Definition maxRecordBytes : Z := 2 ^ 20.

Definition frame (r : logRecord) : res gerror bytes :=
  let payload := print (log_json r) in
  if maxRecordBytes <? zlen payload then Err (EMsg "record too large")
  else Ok (be_put 4 (zlen payload) ++ payload ++ be_put 4 (crc32 payload)).

Definition unmarshal_log (payload : bytes) : res gerror logRecord :=
  match (j ← parse payload; json_log j) with Some r => Ok r | None => Err (EMsg "decode record") end.

(** ** Segments *)

Definition m1WALMagic : bytes := bs "OCTWAL01".
Definition m1EndMagic : bytes := bs "OCTEND01".
Definition segmentHeaderSize : nat := 32.
Definition segmentFooterSize : nat := 24.

Definition encodeSegmentHeader (id first : Z) : bytes :=
  let h := m1WALMagic ++ be_put 4 m1WALVersion ++ be_put 8 id ++ be_put 8 first in h ++ be_put 4 (crc32 h).
Definition encodeSegmentFooter (last records : Z) : bytes :=
  let f := m1EndMagic ++ be_put 8 last ++ be_put 4 records in f ++ be_put 4 (crc32 f).

Record segmentMeta := { sm_id : Z; sm_first : Z; sm_last : Z; sm_records : Z; sm_closed : bool; sm_size : Z }.

(** [h[a:b]] as a big-endian integer. *)
Definition be_at (h : bytes) (a n : nat) : Z := be_get (take n (drop a h)).

Definition check_header (id : Z) (data : bytes) : res gerror Z :=
  let! _ := guard_err (Nat.ltb (length data) segmentHeaderSize) (EMsg "invalid segment header") in
  let! _ := guard_err (negb (bool_decide (take 8 data = m1WALMagic)) || negb (be_at data 8 4 =? m1WALVersion)
                       || negb (be_at data 28 4 =? crc32 (take 28 data))) (EMsg "invalid segment header") in
  let! _ := guard_err (negb (be_at data 12 8 =? id)) (EMsg "segment identity mismatch") in
  Ok (be_at data 20 8).

(** A footer at the end of the data: the last sequence and the count it states. *)
Definition check_footer (data : bytes) : res gerror (option (Z * Z)) :=
  let f := drop (length data - segmentFooterSize) data in
  if Nat.leb (segmentHeaderSize + segmentFooterSize) (length data) && bool_decide (take 8 f = m1EndMagic) then
    if negb (be_at f 20 4 =? crc32 (take 20 f)) then Err (EMsg "invalid segment footer")
    else Ok (Some (be_at f 8 8, be_at f 16 4))
  else Ok None.

(** The records of a segment read so far: accepted ones, the next sequence, the
    count, the offset, and where a torn tail begins. *)
Record scanned := { sd_out : list logRecord; sd_expected : Z; sd_count : Z; sd_offset : Z; sd_torn : option Z }.

(** The loop over the frames of a segment; every round reads at least eight bytes,
    so the length of the body is enough fuel. *)
Fixpoint scan_body (fuel : nat) (closed : bool) (after : Z) (program : bytes) (s : scanned) (r : bytes) : res gerror scanned :=
  match fuel with
  | O => Err (EMsg "fuel")
  | S fuel =>
      match r with
      | [] => Ok s
      | _ =>
          let torn := if closed then Err (EMsg "truncated closed segment")
                      else Ok {| sd_out := sd_out s; sd_expected := sd_expected s; sd_count := sd_count s; sd_offset := sd_offset s;
                                 sd_torn := Some (sd_offset s) |} in
          if Nat.ltb (length r) 4 then torn
          else
            let n := be_get (take 4 r) in
            if (n =? 0) || (maxRecordBytes <? n) then Err (EMsg "invalid record length")
            else if zlen (drop 4 r) <? n + 4 then torn
            else
              let payload := take (Z.to_nat n) (drop 4 r) in
              let rest := drop (Z.to_nat n) (drop 4 r) in
              if negb (crc32 payload =? be_get (take 4 rest)) then Err (EMsg "checksum failure")
              else
                let! record := unmarshal_log payload in
                if negb (lr_Version record =? m1WALVersion) then Err (EMsg "unsupported WAL record version")
                else if negb (bool_decide (lr_SchemaID record = m1SchemaID)) || negb (bool_decide (lr_ProgramID record = program))
                then Err (EMsg "incompatible WAL identity")
                else
                  let skip out expected :=
                    {| sd_out := out; sd_expected := expected; sd_count := sd_count s + 1; sd_offset := sd_offset s + (8 + n);
                       sd_torn := sd_torn s |} in
                  if lr_Sequence record <? sd_expected s then
                    if lr_Sequence record <=? after then scan_body fuel closed after program (skip (sd_out s) (sd_expected s)) (drop 4 rest)
                    else Err (EMsg "out-of-order sequence")
                  else if negb (lr_Sequence record =? sd_expected s) then Err (EMsg "missing sequence")
                  else scan_body fuel closed after program (skip (sd_out s ++ [record]) (u64 (sd_expected s + 1))) (drop 4 rest)
      end
  end.

(** One segment of the directory; only the last may lack its footer. *)
Definition scan_segment (is_last : bool) (after : Z) (program : bytes) (out : list logRecord) (expected : Z) (id : Z) (data : bytes)
    : res gerror (scanned * segmentMeta) :=
  let! first := check_header id data in
  let! footer := check_footer data in
  let! _ := guard_err (bool_decide (footer = None) && negb is_last) (EMsg "closed segment has no valid footer") in
  let closed := bool_decide (is_Some footer) in
  let body := drop segmentHeaderSize (if closed then take (length data - segmentFooterSize) data else data) in
  let! s := scan_body (S (length body)) closed after program
              {| sd_out := out; sd_expected := expected; sd_count := 0; sd_offset := Z.of_nat segmentHeaderSize; sd_torn := None |} body in
  let stated := match footer with Some (_, n) => n | None => sd_count s end in
  let! _ := guard_err (negb (sd_count s =? stated)) (EMsg "record count mismatch") in
  Ok (s, {| sm_id := id; sm_first := first;
            sm_last := match last (sd_out s) with
                       | Some r => if Nat.ltb (length out) (length (sd_out s)) then lr_Sequence r
                                   else match footer with Some (l, _) => l | None => 0 end
                       | None => match footer with Some (l, _) => l | None => 0 end
                       end;
            sm_records := sd_count s; sm_closed := closed; sm_size := zlen data |}).

(** [scanSegments] on the segments of the directory in the order of their
    identifiers: the records after the frontier, the segments, and where the torn
    tail of the last one begins. *)
Fixpoint scan_segments (after : Z) (program : bytes) (out : list logRecord) (expected : Z) (metas : list segmentMeta)
    (files : list (Z * bytes)) : res gerror (list logRecord * list segmentMeta * option Z) :=
  match files with
  | [] => Ok (out, metas, None)
  | (id, data) :: files =>
      let! (s, m) := scan_segment (bool_decide (files = [])) after program out expected id data in
      if bool_decide (files = []) then Ok (sd_out s, metas ++ [m], sd_torn s)
      else scan_segments after program (sd_out s) (sd_expected s) (metas ++ [m]) files
  end.
Definition scanSegments (after : Z) (program : bytes) (files : list (Z * bytes)) : res gerror (list logRecord * list segmentMeta * option Z) :=
  scan_segments after program [] (u64 (after + 1)) [] files.
