(* ===== verification/ResearchWalLemmas.v ===== *)
(** * Lemmas on the log of the research engine

    Records read back from their JSON, frames and segments read back by the scan,
    with a torn tail cut off at the frame it begins. *)

From Stdlib Require Import ZArith Lia Strings.Byte Strings.String.
From stdpp Require Import base decidable countable list gmap sorting.
From S2P Require Import Prelude GoText GoBinary GoVarint GoJson Errors GoOS KeyedStorage KeyedRecovery AccountAgent AgentLemmas Research ResearchEngine ResearchWal.

Local Open Scope Z_scope.
Local Open Scope go_scope.

(** A record the engine can write: fields of their width, text in UTF-8, and a
    result that repeats the record. *)
Record log_ok (r : logRecord) : Prop := {
  lo_int : Forall i64_range [lr_Version r; lr_CommandKind r; lr_Amount r; lr_EffectTag r; lr_NewBalanceA r; lr_NewBalanceB r; lr_NewStatusTag r;
                             rs_ReasonTag (lr_Result r); rs_TransitionCount (lr_Result r)];
  lo_u64 : Forall u64_range [lr_Sequence r; lr_AgentID r; lr_AccountA r; lr_AccountB r; lr_ExpectedA r; lr_ExpectedB r];
  lo_text : Forall (λ s, utf8_valid s = true) [lr_SchemaID r; lr_ProgramID r; lr_CommandID r];
  lo_sequence : rs_Sequence (lr_Result r) = lr_Sequence r;
  lo_id : rs_CommandID (lr_Result r) = lr_CommandID r;
  lo_effect : rs_EffectTag (lr_Result r) = lr_EffectTag r;
  lo_duplicate : rs_Duplicate (lr_Result r) = false }.

Lemma fold_cons {A} (f : A → bytes * json → option A) a m l a' : f a m = Some a' → fold_members f a (m :: l) = fold_members f a' l.
Proof. intros H. cbn [fold_members]. by rewrite H. Qed.

(** The normal form of an optional member. *)
Lemma fold_opt {A} (f : A → bytes * json → option A) a present name j l a' :
  (present = true → f a (utf8_coerce (bs name), norm j) = Some a') → (present = false → a' = a) →
  fold_members f a (map (λ kv : bytes * json, (utf8_coerce kv.1, norm kv.2)) (opt_member present name j) ++ l) = fold_members f a' l.
Proof. intros H1 H2. destruct present; [by apply fold_cons, H1|by rewrite H2]. Qed.

Lemma present_false (b : bytes) : negb (bool_decide (b = [])) = false → b = [].
Proof. rewrite negb_false_iff. apply bool_decide_eq_true_1. Qed.

#[local] Opaque is_field.

Ltac wire_eval :=
  unfold wire_member; cbn [fst snd norm]; eval_fields; cbn [into_int into_u64 into_str into_bytes];
  rewrite ?parse_int64_dec_i64, ?parse_uint64_dec, ?utf8_coerce_valid, ?b64_coerce, ?b64_roundtrip by done; cbn [mbind option_bind into_str into_bytes];
  rewrite ?b64_roundtrip; cbn [mbind option_bind]; reflexivity.
Ltac wire_step := erewrite fold_cons; [|wire_eval].
Ltac wire_opt := erewrite fold_opt; [|intros _; wire_eval|].

Lemma caller_roundtrip a r t c : i64_range r → i64_range t →
  into_struct caller_member c (norm (JObj [(bs "accepted", JBool a); (bs "reason", JNum (dec r)); (bs "turns", JNum (dec t))]))
  = Some (Build_callerResult a r t).
Proof.
  intros Hr Ht. destruct c as [ca cr ct]. unfold into_struct. cbn [norm map fst snd]. decode_members caller_member. done.
Qed.

Lemma json_log_roundtrip r : log_ok r → json_log (norm (log_json r)) = Some r.
Proof.
  intros [Hi Hu Ht H1 H2 H3 H4]. destruct r as [v si pi s ag id k a b n [rs rc ra rr re rt rd] e x y t va vb cp fd].
  cbn [lr_Version lr_CommandKind lr_Amount lr_EffectTag lr_NewBalanceA lr_NewBalanceB lr_NewStatusTag lr_Result rs_ReasonTag rs_TransitionCount
    lr_Sequence lr_AgentID lr_AccountA lr_AccountB lr_ExpectedA lr_ExpectedB lr_SchemaID lr_ProgramID lr_CommandID rs_Sequence rs_CommandID rs_EffectTag
    rs_Duplicate] in *. subst. forall_in Hi. forall_in Hu. forall_in Ht. unfold json_log, log_json, into_struct.
  cbn [lr_Version lr_CommandKind lr_Amount lr_EffectTag lr_NewBalanceA lr_NewBalanceB lr_NewStatusTag lr_Result rs_ReasonTag rs_TransitionCount
    lr_Sequence lr_AgentID lr_AccountA lr_AccountB lr_ExpectedA lr_ExpectedB lr_SchemaID lr_ProgramID lr_CommandID rs_Accepted lr_Checkpoint lr_FlowDelta].
  cbn [norm]. rewrite !map_app. cbn [map app fst snd]. unfold zeroWire.
  pose proof (λ c, caller_roundtrip ra rr rt c ltac:(done) ltac:(done)) as Ec. revert Ec.
  generalize (JObj [(bs "accepted", JBool ra); (bs "reason", JNum (dec rr)); (bs "turns", JNum (dec rt))]). intros jr Ec.
  wire_step. wire_opt; [|by intros ->%present_false]. wire_opt; [|by intros ->%present_false]. do 5 wire_step.
  wire_opt; [|by intros E; assert (b = 0) as -> by lia]. do 7 wire_step.
  wire_opt; [|by intros ->%present_false]. wire_opt; [|by intros ->%present_false].
  erewrite fold_cons; [|unfold wire_member; cbn [fst snd]; eval_fields; rewrite Ec; reflexivity]. reflexivity.
Qed.

Lemma log_json_shape r : nums_ok (log_json r) ∧ (depth (log_json r) ≤ 2)%nat.
Proof.
  unfold log_json. cbv zeta. destruct (negb (bool_decide (lr_SchemaID r = []))), (negb (bool_decide (lr_ProgramID r = []))),
    (negb (lr_AccountB r =? 0)), (negb (bool_decide (lr_Checkpoint r = []))), (negb (bool_decide (lr_FlowDelta r = [])));
    (split; [cbn; eauto 40|cbn; lia]).
Qed.

Lemma unmarshal_log_print r : log_ok r → unmarshal_log (print (log_json r)) = Ok r.
Proof.
  intros H. destruct (log_json_shape r) as [Hn Hd]. unfold unmarshal_log. rewrite parse_print by (done || (apply max_nesting_ge; lia)).
  cbn [mbind option_bind]. by rewrite json_log_roundtrip.
Qed.

(** ** Frames *)

(** A record the scan for [program] takes. *)
Record wal_ok (program : bytes) (r : logRecord) : Prop := {
  wo_log : log_ok r;
  wo_version : lr_Version r = m1WALVersion;
  wo_schema : lr_SchemaID r = m1SchemaID;
  wo_program : lr_ProgramID r = program }.

(** What the scan does with a record: skipped when the snapshot has it, kept when
    it is the next, refused otherwise. *)
Definition accept (after : Z) (s : list logRecord * Z) (r : logRecord) : option (list logRecord * Z) :=
  if lr_Sequence r <? s.2 then if lr_Sequence r <=? after then Some s else None
  else if lr_Sequence r =? s.2 then Some (s.1 ++ [r], u64 (s.2 + 1)) else None.
Fixpoint accepts (after : Z) (s : list logRecord * Z) (rs : list logRecord) : option (list logRecord * Z) :=
  match rs with [] => Some s | r :: rs => s' ← accept after s r; accepts after s' rs end.

Lemma accepts_app after s rs1 rs2 : accepts after s (rs1 ++ rs2) = s' ← accepts after s rs1; accepts after s' rs2.
Proof. revert s. induction rs1 as [|r rs1 IH]; intros s; [done|]. cbn [app accepts]. destruct (accept after s r); cbn; [apply IH|done]. Qed.

Lemma frame_shape r f : frame r = Ok f →
  ∃ p, p = print (log_json r) ∧ 0 < zlen p ≤ maxRecordBytes ∧ f = be_put 4 (zlen p) ++ p ++ be_put 4 (crc32 p).
Proof.
  unfold frame. destruct (Z.ltb_spec maxRecordBytes (zlen (print (log_json r)))) as [|Hle]; [done|]. intros H.
  exists (print (log_json r)). split; [done|]. split; [|congruence]. split; [|done].
  destruct (print_head (log_json r) (proj1 (log_json_shape r))) as (b&l&->&_). unfold zlen. cbn [length]. lia.
Qed.

Lemma be_get_put4 v : 0 ≤ v < 2 ^ 32 → be_get (be_put 4 v) = v.
Proof. intros. by apply be_get_put. Qed.

Definition scan_step (s : scanned) (so : list logRecord * Z) (f : bytes) : scanned :=
  {| sd_out := so.1; sd_expected := so.2; sd_count := sd_count s + 1; sd_offset := sd_offset s + zlen f; sd_torn := sd_torn s |}.

Lemma scan_body_frame fuel closed after program s r f so rest :
  wal_ok program r → frame r = Ok f → accept after (sd_out s, sd_expected s) r = Some so →
  scan_body (S fuel) closed after program s (f ++ rest) = scan_body fuel closed after program (scan_step s so f) rest.
Proof.
  intros [Hl Hv Hsc Hpr] Hf Ha. destruct (frame_shape r f Hf) as (p&Ep&Hp&->). unfold maxRecordBytes in Hp.
  pose proof (crc32_range p) as Hcrc. unfold u32_range in Hcrc. unfold zlen in Hp. set (z := zlen p) in *.
  assert (z = Z.of_nat (length p)) as Hz by done.
  set (data := (be_put 4 z ++ p ++ be_put 4 (crc32 p)) ++ rest).
  assert (take 4 data = be_put 4 z) as E1 by (unfold data; rewrite <- !app_assoc; by rewrite take_app_length' by by rewrite be_put_length).
  assert (drop 4 data = p ++ be_put 4 (crc32 p) ++ rest) as E2 by (unfold data; rewrite <- !app_assoc; by rewrite drop_app_length' by by rewrite be_put_length).
  assert (length data = 8 + length p + length rest)%nat as E3 by (unfold data; rewrite !length_app, !be_put_length; lia).
  assert (data ≠ []) as E4 by (intros E; rewrite E in E3; cbn in E3; lia).
  cbn [scan_body]. destruct data as [|b0 d0] eqn:Ed; [done|]. rewrite <- Ed in *.
  rewrite (proj2 (Nat.ltb_ge (length data) 4)) by lia. rewrite E1, E2, be_get_put4 by lia.
  rewrite (proj2 (Z.eqb_neq z 0)), (proj2 (Z.ltb_ge maxRecordBytes z)) by (unfold maxRecordBytes; lia). cbn [orb].
  assert (zlen (p ++ be_put 4 (crc32 p) ++ rest) = z + 4 + zlen rest) as -> by (unfold zlen; rewrite !length_app, be_put_length; lia).
  rewrite (proj2 (Z.ltb_ge (z + 4 + zlen rest) (z + 4))) by (unfold zlen; lia).
  rewrite Hz, Nat2Z.id, take_app_length, drop_app_length. rewrite take_app_length' by by rewrite be_put_length.
  rewrite be_get_put4 by lia. rewrite Z.eqb_refl. cbn [negb]. rewrite Ep, unmarshal_log_print by done. cbn [res_bind].
  rewrite Hv, Z.eqb_refl, Hsc, Hpr, !bool_decide_true by done. cbn [negb orb]. rewrite <- Ep, drop_app_length' by by rewrite be_put_length.
  assert (∀ out ex, {| sd_out := out; sd_expected := ex; sd_count := sd_count s + 1; sd_offset := sd_offset s + (8 + Z.of_nat (length p)); sd_torn := sd_torn s |}
    = scan_step s (out, ex) (be_put 4 z ++ p ++ be_put 4 (crc32 p))) as Es.
  { intros. unfold scan_step. cbn [fst snd]. f_equal. unfold zlen. rewrite !length_app, !be_put_length. lia. }
  rewrite !Es. unfold accept in Ha. cbn [fst snd] in Ha. destruct (lr_Sequence r <? sd_expected s).
  - destruct (lr_Sequence r <=? after); [|done]. by injection Ha as <-.
  - destruct (lr_Sequence r =? sd_expected s); [|done]. by injection Ha as <-.
Qed.

Definition scan_steps (s : scanned) (so : list logRecord * Z) (fs : list bytes) : scanned :=
  {| sd_out := so.1; sd_expected := so.2; sd_count := sd_count s + zlen fs; sd_offset := sd_offset s + zlen (concat fs); sd_torn := sd_torn s |}.

Lemma scan_body_frames closed after program rs fs s so rest fuel :
  Forall (wal_ok program) rs → Forall2 (λ r f, frame r = Ok f) rs fs → accepts after (sd_out s, sd_expected s) rs = Some so →
  scan_body (length rs + fuel) closed after program s (concat fs ++ rest) = scan_body fuel closed after program (scan_steps s so fs) rest.
Proof.
  intros Hw Hf. revert s. induction Hf as [|r f rs fs Hr Hf IH]; intros s Ha; cbn [accepts] in Ha.
  - injection Ha as <-. cbn [concat app length Nat.add]. f_equal. destruct s as [so0 se sc sf st]. unfold scan_steps, zlen. cbn. f_equal; lia.
  - apply Forall_cons in Hw as [Hw Hws]. destruct (accept after (sd_out s, sd_expected s) r) as [so1|] eqn:E1; [|done]. cbn [mbind option_bind] in Ha.
    cbn [concat length Nat.add]. rewrite <- app_assoc, (scan_body_frame _ _ _ _ _ _ _ _ _ Hw Hr E1). rewrite IH; [|done|by destruct so1].
    f_equal. unfold scan_steps, scan_step. cbn [sd_out sd_expected sd_count sd_offset sd_torn concat]. unfold zlen. rewrite length_app. cbn [length]. f_equal; lia.
Qed.

(** A part of a frame, not all of it. *)
Definition torn_part (t : bytes) : Prop := t = [] ∨ ∃ r f k, frame r = Ok f ∧ t = take k f ∧ (0 < k < length f)%nat.

Lemma scan_torn_tail after program s t fuel : torn_part t →
  scan_body (S fuel) false after program s t
  = Ok {| sd_out := sd_out s; sd_expected := sd_expected s; sd_count := sd_count s; sd_offset := sd_offset s;
          sd_torn := if bool_decide (t = []) then sd_torn s else Some (sd_offset s) |}.
Proof.
  intros [->|(r&f&k&Hf&->&Hk)]; [by destruct s|]. destruct (frame_shape r f Hf) as (p&Ep&Hp&Ef). unfold maxRecordBytes in Hp.
  assert (length f = 8 + length p)%nat as Hlf by (rewrite Ef, !length_app, !be_put_length; lia).
  assert (length (take k f) = k) as Hlk by (rewrite length_take; lia). rewrite bool_decide_false by (intros E; rewrite E in Hlk; cbn in Hlk; lia).
  cbn [scan_body]. destruct (take k f) as [|b0 d0] eqn:Ed; [cbn in Hlk; lia|]. rewrite <- Ed in *. rewrite Hlk.
  destruct (Nat.ltb_spec k 4) as [|Hk4]; [done|].
  assert (take 4 (take k f) = be_put 4 (zlen p)) as -> by (rewrite take_take, Nat.min_l by lia; rewrite Ef; by rewrite take_app_length' by by rewrite be_put_length).
  rewrite be_get_put4 by lia. rewrite (proj2 (Z.eqb_neq (zlen p) 0)), (proj2 (Z.ltb_ge maxRecordBytes (zlen p))) by (unfold maxRecordBytes; lia). cbn [orb].
  assert (zlen (drop 4 (take k f)) = Z.of_nat k - 4) as -> by (unfold zlen; rewrite length_drop, Hlk; lia).
  unfold zlen in Hp |- *. rewrite (proj2 (Z.ltb_lt (Z.of_nat k - 4) (Z.of_nat (length p) + 4))) by lia. done.
Qed.

Lemma frames_length rs fs : Forall2 (λ r f, frame r = Ok f) rs fs → (length rs ≤ length (concat fs))%nat.
Proof.
  induction 1 as [|r f rs fs Hf _ IH]; [done|]. destruct (frame_shape r f Hf) as (p&_&_&->). cbn [concat length].
  rewrite !length_app, be_put_length. lia.
Qed.

(** ** Segments *)

Lemma header_length id first : length (encodeSegmentHeader id first) = 32%nat.
Proof. unfold encodeSegmentHeader. cbv zeta. rewrite !length_app, !be_put_length. done. Qed.
Lemma footer_length last n : length (encodeSegmentFooter last n) = 24%nat.
Proof. unfold encodeSegmentFooter. cbv zeta. rewrite !length_app, !be_put_length. done. Qed.

Lemma be_get_put8 v : u64_range v → be_get (be_put 8 v) = v.
Proof. intros. by apply be_get_put. Qed.

(** A slice of a concatenation. *)
Lemma slice_at {A} (a b c : list A) n m : length a = n → length b = m → take m (drop n (a ++ b ++ c)) = b.
Proof. intros <- <-. by rewrite drop_app_length, take_app_length. Qed.

Lemma check_header_ok id first rest : u64_range id → u64_range first → check_header id (encodeSegmentHeader id first ++ rest) = Ok first.
Proof.
  intros Hi Hf. unfold check_header. rewrite length_app, header_length. rewrite (proj2 (Nat.ltb_ge (32 + length rest) segmentHeaderSize)) by (unfold segmentHeaderSize; lia).
  cbn [guard_err res_bind]. unfold be_at, encodeSegmentHeader. cbv zeta. set (h := m1WALMagic ++ be_put 4 m1WALVersion ++ be_put 8 id ++ be_put 8 first).
  assert (length h = 28%nat) as Hh by (unfold h; rewrite !length_app, !be_put_length; done).
  pose proof (crc32_range h) as Hc. unfold u32_range in Hc.
  assert (take 28 ((h ++ be_put 4 (crc32 h)) ++ rest) = h) as -> by (rewrite <- app_assoc; by rewrite take_app_length').
  assert (take 4 (drop 28 ((h ++ be_put 4 (crc32 h)) ++ rest)) = be_put 4 (crc32 h)) as -> by (rewrite <- app_assoc; apply slice_at; [done|by rewrite be_put_length]).
  rewrite be_get_put4, Z.eqb_refl by lia.
  set (D := (h ++ be_put 4 (crc32 h)) ++ rest).
  assert (D = m1WALMagic ++ be_put 4 m1WALVersion ++ be_put 8 id ++ be_put 8 first ++ be_put 4 (crc32 h) ++ rest) as ED
    by (unfold D, h; by rewrite <- !app_assoc).
  assert (take 8 D = m1WALMagic) as -> by (rewrite ED; by rewrite take_app_length').
  assert (take 8 (drop 12 D) = be_put 8 id) as ->
    by (rewrite ED, (app_assoc m1WALMagic); apply slice_at; by rewrite ?length_app, ?be_put_length).
  assert (take 8 (drop 20 D) = be_put 8 first) as ->
    by (rewrite ED, (app_assoc m1WALMagic), (app_assoc _ (be_put 8 id)); apply slice_at; by rewrite ?length_app, ?be_put_length).
  rewrite !be_get_put8, !Z.eqb_refl, bool_decide_true by done. done.
Qed.

Lemma check_footer_ok data last n : (32 ≤ length data)%nat → u64_range last → 0 ≤ n < 2 ^ 32 →
  check_footer (data ++ encodeSegmentFooter last n) = Ok (Some (last, n)).
Proof.
  intros Hd Hl Hn. unfold check_footer. rewrite length_app, footer_length. unfold segmentHeaderSize, segmentFooterSize.
  replace (length data + 24 - 24)%nat with (length data) by lia. rewrite drop_app_length. rewrite (proj2 (Nat.leb_le (32 + 24) (length data + 24))) by lia.
  unfold be_at, encodeSegmentFooter. cbv zeta. set (f := m1EndMagic ++ be_put 8 last ++ be_put 4 n).
  assert (length f = 20%nat) as Hf by (unfold f; rewrite !length_app, !be_put_length; done). pose proof (crc32_range f) as Hc. unfold u32_range in Hc.
  assert (take 20 (f ++ be_put 4 (crc32 f)) = f) as -> by by rewrite take_app_length'.
  assert (take 4 (drop 20 (f ++ be_put 4 (crc32 f))) = be_put 4 (crc32 f)) as ->
    by (rewrite drop_app_length' by done; apply take_ge; by rewrite be_put_length).
  rewrite be_get_put4, Z.eqb_refl by lia.
  set (D := f ++ be_put 4 (crc32 f)).
  assert (D = m1EndMagic ++ be_put 8 last ++ be_put 4 n ++ be_put 4 (crc32 f)) as ED by (unfold D, f; by rewrite <- !app_assoc).
  assert (take 8 D = m1EndMagic) as -> by (rewrite ED; by rewrite take_app_length').
  assert (take 8 (drop 8 D) = be_put 8 last) as -> by (rewrite ED; apply slice_at; by rewrite ?be_put_length).
  assert (take 4 (drop 16 D) = be_put 4 n) as -> by (rewrite ED, (app_assoc m1EndMagic); apply slice_at; by rewrite ?length_app, ?be_put_length).
  rewrite be_get_put8, be_get_put4, bool_decide_true by done. done.
Qed.

(** A segment with its footer. *)
Record closed_segment (program : bytes) (f : Z * bytes) (rs : list logRecord) : Prop := {
  cs_data : ∃ first last fs, u64_range first ∧ u64_range last ∧ Forall2 (λ r f, frame r = Ok f) rs fs
    ∧ f.2 = encodeSegmentHeader f.1 first ++ concat fs ++ encodeSegmentFooter last (zlen rs);
  cs_id : u64_range f.1;
  cs_count : zlen rs < 2 ^ 32;
  cs_records : Forall (wal_ok program) rs }.

(** The last segment, without a footer and with a torn tail [t]. *)
Record open_segment (program : bytes) (f : Z * bytes) (rs : list logRecord) (t : bytes) (at_ : Z) : Prop := {
  os_data : ∃ first fs, u64_range first ∧ Forall2 (λ r f, frame r = Ok f) rs fs
    ∧ f.2 = encodeSegmentHeader f.1 first ++ concat fs ++ t ∧ at_ = 32 + zlen (concat fs);
  os_id : u64_range f.1;
  os_tail : torn_part t;
  os_open : check_footer f.2 = Ok None;
  os_records : Forall (wal_ok program) rs }.

Lemma scan_closed program f rs is_last after out ex so : closed_segment program f rs → accepts after (out, ex) rs = Some so →
  ∃ s m, scan_segment is_last after program out ex f.1 f.2 = Ok (s, m) ∧ sd_out s = so.1 ∧ sd_expected s = so.2 ∧ sd_torn s = None ∧ sd_count s = zlen rs.
Proof.
  intros [(first&last&fs&Hf&Hl&Hfs&Ed) Hi Hn Hw] Ha. assert (0 ≤ zlen rs) as Hz by (unfold zlen; lia). unfold scan_segment.
  rewrite Ed, check_header_ok by done. cbn [res_bind].
  assert (check_footer (encodeSegmentHeader f.1 first ++ concat fs ++ encodeSegmentFooter last (zlen rs)) = Ok (Some (last, zlen rs))) as ->.
  { rewrite app_assoc. apply check_footer_ok; [rewrite length_app, header_length; lia|done|lia]. }
  cbn [res_bind]. rewrite (bool_decide_false (Some _ = None)), (bool_decide_true (is_Some (Some (last, zlen rs)))) by (done || by eexists). cbn [andb guard_err res_bind].
  assert (drop segmentHeaderSize (take (length (encodeSegmentHeader f.1 first ++ concat fs ++ encodeSegmentFooter last (zlen rs)) - segmentFooterSize)
    (encodeSegmentHeader f.1 first ++ concat fs ++ encodeSegmentFooter last (zlen rs))) = concat fs ++ []) as ->.
  { rewrite app_nil_r, app_assoc. rewrite take_app_length' by (rewrite !length_app, footer_length; unfold segmentFooterSize; lia).
    by rewrite drop_app_length' by by rewrite header_length. }
  pose proof (frames_length rs fs Hfs) as Hlen.
  replace (S (length (concat fs ++ []))) with (length rs + S (length (concat fs) - length rs))%nat by (rewrite app_nil_r; lia).
  rewrite (scan_body_frames _ _ _ rs fs _ so) by done. cbn [scan_body res_bind]. assert (zlen fs = zlen rs) as Hfr by (unfold zlen; by rewrite (Forall2_length _ _ _ Hfs)).
  unfold scan_steps at 1. cbn [sd_count]. rewrite Hfr. rewrite Z.add_0_l, Z.eqb_refl. cbn [negb guard_err res_bind]. do 2 eexists.
  split; [done|]. split; [done|]. split; [done|]. split; [done|]. exact Hfr.
Qed.

Lemma scan_open program f rs t at_ after out ex so : open_segment program f rs t at_ → accepts after (out, ex) rs = Some so →
  ∃ s m, scan_segment true after program out ex f.1 f.2 = Ok (s, m) ∧ sd_out s = so.1
    ∧ sd_torn s = (if bool_decide (t = []) then None else Some at_) ∧ sd_count s = zlen rs.
Proof.
  intros [(first&fs&Hf&Hfs&Ed&Eat) Hi Ht Ho Hw] Ha. unfold scan_segment. rewrite Ho. rewrite Ed, check_header_ok by done. cbn [res_bind].
  rewrite (bool_decide_true (@None (Z * Z) = None)), (bool_decide_false (is_Some None)) by (done || by intros []). cbn [andb negb guard_err res_bind].
  rewrite drop_app_length' by by rewrite header_length. pose proof (frames_length rs fs Hfs) as Hlen.
  replace (S (length (concat fs ++ t))) with (length rs + S (length (concat fs ++ t) - length rs))%nat by (rewrite length_app; lia).
  rewrite (scan_body_frames _ _ _ rs fs _ so) by done. rewrite scan_torn_tail by done. cbn [res_bind sd_count]. rewrite Z.eqb_refl. cbn [negb guard_err res_bind].
  do 2 eexists. split; [done|]. split; [done|]. cbn [sd_torn scan_steps sd_offset sd_count]. rewrite Eat. split; [done|].
  unfold zlen. by rewrite (Forall2_length _ _ _ Hfs).
Qed.

(** The last file of a directory: closed, or open with a torn tail. *)
Inductive last_segment (program : bytes) (f : Z * bytes) (rs : list logRecord) : option Z → Prop :=
| last_closed : closed_segment program f rs → last_segment program f rs None
| last_open t at_ : open_segment program f rs t at_ → last_segment program f rs (if bool_decide (t = []) then None else Some at_).

Lemma scan_last program f rs torn after out ex so : last_segment program f rs torn → accepts after (out, ex) rs = Some so →
  ∃ s m, scan_segment true after program out ex f.1 f.2 = Ok (s, m) ∧ sd_out s = so.1 ∧ sd_torn s = torn ∧ sd_count s = zlen rs.
Proof.
  destruct 1 as [H|t at_ H]; intros Ha.
  - destruct (scan_closed _ _ _ true _ _ _ _ H Ha) as (s&m&E&H1&_&H3&H4). eauto 10.
  - by apply (scan_open _ _ _ _ _ _ _ _ _ H Ha).
Qed.

Lemma scan_segments_ok program files rss f rs torn after out ex metas so :
  Forall2 (closed_segment program) files rss → last_segment program f rs torn →
  accepts after (out, ex) (concat rss ++ rs) = Some so →
  ∃ metas' m s out' ex', scan_segments after program out ex metas (files ++ [f]) = Ok (so.1, metas' ++ [m], torn)
    ∧ scan_segment true after program out' ex' f.1 f.2 = Ok (s, m) ∧ sd_out s = so.1 ∧ sd_count s = zlen rs.
Proof.
  intros Hfs Hl. revert out ex metas. induction Hfs as [|g gs files rss Hg Hfs IH]; intros out ex metas Ha.
  - destruct (scan_last _ _ _ _ _ _ _ _ Hl Ha) as (s&m&E&Es&Et&Ec). exists metas, m, s, out, ex. destruct f as [id data]. cbn [app scan_segments concat fst snd] in *.
    rewrite bool_decide_true by done. rewrite E. cbn [res_bind]. by rewrite Es, Et.
  - cbn [concat] in Ha. rewrite <- app_assoc, accepts_app in Ha. destruct (accepts after (out, ex) gs) as [so1|] eqn:E1; [|done]. cbn [mbind option_bind] in Ha.
    destruct (scan_closed _ _ _ false _ _ _ _ Hg E1) as (s&m&E&H1&H2&_&_). destruct g as [id data]. cbn [app scan_segments fst snd] in *.
    rewrite bool_decide_false by by destruct files. rewrite E. cbn [res_bind]. rewrite H1, H2. apply IH. by destruct so1.
Qed.

(** Records numbered one after the other. *)
Fixpoint numbered_from (k : Z) (rs : list logRecord) : Prop :=
  match rs with [] => True | r :: rs => lr_Sequence r = k + 1 ∧ numbered_from (k + 1) rs end.

Lemma accepts_numbered rs k out : 0 ≤ k → k + zlen rs < 2 ^ 64 - 1 → numbered_from k rs → ∀ after, after ≤ k →
  accepts after (out, k + 1) rs = Some (out ++ rs, k + zlen rs + 1).
Proof.
  revert k out. induction rs as [|r rs IH]; intros k out Hk Hb Hn after Ha; cbn [accepts].
  - rewrite app_nil_r. unfold zlen. cbn. do 2 f_equal. lia.
  - destruct Hn as [Hs Hn]. unfold zlen in *. cbn [length] in *. unfold accept. cbn [fst snd]. rewrite Hs, Z.ltb_irrefl, Z.eqb_refl. cbn [mbind option_bind].
    rewrite u64_id by (unfold u64_range; lia). rewrite (IH (k + 1) (out ++ [r])) by (done || lia). rewrite <- app_assoc. cbn [app]. do 2 f_equal. lia.
Qed.

Lemma accepts_skip rs k after out : k + zlen rs ≤ after → numbered_from k rs → accepts after (out, after + 1) rs = Some (out, after + 1).
Proof.
  revert k. induction rs as [|r rs IH]; intros k Hb Hn; [done|]. destruct Hn as [Hs Hn]. unfold zlen in *. cbn [length accepts] in *.
  unfold accept. cbn [fst snd]. rewrite (proj2 (Z.ltb_lt (lr_Sequence r) (after + 1))), (proj2 (Z.leb_le (lr_Sequence r) after)) by lia. cbn [mbind option_bind].
  apply (IH (k + 1)); [lia|done].
Qed.

Lemma numbered_app k rs1 rs2 : numbered_from k (rs1 ++ rs2) → numbered_from k rs1 ∧ numbered_from (k + zlen rs1) rs2.
Proof.
  revert k. induction rs1 as [|r rs1 IH]; intros k H; [by rewrite Z.add_0_r|]. destruct H as [Hs H]. apply IH in H as [H1 H2].
  split; [done|]. unfold zlen in *. cbn [length]. by replace (k + Z.of_nat (S (length rs1))) with (k + 1 + Z.of_nat (length rs1)) by lia.
Qed.

Lemma numbered_join k rs1 rs2 : numbered_from k rs1 → numbered_from (k + zlen rs1) rs2 → numbered_from k (rs1 ++ rs2).
Proof.
  revert k. induction rs1 as [|r rs1 IH]; intros k H1 H2; [by rewrite Z.add_0_r in H2|]. destruct H1 as [Hs H1]. split; [done|]. apply IH; [done|].
  unfold zlen in *. cbn [length] in H2. by replace (k + 1 + Z.of_nat (length rs1)) with (k + Z.of_nat (S (length rs1))) by lia.
Qed.

Lemma numbered_bounds k rs : numbered_from k rs → Forall (λ r, k < lr_Sequence r ≤ k + zlen rs) rs.
Proof.
  revert k. induction rs as [|r rs IH]; intros k; [done|]. intros [E Hn]. unfold zlen in *. cbn [length]. constructor; [lia|].
  eapply Forall_impl; [by apply IH|]. cbn. lia.
Qed.
