(* ===== verification/ResearchStorage.v ===== *)
(** * The storage of the research engine ([internal/researchengine/m1_storage.go])

    Segments in the directory [wal], snapshots in [snapshots], both in one world of
    files: a path is a name with its directory.  The storage is a state that
    survives errors, threaded through the I/O of the world.  Statistics are left
    out. *)

From Stdlib Require Import ZArith Lia Strings.Byte Strings.String.
From stdpp Require Import base decidable countable list gmap sorting.
From S2P Require Import Prelude GoText GoBinary GoVarint GoJson Errors GoOS KeyedStorage AccountAgent Research ResearchEngine ResearchWal.

Local Open Scope Z_scope.
Local Open Scope go_scope.

Inductive DurabilityMode := MemoryOnly | BatchSync | SyncEach.
#[export] Instance DurabilityMode_eq_dec : EqDecision DurabilityMode.
Proof. solve_decision. Defined.

Record m1Storage := {
  st_mode : DurabilityMode; st_segmentRecords : Z; st_file : option nat; st_segment : segmentMeta; st_nextSegmentID : Z;
  st_programID : bytes }.

(** ** Storage operations keep the storage on an error *)

Definition sio (A : Type) : Type := m1Storage → world → res gerror A * m1Storage * world.
#[export] Instance sio_ret : MRet sio := fun A a s w => (Ok a, s, w).
#[export] Instance sio_bind : MBind sio := fun A B f m s w =>
  match m s w with (Ok a, s, w) => f a s w | (Err e, s, w) => (Err e, s, w) end.
Definition sio_io {A} (m : io A) : sio A := fun s w => let (r, w) := m w in (r, s, w).
Definition sio_err {A} (e : gerror) : sio A := fun s w => (Err e, s, w).
Definition get : sio m1Storage := fun s w => (Ok s, s, w).
Definition put (s : m1Storage) : sio unit := fun _ w => (Ok tt, s, w).
Definition sio_inject (inject : injector) (p : FailurePoint) : sio unit :=
  match inject p with Some e => sio_err e | None => mret tt end.
Definition sio_wrap {A} (context : string) (m : sio A) : sio A := fun s w =>
  match m s w with (Err e, s, w) => (Err (EWrap context e), s, w) | r => r end.
Arguments sio_wrap {A} _%_string _.

(** [File.Write] on a handle at the end of its file: an error unless all was
    written. *)
Definition append_file (i : nat) (d : bytes) : io unit := fun w =>
  match write_file i (length (content (inode i w))) d w with
  | (Ok (n, err), w') =>
      match err with
      | Some e => (Err e, w')
      | None => if bool_decide (n = length d) then (Ok tt, w') else (Err (EOS "short write"), w')
      end
  | (Err e, w') => (Err e, w')
  end.

(** ** Names *)

Definition pad20 (v : Z) : bytes := replicate (20 - length (dec v)) x30 ++ dec v.
Definition wal_dir : bytes := bs "wal/".
Definition snapshot_dir : bytes := bs "snapshots/".
Definition segmentName (id : Z) : bytes := bs "segment-" ++ pad20 id ++ bs ".wal".
Definition snapshotName (seq : Z) : bytes := bs "snapshot-" ++ pad20 seq ++ bs ".snap".

(** The part of a name between a prefix and a suffix. *)
Definition between (prefix suffix name : bytes) : option bytes :=
  r ← strip prefix name;
  let n := (length r - length suffix)%nat in
  if Nat.leb (length suffix) (length r) && bool_decide (drop n r = suffix) then Some (take n r) else None.
Definition parseSegmentID (name : bytes) : option Z := d ← between (bs "segment-") (bs ".wal") name; parse_uint64 d.

(** The names of a directory with what [parse] makes of them, by identifier. *)
Definition id_le (a b : Z * bytes) : Prop := a.1 ≤ b.1.
#[export] Instance id_le_dec a b : Decision (id_le a b).
Proof. unfold id_le. apply _. Defined.
Definition listing (dir : bytes) (parse : bytes → option Z) : io (list (Z * bytes)) :=
  names ← read_dir;
  mret (merge_sort id_le (omap (fun path => name ← strip dir path; id ← parse name; Some (id, path)) names)).

Fixpoint read_files (l : list (Z * bytes)) : io (list (Z * bytes)) :=
  match l with
  | [] => mret []
  | (id, path) :: l => data ← read_file path; rest ← read_files l; mret ((id, data) :: rest)
  end.

(** ** The log *)

Definition with_file (s : m1Storage) (f : option nat) (m : segmentMeta) (next : Z) : m1Storage :=
  {| st_mode := st_mode s; st_segmentRecords := st_segmentRecords s; st_file := f; st_segment := m; st_nextSegmentID := next;
     st_programID := st_programID s |}.

Definition ensureSegment (first : Z) : sio unit :=
  s ← get;
  if bool_decide (st_mode s = MemoryOnly) || bool_decide (is_Some (st_file s)) then mret tt
  else
    let id := first in
    i ← sio_io (create_excl (wal_dir ++ segmentName id));
    let header := encodeSegmentHeader id first in
    _ ← sio_io (on_error (ignore close_file) (append_file i header));
    put (with_file s (Some i) {| sm_id := id; sm_first := first; sm_last := 0; sm_records := 0; sm_closed := false; sm_size := zlen header |}
           (u64 (id + 1))).

Definition closeSegment (sync : bool) : sio unit :=
  s ← get;
  match st_file s with
  | None => mret tt
  | Some i =>
      let m := st_segment s in
      _ ← sio_io (append_file i (encodeSegmentFooter (sm_last m) (sm_records m)));
      _ ← (if sync then sio_io (sync_file i) else mret tt);
      _ ← sio_io close_file;
      put (with_file s None m (st_nextSegmentID s))
  end.

Definition append_record (inject : injector) (r : logRecord) : sio unit :=
  _ ← sio_wrap "ensure WAL segment" (ensureSegment (lr_Sequence r));
  s ← get;
  _ ← (if st_segmentRecords s <=? sm_records (st_segment s) then
         _ ← sio_inject inject DuringSegmentRotation;
         _ ← sio_wrap "rotate WAL segment" (closeSegment true);
         sio_wrap "ensure rotated WAL segment" (ensureSegment (lr_Sequence r))
       else mret tt);
  s ← get;
  match frame r, st_file s with
  | Err e, _ => sio_err e
  | Ok framed, None => sio_err (EOS "nil file")
  | Ok framed, Some i =>
      _ ← match inject DuringWALAppend with
          | Some e => _ ← sio_io (ignore (append_file i (take (length framed / 2) framed))); sio_err e
          | None => mret tt
          end;
      _ ← sio_wrap "append WAL frame" (sio_io (append_file i framed));
      let m := st_segment s in
      put (with_file s (Some i)
             {| sm_id := sm_id m; sm_first := sm_first m; sm_last := lr_Sequence r; sm_records := sm_records m + 1;
                sm_closed := sm_closed m; sm_size := sm_size m + zlen framed |} (st_nextSegmentID s))
  end.

Fixpoint append_records (inject : injector) (rs : list logRecord) : sio unit :=
  match rs with [] => mret tt | r :: rs => _ ← append_record inject r; append_records inject rs end.

Definition appendGroup (inject : injector) (records : list logRecord) : sio unit :=
  s ← get;
  if bool_decide (st_mode s = MemoryOnly) then mret tt
  else
    _ ← sio_inject inject BeforeWALAppend;
    _ ← append_records inject records;
    _ ← sio_inject inject AfterWALAppendBeforeSync;
    s ← get;
    match st_file s with
    | None => sio_err (EOS "nil file")
    | Some i => sio_wrap "sync WAL group" (sio_io (sync_file i))
    end.

(** [os.OpenFile] of a file there is, and [os.Truncate]. *)
Definition open_path (path : bytes) : io nat :=
  call "open" (fun w => match w_dir w !! path with Some i => (Ok i, w) | None => (Err ENotExist, w) end).
Definition truncate_path (path : bytes) (n : nat) : io unit := fun w =>
  match w_dir w !! path with Some i => truncate i n w | None => (Err ENotExist, w) end.

(** [openM1Storage]: the stale temporary files removed, the segments scanned, and
    the last one opened again when it has no footer. *)
Definition drop_stale (names : list bytes) : io unit :=
  foldr (fun path k =>
    match (name ← strip snapshot_dir path; between [] (bs ".tmp") name) with Some _ => _ ← remove path; k | None => k end) (mret tt) names.

Definition openM1Storage (mode : DurabilityMode) (segmentRecords : Z) (program : bytes) (after : Z) : io (m1Storage * list logRecord) :=
  let segmentRecords := if segmentRecords <=? 0 then 4096 else segmentRecords in
  _ ← mkdir_all; _ ← mkdir_all;
  stale ← attempt read_dir;
  _ ← match stale with Ok names => drop_stale names | Err _ => mret tt end;
  files ← listing wal_dir parseSegmentID;
  contents ← read_files files;
  '(records, metas, torn) ← io_res (scanSegments after program contents);
  let fresh_meta := {| sm_id := 0; sm_first := 0; sm_last := 0; sm_records := 0; sm_closed := false; sm_size := 0 |} in
  let s f m next := {| st_mode := mode; st_segmentRecords := segmentRecords; st_file := f; st_segment := m; st_nextSegmentID := next;
                       st_programID := program |} in
  match last metas, last files with
  | Some m, Some (_, path) =>
      if sm_closed m then mret (s None fresh_meta (u64 (sm_id m + 1)), records)
      else
        m ← match torn with
            | Some n =>
                _ ← truncate_path path (Z.to_nat n);
                mret {| sm_id := sm_id m; sm_first := sm_first m; sm_last := sm_last m; sm_records := sm_records m; sm_closed := sm_closed m;
                        sm_size := n |}
            | None => mret m
            end;
        i ← open_path path;
        mret (s (Some i) m (u64 (sm_id m + 1)), records)
  | _, _ => mret (s None fresh_meta 1, records)
  end.

(** Closed segments a snapshot covers. *)
Fixpoint retire_files (s : m1Storage) (sequence : Z) (l : list (Z * bytes)) : io unit :=
  match l with
  | [] => mret tt
  | (id, path) :: l =>
      data ← read_file path;
      let f := drop (length data - segmentFooterSize) data in
      _ ← (if Nat.ltb (length data) segmentFooterSize || negb (bool_decide (take 8 f = m1EndMagic)) then mret tt
           else if (be_at f 8 8 <=? sequence) && (bool_decide (st_file s = None) || negb (id =? sm_id (st_segment s)))
           then remove path else mret tt);
      retire_files s sequence l
  end.
Definition retireThrough (sequence : Z) : sio unit :=
  s ← get; files ← sio_io (listing wal_dir parseSegmentID); sio_io (retire_files s sequence files).

(** ** Snapshots *)

Definition m1SnapshotMagic : bytes := bs "OCTSNAP1".

Definition frame_snapshot (payload : bytes) : bytes :=
  m1SnapshotMagic ++ be_put 4 m1SnapshotVersion ++ be_put 8 (zlen payload) ++ sha256 payload ++ payload.

(** [installSnapshot] for the encoded snapshot of a sequence. *)
Definition installSnapshot (inject : injector) (sequence : Z) (payload : bytes) : sio bytes :=
  let framed := frame_snapshot payload in
  let final := snapshot_dir ++ snapshotName sequence in
  let tmp := final ++ bs ".tmp" in
  i ← sio_io (create_excl tmp);
  _ ← match inject DuringSnapshotWrite with
      | Some e => _ ← sio_io (ignore (append_file i (take (length framed / 2) framed))); _ ← sio_io (ignore close_file); sio_err e
      | None => mret tt
      end;
  written ← sio_io (attempt (_ ← append_file i framed; sync_file i));
  closed ← sio_io (attempt close_file);
  _ ← match written, closed with Err e, _ => sio_err e | Ok _, Err e => sio_err e | _, _ => mret tt end;
  _ ← sio_inject inject AfterSnapshotSyncBeforeInstall;
  _ ← sio_io (rename tmp final);
  _ ← sio_inject inject AfterSnapshotInstallBeforeCleanup;
  mret final.

(** The frame of a snapshot, checked. *)
Definition snapshot_payload (data : bytes) : res gerror bytes :=
  let! _ := guard_err (Nat.ltb (length data) 52 || negb (bool_decide (take 8 data = m1SnapshotMagic)) || negb (be_at data 8 4 =? m1SnapshotVersion))
              (EMsg "invalid snapshot header") in
  let! _ := guard_err (negb (be_at data 12 8 =? zlen data - 52)) (EMsg "snapshot length mismatch") in
  let! _ := guard_err (negb (bool_decide (sha256 (drop 52 data) = take 32 (drop 20 data)))) (EMsg "snapshot hash mismatch") in
  Ok (drop 52 data).

(** The newest snapshot of the directory by its name. *)
Definition latest_snapshot : io (option (Z * bytes)) :=
  files ← listing snapshot_dir (fun name => d ← between (bs "snapshot-") (bs ".snap") name; parse_uint64 d);
  match last files with
  | None => mret None
  | Some (seq, path) => data ← read_file path; payload ← io_res (snapshot_payload data); mret (Some (seq, payload))
  end.
