(* ===== verification/ResearchStorageLemmas.v ===== *)
(** * Segments and the names of the files of the research engine

    A directory of segments is read back from any frontier; what the scan refuses
    although the code wrote it. *)

From Stdlib Require Import ZArith Lia Strings.Byte Strings.String.
From stdpp Require Import base decidable countable list gmap sorting.
From S2P Require Import Prelude GoText GoBinary GoJson Errors GoOS KeyedStorage KeyedRecovery GoVarint AccountAgent AgentLemmas Research ResearchEngine ResearchWal ResearchWalLemmas ResearchStorage.

Local Open Scope Z_scope.
Local Open Scope go_scope.

(** The scan from a frontier inside the records. *)
Lemma accepts_after rs from after : numbered_from from rs → 0 ≤ from ≤ after → after ≤ from + zlen rs → from + zlen rs < 2 ^ 64 - 1 →
  accepts after ([], u64 (after + 1)) rs = Some (drop (Z.to_nat (after - from)) rs, from + zlen rs + 1).
Proof.
  intros Hn Hf Ha Hb. set (n := Z.to_nat (after - from)). rewrite <- (take_drop n rs) in Hn |- * at 1. unfold zlen in *.
  assert (length (take n rs) = n) as Hl by (rewrite length_take; lia). apply numbered_app in Hn as [H1 H2]. unfold zlen in *. rewrite Hl in H2.
  rewrite u64_id by (unfold u64_range; lia). rewrite accepts_app, (accepts_skip (take n rs) from) by (done || unfold zlen; lia). cbn [mbind option_bind].
  replace (from + Z.of_nat n) with after in H2 by lia. rewrite accepts_numbered by (done || unfold zlen; rewrite ?length_drop; lia). cbn [app]. do 2 f_equal.
  unfold zlen. rewrite length_drop. lia.
Qed.

(** closed segments and a last one, closed or with a torn
    append at its end, whose records are numbered without a gap: from any
    frontier inside them, whichever segment it lies in, the scan gives exactly
    the records after it, and the place where the torn append begins. *)
Theorem segments_recover (program : bytes) (files : list (Z * bytes)) (rss : list (list logRecord)) (f : Z * bytes) (rs : list logRecord)
    (torn : option Z) (from after : Z) :
  Forall2 (closed_segment program) files rss → last_segment program f rs torn → numbered_from from (concat rss ++ rs) →
  0 ≤ from ≤ after → after ≤ from + zlen (concat rss ++ rs) → from + zlen (concat rss ++ rs) < 2 ^ 64 - 1 →
  ∃ metas, scanSegments after program (files ++ [f]) = Ok (drop (Z.to_nat (after - from)) (concat rss ++ rs), metas, torn).
Proof.
  intros Hfs Hl Hn Hf Ha Hb. destruct (scan_segments_ok _ _ _ _ _ _ _ _ _ [] _ Hfs Hl (accepts_after _ _ _ Hn Hf Ha Hb)) as (ms&m&_&_&_&E&_).
  by exists (ms ++ [m]).
Qed.

(** ** A directory *)

Definition sample (n : Z) (id : string) : logRecord :=
  with_sequence
    (command_record {| cm_ID := bs id; cm_Kind := Deposit; cm_Account := 7; cm_Other := 0; cm_Amount := 5 |} m1GoProgramID
       {| rs_Sequence := 0; rs_CommandID := bs id; rs_Accepted := true; rs_ReasonTag := 0; rs_EffectTag := 2; rs_TransitionCount := n;
          rs_Duplicate := false |} 2 (5 * n) 0 1 n 0 (bs "{}") []) n.
Arguments sample _ _%_string.
Definition framed (r : logRecord) : bytes := match frame r with Ok f => f | Err _ => [] end.

Lemma sample_ok n id : 0 ≤ n < 2 ^ 32 → utf8_valid (bs id) = true → wal_ok m1GoProgramID (sample n id).
Proof.
  intros Hn Hi. split; [|done..]. split; try done.
  - change (Forall i64_range [3; 1; 5; 2; 5 * n; 0; 1; 0; n]). unfold i64_range. foralls; lia.
  - change (Forall u64_range [n; 7; 7; 0; n; 0]). unfold u64_range. foralls; lia.
  - change (Forall (λ s, utf8_valid s = true) [m1SchemaID; m1GoProgramID; bs id]). foralls; done.
Qed.

Definition first_segment : Z * bytes :=
  (1, encodeSegmentHeader 1 1 ++ concat [framed (sample 1 "a"); framed (sample 2 "b")] ++ encodeSegmentFooter 2 2).
Definition second_segment : Z * bytes :=
  (3, encodeSegmentHeader 3 3 ++ concat [framed (sample 3 "c")] ++ take 100 (framed (sample 4 "d"))).

Lemma first_segment_ok : closed_segment m1GoProgramID first_segment [sample 1 "a"; sample 2 "b"].
Proof.
  split; [|by vm_compute..|foralls; by apply sample_ok].
  exists 1, 2, [framed (sample 1 "a"); framed (sample 2 "b")]. split_and!; [by vm_compute..| |done].
  repeat constructor; by vm_compute.
Qed.
Lemma second_segment_ok : open_segment m1GoProgramID second_segment [sample 3 "c"] (take 100 (framed (sample 4 "d"))) (32 + zlen (framed (sample 3 "c"))).
Proof.
  split; [|by vm_compute| |by vm_compute|foralls; by apply sample_ok].
  - exists 3, [framed (sample 3 "c")]. split_and!; [by vm_compute| |done|cbn [concat]; by rewrite app_nil_r]. repeat constructor; by vm_compute.
  - right. exists (sample 4 "d"), (framed (sample 4 "d")), 100%nat. split_and!; [by vm_compute|done|lia|]. vm_compute. lia.
Qed.

Lemma segments_recover_witness :
  ∃ metas, scanSegments 1 m1GoProgramID [first_segment; second_segment]
    = Ok ([sample 2 "b"; sample 3 "c"], metas, Some (32 + zlen (framed (sample 3 "c")))).
Proof.
  destruct (segments_recover m1GoProgramID [first_segment] [[sample 1 "a"; sample 2 "b"]] second_segment [sample 3 "c"]
    (Some (32 + zlen (framed (sample 3 "c")))) 0 1) as [metas E].
  - constructor; [apply first_segment_ok|constructor].
  - exact (last_open _ _ _ _ _ second_segment_ok).
  - cbn. lia.
  - lia.
  - cbn. unfold zlen. cbn. lia.
  - cbn. unfold zlen. cbn. lia.
  - exists metas. exact E.
Defined.

(** ** What the scan refuses *)

(** An append that was cut inside a command identifier: its last bytes look like a
    footer, and the log does not open although all it lost is that append. *)
Example torn_like_footer :
  scanSegments 0 m1GoProgramID
    [(1, encodeSegmentHeader 1 1 ++ framed (sample 1 "a") ++ take 165 (framed (sample 2 "xxOCTEND01yyyyyyyyyyyyyyyy")))]
  = Err (EMsg "invalid segment footer").
Proof. vm_compute. reflexivity. Qed.

(** A segment whose header was cut: nothing was acknowledged in it, and the log
    with the closed segments before it does not open. *)
Example torn_header :
  scanSegments 0 m1GoProgramID [first_segment; (3, take 20 (encodeSegmentHeader 3 3))] = Err (EMsg "invalid segment header").
Proof. vm_compute. reflexivity. Qed.

(** ** Lemmas on the storage of the research engine

    Names of segments read back, a log that ends with a whole frame never looks
    closed, what the calls of the world do when they succeed, and the listing of
    the directory. *)

(** ** Names *)

Lemma strip_app p s : strip p (p ++ s) = Some s.
Proof. unfold strip. by rewrite take_app_length, drop_app_length, bool_decide_true. Qed.

Lemma between_app p m s : between p s (p ++ m ++ s) = Some m.
Proof.
  unfold between. rewrite strip_app. cbn [mbind option_bind]. rewrite length_app. replace (length m + length s - length s)%nat with (length m) by lia.
  rewrite drop_app_length, take_app_length, bool_decide_true by done. by rewrite (proj2 (Nat.leb_le _ _)) by lia.
Qed.

Lemma digits_value_zeros k l : digits_value 0 (replicate k x30 ++ l) = digits_value 0 l.
Proof. by induction k. Qed.

Lemma parse_pad20 v : u64_range v → parse_uint64 (pad20 v) = Some v.
Proof.
  intros H. pose proof (parse_uint64_dec v H) as E. unfold pad20. generalize (20 - length (dec v))%nat. intros k. unfold parse_uint64 in *.
  destruct (dec v) as [|b l] eqn:D; [done|]. rewrite digits_value_zeros. destruct k as [|k]; exact E.
Qed.

Lemma parse_segmentName id : u64_range id → parseSegmentID (segmentName id) = Some id.
Proof. intros H. unfold parseSegmentID, segmentName. rewrite between_app. cbn [mbind option_bind]. by apply parse_pad20. Qed.

Definition segment_path (id : Z) : bytes := wal_dir ++ segmentName id.
Definition segment_of (path : bytes) : option Z := name ← strip wal_dir path; parseSegmentID name.

Lemma segment_of_path id : u64_range id → segment_of (segment_path id) = Some id.
Proof. intros H. unfold segment_of, segment_path. rewrite strip_app. cbn [mbind option_bind]. by apply parse_segmentName. Qed.

(** ** Whole frames do not look like a footer *)

Lemma dec_nat_digits n : Forall (λ b, b ≠ x4f) (dec_nat n).
Proof.
  apply Forall_forall. intros b Hb ->. pose proof (dec_from_digits (S (N.to_nat (N.log2 n))) n [] eq_refl) as H.
  rewrite forallb_forall in H. apply list_elem_of_In in Hb. by specialize (H _ Hb).
Qed.
Lemma dec_no_O v : Forall (λ b, b ≠ x4f) (dec v).
Proof. unfold dec. case_match; [constructor; [done|]|]; apply dec_nat_digits. Qed.

Lemma print_last l k v : ∃ p, print (JObj (l ++ [(k, v)])) = p ++ quote k ++ x3a :: print v ++ [x7d].
Proof.
  destruct l as [|[k' v'] l]; [by exists [x7b]|]. cbn [app print]. rewrite map_app, concat_app. cbn [map concat fst snd]. rewrite app_nil_r.
  exists (x7b :: quote k' ++ x3a :: print v' ++ concat (map (λ kv, x2c :: quote kv.1 ++ x3a :: print kv.2) l) ++ [x2c]).
  repeat (rewrite <- ?app_assoc; cbn [app]). done.
Qed.

(** A record's text ends with twenty bytes without an [O]. *)
Lemma log_json_tail r : ∃ p q, print (log_json r) = p ++ q ∧ (20 ≤ length q)%nat ∧ Forall (λ b, b ≠ x4f) q.
Proof.
  set (R := JObj [(bs "accepted", JBool (rs_Accepted (lr_Result r))); (bs "reason", JNum (dec (rs_ReasonTag (lr_Result r))));
                  (bs "turns", JNum (dec (rs_TransitionCount (lr_Result r))))]).
  assert (∃ l, log_json r = JObj (l ++ [(bs "result", R)])) as (l&->).
  { unfold log_json. fold R. eexists. f_equal. rewrite !app_assoc. reflexivity. }
  destruct (print_last l (bs "result") R) as [p ->]. exists p. eexists. split; [reflexivity|].
  assert (∀ k, k ∈ [bs "result"; bs "accepted"; bs "reason"; bs "turns"] → Forall (λ b, b ≠ x4f) (quote k)) as Hq.
  { apply Forall_forall. repeat (constructor; [apply (bool_decide_eq_true_1 _); by vm_compute|]). constructor. }
  split.
  - unfold R. cbn [print]. repeat (rewrite ?length_cons, ?length_app).
    change (length (quote (bs "result"))) with 8%nat. change (length (quote (bs "accepted"))) with 10%nat. lia.
  - unfold R. cbn [print map concat fst snd].
    repeat first [apply Forall_nil; exact I | apply Forall_cons; split; [done|] | apply Forall_app; split | apply dec_no_O
                 | apply Hq; set_solver | progress (destruct (rs_Accepted (lr_Result r)))].
    all: repeat constructor; done.
Qed.

Lemma footer_first data : (∃ l, drop (length data - 24) data = x4f :: l) ∨ check_footer data = Ok None.
Proof.
  unfold check_footer. case_match eqn:E; [left|by right]. bool_to_prop. unfold segmentFooterSize in *.
  destruct (drop (length data - 24) data) as [|b l] eqn:D; [done|]. exists l.
  match goal with H : take 8 _ = _ |- _ => cbn in H; by injection H as -> _ end.
Qed.

(** A header and whole frames: no footer. *)
Lemma frames_open id first rs fs : Forall2 (λ r f, frame r = Ok f) rs fs →
  check_footer (encodeSegmentHeader id first ++ concat fs) = Ok None.
Proof.
  intros H. destruct rs as [|r rs _] using rev_ind.
  { apply Forall2_nil_inv_l in H as ->. unfold check_footer. rewrite app_nil_r, header_length. done. }
  apply Forall2_app_inv_l in H as (fs1&fs2&_&H2&->). apply Forall2_cons_inv_l in H2 as (f&?&Hf&Hn&->). apply Forall2_nil_inv_l in Hn as ->.
  destruct (frame_shape _ _ Hf) as (p&Ep&_&->). destruct (log_json_tail r) as (a&q&Et&Hl&Hq). rewrite <- Ep in Et. subst p. rewrite Et.
  destruct (footer_first (encodeSegmentHeader id first ++ concat (fs1 ++ [be_put 4 (zlen (a ++ q)) ++ (a ++ q) ++ be_put 4 (crc32 (a ++ q))])))
    as [(l&E)|]; [exfalso|done].
  rewrite concat_app in E. cbn [concat] in E. rewrite app_nil_r in E. set (c := be_put 4 (crc32 (a ++ q))) in *.
  assert (length c = 4%nat) as Hc by apply be_put_length.
  replace (encodeSegmentHeader id first ++ concat fs1 ++ be_put 4 (zlen (a ++ q)) ++ (a ++ q) ++ c)
    with ((encodeSegmentHeader id first ++ concat fs1 ++ be_put 4 (zlen (a ++ q)) ++ a) ++ q ++ c) in E by by rewrite <- !app_assoc.
  set (X := encodeSegmentHeader id first ++ _) in E. clearbody X.
  replace (length (X ++ q ++ c) - 24)%nat with (length X + (length q - 20))%nat in E by (rewrite !length_app; lia).
  rewrite drop_app_add, drop_app_le in E by lia. destruct (drop _ q) as [|b l'] eqn:D.
  - apply (f_equal length) in D. rewrite length_drop in D. cbn in D. lia.
  - injection E as -> _. rewrite Forall_forall in Hq. refine (Hq x4f _ eq_refl).
    rewrite <- (take_drop (length q - 20) q), D. set_solver.
Qed.

(** ** Calls that succeed *)

(** The files of a world: what does not depend on the faults to come. *)
Definition files_of (w : world) : gmap bytes nat * gmap nat file * nat := (w_dir w, w_inodes w, w_next w).

Lemma tick_files w f w' : tick w = (f, w') → files_of w' = files_of w.
Proof. unfold tick. destruct (w_faults w); by intros [= <- <-]. Qed.

Lemma call_ok {A} name (f : io A) w a w' : call name f w = (Ok a, w') → ∃ w1, files_of w1 = files_of w ∧ f w1 = (Ok a, w').
Proof.
  unfold call. destruct (tick w) as [[] w1] eqn:E; try done; apply tick_files in E; eauto.
Qed.

Lemma create_excl_ok path w i w' : create_excl path w = (Ok i, w') →
  w_dir w !! path = None ∧ i = w_next w ∧ files_of w' = (<[path := i]> (w_dir w), <[i := empty_file]> (w_inodes w), S i).
Proof.
  unfold create_excl. intros H. apply call_ok in H as (w1&E&H). injection E as E1 E2 E3.
  destruct (w_dir w1 !! path) eqn:El; [done|]. injection H as <- <-. rewrite <- E1, <- E2, <- E3. done.
Qed.

Lemma append_file_ok i d w w' : append_file i d w = (Ok tt, w') →
  files_of w' = (w_dir w, <[i := modify (FWrite (length (content (inode i w))) d) (inode i w)]> (w_inodes w), w_next w).
Proof.
  unfold append_file, write_file. destruct (tick w) as [f w1] eqn:E. apply tick_files in E as E'. injection E' as E1 E2 E3.
  assert (inode i w1 = inode i w) as Hi by (unfold inode; by rewrite E2).
  destruct f as [| |n b]; cbn [fst snd]; [|done|].
  - rewrite bool_decide_true by done. intros [= <-]. unfold files_of. cbn. by rewrite Hi, E1, E2, E3.
  - destruct (b && _); [done|]. case_bool_decide as Hn; [|done]. intros [= <-]. unfold files_of. cbn. rewrite Hi, E1, E2, E3.
    rewrite take_ge by lia. done.
Qed.

Lemma sync_file_ok i w w' : sync_file i w = (Ok tt, w') → files_of w' = (w_dir w, <[i := settle (inode i w)]> (w_inodes w), w_next w).
Proof.
  unfold sync_file. intros H. apply call_ok in H as (w1&E&H). injection E as E1 E2 E3. injection H as <-. unfold files_of, inode. cbn. by rewrite E1, E2, E3.
Qed.

Lemma close_file_ok w w' : close_file w = (Ok tt, w') → files_of w' = files_of w.
Proof. unfold close_file. intros H. apply call_ok in H as (w1&E&H). by injection H as <-. Qed.

(** ** Sequences of storage operations *)

Lemma sio_bind_ok {A B} (m : sio A) (f : A → sio B) s w b s' w' :
  (m ≫= f) s w = (Ok b, s', w') → ∃ a s1 w1, m s w = (Ok a, s1, w1) ∧ f a s1 w1 = (Ok b, s', w').
Proof. unfold mbind, sio_bind. destruct (m s w) as [[[a|e] s1] w1]; [|done]. eauto 6. Qed.
Lemma sio_io_ok {A} (m : io A) s w a s' w' : sio_io m s w = (Ok a, s', w') → s' = s ∧ m w = (Ok a, w').
Proof. unfold sio_io. destruct (m w). by intros [= <- <- <-]. Qed.
Lemma sio_wrap_ok {A} c (m : sio A) s w a s' w' : sio_wrap c m s w = (Ok a, s', w') → m s w = (Ok a, s', w').
Proof. unfold sio_wrap. by destruct (m s w) as [[[]]]. Qed.
Lemma on_error_ok {A} c (m : io A) w a w' : on_error c m w = (Ok a, w') → m w = (Ok a, w').
Proof. unfold on_error. by destruct (m w) as [[]]. Qed.

(** ** The listing of the directory *)

#[export] Instance id_le_total : Total id_le.
Proof. intros a b. unfold id_le. lia. Qed.
#[export] Instance id_le_trans : Transitive id_le.
Proof. intros a b c. unfold id_le. lia. Qed.

(** The files of one kind: where they are, how their names are read and made. *)
Section Listing.

Context (dir : bytes) (parse id_of : bytes → option Z) (path_of : Z → bytes).
Hypothesis id_of_eq : ∀ path, id_of path = (name ← strip dir path; parse name).
Hypothesis id_of_path : ∀ id, u64_range id → id_of (path_of id) = Some id.

(** The files of the kind in a directory are those of [ids]. *)
Definition lists_in (d : gmap bytes nat) (ids : list Z) : Prop :=
  (∀ path i id, d !! path = Some i → id_of path = Some id → path = path_of id ∧ id ∈ ids)
  ∧ Forall (λ id, u64_range id ∧ is_Some (d !! path_of id)) ids.

Definition with_id (path : bytes) : option (Z * bytes) := name ← strip dir path; id ← parse name; Some (id, path).
Lemma with_id_eq path : with_id path = (λ id, (id, path)) <$> id_of path.
Proof. rewrite id_of_eq. unfold with_id. destruct (strip dir path) as [nm|]; [|done]. cbn. by destruct (parse nm). Qed.

Lemma listed_paths d ids : lists_in d ids → NoDup ids →
  omap with_id (sort_strings ((map_to_list d).*1)) ≡ₚ map (λ id, (id, path_of id)) ids.
Proof.
  intros [H1 H2] Hd. rewrite sort_strings_perm. rewrite Forall_forall in H2. apply NoDup_Permutation.
  - assert (∀ x z p, with_id x = Some (z, p) → p = x) as Hg by (intros x z p; rewrite with_id_eq; destruct (id_of x); [by intros [= _ <-]|done]).
    assert (∀ l, NoDup l → NoDup (omap with_id l)) as Hom.
    { induction 1 as [|x l Hx Hl IH]; cbn; [constructor|]. destruct (with_id x) as [[z p]|] eqn:E; [|done]. constructor; [|done].
      intros Hin. apply list_elem_of_omap in Hin as (y&Hy&Ey). apply Hg in E as ->. apply Hg in Ey as ->. done. }
    apply Hom, NoDup_fst_map_to_list.
  - apply NoDup_fmap_2_strong; [|done]. intros x y Hx Hy [=]. done.
  - intros [id path]. rewrite list_elem_of_omap, list_elem_of_fmap. split.
    + intros (p&Hp&E). apply list_elem_of_fmap in Hp as ([b i]&->&Hp). apply elem_of_map_to_list in Hp. cbn [fst] in *.
      rewrite with_id_eq in E. destruct (id_of b) as [z|] eqn:Ez; [|done]. injection E as <- <-. destruct (H1 _ _ z Hp Ez) as [-> Hin]. eauto.
    + intros (z&[= -> ->]&Hz). destruct (H2 z Hz) as [Hu [i Hi]]. exists (path_of z). split; [|by rewrite with_id_eq, id_of_path].
      apply list_elem_of_fmap. exists (path_of z, i). split; [done|]. by apply elem_of_map_to_list.
Qed.

Lemma listing_in d ids w : w_dir w = d → lists_in d ids → StronglySorted Z.lt ids →
  merge_sort id_le (omap with_id (sort_strings ((map_to_list (w_dir w)).*1))) = map (λ id, (id, path_of id)) ids.
Proof.
  intros Hw Hl Hs. rewrite Hw.
  assert (NoDup ids) as Hd.
  { clear -Hs. induction Hs as [|x l _ IH Hx]; constructor; [|done]. rewrite Forall_forall in Hx. intros Hin. specialize (Hx _ Hin). lia. }
  apply (StronglySorted_unique_strong id_le).
  - intros [x p] [y q] H1 H2 Hxy Hyx. unfold id_le in *. cbn [fst] in *. assert (x = y) as -> by lia. f_equal.
    rewrite merge_sort_Permutation, listed_paths in H1 by done. apply list_elem_of_fmap in H1 as (?&[= -> ->]&_).
    by apply list_elem_of_fmap in H2 as (?&[= -> ->]&_).
  - apply StronglySorted_merge_sort; apply _.
  - clear -Hs. induction Hs as [|x l _ IH Hx]; constructor; [done|]. apply Forall_fmap. eapply Forall_impl; [done|]. intros y Hy. unfold id_le. cbn. lia.
  - rewrite merge_sort_Permutation. by apply listed_paths.
Qed.

Lemma listing_in_ok d ids w : w_dir w = d → lists_in d ids → StronglySorted Z.lt ids → w_faults w = [] →
  listing dir parse w = (Ok (map (λ id, (id, path_of id)) ids), w).
Proof.
  intros Hw Hl Hs Hf. unfold listing, read_dir, call, tick, mbind, io_bind, mret, io_ret. rewrite Hf. do 2 f_equal. by apply (listing_in d).
Qed.

(** With faults a listing that succeeds is the same. *)
Lemma listing_in_done d ids w l w' : w_dir w = d → lists_in d ids → StronglySorted Z.lt ids → listing dir parse w = (Ok l, w') →
  l = map (λ id, (id, path_of id)) ids ∧ files_of w' = files_of w.
Proof.
  intros Hw Hl Hs E. unfold listing, mbind, io_bind in E. destruct (read_dir w) as [[names|] w1] eqn:Er; [|done].
  unfold read_dir in Er. apply call_ok in Er as (w2&E2&Er). injection Er as <- <-. injection E as <- <-. split; [|done].
  injection E2 as E2 _ _. apply (listing_in d); [by rewrite E2|done|done].
Qed.

End Listing.

(** The segments of a directory are those of [ids]. *)
Definition lists : gmap bytes nat → list Z → Prop := lists_in segment_of segment_path.

Lemma listing_ok d ids w : w_dir w = d → lists d ids → StronglySorted Z.lt ids → w_faults w = [] →
  listing wal_dir parseSegmentID w = (Ok (map (λ id, (id, segment_path id)) ids), w).
Proof. apply (listing_in_ok wal_dir parseSegmentID segment_of); [done|apply segment_of_path]. Qed.

(** ** Snapshots in the directory *)

Definition parseSnapshot (name : bytes) : option Z := d ← between (bs "snapshot-") (bs ".snap") name; parse_uint64 d.
Definition snapshot_path (q : Z) : bytes := snapshot_dir ++ snapshotName q.
Definition snapshot_of (path : bytes) : option Z := name ← strip snapshot_dir path; parseSnapshot name.

Lemma snapshot_of_path q : u64_range q → snapshot_of (snapshot_path q) = Some q.
Proof.
  intros H. unfold snapshot_of, snapshot_path, parseSnapshot, snapshotName. rewrite strip_app. cbn [mbind option_bind]. rewrite between_app.
  cbn [mbind option_bind]. by apply parse_pad20.
Qed.

Lemma between_other p s m t : length t = length s → t ≠ s → between p s (p ++ m ++ t) = None.
Proof.
  intros Hl Hne. unfold between. rewrite strip_app. cbn [mbind option_bind]. rewrite length_app, <- Hl.
  replace (length m + length t - length t)%nat with (length m) by lia. rewrite drop_app_length, bool_decide_false by done. by rewrite andb_false_r.
Qed.

Lemma snapshot_tmp q : snapshot_of (snapshot_path q ++ bs ".tmp") = None.
Proof.
  unfold snapshot_of, snapshot_path, parseSnapshot, snapshotName. rewrite <- app_assoc, strip_app. cbn [mbind option_bind].
  replace ((bs "snapshot-" ++ pad20 q ++ bs ".snap") ++ bs ".tmp") with (bs "snapshot-" ++ (pad20 q ++ bs ".sna") ++ bs "p.tmp")
    by by rewrite <- !app_assoc. by rewrite between_other.
Qed.

(** A snapshot is not a stale temporary file. *)
Lemma snapshot_not_stale path q : snapshot_of path = Some q → (name ← strip snapshot_dir path; between [] (bs ".tmp") name) = None.
Proof.
  unfold snapshot_of, parseSnapshot. destruct (strip snapshot_dir path) as [name|]; [|done]. cbn [mbind option_bind]. intros H.
  destruct (between (bs "snapshot-") (bs ".snap") name) as [d|] eqn:E; [|done]. clear H. unfold between in E.
  destruct (strip (bs "snapshot-") name) as [r|] eqn:Es; [|done]. cbn [mbind option_bind] in E. destruct (_ && _) eqn:Eb; [|done]. clear E.
  apply andb_true_iff in Eb as [El Eb]. apply bool_decide_eq_true in Eb. apply Nat.leb_le in El. unfold strip in Es. case_bool_decide; [|done]. injection Es as <-.
  assert (name = (take (length (bs "snapshot-")) name ++ take (length (drop (length (bs "snapshot-")) name) - length (bs ".snap")) (drop (length (bs "snapshot-")) name) ++ bs ".") ++ bs "snap") as ->.
  { rewrite <- !app_assoc. change (bs "." ++ bs "snap") with (bs ".snap").
    rewrite <- (take_drop (length (bs "snapshot-")) name) at 1. f_equal.
    rewrite <- (take_drop (length (drop (length (bs "snapshot-")) name) - length (bs ".snap")) (drop (length (bs "snapshot-")) name)) at 1. f_equal. exact Eb. }
  exact (between_other [] (bs ".tmp") _ (bs "snap") eq_refl ltac:(discriminate)).
Qed.

Lemma segment_not_snapshot id : strip snapshot_dir (segment_path id) = None.
Proof. unfold strip. rewrite bool_decide_false; [done|]. by vm_compute. Qed.
Lemma segment_no_snapshot id : snapshot_of (segment_path id) = None.
Proof. unfold snapshot_of. by rewrite segment_not_snapshot. Qed.
Lemma snapshot_no_segment path : is_Some (strip snapshot_dir path) → segment_of path = None.
Proof.
  unfold segment_of, strip. intros [n Hn]. case_bool_decide as H; [|done]. rewrite bool_decide_false; [done|]. intros H2.
  apply (f_equal (take 4)) in H. rewrite take_take in H. cbn in H. change (length wal_dir) with 4%nat in H2. rewrite H in H2. by vm_compute in H2.
Qed.

(** The newest snapshot of the directory: its sequence and its payload. *)
Definition snapped (w : world) (latest : option (Z * bytes)) : Prop :=
  ∃ ids, lists_in snapshot_of snapshot_path (w_dir w) ids ∧ StronglySorted Z.lt ids
    ∧ match latest with
      | None => ids = []
      | Some (q, payload) => last ids = Some q ∧ zlen payload < 2 ^ 64
          ∧ ∃ i, w_dir w !! snapshot_path q = Some i ∧ content (inode i w) = frame_snapshot payload ∧ pending (inode i w) = []
      end.

Lemma snapped_keep w w' latest : snapped w latest → (∀ path, is_Some (snapshot_of path) → w_dir w' !! path = w_dir w !! path) →
  (∀ path i, is_Some (snapshot_of path) → w_dir w !! path = Some i → pending (inode i w) = [] → content (inode i w') = content (inode i w) ∧ pending (inode i w') = []) →
  snapped w' latest.
Proof.
  intros (ids&[L1 L2]&Hs&H) Hd Hi. assert (∀ z, u64_range z → is_Some (snapshot_of (snapshot_path z))) as Hp by (intros z Hz; by rewrite snapshot_of_path by done).
  exists ids. split; [split|split; [done|]].
  - intros path i id Hl Hid. apply (L1 path i id); [|done]. rewrite <- Hd; [done|]. by rewrite Hid.
  - eapply Forall_impl; [exact L2|]. cbn. intros z [Hz Hl]. split; [done|]. by rewrite Hd by by apply Hp.
  - destruct latest as [[q payload]|]; [|done]. destruct H as (H1&H2&i&H3&H4&H5). split; [done|]. split; [done|]. exists i.
    assert (u64_range q) as Hq. { rewrite Forall_forall in L2. apply last_Some in H1 as [l ->]. by apply (L2 q); set_solver. }
    destruct (Hi _ i (Hp q Hq) H3 H5) as [-> ->]. by rewrite Hd by by apply Hp.
Qed.
