(* ===== verification/ResearchStorageSystem.v ===== *)
(** * The directory of the research engine over its life

    What the directory holds between operations: closed segments and possibly an
    open one, with the records that were appended, numbered without a gap.  Every
    successful append, rotation and close keeps it, a crash between groups keeps
    it, and opening reads it back. *)

From Stdlib Require Import ZArith Lia Strings.Byte Strings.String.
From stdpp Require Import base decidable countable list gmap sorting.
From S2P Require Import Prelude GoText GoBinary GoVarint GoJson Errors GoOS KeyedStorage KeyedRecovery AccountAgent AgentLemmas Research ResearchEngine ResearchWal ResearchWalLemmas ResearchStorage ResearchStorageLemmas.

Local Open Scope Z_scope.
Local Open Scope go_scope.

(** A segment in the directory: its identifier and its records. *)
Definition segment : Type := Z * list logRecord.
Definition segments (closed : list segment) (cur : option segment) : list segment := closed ++ option_list cur.
Definition records (closed : list segment) (cur : option segment) : list logRecord := concat (segments closed cur).*2.

(** The content of an open segment. *)
Definition open_data (program : bytes) (id : Z) (c : bytes) (rs : list logRecord) : Prop :=
  ∃ first fs, u64_range first ∧ Forall2 (λ r f, frame r = Ok f) rs fs ∧ c = encodeSegmentHeader id first ++ concat fs ∧ Forall (wal_ok program) rs.

Definition closed_in (program : bytes) (w : world) (d : segment) : Prop :=
  ∃ i, w_dir w !! segment_path d.1 = Some i ∧ closed_segment program (d.1, content (inode i w)) d.2 ∧ pending (inode i w) = []
    ∧ ∃ last n, check_footer (content (inode i w)) = Ok (Some (last, n)) ∧ last < d.1 + zlen d.2.
Definition open_in (program : bytes) (w : world) (d : segment) (i : nat) : Prop :=
  w_dir w !! segment_path d.1 = Some i ∧ open_data program d.1 (content (inode i w)) d.2.

Section Directory.

(** The records up to [base] are in the newest snapshot [latest]; the log has those
    after it. *)
Variables (base : Z) (latest : option (Z * bytes)).

Record disk (program : bytes) (w : world) (closed : list segment) (cur : option segment) : Prop := {
  dk_lists : lists (w_dir w) (segments closed cur).*1;
  dk_sorted : StronglySorted Z.lt (segments closed cur).*1;
  dk_closed : Forall (closed_in program w) closed;
  dk_open : ∀ d, cur = Some d → (∃ i, open_in program w d i) ∧ d.1 + zlen d.2 = base + zlen (records closed cur) + 1 ∧ zlen d.2 < 2 ^ 32;
  dk_inj : ∀ p q i, w_dir w !! p = Some i → w_dir w !! q = Some i → p = q;
  dk_next : ∀ p i, w_dir w !! p = Some i → (i < w_next w)%nat;
  dk_numbered : numbered_from base (records closed cur);
  dk_below : Forall (λ d : segment, d.2 ≠ [] ∧ d.1 + zlen d.2 ≤ base + zlen (records closed cur) + 1) closed;
  dk_base : 0 ≤ base;
  dk_snap : snapped w latest }.

(** Nothing of the open segment waits for a sync. *)
Definition settled (w : world) (cur : option segment) : Prop :=
  ∀ d i, cur = Some d → w_dir w !! segment_path d.1 = Some i → pending (inode i w) = [].

Record stored (program : bytes) (s : m1Storage) (w : world) (closed : list segment) (cur : option segment) : Prop := {
  sv_mode : st_mode s ≠ MemoryOnly;
  sv_limit : 0 < st_segmentRecords s < 2 ^ 32;
  sv_disk : disk program w closed cur;
  sv_file : match cur with
            | None => st_file s = None
            | Some d => ∃ i, st_file s = Some i ∧ w_dir w !! segment_path d.1 = Some i ∧ sm_records (st_segment s) = zlen d.2
                ∧ u64_range (sm_last (st_segment s)) ∧ sm_last (st_segment s) ≤ base + zlen (records closed (Some d))
            end }.

(** ** The files of a world *)

Lemma disk_files program w w' closed cur : files_of w' = files_of w → disk program w closed cur → disk program w' closed cur.
Proof.
  intros [= E1 E2 E3] [H1 H2 H3 H4 H5 H6 H7 H8 H9 H10].
  assert (∀ i, inode i w' = inode i w) as Hi by (intros i; unfold inode; by rewrite E2).
  split; rewrite ?E1, ?E3; try done.
  - eapply Forall_impl; [exact H3|]. intros d (i&?&?&?&?). exists i. by rewrite E1, Hi.
  - intros d Hd. destruct (H4 d Hd) as ((i&?&?)&?&?). split; [|done]. exists i. unfold open_in. by rewrite E1, Hi.
  - apply (snapped_keep w); [done|intros; by rewrite E1|intros; by rewrite Hi].
Qed.

Lemma stored_files program s w w' closed cur : files_of w' = files_of w → stored program s w closed cur → stored program s w' closed cur.
Proof.
  intros E [H1 H2 H3 H4]. split; [done|done|by eapply disk_files|]. injection E as E1 E2 E3. by destruct cur; rewrite ?E1.
Qed.

Lemma inode_at w d m n i : files_of w = (d, m, n) → inode i w = default empty_file (m !! i).
Proof. intros [= _ <- _]. done. Qed.

Lemma inode_set w d m n i f : files_of w = (d, <[i := f]> m, n) → inode i w = f.
Proof. intros E. by rewrite (inode_at _ _ _ _ i E), lookup_insert_eq. Qed.

(** A file that changes leaves the others alone. *)
Lemma closed_in_change program w w' i f n d : files_of w' = (w_dir w, <[i := f]> (w_inodes w), n) →
  w_dir w !! segment_path d.1 ≠ Some i → closed_in program w d → closed_in program w' d.
Proof.
  intros E Hne (j&Hj&Hc&Hp&Hft). assert (i ≠ j) as Hij by (intros ->; done). exists j.
  assert (inode j w' = inode j w) as Hi by (rewrite (inode_at _ _ _ _ j E), lookup_insert_ne by done; done).
  rewrite Hi. injection E as -> _ _. done.
Qed.

Lemma segment_path_inj a b : u64_range a → u64_range b → segment_path a = segment_path b → a = b.
Proof. intros Ha Hb E. apply (f_equal segment_of) in E. rewrite !segment_of_path in E by done. congruence. Qed.

(** ** One open segment *)

Lemma disk_ids program w closed cur : disk program w closed cur → Forall (λ d : segment, u64_range d.1) (segments closed cur).
Proof.
  intros [[_ H] _ _ _ _ _ _ _ _ _]. apply Forall_fmap in H. eapply Forall_impl; [exact H|]. by intros d [? _].
Qed.

Lemma disk_distinct program w closed d i : disk program w closed (Some d) → w_dir w !! segment_path d.1 = Some i →
  Forall (λ c : segment, w_dir w !! segment_path c.1 ≠ Some i) closed.
Proof.
  intros H Hi. pose proof (disk_ids _ _ _ _ H) as Hu. apply Forall_app in Hu as [Hu Hd]. apply (proj1 (Forall_singleton _ d)) in Hd. cbn beta in Hd.
  pose proof (dk_sorted _ _ _ _ H) as Hs. unfold segments in Hs. rewrite fmap_app in Hs. cbn in Hs.
  rewrite Forall_forall in Hu. apply Forall_forall. intros c Hc Hci. pose proof (dk_inj _ _ _ _ H _ _ _ Hci Hi) as E.
  apply (segment_path_inj c.1 d.1 (Hu c Hc) Hd) in E.
  pose proof (StronglySorted_app_1_elem_of _ _ _ c.1 d.1 Hs ltac:(set_solver) ltac:(set_solver)). lia.
Qed.

(** A segment that changes leaves the snapshots alone. *)
Lemma snapped_write w w' id i f n : snapped w latest → (∀ p q i, w_dir w !! p = Some i → w_dir w !! q = Some i → p = q) →
  w_dir w !! segment_path id = Some i → files_of w' = (w_dir w, <[i := f]> (w_inodes w), n) → snapped w' latest.
Proof.
  intros H Hinj Hi E. apply (snapped_keep w); [done|injection E as -> _ _; done|]. intros path j [q Hp] Hj Hpj. assert (i ≠ j) as Hne.
  { intros <-. rewrite (Hinj _ _ _ Hj Hi) in Hp. by rewrite segment_no_snapshot in Hp. }
  by rewrite (inode_at _ _ _ _ j E), lookup_insert_ne by done.
Qed.

(** The open segment's file gets new content. *)
Lemma disk_update program w w' closed d d' i f :
  disk program w closed (Some d) → w_dir w !! segment_path d.1 = Some i → d'.1 = d.1 →
  files_of w' = (w_dir w, <[i := f]> (w_inodes w), w_next w) → open_data program d'.1 (content f) d'.2 →
  zlen d'.2 < 2 ^ 32 → (d'.2 = d.2 ∨ ∃ r, d'.2 = d.2 ++ [r] ∧ lr_Sequence r = base + zlen (records closed (Some d)) + 1) →
  disk program w' closed (Some d').
Proof.
  intros H Hi Hid E Ho Hb Hr. pose proof (disk_distinct _ _ _ _ _ H Hi) as Hdis. destruct H as [H1 H2 H3 H4 H5 H6 H7 H8 H9 H10].
  destruct (H4 d eq_refl) as (_&Hz&_).
  assert (∃ rs, records closed (Some d') = records closed (Some d) ++ rs ∧ d'.2 = d.2 ++ rs ∧ numbered_from (base + zlen (records closed (Some d))) rs) as (rs&Ers&Ed&Hn).
  { unfold records, segments. rewrite !fmap_app, !concat_app. cbn. rewrite !app_nil_r. destruct Hr as [->|(r&->&Hs)].
    - exists []. by rewrite !app_nil_r.
    - exists [r]. rewrite app_assoc. split_and!; [done..|]. revert Hs. unfold records, segments. rewrite fmap_app, concat_app. cbn. by rewrite app_nil_r. }
  assert (zlen (records closed (Some d')) = zlen (records closed (Some d)) + zlen rs) as Hlen by (rewrite Ers; unfold zlen; rewrite length_app; lia).
  assert ((segments closed (Some d')).*1 = (segments closed (Some d)).*1) as Es by (unfold segments; rewrite !fmap_app; cbn; by rewrite Hid).
  injection E as E1 E2 E3. assert (inode i w' = f) as Hf by (unfold inode; by rewrite E2, lookup_insert_eq).
  split; rewrite ?E1, ?E3, ?Es; try done.
  - rewrite Forall_forall in H3, Hdis |- *. intros c Hc. eapply (closed_in_change _ w w' i f (w_next w)); [unfold files_of; by rewrite E1, E2, E3|by apply Hdis|by apply H3].
  - intros ? [= <-]. split_and!; [| |done].
    + exists i. unfold open_in. by rewrite E1, Hf, Hid at 1.
    + rewrite Hlen, Hid, Ed. unfold zlen in *. rewrite length_app. lia.
  - rewrite Ers. by apply numbered_join.
  - eapply Forall_impl; [exact H8|]. cbn. intros c [Hc1 Hc2]. split; [done|]. rewrite Hlen. unfold zlen in *. lia.
  - eapply (snapped_write w w' d.1 i f (w_next w)); [done..|]. unfold files_of. by rewrite E1, E2, E3.
Qed.

(** ** Creating, appending, closing *)

Lemma content_append f d : content (modify (FWrite (length (content f)) d) f) = content f ++ d.
Proof. rewrite content_modify. apply write_at_end. Qed.

Lemma records_open closed d : records closed (Some d) = records closed None ++ d.2.
Proof. unfold records, segments. rewrite !fmap_app, !concat_app. cbn. by rewrite !app_nil_r. Qed.
Lemma records_close closed d : records (closed ++ [d]) None = records closed (Some d).
Proof. unfold records, segments. cbn. by rewrite app_nil_r. Qed.
Lemma segments_close closed d : segments (closed ++ [d]) None = segments closed (Some d).
Proof. unfold segments. cbn. by rewrite app_nil_r. Qed.

(** A new segment named after the next record. *)
Lemma disk_create program w w' closed id i f :
  disk program w closed None → id = base + zlen (records closed None) + 1 → u64_range id → w_dir w !! segment_path id = None → i = w_next w →
  files_of w' = (<[segment_path id := i]> (w_dir w), <[i := f]> (w_inodes w), S i) → content f = encodeSegmentHeader id id →
  disk program w' closed (Some (id, [])).
Proof.
  intros [H1 H2 H3 H4 H5 H6 H7 H8 H9 H10] Eid Hu Hnone -> E Hf. set (i := w_next w) in *. assert (records closed (Some (id, [])) = records closed None) as Er
    by (rewrite records_open; apply app_nil_r). assert (∀ p, w_dir w !! p ≠ Some i) as Hfresh by (intros p Hp; apply H6 in Hp; unfold i in Hp; lia).
  injection E as E1 E2 E3. assert (inode i w' = f) as Hi by (unfold inode; by rewrite E2, lookup_insert_eq).
  assert ((segments closed (Some (id, []))).*1 = (segments closed None).*1 ++ [id]) as Es by (unfold segments; rewrite !fmap_app; cbn; by rewrite app_nil_r).
  split; rewrite ?Er, ?Es, ?E1, ?E3; try done.
  - destruct H1 as [L1 L2]. split.
    + intros path j z Hj Hz. destruct (decide (path = segment_path id)) as [->|Hne].
      * rewrite segment_of_path in Hz by done. injection Hz as <-. split; [done|set_solver].
      * rewrite lookup_insert_ne in Hj by done. destruct (L1 _ _ _ Hj Hz) as [-> ?]. split; [done|set_solver].
    + apply Forall_app. split; [|apply Forall_singleton; rewrite lookup_insert_eq; eauto]. eapply Forall_impl; [exact L2|]. intros z [? [j Hj]].
      split; [done|]. destruct (decide (segment_path z = segment_path id)) as [->|Hne]; [rewrite lookup_insert_eq; eauto|rewrite lookup_insert_ne by done; eauto].
  - apply StronglySorted_app_2; [|done|repeat constructor]. intros x y Hx ->%list_elem_of_singleton. apply list_elem_of_fmap in Hx as (d&->&Hd).
    unfold segments in Hd. cbn in Hd. rewrite app_nil_r in Hd. rewrite Forall_forall in H8. destruct (H8 d Hd) as [Hne Hle].
    destruct d.2; [done|]. unfold zlen in *. cbn [length] in Hle. lia.
  - rewrite Forall_forall in H3 |- *. intros d Hd. destruct (H3 d Hd) as (j&Hj&Hc&Hp&Hft). exists j.
    assert (inode j w' = inode j w) as -> by (unfold inode; rewrite E2, lookup_insert_ne by (intros <-; by apply Hfresh in Hj); done).
    rewrite E1, lookup_insert_ne; [done|]. intros Ep. rewrite Ep in Hnone. congruence.
  - intros d [= <-]. split; [|cbn [fst snd]; change (zlen []) with 0; lia]. exists i. split; cbn [fst snd]; [by rewrite E1, lookup_insert_eq|]. rewrite Hi, Hf.
    exists id, []. split_and!; [done|constructor|by rewrite app_nil_r|constructor].
  - intros p q j [[<- <-]|[Hp' Hp]]%lookup_insert_Some [[<- Hj]|[Hq' Hq]]%lookup_insert_Some; [done| | |by eapply H5].
    + by apply Hfresh in Hq.
    + subst j. by apply Hfresh in Hp.
  - intros p j [[<- <-]|[_ Hp]]%lookup_insert_Some; [lia|]. apply H6 in Hp. unfold i. lia.
  - apply (snapped_keep w); [done| |].
    + intros path [q Hq]. rewrite E1, lookup_insert_ne; [done|]. intros <-. by rewrite segment_no_snapshot in Hq.
    + intros path j _ Hj Hpj. unfold inode in *. rewrite E2, lookup_insert_ne; [done|]. intros <-. by apply Hfresh in Hj.
Qed.

Lemma disk_close program w w' closed d i f last :
  disk program w closed (Some d) → w_dir w !! segment_path d.1 = Some i → files_of w' = (w_dir w, <[i := f]> (w_inodes w), w_next w) →
  content f = content (inode i w) ++ encodeSegmentFooter last (zlen d.2) → pending f = [] → u64_range last →
  last ≤ base + zlen (records closed (Some d)) → zlen d.2 < 2 ^ 32 → d.2 ≠ [] →
  disk program w' (closed ++ [d]) None.
Proof.
  intros H Hi E Hf Hp Hl Hlb Hn Hne. pose proof (disk_distinct _ _ _ _ _ H Hi) as Hdis. pose proof (disk_ids _ _ _ _ H) as Hu.
  apply Forall_app in Hu as [_ Hu]. apply (proj1 (Forall_singleton _ d)) in Hu. cbn beta in Hu. destruct H as [H1 H2 H3 H4 H5 H6 H7 H8 H9 H10].
  destruct (H4 d eq_refl) as ((j&Hj&first&fs&Hfirst&Hfs&Ec&Hw)&Hz&_). rewrite Hi in Hj. injection Hj as <-.
  injection E as E1 E2 E3. assert (inode i w' = f) as Hfi by (unfold inode; by rewrite E2, lookup_insert_eq).
  split; rewrite ?records_close, ?segments_close, ?E1, ?E3; try done.
  - apply Forall_app. split.
    + rewrite Forall_forall in H3, Hdis |- *. intros c Hc. eapply (closed_in_change _ w w' i f (w_next w)); [unfold files_of; by rewrite E1, E2, E3|by apply Hdis|by apply H3].
    + apply Forall_singleton. exists i. rewrite E1, Hfi. split_and!; [done| |done|].
      * split; [|done|done|done]. exists first, last, fs. cbn [fst snd]. split_and!; [done..|]. by rewrite Hf, Ec, <- app_assoc.
      * exists last, (zlen d.2). split; [|lia]. rewrite Hf. apply check_footer_ok; [rewrite Ec, length_app, header_length; lia|done|unfold zlen in *; lia].
  - apply Forall_app. split; [done|]. apply Forall_singleton. split; [done|lia].
  - eapply (snapped_write w w' d.1 i f (w_next w)); [done..|]. unfold files_of. by rewrite E1, E2, E3.
Qed.

(** ** The operations, when they succeed *)

#[local] Opaque encodeSegmentHeader encodeSegmentFooter frame crc32 content.

Lemma ensureSegment_ok program s w closed cur first s' w' :
  stored program s w closed cur → ensureSegment first s w = (Ok tt, s', w') → first = base + zlen (records closed cur) + 1 → u64_range first →
  ∃ cur', stored program s' w' closed cur' ∧ is_Some cur' ∧ st_segmentRecords s' = st_segmentRecords s
    ∧ (cur' = cur ∨ cur = None ∧ cur' = Some (first, [])).
Proof.
  intros [H1 H2 H3 H4] E Hf Hu. unfold ensureSegment in E. apply sio_bind_ok in E as (s1&s2&w1&[= <- <- <-]&E).
  rewrite (bool_decide_false (st_mode s = MemoryOnly)) in E by done. cbn [orb] in E. destruct cur as [d|].
  - destruct H4 as (i&Hi&H4). rewrite Hi in E. rewrite bool_decide_true in E by eauto. injection E as <- <-. exists (Some d).
    split_and!; [split; eauto|eauto|done|by left].
  - rewrite H4 in E. rewrite bool_decide_false in E by by intros []. apply sio_bind_ok in E as (i&s3&w2&E&E').
    apply sio_io_ok in E as [-> E]. apply create_excl_ok in E as (Hn&Hi&E). apply sio_bind_ok in E' as ([]&s4&w3&E2&E').
    apply sio_io_ok in E2 as [-> E2]. apply on_error_ok, append_file_ok in E2. injection E' as <- <-.
    assert (inode i w2 = empty_file) as Hie by exact (inode_set _ _ _ _ _ _ E).
    rewrite Hie in E2. set (f := modify _ _) in E2. assert (content f = encodeSegmentHeader first first) as Hc by (unfold f; by rewrite content_append).
    injection E as D1 D2 D3. rewrite D1, D2, D3, insert_insert_eq in E2. exists (Some (first, [])).
    pose proof (disk_create program w w3 closed first i f H3 Hf Hu Hn Hi E2 Hc) as Hd.
    clear Hn Hc Hf. split; [|split; [by eexists|split; [reflexivity|by right]]].
    split; [done|done|done|]. exists i. cbn [with_file st_file st_segment sm_records sm_last st_segmentRecords fst snd].
    injection E2 as -> _ _. rewrite lookup_insert_eq. change (zlen []) with 0. pose proof (dk_base _ _ _ _ H3).
    unfold u64_range. split_and!; try done; unfold zlen; lia.
Qed.

Lemma closeSegment_ok program s w closed d s' w' :
  stored program s w closed (Some d) → d.2 ≠ [] → closeSegment true s w = (Ok tt, s', w') →
  stored program s' w' (closed ++ [d]) None ∧ st_segmentRecords s' = st_segmentRecords s.
Proof.
  intros [H1 H2 H3 (i&Hi&Hdir&Hn&Hl&Hlb)] Hne E. unfold closeSegment in E. apply sio_bind_ok in E as (s1&s2&w1&[= <- <- <-]&E). rewrite Hi in E.
  apply sio_bind_ok in E as ([]&s3&w2&E1&E). apply sio_io_ok in E1 as [-> E1]. apply append_file_ok in E1.
  apply sio_bind_ok in E as ([]&s4&w3&E2&E). apply sio_io_ok in E2 as [-> E2]. apply sync_file_ok in E2.
  apply sio_bind_ok in E as ([]&s5&w4&E3&E). apply sio_io_ok in E3 as [-> E3]. apply close_file_ok in E3. injection E as <- <-.
  rewrite (inode_set _ _ _ _ _ _ E1) in E2. injection E1 as D1 D2 D3. rewrite D1, D2, D3, insert_insert_eq in E2.
  rewrite E2 in E3. split; [|done]. split; [done|done| |done].
  eapply (disk_close program w w4 closed d i _ (sm_last (st_segment s)) H3 Hdir E3); [|done|done|done|by apply (dk_open _ _ _ _ H3 d)|done].
  rewrite content_settle, content_append. by rewrite Hn.
Qed.

(** The frame of one record. *)
Lemma append_frame_ok program s w closed d i r f w' :
  stored program s w closed (Some d) → st_file s = Some i → frame r = Ok f → wal_ok program r →
  lr_Sequence r = base + zlen (records closed (Some d)) + 1 → zlen d.2 < st_segmentRecords s → append_file i f w = (Ok tt, w') →
  let m := st_segment s in
  stored program (with_file s (Some i) {| sm_id := sm_id m; sm_first := sm_first m; sm_last := lr_Sequence r; sm_records := sm_records m + 1;
                   sm_closed := sm_closed m; sm_size := sm_size m + zlen f |} (st_nextSegmentID s)) w' closed (Some (d.1, d.2 ++ [r])).
Proof.
  intros [H1 H2 H3 (i'&Hi'&Hdir&Hn&Hl)] Hi Hf Hw Hs Hlt E m. rewrite Hi in Hi'. injection Hi' as <-. apply append_file_ok in E.
  assert (zlen (d.2 ++ [r]) = zlen d.2 + 1) as Hz by (unfold zlen; rewrite length_app; cbn; lia).
  split; [done|done| |].
  - eapply (disk_update program w w' closed d _ i); [done|done|done|exact E| | |right; eauto].
    destruct (dk_open _ _ _ _ H3 d eq_refl) as ((j&Hj&first&fs&Hfirst&Hfs&Ec&Hwf)&_&_). rewrite Hdir in Hj. injection Hj as <-.
    exists first, (fs ++ [f]). cbn [fst snd]. split_and!; [done|by apply Forall2_app; [|constructor]| |apply Forall_app; split; [done|by apply Forall_singleton]].
    + rewrite content_append, Ec, <- app_assoc, concat_app. cbn [concat]. by rewrite app_nil_r.
    + cbn [snd]. rewrite Hz. lia.
  - exists i. cbn [with_file st_file st_segment sm_records sm_last st_segmentRecords fst snd]. injection E as -> _ _.
    unfold m. rewrite Hz, Hn. split; [done|]. split; [done|]. split; [done|]. split; [exact (Forall_inv (lo_u64 _ (wo_log _ _ Hw)))|].
    rewrite Hs. rewrite !records_open. cbn [snd]. unfold zlen. rewrite !length_app. cbn [length]. lia.
Qed.

Lemma append_record_ok program s w closed cur r s' w' :
  stored program s w closed cur → (∀ d, cur = Some d → d.2 ≠ []) → wal_ok program r → lr_Sequence r = base + zlen (records closed cur) + 1 →
  append_record no_failure r s w = (Ok tt, s', w') →
  ∃ closed' d, stored program s' w' closed' (Some d) ∧ records closed' (Some d) = records closed cur ++ [r] ∧ d.2 ≠ [].
Proof.
  intros H Hne Hw Hs E. pose proof (Forall_inv (lo_u64 _ (wo_log _ _ Hw))) as Hu. unfold append_record in E.
  apply sio_bind_ok in E as ([]&s1&w1&E1&E). apply sio_wrap_ok in E1.
  destruct (ensureSegment_ok _ _ _ _ _ _ _ _ H E1 Hs Hu) as (cur1&H1&[d1 ->]&Hlim1&Hcur1). clear E1.
  assert (records closed (Some d1) = records closed cur ∧ (d1.2 = [] ∨ cur = Some d1)) as [Er1 Hd1].
  { destruct Hcur1 as [<-|[-> [= ->]]]; [split; [done|by right]|]. split; [rewrite records_open; apply app_nil_r|by left]. }
  apply sio_bind_ok in E as (s2&s2'&w2&[= <- <- <-]&E). apply sio_bind_ok in E as ([]&s3&w3&E2&E).
  assert (∃ closed' d2, stored program s3 w3 closed' (Some d2) ∧ records closed' (Some d2) = records closed cur ∧ zlen d2.2 < st_segmentRecords s3)
    as (closed'&d2&H2&Er2&Hlt).
  { destruct (sv_file _ _ _ _ _ H1) as (i&Hi&_&Hn&_). pose proof (sv_limit _ _ _ _ _ H1) as Hl. destruct (Z.leb_spec (st_segmentRecords s1) (sm_records (st_segment s1))) as [Hle|Hgt].
    - assert (d1.2 ≠ []) as Hd1' by (destruct Hd1 as [Hd1|Hd1]; [rewrite Hd1 in Hn; change (zlen []) with 0 in Hn; lia|by apply Hne]).
      apply sio_bind_ok in E2 as ([]&s4&w4&E2&E3). cbn in E2. injection E2 as <- <-. apply sio_bind_ok in E3 as ([]&s5&w5&E3&E4).
      apply sio_wrap_ok in E3, E4. destruct (closeSegment_ok _ _ _ _ _ _ _ H1 Hd1' E3) as [H5 Hl5].
      assert (lr_Sequence r = base + zlen (records (closed ++ [d1]) None) + 1) as Hs5 by by rewrite records_close, Er1.
      destruct (ensureSegment_ok _ _ _ _ _ _ _ _ H5 E4 Hs5 Hu) as (cur6&H6&[d6 ->]&Hl6&[[=]|[_ [= ->]]]).
      exists (closed ++ [d1]), (lr_Sequence r, []). split; [done|]. split; [by rewrite records_open, records_close, Er1, app_nil_r|].
      cbn [snd]. change (zlen []) with 0. rewrite Hl6, Hl5. lia.
    - injection E2 as <- <-. exists closed, d1. split; [done|]. split; [done|]. lia. }
  clear E2 H1 Hcur1 Hd1 Er1. apply sio_bind_ok in E as (s4&s4'&w4&[= <- <- <-]&E).
  destruct (frame r) as [f|] eqn:Ef; [|done]. destruct (sv_file _ _ _ _ _ H2) as (i&Hi&_). rewrite Hi in E.
  cbn in E. apply sio_bind_ok in E as ([]&s5&w5&E1&E). injection E1 as <- <-.
  apply sio_bind_ok in E as ([]&s6&w6&E1&E). apply sio_wrap_ok, sio_io_ok in E1 as [-> E1]. injection E as <- <-.
  exists closed', (d2.1, d2.2 ++ [r]). split; [|split].
  - eapply append_frame_ok; [done|done|done|done|by rewrite Er2|done|done].
  - rewrite records_open. cbn [snd]. rewrite app_assoc, <- records_open. by rewrite Er2.
  - cbn [snd]. by destruct d2.2.
Qed.

Lemma append_records_ok program rs s w closed cur s' w' :
  stored program s w closed cur → (∀ d, cur = Some d → d.2 ≠ []) → Forall (wal_ok program) rs → numbered_from (base + zlen (records closed cur)) rs →
  append_records no_failure rs s w = (Ok tt, s', w') →
  ∃ closed' cur', stored program s' w' closed' cur' ∧ records closed' cur' = records closed cur ++ rs ∧ (∀ d, cur' = Some d → d.2 ≠ []).
Proof.
  revert s w closed cur. induction rs as [|r rs IH]; intros s w closed cur H Hne Hw Hn E.
  - injection E as <- <-. exists closed, cur. by rewrite app_nil_r.
  - apply Forall_cons in Hw as [Hw Hws]. destruct Hn as [Hs Hn]. cbn [append_records] in E. apply sio_bind_ok in E as ([]&s1&w1&E1&E).
    destruct (append_record_ok _ _ _ _ _ _ _ _ H Hne Hw Hs E1) as (closed1&d&H1&Er&Hd).
    destruct (IH s1 w1 closed1 (Some d) H1 ltac:(by intros ? [= <-]) Hws) as (closed2&cur2&H2&Er2&Hd2); [|done|].
    + rewrite Er. unfold zlen in *. rewrite length_app. cbn [length]. by rewrite Nat2Z.inj_add, Z.add_assoc.
    + exists closed2, cur2. rewrite Er2, Er, <- app_assoc. done.
Qed.

Lemma stored_sync program s w closed d i w' : stored program s w closed (Some d) → st_file s = Some i → sync_file i w = (Ok tt, w') →
  stored program s w' closed (Some d) ∧ settled w' (Some d).
Proof.
  intros [H1 H2 H3 (i'&Hi'&Hdir&Hn&Hl)] Hi E. rewrite Hi in Hi'. injection Hi' as <-. apply sync_file_ok in E.
  pose proof (inode_set _ _ _ _ _ _ E) as Hf. destruct (dk_open _ _ _ _ H3 d eq_refl) as ((j&Hj&Ho)&_&Hz). rewrite Hdir in Hj. injection Hj as <-.
  split; [split; [done|done| |]|].
  - eapply (disk_update program w w' closed d d i); [done..| |done|by left]. by rewrite content_settle.
  - exists i. injection E as -> _ _. done.
  - intros d' i2 [= <-] Hi2. injection E as E1 _ _. rewrite E1, Hdir in Hi2. injection Hi2 as <-. by rewrite Hf.
Qed.

(** Between groups: what is stored, and nothing waiting for a sync. *)
Definition holds (program : bytes) (s : m1Storage) (w : world) (rs : list logRecord) : Prop :=
  ∃ closed cur, stored program s w closed cur ∧ records closed cur = rs ∧ (∀ d, cur = Some d → d.2 ≠ []) ∧ settled w cur.

Lemma appendGroup_ok program s w rs g s' w' : holds program s w rs → Forall (wal_ok program) g → numbered_from (base + zlen rs) g → g ≠ [] →
  appendGroup no_failure g s w = (Ok tt, s', w') → holds program s' w' (rs ++ g).
Proof.
  intros (closed&cur&H&<-&Hne&_) Hw Hn Hg E. unfold appendGroup in E. apply sio_bind_ok in E as (s1&s2&w1&[= <- <- <-]&E).
  rewrite bool_decide_false in E by apply H. apply sio_bind_ok in E as ([]&s1&w1&E1&E). injection E1 as <- <-.
  apply sio_bind_ok in E as ([]&s1&w1&E1&E). destruct (append_records_ok _ _ _ _ _ _ _ _ H Hne Hw Hn E1) as (closed1&cur1&H1&Er&Hd).
  apply sio_bind_ok in E as ([]&s2&w2&E2&E). injection E2 as <- <-. apply sio_bind_ok in E as (s2&s3&w2&[= <- <- <-]&E).
  destruct cur1 as [d|]; [|by rewrite (sv_file _ _ _ _ _ H1) in E]. destruct (sv_file _ _ _ _ _ H1) as (i&Hi&_). rewrite Hi in E.
  apply sio_wrap_ok, sio_io_ok in E as [-> E]. destruct (stored_sync _ _ _ _ _ _ _ H1 Hi E) as [H2 H3]. exists closed1, (Some d). done.
Qed.

Lemma close_ok program s w rs s' w' : holds program s w rs → closeSegment true s w = (Ok tt, s', w') → holds program s' w' rs.
Proof.
  intros (closed&[d|]&H&<-&Hne&Hs) E.
  - destruct (closeSegment_ok _ _ _ _ _ _ _ H (Hne d eq_refl) E) as [H' _]. exists (closed ++ [d]), None. by rewrite records_close.
  - unfold closeSegment, mbind, sio_bind, get in E. rewrite (sv_file _ _ _ _ _ H) in E. injection E as <- <-. by exists closed, None.
Qed.

(** ** Crashes between groups *)

Lemma crash_file w w' i : crash w w' → pending (inode i w) = [] → content (inode i w') = content (inode i w) ∧ pending (inode i w') = [].
Proof.
  intros (_&_&_&H) Hp. specialize (H i). unfold inode in *. destruct (w_inodes w !! i) as [f|]; [|by rewrite H].
  destruct H as (c&Hc&->). cbn in *. apply (survives_settled _ _ Hp) in Hc as ->. split; [|done]. destruct f as [st pd]. cbn in Hp. by subst pd.
Qed.

Lemma disk_crash program w w' closed cur : disk program w closed cur → settled w cur → crash w w' → w_dir w' = w_dir w →
  disk program w' closed cur ∧ settled w' cur.
Proof.
  intros [H1 H2 H3 H4 H5 H6 H7 H8 H9 H10] Hs Hc Ed. split; [split; rewrite ?Ed; try done|].
  - eapply Forall_impl; [exact H3|]. intros d (i&Hi&Hcl&Hp&Hft). destruct (crash_file _ _ i Hc Hp) as [E1 E2]. exists i. by rewrite Ed, E1, E2.
  - intros d Hd. destruct (H4 d Hd) as ((i&Hi&Ho)&?&?). split; [|done]. exists i. destruct (crash_file _ _ i Hc (Hs d i Hd Hi)) as [E1 _].
    unfold open_in. by rewrite Ed, E1.
  - destruct Hc as (_&_&->&_). done.
  - apply (snapped_keep w); [done|intros; by rewrite Ed|]. intros path i _ _ Hp. by apply crash_file.
  - intros d i Hd Hi. rewrite Ed in Hi. apply (crash_file _ _ i Hc (Hs d i Hd Hi)).
Qed.

(** ** Opening *)

Lemma scan_segment_meta is_last after program out ex id data s m : scan_segment is_last after program out ex id data = Ok (s, m) →
  sm_records m = sd_count s ∧ ∃ footer, check_footer data = Ok footer ∧ sm_closed m = bool_decide (is_Some footer)
    ∧ (footer = None → sm_last m = 0 ∨ ∃ r, r ∈ sd_out s ∧ sm_last m = lr_Sequence r).
Proof.
  unfold scan_segment. intros E. inv_ok. split; [done|]. eexists. split; [done|]. split; [done|]. intros ->. cbn [sm_last].
  destruct (last (sd_out _)) as [r|] eqn:El; [|by left]. destruct (Nat.ltb _ _); [|by left]. right. exists r. split; [|done].
  apply last_Some in El as [l ->]. set_solver.
Qed.

Definition file_at (w : world) (d : segment) : Z * bytes :=
  (d.1, match w_dir w !! segment_path d.1 with Some i => content (inode i w) | None => [] end).

Lemma closed_file program w d : closed_in program w d → closed_segment program (file_at w d) d.2.
Proof. intros (i&Hi&Hc&_&_). unfold file_at. by rewrite Hi. Qed.

Lemma open_file program w d i : open_in program w d i → u64_range d.1 →
  open_segment program (file_at w d) d.2 [] (32 + (zlen (file_at w d).2 - 32)).
Proof.
  intros [Hi (first&fs&Hf&Hfs&Ec&Hw)] Hu. unfold file_at. rewrite Hi, Ec. cbn [fst snd]. split; cbn [fst snd]; [|done|by left|by apply (frames_open _ _ d.2)|done].
  exists first, fs. rewrite app_nil_r. split_and!; [done|done|done|]. unfold zlen. rewrite length_app, header_length. lia.
Qed.

Lemma numbered_drop_u64 program n rs r : Forall (wal_ok program) rs → r ∈ drop n rs → u64_range (lr_Sequence r).
Proof.
  intros Hw Hr. rewrite Forall_forall in Hw. assert (r ∈ rs) as Hin by (rewrite <- (take_drop n rs); set_solver).
  exact (Forall_inv (lo_u64 _ (wo_log _ _ (Hw r Hin)))).
Qed.

Lemma disk_records_ok program w closed cur : disk program w closed cur → Forall (wal_ok program) (records closed cur).
Proof.
  intros H. unfold records, segments. rewrite fmap_app, concat_app. apply Forall_app. split.
  - pose proof (dk_closed _ _ _ _ H) as Hc. clear H. induction Hc as [|d l (i&_&Hd&_) _ IH]; cbn; [constructor|]. apply Forall_app. split; [apply Hd|exact IH].
  - destruct cur as [d|]; cbn; [|constructor]. rewrite app_nil_r. by destruct (dk_open _ _ _ _ H d eq_refl) as ((i&_&first&fs&_&_&_&Hw)&_).
Qed.

(** The last segment of a directory, closed or open. *)
Lemma disk_last program w closed cur : disk program w closed cur →
  closed = [] ∧ cur = None ∨ ∃ before d torn, segments closed cur = before ++ [d] ∧ Forall (closed_in program w) before
    ∧ last_segment program (file_at w d) d.2 torn ∧ torn = None
    ∧ (check_footer (file_at w d).2 = Ok None ↔ is_Some cur) ∧ (∀ c, cur = Some c → c = d).
Proof.
  intros H. pose proof (disk_ids _ _ _ _ H) as Hu. destruct cur as [d|].
  - right. destruct (dk_open _ _ _ _ H d eq_refl) as ((i&Hi)&_). exists closed, d, None. apply Forall_app in Hu as [_ Hu].
    apply (proj1 (Forall_singleton _ d)) in Hu. pose proof (open_file _ _ _ _ Hi Hu) as Ho.
    split_and!; [done|apply H|exact (last_open _ _ _ _ _ Ho)|done| |congruence]. split; [by eexists|]. intros _. apply Ho.
  - destruct closed as [|d closed _] using rev_ind; [by left|right]. pose proof (dk_closed _ _ _ _ H) as Hc. apply Forall_app in Hc as [Hc Hd].
    apply (proj1 (Forall_singleton _ d)) in Hd. apply closed_file in Hd. exists closed, d, None. unfold segments. cbn [option_list]. rewrite app_nil_r.
    split_and!; [done|done|by apply last_closed|done| |done]. destruct Hd as [(first&lst&fs&Hf&Hl&Hfs&Ec) _ Hn _]. split; [|by intros []].
    rewrite Ec, app_assoc, check_footer_ok; [done|rewrite length_app, header_length; lia|done|unfold zlen in *; lia].
Qed.

Lemma scan_disk program w closed cur after : disk program w closed cur →
  0 ≤ base ≤ after → after ≤ base + zlen (records closed cur) → base + zlen (records closed cur) < 2 ^ 64 - 1 →
  ∃ metas, scanSegments after program (map (file_at w) (segments closed cur)) = Ok (drop (Z.to_nat (after - base)) (records closed cur), metas, None)
    ∧ match cur with
      | None => (metas = [] ∧ closed = []) ∨ (∃ m, last metas = Some m ∧ sm_closed m = true)
      | Some d => ∃ m, last metas = Some m ∧ sm_closed m = false ∧ sm_records m = zlen d.2 ∧ u64_range (sm_last m)
                    ∧ sm_last m ≤ base + zlen (records closed cur)
      end.
Proof.
  intros H Ha Haz Hb. destruct (disk_last _ _ _ _ H) as [[-> ->]|(before&d&torn&Es&Hc&Hl&->&Hf&Hd)].
  { exists []. split; [|by left]. cbn. by rewrite drop_nil. }
  assert (records closed cur = concat before.*2 ++ d.2) as Er.
  { unfold records. rewrite Es, fmap_app, concat_app. cbn. by rewrite app_nil_r. }
  assert (Forall2 (closed_segment program) (map (file_at w) before) before.*2) as Hfs.
  { clear -Hc. induction Hc; cbn; constructor; [by apply closed_file|done]. }
  pose proof (disk_records_ok _ _ _ _ H) as Hw. pose proof (dk_numbered _ _ _ _ H) as Hn. rewrite Er in *. clear Er.
  pose proof (accepts_after _ base after Hn ltac:(lia) ltac:(lia) ltac:(lia)) as Hacc.
  destruct (scan_segments_ok program (map (file_at w) before) before.*2 (file_at w d) d.2 None after [] _ [] _ Hfs Hl Hacc)
    as (ms&m&s&out&ex&E&Em&Eo&Ec). cbn [fst] in *. exists (ms ++ [m]). rewrite Es, map_app. split; [exact E|].
  apply scan_segment_meta in Em as (Em1&footer&Em2&Em3&Em4). rewrite Em2 in Hf. destruct cur as [c|].
  - rewrite (Hd c eq_refl). exists m. rewrite last_snoc. assert (Ok (E := gerror) footer = Ok None) as [= ->] by (apply Hf; eauto).
    split; [done|]. split; [done|]. split; [congruence|].
    destruct (Em4 eq_refl) as [->|(r&Hr&->)]; [split; [done|unfold zlen; lia]|]. rewrite Eo in Hr. split; [by eapply numbered_drop_u64|].
    apply numbered_bounds in Hn. rewrite Forall_forall in Hn. refine (proj2 (Hn r _)). rewrite <- (take_drop (Z.to_nat (after - base)) (_ ++ _)). set_solver.
  - right. exists m. rewrite last_snoc. split; [done|]. rewrite Em3. apply bool_decide_true. destruct footer; [by eexists|]. destruct Hf as [Hf _]. by destruct (Hf eq_refl).
Qed.

(** *** The calls of [openM1Storage] without faults *)

Lemma read_files_ok w l : w_faults w = [] → Forall (λ d : segment, is_Some (w_dir w !! segment_path d.1)) l →
  read_files (map (λ d : segment, (d.1, segment_path d.1)) l) w = (Ok (map (file_at w) l), w).
Proof.
  intros Hf. induction 1 as [|d l [i Hi] _ IH]; [done|]. cbn [map read_files]. unfold mbind, io_bind at 1, read_file, call, tick. rewrite Hi, Hf.
  unfold io_bind. rewrite IH. unfold file_at at 2. by rewrite Hi.
Qed.

(** Removing stale snapshots leaves the segments. *)
Record trimmed (w w' : world) : Prop := {
  tr_sub : w_dir w' ⊆ w_dir w;
  tr_keep : ∀ path, strip snapshot_dir path = None → w_dir w' !! path = w_dir w !! path;
  tr_snap : ∀ path, is_Some (snapshot_of path) → w_dir w' !! path = w_dir w !! path;
  tr_inodes : w_inodes w' = w_inodes w;
  tr_next : w_next w' = w_next w;
  tr_faults : w_faults w' = [] }.

Lemma drop_stale_ok names w : w_faults w = [] → NoDup names → Forall (λ p, is_Some (w_dir w !! p)) names →
  ∃ w', drop_stale names w = (Ok tt, w') ∧ trimmed w w'.
Proof.
  revert w. induction names as [|p names IH]; intros w Hf Hd Hp; [exists w; by split|]. apply NoDup_cons in Hd as [Hnin Hd]. apply Forall_cons in Hp as [[i Hi] Hp].
  cbn [drop_stale foldr]. fold (drop_stale names). destruct (strip snapshot_dir p) as [nm|] eqn:Es; cbn [mbind option_bind]; [|by apply IH].
  destruct (between [] (bs ".tmp") nm) eqn:Eb; [|by apply IH].
  set (w1 := with_dir (delete p (w_dir w)) w). destruct (IH w1) as (w'&E&[T1 T2 T2' T3 T4 T5]); [done|done| |].
  - rewrite Forall_forall in Hp |- *. intros q Hq. cbn. rewrite lookup_delete_ne by (intros ->; done). by apply Hp.
  - exists w'. split.
    + unfold mbind, io_bind, remove, call, tick. rewrite Hf, Hi. exact E.
    + split; [|intros path Hs; rewrite T2 by done; cbn; rewrite lookup_delete_ne by (intros ->; congruence); done
        |intros path [q Hq]; rewrite T2' by (by rewrite Hq); cbn; rewrite lookup_delete_ne; [done|]; intros <-; apply snapshot_not_stale in Hq;
         rewrite Es in Hq; cbn [mbind option_bind] in Hq; congruence|by rewrite T3|by rewrite T4|done].
      etrans; [exact T1|]. apply delete_subseteq.
Qed.

Lemma disk_trimmed program w w' closed cur : trimmed w w' → disk program w closed cur → disk program w' closed cur.
Proof.
  intros [T1 T2 T2' T3 T4 _] [H1 H2 H3 H4 H5 H6 H7 H8 H9 H10].
  assert (∀ id, w_dir w' !! segment_path id = w_dir w !! segment_path id) as Hk by (intros; apply T2, segment_not_snapshot).
  assert (∀ i, inode i w' = inode i w) as Hi by (intros; unfold inode; by rewrite T3).
  assert (∀ p i, w_dir w' !! p = Some i → w_dir w !! p = Some i) as Hs by (intros p i Hp; exact (lookup_weaken _ _ _ _ Hp T1)).
  split; rewrite ?T4; try done.
  - destruct H1 as [L1 L2]. split; [by eauto|]. eapply Forall_impl; [exact L2|]. intros z [? ?]. by rewrite Hk.
  - eapply Forall_impl; [exact H3|]. intros d (i&?&?&?&?). exists i. by rewrite Hk, Hi.
  - intros d Hd. destruct (H4 d Hd) as ((i&?&?)&?&?). split; [|done]. exists i. unfold open_in. by rewrite Hk, Hi.
  - eauto.
  - eauto.
  - apply (snapped_keep w); [done|done|]. intros. by rewrite Hi.
Qed.

Lemma settled_trimmed w w' cur : trimmed w w' → settled w cur → settled w' cur.
Proof.
  intros [T1 T2 T2' T3 T4 _] H d i Hd Hi. rewrite T2 in Hi by apply segment_not_snapshot. unfold inode. rewrite T3. by apply (H d i).
Qed.

Lemma bind_done {A B} (m : io A) (k : A → io B) w a w' : m w = (Ok a, w') → (m ≫= k) w = k a w'.
Proof. intros E. unfold mbind, io_bind. by rewrite E. Qed.
Lemma call_done {A} name (f : io A) w : w_faults w = [] → call name f w = f w.
Proof. intros Hf. unfold call, tick. by rewrite Hf. Qed.

Lemma open_ok program mode n after w closed cur :
  disk program w closed cur → settled w cur → w_faults w = [] → mode ≠ MemoryOnly → n < 2 ^ 32 →
  0 ≤ base ≤ after → after ≤ base + zlen (records closed cur) → base + zlen (records closed cur) < 2 ^ 64 - 1 →
  ∃ s w', openM1Storage mode n program after w = (Ok (s, drop (Z.to_nat (after - base)) (records closed cur)), w')
    ∧ stored program s w' closed cur ∧ settled w' cur.
Proof.
  intros H Hs Hf Hm Hn Ha Haz Hb. unfold openM1Storage. set (limit := if n <=? 0 then 4096 else n).
  assert (0 < limit < 2 ^ 32) as Hlim by (unfold limit; destruct (Z.leb_spec n 0); lia).
  destruct (drop_stale_ok (sort_strings (map_to_list (w_dir w)).*1) w Hf) as (w1&E1&T).
  { rewrite sort_strings_perm. apply NoDup_fst_map_to_list. }
  { apply Forall_forall. intros p Hp. rewrite sort_strings_perm in Hp. apply list_elem_of_fmap in Hp as ([? i]&->&Hp). apply elem_of_map_to_list in Hp. eauto. }
  apply (disk_trimmed _ _ _ _ _ T) in H. apply (settled_trimmed _ _ _ T) in Hs. pose proof (tr_faults _ _ T) as Hf1. clear T.
  do 2 (erewrite bind_done; [|by apply call_done]). erewrite bind_done; [|unfold attempt, read_dir; by rewrite call_done].
  erewrite bind_done; [|exact E1]. clear E1.
  erewrite bind_done; [|by apply (listing_ok _ _ _ eq_refl (dk_lists _ _ _ _ H) (dk_sorted _ _ _ _ H))]. rewrite map_map.
  erewrite bind_done; [|apply read_files_ok; [done|]].
  2:{ pose proof (proj2 (dk_lists _ _ _ _ H)) as L. apply Forall_fmap in L. eapply Forall_impl; [exact L|]. by intros d [_ ?]. }
  destruct (scan_disk _ _ _ _ after H Ha Haz Hb) as (metas&E&Hc). erewrite bind_done; [|unfold io_res; by rewrite E]. clear E.
  destruct cur as [d|].
  - destruct Hc as (m&->&Hcl&Hr&Hlast). unfold segments. rewrite map_app. change (option_list (Some d)) with [d]. cbn [map]. rewrite last_snoc, Hcl.
    destruct (dk_open _ _ _ _ H d eq_refl) as ((i&Hi&Ho)&_). erewrite bind_done; [|done].
    erewrite bind_done; [|unfold open_path; rewrite call_done by done; by rewrite Hi]. do 2 eexists. split; [done|]. split; [|done].
    split; [done|done|done|]. exists i. done.
  - unfold segments in *. cbn [option_list] in *. rewrite app_nil_r.
    destruct Hc as [[-> ->]|(m&->&Hcl)].
    + do 2 eexists. split; [done|]. split; [|done]. by split.
    + rewrite Hcl. match goal with |- context [last ?l] => destruct (last l) as [[]|] end; do 2 eexists; (split; [done|]; split; [by split|done]).
Qed.

End Directory.

(** ** Worlds between operations *)

Lemma holds_faults base latest program s w rs l : holds base latest program s w rs → holds base latest program s (with_faults l w) rs.
Proof. intros (closed&cur&H&E&Hne&Hs). exists closed, cur. split_and!; [exact (stored_files _ _ _ _ w (with_faults l w) _ _ eq_refl H)|done..]. Qed.

Lemma empty_disk program w : w_dir w = ∅ → disk 0 None program w [] None.
Proof.
  intros E. assert (snapped w None) as Hs by (exists []; rewrite E; split; [by split|by split; constructor]).
  split; rewrite ?E; try done; constructor; done || constructor.
Qed.

Lemma reopen_holds base latest program mode n after w s rs w1 :
  holds base latest program s w rs → crash w w1 → w_dir w1 = w_dir w → mode ≠ MemoryOnly → n < 2 ^ 32 →
  0 ≤ base ≤ after → after ≤ base + zlen rs → base + zlen rs < 2 ^ 64 - 1 →
  ∃ s' w', openM1Storage mode n program after (with_faults [] w1) = (Ok (s', drop (Z.to_nat (after - base)) rs), w') ∧ holds base latest program s' w' rs.
Proof.
  intros (closed&cur&H&<-&Hne&Hs) Hc Hd Hm Hn Ha Haz Hb. destruct (disk_crash _ _ _ _ _ _ _ (sv_disk _ _ _ _ _ _ _ H) Hs Hc Hd) as [H1 H2].
  destruct (open_ok base latest program mode n after (with_faults [] w1) closed cur) as (s'&w'&E&H'&Hs'); try done; [exact (disk_files _ _ _ w1 (with_faults [] w1) _ _ eq_refl H1)|].
  exists s', w'. split; [done|]. by exists closed, cur.
Qed.
