(* ===== verification/ResearchStorageTheorems.v ===== *)
(** * Theorems on the storage of the research engine

    Over any number of sessions every acknowledged record is read back, in order;
    and what the code loses or refuses. *)

From Stdlib Require Import ZArith Lia Strings.Byte Strings.String.
From stdpp Require Import base decidable countable list gmap sorting.
From S2P Require Import Prelude GoText GoBinary GoVarint GoJson Errors GoOS KeyedStorage KeyedRecovery AccountAgent AgentLemmas Research ResearchEngine ResearchWal ResearchWalLemmas ResearchStorage ResearchStorageLemmas ResearchStorageSystem.

Local Open Scope Z_scope.
Local Open Scope go_scope.

(** The life of a directory: created, groups acknowledged, closed, and opened again
    after a crash that kept its names.  Openings succeed; anything else may run
    into faults, and what is acknowledged did not. *)
Inductive lives (program : bytes) : world → m1Storage → list logRecord → Prop :=
| lives_born mode n w0 s w l :
    w_dir w0 = ∅ → mode ≠ MemoryOnly → n < 2 ^ 32 →
    openM1Storage mode n program 0 (with_faults [] w0) = (Ok (s, []), w) → lives program (with_faults l w) s []
| lives_acknowledged w s rs g s' w' :
    lives program w s rs → Forall (wal_ok program) g → numbered_from (zlen rs) g → g ≠ [] →
    appendGroup no_failure g s w = (Ok tt, s', w') → lives program w' s' (rs ++ g)
| lives_closed w s rs s' w' :
    lives program w s rs → closeSegment true s w = (Ok tt, s', w') → lives program w' s' rs
| lives_reopened mode n after w s rs w1 s' back w' l :
    lives program w s rs → crash w w1 → w_dir w1 = w_dir w → mode ≠ MemoryOnly → n < 2 ^ 32 →
    0 ≤ after ≤ zlen rs → zlen rs < 2 ^ 64 - 1 →
    openM1Storage mode n program after (with_faults [] w1) = (Ok (s', back), w') → lives program (with_faults l w') s' rs.

Lemma lives_holds program w s rs : lives program w s rs → holds 0 None program s w rs.
Proof.
  induction 1 as [mode n w0 s w l Hd Hm Hn E|w s rs g s' w' _ IH Hw Hnum Hg E|w s rs s' w' _ IH E|mode n after w s rs w1 s' back w' l _ IH Hc Hd Hm Hn Ha Hb E].
  - destruct (open_ok 0 None program mode n 0 (with_faults [] w0) [] None) as (s'&w'&E'&H'&Hs'); try done; [by apply empty_disk|].
    rewrite E in E'. injection E' as <- <-. apply holds_faults. by exists [], None.
  - by eapply appendGroup_ok.
  - by eapply close_ok.
  - destruct (reopen_holds 0 None _ mode n after _ _ _ _ IH Hc Hd Hm Hn ltac:(lia) ltac:(lia) ltac:(lia)) as (s2&w2&E'&H2). rewrite E in E'. injection E' as <- _ <-.
    by apply holds_faults.
Qed.

(** After any life of the directory - groups acknowledged over
    any number of segments, closes, crashes between groups with openings after
    them, in any order - opening it again succeeds from every frontier up to the
    last record and gives exactly the acknowledged records after the frontier, in
    order, provided the names of its files survived. *)
Theorem log_survives (program : bytes) (mode : DurabilityMode) (n after : Z) (w w1 : world) (s : m1Storage) (rs : list logRecord) :
  lives program w s rs → crash w w1 → w_dir w1 = w_dir w → mode ≠ MemoryOnly → n < 2 ^ 32 → 0 ≤ after ≤ zlen rs → zlen rs < 2 ^ 64 - 1 →
  ∃ s' w', openM1Storage mode n program after (with_faults [] w1) = (Ok (s', drop (Z.to_nat after) rs), w').
Proof.
  intros H Hc Hd Hm Hn Ha Hb. destruct (reopen_holds 0 None _ mode n after _ _ _ _ (lives_holds _ _ _ _ H) Hc Hd Hm Hn ltac:(lia) ltac:(lia) ltac:(lia)) as (s'&w'&E&_).
  rewrite Z.sub_0_r in E. eauto.
Qed.

(** ** A life *)

Definition empty_world : world := {| w_dir := ∅; w_hist := []; w_inodes := ∅; w_next := 0; w_pos := 0; w_faults := [] |}.
Definition after_crash (w : world) : world :=
  {| w_dir := w_dir w; w_hist := []; w_inodes := w_inodes w; w_next := w_next w; w_pos := 0; w_faults := [] |}.

Lemma crash_quiet w : map_Forall (λ _ f, pending f = []) (w_inodes w) → crash w (after_crash w).
Proof.
  intros H. split; [by left|]. split; [done|]. split; [done|]. intros i. cbn. destruct (w_inodes w !! i) as [f|] eqn:E; [|done].
  specialize (H i f E). exists (stable f). split; [|by destruct f; cbn in H; subst].
  exists [], []. split; [done|]. left. done.
Qed.

(** A new directory with one record in a segment, and two groups. *)
Definition no_storage (limit : Z) : m1Storage :=
  {| st_mode := BatchSync; st_segmentRecords := limit; st_file := None;
     st_segment := {| sm_id := 0; sm_first := 0; sm_last := 0; sm_records := 0; sm_closed := false; sm_size := 0 |};
     st_nextSegmentID := 1; st_programID := m1GoProgramID |}.
Definition life_groups : sio unit :=
  _ ← appendGroup no_failure [sample 1 "a"]; appendGroup no_failure [sample 2 "b"; sample 3 "c"].
Definition life_end := life_groups (no_storage 1) empty_world.

Lemma log_survives_witness :
  ∃ s' w', openM1Storage BatchSync 4096 m1GoProgramID 1 (after_crash life_end.2) = (Ok (s', [sample 2 "b"; sample 3 "c"]), w').
Proof.
  destruct (appendGroup no_failure [sample 1 "a"] (no_storage 1) empty_world) as [[r1 s1] w1] eqn:E1.
  destruct (appendGroup no_failure [sample 2 "b"; sample 3 "c"] s1 w1) as [[r2 s2] w2] eqn:E2.
  assert (r1 = Ok tt) as -> by (apply (f_equal (λ x, x.1.1)) in E1; vm_compute in E1; congruence).
  assert (life_end = (r2, s2, w2)) as El by (unfold life_end, life_groups, mbind, sio_bind; rewrite E1; exact E2).
  assert (r2 = Ok tt) as -> by (apply (f_equal (λ x, x.1.1)) in El; vm_compute in El; congruence).
  assert (w2 = life_end.2) as Hw by by rewrite El.
  destruct (log_survives m1GoProgramID BatchSync 4096 1 w2 (after_crash w2) s2 [sample 1 "a"; sample 2 "b"; sample 3 "c"]) as (s'&w'&E).
  - eapply (lives_acknowledged m1GoProgramID w1 s1 [sample 1 "a"] [sample 2 "b"; sample 3 "c"] s2 w2).
    5: exact E2.
    4: discriminate.
    3: { split; [reflexivity|split; [reflexivity|exact I]]. }
    2: { clear. foralls; by apply sample_ok. }
    eapply (lives_acknowledged m1GoProgramID empty_world (no_storage 1) [] [sample 1 "a"] s1 w1).
    5: exact E1.
    4: discriminate.
    3: { split; [reflexivity|exact I]. }
    2: { clear. foralls; by apply sample_ok. }
    eapply (lives_born m1GoProgramID BatchSync 1 empty_world (no_storage 1) empty_world []).
    + reflexivity.
    + discriminate.
    + lia.
    + vm_compute. reflexivity.
  - apply crash_quiet. rewrite Hw. apply (bool_decide_eq_true_1 _). vm_compute. reflexivity.
  - reflexivity.
  - discriminate.
  - lia.
  - change (zlen _) with 3. lia.
  - change (zlen _) with 3. lia.
  - exists s', w'. rewrite <- Hw. exact E.
Defined.

(** ** A close after a failed append *)

(** The disk fills during the second append, and the engine is closed: a group
    acknowledged, a group refused, a close that succeeds, and the directory. *)
Definition full_disk : list fault := [FOk; FOk; FOk; FOk; FShort 40 true].
Definition failed_then_closed : res gerror unit * res gerror unit * res gerror unit * world :=
  let '(r1, s1, w1) := appendGroup no_failure [sample 1 "a"] (no_storage 10) (with_faults full_disk empty_world) in
  let '(r2, s2, w2) := appendGroup no_failure [sample 2 "b"] s1 w1 in
  let '(r3, s3, w3) := closeSegment true s2 w2 in
  (r1, r2, r3, w3).

(** A failed append leaves part of a frame in the segment, and [close] writes the
    footer behind it: the directory, with an acknowledged record in it, does not
    open any more, where the same directory without the close does. *)
Example closed_unreadable :
  let '(r1, r2, r3, w) := failed_then_closed in
  r1 = Ok tt ∧ r2 = Err (EWrap "append WAL frame" (EOS "short write")) ∧ r3 = Ok tt
  ∧ (openM1Storage BatchSync 10 m1GoProgramID 0 w).1 = Err (EMsg "truncated closed segment").
Proof. vm_compute. done. Qed.

Example unclosed_readable :
  let '(_, s1, w1) := appendGroup no_failure [sample 1 "a"] (no_storage 10) (with_faults full_disk empty_world) in
  let '(_, _, w2) := appendGroup no_failure [sample 2 "b"] s1 w1 in
  match (openM1Storage BatchSync 10 m1GoProgramID 0 w2).1 with Ok (_, rs) => rs = [sample 1 "a"] | Err _ => False end.
Proof. vm_compute. reflexivity. Qed.
