(* ===== verification/ResearchSnapshot.v ===== *)
(** * Snapshots of the research engine ([internal/researchengine/m1_storage.go], [engine.go])

    The durable snapshot with its JSON, taking one at the frontier of the engine,
    loading the newest one, restoring an engine from it, and opening an engine:
    the snapshot, then the records of the log after it. *)

From Stdlib Require Import ZArith Lia Strings.Byte Strings.String.
From stdpp Require Import base decidable countable list gmap sorting.
From S2P Require Import Prelude GoText GoBinary GoVarint GoJson Errors GoOS KeyedStorage AccountAgent AgentDelta Research ResearchEngine ResearchDedupe ResearchWal ResearchStorage.

Local Open Scope Z_scope.
Local Open Scope go_scope.

Record snapshotAgent := { sa_ID : Z; sa_Checkpoint : bytes }.

Record durableSnapshot := {
  ds_Version : Z; ds_Sequence : Z; ds_SchemaID : bytes; ds_ProgramID : bytes; ds_Accounts : list Account; ds_Ledger : list LedgerEntry;
  ds_Dedupe : list snapshotResult; ds_DedupeFormat : bytes; ds_DedupeCompact : bytes; ds_DedupeHorizon : Z;
  ds_Agents : list snapshotAgent; ds_Octagon : bytes; ds_OctHash : bytes }.
Definition zeroSnapshot : durableSnapshot := Build_durableSnapshot 0 0 [] [] [] [] [] [] [] 0 [] [] [].

(** ** JSON *)

Definition account_json (a : Account) : json :=
  JObj [(bs "id", JNum (dec (ac_ID a))); (bs "balance", JNum (dec (ac_Balance a))); (bs "status", JNum (dec (ac_Status a)));
        (bs "version", JNum (dec (ac_Version a)))].
Definition account_member (a : Account) (m : bytes * json) : option Account :=
  let '(Build_Account i b s v) := a in
  if is_field "id" m.1 then z ← into_u64 i m.2; Some (Build_Account z b s v)
  else if is_field "balance" m.1 then z ← into_int b m.2; Some (Build_Account i z s v)
  else if is_field "status" m.1 then z ← into_int s m.2; Some (Build_Account i b z v)
  else if is_field "version" m.1 then z ← into_u64 v m.2; Some (Build_Account i b s z)
  else Some a.

Definition ledger_json (l : LedgerEntry) : json :=
  JObj ([(bs "sequence", JNum (dec (le_Sequence l))); (bs "command_id", JStr (le_CommandID l)); (bs "from", JNum (dec (le_From l)))]
        ++ opt_member (negb (le_To l =? 0)) "to" (JNum (dec (le_To l)))
        ++ [(bs "amount", JNum (dec (le_Amount l))); (bs "effect_tag", JNum (dec (le_EffectTag l)))]).
Definition zeroLedger : LedgerEntry := Build_LedgerEntry 0 [] 0 0 0 0.
Definition ledger_member (l : LedgerEntry) (m : bytes * json) : option LedgerEntry :=
  let '(Build_LedgerEntry s id f t n e) := l in
  if is_field "sequence" m.1 then z ← into_u64 s m.2; Some (Build_LedgerEntry z id f t n e)
  else if is_field "command_id" m.1 then z ← into_str id m.2; Some (Build_LedgerEntry s z f t n e)
  else if is_field "from" m.1 then z ← into_u64 f m.2; Some (Build_LedgerEntry s id z t n e)
  else if is_field "to" m.1 then z ← into_u64 t m.2; Some (Build_LedgerEntry s id f z n e)
  else if is_field "amount" m.1 then z ← into_int n m.2; Some (Build_LedgerEntry s id f t z e)
  else if is_field "effect_tag" m.1 then z ← into_int e m.2; Some (Build_LedgerEntry s id f t n z)
  else Some l.

Definition result_json (r : Result) : json :=
  JObj [(bs "sequence", JNum (dec (rs_Sequence r))); (bs "command_id", JStr (rs_CommandID r)); (bs "accepted", JBool (rs_Accepted r));
        (bs "reason_tag", JNum (dec (rs_ReasonTag r))); (bs "effect_tag", JNum (dec (rs_EffectTag r)));
        (bs "transition_count", JNum (dec (rs_TransitionCount r))); (bs "duplicate", JBool (rs_Duplicate r))].
Definition zeroResult : Result := Build_Result 0 [] false 0 0 0 false.
Definition result_member (r : Result) (m : bytes * json) : option Result :=
  let '(Build_Result s id a n e t d) := r in
  if is_field "sequence" m.1 then z ← into_u64 s m.2; Some (Build_Result z id a n e t d)
  else if is_field "command_id" m.1 then z ← into_str id m.2; Some (Build_Result s z a n e t d)
  else if is_field "accepted" m.1 then z ← into_bool a m.2; Some (Build_Result s id z n e t d)
  else if is_field "reason_tag" m.1 then z ← into_int n m.2; Some (Build_Result s id a z e t d)
  else if is_field "effect_tag" m.1 then z ← into_int e m.2; Some (Build_Result s id a n z t d)
  else if is_field "transition_count" m.1 then z ← into_int t m.2; Some (Build_Result s id a n e z d)
  else if is_field "duplicate" m.1 then z ← into_bool d m.2; Some (Build_Result s id a n e t z)
  else Some r.

Definition remembered_json (s : snapshotResult) : json :=
  JObj [(bs "command_id", JStr (sr_CommandID s)); (bs "result", result_json (sr_Result s))].
Definition remembered_member (s : snapshotResult) (m : bytes * json) : option snapshotResult :=
  let '(Build_snapshotResult id r) := s in
  if is_field "command_id" m.1 then z ← into_str id m.2; Some (Build_snapshotResult z r)
  else if is_field "result" m.1 then z ← into_struct result_member r m.2; Some (Build_snapshotResult id z)
  else Some s.

Definition agent_json (a : snapshotAgent) : json :=
  JObj [(bs "id", JNum (dec (sa_ID a))); (bs "checkpoint", JStr (b64_encode (sa_Checkpoint a)))].
Definition agent_member (a : snapshotAgent) (m : bytes * json) : option snapshotAgent :=
  let '(Build_snapshotAgent i c) := a in
  if is_field "id" m.1 then z ← into_u64 i m.2; Some (Build_snapshotAgent z c)
  else if is_field "checkpoint" m.1 then z ← into_bytes m.2; Some (Build_snapshotAgent i z)
  else Some a.

(** A slice that is nil when it is empty. *)
Definition slice_json {A} (f : A → json) (l : list A) : json := match l with [] => JNull | _ => JArr (map f l) end.

Definition snapshot_json (s : durableSnapshot) : json :=
  JObj ([(bs "version", JNum (dec (ds_Version s))); (bs "sequence", JNum (dec (ds_Sequence s))); (bs "schema_id", JStr (ds_SchemaID s));
         (bs "program_id", JStr (ds_ProgramID s)); (bs "accounts", JArr (map account_json (ds_Accounts s)));
         (bs "ledger", slice_json ledger_json (ds_Ledger s))]
    ++ opt_member (negb (Nat.eqb (length (ds_Dedupe s)) 0)) "dedupe" (JArr (map remembered_json (ds_Dedupe s)))
    ++ opt_member (negb (bool_decide (ds_DedupeFormat s = []))) "dedupe_format" (JStr (ds_DedupeFormat s))
    ++ opt_member (negb (bool_decide (ds_DedupeCompact s = []))) "dedupe_compact" (JStr (b64_encode (ds_DedupeCompact s)))
    ++ [(bs "dedupe_horizon", JNum (dec (ds_DedupeHorizon s))); (bs "agents", slice_json agent_json (ds_Agents s));
        (bs "octagon", JStr (b64_encode (ds_Octagon s))); (bs "octagon_sha256", JStr (ds_OctHash s))]).

Definition snapshot_member (s : durableSnapshot) (m : bytes * json) : option durableSnapshot :=
  let '(Build_durableSnapshot v q si pi ac le de df dc dh ag oc oh) := s in
  if is_field "version" m.1 then z ← into_int v m.2; Some (Build_durableSnapshot z q si pi ac le de df dc dh ag oc oh)
  else if is_field "sequence" m.1 then z ← into_u64 q m.2; Some (Build_durableSnapshot v z si pi ac le de df dc dh ag oc oh)
  else if is_field "schema_id" m.1 then z ← into_str si m.2; Some (Build_durableSnapshot v q z pi ac le de df dc dh ag oc oh)
  else if is_field "program_id" m.1 then z ← into_str pi m.2; Some (Build_durableSnapshot v q si z ac le de df dc dh ag oc oh)
  else if is_field "accounts" m.1 then
    z ← into_list (into_struct account_member zeroAccount) m.2; Some (Build_durableSnapshot v q si pi z le de df dc dh ag oc oh)
  else if is_field "ledger" m.1 then
    z ← into_list (into_struct ledger_member zeroLedger) m.2; Some (Build_durableSnapshot v q si pi ac z de df dc dh ag oc oh)
  else if is_field "dedupe" m.1 then
    z ← into_list (into_struct remembered_member (Build_snapshotResult [] zeroResult)) m.2; Some (Build_durableSnapshot v q si pi ac le z df dc dh ag oc oh)
  else if is_field "dedupe_format" m.1 then z ← into_str df m.2; Some (Build_durableSnapshot v q si pi ac le de z dc dh ag oc oh)
  else if is_field "dedupe_compact" m.1 then z ← into_bytes m.2; Some (Build_durableSnapshot v q si pi ac le de df z dh ag oc oh)
  else if is_field "dedupe_horizon" m.1 then z ← into_int dh m.2; Some (Build_durableSnapshot v q si pi ac le de df dc z ag oc oh)
  else if is_field "agents" m.1 then
    z ← into_list (into_struct agent_member (Build_snapshotAgent 0 [])) m.2; Some (Build_durableSnapshot v q si pi ac le de df dc dh z oc oh)
  else if is_field "octagon" m.1 then z ← into_bytes m.2; Some (Build_durableSnapshot v q si pi ac le de df dc dh ag z oh)
  else if is_field "octagon_sha256" m.1 then z ← into_str oh m.2; Some (Build_durableSnapshot v q si pi ac le de df dc dh ag oc z)
  else Some s.
Definition json_snapshot (j : json) : option durableSnapshot := into_struct snapshot_member zeroSnapshot j.
Definition unmarshal_snapshot (data : bytes) : res gerror durableSnapshot :=
  match (j ← parse data; json_snapshot j) with Some s => Ok s | None => Err (EMsg "json") end.

(** ** Taking a snapshot *)

(** The remembered results, oldest first. *)
Definition remembered (d : dedupe) : list snapshotResult :=
  map (fun id => {| sr_CommandID := id; sr_Result := default zeroResult (dd_results d !! id) |}) (drop (dd_head d) (dd_order d)).

(** The committed agents, by identifier as an [int]. *)
Definition committed_ids (e : Engine) : list Z :=
  merge_sort Z.le (map (fun p : Z * agentEntry => i64 p.1)
    (filter (fun p : Z * agentEntry => en_checkpoint p.2 ≠ []) (map_to_list (eg_registry e)))).
Definition committed_agents (e : Engine) : list snapshotAgent :=
  map (fun raw => {| sa_ID := u64 raw; sa_Checkpoint := en_checkpoint (entry e (u64 raw)) |}) (committed_ids e).

Definition engine_snapshot (cfg : Config) (e : Engine) (dedupe : list snapshotResult) (format compact : bytes) : durableSnapshot :=
  let (accounts, ledger) := snapshotState (eg_store e) in
  let (octagon, hash) := CanonicalOctagon (eg_store e) in
  {| ds_Version := m1SnapshotVersion; ds_Sequence := eg_sequence e; ds_SchemaID := m1SchemaID; ds_ProgramID := expectedProgramID cfg;
     ds_Accounts := accounts; ds_Ledger := ledger; ds_Dedupe := dedupe; ds_DedupeFormat := format; ds_DedupeCompact := compact;
     ds_DedupeHorizon := Z.of_nat (cf_DedupeWindow cfg); ds_Agents := committed_agents e; ds_Octagon := octagon; ds_OctHash := hash |}.

Definition sio_res {A} (r : res gerror A) : sio A := fun s w => (r, s, w).

Definition snapshotAtFrontier (cfg : Config) (inject : injector) (e : Engine) : sio bytes :=
  match eg_poisoned e with
  | Some err => sio_err err
  | None =>
      _ ← closeSegment true;
      let results := remembered (eg_dedupe e) in
      snapshot ← (if cf_JSONDedupeSnapshot cfg then mret (engine_snapshot cfg e results (bs "json-v1") [])
                  else
                    _ ← sio_inject inject DuringCompactDedupeEncoding;
                    compact ← sio_res (encodeCompactDedupe results (Z.of_nat (cf_DedupeWindow cfg)));
                    mret (engine_snapshot cfg e [] (bs "compact-v1") compact));
      _ ← sio_inject inject DuringSnapshotFlowCheckpoint;
      path ← installSnapshot inject (ds_Sequence snapshot) (print (snapshot_json snapshot));
      _ ← retireThrough (ds_Sequence snapshot);
      mret path
  end.

(** The end of [commitGroup] for a group that was committed: the snapshot every
    [SnapshotEvery] records.  Its result, where one is due, is dropped by the code;
    it is kept here to tell whether it failed. *)
Definition snapshot_due (cfg : Config) (e : Engine) : bool :=
  (0 <? cf_SnapshotEvery cfg) && (eg_sequence e mod cf_SnapshotEvery cfg =? 0).
Definition group_end (cfg : Config) (inject : injector) (e : Engine) (s : m1Storage) (w : world) : option (res gerror bytes) * m1Storage * world :=
  if snapshot_due cfg e then let '(r, s, w) := snapshotAtFrontier cfg inject e s w in (Some r, s, w) else (None, s, w).

(** ** Restoring *)

Definition check_snapshot (program : bytes) (seq : Z) (s : durableSnapshot) : res gerror durableSnapshot :=
  let! _ := guard_err (negb (ds_Version s =? m1SnapshotVersion) || negb (ds_Sequence s =? seq) || negb (bool_decide (ds_SchemaID s = m1SchemaID))
                       || negb (bool_decide (ds_ProgramID s = program))) (EMsg "incompatible snapshot identity") in
  let! _ := guard_err (negb (bool_decide (hex_encode (sha256 (ds_Octagon s)) = ds_OctHash s))) (EMsg "snapshot publication hash mismatch") in
  Ok s.

Definition loadLatestSnapshot (program : bytes) : io (option durableSnapshot) :=
  latest ← latest_snapshot;
  match latest with
  | None => mret None
  | Some (seq, payload) => s ← io_res (let! s := unmarshal_snapshot payload in check_snapshot program seq s); mret (Some s)
  end.

Definition restore_agent (cfg : Config) (e : Engine) (a : snapshotAgent) : res gerror Engine :=
  let n := entry e (sa_ID a) in
  let! n :=
    if cf_GoBehavioralControl cfg then
      let! (p, t) := recovery_error "recovery_incompatible" (unmarshal_goAgentCheckpoint (sa_Checkpoint a)) in
      Ok {| en_machine := en_machine n; en_checkpoint := sa_Checkpoint a; en_goPending := p; en_goTurns := t |}
    else
      let! cp := recovery_error "recovery_incompatible" (lift (ParseAccountAgentCheckpoint (sa_Checkpoint a))) in
      let! m := recovery_error "recovery_incompatible" (lift (RestoreDurableAccountAgent cp)) in
      Ok {| en_machine := Some m; en_checkpoint := sa_Checkpoint a; en_goPending := en_goPending n; en_goTurns := en_goTurns n |} in
  Ok (set_entry e (sa_ID a) n).

(** The remembered results of a snapshot in either of its formats. *)
Definition snapshot_dedupe (cfg : Config) (s : durableSnapshot) : res gerror (list snapshotResult) :=
  if bool_decide (ds_DedupeFormat s = bs "compact-v1") then
    let! (decoded, _) := decodeCompactDedupe (ds_DedupeCompact s) (Z.of_nat (cf_DedupeWindow cfg)) in Ok decoded
  else if bool_decide (ds_DedupeFormat s = bs "json-v1") then Ok (ds_Dedupe s)
  else Err (EMsg "unknown dedupe format").

Definition restore_dedupe (l : list snapshotResult) : dedupe :=
  {| dd_results := foldl (fun m s => <[sr_CommandID s := sr_Result s]> m) ∅ l; dd_order := map sr_CommandID l; dd_head := 0 |}.

(** [openM1Engine] up to the log: an engine with the state of the snapshot. *)
Definition restore_snapshot (cfg : Config) (s : durableSnapshot) : res gerror Engine :=
  let store := restoreState (ds_Accounts s) (ds_Ledger s) in
  let (publication, hash) := CanonicalOctagon store in
  let! _ := guard_err (negb (bool_decide (publication = ds_Octagon s)) || negb (bool_decide (hash = ds_OctHash s)))
              (runtime_error "recovery_corrupt" (EMsg "snapshot authoritative state/publication mismatch")) in
  let! results := recovery_error "recovery_corrupt" (snapshot_dedupe cfg s) in
  let! _ := recovery_error "recovery_corrupt"
              (validateDedupeEntries results (ds_DedupeHorizon s) (Z.of_nat (cf_DedupeWindow cfg)) (ds_Sequence s)) in
  let e := {| eg_store := store; eg_registry := ∅; eg_dedupe := restore_dedupe results; eg_sequence := 0; eg_poisoned := None |} in
  let! e := res_fold (restore_agent cfg) e (ds_Agents s) in
  Ok {| eg_store := eg_store e; eg_registry := eg_registry e; eg_dedupe := eg_dedupe e; eg_sequence := ds_Sequence s; eg_poisoned := None |}.

(** [err] of a recovery step in the kind the caller sees. *)
Definition io_recovery {A} (kind : string) (m : io A) : io A := fun w =>
  match m w with (Err e, w) => (Err (runtime_error kind e), w) | r => r end.
Arguments io_recovery {A} _%_string _.

(** The records replayed; the storage is closed again when one does not replay. *)
Definition replay_log (cfg : Config) (e : Engine) (storage : m1Storage) (records : list logRecord) : io (Engine * m1Storage) := fun w =>
  match replay cfg e records with
  | Ok e => (Ok (e, storage), w)
  | Err err => let '(_, _, w) := closeSegment true storage w in (Err err, w)
  end.

Definition openM1Engine (cfg : Config) (mode : DurabilityMode) (segmentRecords : Z) : io (Engine * m1Storage) :=
  snapshot ← io_recovery "recovery_corrupt" (loadLatestSnapshot (expectedProgramID cfg));
  e ← io_res (match snapshot with Some s => restore_snapshot cfg s | None => Ok new_engine end);
  '(storage, records) ← io_recovery "recovery_corrupt" (openM1Storage mode segmentRecords (expectedProgramID cfg) (eg_sequence e));
  replay_log cfg e storage records.
