(* ===== verification/ResearchRestore.v ===== *)
(** * Engines restored from their snapshots

    The JSON of a snapshot read back, a store restored from it, and an engine
    restored at the frontier of its log. *)

From Stdlib Require Import ZArith Lia Strings.Byte Strings.String.
From stdpp Require Import base decidable countable list gmap sorting.
From S2P Require Import Prelude GoText GoBinary GoJson Errors GoOS KeyedStorage KeyedRecovery GoVarint AccountAgent AgentLemmas AgentDelta Research ResearchLemmas ResearchEngine ResearchSystem ResearchLanes ResearchDedupe ResearchWal ResearchWalLemmas ResearchStorage ResearchSnapshot.

Local Open Scope Z_scope.
Local Open Scope go_scope.

#[local] Opaque is_field.

(** ** JSON *)

Definition account_fits (a : Account) : Prop := Forall u64_range [ac_ID a; ac_Version a] ∧ Forall i64_range [ac_Balance a; ac_Status a].
Definition ledger_fits (l : LedgerEntry) : Prop :=
  Forall u64_range [le_Sequence l; le_From l; le_To l] ∧ Forall i64_range [le_Amount l; le_EffectTag l] ∧ utf8_valid (le_CommandID l) = true.
Definition result_fits (r : Result) : Prop :=
  u64_range (rs_Sequence r) ∧ Forall i64_range [rs_ReasonTag r; rs_EffectTag r; rs_TransitionCount r] ∧ utf8_valid (rs_CommandID r) = true.
Definition remembered_fits (s : snapshotResult) : Prop := utf8_valid (sr_CommandID s) = true ∧ result_fits (sr_Result s).

Ltac member_eval member :=
  unfold member; cbn [fst snd norm]; eval_fields; cbn [into_int into_u64 into_str into_bytes into_bool];
  rewrite ?parse_int64_dec_i64, ?parse_uint64_dec, ?utf8_coerce_valid, ?b64_coerce, ?b64_roundtrip by done; cbn [mbind option_bind into_str into_bytes];
  rewrite ?b64_roundtrip; cbn [mbind option_bind]; reflexivity.
Ltac member_step member := erewrite fold_cons; [|member_eval member].
Ltac member_opt member := erewrite fold_opt; [|intros _; member_eval member|].

Lemma account_roundtrip a : account_fits a → into_struct account_member zeroAccount (norm (account_json a)) = Some a.
Proof.
  intros [Hu Hi]. destruct a as [i b s v]. cbn [ac_ID ac_Balance ac_Status ac_Version] in *. forall_in Hu. forall_in Hi.
  unfold account_json, into_struct, zeroAccount. cbn [norm map fst snd ac_ID ac_Balance ac_Status ac_Version]. do 4 member_step account_member. done.
Qed.

Lemma ledger_roundtrip l : ledger_fits l → into_struct ledger_member zeroLedger (norm (ledger_json l)) = Some l.
Proof.
  intros (Hu&Hi&Ht). destruct l as [s id f t n e]. cbn [le_Sequence le_CommandID le_From le_To le_Amount le_EffectTag] in *. forall_in Hu. forall_in Hi.
  unfold ledger_json, into_struct, zeroLedger. cbn [le_Sequence le_CommandID le_From le_To le_Amount le_EffectTag norm]. rewrite !map_app. cbn [map app fst snd].
  do 3 member_step ledger_member. member_opt ledger_member; [|by intros E; assert (t = 0) as -> by lia]. do 2 member_step ledger_member. done.
Qed.

Lemma result_roundtrip r : result_fits r → into_struct result_member zeroResult (norm (result_json r)) = Some r.
Proof.
  intros (Hu&Hi&Ht). destruct r as [s id a n e t d]. cbn [rs_Sequence rs_CommandID rs_ReasonTag rs_EffectTag rs_TransitionCount] in *. forall_in Hi.
  unfold result_json, into_struct, zeroResult. cbn [norm map fst snd rs_Sequence rs_CommandID rs_Accepted rs_ReasonTag rs_EffectTag rs_TransitionCount rs_Duplicate].
  do 7 member_step result_member. done.
Qed.

Lemma remembered_roundtrip s : remembered_fits s →
  into_struct remembered_member (Build_snapshotResult [] zeroResult) (norm (remembered_json s)) = Some s.
Proof.
  intros [Ht Hr]. destruct s as [id r]. cbn [sr_CommandID sr_Result] in *. pose proof (result_roundtrip r Hr) as E. revert E.
  unfold remembered_json. cbn [sr_CommandID sr_Result]. generalize (result_json r). intros j E. unfold into_struct. cbn [norm map fst snd].
  member_step remembered_member. erewrite fold_cons; [|unfold remembered_member; cbn [fst snd]; eval_fields; rewrite E; reflexivity]. done.
Qed.

Lemma agent_roundtrip a : u64_range (sa_ID a) → into_struct agent_member (Build_snapshotAgent 0 []) (norm (agent_json a)) = Some a.
Proof.
  intros Hu. destruct a as [i c]. cbn [sa_ID] in *. unfold agent_json, into_struct. cbn [norm map fst snd sa_ID sa_Checkpoint].
  do 2 member_step agent_member. done.
Qed.

Lemma list_roundtrip {A} (f : A → json) (g : json → option A) (P : A → Prop) l :
  (∀ a, P a → g (norm (f a)) = Some a) → Forall P l → into_list g (norm (JArr (map f l))) = Some l.
Proof. intros H Hl. cbn [norm into_list]. by eapply mapM_roundtrip. Qed.
Lemma slice_roundtrip {A} (f : A → json) (g : json → option A) (P : A → Prop) l :
  (∀ a, P a → g (norm (f a)) = Some a) → Forall P l → into_list g (norm (slice_json f l)) = Some l.
Proof. intros H Hl. destruct l as [|a l]; [done|]. by apply (list_roundtrip f g P). Qed.

Record snapshot_fits (s : durableSnapshot) : Prop := {
  sf_int : Forall i64_range [ds_Version s; ds_DedupeHorizon s];
  sf_u64 : u64_range (ds_Sequence s);
  sf_text : Forall (λ t, utf8_valid t = true) [ds_SchemaID s; ds_ProgramID s; ds_DedupeFormat s; ds_OctHash s];
  sf_accounts : Forall account_fits (ds_Accounts s);
  sf_ledger : Forall ledger_fits (ds_Ledger s);
  sf_dedupe : Forall remembered_fits (ds_Dedupe s);
  sf_agents : Forall (λ a, u64_range (sa_ID a)) (ds_Agents s) }.

Lemma durable_json_roundtrip s : snapshot_fits s → json_snapshot (norm (snapshot_json s)) = Some s.
Proof.
  intros [Hi Hu Ht Ha Hl Hd Hg]. destruct s as [v q si pi ac le de df dc dh ag oc oh].
  cbn [ds_Version ds_DedupeHorizon ds_Sequence ds_SchemaID ds_ProgramID ds_DedupeFormat ds_OctHash ds_Accounts ds_Ledger ds_Dedupe ds_Agents] in *.
  forall_in Hi. forall_in Ht. unfold json_snapshot, snapshot_json, into_struct, zeroSnapshot.
  cbn [ds_Version ds_DedupeHorizon ds_Sequence ds_SchemaID ds_ProgramID ds_DedupeFormat ds_OctHash ds_Accounts ds_Ledger ds_Dedupe ds_Agents ds_DedupeCompact ds_Octagon].
  pose proof (list_roundtrip account_json _ _ ac account_roundtrip Ha) as Ea.
  pose proof (slice_roundtrip ledger_json _ _ le ledger_roundtrip Hl) as El.
  pose proof (list_roundtrip remembered_json _ _ de remembered_roundtrip Hd) as Ed.
  pose proof (slice_roundtrip agent_json _ _ ag agent_roundtrip Hg) as Eg.
  revert Ea El Ed Eg. generalize (JArr (map account_json ac)) (slice_json ledger_json le) (JArr (map remembered_json de)) (slice_json agent_json ag).
  intros ja jl jd jg Ea El Ed Eg. cbn [norm]. rewrite !map_app. cbn [map app fst snd].
  do 4 member_step snapshot_member.
  erewrite fold_cons; [|unfold snapshot_member; cbn [fst snd]; eval_fields; rewrite Ea; reflexivity].
  erewrite fold_cons; [|unfold snapshot_member; cbn [fst snd]; eval_fields; rewrite El; reflexivity].
  erewrite fold_opt; [|intros _; unfold snapshot_member; cbn [fst snd]; eval_fields; rewrite Ed; reflexivity|by destruct de].
  member_opt snapshot_member; [|by intros ->%present_false]. member_opt snapshot_member; [|by intros ->%present_false].
  member_step snapshot_member.
  erewrite fold_cons; [|unfold snapshot_member; cbn [fst snd]; eval_fields; rewrite Eg; reflexivity].
  do 2 member_step snapshot_member. done.
Qed.

Lemma slice_shape {A} (f : A → json) n l : (∀ a, nums_ok (f a) ∧ (depth (f a) ≤ n)%nat) →
  nums_ok (JArr (map f l)) ∧ (depth (JArr (map f l)) ≤ S n)%nat ∧ nums_ok (slice_json f l) ∧ (depth (slice_json f l) ≤ S n)%nat.
Proof.
  intros H. assert (nums_ok (JArr (map f l)) ∧ (depth (JArr (map f l)) ≤ S n)%nat) as [H1 H2].
  { induction l as [|a l [IH1 IH2]]; [cbn; split; [done|lia]|]. destruct (H a) as [Ha Hd]. cbn [map nums_ok depth foldr] in *. split; [done|lia]. }
  split_and!; [done|done|by destruct l|]. destruct l; [cbn; lia|done].
Qed.

Lemma durable_shape s : nums_ok (snapshot_json s) ∧ (depth (snapshot_json s) ≤ 5)%nat.
Proof.
  destruct (slice_shape account_json 1 (ds_Accounts s)) as (A1&A2&_); [intros a; cbn; split; [eauto 10|lia]|].
  destruct (slice_shape ledger_json 1 (ds_Ledger s)) as (_&_&L1&L2).
  { intros a. unfold ledger_json. destruct (negb _); cbn; (split; [eauto 20|lia]). }
  destruct (slice_shape remembered_json 2 (ds_Dedupe s)) as (D1&D2&_); [intros a; cbn; split; [eauto 30|lia]|].
  destruct (slice_shape agent_json 1 (ds_Agents s)) as (_&_&G1&G2); [intros a; cbn; split; [eauto 10|lia]|].
  unfold snapshot_json. revert A1 A2 L1 L2 D1 D2 G1 G2.
  generalize (JArr (map account_json (ds_Accounts s))) (slice_json ledger_json (ds_Ledger s)) (JArr (map remembered_json (ds_Dedupe s)))
    (slice_json agent_json (ds_Agents s)). intros ja jl jd jg A1 A2 L1 L2 D1 D2 G1 G2.
  destruct (negb (Nat.eqb _ _)), (negb (bool_decide (ds_DedupeFormat s = []))), (negb (bool_decide (ds_DedupeCompact s = [])));
    (split; [apply nums_ok_obj; cbn [opt_member app]; repeat (apply Forall_cons; split); try apply Forall_nil; cbn [snd nums_ok]; eauto
            |cbn [opt_member app depth foldr snd]; lia]).
Qed.

Lemma unmarshal_snapshot_print s : snapshot_fits s → unmarshal_snapshot (print (snapshot_json s)) = Ok s.
Proof.
  intros H. destruct (durable_shape s) as [Hn Hd]. unfold unmarshal_snapshot. rewrite parse_print by (done || (apply max_nesting_ge; lia)).
  cbn [mbind option_bind]. by rewrite durable_json_roundtrip.
Qed.

(** ** The store *)

Lemma foldl_insert {A K V} `{Countable K} (key : A → K) (value : A → V) l (m : gmap K V) : NoDup (key <$> l) →
  foldl (λ m a, <[key a := value a]> m) m l = list_to_map ((λ a, (key a, value a)) <$> l) ∪ m.
Proof.
  revert m. induction l as [|a l IH]; intros m Hd; [symmetry; apply (left_id_L ∅ (∪))|]. cbn in Hd |- *. apply NoDup_cons in Hd as [Ha Hd].
  rewrite IH by done. rewrite <- insert_union_l, insert_union_r; [done|]. apply not_elem_of_list_to_map_1. by rewrite <- list_fmap_compose.
Qed.

Lemma store_restores s : (∀ id a, so_accounts s !! id = Some a → ac_ID a = id) →
  restoreState (snapshotState s).1 (snapshotState s).2 = s.
Proof.
  intros H. unfold restoreState, snapshotState. cbn [fst snd]. destruct s as [m l]. cbn [so_accounts so_ledger] in *. f_equal.
  set (vs := merge_sort account_le (map_to_list m).*2).
  assert (vs ≡ₚ (map_to_list m).*2) as Hp by apply merge_sort_Permutation.
  assert ((λ a, (ac_ID a, a)) <$> (map_to_list m).*2 = map_to_list m) as Hm.
  { rewrite <- list_fmap_compose. rewrite <- (list_fmap_id (map_to_list m)) at 2. apply list_fmap_ext. intros i [k a] Hi. cbn. f_equal.
    apply H, elem_of_map_to_list, list_elem_of_lookup. eauto. }
  assert ((λ a, (ac_ID a, a)) <$> vs ≡ₚ map_to_list m) as Hvs by (rewrite Hp; by rewrite Hm).
  assert (ac_ID <$> vs ≡ₚ (map_to_list m).*1) as Hk by (rewrite <- Hvs, <- list_fmap_compose; done).
  rewrite (foldl_insert ac_ID id); [|rewrite Hk; apply NoDup_fst_map_to_list]. rewrite (right_id_L ∅ (∪)).
  rewrite <- (list_to_map_to_list m) at 1. apply list_to_map_proper; [|done]. rewrite <- list_fmap_compose. cbn. change (NoDup (ac_ID <$> vs)).
  rewrite Hk. apply NoDup_fst_map_to_list.
Qed.

(** ** An engine restored from its snapshot

    What a snapshot needs of an engine, and that restoring it gives the engine
    back: the store, the sequence, the agents, and the window of remembered
    results up to its place in the slice that holds it. *)

(** ** Remembered results *)

Definition as_entry (p : bytes * Result) : snapshotResult := {| sr_CommandID := p.1; sr_Result := p.2 |}.

Fixpoint ordered_above (prior : Z) (l : list snapshotResult) : Prop :=
  match l with [] => True | e :: l => prior < rs_Sequence (sr_Result e) ∧ ordered_above (rs_Sequence (sr_Result e)) l end.

Lemma encode_entries_ok seen prior l : Forall result_ok l → ordered_above prior l → NoDup (sr_CommandID <$> l) →
  Forall (λ e, sr_CommandID e ∉ seen) l → ∃ body, encode_entries seen prior l = Ok body.
Proof.
  intros H. revert seen prior. induction H as [|e l He _ IH]; intros seen prior Ho Hd Hs; cbn [encode_entries]; [by eexists|].
  destruct Ho as [Hp Ho]. cbn in Hd. apply NoDup_cons in Hd as [Hn Hd]. apply Forall_cons in Hs as [Hs1 Hs]. destruct He as [Hid Hsame _ _ _ _ _].
  rewrite (bool_decide_false (sr_CommandID e = [])) by (intros E; rewrite E in Hid; unfold zlen in Hid; cbn in Hid; lia).
  rewrite (bool_decide_true (rs_CommandID _ = _)), (bool_decide_false (_ ∈ seen)), (proj2 (Z.leb_gt _ _)) by done. cbn [orb negb guard_err res_bind].
  destruct (IH ({[sr_CommandID e]} ∪ seen) (rs_Sequence (sr_Result e)) Ho Hd) as [body ->]; [|by eexists].
  rewrite Forall_forall in Hs |- *. intros x Hx. specialize (Hs x Hx). cbn in Hs. apply not_elem_of_union. split; [|done].
  intros E%elem_of_singleton. apply Hn. rewrite <- E. by apply list_elem_of_fmap_2.
Qed.

Lemma validate_ok (l : list snapshotResult) horizon frontier : Forall result_ok l → ordered_above 0 l → NoDup (sr_CommandID <$> l) →
  Forall (λ e, rs_Sequence (sr_Result e) ≤ frontier) l → 0 < horizon → zlen l ≤ horizon → validateDedupeEntries l horizon horizon frontier = Ok tt.
Proof.
  intros H Ho Hd Hf Hh Hl. unfold validateDedupeEntries. rewrite Z.eqb_refl, (proj2 (Z.leb_gt horizon 0)), (proj2 (Z.ltb_ge horizon (zlen l))) by lia.
  cbn [negb orb guard_err res_bind]. match goal with |- context [res_fold ?f _ _] => set (step := f) end. assert (∀ seen prior, ordered_above prior l → Forall (λ e, sr_CommandID e ∉ seen) l →
    ∃ p, res_fold step (seen, prior) l = Ok p) as Hx; [|destruct (Hx ∅ 0) as [p ->]; [done|apply Forall_forall; set_solver|done]].
  clear Ho Hl. induction H as [|e l He _ IH]; intros seen prior Ho Hs; cbn [res_fold]; [by eexists|].
  destruct Ho as [Hp Ho]. cbn in Hd. apply NoDup_cons in Hd as [Hn Hd]. apply Forall_cons in Hs as [Hs1 Hs]. apply Forall_cons in Hf as [Hf1 Hf].
  destruct He as [Hid Hsame _ _ _ _ _]. unfold step at 1.
  rewrite (bool_decide_false (sr_CommandID e = [])) by (intros E; rewrite E in Hid; unfold zlen in Hid; cbn in Hid; lia).
  rewrite (bool_decide_true (rs_CommandID _ = _)), (bool_decide_false (_ ∈ seen)), (proj2 (Z.leb_gt _ _)), (proj2 (Z.ltb_ge _ _)) by done.
  cbn [orb negb guard_err res_bind]. apply IH; [done|done|done|].
  rewrite Forall_forall in Hs |- *. intros x Hx. specialize (Hs x Hx). cbn in Hs. apply not_elem_of_union. split; [|done].
  intros E%elem_of_singleton. apply Hn. rewrite <- E. by apply list_elem_of_fmap_2.
Qed.

Lemma remembered_entries W d rs : remembers W d rs → remembered d = map as_entry rs.
Proof.
  intros [_ Ho Hm Hn _]. unfold remembered. rewrite Ho, Hm. change (map ?f (rs.*1)) with (f <$> rs.*1). rewrite <- list_fmap_compose.
  apply list_fmap_ext. intros i [id r] Hi. cbn. unfold as_entry. cbn. f_equal.
  by rewrite (elem_of_list_to_map_1 rs id r Hn (list_elem_of_lookup_2 _ _ _ Hi)).
Qed.

Lemma restore_dedupe_entries rs : NoDup rs.*1 →
  restore_dedupe (map as_entry rs) = {| dd_results := list_to_map rs; dd_order := rs.*1; dd_head := 0 |}.
Proof.
  intros Hn. unfold restore_dedupe. f_equal; [|by rewrite map_map]. rewrite (foldl_insert sr_CommandID sr_Result).
  - rewrite (right_id_L ∅ (∪)). f_equal. change (map ?f rs) with (f <$> rs). rewrite <- list_fmap_compose. rewrite <- (list_fmap_id rs) at 2.
    apply list_fmap_ext. by intros i [id r] _.
  - change (map ?f rs) with (f <$> rs). by rewrite <- list_fmap_compose.
Qed.

(** The same window, wherever it begins in its slice. *)
Record same_window (d1 d2 : dedupe) : Prop := {
  sw_results : dd_results d1 = dd_results d2;
  sw_order : drop (dd_head d1) (dd_order d1) = drop (dd_head d2) (dd_order d2);
  sw_first : (dd_head d1 ≤ length (dd_order d1))%nat;
  sw_second : (dd_head d2 ≤ length (dd_order d2))%nat }.

Lemma restored_window W d rs : remembers W d rs → same_window d (restore_dedupe (remembered d)).
Proof.
  intros H. rewrite (remembered_entries _ _ _ H), restore_dedupe_entries by apply H. destruct H as [Hh Ho Hm _ _]. split; cbn; [done|by rewrite Ho|done|lia].
Qed.

(** The window after a result, from what it was. *)
Lemma remember_window W d id r : (dd_head d ≤ length (dd_order d))%nat →
  let v := drop (dd_head d) (dd_order d) ++ [id] in let d' := rememberResult W d id r in let full := Nat.ltb W (length v) in
  dd_results d' = (if full then match head v with Some old => delete old (<[id := r]> (dd_results d)) | None => <[id := r]> (dd_results d) end
                   else <[id := r]> (dd_results d))
  ∧ drop (dd_head d') (dd_order d') = (if full then tail v else v) ∧ (dd_head d' ≤ length (dd_order d'))%nat.
Proof.
  intros Hh v d' full. assert (v = drop (dd_head d) (dd_order d ++ [id])) as Ev by (unfold v; by rewrite drop_app_le).
  assert (length v = length (dd_order d ++ [id]) - dd_head d)%nat as El by (rewrite Ev; apply length_drop).
  assert ((dd_order d ++ [id]) !! dd_head d = head v) as Eh by (rewrite Ev, head_lookup, lookup_drop; f_equal; lia).
  assert (drop (S (dd_head d)) (dd_order d ++ [id]) = tail v) as Et.
  { replace (S (dd_head d)) with (dd_head d + 1)%nat by lia. rewrite <- drop_drop, <- Ev. by destruct v. }
  assert (dd_head d < length (dd_order d ++ [id]))%nat as Hlt by (rewrite length_app; cbn; lia).
  subst d' full. unfold rememberResult. rewrite <- El, Eh. destruct (Nat.ltb W (length v)), (Nat.leb _ _ && _);
    cbn [dd_results dd_order dd_head]; rewrite ?drop_0, ?Et, <- ?Ev; split_and!; done || lia.
Qed.

Lemma same_window_remember W d1 d2 id r : same_window d1 d2 → same_window (rememberResult W d1 id r) (rememberResult W d2 id r).
Proof.
  intros [H1 H2 H3 H4]. destruct (remember_window W d1 id r H3) as (A1&A2&A3). destruct (remember_window W d2 id r H4) as (B1&B2&B3).
  cbv zeta in *. split; [by rewrite A1, B1, H1, H2|by rewrite A2, B2, H2|done|done].
Qed.

Definition with_dedupe (e : Engine) (d : dedupe) : Engine :=
  {| eg_store := eg_store e; eg_registry := eg_registry e; eg_dedupe := d; eg_sequence := eg_sequence e; eg_poisoned := eg_poisoned e |}.

(** Engines a client and a later recovery cannot tell apart. *)
Record resembles (e1 e2 : Engine) : Prop := {
  rb_engine : same_engine e1 (with_dedupe e2 (eg_dedupe e1));
  rb_window : same_window (eg_dedupe e1) (eg_dedupe e2) }.

(** ** Agents *)

(** What the checkpoint of an entry says about the rest of it. *)
Definition entry_saved (cfg : Config) (e : Engine) (id : Z) : Prop :=
  let n := entry e id in
  let fresh := NewDurableAccountAgent (i64 id) in
  if bool_decide (en_checkpoint n = []) then agent_of e id = fresh ∧ en_goPending n = zeroPending ∧ en_goTurns n = 0
  else u64_range id
    ∧ if cf_GoBehavioralControl cfg
      then agent_of e id = fresh ∧ unmarshal_goAgentCheckpoint (en_checkpoint n) = Ok (en_goPending n, en_goTurns n)
      else en_goPending n = zeroPending ∧ en_goTurns n = 0 ∧ ParseAccountAgentCheckpoint (en_checkpoint n) = Ok (en_checkpoint n)
        ∧ RestoreDurableAccountAgent (en_checkpoint n) = Ok (agent_of e id).

Definition restored_entry (cfg : Config) (e : Engine) (id : Z) : agentEntry :=
  let n := entry e id in
  {| en_machine := if cf_GoBehavioralControl cfg then None else Some (agent_of e id); en_checkpoint := en_checkpoint n;
     en_goPending := en_goPending n; en_goTurns := en_goTurns n |}.
Definition agent_at (e : Engine) (id : Z) : snapshotAgent := {| sa_ID := id; sa_Checkpoint := en_checkpoint (entry e id) |}.

Lemma restore_agent_ok cfg e e0 id : en_checkpoint (entry e id) ≠ [] → entry_saved cfg e id →
  entry e0 id = new_entry ∨ entry e0 id = restored_entry cfg e id →
  restore_agent cfg e0 (agent_at e id) = Ok (set_entry e0 id (restored_entry cfg e id)).
Proof.
  intros Hne Hs H0. unfold entry_saved in Hs. rewrite bool_decide_false in Hs by done. destruct Hs as [_ Hs].
  unfold restore_agent, agent_at, restored_entry in *. cbn [sa_ID sa_Checkpoint]. destruct (cf_GoBehavioralControl cfg).
  - destruct Hs as [_ ->]. cbn [recovery_error res_bind]. by destruct H0 as [-> | ->].
  - destruct Hs as (Hp&Ht&->&Hr). cbn [lift recovery_error res_bind]. rewrite Hr. cbn [lift recovery_error res_bind]. rewrite Hp, Ht in H0 |- *.
    by destruct H0 as [-> | ->].
Qed.

Lemma restore_agents_ok cfg e ids e0 : Forall (λ id, en_checkpoint (entry e id) ≠ [] ∧ entry_saved cfg e id) ids →
  (∀ id, entry e0 id = new_entry ∨ entry e0 id = restored_entry cfg e id) →
  ∃ e', res_fold (restore_agent cfg) e0 (map (agent_at e) ids) = Ok e'
    ∧ eg_store e' = eg_store e0 ∧ eg_dedupe e' = eg_dedupe e0
    ∧ ∀ id, entry e' id = if bool_decide (id ∈ ids) then restored_entry cfg e id else entry e0 id.
Proof.
  intros H. revert e0. induction H as [|id ids [Hne Hs] _ IH]; intros e0 H0; cbn [map res_fold].
  { exists e0. split_and!; [done..|]. intros id. by rewrite bool_decide_false by set_solver. }
  rewrite (restore_agent_ok cfg e e0 id Hne Hs (H0 id)). cbn [res_bind]. destruct (IH (set_entry e0 id (restored_entry cfg e id))) as (e'&E&E1&E2&E3).
  { intros id'. destruct (decide (id = id')) as [<-|Hd]; [rewrite entry_set; by right|]. rewrite entry_set_ne by done. apply H0. }
  exists e'. split_and!; [done..|]. intros id'. rewrite E3. destruct (decide (id' ∈ ids)) as [Hin|Hin].
  - rewrite !bool_decide_true by set_solver. done.
  - rewrite (bool_decide_false (id' ∈ ids)) by done. destruct (decide (id = id')) as [<-|Hd].
    + rewrite entry_set, bool_decide_true by set_solver. done.
    + rewrite entry_set_ne, bool_decide_false by set_solver. done.
Qed.

Lemma u64_of_i64 v : u64_range v → u64 (i64 v) = v.
Proof. unfold u64_range, u64, i64. intros H. rewrite Zminus_mod_idemp_l. replace (v + 2 ^ 63 - 2 ^ 63) with v by lia. by apply Z.mod_small. Qed.

Lemma committed_ids_spec cfg e : (∀ id, entry_saved cfg e id) → ∀ id, id ∈ map u64 (committed_ids e) ↔ en_checkpoint (entry e id) ≠ [].
Proof.
  intros Hs id. assert (∀ k, en_checkpoint (entry e k) ≠ [] → u64_range k) as Hu.
  { intros k Hk. specialize (Hs k). unfold entry_saved in Hs. rewrite bool_decide_false in Hs by done. apply Hs. }
  unfold committed_ids. rewrite list_elem_of_fmap. setoid_rewrite merge_sort_Permutation. setoid_rewrite list_elem_of_fmap. split.
  - intros (raw&->&[k n]&->&Hin). apply list_elem_of_filter in Hin as [Hn Hin]. apply elem_of_map_to_list in Hin. cbn [fst snd] in *.
    assert (entry e k = n) as <- by (unfold entry; by rewrite Hin). by rewrite u64_of_i64 by by apply Hu.
  - intros Hn. exists (i64 id). split; [by rewrite u64_of_i64 by by apply Hu|]. exists (id, entry e id). split; [done|].
    apply list_elem_of_filter. split; [done|]. apply elem_of_map_to_list. unfold entry in *. by destruct (eg_registry e !! id).
Qed.

Lemma committed_agents_at e : committed_agents e = map (agent_at e) (map u64 (committed_ids e)).
Proof. unfold committed_agents. by rewrite map_map. Qed.

Lemma saved_restored cfg e e' id : entry_saved cfg e id →
  entry e' id = (if bool_decide (en_checkpoint (entry e id) = []) then new_entry else restored_entry cfg e id) →
  agent_of e id = agent_of e' id ∧ en_checkpoint (entry e id) = en_checkpoint (entry e' id)
    ∧ en_goPending (entry e id) = en_goPending (entry e' id) ∧ en_goTurns (entry e id) = en_goTurns (entry e' id).
Proof.
  intros Hs E. unfold entry_saved in Hs. unfold agent_of at 2. rewrite E. case_bool_decide as Hc; cbn.
  - destruct Hs as (->&->&->). done.
  - destruct Hs as [_ Hs]. destruct (cf_GoBehavioralControl cfg); cbn; [destruct Hs as [-> _]|]; done.
Qed.

(** ** The engine *)

Record snapshotable (cfg : Config) (e : Engine) : Prop := {
  sp_accounts : ∀ id a, so_accounts (eg_store e) !! id = Some a → ac_ID a = id ∧ account_fits a;
  sp_ledger : Forall ledger_fits (so_ledger (eg_store e));
  sp_sequence : u64_range (eg_sequence e);
  sp_window : 0 < Z.of_nat (cf_DedupeWindow cfg) < 2 ^ 32;
  sp_results : ∃ rs, remembers (cf_DedupeWindow cfg) (eg_dedupe e) rs ∧ Forall (λ s, result_ok s ∧ remembered_fits s) (map as_entry rs)
    ∧ ordered_above 0 (map as_entry rs) ∧ Forall (λ s, rs_Sequence (sr_Result s) ≤ eg_sequence e) (map as_entry rs);
  sp_entry : ∀ id, entry_saved cfg e id }.

(** The snapshot [snapshotAtFrontier] takes. *)
Definition frontier_snapshot (cfg : Config) (e : Engine) : res gerror durableSnapshot :=
  let results := remembered (eg_dedupe e) in
  if cf_JSONDedupeSnapshot cfg then Ok (engine_snapshot cfg e results (bs "json-v1") [])
  else let! compact := encodeCompactDedupe results (Z.of_nat (cf_DedupeWindow cfg)) in Ok (engine_snapshot cfg e [] (bs "compact-v1") compact).

Lemma frontier_dedupe cfg e : snapshotable cfg e →
  ∃ s, frontier_snapshot cfg e = Ok s ∧ snapshot_dedupe cfg s = Ok (remembered (eg_dedupe e))
    ∧ (∃ l f c, s = engine_snapshot cfg e l f c ∧ Forall remembered_fits l ∧ utf8_valid f = true).
Proof.
  intros [_ _ _ Hw (rs&Hr&Hok&Hord&_) _]. unfold frontier_snapshot. rewrite (remembered_entries _ _ _ Hr).
  assert (Forall result_ok (map as_entry rs)) as Hres by (eapply Forall_impl; [exact Hok|]; by intros s [? _]).
  assert (NoDup (sr_CommandID <$> map as_entry rs)) as Hn.
  { change (map as_entry rs) with (as_entry <$> rs). rewrite <- list_fmap_compose. apply Hr. }
  assert (∀ l f c, snapshot_dedupe cfg (engine_snapshot cfg e l f c)
    = if bool_decide (f = bs "compact-v1") then (let! (decoded, _) := decodeCompactDedupe c (Z.of_nat (cf_DedupeWindow cfg)) in Ok decoded)
      else if bool_decide (f = bs "json-v1") then Ok l else Err (EMsg "unknown dedupe format")) as Hsd by by intros.
  destruct (cf_JSONDedupeSnapshot cfg).
  - eexists. split; [done|]. split; [by rewrite Hsd|]. do 3 eexists. split; [done|]. split; [|by vm_compute]. eapply Forall_impl; [exact Hok|]. by intros s [_ ?].
  - destruct (encode_entries_ok ∅ 0 _ Hres Hord Hn) as [body Eb]; [apply Forall_forall; set_solver|].
    assert (∃ data, encodeCompactDedupe (map as_entry rs) (Z.of_nat (cf_DedupeWindow cfg)) = Ok data) as [data Ed].
    { unfold encodeCompactDedupe. rewrite Eb. rewrite (proj2 (Z.ltb_ge _ 0)), (proj2 (Z.ltb_ge _ (zlen _))); [by eexists| |lia].
      unfold zlen. rewrite length_map. pose proof (rm_length _ _ _ Hr). lia. }
    rewrite Ed. cbn [res_bind]. eexists. split; [done|]. split; [|do 3 eexists; split; [done|]; split; [constructor|by vm_compute]].
    rewrite Hsd. rewrite bool_decide_true by done. by rewrite (compact_roundtrip _ _ _ Hres Hw Ed).
Qed.

Lemma engine_snapshot_fits cfg e l f c : snapshotable cfg e → Forall remembered_fits l → utf8_valid f = true →
  snapshot_fits (engine_snapshot cfg e l f c).
Proof.
  intros [Ha Hl Hs Hw _ He] Hd Hf. unfold engine_snapshot. destruct (snapshotState (eg_store e)) as [accounts ledger] eqn:Es.
  destruct (CanonicalOctagon (eg_store e)) as [octagon hash] eqn:Eo. unfold snapshotState in Es. injection Es as Es1 Es2.
  unfold CanonicalOctagon in Eo. injection Eo as Eo1 Eo2.
  split; cbn [ds_Version ds_DedupeHorizon ds_Sequence ds_SchemaID ds_ProgramID ds_DedupeFormat ds_OctHash ds_Accounts ds_Ledger ds_Dedupe ds_Agents]; try done.
  - foralls; unfold m1SnapshotVersion, i64_range; lia.
  - subst hash. foralls; first [apply hex_encode_ascii|unfold expectedProgramID; by case_match|done].
  - subst accounts. apply Forall_forall. intros a Hin. rewrite merge_sort_Permutation in Hin. apply list_elem_of_fmap in Hin as ([k a']&->&Hin).
    apply elem_of_map_to_list in Hin. cbn. by apply (Ha k).
  - by rewrite <- Es2.
  - rewrite committed_agents_at. apply Forall_forall. intros a Hin. apply list_elem_of_fmap in Hin as (id&->&Hin). cbn.
    rewrite (committed_ids_spec cfg e He) in Hin. specialize (He id). unfold entry_saved in He. rewrite bool_decide_false in He by done. apply He.
Qed.

Lemma restore_frontier cfg e : snapshotable cfg e →
  ∃ s e', frontier_snapshot cfg e = Ok s ∧ unmarshal_snapshot (print (snapshot_json s)) = Ok s ∧ ds_Sequence s = eg_sequence e
    ∧ check_snapshot (expectedProgramID cfg) (eg_sequence e) s = Ok s ∧ restore_snapshot cfg s = Ok e' ∧ resembles e e' ∧ eg_poisoned e' = None.
Proof.
  intros H. destruct (frontier_dedupe cfg e H) as (s&E&Ed&l&f&c&->&Hl&Hf). pose proof H as [Ha _ Hsq Hw (rs&Hr&Hok&Hord&Hfr) He].
  assert (Forall result_ok (map as_entry rs)) as Hres by (eapply Forall_impl; [exact Hok|]; by intros s [? _]).
  assert (NoDup (sr_CommandID <$> map as_entry rs)) as Hn.
  { change (map as_entry rs) with (as_entry <$> rs). rewrite <- list_fmap_compose. apply Hr. }
  destruct (restore_agents_ok cfg e (map u64 (committed_ids e))
    {| eg_store := eg_store e; eg_registry := ∅; eg_dedupe := restore_dedupe (remembered (eg_dedupe e)); eg_sequence := 0; eg_poisoned := None |})
    as (e1&E1&S1&D1&N1).
  { apply Forall_forall. intros id Hid. split; [by apply (committed_ids_spec cfg e He)|apply He]. }
  { intros id. left. done. }
  exists (engine_snapshot cfg e l f c). eexists. split; [exact E|]. split; [apply unmarshal_snapshot_print; by apply engine_snapshot_fits|].
  assert (restoreState (snapshotState (eg_store e)).1 (snapshotState (eg_store e)).2 = eg_store e) as Est by (apply store_restores; intros; by apply Ha).
  split; [unfold engine_snapshot; by destruct (snapshotState _), (CanonicalOctagon _)|].
  split; [|split; [|split; [split|]]].
  - unfold check_snapshot, engine_snapshot. destruct (snapshotState (eg_store e)). unfold CanonicalOctagon.
    cbn [ds_Version ds_Sequence ds_SchemaID ds_ProgramID ds_Octagon ds_OctHash]. by rewrite !Z.eqb_refl, !bool_decide_true by done.
  - unfold restore_snapshot. rewrite Ed. unfold engine_snapshot. destruct (snapshotState (eg_store e)) as [accounts ledger]. cbn [fst snd] in Est.
    destruct (CanonicalOctagon (eg_store e)) as [octagon hash] eqn:Eo. cbn [ds_Accounts ds_Ledger ds_Octagon ds_OctHash ds_DedupeHorizon ds_Sequence ds_Agents].
    rewrite Est, Eo, !bool_decide_true by done. cbn [negb orb guard_err res_bind recovery_error].
    rewrite (remembered_entries _ _ _ Hr), validate_ok; [|done|done|done|done|lia|].
    2:{ unfold zlen. rewrite length_map. pose proof (rm_length _ _ _ Hr). lia. }
    cbn [recovery_error res_bind]. rewrite <- (remembered_entries _ _ _ Hr), committed_agents_at, E1. cbn [res_bind]. reflexivity.
  - assert (∀ id, entry e1 id = if bool_decide (en_checkpoint (entry e id) = []) then new_entry else restored_entry cfg e id) as N2.
    { intros id. rewrite N1. destruct (decide (en_checkpoint (entry e id) = [])) as [Hc|Hc].
      - rewrite (bool_decide_true (_ = [])), bool_decide_false; [done| |done]. by intros Hin%(committed_ids_spec cfg e He).
      - rewrite (bool_decide_false (_ = [])), bool_decide_true; [done| |done]. by apply (committed_ids_spec cfg e He). }
    split; cbn [with_dedupe eg_store eg_dedupe eg_sequence]; [by rewrite S1|done|done|..];
      intros id; by destruct (saved_restored cfg e e1 id (He id) (N2 id)) as (?&?&?&?).
  - rewrite D1. cbn [eg_dedupe]. by eapply restored_window.
  - done.
Qed.
