(* ===== verification/ResearchRuns.v ===== *)
(** * Runs of the research engine and what they leave to save

    The records a run logs fit the log, and the engine it leaves fits a snapshot:
    identifiers, counters and accounts stay in their ranges, results are numbered
    in the order they are remembered, and every agent is what its checkpoint says. *)

From Stdlib Require Import ZArith Lia Strings.Byte Strings.String.
From stdpp Require Import base decidable countable list gmap sorting.
From S2P Require Import Prelude GoText GoBinary GoVarint GoJson Errors GoOS KeyedStorage KeyedRecovery AccountAgent AgentLemmas AgentDelta AgentDeltaLemmas AgentTheorems Research ResearchLemmas ResearchEngine ResearchDedupe ResearchSystem ResearchLanes ResearchWal ResearchWalLemmas ResearchStorage ResearchSnapshot ResearchRestore.

Local Open Scope Z_scope.
Local Open Scope go_scope.

(** A command whose identifier the log and the snapshots can carry. *)
Record command_fits (c : Command) : Prop := {
  cf_ok : command_ok c;
  cf_tag : i64_range (nm_Tag (cm_Kind c));
  cf_text : utf8_valid (cm_ID c) = true;
  cf_length : zlen (cm_ID c) ≤ 2 ^ 20 }.

(** ** Decisions *)

Record decision_fits (g : goDecision) (aok bok : bool) : Prop := {
  df_reason : 0 ≤ gd_reason g ≤ 8;
  df_effect : 0 ≤ gd_effect g ≤ 4;
  df_first : gd_accepted g = true → 2 ≤ gd_effect g → aok = true;
  df_second : gd_accepted g = true → gd_effect g = 3 → bok = true }.

Lemma decideGo_fits c a aok b bok p : decision_fits (decideGo c a aok b bok p) aok bok.
Proof. unfold decideGo. destruct aok, bok; repeat case_match; split; cbn; intros; done || lia. Qed.

(** ** Records *)

(** A record that repeats its command and a decision that fits the accounts of [e]. *)
Record commits (cfg : Config) (e : Engine) (c : Command) (r : logRecord) : Prop := {
  cs_wal : wal_ok (expectedProgramID cfg) r;
  cs_result : result_ok (as_entry (memo r));
  cs_sequence : lr_Sequence r = u64 (eg_sequence e + 1);
  cs_agent : lr_AgentID r = cm_Account c;
  cs_first : rs_Accepted (lr_Result r) = true → 2 ≤ lr_EffectTag r → is_Some (so_accounts (eg_store e) !! lr_AccountA r);
  cs_second : rs_Accepted (lr_Result r) = true → lr_EffectTag r = 3 → is_Some (so_accounts (eg_store e) !! lr_AccountB r) }.

Lemma view1_some s id : (view1 s id).2 = true → is_Some (so_accounts s !! id).
Proof. unfold view1. by destruct (so_accounts s !! id). Qed.

Lemma validate_id c : ValidateCommand c = Ok tt → 0 < zlen (cm_ID c).
Proof.
  unfold ValidateCommand. destruct (bool_decide (cm_ID c = [])) eqn:E; [done|]. apply bool_decide_eq_false in E. intros _.
  destruct (cm_ID c); [done|]. unfold zlen. cbn [length]. lia.
Qed.

Lemma decideGo_status c a aok b bok p : i64_range (ac_Status a) → i64_range (gd_status (decideGo c a aok b bok p)).
Proof. intros Ha. unfold decideGo. repeat case_match; cbn [gd_status]; done || by vm_compute. Qed.

Lemma command_record_ok cfg e c program result effect x y st va vb cp delta :
  engine_ok cfg e → command_fits c → ValidateCommand c = Ok tt → program = expectedProgramID cfg →
  Forall i64_range [x; y; st] → Forall u64_range [va; vb] → rs_CommandID result = cm_ID c → rs_EffectTag result = effect → rs_Duplicate result = false →
  0 ≤ rs_ReasonTag result ≤ 8 → 0 ≤ effect ≤ 4 → 0 < rs_TransitionCount result < 2 ^ 63 →
  let r := with_sequence (command_record c program result effect x y st va vb cp delta) (u64 (eg_sequence e + 1)) in
  wal_ok (expectedProgramID cfg) r ∧ result_ok (as_entry (memo r)).
Proof.
  intros He [[_ Ha Ho Hm] Ht Hu Hl] Hv -> Hi Hw Hid Hef Hdu Hr Hf Hn r. pose proof (u64_bound (eg_sequence e + 1)) as Hs. forall_in Hi. forall_in Hw.
  subst effect. split; [split; [split|..]|split]; try done;
    cbn [r with_sequence command_record lr_Version lr_CommandKind lr_Amount lr_EffectTag lr_NewBalanceA lr_NewBalanceB lr_NewStatusTag lr_Result
      rs_ReasonTag rs_TransitionCount rs_Sequence rs_CommandID lr_Sequence lr_AgentID lr_AccountA lr_AccountB lr_ExpectedA lr_ExpectedB lr_SchemaID lr_ProgramID lr_CommandID
      as_entry memo sr_CommandID sr_Result fst snd].
  - unfold i64_range, m1WALVersion in *. foralls; lia.
  - by foralls.
  - foralls. unfold expectedProgramID. by case_match.
  - split; [by apply validate_id|done].
Qed.

(** The accounts of a store under their own identifiers and in their ranges. *)
Definition accounts_fit (s : Store) : Prop := ∀ id a, so_accounts s !! id = Some a → ac_ID a = id ∧ account_fits a.

Lemma view1_fits s id : accounts_fit s → account_fits (view1 s id).1.
Proof. intros H. unfold view1. destruct (so_accounts s !! id) as [a|] eqn:E; [by apply (H id)|]. split; by foralls. Qed.

Lemma go_commits cfg e c : cf_GoBehavioralControl cfg = true → engine_ok cfg e → accounts_fit (eg_store e) → command_fits c → ValidateCommand c = Ok tt →
  0 ≤ en_goTurns (entry e (cm_Account c)) < 2 ^ 63 - 1 → commits cfg e c (go_record cfg e c).
Proof.
  intros Hg He Ha Hc Hv Ht. unfold go_record, go_commit, view.
  destruct (view1_fits _ (cm_Account c) Ha) as [A1 A2]. destruct (view1_fits _ (cm_Other c) Ha) as [B1 B2].
  pose proof (view1_some (eg_store e) (cm_Account c)) as Sa. pose proof (view1_some (eg_store e) (cm_Other c)) as Sb.
  destruct (view1 (eg_store e) (cm_Account c)) as [a aok], (view1 (eg_store e) (cm_Other c)) as [b bok]. cbn [fst snd] in *.
  forall_in A1. forall_in A2. forall_in B1. forall_in B2. unfold processGoM1. cbv zeta. cbn [mc_record].
  set (p := en_goPending (entry e (cm_Account c))). destruct (decideGo_fits c a aok b bok p) as [G1 G2 G3 G4].
  destruct (decideGo_ok c a aok b bok p (cf_ok c Hc)) as [X Y]; [done..|]. pose proof (decideGo_status c a aok b bok p) as Z0.
  assert (i64 (en_goTurns (entry e (cm_Account c)) + 1) = en_goTurns (entry e (cm_Account c)) + 1) as Et by (apply i64_id; unfold i64_range; lia).
  match goal with |- commits _ _ _ (with_sequence (command_record _ ?pr ?re ?ef ?x ?y ?st ?va ?vb ?cp ?de) _) =>
    destruct (command_record_ok cfg e c pr re ef x y st va vb cp de He Hc Hv) as [W R]; try done end.
  - foralls. by apply Z0.
  - by foralls.
  - cbn [pending_result rs_TransitionCount]. rewrite Et. lia.
  - split; [done..| |].
    + intros Hacc Hef. by apply Sa, G3.
    + intros Hacc Hef. by apply Sb, G4.
Qed.

Lemma oct_commits cfg e c delta : cf_GoBehavioralControl cfg = false → engine_ok cfg e → accounts_fit (eg_store e) → command_fits c → ValidateCommand c = Ok tt →
  0 ≤ bd_TransitionCount (fl_board (da_machine (agent_of e (cm_Account c)))) < 2 ^ 63 - 1 → commits cfg e c (oct_record cfg e c delta).
Proof.
  intros Hg He Ha Hc Hv Ht. unfold oct_record, decision_record.
  destruct (committed_prior _ _ _ (i64_bound _) (eo_agent _ _ _ (ek_entry _ _ He (cm_Account c)) Hg)) as (_&_&Hf&_).
  pose proof (agrees_for e c _ (cf_ok c Hc) (board_pending_rel _ (fo_board _ Hf))) as Hag.
  destruct (oct_decision_shape cfg e c Hg He (cf_ok c Hc)) as [_ _ Hst Hi]. pose proof (decision_shape_ok _ (oct_decision_shape cfg e c Hg He (cf_ok c Hc))) as (_&_&[Hst' _]&_).
  unfold view in Hag. pose proof (view1_some (eg_store e) (cm_Account c)) as Sa. pose proof (view1_some (eg_store e) (cm_Other c)) as Sb.
  destruct (view1 (eg_store e) (cm_Account c)) as [a aok], (view1 (eg_store e) (cm_Other c)) as [b bok]. cbn [fst snd] in *.
  match type of Hag with decision_agrees _ (decideGo _ _ _ _ _ ?p) => destruct (decideGo_fits c a aok b bok p) as [G1 G2 G3 G4] end.
  destruct Hag as [D1 D2 D3 D4 D5 D6]. rewrite <- D2 in G1. rewrite <- D3 in G2. rewrite <- D1, <- D3 in G3, G4.
  assert (td_TransitionCount (oct_decision e c) = bd_TransitionCount (fl_board (da_machine (agent_of e (cm_Account c)))) + 1) as Et.
  { unfold oct_decision. rewrite turn_count. apply i64_id. unfold i64_range. lia. }
  unfold decision_ints in Hi. forall_in Hi.
  match goal with |- commits _ _ _ (with_sequence (command_record _ ?pr ?re ?ef ?x ?y ?st ?va ?vb ?cp ?de) _) =>
    destruct (command_record_ok cfg e c pr re ef x y st va vb cp de He Hc Hv) as [W R]; try done end.
  - unfold expectedProgramID. by rewrite Hg.
  - by foralls.
  - foralls; apply u64_bound.
  - cbn [pending_result rs_TransitionCount]. rewrite Et. lia.
  - split; [done..| |].
    + intros Hacc Hef. by apply Sa, G3.
    + intros Hacc Hef. by apply Sb, G4.
Qed.

(** ** The invariant *)

Definition turns_of (cfg : Config) (e : Engine) (id : Z) : Z :=
  if cf_GoBehavioralControl cfg then en_goTurns (entry e id) else bd_TransitionCount (fl_board (da_machine (agent_of e id))).

(** An engine that logged [log]. *)
Record saves (cfg : Config) (e : Engine) (log : list logRecord) : Prop := {
  sv_ok : engine_ok cfg e;
  sv_accounts : accounts_fit (eg_store e);
  sv_ledger : Forall ledger_fits (so_ledger (eg_store e));
  sv_sequence : eg_sequence e = zlen log;
  sv_remembers : remembers (cf_DedupeWindow cfg) (eg_dedupe e) (memo <$> last_n (cf_DedupeWindow cfg) log);
  sv_log : Forall (λ r, wal_ok (expectedProgramID cfg) r ∧ result_ok (as_entry (memo r))) log;
  sv_numbered : numbered_from 0 log;
  sv_saved : ∀ id, entry_saved cfg e id;
  sv_turns : ∀ id, 0 ≤ turns_of cfg e id ≤ zlen log }.

Lemma saves_same cfg e e' log : saves cfg e log → same_engine e' e → saves cfg e' log.
Proof.
  intros [H1 H2 H3 H4 H5 H6 H7 H8 H9] S. pose proof S as [S1 S2 S3 S4 S5 S6 S7]. split; try done.
  - by eapply engine_ok_same.
  - by rewrite S1.
  - by rewrite S1.
  - by rewrite S3.
  - by rewrite S2.
  - intros id. unfold entry_saved. rewrite S4, S5, S6, S7. apply H8.
  - intros id. unfold turns_of. rewrite S4, S7. apply H9.
Qed.

Lemma saves_new cfg : saves cfg new_engine [].
Proof.
  split; try done; try apply fresh_engine_ok.
  - unfold last_n. rewrite drop_nil. split; cbn; first [lia|apply NoDup_nil_2|reflexivity].
  - intros id. unfold turns_of. by destruct (cf_GoBehavioralControl cfg).
Qed.

(** ** A commit *)

Lemma bump_fits s id x st : accounts_fit s → is_Some (so_accounts s !! id) → i64_range x → i64_range st →
  let a := default zeroAccount (so_accounts s !! id) in ac_ID (bump a x st) = id ∧ account_fits (bump a x st).
Proof.
  intros H [a Ha] Hx Hst. rewrite Ha. cbn. destruct (H id a Ha) as [E [Hu _]]. split; [done|]. forall_in Hu. split; foralls; try done. apply u64_bound.
Qed.

Lemma apply_fits s r program : accounts_fit s → wal_ok program r → 1 ≤ lr_EffectTag r ≤ 4 →
  (2 ≤ lr_EffectTag r → is_Some (so_accounts s !! lr_AccountA r)) → (lr_EffectTag r = 3 → is_Some (so_accounts s !! lr_AccountB r)) →
  ∀ id a, apply_accounts (so_accounts s) r !! id = Some a → ac_ID a = id ∧ account_fits a.
Proof.
  intros Hs [[Hi Hu _ _ _ _ _] _ _ _] He Ha Hb. forall_in Hi. forall_in Hu. unfold apply_accounts. 
  assert (∀ i, is_Some (so_accounts s !! i) → i64_range (ac_Status (default zeroAccount (so_accounts s !! i)))
    ∧ i64_range (ac_Balance (default zeroAccount (so_accounts s !! i)))) as Hst.
  { intros i [a E]. rewrite E. cbn. destruct (Hs i a E) as [_ [_ Hba]]. by forall_in Hba. }
  pose proof (bump_fits s (lr_AccountA r)) as Fa. pose proof (bump_fits s (lr_AccountB r)) as Fb.
  intros id a. destruct (Z.eqb_spec (lr_EffectTag r) 1).
  { rewrite lookup_insert_Some. intros [[<- <-]|[_ Hl]]; [|by apply Hs]. split; [done|]. split; cbn; by foralls. }
  destruct (Hst (lr_AccountA r)) as [T1 T2]; [apply Ha; lia|]. specialize (Ha ltac:(lia)).
  destruct (Z.eqb_spec (lr_EffectTag r) 2).
  { rewrite lookup_insert_Some. intros [[<- <-]|[_ Hl]]; [by apply Fa|by apply Hs]. }
  destruct (Z.eqb_spec (lr_EffectTag r) 3) as [E3|].
  { rewrite !lookup_insert_Some. destruct (Hst (lr_AccountB r)) as [T3 T4]; [by apply Hb|]. specialize (Hb E3).
    intros [[<- <-]|[_ [[<- <-]|[_ Hl]]]]; [by apply Fb|by apply Fa|by apply Hs]. }
  rewrite lookup_insert_Some. intros [[<- <-]|[_ Hl]]; [by apply Fa|by apply Hs].
Qed.

Lemma store_apply_fits cfg e c r : accounts_fit (eg_store e) → Forall ledger_fits (so_ledger (eg_store e)) → commits cfg e c r →
  accounts_fit (store_apply (eg_store e) r) ∧ Forall ledger_fits (so_ledger (store_apply (eg_store e) r)).
Proof.
  intros Ha Hl [Hw _ _ _ H1 H2]. unfold store_apply. destruct (rs_Accepted (lr_Result r)); [|done]. cbn [negb].
  destruct ((lr_EffectTag r <? 1) || (4 <? lr_EffectTag r)) eqn:Ee; [done|]. apply orb_false_iff in Ee. cbn [so_accounts so_ledger]. split.
  - intros id a. eapply apply_fits; [done|exact Hw|lia|by apply H1|by apply H2].
  - apply Forall_app. split; [done|]. apply Forall_singleton. destruct Hw as [[Hi Hu Ht _ _ _ _] _ _ _]. forall_in Hi. forall_in Hu. forall_in Ht.
    split_and!; cbn; try done; by foralls.
Qed.

Lemma saves_committed cfg e log c r n e' : saves cfg e log → commits cfg e c r → committed cfg e r n e' → engine_ok cfg e' →
  dd_results (eg_dedupe e) !! lr_CommandID r = None → zlen log < 2 ^ 63 - 1 → entry_saved cfg e' (cm_Account c) →
  turns_of cfg e' (cm_Account c) = turns_of cfg e (cm_Account c) + 1 → saves cfg e' (log ++ [r]).
Proof.
  intros [H1 H2 H3 H4 H5 H6 H7 H8 H9] Hcs [C1 C2 C3 C4 C5 C6] He' Hn Hb Hsv Ht. pose proof Hcs as [K1 K2 K3 K4 _ _]. rewrite K4 in C5, C6.
  destruct (store_apply_fits cfg e c r H2 H3 Hcs) as [A1 A2].
  assert (lr_Sequence r = zlen log + 1) as Hseq by (rewrite K3, H4; apply u64_id; unfold u64_range, zlen in *; lia).
  assert (zlen (log ++ [r]) = zlen log + 1) as Hlen by (unfold zlen; rewrite length_app; cbn; lia).
  split; [done|by rewrite C1|by rewrite C1|by rewrite C3, Hseq, Hlen|rewrite C2; by apply remember_committed|..].
  - apply Forall_app. split; [done|by apply Forall_singleton].
  - apply numbered_join; [done|]. cbn. split; [lia|done].
  - intros id. destruct (decide (cm_Account c = id)) as [<-|Hne]; [done|]. specialize (H8 id). unfold entry_saved, agent_of in *. by rewrite C6.
  - intros id. destruct (decide (cm_Account c = id)) as [<-|Hne]; [rewrite Ht, Hlen; specialize (H9 (cm_Account c)); lia|].
    specialize (H9 id). unfold turns_of, agent_of in *. rewrite C6 by done. lia.
Qed.

Lemma go_saves cfg e log c e' : cf_GoBehavioralControl cfg = true → saves cfg e log → command_fits c → ValidateCommand c = Ok tt →
  zlen log < 2 ^ 63 - 1 → dd_results (eg_dedupe e) !! cm_ID c = None → engine_ok cfg e' →
  committed cfg e (go_record cfg e c) (go_entry e c) e' → saves cfg e' (log ++ [go_record cfg e c]).
Proof.
  intros Hg Hsv Hc Hv Hb Hn He' Hcd. pose proof (sv_turns _ _ _ Hsv (cm_Account c)) as Ht. unfold turns_of in Ht. rewrite Hg in Ht.
  assert (commits cfg e c (go_record cfg e c)) as Hcs by (apply go_commits; try done; [apply Hsv..|lia]).
  pose proof (cd_entry _ _ _ _ _ Hcd) as Hen. rewrite (cs_agent _ _ _ _ Hcs) in Hen.
  eapply saves_committed; try done; [by rewrite go_record_id|..].
  - pose proof (sv_saved _ _ _ Hsv (cm_Account c)) as Hold. unfold entry_saved, agent_of in *. rewrite Hen, Hg. rewrite Hg in Hold.
    destruct (eo_pending _ _ _ (ek_entry _ _ He' (cm_Account c))) as (P1&P2&P3). rewrite Hen in P1, P2, P3.
    change (en_machine (go_entry e c)) with (en_machine (entry e (cm_Account c))).
    change (en_checkpoint (go_entry e c)) with (print (goAgentCheckpoint_json (en_goPending (go_entry e c)) (en_goTurns (go_entry e c)))).
    rewrite bool_decide_false. 2:{ destruct (print_head (goAgentCheckpoint_json (en_goPending (go_entry e c)) (en_goTurns (go_entry e c)))) as (b&l&->&_); [cbn; eauto 10|done]. }
    split; [apply Hc|]. split; [case_bool_decide; apply Hold|]. by apply unmarshal_goAgentCheckpoint_ok.
  - unfold turns_of. rewrite Hg, Hen. cbn [go_entry en_goTurns]. apply i64_id. unfold i64_range. lia.
Qed.

Lemma oct_saves cfg e log c e' delta m' : cf_GoBehavioralControl cfg = false → saves cfg e log → command_fits c → ValidateCommand c = Ok tt →
  zlen log < 2 ^ 63 - 1 → dd_results (eg_dedupe e) !! cm_ID c = None → engine_ok cfg e' → oct_checkpoint e c ≠ [] →
  committed_at (i64 (cm_Account c)) (Some (oct_checkpoint e c)) m' →
  da_machine m' = flow_after (da_machine (agent_of e (cm_Account c))) (seen_context e c) →
  committed cfg e (oct_record cfg e c delta)
    {| en_machine := Some m'; en_checkpoint := oct_checkpoint e c; en_goPending := en_goPending (entry e (cm_Account c));
       en_goTurns := en_goTurns (entry e (cm_Account c)) |} e' →
  saves cfg e' (log ++ [oct_record cfg e c delta]).
Proof.
  intros Hg Hsv Hc Hv Hb Hn He' Hne Hm Hmm Hcd. pose proof (sv_turns _ _ _ Hsv (cm_Account c)) as Ht. unfold turns_of in Ht. rewrite Hg in Ht.
  assert (commits cfg e c (oct_record cfg e c delta)) as Hcs by (apply oct_commits; try done; [apply Hsv..|lia]).
  pose proof (cd_entry _ _ _ _ _ Hcd) as Hen. rewrite (cs_agent _ _ _ _ Hcs) in Hen. eapply saves_committed; try done.
  - pose proof (sv_saved _ _ _ Hsv (cm_Account c)) as Hold. unfold entry_saved, agent_of in *. rewrite Hen, Hg. rewrite Hg in Hold.
    cbn [en_machine en_checkpoint en_goPending en_goTurns default]. rewrite bool_decide_false by done. split; [apply Hc|].
    destruct (committed_parse _ _ _ Hm) as [-> ->]. split_and!; try done; case_bool_decide; apply Hold.
  - unfold turns_of. rewrite Hg. unfold agent_of at 1. rewrite Hen. cbn [en_machine from_option id]. rewrite Hmm. cbn [flow_after fl_board].
    rewrite turn_board_count. apply i64_id. unfold i64_range. lia.
Qed.

(** ** Runs *)

Lemma execute_saves cfg append e c e' l o log : saves cfg e log → command_fits c → zlen log < 2 ^ 63 - 1 →
  execute cfg no_failure append e c = (e', l, o) → saves cfg e' (log ++ l) ∧ zlen l ≤ 1.
Proof.
  intros Hs Hc Hb Hx. destruct (ValidateCommand c) as [[]|err] eqn:Hv.
  2:{ unfold execute in Hx. rewrite Hv in Hx. simplify_eq. by rewrite app_nil_r. }
  destruct (execute_log _ _ _ _ _ _ _ (sv_ok _ _ _ Hs) (cf_ok c Hc) Hx) as [He' _].
  assert (same_engine e' e → saves cfg e' (log ++ []) ∧ zlen (@nil logRecord) ≤ 1) as Hquiet by (intros S; rewrite app_nil_r; split; [by eapply saves_same|done]).
  destruct (cf_GoBehavioralControl cfg) eqn:Hg.
  - destruct (go_step cfg append e c Hg Hv) as (e1&l1&o1&E&C). rewrite E in Hx. simplify_eq.
    destruct C as [e1 err S|e1 prior S|e1 err S|e1 Hp Ha Hn Hcd]; [by apply Hquiet..|]. split; [by apply go_saves|done].
  - destruct (oct_step cfg append e c Hg (sv_ok _ _ _ Hs) (cf_ok c Hc) Hv) as (e1&l1&o1&E&C). rewrite E in Hx. simplify_eq.
    destruct C as [e1 err _ S _|e1 err _ S _ _|e1 prior _ S _ _ _|e1 err _ S _ _ _ _|e1 delta m' _ _ _ Hn _ _ Hm Hmm Hcd]; [by apply Hquiet..|].
    split; [|done]. pose proof (oct_checkpoint_nonempty cfg e c Hg (sv_ok _ _ _ Hs) (cf_ok c Hc)) as Hne. by eapply oct_saves.
Qed.

Lemma run_saves cfg cs e e' l os log : saves cfg e log → Forall (λ ca : Command * option gerror, command_fits ca.1) cs →
  zlen log + zlen cs < 2 ^ 63 → run cfg e cs = (e', l, os) → saves cfg e' (log ++ l) ∧ zlen l ≤ zlen cs.
Proof.
  revert e e' l os log. induction cs as [|[c append] cs IH]; intros e e' l os log Hs Hc Hb Hr; cbn [run] in Hr.
  { simplify_eq. by rewrite app_nil_r. }
  apply Forall_cons in Hc as [Hc Hcs]. destruct (execute cfg no_failure append e c) as [[e1 l1] o1] eqn:Ex.
  destruct (run cfg e1 cs) as [[e2 l2] os2] eqn:Er. simplify_eq. unfold zlen in *. cbn [length] in Hb |- *. cbn [fst] in Hc.
  destruct (execute_saves _ _ _ _ _ _ _ _ Hs Hc ltac:(unfold zlen; lia) Ex) as [H1 Hl]. unfold zlen in Hl.
  destruct (IH _ _ _ _ (log ++ l1) H1 Hcs ltac:(rewrite length_app; lia) Er) as [H2 Hl2].
  rewrite app_assoc. split; [done|]. rewrite length_app. lia.
Qed.

(** ** Snapshots of a run *)

Lemma numbered_ordered k rs prior : numbered_from k rs → Forall (λ r, rs_Sequence (lr_Result r) = lr_Sequence r) rs → prior ≤ k →
  ordered_above prior (map (as_entry ∘ memo) rs).
Proof.
  revert k prior. induction rs as [|r rs IH]; intros k prior Hn Hs Hp; [done|]. destruct Hn as [E Hn]. apply Forall_cons in Hs as [Hr Hs].
  cbn [map ordered_above]. cbn [compose as_entry memo snd sr_Result]. rewrite Hr. split; [lia|]. apply (IH (k + 1)); [done|done|lia].
Qed.

Lemma wal_remembered program r : wal_ok program r → remembered_fits (as_entry (memo r)).
Proof.
  intros [[Hi Hu Ht H1 H2 H3 _] _ _ _]. forall_in Hi. forall_in Hu. forall_in Ht. split; [done|]. cbn [as_entry memo snd sr_Result].
  split; [by rewrite H1|]. split; [|by rewrite H2]. foralls. by rewrite H3.
Qed.

Lemma saves_snapshotable cfg e log : saves cfg e log → 0 < Z.of_nat (cf_DedupeWindow cfg) < 2 ^ 32 → snapshotable cfg e.
Proof.
  intros [H1 H2 H3 H4 H5 H6 H7 H8 H9] Hw. split; try done; [apply H1|]. set (W := cf_DedupeWindow cfg) in *.
  exists (memo <$> last_n W log). split; [done|].
  assert (Forall (λ r, wal_ok (expectedProgramID cfg) r ∧ result_ok (as_entry (memo r))) (last_n W log)) as Hl by by apply Forall_drop.
  change (map as_entry (memo <$> last_n W log)) with (as_entry <$> (memo <$> last_n W log)). rewrite <- list_fmap_compose.
  unfold last_n in *. rewrite <- (take_drop (length log - W) log) in H7. apply numbered_app in H7 as [_ H7].
  pose proof (numbered_bounds _ _ H7) as O2. assert (ordered_above 0 (map (as_entry ∘ memo) (drop (length log - W) log))) as O1.
  { apply (numbered_ordered _ _ _ H7); [|unfold zlen; lia]. eapply Forall_impl; [exact Hl|]. cbn. intros r [[Hlo _ _ _] _]. apply Hlo. }
  split; [|split; [exact O1|]]; apply Forall_fmap; eapply Forall_impl; [exact Hl| |apply Forall_and; split; [exact Hl|exact O2]|]; cbn.
  - intros r [Hwal Hres]. split; [done|by eapply wal_remembered].
  - intros r [[[Hlo _ _ _] _] Hle]. rewrite (lo_sequence _ Hlo), H4. unfold zlen in *. rewrite length_take, length_drop in Hle. lia.
Qed.

(** ** Replaying over a restored engine *)

Definition remember_all (W : nat) (d : dedupe) (rs : list logRecord) : dedupe :=
  foldl (λ d r, rememberResult W d (lr_CommandID r) (lr_Result r)) d rs.

(** The records a replay takes do not depend on what is remembered. *)
Lemma replay_with cfg e rs e' d : replay cfg e rs = Ok e' →
  eg_dedupe e' = remember_all (cf_DedupeWindow cfg) (eg_dedupe e) rs
  ∧ replay cfg (with_dedupe e d) rs = Ok (with_dedupe e' (remember_all (cf_DedupeWindow cfg) d rs)).
Proof.
  unfold replay. revert e d. induction rs as [|r rs IH]; intros e d H; cbn [res_fold remember_all foldl] in *; [by simplify_eq|].
  destruct (replay_record cfg e r) as [e1|] eqn:E; [|done]. cbn [res_bind] in H.
  assert (eg_dedupe e1 = rememberResult (cf_DedupeWindow cfg) (eg_dedupe e) (lr_CommandID r) (lr_Result r)
    ∧ replay_record cfg (with_dedupe e d) r = Ok (with_dedupe e1 (rememberResult (cf_DedupeWindow cfg) d (lr_CommandID r) (lr_Result r)))) as [E1 ->].
  { unfold replay_record in *. change (entry (with_dedupe e d) (lr_AgentID r)) with (entry e (lr_AgentID r)). cbn [with_dedupe eg_sequence eg_store eg_dedupe eg_registry eg_poisoned].
    unfold guard_err in *. destruct (negb _); [done|]. cbn [res_bind] in *.
    match goal with |- context [let! n := ?m in Ok _] => destruct m as [n|]; [|done] end. cbn [res_bind] in *. by simplify_eq. }
  cbn [res_bind]. destruct (IH e1 (rememberResult (cf_DedupeWindow cfg) d (lr_CommandID r) (lr_Result r)) H) as [H1 H2].
  split; [by rewrite H1, E1|exact H2].
Qed.

Lemma same_window_all W rs d1 d2 : same_window d1 d2 → same_window (remember_all W d1 rs) (remember_all W d2 rs).
Proof. revert d1 d2. induction rs as [|r rs IH]; intros d1 d2 H; [done|]. apply IH. by apply same_window_remember. Qed.

Lemma with_dedupe_self e d : with_dedupe (with_dedupe e d) (eg_dedupe e) = e.
Proof. by destruct e. Qed.

(** Records that lead engines like [e] to engines like [e'] lead engines that
    resemble [e] to engines that resemble [e']. *)
Lemma log_resembles cfg e e' l e2 : (∀ e2, same_engine e e2 → ∃ e2', replay cfg e2 l = Ok e2' ∧ same_engine e' e2') →
  resembles e e2 → ∃ e2', replay cfg e2 l = Ok e2' ∧ resembles e' e2'.
Proof.
  intros H [Hs Hw]. destruct (H _ Hs) as (e3&R&S). destruct (replay_with _ _ _ _ (eg_dedupe e2) R) as [E1 E2]. rewrite with_dedupe_self in E2.
  eexists. split; [exact E2|]. pose proof (se_dedupe _ _ S) as Hd. split; rewrite Hd; [by rewrite with_dedupe_self|]. rewrite E1. by apply same_window_all.
Qed.

Lemma run_resembles cfg cs e e' l os e2 : engine_ok cfg e → Forall (λ ca : Command * option gerror, command_ok ca.1) cs →
  run cfg e cs = (e', l, os) → resembles e e2 → ∃ e2', replay cfg e2 l = Ok e2' ∧ resembles e' e2'.
Proof. intros He Hc Hr. apply log_resembles. by apply (run_log cfg cs e e' l os). Qed.

Lemma execute_resembles cfg append c e e' l o e2 : engine_ok cfg e → command_ok c →
  execute cfg no_failure append e c = (e', l, o) → resembles e e2 → ∃ e2', replay cfg e2 l = Ok e2' ∧ resembles e' e2'.
Proof. intros He Hc Hx. apply log_resembles. by apply (execute_log cfg append e c e' l o). Qed.

Lemma replay_poisoned cfg e l e' : replay cfg e l = Ok e' → eg_poisoned e' = eg_poisoned e.
Proof.
  unfold replay. revert e. induction l as [|r l IH]; intros e H; cbn [res_fold] in H; [by injection H as <-|].
  destruct (replay_record cfg e r) as [e1|] eqn:E; [|done]. cbn [res_bind] in H. rewrite (IH _ H). clear H. unfold replay_record, guard_err in E.
  destruct (negb _); [done|]. cbn [res_bind] in E. match type of E with context [let! n := ?m in Ok _] => destruct m as [n|]; [|done] end. by injection E as <-.
Qed.

(** ** Resemblance *)

#[export] Instance resembles_sym : Symmetric resembles.
Proof.
  intros e1 e2 [[S1 S2 S3 S4 S5 S6 S7] [W1 W2 W3 W4]]. split; [|by split]. split; try done; symmetry; first [apply S4|apply S5|apply S6|apply S7].
Qed.
#[export] Instance resembles_trans : Transitive resembles.
Proof.
  intros e1 e2 e3 [[S1 S2 S3 S4 S5 S6 S7] [W1 W2 W3 W4]] [[T1 T2 T3 T4 T5 T6 T7] [V1 V2 V3 V4]].
  split; [|split; [by rewrite W1|by rewrite W2|done|done]]. split; cbn [with_dedupe eg_store eg_dedupe eg_sequence] in *; try congruence; intros id;
    etrans; first [apply S4|apply S5|apply S6|apply S7|apply T4|apply T5|apply T6|apply T7].
Qed.

Lemma saves_resembles cfg e e' log : saves cfg e log → resembles e e' → saves cfg e' log.
Proof.
  intros H [Hs [W1 W2 W3 W4]]. assert (saves cfg (with_dedupe e' (eg_dedupe e)) log) as H' by (eapply saves_same; [exact H|by symmetry]).
  destruct H' as [[K1 K2 K3] H2 H3 H4 H5 H6 H7 H8 H9]. split; try done. destruct H5 as [R1 R2 R3 R4 R5]. cbn [with_dedupe eg_dedupe] in *.
  split; [done|by rewrite <- W2|by rewrite <- W1|done|done].
Qed.
