(* ===== verification/ResearchSnapshotStorage.v ===== *)
(** * Snapshots in the directory of the research engine

    Installing a snapshot makes it the newest, retiring segments removes those it
    covers, and the newest snapshot is read back as it was written. *)

From Stdlib Require Import ZArith Lia Strings.Byte Strings.String.
From stdpp Require Import base decidable countable list gmap sorting.
From S2P Require Import Prelude GoText GoBinary GoVarint GoJson Errors GoOS KeyedStorage KeyedRecovery AccountAgent AgentLemmas Research ResearchEngine ResearchWal ResearchWalLemmas ResearchStorage ResearchStorageLemmas ResearchStorageSystem.

Local Open Scope Z_scope.
Local Open Scope go_scope.

#[local] Opaque frame_snapshot encodeSegmentHeader encodeSegmentFooter frame crc32 content.

(** ** Calls that succeed *)

Lemma rename_ok old new w w' : rename old new w = (Ok tt, w') →
  ∃ i, w_dir w !! old = Some i ∧ files_of w' = (<[new := i]> (delete old (w_dir w)), w_inodes w, w_next w).
Proof.
  unfold rename. intros H. apply call_ok in H as (w1&E&H). injection E as E1 E2 E3. rewrite E1 in H. destruct (w_dir w !! old) as [i|]; [|done].
  injection H as <-. exists i. split; [done|]. unfold files_of. cbn. by rewrite E2, E3.
Qed.

Lemma remove_ok path w w' : remove path w = (Ok tt, w') → files_of w' = (delete path (w_dir w), w_inodes w, w_next w).
Proof.
  unfold remove. intros H. apply call_ok in H as (w1&E&H). injection E as E1 E2 E3. destruct (w_dir w1 !! path); [|done].
  injection H as <-. unfold files_of. cbn. by rewrite E1, E2, E3.
Qed.

Lemma read_file_ok path w data w' : read_file path w = (Ok data, w') →
  ∃ i, w_dir w !! path = Some i ∧ data = content (inode i w) ∧ files_of w' = files_of w.
Proof.
  unfold read_file. destruct (w_dir w !! path) as [i|]; [|done]. intros H. apply call_ok in H as (w1&E&H). injection H as <- <-.
  exists i. split; [done|]. split; [|done]. injection E as _ E _. unfold inode. by rewrite E.
Qed.

Lemma attempt_ok {A} (m : io A) s w r s' w' : sio_io (attempt m) s w = (Ok r, s', w') → s' = s ∧ m w = (r, w').
Proof. unfold sio_io, attempt. destruct (m w). by intros [= <- <- <-]. Qed.

(** ** Installing *)

(** The world after a snapshot was written, synchronized and renamed. *)
Definition installed (w : world) (q : Z) (payload : bytes) (w' : world) : Prop :=
  ∃ f, files_of w' = (<[snapshot_path q := w_next w]> (w_dir w), <[w_next w := f]> (w_inodes w), S (w_next w))
    ∧ content f = frame_snapshot payload ∧ pending f = [].

Lemma installSnapshot_ok q payload s w path s' w' : installSnapshot no_failure q payload s w = (Ok path, s', w') →
  path = snapshot_path q ∧ s' = s ∧ installed w q payload w'.
Proof.
  intros E. unfold installSnapshot in E. fold (snapshot_path q) in E. set (tmp := snapshot_path q ++ bs ".tmp") in E.
  apply sio_bind_ok in E as (i&s1&w1&E1&E). apply sio_io_ok in E1 as [-> E1]. apply create_excl_ok in E1 as (Hn&Hi&E1).
  apply sio_bind_ok in E as ([]&s2&w2&E2&E). injection E2 as <- <-.
  apply sio_bind_ok in E as (written&s2&w2&E2&E). apply attempt_ok in E2 as [-> E2].
  apply sio_bind_ok in E as (closed&s3&w3&E3&E). apply attempt_ok in E3 as [-> E3].
  apply sio_bind_ok in E as ([]&s4&w4&E4&E). destruct written as [[]|]; [|done]. destruct closed as [[]|]; [|done]. injection E4 as <- <-.
  apply sio_bind_ok in E as ([]&s5&w5&E5&E). injection E5 as <- <-. apply sio_bind_ok in E as ([]&s5&w5&E5&E). apply sio_io_ok in E5 as [-> E5].
  apply sio_bind_ok in E as ([]&s6&w6&E6&E). injection E6 as <- <-. injection E as <- <- <-. split; [done|]. split; [done|].
  apply io_bind_ok in E2 as ([]&w7&E2&E7). apply append_file_ok in E2. apply sync_file_ok in E7. apply close_file_ok in E3. apply rename_ok in E5 as (j&Hj&E5).
  rewrite (inode_set _ _ _ _ _ _ E1) in E2. pose proof (inode_set _ _ _ _ _ _ E2) as Hf. rewrite Hf in E7.
  set (f := settle _) in E7. exists f. split; [|split; [|done]].
  - injection E1 as A1 A2 A3. injection E2 as B1 B2 B3. injection E7 as C1 C2 C3. injection E3 as D1 D2 D3.
    rewrite E5, D1, D2, D3, C1, C2, C3, B1, B2, B3, A1, A2, A3, !insert_insert_eq. rewrite D1, C1, B1, A1, lookup_insert_eq in Hj. injection Hj as <-.
    by rewrite delete_insert_id, Hi by done.
  - unfold f. rewrite content_settle, content_append. done.
Qed.

(** The identifiers of the snapshots with a new newest one. *)
Lemma sorted_with (ids : list Z) q : StronglySorted Z.lt ids → (∀ l, last ids = Some l → l ≤ q) →
  ∃ ids', StronglySorted Z.lt ids' ∧ last ids' = Some q ∧ ∀ z, z ∈ ids' ↔ z ∈ ids ∨ z = q.
Proof.
  intros Hs Hl. destruct (decide (last ids = Some q)) as [E|Hne].
  { exists ids. split; [done|]. split; [done|]. intros z. apply last_Some in E as [l ->]. set_solver. }
  exists (ids ++ [q]). split; [|split; [apply last_snoc|set_solver]]. apply StronglySorted_app_2; [|done|repeat constructor].
  intros x y Hx ->%list_elem_of_singleton. destruct ids as [|a ids _] using rev_ind; [set_solver|].
  rewrite last_snoc in Hne. specialize (Hl a ltac:(by rewrite last_snoc)). apply elem_of_app in Hx as [Hx|Hx].
  - pose proof (StronglySorted_app_1_elem_of _ _ _ x a Hs Hx ltac:(set_solver)). lia.
  - apply list_elem_of_singleton in Hx as ->. assert (a ≠ q) by congruence. lia.
Qed.

Lemma snapped_install w latest q payload w' : snapped w latest → u64_range q → zlen payload < 2 ^ 64 → (∀ q0 p0, latest = Some (q0, p0) → q0 ≤ q) →
  installed w q payload w' → snapped w' (Some (q, payload)).
Proof.
  intros (ids&[L1 L2]&Hs&H) Hu Hz Hq (f&[= E1 E2 E3]&Hc&Hp). assert (∀ l, last ids = Some l → l ≤ q) as Hl.
  { intros l El. destruct latest as [[q0 p0]|]; [|by rewrite H in El]. destruct H as (H&_). rewrite H in El. injection El as <-. by eapply Hq. }
  destruct (sorted_with ids q Hs Hl) as (ids'&Hs'&Hl'&Hin). exists ids'. split; [split|split; [done|split; [done|split; [done|]]]].
  - intros path i id. rewrite E1. intros [[<- <-]|[Hne Hi]]%lookup_insert_Some Hid.
    + rewrite snapshot_of_path in Hid by done. injection Hid as <-. split; [done|]. apply Hin. by right.
    + destruct (L1 _ _ _ Hi Hid) as [-> ?]. split; [done|]. apply Hin. by left.
  - apply Forall_forall. intros z [Hz'| ->]%Hin; rewrite E1.
    + rewrite Forall_forall in L2. destruct (L2 z Hz') as [Hzu [j Hj]]. split; [done|]. destruct (decide (snapshot_path z = snapshot_path q)) as [->|Hne];
        [rewrite lookup_insert_eq|rewrite lookup_insert_ne by done]; eauto.
    + split; [done|]. rewrite lookup_insert_eq. eauto.
  - exists (w_next w). rewrite E1, lookup_insert_eq. split; [done|]. unfold inode. by rewrite E2, lookup_insert_eq.
Qed.

Lemma snapshot_path_inside q : strip snapshot_dir (snapshot_path q) = Some (snapshotName q).
Proof. unfold snapshot_path. apply strip_app. Qed.
Lemma snapshot_path_segment q id : snapshot_path q ≠ segment_path id.
Proof. intros E. pose proof (segment_not_snapshot id) as H. by rewrite <- E, snapshot_path_inside in H. Qed.

Lemma disk_install base latest program w closed q payload w' :
  disk base latest program w closed None → u64_range q → zlen payload < 2 ^ 64 → (∀ q0 p0, latest = Some (q0, p0) → q0 ≤ q) →
  installed w q payload w' → disk base (Some (q, payload)) program w' closed None.
Proof.
  intros [H1 H2 H3 H4 H5 H6 H7 H8 H9 H10] Hu Hz Hq Hi. pose proof (snapped_install _ _ _ _ _ H10 Hu Hz Hq Hi) as Hs.
  destruct Hi as (f&[= E1 E2 E3]&_&_). assert (∀ p, w_dir w !! p ≠ Some (w_next w)) as Hfresh by (intros p Hp; apply H6 in Hp; lia).
  assert (∀ id, w_dir w' !! segment_path id = w_dir w !! segment_path id) as Hseg by (intros id; rewrite E1, lookup_insert_ne by apply snapshot_path_segment; done).
  split; try done; rewrite ?E1, ?E3.
  - destruct H1 as [L1 L2]. split.
    + intros path i id [[<- <-]|[_ Hp]]%lookup_insert_Some Hid; [|by apply (L1 path i)]. by rewrite snapshot_no_segment in Hid by by rewrite snapshot_path_inside.
    + eapply Forall_impl; [exact L2|]. cbn. intros z [? ?]. split; [done|]. rewrite lookup_insert_ne by apply snapshot_path_segment. done.
  - eapply Forall_impl; [exact H3|]. intros d (i&Hi&?). exists i. assert (inode i w' = inode i w) as ->.
    { unfold inode. rewrite E2, lookup_insert_ne; [done|]. intros <-. by apply Hfresh in Hi. }
    by rewrite Hseg.
  - intros p p' i [[<- <-]|[Hp1 Hp]]%lookup_insert_Some [[<- Hj]|[Hp2 Hp']]%lookup_insert_Some; [done| | |by eapply H5].
    + by apply Hfresh in Hp'.
    + subst i. by apply Hfresh in Hp.
  - intros p i [[<- <-]|[_ Hp]]%lookup_insert_Some; [lia|]. apply H6 in Hp. lia.
Qed.

(** ** Retiring *)

(** The parts of a directory that do not depend on where its records begin. *)
Record closed_disk (latest : option (Z * bytes)) (program : bytes) (w : world) (closed : list segment) : Prop := {
  cd_lists : lists (w_dir w) closed.*1;
  cd_sorted : StronglySorted Z.lt closed.*1;
  cd_closed : Forall (closed_in program w) closed;
  cd_inj : ∀ p q i, w_dir w !! p = Some i → w_dir w !! q = Some i → p = q;
  cd_next : ∀ p i, w_dir w !! p = Some i → (i < w_next w)%nat;
  cd_snap : snapped w latest }.

Lemma closed_disk_files latest program w w' closed : files_of w' = files_of w → closed_disk latest program w closed → closed_disk latest program w' closed.
Proof.
  intros [= E1 E2 E3] [H1 H2 H3 H4 H5 H6]. assert (∀ i, inode i w' = inode i w) as Hi by (intros i; unfold inode; by rewrite E2).
  split; rewrite ?E1, ?E3; try done.
  - eapply Forall_impl; [exact H3|]. intros d (i&?&?). exists i. by rewrite E1, Hi.
  - apply (snapped_keep w); [done|intros; by rewrite E1|intros; by rewrite Hi].
Qed.

Lemma closed_disk_remove latest program w w' d closed : closed_disk latest program w (d :: closed) →
  files_of w' = (delete (segment_path d.1) (w_dir w), w_inodes w, w_next w) → closed_disk latest program w' closed.
Proof.
  intros [[L1 L2] H2 H3 H4 H5 H6] [= E1 E2 E3]. apply Forall_cons in L2 as [[Hu _] L2]. cbn in H2. apply StronglySorted_cons in H2 as [Hlt H2].
  apply Forall_cons in H3 as [_ H3]. assert (∀ i, inode i w' = inode i w) as Hi by (intros i; unfold inode; by rewrite E2).
  assert (Forall (λ c : segment, segment_path d.1 ≠ segment_path c.1) closed) as Hne.
  { apply Forall_forall. intros c Hc E. rewrite Forall_forall in Hlt, L2. specialize (Hlt c.1 ltac:(set_solver)). destruct (L2 c.1 ltac:(set_solver)) as [Hcu _].
    apply (segment_path_inj _ _ Hu Hcu) in E. lia. }
  split; rewrite ?E1, ?E3; [|done|..].
  - split.
    + intros path i id [Hp Hl]%lookup_delete_Some Hid. destruct (L1 _ _ _ Hl Hid) as [-> Hin]. split; [done|]. apply elem_of_cons in Hin as [->|]; done.
    + rewrite Forall_forall in Hne. rewrite Forall_forall in L2 |- *. intros z Hz. destruct (L2 z Hz) as [? ?]. apply list_elem_of_fmap in Hz as (c&->&Hc).
      by rewrite lookup_delete_ne by by apply Hne.
  - rewrite Forall_forall in H3, Hne |- *. intros c Hc. destruct (H3 c Hc) as (i&?&?). exists i. rewrite E1, lookup_delete_ne, Hi by by apply Hne. done.
  - intros p q i [_ Hp]%lookup_delete_Some [_ Hq]%lookup_delete_Some. by eapply H4.
  - intros p i [_ Hp]%lookup_delete_Some. by eapply H5.
  - apply (snapped_keep w); [done| |intros; by rewrite Hi]. intros path [q Hq]. rewrite E1, lookup_delete_ne; [done|]. intros <-. by rewrite segment_no_snapshot in Hq.
Qed.

Lemma footer_fields data last n : check_footer data = Ok (Some (last, n)) →
  let f := drop (length data - segmentFooterSize) data in Nat.ltb (length data) segmentFooterSize = false ∧ take 8 f = m1EndMagic ∧ be_at f 8 8 = last.
Proof.
  unfold check_footer. cbv zeta. destruct (_ && _) eqn:E; [|done]. apply andb_true_iff in E as [E1 E2]. apply bool_decide_eq_true in E2. apply Nat.leb_le in E1.
  destruct (negb _); [done|]. intros [= <- _]. split; [|done]. apply Nat.ltb_ge. lia.
Qed.

Lemma retire_files_ok latest program s q closed w w' : closed_disk latest program w closed → st_file s = None →
  Forall (λ d : segment, d.1 + zlen d.2 ≤ q + 1) closed →
  retire_files s q (map (λ d : segment, (d.1, segment_path d.1)) closed) w = (Ok tt, w') → closed_disk latest program w' [].
Proof.
  intros H Hf. revert w H. induction closed as [|d closed IH]; intros w H Hb E; [by injection E as <-|]. apply Forall_cons in Hb as [Hd Hb].
  cbn [map retire_files] in E. apply io_bind_ok in E as (data&w1&E1&E). apply read_file_ok in E1 as (i&Hi&->&E1).
  pose proof (cd_closed _ _ _ _ H) as Hc. apply Forall_cons in Hc as [(j&Hj&_&_&last&n&Hft&Hlt) _]. rewrite Hi in Hj. injection Hj as <-.
  destruct (footer_fields _ _ _ Hft) as (F1&F2&F3). cbv zeta in E. rewrite F1, F2, F3, bool_decide_true, (bool_decide_true (st_file s = None)) in E by done.
  rewrite (proj2 (Z.leb_le last q)) in E by lia. cbn [orb negb andb] in E. apply io_bind_ok in E as ([]&w2&E2&E). apply remove_ok in E2.
  apply (IH w2); [|done|done]. eapply closed_disk_remove; [exact (closed_disk_files _ _ _ _ _ E1 H)|done].
Qed.

Lemma disk_closed base latest program w closed : disk base latest program w closed None → closed_disk latest program w closed.
Proof. intros [H1 H2 H3 H4 H5 H6 H7 H8 H9 H10]. unfold segments in *. cbn [option_list] in *. rewrite app_nil_r in *. by split. Qed.

Lemma retired_disk latest program w q : closed_disk latest program w [] → 0 ≤ q → disk q latest program w [] None.
Proof. intros [H1 H2 H3 H4 H5 H6] Hq. by split. Qed.

Lemma retireThrough_ok base latest program s w closed s' w' : stored base latest program s w closed None →
  retireThrough (base + zlen (records closed None)) s w = (Ok tt, s', w') → stored (base + zlen (records closed None)) latest program s' w' [] None.
Proof.
  intros [H1 H2 H3 H4] E. unfold retireThrough in E. apply sio_bind_ok in E as (s1&s2&w1&[= <- <- <-]&E). apply sio_bind_ok in E as (files&s3&w2&E1&E).
  apply sio_io_ok in E1 as [-> E1]. apply sio_io_ok in E as [-> E]. pose proof (disk_closed _ _ _ _ _ H3) as Hc.
  destruct (listing_in_done wal_dir parseSegmentID segment_of segment_path ltac:(done) segment_of_path _ _ _ _ _ eq_refl (cd_lists _ _ _ _ Hc) (cd_sorted _ _ _ _ Hc) E1) as [-> Ef].
  change (closed.*1) with (map fst closed) in E. rewrite map_map in E. split; [done|done| |done]. apply retired_disk.
  - eapply retire_files_ok; [exact (closed_disk_files _ _ _ _ _ Ef Hc)|done| |exact E]. eapply Forall_impl; [exact (dk_below _ _ _ _ _ _ H3)|]. cbn. tauto.
  - pose proof (dk_base _ _ _ _ _ _ H3). unfold zlen. lia.
Qed.

(** ** The newest snapshot *)

#[local] Transparent frame_snapshot.

Lemma take_first {A} n (l1 l2 : list A) : length l1 = n → take n (l1 ++ l2) = l1.
Proof. intros <-. apply take_app_length. Qed.
Lemma drop_first {A} n m (l1 l2 : list A) : length l1 = n → (n ≤ m)%nat → drop m (l1 ++ l2) = drop (m - n) l2.
Proof. intros <- H. rewrite drop_app_ge by lia. done. Qed.

Lemma snapshot_payload_frame p : zlen p < 2 ^ 64 → snapshot_payload (frame_snapshot p) = Ok p.
Proof.
  intros Hz. unfold snapshot_payload. set (data := frame_snapshot p). pose proof (sha256_length p) as Hs.
  assert (0 ≤ zlen p) as H0 by (unfold zlen; lia). pose proof (be_put_length 4 m1SnapshotVersion) as L4. pose proof (be_put_length 8 (zlen p)) as L8.
  assert (length data = (52 + length p)%nat) as Hl by (unfold data, frame_snapshot; rewrite !length_app, L4, L8, Hs; change (length m1SnapshotMagic) with 8%nat; lia).
  assert (take 8 data = m1SnapshotMagic) as -> by by apply take_first.
  assert (drop 8 data = be_put 4 m1SnapshotVersion ++ be_put 8 (zlen p) ++ sha256 p ++ p) as E8 by (unfold data, frame_snapshot; by rewrite (drop_first 8)).
  assert (drop 12 data = be_put 8 (zlen p) ++ sha256 p ++ p) as E12 by (change (drop 12 data) with (drop (8 + 4) data); rewrite <- drop_drop, E8; by rewrite (drop_first 4)).
  assert (drop 20 data = sha256 p ++ p) as E20 by (change (drop 20 data) with (drop (12 + 8) data); rewrite <- drop_drop, E12; by rewrite (drop_first 8)).
  assert (drop 52 data = p) as E52 by (change (drop 52 data) with (drop (20 + 32) data); rewrite <- drop_drop, E20; by rewrite (drop_first 32)).
  unfold be_at. rewrite E8, E12, E20, E52, !take_first by done. rewrite !be_get_put by (unfold m1SnapshotVersion; cbn; lia).
  rewrite !bool_decide_true, (proj2 (Nat.ltb_ge _ _)) by (done || lia). rewrite !Z.eqb_refl. unfold zlen. rewrite Hl.
  replace (Z.of_nat (52 + length p) - 52) with (Z.of_nat (length p)) by lia. rewrite Z.eqb_refl. done.
Qed.

#[local] Opaque frame_snapshot.

Lemma latest_snapshot_ok w latest : snapped w latest → w_faults w = [] → latest_snapshot w = (Ok latest, w).
Proof.
  intros (ids&Hl&Hs&H) Hf. unfold latest_snapshot. fold parseSnapshot.
  erewrite bind_done; [|by apply (listing_in_ok snapshot_dir parseSnapshot snapshot_of snapshot_path ltac:(done) snapshot_of_path (w_dir w) ids)].
  destruct latest as [[q payload]|]; [|by subst ids]. destruct H as (Hq&Hz&i&Hi&Hc&_). rewrite fmap_last, Hq. cbn [fmap option_fmap option_map].
  erewrite bind_done; [|unfold read_file; rewrite Hi, call_done by done; reflexivity]. rewrite Hc. erewrite bind_done; [|unfold io_res; by rewrite snapshot_payload_frame]. done.
Qed.
