(* ===== verification/ResearchLife.v ===== *)
(** * The research engine with its directory

    Commands, snapshots, closes, crashes and openings of an engine over its
    storage, and the invariant that ties the directory to the engine: the newest
    snapshot restores an engine at the base of the log, and the log has the records
    that lead from there to the engine. *)

From Stdlib Require Import ZArith Lia Strings.Byte Strings.String.
From stdpp Require Import base decidable countable list gmap sorting.
From S2P Require Import Prelude GoText GoBinary GoVarint GoJson Errors GoOS KeyedStorage KeyedRecovery AccountAgent AgentLemmas AgentDelta Research ResearchLemmas ResearchEngine ResearchDedupe ResearchSystem ResearchLanes ResearchWal ResearchWalLemmas ResearchStorage ResearchStorageLemmas ResearchStorageSystem ResearchSnapshot ResearchRestore ResearchRuns ResearchSnapshotStorage.

Local Open Scope Z_scope.
Local Open Scope go_scope.

#[local] Opaque frame_snapshot encodeSegmentHeader encodeSegmentFooter frame crc32 content print snapshot_json.

(** ** Operations *)

(** A command alone in its group, its record appended to the storage, and the
    snapshot at the end of the group; with the answer, the result of that
    snapshot, which nobody learns. *)
Definition execute_on (cfg : Config) (e : Engine) (c : Command) (s : m1Storage) (w : world)
    : Engine * (outcome * option (res gerror bytes)) * m1Storage * world :=
  match (execute cfg no_failure None e c).1.2 with
  | [] => let '(e, _, o) := execute cfg no_failure None e c in (e, (o, None), s, w)
  | rs =>
      match appendGroup no_failure rs s w with
      | (Ok _, s, w) =>
          let '(e, _, o) := execute cfg no_failure None e c in
          let '(r, s, w) := group_end cfg no_failure e s w in (e, (o, r), s, w)
      | (Err err, s, w) => let '(e, _, o) := execute cfg no_failure (Some err) e c in (e, (o, None), s, w)
      end
  end.
(** No snapshot was due, or it succeeded. *)
Definition snapshot_fine (r : option (res gerror bytes)) : Prop := match r with Some (Err _) => False | _ => True end.

(** The size of the snapshot of an engine. *)
Definition snapshot_size (cfg : Config) (e : Engine) : Z :=
  match frontier_snapshot cfg e with Ok s => zlen (print (snapshot_json s)) | Err _ => 0 end.

(** ** Taking a snapshot *)

Lemma close_all base latest program s w rs s' w' : holds base latest program s w rs → closeSegment true s w = (Ok tt, s', w') →
  ∃ closed, stored base latest program s' w' closed None ∧ records closed None = rs.
Proof.
  intros (closed&[d|]&H&<-&Hne&Hs) E.
  - destruct (closeSegment_ok _ _ _ _ _ _ _ _ _ H (Hne d eq_refl) E) as [H' _]. exists (closed ++ [d]). by rewrite records_close.
  - unfold closeSegment, mbind, sio_bind, get in E. rewrite (sv_file _ _ _ _ _ _ _ H) in E. injection E as <- <-. by exists closed.
Qed.

Lemma snapshotAtFrontier_ok cfg e s w path s' w' base latest rs :
  eg_poisoned e = None → holds base latest (expectedProgramID cfg) s w rs → eg_sequence e = base + zlen rs → u64_range (eg_sequence e) →
  (∀ q p, latest = Some (q, p) → q ≤ base) → snapshot_size cfg e < 2 ^ 64 → snapshotAtFrontier cfg no_failure e s w = (Ok path, s', w') →
  ∃ sn, frontier_snapshot cfg e = Ok sn
    ∧ holds (eg_sequence e) (Some (eg_sequence e, print (snapshot_json sn))) (expectedProgramID cfg) s' w' [].
Proof.
  intros Hp Hh Hq Hu Hl Hz E. unfold snapshotAtFrontier in E. rewrite Hp in E. apply sio_bind_ok in E as ([]&s1&w1&E1&E).
  destruct (close_all _ _ _ _ _ _ _ _ Hh E1) as (closed&H1&<-). apply sio_bind_ok in E as (sn&s2&w2&E2&E).
  assert (frontier_snapshot cfg e = Ok sn ∧ s2 = s1 ∧ w2 = w1) as (Hf&->&->).
  { unfold frontier_snapshot. cbv zeta. destruct (cf_JSONDedupeSnapshot cfg); [by injection E2 as <- <- <-|].
    apply sio_bind_ok in E2 as ([]&s3&w3&E2&E3). injection E2 as <- <-. apply sio_bind_ok in E3 as (compact&s3&w3&E2&E3). unfold sio_res in E2.
    destruct (encodeCompactDedupe _ _) as [data|]; [|done]. injection E2 as -> <- <-. by injection E3 as <- <- <-. }
  assert (ds_Sequence sn = eg_sequence e) as Hsq.
  { unfold frontier_snapshot, engine_snapshot, CanonicalOctagon in Hf. cbv zeta in Hf. destruct (snapshotState _), (cf_JSONDedupeSnapshot cfg); [by injection Hf as <-|].
    destruct (encodeCompactDedupe _ _); [|done]. by injection Hf as <-. }
  exists sn. split; [done|]. unfold snapshot_size in Hz. rewrite Hf in Hz. rewrite Hsq in E.
  apply sio_bind_ok in E as ([]&s2&w2&E3&E). injection E3 as <- <-. apply sio_bind_ok in E as (path'&s2&w2&E3&E).
  apply installSnapshot_ok in E3 as (->&->&Hi). apply sio_bind_ok in E as ([]&s3&w3&E4&E). injection E as <- <- <-.
  assert (stored base (Some (eg_sequence e, print (snapshot_json sn))) (expectedProgramID cfg) s1 w2 closed None) as H2.
  { destruct H1 as [A1 A2 A3 A4]. split; [done|done| |done]. eapply disk_install; [exact A3|done|done| |done]. intros q0 p0 ->. specialize (Hl q0 p0 eq_refl). unfold zlen in *. lia. }
  rewrite Hq in E4. pose proof (retireThrough_ok _ _ _ _ _ _ _ _ H2 E4) as H3. rewrite <- Hq in H3. exists [], None. split; [done|]. done.
Qed.

(** ** Commands *)

Lemma finish_poisoned cfg e id o : eg_poisoned (finish cfg e id o) = eg_poisoned e.
Proof. unfold finish. by destruct (_ && _). Qed.

(** A record that is not appended poisons the engine. *)
Lemma execute_refused cfg e c err : (execute cfg no_failure None e c).1.2 ≠ [] → eg_poisoned (execute cfg no_failure (Some err) e c).1.1 = Some err.
Proof.
  unfold execute. destruct (ValidateCommand c) as [[]|]; [|done]. destruct (prepare cfg no_failure e c) as [e1 [q|]]; [|done].
  destruct (eg_poisoned e1) as [|] eqn:Ep; [rewrite bool_decide_false by done; by destruct (commitGroup _ _ _ _ _)|].
  rewrite (bool_decide_true (None = None)) by done. rewrite !(commit_one cfg e1 q _ Ep), split_one.
  destruct (dd_results (eg_dedupe e1) !! lr_CommandID (mc_record q)); [done|]. intros _. cbn [fst]. by rewrite finish_poisoned.
Qed.

(** Without a record the storage is not asked. *)
Lemma execute_on_cases cfg e c s w e' o r s' w' : execute_on cfg e c s w = (e', (o, r), s', w') → eg_poisoned e' = None →
  ∃ rs s1 w1, execute cfg no_failure None e c = (e', rs, o)
    ∧ (rs = [] ∧ s1 = s ∧ w1 = w ∨ rs ≠ [] ∧ appendGroup no_failure rs s w = (Ok tt, s1, w1))
    ∧ ((s', w') = (s1, w1) ∨ ∃ x, r = Some x ∧ snapshotAtFrontier cfg no_failure e' s1 w1 = (x, s', w')).
Proof.
  unfold execute_on. intros E Hp. pose proof (execute_refused cfg e c) as Href.
  destruct (execute cfg no_failure None e c) as [[e1 [|q rs]] o1] eqn:Ex; cbn [fst snd] in E.
  - injection E as <- <- <- <- <-. exists [], s, w. split; [done|]. split; by left.
  - destruct (appendGroup no_failure (q :: rs) s w) as [[[[]|err] s1] w1] eqn:Ea.
    + exists (q :: rs), s1, w1. unfold group_end in E. destruct (snapshot_due cfg e1).
      * destruct (snapshotAtFrontier cfg no_failure e1 s1 w1) as [[x s2] w2] eqn:Es. injection E as <- <- <- <- <-.
        split; [done|]. split; [right; split; [done|exact Ea]|]. right. exists x. by split.
      * injection E as <- <- <- <- <-. split; [done|]. split; [right; split; [done|exact Ea]|]. by left.
    + specialize (Href err ltac:(done)). destruct (execute cfg no_failure (Some err) e c) as [[e2 l2] o2]. injection E as <- <- <- <- <-. cbn in Href. congruence.
Qed.

(** ** The invariant *)

(** [e0] is the engine of the newest snapshot, or a new one. *)
Definition based (cfg : Config) (latest : option (Z * bytes)) (e0 : Engine) : Prop :=
  match latest with
  | None => e0 = new_engine
  | Some (q, payload) => q = eg_sequence e0 ∧ ∃ s, frontier_snapshot cfg e0 = Ok s ∧ payload = print (snapshot_json s)
  end.

Record backed (cfg : Config) (e : Engine) (s : m1Storage) (w : world) (log : list logRecord) (latest : option (Z * bytes)) (e0 : Engine) : Prop := {
  bk_saves : saves cfg e log;
  bk_healthy : eg_poisoned e = None;
  bk_bound : zlen log < 2 ^ 63;
  bk_base : snapshotable cfg e0 ∧ based cfg latest e0;
  bk_sequence : 0 ≤ eg_sequence e0 ≤ zlen log;
  bk_holds : holds (eg_sequence e0) latest (expectedProgramID cfg) s w (drop (Z.to_nat (eg_sequence e0)) log);
  bk_recover : ∀ e2, resembles e0 e2 → ∃ e2', replay cfg e2 (drop (Z.to_nat (eg_sequence e0)) log) = Ok e2' ∧ resembles e e2' }.

(** Without a snapshot an opening begins with a new engine. *)
Lemma load_none cfg w : snapped w None → w_faults w = [] →
  (snapshot ← io_recovery "recovery_corrupt" (loadLatestSnapshot (expectedProgramID cfg));
   io_res (match snapshot with Some s => restore_snapshot cfg s | None => Ok new_engine end)) w = (Ok new_engine, w).
Proof.
  intros Hw Hfa. assert (loadLatestSnapshot (expectedProgramID cfg) w = (Ok None, w)) as El
    by (unfold loadLatestSnapshot; erewrite bind_done; [|by apply latest_snapshot_ok]; done).
  erewrite bind_done; [|unfold io_recovery; by rewrite El]. done.
Qed.

(** Restoring the base gives an engine that resembles it. *)
Lemma based_restores cfg latest e0 : snapshotable cfg e0 → based cfg latest e0 →
  ∃ e1, (∀ w, snapped w latest → w_faults w = [] →
      (snapshot ← io_recovery "recovery_corrupt" (loadLatestSnapshot (expectedProgramID cfg));
       io_res (match snapshot with Some s => restore_snapshot cfg s | None => Ok new_engine end)) w = (Ok e1, w))
    ∧ resembles e0 e1 ∧ eg_poisoned e1 = None ∧ eg_sequence e1 = eg_sequence e0.
Proof.
  intros Hs Hb. destruct latest as [[q payload]|].
  - destruct Hb as (->&sn&Hf&->). destruct (restore_frontier cfg e0 Hs) as (sn'&e1&Hf'&Hj&_&Hc&Hr&Hre&Hp). rewrite Hf in Hf'. injection Hf' as <-.
    exists e1. split; [|split; [done|split; [done|symmetry; apply (se_sequence _ _ (rb_engine _ _ Hre))]]]. intros w Hw Hfa.
    assert (loadLatestSnapshot (expectedProgramID cfg) w = (Ok (Some sn), w)) as El.
    { unfold loadLatestSnapshot. erewrite bind_done; [|by apply latest_snapshot_ok]. unfold mbind, io_bind, io_res. rewrite Hj. cbn [res_bind]. by rewrite Hc. }
    erewrite bind_done; [|unfold io_recovery; by rewrite El]. unfold io_res. by rewrite Hr.
  - cbn in Hb. subst e0. exists new_engine. split; [|split; [|done]].
    + by apply load_none.
    + by split.
Qed.

Lemma openM1Engine_ok cfg mode n w latest e1 s rs w' e' :
  (∀ w, snapped w latest → w_faults w = [] →
      (snapshot ← io_recovery "recovery_corrupt" (loadLatestSnapshot (expectedProgramID cfg));
       io_res (match snapshot with Some s => restore_snapshot cfg s | None => Ok new_engine end)) w = (Ok e1, w)) →
  snapped w latest → w_faults w = [] → openM1Storage mode n (expectedProgramID cfg) (eg_sequence e1) w = (Ok (s, rs), w') →
  replay cfg e1 rs = Ok e' → openM1Engine cfg mode n w = (Ok (e', s), w').
Proof.
  intros Hl Hs Hf Ho Hr. specialize (Hl w Hs Hf). unfold openM1Engine, mbind, io_bind in *.
  destruct (io_recovery "recovery_corrupt" (loadLatestSnapshot (expectedProgramID cfg)) w) as [[sn|] w1]; [|done].
  rewrite Hl. unfold io_recovery. rewrite Ho. unfold replay_log. by rewrite Hr.
Qed.

Lemma backed_reopens cfg e s w log latest e0 mode n w1 : backed cfg e s w log latest e0 → crash w w1 → w_dir w1 = w_dir w →
  mode ≠ MemoryOnly → n < 2 ^ 32 →
  ∃ e' s' w', openM1Engine cfg mode n (with_faults [] w1) = (Ok (e', s'), w') ∧ resembles e e' ∧ backed cfg e' s' w' log latest e0.
Proof.
  intros [B1 B2 B3 [B4 B4'] B5 B6 B7] Hc Hd Hm Hn. destruct (based_restores _ _ _ B4 B4') as (e1&Hl&Hre&Hp&Hq).
  assert (eg_sequence e0 + zlen (drop (Z.to_nat (eg_sequence e0)) log) = zlen log) as Hz by (unfold zlen in *; rewrite length_drop; lia).
  destruct (reopen_holds _ _ _ mode n (eg_sequence e0) _ _ _ _ B6 Hc Hd Hm Hn ltac:(lia) ltac:(lia) ltac:(lia)) as (s'&w'&Eo&Hh).
  rewrite Z.sub_diag in Eo. change (Z.to_nat 0) with 0%nat in Eo. rewrite drop_0 in Eo. rewrite <- Hq in Eo. destruct (B7 _ Hre) as (e'&Er&Hee).
  assert (snapped w1 latest) as Hsn.
  { destruct B6 as (closed&cur&H&_&_&Hs). destruct (disk_crash _ _ _ _ _ _ _ (sv_disk _ _ _ _ _ _ _ H) Hs Hc Hd) as [H1 _]. apply H1. }
  exists e', s', w'. split; [|split; [done|]].
  - eapply openM1Engine_ok; [exact Hl| |done|exact Eo|rewrite Hq; exact Er]. exact Hsn.
  - split; [by eapply saves_resembles|by rewrite (replay_poisoned _ _ _ _ Er)|done|done|done|done|].
    intros e2 H2. destruct (B7 _ H2) as (e2'&R2&S2). exists e2'. split; [done|]. etrans; [symmetry; exact Hee|done].
Qed.

(** ** The life of an engine *)

(** An engine opened over an empty directory, commands that leave it healthy and
    whose snapshot, where one is due, succeeds, snapshots and closes that succeed,
    and openings after a crash that kept the names of the files.  Openings run without faults; anything else may run into
    them, and what is reported as done did not fail. *)
Inductive engine_life (cfg : Config) : Engine → m1Storage → world → Prop :=
| life_born mode n w0 e s w l :
    w_dir w0 = ∅ → mode ≠ MemoryOnly → n < 2 ^ 32 →
    openM1Engine cfg mode n (with_faults [] w0) = (Ok (e, s), w) → engine_life cfg e s (with_faults l w)
| life_command e s w c e' o r s' w' :
    engine_life cfg e s w → command_fits c → eg_sequence e < 2 ^ 63 - 1 →
    execute_on cfg e c s w = (e', (o, r), s', w') → eg_poisoned e' = None → snapshot_fine r → snapshot_size cfg e' < 2 ^ 64 →
    engine_life cfg e' s' w'
| life_snapshot e s w path s' w' :
    engine_life cfg e s w → snapshot_size cfg e < 2 ^ 64 →
    snapshotAtFrontier cfg no_failure e s w = (Ok path, s', w') → engine_life cfg e s' w'
| life_closed e s w s' w' :
    engine_life cfg e s w → closeSegment true s w = (Ok tt, s', w') → engine_life cfg e s' w'
| life_reopened mode n e s w w1 e' s' w' l :
    engine_life cfg e s w → crash w w1 → w_dir w1 = w_dir w → mode ≠ MemoryOnly → n < 2 ^ 32 →
    openM1Engine cfg mode n (with_faults [] w1) = (Ok (e', s'), w') → engine_life cfg e' s' (with_faults l w').

Lemma backed_faults cfg e s w log latest e0 l : backed cfg e s w log latest e0 → backed cfg e s (with_faults l w) log latest e0.
Proof. intros [B1 B2 B3 B4 B5 B6 B7]. split; try done. by apply holds_faults. Qed.

Lemma backed_born cfg mode n w0 : 0 < Z.of_nat (cf_DedupeWindow cfg) < 2 ^ 32 → w_dir w0 = ∅ → mode ≠ MemoryOnly → n < 2 ^ 32 →
  ∃ s w, openM1Engine cfg mode n (with_faults [] w0) = (Ok (new_engine, s), w) ∧ backed cfg new_engine s w [] None new_engine.
Proof.
  intros HW Hd Hm Hn. pose proof (saves_snapshotable _ _ _ (saves_new cfg) HW) as Hsn.
  pose proof (empty_disk (expectedProgramID cfg) (with_faults [] w0) Hd) as Hdisk.
  destruct (open_ok 0 None (expectedProgramID cfg) mode n 0 (with_faults [] w0) [] None) as (s&w&E&H&Hs); try done. exists s, w. split.
  - eapply (openM1Engine_ok cfg mode n _ None new_engine s []); [apply load_none|exact (dk_snap _ _ _ _ _ _ Hdisk)|done|exact E|done].
  - split; [apply saves_new|done|done|done|done|by exists [], None|]. intros e2 He2. by exists e2.
Qed.

(** The engine and its log after the records of a command were appended. *)
Lemma backed_logged cfg e s w log latest e0 c e' rs o s' w' : backed cfg e s w log latest e0 → command_fits c → eg_sequence e < 2 ^ 63 - 1 →
  execute cfg no_failure None e c = (e', rs, o) → eg_poisoned e' = None →
  (rs = [] ∧ s' = s ∧ w' = w ∨ rs ≠ [] ∧ appendGroup no_failure rs s w = (Ok tt, s', w')) → ∃ log', backed cfg e' s' w' log' latest e0.
Proof.
  intros [B1 B2 B3 B4 B5 B6 B7] Hc Hb Ex Hp Hcase. pose proof (sv_sequence _ _ _ B1) as Hq.
  destruct (execute_saves _ _ _ _ _ _ _ _ B1 Hc ltac:(lia) Ex) as [Hs Hlen]. exists (log ++ rs).
  assert (drop (Z.to_nat (eg_sequence e0)) (log ++ rs) = drop (Z.to_nat (eg_sequence e0)) log ++ rs) as Hdrop by (apply drop_app_le; unfold zlen in *; lia).
  assert (zlen (log ++ rs) = zlen log + zlen rs) as Hl by (unfold zlen; rewrite length_app; lia). assert (0 ≤ zlen rs) as Hr0 by (unfold zlen; lia).
  split; [done|done|rewrite Hl; lia|done|rewrite Hl; lia|rewrite Hdrop|rewrite Hdrop].
  - destruct Hcase as [(->&->&->)|[Hne Ha]]; [by rewrite app_nil_r|]. eapply appendGroup_ok; [exact B6| | |exact Hne|exact Ha].
    + pose proof (sv_log _ _ _ Hs) as Hw. apply Forall_app in Hw as [_ Hw]. eapply Forall_impl; [exact Hw|]. by intros r [? _].
    + pose proof (sv_numbered _ _ _ Hs) as Hn. apply numbered_app in Hn as [_ Hn]. rewrite Z.add_0_l in Hn.
      replace (eg_sequence e0 + zlen (drop (Z.to_nat (eg_sequence e0)) log)) with (zlen log) by (unfold zlen in *; rewrite length_drop; lia). done.
  - intros e2 H2. destruct (B7 _ H2) as (e3&R3&S3). destruct (execute_resembles _ _ _ _ _ _ _ _ (sv_ok _ _ _ B1) (cf_ok c Hc) Ex S3) as (e4&R4&S4).
    exists e4. split; [|done]. unfold replay in *. by rewrite res_fold_app, R3.
Qed.

Lemma backed_snapshot cfg e s w log latest e0 path s' w' : 0 < Z.of_nat (cf_DedupeWindow cfg) < 2 ^ 32 → backed cfg e s w log latest e0 →
  snapshot_size cfg e < 2 ^ 64 → snapshotAtFrontier cfg no_failure e s w = (Ok path, s', w') → ∃ latest', backed cfg e s' w' log latest' e.
Proof.
  intros HW [B1 B2 B3 [B4 B4'] B5 B6 B7] Hz E. pose proof (sv_sequence _ _ _ B1) as Hq.
  assert (eg_sequence e = eg_sequence e0 + zlen (drop (Z.to_nat (eg_sequence e0)) log)) as Hq0 by (rewrite Hq; unfold zlen in *; rewrite length_drop; lia).
  destruct (snapshotAtFrontier_ok _ _ _ _ _ _ _ _ _ _ B2 B6 Hq0 ltac:(apply (ek_sequence _ _ (sv_ok _ _ _ B1))) ltac:(intros q p ->; destruct B4' as [-> _]; lia) Hz E)
    as (sn&Hf&Hh). eexists. assert (drop (Z.to_nat (eg_sequence e)) log = []) as Hdrop by (apply drop_ge; unfold zlen in *; lia).
  split; [done|done|done| | |rewrite Hdrop; exact Hh|rewrite Hdrop; intros e2 H2; by exists e2].
  - split; [by eapply saves_snapshotable|]. split; [done|]. eauto.
  - rewrite Hq. unfold zlen in *. lia.
Qed.

Lemma backed_command cfg e s w log latest e0 c e' o r s' w' : 0 < Z.of_nat (cf_DedupeWindow cfg) < 2 ^ 32 →
  backed cfg e s w log latest e0 → command_fits c → eg_sequence e < 2 ^ 63 - 1 →
  execute_on cfg e c s w = (e', (o, r), s', w') → eg_poisoned e' = None → snapshot_fine r → snapshot_size cfg e' < 2 ^ 64 →
  ∃ log' latest' e0', backed cfg e' s' w' log' latest' e0'.
Proof.
  intros HW B Hc Hb E Hp Hr Hz. destruct (execute_on_cases _ _ _ _ _ _ _ _ _ _ E Hp) as (rs&s1&w1&Ex&Hcase&Hend).
  destruct (backed_logged _ _ _ _ _ _ _ _ _ _ _ _ _ B Hc Hb Ex Hp Hcase) as [log' B']. destruct Hend as [[= -> ->]|(x&->&Hx)]; [eauto|].
  destruct x as [path|]; [|done]. destruct (backed_snapshot _ _ _ _ _ _ _ _ _ _ HW B' Hz Hx) as [latest' H]. eauto.
Qed.

Lemma life_backed cfg e s w : 0 < Z.of_nat (cf_DedupeWindow cfg) < 2 ^ 32 → engine_life cfg e s w → ∃ log latest e0, backed cfg e s w log latest e0.
Proof.
  intros HW. induction 1 as [mode n w0 e s w l Hd Hm Hn E|e s w c e' o r s' w' _ (log&latest&e0&IH) Hc Hb E Hp Hr Hz|e s w path s' w' _ (log&latest&e0&IH) Hz E
    |e s w s' w' _ (log&latest&e0&IH) E|mode n e s w w1 e' s' w' l _ (log&latest&e0&IH) Hcr Hd Hm Hn E].
  - destruct (backed_born cfg mode n w0 HW Hd Hm Hn) as (s1&w1&E1&H). rewrite E in E1. injection E1 as -> -> ->. do 3 eexists. by apply backed_faults.
  - by eapply backed_command.
  - destruct (backed_snapshot _ _ _ _ _ _ _ _ _ _ HW IH Hz E) as [latest' H]. eauto.
  - exists log, latest, e0. destruct IH as [B1 B2 B3 B4 B5 B6 B7]. split; try done. by eapply close_ok.
  - destruct (backed_reopens _ _ _ _ _ _ _ mode n _ IH Hcr Hd Hm Hn) as (e1&s1&w2&E1&_&H). rewrite E in E1. injection E1 as <- <- <-.
    exists log, latest, e0. by apply backed_faults.
Qed.
