(* ===== verification/ResearchLifeTheorems.v ===== *)
(** * The research engine survives crashes

    First that engines that resemble each other answer alike, then the claim about
    lives of an engine with its directory.  A restored engine keeps its window of remembered results at another place of its
    slice and may miss entries of fresh agents; no command tells it from the engine
    it was restored from. *)

From Stdlib Require Import ZArith Lia Strings.Byte Strings.String.
From stdpp Require Import base decidable countable list gmap sorting.
From S2P Require Import Prelude GoText GoBinary GoJson Errors GoOS KeyedStorage KeyedRecovery GoVarint AccountAgent AgentLemmas AgentDelta AgentTheorems Research ResearchLemmas ResearchEngine ResearchSystem ResearchLanes ResearchTheorems ResearchDedupe ResearchWal ResearchWalLemmas ResearchStorage ResearchStorageLemmas ResearchStorageSystem ResearchStorageTheorems ResearchSnapshot ResearchRestore ResearchRuns ResearchSnapshotStorage ResearchLife.

Local Open Scope Z_scope.
Local Open Scope go_scope.

Record alike (e1 e2 : Engine) : Prop := { al_resembles : resembles e1 e2; al_poisoned : eg_poisoned e1 = eg_poisoned e2 }.

Lemma alike_same e1 e2 e1' e2' : resembles e1 e2 → same_engine e1' e1 → same_engine e2' e2 → eg_poisoned e1' = eg_poisoned e2' → alike e1' e2'.
Proof.
  intros [[S1 S2 S3 S4 S5 S6 S7] [W1 W2 W3 W4]] [A1 A2 A3 A4 A5 A6 A7] [B1 B2 B3 B4 B5 B6 B7] Hp. split; [|done]. cbn [with_dedupe eg_store eg_dedupe eg_sequence] in *. split.
  - split; cbn [with_dedupe eg_store eg_dedupe eg_sequence]; [congruence..| | | |]; intros id.
    + rewrite A4, S4. symmetry. apply B4.
    + rewrite A5, S5. symmetry. apply B5.
    + rewrite A6, S6. symmetry. apply B6.
    + rewrite A7, S7. symmetry. apply B7.
  - rewrite A2, B2. done.
Qed.

(** What a command sees and decides. *)
Lemma alike_oct e1 e2 c : resembles e1 e2 →
  seen_context e1 c = seen_context e2 c ∧ oct_decision e1 c = oct_decision e2 c ∧ oct_valid e1 c = oct_valid e2 c ∧ oct_checkpoint e1 c = oct_checkpoint e2 c.
Proof.
  intros [[S1 S2 S3 S4 S5 S6 S7] _]. cbn [with_dedupe eg_store] in S1. pose proof (S4 (cm_Account c)) as Ha. change (agent_of (with_dedupe e2 _)) with (agent_of e2) in Ha.
  unfold oct_valid, oct_checkpoint, oct_decision, seen_context. by rewrite S1, Ha.
Qed.

(** Commits of records that agree lead to engines that resemble each other. *)
Lemma alike_committed cfg e1 e2 r1 r2 n1 n2 e1' e2' :
  committed cfg e1 r1 n1 e1' → committed cfg e2 r2 n2 e2' → resembles e1 e2 → lr_AgentID r1 = lr_AgentID r2 → lr_CommandID r1 = lr_CommandID r2 →
  lr_Sequence r1 = lr_Sequence r2 → lr_Result r1 = lr_Result r2 → store_apply (eg_store e2) r1 = store_apply (eg_store e2) r2 →
  default (NewDurableAccountAgent (i64 (lr_AgentID r2))) (en_machine n1) = default (NewDurableAccountAgent (i64 (lr_AgentID r2))) (en_machine n2) →
  en_checkpoint n1 = en_checkpoint n2 → en_goPending n1 = en_goPending n2 → en_goTurns n1 = en_goTurns n2 → alike e1' e2'.
Proof.
  intros [A1 A2 A3 A4 A5 A6] [B1 B2 B3 B4 B5 B6] [[S1 S2 S3 S4 S5 S6 S7] W] Ea Ei Es Er Est En1 En2 En3 En4. rewrite Ea in A5, A6. cbn [with_dedupe eg_store] in S1.
  split; [|congruence]. split.
  - split; cbn [with_dedupe eg_store eg_dedupe eg_sequence]; [congruence|done|congruence|..]; intros id; unfold agent_of;
      change (entry (with_dedupe e2' _)) with (entry e2'); (destruct (decide (lr_AgentID r2 = id)) as [<-|Hne]; [by rewrite A5, B5|rewrite A6, B6 by done; first [apply S4|apply S5|apply S6|apply S7]]).
  - rewrite A2, B2, Ei, Er. by apply same_window_remember.
Qed.

Lemma alike_window e1 e2 id : resembles e1 e2 → dd_results (eg_dedupe e1) !! id = dd_results (eg_dedupe e2) !! id.
Proof. intros [_ [W _ _ _]]. by rewrite W. Qed.

Lemma oct_alike cfg append e1 e2 c e1' l1 o1 e2' l2 o2 : alike e1 e2 →
  oct_case cfg append e1 c e1' l1 o1 → oct_case cfg append e2 c e2' l2 o2 → o1 = o2 ∧ alike e1' e2'.
Proof.
  intros [R P] C1 C2. destruct (alike_oct e1 e2 c R) as (Hctx&Hd&Hv&Hcp). pose proof (alike_window _ _ (cm_ID c) R) as Hw.
  pose proof R as [[S1 S2 S3 S4 S5 S6 S7] _]. cbn [with_dedupe eg_store eg_sequence] in S1, S3.
  destruct C1 as [e1' err1 V1 Q1 P1|e1' err1 V1 Q1 P1 P1'|e1' prior1 V1 Q1 P1 P1' D1|e1' err1 V1 Q1 P1 A1 P1' D1|e1' delta1 m1 V1 P1 A1 D1 Pd1 Ap1 Cm1 M1 Cd1];
  destruct C2 as [e2' err2 V2 Q2 P2|e2' err2 V2 Q2 P2 P2'|e2' prior2 V2 Q2 P2 P2' D2|e2' err2 V2 Q2 P2 A2 P2' D2|e2' delta2 m2 V2 P2 A2 D2 Pd2 Ap2 Cm2 M2 Cd2];
    try congruence.
  - split; [congruence|]. eapply alike_same; eauto. congruence.
  - split; [congruence|]. eapply alike_same; eauto. congruence.
  - split; [congruence|]. eapply alike_same; eauto. congruence.
  - split; [congruence|]. eapply alike_same; eauto. congruence.
  - assert (lr_Result (oct_record cfg e1 c delta1) = lr_Result (oct_record cfg e2 c delta2)) as Er by (unfold oct_record; by rewrite Hd, S3).
    split; [by rewrite Er|]. destruct (committed_parse _ _ _ Cm1) as [_ H1]. destruct (committed_parse _ _ _ Cm2) as [_ H2]. rewrite Hcp, H2 in H1. injection H1 as <-.
    eapply (alike_committed cfg e1 e2); [exact Cd1|exact Cd2|done|done|done|unfold oct_record; by rewrite S3|done| |done|done|apply S6|apply S7].
    apply store_apply_agree; unfold oct_record; rewrite ?Hd, ?S3; done.
Qed.

Lemma go_alike cfg append e1 e2 c e1' l1 o1 e2' l2 o2 : alike e1 e2 →
  go_case cfg append e1 c e1' l1 o1 → go_case cfg append e2 c e2' l2 o2 → o1 = o2 ∧ alike e1' e2'.
Proof.
  intros [R P] C1 C2. pose proof (alike_window _ _ (cm_ID c) R) as Hw. pose proof R as [[S1 S2 S3 S4 S5 S6 S7] _]. cbn [with_dedupe eg_store eg_sequence] in S1, S3.
  destruct C1 as [e1' err1 Q1 P1 P1'|e1' prior1 Q1 P1 P1' D1|e1' err1 Q1 P1 A1 P1' D1|e1' P1 A1 D1 Cd1];
  destruct C2 as [e2' err2 Q2 P2 P2'|e2' prior2 Q2 P2 P2' D2|e2' err2 Q2 P2 A2 P2' D2|e2' P2 A2 D2 Cd2]; try congruence.
  - split; [congruence|]. eapply alike_same; eauto. congruence.
  - split; [congruence|]. eapply alike_same; eauto. congruence.
  - split; [congruence|]. eapply alike_same; eauto. congruence.
  - pose proof (S6 (cm_Account c)) as T6. pose proof (S7 (cm_Account c)) as T7. pose proof (S4 (cm_Account c)) as T4.
    change (entry (with_dedupe e2 _)) with (entry e2) in T6, T7. change (agent_of (with_dedupe e2 _)) with (agent_of e2) in T4.
    assert (go_record cfg e1 c = go_record cfg e2 c) as Er by (unfold go_record, go_commit, processGoM1; by rewrite S1, S3, T6, T7).
    split; [by rewrite Er|]. rewrite Er in Cd1. assert (lr_AgentID (go_record cfg e2 c) = cm_Account c) as Hag
      by (unfold go_record, go_commit; by destruct (view (eg_store e2) (cm_Account c) (cm_Other c)) as [[a aok] [b bok]]).
    eapply (alike_committed cfg e1 e2); [exact Cd1|exact Cd2|done..| | | |]; rewrite ?Hag; unfold go_entry, go_decision; cbn [en_machine en_checkpoint en_goPending en_goTurns];
      rewrite ?S1, ?T6, ?T7; try done.
Qed.

Lemma execute_alike cfg append e1 e2 c e1' l1 o1 e2' l2 o2 : engine_ok cfg e1 → engine_ok cfg e2 → command_ok c → alike e1 e2 →
  execute cfg no_failure append e1 c = (e1', l1, o1) → execute cfg no_failure append e2 c = (e2', l2, o2) → o1 = o2 ∧ alike e1' e2'.
Proof.
  intros K1 K2 Hc Ha X1 X2. destruct (ValidateCommand c) as [[]|err] eqn:Hv.
  - destruct (cf_GoBehavioralControl cfg) eqn:Hg.
    + destruct (go_step cfg append e1 c Hg Hv) as (?&?&?&Y1&C1). destruct (go_step cfg append e2 c Hg Hv) as (?&?&?&Y2&C2). rewrite X1 in Y1. rewrite X2 in Y2. simplify_eq. by eapply go_alike.
    + destruct (oct_step cfg append e1 c Hg K1 Hc Hv) as (?&?&?&Y1&C1). destruct (oct_step cfg append e2 c Hg K2 Hc Hv) as (?&?&?&Y2&C2). rewrite X1 in Y1. rewrite X2 in Y2. simplify_eq. by eapply oct_alike.
  - unfold execute in X1, X2. rewrite Hv in X1, X2. by simplify_eq.
Qed.

Lemma run_alike cfg cs e1 e2 : engine_ok cfg e1 → engine_ok cfg e2 → Forall (λ ca : Command * option gerror, command_ok ca.1) cs → alike e1 e2 →
  (run cfg e1 cs).2 = (run cfg e2 cs).2 ∧ alike (run cfg e1 cs).1.1 (run cfg e2 cs).1.1.
Proof.
  intros K1 K2 Hc. revert e1 e2 K1 K2. induction Hc as [|[c append] cs Hc _ IH]; intros e1 e2 K1 K2 Ha; cbn [run]; [done|].
  destruct (execute cfg no_failure append e1 c) as [[e1' l1] o1] eqn:X1. destruct (execute cfg no_failure append e2 c) as [[e2' l2] o2] eqn:X2.
  destruct (execute_alike _ _ _ _ _ _ _ _ _ _ _ K1 K2 Hc Ha X1 X2) as [-> Ha'].
  destruct (execute_log _ _ _ _ _ _ _ K1 Hc X1) as [K1' _]. destruct (execute_log _ _ _ _ _ _ _ K2 Hc X2) as [K2' _].
  destruct (IH e1' e2' K1' K2' Ha') as [I1 I2]. destruct (run cfg e1' cs) as [[e1'' l1'] os1]. destruct (run cfg e2' cs) as [[e2'' l2'] os2].
  cbn [fst snd] in *. by rewrite I1.
Qed.

(** ** Theorems on the stored research engine

    An engine that crashed is opened as one that no client can tell from it; and a
    snapshot that fails half way loses commands acknowledged after it. *)

(** C25: over a life of an engine with its directory in which commands leave the
    engine healthy, their periodic snapshots, explicit snapshots and closes
    succeed, crashes fall between operations and keep the names of the files, and
    openings after them run without faults - in either lane, with either form of
    remembered results, with identifiers that are UTF-8 of at most 1 MiB, sequences
    below 2^63, snapshots below 2^64 bytes and a window of 1 to 2^32 - 1 results -
    opening after such a crash succeeds, with the accounts, the ledger, the
    sequence, the agents and the remembered results of the engine that crashed, and
    answers every further run of commands as that engine would.  The conditions are
    needed: a snapshot that fails ([footer_inside], [dropped_error]), a close after
    a refused append ([closed_unreadable]), a crash inside the write of a header
    ([torn_header]) or one whose torn frame ends like a footer
    ([torn_like_footer]) may leave a directory that does not open. *)
Theorem engine_survives (cfg : Config) (mode : DurabilityMode) (n : Z) (e : Engine) (s : m1Storage) (w w1 : world) :
  0 < Z.of_nat (cf_DedupeWindow cfg) < 2 ^ 32 → engine_life cfg e s w → crash w w1 → w_dir w1 = w_dir w → mode ≠ MemoryOnly → n < 2 ^ 32 →
  ∃ e' s' w', openM1Engine cfg mode n (with_faults [] w1) = (Ok (e', s'), w') ∧ resembles e e'
    ∧ ∀ cs, Forall (λ ca : Command * option gerror, command_ok ca.1) cs → (run cfg e cs).2 = (run cfg e' cs).2.
Proof.
  intros HW H Hc Hd Hm Hn. destruct (life_backed _ _ _ _ HW H) as (log&latest&e0&B).
  destruct (backed_reopens _ _ _ _ _ _ _ mode n _ B Hc Hd Hm Hn) as (e'&s'&w'&E&Hr&B'). exists e', s', w'. split; [done|]. split; [done|].
  intros cs Hcs. apply run_alike; [apply B|apply B'|done|]. split; [done|]. by rewrite (bk_healthy _ _ _ _ _ _ _ B), (bk_healthy _ _ _ _ _ _ _ B').
Qed.

(** ** A life *)

(** With a snapshot every [every] records. *)
Definition life_config (every : Z) : Config :=
  {| cf_GoBehavioralControl := true; cf_FullCheckpointWAL := false; cf_JSONDedupeSnapshot := false; cf_DedupeWindow := 3; cf_SnapshotEvery := every |}.
Definition life_storage : m1Storage :=
  {| st_mode := BatchSync; st_segmentRecords := 4; st_file := None;
     st_segment := {| sm_id := 0; sm_first := 0; sm_last := 0; sm_records := 0; sm_closed := false; sm_size := 0 |};
     st_nextSegmentID := 1; st_programID := expectedProgramID (life_config 0) |}.
Definition first_command : Command := example_command "a" Create 7 0 100.
Definition second_command : Command := example_command "b" Deposit 7 0 5.
Definition step1 := execute_on (life_config 2) new_engine first_command life_storage empty_world.
Definition step2 := snapshotAtFrontier (life_config 2) no_failure step1.1.1.1 step1.1.2 step1.2.
Definition step3 := execute_on (life_config 2) step1.1.1.1 second_command step2.1.2 step2.2.

Lemma after_crash_dir w : w_dir (after_crash w) = w_dir w.
Proof. done. Qed.

Lemma example_fits id k a b n : nm_Payload k = JNull → u64_range a → u64_range b → i64_range n → i64_range (nm_Tag k) →
  utf8_valid (bs id) = true → zlen (bs id) ≤ 2 ^ 20 → command_fits (example_command id k a b n).
Proof. intros. split; [by split|done..]. Qed.

Lemma engine_survives_witness :
  ∃ e' s' w', openM1Engine (life_config 2) BatchSync 4 (with_faults [] (after_crash step3.2)) = (Ok (e', s'), w') ∧ resembles step3.1.1.1 e'.
Proof.
  destruct (engine_survives (life_config 2) BatchSync 4 step3.1.1.1 step3.1.2 step3.2 (after_crash step3.2)) as (e'&s'&w'&E&H&_).
  - cbn. lia.
  - eapply (life_command (life_config 2) step1.1.1.1 step2.1.2 step2.2 second_command _ step3.1.1.2.1 step3.1.1.2.2).
    + eapply (life_snapshot (life_config 2) step1.1.1.1 step1.1.2 step1.2 (snapshot_path 1)).
      * eapply (life_command (life_config 2) new_engine life_storage empty_world first_command _ step1.1.1.2.1 step1.1.1.2.2).
        -- apply (life_born (life_config 2) BatchSync 4 empty_world new_engine life_storage empty_world []); [reflexivity|discriminate|lia|vm_compute; reflexivity].
        -- apply example_fits; first [by vm_compute|vm_compute; discriminate].
        -- vm_compute. reflexivity.
        -- destruct step1 as [[[? []]]] eqn:E1; exact E1.
        -- vm_compute. reflexivity.
        -- exact I.
        -- vm_compute. reflexivity.
      * vm_compute. reflexivity.
      * assert (step2.1.1 = Ok (snapshot_path 1)) as E2 by (vm_compute; reflexivity). destruct step2 as [[]] eqn:E3. cbn in E2. subst. exact E3.
    + apply example_fits; first [by vm_compute|vm_compute; discriminate].
    + vm_compute. reflexivity.
    + destruct step3 as [[[? []]]] eqn:E1; exact E1.
    + vm_compute. reflexivity.
    + exact I.
    + vm_compute. reflexivity.
  - apply crash_quiet. apply (bool_decide_eq_true_1 _). vm_compute. reflexivity.
  - apply after_crash_dir.
  - discriminate.
  - lia.
  - exists e', s', w'. split; [exact E|exact H].
Defined.

(** ** A snapshot that fails after the footer *)

(** A command acknowledged, a snapshot whose close writes the footer and then fails
    to synchronize, and a command acknowledged after it. *)
Definition failing_sync : list fault := [FOk; FOk; FOk; FOk; FOk; FFail].
Definition after_failed_snapshot : outcome * res gerror bytes * outcome * world :=
  let '(e1, (o1, _), s1, w1) := execute_on (life_config 0) new_engine first_command life_storage (with_faults failing_sync empty_world) in
  let '(r, s2, w2) := snapshotAtFrontier (life_config 0) no_failure e1 s1 w1 in
  let '(e3, (o3, _), s3, w3) := execute_on (life_config 0) e1 second_command s2 w2 in
  (o1, r, o3, w3).

(** The segment stays open behind its footer: the next command is appended there and
    acknowledged, and the directory does not open any more. *)
Example footer_inside :
  let '(o1, r, o3, w) := after_failed_snapshot in
  match o1, o3 with Ok a, Ok b => rs_Accepted a = true ∧ rs_Accepted b = true | _, _ => False end
  ∧ r = Err (EOS "sync") ∧ match (openM1Engine (life_config 0) BatchSync 4 w).1 with Ok _ => False | Err _ => True end.
Proof. vm_compute. done. Qed.

(** With a snapshot every two records the error is dropped: three commands are
    acknowledged, nothing was reported, and the directory does not open. *)
Definition third_command : Command := example_command "c" Deposit 7 0 1.
Definition after_dropped_error : outcome * outcome * option (res gerror bytes) * outcome * world :=
  let w := with_faults [FOk; FOk; FOk; FOk; FOk; FOk; FOk; FFail] empty_world in
  let '(e1, (o1, _), s1, w1) := execute_on (life_config 2) new_engine first_command life_storage w in
  let '(e2, (o2, r), s2, w2) := execute_on (life_config 2) e1 second_command s1 w1 in
  let '(e3, (o3, _), s3, w3) := execute_on (life_config 2) e2 third_command s2 w2 in
  (o1, o2, r, o3, w3).
Example dropped_error :
  let '(o1, o2, r, o3, w) := after_dropped_error in
  match o1, o2, o3 with Ok a, Ok b, Ok c => rs_Accepted a = true ∧ rs_Accepted b = true ∧ rs_Accepted c = true | _, _, _ => False end
  ∧ r = Some (Err (EOS "sync")) ∧ match (openM1Engine (life_config 2) BatchSync 4 w).1 with Ok _ => False | Err _ => True end.
Proof. vm_compute. done. Qed.
