(* ===== verification/M5.v ===== *)
(** * Product catalogs, cursors and their lanes ([internal/m5/], [internal/m5compiled/])

    The dataset, queries as cursors over it, the cache with its indexes, the
    compiled snapshot with its tables, and the binary file of a catalog.  A lane answers the four queries; an index out of
    range, where Go panics, is an error. *)

From Stdlib Require Import ZArith Lia Strings.Byte Strings.String.
From stdpp Require Import base decidable countable list sorting.
From S2P Require Import Prelude GoText GoBinary GoJson Errors.

Local Open Scope Z_scope.
Local Open Scope go_scope.

(** ** The catalog ([catalog.go]) *)

Definition SchemaVersion : bytes := bs "product-v1".
Definition SnapshotVersion : bytes := bs "m5-seed-20260821-n10000".
Definition FirstProductID : Z := 1000001.
Definition CategoryCount : nat := 8.
Definition RegionCount : nat := 6.
Definition StatusDraft : Z := 0.
Definition StatusActive : Z := 1.
Definition StatusRetired : Z := 2.

Record Product := {
  pr_ID : Z; pr_Category : Z; pr_Status : Z; pr_PriceCents : Z; pr_RatingTenths : Z; pr_Region : Z; pr_Name : bytes }.
Definition zeroProduct : Product := Build_Product 0 0 0 0 0 0 [].
Record Projection := { pj_ID : Z; pj_PriceCents : Z }.
Definition project (p : Product) : Projection := {| pj_ID := pr_ID p; pj_PriceCents := pr_PriceCents p |}.
Record Identity := { id_SnapshotVersion : bytes; id_SnapshotHash : bytes; id_SchemaVersion : bytes; id_RowCount : nat }.

(** [fmt.Sprintf("Product-%06d", i)]. *)
Definition product_name (i : Z) : bytes := bs "Product-" ++ replicate (6 - length (dec i)) x30 ++ dec i.

Definition next_state (state : Z) : Z := u64 (state * 6364136223846793005 + 1442695040888963407).
Definition make_row (i : nat) (state : Z) : Product :=
  {| pr_ID := u32 (FirstProductID + Z.of_nat i);
     pr_Category := Z.shiftr state 17 mod 8;
     pr_Status := Z.shiftr state 29 mod 3;
     pr_PriceCents := u32 (199 + Z.shiftr state 7 mod 250000);
     pr_RatingTenths := 10 + Z.shiftr state 41 mod 41;
     pr_Region := Z.shiftr state 53 mod 6;
     pr_Name := product_name (Z.of_nat i + 1) |}.
Fixpoint generate (n i : nat) (state : Z) : list Product :=
  match n with
  | O => []
  | S n => let state := next_state state in make_row i state :: generate n (S i) state
  end.
Definition GenerateCatalog (n : nat) : list Product := generate n 0 20260821.

Definition product_hash (p : Product) : bytes :=
  put_u32 (pr_ID p) ++ le_put 1 (pr_Category p) ++ le_put 1 (pr_Status p) ++ put_u32 (pr_PriceCents p)
  ++ le_put 1 (pr_RatingTenths p) ++ le_put 1 (pr_Region p) ++ put_u32 (u32 (zlen (pr_Name p))) ++ pr_Name p.
Definition HashRows (rows : list Product) : bytes := hex_encode (sha256 (concat (map product_hash rows))).
Definition SnapshotIdentity (rows : list Product) : Identity :=
  {| id_SnapshotVersion := SnapshotVersion; id_SnapshotHash := HashRows rows; id_SchemaVersion := SchemaVersion; id_RowCount := length rows |}.

(** ** Cursors ([query.go]) *)

Inductive cursor_mode := cursorRows | cursorIDs | cursorCategoryScan | cursorPriceScan.

Record Cursor := {
  cu_rows : list Product; cu_ids : list Z; cu_pos : nat; cu_end : nat; cu_category : Z; cu_region : Z; cu_low : Z; cu_high : Z; cu_mode : cursor_mode }.
Definition zeroCursor : Cursor := Build_Cursor [] [] 0 0 0 0 0 0 cursorRows.
Definition RowsCursor (rows : list Product) : Cursor := Build_Cursor rows [] 0 (length rows) 0 0 0 0 cursorRows.
Definition IDsCursor (rows : list Product) (ids : list Z) : Cursor := Build_Cursor rows ids 0 (length ids) 0 0 0 0 cursorIDs.
Definition CategoryScanCursor (rows : list Product) (category : Z) : Cursor := Build_Cursor rows [] 0 (length rows) category 0 0 0 cursorCategoryScan.
Definition PriceScanCursor (rows : list Product) (low high : Z) : Cursor := Build_Cursor rows [] 0 (length rows) 0 0 low high cursorPriceScan.

Definition at_pos (c : Cursor) (pos : nat) : Cursor :=
  Build_Cursor (cu_rows c) (cu_ids c) pos (cu_end c) (cu_category c) (cu_region c) (cu_low c) (cu_high c) (cu_mode c).

(** [l[i]]. *)
Definition index {A} (l : list A) (i : nat) : res gerror A :=
  match l !! i with Some a => Ok a | None => Err (EMsg "index out of range") end.
Definition in_price (low high : Z) (p : Product) : bool := (low <=? pr_PriceCents p) && (pr_PriceCents p <=? high).

Fixpoint next_from (fuel : nat) (c : Cursor) : res gerror (option Product * Cursor) :=
  match fuel with
  | O => Ok (None, c)
  | S fuel =>
      if Nat.ltb (cu_pos c) (cu_end c) then
        let pos := cu_pos c in
        let c := at_pos c (S pos) in
        match cu_mode c with
        | cursorRows => let! row := index (cu_rows c) pos in Ok (Some row, c)
        | cursorIDs => let! id := index (cu_ids c) pos in let! row := index (cu_rows c) (Z.to_nat id) in Ok (Some row, c)
        | cursorCategoryScan =>
            let! row := index (cu_rows c) pos in
            if pr_Category row =? cu_category c then Ok (Some row, c) else next_from fuel c
        | cursorPriceScan =>
            let! row := index (cu_rows c) pos in
            if in_price (cu_low c) (cu_high c) row then Ok (Some row, c) else next_from fuel c
        end
      else Ok (None, c)
  end.
Definition Next (c : Cursor) : res gerror (option Product * Cursor) := next_from (cu_end c - cu_pos c) c.

(** The loop of a reader of the cursor. *)
Fixpoint drain_from (fuel : nat) (c : Cursor) : res gerror (list Product) :=
  match fuel with
  | O => Ok []
  | S fuel =>
      let! (row, c) := Next c in
      match row with None => Ok [] | Some row => let! rest := drain_from fuel c in Ok (row :: rest) end
  end.
Definition drain (c : Cursor) : res gerror (list Product) := drain_from (S (cu_end c - cu_pos c)) c.

Definition row_digest (id price : Z) : Z := u64 (u64 (id * 0x9e3779b185ebca87) + price).
Definition digest_row (s : Z * Z) (p : Product) : Z * Z := (s.1 + 1, u64 (s.2 + row_digest (pr_ID p) (pr_PriceCents p))).
Definition DigestProducts (c : Cursor) : res gerror (Z * Z) := let! rows := drain c in Ok (foldl digest_row (0, 0) rows).

Record ProjectionCursor := {
  pc_rows : list Projection; pc_products : list Product; pc_region : Z; pc_pos : nat; pc_end : nat; pc_scan : bool }.
Definition zeroProjectionCursor : ProjectionCursor := Build_ProjectionCursor [] [] 0 0 0 false.
Definition ProjectionsCursor (rows : list Projection) : ProjectionCursor := Build_ProjectionCursor rows [] 0 0 (length rows) false.
Definition ActiveRegionScanCursor (rows : list Product) (region : Z) : ProjectionCursor :=
  Build_ProjectionCursor [] rows region 0 (length rows) true.
Definition projection_at (c : ProjectionCursor) (pos : nat) : ProjectionCursor :=
  Build_ProjectionCursor (pc_rows c) (pc_products c) (pc_region c) pos (pc_end c) (pc_scan c).
Definition active_in (region : Z) (p : Product) : bool := (pr_Status p =? StatusActive) && (pr_Region p =? region).

Fixpoint projection_next_from (fuel : nat) (c : ProjectionCursor) : res gerror (option Projection * ProjectionCursor) :=
  match fuel with
  | O => Ok (None, c)
  | S fuel =>
      if Nat.ltb (pc_pos c) (pc_end c) then
        let pos := pc_pos c in
        let c := projection_at c (S pos) in
        if negb (pc_scan c) then let! row := index (pc_rows c) pos in Ok (Some row, c)
        else
          let! row := index (pc_products c) pos in
          if active_in (pc_region c) row then Ok (Some (project row), c) else projection_next_from fuel c
      else Ok (None, c)
  end.
Definition projection_next (c : ProjectionCursor) : res gerror (option Projection * ProjectionCursor) :=
  projection_next_from (pc_end c - pc_pos c) c.
Fixpoint projection_drain_from (fuel : nat) (c : ProjectionCursor) : res gerror (list Projection) :=
  match fuel with
  | O => Ok []
  | S fuel =>
      let! (row, c) := projection_next c in
      match row with None => Ok [] | Some row => let! rest := projection_drain_from fuel c in Ok (row :: rest) end
  end.
Definition projection_drain (c : ProjectionCursor) : res gerror (list Projection) := projection_drain_from (S (pc_end c - pc_pos c)) c.
Definition digest_projection (s : Z * Z) (p : Projection) : Z * Z := (s.1 + 1, u64 (s.2 + row_digest (pj_ID p) (pj_PriceCents p))).
Definition DigestProjections (c : ProjectionCursor) : res gerror (Z * Z) :=
  let! rows := projection_drain c in Ok (foldl digest_projection (0, 0) rows).

(** [rows[ids[mid]].PriceCents < target], halving the range. *)
Fixpoint lower_from (fuel : nat) (rows : list Product) (ids : list Z) (target : Z) (lo hi : nat) : res gerror nat :=
  match fuel with
  | O => Ok lo
  | S fuel =>
      if Nat.ltb lo hi then
        let mid := Nat.div2 (lo + hi) in
        let! id := index ids mid in
        let! row := index rows (Z.to_nat id) in
        if pr_PriceCents row <? target then lower_from fuel rows ids target (S mid) hi else lower_from fuel rows ids target lo mid
      else Ok lo
  end.
Definition lowerPrice (rows : list Product) (ids : list Z) (target : Z) : res gerror nat := lower_from (length ids) rows ids target 0 (length ids).

(** [l[a:b]]. *)
Definition slice {A} (l : list A) (a b : nat) : res gerror (list A) :=
  if Nat.leb a b && Nat.leb b (length l) then Ok (take (b - a) (drop a l)) else Err (EMsg "slice bounds out of range").

Definition SortedPriceCursor (rows : list Product) (ids : list Z) (low high : Z) : res gerror Cursor :=
  let! start := lowerPrice rows ids low in
  let! stop := if high =? 2 ^ 32 - 1 then Ok (length ids) else lowerPrice rows ids (u32 (high + 1)) in
  let! ids := slice ids start stop in
  Ok (IDsCursor rows ids).

(** ** Lanes *)

Class Lane (L : Type) := {
  lane_identity : L → Identity;
  find_by_id : L → Z → res gerror (option Product);
  find_by_category : L → Z → res gerror Cursor;
  price_between : L → Z → Z → res gerror Cursor;
  active_in_region : L → Z → res gerror ProjectionCursor }.

Definition FindByID (rows : list Product) (id : Z) : res gerror (option Product) :=
  if id <? FirstProductID then Ok None
  else
    let idx := Z.to_nat (u32 (id - FirstProductID)) in
    if Nat.leb (length rows) idx then Ok None
    else let! row := index rows idx in Ok (if pr_ID row =? id then Some row else None).

(** ** The cache ([cache.go]) *)

Record RuntimeCache := {
  rc_identity : Identity; rc_rows : list Product; rc_categoryRows : list Z; rc_categoryOffsets : list nat; rc_priceRows : list Z;
  rc_activeRegionRows : list Projection; rc_activeRegionOffsets : list nat }.

(** The groups one after another, with the place where each begins and the end. *)
Definition group_by {A} (group : nat → list A) (n : nat) : list A * list nat :=
  let '(all, offsets) := foldl (fun '(all, offsets) k => (all ++ group k, offsets ++ [length all])) ([], []) (seq 0 n) in
  (all, offsets ++ [length all]).

Definition numbered_rows (rows : list Product) : list (Z * Product) := imap (fun i p => (u32 (Z.of_nat i), p)) rows.
Definition category_group (rows : list Product) (category : nat) : list Z :=
  omap (fun ip : Z * Product => if pr_Category ip.2 =? Z.of_nat category then Some ip.1 else None) (numbered_rows rows).
Definition region_group (rows : list Product) (region : nat) : list Projection :=
  omap (fun p => if active_in (Z.of_nat region) p then Some (project p) else None) rows.

Definition row_at (rows : list Product) (id : Z) : Product := default zeroProduct (rows !! Z.to_nat id).
(** The order of [sort.Slice]: by price, then by identifier; it is total where
    the identifiers are distinct, so the sorted list is then the only one. *)
Definition price_le (rows : list Product) (i j : Z) : Prop :=
  let l := row_at rows i in let r := row_at rows j in
  pr_PriceCents l < pr_PriceCents r ∨ pr_PriceCents l = pr_PriceCents r ∧ pr_ID l ≤ pr_ID r.
#[export] Instance price_le_dec rows i j : Decision (price_le rows i j).
Proof. unfold price_le. apply _. Defined.

Definition NewRuntimeCache (rows : list Product) : RuntimeCache :=
  let (categoryRows, categoryOffsets) := group_by (category_group rows) CategoryCount in
  let (activeRows, activeOffsets) := group_by (region_group rows) RegionCount in
  {| rc_identity := SnapshotIdentity rows; rc_rows := rows; rc_categoryRows := categoryRows; rc_categoryOffsets := categoryOffsets;
     rc_priceRows := merge_sort (price_le rows) (map fst (numbered_rows rows)); rc_activeRegionRows := activeRows;
     rc_activeRegionOffsets := activeOffsets |}.

Definition FindByCategory (c : RuntimeCache) (category : Z) : res gerror Cursor :=
  if Z.of_nat CategoryCount <=? category then Ok zeroCursor
  else
    let! start := index (rc_categoryOffsets c) (Z.to_nat category) in
    let! stop := index (rc_categoryOffsets c) (Z.to_nat (category + 1)) in
    let! ids := slice (rc_categoryRows c) start stop in
    Ok (IDsCursor (rc_rows c) ids).
Definition ProductsWithPriceBetween (c : RuntimeCache) (low high : Z) : res gerror Cursor :=
  if high <? low then Ok zeroCursor else SortedPriceCursor (rc_rows c) (rc_priceRows c) low high.
Definition ActiveProductsInRegion (c : RuntimeCache) (region : Z) : res gerror ProjectionCursor :=
  if Z.of_nat RegionCount <=? region then Ok zeroProjectionCursor
  else
    let! start := index (rc_activeRegionOffsets c) (Z.to_nat region) in
    let! stop := index (rc_activeRegionOffsets c) (Z.to_nat (region + 1)) in
    let! rows := slice (rc_activeRegionRows c) start stop in
    Ok (ProjectionsCursor rows).

Definition RuntimeCache_lane : Lane RuntimeCache := {|
  lane_identity := rc_identity; find_by_id := fun c => FindByID (rc_rows c); find_by_category := FindByCategory;
  price_between := ProductsWithPriceBetween; active_in_region := ActiveProductsInRegion |}.
#[export] Existing Instance RuntimeCache_lane.

(** ** The compiled snapshot ([cmd/m5gen], [internal/m5compiled]) *)

Record indexes := {
  ix_categoryRows : list Z; ix_priceRows : list Z; ix_categoryOffsets : list nat; ix_activeIDs : list Z; ix_activePrices : list Z;
  ix_activeOffsets : list nat }.
Definition makeIndexes (rows : list Product) : indexes :=
  let (categoryRows, categoryOffsets) := group_by (fun category => List.filter (fun i => pr_Category (row_at rows i) =? Z.of_nat category) (map Z.of_nat (seq 0 (length rows)))) CategoryCount in
  let (activeIDs, activeOffsets) := group_by (fun region => map pr_ID (List.filter (active_in (Z.of_nat region)) rows)) RegionCount in
  let (activePrices, _) := group_by (fun region => map pr_PriceCents (List.filter (active_in (Z.of_nat region)) rows)) RegionCount in
  {| ix_categoryRows := categoryRows; ix_priceRows := merge_sort (price_le rows) (map Z.of_nat (seq 0 (length rows)));
     ix_categoryOffsets := categoryOffsets; ix_activeIDs := activeIDs; ix_activePrices := activePrices; ix_activeOffsets := activeOffsets |}.

(** The tables of [snapshot.generated.go]. *)
Record snapshot := {
  snapshotHash : bytes; products : list Product; categoryRows : list Z; categoryOffsets : list Z; priceRows : list Z;
  activeProjections : list Projection; activeOffsets : list Z }.
(** The tables [EmitCompiledSnapshot] writes for the rows and their indexes.  The
    text of the artifact, where names stand between quotes unescaped, and the Oct
    compiler that runs it are not modelled, so that the literals committed in
    [snapshot.generated.go] are these tables is not proved: [M5Theorems.committed_rows]
    compares the first rows, and evaluating [HashRows] on the 10,000 rows of
    [GenerateCatalog] gives the committed [snapshotHash]. *)
Definition emitSnapshot (rows : list Product) : snapshot :=
  let x := makeIndexes rows in
  {| snapshotHash := id_SnapshotHash (SnapshotIdentity rows); products := rows; categoryRows := ix_categoryRows x;
     categoryOffsets := map Z.of_nat (ix_categoryOffsets x); priceRows := ix_priceRows x;
     activeProjections := zip_with Build_Projection (ix_activeIDs x) (ix_activePrices x); activeOffsets := map Z.of_nat (ix_activeOffsets x) |}.

Definition compiledIdentity (s : snapshot) : Identity :=
  {| id_SnapshotVersion := SnapshotVersion; id_SnapshotHash := snapshotHash s; id_SchemaVersion := SchemaVersion; id_RowCount := length (products s) |}.
Definition FindByCategoryD (s : snapshot) (c : Z) : Cursor := CategoryScanCursor (products s) c.
Definition PriceBetweenD (s : snapshot) (low high : Z) : Cursor := if high <? low then zeroCursor else PriceScanCursor (products s) low high.
Definition ActiveRegionD (s : snapshot) (r : Z) : ProjectionCursor := ActiveRegionScanCursor (products s) r.
Definition FindByCategoryE (s : snapshot) (c : Z) : res gerror Cursor :=
  if Z.of_nat CategoryCount <=? c then Ok zeroCursor
  else
    let! a := index (categoryOffsets s) (Z.to_nat c) in
    let! b := index (categoryOffsets s) (Z.to_nat (c + 1)) in
    let! ids := slice (categoryRows s) (Z.to_nat a) (Z.to_nat b) in
    Ok (IDsCursor (products s) ids).
Definition PriceBetweenE (s : snapshot) (low high : Z) : res gerror Cursor :=
  if high <? low then Ok zeroCursor else SortedPriceCursor (products s) (priceRows s) low high.
Definition ActiveRegionE (s : snapshot) (r : Z) : res gerror ProjectionCursor :=
  if Z.of_nat RegionCount <=? r then Ok zeroProjectionCursor
  else
    let! a := index (activeOffsets s) (Z.to_nat r) in
    let! b := index (activeOffsets s) (Z.to_nat (r + 1)) in
    let! rows := slice (activeProjections s) (Z.to_nat a) (Z.to_nat b) in
    Ok (ProjectionsCursor rows).

Inductive ScanLane := scan_lane (s : snapshot).
Definition ScanLane_lane : Lane ScanLane := {|
  lane_identity := fun '(scan_lane s) => compiledIdentity s; find_by_id := fun '(scan_lane s) => FindByID (products s);
  find_by_category := fun '(scan_lane s) c => Ok (FindByCategoryD s c); price_between := fun '(scan_lane s) low high => Ok (PriceBetweenD s low high);
  active_in_region := fun '(scan_lane s) r => Ok (ActiveRegionD s r) |}.
#[export] Existing Instance ScanLane_lane.
Inductive IndexedLane := indexed_lane (s : snapshot).
Definition IndexedLane_lane : Lane IndexedLane := {|
  lane_identity := fun '(indexed_lane s) => compiledIdentity s; find_by_id := fun '(indexed_lane s) => FindByID (products s);
  find_by_category := fun '(indexed_lane s) => FindByCategoryE s; price_between := fun '(indexed_lane s) => PriceBetweenE s;
  active_in_region := fun '(indexed_lane s) => ActiveRegionE s |}.
#[export] Existing Instance IndexedLane_lane.

(** ** The binary file *)

Definition binaryMagic : bytes := bs "DBSM5BIN".

Definition encode_row (p : Product) : res gerror bytes :=
  let! _ := guard_err (65535 <? zlen (pr_Name p)) (EMsg "name too long") in
  Ok (put_u32 (pr_ID p) ++ le_put 1 (pr_Category p) ++ le_put 1 (pr_Status p) ++ put_u32 (pr_PriceCents p)
      ++ le_put 1 (pr_RatingTenths p) ++ le_put 1 (pr_Region p) ++ le_put 2 (zlen (pr_Name p)) ++ pr_Name p).
Fixpoint encode_rows (rows : list Product) : res gerror bytes :=
  match rows with [] => Ok [] | p :: rows => let! b := encode_row p in let! rest := encode_rows rows in Ok (b ++ rest) end.
(** The content [WriteBinary] writes. *)
Definition encodeBinary (rows : list Product) : res gerror bytes :=
  let! body := encode_rows rows in Ok (binaryMagic ++ put_u32 (u32 (zlen rows)) ++ body).

(** [io.ReadFull] of [n] bytes. *)
Definition read_full (n : nat) (data : bytes) : res gerror (bytes * bytes) :=
  if Nat.leb n (length data) then Ok (take n data, drop n data)
  else Err (if bool_decide (data = []) then EOS "EOF" else EOS "unexpected EOF").
Definition read_le (n : nat) (data : bytes) : res gerror (Z * bytes) := let! (b, rest) := read_full n data in Ok (le_get b, rest).

Definition decode_row (data : bytes) : res gerror (Product * bytes) :=
  let! (id, data) := read_le 4 data in
  let! (category, data) := read_le 1 data in
  let! (status, data) := read_le 1 data in
  let! (price, data) := read_le 4 data in
  let! (rating, data) := read_le 1 data in
  let! (region, data) := read_le 1 data in
  let! (len, data) := read_le 2 data in
  let! (name, data) := read_full (Z.to_nat len) data in
  Ok (Build_Product id category status price rating region name, data).
Fixpoint decode_rows (n : nat) (data : bytes) : res gerror (list Product * bytes) :=
  match n with
  | O => Ok ([], data)
  | S n => let! (p, data) := decode_row data in let! (rows, data) := decode_rows n data in Ok (p :: rows, data)
  end.
Definition DecodeBinary (data : bytes) : res gerror (list Product) :=
  let! (magic, data) := read_full 8 data in
  let! _ := guard_err (negb (bool_decide (magic = binaryMagic))) (EMsg "invalid M5 binary magic") in
  let! (count, data) := read_le 4 data in
  let! (rows, _) := decode_rows (Z.to_nat count) data in
  Ok rows.

(** ** The JSON file *)

(** An unsigned field narrower than 64 bits. *)
Definition into_uint (bound old : Z) (j : json) : option Z := v ← into_u64 old j; if v <? bound then Some v else None.

Definition product_json (p : Product) : json :=
  JObj [(bs "ID", JNum (dec (pr_ID p))); (bs "Category", JNum (dec (pr_Category p))); (bs "Status", JNum (dec (pr_Status p)));
        (bs "PriceCents", JNum (dec (pr_PriceCents p))); (bs "RatingTenths", JNum (dec (pr_RatingTenths p)));
        (bs "Region", JNum (dec (pr_Region p))); (bs "Name", JStr (pr_Name p))].
Definition product_member (p : Product) (m : bytes * json) : option Product :=
  let '(Build_Product i c s n r g name) := p in
  if is_field "ID" m.1 then z ← into_uint (2 ^ 32) i m.2; Some (Build_Product z c s n r g name)
  else if is_field "Category" m.1 then z ← into_uint 256 c m.2; Some (Build_Product i z s n r g name)
  else if is_field "Status" m.1 then z ← into_uint 256 s m.2; Some (Build_Product i c z n r g name)
  else if is_field "PriceCents" m.1 then z ← into_uint (2 ^ 32) n m.2; Some (Build_Product i c s z r g name)
  else if is_field "RatingTenths" m.1 then z ← into_uint 256 r m.2; Some (Build_Product i c s n z g name)
  else if is_field "Region" m.1 then z ← into_uint 256 g m.2; Some (Build_Product i c s n r z name)
  else if is_field "Name" m.1 then z ← into_str name m.2; Some (Build_Product i c s n r g z)
  else Some p.

(** The content [WriteJSON] writes for a slice that is not nil, and what
    [ReadJSON] makes of the content of a file. *)
Definition encodeJSON (rows : list Product) : bytes := print (JArr (map product_json rows)).
Definition decodeJSON (data : bytes) : res gerror (list Product) :=
  match (j ← parse data; into_list (into_struct product_member zeroProduct) j) with Some rows => Ok rows | None => Err (EMsg "json") end.
