(* ===== verification/M5Theorems.v ===== *)
(** * Theorems on product catalogs

    First cursors, groups and price indexes, then the lanes, what clients of two
    lanes see, the generated catalog and the files.  What a cursor still has to give, the group a pair of offsets selects, and
    the range of a sorted index a pair of binary searches selects. *)

From Stdlib Require Import ZArith Lia Strings.Byte Strings.String Sorted.
From stdpp Require Import base decidable countable list sorting.
From S2P Require Import Prelude GoText GoBinary GoJson Errors KeyedRecovery ResearchWalLemmas ResearchSnapshot ResearchRestore M5.

Local Open Scope Z_scope.
Local Open Scope go_scope.

Abbreviation bfilter := (@List.filter _).

Lemma index_ok {A} (l : list A) i a : l !! i = Some a → index l i = Ok a.
Proof. unfold index. by intros ->. Qed.

(** ** Cursors *)

Section Cursors.
Local Open Scope nat_scope.

Definition answers (c : Cursor) : list Product :=
  match cu_mode c with
  | cursorRows => drop (cu_pos c) (cu_rows c)
  | cursorIDs => map (row_at (cu_rows c)) (drop (cu_pos c) (cu_ids c))
  | cursorCategoryScan => bfilter (fun p => (pr_Category p =? cu_category c)%Z) (drop (cu_pos c) (cu_rows c))
  | cursorPriceScan => bfilter (in_price (cu_low c) (cu_high c)) (drop (cu_pos c) (cu_rows c))
  end.

Definition valid_id (rows : list Product) (id : Z) : Prop := rows !! Z.to_nat id = Some (row_at rows id).
Lemma valid_id_lt rows id : Z.to_nat id < length rows → valid_id rows id.
Proof. intros H. unfold valid_id, row_at. by destruct (lookup_lt_is_Some_2 _ _ H) as [p ->]. Qed.

Definition cursor_ok (c : Cursor) : Prop :=
  match cu_mode c with
  | cursorIDs => cu_end c = length (cu_ids c) ∧ Forall (valid_id (cu_rows c)) (cu_ids c)
  | _ => cu_end c = length (cu_rows c)
  end.

Lemma cursor_done c : cursor_ok c → cu_end c ≤ cu_pos c → answers c = [].
Proof.
  unfold cursor_ok, answers. intros Hc Hp.
  destruct (cu_mode c); [|destruct Hc|..]; rewrite drop_ge by lia; done.
Qed.

Lemma next_from_ok fuel c :
  cursor_ok c → cu_end c - cu_pos c ≤ fuel →
  ∃ c', next_from fuel c = Ok (head (answers c), c') ∧ cursor_ok c' ∧ answers c' = tail (answers c) ∧ cu_end c' = cu_end c
    ∧ (answers c ≠ [] → cu_pos c < cu_pos c').
Proof.
  revert c. induction fuel as [|fuel IH]; intros c Hc Hf; cbn [next_from].
  { exists c. rewrite cursor_done by (done || lia). done. }
  destruct (Nat.ltb_spec (cu_pos c) (cu_end c)) as [Hlt|Hge];
    [|exists c; rewrite cursor_done by (done || lia); done].
  destruct c as [rows ids pos stop cat region low high mode]; unfold cursor_ok, answers, at_pos in *; cbn in *.
  destruct mode; cbn in *; [|destruct Hc as [Hc Hv]|..].
  1,3,4: destruct (lookup_lt_is_Some_2 rows pos) as [p Hp]; [lia|]; rewrite (index_ok _ _ _ Hp), (drop_S _ _ _ Hp); cbn.
  - eexists. split_and!; try reflexivity; cbn; try done; intros; lia.
  - destruct (pr_Category p =? cat)%Z eqn:E; [eexists; split_and!; try reflexivity; cbn; try done; intros; lia|].
    destruct (IH (Build_Cursor rows ids (S pos) stop cat region low high cursorCategoryScan)) as (c'&Hn&?&?&?&Hm); [done|cbn; lia|].
    exists c'. split_and!; try done. intros Ha. specialize (Hm Ha). cbn in *. lia.
  - destruct (in_price low high p) eqn:E; [eexists; split_and!; try reflexivity; cbn; try done; intros; lia|].
    destruct (IH (Build_Cursor rows ids (S pos) stop cat region low high cursorPriceScan)) as (c'&Hn&?&?&?&Hm); [done|cbn; lia|].
    exists c'. split_and!; try done. intros Ha. specialize (Hm Ha). cbn in *. lia.
  - destruct (lookup_lt_is_Some_2 ids pos) as [i Hi]; [lia|]. rewrite (index_ok _ _ _ Hi), (drop_S _ _ _ Hi). cbn.
    rewrite Forall_lookup in Hv. rewrite (index_ok _ _ _ (Hv _ _ Hi)).
    eexists. split_and!; try reflexivity; cbn; [by rewrite <- Forall_lookup in Hv|intros; lia].
Qed.

Lemma drain_from_ok fuel c : cursor_ok c → cu_end c - cu_pos c < fuel → drain_from fuel c = Ok (answers c).
Proof.
  revert c. induction fuel as [|fuel IH]; intros c Hc Hf; cbn [drain_from]; [lia|].
  destruct (next_from_ok (cu_end c - cu_pos c) c Hc ltac:(lia)) as (c'&Hn&Hc'&Ht&He&Hm).
  unfold Next. rewrite Hn. cbn.
  destruct (answers c) as [|p l] eqn:Ha; [done|]. cbn in *.
  assert (cu_pos c < cu_end c) by (destruct (decide (cu_end c ≤ cu_pos c)); [by rewrite cursor_done in Ha|lia]).
  rewrite IH; [by rewrite Ht|done|]. specialize (Hm ltac:(done)). lia.
Qed.

Lemma drain_ok c : cursor_ok c → drain c = Ok (answers c).
Proof. intros Hc. apply drain_from_ok; [done|lia]. Qed.

Definition projections (c : ProjectionCursor) : list Projection :=
  if pc_scan c then map project (bfilter (active_in (pc_region c)) (drop (pc_pos c) (pc_products c)))
  else drop (pc_pos c) (pc_rows c).
Definition projection_ok (c : ProjectionCursor) : Prop :=
  pc_end c = if pc_scan c then length (pc_products c) else length (pc_rows c).

Lemma projection_done c : projection_ok c → pc_end c ≤ pc_pos c → projections c = [].
Proof.
  unfold projection_ok, projections. intros Hc Hp. destruct (pc_scan c); rewrite drop_ge by lia; done.
Qed.

Lemma projection_next_ok fuel c :
  projection_ok c → pc_end c - pc_pos c ≤ fuel →
  ∃ c', projection_next_from fuel c = Ok (head (projections c), c') ∧ projection_ok c' ∧ projections c' = tail (projections c)
    ∧ pc_end c' = pc_end c ∧ (projections c ≠ [] → pc_pos c < pc_pos c').
Proof.
  revert c. induction fuel as [|fuel IH]; intros c Hc Hf; cbn [projection_next_from].
  { exists c. rewrite projection_done by (done || lia). done. }
  destruct (Nat.ltb_spec (pc_pos c) (pc_end c)) as [Hlt|Hge];
    [|exists c; rewrite projection_done by (done || lia); done].
  destruct c as [rows ps region pos stop scan]; unfold projection_ok, projections, projection_at in *; cbn in *.
  destruct scan; cbn in *.
  - destruct (lookup_lt_is_Some_2 ps pos) as [p Hp]; [lia|]. rewrite (index_ok _ _ _ Hp), (drop_S _ _ _ Hp). cbn.
    destruct (active_in region p) eqn:E; [eexists; split_and!; try reflexivity; cbn; try done; intros; lia|].
    destruct (IH (Build_ProjectionCursor rows ps region (S pos) stop true)) as (c'&Hn&?&?&?&Hm); [done|cbn; lia|].
    exists c'. split_and!; try done. intros Ha. specialize (Hm Ha). cbn in *. lia.
  - destruct (lookup_lt_is_Some_2 rows pos) as [p Hp]; [lia|]. rewrite (index_ok _ _ _ Hp), (drop_S _ _ _ Hp). cbn.
    eexists. split_and!; try reflexivity; cbn; try done; intros; lia.
Qed.

Lemma projection_drain_from_ok fuel c :
  projection_ok c → pc_end c - pc_pos c < fuel → projection_drain_from fuel c = Ok (projections c).
Proof.
  revert c. induction fuel as [|fuel IH]; intros c Hc Hf; cbn [projection_drain_from]; [lia|].
  destruct (projection_next_ok (pc_end c - pc_pos c) c Hc ltac:(lia)) as (c'&Hn&Hc'&Ht&He&Hm).
  unfold projection_next. rewrite Hn. cbn.
  destruct (projections c) as [|p l] eqn:Ha; [done|]. cbn in *.
  assert (pc_pos c < pc_end c) by (destruct (decide (pc_end c ≤ pc_pos c)); [by rewrite projection_done in Ha|lia]).
  rewrite IH; [by rewrite Ht|done|]. specialize (Hm ltac:(done)). lia.
Qed.

Lemma projection_drain_ok c : projection_ok c → projection_drain c = Ok (projections c).
Proof. intros Hc. apply projection_drain_from_ok; [done|lia]. Qed.
End Cursors.

(** ** Groups *)

Section Groups.
Local Open Scope nat_scope.
Context {A : Type}.
Implicit Types group : nat → list A.

Definition upto group (k : nat) : list A := concat (map group (seq 0 k)).
Lemma upto_S group k : upto group (S k) = upto group k ++ group k.
Proof. unfold upto. rewrite seq_S, map_app, concat_app. cbn. by rewrite app_nil_r. Qed.
Lemma upto_le group k n : k ≤ n → ∃ l, upto group n = upto group k ++ l.
Proof.
  intros Hk. induction Hk as [|n Hk [l IH]]; [exists []; by rewrite app_nil_r|].
  exists (l ++ group n). by rewrite upto_S, IH, app_assoc.
Qed.

Lemma group_by_eq group n : group_by group n = (upto group n, map (fun k => length (upto group k)) (seq 0 (S n))).
Proof.
  unfold group_by.
  assert (foldl (fun '(all, offsets) k => (all ++ group k, offsets ++ [length all])) ([], []) (seq 0 n)
    = (upto group n, map (fun k => length (upto group k)) (seq 0 n))) as ->.
  { induction n as [|n IH]; [done|]. rewrite seq_S, foldl_app, IH. cbn -[seq upto].
    by rewrite upto_S, map_app. }
  by rewrite seq_S, map_app.
Qed.

Lemma group_offset group n k : k ≤ n → (group_by group n).2 !! k = Some (length (upto group k)).
Proof. intros Hk. rewrite group_by_eq. cbn -[seq]. rewrite list_lookup_fmap, lookup_seq_lt by lia. done. Qed.

Lemma group_index group n k : k ≤ n → index (group_by group n).2 k = Ok (length (upto group k)).
Proof. intros Hk. by apply index_ok, group_offset. Qed.
Lemma group_index_map group n k : k ≤ n → index (map Z.of_nat (group_by group n).2) k = Ok (Z.of_nat (length (upto group k))).
Proof. intros Hk. apply index_ok. by rewrite list_lookup_fmap, group_offset. Qed.

Lemma group_slice group n k :
  k < n → slice (group_by group n).1 (length (upto group k)) (length (upto group (S k))) = Ok (group k).
Proof.
  intros Hk. rewrite group_by_eq. cbn [fst]. destruct (upto_le group (S k) n) as [l ->]; [lia|].
  unfold slice. rewrite upto_S, !length_app.
  rewrite (proj2 (Nat.leb_le _ _)) by lia. rewrite (proj2 (Nat.leb_le _ _)) by lia. cbn.
  rewrite <-app_assoc, drop_app_length, take_app_le by lia. rewrite take_ge by lia. done.
Qed.
End Groups.

Lemma upto_map {A B} (f : A → B) (group : nat → list A) k : upto (fun r => map f (group r)) k = map f (upto group k).
Proof. unfold upto. rewrite concat_map, map_map. done. Qed.
Lemma group_by_ext {A} (g h : nat → list A) n : (∀ k, g k = h k) → group_by g n = group_by h n.
Proof.
  intros He. rewrite !group_by_eq.
  assert (∀ k, upto g k = upto h k) as Hu by (intros k; unfold upto; f_equal; by apply map_ext).
  rewrite Hu. f_equal. apply map_ext. intros k. by rewrite Hu.
Qed.

(** ** Price indexes *)

Section Prices.
Variable rows : list Product.

Definition price (id : Z) : Z := pr_PriceCents (row_at rows id).

Lemma lower_from_search fuel ids target lo hi :
  Forall (valid_id rows) ids → (hi ≤ length ids)%nat →
  lower_from fuel rows ids target lo hi
  = Ok (sort_search fuel (fun h => match ids !! h with Some id => target <=? price id | None => true end) lo hi).
Proof.
  intros Hv. revert lo hi. induction fuel as [|fuel IH]; intros lo hi Hh; [done|]. cbn [lower_from sort_search].
  destruct (Nat.ltb_spec lo hi) as [Hlt|]; [|done].
  rewrite <-Nat.div2_div. cbn zeta. set (m := Nat.div2 (lo + hi)).
  assert (m < hi)%nat by (unfold m; rewrite Nat.div2_div; apply Nat.Div0.div_lt_upper_bound; lia).
  destruct (lookup_lt_is_Some_2 ids m) as [id Hid]; [lia|]. rewrite (index_ok _ _ _ Hid), Hid. cbn.
  rewrite Forall_lookup in Hv. rewrite (index_ok _ _ _ (Hv _ _ Hid)). cbn. fold (price id).
  rewrite Z.leb_antisym. destruct (price id <? target); cbn; apply IH; lia.
Qed.

Lemma lowerPrice_split l1 l2 target :
  Forall (valid_id rows) (l1 ++ l2) → Forall (fun id => price id < target) l1 → Forall (fun id => target ≤ price id) l2 →
  lowerPrice rows (l1 ++ l2) target = Ok (length l1).
Proof.
  intros Hv H1 H2. unfold lowerPrice. rewrite lower_from_search by done. f_equal.
  apply sort_search_spec; rewrite ?length_app; try lia.
  - intros h Hh. rewrite lookup_app_l by lia. destruct (lookup_lt_is_Some_2 l1 h) as [y Hy]; [lia|]. rewrite Hy.
    rewrite Forall_lookup in H1. apply Z.leb_gt. by eapply H1.
  - intros h Hh. destruct ((l1 ++ l2) !! h) as [y|] eqn:Hy; [|done].
    rewrite lookup_app_r in Hy by lia. rewrite Forall_lookup in H2. apply Z.leb_le. by eapply H2.
Qed.

Lemma sorted_split ids target :
  StronglySorted (fun i j => price i ≤ price j) ids →
  ∃ l1 l2, ids = l1 ++ l2 ∧ Forall (fun id => price id < target) l1 ∧ Forall (fun id => target ≤ price id) l2.
Proof.
  induction 1 as [|i ids Hs (l1&l2&->&H1&H2) Hi]; [by exists [], []|].
  destruct (decide (price i < target)).
  - exists (i :: l1), l2. repeat split; [|done]. by constructor.
  - exists [], (i :: l1 ++ l2). repeat split; [done|]. constructor; [lia|].
    eapply Forall_impl; [exact Hi|]. cbn. lia.
Qed.

Lemma bfilter_all {A} (f : A → bool) l : Forall (fun a => f a = true) l → bfilter f l = l.
Proof. induction 1 as [|a l H _ IH]; [done|]. cbn. by rewrite H, IH. Qed.
Lemma bfilter_none {A} (f : A → bool) l : Forall (fun a => f a = false) l → bfilter f l = [].
Proof. induction 1 as [|a l H _ IH]; [done|]. cbn. by rewrite H. Qed.
Lemma bfilter_map {A B} (f : B → bool) (g : A → B) l : bfilter f (map g l) = map g (bfilter (fun a => f (g a)) l).
Proof. induction l as [|a l IH]; [done|]. cbn. destruct (f (g a)); cbn; by rewrite IH. Qed.

(** The two searches cut out of a sorted index what lies in the range. *)
Lemma SortedPriceCursor_ok ids low high :
  Forall (valid_id rows) ids → StronglySorted (fun i j => price i ≤ price j) ids → Forall (fun id => price id < 2 ^ 32) ids →
  0 ≤ low ≤ high → high < 2 ^ 32 →
  SortedPriceCursor rows ids low high = Ok (IDsCursor rows (bfilter (fun id => in_price low high (row_at rows id)) ids)).
Proof.
  intros Hv Hs Hp Hl Hh. unfold SortedPriceCursor.
  destruct (sorted_split ids low Hs) as (l1&l2&->&H1&H2). rewrite (lowerPrice_split l1 l2) by done. cbn.
  assert (Hs2 : StronglySorted (fun i j => price i ≤ price j) l2) by (pose proof (sorted_drop _ (length l1) _ Hs) as Hd; by rewrite drop_app_length in Hd).
  destruct (sorted_split l2 (high + 1) Hs2) as (m&l3&->&Hm&H3).
  assert ((if high =? 2 ^ 32 - 1 then Ok (length (l1 ++ m ++ l3)) else lowerPrice rows (l1 ++ m ++ l3) (u32 (high + 1)))
    = Ok (length (l1 ++ m)) :> res gerror nat) as ->.
  { destruct (Z.eqb_spec high (2 ^ 32 - 1)) as [->|Hne].
    - assert (l3 = []) as ->; [|by rewrite app_nil_r].
      destruct l3 as [|i l3]; [done|]. exfalso. rewrite !Forall_app in Hp. destruct Hp as (_&_&Hp).
      apply Forall_cons in Hp as [Hp _]. apply Forall_cons in H3 as [H3 _]. lia.
    - rewrite u32_id by (split; lia). rewrite app_assoc. apply lowerPrice_split; [by rewrite <-app_assoc| |done].
      apply Forall_app. split; [|done]. eapply Forall_impl; [exact H1|]. cbn. lia. }
  cbn. unfold slice. rewrite !length_app.
  rewrite (proj2 (Nat.leb_le _ _)) by lia. rewrite (proj2 (Nat.leb_le _ _)) by lia. cbn.
  rewrite drop_app_length, take_app_le by lia. rewrite take_ge by lia.
  rewrite !List.filter_app, (bfilter_none _ l1), (bfilter_none _ l3), (bfilter_all _ m), app_nil_r; [done|..].
  - apply Forall_app in H2 as [H2 _]. rewrite Forall_forall in *. intros i Hi. unfold in_price. fold (price i).
    specialize (Hm i Hi). specialize (H2 i Hi). cbn in *. lia.
  - rewrite Forall_forall in *. intros i Hi. unfold in_price. fold (price i). specialize (H3 i Hi). cbn in *. lia.
  - rewrite Forall_forall in *. intros i Hi. unfold in_price. fold (price i). specialize (H1 i Hi). cbn in *. lia.
Qed.
End Prices.

(** ** The lanes agree, and the binary file of a catalog reads back

    What a lane promises, that the cache, the compiled scan and the compiled
    indexes keep it, what a client may conclude, and the round trip of the
    binary format with every cut of it refused. *)

(** ** Catalogs *)

Definition row_fits (p : Product) : Prop :=
  u32_range (pr_ID p) ∧ 0 ≤ pr_Category p < 256 ∧ 0 ≤ pr_Status p < 256 ∧ u32_range (pr_PriceCents p) ∧ 0 ≤ pr_RatingTenths p < 256
  ∧ 0 ≤ pr_Region p < 256 ∧ zlen (pr_Name p) ≤ 65535.

(** Identifiers are dense from the first, codes are known. *)
Record catalog_ok (rows : list Product) : Prop := {
  co_size : FirstProductID + zlen rows ≤ 2 ^ 32;
  co_ids : ∀ i p, rows !! i = Some p → pr_ID p = FirstProductID + Z.of_nat i;
  co_fits : Forall row_fits rows;
  co_codes : Forall (fun p => pr_Category p < Z.of_nat CategoryCount ∧ pr_Region p < Z.of_nat RegionCount) rows }.

Definition row_numbers (rows : list Product) : list Z := map Z.of_nat (seq 0 (length rows)).

Section Rows.
Variable rows : list Product.

Lemma row_numbers_valid : Forall (valid_id rows) (row_numbers rows).
Proof.
  apply Forall_fmap, Forall_seq. intros i Hi. apply valid_id_lt. cbn. lia.
Qed.

Lemma row_numbers_rows : map (row_at rows) (row_numbers rows) = rows.
Proof.
  apply list_eq. intros i. unfold row_numbers. rewrite !list_lookup_fmap.
  destruct (decide (i < length rows)%nat) as [Hi|Hi].
  - rewrite lookup_seq_lt by done. cbn. unfold row_at. rewrite Nat2Z.id.
    by destruct (lookup_lt_is_Some_2 _ _ Hi) as [p ->].
  - rewrite lookup_seq_ge, lookup_ge_None_2 by lia. done.
Qed.

Lemma row_numbers_filter f : map (row_at rows) (bfilter (fun i => f (row_at rows i)) (row_numbers rows)) = bfilter f rows.
Proof. by rewrite <-bfilter_map, row_numbers_rows. Qed.

Lemma category_group_numbers k :
  zlen rows ≤ 2 ^ 32 → category_group rows k = bfilter (fun i => pr_Category (row_at rows i) =? Z.of_nat k) (row_numbers rows).
Proof.
  intros Hl. unfold category_group, numbered_rows.
  assert (∀ l i, rows = take i rows ++ l → i = length (take i rows) →
    omap (fun ip : Z * Product => if pr_Category ip.2 =? Z.of_nat k then Some ip.1 else None) (imap (fun j p => (u32 (Z.of_nat (i + j)), p)) l)
    = bfilter (fun i => pr_Category (row_at rows i) =? Z.of_nat k) (map Z.of_nat (seq i (length l)))) as H.
  { induction l as [|p l IH]; intros i Hr Hi; [done|]. cbn -[u32].
    assert (rows !! i = Some p) as Hp by (rewrite Hr, Hi at 1; by apply list_lookup_middle).
    assert (Hlt := lookup_lt_Some _ _ _ Hp). unfold zlen in Hl.
    assert (row_at rows (Z.of_nat i) = p) as -> by (unfold row_at; by rewrite Nat2Z.id, Hp).
    rewrite Nat.add_0_r, u32_id by (split; lia).
    specialize (IH (S i)). erewrite (imap_ext _ (λ j p, (u32 (Z.of_nat (S i + j)), p)) l) by (intros; cbn; by rewrite Nat.add_succ_r).
    rewrite IH; [by destruct (_ =? _)| |].
    - rewrite (take_S_r _ _ _ Hp), <-app_assoc. done.
    - rewrite length_take. lia. }
  apply (H rows 0%nat); done.
Qed.

Lemma numbered_rows_numbers : zlen rows ≤ 2 ^ 32 → map fst (numbered_rows rows) = row_numbers rows.
Proof.
  intros Hl. unfold numbered_rows, row_numbers, zlen in *. rewrite fmap_imap.
  apply list_eq. intros i. rewrite list_lookup_imap, list_lookup_fmap.
  destruct (decide (i < length rows)%nat) as [Hi|Hi].
  - rewrite lookup_seq_lt by done. destruct (lookup_lt_is_Some_2 _ _ Hi) as [p ->]. cbn -[u32].
    rewrite u32_id by (split; lia). done.
  - rewrite lookup_seq_ge, lookup_ge_None_2 by lia. done.
Qed.

#[local] Instance price_le_trans : Transitive (price_le rows).
Proof. intros i j k. unfold price_le. cbn. lia. Qed.
#[local] Instance price_le_total : Total (price_le rows).
Proof. intros i j. unfold price_le. cbn. lia. Qed.

Definition price_index : list Z := merge_sort (price_le rows) (row_numbers rows).
Lemma price_index_perm : price_index ≡ₚ row_numbers rows.
Proof. apply merge_sort_Permutation. Qed.
Lemma price_index_sorted : StronglySorted (price_le rows) price_index.
Proof. apply StronglySorted_merge_sort; apply _. Qed.
Lemma price_index_valid : Forall (valid_id rows) price_index.
Proof. rewrite price_index_perm. apply row_numbers_valid. Qed.
End Rows.

(** ** What a lane promises *)

Definition category_rows {L} `{Lane L} (l : L) (c : Z) : res gerror (list Product) := let! cur := find_by_category l c in drain cur.
Definition price_rows {L} `{Lane L} (l : L) (low high : Z) : res gerror (list Product) := let! cur := price_between l low high in drain cur.
Definition region_rows {L} `{Lane L} (l : L) (r : Z) : res gerror (list Projection) := let! cur := active_in_region l r in projection_drain cur.

Definition known_id (rows : list Product) (id : Z) : option Product := List.find (fun p => pr_ID p =? id) rows.

Class LaneOK {L} `{Lane L} (rows : list Product) (l : L) : Prop := {
  identity_ok : lane_identity l = SnapshotIdentity rows;
  id_ok id : u32_range id → find_by_id l id = Ok (known_id rows id);
  category_ok c : 0 ≤ c < 256 → category_rows l c = Ok (bfilter (fun p => pr_Category p =? c) rows);
  prices_ok low high : u32_range low → u32_range high → ∃ found, price_rows l low high = Ok found ∧ found ≡ₚ bfilter (in_price low high) rows;
  region_ok r : 0 ≤ r < 256 → region_rows l r = Ok (map project (bfilter (active_in r) rows)) }.

Section Lanes.
Variable rows : list Product.
Hypothesis Hrows : catalog_ok rows.

Lemma rows_small : zlen rows ≤ 2 ^ 32.
Proof. pose proof (co_size _ Hrows). unfold FirstProductID in *. lia. Qed.

Lemma find_at i p : rows !! i = Some p → known_id rows (pr_ID p) = Some p.
Proof.
  intros Hi. unfold known_id. destruct (List.find _ rows) as [q|] eqn:Hf.
  - apply List.find_some in Hf as [Hq Hid]. apply list_elem_of_In, list_elem_of_lookup in Hq as [j Hj].
    rewrite (co_ids _ Hrows _ _ Hi), (co_ids _ Hrows _ _ Hj) in Hid. assert (i = j) as -> by lia. by simplify_eq.
  - apply list_elem_of_lookup_2, list_elem_of_In in Hi. specialize (List.find_none _ _ Hf _ Hi). cbn. lia.
Qed.
Lemma find_out id : (∀ i p, rows !! i = Some p → pr_ID p ≠ id) → known_id rows id = None.
Proof.
  intros Hn. unfold known_id. destruct (List.find _ rows) as [q|] eqn:Hf; [|done].
  apply List.find_some in Hf as [Hq Hid]. apply list_elem_of_In, list_elem_of_lookup in Hq as [j Hj].
  destruct (Hn _ _ Hj). lia.
Qed.

Lemma FindByID_ok id : u32_range id → FindByID rows id = Ok (known_id rows id).
Proof.
  intros Hid. unfold FindByID. pose proof (co_ids _ Hrows) as Hids. pose proof rows_small. unfold zlen in *.
  destruct (Z.ltb_spec id FirstProductID); [rewrite find_out; [done|]; intros i p Hi; rewrite (Hids _ _ Hi); lia|].
  rewrite u32_id by (unfold FirstProductID in *; destruct Hid; split; lia).
  destruct (Nat.leb_spec (length rows) (Z.to_nat (id - FirstProductID))).
  { rewrite find_out; [done|]. intros i p Hi. rewrite (Hids _ _ Hi). apply lookup_lt_Some in Hi. lia. }
  destruct (lookup_lt_is_Some_2 rows (Z.to_nat (id - FirstProductID))) as [p Hp]; [done|].
  rewrite (index_ok _ _ _ Hp). cbn. assert (pr_ID p = id) as He by (rewrite (Hids _ _ Hp); lia).
  rewrite <-He at 1. rewrite Z.eqb_refl. by rewrite <-He, (find_at _ _ Hp).
Qed.

Lemma no_category c : Z.of_nat CategoryCount ≤ c → bfilter (fun p => pr_Category p =? c) rows = [].
Proof.
  intros Hc. apply bfilter_none. eapply Forall_impl; [exact (co_codes _ Hrows)|]. cbn. intros p [Hp _]. lia.
Qed.
Lemma no_region r : Z.of_nat RegionCount ≤ r → bfilter (active_in r) rows = [].
Proof.
  intros Hr. apply bfilter_none. eapply Forall_impl; [exact (co_codes _ Hrows)|]. cbn. intros p [_ Hp].
  unfold active_in. apply andb_false_iff. right. lia.
Qed.

Lemma drain_ids ids : Forall (valid_id rows) ids → drain (IDsCursor rows ids) = Ok (map (row_at rows) ids).
Proof. intros Hv. rewrite drain_ok; done. Qed.
Lemma drain_projections ps : projection_drain (ProjectionsCursor ps) = Ok ps.
Proof. by rewrite projection_drain_ok. Qed.

Definition category_numbers (k : nat) : list Z := bfilter (fun i => pr_Category (row_at rows i) =? Z.of_nat k) (row_numbers rows).
Lemma category_numbers_ok c : 0 ≤ c →
  drain (IDsCursor rows (category_numbers (Z.to_nat c))) = Ok (bfilter (fun p => pr_Category p =? c) rows).
Proof.
  intros Hc. rewrite drain_ids.
  - unfold category_numbers. rewrite Z2Nat.id by done. by rewrite <-(row_numbers_filter rows (fun p => pr_Category p =? c)).
  - pose proof (row_numbers_valid rows) as Hv. rewrite Forall_forall in *. intros i Hi. apply Hv.
    apply list_elem_of_In in Hi. apply List.filter_In in Hi as [Hi _]. by apply list_elem_of_In.
Qed.

Definition price_found (low high : Z) : list Product := bfilter (in_price low high) (map (row_at rows) (price_index rows)).
Lemma price_found_perm low high : price_found low high ≡ₚ bfilter (in_price low high) rows.
Proof.
  unfold price_found. rewrite <-(row_numbers_rows rows) at 3.
  assert (∀ l k : list Product, l ≡ₚ k → bfilter (in_price low high) l ≡ₚ bfilter (in_price low high) k) as H.
  { induction 1; cbn; repeat case_match; eauto using Permutation. }
  apply H. apply Permutation_map, price_index_perm.
Qed.

Lemma sorted_price_ok low high :
  u32_range low → u32_range high →
  (let! cur := if high <? low then Ok zeroCursor else SortedPriceCursor rows (price_index rows) low high in drain cur)
  = Ok (price_found low high).
Proof.
  intros [Hl _] [_ Hh]. destruct (Z.ltb_spec high low).
  - cbn. unfold price_found. rewrite bfilter_none; [done|]. apply Forall_forall. intros p _. unfold in_price. lia.
  - rewrite SortedPriceCursor_ok; [|apply price_index_valid| |..|done]; [..|lia].
    + cbn -[drain IDsCursor]. rewrite drain_ids; [by rewrite <-bfilter_map|].
      pose proof (price_index_valid rows) as Hv. rewrite Forall_forall in *. intros i Hi. apply Hv.
      apply list_elem_of_In in Hi. apply List.filter_In in Hi as [Hi _]. by apply list_elem_of_In.
    + pose proof (price_index_sorted rows) as Hs. induction Hs as [|i l Hs IH Hi]; constructor; [done|].
      eapply Forall_impl; [exact Hi|]. intros j Hj. unfold price_le, price in *. cbn in *. lia.
    + pose proof (price_index_valid rows) as Hv. eapply Forall_impl; [exact Hv|]. intros i Hi.
      pose proof (co_fits _ Hrows) as Hf. rewrite Forall_lookup in Hf. destruct (Hf _ _ Hi) as (_&_&_&[_ Hp]&_). done.
Qed.

Lemma price_found_sorted low high :
  StronglySorted (fun p q => pr_PriceCents p < pr_PriceCents q ∨ pr_PriceCents p = pr_PriceCents q ∧ pr_ID p ≤ pr_ID q) (price_found low high).
Proof.
  unfold price_found. pose proof (price_index_sorted rows) as Hs.
  induction Hs as [|i l Hs IH Hi]; [constructor|]. cbn. destruct (in_price low high _); [|done].
  constructor; [done|]. apply Forall_forall. intros q Hq. apply list_elem_of_In, List.filter_In in Hq as [Hq _].
  apply List.in_map_iff in Hq as (j&<-&Hj). apply list_elem_of_In in Hj. rewrite Forall_forall in Hi. exact (Hi j Hj).
Qed.

Definition region_products (r : nat) : list Product := bfilter (active_in (Z.of_nat r)) rows.
Lemma region_group_ok r : region_group rows r = map project (region_products r).
Proof.
  unfold region_group, region_products. clear Hrows. induction rows as [|p l IH]; [done|]. cbn.
  destruct (active_in _ p); cbn; by rewrite IH.
Qed.

(** *** The cache *)

Lemma cache_categories : group_by (category_group rows) CategoryCount = group_by category_numbers CategoryCount.
Proof. apply group_by_ext. intros k. apply category_group_numbers, rows_small. Qed.
Lemma cache_regions : group_by (region_group rows) RegionCount = group_by (fun r => map project (region_products r)) RegionCount.
Proof. apply group_by_ext. apply region_group_ok. Qed.

Lemma NewRuntimeCache_eq :
  NewRuntimeCache rows = {|
    rc_identity := SnapshotIdentity rows; rc_rows := rows; rc_categoryRows := (group_by category_numbers CategoryCount).1;
    rc_categoryOffsets := (group_by category_numbers CategoryCount).2; rc_priceRows := price_index rows;
    rc_activeRegionRows := (group_by (fun r => map project (region_products r)) RegionCount).1;
    rc_activeRegionOffsets := (group_by (fun r => map project (region_products r)) RegionCount).2 |}.
Proof.
  unfold NewRuntimeCache. rewrite cache_categories, cache_regions, numbered_rows_numbers by apply rows_small.
  by destruct (group_by category_numbers _), (group_by (fun r => map project _) _).
Qed.

#[export] Instance cache_ok : LaneOK rows (NewRuntimeCache rows).
Proof.
  rewrite NewRuntimeCache_eq. split.
  - done.
  - apply FindByID_ok.
  - intros c Hc. unfold category_rows. cbn -[CategoryCount drain upto group_by]. unfold FindByCategory. cbn -[CategoryCount drain upto group_by].
    destruct (Z.leb_spec (Z.of_nat CategoryCount) c); [by rewrite no_category|].
    assert (Z.to_nat (c + 1) = S (Z.to_nat c)) as -> by lia.
    rewrite !group_index by lia. cbn -[CategoryCount drain upto group_by].
    rewrite group_slice by lia. apply category_numbers_ok. lia.
  - intros low high Hl Hh. eexists. split; [apply sorted_price_ok; done|apply price_found_perm].
  - intros r Hr. unfold region_rows. cbn -[RegionCount projection_drain upto group_by]. unfold ActiveProductsInRegion. cbn -[RegionCount projection_drain upto group_by].
    destruct (Z.leb_spec (Z.of_nat RegionCount) r); [by rewrite no_region|].
    assert (Z.to_nat (r + 1) = S (Z.to_nat r)) as -> by lia.
    rewrite !group_index by lia. cbn -[RegionCount projection_drain upto group_by].
    rewrite group_slice by lia. cbn -[projection_drain]. rewrite drain_projections. unfold region_products. by rewrite Z2Nat.id by lia.
Qed.

(** *** The compiled snapshot *)

Lemma emit_active :
  zip_with Build_Projection (ix_activeIDs (makeIndexes rows)) (ix_activePrices (makeIndexes rows))
  = (group_by (fun r => map project (region_products r)) RegionCount).1
  ∧ ix_activeOffsets (makeIndexes rows) = (group_by (fun r => map project (region_products r)) RegionCount).2.
Proof.
  unfold makeIndexes. rewrite !group_by_eq. cbn -[upto seq RegionCount]. fold region_products. split.
  - rewrite (upto_map pr_ID region_products), (upto_map pr_PriceCents region_products), (upto_map project). generalize (upto region_products RegionCount). intros l. induction l as [|p l IH]; [done|]. cbn. by rewrite IH.
  - apply map_ext. intros k. by rewrite (upto_map pr_ID region_products), (upto_map project), !length_map.
Qed.

Lemma emitSnapshot_eq :
  emitSnapshot rows = {|
    snapshotHash := HashRows rows; products := rows; categoryRows := (group_by category_numbers CategoryCount).1;
    categoryOffsets := map Z.of_nat (group_by category_numbers CategoryCount).2; priceRows := price_index rows;
    activeProjections := (group_by (fun r => map project (region_products r)) RegionCount).1;
    activeOffsets := map Z.of_nat (group_by (fun r => map project (region_products r)) RegionCount).2 |}.
Proof.
  unfold emitSnapshot. cbn zeta. destruct emit_active as [-> ->]. unfold makeIndexes.
  fold (row_numbers rows). fold category_numbers. by destruct (group_by category_numbers _), (group_by _ _), (group_by _ _).
Qed.

#[export] Instance scan_ok : LaneOK rows (scan_lane (emitSnapshot rows)).
Proof.
  rewrite emitSnapshot_eq. split.
  - done.
  - apply FindByID_ok.
  - intros c Hc. unfold category_rows. cbn -[drain]. rewrite drain_ok by done. done.
  - intros low high Hl Hh. eexists. split; [|done]. unfold price_rows. cbn -[drain]. unfold PriceBetweenD.
    destruct (Z.ltb_spec high low); [|by rewrite drain_ok].
    rewrite bfilter_none; [done|]. apply Forall_forall. intros p _. unfold in_price. lia.
  - intros r Hr. unfold region_rows. cbn -[projection_drain]. by rewrite projection_drain_ok.
Qed.

#[export] Instance indexed_ok : LaneOK rows (indexed_lane (emitSnapshot rows)).
Proof.
  rewrite emitSnapshot_eq. split.
  - done.
  - apply FindByID_ok.
  - intros c Hc. unfold category_rows. cbn -[CategoryCount drain upto group_by]. unfold FindByCategoryE. cbn -[CategoryCount drain upto group_by].
    destruct (Z.leb_spec (Z.of_nat CategoryCount) c); [by rewrite no_category|].
    assert (Z.to_nat (c + 1) = S (Z.to_nat c)) as -> by lia.
    rewrite !group_index_map by lia. cbn -[CategoryCount drain upto group_by].
    rewrite !Nat2Z.id, group_slice by lia. apply category_numbers_ok. lia.
  - intros low high Hl Hh. eexists. split; [apply sorted_price_ok; done|apply price_found_perm].
  - intros r Hr. unfold region_rows. cbn -[RegionCount projection_drain upto group_by]. unfold ActiveRegionE. cbn -[RegionCount projection_drain upto group_by].
    destruct (Z.leb_spec (Z.of_nat RegionCount) r); [by rewrite no_region|].
    assert (Z.to_nat (r + 1) = S (Z.to_nat r)) as -> by lia.
    rewrite !group_index_map by lia. cbn -[RegionCount projection_drain upto group_by].
    rewrite !Nat2Z.id, group_slice by lia. cbn -[projection_drain]. rewrite drain_projections. unfold region_products. by rewrite Z2Nat.id by lia.
Qed.
End Lanes.

(** ** What a client of two lanes sees *)

Definition category_digest {L} `{Lane L} (l : L) (c : Z) : res gerror (Z * Z) := let! cur := find_by_category l c in DigestProducts cur.
Definition price_digest {L} `{Lane L} (l : L) (low high : Z) : res gerror (Z * Z) := let! cur := price_between l low high in DigestProducts cur.
Definition region_digest {L} `{Lane L} (l : L) (r : Z) : res gerror (Z * Z) := let! cur := active_in_region l r in DigestProjections cur.

Definition same_digest (a b : res gerror (Z * Z)) : Prop := ∃ d, a = Ok d ∧ b = Ok d.

Definition row_sum (rows : list Product) : Z := foldr Z.add 0 (map (fun p => row_digest (pr_ID p) (pr_PriceCents p)) rows).
Lemma digest_sum rows n d : u64_range d → foldl digest_row (n, d) rows = (n + zlen rows, u64 (d + row_sum rows)).
Proof.
  unfold zlen, row_sum. revert n d. induction rows as [|p rows IH]; intros n d Hd; cbn [foldl length map foldr].
  - rewrite !Z.add_0_r, u64_id by done. done.
  - unfold digest_row at 2. cbn [fst snd]. rewrite IH by apply u64_bound. f_equal; [lia|].
    unfold u64. rewrite Zplus_mod_idemp_l. f_equal. lia.
Qed.
Lemma row_sum_perm rows found : found ≡ₚ rows → row_sum found = row_sum rows.
Proof. unfold row_sum. induction 1; cbn; lia. Qed.
Lemma digest_perm rows found : found ≡ₚ rows → foldl digest_row (0, 0) found = foldl digest_row (0, 0) rows.
Proof.
  intros Hp. rewrite !digest_sum by (split; lia). unfold zlen. by rewrite (row_sum_perm _ _ Hp), (Permutation_length Hp).
Qed.

Section Client.
Context {L1 L2 : Type} `{Lane L1, Lane L2} (rows : list Product) (l1 : L1) (l2 : L2) `{!LaneOK rows l1, !LaneOK rows l2}.

Lemma category_digest_eq {L} `{Lane L} (l : L) c rs : category_rows l c = Ok rs → category_digest l c = Ok (foldl digest_row (0, 0) rs).
Proof. unfold category_rows, category_digest, DigestProducts. destruct (find_by_category l c) as [cur|]; cbn -[drain]; [|done]. by intros ->. Qed.
Lemma price_digest_eq {L} `{Lane L} (l : L) low high rs : price_rows l low high = Ok rs → price_digest l low high = Ok (foldl digest_row (0, 0) rs).
Proof. unfold price_rows, price_digest, DigestProducts. destruct (price_between l low high) as [cur|]; cbn -[drain]; [|done]. by intros ->. Qed.
Lemma region_digest_eq {L} `{Lane L} (l : L) r rs : region_rows l r = Ok rs → region_digest l r = Ok (foldl digest_projection (0, 0) rs).
Proof. unfold region_rows, region_digest, DigestProjections. destruct (active_in_region l r) as [cur|]; cbn -[projection_drain]; [|done]. by intros ->. Qed.

Lemma clients_agree :
  lane_identity l1 = lane_identity l2
  ∧ (∀ id, u32_range id → find_by_id l1 id = find_by_id l2 id)
  ∧ (∀ c, 0 ≤ c < 256 → same_digest (category_digest l1 c) (category_digest l2 c))
  ∧ (∀ low high, u32_range low → u32_range high → same_digest (price_digest l1 low high) (price_digest l2 low high))
  ∧ (∀ r, 0 ≤ r < 256 → same_digest (region_digest l1 r) (region_digest l2 r)).
Proof.
  split_and!.
  - by rewrite (identity_ok (l := l1)), (identity_ok (l := l2)).
  - intros id Hid. by rewrite (id_ok (l := l1)), (id_ok (l := l2)).
  - intros c Hc. eexists. split; apply category_digest_eq; by apply category_ok.
  - intros low high Hl Hh. destruct (prices_ok (l := l1) low high) as (f1&H1&P1); [done..|].
    destruct (prices_ok (l := l2) low high) as (f2&H2&P2); [done..|].
    eexists. split; [by apply price_digest_eq|]. rewrite (digest_perm f2 f1) by (by rewrite P1, P2). by apply price_digest_eq.
  - intros r Hr. eexists. split; apply region_digest_eq; by apply region_ok.
Qed.
End Client.

(** ** The generated catalog *)

Section Generator.
Lemma dec_from_bound fuel n acc : (length (dec_from fuel n acc) ≤ fuel + length acc)%nat.
Proof.
  revert n acc. induction fuel as [|fuel IH]; intros n acc; cbn [dec_from]; [lia|].
  cbn zeta. destruct (n <? 10)%N; [cbn; lia|]. etrans; [apply IH|]. cbn. lia.
Qed.
Lemma product_name_short i : 0 ≤ i < 2 ^ 32 → zlen (product_name i) ≤ 65535.
Proof.
  intros Hi. unfold product_name, zlen. rewrite !length_app, length_replicate.
  assert (length (dec i) ≤ 33)%nat; [|cbn; lia].
  unfold dec. destruct (Z.ltb_spec i 0); [lia|]. unfold dec_nat. etrans; [apply dec_from_bound|].
  assert (N.log2 (Z.to_N i) ≤ 31)%N; [|cbn; lia].
  destruct (decide (i = 0)) as [->|]; [cbn; lia|]. apply N.lt_succ_r, N.log2_lt_pow2; [lia|].
  change (2 ^ N.succ 31)%N with (Z.to_N (2 ^ 32)). lia.
Qed.

Lemma make_row_ok i state :
  0 ≤ state → FirstProductID + Z.of_nat i < 2 ^ 32 →
  pr_ID (make_row i state) = FirstProductID + Z.of_nat i ∧ row_fits (make_row i state)
  ∧ pr_Category (make_row i state) < Z.of_nat CategoryCount ∧ pr_Region (make_row i state) < Z.of_nat RegionCount.
Proof.
  intros Hs Hi. unfold row_fits, u32_range, make_row, FirstProductID in *. cbn [pr_ID pr_Category pr_Status pr_PriceCents pr_RatingTenths pr_Region pr_Name].
  pose proof (Z.mod_pos_bound (Z.shiftr state 17) 8). pose proof (Z.mod_pos_bound (Z.shiftr state 29) 3).
  pose proof (Z.mod_pos_bound (Z.shiftr state 7) 250000). pose proof (Z.mod_pos_bound (Z.shiftr state 41) 41).
  pose proof (Z.mod_pos_bound (Z.shiftr state 53) 6). pose proof (product_name_short (Z.of_nat i + 1) ltac:(lia)).
  rewrite !u32_id by (split; lia). repeat match goal with H : _ → _ |- _ => specialize (H ltac:(lia)) end. unfold CategoryCount, RegionCount. repeat split; lia.
Qed.

Lemma generate_lookup n i state k p :
  0 ≤ state → generate n i state !! k = Some p → ∃ s, 0 ≤ s ∧ p = make_row (i + k) s.
Proof.
  revert i state k. induction n as [|n IH]; intros i state k Hs Hk; [done|]. cbn [generate] in Hk. cbn zeta in Hk.
  pose proof (u64_bound (state * 6364136223846793005 + 1442695040888963407)) as [Hb _]. fold (next_state state) in Hb.
  destruct k as [|k]; cbn in Hk.
  - simplify_eq. exists (next_state state). by rewrite Nat.add_0_r.
  - rewrite Nat.add_succ_r. by apply (IH (S i)) in Hk.
Qed.
Lemma generate_length n i state : length (generate n i state) = n.
Proof. revert i state. induction n as [|n IH]; intros; [done|]. cbn. by rewrite IH. Qed.

Lemma GenerateCatalog_ok n : FirstProductID + Z.of_nat n ≤ 2 ^ 32 → catalog_ok (GenerateCatalog n).
Proof.
  intros Hn. assert (∀ i p, GenerateCatalog n !! i = Some p → ∃ s, 0 ≤ s ∧ FirstProductID + Z.of_nat i < 2 ^ 32 ∧ p = make_row i s) as H.
  { intros i p Hp. assert (Hl := lookup_lt_Some _ _ _ Hp). unfold GenerateCatalog in *. rewrite generate_length in Hl.
    apply generate_lookup in Hp as (s&?&->); [|lia]. exists s. repeat split; [done|lia]. }
  split.
  - unfold zlen, GenerateCatalog. by rewrite generate_length.
  - intros i p Hp. destruct (H _ _ Hp) as (s&?&?&->). by apply make_row_ok.
  - apply Forall_lookup. intros i p Hp. destruct (H _ _ Hp) as (s&?&?&->). by apply make_row_ok.
  - apply Forall_lookup. intros i p Hp. destruct (H _ _ Hp) as (s&?&?&->). by apply make_row_ok.
Qed.
End Generator.

(** ** Readers of the binary file *)

Section Readers.
Context {A B : Type}.

(** More bytes after what was read change nothing. *)
Definition extends {C} (f : bytes → res gerror (C * bytes)) : Prop :=
  ∀ d a r j, f d = Ok (a, r) → f (d ++ j) = Ok (a, r ++ j).

Lemma extends_bind (m : bytes → res gerror (A * bytes)) (k : A → bytes → res gerror (B * bytes)) :
  extends m → (∀ a, extends (k a)) → extends (fun d => let! (a, d) := m d in k a d).
Proof.
  intros Hm Hk d b r j H. destruct (m d) as [[a r']|] eqn:E; [|done]. cbn in H. rewrite (Hm _ _ _ _ E). cbn. by apply Hk.
Qed.
Lemma extends_ret (a : A) : extends (fun d => Ok (a, d)).
Proof. intros d a' r j [= <- <-]. done. Qed.
End Readers.

Lemma read_full_extends n : extends (read_full n).
Proof.
  intros d b r j. unfold read_full. rewrite length_app. destruct (Nat.leb_spec n (length d)) as [Hn|]; [|by case_bool_decide].
  intros [= <- <-]. rewrite (proj2 (Nat.leb_le _ _)) by lia. by rewrite take_app_le, drop_app_le by done.
Qed.
Lemma read_le_extends n : extends (read_le n).
Proof. apply extends_bind; [apply read_full_extends|]. intros a. apply extends_ret. Qed.
Create HintDb readers.
#[export] Hint Resolve read_full_extends read_le_extends extends_ret : readers.
Ltac extend := repeat (apply extends_bind; [auto with readers|intros]); auto with readers.

Lemma decode_row_extends : extends decode_row.
Proof. unfold decode_row. extend. Qed.
#[export] Hint Resolve decode_row_extends : readers.
Lemma decode_rows_extends n : extends (decode_rows n).
Proof.
  induction n as [|n IH]; cbn [decode_rows]; [auto with readers|]. extend.
Qed.

Lemma read_full_take l rest : read_full (length l) (l ++ rest) = Ok (l, rest).
Proof.
  unfold read_full. rewrite length_app, (proj2 (Nat.leb_le _ _)) by lia. by rewrite take_app_length, drop_app_length.
Qed.
Lemma read_le_put n v rest : 0 ≤ v < 256 ^ Z.of_nat n → read_le n (le_put n v ++ rest) = Ok (v, rest).
Proof.
  intros Hv. unfold read_le. rewrite <-(le_put_length n v) at 1. rewrite read_full_take. cbn. by rewrite le_get_put, Z.mod_small.
Qed.

Lemma decode_encode_row p : row_fits p → ∃ b, encode_row p = Ok b ∧ ∀ rest, decode_row (b ++ rest) = Ok (p, rest).
Proof.
  intros (Hi&Hc&Hs&Hp&Hr&Hg&Hn). unfold encode_row. rewrite (proj2 (Z.ltb_ge _ _)) by done. eexists. split; [done|]. intros rest.
  rewrite <-!app_assoc. unfold decode_row, put_u32, u32_range in *.
  do 7 (rewrite read_le_put by (cbn; unfold zlen in *; lia); cbn -[read_le read_full le_put]).
  unfold zlen. rewrite Nat2Z.id, read_full_take. by destruct p.
Qed.

Lemma decode_encode_rows rows :
  Forall row_fits rows → ∃ b, encode_rows rows = Ok b ∧ ∀ rest, decode_rows (length rows) (b ++ rest) = Ok (rows, rest).
Proof.
  induction 1 as [|p rows Hp _ (b&Hb&Hd)]; [by exists []|].
  destruct (decode_encode_row p Hp) as (b0&Hb0&Hd0). exists (b0 ++ b). cbn [encode_rows decode_rows length].
  rewrite Hb0, Hb. split; [done|]. intros rest. rewrite <-app_assoc, Hd0. cbn. by rewrite Hd.
Qed.

(** [DecodeBinary] with what it leaves. *)
Definition decode_left (data : bytes) : res gerror (list Product * bytes) :=
  let! (magic, data) := read_full 8 data in
  let! (_, data) := if bool_decide (magic = binaryMagic) then Ok (tt, data) else Err (EMsg "invalid M5 binary magic") in
  let! (count, data) := read_le 4 data in
  decode_rows (Z.to_nat count) data.
Lemma decode_left_eq data : DecodeBinary data = let! (rows, _) := decode_left data in Ok rows.
Proof.
  unfold DecodeBinary, decode_left. destruct (read_full 8 data) as [[magic d]|]; [|done]. cbn -[read_le decode_rows].
  case_bool_decide; [|done]. cbn -[read_le decode_rows]. by destruct (read_le 4 d) as [[count d']|].
Qed.
Lemma decode_left_extends : extends decode_left.
Proof.
  unfold decode_left. apply extends_bind; [auto with readers|]. intros magic. apply extends_bind.
  - intros d a r j. case_bool_decide; [|done]. by intros [= <- <-].
  - intros _. extend. apply decode_rows_extends.
Qed.

Lemma decode_encode rows :
  Forall row_fits rows → zlen rows < 2 ^ 32 →
  ∃ data, encodeBinary rows = Ok data ∧ ∀ rest, decode_left (data ++ rest) = Ok (rows, rest).
Proof.
  intros Hr Hn. destruct (decode_encode_rows rows Hr) as (b&Hb&Hd). unfold encodeBinary. rewrite Hb.
  eexists. split; [done|]. intros rest. rewrite <-!app_assoc. unfold decode_left, put_u32.
  change 8%nat with (length binaryMagic). rewrite read_full_take. cbn -[read_le decode_rows le_put bool_decide binaryMagic]. rewrite bool_decide_eq_true_2 by done. cbn -[read_le decode_rows le_put].
  rewrite u32_id by (split; [apply zlen_nonneg|done]).
  rewrite read_le_put by (cbn; pose proof (zlen_nonneg rows); lia). cbn -[decode_rows]. unfold zlen. by rewrite Nat2Z.id, Hd.
Qed.

(** ** The JSON file *)

#[local] Opaque is_field dec.

Lemma into_uint_dec bound old v : 0 ≤ v < bound → bound ≤ 2 ^ 64 → into_uint bound old (JNum (dec v)) = Some v.
Proof.
  intros Hv Hb. unfold into_uint. cbn [into_u64]. rewrite parse_uint64_dec by (split; lia). cbn.
  by rewrite (proj2 (Z.ltb_lt _ _)) by lia.
Qed.

Lemma product_roundtrip p :
  row_fits p ∧ utf8_valid (pr_Name p) = true → into_struct product_member zeroProduct (norm (product_json p)) = Some p.
Proof.
  intros [(Hi&Hc&Hs&Hp&Hr&Hg&_) Hn]. destruct p as [i c s n r g name].
  cbn [pr_ID pr_Category pr_Status pr_PriceCents pr_RatingTenths pr_Region pr_Name] in *. unfold u32_range in *.
  unfold product_json, into_struct, zeroProduct. cbn [norm map fst snd pr_ID pr_Category pr_Status pr_PriceCents pr_RatingTenths pr_Region pr_Name].
  do 6 (erewrite fold_cons; [|unfold product_member; cbn [fst snd]; eval_fields; rewrite into_uint_dec by lia; reflexivity]).
  erewrite fold_cons; [|unfold product_member; cbn [fst snd]; eval_fields; rewrite utf8_coerce_valid by done; reflexivity]. done.
Qed.

Lemma product_shape p : nums_ok (product_json p) ∧ (depth (product_json p) ≤ 1)%nat.
Proof.
  split; [|cbn; lia]. apply nums_ok_obj. repeat (apply Forall_cons; split); cbn [snd nums_ok]; eauto.
Qed.

Lemma json_roundtrip_rows rows :
  Forall (fun p => row_fits p ∧ utf8_valid (pr_Name p) = true) rows → decodeJSON (encodeJSON rows) = Ok rows.
Proof.
  intros Hr. unfold decodeJSON, encodeJSON.
  destruct (slice_shape product_json 1 rows product_shape) as (Hn&Hd&_).
  rewrite parse_print by (done || (unfold max_nesting; lia)). cbn [mbind option_bind norm into_list].
  pose proof (list_roundtrip product_json _ _ rows product_roundtrip Hr) as E. cbn [norm into_list] in E. by rewrite E.
Qed.

(** C36: A catalog whose fields fit their widths is written as a
    binary file that [DecodeBinary] reads back as the same rows, whatever follows
    it, and every proper prefix of the file is refused; a name longer than 65535
    bytes is refused when it is written.  Where the names are UTF-8, the JSON
    file reads back as the same rows too. *)
Theorem catalog_files (rows : list Product) :
  Forall row_fits rows → zlen rows < 2 ^ 32 →
  (Forall (fun p => utf8_valid (pr_Name p) = true) rows → decodeJSON (encodeJSON rows) = Ok rows)
  ∧ ∃ data, encodeBinary rows = Ok data
    ∧ (∀ junk, DecodeBinary (data ++ junk) = Ok rows)
    ∧ (∀ n, (n < length data)%nat → ∃ e, DecodeBinary (take n data) = Err e)
    ∧ (∀ p more, 65535 < zlen (pr_Name p) → ∃ e, encodeBinary (rows ++ p :: more) = Err e).
Proof.
  intros Hr Hn. split; [intros Hu; by apply json_roundtrip_rows, Forall_and|].
  destruct (decode_encode rows Hr Hn) as (data&He&Hd). exists data. split_and!; [done|..].
  - intros junk. by rewrite decode_left_eq, Hd.
  - intros n Hl. rewrite decode_left_eq. destruct (decode_left (take n data)) as [[rows' rest]|e] eqn:E; [|by exists e].
    exfalso. apply (decode_left_extends _ _ _ (drop n data)) in E. rewrite take_drop in E.
    specialize (Hd []). rewrite app_nil_r, E in Hd. simplify_eq. assert (length (rest ++ drop n data) = 0%nat) as H0 by (by rewrite H).
    rewrite length_app, length_drop in H0. lia.
  - intros p more Hp. exists (EMsg "name too long"). unfold encodeBinary.
    assert (encode_rows (rows ++ p :: more) = Err (EMsg "name too long")) as ->; [|done].
    clear - Hr Hp. induction Hr as [|q rows Hq _ IH]; cbn [app encode_rows].
    + unfold encode_row. by rewrite (proj2 (Z.ltb_lt _ _)) by done.
    + destruct (decode_encode_row q Hq) as (b&->&_). cbn -[encode_rows]. by rewrite IH.
Qed.

Lemma catalog_files_witness :
  decodeJSON (encodeJSON (GenerateCatalog 3)) = Ok (GenerateCatalog 3)
  ∧ ∃ data, encodeBinary (GenerateCatalog 3) = Ok data ∧ DecodeBinary data = Ok (GenerateCatalog 3) ∧ (∃ e, DecodeBinary (take 60 data) = Err e).
Proof.
  assert (Hc : catalog_ok (GenerateCatalog 3)) by (apply GenerateCatalog_ok; vm_compute; discriminate).
  destruct (catalog_files (GenerateCatalog 3) (co_fits _ Hc)) as (Hj&data&He&Hd&Ht&_); [by vm_compute|].
  split; [apply Hj; repeat (apply Forall_cons; split); [vm_compute; reflexivity..|apply Forall_nil; exact I]|].
  exists data. split_and!; [exact He|specialize (Hd []); by rewrite app_nil_r in Hd|].
  apply Ht. assert (match encodeBinary (GenerateCatalog 3) with Ok d => length d | Err _ => 0%nat end = 96%nat) as Hl by (vm_compute; reflexivity).
  rewrite He in Hl. rewrite Hl. lia.
Defined.

(** C35: On a catalog with dense identifiers and known codes, the
    runtime cache, the compiled scan and the compiled indexes answer every query
    without a panic and alike: the product of an identifier, the rows of a
    category and the active projections of a region are those a scan selects, in
    its order, and a price range gives a permutation of them, sorted by price
    and identifier from an index, with equal counts and digests; the generated
    catalogs are such catalogs. *)
Theorem catalog_lanes_agree (rows : list Product) :
  catalog_ok rows →
  let cache := NewRuntimeCache rows in
  let scan := scan_lane (emitSnapshot rows) in
  let indexed := indexed_lane (emitSnapshot rows) in
  LaneOK rows cache ∧ LaneOK rows scan ∧ LaneOK rows indexed
  ∧ (∀ low high, u32_range low → u32_range high →
      (∃ found, price_rows cache low high = Ok found ∧ price_rows indexed low high = Ok found
        ∧ StronglySorted (fun p q => pr_PriceCents p < pr_PriceCents q ∨ pr_PriceCents p = pr_PriceCents q ∧ pr_ID p ≤ pr_ID q) found)
      ∧ same_digest (price_digest cache low high) (price_digest scan low high)
      ∧ same_digest (price_digest cache low high) (price_digest indexed low high))
  ∧ (∀ n, FirstProductID + Z.of_nat n ≤ 2 ^ 32 → catalog_ok (GenerateCatalog n)).
Proof.
  intros Hr cache scan indexed.
  pose proof (cache_ok rows Hr : LaneOK rows cache) as H1. pose proof (scan_ok rows Hr : LaneOK rows scan) as H2.
  pose proof (indexed_ok rows Hr : LaneOK rows indexed) as H3. split_and!; try done; [|apply GenerateCatalog_ok].
  intros low high Hl Hh. split_and!.
  - exists (price_found rows low high). split_and!; [| |apply price_found_sorted].
    + unfold cache. rewrite (NewRuntimeCache_eq rows Hr). by apply (sorted_price_ok rows Hr).
    + unfold indexed. rewrite (emitSnapshot_eq rows). by apply (sorted_price_ok rows Hr).
  - by apply (clients_agree rows cache scan).
  - by apply (clients_agree rows cache indexed).
Qed.

Lemma catalog_lanes_agree_witness :
  ∃ found, price_rows (NewRuntimeCache (GenerateCatalog 4)) 50000 120000 = Ok found ∧ price_rows (indexed_lane (emitSnapshot (GenerateCatalog 4))) 50000 120000 = Ok found
    ∧ map pr_ID found = [1000003; 1000002].
Proof.
  assert (Hc : catalog_ok (GenerateCatalog 4)) by (apply GenerateCatalog_ok; vm_compute; discriminate).
  destruct (catalog_lanes_agree (GenerateCatalog 4) Hc) as (_&_&_&Hp&_).
  destruct (Hp 50000 120000) as ((found&H1&H2&_)&_); [split; lia..|].
  exists found. split_and!; [exact H1|exact H2|].
  assert (match price_rows (NewRuntimeCache (GenerateCatalog 4)) 50000 120000 with Ok l => map pr_ID l | Err _ => [] end = [1000003; 1000002]) as Hl by (vm_compute; reflexivity).
  rewrite H1 in Hl. exact Hl.
Defined.

(** ** The committed snapshot *)

(** The first rows of [snapshot.generated.go]; their names need no escape. *)
Example committed_rows :
  GenerateCatalog 4 =
  [Build_Product 1000001 5 2 49744 23 2 (bs "Product-000001"); Build_Product 1000002 0 1 114773 34 2 (bs "Product-000002");
   Build_Product 1000003 1 2 75174 11 4 (bs "Product-000003"); Build_Product 1000004 1 2 156240 13 3 (bs "Product-000004")].
Proof. vm_compute. reflexivity. Qed.
