(* ===== verification/BsoPolicy.v ===== *)
(** * Financial policies ([experiments/BSOTrust/M3/policy.go])

    Policies with their canonical bytes and digests, the evaluation of a request
    against a policy, the composition of decisions and the difference of two
    versions of a policy.  Amounts are 64 bits wide and sums wrap.  The Unicode
    tables [strconv.Quote] consults are a class, since they are data of the
    standard library and not of the program. *)

From Stdlib Require Import ZArith Lia Strings.Byte Strings.String.
From stdpp Require Import base decidable countable list sorting.
From S2P Require Import Prelude GoText GoBinary GoJson Errors.

Local Open Scope Z_scope.
Local Open Scope go_scope.

(** ** Text *)

(** [strconv.IsPrint] beyond ASCII. *)
Class UnicodeTables := { is_print_wide : Z → bool }.

Definition join (sep : bytes) (l : list bytes) : bytes :=
  match l with [] => [] | s :: l => s ++ concat (map (fun t => sep ++ t) l) end.
Definition format_bool (b : bool) : bytes := if b then bs "true" else bs "false".
Definition hex_pad (n : nat) (v : Z) : bytes :=
  map (fun k => hex_digit (Z.shiftr v (4 * Z.of_nat (n - 1 - k)) mod 16)) (seq 0 n).

Section Quote.
Context `{UnicodeTables}.

Definition is_print (cp : Z) : bool := if cp <? 128 then (32 <=? cp) && (cp <? 127) else is_print_wide cp.
(** [appendEscapedRune] for the quote character. *)
Definition quote_chunk (c : chunk) : bytes :=
  match c with
  | Bad b => bs "\x" ++ hex_pad 2 (bval b)
  | Rune cp enc =>
      if (cp =? 34) || (cp =? 92) then bs "\" ++ enc
      else if is_print cp then enc
      else if cp =? 7 then bs "\a" else if cp =? 8 then bs "\b" else if cp =? 12 then bs "\f" else if cp =? 10 then bs "\n"
      else if cp =? 13 then bs "\r" else if cp =? 9 then bs "\t" else if cp =? 11 then bs "\v"
      else if (cp <? 32) || (cp =? 127) then bs "\x" ++ hex_pad 2 cp
      else if cp <? 0x10000 then bs "\u" ++ hex_pad 4 cp
      else bs "\U" ++ hex_pad 8 cp
  end.
(** [strconv.Quote]. *)
Definition Quote (s : bytes) : bytes := x22 :: concat (map quote_chunk (utf8_chunks s)) ++ [x22].
End Quote.

(** [strings.FieldsFunc] at underscores and hyphens: the runs between them. *)
Definition separator (b : byte) : bool := bool_decide (b = x5f ∨ b = x2d).
Fixpoint fields_from (field : bytes) (s : bytes) : list bytes :=
  match s with
  | [] => if bool_decide (field = []) then [] else [field]
  | b :: s =>
      if separator b then (if bool_decide (field = []) then fields_from [] s else field :: fields_from [] s)
      else fields_from (field ++ [b]) s
  end.
(** [strings.ToUpper] of a string of one byte. *)
Definition upper_byte (b : byte) : bytes :=
  if bval b <? 128 then [if (97 <=? bval b) && (bval b <=? 122) then byte_of (bval b - 32) else b] else replacement.
Definition upper_first (s : bytes) : bytes := match s with [] => [] | b :: s => upper_byte b ++ s end.
Definition enumName (s : bytes) : bytes :=
  match fields_from [] s with [] => bs "None" | parts => concat (map upper_first parts) end.

Definition digestFields (fields : list bytes) : bytes := hex_encode (sha256 (join [x00] fields)).
Definition stableID (prefix : bytes) (fields : list bytes) : bytes :=
  prefix ++ bs ":" ++ hex_encode (take 16 (sha256 (join [x00] (prefix :: fields)))).

(** ** The vocabulary *)

Definition TrustPolicy : bytes := bs "trust".
Definition AuthorizationPolicy : bytes := bs "authorization".
Definition TransactionPolicy : bytes := bs "transaction".
Definition ApplicationPolicy : bytes := bs "application".
Definition NoEscrowCondition : bytes := bs "none".
Definition DeliveryOrTimeoutNoDispute : bytes := bs "delivery_or_timeout_no_dispute".

(** [NoReason] is the zero value. *)
Inductive ReasonCode :=
  | NoReason | ReasonAllowed | AmountExceeded | CumulativeLimitExceeded | ExpiredAuthorization | WrongCounterparty | WrongTransactionClass
  | WrongSubject | WrongDelegate | PolicyVersionMismatch | PolicyDisabled | MissingTrust | MissingEscrow | StateConflict | InvalidPolicy
  | IncompatiblePolicies | InsufficientBalance.
#[export] Instance ReasonCode_eq_dec : EqDecision ReasonCode.
Proof. solve_decision. Defined.
Inductive RequiredAction := RequireTrustAttestation | RequireEscrow.
Inductive ChangeKind :=
  | AmountLimitIncreased | AmountLimitDecreased | CumulativeLimitAdded | CumulativeLimitRemoved | CumulativeLimitIncreased
  | CumulativeLimitDecreased | CounterpartyScopeExpanded | ValidityExtended | RequiredTrustReduced.

Record PolicyIdentityV1 := { pi_PolicyID : bytes; pi_PolicyVersion : Z; pi_PolicyDigest : bytes }.
#[export] Instance PolicyIdentityV1_eq_dec : EqDecision PolicyIdentityV1.
Proof. solve_decision. Defined.
Record AuthorizationScopeV1 := {
  sc_AuthorizationID : bytes; sc_Subject : bytes; sc_Delegate : bytes; sc_Counterparty : bytes; sc_TransactionClass : bytes;
  sc_MaxAmount : Z; sc_MaxCumulativeAmount : Z; sc_ValidUntil : Z }.
Record PolicyV1 := {
  po_Identity : PolicyIdentityV1; po_Class : bytes; po_OwnerBSO : bytes; po_Scope : AuthorizationScopeV1; po_RequiredTrustRoles : list bytes;
  po_EscrowRequiredAbove : Z; po_EscrowCondition : bytes; po_IntendedCumulativeAmount : Z }.
Record PolicyFactsV1 := {
  fa_FactID : bytes; fa_FactVersion : Z; fa_TransferID : bytes; fa_Subject : bytes; fa_Actor : bytes; fa_Counterparty : bytes;
  fa_TransactionClass : bytes; fa_Amount : Z; fa_LogicalTime : Z; fa_ConsumedAmount : Z; fa_ReservedAmount : Z; fa_TrustRoles : list bytes;
  fa_EscrowPresent : bool }.
Record PolicyDecisionV1 := {
  de_Identity : PolicyIdentityV1; de_DecisionID : bytes; de_FactsDigest : bytes; de_RequestDigest : bytes; de_FactID : bytes;
  de_FactVersion : Z; de_Allowed : bool; de_Reason : ReasonCode; de_RequiredActions : list RequiredAction }.
Record PolicyDiffV1 := {
  df_PolicyID : bytes; df_OldVersion : Z; df_NewVersion : Z; df_Changes : list ChangeKind; df_AuthorityExpanded : bool }.
Record PolicyProjectionV1 := {
  pp_Identity : PolicyIdentityV1; pp_TransactionClass : bytes; pp_MaxAmount : Z; pp_EscrowRequiredAbove : Z; pp_RequiredTrustRoles : list bytes }.
Record TransferRequestV1 := {
  tr_TransferID : bytes; tr_OriginalTransferID : bytes; tr_Subject : bytes; tr_Actor : bytes; tr_Counterparty : bytes; tr_AuthorizationID : bytes;
  tr_Class : bytes; tr_Amount : Z; tr_LogicalTime : Z; tr_TrustRoles : list bytes; tr_AttestationIDs : list bytes; tr_EscrowPresent : bool;
  tr_Kind : bytes }.

Definition zeroIdentity : PolicyIdentityV1 := Build_PolicyIdentityV1 [] 0 [].
Definition zeroScope : AuthorizationScopeV1 := Build_AuthorizationScopeV1 [] [] [] [] [] 0 0 0.
Definition zeroPolicy : PolicyV1 := Build_PolicyV1 zeroIdentity [] [] zeroScope [] 0 [] 0.
Definition zeroDecision : PolicyDecisionV1 := Build_PolicyDecisionV1 zeroIdentity [] [] [] [] 0 false NoReason [].

Definition with_digest (p : PolicyV1) (digest : bytes) : PolicyV1 :=
  Build_PolicyV1 (Build_PolicyIdentityV1 (pi_PolicyID (po_Identity p)) (pi_PolicyVersion (po_Identity p)) digest) (po_Class p) (po_OwnerBSO p)
    (po_Scope p) (po_RequiredTrustRoles p) (po_EscrowRequiredAbove p) (po_EscrowCondition p) (po_IntendedCumulativeAmount p).

(** ** Canonical bytes, digests and validity *)

Section Policies.
Context `{UnicodeTables}.

Definition CanonicalPolicyBytes (p : PolicyV1) : bytes :=
  let sc := po_Scope p in
  bs "PolicyV1 { PolicyID: " ++ Quote (pi_PolicyID (po_Identity p))
  ++ bs " PolicyVersion: " ++ dec (pi_PolicyVersion (po_Identity p))
  ++ bs " Class: PolicyClass." ++ enumName (po_Class p)
  ++ bs " OwnerBSO: " ++ Quote (po_OwnerBSO p)
  ++ bs " AuthorizationID: " ++ Quote (sc_AuthorizationID sc)
  ++ bs " Subject: " ++ Quote (sc_Subject sc)
  ++ bs " Delegate: " ++ Quote (sc_Delegate sc)
  ++ bs " Counterparty: " ++ Quote (sc_Counterparty sc)
  ++ bs " TransactionClass: TransactionClass." ++ enumName (sc_TransactionClass sc)
  ++ bs " MaxAmount: " ++ dec (sc_MaxAmount sc)
  ++ bs " MaxCumulativeAmount: " ++ dec (sc_MaxCumulativeAmount sc)
  ++ bs " ValidUntil: " ++ dec (sc_ValidUntil sc)
  ++ bs " RequiredTrustRoles: [" ++ join (bs ", ") (map Quote (sort_strings (po_RequiredTrustRoles p)))
  ++ bs "] EscrowRequiredAbove: " ++ dec (po_EscrowRequiredAbove p)
  ++ bs " EscrowCondition: EscrowCondition." ++ enumName (po_EscrowCondition p)
  ++ bs " IntendedCumulativeAmount: " ++ dec (po_IntendedCumulativeAmount p) ++ bs " }" ++ [x0a].
Definition DigestPolicy (p : PolicyV1) : bytes := hex_encode (sha256 (CanonicalPolicyBytes (with_digest p []))).
Definition SealPolicy (p : PolicyV1) : PolicyV1 := with_digest p (DigestPolicy p).

Definition empty (s : bytes) : bool := bool_decide (s = []).
Definition same (s t : bytes) : bool := bool_decide (s = t).
Definition ValidatePolicy (p : PolicyV1) : res gerror unit :=
  let sc := po_Scope p in
  let! _ := guard_err (empty (pi_PolicyID (po_Identity p)) || (pi_PolicyVersion (po_Identity p) <? 1) || empty (po_OwnerBSO p))
              (EMsg "policy identity, version, and owner are required") in
  let! _ := guard_err (negb (same (po_Class p) TrustPolicy) && negb (same (po_Class p) AuthorizationPolicy)
                       && negb (same (po_Class p) TransactionPolicy) && negb (same (po_Class p) ApplicationPolicy)) (EMsg "unknown policy class") in
  let! _ := guard_err (empty (sc_AuthorizationID sc) || empty (sc_Subject sc) || empty (sc_Counterparty sc) || empty (sc_TransactionClass sc)
                       || (sc_MaxAmount sc <=? 0) || (sc_ValidUntil sc <? 0)) (EMsg "invalid authorization scope") in
  let! _ := guard_err ((sc_MaxCumulativeAmount sc <? 0) || (po_EscrowRequiredAbove p <? 0) || (po_IntendedCumulativeAmount p <? 0))
              (EMsg "limits must be non-negative") in
  let! _ := guard_err ((0 <? po_EscrowRequiredAbove p) && negb (same (po_EscrowCondition p) DeliveryOrTimeoutNoDispute))
              (EMsg "escrow threshold requires a typed release condition") in
  guard_err (negb (empty (pi_PolicyDigest (po_Identity p))) && negb (same (pi_PolicyDigest (po_Identity p)) (DigestPolicy p)))
    (EMsg "policy digest mismatch").

(** ** Evaluation *)

Definition containsAll (have required : list bytes) : bool := forallb (fun x => bool_decide (x ∈ have)) required.
Definition requestDigest (transferID subject actor counterparty class : bytes) (amount logicalTime : Z) (trustRoles : list bytes) (escrow : bool) : bytes :=
  digestFields [transferID; subject; actor; counterparty; class; dec amount; dec logicalTime; join (bs ",") trustRoles; format_bool escrow].
Definition factsDigest (f : PolicyFactsV1) : bytes :=
  digestFields [fa_FactID f; dec (fa_FactVersion f); fa_TransferID f; fa_Subject f; fa_Actor f; fa_Counterparty f; fa_TransactionClass f;
    dec (fa_Amount f); dec (fa_LogicalTime f); dec (fa_ConsumedAmount f); dec (fa_ReservedAmount f); join (bs ",") (fa_TrustRoles f);
    format_bool (fa_EscrowPresent f)].

(** The switch of [EvaluatePolicy]: whether the request is allowed, why not, and what it lacks. *)
Definition judge (p : PolicyV1) (f : PolicyFactsV1) : bool * ReasonCode * list RequiredAction :=
  let sc := po_Scope p in
  match ValidatePolicy p with
  | Err _ => (false, InvalidPolicy, [])
  | Ok _ =>
      if negb (same (fa_Subject f) (sc_Subject sc)) then (false, WrongSubject, [])
      else if negb (empty (sc_Delegate sc)) && negb (same (fa_Actor f) (sc_Delegate sc)) then (false, WrongDelegate, [])
      else if negb (same (fa_Counterparty f) (sc_Counterparty sc)) then (false, WrongCounterparty, [])
      else if negb (same (fa_TransactionClass f) (sc_TransactionClass sc)) then (false, WrongTransactionClass, [])
      else if sc_ValidUntil sc <? fa_LogicalTime f then (false, ExpiredAuthorization, [])
      else if (fa_Amount f <=? 0) || (sc_MaxAmount sc <? fa_Amount f) then (false, AmountExceeded, [])
      else if (0 <? sc_MaxCumulativeAmount sc)
              && (sc_MaxCumulativeAmount sc <? i64 (i64 (fa_ConsumedAmount f + fa_ReservedAmount f) + fa_Amount f))
      then (false, CumulativeLimitExceeded, [])
      else if negb (containsAll (fa_TrustRoles f) (po_RequiredTrustRoles p)) then (false, MissingTrust, [RequireTrustAttestation])
      else if (0 <? po_EscrowRequiredAbove p) && (po_EscrowRequiredAbove p <? fa_Amount f) && negb (fa_EscrowPresent f)
      then (false, MissingEscrow, [RequireEscrow])
      else (true, ReasonAllowed, [])
  end.
Definition EvaluatePolicy (p : PolicyV1) (f : PolicyFactsV1) : PolicyDecisionV1 :=
  let facts := factsDigest f in
  let '(allowed, reason, actions) := judge p f in
  {| de_Identity := po_Identity p;
     de_DecisionID := stableID (bs "decision") [pi_PolicyID (po_Identity p); dec (pi_PolicyVersion (po_Identity p)); pi_PolicyDigest (po_Identity p); facts];
     de_FactsDigest := facts;
     de_RequestDigest := requestDigest (fa_TransferID f) (fa_Subject f) (fa_Actor f) (fa_Counterparty f) (fa_TransactionClass f) (fa_Amount f)
                           (fa_LogicalTime f) (fa_TrustRoles f) (fa_EscrowPresent f);
     de_FactID := fa_FactID f; de_FactVersion := fa_FactVersion f; de_Allowed := allowed; de_Reason := reason; de_RequiredActions := actions |}.
End Policies.

(** ** Composition and differences *)

Definition decided (d : PolicyDecisionV1) (id : bytes) (allowed : bool) (reason : ReasonCode) (actions : list RequiredAction) : PolicyDecisionV1 :=
  Build_PolicyDecisionV1 (de_Identity d) id (de_FactsDigest d) (de_RequestDigest d) (de_FactID d) (de_FactVersion d) allowed reason actions.
Fixpoint compose_from (composed : PolicyDecisionV1) (ids : list bytes) (pad : nat) (ds : list PolicyDecisionV1) : PolicyDecisionV1 :=
  match ds with
  | [] => decided composed (stableID (bs "composition-allow") ids) true ReasonAllowed (de_RequiredActions composed)
  | d :: ds =>
      let ids := ids ++ [de_DecisionID d] in
      if de_Allowed d then compose_from composed ids (pad - 1) ds
      else decided composed (stableID (bs "composition-deny") (ids ++ replicate (pad - 1) [])) false (de_Reason d) (de_RequiredActions d)
  end.
(** [ids] has the length of the decisions from the start, so those not yet seen
    are empty strings. *)
Definition ComposeDecisions (ds : list PolicyDecisionV1) : PolicyDecisionV1 :=
  match ds with
  | [] => decided zeroDecision [] false InvalidPolicy []
  | d :: _ => compose_from d [] (length ds) ds
  end.

Definition diff_limits (old new : Z) : list (ChangeKind * bool) :=
  if (old =? 0) && (0 <? new) then [(CumulativeLimitAdded, false)]
  else if (0 <? old) && (new =? 0) then [(CumulativeLimitRemoved, true)]
  else if old <? new then [(CumulativeLimitIncreased, true)]
  else if new <? old then [(CumulativeLimitDecreased, false)]
  else [].
Definition diff_changes (oldPolicy newPolicy : PolicyV1) : list (ChangeKind * bool) :=
  let o := po_Scope oldPolicy in let n := po_Scope newPolicy in
  (if sc_MaxAmount o <? sc_MaxAmount n then [(AmountLimitIncreased, true)] else [])
  ++ (if sc_MaxAmount n <? sc_MaxAmount o then [(AmountLimitDecreased, false)] else [])
  ++ diff_limits (sc_MaxCumulativeAmount o) (sc_MaxCumulativeAmount n)
  ++ (if same (sc_Counterparty o) (sc_Counterparty n) then [] else [(CounterpartyScopeExpanded, true)])
  ++ (if sc_ValidUntil o <? sc_ValidUntil n then [(ValidityExtended, true)] else [])
  ++ (if zlen (po_RequiredTrustRoles newPolicy) <? zlen (po_RequiredTrustRoles oldPolicy) then [(RequiredTrustReduced, true)] else []).
Definition DiffPolicies (oldPolicy newPolicy : PolicyV1) : PolicyDiffV1 :=
  let changes := diff_changes oldPolicy newPolicy in
  {| df_PolicyID := pi_PolicyID (po_Identity oldPolicy); df_OldVersion := pi_PolicyVersion (po_Identity oldPolicy);
     df_NewVersion := pi_PolicyVersion (po_Identity newPolicy); df_Changes := map fst changes; df_AuthorityExpanded := existsb snd changes |}.

Definition PublishProjection (p : PolicyV1) : PolicyProjectionV1 :=
  {| pp_Identity := po_Identity p; pp_TransactionClass := sc_TransactionClass (po_Scope p); pp_MaxAmount := sc_MaxAmount (po_Scope p);
     pp_EscrowRequiredAbove := po_EscrowRequiredAbove p; pp_RequiredTrustRoles := po_RequiredTrustRoles p |}.
