(* ===== verification/BsoAuthority.v ===== *)
(** * Financial authorities ([experiments/BSOTrust/M3/authority.go])

    An authority keeps its state as one record of a database and changes it by
    commands with identifiers: [mutate] runs a change once per identifier and
    gives the recorded result to a retry, which is what the keyed engine promises
    ([KeyedTheorems.exact_retry], [KeyedTheorems.commit_atomic]).  Each call takes
    the outcome of its command in the database: committed, refused without
    effect, or committed although the caller is told of an error, as when the
    log was written but not synchronized and a crash kept it.  State and results
    go through JSON, which replaces the bytes of strings that are not UTF-8, keys
    of maps included.  A variable the
    change assigns outside of itself keeps its zero value when a retry does not
    run the change.  [world] holds the authorities by identifier, so that a
    settlement may name the same one twice. *)

From Stdlib Require Import ZArith Lia Strings.Byte Strings.String.
From stdpp Require Import base decidable countable list gmap sorting.
From S2P Require Import Prelude GoText GoBinary GoJson Errors KeyedRecovery BsoPolicy.

Local Open Scope Z_scope.
Local Open Scope go_scope.

(** [NoStatus] is the zero value. *)
Inductive TransferStatus := NoStatus | TransferReserved | TransferCommitted | TransferCredited | TransferRejected.
#[export] Instance TransferStatus_eq_dec : EqDecision TransferStatus.
Proof. solve_decision. Defined.

Record AuthorizationUsageV1 := { us_AuthorizationID : bytes; us_Consumed : Z; us_Reserved : Z; us_FactVersion : Z }.
Definition zeroUsage : AuthorizationUsageV1 := Build_AuthorizationUsageV1 [] 0 0 0.
Record FinancialTransferV1 := {
  ft_TransferID : bytes; ft_OriginalTransferID : bytes; ft_From : bytes; ft_To : bytes; ft_Amount : Z; ft_Class : bytes; ft_Kind : bytes;
  ft_Status : TransferStatus; ft_Policy : PolicyIdentityV1; ft_DecisionID : bytes }.
Definition zeroTransfer : FinancialTransferV1 := Build_FinancialTransferV1 [] [] [] [] 0 [] [] NoStatus zeroIdentity [].
Definition with_status (t : FinancialTransferV1) (s : TransferStatus) : FinancialTransferV1 :=
  Build_FinancialTransferV1 (ft_TransferID t) (ft_OriginalTransferID t) (ft_From t) (ft_To t) (ft_Amount t) (ft_Class t) (ft_Kind t) s
    (ft_Policy t) (ft_DecisionID t).
Record PolicyAuditV1 := {
  ad_TransferID : bytes; ad_PolicyID : bytes; ad_PolicyVersion : Z; ad_PolicyDigest : bytes; ad_DecisionID : bytes; ad_Admission : ReasonCode;
  ad_AttestationIDs : list bytes }.
Record AuthorityStateV1 := {
  as_AuthorityID : bytes; as_Balance : Z; as_Policies : gmap bytes PolicyV1; as_Active : gmap bytes Z; as_Disabled : gmap bytes bool;
  as_Authorizations : gmap bytes AuthorizationUsageV1; as_Transfers : gmap bytes FinancialTransferV1; as_Audit : list PolicyAuditV1 }.
Record ReservationResultV1 := { rv_Reserved : bool; rv_Duplicate : bool; rv_Reason : ReasonCode; rv_Transfer : FinancialTransferV1 }.
Record mutationResultV1 := { mr_Reason : ReasonCode; mr_Transfer : FinancialTransferV1 }.
Definition zeroResult : mutationResultV1 := Build_mutationResultV1 NoReason zeroTransfer.
Definition reason_only (r : ReasonCode) : mutationResultV1 := Build_mutationResultV1 r zeroTransfer.

(** ** JSON *)

(** What [json.Unmarshal] gives back of what [json.Marshal] wrote.  The keys of a
    map are written in their order; of keys that are written alike the last is
    kept. *)
Definition stored_map {A} (f : A → A) (m : gmap bytes A) : gmap bytes A :=
  foldl (fun acc k => match m !! k with Some v => <[utf8_coerce k := f v]> acc | None => acc end) ∅ (sort_strings (map fst (map_to_list m))).
Definition stored_identity (i : PolicyIdentityV1) : PolicyIdentityV1 :=
  Build_PolicyIdentityV1 (utf8_coerce (pi_PolicyID i)) (pi_PolicyVersion i) (utf8_coerce (pi_PolicyDigest i)).
Definition stored_scope (s : AuthorizationScopeV1) : AuthorizationScopeV1 :=
  {| sc_AuthorizationID := utf8_coerce (sc_AuthorizationID s); sc_Subject := utf8_coerce (sc_Subject s); sc_Delegate := utf8_coerce (sc_Delegate s);
     sc_Counterparty := utf8_coerce (sc_Counterparty s); sc_TransactionClass := utf8_coerce (sc_TransactionClass s);
     sc_MaxAmount := sc_MaxAmount s; sc_MaxCumulativeAmount := sc_MaxCumulativeAmount s; sc_ValidUntil := sc_ValidUntil s |}.
Definition stored_policy (p : PolicyV1) : PolicyV1 :=
  {| po_Identity := stored_identity (po_Identity p); po_Class := utf8_coerce (po_Class p); po_OwnerBSO := utf8_coerce (po_OwnerBSO p);
     po_Scope := stored_scope (po_Scope p); po_RequiredTrustRoles := map utf8_coerce (po_RequiredTrustRoles p);
     po_EscrowRequiredAbove := po_EscrowRequiredAbove p; po_EscrowCondition := utf8_coerce (po_EscrowCondition p);
     po_IntendedCumulativeAmount := po_IntendedCumulativeAmount p |}.
Definition stored_usage (u : AuthorizationUsageV1) : AuthorizationUsageV1 :=
  Build_AuthorizationUsageV1 (utf8_coerce (us_AuthorizationID u)) (us_Consumed u) (us_Reserved u) (us_FactVersion u).
Definition stored_transfer (t : FinancialTransferV1) : FinancialTransferV1 :=
  Build_FinancialTransferV1 (utf8_coerce (ft_TransferID t)) (utf8_coerce (ft_OriginalTransferID t)) (utf8_coerce (ft_From t)) (utf8_coerce (ft_To t))
    (ft_Amount t) (utf8_coerce (ft_Class t)) (utf8_coerce (ft_Kind t)) (ft_Status t) (stored_identity (ft_Policy t)) (utf8_coerce (ft_DecisionID t)).
Definition stored_audit (e : PolicyAuditV1) : PolicyAuditV1 :=
  {| ad_TransferID := utf8_coerce (ad_TransferID e); ad_PolicyID := utf8_coerce (ad_PolicyID e); ad_PolicyVersion := ad_PolicyVersion e;
     ad_PolicyDigest := utf8_coerce (ad_PolicyDigest e); ad_DecisionID := utf8_coerce (ad_DecisionID e); ad_Admission := ad_Admission e;
     ad_AttestationIDs := map utf8_coerce (ad_AttestationIDs e) |}.
Definition stored_state (s : AuthorityStateV1) : AuthorityStateV1 :=
  {| as_AuthorityID := utf8_coerce (as_AuthorityID s); as_Balance := as_Balance s; as_Policies := stored_map stored_policy (as_Policies s);
     as_Active := stored_map id (as_Active s); as_Disabled := stored_map id (as_Disabled s);
     as_Authorizations := stored_map stored_usage (as_Authorizations s); as_Transfers := stored_map stored_transfer (as_Transfers s);
     as_Audit := map stored_audit (as_Audit s) |}.
Definition stored_result (r : mutationResultV1) : mutationResultV1 :=
  Build_mutationResultV1 (mr_Reason r) (stored_transfer (mr_Transfer r)).

(** ** The database of an authority *)

Record Authority := { au_id : bytes; au_state : option AuthorityStateV1; au_results : gmap bytes mutationResultV1 }.

Inductive outcome := Committed | Refused (e : gerror) | Unreported (e : gerror).

Section Mutate.
Context {X : Type}.

(** The command in the database: what is stored, the result, whether it was a
    retry, and what the change assigned.  [tx.Put] encodes the state, which the
    next [tx.Get] decodes, and [DecodeResult] decodes the encoded result. *)
Definition apply_command (commandID : bytes) (zero : X) (fn : AuthorityStateV1 → AuthorityStateV1 * mutationResultV1 * X) (a : Authority)
    : Authority * mutationResultV1 * bool * X :=
  match au_results a !! commandID with
  | Some r => (a, r, true, zero)
  | None =>
      match au_state a with
      | None => (Build_Authority (au_id a) None (<[commandID := zeroResult]> (au_results a)), zeroResult, false, zero)
      | Some s =>
          let '(s, r, x) := fn s in
          let r := stored_result r in
          (Build_Authority (au_id a) (Some (stored_state s)) (<[commandID := r]> (au_results a)), r, false, x)
      end
  end.
Definition mutate (o : outcome) (commandID : bytes) (zero : X) (fn : AuthorityStateV1 → AuthorityStateV1 * mutationResultV1 * X) (a : Authority)
    : Authority * res gerror (mutationResultV1 * bool * X) :=
  let '(a', r, duplicate, x) := apply_command commandID zero fn a in
  match o with
  | Committed => (a', Ok (r, duplicate, x))
  | Refused e => (a, Err e)
  | Unreported e => (a', Err e)
  end.
End Mutate.

Definition initial_state (id : bytes) (balance : Z) : AuthorityStateV1 :=
  {| as_AuthorityID := id; as_Balance := balance; as_Policies := ∅; as_Active := ∅; as_Disabled := ∅; as_Authorizations := ∅; as_Transfers := ∅; as_Audit := [] |}.
(** [OpenAuthority] on what its directory holds; the result the initialization
    records is never read. *)
Definition OpenAuthority (o : outcome) (id : bytes) (balance : Z) (state : option AuthorityStateV1) (results : gmap bytes mutationResultV1)
    : Authority * res gerror unit :=
  let a := Build_Authority id state results in
  match state with
  | Some _ => (a, Ok tt)
  | None =>
      let a' := match results !! (bs "initialize/" ++ id) with
                | Some _ => a
                | None => Build_Authority id (Some (stored_state (initial_state id balance))) (<[bs "initialize/" ++ id := zeroResult]> results)
                end in
      match o with Committed => (a', Ok tt) | Refused e => (a, Err e) | Unreported e => (a', Err e) end
  end.
Definition Load (a : Authority) : res gerror AuthorityStateV1 :=
  match au_state a with Some s => Ok s | None => Err (EMsg "authority state missing") end.

Definition policyKey (id : bytes) (version : Z) : bytes := id ++ bs "/" ++ dec version.

(** ** Changes of the state *)

Definition put_policy (s : AuthorityStateV1) (key : bytes) (p : PolicyV1) : AuthorityStateV1 :=
  Build_AuthorityStateV1 (as_AuthorityID s) (as_Balance s) (<[key := p]> (as_Policies s)) (as_Active s) (as_Disabled s) (as_Authorizations s) (as_Transfers s) (as_Audit s).
Definition put_active (s : AuthorityStateV1) (id : bytes) (version : Z) : AuthorityStateV1 :=
  Build_AuthorityStateV1 (as_AuthorityID s) (as_Balance s) (as_Policies s) (<[id := version]> (as_Active s)) (as_Disabled s) (as_Authorizations s) (as_Transfers s) (as_Audit s).
Definition put_disabled (s : AuthorityStateV1) (key : bytes) : AuthorityStateV1 :=
  Build_AuthorityStateV1 (as_AuthorityID s) (as_Balance s) (as_Policies s) (as_Active s) (<[key := true]> (as_Disabled s)) (as_Authorizations s) (as_Transfers s) (as_Audit s).
Definition put_usage (s : AuthorityStateV1) (id : bytes) (u : AuthorizationUsageV1) : AuthorityStateV1 :=
  Build_AuthorityStateV1 (as_AuthorityID s) (as_Balance s) (as_Policies s) (as_Active s) (as_Disabled s) (<[id := u]> (as_Authorizations s)) (as_Transfers s) (as_Audit s).
Definition put_transfer (s : AuthorityStateV1) (id : bytes) (t : FinancialTransferV1) : AuthorityStateV1 :=
  Build_AuthorityStateV1 (as_AuthorityID s) (as_Balance s) (as_Policies s) (as_Active s) (as_Disabled s) (as_Authorizations s) (<[id := t]> (as_Transfers s)) (as_Audit s).
Definition put_balance (s : AuthorityStateV1) (balance : Z) : AuthorityStateV1 :=
  Build_AuthorityStateV1 (as_AuthorityID s) balance (as_Policies s) (as_Active s) (as_Disabled s) (as_Authorizations s) (as_Transfers s) (as_Audit s).
Definition put_audit (s : AuthorityStateV1) (e : PolicyAuditV1) : AuthorityStateV1 :=
  Build_AuthorityStateV1 (as_AuthorityID s) (as_Balance s) (as_Policies s) (as_Active s) (as_Disabled s) (as_Authorizations s) (as_Transfers s) (as_Audit s ++ [e]).

Definition usage (s : AuthorityStateV1) (id : bytes) : AuthorizationUsageV1 := default zeroUsage (as_Authorizations s !! id).
Definition active_version (s : AuthorityStateV1) (id : bytes) : Z := default 0 (as_Active s !! id).
Definition disabled (s : AuthorityStateV1) (key : bytes) : bool := default false (as_Disabled s !! key).

Section Authorities.
Context `{UnicodeTables}.

(** ** Policies *)

(** [ProposePolicy] inside the command: the flag is [conflict]. *)
Definition propose (key : bytes) (p : PolicyV1) (s : AuthorityStateV1) : AuthorityStateV1 * mutationResultV1 * bool :=
  match as_Policies s !! key with
  | Some existing =>
      if negb (same (pi_PolicyDigest (po_Identity existing)) (pi_PolicyDigest (po_Identity p))) then (s, reason_only InvalidPolicy, true)
      else (put_policy s key p, reason_only ReasonAllowed, false)
  | None => (put_policy s key p, reason_only ReasonAllowed, false)
  end.
Definition ProposePolicy (o : outcome) (p : PolicyV1) (a : Authority) : Authority * res gerror PolicyV1 :=
  let p := SealPolicy p in
  match ValidatePolicy p with
  | Err e => (a, Err e)
  | Ok _ =>
      if negb (same (po_OwnerBSO p) (au_id a)) || negb (same (sc_Subject (po_Scope p)) (au_id a))
      then (a, Err (EMsg "policy authority scope does not belong to BSO"))
      else
        let key := policyKey (pi_PolicyID (po_Identity p)) (pi_PolicyVersion (po_Identity p)) in
        let (a, r) := mutate o (bs "propose/" ++ key ++ bs "/" ++ pi_PolicyDigest (po_Identity p)) false (propose key p) a in
        (a, let! (_, conflict) := r in if conflict : bool then Err (EMsg "policy version history is immutable") else Ok p)
  end.

(** [ActivatePolicy] inside the command, with [diff] and [activationErr]. *)
Definition zeroDiff : PolicyDiffV1 := Build_PolicyDiffV1 [] 0 0 [] false.
Definition activate (policyID : bytes) (version : Z) (approved : bool) (s : AuthorityStateV1)
    : AuthorityStateV1 * mutationResultV1 * (PolicyDiffV1 * option gerror) :=
  match as_Policies s !! policyKey policyID version with
  | None => (s, reason_only InvalidPolicy, (zeroDiff, Some (EMsg "proposed policy version not found")))
  | Some p =>
      let current := active_version s policyID in
      let diff := if 0 <? current then DiffPolicies (default zeroPolicy (as_Policies s !! policyKey policyID current)) p else zeroDiff in
      if df_AuthorityExpanded diff && negb approved
      then (s, reason_only InvalidPolicy, (diff, Some (EMsg "authority expansion requires explicit local approval")))
      else (put_active s policyID version, reason_only ReasonAllowed, (diff, None))
  end.
Definition ActivatePolicy (o : outcome) (policyID : bytes) (version : Z) (approved : bool) (a : Authority)
    : Authority * PolicyDiffV1 * option gerror :=
  let command := bs "activate/" ++ policyKey policyID version ++ bs "/approved=" ++ format_bool approved in
  let (a, r) := mutate o command (zeroDiff, None) (activate policyID version approved) a in
  match r with Err e => (a, zeroDiff, Some e) | Ok (_, (diff, err)) => (a, diff, err) end.

(** [DisablePolicy]; the flag is [missing]. *)
Definition disable (key : bytes) (s : AuthorityStateV1) : AuthorityStateV1 * mutationResultV1 * bool :=
  match as_Policies s !! key with
  | None => (s, reason_only InvalidPolicy, true)
  | Some _ => (put_disabled s key, reason_only ReasonAllowed, false)
  end.
Definition DisablePolicy (o : outcome) (policyID : bytes) (version : Z) (a : Authority) : Authority * option gerror :=
  let key := policyKey policyID version in
  let (a, r) := mutate o (bs "disable/" ++ key) false (disable key) a in
  match r with Err e => (a, Some e) | Ok (_, missing) => (a, if missing : bool then Some (EMsg "policy version not found") else None) end.

Definition Policy (policyID : bytes) (version : Z) (a : Authority) : res gerror PolicyV1 :=
  let! s := Load a in
  match as_Policies s !! policyKey policyID version with Some p => Ok p | None => Err (EMsg "policy version not found") end.
Definition ActivePolicy (policyID : bytes) (a : Authority) : res gerror PolicyV1 :=
  let! s := Load a in
  let version := active_version s policyID in
  if version =? 0 then Err (EMsg "policy not active") else Ok (default zeroPolicy (as_Policies s !! policyKey policyID version)).

(** ** Transfers *)

Definition factsFrom (s : AuthorityStateV1) (r : TransferRequestV1) : PolicyFactsV1 :=
  let u := usage s (tr_AuthorizationID r) in
  {| fa_FactID := stableID (bs "facts") [as_AuthorityID s; tr_AuthorizationID r; dec (us_FactVersion u)]; fa_FactVersion := us_FactVersion u;
     fa_TransferID := tr_TransferID r; fa_Subject := tr_Subject r; fa_Actor := tr_Actor r; fa_Counterparty := tr_Counterparty r;
     fa_TransactionClass := tr_Class r; fa_Amount := tr_Amount r; fa_LogicalTime := tr_LogicalTime r; fa_ConsumedAmount := us_Consumed u;
     fa_ReservedAmount := us_Reserved u; fa_TrustRoles := tr_TrustRoles r; fa_EscrowPresent := tr_EscrowPresent r |}.
Definition Evaluate (p : PolicyV1) (r : TransferRequestV1) (a : Authority) : res gerror PolicyDecisionV1 :=
  let! s := Load a in Ok (EvaluatePolicy p (factsFrom s r)).

Definition request_digest (r : TransferRequestV1) : bytes :=
  requestDigest (tr_TransferID r) (tr_Subject r) (tr_Actor r) (tr_Counterparty r) (tr_Class r) (tr_Amount r) (tr_LogicalTime r) (tr_TrustRoles r) (tr_EscrowPresent r).
Definition new_transfer (p : PolicyV1) (d : PolicyDecisionV1) (r : TransferRequestV1) : FinancialTransferV1 :=
  {| ft_TransferID := tr_TransferID r; ft_OriginalTransferID := tr_OriginalTransferID r; ft_From := tr_Subject r; ft_To := tr_Counterparty r;
     ft_Amount := tr_Amount r; ft_Class := tr_Class r; ft_Kind := tr_Kind r; ft_Status := TransferReserved; ft_Policy := po_Identity p;
     ft_DecisionID := de_DecisionID d |}.
Definition reserve_usage (u : AuthorizationUsageV1) (id : bytes) (amount : Z) : AuthorizationUsageV1 :=
  Build_AuthorizationUsageV1 id (us_Consumed u) (i64 (us_Reserved u + amount)) (i64 (us_FactVersion u + 1)).

(** The refusals of [Reserve] for a new transfer, in their order. *)
Definition admission (p : PolicyV1) (d : PolicyDecisionV1) (r : TransferRequestV1) (s : AuthorityStateV1) : ReasonCode :=
  let key := policyKey (pi_PolicyID (po_Identity p)) (pi_PolicyVersion (po_Identity p)) in
  let facts := factsFrom s r in
  match as_Policies s !! key with
  | None => PolicyVersionMismatch
  | Some stored =>
      if negb (same (pi_PolicyDigest (po_Identity stored)) (pi_PolicyDigest (po_Identity p))) || negb (bool_decide (de_Identity d = po_Identity p))
      then PolicyVersionMismatch
      else if negb (active_version s (pi_PolicyID (po_Identity p)) =? pi_PolicyVersion (po_Identity p)) then PolicyVersionMismatch
      else if disabled s key then PolicyDisabled
      else if negb (de_Allowed d) || negb (same (de_RequestDigest d) (request_digest r)) then PolicyVersionMismatch
      else if negb (de_FactVersion d =? fa_FactVersion facts) || negb (same (de_FactID d) (fa_FactID facts)) then StateConflict
      else
        let current := EvaluatePolicy p facts in
        if negb (de_Allowed current) then de_Reason current
        else if as_Balance s <? tr_Amount r then InsufficientBalance
        else ReasonAllowed
  end.
Definition reserve (p : PolicyV1) (d : PolicyDecisionV1) (r : TransferRequestV1) (s : AuthorityStateV1) : AuthorityStateV1 * mutationResultV1 * unit :=
  match as_Transfers s !! tr_TransferID r with
  | Some existing =>
      if negb (same (ft_From existing) (tr_Subject r)) || negb (same (ft_To existing) (tr_Counterparty r)) || negb (ft_Amount existing =? tr_Amount r)
         || negb (same (ft_Class existing) (tr_Class r)) || negb (bool_decide (ft_Policy existing = po_Identity p))
      then (s, reason_only StateConflict, tt)
      else (s, Build_mutationResultV1 ReasonAllowed existing, tt)
  | None =>
      match admission p d r s with
      | ReasonAllowed =>
          let s := put_usage s (tr_AuthorizationID r) (reserve_usage (usage s (tr_AuthorizationID r)) (tr_AuthorizationID r) (tr_Amount r)) in
          let t := new_transfer p d r in
          (put_transfer s (tr_TransferID r) t, Build_mutationResultV1 ReasonAllowed t, tt)
      | reason => (s, reason_only reason, tt)
      end
  end.
Definition is_status (t : FinancialTransferV1) (st : TransferStatus) : bool := bool_decide (ft_Status t = st).
Definition Reserve (o : outcome) (p : PolicyV1) (d : PolicyDecisionV1) (r : TransferRequestV1) (a : Authority)
    : Authority * res gerror ReservationResultV1 :=
  let (a, m) := mutate o (bs "reserve/" ++ tr_TransferID r ++ bs "/" ++ de_DecisionID d) tt (reserve p d r) a in
  (a, let! (result, duplicate, _) := m in
      Ok {| rv_Reserved := is_status (mr_Transfer result) TransferReserved || is_status (mr_Transfer result) TransferCommitted;
            rv_Duplicate := duplicate; rv_Reason := mr_Reason result; rv_Transfer := mr_Transfer result |}).

Definition consume_usage (u : AuthorizationUsageV1) (amount : Z) : AuthorizationUsageV1 :=
  Build_AuthorizationUsageV1 (us_AuthorizationID u) (i64 (us_Consumed u + amount)) (i64 (us_Reserved u - amount)) (i64 (us_FactVersion u + 1)).
Definition audit_of (t : FinancialTransferV1) (transferID : bytes) (attestationIDs : list bytes) : PolicyAuditV1 :=
  {| ad_TransferID := transferID; ad_PolicyID := pi_PolicyID (ft_Policy t); ad_PolicyVersion := pi_PolicyVersion (ft_Policy t);
     ad_PolicyDigest := pi_PolicyDigest (ft_Policy t); ad_DecisionID := ft_DecisionID t; ad_Admission := ReasonAllowed; ad_AttestationIDs := attestationIDs |}.
(** [Finalize] inside the command, with [finalizeErr]. *)
Definition finalize (authorizationID transferID : bytes) (attestationIDs : list bytes) (s : AuthorityStateV1)
    : AuthorityStateV1 * mutationResultV1 * option gerror :=
  match as_Transfers s !! transferID with
  | None => (s, reason_only StateConflict, Some (EMsg "reservation not found"))
  | Some t =>
      if is_status t TransferCommitted then (s, Build_mutationResultV1 ReasonAllowed t, None)
      else
        let u := usage s authorizationID in
        if (us_Reserved u <? ft_Amount t) || (as_Balance s <? ft_Amount t)
        then (s, reason_only StateConflict, Some (EMsg "reserved invariant missing"))
        else
          let s := put_usage s authorizationID (consume_usage u (ft_Amount t)) in
          let s := put_balance s (i64 (as_Balance s - ft_Amount t)) in
          let t := with_status t TransferCommitted in
          let s := put_audit (put_transfer s transferID t) (audit_of t transferID attestationIDs) in
          (s, Build_mutationResultV1 ReasonAllowed t, None)
  end.
Definition Finalize (o : outcome) (authorizationID transferID : bytes) (attestationIDs : list bytes) (a : Authority)
    : Authority * FinancialTransferV1 * option gerror :=
  let (a, m) := mutate o (bs "finalize/" ++ transferID) None (finalize authorizationID transferID attestationIDs) a in
  match m with Err e => (a, zeroTransfer, Some e) | Ok (r, _, err) => (a, mr_Transfer r, err) end.

(** [Credit] inside the command, with [creditErr]. *)
Definition credit (id : bytes) (original : FinancialTransferV1) (s : AuthorityStateV1) : AuthorityStateV1 * mutationResultV1 * option gerror :=
  let fresh :=
    if negb (is_status original TransferCommitted) || negb (same (ft_To original) id)
    then (s, reason_only StateConflict, Some (EMsg "invalid committed transfer"))
    else
      let t := with_status original TransferCredited in
      (put_transfer (put_balance s (i64 (as_Balance s + ft_Amount t))) (ft_TransferID t) t, Build_mutationResultV1 ReasonAllowed t, None) in
  match as_Transfers s !! ft_TransferID original with
  | Some existing =>
      if is_status existing TransferCredited then
        if negb (same (ft_From existing) (ft_From original)) || negb (same (ft_To existing) (ft_To original))
           || negb (ft_Amount existing =? ft_Amount original) || negb (same (ft_DecisionID existing) (ft_DecisionID original))
        then (s, reason_only StateConflict, Some (EMsg "duplicate credit identity mismatch"))
        else (s, Build_mutationResultV1 ReasonAllowed existing, None)
      else fresh
  | None => fresh
  end.
Definition Credit (o : outcome) (original : FinancialTransferV1) (a : Authority) : Authority * option gerror :=
  let (a, m) := mutate o (bs "credit/" ++ ft_TransferID original) None (credit (au_id a) original) a in
  match m with Err e => (a, Some e) | Ok (_, err) => (a, err) end.

(** ** Settlement *)

Abbreviation world := (gmap bytes Authority).

Definition Settle (oR oF oC : outcome) (sender receiver : bytes) (p : PolicyV1) (r : TransferRequestV1) (w : world)
    : option (world * (FinancialTransferV1 * PolicyDecisionV1 * ReasonCode * option gerror)) :=
  a ← w !! sender;
  match Evaluate p r a with
  | Err e => Some (w, (zeroTransfer, zeroDecision, StateConflict, Some e))
  | Ok d =>
      if negb (de_Allowed d) then Some (w, (zeroTransfer, d, de_Reason d, None))
      else
        let (a, reserved) := Reserve oR p d r a in
        let w := <[sender := a]> w in
        match reserved with
        | Err e => Some (w, (zeroTransfer, d, NoReason, Some e))
        | Ok v =>
            if negb (rv_Reserved v) then Some (w, (rv_Transfer v, d, rv_Reason v, None))
            else
              let '(a, committed, err) := Finalize oF (tr_AuthorizationID r) (tr_TransferID r) (tr_AttestationIDs r) a in
              let w := <[sender := a]> w in
              match err with
              | Some e => Some (w, (committed, d, StateConflict, Some e))
              | None =>
                  b ← w !! receiver;
                  let (b, err) := Credit oC committed b in
                  let w := <[receiver := b]> w in
                  match err with
                  | Some e => Some (w, (committed, d, StateConflict, Some e))
                  | None => Some (w, (committed, d, ReasonAllowed, None))
                  end
              end
        end
  end.
End Authorities.

(** ** Text reads back *)

(** A string that is valid UTF-8, and values with only such strings. *)
Definition text (s : bytes) : Prop := utf8_valid s = true.
Definition identity_text (i : PolicyIdentityV1) : Prop := text (pi_PolicyID i) ∧ text (pi_PolicyDigest i).
Definition policy_text (p : PolicyV1) : Prop :=
  identity_text (po_Identity p) ∧ Forall text [po_Class p; po_OwnerBSO p; po_EscrowCondition p] ∧ Forall text (po_RequiredTrustRoles p)
  ∧ Forall text [sc_AuthorizationID (po_Scope p); sc_Subject (po_Scope p); sc_Delegate (po_Scope p); sc_Counterparty (po_Scope p);
                 sc_TransactionClass (po_Scope p)].
Definition usage_text (u : AuthorizationUsageV1) : Prop := text (us_AuthorizationID u).
Definition transfer_text (t : FinancialTransferV1) : Prop :=
  Forall text [ft_TransferID t; ft_OriginalTransferID t; ft_From t; ft_To t; ft_Class t; ft_Kind t; ft_DecisionID t] ∧ identity_text (ft_Policy t).
Definition audit_text (e : PolicyAuditV1) : Prop :=
  Forall text [ad_TransferID e; ad_PolicyID e; ad_PolicyDigest e; ad_DecisionID e] ∧ Forall text (ad_AttestationIDs e).
Definition map_text {A} (P : A → Prop) (m : gmap bytes A) : Prop := map_Forall (λ k v, text k ∧ P v) m.
Record state_text (s : AuthorityStateV1) : Prop := {
  st_id : text (as_AuthorityID s);
  st_policies : map_text policy_text (as_Policies s);
  st_active : map_text (λ _, True) (as_Active s);
  st_disabled : map_text (λ _, True) (as_Disabled s);
  st_usages : map_text usage_text (as_Authorizations s);
  st_transfers : map_text transfer_text (as_Transfers s);
  st_audit : Forall audit_text (as_Audit s) }.

Lemma text_kept s : text s → utf8_coerce s = s.
Proof. apply utf8_coerce_valid. Qed.
Lemma texts_kept l : Forall text l → map utf8_coerce l = l.
Proof. induction 1 as [|s l Hs _ IH]; [done|]. cbn. by rewrite IH, text_kept. Qed.

#[local] Arguments utf8_coerce : simpl never.
Ltac texts_in := repeat match goal with H : Forall text (_ :: _) |- _ => apply Forall_cons in H as [? H] end.
Ltac keep_texts := repeat match goal with |- context [utf8_coerce ?s] => rewrite (text_kept s) by done end.

Lemma identity_kept i : identity_text i → stored_identity i = i.
Proof. intros [H1 H2]. destruct i. unfold stored_identity. cbn in *. by keep_texts. Qed.
Lemma policy_kept p : policy_text p → stored_policy p = p.
Proof.
  intros (H1&H2&H3&H4). destruct p as [i c o [] ro e ec n]. unfold stored_policy, stored_scope. cbn in *. texts_in.
  rewrite identity_kept, texts_kept by done. by keep_texts.
Qed.
Lemma usage_kept u : usage_text u → stored_usage u = u.
Proof. intros H1. destruct u. unfold stored_usage. cbn in *. by rewrite text_kept. Qed.
Lemma transfer_kept t : transfer_text t → stored_transfer t = t.
Proof. intros [H1 H2]. destruct t. unfold stored_transfer. cbn in *. texts_in. rewrite identity_kept by done. by keep_texts. Qed.
Lemma audit_kept e : audit_text e → stored_audit e = e.
Proof. intros [H1 H2]. destruct e. unfold stored_audit. cbn in *. texts_in. rewrite texts_kept by done. by keep_texts. Qed.

Lemma stored_keys {A} (f : A → A) (m : gmap bytes A) (l : list bytes) (acc : gmap bytes A) (j : bytes) :
  (∀ k v, m !! k = Some v → utf8_coerce k = k ∧ f v = v) →
  foldl (λ (acc : gmap bytes A) k, match m !! k with Some v => <[utf8_coerce k := f v]> acc | None => acc end) acc l !! j
  = if bool_decide (j ∈ l ∧ is_Some (m !! j)) then m !! j else acc !! j.
Proof.
  intros Hm. revert acc. induction l as [|k l IH]; intros acc; cbn [foldl].
  { rewrite bool_decide_eq_false_2; [done|]. by intros [?%elem_of_nil _]. }
  rewrite IH. destruct (m !! k) as [v|] eqn:Ek.
  - destruct (Hm k v Ek) as [-> ->]. destruct (decide (j = k)) as [->|Hn].
    + rewrite lookup_insert_eq, (bool_decide_eq_true_2 (k ∈ k :: l ∧ _)) by (split; [left|by eexists]). by case_bool_decide.
    + rewrite lookup_insert_ne by done. rewrite (bool_decide_ext _ (j ∈ k :: l ∧ is_Some (m !! j))); [done|]. rewrite elem_of_cons. naive_solver.
  - rewrite (bool_decide_ext _ (j ∈ k :: l ∧ is_Some (m !! j))); [done|]. rewrite elem_of_cons. split; [naive_solver|].
    intros [[->|?] [x Hx]]; [congruence|]. split; [done|by exists x].
Qed.

Lemma map_kept {A} (P : A → Prop) (f : A → A) (m : gmap bytes A) : (∀ v, P v → f v = v) → map_text P m → stored_map f m = m.
Proof.
  intros Hf Hm. apply map_eq. intros j. unfold stored_map. rewrite stored_keys.
  - case_bool_decide as Hj; [done|]. rewrite lookup_empty. symmetry. apply eq_None_not_Some. intros [v Hv]. apply Hj. split; [|by eexists].
    rewrite sort_strings_perm. apply list_elem_of_fmap. exists (j, v). split; [done|]. by apply elem_of_map_to_list.
  - intros k v Hv. destruct (Hm k v Hv) as [Hk Hp]. split; [by apply text_kept|by apply Hf].
Qed.

Lemma state_kept s : state_text s → stored_state s = s.
Proof.
  intros [H1 H2 H3 H4 H5 H6 H7]. destruct s as [i b p a d u t e]. unfold stored_state. cbn in *.
  rewrite (text_kept i), (map_kept policy_text), !(map_kept (λ _, True)), (map_kept usage_text), (map_kept transfer_text)
    by (done || apply policy_kept || apply usage_kept || apply transfer_kept). f_equal.
  induction H7 as [|x l Hx _ IH]; [done|]. cbn. by rewrite IH, audit_kept.
Qed.
Lemma result_kept r : transfer_text (mr_Transfer r) → stored_result r = r.
Proof. intros H. destruct r. unfold stored_result. cbn in *. by rewrite transfer_kept. Qed.

(** Text put together is text. *)
Lemma utf8_head_more b s t cp k : utf8_head b s = Some (cp, k) → utf8_head b (s ++ t) = Some (cp, k) ∧ (k ≤ length s)%nat.
Proof.
  unfold utf8_head. destruct (bval b <? 128) eqn:E1; [intros [= <- <-]; split; [done|lia]|].
  destruct (in_range 194 223 b) eqn:E2, (in_range 224 239 b) eqn:E3, (in_range 240 244 b) eqn:E4; try done;
    destruct s as [|? [|? [|? s]]]; cbn [app length]; try done;
    intros Hh; case_match; try discriminate Hh; injection Hh as <- <-; (split; [done|]).
  all: lia.
Qed.
Lemma text_app s t : text s → text t → text (s ++ t).
Proof.
  unfold text, utf8_valid. intros Hs Ht. revert Hs. induction s as [|b s IH] using utf8_ind; [done|]. intros Hs. cbn [app].
  rewrite utf8_chunks_cons in *. unfold utf8_step in *. destruct (utf8_head b s) as [[cp k]|] eqn:E; [|done].
  destruct (utf8_head_more b s t cp k E) as [-> Hk]. cbn [forallb fst snd chunk_valid andb] in *. rewrite drop_app_le by done.
  apply IH; [|done]. rewrite length_drop. lia.
Qed.
Lemma text_ascii s : Forall (λ b, bval b < 128) s → text s.
Proof. apply ascii_chunks. Qed.
Lemma dec_text v : text (dec v).
Proof.
  assert (∀ b, digit b = true → bval b < 128) as Hd by (intros b; unfold digit, in_range; intros E; bool_to_prop; lia).
  assert (∀ n, Forall (λ b, bval b < 128) (dec_nat n)) as Hn.
  { intros n. destruct (dec_nat_shape n) as [->|(b&l&->&_&Hb&Hl)]; [by repeat constructor|]. constructor; [by apply Hd|].
    apply Forall_forall. intros x Hx. apply Hd. rewrite forallb_forall in Hl. apply Hl. by apply list_elem_of_In. }
  apply text_ascii. unfold dec. destruct (v <? 0); [|apply Hn]. constructor; [by vm_compute|apply Hn].
Qed.
Lemma policyKey_text id version : text id → text (policyKey id version).
Proof. intros H. unfold policyKey. apply text_app; [done|]. apply text_app; [by vm_compute|apply dec_text]. Qed.
Lemma stableID_text prefix fields : text prefix → text (stableID prefix fields).
Proof. intros H. unfold stableID. apply text_app; [done|]. apply text_app; [by vm_compute|apply hex_encode_ascii]. Qed.
Lemma SealPolicy_text `{UnicodeTables} p : policy_text p → policy_text (SealPolicy p).
Proof. intros ([H1 _]&H2&H3&H4). split_and!; [split; [done|apply hex_encode_ascii]|done..]. Qed.
Lemma EvaluatePolicy_text `{UnicodeTables} p f : text (de_DecisionID (EvaluatePolicy p f)).
Proof. unfold EvaluatePolicy. destruct (judge p f) as [[allowed reason] actions]. apply stableID_text. by vm_compute. Qed.

(** Changes of a state of text, with text, give text. *)
Section Texts.
Context `{UnicodeTables}.
Implicit Types s : AuthorityStateV1.

Definition command_text {X} (x : AuthorityStateV1 * mutationResultV1 * X) : Prop := state_text x.1.1 ∧ transfer_text (mr_Transfer x.1.2).

Lemma map_text_insert {A} (P : A → Prop) m k v : map_text P m → text k → P v → map_text P (<[k := v]> m).
Proof. intros Hm Hk Hv. by apply map_Forall_insert_2. Qed.
Lemma zero_text : transfer_text zeroTransfer.
Proof. split; [repeat constructor|by split]. Qed.
Lemma initial_text id balance : text id → state_text (initial_state id balance).
Proof. intros Hi. split; [done|apply map_Forall_empty..|constructor]. Qed.
Lemma usage_text_at s id : state_text s → usage_text (usage s id).
Proof. intros Hs. unfold usage. destruct (as_Authorizations s !! id) as [u|] eqn:E; [by apply (st_usages s Hs id)|done]. Qed.
Lemma transfer_text_at s k t : state_text s → as_Transfers s !! k = Some t → text k ∧ transfer_text t.
Proof. intros Hs. apply (st_transfers s Hs). Qed.

Lemma propose_text key p s : state_text s → text key → policy_text p → command_text (propose key p s).
Proof.
  intros Hs Hk Hp. assert (state_text (put_policy s key p)) by (destruct Hs; split; try done; by apply map_text_insert).
  unfold propose. repeat case_match; (split; [done|apply zero_text]).
Qed.
Lemma activate_text id version approved s : state_text s → text id → command_text (activate id version approved s).
Proof.
  intros Hs Hi. assert (state_text (put_active s id version)) by (destruct Hs; split; try done; by apply map_text_insert).
  unfold activate. repeat case_match; (split; [done|apply zero_text]).
Qed.
Lemma disable_text key s : state_text s → text key → command_text (disable key s).
Proof.
  intros Hs Hk. assert (state_text (put_disabled s key)) by (destruct Hs; split; try done; by apply map_text_insert).
  unfold disable. repeat case_match; (split; [done|apply zero_text]).
Qed.

Definition request_text (r : TransferRequestV1) : Prop :=
  Forall text [tr_TransferID r; tr_OriginalTransferID r; tr_Subject r; tr_Counterparty r; tr_AuthorizationID r; tr_Class r; tr_Kind r]
  ∧ Forall text (tr_AttestationIDs r).
Lemma reserve_text p d r s :
  state_text s → request_text r → identity_text (po_Identity p) → text (de_DecisionID d) → command_text (reserve p d r s).
Proof.
  intros Hs [Hr _] Hp Hd. unfold reserve. destruct (as_Transfers s !! tr_TransferID r) as [t|] eqn:E.
  - destruct (transfer_text_at s _ t Hs E). case_match; (split; [done|done || apply zero_text]).
  - assert (transfer_text (new_transfer p d r)) as Ht by (texts_in; split; [by repeat constructor|done]).
    assert (text (tr_TransferID r) ∧ text (tr_AuthorizationID r)) as [Hi Ha] by (by texts_in).
    case_match; (split; [done|done || apply zero_text]) || (split; [|done]).
    destruct Hs; split; try done; by apply map_text_insert.
Qed.
Lemma finalize_text auth k attestations s :
  state_text s → text auth → Forall text attestations → command_text (finalize auth k attestations s).
Proof.
  intros Hs Ha Hat. unfold finalize. destruct (as_Transfers s !! k) as [t|] eqn:E; [|split; [done|apply zero_text]].
  destruct (transfer_text_at s _ t Hs E) as [Hk [Ht1 Ht2]]. destruct (is_status t _); [by split|]. cbn zeta.
  destruct (_ || _); [split; [done|apply zero_text]|]. split; [|by split]. pose proof (usage_text_at s auth Hs) as Hu.
  destruct Hs; split; try done; try by apply map_text_insert.
  apply Forall_app. split; [done|]. constructor; [|done]. destruct Ht2. texts_in. split; [by repeat constructor|done].
Qed.
Lemma credit_text id t s : state_text s → transfer_text t → command_text (credit id t s).
Proof.
  intros Hs [Ht1 Ht2]. unfold credit. cbn zeta.
  assert (state_text (put_transfer (put_balance s (i64 (as_Balance s + ft_Amount t))) (ft_TransferID t) (with_status t TransferCredited))) as Hn.
  { destruct Hs; split; try done. apply map_text_insert; [done|by texts_in|by split]. }
  destruct (as_Transfers s !! ft_TransferID t) as [u|] eqn:E; [destruct (transfer_text_at s _ u Hs E)|];
    repeat case_match; (split; [done|done || apply zero_text || by split]).
Qed.
End Texts.
