(* ===== verification/BsoSystem.v ===== *)
(** * The system of authorities

    Lemmas on authorities, the step relation of authorities that settle with each
    other with the invariant of their books, and that every step keeps it.  First
    sums over maps, what one command leaves in the database of an authority, and
    when a reservation is admitted. *)

From Stdlib Require Import ZArith Lia Strings.Byte Strings.String.
From stdpp Require Import base decidable countable list gmap sorting relations.
From S2P Require Import Prelude GoText GoBinary GoJson Errors BsoPolicy BsoAuthority.

Local Open Scope Z_scope.
Local Open Scope go_scope.

(** ** Sums over maps *)

Section Sums.
Context {A : Type}.
Implicit Types (f g : bytes → A → Z) (m : gmap bytes A).

Definition msum f m : Z := map_fold (fun k v acc => f k v + acc) 0 m.

Lemma msum_empty f : msum f ∅ = 0.
Proof. apply map_fold_empty. Qed.
Lemma msum_delete f m k v : m !! k = Some v → msum f m = f k v + msum f (delete k m).
Proof. intros Hk. unfold msum. rewrite (map_fold_delete_L _ _ k v m); [done| |done]. intros. lia. Qed.
Lemma msum_insert f m k v : msum f (<[k := v]> m) = f k v + msum f (delete k m).
Proof. rewrite (msum_delete f _ k v) by apply lookup_insert_eq. by rewrite delete_insert_eq. Qed.
Lemma msum_fresh f m k v : m !! k = None → msum f (<[k := v]> m) = f k v + msum f m.
Proof. intros Hk. rewrite msum_insert. by rewrite delete_id. Qed.
Lemma msum_ext f g m : (∀ k v, m !! k = Some v → f k v = g k v) → msum f m = msum g m.
Proof.
  induction m as [|k v m Hk IH] using map_ind; intros He; [done|].
  rewrite !msum_fresh by done. rewrite He by apply lookup_insert_eq. rewrite IH; [done|].
  intros j u Hj. apply He. rewrite lookup_insert_ne; [done|]. intros ->. congruence.
Qed.
(** Two weights that differ at one key only. *)
Lemma msum_at f g m k v :
  m !! k = Some v → (∀ j u, j ≠ k → m !! j = Some u → f j u = g j u) → msum f m = msum g m + f k v - g k v.
Proof.
  intros Hk He. rewrite (msum_delete f m k v), (msum_delete g m k v) by done.
  rewrite (msum_ext f g); [lia|]. intros j u [Hn Hj]%lookup_delete_Some. by apply He.
Qed.
Lemma msum_nonneg f m : (∀ k v, m !! k = Some v → 0 ≤ f k v) → 0 ≤ msum f m.
Proof.
  induction m as [|k v m Hk IH] using map_ind; intros Hn; [done|].
  rewrite msum_fresh by done. pose proof (Hn k v (lookup_insert_eq _ _ _)).
  assert (0 ≤ msum f m); [|lia]. apply IH. intros j u Hj. apply Hn. rewrite lookup_insert_ne; [done|]. intros ->. congruence.
Qed.
Lemma msum_ge f m k v : m !! k = Some v → (∀ k v, m !! k = Some v → 0 ≤ f k v) → f k v ≤ msum f m.
Proof.
  intros Hk Hn. rewrite (msum_delete f m k v) by done. assert (0 ≤ msum f (delete k m)); [|lia].
  apply msum_nonneg. intros j u [_ Hj]%lookup_delete_Some. by apply Hn.
Qed.
End Sums.

(** ** One command *)

(** On text the state and the result are stored as they are. *)
Lemma mutate_effect {X} o id (zero : X) fn a s :
  au_state a = Some s → command_text (fn s) →
  (mutate o id zero fn a).1 = a
  ∨ au_results a !! id = None ∧ (mutate o id zero fn a).1 = Build_Authority (au_id a) (Some (fn s).1.1) (<[id := (fn s).1.2]> (au_results a)).
Proof.
  intros Hs [H1 H2]. unfold mutate, apply_command. destruct (au_results a !! id); [left; by destruct o|].
  rewrite Hs. destruct (fn s) as [[s' r] x]. cbn [fst snd] in *. rewrite state_kept, result_kept by done. destruct o; cbn; auto.
Qed.

(** What the caller of a command learns. *)
Lemma mutate_ok {X} o id (zero : X) fn a s r dup x :
  au_state a = Some s → command_text (fn s) → (mutate o id zero fn a).2 = Ok (r, dup, x) →
  (au_results a !! id = Some r ∧ dup = true ∧ x = zero ∧ (mutate o id zero fn a).1 = a)
  ∨ (au_results a !! id = None ∧ dup = false ∧ r = (fn s).1.2 ∧ x = (fn s).2
     ∧ (mutate o id zero fn a).1 = Build_Authority (au_id a) (Some (fn s).1.1) (<[id := r]> (au_results a))).
Proof.
  intros Hs [H1 H2]. unfold mutate, apply_command. destruct (au_results a !! id) as [r'|] eqn:E.
  - destruct o; cbn; intros [= <- <- <-]. by left.
  - rewrite Hs. destruct (fn s) as [[s' r'] x']. cbn [fst snd] in *. rewrite state_kept, result_kept by done.
    destruct o; cbn; intros [= <- <- <-]. right. done.
Qed.

(** The strings of the state of an authority are text. *)
Definition authority_text (a : Authority) : Prop := ∀ s, au_state a = Some s → state_text s.
Lemma mutate_text {X} o id (zero : X) fn a :
  authority_text a → (∀ s, state_text s → command_text (fn s)) → authority_text (mutate o id zero fn a).1.
Proof.
  intros Ha Hf. destruct (au_state a) as [s|] eqn:Hs.
  - pose proof (Hf s (Ha s Hs)) as Hc. destruct (mutate_effect o id zero fn a s Hs Hc) as [->|[_ ->]]; [done|]. intros ? [= <-]. apply Hc.
  - unfold mutate, apply_command. rewrite Hs. destruct (au_results a !! id); destruct o; try done; intros ? ?; simplify_eq/=; congruence.
Qed.

(** ** Admission *)

Section Admission.
Context `{UnicodeTables}.

Lemma judge_allowed p f :
  (judge p f).1.1 = true →
  0 < fa_Amount f ≤ sc_MaxAmount (po_Scope p) ∧ fa_Subject f = sc_Subject (po_Scope p) ∧ fa_Counterparty f = sc_Counterparty (po_Scope p)
  ∧ (0 < sc_MaxCumulativeAmount (po_Scope p) →
     i64 (i64 (fa_ConsumedAmount f + fa_ReservedAmount f) + fa_Amount f) ≤ sc_MaxCumulativeAmount (po_Scope p)).
Proof.
  unfold judge, same. destruct (ValidatePolicy p); [|done]. repeat (case_bool_decide || case_match); cbn; try done.
  all: intros _; bool_to_prop; repeat split; try done; try lia.
Qed.

Lemma evaluate_allowed p f : de_Allowed (EvaluatePolicy p f) = (judge p f).1.1.
Proof. unfold EvaluatePolicy. by destruct (judge p f) as [[allowed reason] actions]. Qed.
Lemma evaluate_reason p f : de_Allowed (EvaluatePolicy p f) = false → de_Reason (EvaluatePolicy p f) ≠ ReasonAllowed.
Proof.
  unfold EvaluatePolicy, judge. destruct (ValidatePolicy p); [|done]. repeat case_match; simplify_eq; done.
Qed.

Lemma admission_ok p d r s :
  admission p d r s = ReasonAllowed →
  de_Allowed d = true ∧ de_Allowed (EvaluatePolicy p (factsFrom s r)) = true ∧ tr_Amount r ≤ as_Balance s
  ∧ active_version s (pi_PolicyID (po_Identity p)) = pi_PolicyVersion (po_Identity p)
  ∧ disabled s (policyKey (pi_PolicyID (po_Identity p)) (pi_PolicyVersion (po_Identity p))) = false.
Proof.
  unfold admission. intros Ha. repeat case_match; try discriminate Ha.
  - exfalso. revert Ha. apply evaluate_reason. by apply negb_true_iff.
  - repeat match goal with E : _ || _ = false |- _ => apply orb_false_iff in E as [? ?] | E : negb _ = false |- _ => apply negb_false_iff in E end.
    repeat split; done || lia.
Qed.

Lemma reserve_effect p d r s :
  (reserve p d r s).1.1 = s
  ∨ as_Transfers s !! tr_TransferID r = None ∧ admission p d r s = ReasonAllowed
    ∧ (reserve p d r s).1.1 = put_transfer (put_usage s (tr_AuthorizationID r)
         (reserve_usage (usage s (tr_AuthorizationID r)) (tr_AuthorizationID r) (tr_Amount r))) (tr_TransferID r) (new_transfer p d r).
Proof.
  unfold reserve. destruct (as_Transfers s !! tr_TransferID r) as [existing|] eqn:E; [left; by case_match|].
  destruct (admission p d r s) eqn:Ea; auto.
Qed.
End Admission.

(** ** Authorities that settle transfers with each other

    The step relation of any number of clients: policy commands, reservations,
    debits and credits in any order, each with any outcome in the database, and
    databases that forget results beyond their horizon.  Clients keep four
    rules: an identifier of a transfer stands for one request of one authority to
    another, which names the authorization of its policy, all policies an
    authorization is used with have the same cumulative limit, amounts are below
    2^62, and a credit carries the transfer its sender committed.  All strings are
    UTF-8, since the books go through JSON.  The invariant ties the books of the
    authorities together. *)

Abbreviation world := (gmap bytes Authority).

(** What the identifier of a transfer stands for, and the cumulative limit of an
    authorization of an authority, 0 where there is none. *)
Record agreement := {
  from_of : bytes → bytes; to_of : bytes → bytes; auth_of : bytes → bytes; limit_of : bytes → bytes → Z }.

Section System.
Context `{UnicodeTables} (g : agreement).

Record agreed (i : bytes) (p : PolicyV1) (r : TransferRequestV1) : Prop := {
  ag_named : tr_TransferID r ≠ [];
  ag_from : from_of g (tr_TransferID r) = i ∧ tr_Subject r = i;
  ag_to : to_of g (tr_TransferID r) = tr_Counterparty r ∧ tr_Counterparty r ≠ i;
  ag_auth : auth_of g (tr_TransferID r) = tr_AuthorizationID r;
  ag_amount : tr_Amount r < 2 ^ 62;
  ag_text : request_text r ∧ identity_text (po_Identity p);
  ag_limit : 0 < limit_of g i (tr_AuthorizationID r) → sc_MaxCumulativeAmount (po_Scope p) = limit_of g i (tr_AuthorizationID r) }.

Definition state_of (w : world) (i : bytes) : option AuthorityStateV1 := a ← w !! i; au_state a.
Definition entry (w : world) (i k : bytes) : option FinancialTransferV1 := s ← state_of w i; as_Transfers s !! k.

Inductive bso_step (w : world) : world → Prop :=
| step_propose i a o p : w !! i = Some a → policy_text p → bso_step w (<[i := (ProposePolicy o p a).1]> w)
| step_activate i a o id version approved :
    w !! i = Some a → text id → bso_step w (<[i := (ActivatePolicy o id version approved a).1.1]> w)
| step_disable i a o id version : w !! i = Some a → text id → bso_step w (<[i := (DisablePolicy o id version a).1]> w)
| step_reserve i a o p d r :
    w !! i = Some a → agreed i p r → text (de_DecisionID d) → bso_step w (<[i := (Reserve o p d r a).1]> w)
| step_finalize i a o k attestations :
    w !! i = Some a → from_of g k = i → text (auth_of g k) → Forall text attestations →
    bso_step w (<[i := (Finalize o (auth_of g k) k attestations a).1.1]> w)
| step_credit i a o k t :
    w !! i = Some a → entry w (from_of g k) k = Some t → ft_Status t = TransferCommitted → bso_step w (<[i := (Credit o t a).1]> w)
| step_credit_nothing i a o : w !! i = Some a → bso_step w (<[i := (Credit o zeroTransfer a).1]> w)
| step_forget i a kept : w !! i = Some a → kept ⊆ au_results a → bso_step w (<[i := Build_Authority (au_id a) (au_state a) kept]> w).

(** ** Money *)

Definition credited (w : world) (k : bytes) (t : FinancialTransferV1) : bool :=
  match entry w (ft_To t) k with Some u => is_status u TransferCredited | None => false end.
(** Debited and not yet credited. *)
Definition in_flight (w : world) (k : bytes) (t : FinancialTransferV1) : Z :=
  if is_status t TransferCommitted && negb (credited w k t) then ft_Amount t else 0.
Definition state_weight (w : world) (s : AuthorityStateV1) : Z := as_Balance s + msum (in_flight w) (as_Transfers s).
Definition weight (w : world) (i : bytes) (a : Authority) : Z := match au_state a with Some s => state_weight w s | None => 0 end.
Definition total (w : world) : Z := msum (weight w) w.

(** ** Authorizations *)

(** The amounts of the transfers under an authorization with a status. *)
Definition under (i auth : bytes) (st : TransferStatus) (k : bytes) (t : FinancialTransferV1) : Z :=
  if bool_decide (from_of g k = i ∧ auth_of g k = auth) && is_status t st then ft_Amount t else 0.
Definition spent (i auth : bytes) (s : AuthorityStateV1) : Z := msum (under i auth TransferCommitted) (as_Transfers s).
Definition held (i auth : bytes) (s : AuthorityStateV1) : Z := msum (under i auth TransferReserved) (as_Transfers s).

Definition limits_ok (i : bytes) (s : AuthorityStateV1) : Prop :=
  ∀ auth, 0 < limit_of g i auth < 2 ^ 62 →
    us_Consumed (usage s auth) = spent i auth s ∧ us_Reserved (usage s auth) = held i auth s ∧ spent i auth s + held i auth s ≤ limit_of g i auth.

(** ** The invariant *)

Definition own_ok (i k : bytes) (t : FinancialTransferV1) : Prop :=
  from_of g k = i ∧ to_of g k ≠ i ∧ ft_From t = i ∧ ft_To t = to_of g k ∧ (ft_Status t = TransferReserved ∨ ft_Status t = TransferCommitted).
Definition incoming_ok (w : world) (i k : bytes) (t : FinancialTransferV1) : Prop :=
  to_of g k = i ∧ from_of g k ≠ i ∧
  ∃ u, entry w (from_of g k) k = Some u ∧ ft_Status u = TransferCommitted ∧ t = with_status u TransferCredited.
Definition entry_ok (w : world) (i k : bytes) (t : FinancialTransferV1) : Prop :=
  ft_TransferID t = k ∧ k ≠ [] ∧ 0 < ft_Amount t < 2 ^ 62 ∧ (own_ok i k t ∨ incoming_ok w i k t).

Definition finalize_key (k : bytes) : bytes := bs "finalize/" ++ k.
Definition credit_key (k : bytes) : bytes := bs "credit/" ++ k.
(** What is remembered of debits and credits is in the books. *)
Definition results_ok (i : bytes) (results : gmap bytes mutationResultV1) (s : AuthorityStateV1) : Prop :=
  (∀ k r, results !! finalize_key k = Some r →
      mr_Transfer r = zeroTransfer ∨ ft_Status (mr_Transfer r) = TransferCommitted ∧ as_Transfers s !! k = Some (mr_Transfer r))
  ∧ (∀ k r, k ≠ [] → to_of g k = i → results !! credit_key k = Some r → ∃ t, as_Transfers s !! k = Some t ∧ ft_Status t = TransferCredited).

Record authority_ok (w : world) (i : bytes) (a : Authority) : Prop := {
  ao_id : au_id a = i;
  ao_state : ∃ s, au_state a = Some s ∧ 0 ≤ as_Balance s ∧ (∀ k t, as_Transfers s !! k = Some t → entry_ok w i k t) ∧ limits_ok i s
    ∧ results_ok i (au_results a) s }.
Definition world_ok (w : world) : Prop := ∀ i a, w !! i = Some a → authority_ok w i a.
Definition world_text (w : world) : Prop := ∀ i a, w !! i = Some a → authority_text a.

Lemma entry_insert w i a k s : au_state a = Some s → entry (<[i := a]> w) i k = as_Transfers s !! k.
Proof. intros Hs. unfold entry, state_of. by rewrite lookup_insert_eq; cbn; rewrite Hs. Qed.
Lemma entry_insert_ne w i a j k : j ≠ i → entry (<[i := a]> w) j k = entry w j k.
Proof. intros Hn. unfold entry, state_of. by rewrite lookup_insert_ne. Qed.
Lemma entry_at w i a s k : w !! i = Some a → au_state a = Some s → entry w i k = as_Transfers s !! k.
Proof. intros Ha Hs. unfold entry, state_of. by rewrite Ha; cbn; rewrite Hs. Qed.

Lemma weight_nonneg w i a : world_ok w → w !! i = Some a → 0 ≤ weight w i a.
Proof.
  intros Hw Ha. destruct (Hw i a Ha) as [_ (s&Hs&Hb&He&_)]. unfold weight, state_weight. rewrite Hs.
  assert (0 ≤ msum (in_flight w) (as_Transfers s)); [|lia]. apply msum_nonneg. intros k t Ht.
  destruct (He k t Ht) as (_&_&?&_). unfold in_flight. case_match; lia.
Qed.

(** ** Steps that move no money *)

(** Books whose entries for the transfers of others are the same leave the
    rest of the world as it was. *)
Lemma in_flight_same w w' k t : (∀ j, entry w' j k = entry w j k) → in_flight w' k t = in_flight w k t.
Proof. intros He. unfold in_flight, credited. by rewrite He. Qed.

Lemma quiet_step w i a a' s s' :
  world_ok w → w !! i = Some a → au_state a = Some s → au_id a' = au_id a → au_state a' = Some s' →
  as_Balance s' = as_Balance s → as_Transfers s' = as_Transfers s → as_Authorizations s' = as_Authorizations s →
  results_ok i (au_results a') s' →
  world_ok (<[i := a']> w) ∧ total (<[i := a']> w) = total w.
Proof.
  intros Hw Ha Hs Hid Hs' Hb Ht Hu Hr.
  assert (He : ∀ j k, entry (<[i := a']> w) j k = entry w j k).
  { intros j k. destruct (decide (j = i)) as [->|]; [|by apply entry_insert_ne].
    by rewrite (entry_insert _ _ _ _ _ Hs'), (entry_at _ _ _ _ _ Ha Hs), Ht. }
  split.
  - intros j b Hj. assert (∀ k t, entry_ok w j k t → entry_ok (<[i := a']> w) j k t) as Hok.
    { intros k t (H1&H2&H3&H4). split_and!; [done|done|lia..|]. destruct H4 as [|(H5&H6&u&H7&H8)]; [by left|right].
      split_and!; [done|done|]. exists u. by rewrite He. }
    apply lookup_insert_Some in Hj as [[<- <-]|[Hn Hj]].
    + destruct (Hw i a Ha) as [Hi (s0&Hs0&H1&H2&H3&_)]. simplify_eq. split; [done|]. exists s'. rewrite Hb, Ht.
      split_and!; [done|done|by eauto| |done]. intros auth Hl. unfold usage, spent, held. rewrite Hu, Ht. by apply H3.
    + destruct (Hw j b Hj) as [Hi (s0&Hs0&H1&H2&H3)]. split; [done|]. exists s0. split_and!; by eauto; apply H3.
  - unfold total. rewrite msum_insert, (msum_delete _ w i a Ha).
    assert (∀ j b, weight (<[i := a']> w) j b = weight w j b) as Hwt.
    { intros j b. unfold weight, state_weight. destruct (au_state b); [|done]. f_equal. apply msum_ext. intros k t _. by apply in_flight_same. }
    rewrite Hwt. f_equal; [unfold weight, state_weight; by rewrite Hs, Hs', Hb, Ht|]. apply msum_ext. intros. apply Hwt.
Qed.

(** ** Steps that change the books *)

Definition is_credit (o : option FinancialTransferV1) : bool := match o with Some u => is_status u TransferCredited | None => false end.

Lemma credit_cong w w' k t : (∀ j, is_credit (entry w' j k) = is_credit (entry w j k)) → in_flight w' k t = in_flight w k t.
Proof.
  intros He. unfold in_flight, credited. specialize (He (ft_To t)). unfold is_credit in He.
  destruct (entry w' (ft_To t) k), (entry w (ft_To t) k); by rewrite ?He, <-?He.
Qed.

(** Where no entry becomes a credit, the total changes by one authority. *)
Lemma total_change w i a a' s s' :
  w !! i = Some a → au_state a = Some s → au_state a' = Some s' →
  (∀ k, is_credit (as_Transfers s' !! k) = is_credit (as_Transfers s !! k)) →
  total (<[i := a']> w) = total w - state_weight w s + state_weight w s'.
Proof.
  intros Ha Hs Hs' Hc.
  assert (∀ k t, in_flight (<[i := a']> w) k t = in_flight w k t) as Hf.
  { intros k t. apply credit_cong. intros j. destruct (decide (j = i)) as [->|]; [|by rewrite entry_insert_ne].
    by rewrite (entry_insert _ _ _ _ _ Hs'), (entry_at _ _ _ _ _ Ha Hs). }
  assert (∀ j b, weight (<[i := a']> w) j b = weight w j b) as Hwt.
  { intros j b. unfold weight, state_weight. destruct (au_state b); [|done]. f_equal. apply msum_ext. intros. apply Hf. }
  unfold total. rewrite msum_insert, (msum_delete _ w i a Ha), Hwt.
  rewrite (msum_ext (weight (<[i := a']> w)) (weight w)) by (intros; apply Hwt).
  unfold weight at 1 3. rewrite Hs, Hs'. lia.
Qed.

(** Where committed entries stay, the other authorities stay well. *)
Lemma others_ok w i a a' s s' :
  world_ok w → w !! i = Some a → au_state a = Some s → au_state a' = Some s' →
  (∀ k u, as_Transfers s !! k = Some u → ft_Status u = TransferCommitted → as_Transfers s' !! k = Some u) →
  authority_ok (<[i := a']> w) i a' → world_ok (<[i := a']> w).
Proof.
  intros Hw Ha Hs Hs' Hk Hi j b Hj. apply lookup_insert_Some in Hj as [[<- <-]|[Hn Hj]]; [done|].
  destruct (Hw j b Hj) as [Hid (s0&Hs0&H1&H2&H3)]. split; [done|]. exists s0. split_and!; try done; [|apply H3..].
  intros k t Ht. destruct (H2 k t Ht) as (E1&E2&E3&[E4|(E4&E5&u&E6&E7&E8)]); (split_and!; [done|done|lia..|]); [by left|right].
  split_and!; [done|done|]. exists u. split_and!; [|done|done].
  destruct (decide (from_of g k = i)) as [He|He]; [|by rewrite entry_insert_ne].
  rewrite He in E6 |- *. rewrite (entry_insert _ _ _ _ _ Hs'). rewrite (entry_at _ _ _ _ _ Ha Hs) in E6. by apply Hk.
Qed.

Lemma own_entry_mono w i k t w' :
  entry_ok w i k t → (∀ j u, j ≠ i → entry w j k = Some u → entry w' j k = Some u) → entry_ok w' i k t.
Proof.
  intros (E1&E2&E3&E4) Hj. split_and!; [done|done|lia..|]. destruct E4 as [E4|(E4&E5&u&E6&E7&E8)]; [by left|right].
  split_and!; [done|done|]. exists u. split_and!; [by apply Hj|done|done].
Qed.

Lemma results_mono i results s s' key r :
  results_ok i results s →
  (∀ k t, as_Transfers s !! k = Some t → ft_Status t = TransferCommitted ∨ ft_Status t = TransferCredited → as_Transfers s' !! k = Some t) →
  (∀ k, key = finalize_key k → mr_Transfer r = zeroTransfer ∨ ft_Status (mr_Transfer r) = TransferCommitted ∧ as_Transfers s' !! k = Some (mr_Transfer r)) →
  (∀ k, key = credit_key k → k ≠ [] → to_of g k = i → ∃ t, as_Transfers s' !! k = Some t ∧ ft_Status t = TransferCredited) →
  results_ok i (<[key := r]> results) s'.
Proof.
  intros [H1 H2] Ht Hf Hc. split.
  - intros k r' [[He <-]|[_ Hr]]%lookup_insert_Some; [by apply Hf|]. destruct (H1 k r' Hr) as [|[Hst Hk]]; [by left|right].
    split; [done|]. apply Ht; [done|by left].
  - intros k r' Hk Hi [[He <-]|[_ Hr]]%lookup_insert_Some; [by apply Hc|]. destruct (H2 k r' Hk Hi Hr) as (t&E&E').
    exists t. split; [apply Ht; [done|by right]|done].
Qed.

Lemma amounts_nonneg w i s auth st : (∀ k t, as_Transfers s !! k = Some t → entry_ok w i k t) → 0 ≤ msum (under i auth st) (as_Transfers s).
Proof. intros He. apply msum_nonneg. intros k t Ht. destruct (He k t Ht) as (_&_&?&_). unfold under. case_match; lia. Qed.

Lemma balance_le_total w i a s : world_ok w → w !! i = Some a → au_state a = Some s → as_Balance s ≤ total w.
Proof.
  intros Hw Ha Hs. destruct (Hw i a Ha) as [_ (s0&Hs0&Hb&He&_)]. simplify_eq.
  transitivity (weight w i a); [|apply msum_ge; [done|]; intros; by apply weight_nonneg].
  unfold weight, state_weight. rewrite Hs. assert (0 ≤ msum (in_flight w) (as_Transfers s)); [|lia].
  apply msum_nonneg. intros k t Ht. destruct (He k t Ht) as (_&_&?&_). unfold in_flight. case_match; lia.
Qed.
End System.

(** ** Every step of the authorities keeps the books and the money

    Reservations, debits and credits, one lemma each, and the invariant of runs. *)

Lemma usage_put s id u : usage (put_usage s id u) id = u.
Proof. unfold usage. cbn. by rewrite lookup_insert_eq. Qed.
Lemma usage_put_ne s id u id' : id' ≠ id → usage (put_usage s id u) id' = usage s id'.
Proof. intros Hn. unfold usage. cbn. by rewrite lookup_insert_ne. Qed.
Lemma is_status_true t st : is_status t st = true ↔ ft_Status t = st.
Proof. unfold is_status. apply bool_decide_eq_true. Qed.
Lemma is_status_false t st : is_status t st = false ↔ ft_Status t ≠ st.
Proof. unfold is_status. apply bool_decide_eq_false. Qed.

Section Steps.
Context `{UnicodeTables} (g : agreement).

(** ** A reservation *)

Section Reserved.
Variables (w : world) (i : bytes) (a : Authority) (s : AuthorityStateV1) (p : PolicyV1) (d : PolicyDecisionV1) (r : TransferRequestV1).
Hypotheses (Hw : world_ok g w) (Ha : w !! i = Some a) (Hs : au_state a = Some s) (Hr : agreed g i p r).
Hypotheses (Hfresh : as_Transfers s !! tr_TransferID r = None) (Hadm : admission p d r s = ReasonAllowed).

Definition reserved_state : AuthorityStateV1 :=
  put_transfer (put_usage s (tr_AuthorizationID r) (reserve_usage (usage s (tr_AuthorizationID r)) (tr_AuthorizationID r) (tr_Amount r)))
    (tr_TransferID r) (new_transfer p d r).

Lemma reserved_amount : 0 < tr_Amount r.
Proof.
  destruct (admission_ok _ _ _ _ Hadm) as (_&He&_). rewrite evaluate_allowed in He. apply judge_allowed in He as (Hp&_). cbn in Hp. lia.
Qed.

Lemma reserved_under auth st :
  msum (under g i auth st) (as_Transfers reserved_state)
  = msum (under g i auth st) (as_Transfers s)
    + if bool_decide (auth = tr_AuthorizationID r ∧ st = TransferReserved) then tr_Amount r else 0.
Proof.
  cbn. rewrite msum_fresh by done. unfold under at 1, is_status. cbn. destruct (ag_from _ _ _ _ Hr) as [-> _]. rewrite (ag_auth _ _ _ _ Hr).
  repeat case_bool_decide; cbn; try lia; naive_solver.
Qed.

Lemma reserved_limits : limits_ok g i reserved_state.
Proof.
  destruct (Hw i a Ha) as [_ (s0&Hs0&Hb&He&Hl&_)]. simplify_eq. intros auth Hlim. destruct (Hl auth Hlim) as (H1&H2&H3).
  unfold spent, held in *. rewrite !reserved_under.
  rewrite (bool_decide_eq_false_2 (_ ∧ TransferCommitted = _)) by naive_solver.
  destruct (decide (auth = tr_AuthorizationID r)) as [->|Hn].
  - rewrite bool_decide_eq_true_2 by done. pose proof reserved_amount as Hpos. pose proof (ag_amount _ _ _ _ Hr) as Hsmall.
    pose proof (amounts_nonneg g w i s (tr_AuthorizationID r) TransferCommitted He). pose proof (amounts_nonneg g w i s (tr_AuthorizationID r) TransferReserved He).
    destruct (admission_ok _ _ _ _ Hadm) as (_&Hev&_). rewrite evaluate_allowed in Hev. apply judge_allowed in Hev as (_&_&_&Hcum).
    pose proof (ag_limit _ _ _ _ Hr ltac:(lia)) as Hmax. rewrite Hmax in Hcum. specialize (Hcum ltac:(lia)). cbn in Hcum.
    rewrite H1, H2 in Hcum. rewrite (i64_id (msum _ _ + msum _ _)) in Hcum by (unfold i64_range; lia). rewrite i64_id in Hcum by (unfold i64_range; lia).
    change (usage reserved_state ?x) with (usage (put_usage s (tr_AuthorizationID r) (reserve_usage (usage s (tr_AuthorizationID r)) (tr_AuthorizationID r) (tr_Amount r))) x).
    rewrite usage_put. cbn. rewrite H1, H2, i64_id by (unfold i64_range; lia). lia.
  - rewrite bool_decide_eq_false_2 by naive_solver. rewrite !Z.add_0_r.
    change (usage reserved_state auth) with (usage (put_usage s (tr_AuthorizationID r) (reserve_usage (usage s (tr_AuthorizationID r)) (tr_AuthorizationID r) (tr_Amount r))) auth).
    rewrite usage_put_ne by done. done.
Qed.

Lemma reserved_step a' key res :
  a' = Build_Authority (au_id a) (Some reserved_state) (<[key := res]> (au_results a)) →
  (∀ k, key ≠ finalize_key k) → (∀ k, key ≠ credit_key k) →
  world_ok g (<[i := a']> w) ∧ total (<[i := a']> w) = total w.
Proof.
  intros -> Hk1 Hk2. pose proof reserved_limits as Hlim. pose proof reserved_amount as Hpos. destruct (Hw i a Ha) as [Hid (s0&Hs0&Hb&He&Hl&Hres)]. simplify_eq.
  assert (Hold : ∀ k u, as_Transfers s !! k = Some u → as_Transfers reserved_state !! k = Some u).
  { intros k u Hk. cbn. rewrite lookup_insert_ne; [done|]. intros <-. congruence. }
  split.
  - eapply (others_ok g w _ a _ s reserved_state); try done; [by auto|]. split; [done|]. exists reserved_state. split_and!; [done|done| |done|].
    + intros k t Hkt. cbn in Hkt. apply lookup_insert_Some in Hkt as [[<- <-]|[Hn Hk]].
      * split_and!; [done|apply (ag_named _ _ _ _ Hr)|done|apply (ag_amount _ _ _ _ Hr)|]. left.
        destruct (ag_from _ _ _ _ Hr), (ag_to _ _ _ _ Hr). cbn. split_and!; try done; [congruence|by left].
      * eapply own_entry_mono; [by apply He|]. intros j u Hj. by rewrite entry_insert_ne.
    + eapply results_mono; [done| | |]; [by intros; apply Hold|by intros k ?%Hk1|by intros k ?%Hk2].
  - rewrite (total_change w _ a _ s reserved_state); [|done|done|done|].
    + unfold state_weight. cbn [as_Balance reserved_state put_transfer put_usage as_Transfers]. rewrite msum_fresh by done.
      assert (in_flight w (tr_TransferID r) (new_transfer p d r) = 0) as -> by done. lia.
    + intros k. cbn. destruct (decide (k = tr_TransferID r)) as [->|]; [by rewrite lookup_insert_eq, Hfresh|by rewrite lookup_insert_ne].
Qed.
End Reserved.

(** ** A debit *)

Section Finalized.
Variables (w : world) (i : bytes) (a : Authority) (s : AuthorityStateV1) (k : bytes) (t : FinancialTransferV1) (attestations : list bytes).
Hypotheses (Hw : world_ok g w) (Ha : w !! i = Some a) (Hs : au_state a = Some s) (Hfrom : from_of g k = i) (Htotal : total w < 2 ^ 63).
Hypotheses (Ht : as_Transfers s !! k = Some t) (Hstatus : ft_Status t ≠ TransferCommitted).
Hypotheses (Hbal : ft_Amount t ≤ as_Balance s).

Definition finalized_state : AuthorityStateV1 :=
  let u := consume_usage (usage s (auth_of g k)) (ft_Amount t) in
  put_audit (put_transfer (put_balance (put_usage s (auth_of g k) u) (i64 (as_Balance s - ft_Amount t))) k (with_status t TransferCommitted))
    (audit_of (with_status t TransferCommitted) k attestations).

Lemma finalized_entry : entry_ok g w i k t ∧ own_ok g i k t ∧ ft_Status t = TransferReserved.
Proof.
  destruct (Hw i a Ha) as [_ (s0&Hs0&_&He&_)]. rewrite Hs in Hs0. injection Hs0 as <-. pose proof (He k t Ht) as Hk.
  split; [done|]. destruct Hk as (_&_&_&[Ho|(_&Hne&_)]); [|done]. split; [done|]. destruct Ho as (_&_&_&_&[|]); done.
Qed.

Lemma finalized_under auth st :
  msum (under g i auth st) (as_Transfers finalized_state)
  = msum (under g i auth st) (as_Transfers s)
    + (if bool_decide (auth = auth_of g k ∧ st = TransferCommitted) then ft_Amount t else 0)
    - (if bool_decide (auth = auth_of g k ∧ st = TransferReserved) then ft_Amount t else 0).
Proof.
  destruct finalized_entry as (_&_&Hst). cbn. rewrite msum_insert, (msum_delete _ _ k t Ht). unfold under at 1 3, is_status. cbn. rewrite Hst, Hfrom.
  repeat case_bool_decide; cbn; try lia; naive_solver.
Qed.

Lemma finalized_limits : limits_ok g i finalized_state.
Proof.
  destruct finalized_entry as ((_&_&Hamt&_)&_&Hst).
  destruct (Hw i a Ha) as [_ (s0&Hs0&Hb&He&Hl&_)]. rewrite Hs in Hs0. injection Hs0 as <-. intros auth Hlim. destruct (Hl auth Hlim) as (H1&H2&H3).
  pose proof (finalized_under auth) as Hun. unfold spent, held in *. rewrite !Hun.
  pose proof (amounts_nonneg g w i s auth TransferCommitted He) as P1. pose proof (amounts_nonneg g w i s auth TransferReserved He) as P2.
  destruct (decide (auth = auth_of g k)) as [->|Hn].
  - rewrite (bool_decide_eq_true_2 (_ ∧ TransferCommitted = TransferCommitted)), (bool_decide_eq_true_2 (_ ∧ TransferReserved = TransferReserved)) by done.
    rewrite !(bool_decide_eq_false_2 (_ ∧ _)) by naive_solver.
    assert (ft_Amount t ≤ msum (under g i (auth_of g k) TransferReserved) (as_Transfers s)) as Hin.
    { etrans; [|apply (msum_ge _ _ k t Ht)].
      - unfold under, is_status. rewrite !bool_decide_eq_true_2 by done. done.
      - intros k' t' Hk'. destruct (He k' t' Hk') as (_&_&?&_). unfold under. case_match; lia. }
    assert (usage finalized_state (auth_of g k) = consume_usage (usage s (auth_of g k)) (ft_Amount t)) as -> by (unfold usage; cbn; by rewrite lookup_insert_eq).
    cbn. rewrite H1, H2, !i64_id by (unfold i64_range; lia). lia.
  - rewrite !(bool_decide_eq_false_2 (_ ∧ _)) by naive_solver.
    assert (usage finalized_state auth = usage s auth) as -> by (unfold usage; cbn; by rewrite lookup_insert_ne).
    rewrite H1, H2. lia.
Qed.

Lemma finalized_not_credited : credited w k t = false.
Proof.
  destruct finalized_entry as (_&(_&Hne&_&Hto&_)&Hst). unfold credited. rewrite Hto. unfold entry, state_of.
  destruct (w !! to_of g k) as [b|] eqn:Hb; [|done]. cbn. destruct (au_state b) as [sb|] eqn:Hsb; [|done]. cbn.
  destruct (as_Transfers sb !! k) as [u|] eqn:Hu; [|done]. apply is_status_false. intros Hc.
  destruct (Hw _ _ Hb) as [_ (s0&Hs0&_&He&_)]. rewrite Hsb in Hs0. injection Hs0 as <-.
  destruct (He k u Hu) as (_&_&_&[(E1&E2&_)|(_&_&v&E1&E2&_)]); [congruence|].
  rewrite Hfrom, (entry_at _ _ _ _ _ Ha Hs), Ht in E1. simplify_eq.
Qed.

Lemma finalized_step a' r :
  mr_Transfer r = with_status t TransferCommitted →
  a' = Build_Authority (au_id a) (Some finalized_state) (<[finalize_key k := r]> (au_results a)) →
  world_ok g (<[i := a']> w) ∧ total (<[i := a']> w) = total w.
Proof.
  intros Hmr ->. pose proof finalized_limits as Hlim. pose proof finalized_not_credited as Hnc. destruct finalized_entry as ((Hid&Hne&Hamt&_)&Hown&Hst).
  pose proof (balance_le_total g w i a s Hw Ha Hs) as Hle.
  destruct (Hw i a Ha) as [Hai (s0&Hs0&Hb&He&Hl&Hres)]. rewrite Hs in Hs0. injection Hs0 as <-.
  assert (Hi64 : i64 (as_Balance s - ft_Amount t) = as_Balance s - ft_Amount t) by (apply i64_id; unfold i64_range; lia).
  assert (Hold : ∀ k' u, as_Transfers s !! k' = Some u → ft_Status u ≠ TransferReserved → as_Transfers finalized_state !! k' = Some u).
  { intros k' u Hk Hu. cbn. rewrite lookup_insert_ne; [done|]. intros <-. congruence. }
  split.
  - eapply (others_ok g w _ a _ s finalized_state); try done; [by intros k' u Hk Hu; apply Hold; [|rewrite Hu]|].
    split; [done|]. exists finalized_state. split_and!; [done|cbn; lia| |done|].
    + intros k' u Hku. cbn in Hku. apply lookup_insert_Some in Hku as [[<- <-]|[Hn Hk]].
      * split_and!; [done|done|cbn; lia..|]. left. destruct Hown as (?&?&?&?&_). split_and!; try done. by right.
      * eapply own_entry_mono; [by apply He|]. intros j v Hj. by rewrite entry_insert_ne.
    + eapply results_mono; [done| | |].
      * intros k' u Hk [Hu|Hu]; apply Hold; [done|by rewrite Hu|done|by rewrite Hu].
      * intros k' Heq. apply app_inv_head in Heq as <-. rewrite Hmr. right. split; [done|]. cbn. apply lookup_insert_eq.
      * intros k' Heq. discriminate Heq.
  - rewrite (total_change w _ a _ s finalized_state); [|done|done|done|].
    + unfold state_weight. cbn [as_Balance finalized_state put_audit put_transfer put_balance put_usage as_Transfers].
      rewrite Hi64, msum_insert, (msum_delete _ _ k t Ht).
      assert (in_flight w k t = 0) as -> by (unfold in_flight; by rewrite (proj2 (is_status_false t _))).
      assert (in_flight w k (with_status t TransferCommitted) = ft_Amount t) as ->.
      { unfold in_flight. rewrite (proj2 (is_status_true _ _)) by done. unfold credited in *. cbn in *. by rewrite Hnc. }
      lia.
    + intros k'. cbn. destruct (decide (k' = k)) as [->|]; [|by rewrite lookup_insert_ne].
      rewrite lookup_insert_eq, Ht. unfold is_credit, is_status. cbn. rewrite Hst. done.
Qed.
End Finalized.

(** ** A credit *)

Section Credited.
Variables (w : world) (i : bytes) (a : Authority) (s : AuthorityStateV1) (k : bytes) (t : FinancialTransferV1) (b : Authority) (sb : AuthorityStateV1).
Hypotheses (Hw : world_ok g w) (Ha : w !! i = Some a) (Hs : au_state a = Some s) (Htotal : total w < 2 ^ 63).
Hypotheses (Hb : w !! from_of g k = Some b) (Hsb : au_state b = Some sb) (Ht : as_Transfers sb !! k = Some t) (Hst : ft_Status t = TransferCommitted).
Hypotheses (Hto : ft_To t = i) (Hnone : as_Transfers s !! k = None).

Definition credited_state : AuthorityStateV1 :=
  put_transfer (put_balance s (i64 (as_Balance s + ft_Amount t))) k (with_status t TransferCredited).

Lemma credited_entry : ft_TransferID t = k ∧ k ≠ [] ∧ 0 < ft_Amount t < 2 ^ 62 ∧ to_of g k = i ∧ from_of g k ≠ i.
Proof.
  destruct (Hw _ _ Hb) as [_ (s0&Hs0&_&He&_)]. rewrite Hsb in Hs0. injection Hs0 as <-.
  destruct (He k t Ht) as (H1&H2&H3&[(_&H4&_&H5&_)|(_&H4&_)]); [|done]. split_and!; try done; [lia..|congruence|congruence].
Qed.

Section After.
Variable (res : gmap bytes mutationResultV1).
Definition credited_authority : Authority := Build_Authority (au_id a) (Some credited_state) res.
Definition credited_world : world := <[i := credited_authority]> w.

Lemma credited_other_key k' t' : k' ≠ k → in_flight credited_world k' t' = in_flight w k' t'.
Proof.
  intros Hn. apply in_flight_same. intros j. unfold credited_world. destruct (decide (j = i)) as [->|]; [|by apply entry_insert_ne].
  rewrite (entry_insert _ _ credited_authority k' credited_state), (entry_at _ _ _ _ _ Ha Hs) by done. cbn. by rewrite lookup_insert_ne.
Qed.
Lemma credited_weight_other j c : j ≠ i → j ≠ from_of g k → w !! j = Some c → weight credited_world j c = weight w j c.
Proof.
  intros Hi Hj Hc. destruct (Hw j c Hc) as [_ (sc&Hsc&_&He&_)]. unfold weight, state_weight. rewrite Hsc. f_equal. apply msum_ext.
  intros k' t' Hk'. destruct (decide (k' = k)) as [->|]; [|by apply credited_other_key].
  destruct (He k t' Hk') as (_&_&_&[(E&_)|(_&_&u&_&_&->)]); [congruence|]. done.
Qed.
Lemma in_flight_before : in_flight w k t = ft_Amount t.
Proof.
  unfold in_flight, credited. rewrite (proj2 (is_status_true _ _)) by done. by rewrite Hto, (entry_at _ _ _ _ _ Ha Hs), Hnone.
Qed.
Lemma in_flight_after : in_flight credited_world k t = 0.
Proof.
  unfold in_flight, credited, credited_world. rewrite Hto, (entry_insert _ _ credited_authority k credited_state) by done.
  cbn. rewrite lookup_insert_eq. rewrite (proj2 (is_status_true (with_status _ _) _)) by done. by rewrite andb_false_r.
Qed.
Lemma credited_weight_sender : weight credited_world (from_of g k) b = weight w (from_of g k) b - ft_Amount t.
Proof.
  unfold weight, state_weight. rewrite Hsb. rewrite (msum_at _ (in_flight w) _ k t Ht); [rewrite in_flight_before, in_flight_after; lia|].
  intros k' t' Hn _. by apply credited_other_key.
Qed.

Lemma weight_before : weight w i a = as_Balance s + msum (in_flight w) (as_Transfers s).
Proof. unfold weight. by rewrite Hs. Qed.
Lemma credited_room : as_Balance s + ft_Amount t ≤ total w.
Proof.
  destruct credited_entry as (_&_&_&_&Hne).
  assert (Hpos : ∀ j c, delete i w !! j = Some c → 0 ≤ weight w j c) by (intros j c [_ Hj]%lookup_delete_Some; by apply (weight_nonneg g)).
  unfold total. rewrite (msum_delete _ w i a Ha).
  assert (weight w (from_of g k) b ≤ msum (weight w) (delete i w)) as H1 by (apply msum_ge; [by rewrite lookup_delete_ne|done]).
  assert (ft_Amount t ≤ weight w (from_of g k) b) as H2.
  { destruct (Hw _ _ Hb) as [_ (s0&Hs0&Hbal&He&_)]. rewrite Hsb in Hs0. injection Hs0 as <-. unfold weight, state_weight. rewrite Hsb.
    assert (in_flight w k t ≤ msum (in_flight w) (as_Transfers sb)) as Hin.
    { apply msum_ge; [done|]. intros k' t' Hk'. destruct (He k' t' Hk') as (_&_&?&_). unfold in_flight. case_match; lia. }
    rewrite in_flight_before in Hin. lia. }
  destruct (Hw _ _ Ha) as [_ (s0&Hs0&Hbal&He&_)]. rewrite Hs in Hs0. injection Hs0 as <-. rewrite weight_before.
  assert (0 ≤ msum (in_flight w) (as_Transfers s)); [|lia]. apply msum_nonneg. intros k' t' Hk'. destruct (He k' t' Hk') as (_&_&?&_).
  unfold in_flight. case_match; lia.
Qed.
Lemma credited_balance : i64 (as_Balance s + ft_Amount t) = as_Balance s + ft_Amount t.
Proof.
  pose proof credited_room. destruct credited_entry as (_&_&?&_). destruct (Hw _ _ Ha) as [_ (s0&Hs0&Hbal&_)].
  rewrite Hs in Hs0. injection Hs0 as <-. apply i64_id. unfold i64_range. lia.
Qed.

Lemma credited_total : total credited_world = total w.
Proof.
  pose proof credited_weight_sender as Hsend. pose proof credited_balance as Hbal. destruct credited_entry as (_&_&_&_&Hne).
  unfold total at 1. unfold credited_world at 2. rewrite msum_insert. unfold total. rewrite (msum_delete _ w i a Ha).
  rewrite (msum_at (weight credited_world) (weight w) (delete i w) (from_of g k) b); [|by rewrite lookup_delete_ne|].
  - rewrite Hsend. rewrite weight_before. unfold weight at 1. cbn [au_state credited_authority]. unfold state_weight. cbn [as_Balance as_Transfers credited_state put_transfer put_balance].
    rewrite Hbal, msum_fresh by done.
    rewrite (msum_ext (in_flight credited_world) (in_flight w) (as_Transfers s)).
    + assert (in_flight credited_world k (with_status t TransferCredited) = 0) as -> by done. lia.
    + intros k' t' Hk'. apply credited_other_key. intros ->. congruence.
  - intros j c Hj [Hi Hc]%lookup_delete_Some. by apply credited_weight_other.
Qed.
End After.

Lemma credited_step r :
  world_ok g (credited_world (<[credit_key k := r]> (au_results a))) ∧ total (credited_world (<[credit_key k := r]> (au_results a))) = total w.
Proof.
  split; [|apply credited_total]. pose proof credited_balance as Hbal. destruct credited_entry as (Hid&Hk&Hamt&Hik&Hne).
  destruct (Hw i a Ha) as [Hai (s0&Hs0&Hb0&He&Hl&Hres)]. rewrite Hs in Hs0. injection Hs0 as <-.
  assert (Hold : ∀ k' u, as_Transfers s !! k' = Some u → as_Transfers credited_state !! k' = Some u).
  { intros k' u Hk'. cbn. rewrite lookup_insert_ne; [done|]. intros <-. congruence. }
  eapply (others_ok g w _ a _ s credited_state); try done; [by auto|].
  split; [done|]. exists credited_state. split_and!; [done|cbn; lia| | |].
  - intros k' u Hku. cbn in Hku. apply lookup_insert_Some in Hku as [[<- <-]|[Hn Hku]].
    + split_and!; [done|done|cbn; lia..|]. right. split_and!; [done|done|]. exists t. split_and!; [|done|done].
      rewrite entry_insert_ne by done. by rewrite (entry_at _ _ _ _ _ Hb Hsb).
    + eapply own_entry_mono; [by apply He|]. intros j v Hj. by rewrite entry_insert_ne.
  - intros auth Hlim. destruct (Hl auth Hlim) as (H1&H2&H3).
    assert (∀ st, msum (under g i auth st) (as_Transfers credited_state) = msum (under g i auth st) (as_Transfers s)) as Hu.
    { intros st. cbn. rewrite msum_fresh by done. unfold under at 1. rewrite bool_decide_eq_false_2 by naive_solver. cbn. lia. }
    unfold spent, held in *. rewrite !Hu. done.
  - eapply results_mono; [done| | |].
    + intros k' u Hk' _. by apply Hold.
    + intros k' Heq. discriminate Heq.
    + intros k' Heq _ _. apply app_inv_head in Heq as <-. exists (with_status t TransferCredited). split; [apply lookup_insert_eq|done].
Qed.
End Credited.

(** ** Any step *)

Definition quiet (s s' : AuthorityStateV1) : Prop :=
  as_Balance s' = as_Balance s ∧ as_Transfers s' = as_Transfers s ∧ as_Authorizations s' = as_Authorizations s.
Definition keeps (w : world) (i : bytes) (a' : Authority) : Prop := world_ok g (<[i := a']> w) ∧ total (<[i := a']> w) = total w.

Section Keeps.
Variables (w : world) (i : bytes) (a : Authority) (s : AuthorityStateV1).
Hypotheses (Hw : world_ok g w) (Ha : w !! i = Some a) (Hs : au_state a = Some s) (Hx : state_text s) (Htotal : total w < 2 ^ 63).

Lemma keeps_same : keeps w i a.
Proof. unfold keeps. by rewrite insert_id. Qed.

Lemma keeps_quiet s' key r :
  quiet s s' →
  (∀ k, key = finalize_key k → mr_Transfer r = zeroTransfer ∨ ft_Status (mr_Transfer r) = TransferCommitted ∧ as_Transfers s !! k = Some (mr_Transfer r)) →
  (∀ k, key = credit_key k → k ≠ [] → to_of g k = i → ∃ t, as_Transfers s !! k = Some t ∧ ft_Status t = TransferCredited) →
  keeps w i (Build_Authority (au_id a) (Some s') (<[key := r]> (au_results a))).
Proof.
  intros (Hb&Ht&Hu) Hf Hc. destruct (Hw i a Ha) as [_ (s0&Hs0&_&_&_&Hres)]. rewrite Hs in Hs0. injection Hs0 as <-.
  eapply (quiet_step g w i a _ s s'); try done. cbn. eapply results_mono; [done|..]; rewrite Ht; auto.
Qed.

Lemma keeps_mutate {X} o key (zero : X) fn :
  command_text (fn s) → quiet s (fn s).1.1 → (∀ k, key ≠ finalize_key k) → (∀ k, key ≠ credit_key k) → keeps w i (mutate o key zero fn a).1.
Proof.
  intros Hfn Hq Hf Hc. destruct (mutate_effect o key zero fn a s Hs Hfn) as [->|[_ ->]]; [apply keeps_same|].
  apply keeps_quiet; [done|by intros k ?%Hf|by intros k ?%Hc].
Qed.

Lemma keeps_propose o p : policy_text p → keeps w i (ProposePolicy o p a).1.
Proof.
  intros Hp%SealPolicy_text. unfold ProposePolicy. destruct (ValidatePolicy _); [|apply keeps_same]. case_match; [apply keeps_same|].
  rewrite (surjective_pairing (mutate _ _ _ _ _)). cbn [fst]. apply keeps_mutate; [| |by intros k; discriminate..].
  { apply propose_text; [done|apply policyKey_text, Hp|done]. }
  unfold propose. repeat case_match; done.
Qed.
Lemma keeps_activate o id version approved : text id → keeps w i (ActivatePolicy o id version approved a).1.1.
Proof.
  intros Hi. unfold ActivatePolicy. destruct (mutate _ _ _ _ _) as [a' r] eqn:E.
  assert (keeps w i a') as Hk; [|by destruct r as [[? [? ?]]|]].
  change a' with (a', r).1. rewrite <-E. apply keeps_mutate; [by apply activate_text| |by intros k; discriminate..].
  unfold activate. repeat case_match; done.
Qed.
Lemma keeps_disable o id version : text id → keeps w i (DisablePolicy o id version a).1.
Proof.
  intros Hi. unfold DisablePolicy. destruct (mutate _ _ _ _ _) as [a' r] eqn:E.
  assert (keeps w i a') as Hk; [|by destruct r as [[? ?]|]].
  change a' with (a', r).1. rewrite <-E. apply keeps_mutate; [by apply disable_text, policyKey_text| |by intros k; discriminate..].
  unfold disable. repeat case_match; done.
Qed.

Lemma keeps_reserve o p d r : agreed g i p r → text (de_DecisionID d) → keeps w i (Reserve o p d r a).1.
Proof.
  intros Hr Hd. unfold Reserve. destruct (ag_text _ _ _ _ Hr) as [Hr1 Hr2]. rewrite (surjective_pairing (mutate _ _ _ _ _)). cbn [fst].
  destruct (mutate_effect o (bs "reserve/" ++ tr_TransferID r ++ bs "/" ++ de_DecisionID d) tt (reserve p d r) a s Hs (reserve_text p d r s Hx Hr1 Hr2 Hd)) as [->|[_ ->]]; [apply keeps_same|].
  destruct (reserve_effect p d r s) as [->|(Hfresh&Hadm&->)].
  - apply keeps_quiet; [done|by intros k Hk; discriminate Hk..].
  - eapply (reserved_step w i a s p d r); try done; by intros k; discriminate.
Qed.

Lemma keeps_finalize o k attestations :
  from_of g k = i → text (auth_of g k) → Forall text attestations → keeps w i (Finalize o (auth_of g k) k attestations a).1.1.
Proof.
  intros Hk Hau Hat. unfold Finalize. destruct (mutate _ _ _ _ _) as [a' m] eqn:E.
  assert (keeps w i a') as Hkeep; [|by destruct m as [[[? ?] ?]|]].
  change a' with (a', m).1. rewrite <-E.
  destruct (mutate_effect o (bs "finalize/" ++ k) None (finalize (auth_of g k) k attestations) a s Hs) as [->|[_ ->]];
    [by apply finalize_text|apply keeps_same|].
  unfold finalize. destruct (as_Transfers s !! k) as [t|] eqn:Ht; [|apply keeps_quiet; [done|by left|by intros ? He; discriminate He]].
  destruct (is_status t TransferCommitted) eqn:Hst.
  { apply keeps_quiet; [done| |by intros ? He; discriminate He]. intros k' He. apply app_inv_head in He as <-. right. by apply is_status_true in Hst. }
  cbn zeta. destruct (_ || _) eqn:Hg; [apply keeps_quiet; [done|by left|by intros ? He; discriminate He]|].
  apply orb_false_iff in Hg as [Hg1 Hg2]. apply is_status_false in Hst. eapply (finalized_step w i a s k t attestations); try done; [lia|reflexivity].
Qed.

Lemma keeps_credit o k t :
  entry w (from_of g k) k = Some t → transfer_text t → ft_Status t = TransferCommitted → keeps w i (Credit o t a).1.
Proof.
  intros He Htt Hst. unfold Credit. destruct (mutate _ _ _ _ _) as [a' m] eqn:E.
  assert (keeps w i a') as Hkeep; [|by destruct m as [[[? ?] ?]|]].
  change a' with (a', m).1. rewrite <-E. unfold entry, state_of in He.
  destruct (w !! from_of g k) as [b|] eqn:Hb; [|done]. cbn in He. destruct (au_state b) as [sb|] eqn:Hsb; [|done]. cbn in He.
  assert (ft_TransferID t = k ∧ ft_To t = to_of g k ∧ to_of g k ≠ from_of g k) as (Hid&Hto&Hne).
  { destruct (Hw _ _ Hb) as [_ (s0&Hs0&_&Hent&_)]. rewrite Hsb in Hs0. injection Hs0 as <-.
    destruct (Hent k t He) as (H1&_&_&[(_&H2&_&H3&_)|(_&H2&_)]); done. }
  destruct (Hw i a Ha) as [Hai (s0&Hs0&_&Hent&_)]. rewrite Hs in Hs0. injection Hs0 as <-.
  destruct (mutate_effect o (bs "credit/" ++ ft_TransferID t) None (credit (au_id a) t) a s Hs (credit_text _ t s Hx Htt)) as [->|[_ ->]];
    [apply keeps_same|].
  assert (credit (au_id a) t s = credit i t s) as -> by (by rewrite Hai). rewrite Hid. unfold credit. rewrite Hid. cbn zeta.
  destruct (as_Transfers s !! k) as [u|] eqn:Hu.
  - destruct (Hent k u Hu) as (_&_&_&Hu').
    destruct (is_status u TransferCredited) eqn:Hcr.
    + assert (∀ k', credit_key k = credit_key k' → k' ≠ [] → to_of g k' = i → ∃ t, as_Transfers s !! k' = Some t ∧ ft_Status t = TransferCredited) as Hc.
      { intros k' Heq _ _. apply app_inv_head in Heq as <-. exists u. split; [done|by apply is_status_true]. }
      case_match; (apply keeps_quiet; [done|by intros ? Heq; discriminate Heq|exact Hc]).
    + apply is_status_false in Hcr. destruct Hu' as [(E1&E2&_)|(_&_&v&_&_&->)]; [|done].
      destruct (same (ft_To t) i) eqn:Hsame; [apply bool_decide_eq_true in Hsame; congruence|].
      rewrite orb_true_r. apply keeps_quiet; [done|by intros ? Heq; discriminate Heq|].
      intros k' Heq _ Hi. apply app_inv_head in Heq as <-. congruence.
  - rewrite (proj2 (is_status_true t _)) by done. cbn [negb orb].
    destruct (same (ft_To t) i) eqn:Hsame; cbn [negb].
    + apply bool_decide_eq_true in Hsame. cbn [fst snd]. change (ft_TransferID (with_status t TransferCredited)) with (ft_TransferID t). rewrite Hid.
      eapply (credited_step w i a s k t b sb); done.
    + apply bool_decide_eq_false in Hsame. apply keeps_quiet; [done|by intros ? Heq; discriminate Heq|].
      intros k' Heq _ Hi. apply app_inv_head in Heq as <-. congruence.
Qed.

Lemma keeps_credit_nothing o : keeps w i (Credit o zeroTransfer a).1.
Proof.
  unfold Credit. destruct (mutate _ _ _ _ _) as [a' m] eqn:E.
  assert (keeps w i a') as Hkeep; [|by destruct m as [[[? ?] ?]|]].
  change a' with (a', m).1. rewrite <-E.
  destruct (mutate_effect o (bs "credit/" ++ ft_TransferID zeroTransfer) None (credit (au_id a) zeroTransfer) a s Hs
    (credit_text _ _ s Hx zero_text)) as [->|[_ ->]]; [apply keeps_same|].
  apply keeps_quiet; [unfold credit; cbn zeta; repeat case_match; done|by intros ? Heq; discriminate Heq|].
  intros k Heq Hk. apply app_inv_head in Heq. cbn in Heq. congruence.
Qed.

Lemma keeps_forget kept : kept ⊆ au_results a → keeps w i (Build_Authority (au_id a) (au_state a) kept).
Proof.
  intros Hsub. destruct (Hw i a Ha) as [_ (s0&Hs0&_&_&_&[R1 R2])]. rewrite Hs in Hs0. injection Hs0 as <-.
  eapply (quiet_step g w i a _ s s); try done. cbn. split.
  - intros k r Hr. apply R1. by eapply lookup_weaken.
  - intros k r Hk Hi Hr. eapply R2; [done|done|by eapply lookup_weaken].
Qed.
End Keeps.

(** Entries of a world of text. *)
Lemma entry_text w i k t : world_text w → entry w i k = Some t → transfer_text t.
Proof.
  intros Hx. unfold entry, state_of. destruct (w !! i) as [a|] eqn:Ha; [|done]. cbn. destruct (au_state a) as [s|] eqn:Hs; [|done]. cbn.
  intros Ht. eapply transfer_text_at; [|done]. by eapply Hx.
Qed.

Ltac through_mutate tac :=
  match goal with |- context [mutate ?o ?id ?zero ?fn ?a] =>
    let E := fresh in
    assert (authority_text (mutate o id zero fn a).1) as E by (apply mutate_text; [done|]; intros; tac);
    destruct (mutate o id zero fn a); cbn [fst] in E; repeat case_match; exact E
  end.
Lemma step_text w w' : world_text w → bso_step g w w' → world_text w'.
Proof.
  intros Hw Hstep. assert (∀ i a', authority_text a' → world_text (<[i := a']> w)) as Hput.
  { intros i a' Ha' j b [[_ <-]|[_ Hb]]%lookup_insert_Some; [done|by eapply Hw]. }
  destruct Hstep as [i a o p Ha Hp|i a o id v ap Ha Hi|i a o id v Ha Hi|i a o p d r Ha Hr Hd|i a o k att Ha Hk Hau Hat|i a o k t Ha He Hst|i a o Ha|i a kept Ha Hk];
    apply Hput; pose proof (Hw i a Ha) as Hx.
  - apply SealPolicy_text in Hp. unfold ProposePolicy. destruct (ValidatePolicy _); [|done]. case_match; [done|].
    rewrite (surjective_pairing (mutate _ _ _ _ _)). apply mutate_text; [done|]. intros s Hs. apply propose_text; [done|apply policyKey_text, Hp|done].
  - unfold ActivatePolicy. through_mutate ltac:(by apply activate_text).
  - unfold DisablePolicy. through_mutate ltac:(by apply disable_text, policyKey_text).
  - destruct (ag_text _ _ _ _ Hr) as [Hr1 Hr2]. unfold Reserve. rewrite (surjective_pairing (mutate _ _ _ _ _)).
    apply mutate_text; [done|]. intros. by apply reserve_text.
  - unfold Finalize. through_mutate ltac:(by apply finalize_text).
  - pose proof (entry_text _ _ _ _ Hw He). unfold Credit. through_mutate ltac:(by apply credit_text).
  - unfold Credit. through_mutate ltac:(apply credit_text; [done|apply zero_text]).
  - exact Hx.
Qed.

Lemma step_keeps w w' :
  world_ok g w → world_text w → total w < 2 ^ 63 → bso_step g w w' → world_ok g w' ∧ world_text w' ∧ total w' = total w.
Proof.
  intros Hw Hx Ht Hstep. assert (world_ok g w' ∧ total w' = total w) as [? ?]; [|split_and!; [done|by eapply step_text|done]].
  assert (∀ i a, w !! i = Some a → ∃ s, au_state a = Some s ∧ state_text s) as Hex.
  { intros i a Ha. destruct (Hw i a Ha) as [_ (s&Hs&_)]. exists s. split; [done|by eapply Hx]. }
  destruct Hstep as [i a o p Ha|i a o id v ap Ha|i a o id v Ha|i a o p d r Ha Hr|i a o k att Ha Hk|i a o k t Ha He Hst|i a o Ha|i a kept Ha Hk];
    destruct (Hex i a Ha) as [s [Hs Hsx]].
  - by eapply keeps_propose.
  - by eapply keeps_activate.
  - by eapply keeps_disable.
  - by eapply keeps_reserve.
  - by eapply keeps_finalize.
  - eapply keeps_credit; try done. by eapply entry_text.
  - by eapply keeps_credit_nothing.
  - by eapply keeps_forget.
Qed.

Lemma run_keeps w w' :
  world_ok g w → world_text w → total w < 2 ^ 63 → rtc (bso_step g) w w' → world_ok g w' ∧ world_text w' ∧ total w' = total w.
Proof.
  intros Hw Hx Ht Hr. induction Hr as [|w w1 w' Hs _ IH]; [done|]. destruct (step_keeps w w1 Hw Hx Ht Hs) as (Hw1&Hx1&Ht1).
  destruct IH as (H1&H2&H3); [done|done|lia|]. split_and!; [done|done|lia].
Qed.
End Steps.
