(* ===== verification/BsoTheorems.v ===== *)
(** * Settlements conserve money, and policy changes without approval narrow

    A settlement is a run of steps; from newly opened authorities every run
    conserves the money and keeps the limits; what a settlement reported as done
    is in both books; a new version of a policy that needs no approval allows no
    more than the old one where the parts the difference looks at decide.  The
    examples at the end show where the code departs from its documents. *)

From Stdlib Require Import ZArith Lia Strings.Byte Strings.String.
From stdpp Require Import base decidable countable list gmap sorting relations.
From S2P Require Import Prelude GoText GoBinary GoJson Errors BsoPolicy BsoAuthority BsoSystem.

Local Open Scope Z_scope.
Local Open Scope go_scope.

Section Settlement.
Context `{UnicodeTables} (g : agreement).

(** ** What [Finalize] and [Credit] report *)

Lemma finalize_returns w i a o k attestations a' t :
  world_ok g w → world_text w → text (auth_of g k) → Forall text attestations →
  w !! i = Some a → Finalize o (auth_of g k) k attestations a = (a', t, None) →
  t = zeroTransfer ∨ ft_Status t = TransferCommitted ∧ entry (<[i := a']> w) i k = Some t.
Proof.
  intros Hw Hx Hau Hat Ha. destruct (Hw i a Ha) as [_ (s&Hs&_&_&_&[R1 _])]. unfold Finalize.
  destruct (mutate _ _ _ _ _) as [b m] eqn:E. destruct m as [[[r dup] err]|]; [|done]. intros [= -> <- ->].
  destruct (mutate_ok o (finalize_key k) None (finalize (auth_of g k) k attestations) a s r dup None Hs) as [(Hr&_&_&Hb)|(_&_&Hr&Hx'&Hb)].
  { apply finalize_text; [by eapply Hx|done..]. }
  { unfold finalize_key. by rewrite E. }
  - unfold finalize_key in Hb. rewrite E in Hb. cbn in Hb. subst a'. rewrite insert_id by done.
    destruct (R1 k r Hr) as [|[Hst Hk]]; [by left|right]. split; [done|]. by rewrite (entry_at _ _ _ _ _ Ha Hs).
  - unfold finalize_key in Hb. rewrite E in Hb. cbn [fst] in Hb. rewrite (entry_insert _ _ _ _ (finalize (auth_of g k) k attestations s).1.1) by (by rewrite Hb).
    rewrite Hr. revert Hx'. unfold finalize. destruct (as_Transfers s !! k) as [t|] eqn:Ht; [|done].
    destruct (is_status t TransferCommitted) eqn:Hst; [intros _; right; apply is_status_true in Hst; done|].
    cbn zeta. destruct (_ || _); [done|]. intros _. right. split; [done|]. cbn. apply lookup_insert_eq.
Qed.

Lemma credit_returns w i a o t k a' :
  world_ok g w → world_text w → total w < 2 ^ 63 → w !! i = Some a → entry w (from_of g k) k = Some t → ft_Status t = TransferCommitted → to_of g k = i →
  Credit o t a = (a', None) → entry (<[i := a']> w) i k = Some (with_status t TransferCredited).
Proof.
  intros Hw Hx Htot Ha He Hst Hi Hc. pose proof (entry_text w _ k t Hx He) as Htt.
  assert (keeps g w i a') as [Hw' _].
  { destruct (Hw i a Ha) as [_ (s&Hs&_)]. change a' with (a', @None gerror).1. rewrite <-Hc. eapply keeps_credit; try done. by eapply Hx. }
  assert (ft_TransferID t = k ∧ k ≠ [] ∧ from_of g k ≠ i ∧ ft_To t = i) as (Hid&Hk&Hne&Hto).
  { unfold entry, state_of in He. destruct (w !! from_of g k) as [b|] eqn:Hb; [|done]. cbn in He.
    destruct (Hw _ _ Hb) as [_ (sb&Hsb&_&Hent&_)]. rewrite Hsb in He. cbn in He.
    destruct (Hent k t He) as (H1&H2&_&[(_&H3&_&H4&_)|(_&H3&_)]); [|done]. split_and!; [done|done|congruence|congruence]. }
  assert (∃ u, entry (<[i := a']> w) i k = Some u ∧ ft_Status u = TransferCredited) as (u&Hu&Hcr).
  { destruct (Hw i a Ha) as [Hai (s&Hs&_&Hent&_&[_ R2])]. unfold Credit in Hc. destruct (mutate _ _ _ _ _) as [b m] eqn:E.
    destruct m as [[[r dup] err]|]; [|done]. injection Hc as -> ->.
    destruct (mutate_ok o (bs "credit/" ++ ft_TransferID t) None (credit (au_id a) t) a s r dup None Hs) as [(Hr&_&_&Hb)|(_&_&Hr&Hx'&Hb)];
      [apply credit_text; [by eapply Hx|done]|by rewrite E|..].
    - rewrite E in Hb. cbn in Hb. subst a'. rewrite insert_id by done. rewrite (entry_at _ _ _ _ _ Ha Hs). rewrite Hid in Hr. by eapply R2.
    - rewrite E in Hb. cbn [fst] in Hb. rewrite (entry_insert _ _ _ _ (credit (au_id a) t s).1.1) by (by rewrite Hb).
      revert Hx'. unfold credit. rewrite Hid, Hai. cbn zeta.
      assert (negb (is_status t TransferCommitted) || negb (same (ft_To t) i) = false) as ->.
      { rewrite (proj2 (is_status_true t _)) by done. unfold same. by rewrite bool_decide_eq_true_2. }
      assert (∃ u, as_Transfers (put_transfer (put_balance s (i64 (as_Balance s + ft_Amount (with_status t TransferCredited))))
        (ft_TransferID (with_status t TransferCredited)) (with_status t TransferCredited)) !! k = Some u ∧ ft_Status u = TransferCredited) as Hnew.
      { exists (with_status t TransferCredited). split; [|done]. cbn. rewrite Hid. apply lookup_insert_eq. }
      destruct (as_Transfers s !! k) as [u|] eqn:Hu; [|by intros _].
      destruct (is_status u TransferCredited) eqn:Hcr; [|by intros _].
      case_match; [done|]. intros _. exists u. split; [done|by apply is_status_true]. }
  rewrite Hu. f_equal. unfold entry, state_of in Hu. rewrite lookup_insert_eq in Hu. cbn in Hu.
  destruct (Hw' i a' (lookup_insert_eq _ _ _)) as [_ (s'&Hs'&_&Hent&_)]. rewrite Hs' in Hu. cbn in Hu.
  destruct (Hent k u Hu) as (_&_&_&[(_&_&_&_&[Hq|Hq])|(_&_&v&Hv&_&->)]); [congruence|congruence|].
  rewrite entry_insert_ne in Hv by done. congruence.
Qed.

(** ** A settlement is a run *)

Theorem Settle_run oR oF oC sender receiver p r w w' t d reason err :
  world_ok g w → world_text w → total w < 2 ^ 63 → agreed g sender p r →
  Settle oR oF oC sender receiver p r w = Some (w', (t, d, reason, err)) →
  rtc (bso_step g) w w'
  ∧ (reason = ReasonAllowed → err = None → receiver = tr_Counterparty r → ft_Status t = TransferCommitted →
     entry w' sender (tr_TransferID r) = Some t ∧ entry w' receiver (tr_TransferID r) = Some (with_status t TransferCredited)).
Proof.
  intros Hw Hx Htot Hr. destruct (ag_text _ _ _ _ Hr) as [[Hrt Hat] _].
  assert (text (auth_of g (tr_TransferID r))) as Hau by (rewrite (ag_auth _ _ _ _ Hr); by texts_in). unfold Settle. destruct (w !! sender) as [a|] eqn:Ha; [|done]. cbn [mbind option_bind].
  destruct (Hw _ _ Ha) as [_ (s&Hs&_)]. unfold Evaluate, Load. rewrite Hs. cbn [res_bind].
  set (d0 := EvaluatePolicy p (factsFrom s r)). destruct (negb (de_Allowed d0)) eqn:Hal.
  { intros [= <- <- <- <- <-]. split; [done|]. intros Hre. exfalso. revert Hre. apply evaluate_reason. by apply negb_true_iff. }
  destruct (Reserve oR p d0 r a) as [a1 rv] eqn:E1.
  assert (bso_step g w (<[sender := a1]> w)) as S1 by (change a1 with (a1, rv).1; rewrite <-E1; apply step_reserve; [done|done|apply EvaluatePolicy_text]).
  destruct (step_keeps g w _ Hw Hx Htot S1) as (Hw1&Hx1&Ht1).
  destruct rv as [v|e]; [|intros [= <- <- <- <- <-]; split; [by apply rtc_once|done]].
  destruct (negb (rv_Reserved v)) eqn:Hres.
  { intros [= <- <- <- <- <-]. split; [by apply rtc_once|]. intros _ _ _ Hst. unfold Reserve in E1. destruct (mutate _ _ _ _ _) as [? [[[q ?] ?]|]]; [|done].
    injection E1 as <- <-. cbn in *. rewrite (proj2 (is_status_true _ TransferCommitted)) in Hres by done. by rewrite orb_true_r in Hres. }
  set (w1 := <[sender := a1]> w) in *. assert (Ha1 : w1 !! sender = Some a1) by apply lookup_insert_eq.
  rewrite <-(ag_auth _ _ _ _ Hr).
  destruct (Finalize oF _ _ (tr_AttestationIDs r) a1) as [[a2 t2] fe] eqn:E2.
  assert (bso_step g w1 (<[sender := a2]> w1)) as S2.
  { change a2 with (a2, t2, fe).1.1. rewrite <-E2. apply step_finalize; [done|apply (ag_from _ _ _ _ Hr)|done|done]. }
  destruct (step_keeps g w1 _ Hw1 Hx1 ltac:(lia) S2) as (Hw2&Hx2&Ht2).
  destruct fe as [e|]; [intros [= <- <- <- <- <-]; split; [by eapply rtc_l, rtc_once|done]|].
  set (w2 := <[sender := a2]> w1) in *. destruct (w2 !! receiver) as [b|] eqn:Hb; [|done]. cbn [mbind option_bind].
  destruct (Credit oC t2 b) as [b' ce] eqn:E3.
  pose proof (finalize_returns w1 sender a1 oF _ _ a2 t2 Hw1 Hx1 Hau Hat Ha1 E2) as Hfin. fold w2 in Hfin.
  assert (bso_step g w2 (<[receiver := b']> w2)) as S3.
  { change b' with (b', ce).1. rewrite <-E3. destruct Hfin as [->|[Hst He]]; [by apply step_credit_nothing|].
    eapply (step_credit g w2 receiver b oC (tr_TransferID r)); [done| |done]. by rewrite (proj1 (ag_from _ _ _ _ Hr)). }
  destruct ce as [e|]; intros [= <- <- <- <- <-]; (split; [by eapply rtc_l, rtc_l, rtc_once|]); [done|].
  intros _ _ Hrec Hst. destruct Hfin as [->|[_ He]]; [done|].
  destruct (ag_from _ _ _ _ Hr) as [Hf _]. destruct (ag_to _ _ _ _ Hr) as [Hto Hne]. split.
  - rewrite entry_insert_ne; [done|]. congruence.
  - eapply credit_returns; try done; [lia|by rewrite Hf|congruence].
Qed.
End Settlement.

(** ** Runs from newly opened authorities *)

Definition opened (w : world) : Prop :=
  ∀ i a, w !! i = Some a → ∃ balance, text i ∧ 0 ≤ balance ∧ a = (OpenAuthority Committed i balance None ∅).1.
Definition balance_of (_ : bytes) (a : Authority) : Z := match au_state a with Some s => as_Balance s | None => 0 end.
Definition balances (w : world) : Z := msum balance_of w.

Lemma OpenAuthority_new i balance :
  text i →
  (OpenAuthority Committed i balance None ∅).1 = Build_Authority i (Some (initial_state i balance)) (<[bs "initialize/" ++ i := zeroResult]> ∅).
Proof. intros Hi. unfold OpenAuthority. by rewrite lookup_empty, state_kept by by apply initial_text. Qed.

Lemma opened_ok g w : opened w → world_ok g w.
Proof.
  intros Ho i a Ha. destruct (Ho i a Ha) as (bal&Hi&Hb&->). rewrite OpenAuthority_new by done. split; [done|]. exists (initial_state i bal). split_and!; [done|done| | |].
  - intros k t Hk. cbn in Hk. by rewrite lookup_empty in Hk.
  - intros auth Hl. unfold spent, held, usage. cbn. rewrite !msum_empty, lookup_empty. cbn. lia.
  - assert (∀ key r, <[bs "initialize/" ++ i := zeroResult]> (∅ : gmap bytes mutationResultV1) !! key = Some r → key = bs "initialize/" ++ i) as Hone.
    { intros key r [[<- _]|[_ He]]%lookup_insert_Some; [done|]. by rewrite lookup_empty in He. }
    split; [intros k r Hr|intros k r _ _ Hr]; apply Hone in Hr; discriminate Hr.
Qed.

Lemma opened_text w : opened w → world_text w.
Proof.
  intros Ho i a Ha. destruct (Ho i a Ha) as (bal&Hi&Hb&->). rewrite OpenAuthority_new by done. intros s [= <-]. by apply initial_text.
Qed.
Lemma opened_total w : opened w → total w = balances w.
Proof.
  intros Ho. unfold total, balances. apply msum_ext. intros i a Ha. destruct (Ho i a Ha) as (bal&Hi&_&->). rewrite OpenAuthority_new by done.
  unfold weight, balance_of, state_weight. cbn. rewrite msum_empty. lia.
Qed.

Lemma settled_total w :
  (∀ i s k t, state_of w i = Some s → as_Transfers s !! k = Some t → ft_Status t = TransferCommitted → credited w k t = true) →
  total w = balances w.
Proof.
  intros Hall. unfold total, balances. apply msum_ext. intros i a Ha. unfold weight, balance_of, state_weight.
  destruct (au_state a) as [s|] eqn:Hs; [|done].
  rewrite (msum_ext (in_flight w) (fun _ _ => 0)).
  - assert (msum (fun _ _ => 0) (as_Transfers s) = 0); [|lia]. generalize (as_Transfers s). intros m.
    induction m as [|k t m Hk IH] using map_ind; [done|]. rewrite msum_fresh by done. lia.
  - intros k t Hk. unfold in_flight. destruct (is_status t TransferCommitted) eqn:Hst; [|done].
    rewrite (Hall i s k t); [done| |done|by apply is_status_true]. unfold state_of. by rewrite Ha.
Qed.

Section Claims.
Context `{UnicodeTables}.

(** C37: From newly opened authorities whose money adds up to less than 2^63, over
    any interleaving of policy commands, reservations, debits and credits, with
    any failures of the databases and forgotten results, by clients who keep an
    agreement [g]: an identifier of a transfer stands for one request from one
    authority to another one, which names the authorization agreed for it and an
    amount below 2^62; where the agreement gives an authorization a limit, every
    policy it is used with has that cumulative limit; a debit is asked of the
    sender of the transfer; a credit is only asked with the transfer the sender's
    books hold as committed (or with the empty transfer); all strings are UTF-8.
    Then the balances and what is in flight add up to the money at the start, no
    balance is negative, what an authorization with a limit between 0 and 2^62
    spent and holds stays within it, and where every debit has been credited the
    balances alone add up.  A settlement of an agreed request is such a run, and
    one that reports a committed transfer as settled with its counterparty has it
    in both books.  The authority enforces none of the rules: see [limit_by_name],
    [forged_credit] and [transfer_not_text]. *)
Theorem money_conserved (g : agreement) (w0 w : world) :
  opened w0 → balances w0 < 2 ^ 63 → rtc (bso_step g) w0 w →
  total w = balances w0
  ∧ (∀ i s, state_of w i = Some s →
      0 ≤ as_Balance s ∧ ∀ auth, 0 < limit_of g i auth < 2 ^ 62 → spent g i auth s + held g i auth s ≤ limit_of g i auth)
  ∧ ((∀ i s k t, state_of w i = Some s → as_Transfers s !! k = Some t → ft_Status t = TransferCommitted → credited w k t = true) →
      balances w = balances w0)
  ∧ (∀ oR oF oC sender receiver p r w' t d reason err,
      agreed g sender p r → Settle oR oF oC sender receiver p r w = Some (w', (t, d, reason, err)) →
      rtc (bso_step g) w0 w'
      ∧ (reason = ReasonAllowed → err = None → receiver = tr_Counterparty r → ft_Status t = TransferCommitted →
         entry w' sender (tr_TransferID r) = Some t ∧ entry w' receiver (tr_TransferID r) = Some (with_status t TransferCredited))).
Proof.
  intros Ho Hb Hrun. pose proof (opened_ok g w0 Ho) as Hw0. pose proof (opened_total w0 Ho) as Ht0.
  destruct (run_keeps g w0 w Hw0 (opened_text w0 Ho) ltac:(lia) Hrun) as (Hw&Hx&Ht). split_and!; [lia| | |].
  - intros i s Hs. unfold state_of in Hs. destruct (w !! i) as [a|] eqn:Ha; [|done]. cbn in Hs.
    destruct (Hw i a Ha) as [_ (s'&Hs'&Hbal&_&Hl&_)]. simplify_eq. split; [done|]. intros auth Hlim. by destruct (Hl auth Hlim) as (_&_&?).
  - intros Hall. rewrite <-(settled_total w Hall). lia.
  - intros oR oF oC sender receiver p r w' t d reason err Hr He.
    destruct (Settle_run g oR oF oC sender receiver p r w w' t d reason err Hw Hx ltac:(lia) Hr He) as [H1 H2]. split; [by etrans|done].
Qed.
End Claims.

(** ** Changes of policies *)

Section Changes.
Context `{UnicodeTables}.

Lemma gate_true (c : bool) (r : ReasonCode) (l : list RequiredAction) z :
  (if c then (false, r, l) else z).1.1 = true ↔ c = false ∧ z.1.1 = true.
Proof. destruct c; cbn; naive_solver. Qed.

Lemma changes_narrow old new :
  df_AuthorityExpanded (DiffPolicies old new) = false →
  let o := po_Scope old in let n := po_Scope new in
  sc_MaxAmount n ≤ sc_MaxAmount o ∧ sc_Counterparty o = sc_Counterparty n ∧ sc_ValidUntil n ≤ sc_ValidUntil o
  ∧ (sc_MaxCumulativeAmount o = 0 ∨ sc_MaxCumulativeAmount n = sc_MaxCumulativeAmount o
     ∨ sc_MaxCumulativeAmount n < sc_MaxCumulativeAmount o ∧ (sc_MaxCumulativeAmount n ≠ 0 ∨ sc_MaxCumulativeAmount o ≤ 0)).
Proof.
  cbn zeta. unfold DiffPolicies, diff_changes, same. cbn [df_AuthorityExpanded]. rewrite !existsb_app, !orb_false_iff.
  intros (H1&_&H2&H3&H4&_). split_and!.
  - destruct (Z.ltb_spec (sc_MaxAmount (po_Scope old)) (sc_MaxAmount (po_Scope new))); [done|lia].
  - case_bool_decide; [done|discriminate H3].
  - destruct (Z.ltb_spec (sc_ValidUntil (po_Scope old)) (sc_ValidUntil (po_Scope new))); [done|lia].
  - revert H2. unfold diff_limits. repeat case_match; cbn; try done; bool_to_prop; lia.
Qed.
Lemma valid_limit p : ValidatePolicy p = Ok tt → 0 ≤ sc_MaxCumulativeAmount (po_Scope p) ∧ 0 ≤ po_EscrowRequiredAbove p.
Proof.
  unfold ValidatePolicy. cbn zeta. intros Hv. inv_ok. repeat match goal with E : guard_err _ _ = Ok _ |- _ => apply guard_err_ok in E end.
  repeat match goal with E : _ || _ = false |- _ => apply orb_false_iff in E as [? ?] end. lia.
Qed.

Lemma judge_all p f :
  (judge p f).1.1 = true ↔
  ValidatePolicy p = Ok tt ∧ fa_Subject f = sc_Subject (po_Scope p) ∧ (sc_Delegate (po_Scope p) = [] ∨ fa_Actor f = sc_Delegate (po_Scope p))
  ∧ fa_Counterparty f = sc_Counterparty (po_Scope p) ∧ fa_TransactionClass f = sc_TransactionClass (po_Scope p)
  ∧ fa_LogicalTime f ≤ sc_ValidUntil (po_Scope p) ∧ 0 < fa_Amount f ≤ sc_MaxAmount (po_Scope p)
  ∧ (sc_MaxCumulativeAmount (po_Scope p) ≤ 0
     ∨ i64 (i64 (fa_ConsumedAmount f + fa_ReservedAmount f) + fa_Amount f) ≤ sc_MaxCumulativeAmount (po_Scope p))
  ∧ (∀ role, role ∈ po_RequiredTrustRoles p → role ∈ fa_TrustRoles f)
  ∧ (po_EscrowRequiredAbove p ≤ 0 ∨ fa_Amount f ≤ po_EscrowRequiredAbove p ∨ fa_EscrowPresent f = true).
Proof.
  assert (containsAll (fa_TrustRoles f) (po_RequiredTrustRoles p) = true ↔ ∀ role, role ∈ po_RequiredTrustRoles p → role ∈ fa_TrustRoles f) as Hroles.
  { unfold containsAll. rewrite forallb_forall. split.
    - intros Hf role Hr. apply list_elem_of_In, Hf in Hr. by apply bool_decide_eq_true in Hr.
    - intros Hf role Hr%list_elem_of_In. by apply bool_decide_eq_true, Hf. }
  rewrite <-Hroles. unfold judge, same, empty. destruct (ValidatePolicy p) as [[]|e]; [|split; [done|by intros [? _]]].
  rewrite !gate_true, !negb_false_iff, !andb_false_iff, !negb_false_iff, !orb_false_iff, !bool_decide_eq_true, !Z.ltb_ge, !Z.leb_gt.
  cbn [fst]. clear Hroles. tauto.
Qed.

(** C38: A new version of a policy whose difference does
    not expand the authority, with the subject, delegate, class, escrow
    threshold and at least the trust roles of the old one, allows no request
    that the old one refuses. *)
Theorem unapproved_change_narrows (old new : PolicyV1) (f : PolicyFactsV1) :
  ValidatePolicy old = Ok tt → df_AuthorityExpanded (DiffPolicies old new) = false →
  sc_Subject (po_Scope new) = sc_Subject (po_Scope old) → sc_Delegate (po_Scope new) = sc_Delegate (po_Scope old) →
  sc_TransactionClass (po_Scope new) = sc_TransactionClass (po_Scope old) → po_EscrowRequiredAbove new = po_EscrowRequiredAbove old →
  (∀ role, role ∈ po_RequiredTrustRoles old → role ∈ po_RequiredTrustRoles new) →
  de_Allowed (EvaluatePolicy new f) = true → de_Allowed (EvaluatePolicy old f) = true.
Proof.
  intros Hv Hd Hs Hde Hc He Hro. rewrite !evaluate_allowed, !judge_all. rewrite Hs, Hde, Hc, He.
  intros (Hvn&?&?&Hcp&?&Htime&Hamt&Hcum&Hroles&?). apply changes_narrow in Hd as (D1&D2&D3&D4).
  split_and!; auto; [congruence|lia..|]. destruct (valid_limit new Hvn), (valid_limit old Hv). lia.
Qed.
End Changes.

(** ** A concrete world *)

#[local] Instance ascii_tables : UnicodeTables := {| is_print_wide := fun _ => false |}.

Definition alice : bytes := bs "bso:alice".
Definition bob : bytes := bs "bso:bob".
Definition start : world :=
  <[alice := (OpenAuthority Committed alice 100 None ∅).1]> (<[bob := (OpenAuthority Committed bob 0 None ∅).1]> ∅).
Definition sample_policy (version : Z) (delegate : bytes) (cumulative : Z) : PolicyV1 :=
  SealPolicy (Build_PolicyV1 (Build_PolicyIdentityV1 (bs "policy:1") version []) AuthorizationPolicy alice
    (Build_AuthorizationScopeV1 (bs "auth:1") alice delegate bob (bs "subscription") 80 cumulative 1000) [bs "authorization"] 0 [] cumulative).
Definition sample_request (id auth : bytes) (amount : Z) : TransferRequestV1 :=
  Build_TransferRequestV1 id [] alice (bs "service:x") bob auth (bs "subscription") amount 1 [bs "authorization"] [] false (bs "payment").

Definition the_policy : PolicyV1 := sample_policy 1 (bs "service:x") 100.
(** The authority of Alice after it proposed and activated a policy. *)
Definition opened_alice : Authority := (OpenAuthority Committed alice 100 None ∅).1.
Definition proposed_alice (p : PolicyV1) : Authority := (ProposePolicy Committed p opened_alice).1.
Definition active_alice (p : PolicyV1) : Authority := (ActivatePolicy Committed (bs "policy:1") 1 false (proposed_alice p)).1.1.
Definition installed (p : PolicyV1) : world := <[alice := active_alice p]> (<[alice := proposed_alice p]> start).
Definition sample_agreement : agreement :=
  {| from_of := fun _ => alice; to_of := fun _ => bob; auth_of := fun _ => bs "auth:1"; limit_of := fun _ _ => 100 |}.

Lemma start_opened : opened start.
Proof.
  intros i a Ha. unfold start in Ha. apply lookup_insert_Some in Ha as [[<- <-]|[_ [[<- <-]|[_ He]]%lookup_insert_Some]].
  - exists 100. split_and!; [by vm_compute|lia|reflexivity].
  - exists 0. split_and!; [by vm_compute|lia|reflexivity].
  - by rewrite lookup_empty in He.
Qed.
Lemma installed_run p : policy_text p → rtc (bso_step sample_agreement) start (installed p).
Proof.
  intros Hp. eapply rtc_l; [|apply rtc_once].
  - exact (step_propose sample_agreement start alice opened_alice Committed p (lookup_insert_eq _ _ _) Hp).
  - exact (step_activate sample_agreement _ alice (proposed_alice p) Committed (bs "policy:1") 1 false (lookup_insert_eq _ _ _) eq_refl).
Qed.
Lemma the_policy_text : policy_text the_policy.
Proof. apply SealPolicy_text. split_and!; repeat constructor. Qed.

(** What a settlement reports, and the balances after it. *)
Abbreviation report := (option (ReasonCode * option gerror * TransferStatus * Z * Z)).
Definition reported (x : option (world * (FinancialTransferV1 * PolicyDecisionV1 * ReasonCode * option gerror))) : report :=
  '(w, (t, d, reason, err)) ← x; Some (reason, err, ft_Status t, default 0 (balance_of [] <$> w !! alice), default 0 (balance_of [] <$> w !! bob)).
Definition after (x : option (world * (FinancialTransferV1 * PolicyDecisionV1 * ReasonCode * option gerror))) : world := default ∅ (fst <$> x).

Definition first_request : TransferRequestV1 := sample_request (bs "t1") (bs "auth:1") 60.
Example settled : reported (Settle Committed Committed Committed alice bob the_policy first_request (installed the_policy))
  = Some (ReasonAllowed, None, TransferCommitted, 40, 60).
Proof. vm_compute. reflexivity. Qed.
Lemma first_agreed : agreed sample_agreement alice the_policy first_request.
Proof. split; try (vm_compute; done). split; [split; repeat constructor|apply the_policy_text]. Qed.

Lemma money_conserved_witness :
  ∃ w' t d, Settle Committed Committed Committed alice bob the_policy first_request (installed the_policy) = Some (w', (t, d, ReasonAllowed, None))
    ∧ total (installed the_policy) = 100 ∧ entry w' alice (bs "t1") = Some t ∧ entry w' bob (bs "t1") = Some (with_status t TransferCredited).
Proof.
  destruct (money_conserved sample_agreement start (installed the_policy) start_opened) as (Htot&_&_&Hset); [vm_compute; reflexivity|apply installed_run, the_policy_text|].
  destruct (Settle Committed Committed Committed alice bob the_policy first_request (installed the_policy)) as [[w' [[[t d] reason] err]]|] eqn:E;
    [|pose proof settled as Hx; rewrite E in Hx; discriminate Hx].
  pose proof settled as Hx. rewrite E in Hx. cbn [reported mbind option_bind] in Hx. injection Hx as -> -> Hst _ _.
  destruct (Hset _ _ _ _ _ _ _ _ _ _ _ _ first_agreed E) as [_ Hdone]. destruct (Hdone eq_refl eq_refl eq_refl Hst) as [H1 H2].
  exists w', t, d. split_and!; [reflexivity| |exact H1|exact H2]. rewrite Htot. vm_compute. reflexivity.
Defined.

Definition some_facts (actor : bytes) (amount : Z) : PolicyFactsV1 :=
  Build_PolicyFactsV1 (bs "facts:1") 1 (bs "t1") alice actor bob (bs "subscription") amount 1 0 0 [bs "authorization"] false.

Lemma unapproved_change_narrows_witness : de_Allowed (EvaluatePolicy (sample_policy 1 (bs "service:x") 100) (some_facts (bs "service:x") 60)) = true.
Proof.
  apply (unapproved_change_narrows (sample_policy 1 (bs "service:x") 100) (sample_policy 2 (bs "service:x") 90)).
  all: try (vm_compute; reflexivity). intros role Hr. exact Hr.
Defined.

(** ** Where the code departs from its documents *)

(** A debit whose credit failed is not retried: the second settlement counts the
    amount of the first against the limit and refuses it.  60 of 100 stay out of
    both balances. *)
Example retry_refused :
  let once := Settle Committed Committed (Refused (EOS "sync")) alice bob the_policy first_request (installed the_policy) in
  reported once = Some (StateConflict, Some (EOS "sync"), TransferCommitted, 40, 0)
  ∧ reported (Settle Committed Committed Committed alice bob the_policy first_request (after once)) = Some (CumulativeLimitExceeded, None, NoStatus, 40, 0).
Proof. vm_compute. split; reflexivity. Qed.

(** The authorization a request names is not the one of its policy: two requests
    under a limit of 60 move 100. *)
Example limit_by_name :
  let p := sample_policy 1 (bs "service:x") 60 in
  let once := Settle Committed Committed Committed alice bob p (sample_request (bs "t1") (bs "auth:1") 50) (installed p) in
  reported (Settle Committed Committed Committed alice bob p (sample_request (bs "t2") (bs "another") 50) (after once))
  = Some (ReasonAllowed, None, TransferCommitted, 0, 100).
Proof. vm_compute. reflexivity. Qed.

(** A credit of a transfer no sender committed makes money. *)
Example forged_credit :
  let t := Build_FinancialTransferV1 (bs "t9") [] alice bob 1000 (bs "subscription") (bs "payment") TransferCommitted zeroIdentity [] in
  match start !! bob with
  | Some b => let (b, err) := Credit Committed t b in err = None ∧ balances start = 100 ∧ balances (<[bob := b]> start) = 1100
  | None => False
  end.
Proof. vm_compute. split_and!; reflexivity. Qed.

(** A reservation whose identifier is not UTF-8 is stored under another key: the
    debit does not find it, and its amount stays reserved. *)
Example transfer_not_text :
  let once := Settle Committed Committed Committed alice bob the_policy (sample_request [xff] (bs "auth:1") 60) (installed the_policy) in
  reported once = Some (StateConflict, Some (EMsg "reservation not found"), NoStatus, 100, 0)
  ∧ (s ← state_of (after once) alice; Some (us_Reserved (usage s (bs "auth:1")))) = Some 60.
Proof. vm_compute. split; reflexivity. Qed.

(** A failed debit is remembered without its error: the third settlement of a
    transfer whose reservation found no money reports success with nothing
    moved. *)
Example failed_debit_reported_settled :
  let p := sample_policy 1 (bs "service:x") 0 in
  let settle oF id w := Settle Committed oF Committed alice bob p (sample_request id (bs "auth:1") 80) w in
  let w := after (settle (Refused (EOS "sync")) (bs "t2") (installed p)) in
  let w := after (settle Committed (bs "t1") w) in
  let w1 := settle Committed (bs "t2") w in
  let w2 := settle Committed (bs "t2") (after w1) in
  let w3 := settle Committed (bs "t2") (after w2) in
  reported w1 = Some (StateConflict, Some (EMsg "reserved invariant missing"), NoStatus, 20, 80)
  ∧ reported w2 = Some (StateConflict, Some (EMsg "invalid committed transfer"), NoStatus, 20, 80)
  ∧ reported w3 = Some (ReasonAllowed, None, NoStatus, 20, 80).
Proof. vm_compute. split_and!; reflexivity. Qed.

(** Removing the delegate lets anyone act, and is not an expansion. *)
Example delegate_dropped :
  let old := sample_policy 1 (bs "service:x") 100 in
  let new := sample_policy 2 [] 100 in
  df_AuthorityExpanded (DiffPolicies old new) = false
  ∧ de_Allowed (EvaluatePolicy old (some_facts (bs "mallory") 60)) = false ∧ de_Allowed (EvaluatePolicy new (some_facts (bs "mallory") 60)) = true.
Proof. vm_compute. split_and!; reflexivity. Qed.

(** The retry of a refused activation reports success and activates nothing. *)
Example refused_activation_retried :
  let once := ActivatePolicy Committed (bs "policy:1") 7 false opened_alice in
  let again := ActivatePolicy Committed (bs "policy:1") 7 false once.1.1 in
  once.2 = Some (EMsg "proposed policy version not found") ∧ again.2 = None
  ∧ (s ← au_state again.1.1; Some (active_version s (bs "policy:1"))) = Some 0.
Proof. vm_compute. split_and!; reflexivity. Qed.
