(* ===== verification/Golden.v ===== *)
(** * The golden services ([integration/golden])

    Four services over the public catalog API: inventory, orders, jobs and
    webhooks.  Every store opens one dataset and changes one record of it per
    command; its closures are [mutation]s of [Catalog.v], its values the JSON of
    their structs.  A panic of the database passes through as [None]. *)

From Stdlib Require Import ZArith Lia Strings.Byte Strings.String.
From stdpp Require Import base decidable countable list gmap.
From S2P Require Import Prelude GoText GoBinary GoJson Errors GoOS Keyed KeyedStorage KeyedCommit Catalog CatalogStorage Query.

Local Open Scope Z_scope.
Local Open Scope go_scope.

(** ** What the stores share *)

(** [any(nil)] as JSON. *)
Definition json_nil : option bytes := Some (bs "null").

(** A type kept as JSON: its zero value, its encoding and its decoding. *)
Class Kept (T : Type) := { kept_zero : T; kept_json : T → json; kept_member : T → bytes * json → option T }.

Section Kept.
Context {T : Type} `{Kept T}.

Definition marshal (v : T) : bytes := print (kept_json v).
Definition unmarshal (data : bytes) : option T := j ← parse data; into_struct kept_member kept_zero j.
Definition accepts (data : bytes) : bool := bool_decide (is_Some (unmarshal data)).

(** [tx.Get] of a record, with the value or that there is none. *)
Definition fetch (d : DatasetHandle) (key : bytes) (k : res gerror (option T) → mutation) : mutation :=
  MGet (Some d) key (Some accepts) (fun got => k (match got with Err e => Err e | Ok None => Ok None | Ok (Some data) => Ok (unmarshal data) end)).
(** [return v, tx.Put(d, key, v)]. *)
Definition store (d : DatasetHandle) (key : bytes) (v : T) (result : bytes) : mutation :=
  MPut (Some d) key (Some (marshal v)) (fun err => MReturn (Some result) err).

Record Decision := { dc_Applied : bool; dc_Code : bytes; dc_Duplicate : bool; dc_Value : T }.

(** [decode]: a decision without a result has the zero value. *)
Definition decode (wrap : gerror → gerror) (d : KeyedDecision) (err : option gerror) : res gerror Decision :=
  match err with
  | Some e => Err e
  | None =>
      let! value := if bool_decide (kd_Result d = []) then Ok kept_zero
                    else match DecodeResult d (Some accepts) with
                         | Err e => Err (wrap e)
                         | Ok data => Ok (default kept_zero (unmarshal data))
                         end in
      Ok {| dc_Applied := kd_Applied d; dc_Code := kd_Code d; dc_Duplicate := kd_Duplicate d; dc_Value := value |}
  end.

(** A command of a store: the closure in [Mutate], then [decode]. *)
Definition submit (wrap : gerror → gerror) (db : Database) (ctx : context) (commandID : bytes) (m : mutation) (w : world)
    : option (res gerror Decision) * Database * world :=
  let '(out, db, w) := Mutate db ctx commandID (Some m) w in
  (match out with SubmitPanic _ => None | SubmitReturn d err => Some (decode wrap d err) end, db, w).

(** [Get] of a store. *)
Definition get_record (missing : string) (db : Database) (d : DatasetHandle) (ctx : context) (id : bytes) : res gerror T :=
  let! got := DatasetGet db d ctx id (Some accepts) in
  match got with
  | None => Err (EMsg missing)
  | Some data => Ok (default kept_zero (unmarshal data))
  end.

(** The visitor of [ListLowStock] and [ListReady]: the chosen ones, up to a limit. *)
Definition choose (wanted : T → bool) (limit : Z) (chosen : list T) (_ : bytes) (v : T) : list T * (Z * option gerror) :=
  if negb (wanted v) then (chosen, (ScanContinue, None))
  else
    let chosen := chosen ++ [v] in
    if zlen chosen =? limit then (chosen, (ScanStop, None)) else (chosen, (ScanContinue, None)).
(** [make] of a slice panics when it would not fit the address space, which is
    [None]. *)
Definition maxAlloc : Z := 2 ^ 48.
Definition list_wanted (size : Z) (wanted : T → bool) (limit : Z) (db : Database) (d : DatasetHandle) (ctx : context) (done : nat → bool) : option (res gerror (list T)) :=
  if limit <=? 0 then Some (Ok [])
  else if maxAlloc <? size * limit then None
  else
    Some match ScanDataset unmarshal db d ctx done (Some (choose wanted limit)) [] with
         | (_, Some e) => Err e
         | (chosen, None) => Ok chosen
         end.
End Kept.
Arguments Decision T : clear implicits.
Arguments Build_Decision {T}.

Definition keep_error (e : gerror) : gerror := e.

(** [Open] of a store: its catalog, bucket and dataset; an error closes the
    database. *)
Definition open_store (windows : bool) (ptr : nat) (rand : res gerror bytes) (ctx : context) (path bucketName datasetName typeIdentity : bytes) (w : world)
    : res gerror (Database * DatasetHandle) * world :=
  match OpenCatalog windows ptr rand ctx path DefaultKeyedOptions w with
  | (Err e, w) => (Err e, w)
  | (Ok db, w) =>
      let '(b, db, w) := Bucket windows db ctx bucketName w in
      match b with
      | Err e => let '(_, _, _, w) := CloseDatabase windows db w in (Err e, w)
      | Ok b =>
          let '(d, db, w) := DatasetOf windows db b ctx datasetName {| do_Kind := []; do_TypeIdentity := typeIdentity; do_MaxRecords := 0; do_MaxValueBytes := 0 |} w in
          match d with
          | Err e => let '(_, _, _, w) := CloseDatabase windows db w in (Err e, w)
          | Ok d => (Ok (db, d), w)
          end
      end
  end.

(** ** Inventory *)

Record Item := { it_ID : bytes; it_Stock : Z }.
Record Reservation := { rv_ItemID : bytes; rv_Quantity : Z; rv_Remaining : Z }.
Record InventoryCommand := { ic_ID : bytes; ic_ItemID : bytes; ic_Quantity : Z }.

Definition item_json (i : Item) : json := JObj [(bs "id", JStr (it_ID i)); (bs "stock", JNum (dec (it_Stock i)))].
Definition item_member (i : Item) (m : bytes * json) : option Item :=
  let '(Build_Item id stock) := i in
  if is_field "id" m.1 then z ← into_str id m.2; Some (Build_Item z stock)
  else if is_field "stock" m.1 then z ← into_int stock m.2; Some (Build_Item id z)
  else Some i.
#[export] Instance Item_kept : Kept Item := {| kept_zero := Build_Item [] 0; kept_json := item_json; kept_member := item_member |}.
Definition reservation_json (r : Reservation) : json :=
  JObj [(bs "item_id", JStr (rv_ItemID r)); (bs "quantity", JNum (dec (rv_Quantity r))); (bs "remaining", JNum (dec (rv_Remaining r)))].
Definition reservation_member (r : Reservation) (m : bytes * json) : option Reservation :=
  let '(Build_Reservation id q rest) := r in
  if is_field "item_id" m.1 then z ← into_str id m.2; Some (Build_Reservation z q rest)
  else if is_field "quantity" m.1 then z ← into_int q m.2; Some (Build_Reservation id z rest)
  else if is_field "remaining" m.1 then z ← into_int rest m.2; Some (Build_Reservation id q z)
  else Some r.
#[export] Instance Reservation_kept : Kept Reservation :=
  {| kept_zero := Build_Reservation [] 0 0; kept_json := reservation_json; kept_member := reservation_member |}.

Definition create_item (items : DatasetHandle) (item : Item) : mutation :=
  fetch items (it_ID item) (fun got : res gerror (option Item) =>
    match got with
    | Err e => MReturn json_nil (Some e)
    | Ok (Some existing) => MReturn (Some (marshal existing)) (Some (RejectWithResult (bs "item_exists") (Some (marshal existing))))
    | Ok None =>
        if bool_decide (it_ID item = []) || (it_Stock item <? 0) then MReturn json_nil (Some (Reject (bs "invalid_item")))
        else store items (it_ID item) item (marshal item)
    end).
Definition reserve_item (items : DatasetHandle) (c : InventoryCommand) : mutation :=
  fetch items (ic_ItemID c) (fun got : res gerror (option Item) =>
    match got with
    | Err e => MReturn json_nil (Some e)
    | Ok None => MReturn json_nil (Some (Reject (bs "not_found")))
    | Ok (Some item) =>
        if ic_Quantity c <=? 0 then MReturn json_nil (Some (Reject (bs "invalid_quantity")))
        else if it_Stock item <? ic_Quantity c then MReturn json_nil (Some (Reject (bs "insufficient_stock")))
        else
          let item := Build_Item (it_ID item) (i64 (it_Stock item - ic_Quantity c)) in
          MPut (Some items) (it_ID item) (Some (marshal item)) (fun err =>
            match err with
            | Some e => MReturn json_nil (Some e)
            | None => MReturn (Some (marshal (Build_Reservation (it_ID item) (ic_Quantity c) (it_Stock item)))) None
            end)
    end).
Definition release_item (items : DatasetHandle) (c : InventoryCommand) : mutation :=
  fetch items (ic_ItemID c) (fun got : res gerror (option Item) =>
    match got with
    | Err e => MReturn json_nil (Some e)
    | Ok None => MReturn json_nil (Some (Reject (bs "not_found")))
    | Ok (Some item) =>
        if ic_Quantity c <=? 0 then MReturn json_nil (Some (Reject (bs "invalid_quantity")))
        else
          let item := Build_Item (it_ID item) (i64 (it_Stock item + ic_Quantity c)) in
          store items (it_ID item) item (marshal item)
    end).

Definition wrap_decode (e : gerror) : gerror := EWrap "decode decision" e.
Definition CreateItem (items : DatasetHandle) (db : Database) (ctx : context) (commandID : bytes) (item : Item) (w : world) : option (res gerror (Decision Item)) * Database * world :=
  submit wrap_decode db ctx commandID (create_item items item) w.
Definition ReserveItem (items : DatasetHandle) (db : Database) (ctx : context) (c : InventoryCommand) (w : world) : option (res gerror (Decision Reservation)) * Database * world :=
  submit wrap_decode db ctx (ic_ID c) (reserve_item items c) w.
Definition ReleaseItem (items : DatasetHandle) (db : Database) (ctx : context) (c : InventoryCommand) (w : world) : option (res gerror (Decision Item)) * Database * world :=
  submit wrap_decode db ctx (ic_ID c) (release_item items c) w.
Definition GetItem (items : DatasetHandle) (db : Database) (ctx : context) (id : bytes) : res gerror Item := get_record "item not found" db items ctx id.
Definition ListLowStock (items : DatasetHandle) (db : Database) (ctx : context) (done : nat → bool) (threshold limit : Z) : option (res gerror (list Item)) :=
  list_wanted 24 (fun item => negb (threshold <? it_Stock item)) limit db items ctx done.
Definition OpenInventory (windows : bool) (ptr : nat) (rand : res gerror bytes) (ctx : context) (path : bytes) (w : world) : res gerror (Database * DatasetHandle) * world :=
  open_store windows ptr rand ctx path (bs "inventory") (bs "items") (bs "inventory.Item/v1") w.

(** ** Orders *)

Definition Created : bytes := bs "created".
Definition Paid : bytes := bs "paid".
Definition Shipped : bytes := bs "shipped".
Definition Cancelled : bytes := bs "cancelled".
Record Order := { or_ID : bytes; or_Status : bytes }.
Definition order_json (o : Order) : json := JObj [(bs "id", JStr (or_ID o)); (bs "status", JStr (or_Status o))].
Definition order_member (o : Order) (m : bytes * json) : option Order :=
  let '(Build_Order id status) := o in
  if is_field "id" m.1 then z ← into_str id m.2; Some (Build_Order z status)
  else if is_field "status" m.1 then z ← into_str status m.2; Some (Build_Order id z)
  else Some o.
#[export] Instance Order_kept : Kept Order := {| kept_zero := Build_Order [] []; kept_json := order_json; kept_member := order_member |}.

Definition is_text (a b : bytes) : bool := bool_decide (a = b).
Definition valid (from to : bytes) : bool :=
  if is_text from Created then is_text to Paid || is_text to Cancelled
  else if is_text from Paid then is_text to Shipped || is_text to Cancelled
  else false.
Definition create_order (orders : DatasetHandle) (id : bytes) : mutation :=
  fetch orders id (fun got : res gerror (option Order) =>
    match got with
    | Err e => MReturn json_nil (Some e)
    | Ok (Some existing) => MReturn (Some (marshal existing)) (Some (RejectWithResult (bs "order_exists") (Some (marshal existing))))
    | Ok None => let order := Build_Order id Created in store orders id order (marshal order)
    end).
Definition transition_order (orders : DatasetHandle) (id to : bytes) : mutation :=
  fetch orders id (fun got : res gerror (option Order) =>
    match got with
    | Err e => MReturn json_nil (Some e)
    | Ok None => MReturn json_nil (Some (Reject (bs "not_found")))
    | Ok (Some order) =>
        if negb (valid (or_Status order) to) then MReturn (Some (marshal order)) (Some (RejectWithResult (bs "invalid_transition") (Some (marshal order))))
        else let order := Build_Order (or_ID order) to in store orders id order (marshal order)
    end).
Definition CreateOrder (orders : DatasetHandle) (db : Database) (ctx : context) (commandID id : bytes) (w : world) : option (res gerror (Decision Order)) * Database * world :=
  submit keep_error db ctx commandID (create_order orders id) w.
Definition Transition (orders : DatasetHandle) (db : Database) (ctx : context) (commandID id to : bytes) (w : world) : option (res gerror (Decision Order)) * Database * world :=
  submit keep_error db ctx commandID (transition_order orders id to) w.
Definition GetOrder (orders : DatasetHandle) (db : Database) (ctx : context) (id : bytes) : res gerror Order := get_record "order not found" db orders ctx id.
Definition OpenOrders (windows : bool) (ptr : nat) (rand : res gerror bytes) (ctx : context) (path : bytes) (w : world) : res gerror (Database * DatasetHandle) * world :=
  open_store windows ptr rand ctx path (bs "commerce") (bs "orders") (bs "order.Order/v1") w.

(** ** Jobs *)

Definition Ready : bytes := bs "ready".
Definition Claimed : bytes := bs "claimed".
Definition Completed : bytes := bs "completed".
Definition Failed : bytes := bs "failed".
Record Job := { jb_ID : bytes; jb_Status : bytes; jb_Owner : bytes; jb_Attempts : Z; jb_Failure : bytes }.
Definition job_json (j : Job) : json :=
  JObj ([(bs "id", JStr (jb_ID j)); (bs "status", JStr (jb_Status j))]
    ++ opt_member (negb (bool_decide (jb_Owner j = []))) "owner" (JStr (jb_Owner j)) ++ [(bs "attempts", JNum (dec (jb_Attempts j)))]
    ++ opt_member (negb (bool_decide (jb_Failure j = []))) "failure" (JStr (jb_Failure j))).
Definition job_member (j : Job) (m : bytes * json) : option Job :=
  let '(Build_Job id status owner attempts failure) := j in
  if is_field "id" m.1 then z ← into_str id m.2; Some (Build_Job z status owner attempts failure)
  else if is_field "status" m.1 then z ← into_str status m.2; Some (Build_Job id z owner attempts failure)
  else if is_field "owner" m.1 then z ← into_str owner m.2; Some (Build_Job id status z attempts failure)
  else if is_field "attempts" m.1 then z ← into_int attempts m.2; Some (Build_Job id status owner z failure)
  else if is_field "failure" m.1 then z ← into_str failure m.2; Some (Build_Job id status owner attempts z)
  else Some j.
Definition zeroJob : Job := Build_Job [] [] [] 0 [].
#[export] Instance Job_kept : Kept Job := {| kept_zero := zeroJob; kept_json := job_json; kept_member := job_member |}.

(** [mutate]: the change of a job, or the error of its refusal. *)
Definition mutate_job (jobs : DatasetHandle) (id : bytes) (change : Job → bool → res gerror Job) : mutation :=
  fetch jobs id (fun got : res gerror (option Job) =>
    match got with
    | Err e => MReturn json_nil (Some e)
    | Ok found =>
        match change (default zeroJob found) (bool_decide (is_Some found)) with
        | Err e => MReturn json_nil (Some e)
        | Ok job => store jobs id job (marshal job)
        end
    end).
Definition refuse (code : string) (job : Job) : gerror := RejectWithResult (bs code) (Some (marshal job)).
Definition job_create (id : bytes) (job : Job) (exists_ : bool) : res gerror Job :=
  if exists_ then Err (refuse "job_exists" job) else Ok (Build_Job id Ready [] 0 []).
Definition job_claim (owner : bytes) (job : Job) (exists_ : bool) : res gerror Job :=
  if negb exists_ then Err (Reject (bs "not_found"))
  else if negb (is_text (jb_Status job) Ready) && negb (is_text (jb_Status job) Failed) then Err (refuse "not_claimable" job)
  else Ok (Build_Job (jb_ID job) Claimed owner (i64 (jb_Attempts job + 1)) []).
Definition job_complete (owner : bytes) (job : Job) (exists_ : bool) : res gerror Job :=
  if negb exists_ then Err (Reject (bs "not_found"))
  else if negb (is_text (jb_Status job) Claimed) || negb (is_text (jb_Owner job) owner) then Err (refuse "not_owner" job)
  else Ok (Build_Job (jb_ID job) Completed (jb_Owner job) (jb_Attempts job) (jb_Failure job)).
Definition job_fail (owner reason : bytes) (job : Job) (exists_ : bool) : res gerror Job :=
  if negb exists_ then Err (Reject (bs "not_found"))
  else if negb (is_text (jb_Status job) Claimed) || negb (is_text (jb_Owner job) owner) then Err (refuse "not_owner" job)
  else Ok (Build_Job (jb_ID job) Failed [] (jb_Attempts job) reason).
Definition job_requeue (job : Job) (exists_ : bool) : res gerror Job :=
  if negb exists_ then Err (Reject (bs "not_found"))
  else if negb (is_text (jb_Status job) Failed) then Err (refuse "not_failed" job)
  else Ok (Build_Job (jb_ID job) Ready [] (jb_Attempts job) []).

Definition JobCommand (jobs : DatasetHandle) (db : Database) (ctx : context) (commandID id : bytes) (change : Job → bool → res gerror Job) (w : world)
    : option (res gerror (Decision Job)) * Database * world :=
  submit keep_error db ctx commandID (mutate_job jobs id change) w.
Definition CreateJob (jobs : DatasetHandle) db ctx commandID id w := JobCommand jobs db ctx commandID id (job_create id) w.
Definition Claim (jobs : DatasetHandle) db ctx commandID id owner w := JobCommand jobs db ctx commandID id (job_claim owner) w.
Definition Complete (jobs : DatasetHandle) db ctx commandID id owner w := JobCommand jobs db ctx commandID id (job_complete owner) w.
Definition FailJob (jobs : DatasetHandle) db ctx commandID id owner reason w := JobCommand jobs db ctx commandID id (job_fail owner reason) w.
Definition Requeue (jobs : DatasetHandle) db ctx commandID id w := JobCommand jobs db ctx commandID id job_requeue w.
Definition GetJob (jobs : DatasetHandle) (db : Database) (ctx : context) (id : bytes) : res gerror Job := get_record "job not found" db jobs ctx id.
Definition ListReady (jobs : DatasetHandle) (db : Database) (ctx : context) (done : nat → bool) (limit : Z) : option (res gerror (list Job)) :=
  list_wanted 72 (fun job => is_text (jb_Status job) Ready) limit db jobs ctx done.
Definition OpenJobs (windows : bool) (ptr : nat) (rand : res gerror bytes) (ctx : context) (path : bytes) (w : world) : res gerror (Database * DatasetHandle) * world :=
  open_store windows ptr rand ctx path (bs "workers") (bs "jobs") (bs "job.Job/v1") w.

(** ** Webhooks *)

Record Event := { ev_ID : bytes; ev_Status : bytes; ev_Result : bytes }.
Definition event_json (e : Event) : json := JObj [(bs "id", JStr (ev_ID e)); (bs "status", JStr (ev_Status e)); (bs "result", JStr (ev_Result e))].
Definition event_member (e : Event) (m : bytes * json) : option Event :=
  let '(Build_Event id status result) := e in
  if is_field "id" m.1 then z ← into_str id m.2; Some (Build_Event z status result)
  else if is_field "status" m.1 then z ← into_str status m.2; Some (Build_Event id z result)
  else if is_field "result" m.1 then z ← into_str result m.2; Some (Build_Event id status z)
  else Some e.
#[export] Instance Event_kept : Kept Event := {| kept_zero := Build_Event [] [] []; kept_json := event_json; kept_member := event_member |}.
Definition process_event (webhooks : DatasetHandle) (event : Event) : mutation :=
  fetch webhooks (ev_ID event) (fun got : res gerror (option Event) =>
    match got with
    | Err e => MReturn json_nil (Some e)
    | Ok (Some existing) => MReturn (Some (marshal existing)) None
    | Ok None =>
        if bool_decide (ev_ID event = []) then MReturn json_nil (Some (Reject (bs "invalid_event")))
        else
          let event := Build_Event (ev_ID event) (bs "processed") (ev_Result event) in
          MPut (Some webhooks) (ev_ID event) (Some (marshal event)) (fun err =>
            match err with Some e => MReturn json_nil (Some e) | None => MReturn (Some (marshal event)) None end)
    end).
(** [Process] of the store decodes the result also when it is empty, which is an
    error. *)
Definition ProcessStore (webhooks : DatasetHandle) (db : Database) (ctx : context) (commandID : bytes) (event : Event) (w : world) : option (res gerror (Decision Event)) * Database * world :=
  let '(out, db, w) := Mutate db ctx commandID (Some (process_event webhooks event)) w in
  (match out with
   | SubmitPanic _ => None
   | SubmitReturn _ (Some e) => Some (Err e)
   | SubmitReturn d None =>
       Some (let! data := DecodeResult d (Some (accepts (T := Event))) in
             Ok (Build_Decision (kd_Applied d) [] (kd_Duplicate d) (default kept_zero (unmarshal data))))
   end, db, w).
(** [Process] of the service: the event is its own command. *)
Definition Process (webhooks : DatasetHandle) (db : Database) (ctx : context) (event : Event) (w : world) : option (res gerror (Decision Event)) * Database * world :=
  ProcessStore webhooks db ctx (ev_ID event) event w.
Definition GetEvent (webhooks : DatasetHandle) (db : Database) (ctx : context) (id : bytes) : res gerror (option Event) :=
  let! got := DatasetGet db webhooks ctx id (Some (accepts (T := Event))) in
  Ok (data ← got; unmarshal data).
Definition OpenWebhooks (windows : bool) (ptr : nat) (rand : res gerror bytes) (ctx : context) (path : bytes) (w : world) : res gerror (Database * DatasetHandle) * world :=
  open_store windows ptr rand ctx path (bs "events") (bs "webhooks") (bs "webhook.Event/v1") w.
