(* ===== verification/GoldenTheorems.v ===== *)
(** * The golden services implement their state machines

    A service is a map from keys to values; a command changes the value of its
    key or refuses.  Whatever commands run, and whichever the engine applies, the
    dataset of the service holds the map after the applied ones.  From this: the
    inventory is never oversold, orders move along their life cycle, and only the
    owner of a job completes it. *)

From Stdlib Require Import ZArith Lia Strings.Byte Strings.String.
From stdpp Require Import base decidable countable list gmap.
From S2P Require Import Prelude GoText GoBinary GoJson Errors GoOS Keyed KeyedStorage KeyedRecovery KeyedCommit KeyedScenario Catalog CatalogStorage Query CatalogTheorems AgentLemmas ResearchWalLemmas ResearchSnapshot ResearchRestore Golden.

Local Open Scope Z_scope.
Local Open Scope go_scope.

(** ** Values that read back *)

(** What the generic part needs of a type: its JSON is well formed, and the
    values that fit a key read back. *)
Class KeptOK (T : Type) `{Kept T} := {
  fits : bytes → T → Prop;
  kept_shape : ∀ v, nums_ok (kept_json v) ∧ (depth (kept_json v) ≤ 1)%nat;
  kept_back : ∀ k v, fits k v → into_struct kept_member kept_zero (norm (kept_json v)) = Some v }.

Section Back.
Context {T : Type} `{KeptOK T}.

Lemma parse_marshal (v : T) : parse (marshal v) = Some (norm (kept_json v)).
Proof. destruct (kept_shape v) as [Hn Hd]. unfold marshal. apply parse_print; [done|]. unfold max_nesting. lia. Qed.
Lemma marshal_valid (v : T) : json_valid (marshal v) = true.
Proof. unfold json_valid. rewrite parse_marshal. by apply bool_decide_eq_true_2. Qed.
Lemma kept_nonempty (v : T) : marshal v ≠ [].
Proof. intros E. pose proof (parse_marshal v) as Hp. rewrite E in Hp. discriminate Hp. Qed.
Lemma kept_read_back k (v : T) : fits k v → unmarshal (marshal v) = Some v.
Proof. intros Hf. unfold unmarshal. rewrite parse_marshal. cbn [mbind option_bind]. by apply (kept_back k). Qed.
Lemma accepts_marshal k (v : T) : fits k v → accepts (T := T) (marshal v) = true.
Proof. intros Hf. unfold accepts. rewrite (kept_read_back k) by done. by apply bool_decide_eq_true_2. Qed.
End Back.

#[local] Arguments unmarshal : simpl never.
#[local] Arguments accepts : simpl never.
#[local] Arguments marshal : simpl never.

(** ** Commands on one record *)

Record command (T : Type) := { cm_id : bytes; cm_key : bytes; cm_mutation : mutation; cm_delta : option T → option T }.
Arguments cm_id {T}. Arguments cm_key {T}. Arguments cm_mutation {T}. Arguments cm_delta {T}. Arguments Build_command {T}.

Section Machine.
Context {T : Type} `{KeptOK T} (o : KeyedOptions) (ptr : nat) (d : DatasetHandle).
Hypothesis Hd : handle_ok o (Some d).

Abbreviation id_of := (di_ID (dh_info d)).

Definition holds (base : Z → bytes → option bytes) (m : gmap bytes T) : Prop :=
  (∀ k, base id_of k = marshal <$> m !! k) ∧ ∀ k v, m !! k = Some v → fits k v.

(** What a command that returns without an error wrote. *)
Definition implements (cmd : command T) : Prop :=
  mutation_wf o (cm_mutation cmd) ∧
  ∀ base m r aw, holds base m → spec_run ptr base (cm_mutation cmd) ∅ = (CReturn (Some r) None, aw) →
    ∃ v, cm_delta cmd (m !! cm_key cmd) = Some v ∧ fits (cm_key cmd) v
      ∧ (aw = {[(id_of, cm_key cmd) := Some (marshal v)]} ∨ aw = ∅ ∧ m !! cm_key cmd = Some v).

(** ** Reading and writing the record of a command *)

Lemma spec_fetch base m key k r aw :
  holds base m → spec_run ptr base (fetch (T := T) d key k) ∅ = (CReturn (Some r) None, aw) →
  (∃ e, spec_run ptr base (k (Err e)) ∅ = (CReturn (Some r) None, aw)) ∨ spec_run ptr base (k (Ok (m !! key))) ∅ = (CReturn (Some r) None, aw).
Proof.
  intros [Hb Hf]. unfold fetch. cbn [spec_run]. unfold spec_get. destruct (validDataset ptr fresh_tx (Some d) key "get") as [info|e] eqn:E; cbn; [|eauto].
  assert (di_ID info = id_of) as Hid.
  { revert E. unfold validDataset. destruct (tx_valid fresh_tx "get"); [|done]. cbn. case_bool_decide; cbn; [|done].
    destruct (validRecordKey key); [|done]. cbn. by intros [= <-]. }
  rewrite lookup_empty, Hid, Hb. destruct (m !! key) as [v|] eqn:Hk; cbn; [|by right].
  specialize (Hf _ _ Hk). rewrite (accepts_marshal key) by done. cbn. rewrite (kept_read_back key) by done. by right.
Qed.

Lemma spec_put_id base key v k r aw :
  spec_run ptr base (MPut (Some d) key (Some v) k) ∅ = (CReturn (Some r) None, aw) →
  (∃ e, spec_run ptr base (k (Some e)) ∅ = (CReturn (Some r) None, aw)) ∨ spec_run ptr base (k None) {[(id_of, key) := Some v]} = (CReturn (Some r) None, aw).
Proof.
  cbn [spec_run]. destruct (validDataset ptr fresh_tx (Some d) key "put") as [info|e] eqn:E; [|eauto].
  assert (di_ID info = id_of) as ->.
  { revert E. unfold validDataset. destruct (tx_valid fresh_tx "put"); [|done]. cbn. case_bool_decide; cbn; [|done].
    destruct (validRecordKey key); [|done]. cbn. by intros [= <-]. }
  case_match; eauto.
Qed.

(** ** What is asked of the closures *)

Lemma return_wf result e : result ≠ [] → json_valid result = true →
  (∀ c v, e ≫= as_rejection = Some (c, v) → v = [] ∨ json_valid v = true) → mutation_wf o (MReturn (Some result) e).
Proof. intros H1 H2 H3. split; [by intros v [= <-]|done]. Qed.
Lemma nil_wf e : (∀ c v, as_rejection e = Some (c, v) → v = [] ∨ json_valid v = true) → mutation_wf o (MReturn json_nil (Some e)).
Proof. intros He. by apply return_wf. Qed.
Lemma nil_error_wf e : as_rejection e = None → mutation_wf o (MReturn json_nil (Some e)).
Proof. intros He. apply nil_wf. by rewrite He. Qed.
Lemma reject_wf code : mutation_wf o (MReturn json_nil (Some (Reject code))).
Proof. apply nil_wf. intros c' v [= _ <-]. by left. Qed.
Lemma refuse_wf code (v : T) result : result ≠ [] → json_valid result = true → mutation_wf o (MReturn (Some result) (Some (RejectWithResult code (Some (marshal v))))).
Proof. intros H1 H2. apply return_wf; [done|done|]. intros c' w [= _ <-]. right. apply marshal_valid. Qed.
Lemma fetch_wf key (k : res gerror (option T) → mutation) :
  (∀ e, as_rejection e = None → mutation_wf o (k (Err e))) → (∀ v, mutation_wf o (k (Ok v))) → mutation_wf o (fetch d key k).
Proof. intros H1 H2. split; [done|]. intros [[data|]|e] He; [apply H2|apply H2|apply H1, (He e eq_refl)]. Qed.
Lemma put_wf key (v : T) k : (∀ e, e ≫= as_rejection = None → mutation_wf o (k e)) → mutation_wf o (MPut (Some d) key (Some (marshal v)) k).
Proof. intros Hk. split_and!; [done| |done]. intros w [= <-]. apply marshal_valid. Qed.
Lemma store_wf key (v : T) result : result ≠ [] → json_valid result = true → mutation_wf o (store d key v result).
Proof. intros H1 H2. apply put_wf. intros e He. apply return_wf; [done|done|]. by rewrite He. Qed.

(** [return v, tx.Put(d, key, v)] that returned no error. *)
Lemma spec_store base key (v : T) result r aw :
  spec_run ptr base (store d key v result) ∅ = (CReturn (Some r) None, aw) → aw = {[(id_of, key) := Some (marshal v)]}.
Proof. intros [[e He]|He]%spec_put_id; cbn in He; by simplify_eq. Qed.
End Machine.

(** ** Runs of commands *)

Section Runs.
Context {T Op : Type} `{KeptOK T} (o : KeyedOptions) (ptr : nat) (c : catalogState) (d : DatasetHandle) (command_of : Op → command T).

(** The operations on the map of the service: each must be possible. *)
Fixpoint plays (m : gmap bytes T) (ops : list Op) : option (gmap bytes T) :=
  match ops with
  | [] => Some m
  | op :: ops => v ← cm_delta (command_of op) (m !! cm_key (command_of op)); plays (<[cm_key (command_of op) := v]> m) ops
  end.
Lemma plays_app m a b : plays m (a ++ b) = m' ← plays m a; plays m' b.
Proof. revert m. induction a as [|op a IH]; intros m; [done|]. cbn. destruct (cm_delta _ _); [apply IH|done]. Qed.

(** The operations one after another: one that is not decided, or is a
    repetition, changes nothing; those that were applied are listed. *)
Definition exec (st : kstate) (op : Op) : kstate * list Op :=
  match executeKeyed o st (catalog_request ptr c (cm_id (command_of op)) (cm_mutation (command_of op))) with
  | ExPersist r => (applyKeyed o st r, if kr_Applied r then [op] else [])
  | _ => (st, [])
  end.
Fixpoint exec_all (st : kstate) (ops : list Op) : kstate * list Op :=
  match ops with
  | [] => (st, [])
  | op :: ops => let (st, a) := exec st op in let (st, b) := exec_all st ops in (st, a ++ b)
  end.

Hypothesis Hd : handle_ok o (Some d).
Abbreviation id_of := (di_ID (dh_info d)).
Abbreviation holds := (holds d).
Abbreviation implements := (λ op, implements o ptr d (command_of op)).

Lemma exec_holds st m op :
  holds (view (records st)) m → implements op →
  ∃ m', plays m (exec st op).2 = Some m' ∧ holds (view (records (exec st op).1)) m'
    ∧ ∀ id k, u64_range id → id ≠ id_of → view (records (exec st op).1) id k = view (records st) id k.
Proof.
  intros Hh [Hwf Him]. unfold exec. set (cmd := command_of op) in *.
  destruct (executeKeyed o st _) as [v|e|dec|r] eqn:Hex; try by exists m.
  destruct (kr_Applied r) eqn:Hap.
  - destruct (catalog_committed o ptr c (catalog_request ptr c (cm_id cmd) (cm_mutation cmd)) (cm_mutation cmd) st r eq_refl Hex Hap) as (tx&Hm&_&_&Hov).
    assert (writes_view fresh_tx ∅) as Hv by (split; [done|]; intros; cbn; by rewrite !lookup_empty).
    destruct (run_mutation_refines o ptr (cm_mutation cmd) st fresh_tx ∅ Hwf Hv) as [H1 H2]. rewrite Hm in H1, H2.
    destruct (spec_run ptr (view (records st)) (cm_mutation cmd) ∅) as [out aw] eqn:Hs. cbn in H1, H2. subst out.
    destruct (Him _ m _ _ Hh Hs) as (v&Hv1&Hfit&Haw).
    assert (Hview : ∀ id k, u64_range id → view (records (applyKeyed o st r)) id k = default (view (records st) id k) (aw !! (id, k))).
    { intros id k Hid. unfold view. rewrite Hov. unfold overlay. rewrite (proj2 H2) by done. by destruct (aw !! (id, k)). }
    destruct (Hd d eq_refl) as [Hu _]. destruct Hh as [Hh1 Hh2]. exists (<[cm_key cmd := v]> m). cbn [fst snd plays]. fold cmd. rewrite Hv1. cbn [mbind option_bind]. split_and!; [done|split|].
    + intros k. rewrite Hview by done. destruct Haw as [->|[-> Hsame]].
      * destruct (decide (k = cm_key cmd)) as [->|Hn]; [by rewrite lookup_singleton_eq, lookup_insert_eq|].
        rewrite lookup_singleton_ne, lookup_insert_ne by congruence. apply Hh1.
      * rewrite lookup_empty. cbn. rewrite insert_id by done. apply Hh1.
    + intros k u [[<- <-]|[_ Hk]]%lookup_insert_Some; [done|by apply Hh2].
    + intros id k Hid Hn. rewrite Hview by done. destruct Haw as [->|[-> _]]; [|by rewrite lookup_empty].
      rewrite lookup_singleton_ne by congruence. done.
  - destruct (runKeyedMutation o st (catalog_mutation ptr c (cm_mutation cmd)) fresh_tx) as [out tx] eqn:Hrun.
    destruct (executeKeyed_overlay o st (catalog_request ptr c (cm_id cmd) (cm_mutation cmd)) _ out tx r eq_refl Hrun Hex) as [(_&Hf&_)|(_&_&Hrec)]; [congruence|].
    exists m. cbn [fst snd]. by rewrite Hrec.
Qed.

(** Whatever commands run, the dataset holds the map after those that were
    applied, each of which was possible; the other datasets are as before. *)
Lemma exec_all_holds st m ops :
  holds (view (records st)) m → Forall implements ops →
  ∃ m', plays m (exec_all st ops).2 = Some m' ∧ holds (view (records (exec_all st ops).1)) m'
    ∧ ∀ id k, u64_range id → id ≠ id_of → view (records (exec_all st ops).1) id k = view (records st) id k.
Proof.
  intros Hh Hc. revert st m Hh. induction Hc as [|op ops Hi _ IH]; intros st m Hh; cbn [exec_all]; [by exists m|].
  destruct (exec_holds st m op Hh Hi) as (m1&H1&H2&H3). destruct (exec st op) as [st1 a] eqn:E. cbn [fst snd] in *.
  destruct (IH st1 _ H2) as (m2&G1&G2&G3). destruct (exec_all st1 ops) as [st2 b]. cbn [fst snd] in *. exists m2. split_and!; [|done|].
  - by rewrite plays_app, H1.
  - intros id k Hid Hn. by rewrite G3, H3.
Qed.

Lemma exec_all_applied (P : Op → Prop) st ops : Forall P ops → Forall P (exec_all st ops).2.
Proof.
  intros HP. revert st. induction HP as [|op ops Hc _ IH]; intros st; cbn [exec_all]; [done|]. specialize (IH (exec st op).1). unfold exec in *.
  destruct (executeKeyed _ _ _) as [| | |r]; cbn in *; try (by destruct (exec_all st ops)). destruct (exec_all _ ops); cbn in *. destruct (kr_Applied r); [by constructor|done].
Qed.

End Runs.

(** ** Listing *)

Section Listing.
Context {T : Type} `{KeptOK T}.

Lemma scan_choose wanted limit i id rs keys (vs acc : list T) :
  Forall2 (λ k v, unmarshal (default [] (rs !! backendRecordKey id k)) = Some v) keys vs → zlen acc < limit →
  scan_loop (λ _, false) i id rs
    (λ acc key encoded, match unmarshal encoded with
                        | None => (acc, (ScanStop, Some (EError ErrorCorruption "scan_dataset" (EMsg "json"))))
                        | Some v => choose wanted limit acc key v
                        end) acc keys
  = (acc ++ take (Z.to_nat limit - length acc) (List.filter wanted vs), None).
Proof.
  intros Hf. revert i acc. induction Hf as [|k v keys vs Hv _ IH]; intros i acc Ha; cbn [scan_loop List.filter]; [by rewrite take_nil, app_nil_r|].
  rewrite Hv. unfold choose at 1. destruct (wanted v); cbn [negb]; [|cbn; by apply IH]. unfold zlen in *. rewrite length_app. cbn [length].
  destruct (Z.eqb_spec (Z.of_nat (length acc + 1)) limit) as [He|He]; cbn.
  - replace (Z.to_nat limit - length acc)%nat with 1%nat by lia. done.
  - rewrite IH by (rewrite length_app; cbn [length]; lia). rewrite length_app. cbn [length].
    replace (Z.to_nat limit - length acc)%nat with (S (Z.to_nat limit - (length acc + 1))) by lia. cbn [take]. by rewrite <-app_assoc.
Qed.

(** A listing is the first wanted values of the service, by their keys. *)
Theorem listed_in_order (size : Z) (wanted : T → bool) (limit : Z) (db : Database) (d : DatasetHandle) (m : gmap bytes T) :
  hooked (keyed db) → di_Kind (dh_info d) = KeyedJSON → u64_range (di_ID (dh_info d)) →
  db_closed (keyed db) = false → db_poisoned (keyed db) = false → holds d (view (records (db_state (keyed db)))) m →
  0 < limit → size * limit ≤ maxAlloc →
  ∃ l, ascending l.*1 ∧ (∀ k v, (k, v) ∈ l ↔ m !! k = Some v)
    ∧ list_wanted size wanted limit db d CtxLive (λ _, false) = Some (Ok (take (Z.to_nat limit) (List.filter wanted l.*2))).
Proof.
  intros [_ Hq] Hkind Hid Hc Hp [Hh Hf] Hl Hm. destruct (Hq _ Hid) as [Hasc Hkeys].
  set (id := di_ID (dh_info d)) in *. set (keys := keys_of (db_hook (keyed db)) id) in *.
  assert (Hin : ∀ k, k ∈ keys → ∃ v, m !! k = Some v).
  { intros k [v Hv]%Hkeys. specialize (Hh k). unfold view in Hh. fold id in Hh. rewrite Hv in Hh. destruct (m !! k) as [w|]; [by exists w|done]. }
  assert (∃ vs, Forall2 (λ k v, m !! k = Some v) keys vs) as [vs Hvs].
  { clear -Hin. induction keys as [|k keys IH]; [by exists []|]. destruct (Hin k) as [v Hv]; [by left|]. destruct IH as [vs Hvs]; [intros k' Hk'; apply Hin; by right|]. exists (v :: vs). by constructor. }
  assert ((zip keys vs).*1 = keys ∧ (zip keys vs).*2 = vs) as [Hz1 Hz2].
  { apply Forall2_length in Hvs. split; [apply fst_zip|apply snd_zip]; lia. }
  exists (zip keys vs). rewrite Hz1, Hz2. split_and!; [done| |].
  - intros k v. rewrite list_elem_of_lookup. setoid_rewrite lookup_zip_Some. split.
    + intros (j&H1&H2). by apply (Forall2_lookup_lr _ _ _ _ _ _ Hvs H1 H2).
    + intros Hv. assert (k ∈ keys) as [j Hj]%list_elem_of_lookup; [apply Hkeys; specialize (Hh k); rewrite Hv in Hh; by eexists|].
      destruct (Forall2_lookup_l _ _ _ _ _ Hvs Hj) as (w&Hw&Hmw). exists j. split; [done|]. rewrite Hw. congruence.
  - unfold list_wanted, ScanDataset, scan, enterKeyed, guard_err. destruct (Z.leb_spec limit 0); [lia|]. destruct (Z.ltb_spec maxAlloc (size * limit)); [lia|].
    rewrite Hkind, bool_decide_true, Hc, Hp by done. cbn [negb res_bind]. fold id. change (default [] _) with keys.
    rewrite (scan_choose _ _ _ _ _ _ vs); [by rewrite Nat.sub_0_r| |by unfold zlen]. eapply Forall2_impl; [done|]. intros k v Hv. cbn beta.
    pose proof (Hh k) as Hk. unfold view in Hk. fold id in Hk. rewrite Hk, Hv. cbn. by apply (kept_read_back k), Hf.
Qed.
End Listing.

(** The closures return what the database said, a rejection, or what they
    stored. *)
Ltac wf_end :=
  first [by apply nil_error_wf | apply reject_wf
        |apply refuse_wf; [(apply kept_nonempty || done)|(apply marshal_valid || done)]
        |apply store_wf; [done|apply kept_nonempty|apply marshal_valid]
        |apply return_wf; [apply kept_nonempty|apply marshal_valid|done]].
Ltac wf_fetch := apply fetch_wf; [done|intros e He; wf_end|]; intros [v|]; cbn beta iota zeta; try wf_end.
Ltac spec_fetched m Hh := intros [[e He]|He]%(spec_fetch _ _ _ m _ _ _ _ Hh); [done|].

(** ** The inventory *)

Definition item_fits (k : bytes) (i : Item) : Prop := it_ID i = k ∧ utf8_valid k = true ∧ i64_range (it_Stock i).
#[export, refine] Instance Item_keptok : KeptOK Item := {| fits := item_fits |}.
Proof.
  - intros [id n]. cbn. split; [eauto|lia].
  - intros k [id n] (<-&Ht&Hn). cbn [it_ID it_Stock] in *. unfold kept_json, kept_member, kept_zero, Item_kept, item_json, into_struct. cbn [norm map fst snd it_ID it_Stock].
    do 2 member_step item_member. done.
Defined.

Definition reservation_fits (k : bytes) (r : Reservation) : Prop := utf8_valid (rv_ItemID r) = true ∧ i64_range (rv_Quantity r) ∧ i64_range (rv_Remaining r).
#[export, refine] Instance Reservation_keptok : KeptOK Reservation := {| fits := reservation_fits |}.
Proof.
  - intros [id q n]. cbn. split; [eauto 6|lia].
  - intros k [id q n] (Ht&Hq&Hn). cbn [rv_ItemID rv_Quantity rv_Remaining] in *.
    unfold kept_json, kept_member, kept_zero, Reservation_kept, reservation_json, into_struct. cbn [norm map fst snd rv_ItemID rv_Quantity rv_Remaining].
    do 3 member_step reservation_member. done.
Defined.

Inductive inventory_op := OpCreate (id : bytes) (item : Item) | OpReserve (c : InventoryCommand) | OpRelease (c : InventoryCommand).
Definition item_delta (op : inventory_op) (old : option Item) : option Item :=
  match op, old with
  | OpCreate _ item, None => if bool_decide (it_ID item ≠ []) && (0 <=? it_Stock item) then Some item else None
  | OpReserve c, Some item => if (0 <? ic_Quantity c) && (ic_Quantity c <=? it_Stock item) then Some (Build_Item (it_ID item) (it_Stock item - ic_Quantity c)) else None
  | OpRelease c, Some item => if 0 <? ic_Quantity c then Some (Build_Item (it_ID item) (i64 (it_Stock item + ic_Quantity c))) else None
  | _, _ => None
  end.
Definition item_command (d : DatasetHandle) (op : inventory_op) : command Item :=
  match op with
  | OpCreate id item => Build_command id (it_ID item) (create_item d item) (item_delta op)
  | OpReserve c => Build_command (ic_ID c) (ic_ItemID c) (reserve_item d c) (item_delta op)
  | OpRelease c => Build_command (ic_ID c) (ic_ItemID c) (release_item d c) (item_delta op)
  end.
(** Identifiers are text and numbers are Go's [int]. *)
Definition item_op_ok (op : inventory_op) : Prop :=
  match op with
  | OpCreate _ item => utf8_valid (it_ID item) = true ∧ i64_range (it_Stock item)
  | OpReserve c | OpRelease c => utf8_valid (ic_ItemID c) = true ∧ i64_range (ic_Quantity c)
  end.

Section Inventory.
Context (o : KeyedOptions) (ptr : nat) (d : DatasetHandle).
Hypothesis Hd : handle_ok o (Some d).

Lemma item_implements op : item_op_ok op → implements o ptr d (item_command d op).
Proof.
  destruct op as [id item|q|q]; intros [Hu Hn]; split.
  - wf_fetch. destruct (_ || _); wf_end.
  - intros base m r aw Hh. cbn [item_command cm_mutation cm_delta cm_key]. spec_fetched m Hh.
    destruct (m !! it_ID item) as [v|] eqn:E; [done|]. destruct (_ || _) eqn:Eb; [done|]. apply spec_store in He.
    apply orb_false_iff in Eb as [Eb1 Eb2]. apply bool_decide_eq_false in Eb1. exists item. cbn [item_delta].
    rewrite bool_decide_eq_true_2 by done. assert ((0 <=? it_Stock item) = true) as -> by lia. cbn. split_and!; [done..|by left].
  - wf_fetch. destruct (ic_Quantity q <=? 0); [wf_end|]. destruct (_ <? _); [wf_end|]. apply put_wf; [done|]. intros [e|] He; wf_end.
  - intros base m r aw Hh. cbn [item_command cm_mutation cm_delta cm_key]. spec_fetched m Hh. destruct (m !! ic_ItemID q) as [v|] eqn:E; [|done].
    destruct (ic_Quantity q <=? 0) eqn:E1; [done|]. destruct (it_Stock v <? ic_Quantity q) eqn:E2; [done|].
    apply spec_put_id in He as [[e He]|He]; cbn in He; [done|]. destruct (proj2 Hh _ _ E) as (Hk&_&Hr). unfold i64_range in *.
    rewrite i64_id in He by (unfold i64_range; lia). exists (Build_Item (it_ID v) (it_Stock v - ic_Quantity q)). cbn [item_delta it_ID it_Stock].
    assert ((0 <? ic_Quantity q) && (ic_Quantity q <=? it_Stock v) = true) as -> by lia. split_and!; [done| |].
    + split_and!; [done|done|]. cbn. unfold i64_range. lia.
    + left. rewrite Hk in He |- *. by injection He as _ <-.
  - wf_fetch. destruct (ic_Quantity q <=? 0); wf_end.
  - intros base m r aw Hh. cbn [item_command cm_mutation cm_delta cm_key]. spec_fetched m Hh. destruct (m !! ic_ItemID q) as [v|] eqn:E; [|done].
    destruct (ic_Quantity q <=? 0) eqn:E1; [done|]. apply spec_store in He. destruct (proj2 Hh _ _ E) as (Hk&_&Hr). cbn [it_ID] in *.
    exists (Build_Item (it_ID v) (i64 (it_Stock v + ic_Quantity q))). cbn [item_delta it_ID it_Stock]. assert ((0 <? ic_Quantity q) = true) as -> by lia. split_and!; [done| |].
    + split_and!; [done|done|]. cbn. apply i64_bound.
    + left. by rewrite <-Hk.
Qed.
End Inventory.

(** What was brought in for an item and what was taken, and whether it exists. *)
Definition supply (k : bytes) (op : inventory_op) : Z :=
  match op with
  | OpCreate _ item => if bool_decide (it_ID item = k) then it_Stock item else 0
  | OpRelease c => if bool_decide (ic_ItemID c = k) then ic_Quantity c else 0
  | OpReserve _ => 0
  end.
Definition taking (k : bytes) (op : inventory_op) : Z :=
  match op with OpReserve c => if bool_decide (ic_ItemID c = k) then ic_Quantity c else 0 | _ => 0 end.
Definition creates (k : bytes) (op : inventory_op) : bool :=
  match op with OpCreate _ item => bool_decide (it_ID item = k) | _ => false end.
Definition total (f : inventory_op → Z) (ops : list inventory_op) : Z := foldr (λ op n, f op + n) 0 ops.

Lemma total_app f a b : total f (a ++ b) = total f a + total f b.
Proof. unfold total. induction a as [|op a IH]; cbn; [done|]. lia. Qed.

(** The stock of an item is what was supplied less what was taken. *)
Lemma stock_adds_up d ops m k :
  plays (item_command d) ∅ ops = Some m → total (supply k) ops < 2 ^ 63 → 0 ≤ total (supply k) ops ∧
  if existsb (creates k) ops then ∃ id, m !! k = Some (Build_Item id (total (supply k) ops - total (taking k) ops)) ∧ 0 ≤ total (taking k) ops ≤ total (supply k) ops
  else m !! k = None ∧ total (supply k) ops = 0 ∧ total (taking k) ops = 0.
Proof.
  revert m. induction ops as [|op ops IH] using rev_ind; intros m; [by intros [= <-]|]. rewrite plays_app, !total_app, existsb_app.
  destruct (plays _ ∅ ops) as [m0|] eqn:E; [|done]. cbn [mbind option_bind plays total foldr existsb]. rewrite !Z.add_0_r, orb_false_r. specialize (IH m0 eq_refl).
  destruct (cm_delta _ _) as [v|] eqn:Ev; [|done]. intros [= <-] Hs. 
  destruct op as [id item|q|q]; cbn [item_command cm_key cm_delta item_delta supply taking creates] in *.
  - destruct (m0 !! it_ID item) eqn:Em; [done|]. destruct (_ && _) eqn:Eb; [|done]. apply andb_true_iff in Eb as [_ Eb]. injection Ev as ->.
    case_bool_decide as Hk; [subst k; rewrite lookup_insert_eq, orb_true_r|rewrite lookup_insert_ne, orb_false_r, !Z.add_0_r in * by done; by apply IH].
    destruct IH as [IH0 IH]; [lia|]. destruct (existsb _ ops); [destruct IH as (?&?&?); congruence|]. split; [lia|]. exists (it_ID v). destruct v as [i n]. cbn in *. split; [do 2 f_equal|]; lia.
  - destruct (m0 !! ic_ItemID q) as [v0|] eqn:Em; [|done]. destruct (_ && _) eqn:Eb; [|done]. apply andb_true_iff in Eb as [Eb1 Eb2]. injection Ev as <-. rewrite orb_false_r, Z.add_0_r in *.
    case_bool_decide as Hk; [subst k; rewrite lookup_insert_eq|rewrite lookup_insert_ne, !Z.add_0_r in * by done; by apply IH].
    destruct IH as [IH0 IH]; [lia|]. split; [lia|]. destruct (existsb _ ops); [|destruct IH as (?&?&?); congruence].
    destruct IH as (i&Hi&Ht). rewrite Em in Hi. injection Hi as ->. cbn in *. exists i. split; [do 2 f_equal|]; lia.
  - destruct (m0 !! ic_ItemID q) as [v0|] eqn:Em; [|done]. destruct (0 <? ic_Quantity q) eqn:Eb; [|done]. injection Ev as <-. rewrite orb_false_r, !Z.add_0_r in *.
    case_bool_decide as Hk; [subst k; rewrite lookup_insert_eq|rewrite lookup_insert_ne, !Z.add_0_r in * by done; by apply IH].
    destruct IH as [IH0 IH]; [lia|]. split; [lia|]. destruct (existsb _ ops); [|destruct IH as (?&?&?); congruence].
    destruct IH as (i&Hi&Ht). rewrite Em in Hi. injection Hi as ->. cbn in *. exists i. rewrite i64_id by (unfold i64_range; lia). split; [do 2 f_equal|]; lia.
Qed.

Lemma holds_empty {T} `{KeptOK T} d base : (∀ k, base (di_ID (dh_info d)) k = None) → holds (T := T) d base ∅.
Proof. intros Hb. split; [|done]. intros k. by rewrite Hb, lookup_empty. Qed.

(** C39: The inventory is not oversold.  Its dataset starts empty and
    belongs to the service; the clients create, reserve and release, in whatever
    order and with whatever repetitions, items whose identifiers are valid UTF-8
    with quantities that are Go's [int].  As long as what was created and released
    of an item is below 2^63, no more of it is reserved than that; its record
    holds exactly the difference, and an item that was not created has none.  Both
    conditions are needed: [reserved_without_end] has an identifier that is no
    text, [released_into_debt] a stock beyond 2^63. *)
Theorem inventory_never_oversold o ptr c d st ops k :
  handle_ok o (Some d) → (∀ k, view (records st) (di_ID (dh_info d)) k = None) → Forall item_op_ok ops →
  let '(st', applied) := exec_all o ptr c (item_command d) st ops in
  total (supply k) applied < 2 ^ 63 →
  0 ≤ total (taking k) applied ≤ total (supply k) applied ∧
  view (records st') (di_ID (dh_info d)) k
  = if existsb (creates k) applied then Some (marshal (Build_Item k (total (supply k) applied - total (taking k) applied))) else None.
Proof.
  intros Hd Hb Hops. destruct (exec_all_holds o ptr c d (item_command d) Hd st ∅ ops) as (m&Hp&[Hh Hf]&_); [by apply holds_empty| |].
  { eapply Forall_impl; [done|]. intros op Hop. by apply item_implements. }
  destruct (exec_all _ _ _ _ st ops) as [st' applied]. cbn [fst snd] in *. intros Hs. rewrite Hh.
  destruct (stock_adds_up d applied m k Hp Hs) as [H0 H1]. destruct (existsb _ applied).
  - destruct H1 as (id&Hm&Ht). split; [done|]. destruct (Hf _ _ Hm) as [Hid _]. cbn in Hid. subst id. by rewrite Hm.
  - destruct H1 as (Hm&->&->). by rewrite Hm.
Qed.

Lemma sample_dataset_ok : handle_ok catalog_options (Some sample_dataset).
Proof. intros h [= <-]. split; [by vm_compute|done]. Qed.

Definition stock_run : list inventory_op :=
  [OpCreate (bs "1") (Build_Item (bs "a") 5); OpReserve (Build_InventoryCommand (bs "2") (bs "a") 3); OpReserve (Build_InventoryCommand (bs "2") (bs "a") 3);
   OpReserve (Build_InventoryCommand (bs "3") (bs "a") 3); OpRelease (Build_InventoryCommand (bs "4") (bs "a") 1)].

Lemma inventory_never_oversold_witness :
  let '(st', applied) := exec_all catalog_options 7 sample_catalog (item_command sample_dataset) empty_kstate stock_run in
  length applied = 3%nat ∧ 0 ≤ total (taking (bs "a")) applied ≤ total (supply (bs "a")) applied
  ∧ view (records st') 1 (bs "a") = Some (marshal (Build_Item (bs "a") 3)).
Proof.
  pose proof (inventory_never_oversold catalog_options 7 sample_catalog sample_dataset empty_kstate stock_run (bs "a") sample_dataset_ok) as H.
  assert (Hops : Forall item_op_ok stock_run) by (repeat (apply Forall_cons; split); try apply Forall_nil_2; split; vm_compute; intuition congruence).
  specialize (H ltac:(intros k; apply lookup_empty) Hops). rewrite (surjective_pairing (exec_all _ _ _ _ _ _)) in H |- *.
  assert (E : (exec_all catalog_options 7 sample_catalog (item_command sample_dataset) empty_kstate stock_run).2
              = [OpCreate (bs "1") (Build_Item (bs "a") 5); OpReserve (Build_InventoryCommand (bs "2") (bs "a") 3); OpRelease (Build_InventoryCommand (bs "4") (bs "a") 1)]) by (vm_compute; reflexivity).
  rewrite E in *. split; [done|]. exact (H ltac:(vm_compute; reflexivity)).
Defined.

(** An identifier that is no text is stored under itself and read back as another
    one, to which the reservations are written: the item is reserved without end. *)
Definition raw_run : list inventory_op :=
  [OpCreate (bs "1") (Build_Item [xff] 1); OpReserve (Build_InventoryCommand (bs "2") [xff] 1); OpReserve (Build_InventoryCommand (bs "3") [xff] 1)].
Example reserved_without_end :
  let '(st', applied) := exec_all catalog_options 7 sample_catalog (item_command sample_dataset) empty_kstate raw_run in
  applied = raw_run ∧ total (taking [xff]) applied = 2 ∧ total (supply [xff]) applied = 1
  ∧ view (records st') 1 [xff] = Some (marshal (Build_Item [xff] 1)) ∧ view (records st') 1 (utf8_coerce [xff]) = Some (marshal (Build_Item (utf8_coerce [xff]) 0)).
Proof. vm_compute. split_and!; reflexivity. Qed.

(** Releasing is not bounded: the stock wraps around. *)
Example released_into_debt :
  let '(st', applied) := exec_all catalog_options 7 sample_catalog (item_command sample_dataset) empty_kstate
    [OpCreate (bs "1") (Build_Item (bs "a") 1); OpRelease (Build_InventoryCommand (bs "2") (bs "a") (2 ^ 63 - 1))] in
  length applied = 2%nat ∧ view (records st') 1 (bs "a") = Some (marshal (Build_Item (bs "a") (- 2 ^ 63))).
Proof. vm_compute. split_and!; reflexivity. Qed.

(** The limit is not bounded either: a list with a large one panics. *)
Example low_stock_panics db ctx done : ListLowStock sample_dataset db ctx done 5 (2 ^ 60) = None.
Proof. reflexivity. Qed.

(** ** Jobs *)

Record job_fits (k : bytes) (j : Job) : Prop := {
  jf_id : jb_ID j = k;
  jf_text : Forall (λ t, utf8_valid t = true) [k; jb_Status j; jb_Owner j; jb_Failure j];
  jf_attempts : i64_range (jb_Attempts j) }.
#[export, refine] Instance Job_keptok : KeptOK Job := {| fits := job_fits |}.
Proof.
  - intros [id st ow n fl]. cbn [kept_json Job_kept job_json jb_Owner jb_Failure]. unfold job_json. cbn [jb_ID jb_Status jb_Owner jb_Attempts jb_Failure].
    destruct (negb (bool_decide (ow = []))), (negb (bool_decide (fl = []))); cbn; (split; [eauto 12|lia]).
  - intros k [id st ow n fl] [<- Ht Hn]. cbn [jb_ID jb_Status jb_Owner jb_Attempts jb_Failure] in *. forall_in Ht.
    unfold kept_json, kept_member, kept_zero, Job_kept, job_json, into_struct, zeroJob. cbn [norm jb_ID jb_Status jb_Owner jb_Attempts jb_Failure]. rewrite !map_app. cbn [map app fst snd].
    do 2 member_step job_member. member_opt job_member; [|intros Eo; apply negb_false_iff, bool_decide_eq_true in Eo; by rewrite Eo].
    member_step job_member. rewrite <-(app_nil_r (map _ (opt_member _ "failure" _))).
    member_opt job_member; [|intros Eo; apply negb_false_iff, bool_decide_eq_true in Eo; by rewrite Eo]. done.
Defined.

Inductive job_op :=
  | JCreate (cid id : bytes) | JClaim (cid id owner : bytes) | JComplete (cid id owner : bytes) | JFail (cid id owner reason : bytes) | JRequeue (cid id : bytes).
Definition job_key (op : job_op) : bytes :=
  match op with JCreate _ id | JClaim _ id _ | JComplete _ id _ | JFail _ id _ _ | JRequeue _ id => id end.
Definition job_cid (op : job_op) : bytes :=
  match op with JCreate cid _ | JClaim cid _ _ | JComplete cid _ _ | JFail cid _ _ _ | JRequeue cid _ => cid end.
Definition job_change (op : job_op) : Job → bool → res gerror Job :=
  match op with
  | JCreate _ id => job_create id
  | JClaim _ _ owner => job_claim owner
  | JComplete _ _ owner => job_complete owner
  | JFail _ _ owner reason => job_fail owner reason
  | JRequeue _ _ => job_requeue
  end.
Definition job_delta (op : job_op) (old : option Job) : option Job :=
  match job_change op (default zeroJob old) (bool_decide (is_Some old)) with Ok job => Some job | Err _ => None end.
Definition job_command (d : DatasetHandle) (op : job_op) : command Job :=
  Build_command (job_cid op) (job_key op) (mutate_job d (job_key op) (job_change op)) (job_delta op).
Definition job_op_ok (op : job_op) : Prop :=
  utf8_valid (job_key op) = true ∧
  match op with JClaim _ _ owner => utf8_valid owner = true | JFail _ _ _ reason => utf8_valid reason = true | _ => True end.

Ltac texts := repeat (apply Forall_cons; split); try apply Forall_nil_2; first [assumption|vm_compute; reflexivity].

Lemma job_change_rejects op job ex e : job_change op job ex = Err e → ∃ code, e = Reject code ∨ ∃ v, e = RejectWithResult code (Some (marshal (T := Job) v)).
Proof.
  destruct op; cbn; unfold job_create, job_claim, job_complete, job_fail, job_requeue, refuse; destruct ex; cbn; try destruct (_ || _); try destruct (_ && _); try destruct (negb _); cbn; try done; intros [= <-]; eauto.
Qed.
Lemma job_change_fits op m job :
  job_op_ok op → (∀ v, m = Some v → job_fits (job_key op) v) → job_change op (default zeroJob m) (bool_decide (is_Some m)) = Ok job → job_fits (job_key op) job.
Proof.
  intros [Hk Hop] Hm. destruct m as [v|]; [rewrite bool_decide_eq_true_2 by done|rewrite bool_decide_eq_false_2 by (by intros [? ?])]; cbn [default].
  - destruct (Hm v eq_refl) as [Hid Ht Hn]. forall_in Ht.
    destruct op; cbn in *; unfold job_create, job_claim, job_complete, job_fail, job_requeue, refuse; cbn; try destruct (_ || _); try destruct (_ && _); try destruct (negb _); cbn; try done;
      intros [= <-]; (split; [assumption| |first [assumption|apply i64_bound]]); cbn [jb_Status jb_Owner jb_Failure]; texts.
  - destruct op; cbn in *; try done. intros [= <-]. split; [done| |by vm_compute]. cbn [jb_Status jb_Owner jb_Failure]. texts.
Qed.

Lemma job_implements o ptr d op : handle_ok o (Some d) → job_op_ok op → implements o ptr d (job_command d op).
Proof.
  intros Hd Hop. split.
  - cbn [job_command cm_mutation]. unfold mutate_job. apply fetch_wf; [done|intros e He; wf_end|]. intros v. cbn beta iota zeta.
    destruct (job_change _ _ _) as [job|e] eqn:E; [wf_end|]. apply job_change_rejects in E as (code&[->|[w ->]]); wf_end.
  - intros base m r aw Hh. cbn [job_command cm_mutation cm_delta cm_key]. unfold mutate_job. spec_fetched m Hh. unfold job_delta.
    destruct (job_change _ _ _) as [job|e] eqn:E; [|done]. apply spec_store in He. exists job. split_and!; [done| |by left].
    apply (job_change_fits op (m !! job_key op)); [done| |done]. intros v Hv. by apply (proj2 Hh).
Qed.

Definition on_job (k : bytes) (op : job_op) : Prop := job_key op = k.
Definition claims (k : bytes) (ops : list job_op) : Z :=
  zlen (List.filter (λ op, match op with JClaim _ id _ => bool_decide (id = k) | _ => false end) ops).

Lemma claims_snoc k ops op : claims k (ops ++ [op]) = claims k ops + match op with JClaim _ id _ => if bool_decide (id = k) then 1 else 0 | _ => 0 end.
Proof.
  unfold claims, zlen. rewrite List.filter_app, length_app. destruct op; cbn; try lia. case_bool_decide; cbn; lia.
Qed.

(** What a job says of the operations that were applied to it. *)
Definition job_history (k : bytes) (ops : list job_op) (j : Job) : Prop :=
  jb_Attempts j = i64 (claims k ops) ∧
  (jb_Status j = Claimed → jb_Failure j = [] ∧
    ∃ a cid b, ops = a ++ JClaim cid k (jb_Owner j) :: b ∧ Forall (λ op, ¬ on_job k op) b).

Lemma job_history_other k ops j op : ¬ on_job k op → job_history k ops j → job_history k (ops ++ [op]) j.
Proof.
  intros Hn [Ha Hc]. split.
  - rewrite claims_snoc, Ha. f_equal. destruct op; try lia. rewrite bool_decide_eq_false_2; [lia|done].
  - intros [Hf (a&cid&b&->&Hb)]%Hc. split; [done|]. exists a, cid, (b ++ [op]). rewrite <-app_assoc. split; [done|]. apply Forall_app; split; [done|by constructor].
Qed.

Lemma i64_succ n : i64 (i64 n + 1) = i64 (n + 1).
Proof. unfold i64. replace ((n + 2 ^ 63) mod 2 ^ 64 - 2 ^ 63 + 1 + 2 ^ 63) with ((n + 2 ^ 63) mod 2 ^ 64 + 1) by lia. rewrite Zplus_mod_idemp_l. do 2 f_equal. lia. Qed.

Lemma jobs_history d ops m k :
  plays (job_command d) ∅ ops = Some m →
  match m !! k with None => Forall (λ op, ¬ on_job k op) ops | Some j => job_history k ops j end.
Proof.
  revert m. induction ops as [|op ops IH] using rev_ind; intros m; [intros [= <-]; by rewrite lookup_empty|]. rewrite plays_app.
  destruct (plays _ ∅ ops) as [m0|] eqn:E; [|done]. cbn [mbind option_bind plays]. specialize (IH m0 eq_refl). cbn [job_command cm_delta cm_key].
  destruct (job_delta _ _) as [v|] eqn:Ev; [|done]. cbn. intros [= <-]. destruct (decide (job_key op = k)) as [Hk|Hk].
  2:{ rewrite lookup_insert_ne by done. destruct (m0 !! k); [by apply job_history_other|]. apply Forall_app. split; [done|]. by constructor. }
  subst k. rewrite lookup_insert_eq. unfold job_delta in Ev. destruct (m0 !! job_key op) as [j|] eqn:Ej.
  - destruct IH as [Ha Hc]. rewrite bool_decide_eq_true_2 in Ev by done. cbn [default] in Ev.
    destruct op as [cid id|cid id w|cid id w|cid id w r|cid id]; cbn [job_change job_key] in *; unfold job_create, job_claim, job_complete, job_fail, job_requeue in Ev; cbn [negb] in Ev; try done;
      [destruct (_ && _)|destruct (_ || _)|destruct (_ || _)|destruct (negb _)]; try done; injection Ev as <-;
      (split; cbn [jb_Attempts jb_Status jb_Failure jb_Owner]; [rewrite claims_snoc, Ha|]); try (by rewrite Z.add_0_r); try done.
    + by rewrite bool_decide_eq_true_2, i64_succ by done.
    + intros _. split; [done|]. by exists ops, cid, [].
  - rewrite bool_decide_eq_false_2 in Ev by (by intros [? ?]). destruct op as [cid id|cid id w|cid id w|cid id w r|cid id]; try done. injection Ev as <-. split; [|done].
    rewrite claims_snoc, Z.add_0_r. cbn [jb_Attempts job_key]. assert (claims id ops = 0) as ->; [|done]. unfold claims. cbn [job_key] in IH. clear -IH.
    induction IH as [|op l Hop _ IHl]; [done|]. destruct op; cbn [List.filter]; try done. rewrite bool_decide_eq_false_2; [done|exact Hop].
Qed.

Lemma completed_for_good d ops m m' k j :
  m !! k = Some j → jb_Status j = Completed → plays (job_command d) m ops = Some m' → m' !! k = Some j ∧ Forall (λ op, ¬ on_job k op) ops.
Proof.
  intros Hm Hs. revert m Hm. induction ops as [|op ops IH]; intros m Hm; [by intros [= <-]|]. cbn [plays job_command cm_delta cm_key].
  destruct (job_delta _ _) as [v|] eqn:Ev; [|done]. cbn. destruct (decide (job_key op = k)) as [Hk|Hk].
  - exfalso. rewrite Hk, Hm in Ev. unfold job_delta in Ev. rewrite bool_decide_eq_true_2 in Ev by done.
    change (default zeroJob (Some j)) with j in Ev. destruct op; cbn [job_change] in Ev; unfold job_create, job_claim, job_complete, job_fail, job_requeue in Ev; rewrite ?Hs in Ev;
      change (is_text Completed Ready) with false in Ev; change (is_text Completed Failed) with false in Ev; change (is_text Completed Claimed) with false in Ev;
      cbn [negb andb orb] in Ev; discriminate Ev.
  - intros [H1 H2]%IH; [|by rewrite lookup_insert_ne]. split; [done|]. by constructor.
Qed.

(** C40: A job is completed by its owner.  The dataset of the jobs starts
    empty and belongs to the service; the workers create, claim, complete, fail
    and requeue jobs, in whatever order and with whatever repetitions, with
    identifiers of jobs, names of claimers and reasons that are valid UTF-8.  Then
    a job is completed at most once, by the worker whose claim was the last
    operation on it; nothing changes the job afterwards, and its record tells the
    worker and how often the job was claimed.  The condition is needed:
    [completed_by_another] has a claimer whose name is no text. *)
Theorem job_completed_by_owner o ptr c d st ops k :
  handle_ok o (Some d) → (∀ k, view (records st) (di_ID (dh_info d)) k = None) → Forall job_op_ok ops →
  let '(st', applied) := exec_all o ptr c (job_command d) st ops in
  ∀ before cid worker after, applied = before ++ JComplete cid k worker :: after →
  (∃ a cid' b, before = a ++ JClaim cid' k worker :: b ∧ Forall (λ op, ¬ on_job k op) b)
  ∧ Forall (λ op, ¬ on_job k op) after
  ∧ view (records st') (di_ID (dh_info d)) k = Some (marshal (Build_Job k Completed worker (i64 (claims k before)) [])).
Proof.
  intros Hd Hb Hops. destruct (exec_all_holds o ptr c d (job_command d) Hd st ∅ ops) as (m&Hp&[Hh Hf]&_); [by apply holds_empty| |].
  { eapply Forall_impl; [done|]. intros op Hop. by apply job_implements. }
  destruct (exec_all _ _ _ _ st ops) as [st' applied]. cbn [fst snd] in *. intros before cid w after ->. rewrite Hh. rewrite plays_app in Hp.
  destruct (plays _ ∅ before) as [m0|] eqn:E0; [|done]. cbn [mbind option_bind plays] in Hp. destruct (cm_delta _ _) as [v|] eqn:Ev; [|done]. cbn [mbind option_bind] in Hp.
  pose proof (jobs_history d before m0 k E0) as Hj. cbn [job_command cm_delta cm_key job_key] in *. unfold job_delta in Ev.
  destruct (m0 !! k) as [j|]; [|done]. rewrite bool_decide_eq_true_2 in Ev by done. change (default zeroJob (Some j)) with j in Ev. cbn [job_change] in Ev. unfold job_complete in Ev. cbn [negb] in Ev.
  destruct (_ || _) eqn:Eb; [done|]. apply orb_false_iff in Eb as [Es%negb_false_iff Eo%negb_false_iff]. unfold is_text in Es, Eo. apply bool_decide_eq_true in Es, Eo. injection Ev as <-.
  destruct Hj as [Ha Hc]. destruct (Hc Es) as [Hfl (a&cid'&b&->&Hn)]. destruct (λ H, completed_for_good d after _ m k _ (lookup_insert_eq m0 k _) H Hp) as [Hm Hafter]; [done|].
  destruct (Hf _ _ Hm) as [Hid _ _]. cbn [jb_ID] in Hid. rewrite Eo in *. split_and!; [by eauto 6|done|]. rewrite Hm. cbn. by rewrite Hid, Ha, Hfl.
Qed.

Definition job_run : list job_op :=
  [JCreate (bs "1") (bs "j"); JClaim (bs "2") (bs "j") (bs "v"); JFail (bs "3") (bs "j") (bs "v") (bs "x"); JClaim (bs "4") (bs "j") (bs "w");
   JComplete (bs "5") (bs "j") (bs "v"); JComplete (bs "6") (bs "j") (bs "w"); JRequeue (bs "7") (bs "j")].

Lemma job_completed_by_owner_witness :
  let '(st', applied) := exec_all catalog_options 7 sample_catalog (job_command sample_dataset) empty_kstate job_run in
  length applied = 5%nat ∧ view (records st') 1 (bs "j") = Some (marshal (Build_Job (bs "j") Completed (bs "w") 2 [])).
Proof.
  pose proof (job_completed_by_owner catalog_options 7 sample_catalog sample_dataset empty_kstate job_run (bs "j") sample_dataset_ok) as H.
  assert (Hops : Forall job_op_ok job_run) by (repeat (apply Forall_cons; split); try apply Forall_nil_2; split; vm_compute; done).
  specialize (H ltac:(intros k; apply lookup_empty) Hops). rewrite (surjective_pairing (exec_all _ _ _ _ _ _)) in H |- *.
  assert (E : (exec_all catalog_options 7 sample_catalog (job_command sample_dataset) empty_kstate job_run).2
              = take 4 job_run ++ JComplete (bs "6") (bs "j") (bs "w") :: []) by (vm_compute; reflexivity).
  rewrite E in *. split; [done|]. exact (proj2 (proj2 (H _ _ _ _ eq_refl))).
Defined.

(** The name of a claimer is stored as text: the worker whose name is the one
    read back completes the job, which it never claimed, and the claimer cannot. *)
Definition named_run : list job_op :=
  [JCreate (bs "1") (bs "j"); JClaim (bs "2") (bs "j") [xff]; JComplete (bs "3") (bs "j") [xff]; JComplete (bs "4") (bs "j") (utf8_coerce [xff])].
Example completed_by_another :
  let '(st', applied) := exec_all catalog_options 7 sample_catalog (job_command sample_dataset) empty_kstate named_run in
  applied = [JCreate (bs "1") (bs "j"); JClaim (bs "2") (bs "j") [xff]; JComplete (bs "4") (bs "j") (utf8_coerce [xff])]
  ∧ view (records st') 1 (bs "j") = Some (marshal (Build_Job (bs "j") Completed (utf8_coerce [xff]) 1 [])).
Proof. vm_compute. split_and!; reflexivity. Qed.

(** ** Orders *)

Definition order_fits (k : bytes) (r : Order) : Prop := or_ID r = k ∧ utf8_valid k = true ∧ utf8_valid (or_Status r) = true.
#[export, refine] Instance Order_keptok : KeptOK Order := {| fits := order_fits |}.
Proof.
  - intros [id st]. cbn. split; [eauto|lia].
  - intros k [id st] (<-&Hk&Hs). cbn [or_ID or_Status] in *. unfold kept_json, kept_member, kept_zero, Order_kept, order_json, into_struct. cbn [norm map fst snd or_ID or_Status].
    do 2 member_step order_member. done.
Defined.

Inductive order_op := RCreate (cid id : bytes) | RTransition (cid id to : bytes).
Definition order_delta (op : order_op) (old : option Order) : option Order :=
  match op, old with
  | RCreate _ id, None => Some (Build_Order id Created)
  | RTransition _ _ to, Some order => if valid (or_Status order) to then Some (Build_Order (or_ID order) to) else None
  | _, _ => None
  end.
Definition order_command (d : DatasetHandle) (op : order_op) : command Order :=
  match op with
  | RCreate cid id => Build_command cid id (create_order d id) (order_delta op)
  | RTransition cid id to => Build_command cid id (transition_order d id to) (order_delta op)
  end.
Definition order_op_ok (op : order_op) : Prop := match op with RCreate _ id | RTransition _ id _ => utf8_valid id = true end.

Lemma valid_cases from to : valid from to = true → from = Created ∧ (to = Paid ∨ to = Cancelled) ∨ from = Paid ∧ (to = Shipped ∨ to = Cancelled).
Proof. unfold valid, is_text. case_bool_decide; [|case_bool_decide; [|done]]; intros [?%bool_decide_eq_true|?%bool_decide_eq_true]%orb_true_iff; auto. Qed.

Lemma order_implements o ptr d op : handle_ok o (Some d) → order_op_ok op → implements o ptr d (order_command d op).
Proof.
  intros Hd Hop. destruct op as [cid id|cid id to]; split.
  - wf_fetch.
  - intros base m r aw Hh. cbn [order_command cm_mutation cm_delta cm_key]. spec_fetched m Hh. destruct (m !! id) as [v|] eqn:E; [done|]. apply spec_store in He.
    exists (Build_Order id Created). split_and!; [done| |by left]. by split_and!.
  - wf_fetch. destruct (negb _); wf_end.
  - intros base m r aw Hh. cbn [order_command cm_mutation cm_delta cm_key]. spec_fetched m Hh. destruct (m !! id) as [v|] eqn:E; [|done].
    destruct (valid (or_Status v) to) eqn:Ev; cbn [negb] in He; [|done]. apply spec_store in He. exists (Build_Order (or_ID v) to). cbn [order_delta]. rewrite Ev.
    split_and!; [done| |by left]. destruct (proj2 Hh _ _ E) as (Hid&Hk&_). split_and!; [done|done|]. cbn [or_Status].
    apply valid_cases in Ev as [[_ [->| ->]]|[_ [->| ->]]]; vm_compute; reflexivity.
Qed.

(** The statuses an order went through. *)
Definition passage (k : bytes) (op : order_op) : option bytes :=
  match op with RCreate _ id => if bool_decide (id = k) then Some Created else None | RTransition _ id to => if bool_decide (id = k) then Some to else None end.
Definition route (k : bytes) (ops : list order_op) : list bytes := omap (passage k) ops.
Definition life_cycles : list (list bytes) := [[Created]; [Created; Paid]; [Created; Cancelled]; [Created; Paid; Shipped]; [Created; Paid; Cancelled]].

Lemma orders_history d ops m k :
  plays (order_command d) ∅ ops = Some m →
  match m !! k with None => route k ops = [] | Some r => route k ops ∈ life_cycles ∧ last (route k ops) = Some (or_Status r) end.
Proof.
  revert m. induction ops as [|op ops IH] using rev_ind; intros m; [intros [= <-]; by rewrite lookup_empty|]. rewrite plays_app.
  destruct (plays _ ∅ ops) as [m0|] eqn:E; [|done]. cbn [mbind option_bind plays]. specialize (IH m0 eq_refl). unfold route in *. rewrite omap_app.
  destruct op as [cid id|cid id to]; cbn [order_command cm_delta cm_key order_delta omap list_omap passage].
  - destruct (m0 !! id) eqn:Em; [done|]. intros [= <-]. case_bool_decide as Hk; [subst id|by rewrite lookup_insert_ne, app_nil_r by done].
    rewrite lookup_insert_eq. rewrite Em in IH. rewrite IH. split; [by left|done].
  - destruct (m0 !! id) as [r|] eqn:Em; [|done]. destruct (valid (or_Status r) to) eqn:Ev; [|done]. intros [= <-].
    case_bool_decide as Hk; [subst id|by rewrite lookup_insert_ne, app_nil_r by done]. rewrite lookup_insert_eq. rewrite Em in IH. rewrite last_snoc. split; [|done].
    destruct IH as [Hr Hl]. unfold life_cycles in *. rewrite !elem_of_cons in *.
    destruct Hr as [Hr|[Hr|[Hr|[Hr|[Hr|[]%elem_of_nil]]]]]; rewrite Hr in *; injection Hl as Hl;
      apply valid_cases in Ev as [[Ev [->| ->]]|[Ev [->| ->]]]; rewrite Ev in Hl; try discriminate Hl; cbn [app]; tauto.
Qed.

(** C12: Orders move along their life cycle.  The dataset of the
    orders starts empty and belongs to the service; the clients create orders and
    ask for transitions, in whatever order and with whatever repetitions, the
    identifiers of the orders being valid UTF-8.  Then an order that exists was
    created once and went through one of the life cycles, paid before it was
    shipped and never cancelled once shipped; its record holds the last status,
    and an order that was not created has no record. *)
Theorem order_life_cycle o ptr c d st ops k :
  handle_ok o (Some d) → (∀ k, view (records st) (di_ID (dh_info d)) k = None) → Forall order_op_ok ops →
  let '(st', applied) := exec_all o ptr c (order_command d) st ops in
  route k applied = [] ∧ view (records st') (di_ID (dh_info d)) k = None
  ∨ route k applied ∈ life_cycles ∧ ∃ status, last (route k applied) = Some status ∧ view (records st') (di_ID (dh_info d)) k = Some (marshal (Build_Order k status)).
Proof.
  intros Hd Hb Hops. destruct (exec_all_holds o ptr c d (order_command d) Hd st ∅ ops) as (m&Hp&[Hh Hf]&_); [by apply holds_empty| |].
  { eapply Forall_impl; [done|]. intros op Hop. by apply order_implements. }
  destruct (exec_all _ _ _ _ st ops) as [st' applied]. cbn [fst snd] in *. rewrite Hh. pose proof (orders_history d applied m k Hp) as Ho.
  destruct (m !! k) as [[id status]|] eqn:E; [right|by left]. destruct Ho as [H1 H2]. split; [done|]. exists status. split; [done|]. destruct (Hf _ _ E) as [Hid _]. cbn in Hid. by subst id.
Qed.

Definition order_run : list order_op :=
  [RCreate (bs "1") (bs "r"); RTransition (bs "2") (bs "r") Shipped; RTransition (bs "3") (bs "r") Paid; RTransition (bs "4") (bs "r") Shipped; RTransition (bs "5") (bs "r") Cancelled].

Lemma order_life_cycle_witness :
  let '(st', applied) := exec_all catalog_options 7 sample_catalog (order_command sample_dataset) empty_kstate order_run in
  route (bs "r") applied = [Created; Paid; Shipped] ∧ [Created; Paid; Shipped] ∈ life_cycles.
Proof.
  pose proof (order_life_cycle catalog_options 7 sample_catalog sample_dataset empty_kstate order_run (bs "r") sample_dataset_ok) as H.
  assert (Hops : Forall order_op_ok order_run) by (repeat (apply Forall_cons; split); try apply Forall_nil_2; vm_compute; done).
  specialize (H ltac:(intros k; apply lookup_empty) Hops). rewrite (surjective_pairing (exec_all _ _ _ _ _ _)) in H |- *.
  assert (E : route (bs "r") (exec_all catalog_options 7 sample_catalog (order_command sample_dataset) empty_kstate order_run).2 = [Created; Paid; Shipped]) by (vm_compute; reflexivity).
  rewrite E in *. split; [done|]. destruct H as [[H _]|[H _]]; [discriminate H|exact H].
Defined.

(** ** Webhooks *)

Definition event_fits (k : bytes) (e : Event) : Prop := ev_ID e = k ∧ Forall (λ t, utf8_valid t = true) [k; ev_Status e; ev_Result e].
#[export, refine] Instance Event_keptok : KeptOK Event := {| fits := event_fits |}.
Proof.
  - intros [id st r]. cbn. split; [eauto|lia].
  - intros k [id st r] (<-&Ht). cbn [ev_ID ev_Status ev_Result] in *. forall_in Ht. unfold kept_json, kept_member, kept_zero, Event_kept, event_json, into_struct. cbn [norm map fst snd ev_ID ev_Status ev_Result].
    do 3 member_step event_member. done.
Defined.

Definition event_delta (e : Event) (old : option Event) : option Event :=
  match old with
  | Some existing => Some existing
  | None => if bool_decide (ev_ID e = []) then None else Some (Build_Event (ev_ID e) (bs "processed") (ev_Result e))
  end.
Definition event_command (d : DatasetHandle) (e : Event) : command Event := Build_command (ev_ID e) (ev_ID e) (process_event d e) (event_delta e).
Definition event_op_ok (e : Event) : Prop := utf8_valid (ev_ID e) = true ∧ utf8_valid (ev_Result e) = true.

Lemma event_implements o ptr d ev : handle_ok o (Some d) → event_op_ok ev → implements o ptr d (event_command d ev).
Proof.
  intros Hd [Hk Hr]. split.
  - wf_fetch. destruct (bool_decide _); [wf_end|]. apply put_wf; [done|]. intros [e|] He; wf_end.
  - intros base m r aw Hh. cbn [event_command cm_mutation cm_delta cm_key]. spec_fetched m Hh. unfold event_delta. destruct (m !! ev_ID ev) as [v|] eqn:E.
    + exists v. split_and!; [done|by apply (proj2 Hh)|right]. cbn in He. by injection He as _ <-.
    + destruct (bool_decide _); [done|]. apply spec_put_id in He as [[e He]|He]; cbn in He; [done|]. exists (Build_Event (ev_ID ev) (bs "processed") (ev_Result ev)).
      split_and!; [done| |left; by injection He as _ <-]. split; [done|]. cbn [ev_Status ev_Result]. texts.
Qed.

Definition first_event (k : bytes) (events : list Event) : option Event := List.find (λ e, bool_decide (ev_ID e = k)) events.
Definition processed (k : bytes) (e : Event) : Event := Build_Event k (bs "processed") (ev_Result e).

(** The first event of an identifier is the one that is kept. *)
Lemma events_history d events m0 m k :
  plays (event_command d) m0 events = Some m →
  m !! k = match m0 !! k with Some v => Some v | None => processed k <$> first_event k events end.
Proof.
  revert m0. induction events as [|ev events IH]; intros m0; cbn [plays event_command cm_delta cm_key first_event List.find].
  - intros [= <-]. by destruct (m0 !! k).
  - destruct (event_delta ev (m0 !! ev_ID ev)) as [v|] eqn:Ev; [|done]. cbn [mbind option_bind]. intros ->%IH. case_bool_decide as Hk.
    + subst k. rewrite lookup_insert_eq. destruct (m0 !! ev_ID ev) as [w|]; cbn in Ev; [done|]. case_bool_decide; [done|]. by injection Ev as <-.
    + by rewrite lookup_insert_ne.
Qed.

(** Whatever deliveries arrive, their identifiers and results valid UTF-8, in
    whatever order and however often, the record of an event is that of the first delivery that was applied. *)
Theorem event_processed_once o ptr c d st events k :
  handle_ok o (Some d) → (∀ k, view (records st) (di_ID (dh_info d)) k = None) → Forall event_op_ok events →
  let '(st', applied) := exec_all o ptr c (event_command d) st events in
  view (records st') (di_ID (dh_info d)) k = marshal ∘ processed k <$> first_event k applied.
Proof.
  intros Hd Hb Hops. destruct (exec_all_holds o ptr c d (event_command d) Hd st ∅ events) as (m&Hp&[Hh Hf]&_); [by apply holds_empty| |].
  { eapply Forall_impl; [done|]. intros op Hop. by apply event_implements. }
  destruct (exec_all _ _ _ _ st events) as [st' applied]. cbn [fst snd] in *. rewrite Hh, (events_history d applied ∅ m k Hp), lookup_empty. by destruct (first_event k applied).
Qed.
